(* ===== verification/_CoqProject ===== *)
-Q . S2P
Prelude.v
Mask.v
Bitmanip.v
Isa.v
Decompress.v
BitVector.v
Kmu.v
Cta.v
Launch.v
Instr.v
Decode.v
IsaSem.v
Regfile.v
Dispatch.v
Scoreboard.v
Pipeline.v
Scheduler.v
Alu.v
Core.v
Intrinsics.v
Barrier.v
Wctl.v
MemAlloc.v
PageTable.v
Radix.v
Vm.v
CmdProc.v
CpHost.v
Draw.v
Caps.v
Mmu.v
Translation.v
Ram.v
Fabric.v
Hbm.v
Split.v
CoreMem.v
Rv32.v
CpuLane.v
GpuLane.v
Simt.v
Gemm.v
Soc.v
