(* ===== verification/Prelude.v ===== *)
(** * Verification of aegis-soc

    The repository holds an SoC in Chisel ([src/main/scala/aegis]) and the
    Vortex GPGPU ([vortex/]) that the SoC can carry as its accelerator: RTL, a
    cycle-level simulator in C++ ([vortex/sim/simx]) that is its reference, and
    the host runtime ([vortex/sw]).  The development models the SoC as a whole,
    and of Vortex the simulator's core and the path from the host's API to it.

    ** The SoC

    Three lanes share one HBM3 stack: the CPU (an RV32I core behind a line
    adapter), the GPU (an external cluster and an on-die SIMT core behind a
    cache port and an AXI adapter) and the accelerator (a matrix engine, or the
    Vortex black box behind an AXI adapter of its own).

    - [Fabric]: the bundles of [types.scala], and the contract of a line port
      ([port_cycle]): requests are taken one at a time, performed once and
      answered once, while other agents may change what the port allows them.
    - [Hbm] ([memory/HBM3Stack.scala]) and [Split]
      ([memory/SplitPrioritizer.scala]): the stack with its pages and refresh,
      and the arbiter around it.  [fabric_atomic]: one atomic memory, whatever
      the lanes drive.  [fabric_fair]: a grant within 72 cycles in the
      round-robin mode.  [accelerator_starves]: no such bound under CPU priority.
    - [CoreMem] ([cpu/CoreMemToHBM.scala]), [Rv32] ([cpu/RiscVCore.scala]) and
      [CpuLane]: the core and its adapter; [cpu_runs_isa] relates them on any
      line port to the instruction semantics of [Rv32] (which shares its
      arithmetic with [IsaSem]).
    - [GpuLane] ([gpu/GPUL2Cache.scala], [bridge/AXIToMemReq.scala]):
      [gpu_lane_ports] gives each cluster a line port; [axi_write_merges] is the
      partial write.
    - [Simt] ([gpu/SimtCore.scala]), [Gemm] ([fixedfunc/GemmToMem.scala]): the
      two compute engines on any line port.
    - [Soc] ([Top.scala], [gpu/VortexBlackBox.scala]): the chip.  The theorems
      [soc_cpu_runs], [soc_simt_runs] and [soc_gemm_runs] follow from the
      contracts: programs, kernels and products end, correctly and in bounded
      time, in the round-robin mode and however the other lanes compete, as long
      as these stay off the lines in question.  Programs keep to what [rv32_ok]
      and [access_ok] allow.

    A module is the record of its registers, its wires as functions, and a
    function to the registers of the next cycle.  Registers without a reset value
    take an arbitrary one.

    ** The simulator

    - [Isa], [IsaSem]: the reference encodings and integer semantics; they
      translate no source file.  [Decompress] ([decompressor.cpp]) and [Decode]
      ([decode.cpp]) invert the encodings; [Instr] holds the decoded form.
    - [Scheduler], [Scoreboard], [Regfile], [Dispatch], [Alu], [Pipeline],
      [Core]: the stages of a core.  [pipeline_sequential] and
      [pipeline_drains]: out-of-order completion is invisible and nothing
      deadlocks.  [core_runs_isa]: a warp running integer code follows the
      instruction set, but for the two instructions [unit_follows] excludes.
      [dispatch_partitions_warp]: one packet per group of lanes that is active.
    - [Barrier], [Wctl]: barriers and warp control.  [warp_control_safe]: no
      assertion fails in a [guarded] run; [split_join_reconverges]:
      divergence executes both sides and reconverges.
    - [Intrinsics] ([sw/kernel/include/vx_intrinsics.h]): the words kernels emit
      and their meaning on the core.
    - [Kmu], [Cta]: the grid walk and the placement of blocks; each block in its
      place of the order and each thread exactly once, with the coordinates it
      reads from the CSRs.
    - [Mask], [BitVector], [Bitmanip]: thread masks and bit utilities; [Mask] is
      the interface the scheduler is proved against and [BitVector] implements;
      [bitvector_refines_bits] is about the class as a whole.
    - [PageTable], [Radix], [Mmu], [Translation], [Ram]: the page-table walkers,
      the MMU of a core and the simulated memory.  [mmu_transparent]: no request
      is lost, duplicated or sent to a wrong address while the root changes only
      between walks.

    ** The runtime

    - [MemAlloc] ([sw/common/mem_alloc.h]): the allocator refines a set of
      disjoint ranges and fails only when there is no room.
    - [Vm] ([sw/runtime/common/vm.cpp]): the host builds the tables;
      [Translation] composes it with the MMU and the copy engine.
    - [CmdProc], [CpHost], [Draw], [Caps], [Launch]: the command ring from the
      host's submission to its execution.  [cp_serves_ring], [batch_executes]:
      each command once and in order.  [draw_equals_batch]: a draw runs the first
      256 commands of the batch it replaces.  [launch_runs_every_thread] composes the
      launch path with [Kmu] and [Cta].

    ** Conventions, bounds and fuel

    Machine integers are [Z] with the wrap written out ([u8] to [u64]); bits are
    taken with [slice].  A result [None] is a failed assertion, an abort or
    undefined behaviour unless a file says otherwise.  Loops of the source are
    structural recursions, or take a fuel that the statements show to be enough:
    cycles of the command processor, ticks of the pipeline.  In the SoC the fabric
    serves a request within 72 cycles and the GPU lane within 85; hence
    [432 n + 72] cycles for [n] instructions, [595 n + 1] for a kernel of [n]
    lines and [72 * 528 + 1] for a product.  They are upper bounds, not tight.

    Some theorems are about what the code does where it should do otherwise:
    [store_merges], [backward_jal], [subpage_conflict], [batch_overflow],
    [poll_never_returns], [missed_kernel_hangs], [first_allocation_unbounded],
    [alu_isa_deviations], [satp_change_during_walk],
    [bitvector_reverse_narrow_loses].

    ** Not modelled

    - SystemVerilog RTL of Vortex: another language behind a black box; what it
      drives on its AXI port is an input of [Soc].
    - Floating point, tensor, graphics and ray-tracing units: they compute
      through SoftFloat, which is not part of the sources, or are optional
      extensions.
    - Load/store unit, caches, coalescer, atomics and DRAM timing: the cycle-level
      memory hierarchy below the MMU; the theorems hold for any behaviour of it
      (MMU) or use the flat memory.
    - The [SimObject] framework: channels are lists and the order of ticks an
      interleaving.
    - Processes, sockets, files, printing, the other back ends of the runtime,
      reference counting and threads of the runtime's objects: input and output,
      or wrappers of what is modelled.
    - The fetch-side half-word buffering, CSR reads other than the thread
      coordinates and the tick order inside a core; configuration and Verilog emission of the SoC. *)

From Stdlib Require Export ZArith Lia.
From stdpp Require Export base list gmap fin_maps numbers.

#[global] Open Scope Z_scope.

(** ** Machine integers

    A C++ unsigned integer of width [w] is a [Z] in [[0, 2^w)]; every
    arithmetic operation that can leave the range wraps explicitly. *)

Definition u8 (x : Z) : Z := x mod 2 ^ 8.
Definition u16 (x : Z) : Z := x mod 2 ^ 16.
Definition u32 (x : Z) : Z := x mod 2 ^ 32.
Definition u64 (x : Z) : Z := x mod 2 ^ 64.

(** Two's complement reading of a [w]-bit value. *)
Definition sint (w x : Z) : Z :=
  let y := x mod 2 ^ w in if y <? 2 ^ (w - 1) then y else y - 2 ^ w.

(** C++ [~x] at width [w]. *)
Definition lnot_w (w x : Z) : Z := Z.lxor x (Z.ones w).

(** ** Build configuration

    [VX_config.h] and [VX_types.h] are generated by the build from the
    [.toml] files, so the configuration is a parameter of the model. *)
Class VxConfig := {
  XLEN : Z;            (* VX_CFG_XLEN *)
  NUM_THREADS : Z;     (* VX_CFG_NUM_THREADS *)
  NUM_WARPS : Z;       (* VX_CFG_NUM_WARPS *)
  NUM_BARRIERS : Z;    (* VX_CFG_NUM_BARRIERS *)
  MEM_BLOCK_SIZE : Z;  (* VX_CFG_MEM_BLOCK_SIZE *)
  LMEM_LOG_SIZE : Z;   (* VX_CFG_LMEM_LOG_SIZE *)
  LMEM_BASE_ADDR : Z   (* VX_MEM_LMEM_BASE_ADDR *)
}.

(** What the configuration generator guarantees of the values. *)
Class VxConfigOk `{VxConfig} : Prop := {
  xlen_cases : XLEN = 32 \/ XLEN = 64;
  num_threads_ok : 1 <= NUM_THREADS <= 1024;
  num_warps_ok : 1 <= NUM_WARPS <= 64;
  num_barriers_ok : 1 <= NUM_BARRIERS <= 1024;
  mem_block_ok : exists n, 0 <= n <= 12 /\ MEM_BLOCK_SIZE = 2 ^ n;
  lmem_log_ok : 0 <= LMEM_LOG_SIZE <= 31;
  lmem_base_ok : 0 <= LMEM_BASE_ADDR < 2 ^ 63
}.

(** The defaults of [VX_config.toml] and [VX_types.toml] at [XLEN = 32]. *)
Definition default_config : VxConfig := {|
  XLEN := 32; NUM_THREADS := 4; NUM_WARPS := 4; NUM_BARRIERS := 8;
  MEM_BLOCK_SIZE := 64; LMEM_LOG_SIZE := 14; LMEM_BASE_ADDR := 0xFFFF0000 |}.

Lemma default_config_ok : @VxConfigOk default_config.
Proof. constructor; simpl; try lia. exists 6. lia. Defined.

(** [Word] of [sim/simx/types.h] *)
Definition word `{VxConfig} (x : Z) : Z := x mod 2 ^ XLEN.

(** [std::vector] access within bounds. *)
Definition vget `{Inhabited A} (l : list A) (i : Z) : A := l !!! Z.to_nat i.
Definition vset {A} (l : list A) (i : Z) (x : A) : list A := <[Z.to_nat i := x]> l.

(** [std::vector::at] *)
Definition vat {A} (l : list A) (i : Z) : option A := if i <? 0 then None else l !! Z.to_nat i.

(** [for (i = 0; i < n; ++i)] as the list of its indices. *)
Definition range (n : Z) : list Z := Z.of_nat <$> seq 0 (Z.to_nat n).

(** Little-endian bytes and the value they hold. *)
Definition le_val (l : list Z) : Z := foldr (fun b v => b + 256 * v) 0 l.

Fixpoint le_bytes (n : nat) (v : Z) : list Z :=
  match n with O => [] | S n => v mod 256 :: le_bytes n (v / 256) end.

(** The three-element [uint32_t] arrays ([block_dim], [grid_dim], ...). *)
Record dim3 := Dim3 { dim_x : Z; dim_y : Z; dim_z : Z }.
Add Printing Constructor dim3.

#[global] Instance dim3_eq_dec : EqDecision dim3.
Proof. solve_decision. Defined.

Definition dim3_lt (b g : dim3) : Prop :=
  (0 <= dim_x b < dim_x g) /\ (0 <= dim_y b < dim_y g) /\ (0 <= dim_z b < dim_z g).

#[global] Instance dim3_lt_dec b g : Decision (dim3_lt b g).
Proof. unfold dim3_lt. apply _. Defined.

Definition dim3_volume (d : dim3) : Z := dim_x d * dim_y d * dim_z d.

(** ** Automation *)

(** Splits every boolean comparison in the goal or the context. *)
Ltac bool_cases :=
  repeat match goal with
  | |- context [Z.eqb ?a ?b] => destruct (Z.eqb_spec a b)
  | |- context [Z.ltb ?a ?b] => destruct (Z.ltb_spec a b)
  | |- context [Z.leb ?a ?b] => destruct (Z.leb_spec a b)
  | H : context [Z.eqb ?a ?b] |- _ => destruct (Z.eqb_spec a b)
  | H : context [Z.ltb ?a ?b] |- _ => destruct (Z.ltb_spec a b)
  | H : context [Z.leb ?a ?b] |- _ => destruct (Z.leb_spec a b)
  end.

(** Reduce the option monad only. *)
Ltac bind_simpl := cbn [mbind option_bind].

Create HintDb vx.
Create Rewrite HintDb vx.

(** ** Arithmetic lemmas *)

Lemma u32_small x : 0 <= x < 2 ^ 32 -> u32 x = x.
Proof. apply Z.mod_small. Qed.

Lemma u64_small x : 0 <= x < 2 ^ 64 -> u64 x = x.
Proof. apply Z.mod_small. Qed.

Lemma u32_range x : 0 <= u32 x < 2 ^ 32.
Proof. apply Z.mod_pos_bound. lia. Qed.

Lemma u64_range x : 0 <= u64 x < 2 ^ 64.
Proof. apply Z.mod_pos_bound. lia. Qed.

#[export] Hint Resolve u32_range u64_range : vx.

(** Mixed-radix numbers: a digit below its radix is determined by the sum. *)
Lemma radix_inj m a b a' b' :
  0 <= a < m -> 0 <= a' < m -> a + m * b = a' + m * b' -> a = a' /\ b = b'.
Proof. intros Ha Ha' E. assert (b = b') by nia. subst. lia. Qed.

Lemma radix_bound m n a b : 0 <= a < m -> 0 <= b < n -> 0 <= a + m * b < m * n.
Proof. intros. nia. Qed.

(** ** Lists as vectors *)

Lemma vat_some (l : list Z) i : 0 <= i < Z.of_nat (length l) -> exists v, vat l i = Some v /\ v ∈ l.
Proof.
  intros Hi. unfold vat. rewrite (proj2 (Z.ltb_ge i 0)) by lia.
  destruct (lookup_lt_is_Some_2 l (Z.to_nat i) ltac:(lia)) as [v E]. exists v. split; [done|].
  by eapply list_elem_of_lookup_2.
Qed.

Lemma elem_of_range n i : i ∈ range n <-> 0 <= i < n.
Proof.
  unfold range. rewrite list_elem_of_fmap. setoid_rewrite elem_of_seq. split.
  - intros (k & -> & ?). lia.
  - intros ?. exists (Z.to_nat i). lia.
Qed.

Lemma length_vset {A} (l : list A) i x : length (vset l i x) = length l.
Proof. apply length_insert. Qed.

Lemma vget_vset_eq `{Inhabited A} (l : list A) i x :
  0 <= i < Z.of_nat (length l) -> vget (vset l i x) i = x.
Proof. intros. unfold vget, vset. rewrite list_lookup_total_insert_eq; [done|lia]. Qed.

Lemma vget_vset_ne `{Inhabited A} (l : list A) i j x :
  0 <= i -> 0 <= j -> i <> j -> vget (vset l i x) j = vget l j.
Proof. intros. unfold vget, vset. rewrite list_lookup_total_insert_ne; [done|lia]. Qed.

#[export] Hint Rewrite @length_vset : vx.

Lemma fold_left_ext_in {A B} (f g : A -> B -> A) l a :
  (forall a b, b ∈ l -> f a b = g a b) -> fold_left f l a = fold_left g l a.
Proof.
  revert a. induction l as [|b l IH]; intros a E; [done|]. simpl.
  rewrite E by left. apply IH. intros. apply E. by right.
Qed.

(** Occurrences of [x] in a vector. *)
Fixpoint occ (x : Z) (l : list Z) : Z :=
  match l with
  | [] => 0
  | y :: l' => (if y =? x then 1 else 0) + occ x l'
  end.

Lemma occ_nonneg x l : 0 <= occ x l.
Proof. induction l as [|y l IH]; simpl; bool_cases; lia. Qed.

Lemma occ_replicate x y n : x <> y -> occ x (replicate n y) = 0.
Proof. intros. induction n; simpl; bool_cases; lia. Qed.

Lemma occ_insert x l i y z :
  l !! i = Some y ->
  occ x (<[i := z]> l) = occ x l - (if y =? x then 1 else 0) + (if z =? x then 1 else 0).
Proof.
  revert i. induction l as [|w l IH]; intros [|i] E; simpl in *; simplify_eq; [lia|].
  rewrite (IH _ E). lia.
Qed.

Lemma vget_lookup `{Inhabited A} (l : list A) i :
  0 <= i < Z.of_nat (length l) -> l !! Z.to_nat i = Some (vget l i).
Proof. intros. unfold vget. apply list_lookup_lookup_total_lt. lia. Qed.

Lemma occ_vset x l i z :
  0 <= i < Z.of_nat (length l) ->
  occ x (vset l i z) = occ x l - (if vget l i =? x then 1 else 0) + (if z =? x then 1 else 0).
Proof. intros. unfold vset. by erewrite occ_insert by (by apply vget_lookup). Qed.

Lemma occ_pos x l i : 0 <= i < Z.of_nat (length l) -> vget l i = x -> 0 < occ x l.
Proof.
  intros Hi E. pose proof (vget_lookup l i Hi) as L. rewrite E in L. clear E Hi.
  revert L. generalize (Z.to_nat i). induction l as [|w l IH]; intros [|n] E;
    simpl in *; simplify_eq; pose proof (occ_nonneg x l); bool_cases; try lia;
    specialize (IH _ E); lia.
Qed.

Lemma vget_replicate `{Inhabited A} (x : A) n i :
  0 <= i < Z.of_nat n -> vget (replicate n x) i = x.
Proof. intros. unfold vget. apply lookup_total_replicate_2. lia. Qed.

Lemma vget_vset `{Inhabited A} (l : list A) i j x :
  0 <= i < Z.of_nat (length l) -> 0 <= j ->
  vget (vset l i x) j = if i =? j then x else vget l j.
Proof.
  intros. bool_cases; subst; [by apply vget_vset_eq | apply vget_vset_ne; lia].
Qed.

(** ** Bit masks *)

Lemma testbit_high w x i : 0 <= x < 2 ^ w -> w <= i -> Z.testbit x i = false.
Proof.
  intros Hx Hi. destruct (Z.eq_dec x 0) as [->|]; [apply Z.bits_0|].
  apply Z.bits_above_log2; [lia|]. destruct (Z.lt_ge_cases w 0).
  - rewrite Z.pow_neg_r in Hx by done. lia.
  - pose proof (proj1 (Z.log2_lt_pow2 x w ltac:(lia)) (proj2 Hx)). lia.
Qed.

Lemma land_le_l a b : 0 <= a -> Z.land a b <= a.
Proof.
  intros Ha. assert (a - Z.land a b = Z.ldiff a (Z.land a b)) as E.
  { apply Z.sub_nocarry_ldiff, Z.bits_inj. intros i.
    rewrite Z.ldiff_spec, Z.land_spec, Z.bits_0. by destruct (Z.testbit a i), (Z.testbit b i). }
  assert (0 <= Z.ldiff a (Z.land a b)) by (apply Z.ldiff_nonneg; lia). lia.
Qed.

(** [x & ~(2^n - 1)] clears the low [n] bits. *)
Lemma land_lnot_low w n x :
  0 <= n <= w -> 0 <= x < 2 ^ w -> Z.land x (lnot_w w (2 ^ n - 1)) = x - x mod 2 ^ n.
Proof.
  intros Hn Hx. rewrite Z.sub_1_r, <- Z.ones_equiv. unfold lnot_w.
  assert (Z.land x (Z.lxor (Z.ones n) (Z.ones w)) = Z.ldiff x (Z.ones n)) as ->.
  { apply Z.bits_inj'. intros i Hi. rewrite Z.land_spec, Z.lxor_spec, Z.ldiff_spec.
    destruct (Z.lt_ge_cases i w).
    - rewrite (Z.ones_spec_low w) by lia. by destruct (Z.testbit (Z.ones n) i).
    - by rewrite (testbit_high w x). }
  rewrite Z.ldiff_ones_r, Z.shiftl_mul_pow2, Z.shiftr_div_pow2 by lia.
  pose proof (Z.div_mod x (2 ^ n)). lia.
Qed.

(** Fields joined by [|]. *)
Lemma lor_disjoint a b n : 0 <= n -> 0 <= b < 2 ^ n -> Z.lor (Z.shiftl a n) b = a * 2 ^ n + b.
Proof.
  intros Hn Hb. rewrite <- Z.shiftl_mul_pow2 by lia. symmetry.
  rewrite Z.add_nocarry_lxor; [apply Z.lxor_lor|]; apply Z.bits_inj'; intros i Hi;
    rewrite Z.land_spec, Z.bits_0; destruct (Z.lt_ge_cases i n);
    rewrite ?(testbit_high n b), ?andb_false_r by lia; try done;
    rewrite Z.shiftl_spec_low by lia; done.
Qed.

(** [n] consecutive integers from [lo]. *)
Definition span (lo : Z) (n : nat) : list Z := (fun i => lo + Z.of_nat i) <$> seq 0 n.

Lemma span_app lo n m : span lo (n + m) = span lo n ++ span (lo + Z.of_nat n) m.
Proof.
  unfold span. rewrite seq_app, fmap_app. f_equal. simpl.
  apply list_eq. intros i. rewrite !list_lookup_fmap.
  destruct (decide (i < m)%nat).
  - rewrite !lookup_seq_lt by done. simpl. f_equal. lia.
  - rewrite !lookup_seq_ge by lia. done.
Qed.

Lemma NoDup_range n : NoDup (range n).
Proof. unfold range. apply NoDup_fmap; [intros ? ?; lia | apply NoDup_seq]. Qed.

Lemma range_span n : range n = span 0 (Z.to_nat n).
Proof. unfold range, span. apply list_fmap_ext. intros. lia. Qed.

Lemma span_shift a lo n : (fun t => a + t) <$> span lo n = span (a + lo) n.
Proof. unfold span. rewrite <- list_fmap_compose. apply list_fmap_ext. intros. simpl. lia. Qed.

Lemma elem_of_span lo n x : x ∈ span lo n <-> lo <= x < lo + Z.of_nat n.
Proof.
  unfold span. rewrite list_elem_of_fmap. setoid_rewrite elem_of_seq. split.
  - intros (k & -> & ?). lia.
  - intros ?. exists (Z.to_nat (x - lo)). lia.
Qed.

Section Filter.
Context {A : Type} (P : A -> Prop) `{forall x, Decision (P x)}.

Lemma filter_keep (l : list A) : (forall x, x ∈ l -> P x) -> filter P l = l.
Proof.
  induction l as [|x l IH]; intros Hl; [done|]. rewrite filter_cons_True by (apply Hl; left).
  f_equal. apply IH. intros. apply Hl. by right.
Qed.

Lemma filter_drop (l : list A) : (forall x, x ∈ l -> ~ P x) -> filter P l = [].
Proof.
  induction l as [|x l IH]; intros Hl; [done|]. rewrite filter_cons_False by (apply Hl; left).
  apply IH. intros. apply Hl. by right.
Qed.
End Filter.

Lemma filter_range_prefix (P : Z -> Prop) `{forall t, Decision (P t)} n m :
  0 <= m <= n -> (forall t, 0 <= t < n -> P t <-> t < m) -> filter P (range n) = range m.
Proof.
  intros Hm HP. rewrite !range_span.
  replace (Z.to_nat n) with (Z.to_nat m + Z.to_nat (n - m))%nat by lia.
  rewrite span_app, list.filter_app, (filter_keep P), (filter_drop P), app_nil_r; [done|..].
  - intros t Ht%elem_of_span. rewrite HP by lia. lia.
  - intros t Ht%elem_of_span. rewrite HP by lia. lia.
Qed.

(** Occurrences counted by index. *)
Lemma occ_filter_range x l (P : Z -> Prop) `{forall i, Decision (P i)} :
  (forall i y, l !! i = Some y -> P (Z.of_nat i) <-> y = x) ->
  occ x l = Z.of_nat (length (filter P (range (Z.of_nat (length l))))).
Proof.
  rewrite range_span, Nat2Z.id. induction l as [|y l IH] using rev_ind; intros HP; [done|].
  rewrite length_app, span_app, list.filter_app, length_app, Nat2Z.inj_add, <- IH.
  2: { intros i z Hi. apply HP. by apply lookup_app_l_Some. }
  assert (occ x (l ++ [y]) = occ x l + (if y =? x then 1 else 0)) as ->.
  { clear. induction l; simpl; lia. }
  specialize (HP (length l) y). rewrite lookup_app_r, Nat.sub_diag in HP by lia.
  unfold span. simpl. rewrite Z.add_0_r. f_equal.
  destruct (Z.eqb_spec y x).
  - rewrite filter_cons_True; [done|]. by apply HP.
  - rewrite filter_cons_False; [done|]. by rewrite HP.
Qed.

Lemma rev_lookup {A} (l : list A) i :
  (i < length l)%nat -> List.rev l !! i = l !! (length l - S i)%nat.
Proof. intros. rewrite rev_alt. by apply reverse_lookup. Qed.

Lemma vget_rev `{Inhabited A} (l : list A) i :
  0 <= i < Z.of_nat (length l) -> vget (List.rev l) i = vget l (Z.of_nat (length l) - 1 - i).
Proof.
  intros. unfold vget. rewrite !list_lookup_total_alt, rev_lookup by lia. do 2 f_equal. lia.
Qed.

Lemma vget_fmap `{Inhabited A, Inhabited B} (f : A -> B) (l : list A) i :
  0 <= i < Z.of_nat (length l) -> vget (f <$> l) i = f (vget l i).
Proof.
  intros. unfold vget. rewrite !list_lookup_total_alt, list_lookup_fmap.
  by rewrite list_lookup_lookup_total_lt by lia.
Qed.

Lemma length_range n : length (range n) = Z.to_nat n.
Proof. unfold range. by rewrite length_fmap, length_seq. Qed.

Lemma lookup_range n i : range n !! i = (if (i <? Z.to_nat n)%nat then Some (Z.of_nat i) else None).
Proof.
  unfold range. rewrite list_lookup_fmap. destruct (Nat.ltb_spec i (Z.to_nat n)).
  - by rewrite lookup_seq_lt.
  - by rewrite lookup_seq_ge.
Qed.

Lemma vget_range n i : 0 <= i < n -> vget (range n) i = i.
Proof.
  intros Hi. unfold vget. rewrite list_lookup_total_alt, lookup_range. rewrite (proj2 (Nat.ltb_lt _ _)) by lia. cbn. lia.
Qed.

Lemma vget_fmap_range (f : Z -> Z) n i : 0 <= i < n -> vget (f <$> range n) i = f i.
Proof.
  intros Hi. unfold vget. rewrite list_lookup_total_alt, list_lookup_fmap, lookup_range.
  rewrite (proj2 (Nat.ltb_lt _ _)) by lia. cbn. by rewrite Z2Nat.id by lia.
Qed.
