(* ===== verification/Mask.v ===== *)
(** * Thread masks: the interface between [BitVector] and its clients

    [ThreadMask] is [BitVector<Word>] ([sim/simx/types.h]).  The warp
    scheduler, the CTA dispatcher and the warp-control unit only use the
    operations below, so they are modelled over this interface; [BitVector.v]
    models the class itself and shows that it implements the interface. *)

From S2P Require Import Prelude.

(** The abstract value of a mask: its bits, lowest index first. *)
Abbreviation bits := (list bool).

Fixpoint popcount (l : bits) : Z :=
  match l with
  | [] => 0
  | b :: l' => (if b then 1 else 0) + popcount l'
  end.

Class MaskOps (M : Type) := {
  m_width : Z;                   (* bits of the constructor's value argument *)
  m_new : Z -> M;                (* BitVector(size) *)
  m_make : Z -> Z -> M;          (* BitVector(size, value) *)
  m_test : M -> Z -> bool;       (* test(pos) *)
  m_assign : M -> Z -> bool -> M;(* set(pos, value) *)
  m_clear : M -> M;              (* reset() *)
  m_count : M -> Z;              (* count() *)
  m_any : M -> bool;             (* any() *)
  m_and : M -> M -> M;           (* operator& *)
  m_not : M -> M                 (* operator~ *)
}.

(** The bits of [v] from [pos] on. *)
Definition word_bits (n : nat) (v : Z) : bits := (fun i => Z.testbit v (Z.of_nat i)) <$> seq 0 n.

(** What a mask implementation promises: [m_rep m l] says that [m] is a
    well-formed mask whose bits are [l]. *)
Class MaskSpec (M : Type) `{MaskOps M} := {
  m_rep : M -> bits -> Prop;
  m_rep_fun : forall m l l', m_rep m l -> m_rep m l' -> l = l';
  m_new_rep : forall n, 0 <= n -> m_rep (m_new n) (replicate (Z.to_nat n) false);
  m_make_rep : forall n v, 0 <= n -> 0 <= v < 2 ^ m_width ->
    m_rep (m_make n v) (word_bits (Z.to_nat n) v);
  m_test_rep : forall m l i b, m_rep m l -> 0 <= i -> l !! Z.to_nat i = Some b -> m_test m i = b;
  m_assign_rep : forall m l i b, m_rep m l -> 0 <= i < Z.of_nat (length l) ->
    m_rep (m_assign m i b) (<[Z.to_nat i := b]> l);
  m_clear_rep : forall m l, m_rep m l -> m_rep (m_clear m) (replicate (length l) false);
  m_count_rep : forall m l, m_rep m l -> m_count m = popcount l;
  m_any_rep : forall m l, m_rep m l -> m_any m = existsb id l;
  m_and_rep : forall m1 m2 l1 l2, m_rep m1 l1 -> m_rep m2 l2 -> length l1 = length l2 ->
    m_rep (m_and m1 m2) (zip_with andb l1 l2);
  m_not_rep : forall m l, m_rep m l -> m_rep (m_not m) (negb <$> l)
}.

#[export] Hint Resolve m_clear_rep m_not_rep : vx.

(** ** Facts about bit lists *)

Lemma length_word_bits n v : length (word_bits n v) = n.
Proof. unfold word_bits. by rewrite length_fmap, length_seq. Qed.

Lemma lookup_word_bits n v i :
  (i < n)%nat -> word_bits n v !! i = Some (Z.testbit v (Z.of_nat i)).
Proof. intros. unfold word_bits. rewrite list_lookup_fmap, lookup_seq_lt by done. done. Qed.

Lemma popcount_nonneg l : 0 <= popcount l.
Proof. induction l as [|[] l IH]; simpl; lia. Qed.

Lemma popcount_app l1 l2 : popcount (l1 ++ l2) = popcount l1 + popcount l2.
Proof. induction l1 as [|b l1 IH]; simpl; lia. Qed.

Lemma popcount_le l : popcount l <= Z.of_nat (length l).
Proof. induction l as [|[] l IH]; simpl; lia. Qed.

Lemma popcount_replicate_false n : popcount (replicate n false) = 0.
Proof. induction n; simpl; lia. Qed.

Lemma existsb_popcount l : existsb id l = (0 <? popcount l).
Proof.
  induction l as [|b l IH]; [done|]. simpl. rewrite IH.
  pose proof (popcount_nonneg l). destruct b; bool_cases; simpl; lia || done.
Qed.

(** [l1] is a subset of [l2]. *)
Definition bits_sub (l1 l2 : bits) : Prop := Forall2 (fun a b => a = true -> b = true) l1 l2.

Lemma bits_sub_popcount l1 l2 : bits_sub l1 l2 -> popcount l1 <= popcount l2.
Proof.
  induction 1 as [|a b l1 l2 Hab _ IH]; [done|].
  simpl. destruct a, b; lia || (exfalso; naive_solver).
Qed.

Lemma bits_sub_eq l1 l2 : bits_sub l1 l2 -> popcount l1 = popcount l2 -> l1 = l2.
Proof.
  induction 1 as [|a b l1 l2 Hab Hs IH]; [done|]. simpl. intros E.
  apply bits_sub_popcount in Hs.
  destruct a, b; try (exfalso; naive_solver lia); f_equal; apply IH; lia.
Qed.

#[global] Instance bits_sub_refl : Reflexive bits_sub.
Proof. intros l. induction l; by constructor. Qed.

#[global] Instance bits_sub_trans : Transitive bits_sub.
Proof. intros l1 l2 l3 H12 H23. eapply Forall2_trans; [|exact H12|exact H23]. naive_solver. Qed.

(** ** Loops over a mask *)

Section Loops.
Context `{HM : MaskSpec M}.

(** [for (t = 0; t < n; ++t) mask.set(t, f(t));] *)
Definition m_fill (m : M) (n : nat) (f : Z -> bool) : M :=
  fold_left (fun m t => m_assign m (Z.of_nat t) (f (Z.of_nat t))) (seq 0 n) m.

Lemma m_fill_prefix m l n f :
  m_rep m l -> (n <= length l)%nat ->
  m_rep (m_fill m n f) (((fun t => f (Z.of_nat t)) <$> seq 0 n) ++ drop n l).
Proof.
  intros Hm. unfold m_fill. induction n as [|n IH]; intros Hn; [done|].
  rewrite seq_S, fold_left_app. simpl. specialize (IH ltac:(lia)).
  apply (m_assign_rep _ _ (Z.of_nat n) (f (Z.of_nat n))) in IH.
  2: { rewrite length_app, length_fmap, length_seq, length_drop. lia. }
  rewrite Nat2Z.id, insert_app_r_alt in IH by (rewrite length_fmap, length_seq; lia).
  rewrite length_fmap, length_seq, Nat.sub_diag in IH.
  destruct (lookup_lt_is_Some_2 l n ltac:(lia)) as [b Hb].
  rewrite (drop_S _ _ _ Hb) in IH. simpl in IH. by rewrite fmap_app, <- app_assoc.
Qed.

Lemma m_fill_rep m l f :
  m_rep m l ->
  m_rep (m_fill m (length l) f) ((fun t => f (Z.of_nat t)) <$> seq 0 (length l)).
Proof.
  intros Hm. apply (m_fill_prefix _ _ (length l) f) in Hm; [|done].
  by rewrite drop_all, app_nil_r in Hm.
Qed.
End Loops.

(** ** The reference implementation

    Bit lists implement the interface themselves; concrete runs of the
    clients are evaluated over it. *)

#[global] Instance bits_mask : MaskOps bits := {|
  m_width := 64;
  m_new n := replicate (Z.to_nat n) false;
  m_make n v := word_bits (Z.to_nat n) v;
  m_test l i := default false (l !! Z.to_nat i);
  m_assign l i b := <[Z.to_nat i := b]> l;
  m_clear l := replicate (length l) false;
  m_count := popcount;
  m_any := existsb id;
  m_and l1 l2 := zip_with andb l1 l2;
  m_not l := negb <$> l
|}.

#[global] Program Instance bits_mask_spec : MaskSpec bits := {| m_rep m l := m = l |}.
Solve Obligations with (intros; simpl in *; simplify_eq/=; try done; simplify_option_eq; done).

(** ** First and last active thread *)

Section Threads.
Context `{VxConfig} `{HM : MaskSpec M}.

(** The two searches at the head of the execution units. *)
Definition thread_start (m : M) : Z := default NUM_THREADS (find (m_test m) (range NUM_THREADS)).
Definition thread_last (m : M) : Z := default (-1) (find (m_test m) (rev (range NUM_THREADS))).

Lemma m_any_active m l : m_rep m l -> Z.of_nat (length l) = NUM_THREADS -> m_any m = true ->
  exists t, 0 <= t < NUM_THREADS /\ m_test m t = true.
Proof using HM.
  intros Hm Hl Ha. rewrite (m_any_rep _ _ Hm), existsb_exists in Ha. destruct Ha as (b & Hb & Hid).
  apply list_elem_of_In, list_elem_of_lookup in Hb as [i Hi]. pose proof (lookup_lt_Some _ _ _ Hi).
  exists (Z.of_nat i). split; [lia|]. rewrite (m_test_rep _ l _ b Hm); [done | lia | by rewrite Nat2Z.id].
Qed.

Lemma thread_last_test m l : m_rep m l -> Z.of_nat (length l) = NUM_THREADS -> m_any m = true ->
  0 <= thread_last m < NUM_THREADS /\ m_test m (thread_last m) = true.
Proof using HM.
  intros Hm Hl Ha. unfold thread_last. destruct (find _ _) as [t|] eqn:E; simpl.
  - apply find_some in E as [Hin Ht]. rewrite <- in_rev in Hin. apply list_elem_of_In in Hin.
    by apply elem_of_range in Hin.
  - exfalso. destruct (m_any_active m l Hm Hl Ha) as (t & Hr & Ht).
    pose proof (find_none _ _ E t) as Hn. rewrite <- in_rev in Hn. rewrite Ht in Hn. discriminate Hn.
    by apply list_elem_of_In, elem_of_range.
Qed.

Lemma thread_last_active m l : m_rep m l -> Z.of_nat (length l) = NUM_THREADS -> m_any m = true ->
  0 <= thread_last m < NUM_THREADS.
Proof using HM. intros. by apply (thread_last_test m l). Qed.

Lemma thread_start_le m t : 0 <= t < NUM_THREADS -> m_test m t = true -> thread_start m <= t.
Proof using.
  intros Ht E. unfold thread_start. destruct (find _ _) as [u|] eqn:F; simpl.
  - assert (forall k n, find (m_test m) (Z.of_nat <$> seq k n) = Some u -> Z.of_nat k <= t -> u <= t) as Hf.
    { intros k n. revert k. induction n as [|n IH]; intros k; simpl; [done|].
      destruct (m_test m (Z.of_nat k)) eqn:Ek; [by intros [= <-]|]. intros F' Hk. apply (IH (S k) F').
      destruct (Z.eq_dec (Z.of_nat k) t) as [<-|]; [congruence | lia]. }
    apply (Hf 0%nat (Z.to_nat NUM_THREADS) F). lia.
  - pose proof (find_none _ _ F t) as Hn. rewrite E in Hn. discriminate Hn. by apply list_elem_of_In, elem_of_range.
Qed.
End Threads.
