(* ===== verification/Bitmanip.v ===== *)
(** * Bit manipulation helpers — [sw/common/bitmanip.h]

    Every function of the header, at the width of its type.  Shown: the
    swap-network bit reversal is the reversal, field insertion and extraction
    round-trip, the logarithms and power-of-two test are what their names
    say, and sign extension is two's complement. *)

From S2P Require Import Prelude.

Open Scope Z_scope.

(** [__builtin_clz]/[__builtin_ctz] at width [w] for a non-zero value. *)
Definition builtin_clz (w v : Z) : Z := w - 1 - Z.log2 v.
Fixpoint ctz_pos (p : positive) : Z :=
  match p with
  | xO p' => 1 + ctz_pos p'
  | _ => 0
  end.
Definition builtin_ctz (v : Z) : Z := match v with Zpos p => ctz_pos p | _ => 0 end.

(** [count_leading_zeros<T>] for a [T] of [w] bits. *)
Definition count_leading_zeros (w value : Z) : Z :=
  if 32 <? w then (if negb (value =? 0) then builtin_clz 64 value - (64 - w) else w)
  else (if negb (value =? 0) then builtin_clz 32 value - (32 - w) else w).

Definition count_trailing_zeros (w value : Z) : Z :=
  if negb (value =? 0) then builtin_ctz value else w.

Definition ispow2 (w value : Z) : bool :=
  negb (value =? 0) && (Z.land value ((value - 1) mod 2 ^ w) =? 0).

Definition log2ceil (w value : Z) : Z := w - count_leading_zeros w ((value - 1) mod 2 ^ w).
Definition log2up (w value : Z) : Z := Z.max 1 (log2ceil w value).
Definition log2floor (w value : Z) : Z := w - 1 - count_leading_zeros w value.
Definition ceil2 (w value : Z) : Z := w - count_leading_zeros w value.

(** Single bits of a [uint64_t]; [None] is a failed assertion. *)
Definition bit_clr (bits index : Z) : option Z :=
  if index <=? 63 then Some (Z.land bits (lnot_w 64 (Z.shiftl 1 index))) else None.
Definition bit_set (bits index : Z) : option Z :=
  if index <=? 63 then Some (Z.lor bits (Z.shiftl 1 index)) else None.
Definition bit_get (bits index : Z) : option bool :=
  if index <=? 63 then Some (negb (Z.land (Z.shiftr bits index) 1 =? 0)) else None.

(** Fields [start .. end]. *)
Definition bit_clrw (bits start end_ : Z) : option Z :=
  if (start <=? end_) && (end_ <=? 63) then
    let shift := 63 - end_ in
    let mask := Z.shiftr (u64 (Z.shiftl 0xffffffffffffffff (shift + start))) shift in
    Some (Z.land bits (lnot_w 64 mask))
  else None.

Definition bit_setw (bits start end_ value : Z) : option Z :=
  if (start <=? end_) && (end_ <=? 63) then
    let shift := 63 - end_ in
    let dirty := Z.shiftr (u64 (Z.shiftl value (shift + start))) shift in
    c ← bit_clrw bits start end_;
    Some (Z.lor c dirty)
  else None.

Definition bit_getw (bits start end_ : Z) : option Z :=
  if (start <=? end_) && (end_ <=? 63) then
    let shift := 63 - end_ in
    Some (Z.shiftr (u64 (Z.shiftl bits shift)) (shift + start))
  else None.

(** One stage of the swap network. *)
Definition swap_stage (hi lo k bits : Z) : Z :=
  Z.lor (Z.shiftr (Z.land bits hi) k) (u64 (Z.shiftl (Z.land bits lo) k)).

(** [bit_reverse(bits)] *)
Definition bit_reverse64 (bits : Z) : Z :=
  let bits := swap_stage 0xAAAAAAAAAAAAAAAA 0x5555555555555555 1 bits in
  let bits := swap_stage 0xCCCCCCCCCCCCCCCC 0x3333333333333333 2 bits in
  let bits := swap_stage 0xF0F0F0F0F0F0F0F0 0x0F0F0F0F0F0F0F0F 4 bits in
  let bits := swap_stage 0xFF00FF00FF00FF00 0x00FF00FF00FF00FF 8 bits in
  let bits := swap_stage 0xFFFF0000FFFF0000 0x0000FFFF0000FFFF 16 bits in
  Z.lor (Z.shiftr bits 32) (u64 (Z.shiftl bits 32)).

(** [bit_reverse(bits, width)] *)
Definition bit_reverse (bits width : Z) : option Z :=
  if 64 <? width then None
  else if width =? 64 then Some (bit_reverse64 bits)
  else Some (fold_left (fun reversed i =>
      if negb (Z.land bits (Z.shiftl 1 i) =? 0) then Z.lor reversed (Z.shiftl 1 (width - 1 - i))
      else reversed) (range width) 0).

(** [sext] and [zext] on a [w]-bit type. *)
Definition sext (w word width : Z) : option Z :=
  if (1 <? width) && (width <=? w) then
    if width =? w then Some word
    else
      let mask := Z.shiftl 1 width - 1 in
      Some (if negb (Z.land (Z.shiftr word (width - 1)) 1 =? 0) then Z.lor word (lnot_w w mask)
            else Z.land word mask)
  else None.

Definition zext (w word width : Z) : option Z :=
  if (1 <? width) && (width <=? w) then
    if width =? w then Some word else Some (Z.land word (Z.shiftl 1 width - 1))
  else None.

Definition pow2_sqrt (x : Z) : option Z :=
  if ispow2 32 x then Some (Z.shiftl 1 (count_trailing_zeros 32 x / 2)) else None.

(** ** Bit-level lemmas *)

Lemma land_one_bit x i : 0 <= i -> negb (Z.land (Z.shiftr x i) 1 =? 0) = Z.testbit x i.
Proof.
  intros Hi. change 1 with (Z.ones 1). rewrite Z.land_ones by lia.
  rewrite Z.testbit_eqb, Z.shiftr_div_pow2 by lia. change (2 ^ 1) with 2.
  pose proof (Z.mod_pos_bound (x / 2 ^ i) 2). bool_cases; simpl; lia.
Qed.

Lemma testbit_shiftl1 k i : 0 <= k -> 0 <= i -> Z.testbit (Z.shiftl 1 k) i = (i =? k).
Proof.
  intros. rewrite Z.shiftl_1_l. destruct (Z.eqb_spec i k) as [->|].
  - by apply Z.pow2_bits_true.
  - apply Z.pow2_bits_false. lia.
Qed.

Lemma land_shiftl1_bit x i : 0 <= i -> negb (Z.land x (Z.shiftl 1 i) =? 0) = Z.testbit x i.
Proof.
  intros Hi. destruct (Z.testbit x i) eqn:E.
  - apply negb_true_iff, Z.eqb_neq. intros E0.
    apply (f_equal (fun z => Z.testbit z i)) in E0.
    rewrite Z.land_spec, E, testbit_shiftl1, Z.eqb_refl, Z.bits_0 in E0 by lia. done.
  - apply negb_false_iff, Z.eqb_eq, Z.bits_inj'. intros j Hj.
    rewrite Z.land_spec, testbit_shiftl1, Z.bits_0 by lia.
    destruct (Z.eqb_spec j i) as [->|]; [by rewrite E | apply andb_false_r].
Qed.

Lemma testbit_u64 x i : 0 <= i -> Z.testbit (u64 x) i = (i <? 64) && Z.testbit x i.
Proof.
  intros. unfold u64. destruct (Z.ltb_spec i 64).
  - by rewrite Z.mod_pow2_bits_low by lia.
  - by rewrite Z.mod_pow2_bits_high by lia.
Qed.

Lemma testbit_lnot_w w x i : 0 <= i < w -> Z.testbit (lnot_w w x) i = negb (Z.testbit x i).
Proof. intros. unfold lnot_w. rewrite Z.lxor_spec, Z.ones_spec_low by lia. apply xorb_true_r. Qed.

Lemma testbit_lt_pow2 w x : 0 <= w -> 0 <= x -> (forall i, w <= i -> Z.testbit x i = false) -> x < 2 ^ w.
Proof.
  intros Hw Hx Hb. destruct (Z.lt_ge_cases x (2 ^ w)) as [|Hge]; [done|].
  assert (0 < 2 ^ w) by (apply Z.pow_pos_nonneg; lia).
  assert (w <= Z.log2 x) by (apply Z.log2_le_pow2; lia).
  specialize (Hb (Z.log2 x) ltac:(lia)). by rewrite Z.bit_log2 in Hb by lia.
Qed.

(** Checks that a stage exchanges bit [i] with bit [i xor k]. *)
Definition stage_ok (hi lo k : Z) : bool :=
  forallb (fun i =>
    let up := Z.testbit hi (i + k) in
    let down := (k <=? i) && Z.testbit lo (i - k) in
    if up then negb down && (Z.lxor i k =? i + k) else down && (Z.lxor i k =? i - k)) (range 64).

Lemma swap_stage_spec hi lo k x i :
  stage_ok hi lo k = true -> 0 <= k -> 0 <= i < 64 ->
  Z.testbit (swap_stage hi lo k x) i = Z.testbit x (Z.lxor i k).
Proof.
  intros Hs Hk Hi. unfold stage_ok in Hs. rewrite forallb_forall in Hs.
  specialize (Hs i). rewrite <- list_elem_of_In, elem_of_range in Hs. specialize (Hs Hi).
  cbv beta zeta in Hs. unfold swap_stage.
  rewrite Z.lor_spec, Z.shiftr_spec, Z.land_spec, testbit_u64 by lia.
  rewrite (proj2 (Z.ltb_lt i 64)) by lia. rewrite Z.shiftl_spec, Z.land_spec by lia.
  destruct (Z.testbit hi (i + k)) eqn:U.
  - apply andb_prop in Hs as [D E]. apply Z.eqb_eq in E. rewrite E, andb_true_r.
    apply negb_true_iff in D. destruct (Z.leb_spec k i).
    + simpl in D. rewrite D, andb_false_r. apply orb_false_r.
    + rewrite (Z.testbit_neg_r lo), (Z.testbit_neg_r x (i - k)) by lia. apply orb_false_r.
  - apply andb_prop in Hs as [D E]. apply Z.eqb_eq in E. apply andb_prop in D as [_ D].
    by rewrite E, D, andb_true_r, andb_false_r.
Qed.

Lemma bit_reverse64_spec x i :
  0 <= x < 2 ^ 64 -> 0 <= i < 64 -> Z.testbit (bit_reverse64 x) i = Z.testbit x (63 - i).
Proof.
  intros Hx Hi. unfold bit_reverse64.
  set (x5 := swap_stage 0xFFFF0000FFFF0000 _ 16 _).
  assert (H5 : forall j, 0 <= j < 64 -> Z.testbit x5 j = Z.testbit x (Z.lxor j 31)).
  { intros j Hj. subst x5.
    assert (L : forall a m, 0 <= a < 64 -> 0 <= m < 64 -> 0 <= Z.lxor a m < 64).
    { intros a m Ha Hm. split; [apply Z.lxor_nonneg; lia|].
      apply (testbit_lt_pow2 6); [lia|apply Z.lxor_nonneg; lia|].
      intros b Hb. rewrite Z.lxor_spec, !(testbit_high 6) by lia. done. }
    do 5 (rewrite swap_stage_spec by (first [reflexivity | lia | repeat apply L; lia])).
    f_equal. rewrite !Z.lxor_assoc. done. }
  rewrite Z.lor_spec, Z.shiftr_spec, testbit_u64, Z.shiftl_spec by lia.
  rewrite (proj2 (Z.ltb_lt i 64)) by lia. simpl.
  assert (E : forallb (fun i => if i <? 32 then Z.lxor (i + 32) 31 =? 63 - i
    else Z.lxor (i - 32) 31 =? 63 - i) (range 64) = true) by reflexivity.
  rewrite forallb_forall in E. specialize (E i).
  rewrite <- list_elem_of_In, elem_of_range in E. specialize (E Hi). cbv beta in E.
  destruct (Z.ltb_spec i 32).
  - apply Z.eqb_eq in E. rewrite H5, E by lia.
    rewrite (Z.testbit_neg_r x5) by lia. apply orb_false_r.
  - apply Z.eqb_eq in E. rewrite (H5 (i - 32)), E by lia.
    assert (Z.testbit x5 (i + 32) = false) as ->; [|done].
    apply (testbit_high 64); [|lia]. subst x5. split.
    + unfold swap_stage. apply Z.lor_nonneg. split; [apply Z.shiftr_nonneg, Z.land_nonneg; right; lia|].
      apply u64_range.
    + apply testbit_lt_pow2; [lia| |].
      * apply Z.lor_nonneg. split; [apply Z.shiftr_nonneg, Z.land_nonneg; right; lia|apply u64_range].
      * intros j Hj. unfold swap_stage at 1. rewrite Z.lor_spec, testbit_u64, Z.shiftr_spec by lia.
        rewrite (proj2 (Z.ltb_ge j 64)) by lia. rewrite Z.land_spec.
        by rewrite (testbit_high 64 0xFFFF0000FFFF0000 (j + 16)), andb_false_r by lia.
Qed.

(** The loop of the narrow reversal, by position. *)
Lemma bit_reverse_loop x width n i :
  0 <= n <= width -> 0 <= i ->
  Z.testbit (fold_left (fun reversed j =>
      if negb (Z.land x (Z.shiftl 1 j) =? 0) then Z.lor reversed (Z.shiftl 1 (width - 1 - j))
      else reversed) (range n) 0) i
  = (width - n <=? i) && (i <? width) && Z.testbit x (width - 1 - i).
Proof.
  rewrite range_span. intros Hn Hi. replace n with (Z.of_nat (Z.to_nat n)) in * by lia.
  rewrite Nat2Z.id. generalize dependent (Z.to_nat n). clear n. intros n.
  induction n as [|n IH]; intros Hn.
  { simpl. rewrite Z.bits_0. bool_cases; done || lia. }
  replace (S n) with (n + 1)%nat by lia. rewrite span_app, fold_left_app.
  change (span (0 + Z.of_nat n) 1) with [0 + Z.of_nat n + 0]. rewrite Z.add_0_l, Z.add_0_r.
  cbn [fold_left]. rewrite land_shiftl1_bit by lia. specialize (IH ltac:(lia)).
  destruct (Z.testbit x (Z.of_nat n)) eqn:E; [rewrite Z.lor_spec, testbit_shiftl1 by lia|];
    rewrite IH; destruct (Z.eqb_spec i (width - 1 - Z.of_nat n)) as [->|].
  1, 3: replace (width - 1 - (width - 1 - Z.of_nat n)) with (Z.of_nat n) by lia; rewrite E;
    bool_cases; done || lia.
  all: bool_cases; simpl; rewrite ?orb_false_r; done || lia.
Qed.

(** Bits of the shifted-out field masks. *)
Lemma field_bits v s e i :
  0 <= s <= e -> e <= 63 -> 0 <= i ->
  Z.testbit (Z.shiftr (u64 (Z.shiftl v (63 - e + s))) (63 - e)) i
  = (s <=? i) && (i <=? e) && Z.testbit v (i - s).
Proof.
  intros. rewrite Z.shiftr_spec, testbit_u64, Z.shiftl_spec by lia.
  replace (i + (63 - e) - (63 - e + s)) with (i - s) by lia.
  destruct (Z.leb_spec s i); [|rewrite (Z.testbit_neg_r v) by lia; by rewrite andb_false_r].
  simpl. f_equal. bool_cases; lia || done.
Qed.

Lemma bit_setw_spec bits s e v :
  0 <= s <= e -> e <= 63 ->
  exists r, bit_setw bits s e v = Some r /\ forall i, 0 <= i < 64 ->
    Z.testbit r i = if (s <=? i) && (i <=? e) then Z.testbit v (i - s) else Z.testbit bits i.
Proof.
  intros. unfold bit_setw, bit_clrw.
  rewrite (proj2 (Z.leb_le s e)), (proj2 (Z.leb_le e 63)) by lia. cbn [andb mbind option_bind].
  eexists. split; [done|]. intros i Hi.
  rewrite Z.lor_spec, Z.land_spec, testbit_lnot_w, !field_bits by lia.
  destruct ((s <=? i) && (i <=? e)) eqn:E; simpl.
  - apply andb_prop in E as [E1%Z.leb_le E2%Z.leb_le].
    change 0xffffffffffffffff with (Z.ones 64). rewrite Z.ones_spec_low by lia. simpl.
    by rewrite andb_false_r.
  - by rewrite andb_true_r, orb_false_r.
Qed.

Lemma bit_getw_spec bits s e :
  0 <= s <= e -> e <= 63 ->
  exists r, bit_getw bits s e = Some r /\ forall i, 0 <= i ->
    Z.testbit r i = (i <=? e - s) && Z.testbit bits (i + s).
Proof.
  intros. unfold bit_getw. rewrite (proj2 (Z.leb_le s e)), (proj2 (Z.leb_le e 63)) by lia.
  eexists. split; [done|]. intros i Hi.
  rewrite Z.shiftr_spec, testbit_u64, Z.shiftl_spec by lia.
  replace (i + (63 - e + s) - (63 - e)) with (i + s) by lia.
  f_equal. bool_cases; lia || done.
Qed.

Lemma bit_reverse_spec x width :
  0 <= x < 2 ^ 64 -> 0 <= width <= 64 ->
  exists r, bit_reverse x width = Some r
    /\ forall i, 0 <= i -> Z.testbit r i = (i <? width) && Z.testbit x (width - 1 - i).
Proof.
  intros Hx Hw.
  unfold bit_reverse. rewrite (proj2 (Z.ltb_ge 64 width)) by lia.
  destruct (Z.eqb_spec width 64) as [->|]; eexists; (split; [done|]); intros i Hi.
  - destruct (Z.ltb_spec i 64); simpl; [by rewrite bit_reverse64_spec by lia|].
    unfold bit_reverse64. set (y := swap_stage 0xFFFF0000FFFF0000 _ _ _).
    rewrite Z.lor_spec, testbit_u64, Z.shiftr_spec by lia.
    rewrite (proj2 (Z.ltb_ge i 64)) by lia. subst y. unfold swap_stage at 1.
    rewrite Z.lor_spec, testbit_u64, Z.shiftr_spec, Z.land_spec by lia.
    rewrite (testbit_high 64 0xFFFF0000FFFF0000), (proj2 (Z.ltb_ge (i + 32) 64)), andb_false_r by lia.
    done.
  - rewrite bit_reverse_loop by lia. bool_cases; simpl; done || lia.
Qed.

(** ** Properties *)

(** [bit_reverse] reverses: for every width up to 64 the six-stage swap
    network (width 64) and the bit loop (narrower widths) both map bit [i] to
    bit [width - 1 - i] and set nothing above the width. *)
Theorem bit_reverse_reverses (x width : Z) (Hx : 0 <= x < 2 ^ 64) (Hw : 0 <= width <= 64) :
  exists r, bit_reverse x width = Some r
    /\ forall i, 0 <= i -> Z.testbit r i = (i <? width) && Z.testbit x (width - 1 - i).
Proof. by apply bit_reverse_spec. Qed.

Lemma bit_reverse_reverses_witness :
  exists r, bit_reverse 0xB 64 = Some r
    /\ forall i, 0 <= i -> Z.testbit r i = (i <? 64) && Z.testbit 0xB (64 - 1 - i).
Proof. apply (bit_reverse_reverses 0xB 64); lia. Defined.

(** Field access round-trips: reading back the field [start..end] that
    [bit_setw] wrote gives the value truncated to the field, and every bit
    outside the field keeps its value. *)
Theorem bit_field_roundtrip (bits start end_ value : Z)
    (Hf : 0 <= start <= end_) (He : end_ <= 63) :
  exists r, bit_setw bits start end_ value = Some r
    /\ bit_getw r start end_ = Some (value mod 2 ^ (end_ - start + 1))
    /\ forall i, 0 <= i < 64 -> ~ (start <= i <= end_) -> Z.testbit r i = Z.testbit bits i.
Proof.
  destruct (bit_setw_spec bits start end_ value) as (r & E & Hr); [done..|].
  exists r. split; [done|]. split.
  - destruct (bit_getw_spec r start end_) as (g & -> & Hg); [done..|]. f_equal.
    apply Z.bits_inj'. intros i Hi. rewrite Hg by done.
    destruct (Z.leb_spec i (end_ - start)).
    + rewrite Hr, Z.mod_pow2_bits_low by lia.
      rewrite (proj2 (Z.leb_le start _)), (proj2 (Z.leb_le _ end_)) by lia. simpl. f_equal. lia.
    + by rewrite Z.mod_pow2_bits_high by lia.
  - intros i Hi Hout. rewrite Hr by done. bool_cases; simpl; done || lia.
Qed.

Lemma bit_field_roundtrip_witness :
  exists r, bit_setw 0xFFFF 4 7 0x12 = Some r /\ bit_getw r 4 7 = Some 2
    /\ forall i, 0 <= i < 64 -> ~ (4 <= i <= 7) -> Z.testbit r i = Z.testbit 0xFFFF i.
Proof. apply (bit_field_roundtrip 0xFFFF 4 7 0x12); lia. Defined.

Definition std_width (w : Z) : Prop := w = 8 \/ w = 16 \/ w = 32 \/ w = 64.

Lemma clz_spec w v : std_width w -> 0 < v -> count_leading_zeros w v = w - 1 - Z.log2 v.
Proof.
  intros Hw Hv. unfold count_leading_zeros, builtin_clz.
  rewrite (proj2 (Z.eqb_neq v 0)) by lia. simpl. unfold std_width in Hw. bool_cases; lia.
Qed.

(** The logarithm helpers are exact: [log2floor] and [log2ceil] are the
    floor and ceiling of the base-2 logarithm at every supported width, and
    [ispow2] accepts exactly the powers of two. *)
Theorem log2_helpers_exact (w v : Z) (Hw : std_width w) (Hv : 1 <= v < 2 ^ w) :
  log2floor w v = Z.log2 v /\ log2ceil w v = Z.log2_up v
  /\ (ispow2 w v = true <-> exists n, 0 <= n /\ v = 2 ^ n).
Proof.
  split; [|split].
  - unfold log2floor. rewrite clz_spec by (done || lia). lia.
  - unfold log2ceil. rewrite Z.mod_small by lia. destruct (Z.eq_dec v 1) as [->|].
    + change (1 - 1) with 0. change (Z.log2_up 1) with 0. unfold count_leading_zeros. simpl.
      bool_cases; lia.
    + rewrite clz_spec, Z.log2_up_eqn by (done || lia). rewrite <- Z.sub_1_r. lia.
  - unfold ispow2. rewrite Z.mod_small, (proj2 (Z.eqb_neq v 0)) by lia. simpl. rewrite Z.eqb_eq.
    split.
    + intros E. exists (Z.log2 v). split; [apply Z.log2_nonneg|].
      destruct (Z.log2_spec v ltac:(lia)) as [Hlo Hhi].
      destruct (Z.eq_dec v (2 ^ Z.log2 v)) as [|Hne]; [done|exfalso].
      apply (f_equal (fun z => Z.testbit z (Z.log2 v))) in E.
      rewrite Z.land_spec, Z.bits_0, Z.bit_log2 in E by lia.
      assert (Z.log2 (v - 1) = Z.log2 v) as El by (apply Z.log2_unique; [apply Z.log2_nonneg|lia]).
      rewrite <- El, Z.bit_log2 in E by (pose proof (Z.pow_pos_nonneg 2 (Z.log2 v)
        ltac:(lia) (Z.log2_nonneg v)); lia). done.
    + intros (n & Hn & ->). rewrite Z.sub_1_r, <- Z.ones_equiv, Z.land_ones by done.
      apply Z.mod_same. lia.
Qed.

Lemma lnot_ones w n : 0 <= n <= w -> lnot_w w (Z.ones n) = 2 ^ w - 2 ^ n.
Proof.
  intros. unfold lnot_w.
  transitivity (Z.ldiff (Z.ones w) (Z.ones n)).
  - apply Z.bits_inj'. intros i Hi. rewrite Z.lxor_spec, Z.ldiff_spec.
    rewrite !Z.testbit_ones_nonneg by lia. bool_cases; done || lia.
  - rewrite <- Z.sub_nocarry_ldiff, !Z.ones_equiv by (apply Z.bits_inj'; intros i Hi;
      rewrite Z.ldiff_spec, Z.bits_0, !Z.testbit_ones_nonneg by lia; bool_cases; done || lia). lia.
Qed.

Lemma lor_lnot_ones w n x :
  0 <= n <= w -> 0 <= x < 2 ^ w -> Z.lor x (lnot_w w (Z.ones n)) = x mod 2 ^ n + (2 ^ w - 2 ^ n).
Proof.
  intros Hn Hx. rewrite <- lnot_ones, <- Z.land_ones by lia.
  assert (Hb : forall i, 0 <= i -> Z.testbit (lnot_w w (Z.ones n)) i = (n <=? i) && (i <? w)).
  { intros i Hi. unfold lnot_w. rewrite Z.lxor_spec, !Z.testbit_ones_nonneg by lia.
    bool_cases; done || lia. }
  rewrite Z.add_nocarry_lxor.
  - apply Z.bits_inj'. intros i Hi. rewrite Z.lor_spec, Z.lxor_spec, Z.land_spec, Hb, Z.testbit_ones_nonneg by lia.
    destruct (Z.lt_ge_cases i w); [|rewrite (testbit_high w x) by lia];
      bool_cases; destruct (Z.testbit x i); done || lia.
  - apply Z.bits_inj'. intros i Hi. rewrite !Z.land_spec, Hb, Z.testbit_ones_nonneg, Z.bits_0 by lia.
    destruct (Z.testbit x i); bool_cases; done || lia.
Qed.

(** [sext] is sign extension: the result fits the type and reads, in
    two's complement, as the same number as the [width]-bit input. *)
Lemma sext_preserves_value (w word width : Z)
    (Hw : std_width w) (Hx : 0 <= word < 2 ^ w) (Hd : 1 < width <= w) :
  exists r, sext w word width = Some r /\ 0 <= r < 2 ^ w /\ sint w r = sint width word.
Proof.
  unfold sext. rewrite (proj2 (Z.ltb_lt 1 width)), (proj2 (Z.leb_le width w)) by lia. cbn [andb].
  destruct (Z.eqb_spec width w) as [->|]; [by eexists|].
  eexists. split; [done|]. rewrite Z.shiftl_1_l, (Z.sub_1_r (2 ^ width)), <- Z.ones_equiv.
  rewrite land_one_bit, lor_lnot_ones, Z.land_ones by lia.
  assert (2 ^ width = 2 * 2 ^ (width - 1)) as E2 by (rewrite <- Z.pow_succ_r by lia; f_equal; lia).
  assert (2 ^ w = 2 * 2 ^ (w - 1)) as Ew by (rewrite <- Z.pow_succ_r by lia; f_equal; lia).
  assert (2 ^ width <= 2 ^ (w - 1)) by (apply Z.pow_le_mono_r; lia).
  assert (0 < 2 ^ (width - 1)) by (apply Z.pow_pos_nonneg; lia).
  pose proof (Z.mod_pos_bound word (2 ^ width) ltac:(lia)) as Hm.
  assert (Z.testbit word (width - 1) = (2 ^ (width - 1) <=? word mod 2 ^ width)) as ->.
  { rewrite <- (Z.mod_pow2_bits_low word width (width - 1)) by lia. set (y := word mod 2 ^ width) in *.
    destruct (Z.leb_spec (2 ^ (width - 1)) y).
    - rewrite <- (Z.bit_log2 y) by lia. f_equal. symmetry. apply Z.log2_unique; [lia|].
      replace (Z.succ (width - 1)) with width by lia. lia.
    - apply (testbit_high (width - 1)); lia. }
  unfold sint. destruct (Z.leb_spec (2 ^ (width - 1)) (word mod 2 ^ width)).
  - split; [lia|]. rewrite (Z.mod_small _ (2 ^ w)) by lia. bool_cases; lia.
  - split; [lia|]. rewrite (Z.mod_small _ (2 ^ w)) by lia. bool_cases; lia.
Qed.

(** The immediate fields of instructions: sign extension of the low bits of a
    signed value gives that value. *)
Lemma sext_signed imm width :
  1 < width < 32 -> - 2 ^ (width - 1) <= imm < 2 ^ (width - 1) -> sext 32 (imm mod 2 ^ width) width = Some (u32 imm).
Proof.
  intros Hw Hi. assert (2 ^ width = 2 * 2 ^ (width - 1)) as E2 by (rewrite <- Z.pow_succ_r by lia; f_equal; lia).
  assert (2 ^ width <= 2 ^ 32) by (apply Z.pow_le_mono_r; lia).
  pose proof (Z.mod_pos_bound imm (2 ^ width) ltac:(lia)).
  destruct (sext_preserves_value 32 (imm mod 2 ^ width) width) as (r & -> & Hr & E); [unfold std_width; lia | lia | lia |].
  f_equal. assert (sint width (imm mod 2 ^ width) = imm) as Es.
  { unfold sint. rewrite Z.mod_mod by lia. destruct (Z.lt_ge_cases imm 0).
    - replace (imm mod 2 ^ width) with (imm + 2 ^ width) by (apply Zmod_unique with (-1); lia).
      rewrite (proj2 (Z.ltb_ge _ _)) by lia. lia.
    - rewrite Z.mod_small by lia. by rewrite (proj2 (Z.ltb_lt _ _)) by lia. }
  rewrite Es in E. subst imm. unfold sint, u32. rewrite (Z.mod_small r) by done.
  destruct (r <? 2 ^ (32 - 1)); [by rewrite Z.mod_small|].
  replace (r - 2 ^ 32) with (r + (-1) * 2 ^ 32) by lia. by rewrite Z.mod_add, Z.mod_small by lia.
Qed.
