(* ===== verification/Isa.v ===== *)
(** * Reference instruction set

    The instructions the simulator decodes, as data: the RV32/RV64 base set
    with M, A, F, D and Zicond and the compressed (C) instructions, each with the
    encoding the RISC-V manual gives it.  Nothing here
    translates the simulator; it is the specification against which the
    decompressor, the decoder and the integer unit are proved. *)

From S2P Require Import Prelude.

(** ** Instruction words as sequences of bit fields

    A format is written the way the manual draws it, low field first: the field
    [Seg x lo n] holds bits [lo .. lo+n-1] of [x] (two's complement when [x] is
    negative). *)
Record seg := Seg { seg_src : Z; seg_lo : Z; seg_len : Z }.

Definition slice (x lo n : Z) : Z := x / 2 ^ lo mod 2 ^ n.

Fixpoint val (s : list seg) : Z :=
  match s with
  | [] => 0
  | Seg x lo n :: r => slice x lo n + 2 ^ n * val r
  end.

Definition enc_R (f7 rs2 rs1 f3 rd op : Z) : Z :=
  val [Seg op 0 7; Seg rd 0 5; Seg f3 0 3; Seg rs1 0 5; Seg rs2 0 5; Seg f7 0 7].
Definition enc_I (imm rs1 f3 rd op : Z) : Z :=
  val [Seg op 0 7; Seg rd 0 5; Seg f3 0 3; Seg rs1 0 5; Seg imm 0 12].
Definition enc_S (imm rs2 rs1 f3 op : Z) : Z :=
  val [Seg op 0 7; Seg imm 0 5; Seg f3 0 3; Seg rs1 0 5; Seg rs2 0 5; Seg imm 5 7].
Definition enc_B (imm rs2 rs1 f3 op : Z) : Z :=
  val [Seg op 0 7; Seg imm 11 1; Seg imm 1 4; Seg f3 0 3; Seg rs1 0 5; Seg rs2 0 5; Seg imm 5 6; Seg imm 12 1].
Definition enc_U (imm20 rd op : Z) : Z := val [Seg op 0 7; Seg rd 0 5; Seg imm20 0 20].
Definition enc_J (imm rd op : Z) : Z :=
  val [Seg op 0 7; Seg rd 0 5; Seg imm 12 8; Seg imm 11 1; Seg imm 1 10; Seg imm 20 1].
Definition enc_R4 (rs3 f2 rs2 rs1 f3 rd op : Z) : Z :=
  val [Seg op 0 7; Seg rd 0 5; Seg f3 0 3; Seg rs1 0 5; Seg rs2 0 5; Seg f2 0 2; Seg rs3 0 5].

(** ** Mnemonics and their function codes *)

Variant rop :=
  | r_add | r_sub | r_sll | r_slt | r_sltu | r_xor | r_srl | r_sra | r_or | r_and
  | r_mul | r_mulh | r_mulhsu | r_mulhu | r_div | r_divu | r_rem | r_remu
  | r_czero_eqz | r_czero_nez.

Definition rop_f3 (o : rop) : Z :=
  match o with
  | r_add | r_sub | r_mul => 0
  | r_sll | r_mulh => 1
  | r_slt | r_mulhsu => 2
  | r_sltu | r_mulhu => 3
  | r_xor | r_div => 4
  | r_srl | r_sra | r_divu | r_czero_eqz => 5
  | r_or | r_rem => 6
  | r_and | r_remu | r_czero_nez => 7
  end.

Definition rop_f7 (o : rop) : Z :=
  match o with
  | r_sub | r_sra => 32
  | r_mul | r_mulh | r_mulhsu | r_mulhu | r_div | r_divu | r_rem | r_remu => 1
  | r_czero_eqz | r_czero_nez => 7
  | _ => 0
  end.

(** The 32-bit operations of RV64. *)
Variant rwop := w_addw | w_subw | w_sllw | w_srlw | w_sraw | w_mulw | w_divw | w_divuw | w_remw | w_remuw.

Definition rwop_f3 (o : rwop) : Z :=
  match o with
  | w_addw | w_subw | w_mulw => 0
  | w_sllw => 1
  | w_divw => 4
  | w_srlw | w_sraw | w_divuw => 5
  | w_remw => 6
  | w_remuw => 7
  end.

Definition rwop_f7 (o : rwop) : Z :=
  match o with
  | w_subw | w_sraw => 32
  | w_mulw | w_divw | w_divuw | w_remw | w_remuw => 1
  | _ => 0
  end.

Variant iop := i_addi | i_slti | i_sltiu | i_xori | i_ori | i_andi.

Definition iop_f3 (o : iop) : Z :=
  match o with i_addi => 0 | i_slti => 2 | i_sltiu => 3 | i_xori => 4 | i_ori => 6 | i_andi => 7 end.

Variant shop := s_slli | s_srli | s_srai.

Definition shop_f3 (o : shop) : Z := match o with s_slli => 1 | _ => 5 end.
Definition shop_hi (o : shop) : Z := match o with s_srai => 2 ^ 10 | _ => 0 end.

Variant brop := b_beq | b_bne | b_blt | b_bge | b_bltu | b_bgeu.

Definition brop_f3 (o : brop) : Z :=
  match o with b_beq => 0 | b_bne => 1 | b_blt => 4 | b_bge => 5 | b_bltu => 6 | b_bgeu => 7 end.

Variant ldop := l_lb | l_lh | l_lw | l_ld | l_lbu | l_lhu | l_lwu.

Definition ldop_f3 (o : ldop) : Z :=
  match o with
  | l_lb => 0 | l_lh => 1 | l_lw => 2 | l_ld => 3 | l_lbu => 4 | l_lhu => 5 | l_lwu => 6
  end.

Variant stop := st_sb | st_sh | st_sw | st_sd.

Definition stop_f3 (o : stop) : Z :=
  match o with st_sb => 0 | st_sh => 1 | st_sw => 2 | st_sd => 3 end.

Variant amoop :=
  | a_lr | a_sc | a_amoswap | a_amoadd | a_amoxor | a_amoand | a_amoor
  | a_amomin | a_amomax | a_amominu | a_amomaxu.

Definition amoop_f5 (o : amoop) : Z :=
  match o with
  | a_amoadd => 0 | a_amoswap => 1 | a_lr => 2 | a_sc => 3 | a_amoxor => 4 | a_amoor => 8
  | a_amoand => 12 | a_amomin => 16 | a_amomax => 20 | a_amominu => 24 | a_amomaxu => 28
  end.

Variant csrop := c_csrrw | c_csrrs | c_csrrc.

Definition csrop_f3 (o : csrop) : Z := match o with c_csrrw => 1 | c_csrrs => 2 | c_csrrc => 3 end.

Variant sysop := y_ecall | y_ebreak | y_uret | y_sret | y_mret.

Definition sysop_imm (o : sysop) : Z :=
  match o with y_ecall => 0 | y_ebreak => 1 | y_uret => 2 | y_sret => 0x102 | y_mret => 0x302 end.

(** Fused multiply-add and the two-operand floating-point operations. *)
Variant fmaop := f_madd | f_msub | f_nmadd | f_nmsub.

Definition fmaop_op (o : fmaop) : Z :=
  match o with f_madd => 0x43 | f_msub => 0x47 | f_nmsub => 0x4B | f_nmadd => 0x4F end.

Variant fbinop := f_add | f_sub | f_mul | f_div.

Definition fbinop_f5 (o : fbinop) : Z :=
  match o with f_add => 0 | f_sub => 1 | f_mul => 2 | f_div => 3 end.

Variant fselop := f_sgnj | f_sgnjn | f_sgnjx | f_min | f_max.

Definition fselop_f5 (o : fselop) : Z := match o with f_min | f_max => 5 | _ => 4 end.
Definition fselop_f3 (o : fselop) : Z :=
  match o with f_sgnj | f_min => 0 | f_sgnjn | f_max => 1 | f_sgnjx => 2 end.

Variant fcmpop := f_le | f_lt | f_eq.

Definition fcmpop_f3 (o : fcmpop) : Z := match o with f_le => 0 | f_lt => 1 | f_eq => 2 end.

(** The integer type of a conversion: [.W], [.WU], [.L], [.LU]. *)
Variant fint := k_w | k_wu | k_l | k_lu.

Definition fint_rs2 (k : fint) : Z := match k with k_w => 0 | k_wu => 1 | k_l => 2 | k_lu => 3 end.

(** ** Instructions *)

Inductive rv_instr :=
  | rv_lui (rd imm20 : Z)
  | rv_auipc (rd imm20 : Z)
  | rv_op (o : rop) (rd rs1 rs2 : Z)
  | rv_opi (o : iop) (rd rs1 imm : Z)
  | rv_shi (o : shop) (rd rs1 sh : Z)
  | rv_opw (o : rwop) (rd rs1 rs2 : Z)
  | rv_addiw (rd rs1 imm : Z)
  | rv_shiw (o : shop) (rd rs1 sh : Z)
  | rv_branch (o : brop) (rs1 rs2 off : Z)
  | rv_jal (rd off : Z)
  | rv_jalr (rd rs1 off : Z)
  | rv_load (o : ldop) (rd rs1 off : Z)
  | rv_store (o : stop) (rs2 rs1 off : Z)
  | rv_fload (d : bool) (rd rs1 off : Z)
  | rv_fstore (d : bool) (rs2 rs1 off : Z)
  | rv_fence (imm rs1 rd : Z)
  | rv_amo (o : amoop) (d aq rl : bool) (rd rs1 rs2 : Z)
  | rv_csr (o : csrop) (rd rs1 csr : Z)
  | rv_csri (o : csrop) (rd zimm csr : Z)
  | rv_sys (o : sysop)
  | rv_fma (o : fmaop) (d : bool) (rm rd rs1 rs2 rs3 : Z)
  | rv_fbin (o : fbinop) (d : bool) (rm rd rs1 rs2 : Z)
  | rv_fsqrt (d : bool) (rm rd rs1 : Z)
  | rv_fsel (o : fselop) (d : bool) (rd rs1 rs2 : Z)
  | rv_fcmp (o : fcmpop) (d : bool) (rd rs1 rs2 : Z)
  | rv_f2i (k : fint) (d : bool) (rm rd rs1 : Z)
  | rv_i2f (k : fint) (d : bool) (rm rd rs1 : Z)
  | rv_f2f (d : bool) (rm rd rs1 : Z)
  | rv_fclass (d : bool) (rd rs1 : Z)
  | rv_fmvxw (d : bool) (rd rs1 : Z)
  | rv_fmvwx (d : bool) (rd rs1 : Z).

Definition b2 (b : bool) : Z := if b then 1 else 0.

Definition encode (i : rv_instr) : Z :=
  match i with
  | rv_lui rd imm => enc_U imm rd 0x37
  | rv_auipc rd imm => enc_U imm rd 0x17
  | rv_op o rd rs1 rs2 => enc_R (rop_f7 o) rs2 rs1 (rop_f3 o) rd 0x33
  | rv_opi o rd rs1 imm => enc_I imm rs1 (iop_f3 o) rd 0x13
  | rv_shi o rd rs1 sh => enc_I (shop_hi o + sh) rs1 (shop_f3 o) rd 0x13
  | rv_opw o rd rs1 rs2 => enc_R (rwop_f7 o) rs2 rs1 (rwop_f3 o) rd 0x3B
  | rv_addiw rd rs1 imm => enc_I imm rs1 0 rd 0x1B
  | rv_shiw o rd rs1 sh => enc_I (shop_hi o + sh) rs1 (shop_f3 o) rd 0x1B
  | rv_branch o rs1 rs2 off => enc_B off rs2 rs1 (brop_f3 o) 0x63
  | rv_jal rd off => enc_J off rd 0x6F
  | rv_jalr rd rs1 off => enc_I off rs1 0 rd 0x67
  | rv_load o rd rs1 off => enc_I off rs1 (ldop_f3 o) rd 0x03
  | rv_store o rs2 rs1 off => enc_S off rs2 rs1 (stop_f3 o) 0x23
  | rv_fload d rd rs1 off => enc_I off rs1 (2 + b2 d) rd 0x07
  | rv_fstore d rs2 rs1 off => enc_S off rs2 rs1 (2 + b2 d) 0x27
  | rv_fence imm rs1 rd => enc_I imm rs1 0 rd 0x0F
  | rv_amo o d aq rl rd rs1 rs2 => enc_R (4 * amoop_f5 o + 2 * b2 aq + b2 rl) rs2 rs1 (2 + b2 d) rd 0x2F
  | rv_csr o rd rs1 csr => enc_I csr rs1 (csrop_f3 o) rd 0x73
  | rv_csri o rd zimm csr => enc_I csr zimm (4 + csrop_f3 o) rd 0x73
  | rv_sys o => enc_I (sysop_imm o) 0 0 0 0x73
  | rv_fma o d rm rd rs1 rs2 rs3 => enc_R4 rs3 (b2 d) rs2 rs1 rm rd (fmaop_op o)
  | rv_fbin o d rm rd rs1 rs2 => enc_R (4 * fbinop_f5 o + b2 d) rs2 rs1 rm rd 0x53
  | rv_fsqrt d rm rd rs1 => enc_R (0x2C + b2 d) 0 rs1 rm rd 0x53
  | rv_fsel o d rd rs1 rs2 => enc_R (4 * fselop_f5 o + b2 d) rs2 rs1 (fselop_f3 o) rd 0x53
  | rv_fcmp o d rd rs1 rs2 => enc_R (0x50 + b2 d) rs2 rs1 (fcmpop_f3 o) rd 0x53
  | rv_f2i k d rm rd rs1 => enc_R (0x60 + b2 d) (fint_rs2 k) rs1 rm rd 0x53
  | rv_i2f k d rm rd rs1 => enc_R (0x68 + b2 d) (fint_rs2 k) rs1 rm rd 0x53
  | rv_f2f d rm rd rs1 => enc_R (0x20 + b2 d) (b2 (negb d)) rs1 rm rd 0x53
  | rv_fclass d rd rs1 => enc_R (0x70 + b2 d) 0 rs1 1 rd 0x53
  | rv_fmvxw d rd rs1 => enc_R (0x70 + b2 d) 0 rs1 0 rd 0x53
  | rv_fmvwx d rd rs1 => enc_R (0x78 + b2 d) 0 rs1 0 rd 0x53
  end.

(** Operand ranges: registers, immediates and rounding modes as the formats
    hold them. *)
Definition reg5 (r : Z) : bool := (0 <=? r) && (r <? 32).
Definition in_range (lo hi x : Z) : bool := (lo <=? x) && (x <? hi).
Definition even (x : Z) : bool := x mod 2 =? 0.

Section Valid.
Context `{VxConfig}.

Definition rv64 : bool := XLEN =? 64.

(** The instructions of the configuration's instruction set. *)
Definition rv_valid (i : rv_instr) : bool :=
  match i with
  | rv_lui rd imm | rv_auipc rd imm => reg5 rd && in_range 0 (2 ^ 20) imm
  | rv_op _ rd rs1 rs2 => reg5 rd && reg5 rs1 && reg5 rs2
  | rv_opi _ rd rs1 imm => reg5 rd && reg5 rs1 && in_range (- 2 ^ 11) (2 ^ 11) imm
  | rv_shi _ rd rs1 sh => reg5 rd && reg5 rs1 && in_range 0 XLEN sh
  | rv_opw _ rd rs1 rs2 => rv64 && (reg5 rd && reg5 rs1 && reg5 rs2)
  | rv_addiw rd rs1 imm => rv64 && (reg5 rd && reg5 rs1 && in_range (- 2 ^ 11) (2 ^ 11) imm)
  | rv_shiw _ rd rs1 sh => rv64 && (reg5 rd && reg5 rs1 && in_range 0 32 sh)
  | rv_branch _ rs1 rs2 off => reg5 rs1 && reg5 rs2 && (in_range (- 2 ^ 12) (2 ^ 12) off && even off)
  | rv_jal rd off => reg5 rd && (in_range (- 2 ^ 20) (2 ^ 20) off && even off)
  | rv_jalr rd rs1 off => reg5 rd && reg5 rs1 && in_range (- 2 ^ 11) (2 ^ 11) off
  | rv_load o rd rs1 off =>
      match o with l_ld | l_lwu => rv64 | _ => true end
      && (reg5 rd && reg5 rs1 && in_range (- 2 ^ 11) (2 ^ 11) off)
  | rv_store o rs2 rs1 off =>
      match o with st_sd => rv64 | _ => true end
      && (reg5 rs2 && reg5 rs1 && in_range (- 2 ^ 11) (2 ^ 11) off)
  | rv_fload _ rd rs1 off => reg5 rd && reg5 rs1 && in_range (- 2 ^ 11) (2 ^ 11) off
  | rv_fstore _ rs2 rs1 off => reg5 rs2 && reg5 rs1 && in_range (- 2 ^ 11) (2 ^ 11) off
  | rv_fence imm rs1 rd => in_range 0 (2 ^ 12) imm && reg5 rs1 && reg5 rd
  | rv_amo _ d _ _ rd rs1 rs2 => (negb d || rv64) && (reg5 rd && reg5 rs1 && reg5 rs2)
  | rv_csr _ rd rs1 csr => reg5 rd && reg5 rs1 && in_range 0 (2 ^ 12) csr
  | rv_csri _ rd zimm csr => reg5 rd && in_range 0 32 zimm && in_range 0 (2 ^ 12) csr
  | rv_sys _ => true
  | rv_fma _ _ rm rd rs1 rs2 rs3 =>
      in_range 0 8 rm && reg5 rd && reg5 rs1 && reg5 rs2 && reg5 rs3
  | rv_fbin _ _ rm rd rs1 rs2 => in_range 0 8 rm && reg5 rd && reg5 rs1 && reg5 rs2
  | rv_fsqrt _ rm rd rs1 | rv_f2f _ rm rd rs1 => in_range 0 8 rm && reg5 rd && reg5 rs1
  | rv_fsel _ _ rd rs1 rs2 | rv_fcmp _ _ rd rs1 rs2 => reg5 rd && reg5 rs1 && reg5 rs2
  | rv_f2i k _ rm rd rs1 | rv_i2f k _ rm rd rs1 =>
      match k with k_l | k_lu => rv64 | _ => true end && (in_range 0 8 rm && reg5 rd && reg5 rs1)
  | rv_fclass _ rd rs1 | rv_fmvwx _ rd rs1 | rv_fmvxw _ rd rs1 => reg5 rd && reg5 rs1
  end.
End Valid.

(** ** Compressed instructions *)

(** The access of a compressed load or store: [LW], [LD] (RV64), [FLW] (RV32)
    and [FLD] and their stores. *)
Variant cmem := cm_w | cm_d | cm_fw | cm_fd.

Definition cmem_f3 (o : cmem) : Z := match o with cm_fd => 1 | cm_w => 2 | cm_d | cm_fw => 3 end.
Definition cmem_wide (o : cmem) : bool := match o with cm_d | cm_fd => true | _ => false end.

Variant calu := ca_sub | ca_xor | ca_or | ca_and | ca_subw | ca_addw.

Definition calu_b12 (o : calu) : Z := match o with ca_subw | ca_addw => 1 | _ => 0 end.
Definition calu_f2 (o : calu) : Z :=
  match o with ca_sub | ca_subw => 0 | ca_xor | ca_addw => 1 | ca_or => 2 | ca_and => 3 end.

Inductive c_instr :=
  | c_addi4spn (rd uimm : Z)
  | c_load (o : cmem) (rd rs1 uimm : Z)
  | c_store (o : cmem) (rs2 rs1 uimm : Z)
  | c_addi (rd imm : Z)
  | c_addiw (rd imm : Z)
  | c_jal (off : Z)
  | c_li (rd imm : Z)
  | c_addi16sp (imm : Z)
  | c_lui (rd imm : Z)
  | c_srli (rd sh : Z)
  | c_srai (rd sh : Z)
  | c_andi (rd imm : Z)
  | c_alu (o : calu) (rd rs2 : Z)
  | c_j (off : Z)
  | c_beqz (rs1 off : Z)
  | c_bnez (rs1 off : Z)
  | c_slli (rd sh : Z)
  | c_loadsp (o : cmem) (rd uimm : Z)
  | c_storesp (o : cmem) (rs2 uimm : Z)
  | c_jr (rs1 : Z)
  | c_jalr (rs1 : Z)
  | c_ebreak
  | c_mv (rd rs2 : Z)
  | c_add (rd rs2 : Z).

(** The formats of the C extension; a register of the restricted forms is
    given by its low three bits. *)
Definition enc_CI (f3 rd imm op : Z) : Z :=
  val [Seg op 0 2; Seg imm 0 5; Seg rd 0 5; Seg imm 5 1; Seg f3 0 3].
Definition enc_CB_alu (f2 rd imm : Z) : Z :=
  val [Seg 1 0 2; Seg imm 0 5; Seg rd 0 3; Seg f2 0 2; Seg imm 5 1; Seg 4 0 3].
Definition enc_CL (wide : bool) (f3 r rs1 u : Z) : Z :=
  if wide then val [Seg 0 0 2; Seg r 0 3; Seg u 6 2; Seg rs1 0 3; Seg u 3 3; Seg f3 0 3]
  else val [Seg 0 0 2; Seg r 0 3; Seg u 6 1; Seg u 2 1; Seg rs1 0 3; Seg u 3 3; Seg f3 0 3].
Definition enc_CJ (f3 off : Z) : Z :=
  val [Seg 1 0 2; Seg off 5 1; Seg off 1 3; Seg off 7 1; Seg off 6 1; Seg off 10 1; Seg off 8 2; Seg off 4 1;
       Seg off 11 1; Seg f3 0 3].
Definition enc_CB (f3 rs1 off : Z) : Z :=
  val [Seg 1 0 2; Seg off 5 1; Seg off 1 2; Seg off 6 2; Seg rs1 0 3; Seg off 3 2; Seg off 8 1; Seg f3 0 3].
Definition enc_CR (b12 rd rs2 : Z) : Z :=
  val [Seg 2 0 2; Seg rs2 0 5; Seg rd 0 5; Seg b12 0 1; Seg 4 0 3].

Definition cencode (c : c_instr) : Z :=
  match c with
  | c_addi4spn rd u =>
      val [Seg 0 0 2; Seg rd 0 3; Seg u 3 1; Seg u 2 1; Seg u 6 4; Seg u 4 2; Seg 0 0 3]
  | c_load o rd rs1 u => enc_CL (cmem_wide o) (cmem_f3 o) rd rs1 u
  | c_store o rs2 rs1 u => enc_CL (cmem_wide o) (4 + cmem_f3 o) rs2 rs1 u
  | c_addi rd imm => enc_CI 0 rd imm 1
  | c_addiw rd imm => enc_CI 1 rd imm 1
  | c_jal off => enc_CJ 1 off
  | c_li rd imm => enc_CI 2 rd imm 1
  | c_addi16sp imm =>
      val [Seg 1 0 2; Seg imm 5 1; Seg imm 7 2; Seg imm 6 1; Seg imm 4 1; Seg 2 0 5; Seg imm 9 1; Seg 3 0 3]
  | c_lui rd imm => enc_CI 3 rd imm 1
  | c_srli rd sh => enc_CB_alu 0 rd sh
  | c_srai rd sh => enc_CB_alu 1 rd sh
  | c_andi rd imm => enc_CB_alu 2 rd imm
  | c_alu o rd rs2 =>
      val [Seg 1 0 2; Seg rs2 0 3; Seg (calu_f2 o) 0 2; Seg rd 0 3; Seg 3 0 2; Seg (calu_b12 o) 0 1; Seg 4 0 3]
  | c_j off => enc_CJ 5 off
  | c_beqz rs1 off => enc_CB 6 rs1 off
  | c_bnez rs1 off => enc_CB 7 rs1 off
  | c_slli rd sh => enc_CI 0 rd sh 2
  | c_loadsp o rd u =>
      if cmem_wide o then val [Seg 2 0 2; Seg u 6 3; Seg u 3 2; Seg rd 0 5; Seg u 5 1; Seg (cmem_f3 o) 0 3]
      else val [Seg 2 0 2; Seg u 6 2; Seg u 2 3; Seg rd 0 5; Seg u 5 1; Seg (cmem_f3 o) 0 3]
  | c_storesp o rs2 u =>
      if cmem_wide o then val [Seg 2 0 2; Seg rs2 0 5; Seg u 6 3; Seg u 3 3; Seg (4 + cmem_f3 o) 0 3]
      else val [Seg 2 0 2; Seg rs2 0 5; Seg u 6 2; Seg u 2 4; Seg (4 + cmem_f3 o) 0 3]
  | c_jr rs1 => enc_CR 0 rs1 0
  | c_jalr rs1 => enc_CR 1 rs1 0
  | c_ebreak => enc_CR 1 0 0
  | c_mv rd rs2 => enc_CR 0 rd rs2
  | c_add rd rs2 => enc_CR 1 rd rs2
  end.

Definition cm_load (o : cmem) (rd rs1 off : Z) : rv_instr :=
  match o with
  | cm_w => rv_load l_lw rd rs1 off
  | cm_d => rv_load l_ld rd rs1 off
  | cm_fw => rv_fload false rd rs1 off
  | cm_fd => rv_fload true rd rs1 off
  end.

Definition cm_store (o : cmem) (rs2 rs1 off : Z) : rv_instr :=
  match o with
  | cm_w => rv_store st_sw rs2 rs1 off
  | cm_d => rv_store st_sd rs2 rs1 off
  | cm_fw => rv_fstore false rs2 rs1 off
  | cm_fd => rv_fstore true rs2 rs1 off
  end.

Definition ca_op (o : calu) (rd rs2 : Z) : rv_instr :=
  match o with
  | ca_sub => rv_op r_sub rd rd rs2
  | ca_xor => rv_op r_xor rd rd rs2
  | ca_or => rv_op r_or rd rd rs2
  | ca_and => rv_op r_and rd rd rs2
  | ca_subw => rv_opw w_subw rd rd rs2
  | ca_addw => rv_opw w_addw rd rd rs2
  end.

(** The base instruction each compressed instruction stands for. *)
Definition cexpand (c : c_instr) : rv_instr :=
  match c with
  | c_addi4spn rd u => rv_opi i_addi rd 2 u
  | c_load o rd rs1 u => cm_load o rd rs1 u
  | c_store o rs2 rs1 u => cm_store o rs2 rs1 u
  | c_addi rd imm => rv_opi i_addi rd rd imm
  | c_addiw rd imm => rv_addiw rd rd imm
  | c_jal off => rv_jal 1 off
  | c_li rd imm => rv_opi i_addi rd 0 imm
  | c_addi16sp imm => rv_opi i_addi 2 2 imm
  | c_lui rd imm => rv_lui rd (imm mod 2 ^ 20)
  | c_srli rd sh => rv_shi s_srli rd rd sh
  | c_srai rd sh => rv_shi s_srai rd rd sh
  | c_andi rd imm => rv_opi i_andi rd rd imm
  | c_alu o rd rs2 => ca_op o rd rs2
  | c_j off => rv_jal 0 off
  | c_beqz rs1 off => rv_branch b_beq rs1 0 off
  | c_bnez rs1 off => rv_branch b_bne rs1 0 off
  | c_slli rd sh => rv_shi s_slli rd rd sh
  | c_loadsp o rd u => cm_load o rd 2 u
  | c_storesp o rs2 u => cm_store o rs2 2 u
  | c_jr rs1 => rv_jalr 0 rs1 0
  | c_jalr rs1 => rv_jalr 1 rs1 0
  | c_ebreak => rv_sys y_ebreak
  | c_mv rd rs2 => rv_op r_add rd 0 rs2
  | c_add rd rs2 => rv_op r_add rd rd rs2
  end.

Definition creg (r : Z) : bool := in_range 8 16 r.

Section CValid.
Context `{VxConfig}.

Definition cmem_valid (o : cmem) : bool :=
  match o with cm_d => rv64 | cm_fw => negb rv64 | _ => true end.
Definition cmem_off (o : cmem) (n : Z) (u : Z) : bool :=
  if cmem_wide o then in_range 0 (2 * n) u && (u mod 8 =? 0) else in_range 0 n u && (u mod 4 =? 0).

(** The compressed instructions with their operand restrictions.  Hints that
    write [x0] are left out, except those of [C.NOP] and [C.LI]. *)
Definition c_valid (c : c_instr) : bool :=
  match c with
  | c_addi4spn rd u => creg rd && (in_range 1 1024 u && (u mod 4 =? 0))
  | c_load o r rs1 u | c_store o r rs1 u => cmem_valid o && (creg r && creg rs1 && cmem_off o 128 u)
  | c_addi rd imm | c_li rd imm => reg5 rd && in_range (-32) 32 imm
  | c_addiw rd imm => rv64 && (in_range 1 32 rd && in_range (-32) 32 imm)
  | c_jal off => negb rv64 && (in_range (- 2 ^ 11) (2 ^ 11) off && even off)
  | c_j off => in_range (- 2 ^ 11) (2 ^ 11) off && even off
  | c_addi16sp imm => in_range (-512) 512 imm && (imm mod 16 =? 0) && negb (imm =? 0)
  | c_lui rd imm => in_range 1 32 rd && negb (rd =? 2) && (in_range (-32) 32 imm && negb (imm =? 0))
  | c_srli rd sh | c_srai rd sh => creg rd && in_range 0 64 sh
  | c_andi rd imm => creg rd && in_range (-32) 32 imm
  | c_alu o rd rs2 =>
      match o with ca_subw | ca_addw => rv64 | _ => true end && (creg rd && creg rs2)
  | c_beqz rs1 off | c_bnez rs1 off => creg rs1 && (in_range (-256) 256 off && even off)
  | c_slli rd sh => in_range 1 32 rd && in_range 0 64 sh
  | c_loadsp o rd u =>
      cmem_valid o && (match o with cm_w | cm_d => in_range 1 32 rd | _ => reg5 rd end && cmem_off o 256 u)
  | c_storesp o rs2 u => cmem_valid o && (reg5 rs2 && cmem_off o 256 u)
  | c_jr rs1 | c_jalr rs1 => in_range 1 32 rs1
  | c_ebreak => true
  | c_mv rd rs2 | c_add rd rs2 => in_range 1 32 rd && in_range 1 32 rs2
  end.
End CValid.

(** ** Field algebra

    Taking bits of a sequence of fields selects fields of it, and adjacent
    fields of the same value join; both are computed on the field list. *)
Fixpoint cut (lo n : Z) (s : list seg) : list seg :=
  match s with
  | [] => []
  | Seg x l w :: r =>
      if w <=? lo then cut (lo - w) n r
      else if n <=? w - lo then [Seg x (l + lo) n]
      else Seg x (l + lo) (w - lo) :: cut 0 (n - (w - lo)) r
  end.

Definition widths_ok (s : list seg) : bool := forallb (fun f => (0 <=? seg_lo f) && (0 <=? seg_len f)) s.

Lemma slice_range x lo n : 0 <= n -> 0 <= slice x lo n < 2 ^ n.
Proof. intros. apply Z.mod_pos_bound. lia. Qed.

Lemma slice_testbit x lo n i :
  0 <= lo -> 0 <= n -> 0 <= i -> Z.testbit (slice x lo n) i = (i <? n) && Z.testbit x (lo + i).
Proof.
  intros. unfold slice. rewrite <- Z.shiftr_div_pow2, <- Z.land_ones, Z.land_spec, Z.shiftr_spec by lia.
  rewrite andb_comm, (Z.add_comm i). f_equal. destruct (Z.ltb_spec i n).
  - by apply Z.ones_spec_low.
  - apply Z.ones_spec_high. lia.
Qed.

Lemma slice_split x lo n m :
  0 <= lo -> 0 <= n -> 0 <= m -> slice x lo (n + m) = slice x lo n + 2 ^ n * slice x (lo + n) m.
Proof.
  intros. unfold slice. rewrite !Z.pow_add_r by lia. rewrite <- Z.div_div by lia.
  rewrite Z.rem_mul_r by lia. done.
Qed.

(** A low part below [2^w] does not reach bit [w], and disappears above it. *)
Lemma slice_low a b w lo n :
  0 <= w -> 0 <= lo -> 0 <= n -> lo + n <= w -> slice (a + 2 ^ w * b) lo n = slice a lo n.
Proof.
  intros. unfold slice. replace (2 ^ w * b) with (2 ^ n * 2 ^ (w - n - lo) * b * 2 ^ lo).
  2: { rewrite <- (Z.mul_comm (2 ^ lo)), !Z.mul_assoc, <- !Z.pow_add_r by lia. do 2 f_equal. lia. }
  rewrite Z.div_add by lia. rewrite <- !Z.mul_assoc, Z.mul_comm, Z.mod_add by lia. done.
Qed.

Lemma slice_high a b w lo n :
  0 <= w -> w <= lo -> 0 <= n -> 0 <= a < 2 ^ w -> slice (a + 2 ^ w * b) lo n = slice b (lo - w) n.
Proof.
  intros. unfold slice. replace lo with (w + (lo - w)) at 1 by lia. rewrite Z.pow_add_r by lia.
  rewrite <- Z.div_div by lia. rewrite (Z.mul_comm (2 ^ w) b), Z.div_add, (Z.div_small a) by lia. done.
Qed.

Lemma slice_slice x l w lo n :
  0 <= l -> 0 <= lo -> 0 <= n -> lo + n <= w -> slice (slice x l w) lo n = slice x (l + lo) n.
Proof.
  intros. apply Z.bits_inj'. intros i Hi. rewrite !slice_testbit by lia.
  destruct (Z.ltb_spec i n); [|done]. rewrite (proj2 (Z.ltb_lt _ _)) by lia. simpl. f_equal. lia.
Qed.

Lemma slice_val s lo n : 0 <= lo -> 0 <= n -> widths_ok s = true -> slice (val s) lo n = val (cut lo n s).
Proof.
  revert lo n. induction s as [|[x l w] r IH]; intros lo n Hlo Hn Hs.
  - simpl. unfold slice. rewrite Zdiv_0_l. apply Zmod_0_l.
  - unfold widths_ok in Hs. cbn [forallb seg_lo seg_len] in Hs.
    apply andb_prop in Hs as [[Hl%Z.leb_le Hw'%Z.leb_le]%andb_prop Hs]. cbn [val cut].
    pose proof (slice_range x l w Hw'). destruct (Z.leb_spec w lo).
    + rewrite slice_high by lia. apply IH; [lia|lia|done].
    + destruct (Z.leb_spec n (w - lo)); cbn [val].
      * rewrite slice_low, slice_slice by lia. lia.
      * replace n with ((w - lo) + (n - (w - lo))) at 1 by lia. rewrite slice_split by lia.
        rewrite slice_low, slice_slice by lia. rewrite slice_high by lia.
        replace (lo + (w - lo) - w) with 0 by lia. rewrite IH by (lia || done). done.
Qed.

Lemma val_merge x l n k m r :
  k = l + n -> 0 <= l -> 0 <= n -> 0 <= m -> val (Seg x l n :: Seg x k m :: r) = val (Seg x l (n + m) :: r).
Proof. intros ->. intros. cbn [val]. rewrite slice_split, Z.pow_add_r by lia. lia. Qed.

Definition total (s : list seg) : Z := fold_right (fun f n => seg_len f + n) 0 s.

Lemma total_nonneg s : widths_ok s = true -> 0 <= total s.
Proof.
  induction s as [|[x l w] r IH]; [done|]. unfold widths_ok. cbn [forallb seg_lo seg_len total fold_right].
  intros [[_ Hw%Z.leb_le]%andb_prop Hr]%andb_prop. specialize (IH Hr). unfold total in IH. lia.
Qed.

Lemma val_app s r : widths_ok s = true -> val (s ++ r) = val s + 2 ^ total s * val r.
Proof.
  induction s as [|[x l w] s IH]; intros Hs; cbn [app val total fold_right seg_len]; [lia|].
  pose proof Hs as Hs'. unfold widths_ok in Hs. cbn [forallb seg_lo seg_len] in Hs.
  apply andb_prop in Hs as [[_ Hw%Z.leb_le]%andb_prop Hs]. pose proof (total_nonneg _ Hs).
  rewrite IH by done. unfold total in *. rewrite Z.pow_add_r by lia. lia.
Qed.

Lemma widths_app s r : widths_ok (s ++ r) = widths_ok s && widths_ok r.
Proof. apply forallb_app. Qed.

(** Fields of one value, by position and width. *)
Definition pick (x : Z) (layout : list (Z * Z)) : Z := val ((fun p => Seg x p.1 p.2) <$> layout).

Definition picks (s : list seg) (layout : list (Z * Z)) : list seg :=
  concat ((fun p => cut p.1 p.2 s) <$> layout).

(** A layout whose fields lie within [s]. *)
Definition layout_ok (s : list seg) (layout : list (Z * Z)) : bool :=
  forallb (fun p => (0 <=? p.1) && (0 <=? p.2) && (total (cut p.1 p.2 s) =? p.2) && widths_ok (cut p.1 p.2 s)) layout.

(** Picking fields of a field sequence is a field sequence. *)
Lemma pick_val s layout :
  widths_ok s = true -> layout_ok s layout = true -> pick (val s) layout = val (picks s layout).
Proof.
  intros Hs. unfold pick, picks. induction layout as [|[lo n] L IH]; intros HL; [done|].
  unfold layout_ok in HL. cbn [forallb fst snd] in HL.
  apply andb_prop in HL as [[[[Hlo%Z.leb_le Hn%Z.leb_le]%andb_prop Ht%Z.eqb_eq]%andb_prop Hw]%andb_prop HL].
  cbn [fmap list_fmap concat fst snd val]. rewrite val_app, IH, slice_val, Ht by done. done.
Qed.

Lemma val_range s : widths_ok s = true -> 0 <= val s < 2 ^ total s.
Proof.
  induction s as [|[x l w] r IH]; intros Hs; cbn [val total fold_right seg_len]; [lia|].
  unfold widths_ok in Hs. cbn [forallb seg_lo seg_len] in Hs.
  apply andb_prop in Hs as [[_ Hw%Z.leb_le]%andb_prop Hs]. pose proof (total_nonneg _ Hs).
  specialize (IH Hs). pose proof (slice_range x l w Hw). unfold total in *. rewrite Z.pow_add_r by lia. nia.
Qed.

(** The value of a field that holds all of [x]. *)
Lemma val_one x lo n : val [Seg x lo n] = slice x lo n.
Proof. cbn [val]. lia. Qed.

Lemma slice0_small x n : 0 <= n -> 0 <= x < 2 ^ n -> slice x 0 n = x.
Proof. intros. unfold slice. rewrite Z.pow_0_r, Z.div_1_r. by apply Z.mod_small. Qed.

Lemma slice_shiftr x k lo n : 0 <= k -> 0 <= lo -> slice (Z.shiftr x k) lo n = slice x (k + lo) n.
Proof. intros. unfold slice. by rewrite Z.shiftr_div_pow2, Z.div_div, Z.pow_add_r by lia. Qed.

(** Fields of a word given by its segments. *)
Ltac slice_vals :=
  repeat match goal with
  | |- context [slice (val ?s) ?l ?n] =>
      rewrite (slice_val s l n) by (reflexivity || (vm_compute; discriminate));
      let r := eval vm_compute in (cut l n s) in change (cut l n s) with r
  end; rewrite ?val_one.

(** The operand ranges of a valid instruction. *)
Ltac split_rv H :=
  unfold rv_valid, reg5, in_range, even in H;
  rewrite ?andb_true_iff, ?negb_true_iff, ?Z.leb_le, ?Z.ltb_lt, ?Z.eqb_eq in H; destruct_and? H.
