(* ===== verification/Decompress.v ===== *)
(** * RVC decompression ([sim/simx/decompressor.cpp], [rvc_decompress])

    The bit-level expansion of 16-bit instructions, proved to be exactly the
    expansion of the C extension: it accepts the encodings of the valid
    compressed instructions and no others, and produces for each the encoding
    of the base instruction it stands for. *)

From S2P Require Import Prelude Isa.

(** ** Bit helpers *)

(** [x << n] on [uint32_t] *)
Definition shl (x n : Z) : Z := u32 (Z.shiftl x n).

Definition bit (x b : Z) : Z := Z.land (Z.shiftr x b) 1.
Definition bits (x hi lo : Z) : Z := Z.land (Z.shiftr x lo) (u32 (shl 1 (hi - lo + 1) - 1)).
Definition sext_imm (val width : Z) : Z :=
  let m := shl 1 (width - 1) in u32 (Z.lxor val m - m).

Definition rcp (r3 : Z) : Z := u32 (8 + r3).

Definition ENCI (imm12 rs1 funct3 rd opcode : Z) : Z :=
  Z.lor (Z.lor (Z.lor (Z.lor (shl (Z.land imm12 0xFFF) 20) (shl (Z.land rs1 31) 15))
    (shl (Z.land funct3 7) 12)) (shl (Z.land rd 31) 7)) (Z.land opcode 0x7F).

Definition ENCR (funct7 rs2 rs1 funct3 rd opcode : Z) : Z :=
  Z.lor (Z.lor (Z.lor (Z.lor (Z.lor (shl (Z.land funct7 0x7F) 25) (shl (Z.land rs2 31) 20))
    (shl (Z.land rs1 31) 15)) (shl (Z.land funct3 7) 12)) (shl (Z.land rd 31) 7)) (Z.land opcode 0x7F).

Definition ENCS (imm12 rs2 rs1 funct3 opcode : Z) : Z :=
  let imm11_5 := Z.land (Z.shiftr imm12 5) 0x7F in
  let imm4_0 := Z.land imm12 0x1F in
  Z.lor (Z.lor (Z.lor (Z.lor (Z.lor (shl imm11_5 25) (shl (Z.land rs2 31) 20))
    (shl (Z.land rs1 31) 15)) (shl (Z.land funct3 7) 12)) (shl imm4_0 7)) (Z.land opcode 0x7F).

Definition ENCU (imm20 rd opcode : Z) : Z :=
  Z.lor (Z.lor (shl (Z.land imm20 0xFFFFF) 12) (shl (Z.land rd 31) 7)) (Z.land opcode 0x7F).

Definition ENCUJ (imm21 rd opcode : Z) : Z :=
  let i := Z.land imm21 0x001FFFFF in
  let enc := Z.lor (Z.lor (Z.lor (shl (Z.land i (Z.shiftl 1 20)) 11) (shl (Z.land i 0x7FE) 20))
               (shl (Z.land i (Z.shiftl 1 11)) 9)) (Z.land i 0xFF000) in
  Z.lor (Z.lor enc (shl (Z.land rd 31) 7)) (Z.land opcode 0x7F).

Definition ENCB (imm13 rs2 rs1 funct3 opcode : Z) : Z :=
  let i := Z.land imm13 0x1FFF in
  let imm12 := Z.land (Z.shiftr i 12) 1 in
  let imm10_5 := Z.land (Z.shiftr i 5) 0x3F in
  let imm4_1 := Z.land (Z.shiftr i 1) 0xF in
  let imm11 := Z.land (Z.shiftr i 11) 1 in
  Z.lor (Z.lor (Z.lor (Z.lor (Z.lor (Z.lor (Z.lor (shl imm12 31) (shl imm10_5 25)) (shl (Z.land rs2 31) 20))
    (shl (Z.land rs1 31) 15)) (shl (Z.land funct3 7) 12)) (shl imm4_1 8)) (shl imm11 7)) (Z.land opcode 0x7F).

(** ** The expansion *)

Record DecompResult := mk_decomp { instr32 : Z; size : Z; illegal : bool }.

Section Expand.
Context `{VxConfig}.

(** Field assemblies that recur in the switch. *)
Definition uimm_d (h : Z) : Z := Z.lor (shl (bits h 12 10) 3) (shl (bits h 6 5) 6).
Definition uimm_w (h : Z) : Z := Z.lor (Z.lor (shl (bit h 5) 6) (shl (bits h 12 10) 3)) (shl (bit h 6) 2).
Definition imm_ci (h : Z) : Z := Z.lor (shl (bit h 12) 5) (bits h 6 2).
Definition simm_ci (h : Z) : Z := sint 32 (sext_imm (imm_ci h) 6).
Definition imm_cj (h : Z) : Z :=
  Z.lor (Z.lor (Z.lor (Z.lor (Z.lor (Z.lor (Z.lor (shl (bit h 12) 11) (shl (bit h 8) 10)) (shl (bits h 10 9) 8))
    (shl (bit h 6) 7)) (shl (bit h 7) 6)) (shl (bit h 2) 5)) (shl (bit h 11) 4)) (shl (bits h 5 3) 1).
Definition imm_cb (h : Z) : Z :=
  Z.lor (Z.lor (Z.lor (Z.lor (Z.lor (shl (bit h 12) 8) (shl (bit h 6) 7)) (shl (bit h 5) 6)) (shl (bit h 2) 5))
    (shl (bits h 11 10) 3)) (shl (bits h 4 3) 1).
Definition nzuimm_4spn (h : Z) : Z :=
  Z.lor (Z.lor (Z.lor (shl (bits h 12 11) 4) (shl (bits h 10 7) 6)) (shl (bit h 5) 3)) (shl (bit h 6) 2).
Definition imm_16sp (h : Z) : Z :=
  Z.lor (Z.lor (Z.lor (Z.lor (shl (bit h 12) 9) (shl (bit h 6) 4)) (shl (bit h 5) 6)) (shl (bits h 4 3) 7))
    (shl (bit h 2) 5).
Definition imm_lui (h : Z) : Z := Z.lor (shl (bit h 12) 17) (shl (bits h 6 2) 12).
Definition uimm_ldsp (h : Z) : Z := Z.lor (Z.lor (shl (bit h 12) 5) (shl (bits h 6 5) 3)) (shl (bits h 4 2) 6).
Definition uimm_lwsp (h : Z) : Z := Z.lor (Z.lor (shl (bit h 12) 5) (shl (bits h 6 4) 2)) (shl (bits h 3 2) 6).
Definition uimm_sdsp (h : Z) : Z := Z.lor (shl (bits h 12 10) 3) (shl (bits h 9 7) 6).
Definition uimm_swsp (h : Z) : Z := Z.lor (shl (bits h 12 9) 2) (shl (bits h 8 7) 6).

(** Quadrant 0; [None] is [out.illegal = true]. *)
Definition quadrant0 (h funct3 : Z) : option Z :=
  let rd_ := rcp (bits h 4 2) in
  let rs1_ := rcp (bits h 9 7) in
  match funct3 with
  | 0 =>
      if nzuimm_4spn h =? 0 then None else Some (ENCI (nzuimm_4spn h) 2 0 rd_ 0x13)
  | 1 => Some (ENCI (uimm_d h) rs1_ 3 rd_ 0x07)
  | 2 => Some (ENCI (uimm_w h) rs1_ 2 rd_ 0x03)
  | 5 => Some (ENCS (uimm_d h) rd_ rs1_ 3 0x27)
  | 3 => if rv64 then Some (ENCI (uimm_d h) rs1_ 3 rd_ 0x03) else Some (ENCI (uimm_w h) rs1_ 2 rd_ 0x07)
  | 6 => Some (ENCS (uimm_w h) rd_ rs1_ 2 0x23)
  | 7 => if rv64 then Some (ENCS (uimm_d h) rd_ rs1_ 3 0x23) else Some (ENCS (uimm_w h) rd_ rs1_ 2 0x27)
  | _ => None
  end.

(** [funct3 = 0b100] of quadrant 1: shifts, [C.ANDI] and register arithmetic. *)
Definition quadrant1_alu (h : Z) : option Z :=
  let rd_ := rcp (bits h 9 7) in
  let rs2_ := rcp (bits h 4 2) in
  match bits h 11 10 with
  | 0 => Some (ENCI (imm_ci h) rd_ 5 rd_ 0x13)
  | 1 => Some (Z.lor (ENCI (imm_ci h) rd_ 5 rd_ 0x13) 0x40000000)
  | 2 => Some (ENCI (u32 (Z.land (simm_ci h) 0xFFF)) rd_ 7 rd_ 0x13)
  | _ =>
      if bit h 12 =? 0 then
        match bits h 6 5 with
        | 0 => Some (ENCR 0x20 rs2_ rd_ 0 rd_ 0x33)
        | 1 => Some (ENCR 0 rs2_ rd_ 4 rd_ 0x33)
        | 2 => Some (ENCR 0 rs2_ rd_ 6 rd_ 0x33)
        | _ => Some (ENCR 0 rs2_ rd_ 7 rd_ 0x33)
        end
      else if rv64 then
        match bits h 6 5 with
        | 0 => Some (ENCR 0x20 rs2_ rd_ 0 rd_ 0x3B)
        | 1 => Some (ENCR 0 rs2_ rd_ 0 rd_ 0x3B)
        | _ => None
        end
      else None
  end.

(** [funct3 = 0b011] of quadrant 1: [C.ADDI16SP] and [C.LUI]. *)
Definition quadrant1_lui (h : Z) : option Z :=
  let rd := bits h 11 7 in
  if rd =? 2 then
    let imm := sint 32 (sext_imm (imm_16sp h) 10) in
    if imm =? 0 then None else Some (ENCI (u32 (Z.land imm 0xFFF)) 2 0 2 0x13)
  else
    let imm := sint 32 (sext_imm (imm_lui h) 18) in
    if (rd =? 0) || (rd =? 2) || (imm =? 0) then None
    else Some (ENCU (u32 (Z.shiftr imm 12)) rd 0x37).

Definition quadrant1 (h funct3 : Z) : option Z :=
  let rd := bits h 11 7 in
  let rs1_ := rcp (bits h 9 7) in
  match funct3 with
  | 0 =>
      let imm := simm_ci h in
      if (rd =? 0) && (imm =? 0) then Some (ENCI 0 0 0 0 0x13)
      else Some (ENCI (u32 (Z.land imm 0xFFF)) rd 0 rd 0x13)
  | 1 =>
      if rv64 then
        if rd =? 0 then None else Some (ENCI (u32 (Z.land (simm_ci h) 0xFFF)) rd 0 rd 0x1B)
      else
        let simm := sint 32 (sext_imm (imm_cj h) 12) in
        Some (ENCUJ (Z.land (u32 simm) 0x1FFFFF) 1 0x6F)
  | 2 => Some (ENCI (u32 (Z.land (simm_ci h) 0xFFF)) 0 0 rd 0x13)
  | 3 => quadrant1_lui h
  | 4 => quadrant1_alu h
  | 5 =>
      let simm := sint 32 (sext_imm (imm_cj h) 12) in
      Some (ENCUJ (Z.land (u32 simm) 0x1FFFFF) 0 0x6F)
  | 6 =>
      let simm := sint 32 (sext_imm (imm_cb h) 9) in
      Some (ENCB (Z.land (u32 simm) 0x1FFF) 0 rs1_ 0 0x63)
  | 7 =>
      let simm := sint 32 (sext_imm (imm_cb h) 9) in
      Some (ENCB (Z.land (u32 simm) 0x1FFF) 0 rs1_ 1 0x63)
  | _ => None
  end.

Definition quadrant2 (h funct3 : Z) : option Z :=
  let rd := bits h 11 7 in
  let rs2 := bits h 6 2 in
  match funct3 with
  | 0 => if rd =? 0 then None else Some (ENCI (imm_ci h) rd 1 rd 0x13)
  | 1 => Some (ENCI (uimm_ldsp h) 2 3 rd 0x07)
  | 5 => Some (ENCS (uimm_sdsp h) rs2 2 3 0x27)
  | 2 => if rd =? 0 then None else Some (ENCI (uimm_lwsp h) 2 2 rd 0x03)
  | 3 =>
      if rv64 then if rd =? 0 then None else Some (ENCI (uimm_ldsp h) 2 3 rd 0x03)
      else Some (ENCI (uimm_lwsp h) 2 2 rd 0x07)
  | 4 =>
      if rs2 =? 0 then
        if bit h 12 =? 0 then if rd =? 0 then None else Some (ENCI 0 rd 0 0 0x67)
        else if rd =? 0 then Some 0x00100073 else Some (ENCI 0 rd 0 1 0x67)
      else if rd =? 0 then None
      else if bit h 12 =? 0 then Some (ENCR 0 rs2 0 0 rd 0x33)
      else Some (ENCR 0 rs2 rd 0 rd 0x33)
  | 6 => Some (ENCS (uimm_swsp h) rs2 2 2 0x23)
  | 7 => if rv64 then Some (ENCS (uimm_sdsp h) rs2 2 3 0x23) else Some (ENCS (uimm_swsp h) rs2 2 2 0x27)
  | _ => None
  end.

Definition rvc_decompress (word : Z) : DecompResult :=
  if Z.land word 3 =? 3 then mk_decomp word 4 false
  else
    let h := u16 (Z.land word 0xFFFF) in
    let quadrant := Z.land h 3 in
    let funct3 := Z.land (Z.shiftr h 13) 7 in
    let out := match quadrant with
               | 0 => quadrant0 h funct3
               | 1 => quadrant1 h funct3
               | 2 => quadrant2 h funct3
               | _ => None
               end in
    match out with
    | Some i => mk_decomp i 2 false
    | None => mk_decomp 0 2 true
    end.
End Expand.

(** ** Arithmetic reading of the bit manipulations *)

(** [x] has no bit outside the mask [M]; disjoint masks make [|] an addition. *)
Class within (x M : Z) : Prop := is_within : Z.land x M = x.

Lemma lor_add x y Mx My : within x Mx -> within y My -> Z.land Mx My = 0 -> Z.lor x y = x + y.
Proof.
  intros Hx Hy HM. assert (Z.land x y = 0) as E.
  { rewrite <- Hx, <- Hy. apply Z.bits_inj. intros i. apply (f_equal (fun z => Z.testbit z i)) in HM.
    rewrite !Z.land_spec, Z.bits_0 in *.
    destruct (Z.testbit x i), (Z.testbit y i), (Z.testbit Mx i), (Z.testbit My i); done. }
  by rewrite (Z.add_nocarry_lxor _ _ E), (Z.lxor_lor _ _ E).
Qed.

#[global] Instance within_lor x y Mx My : within x Mx -> within y My -> within (Z.lor x y) (Z.lor Mx My).
Proof.
  unfold within. intros Hx Hy. rewrite <- Hx, <- Hy at 2. apply Z.bits_inj. intros i.
  rewrite !Z.land_spec, !Z.lor_spec, !Z.land_spec.
  apply (f_equal (fun z => Z.testbit z i)) in Hx, Hy. rewrite Z.land_spec in Hx, Hy.
  destruct (Z.testbit x i), (Z.testbit y i), (Z.testbit Mx i), (Z.testbit My i); done.
Qed.

#[global] Instance within_land x M : within (Z.land x M) M.
Proof. unfold within. rewrite <- Z.land_assoc, Z.land_diag. done. Qed.

Lemma within_iff x M : within x M <-> forall i, 0 <= i -> Z.testbit x i = true -> Z.testbit M i = true.
Proof.
  unfold within. split.
  - intros E i Hi Hx. rewrite <- E, Z.land_spec in Hx. by apply andb_prop in Hx as [_ ?].
  - intros HM. apply Z.bits_inj'. intros i Hi. rewrite Z.land_spec. specialize (HM i Hi).
    destruct (Z.testbit x i); [by rewrite HM | done].
Qed.

#[global] Instance within_shl x M n : within x M -> within (shl x n) (shl M n).
Proof.
  rewrite !within_iff. unfold shl, u32. intros HM i Hi.
  destruct (Z.lt_ge_cases i 32); [|by rewrite Z.mod_pow2_bits_high by lia].
  rewrite !Z.mod_pow2_bits_low, !Z.shiftl_spec by lia.
  destruct (Z.lt_ge_cases (i - n) 0); [by rewrite Z.testbit_neg_r by lia|]. apply HM. lia.
Qed.

#[global] Instance within_bit x b : within (bit x b) 1.
Proof. apply within_land. Qed.

#[global] Instance within_bits x hi lo : within (bits x hi lo) (u32 (shl 1 (hi - lo + 1) - 1)).
Proof. apply within_land. Qed.

(** Turns every [|] of the goal into [+]. *)
Ltac lor_sum :=
  repeat match goal with
  | |- context [Z.lor ?x ?y] => erewrite (lor_add x y) by (first [typeclasses eauto | reflexivity])
  end.

Lemma shl_mul x n w : 0 <= n -> 0 <= x < 2 ^ w -> n + w <= 32 -> 0 <= w -> shl x n = 2 ^ n * x.
Proof.
  intros. unfold shl. rewrite Z.shiftl_mul_pow2, Z.mul_comm by done. apply u32_small. split; [nia|].
  apply Z.lt_le_trans with (2 ^ n * 2 ^ w); [apply Z.mul_lt_mono_pos_l; lia|].
  rewrite <- Z.pow_add_r by lia. apply Z.pow_le_mono_r; lia.
Qed.

Lemma land_ones_slice x n : 0 <= n -> Z.land x (2 ^ n - 1) = slice x 0 n.
Proof.
  intros. rewrite Z.sub_1_r, <- Z.ones_equiv, Z.land_ones by done. unfold slice.
  by rewrite Z.pow_0_r, Z.div_1_r.
Qed.

Lemma bits_slice x hi lo : 0 <= lo <= hi -> hi - lo < 31 -> bits x hi lo = slice x lo (hi - lo + 1).
Proof.
  intros. unfold bits. assert (0 < 2 ^ (hi - lo + 1) <= 2 ^ 31) by (split; [lia | apply Z.pow_le_mono_r; lia]).
  rewrite (shl_mul 1 _ 1), Z.mul_1_r, u32_small, land_ones_slice, Z.shiftr_div_pow2 by lia. unfold slice.
  by rewrite Z.pow_0_r, Z.div_1_r.
Qed.

Lemma bit_slice x b : 0 <= b -> bit x b = slice x b 1.
Proof.
  intros. unfold bit. change 1 with (2 ^ 1 - 1) at 1. rewrite land_ones_slice, Z.shiftr_div_pow2 by lia.
  unfold slice. by rewrite Z.pow_0_r, Z.div_1_r.
Qed.

Lemma lxor_pow2 k z : 0 <= k -> 0 <= z < 2 ^ k -> Z.lxor z (2 ^ k) = z + 2 ^ k.
Proof.
  intros Hk Hz. symmetry. apply Z.add_nocarry_lxor, Z.bits_inj'. intros i Hi.
  rewrite Z.land_spec, Z.bits_0, Z.pow2_bits_eqb by done. destruct (Z.eqb_spec k i); [|by rewrite andb_false_r].
  rewrite (testbit_high k); [done | lia | lia].
Qed.

Lemma sint_u32 x : - 2 ^ 31 <= x < 2 ^ 31 -> sint 32 (u32 x) = x.
Proof.
  intros. unfold sint, u32. rewrite Z.mod_mod by lia. destruct (Z.lt_ge_cases x 0).
  - replace (x mod 2 ^ 32) with (x + 2 ^ 32) by (apply Zmod_unique with (-1); lia).
    rewrite (proj2 (Z.ltb_ge _ _)) by lia. lia.
  - rewrite Z.mod_small by lia. by rewrite (proj2 (Z.ltb_lt _ _)) by lia.
Qed.

(** Sign extension at the immediate's width recovers the signed immediate. *)
Lemma sext_imm_signed imm w :
  1 <= w <= 31 -> - 2 ^ (w - 1) <= imm < 2 ^ (w - 1) -> sint 32 (sext_imm (imm mod 2 ^ w) w) = imm.
Proof.
  intros Hw Hi. unfold sext_imm. rewrite (shl_mul 1 _ 1), Z.mul_1_r by lia.
  assert (Hm : 2 ^ w = 2 * 2 ^ (w - 1)) by (rewrite <- Z.pow_succ_r by lia; f_equal; lia).
  assert (Hb : 0 < 2 ^ (w - 1) <= 2 ^ 30) by (split; [lia | apply Z.pow_le_mono_r; lia]).
  assert (E : Z.lxor (imm mod 2 ^ w) (2 ^ (w - 1)) - 2 ^ (w - 1) = imm).
  { destruct (Z.lt_ge_cases imm 0).
    - replace (imm mod 2 ^ w) with (Z.lxor (imm + 2 ^ (w - 1)) (2 ^ (w - 1))).
      + rewrite Z.lxor_assoc, Z.lxor_nilpotent, Z.lxor_0_r. lia.
      + rewrite lxor_pow2 by lia. apply Zmod_unique with (-1); lia.
    - rewrite Z.mod_small, lxor_pow2 by lia. lia. }
  rewrite E. apply sint_u32. lia.
Qed.

Lemma land_field x m lo n : 0 <= lo -> 0 <= n -> m = 2 ^ lo * (2 ^ n - 1) -> Z.land x m = 2 ^ lo * slice x lo n.
Proof.
  intros Hlo Hn ->. unfold slice. rewrite Z.sub_1_r, <- Z.ones_equiv, <- Z.land_ones, <- Z.shiftr_div_pow2 by lia.
  rewrite !(Z.mul_comm (2 ^ lo)), <- !Z.shiftl_mul_pow2 by lia. apply Z.bits_inj'. intros i Hi.
  rewrite Z.land_spec, !Z.shiftl_spec, Z.land_spec by lia. destruct (Z.lt_ge_cases i lo).
  - rewrite !(Z.testbit_neg_r _ (i - lo)) by lia. by rewrite andb_false_r.
  - rewrite Z.shiftr_spec by lia. by replace (i - lo + lo) with i by lia.
Qed.

Lemma land_mask x m n : m = 2 ^ n - 1 -> 0 <= n -> Z.land x m = slice x 0 n.
Proof. intros ->. apply land_ones_slice. Qed.

Lemma slice_0 lo n : slice 0 lo n = 0.
Proof. unfold slice. rewrite Zdiv_0_l. apply Zmod_0_l. Qed.

(** Masks as fields, fields of fields as fields, and shifted fields as
    products: the operands of the encoders. *)
Ltac mask_fields :=
  repeat first
    [ rewrite (land_mask _ 1 1) by (reflexivity || lia)
    | rewrite (land_mask _ 7 3) by (reflexivity || lia)
    | rewrite (land_mask _ 15 4) by (reflexivity || lia)
    | rewrite (land_mask _ 31 5) by (reflexivity || lia)
    | rewrite (land_mask _ 63 6) by (reflexivity || lia)
    | rewrite (land_mask _ 127 7) by (reflexivity || lia)
    | rewrite (land_mask _ 0xFFF 12) by (reflexivity || lia)
    | rewrite (land_mask _ 0x1FFF 13) by (reflexivity || lia)
    | rewrite (land_mask _ 0xFFFFF 20) by (reflexivity || lia)
    | rewrite (land_mask _ 0x1FFFFF 21) by (reflexivity || lia)
    | rewrite slice_shiftr by lia
    | rewrite slice_slice by lia ];
  repeat match goal with
  | |- context [slice ?x (?a + ?b) ?n] =>
      let l := eval vm_compute in (a + b) in change (slice x (a + b) n) with (slice x l n)
  end;
  repeat match goal with
  | |- context [shl (slice ?x ?l ?n) ?k] => rewrite (shl_mul (slice x l n) k n) by (first [apply slice_range; lia | lia])
  end.

Ltac enc_fields := lor_sum; mask_fields; cbn [val]; lia.

Lemma ENCI_enc imm rs1 f3 rd op : ENCI imm rs1 f3 rd op = enc_I imm rs1 f3 rd op.
Proof. unfold ENCI, enc_I. enc_fields. Qed.

Lemma ENCR_enc f7 rs2 rs1 f3 rd op : ENCR f7 rs2 rs1 f3 rd op = enc_R f7 rs2 rs1 f3 rd op.
Proof. unfold ENCR, enc_R. enc_fields. Qed.

Lemma ENCS_enc imm rs2 rs1 f3 op : ENCS imm rs2 rs1 f3 op = enc_S imm rs2 rs1 f3 op.
Proof. unfold ENCS, enc_S. enc_fields. Qed.

Lemma ENCU_enc imm rd op : ENCU imm rd op = enc_U imm rd op.
Proof. unfold ENCU, enc_U. enc_fields. Qed.

Lemma ENCB_enc imm rs2 rs1 f3 op : ENCB imm rs2 rs1 f3 op = enc_B imm rs2 rs1 f3 op.
Proof. unfold ENCB, enc_B. enc_fields. Qed.

Lemma ENCUJ_enc imm rd op : ENCUJ imm rd op = enc_J imm rd op.
Proof.
  unfold ENCUJ, enc_J. lor_sum.
  rewrite (land_field _ (Z.shiftl 1 20) 20 1), (land_field _ 0x7FE 1 10), (land_field _ (Z.shiftl 1 11) 11 1),
    (land_field _ 0xFF000 12 8) by (reflexivity || lia).
  mask_fields. pose proof (slice_range imm 20 1 ltac:(lia)). pose proof (slice_range imm 1 10 ltac:(lia)).
  pose proof (slice_range imm 11 1 ltac:(lia)).
  rewrite (shl_mul _ 11 21), (shl_mul _ 20 11), (shl_mul _ 9 12) by lia. cbn [val]. lia.
Qed.

(** ** Immediates as field sequences of the halfword *)

Ltac bits_fields :=
  repeat match goal with
  | |- context [bits ?x ?hi ?lo] =>
      let n := eval vm_compute in (hi - lo + 1) in
      replace (bits x hi lo) with (slice x lo n) by (symmetry; apply (bits_slice x hi lo); lia)
  end;
  rewrite ?bit_slice by lia.

Ltac imm_fields :=
  lor_sum; bits_fields;
  repeat match goal with
  | |- context [shl (slice ?x ?l ?n) ?k] => rewrite (shl_mul (slice x l n) k n) by (first [apply slice_range; lia | lia])
  end; unfold pick; cbn [fmap list_fmap fst snd val]; lia.

Lemma uimm_d_pick h : uimm_d h = 8 * pick h [(10, 3); (5, 2)].
Proof. unfold uimm_d. imm_fields. Qed.

Lemma uimm_w_pick h : uimm_w h = 4 * pick h [(6, 1); (10, 3); (5, 1)].
Proof. unfold uimm_w. imm_fields. Qed.

Lemma imm_ci_pick h : imm_ci h = pick h [(2, 5); (12, 1)].
Proof. unfold imm_ci. imm_fields. Qed.

Lemma imm_cj_pick h :
  imm_cj h = 2 * pick h [(3, 3); (11, 1); (2, 1); (7, 1); (6, 1); (9, 2); (8, 1); (12, 1)].
Proof. unfold imm_cj. imm_fields. Qed.

Lemma imm_cb_pick h : imm_cb h = 2 * pick h [(3, 2); (10, 2); (2, 1); (5, 1); (6, 1); (12, 1)].
Proof. unfold imm_cb. imm_fields. Qed.

Lemma nzuimm_4spn_pick h : nzuimm_4spn h = 4 * pick h [(6, 1); (5, 1); (11, 2); (7, 4)].
Proof. unfold nzuimm_4spn. imm_fields. Qed.

Lemma imm_16sp_pick h : imm_16sp h = 16 * pick h [(6, 1); (2, 1); (5, 1); (3, 2); (12, 1)].
Proof. unfold imm_16sp. imm_fields. Qed.

Lemma imm_lui_pick h : imm_lui h = 2 ^ 12 * pick h [(2, 5); (12, 1)].
Proof. unfold imm_lui. imm_fields. Qed.

Lemma uimm_ldsp_pick h : uimm_ldsp h = 8 * pick h [(5, 2); (12, 1); (2, 3)].
Proof. unfold uimm_ldsp. imm_fields. Qed.

Lemma uimm_lwsp_pick h : uimm_lwsp h = 4 * pick h [(4, 3); (12, 1); (2, 2)].
Proof. unfold uimm_lwsp. imm_fields. Qed.

Lemma uimm_sdsp_pick h : uimm_sdsp h = 8 * pick h [(10, 3); (7, 3)].
Proof. unfold uimm_sdsp. imm_fields. Qed.

Lemma uimm_swsp_pick h : uimm_swsp h = 4 * pick h [(9, 4); (7, 2)].
Proof. unfold uimm_swsp. imm_fields. Qed.

Lemma bits_pick x hi lo : 0 <= lo <= hi -> hi - lo < 31 -> bits x hi lo = pick x [(lo, hi - lo + 1)].
Proof. intros. rewrite bits_slice by done. unfold pick. cbn [fmap list_fmap fst snd val]. lia. Qed.

Lemma bit_pick x b : 0 <= b -> bit x b = pick x [(b, 1)].
Proof. intros. rewrite bit_slice by done. unfold pick. cbn [fmap list_fmap fst snd val]. lia. Qed.

(** ** Every valid encoding expands to the base instruction *)

Section Exact.
Context `{Hcfg : VxConfig}.

Definition rvc_out (o : option Z) : DecompResult :=
  match o with Some i => mk_decomp i 2 false | None => mk_decomp 0 2 true end.

Definition expand16 (h : Z) : option Z :=
  match pick h [(0, 2)] with
  | 0 => quadrant0 h (pick h [(13, 3)])
  | 1 => quadrant1 h (pick h [(13, 3)])
  | 2 => quadrant2 h (pick h [(13, 3)])
  | _ => None
  end.

Lemma rvc_decompress_16 h :
  0 <= h < 2 ^ 16 -> h mod 4 <> 3 -> rvc_decompress h = rvc_out (expand16 h).
Proof.
  intros Hh H3. unfold rvc_decompress, expand16, pick. cbn [fmap list_fmap fst snd val].
  rewrite !(land_mask _ 3 2), (land_mask _ 0xFFFF 16) by (reflexivity || lia).
  assert (slice h 0 16 = h) as E by (unfold slice; rewrite Z.div_1_r; by apply Z.mod_small).
  assert (slice h 0 2 = h mod 4) as E' by (unfold slice; by rewrite Z.div_1_r).
  rewrite E. unfold u16. rewrite Z.mod_small, (proj2 (Z.eqb_neq _ _)) by lia.
  rewrite (land_mask _ 7 3), slice_shiftr by (reflexivity || lia).
  replace (2 ^ 2 * 0) with 0 by lia. replace (2 ^ 3 * 0) with 0 by lia. rewrite !Z.add_0_r.
  destruct (slice h 0 2) as [|[p|[p|p|]|]|]; done.
Qed.

(** Evaluate the fields of [val s]. *)
Ltac pick_eval :=
  repeat match goal with
  | |- context [pick (val ?s) ?L] =>
      rewrite (pick_val s L) by reflexivity;
      let r := eval vm_compute in (picks s L) in change (picks s L) with r
  end;
  repeat rewrite val_merge by (reflexivity || lia).

Lemma enc_I_mask imm rs1 f3 rd op : enc_I (u32 (Z.land imm 0xFFF)) rs1 f3 rd op = enc_I imm rs1 f3 rd op.
Proof.
  rewrite (land_mask _ _ 12), u32_small by (reflexivity || lia || (pose proof (slice_range imm 0 12); lia)).
  unfold enc_I. cbn [val]. by rewrite slice_slice by lia.
Qed.

Lemma slice_u32_mask x m w lo n :
  m = 2 ^ w - 1 -> 0 <= w <= 32 -> 0 <= lo -> 0 <= n -> lo + n <= w ->
  slice (Z.land (u32 x) m) lo n = slice x lo n.
Proof.
  intros -> ????. rewrite land_ones_slice, slice_slice by lia. unfold u32.
  rewrite <- (Z.div_1_r x) at 1. change 1 with (2 ^ 0) at 1. fold (slice x 0 32).
  by rewrite slice_slice by lia.
Qed.

Lemma enc_J_mask imm rd op : enc_J (Z.land (u32 imm) 0x1FFFFF) rd op = enc_J imm rd op.
Proof. unfold enc_J. cbn [val]. by rewrite !(slice_u32_mask _ _ 21) by (reflexivity || lia). Qed.

Lemma enc_B_mask imm rs2 rs1 f3 op : enc_B (Z.land (u32 imm) 0x1FFF) rs2 rs1 f3 op = enc_B imm rs2 rs1 f3 op.
Proof. unfold enc_B. cbn [val]. by rewrite !(slice_u32_mask _ _ 13) by (reflexivity || lia). Qed.

Lemma slice_high_part x k n : 0 <= k -> 0 <= n -> 0 <= x < 2 ^ (k + n) -> x mod 2 ^ k = 0 -> 2 ^ k * slice x k n = x.
Proof.
  intros Hk Hn Hx Hm. unfold slice. rewrite Z.mod_small.
  - rewrite (Z.div_mod x (2 ^ k)) at 2 by lia. lia.
  - split; [apply Z.div_pos; lia|]. apply Z.div_lt_upper_bound; [lia|]. rewrite <- Z.pow_add_r by lia. lia.
Qed.

Lemma slice_high_signed x k n : 0 <= k -> 0 <= n -> x mod 2 ^ k = 0 -> 2 ^ k * slice x k n = x mod 2 ^ (k + n).
Proof.
  intros Hk Hn Hm. pose proof (slice_split x 0 k n ltac:(lia) Hk Hn) as E.
  unfold slice in E at 1 2. rewrite Z.pow_0_r, Z.div_1_r, Z.add_0_l in E. lia.
Qed.

Lemma rcp_ok r : 8 <= r < 16 -> rcp (slice r 0 3) = r.
Proof.
  intros. unfold rcp, slice. rewrite Z.div_1_r, u32_small.
  - pose proof (Z.mod_pos_bound r 8). Z.to_euclidean_division_equations; lia.
  - Z.to_euclidean_division_equations; lia.
Qed.

Lemma slice_reg r : 0 <= r < 32 -> slice r 0 5 = r.
Proof. intros. unfold slice. rewrite Z.div_1_r. by apply Z.mod_small. Qed.

Ltac split_valid H :=
  unfold c_valid, cmem_valid, cmem_off, creg, reg5, in_range, even in H; cbn [cmem_wide] in H;
  rewrite ?andb_true_iff, ?negb_true_iff, ?Z.leb_le, ?Z.ltb_lt, ?Z.eqb_eq, ?Z.eqb_neq in H; destruct_and? H.

Ltac ground_vals :=
  repeat match goal with
  | |- context [val [Seg ?c ?l ?n]] =>
      match isZcst c with true => let v := eval vm_compute in (val [Seg c l n]) in change (val [Seg c l n]) with v end
  end.

Ltac bits_picks :=
  repeat match goal with
  | |- context [bits ?x ?hi ?lo] =>
      let n := eval vm_compute in (hi - lo + 1) in
      replace (bits x hi lo) with (pick x [(lo, n)]) by (symmetry; apply (bits_pick x hi lo); lia)
  end;
  rewrite ?bit_pick by lia.

Lemma high_part u k n : 0 <= k -> 0 <= n -> 0 <= u < 2 ^ (k + n) -> u mod 2 ^ k = 0 -> 2 ^ k * val [Seg u k n] = u.
Proof. intros. rewrite val_one. by apply slice_high_part. Qed.

(** One instruction: select the branch, turn its helpers into fields of the
    operands, and recognise the operands. *)
Ltac branch :=
  unfold expand16; pick_eval; ground_vals;
  cbv beta iota zeta delta [quadrant0 quadrant1 quadrant2 quadrant1_lui quadrant1_alu];
  repeat match goal with E : rv64 = _ |- _ => rewrite E; clear E end.

Ltac operands :=
  rewrite ?uimm_d_pick, ?uimm_w_pick, ?nzuimm_4spn_pick, ?imm_16sp_pick, ?imm_lui_pick, ?imm_ci_pick, ?imm_cj_pick,
    ?imm_cb_pick, ?uimm_ldsp_pick, ?uimm_lwsp_pick, ?uimm_sdsp_pick, ?uimm_swsp_pick;
  bits_picks; pick_eval; ground_vals; rewrite ?val_one, ?rcp_ok, ?slice_reg by lia.

Ltac aligned :=
  match goal with
  | |- 4 * slice ?u 2 ?n = _ => let m := eval vm_compute in n in apply (slice_high_part u 2 m); first [lia | assumption]
  | |- 8 * slice ?u 3 ?n = _ => let m := eval vm_compute in n in apply (slice_high_part u 3 m); first [lia | assumption]
  end.

Definition expands (c : c_instr) : Prop :=
  c_valid c = true -> expand16 (cencode c) = Some (encode (cexpand c)).

Lemma expand_load o rd rs1 u : expands (c_load o rd rs1 u).
Proof.
  intros Hv. destruct o; split_valid Hv; cbn [cencode cexpand cm_load encode cmem_wide cmem_f3 enc_CL]; branch;
    operands; rewrite ENCI_enc; do 2 f_equal; aligned.
Qed.

Lemma expand_store o rs2 rs1 u : expands (c_store o rs2 rs1 u).
Proof.
  intros Hv. destruct o; split_valid Hv; cbn [cencode cexpand cm_store encode cmem_wide cmem_f3 enc_CL Z.add Pos.add]; branch;
    operands; rewrite ENCS_enc; do 2 f_equal; aligned.
Qed.

Lemma expand_loadsp o rd u : expands (c_loadsp o rd u).
Proof.
  intros Hv. destruct o; split_valid Hv; cbn [cencode cexpand cm_load encode cmem_wide cmem_f3]; branch;
    operands; rewrite ?(proj2 (Z.eqb_neq rd 0)) by lia; rewrite ENCI_enc; do 2 f_equal; aligned.
Qed.

Lemma expand_storesp o rs2 u : expands (c_storesp o rs2 u).
Proof.
  intros Hv. destruct o; split_valid Hv; cbn [cencode cexpand cm_store encode cmem_wide cmem_f3 Z.add Pos.add]; branch;
    operands; rewrite ENCS_enc; do 2 f_equal; aligned.
Qed.

Lemma expand_addi4spn rd u : expands (c_addi4spn rd u).
Proof.
  intros Hv. split_valid Hv. cbn [cencode cexpand encode]. branch. operands.
  replace (4 * slice u 2 (1 + 1 + 2 + 4)) with u by (symmetry; aligned).
  rewrite (proj2 (Z.eqb_neq u 0)), ENCI_enc by lia. done.
Qed.

(** The signed 6-bit immediate of the CI format. *)
Lemma simm_ci_ok h imm : pick h [(2, 5); (12, 1)] = slice imm 0 6 -> -32 <= imm < 32 -> simm_ci h = imm.
Proof.
  intros E Hi. unfold simm_ci. rewrite imm_ci_pick, E. unfold slice. rewrite Z.div_1_r.
  apply sext_imm_signed; lia.
Qed.

Ltac ci_imm imm :=
  match goal with
  | |- context [simm_ci ?h] => rewrite (simm_ci_ok h imm) by (lia || (pick_eval; by rewrite val_one))
  end.

Lemma expand_addi rd imm : expands (c_addi rd imm).
Proof.
  intros Hv. split_valid Hv. cbn [cencode cexpand encode]. unfold enc_CI. branch. ci_imm imm. operands.
  destruct (Z.eqb_spec rd 0) as [->|]; [destruct (Z.eqb_spec imm 0) as [->|]|]; cbn [andb];
    rewrite ENCI_enc, ?enc_I_mask; done.
Qed.

Lemma expand_addiw rd imm : expands (c_addiw rd imm).
Proof.
  intros Hv. split_valid Hv. cbn [cencode cexpand encode]. unfold enc_CI. branch. ci_imm imm. operands.
  rewrite (proj2 (Z.eqb_neq rd 0)), ENCI_enc, enc_I_mask by lia. done.
Qed.

Lemma expand_li rd imm : expands (c_li rd imm).
Proof.
  intros Hv. split_valid Hv. cbn [cencode cexpand encode]. unfold enc_CI. branch. ci_imm imm. operands.
  by rewrite ENCI_enc, enc_I_mask.
Qed.

Lemma expand_andi rd imm : expands (c_andi rd imm).
Proof.
  intros Hv. split_valid Hv. cbn [cencode cexpand encode]. unfold enc_CB_alu. branch. operands. cbv iota. ci_imm imm. 
  by rewrite ENCI_enc, enc_I_mask.
Qed.

Lemma expand_slli rd sh : expands (c_slli rd sh).
Proof.
  intros Hv. split_valid Hv. cbn [cencode cexpand encode]. unfold enc_CI. branch. operands.
  rewrite (proj2 (Z.eqb_neq rd 0)), ENCI_enc by lia. do 2 f_equal. cbn [shop_hi]. rewrite slice0_small; lia.
Qed.

Lemma expand_srli rd sh : expands (c_srli rd sh).
Proof.
  intros Hv. split_valid Hv. cbn [cencode cexpand encode]. unfold enc_CB_alu. branch. operands. cbv iota.
  rewrite ENCI_enc. do 2 f_equal. cbn [shop_hi]. rewrite slice0_small; lia.
Qed.

Lemma lor_pow2 k z : 0 <= k -> 0 <= z < 2 ^ k -> Z.lor z (2 ^ k) = z + 2 ^ k.
Proof.
  intros. rewrite <- lxor_pow2 by done. symmetry. apply Z.lxor_lor, Z.bits_inj'. intros i Hi.
  rewrite Z.land_spec, Z.bits_0, Z.pow2_bits_eqb by done. destruct (Z.eqb_spec k i); [|by rewrite andb_false_r].
  rewrite (testbit_high k); [done | lia | lia].
Qed.

Lemma expand_srai rd sh : expands (c_srai rd sh).
Proof.
  intros Hv. split_valid Hv. cbn [cencode cexpand encode]. unfold enc_CB_alu. branch. operands. cbv iota.
  rewrite ENCI_enc, slice0_small by lia. f_equal. unfold enc_I. cbn [val shop_f3 shop_hi].
  rewrite (slice0_small sh), (slice0_small (2 ^ 10 + sh)), !slice_reg by lia.
  change (Z.lor ?x 0x40000000) with (Z.lor x (2 ^ 30)).
  change (slice 5 0 3) with 5. change (slice 0x13 0 7) with 0x13. rewrite lor_pow2 by lia. lia.
Qed.

Lemma expand_alu o rd rs2 : expands (c_alu o rd rs2).
Proof.
  intros Hv. destruct o; split_valid Hv; cbn [cencode cexpand encode ca_op calu_f2 calu_b12]; unfold expand16; pick_eval;
    ground_vals; cbv beta iota zeta delta [quadrant1 quadrant1_alu]; bits_picks;
    repeat match goal with E : rv64 = _ |- _ => rewrite E; clear E end;
    match goal with |- context [pick ?h [(10, 2)]] => replace (pick h [(10, 2)]) with 3 by (pick_eval; by ground_vals) end;
    cbv iota; operands; cbn [Z.eqb]; by rewrite ENCR_enc.
Qed.

Lemma expand_cj k f3 off rd :
  -2048 <= off < 2048 -> off mod 2 = 0 ->
  k = enc_CJ f3 off -> ENCUJ (Z.land (u32 (sint 32 (sext_imm (imm_cj k) 12))) 0x1FFFFF) rd 0x6F = enc_J off rd 0x6F.
Proof.
  intros Ho He ->. rewrite imm_cj_pick. unfold enc_CJ. pick_eval. rewrite val_one.
  match goal with |- context [2 * slice off 1 ?n] =>
    replace (2 * slice off 1 n) with (off mod 2 ^ 12) by (symmetry; apply (slice_high_signed off 1 11); first [lia | assumption])
  end.
  rewrite sext_imm_signed, ENCUJ_enc by lia. apply enc_J_mask.
Qed.

Lemma expand_j off : expands (c_j off).
Proof.
  intros Hv. split_valid Hv. cbn [cencode cexpand encode]. unfold enc_CJ. branch. f_equal. by apply (expand_cj _ 5).
Qed.

Lemma expand_jal off : expands (c_jal off).
Proof.
  intros Hv. split_valid Hv. cbn [cencode cexpand encode]. unfold enc_CJ. branch. f_equal. by apply (expand_cj _ 1).
Qed.

Lemma expand_cb h f3 f rs1 off :
  -256 <= off < 256 -> off mod 2 = 0 -> h = enc_CB f3 rs1 off ->
  ENCB (Z.land (u32 (sint 32 (sext_imm (imm_cb h) 9))) 0x1FFF) 0 rs1 f 0x63 = enc_B off 0 rs1 f 0x63.
Proof.
  intros Ho He ->. rewrite imm_cb_pick. unfold enc_CB. pick_eval. rewrite val_one.
  match goal with |- context [2 * slice off 1 ?n] =>
    replace (2 * slice off 1 n) with (off mod 2 ^ 9) by (symmetry; apply (slice_high_signed off 1 8); first [lia | assumption])
  end.
  rewrite sext_imm_signed, ENCB_enc by lia. apply enc_B_mask.
Qed.

Ltac creg_field :=
  match goal with |- context [rcp (bits ?h 9 7)] => rewrite (bits_pick h 9 7) by lia; pick_eval; rewrite val_one, rcp_ok by lia end.

Lemma expand_beqz rs1 off : expands (c_beqz rs1 off).
Proof.
  intros Hv. split_valid Hv. cbn [cencode cexpand encode]. unfold enc_CB. branch. creg_field. f_equal.
  by apply (expand_cb _ 6).
Qed.

Lemma expand_bnez rs1 off : expands (c_bnez rs1 off).
Proof.
  intros Hv. split_valid Hv. cbn [cencode cexpand encode]. unfold enc_CB. branch. creg_field. f_equal.
  by apply (expand_cb _ 7).
Qed.

Lemma expand_addi16sp imm : expands (c_addi16sp imm).
Proof.
  intros Hv. split_valid Hv. cbn [cencode cexpand encode]. branch. operands. cbn [Z.eqb Pos.eqb].
  match goal with |- context [16 * slice imm 4 ?n] =>
    replace (16 * slice imm 4 n) with (imm mod 2 ^ 10) by (symmetry; apply (slice_high_signed imm 4 6); first [lia | assumption])
  end.
  rewrite sext_imm_signed, (proj2 (Z.eqb_neq imm 0)), ENCI_enc by lia. by rewrite enc_I_mask.
Qed.

Lemma expand_lui rd imm : expands (c_lui rd imm).
Proof.
  intros Hv. split_valid Hv. cbn [cencode cexpand encode]. unfold enc_CI. branch.
  bits_picks. pick_eval. rewrite val_one, slice_reg by lia. rewrite (proj2 (Z.eqb_neq rd 2)) by lia. operands.
  assert (2 ^ 12 * slice imm 0 (5 + 1) = (2 ^ 12 * imm) mod 2 ^ 18) as ->.
  { unfold slice. rewrite Z.div_1_r, <- Z.mul_mod_distr_l by lia. done. }
  rewrite sext_imm_signed by lia.
  rewrite (proj2 (Z.eqb_neq rd 0)), (proj2 (Z.eqb_neq (2 ^ 12 * imm) 0)) by lia. cbn [orb].
  f_equal. rewrite ENCU_enc, Z.shiftr_div_pow2, Z.mul_comm, Z.div_mul by lia.
  unfold enc_U, u32. cbn [val]. do 4 f_equal. unfold slice. rewrite !Z.pow_0_r, !Z.div_1_r.
  change (2 ^ 32) with (2 ^ 20 * 2 ^ 12). rewrite Z.rem_mul_r, (Z.mul_comm (2 ^ 20)), Z.mod_add, !Z.mod_mod by lia. done.
Qed.

Lemma expand_cr : expands c_ebreak /\ (forall r, expands (c_jr r)) /\ (forall r, expands (c_jalr r)) /\
  (forall rd rs2, expands (c_mv rd rs2)) /\ (forall rd rs2, expands (c_add rd rs2)).
Proof.
  split_and!; intros; intros Hv; split_valid Hv; cbn [cencode cexpand encode]; unfold enc_CR; branch; operands;
    repeat match goal with |- context [?r =? 0] => is_var r; rewrite (proj2 (Z.eqb_neq r 0)) by lia end;
    cbn [Z.eqb]; rewrite ?ENCI_enc, ?ENCR_enc; done.
Qed.

(** The expansion of every valid compressed instruction. *)
Lemma expand_valid c : expands c.
Proof.
  destruct expand_cr as (?&?&?&?&?).
  destruct c; auto using expand_load, expand_store, expand_loadsp, expand_storesp, expand_addi4spn, expand_addi,
    expand_addiw, expand_li, expand_andi, expand_slli, expand_srli, expand_srai, expand_alu, expand_j, expand_jal,
    expand_beqz, expand_bnez, expand_addi16sp, expand_lui.
Qed.

(** ** Every accepted halfword is a valid encoding *)

Lemma slice_sint w v l n : 1 <= w -> 0 <= l -> 0 <= n -> l + n <= w -> slice (sint w v) l n = slice v l n.
Proof.
  intros. unfold sint. set (y := v mod 2 ^ w).
  assert (slice y l n = slice v l n) as E.
  { unfold y. replace (v mod 2 ^ w) with (slice v 0 w) by (unfold slice; by rewrite Z.div_1_r).
    by rewrite slice_slice by lia. }
  destruct (y <? _); [done|]. replace (y - 2 ^ w) with (y + 2 ^ w * (-1)) by lia. by rewrite slice_low by lia.
Qed.

Lemma sint_range w v : 1 <= w -> - 2 ^ (w - 1) <= sint w v < 2 ^ (w - 1).
Proof.
  intros. unfold sint. pose proof (Z.mod_pos_bound v (2 ^ w)) as Hm.
  assert (2 ^ w = 2 * 2 ^ (w - 1)) by (rewrite <- Z.pow_succ_r by lia; f_equal; lia).
  destruct (Z.ltb_spec (v mod 2 ^ w) (2 ^ (w - 1))); lia.
Qed.

Lemma sint_mod w v k : 1 <= w -> 0 <= k <= w -> sint w v mod 2 ^ k = v mod 2 ^ k.
Proof.
  intros. pose proof (slice_sint w v 0 k) as E. unfold slice in E. rewrite !Z.div_1_r in E. apply E; lia.
Qed.

Lemma sext_sint v w : 1 <= w <= 31 -> 0 <= v < 2 ^ w -> sint 32 (sext_imm v w) = sint w v.
Proof.
  intros Hw Hv. rewrite <- (sext_imm_signed (sint w v) w) by (try apply sint_range; lia).
  by rewrite sint_mod, Z.mod_small by lia.
Qed.

Lemma slice2 x l : 0 <= l -> slice x l 2 = slice x l 1 + 2 * slice x (l + 1) 1.
Proof. intros. apply (slice_split x l 1 1); lia. Qed.
Lemma slice3 x l : 0 <= l -> slice x l 3 = slice x l 1 + 2 * slice x (l + 1) 2.
Proof. intros. apply (slice_split x l 1 2); lia. Qed.
Lemma slice4 x l : 0 <= l -> slice x l 4 = slice x l 1 + 2 * slice x (l + 1) 3.
Proof. intros. apply (slice_split x l 1 3); lia. Qed.
Lemma slice5 x l : 0 <= l -> slice x l 5 = slice x l 1 + 2 * slice x (l + 1) 4.
Proof. intros. apply (slice_split x l 1 4); lia. Qed.

Lemma halfword_bits h :
  0 <= h < 2 ^ 16 ->
  h = slice h 0 2 + 2 ^ 2 * slice h 2 5 + 2 ^ 7 * slice h 7 5 + 2 ^ 12 * slice h 12 1 + 2 ^ 13 * slice h 13 3.
Proof.
  intros. transitivity (val [Seg h 0 2; Seg h 2 5; Seg h 7 5; Seg h 12 1; Seg h 13 3]); [|cbn [val]; lia].
  repeat rewrite val_merge by (reflexivity || lia). rewrite val_one. unfold slice. rewrite Z.div_1_r.
  symmetry. apply Z.mod_small. lia.
Qed.

Ltac num_eval :=
  repeat match goal with
  | |- context [slice ?x (?a + ?b) ?n] =>
      let l := eval vm_compute in (a + b) in progress change (slice x (a + b) n) with (slice x l n)
  | H : context [slice ?x (?a + ?b) ?n] |- _ =>
      let l := eval vm_compute in (a + b) in progress change (slice x (a + b) n) with (slice x l n) in H
  end.

Ltac cut_eval :=
  repeat match goal with
  | |- context [slice (val ?s) ?l ?n] =>
      rewrite (slice_val s l n) by (reflexivity || lia);
      let r := eval vm_compute in (cut l n s) in change (cut l n s) with r
  end.

(** [h] is the sequence of fields of the operands read from it. *)
Ltac rebuild h :=
  cbn [cencode cmem_wide cmem_f3 calu_f2 calu_b12]; unfold enc_CI, enc_CB_alu, enc_CL, enc_CJ, enc_CB, enc_CR;
  change (4 + 1) with 5; change (4 + 2) with 6; change (4 + 3) with 7;
  repeat match goal with
  | |- context [Seg (val ?s) _ _] => let o := fresh "o" in set (o := val s)
  | |- context [Seg (sint _ (val ?s)) _ _] => let o := fresh "o" in set (o := val s)
  end;
  cbn [val]; rewrite ?slice_sint by lia;
  repeat match goal with o := val _ |- _ => subst o end; cut_eval; cbn [val];
  repeat match goal with
  | |- context [slice ?c ?l ?n] => match isZcst c with true => let v := eval vm_compute in (slice c l n) in change (slice c l n) with v end
  end;
  rewrite (halfword_bits h) at 1 by lia;
  rewrite ?slice5 in * by lia; num_eval; rewrite ?slice4 in * by lia; num_eval; rewrite ?slice3 in * by lia; num_eval;
  rewrite ?slice2 in * by lia; num_eval; lia.

Ltac slice_bounds :=
  repeat match goal with
  | |- context [slice ?x ?l ?n] =>
      let H := fresh "Hs" in pose proof (slice_range x l n ltac:(lia)) as H; generalize dependent (slice x l n); intros
  end.

(** Operand ranges of the instruction rebuilt from [h]. *)
Ltac valid :=
  unfold c_valid, cmem_valid, cmem_off, creg, reg5, in_range, even; cbn [cmem_wide];
  repeat match goal with E : rv64 = _ |- _ => rewrite E end;
  rewrite ?andb_true_iff, ?negb_true_iff, ?Z.leb_le, ?Z.ltb_lt, ?Z.eqb_eq, ?Z.eqb_neq; split_and?;
  try done;
  repeat match goal with
  | |- context [sint ?w ?v mod ?m] =>
      let k := eval vm_compute in (Z.log2 m) in
      replace (sint w v mod m) with (v mod m) by (symmetry; apply (sint_mod w v k); lia)
  | |- context [sint ?w ?v] => pose proof (sint_range w v ltac:(lia)); generalize dependent (sint w v); intros
  end;
  cbn [val]; rewrite ?slice_0; change (slice 1 0 1) with 1; slice_bounds;
  try (Z.to_euclidean_division_equations; lia).

Definition accepted (h : Z) : Prop := exists c, c_valid c = true /\ h = cencode c.

Ltac accept c := exists c; split; [solve [valid] | match goal with |- ?h = _ => rebuild h end].

Ltac three_bits f :=
  let H := fresh in pose proof (slice_range f 13 3 ltac:(lia)) as H;
  let E := fresh in
  assert (slice f 13 3 = 0 \/ slice f 13 3 = 1 \/ slice f 13 3 = 2 \/ slice f 13 3 = 3 \/ slice f 13 3 = 4 \/
          slice f 13 3 = 5 \/ slice f 13 3 = 6 \/ slice f 13 3 = 7) as E by lia; clear H; destruct_or! E.

(** Operands as they are read from the halfword. *)
Local Abbreviation creg_at h l := (val [Seg h l 3; Seg 1 0 1]).
Local Abbreviation reg_at h l := (val [Seg h l 5]).
Local Abbreviation off_d h := (val [Seg 0 0 3; Seg h 10 3; Seg h 5 2]).
Local Abbreviation off_w h := (val [Seg 0 0 2; Seg h 6 1; Seg h 10 3; Seg h 5 1]).
Local Abbreviation imm6 h := (val [Seg h 2 5; Seg h 12 1]).

Lemma complete0 h :
  0 <= h < 2 ^ 16 -> slice h 0 2 = 0 -> quadrant0 h (slice h 13 3) <> None -> accepted h.
Proof.
  intros Hh Hop Hs. destruct rv64 eqn:H64;
  three_bits h; match goal with E : slice h 13 3 = _ |- _ => rewrite E in Hs end; cbn [quadrant0] in Hs; try done.
  1, 8: destruct (Z.eqb_spec (nzuimm_4spn h) 0) as [|Hn]; [done|]; rewrite nzuimm_4spn_pick in Hn;
    unfold pick in Hn; cbn [fmap list_fmap fst snd val] in Hn;
    accept (c_addi4spn (creg_at h 2) (val [Seg 0 0 2; Seg h 6 1; Seg h 5 1; Seg h 11 2; Seg h 7 4])).
  - accept (c_load cm_fd (creg_at h 2) (creg_at h 7) (off_d h)).
  - accept (c_load cm_w (creg_at h 2) (creg_at h 7) (off_w h)).
  - accept (c_load cm_d (creg_at h 2) (creg_at h 7) (off_d h)).
  - accept (c_store cm_fd (creg_at h 2) (creg_at h 7) (off_d h)).
  - accept (c_store cm_w (creg_at h 2) (creg_at h 7) (off_w h)).
  - accept (c_store cm_d (creg_at h 2) (creg_at h 7) (off_d h)).
  - accept (c_load cm_fd (creg_at h 2) (creg_at h 7) (off_d h)).
  - accept (c_load cm_w (creg_at h 2) (creg_at h 7) (off_w h)).
  - accept (c_load cm_fw (creg_at h 2) (creg_at h 7) (off_w h)).
  - accept (c_store cm_fd (creg_at h 2) (creg_at h 7) (off_d h)).
  - accept (c_store cm_w (creg_at h 2) (creg_at h 7) (off_w h)).
  - accept (c_store cm_fw (creg_at h 2) (creg_at h 7) (off_w h)).
Qed.


Local Abbreviation off_cj h :=
  (val [Seg 0 0 1; Seg h 3 3; Seg h 11 1; Seg h 2 1; Seg h 7 1; Seg h 6 1; Seg h 9 2; Seg h 8 1; Seg h 12 1]).
Local Abbreviation off_cb h :=
  (val [Seg 0 0 1; Seg h 3 2; Seg h 10 2; Seg h 2 1; Seg h 5 1; Seg h 6 1; Seg h 12 1]).
Local Abbreviation imm_sp h := (val [Seg 0 0 4; Seg h 6 1; Seg h 2 1; Seg h 5 1; Seg h 3 2; Seg h 12 1]).

Lemma complete1_lui h :
  0 <= h < 2 ^ 16 -> slice h 0 2 = 1 -> slice h 13 3 = 3 -> quadrant1_lui h <> None -> accepted h.
Proof.
  intros Hh Hop Hf3 Hs. unfold quadrant1_lui in Hs. rewrite (bits_slice h 11 7) in Hs by lia.
  change (11 - 7 + 1) with 5 in Hs. destruct (Z.eqb_spec (slice h 7 5) 2) as [Hrd|Hrd].
  - assert (imm_16sp h = imm_sp h) as E by (rewrite imm_16sp_pick; unfold pick; cbn [fmap list_fmap fst snd val]; rewrite slice_0; lia).
    rewrite E, sext_sint in Hs by (lia || (apply val_range; done)).
    destruct (Z.eqb_spec (sint 10 (imm_sp h)) 0) as [|Hn]; [done|]. accept (c_addi16sp (sint 10 (imm_sp h))).
  - assert (sint 32 (sext_imm (imm_lui h) 18) = 2 ^ 12 * sint 6 (imm6 h)) as E.
    { replace (imm_lui h) with ((2 ^ 12 * sint 6 (imm6 h)) mod 2 ^ 18).
      - pose proof (sint_range 6 (imm6 h)). apply sext_imm_signed; lia.
      - rewrite imm_lui_pick. change (2 ^ 18) with (2 ^ 12 * 2 ^ 6). rewrite Z.mul_mod_distr_l, sint_mod, Z.mod_small; [done|..]; try lia.
        apply (val_range [Seg h 2 5; Seg h 12 1]). done. }
    rewrite E in Hs. destruct (Z.eqb_spec (slice h 7 5) 0), (Z.eqb_spec (2 ^ 12 * sint 6 (imm6 h)) 0); [done..|].
    accept (c_lui (reg_at h 7) (sint 6 (imm6 h))).
Qed.

Lemma bit_cases x l : slice x l 1 = 0 \/ slice x l 1 = 1.
Proof. pose proof (slice_range x l 1). lia. Qed.

Lemma bits2_cases x l : slice x l 2 = 0 \/ slice x l 2 = 1 \/ slice x l 2 = 2 \/ slice x l 2 = 3.
Proof. pose proof (slice_range x l 2). lia. Qed.

Lemma complete1_alu h :
  0 <= h < 2 ^ 16 -> slice h 0 2 = 1 -> slice h 13 3 = 4 -> quadrant1_alu h <> None -> accepted h.
Proof.
  intros Hh Hop Hf3 Hs. unfold quadrant1_alu in Hs.
  rewrite (bits_slice h 11 10), (bits_slice h 6 5), (bit_slice h 12) in Hs by lia.
  change (11 - 10 + 1) with 2 in Hs. change (6 - 5 + 1) with 2 in Hs.
  destruct (bits2_cases h 10) as [E|[E|[E|E]]]; rewrite E in Hs; cbv iota in Hs.
  - accept (c_srli (creg_at h 7) (imm6 h)).
  - accept (c_srai (creg_at h 7) (imm6 h)).
  - accept (c_andi (creg_at h 7) (sint 6 (imm6 h))).
  - destruct rv64 eqn:H64, (bit_cases h 12) as [E1|E1], (bits2_cases h 5) as [E2|[E2|[E2|E2]]]; rewrite E1, ?E2 in Hs;
      cbn [Z.eqb] in Hs; try done.
    + accept (c_alu ca_sub (creg_at h 7) (creg_at h 2)).
    + accept (c_alu ca_xor (creg_at h 7) (creg_at h 2)).
    + accept (c_alu ca_or (creg_at h 7) (creg_at h 2)).
    + accept (c_alu ca_and (creg_at h 7) (creg_at h 2)).
    + accept (c_alu ca_subw (creg_at h 7) (creg_at h 2)).
    + accept (c_alu ca_addw (creg_at h 7) (creg_at h 2)).
    + accept (c_alu ca_sub (creg_at h 7) (creg_at h 2)).
    + accept (c_alu ca_xor (creg_at h 7) (creg_at h 2)).
    + accept (c_alu ca_or (creg_at h 7) (creg_at h 2)).
    + accept (c_alu ca_and (creg_at h 7) (creg_at h 2)).
Qed.

Lemma complete1 h :
  0 <= h < 2 ^ 16 -> slice h 0 2 = 1 -> quadrant1 h (slice h 13 3) <> None -> accepted h.
Proof.
  intros Hh Hop Hs. destruct (Z.eqb_spec (slice h 13 3) 3) as [E|]; [rewrite E in Hs; by apply complete1_lui|].
  destruct (Z.eqb_spec (slice h 13 3) 4) as [E|]; [rewrite E in Hs; by apply complete1_alu|].
  three_bits h; try lia; match goal with E : slice h 13 3 = _ |- _ => rewrite E in Hs end; cbn [quadrant1] in Hs.
  - accept (c_addi (reg_at h 7) (sint 6 (imm6 h))).
  - rewrite (bits_slice h 11 7) in Hs by lia. change (11 - 7 + 1) with 5 in Hs. destruct rv64 eqn:H64.
    + destruct (Z.eqb_spec (slice h 7 5) 0); [done|]. accept (c_addiw (reg_at h 7) (sint 6 (imm6 h))).
    + accept (c_jal (sint 12 (off_cj h))).
  - accept (c_li (reg_at h 7) (sint 6 (imm6 h))).
  - accept (c_j (sint 12 (off_cj h))).
  - accept (c_beqz (creg_at h 7) (sint 9 (off_cb h))).
  - accept (c_bnez (creg_at h 7) (sint 9 (off_cb h))).
Qed.

Local Abbreviation off_ldsp h := (val [Seg 0 0 3; Seg h 5 2; Seg h 12 1; Seg h 2 3]).
Local Abbreviation off_lwsp h := (val [Seg 0 0 2; Seg h 4 3; Seg h 12 1; Seg h 2 2]).
Local Abbreviation off_sdsp h := (val [Seg 0 0 3; Seg h 10 3; Seg h 7 3]).
Local Abbreviation off_swsp h := (val [Seg 0 0 2; Seg h 9 4; Seg h 7 2]).

Lemma complete2_cr h :
  0 <= h < 2 ^ 16 -> slice h 0 2 = 2 -> slice h 13 3 = 4 -> quadrant2 h 4 <> None -> accepted h.
Proof.
  intros Hh Hop Hf3 Hs. cbn [quadrant2] in Hs.
  rewrite (bits_slice h 11 7), (bits_slice h 6 2), (bit_slice h 12) in Hs by lia.
  change (11 - 7 + 1) with 5 in Hs. change (6 - 2 + 1) with 5 in Hs.
  destruct (bit_cases h 12) as [E1|E1]; rewrite E1 in Hs; cbn [Z.eqb] in Hs;
    destruct (Z.eqb_spec (slice h 2 5) 0), (Z.eqb_spec (slice h 7 5) 0); try done;
    first [ accept (c_jr (reg_at h 7)) | accept c_ebreak | accept (c_jalr (reg_at h 7))
          | accept (c_mv (reg_at h 7) (reg_at h 2)) | accept (c_add (reg_at h 7) (reg_at h 2)) ].
Qed.

Lemma complete2 h :
  0 <= h < 2 ^ 16 -> slice h 0 2 = 2 -> quadrant2 h (slice h 13 3) <> None -> accepted h.
Proof.
  intros Hh Hop Hs. destruct (Z.eqb_spec (slice h 13 3) 4) as [E|]; [rewrite E in Hs; by apply complete2_cr|].
  destruct rv64 eqn:H64;
  three_bits h; try lia; match goal with E : slice h 13 3 = _ |- _ => rewrite E in Hs end; cbn [quadrant2] in Hs;
    try (rewrite (bits_slice h 11 7) in Hs by lia; change (11 - 7 + 1) with 5 in Hs); rewrite ?H64 in Hs;
    try (destruct (Z.eqb_spec (slice h 7 5) 0); [done|]).
  - accept (c_slli (reg_at h 7) (imm6 h)).
  - accept (c_loadsp cm_fd (reg_at h 7) (off_ldsp h)).
  - accept (c_loadsp cm_w (reg_at h 7) (off_lwsp h)).
  - accept (c_loadsp cm_d (reg_at h 7) (off_ldsp h)).
  - accept (c_storesp cm_fd (reg_at h 2) (off_sdsp h)).
  - accept (c_storesp cm_w (reg_at h 2) (off_swsp h)).
  - accept (c_storesp cm_d (reg_at h 2) (off_sdsp h)).
  - accept (c_slli (reg_at h 7) (imm6 h)).
  - accept (c_loadsp cm_fd (reg_at h 7) (off_ldsp h)).
  - accept (c_loadsp cm_w (reg_at h 7) (off_lwsp h)).
  - accept (c_loadsp cm_fw (reg_at h 7) (off_lwsp h)).
  - accept (c_storesp cm_fd (reg_at h 2) (off_sdsp h)).
  - accept (c_storesp cm_w (reg_at h 2) (off_swsp h)).
  - accept (c_storesp cm_fw (reg_at h 2) (off_swsp h)).
Qed.

Lemma pick_one h l n : pick h [(l, n)] = slice h l n.
Proof. unfold pick. cbn [fmap list_fmap fst snd val]. lia. Qed.

Lemma expand_complete h : 0 <= h < 2 ^ 16 -> expand16 h <> None -> accepted h.
Proof.
  intros Hh. unfold expand16. rewrite !pick_one. pose proof (slice_range h 0 2 ltac:(lia)).
  assert (slice h 0 2 = 0 \/ slice h 0 2 = 1 \/ slice h 0 2 = 2 \/ slice h 0 2 = 3) as [E|[E|[E|E]]] by lia; rewrite E;
    auto using complete0, complete1, complete2. done.
Qed.

Lemma cencode_range c : 0 <= cencode c < 2 ^ 16.
Proof.
  destruct c; try destruct o; cbn [cencode cmem_wide]; unfold enc_CI, enc_CB_alu, enc_CL, enc_CJ, enc_CB, enc_CR;
    match goal with |- 0 <= val ?s < _ => exact (val_range s eq_refl) end.
Qed.

Lemma cencode_16bit c : cencode c mod 4 <> 3.
Proof.
  replace (cencode c mod 4) with (pick (cencode c) [(0, 2)]) by (rewrite pick_one; unfold slice; by rewrite Z.div_1_r).
  destruct c; try destruct o; cbn [cencode cmem_wide]; unfold enc_CI, enc_CB_alu, enc_CL, enc_CJ, enc_CB, enc_CR;
    pick_eval; ground_vals; done.
Qed.

Lemma decompress_cases h :
  0 <= h < 2 ^ 16 -> h mod 4 <> 3 ->
  (forall c, c_valid c = true -> h = cencode c -> rvc_decompress h = mk_decomp (encode (cexpand c)) 2 false) /\
  ((forall c, c_valid c = true -> h <> cencode c) -> rvc_decompress h = mk_decomp 0 2 true).
Proof.
  intros Hh H3. rewrite rvc_decompress_16 by done. split.
  - intros c Hc ->. by rewrite expand_valid.
  - intros Hn. destruct (expand16 h) eqn:E; [|done]. destruct (expand_complete h) as (c & Hc & ->); [done|by rewrite E|].
    by destruct (Hn c Hc).
Qed.

(** C18. The decompressor is the C extension: a 16-bit word is accepted exactly
    when it encodes a valid compressed instruction of the configuration, it is
    then expanded, with size 2, to the encoding of the base instruction that
    the compressed one stands for, and every other 16-bit word is reported
    illegal. *)
Theorem rvc_decompress_exact (h : Z) :
  0 <= h < 2 ^ 16 -> h mod 4 <> 3 ->
  (forall c, c_valid c = true -> h = cencode c -> rvc_decompress h = mk_decomp (encode (cexpand c)) 2 false) /\
  ((forall c, c_valid c = true -> h <> cencode c) -> rvc_decompress h = mk_decomp 0 2 true).
Proof. apply decompress_cases. Qed.
End Exact.

#[local] Existing Instance default_config.

(** [c.lw x10, 4(x11)] is accepted and an all-zero word is illegal. *)
Lemma rvc_decompress_exact_witness :
  rvc_decompress 0x41C8 = mk_decomp 0x0045A503 2 false /\ (0x41C8 = cencode (c_load cm_w 10 11 4)).
Proof.
  split; [|reflexivity].
  exact (proj1 (rvc_decompress_exact 0x41C8 ltac:(lia) ltac:(vm_compute; discriminate)) (c_load cm_w 10 11 4) eq_refl eq_refl).
Defined.
