(* ===== verification/BitVector.v ===== *)
(** * Dynamic bit vectors — [sw/common/bitvector.h]

    [BitVector<T>] keeps up to one word of bits in [single_word_] and longer
    vectors in [words_], with a cached [all_zero_] flag.  The file models the
    class over a word type of [W] bits and shows that it implements the mask
    interface of [Mask.v] at every size, that its shifts and reversal are the
    arithmetic ones, and where single-word reversal and growing resize depart
    from that. *)

From S2P Require Import Prelude Mask Bitmanip.

Record BitVector := mk_bv {
  size_ : Z;
  single_word_ : Z;
  words_ : list Z;
  all_zero_ : bool
}.

Section Class.
(** [BITS_PER_WORD]: 32 or 64 for [Word]. *)
Variable W : Z.

Definition wordIndex (pos : Z) : Z := pos / W.
Definition wordOffset (pos : Z) : Z := Z.shiftl 1 (pos mod W).
Definition bitMask (size : Z) : Z :=
  if size =? 0 then 0 else if size <? W then Z.shiftl 1 size - 1 else Z.ones W.
Definition wnot (x : Z) : Z := lnot_w W x.
Definition num_blocks (size : Z) : Z := (size + (W - 1)) / W.

Definition updateAllZero (b : BitVector) : BitVector :=
  mk_bv (size_ b) (single_word_ b) (words_ b)
    (if size_ b <=? W then single_word_ b =? 0 else forallb (fun w => w =? 0) (words_ b)).

Definition clearUnusedBits (b : BitVector) : BitVector :=
  if size_ b <=? W then
    mk_bv (size_ b) (Z.land (single_word_ b) (bitMask (size_ b))) (words_ b) (all_zero_ b)
  else
    let last_word_bits := size_ b mod W in
    if negb (last_word_bits =? 0) then
      let i := Z.of_nat (length (words_ b)) - 1 in
      mk_bv (size_ b) (single_word_ b)
        (vset (words_ b) i (Z.land (vget (words_ b) i) (bitMask last_word_bits))) (all_zero_ b)
    else b.

(** The two constructors; the word that a branch leaves unset is 0 here and
    is never read. *)
Definition BitVector_new (size : Z) : BitVector :=
  if size <=? W then mk_bv size 0 [] true
  else mk_bv size 0 (replicate (Z.to_nat (num_blocks size)) 0) true.

Definition BitVector_make (size value : Z) : BitVector :=
  updateAllZero (clearUnusedBits
    (if size <=? W then mk_bv size value [] false
     else mk_bv size 0 (vset (replicate (Z.to_nat (num_blocks size)) 0) 0 value) false)).

(** Applies [f] to the word that holds [pos]. *)
Definition update_word (b : BitVector) (pos : Z) (f : Z -> Z) : BitVector :=
  if size_ b <=? W then mk_bv (size_ b) (f (single_word_ b)) (words_ b) (all_zero_ b)
  else mk_bv (size_ b) (single_word_ b)
         (vset (words_ b) (wordIndex pos) (f (vget (words_ b) (wordIndex pos)))) (all_zero_ b).

(** [None] is the thrown [std::out_of_range] or [std::invalid_argument]. *)
Definition set_bit (b : BitVector) (pos : Z) : option BitVector :=
  if size_ b <=? pos then None
  else let b' := update_word b pos (fun w => Z.lor w (wordOffset pos)) in
       Some (mk_bv (size_ b') (single_word_ b') (words_ b') false).

Definition reset_bit (b : BitVector) (pos : Z) : option BitVector :=
  if size_ b <=? pos then None
  else Some (updateAllZero (update_word b pos (fun w => Z.land w (wnot (wordOffset pos))))).

Definition set (b : BitVector) (pos : Z) (value : bool) : option BitVector :=
  if value then set_bit b pos else reset_bit b pos.

Definition reset (b : BitVector) : BitVector :=
  if size_ b <=? W then mk_bv (size_ b) 0 (words_ b) true
  else mk_bv (size_ b) (single_word_ b) (replicate (length (words_ b)) 0) true.

Definition test (b : BitVector) (pos : Z) : option bool :=
  if size_ b <=? pos then None
  else if size_ b <=? W then Some (negb (Z.land (single_word_ b) (wordOffset pos) =? 0))
  else Some (negb (Z.land (vget (words_ b) (wordIndex pos)) (wordOffset pos) =? 0)).

(** [std::vector::resize(n, 0)] *)
Definition vec_resize (l : list Z) (n : Z) : list Z :=
  take (Z.to_nat n) l ++ replicate (Z.to_nat n - length l) 0.

Definition resize (b : BitVector) (new_size : Z) : BitVector :=
  if new_size =? size_ b then b
  else
    let b1 :=
      if new_size <=? W then
        if size_ b <=? W then mk_bv new_size (single_word_ b) (words_ b) (all_zero_ b)
        else mk_bv new_size (vget (words_ b) 0) [] (all_zero_ b)
      else mk_bv new_size (single_word_ b) (vec_resize (words_ b) (num_blocks new_size)) (all_zero_ b) in
    updateAllZero (clearUnusedBits b1).

Definition eqb (a b : BitVector) : bool :=
  if negb (size_ a =? size_ b) then false
  else if size_ a <=? W then single_word_ a =? single_word_ b
  else bool_decide (words_ a = words_ b).

(** [operator&=], [operator|=], [operator^=]: the word operation on equal
    sizes. *)
Definition bitwise (op : Z -> Z -> Z) (a b : BitVector) : option BitVector :=
  if negb (size_ a =? size_ b) then None
  else Some (updateAllZero
    (if size_ a <=? W then mk_bv (size_ a) (op (single_word_ a) (single_word_ b)) (words_ a) (all_zero_ a)
     else mk_bv (size_ a) (single_word_ a)
            ((fun i => op (vget (words_ a) i) (vget (words_ b) i))
               <$> range (Z.of_nat (length (words_ a)))) (all_zero_ a))).

Definition flip (b : BitVector) : BitVector :=
  updateAllZero (clearUnusedBits
    (if size_ b <=? W then mk_bv (size_ b) (wnot (single_word_ b)) (words_ b) (all_zero_ b)
     else mk_bv (size_ b) (single_word_ b) (wnot <$> words_ b) (all_zero_ b))).

(** The bit loop of [reverse] for a partial last word. *)
Definition reverse_bits (size : Z) (ws : list Z) : list Z :=
  fold_left (fun rev i =>
    let p := size - 1 - i in
    if negb (Z.land (vget ws (i / W)) (Z.shiftl 1 (i mod W)) =? 0) then
      vset rev (p / W) (Z.lor (vget rev (p / W)) (Z.shiftl 1 (p mod W)))
    else rev) (range size) (replicate (length ws) 0).

Definition word_reverse (w : Z) : Z := default 0 (bit_reverse w W).

Definition reverse (b : BitVector) : BitVector :=
  if size_ b =? 0 then b
  else if size_ b <=? W then
    mk_bv (size_ b) (word_reverse (single_word_ b)) (words_ b) (all_zero_ b)
  else if negb (size_ b mod W =? 0) then
    mk_bv (size_ b) (single_word_ b) (reverse_bits (size_ b) (words_ b)) (all_zero_ b)
  else mk_bv (size_ b) (single_word_ b) (word_reverse <$> rev (words_ b)) (all_zero_ b).

(** [__builtin_popcount] of a word. *)
Definition popcount_word (w : Z) : Z := popcount (word_bits (Z.to_nat W) w).

Definition count (b : BitVector) : Z :=
  if size_ b <=? W then popcount_word (single_word_ b)
  else fold_left (fun acc w => acc + popcount_word w) (words_ b) 0.

Definition none (b : BitVector) : bool := all_zero_ b.
Definition any (b : BitVector) : bool := negb (all_zero_ b).

Definition all (b : BitVector) : bool :=
  let remaining_bits := size_ b mod W in
  let full_mask := Z.ones W in
  let rem_mask := Z.shiftl 1 remaining_bits - 1 in
  if size_ b <=? W then
    single_word_ b =? (if negb (remaining_bits =? 0) then rem_mask else full_mask)
  else
    let num_blocks := size_ b / W in
    forallb (fun i => vget (words_ b) i =? full_mask) (range num_blocks)
    && (if negb (remaining_bits =? 0)
        then Z.land (vget (words_ b) num_blocks) rem_mask =? rem_mask else true).

(** [for (i = n; i >= lo; --i)] as the list of its indices. *)
Definition down_from (n lo : Z) : list Z := (fun i => n - i) <$> range (n + 1 - lo).

(** The two phases of [operator<<=] on a word vector: whole words, then bits
    carried from the word below. *)
Definition shl_word_phase (k : Z) (ws : list Z) : list Z :=
  let n := Z.of_nat (length ws) in
  if 0 <? k then
    let ws := fold_left (fun ws i => vset ws i (vget ws (i - k))) (down_from (n - 1) k) ws in
    fold_left (fun ws i => vset ws i 0) (range k) ws
  else ws.

Definition shl_bit_phase (k : Z) (ws : list Z) : list Z :=
  let n := Z.of_nat (length ws) in
  if 0 <? k then
    let ws := fold_left (fun ws i =>
        vset ws i (Z.lor (Z.shiftl (vget ws i) k mod 2 ^ W) (Z.shiftr (vget ws (i - 1)) (W - k))))
      (down_from (n - 1) 1) ws in
    vset ws 0 (Z.shiftl (vget ws 0) k mod 2 ^ W)
  else ws.

Definition shl (b : BitVector) (shift : Z) : BitVector :=
  if size_ b <=? shift then reset b
  else
    updateAllZero (clearUnusedBits
      (if size_ b <=? W then
         mk_bv (size_ b) (Z.shiftl (single_word_ b) shift mod 2 ^ W) (words_ b) (all_zero_ b)
       else
         mk_bv (size_ b) (single_word_ b)
           (shl_bit_phase (shift mod W) (shl_word_phase (shift / W) (words_ b))) (all_zero_ b))).

(** The two phases of [operator>>=]. *)
Definition shr_word_phase (k : Z) (ws : list Z) : list Z :=
  let n := Z.of_nat (length ws) in
  if 0 <? k then
    let ws := fold_left (fun ws i => vset ws i (vget ws (i + k))) (range (n - k)) ws in
    fold_left (fun ws i => vset ws (n - k + i) 0) (range k) ws
  else ws.

Definition shr_bit_phase (k : Z) (ws : list Z) : list Z :=
  let n := Z.of_nat (length ws) in
  if 0 <? k then
    let ws := fold_left (fun ws i =>
        vset ws i (Z.lor (Z.shiftr (vget ws i) k) (Z.shiftl (vget ws (i + 1)) (W - k) mod 2 ^ W)))
      (range (n - 1)) ws in
    vset ws (n - 1) (Z.shiftr (vget ws (n - 1)) k)
  else ws.

Definition shr (b : BitVector) (shift : Z) : BitVector :=
  if size_ b <=? shift then reset b
  else
    updateAllZero
      (if size_ b <=? W then
         mk_bv (size_ b) (Z.shiftr (single_word_ b) shift) (words_ b) (all_zero_ b)
       else
         mk_bv (size_ b) (single_word_ b)
           (shr_bit_phase (shift mod W) (shr_word_phase (shift / W) (words_ b))) (all_zero_ b)).

(** [to_ulong]/[to_ullong]: [None] is the thrown [std::overflow_error]. *)
Definition to_ulong (b : BitVector) : option Z :=
  if 64 <? size_ b then None
  else Some (fold_left (fun acc i =>
      if default false (test b i) then Z.lor acc (Z.shiftl 1 i) else acc) (range (size_ b)) 0).
End Class.

(** ** Words as bits *)

Section Proofs.
Variable W : Z.
Hypothesis HW : 0 < W <= 64.

(** Bit [i] of a word vector. *)
Definition wbit (ws : list Z) (i : Z) : bool := Z.testbit (vget ws (i / W)) (i mod W).

Definition words_of (b : BitVector) : list Z := if size_ b <=? W then [single_word_ b] else words_ b.
Definition nwords (ws : list Z) : Z := Z.of_nat (length ws).

Definition word_ok (w : Z) : Prop := 0 <= w < 2 ^ W.

(** The shape of the word vector of a vector of [n] bits. *)
Record shape (n : Z) (ws : list Z) : Prop := {
  shp_size : 0 <= n <= W * nwords ws;
  shp_len : (n <= W /\ nwords ws = 1) \/ (W < n /\ W * (nwords ws - 1) < n);
  shp_word : Forall word_ok ws
}.

Definition clean (n : Z) (ws : list Z) : Prop :=
  forall i, n <= i < W * nwords ws -> wbit ws i = false.

Record bv_wf (b : BitVector) : Prop := {
  wf_shape : shape (size_ b) (words_of b);
  wf_clean : clean (size_ b) (words_of b);
  wf_zero : all_zero_ b = forallb (fun w => w =? 0) (words_of b)
}.

Definition bv_bits (b : BitVector) : bits :=
  (fun i => wbit (words_of b) (Z.of_nat i)) <$> seq 0 (Z.to_nat (size_ b)).

Definition bv_rep (b : BitVector) (l : bits) : Prop := bv_wf b /\ l = bv_bits b.

Lemma wbit_at ws j m : 0 <= m < W -> wbit ws (W * j + m) = Z.testbit (vget ws j) m.
Proof using HW.
  intros Hm. unfold wbit. f_equal; [f_equal|]; symmetry.
  - apply (Z.div_unique _ _ _ m); lia.
  - apply (Z.mod_unique _ _ j); lia.
Qed.

(** Every bit position is word [j], offset [m]. *)
Lemma split_pos i n : 0 <= i < W * n -> exists j m, i = W * j + m /\ 0 <= j < n /\ 0 <= m < W.
Proof using HW.
  intros Hi. exists (i / W), (i mod W). pose proof (Z.mod_pos_bound i W).
  split; [apply Z.div_mod; lia|]. split; [|lia].
  split; [apply Z.div_pos; lia | apply Z.div_lt_upper_bound; lia].
Qed.

Lemma wbit_vset ws j w i :
  0 <= j < nwords ws -> 0 <= i ->
  wbit (vset ws j w) i = if i / W =? j then Z.testbit w (i mod W) else wbit ws i.
Proof using HW.
  intros Hj Hi. unfold wbit. assert (0 <= i / W) by (apply Z.div_pos; lia).
  rewrite vget_vset by (unfold nwords in *; lia). rewrite (Z.eqb_sym j). by destruct (_ =? j).
Qed.

Lemma nwords_vset ws j w : nwords (vset ws j w) = nwords ws.
Proof using. unfold nwords. by rewrite length_vset. Qed.

Lemma words_ok_vget ws j : Forall word_ok ws -> 0 <= j < nwords ws -> word_ok (vget ws j).
Proof using.
  intros Hws Hj. eapply Forall_lookup_1; [exact Hws|]. apply vget_lookup. exact Hj.
Qed.

Lemma words_ok_vset ws j w : Forall word_ok ws -> word_ok w -> Forall word_ok (vset ws j w).
Proof using. intros. unfold vset. by apply Forall_insert. Qed.

(** A word is determined to be in range by its bits. *)
Lemma word_ok_bits w : 0 <= w -> (forall i, W <= i -> Z.testbit w i = false) -> word_ok w.
Proof using HW. intros. split; [done|]. apply testbit_lt_pow2; [lia|done..]. Qed.

Lemma word_ok_high w i : word_ok w -> W <= i -> Z.testbit w i = false.
Proof using. intros [? ?] ?. by apply (testbit_high W). Qed.

Lemma offset_bit pos m : 0 <= m -> Z.testbit (wordOffset W pos) m = (m =? pos mod W).
Proof using HW.
  intros. unfold wordOffset. apply testbit_shiftl1; [|done].
  pose proof (Z.mod_pos_bound pos W). lia.
Qed.

Lemma offset_ok pos : word_ok (wordOffset W pos).
Proof using HW.
  pose proof (Z.mod_pos_bound pos W). apply word_ok_bits.
  - unfold wordOffset. apply Z.shiftl_nonneg. lia.
  - intros i Hi. rewrite offset_bit by lia. apply Z.eqb_neq. lia.
Qed.

Lemma wnot_ok w : word_ok w -> word_ok (wnot W w).
Proof using HW.
  intros Hw. apply word_ok_bits.
  - unfold wnot, lnot_w. apply Z.lxor_nonneg. rewrite Z.ones_equiv.
    pose proof (Z.pow_pos_nonneg 2 W). destruct Hw. lia.
  - intros i Hi. unfold wnot, lnot_w. rewrite Z.lxor_spec, Z.ones_spec_high by lia.
    by rewrite word_ok_high.
Qed.

Lemma wnot_bit w m : 0 <= m < W -> Z.testbit (wnot W w) m = negb (Z.testbit w m).
Proof using. intros. by apply testbit_lnot_w. Qed.

Lemma land_ok a b : word_ok a -> 0 <= b -> word_ok (Z.land a b).
Proof using HW.
  intros Ha Hb. apply word_ok_bits; [apply Z.land_nonneg; by right|].
  intros i Hi. by rewrite Z.land_spec, (word_ok_high a).
Qed.

Lemma lor_ok a b : word_ok a -> word_ok b -> word_ok (Z.lor a b).
Proof using HW.
  intros Ha Hb. apply word_ok_bits; [apply Z.lor_nonneg; destruct Ha, Hb; lia|].
  intros i Hi. by rewrite Z.lor_spec, !word_ok_high.
Qed.

Lemma lxor_ok a b : word_ok a -> word_ok b -> word_ok (Z.lxor a b).
Proof using HW.
  intros Ha Hb. apply word_ok_bits; [apply Z.lxor_nonneg; destruct Ha, Hb; lia|].
  intros i Hi. by rewrite Z.lxor_spec, !word_ok_high.
Qed.

Lemma bitMask_bit n m : 0 <= n <= W -> 0 <= m < W -> Z.testbit (bitMask W n) m = (m <? n).
Proof using HW.
  intros Hn Hm. unfold bitMask. bool_cases; try lia; rewrite ?Z.bits_0; try done.
  - rewrite Z.shiftl_1_l, Z.sub_1_r, <- Z.ones_equiv, Z.ones_spec_low by lia. done.
  - rewrite Z.shiftl_1_l, Z.sub_1_r, <- Z.ones_equiv, Z.ones_spec_high by lia. done.
  - apply Z.ones_spec_low. lia.
Qed.

Lemma bitMask_nonneg n : 0 <= n -> 0 <= bitMask W n.
Proof using HW.
  intros. unfold bitMask. pose proof (Z.pow_pos_nonneg 2 n). rewrite Z.ones_equiv, Z.shiftl_1_l.
  pose proof (Z.pow_pos_nonneg 2 W). bool_cases; lia.
Qed.
Lemma words_of_single b : size_ b <= W -> words_of b = [single_word_ b].
Proof using. intros. unfold words_of. by rewrite (proj2 (Z.leb_le _ _)). Qed.

Lemma words_of_multi b : W < size_ b -> words_of b = words_ b.
Proof using. intros. unfold words_of. by rewrite (proj2 (Z.leb_gt _ _)). Qed.

Lemma words_of_update b : words_of (updateAllZero W b) = words_of b.
Proof using. done. Qed.

Lemma update_wf b :
  shape (size_ b) (words_of b) -> clean (size_ b) (words_of b) -> bv_wf (updateAllZero W b).
Proof using.
  intros Hs Hc. constructor; [done..|]. unfold updateAllZero, words_of. simpl.
  destruct (size_ b <=? W); simpl; [by rewrite andb_true_r | done].
Qed.

(** Masking one word. *)
Lemma mask_word ws j n i :
  0 <= j < nwords ws -> 0 <= n <= W -> 0 <= i < W * nwords ws ->
  wbit (vset ws j (Z.land (vget ws j) (bitMask W n))) i
  = if (W * j + n <=? i) && (i <? W * (j + 1)) then false else wbit ws i.
Proof using HW.
  intros Hj Hn Hi. destruct (split_pos _ _ Hi) as (j' & m & -> & Hj' & Hm).
  rewrite (wbit_at _ j' m) by done. rewrite (wbit_at ws) by done.
  rewrite vget_vset by (unfold nwords in *; lia).
  destruct (Z.eqb_spec j j') as [<-|].
  - rewrite Z.land_spec, bitMask_bit by done. bool_cases; simpl; rewrite ?andb_false_r, ?andb_true_r;
      done || lia.
  - assert ((W * j + n <=? W * j' + m) && (W * j' + m <? W * (j + 1)) = false) as ->; [|done].
    destruct (Z.lt_ge_cases j j').
    + rewrite (proj2 (Z.ltb_ge _ _)) by nia. apply andb_false_r.
    + rewrite (proj2 (Z.leb_gt _ _)) by nia. done.
Qed.

Lemma clear_size b : size_ (clearUnusedBits W b) = size_ b.
Proof using. unfold clearUnusedBits. by repeat case_match. Qed.

Lemma clear_spec b :
  shape (size_ b) (words_of b) ->
  let ws := words_of (clearUnusedBits W b) in
  shape (size_ b) ws /\ clean (size_ b) ws
  /\ (forall i, 0 <= i < size_ b -> wbit ws i = wbit (words_of b) i).
Proof using HW.
  intros [Hsz Hlen Hw]. unfold clearUnusedBits.
  destruct (Z.leb_spec (size_ b) W) as [Hle|Hgt].
  - rewrite words_of_single in * by done. cbv zeta. rewrite words_of_single by done. cbn [single_word_ size_].
    change (nwords [single_word_ b]) with 1 in *.
    pose proof (mask_word [single_word_ b] 0 (size_ b)) as M.
    change (nwords [single_word_ b]) with 1 in M.
    change (vset [single_word_ b] 0 ?x) with [x] in M.
    change (vget [single_word_ b] 0) with (single_word_ b) in M.
    split; [constructor; change (nwords [_]) with 1; try lia|split].
    + constructor; [|constructor]. apply land_ok; [by inversion Hw | apply bitMask_nonneg; lia].
    + intros i Hi. change (nwords [_]) with 1 in Hi. rewrite M by lia.
      rewrite (proj2 (Z.leb_le _ _)), (proj2 (Z.ltb_lt _ _)) by lia. done.
    + intros i Hi. rewrite M by lia. by rewrite (proj2 (Z.leb_gt _ _)) by lia.
  - rewrite (words_of_multi b) in * by done.
    pose proof (Z.mod_pos_bound (size_ b) W ltac:(lia)) as Hm.
    destruct (Z.eqb_spec (size_ b mod W) 0) as [Hz|Hnz]; cbn [negb]; cbv zeta;
      rewrite words_of_multi by done; cbn [words_].
    + split; [by constructor|]. split; [|done].
      intros i Hi. exfalso. apply Z.mod_divide in Hz as [q Hq]; [|lia].
      destruct Hlen as [[? _]|[_ Hlen]]; [lia|]. rewrite Hq in *.
      assert (q < nwords (words_ b)) by nia. assert (nwords (words_ b) - 1 < q) by nia. lia.
    + set (n := nwords (words_ b)) in *. assert (Z.of_nat (length (words_ b)) = n) as -> by done.
      assert (size_ b = W * (n - 1) + size_ b mod W) as Hdm.
      { rewrite (Z.div_mod (size_ b) W) at 1 by lia. f_equal. f_equal.
        assert (n - 1 <= size_ b / W) by (apply Z.div_le_lower_bound; lia).
        assert (size_ b / W < n); [|lia].
        apply Z.div_lt_upper_bound; [lia|]. destruct (Z.eq_dec (size_ b) (W * n)) as [E|]; [|lia].
        rewrite E, Z.mul_comm, Z.mod_mul in Hnz by lia. done. }
      split; [constructor|split]; rewrite ?nwords_vset; try done.
      * apply words_ok_vset; [done|]. apply land_ok; [|apply bitMask_nonneg; lia].
        apply words_ok_vget; [done|]. fold n. nia.
      * intros i Hi. rewrite nwords_vset in Hi. fold n in Hi. rewrite mask_word by (fold n; nia).
        rewrite (proj2 (Z.leb_le _ _)), (proj2 (Z.ltb_lt _ _)) by lia. done.
      * intros i Hi. rewrite mask_word by (fold n; nia). by rewrite (proj2 (Z.leb_gt _ _)) by lia.
Qed.
(** ** Each operation on bits *)

Lemma length_bv_bits b : length (bv_bits b) = Z.to_nat (size_ b).
Proof using. unfold bv_bits. by rewrite length_fmap, length_seq. Qed.

Lemma bv_bits_lookup b i : 0 <= i < size_ b -> bv_bits b !! Z.to_nat i = Some (wbit (words_of b) i).
Proof using.
  intros. unfold bv_bits. rewrite list_lookup_fmap, lookup_seq_lt by lia. simpl. do 2 f_equal. lia.
Qed.

Lemma bv_bits_ext b l :
  0 <= size_ b -> length l = Z.to_nat (size_ b) ->
  (forall i, 0 <= i < size_ b -> l !! Z.to_nat i = Some (wbit (words_of b) i)) -> l = bv_bits b.
Proof using.
  intros Hsz Hlen Hl. apply list_eq. intros i. destruct (decide (i < length l)%nat) as [Hi|Hi].
  - specialize (Hl (Z.of_nat i) ltac:(lia)). pose proof (bv_bits_lookup b (Z.of_nat i) ltac:(lia)) as Hb.
    rewrite Nat2Z.id in *. congruence.
  - rewrite !lookup_ge_None_2; rewrite ?length_bv_bits; done || lia.
Qed.

Lemma wbit_zero ws i :
  (forall j, 0 <= j < nwords ws -> vget ws j = 0) -> 0 <= i < W * nwords ws -> wbit ws i = false.
Proof using HW.
  intros Hz Hi. destruct (split_pos _ _ Hi) as (j & m & -> & Hj & Hm).
  rewrite wbit_at, Hz by done. apply Z.bits_0.
Qed.

Lemma num_blocks_bound n : W < n -> W * (num_blocks W n - 1) < n <= W * num_blocks W n /\ 2 <= num_blocks W n.
Proof using HW.
  intros Hn. unfold num_blocks. pose proof (Z.div_mod (n + (W - 1)) W ltac:(lia)).
  pose proof (Z.mod_pos_bound (n + (W - 1)) W ltac:(lia)).
  assert (2 <= (n + (W - 1)) / W) by (apply Z.div_le_lower_bound; lia). nia.
Qed.

Lemma zeros_ok n : Forall word_ok (replicate n 0).
Proof using HW. apply Forall_replicate. split; [lia|]. apply Z.pow_pos_nonneg; lia. Qed.

(** A fresh multi-word vector. *)
Lemma zeros_shape n :
  W < n -> shape n (replicate (Z.to_nat (num_blocks W n)) 0).
Proof using HW.
  intros Hn. pose proof (num_blocks_bound n Hn).
  constructor; unfold nwords; rewrite ?length_replicate; try lia. apply zeros_ok.
Qed.

Lemma single_shape n w : 0 <= n <= W -> word_ok w -> shape n [w].
Proof using. intros. constructor; change (nwords [w]) with 1; try lia. by constructor; [|constructor]. Qed.

Lemma new_rep n : 0 <= n -> bv_rep (BitVector_new W n) (replicate (Z.to_nat n) false).
Proof using HW.
  intros Hn. unfold BitVector_new.
  assert (Hz : word_ok 0) by (split; [lia | apply Z.pow_pos_nonneg; lia]).
  destruct (Z.leb_spec n W) as [Hle|Hgt].
  - assert (E : words_of (mk_bv n 0 [] true) = [0]) by (by apply words_of_single).
    assert (Hb : forall i, 0 <= i < W -> wbit [0] i = false).
    { intros. apply wbit_zero; [|change (nwords [0]) with 1; lia].
      intros j Hj. change (nwords [0]) with 1 in Hj. by replace j with 0 by lia. }
    split; [constructor; rewrite ?E; simpl; try done|].
    + by apply single_shape.
    + intros i Hi. change (nwords [0]) with 1 in Hi. apply Hb. lia.
    + apply bv_bits_ext; simpl; rewrite ?length_replicate; try done.
      intros i Hi. rewrite E, Hb by lia. apply lookup_replicate_2. lia.
  - set (ws := replicate _ 0). assert (E : words_of (mk_bv n 0 ws true) = ws) by (by apply words_of_multi).
    pose proof (zeros_shape n Hgt) as Hs. fold ws in Hs.
    assert (Hb : forall i, 0 <= i < W * nwords ws -> wbit ws i = false).
    { intros. apply wbit_zero; [|done]. intros j Hj. apply vget_replicate.
      unfold nwords, ws in Hj. rewrite length_replicate in Hj. lia. }
    split; [constructor; rewrite ?E; simpl; try done|].
    + intros i Hi. apply Hb. lia.
    + symmetry. apply forallb_forall. intros x Hx%list_elem_of_In. apply elem_of_replicate in Hx as [-> _].
      done.
    + apply bv_bits_ext; simpl; rewrite ?length_replicate; try done.
      intros i Hi. rewrite E, Hb by (destruct Hs; lia). apply lookup_replicate_2. lia.
Qed.

(** An operation that rewrites the words and recomputes the flag. *)
Lemma rep_update b l :
  shape (size_ b) (words_of b) -> clean (size_ b) (words_of b) ->
  length l = Z.to_nat (size_ b) ->
  (forall i, 0 <= i < size_ b -> l !! Z.to_nat i = Some (wbit (words_of b) i)) ->
  bv_rep (updateAllZero W b) l.
Proof using.
  intros Hs Hc Hlen Hl. split; [by apply update_wf|].
  apply bv_bits_ext; [apply Hs | done | done].
Qed.

Lemma rep_clear_update b l :
  shape (size_ b) (words_of b) -> length l = Z.to_nat (size_ b) ->
  (forall i, 0 <= i < size_ b -> l !! Z.to_nat i = Some (wbit (words_of b) i)) ->
  bv_rep (updateAllZero W (clearUnusedBits W b)) l.
Proof using HW.
  intros Hs Hlen Hl. destruct (clear_spec b Hs) as (Hs' & Hc' & Hb').
  apply rep_update; rewrite ?clear_size; try done. intros i Hi. rewrite Hb' by done. by apply Hl.
Qed.

Lemma make_rep n v : 0 <= n -> 0 <= v < 2 ^ W -> bv_rep (BitVector_make W n v) (word_bits (Z.to_nat n) v).
Proof using HW.
  intros Hn Hv. unfold BitVector_make. destruct (Z.leb_spec n W) as [Hle|Hgt].
  - assert (E : words_of (mk_bv n v [] false) = [v]) by (by apply words_of_single).
    apply rep_clear_update; rewrite ?E; simpl; rewrite ?length_word_bits; try done.
    + by apply single_shape.
    + intros i Hi. rewrite lookup_word_bits by lia.
      destruct (Z.eq_dec i W); [lia|]. pose proof (wbit_at [v] 0 i ltac:(lia)) as B.
      rewrite Z.mul_0_r, Z.add_0_l in B. rewrite B. do 2 f_equal. lia.
  - set (ws := vset _ 0 v). assert (E : words_of (mk_bv n 0 ws false) = ws) by (by apply words_of_multi).
    pose proof (zeros_shape n Hgt) as [Hs1 Hs2 Hs3]. pose proof (num_blocks_bound n Hgt).
    apply rep_clear_update; rewrite ?E; simpl; rewrite ?length_word_bits; try done.
    + constructor; subst ws; rewrite ?nwords_vset; try done. by apply words_ok_vset.
    + intros i Hi. rewrite lookup_word_bits by lia. rewrite Z2Nat.id by lia. f_equal. subst ws.
      set (zs := replicate _ 0) in *.
      assert (nwords zs = num_blocks W n) as Hnw by (unfold nwords, zs; rewrite length_replicate; lia).
      destruct (split_pos i (nwords zs)) as (j & m & -> & Hj & Hm); [lia|].
      rewrite wbit_at, vget_vset by (done || (unfold nwords in *; lia)).
      destruct (Z.eqb_spec 0 j) as [<-|]; [f_equal; lia|].
      rewrite (testbit_high W v) by nia. symmetry. unfold zs. rewrite vget_replicate by lia. apply Z.bits_0.
Qed.
Lemma test_spec b i : bv_wf b -> 0 <= i < size_ b -> test W b i = Some (wbit (words_of b) i).
Proof using HW.
  intros _ Hi. unfold test. rewrite (proj2 (Z.leb_gt _ _)) by lia.
  pose proof (Z.mod_pos_bound i W). unfold wordOffset. rewrite !land_shiftl1_bit by lia.
  unfold wbit, words_of. destruct (Z.leb_spec (size_ b) W); [|done].
  destruct (Z.eq_dec i W); [lia|]. by rewrite (Z.div_small i) by lia.
Qed.

Lemma update_word_words b pos f :
  0 <= pos < size_ b ->
  words_of (update_word W b pos f) = vset (words_of b) (pos / W) (f (vget (words_of b) (pos / W)))
  /\ size_ (update_word W b pos f) = size_ b.
Proof using HW.
  intros Hp. unfold update_word, words_of.
  destruct (Z.leb_spec (size_ b) W) as [Hle|Hgt]; simpl.
  - rewrite (proj2 (Z.leb_le _ _)) by done. by rewrite (Z.div_small pos) by lia.
  - by rewrite (proj2 (Z.leb_gt _ _)).
Qed.

Lemma pos_word b pos :
  bv_wf b -> 0 <= pos < size_ b -> 0 <= pos / W < nwords (words_of b).
Proof using HW.
  intros [[Hsz _ _] _ _] Hp. split; [apply Z.div_pos; lia | apply Z.div_lt_upper_bound; lia].
Qed.

(** Rewriting the word of [pos] so that only bit [pos] changes, to [v]. *)
Lemma update_word_spec b pos f v :
  bv_wf b -> 0 <= pos < size_ b ->
  (forall w, word_ok w -> word_ok (f w)) ->
  (forall w m, 0 <= m < W -> Z.testbit (f w) m = if m =? pos mod W then v else Z.testbit w m) ->
  let b' := update_word W b pos f in
  shape (size_ b) (words_of b') /\ clean (size_ b) (words_of b')
  /\ forall i, 0 <= i < size_ b ->
       <[Z.to_nat pos := v]> (bv_bits b) !! Z.to_nat i = Some (wbit (words_of b') i).
Proof using HW.
  intros Hwf Hp Hok Hf. destruct (update_word_words b pos f Hp) as [E _].
  pose proof (pos_word b pos Hwf Hp) as Hpw. destruct Hwf as [[Hsz Hlen Hw] Hcl _].
  cbv zeta. rewrite E. set (ws := words_of b) in *.
  assert (Hbit : forall i, 0 <= i < W * nwords ws ->
    wbit (vset ws (pos / W) (f (vget ws (pos / W)))) i = if i =? pos then v else wbit ws i).
  { intros i Hi. rewrite wbit_vset by lia. pose proof (Z.mod_pos_bound i W ltac:(lia)).
    destruct (Z.eqb_spec (i / W) (pos / W)) as [Ed|Ed].
    - rewrite Hf by done. destruct (Z.eqb_spec (i mod W) (pos mod W)) as [Em|Em].
      + rewrite (proj2 (Z.eqb_eq i pos)); [done|]. rewrite (Z.div_mod i W), (Z.div_mod pos W) by lia. congruence.
      + rewrite (proj2 (Z.eqb_neq i pos)) by congruence. unfold wbit. by rewrite Ed.
    - by rewrite (proj2 (Z.eqb_neq i pos)) by congruence. }
  split; [|split].
  - constructor; rewrite ?nwords_vset; try done. apply words_ok_vset; [done|].
    by apply Hok, words_ok_vget.
  - intros i Hi. rewrite nwords_vset in Hi. rewrite Hbit by lia.
    rewrite (proj2 (Z.eqb_neq i pos)) by lia. by apply Hcl.
  - intros i Hi. rewrite Hbit by lia. destruct (Z.eqb_spec i pos) as [->|].
    + apply list_lookup_insert_eq. rewrite length_bv_bits. lia.
    + rewrite list_lookup_insert_ne by lia. by apply bv_bits_lookup.
Qed.

Lemma set_bit_rep b pos :
  bv_wf b -> 0 <= pos < size_ b ->
  exists b', set_bit W b pos = Some b' /\ size_ b' = size_ b
    /\ bv_rep b' (<[Z.to_nat pos := true]> (bv_bits b)).
Proof using HW.
  intros Hwf Hp. unfold set_bit. rewrite (proj2 (Z.leb_gt _ _)) by lia.
  set (f := fun w => Z.lor w (wordOffset W pos)).
  destruct (update_word_words b pos f Hp) as [E Esz].
  pose proof (pos_word b pos Hwf Hp) as Hpw.
  destruct (update_word_spec b pos f true Hwf Hp) as (Hs & Hc & Hb).
  { intros w Hw. apply lor_ok; [done | apply offset_ok]. }
  { intros w m Hm. unfold f. rewrite Z.lor_spec, offset_bit by lia.
    destruct (m =? pos mod W); [apply orb_true_r | apply orb_false_r]. }
  eexists. split; [done|]. split; [exact Esz|].
  set (u := update_word W b pos f) in *. set (b' := mk_bv _ _ _ false).
  assert (words_of b' = words_of u) as Ew by done.
  split; [constructor; rewrite ?Ew; simpl; rewrite ?Esz; try done|].
  - symmetry. apply not_true_iff_false. rewrite forallb_forall. intros Hall.
    specialize (Hb pos Hp). rewrite list_lookup_insert_eq in Hb by (rewrite length_bv_bits; lia).
    injection Hb as Hb. unfold wbit in Hb. rewrite E in Hall, Hb.
    set (ws := vset _ _ _) in *. assert (0 <= pos / W < nwords ws) as Hlt by (subst ws; by rewrite nwords_vset).
    specialize (Hall (vget ws (pos / W))). rewrite Z.eqb_eq in Hall.
    rewrite Hall, Z.bits_0 in Hb; [done|]. apply list_elem_of_In.
    eapply list_elem_of_lookup_2, vget_lookup. exact Hlt.
  - apply bv_bits_ext; simpl; rewrite ?length_insert, ?length_bv_bits, ?Esz; try done; try lia.
Qed.

Lemma reset_bit_rep b pos :
  bv_wf b -> 0 <= pos < size_ b ->
  exists b', reset_bit W b pos = Some b' /\ size_ b' = size_ b
    /\ bv_rep b' (<[Z.to_nat pos := false]> (bv_bits b)).
Proof using HW.
  intros Hwf Hp. unfold reset_bit. rewrite (proj2 (Z.leb_gt _ _)) by lia.
  set (f := fun w => Z.land w (wnot W (wordOffset W pos))).
  destruct (update_word_words b pos f Hp) as [_ Esz].
  destruct (update_word_spec b pos f false Hwf Hp) as (Hs & Hc & Hb).
  { intros w Hw. apply land_ok; [done|]. apply wnot_ok, offset_ok. }
  { intros w m Hm. unfold f. rewrite Z.land_spec, wnot_bit, offset_bit by lia.
    destruct (m =? pos mod W); [apply andb_false_r | apply andb_true_r]. }
  eexists. split; [done|]. split; [exact Esz|].
  apply rep_update; rewrite ?Esz; try done. by rewrite length_insert, length_bv_bits.
Qed.

(** [words_of] after an operation that treats the words uniformly. *)
Lemma bitwise_rep (op : Z -> Z -> Z) (g : bool -> bool -> bool) a b :
  (forall x y, word_ok x -> word_ok y -> word_ok (op x y)) ->
  (forall x y m, 0 <= m -> Z.testbit (op x y) m = g (Z.testbit x m) (Z.testbit y m)) ->
  g false false = false ->
  bv_wf a -> bv_wf b -> size_ a = size_ b ->
  exists c, bitwise W op a b = Some c /\ size_ c = size_ a
    /\ bv_rep c (zip_with g (bv_bits a) (bv_bits b)).
Proof using HW.
  intros Hop Hg Hff [[Hsz Hlen Hw] Hcl _] [[Hsz' Hlen' Hw'] Hcl' _] Es.
  unfold bitwise. rewrite <- Es, Z.eqb_refl. cbn [negb].
  set (r := if size_ a <=? W then _ else _).
  assert (Er : size_ r = size_ a) by (subst r; by destruct (size_ a <=? W)).
  assert (Hl : nwords (words_of a) = nwords (words_of b)).
  { destruct Hlen as [[? ->]|[? ?]], Hlen' as [[? ->]|[? ?]]; try lia. rewrite <- Es in *. nia. }
  assert (Hws : words_of r = (fun i => op (vget (words_of a) i) (vget (words_of b) i))
                               <$> range (nwords (words_of a))).
  { subst r. unfold words_of. rewrite <- Es. destruct (Z.leb_spec (size_ a) W) as [H|H]; simpl.
    - by rewrite (proj2 (Z.leb_le _ _)).
    - by rewrite (proj2 (Z.leb_gt _ _)). }
  assert (Hnw : nwords (words_of r) = nwords (words_of a)).
  { rewrite Hws. unfold nwords at 1. rewrite length_fmap. unfold range. rewrite length_fmap, length_seq.
    unfold nwords. lia. }
  assert (Hget : forall j, 0 <= j < nwords (words_of a) ->
    vget (words_of r) j = op (vget (words_of a) j) (vget (words_of b) j)).
  { intros j Hj. rewrite Hws. unfold vget at 1. apply list_lookup_total_correct.
    rewrite list_lookup_fmap. unfold range. rewrite list_lookup_fmap, lookup_seq_lt by lia.
    simpl. do 2 f_equal; f_equal; lia. }
  assert (Hb : forall i, 0 <= i < W * nwords (words_of a) ->
    wbit (words_of r) i = g (wbit (words_of a) i) (wbit (words_of b) i)).
  { intros i Hi. destruct (split_pos _ _ Hi) as (j & m & -> & Hj & Hm).
    rewrite !wbit_at, Hget, Hg by lia. done. }
  eexists. split; [done|]. split; [done|]. apply rep_update; rewrite ?Er.
  - constructor; rewrite ?Hnw; try done. apply Forall_lookup. intros i x Hx.
    pose proof (lookup_lt_Some _ _ _ Hx). specialize (Hget (Z.of_nat i)).
    unfold vget in Hget at 1. rewrite Nat2Z.id, (list_lookup_total_correct _ _ _ Hx) in Hget.
    unfold nwords in *. rewrite Hget by lia. apply Hop; apply words_ok_vget; done || (unfold nwords; lia).
  - intros i Hi. rewrite Hnw in Hi. rewrite Hb, Hcl, Hcl' by lia. done.
  - rewrite length_zip_with, !length_bv_bits, <- Es. lia.
  - intros i Hi. rewrite lookup_zip_with, !bv_bits_lookup by lia. simpl. by rewrite Hb by lia.
Qed.
Lemma reset_rep b : bv_wf b -> bv_rep (reset W b) (replicate (length (bv_bits b)) false).
Proof using HW.
  intros [[Hsz Hlen Hw] _ _]. rewrite length_bv_bits.
  assert (E : words_of (reset W b) = replicate (length (words_of b)) 0 /\ size_ (reset W b) = size_ b
    /\ all_zero_ (reset W b) = true).
  { unfold reset, words_of. destruct (Z.leb_spec (size_ b) W); simpl.
    - by rewrite (proj2 (Z.leb_le _ _)).
    - by rewrite (proj2 (Z.leb_gt _ _)). }
  destruct E as (E & Es & Ez).
  assert (Hn : nwords (words_of (reset W b)) = nwords (words_of b))
    by (rewrite E; unfold nwords; by rewrite length_replicate).
  assert (Hb : forall i, 0 <= i < W * nwords (words_of b) -> wbit (words_of (reset W b)) i = false).
  { intros i Hi. apply wbit_zero; rewrite Hn; [|done]. intros j Hj. rewrite E. apply vget_replicate. done. }
  split; [constructor|].
  - constructor; rewrite ?Hn, ?Es; try done. rewrite E. apply zeros_ok.
  - intros i Hi. rewrite Hn, Es in Hi. apply Hb. lia.
  - rewrite Ez, E. symmetry. apply forallb_forall. intros x Hx%list_elem_of_In.
    by apply elem_of_replicate in Hx as [-> _].
  - apply bv_bits_ext; rewrite ?Es, ?length_replicate; try done; [lia|].
    intros i Hi. rewrite Hb by lia. apply lookup_replicate_2. lia.
Qed.

Lemma flip_rep b : bv_wf b -> bv_rep (flip W b) (negb <$> bv_bits b).
Proof using HW.
  intros [[Hsz Hlen Hw] _ _]. unfold flip. set (r := if size_ b <=? W then _ else _).
  assert (E : words_of r = wnot W <$> words_of b /\ size_ r = size_ b).
  { subst r. unfold words_of. destruct (Z.leb_spec (size_ b) W); simpl.
    - by rewrite (proj2 (Z.leb_le _ _)).
    - by rewrite (proj2 (Z.leb_gt _ _)). }
  destruct E as [E Es].
  assert (Hn : nwords (words_of r) = nwords (words_of b)) by (rewrite E; unfold nwords; by rewrite length_fmap).
  apply rep_clear_update; rewrite ?Es.
  - constructor; rewrite ?Hn; try done. rewrite E. apply Forall_fmap. revert Hw. apply Forall_impl.
    intros w. apply wnot_ok.
  - by rewrite length_fmap, length_bv_bits.
  - intros i Hi. rewrite list_lookup_fmap, bv_bits_lookup by done. simpl. f_equal.
    destruct (split_pos i (nwords (words_of b))) as (j & m & -> & Hj & Hm); [lia|].
    rewrite !wbit_at, E by done. rewrite <- wnot_bit by done. f_equal.
    unfold vget. symmetry. apply list_lookup_total_correct. rewrite list_lookup_fmap.
    by rewrite list_lookup_lookup_total_lt by (unfold nwords in Hj; lia).
Qed.

(** The set bits of a word vector, word by word. *)
Lemma popcount_words ws :
  popcount ((fun i => wbit ws (Z.of_nat i)) <$> seq 0 (Z.to_nat W * length ws)%nat)
  = fold_right (fun w acc => popcount_word W w + acc) 0 ws.
Proof using HW.
  induction ws as [|w ws IH]; [by rewrite Nat.mul_0_r|].
  cbn [length fold_right]. rewrite Nat.mul_succ_r, Nat.add_comm, seq_app, fmap_app, popcount_app.
  f_equal.
  - unfold popcount_word, word_bits. f_equal. apply list_fmap_ext. intros i x Hx.
    apply lookup_seq in Hx as [-> Hx]. simpl. pose proof (wbit_at (w :: ws) 0 (Z.of_nat i)) as B.
    rewrite Z.mul_0_r, Z.add_0_l in B. by rewrite B by lia.
  - rewrite <- IH. f_equal. rewrite Nat.add_0_l. rewrite <- (Nat.add_0_r (Z.to_nat W)) at 1.
    rewrite <- fmap_add_seq, <- list_fmap_compose. apply list_fmap_ext. intros i x Hx.
    apply lookup_seq in Hx as [-> Hx]. simpl.
    destruct (split_pos (Z.of_nat i) (nwords ws)) as (j & m & Ei & Hj & Hm); [unfold nwords; nia|].
    rewrite Ei, wbit_at by done.
    replace (Z.of_nat (Z.to_nat W + i)) with (W * (j + 1) + m) by lia.
    rewrite wbit_at by done. f_equal. unfold vget.
    replace (Z.to_nat (j + 1)) with (S (Z.to_nat j)) by lia. done.
Qed.

Lemma fold_count ws acc :
  fold_left (fun acc w => acc + popcount_word W w) ws acc
  = acc + fold_right (fun w acc => popcount_word W w + acc) 0 ws.
Proof using. revert acc. induction ws as [|w ws IH]; intros acc; simpl; [lia|]. rewrite IH. lia. Qed.

Lemma count_words b : count W b = fold_right (fun w acc => popcount_word W w + acc) 0 (words_of b).
Proof using.
  unfold count, words_of. destruct (size_ b <=? W); simpl; [lia|]. by rewrite fold_count.
Qed.

Lemma count_rep b : bv_wf b -> count W b = popcount (bv_bits b).
Proof using HW.
  intros [[Hsz _ _] Hcl _]. rewrite count_words, <- popcount_words. unfold bv_bits.
  set (n := Z.to_nat (size_ b)).
  replace (Z.to_nat W * length (words_of b))%nat
    with (n + (Z.to_nat W * length (words_of b) - n))%nat by (unfold nwords in Hsz; nia).
  rewrite seq_app, fmap_app, popcount_app. rewrite <- (Z.add_0_r (popcount (_ <$> seq 0 n))) at 2. f_equal.
  erewrite <- (popcount_replicate_false). f_equal. apply list_eq. intros i.
  rewrite list_lookup_fmap. destruct (decide (i < Z.to_nat W * length (words_of b) - n)%nat).
  - rewrite lookup_seq_lt by done. simpl. rewrite Hcl by (unfold nwords, n in *; nia).
    symmetry. apply lookup_replicate_2. done.
  - rewrite lookup_seq_ge by lia. symmetry. apply lookup_ge_None_2. rewrite length_replicate. lia.
Qed.

Lemma popcount_word_zero w : word_ok w -> popcount_word W w = 0 <-> w = 0.
Proof using HW.
  intros Hw. unfold popcount_word. split.
  - intros E. apply Z.bits_inj'. intros i Hi. rewrite Z.bits_0.
    destruct (Z.lt_ge_cases i W) as [Hlt|Hge]; [|by apply word_ok_high].
    assert (existsb id (word_bits (Z.to_nat W) w) = false) as Hex
      by (rewrite existsb_popcount, E; done).
    apply not_true_iff_false. intros Hbit. apply not_true_iff_false in Hex. apply Hex.
    apply existsb_exists. exists true. split; [|done]. apply list_elem_of_In.
    eapply (list_elem_of_lookup_2 _ (Z.to_nat i)). rewrite lookup_word_bits by lia.
    rewrite Z2Nat.id by lia. by rewrite Hbit.
  - intros ->. assert (word_bits (Z.to_nat W) 0 = replicate (Z.to_nat W) false) as ->.
    { apply list_eq. intros i. destruct (decide (i < Z.to_nat W)%nat).
      - rewrite lookup_word_bits, lookup_replicate_2 by done. by rewrite Z.bits_0.
      - rewrite !lookup_ge_None_2; rewrite ?length_word_bits, ?length_replicate; done || lia. }
    apply popcount_replicate_false.
Qed.

Lemma any_rep b : bv_wf b -> any b = existsb id (bv_bits b).
Proof using HW.
  intros Hwf. rewrite existsb_popcount, <- count_rep, count_words by done.
  destruct Hwf as [[_ _ Hw] _ Hz]. unfold any. rewrite Hz. clear Hz.
  induction Hw as [|w ws Hw _ IH]; [done|]. simpl.
  assert (0 <= fold_right (fun w acc => popcount_word W w + acc) 0 ws).
  { clear. induction ws; simpl; [lia|]. unfold popcount_word at 1.
    pose proof (popcount_nonneg (word_bits (Z.to_nat W) a)). lia. }
  pose proof (popcount_nonneg (word_bits (Z.to_nat W) w)) as Hp. fold (popcount_word W w) in Hp.
  pose proof (popcount_word_zero w Hw) as Hz.
  destruct (Z.eqb_spec w 0) as [->|Hne]; simpl.
  - rewrite IH, (proj2 Hz eq_refl). done.
  - symmetry. apply Z.ltb_lt. assert (popcount_word W w <> 0) by tauto. lia.
Qed.
End Proofs.

(** ** The mask interface is implemented *)

Definition bv_ops (W : Z) : MaskOps BitVector := {|
  m_width := W;
  m_new := BitVector_new W;
  m_make := BitVector_make W;
  m_test b i := default false (test W b i);
  m_assign b i v := default b (set W b i v);
  m_clear := reset W;
  m_count := count W;
  m_any := any;
  m_and a b := default a (bitwise W Z.land a b);
  m_not := flip W
|}.

#[global, refine] Instance bv_spec (W : Z) (HW : 0 < W <= 64) : @MaskSpec BitVector (bv_ops W) :=
  {| m_rep := bv_rep W |}.
Proof.
  - intros m l l' [_ ->] [_ ->]. done.
  - by apply new_rep.
  - by apply make_rep.
  - intros m l i b [Hwf ->] Hi Hl. pose proof (lookup_lt_Some _ _ _ Hl) as Hlt.
    rewrite length_bv_bits in Hlt. simpl. rewrite test_spec by (done || lia). simpl.
    rewrite bv_bits_lookup in Hl by lia. congruence.
  - intros m l i b [Hwf ->] Hi. rewrite length_bv_bits in Hi. simpl. unfold set.
    destruct b; [destruct (set_bit_rep W HW m i) as (b' & -> & _ & ?)
                |destruct (reset_bit_rep W HW m i) as (b' & -> & _ & ?)]; try done; lia.
  - intros m l [Hwf ->]. by apply reset_rep.
  - intros m l [Hwf ->]. by apply count_rep.
  - intros m l [Hwf ->]. by apply (any_rep W).
  - intros m1 m2 l1 l2 [Hw1 ->] [Hw2 ->] Hlen. rewrite !length_bv_bits in Hlen.
    pose proof (shp_size _ _ _ (wf_shape _ _ Hw1)). pose proof (shp_size _ _ _ (wf_shape _ _ Hw2)).
    simpl. destruct (bitwise_rep W HW Z.land andb m1 m2) as (c & -> & _ & Hc); try done; [| |lia].
    + intros x y Hx [Hy _]. by apply land_ok.
    + intros. apply Z.land_spec.
  - intros m l [Hwf ->]. by apply flip_rep.
Defined.

(** ** In-place loops *)

(** A loop [for i in ids: ws[i] = F ws i] that only reads positions it has not
    yet written computes [F] on the original vector. *)
Lemma fold_vset_pure (F : list Z -> Z -> Z) (ids : list Z) (ws0 : list Z) :
  NoDup ids -> (forall i, i ∈ ids -> 0 <= i < nwords ws0) ->
  (forall ids1 i ids2 ws, ids = ids1 ++ i :: ids2 -> length ws = length ws0 ->
     (forall j, 0 <= j -> j ∉ ids1 -> vget ws j = vget ws0 j) -> F ws i = F ws0 i) ->
  let ws := fold_left (fun ws i => vset ws i (F ws i)) ids ws0 in
  length ws = length ws0
  /\ forall j, 0 <= j -> vget ws j = if bool_decide (j ∈ ids) then F ws0 j else vget ws0 j.
Proof.
  cbv zeta. induction ids as [|i ids IH] using rev_ind; intros Hnd Hin HF; [done|].
  apply list.NoDup_app in Hnd as (Hnd & Hni & _).
  destruct IH as [Hlen Hget]; [done|set_solver| |].
  { intros ids1 k ids2 ws -> Hl Hws. apply (HF ids1 k (ids2 ++ [i])); [|done..].
    by rewrite <- app_assoc. }
  rewrite fold_left_app. cbn [fold_left]. set (ws := fold_left _ ids ws0) in *.
  assert (i ∉ ids) as Hi by (intros Hx; apply (Hni i Hx); set_solver).
  assert (F ws i = F ws0 i) as EF.
  { apply (HF ids i []); [done..|]. intros j Hj Hnj. rewrite Hget by done.
    by rewrite bool_decide_eq_false_2. }
  assert (0 <= i < nwords ws0) as Hb by (apply Hin; set_solver).
  rewrite length_vset. split; [done|]. intros j Hj.
  rewrite vget_vset by (unfold nwords in Hb; lia). rewrite EF.
  destruct (Z.eqb_spec i j) as [->|].
  - rewrite bool_decide_eq_true_2 by set_solver. done.
  - rewrite Hget by done. destruct (bool_decide_reflect (j ∈ ids)).
    + rewrite bool_decide_eq_true_2 by set_solver. done.
    + rewrite bool_decide_eq_false_2 by set_solver. done.
Qed.

Lemma range_lookup n k x : range n !! k = Some x -> x = Z.of_nat k /\ (k < Z.to_nat n)%nat.
Proof. unfold range. rewrite list_lookup_fmap_Some. intros (y & -> & E%lookup_seq). lia. Qed.

(** What an increasing loop has written before it reaches [i]. *)
Lemma range_before n ids1 i ids2 j : range n = ids1 ++ i :: ids2 -> j ∈ ids1 -> 0 <= j < i.
Proof.
  intros E Hj. apply list_elem_of_lookup in Hj as [k Hk].
  assert (range n !! k = Some j) as E1 by (rewrite E; by apply lookup_app_l_Some).
  assert (range n !! length ids1 = Some i) as E2 by (rewrite E; apply list_lookup_middle; done).
  apply range_lookup in E1 as [-> _], E2 as [-> _]. apply lookup_lt_Some in Hk. lia.
Qed.

Lemma down_from_lookup n lo k x :
  down_from n lo !! k = Some x -> x = n - Z.of_nat k /\ lo <= x <= n.
Proof.
  unfold down_from. intros (y & -> & Ey)%list_lookup_fmap_Some. apply range_lookup in Ey. lia.
Qed.

Lemma elem_of_down_from n lo i : i ∈ down_from n lo <-> lo <= i <= n.
Proof.
  unfold down_from. rewrite list_elem_of_fmap. setoid_rewrite elem_of_range. split.
  - intros (k & -> & ?). lia.
  - intros. exists (n - i). lia.
Qed.

Lemma NoDup_down_from n lo : NoDup (down_from n lo).
Proof. apply NoDup_fmap; [intros ? ?; lia | apply NoDup_range]. Qed.

(** What a decreasing loop has written before it reaches [i]. *)
Lemma down_before n lo ids1 i ids2 j : down_from n lo = ids1 ++ i :: ids2 -> j ∈ ids1 -> i < j.
Proof.
  intros E Hj. apply list_elem_of_lookup in Hj as [k Hk].
  assert (down_from n lo !! k = Some j) as E1 by (rewrite E; by apply lookup_app_l_Some).
  assert (down_from n lo !! length ids1 = Some i) as E2 by (rewrite E; apply list_lookup_middle; done).
  apply down_from_lookup in E1 as [-> _], E2 as [-> _]. apply lookup_lt_Some in Hk. lia.
Qed.

(** ** Shifts *)

Section Shifts.
Variable W : Z.
Hypothesis HW : 0 < W <= 64.

Lemma shl_word_phase_get k ws j :
  0 <= k < nwords ws -> 0 <= j < nwords ws ->
  length (shl_word_phase k ws) = length ws
  /\ vget (shl_word_phase k ws) j = if k <=? j then vget ws (j - k) else 0.
Proof using HW.
  intros Hk Hj. unfold shl_word_phase. destruct (Z.ltb_spec 0 k).
  2: { split; [done|]. rewrite (proj2 (Z.leb_le k j)) by lia. f_equal. lia. }
  destruct (fold_vset_pure (fun ws i => vget ws (i - k)) (down_from (nwords ws - 1) k) ws) as [L1 G1].
  - apply NoDup_down_from.
  - intros i Hi%elem_of_down_from. lia.
  - intros ids1 i ids2 ws' E _ Hws.
    assert (Hi : i ∈ down_from (nwords ws - 1) k) by (rewrite E; set_solver).
    apply elem_of_down_from in Hi. apply Hws; [lia|]. intros Hin.
    pose proof (down_before _ _ _ _ _ _ E Hin). lia.
  - unfold nwords in L1, G1 at 1. set (ws1 := fold_left _ (down_from _ _) ws) in *.
    destruct (fold_vset_pure (fun _ _ => 0) (range k) ws1) as [L2 G2]; [apply NoDup_range| |done|].
    + intros i Hi%elem_of_range. unfold nwords in *. rewrite L1. lia.
    + split; [by rewrite L2|]. rewrite G2, G1 by lia.
      destruct (bool_decide_reflect (j ∈ range k)) as [Hin|Hin]; rewrite elem_of_range in Hin.
      * by rewrite (proj2 (Z.leb_gt k j)) by lia.
      * rewrite (proj2 (Z.leb_le k j)) by lia. rewrite bool_decide_eq_true_2; [done|].
        apply elem_of_down_from. unfold nwords in *. lia.
Qed.

Lemma shl_bit_phase_get k ws j :
  0 <= k < W -> 0 <= j < nwords ws ->
  length (shl_bit_phase W k ws) = length ws
  /\ vget (shl_bit_phase W k ws) j
     = if 0 <? k then
         Z.lor (Z.shiftl (vget ws j) k mod 2 ^ W)
               (if 0 <? j then Z.shiftr (vget ws (j - 1)) (W - k) else 0)
       else vget ws j.
Proof using HW.
  intros Hk Hj. unfold shl_bit_phase. destruct (Z.ltb_spec 0 k); [|done].
  set (F := fun ws i => Z.lor (Z.shiftl (vget ws i) k mod 2 ^ W) (Z.shiftr (vget ws (i - 1)) (W - k))).
  destruct (fold_vset_pure F (down_from (nwords ws - 1) 1) ws) as [L1 G1].
  - apply NoDup_down_from.
  - intros i Hi%elem_of_down_from. lia.
  - intros ids1 i ids2 ws' E _ Hws.
    assert (Hi : i ∈ down_from (nwords ws - 1) 1) by (rewrite E; set_solver).
    apply elem_of_down_from in Hi. unfold F. rewrite !Hws; [done|lia| |lia|]; intros Hin;
      pose proof (down_before _ _ _ _ _ _ E Hin); lia.
  - unfold nwords in L1, G1 at 1. unfold F in *. set (ws1 := fold_left _ (down_from _ _) ws) in *.
    rewrite length_vset. split; [done|].
    rewrite vget_vset by (unfold nwords in Hj; lia).
    destruct (Z.eqb_spec 0 j) as [<-|].
    + rewrite G1 by lia. rewrite bool_decide_eq_false_2 by (rewrite elem_of_down_from; lia).
      simpl. by rewrite Z.lor_0_r.
    + rewrite G1 by lia. rewrite (proj2 (Z.ltb_lt 0 j)) by lia. rewrite bool_decide_eq_true_2; [done|].
      apply elem_of_down_from. unfold nwords in *. lia.
Qed.
(** Carrying bits from the word below is a shift of the whole vector. *)
Lemma shl_bit_phase_bit k ws i :
  0 <= k < W -> Forall (word_ok W) ws -> 0 <= i < W * nwords ws ->
  wbit W (shl_bit_phase W k ws) i = (k <=? i) && wbit W ws (i - k).
Proof using HW.
  intros Hk Hw Hi. destruct (split_pos W HW _ _ Hi) as (j & m & -> & Hj & Hm).
  rewrite wbit_at by done. destruct (shl_bit_phase_get k ws j Hk Hj) as [_ ->].
  destruct (Z.ltb_spec 0 k).
  2: { replace k with 0 by lia. rewrite Z.sub_0_r, wbit_at by done.
       by rewrite (proj2 (Z.leb_le 0 _)) by nia. }
  rewrite Z.lor_spec, Z.mod_pow2_bits_low, Z.shiftl_spec by lia.
  destruct (Z.le_gt_cases k m) as [Hkm|Hkm].
  - rewrite (proj2 (Z.leb_le k _)) by nia. simpl.
    replace (W * j + m - k) with (W * j + (m - k)) by lia. rewrite wbit_at by lia.
    assert (Z.testbit (if 0 <? j then Z.shiftr (vget ws (j - 1)) (W - k) else 0) m = false) as ->;
      [|apply orb_false_r].
    destruct (Z.ltb_spec 0 j); [|apply Z.bits_0]. rewrite Z.shiftr_spec by lia.
    apply (word_ok_high W); [|lia]. apply words_ok_vget; [done|lia].
  - rewrite (Z.testbit_neg_r (vget ws j)) by lia. simpl.
    destruct (Z.ltb_spec 0 j) as [Hj0|Hj0].
    + rewrite (proj2 (Z.leb_le k _)) by nia. rewrite Z.shiftr_spec by lia. simpl.
      replace (W * j + m - k) with (W * (j - 1) + (m + (W - k))) by lia. by rewrite wbit_at by lia.
    + rewrite (proj2 (Z.leb_gt k _)) by nia. apply Z.bits_0.
Qed.

Lemma shl_word_phase_bit k ws i :
  0 <= k < nwords ws -> 0 <= i < W * nwords ws ->
  wbit W (shl_word_phase k ws) i = (W * k <=? i) && wbit W ws (i - W * k).
Proof using HW.
  intros Hk Hi. destruct (split_pos W HW _ _ Hi) as (j & m & -> & Hj & Hm).
  rewrite wbit_at by done. destruct (shl_word_phase_get k ws j Hk Hj) as [_ ->].
  destruct (Z.leb_spec k j).
  - rewrite (proj2 (Z.leb_le _ _)) by nia. simpl.
    replace (W * j + m - W * k) with (W * (j - k) + m) by lia. by rewrite wbit_at by lia.
  - rewrite (proj2 (Z.leb_gt _ _)) by nia. apply Z.bits_0.
Qed.

Lemma words_ok_intro ws : (forall j, 0 <= j < nwords ws -> word_ok W (vget ws j)) -> Forall (word_ok W) ws.
Proof using.
  intros H. apply Forall_lookup. intros i x Hx. specialize (H (Z.of_nat i)).
  pose proof (lookup_lt_Some _ _ _ Hx). unfold vget in H.
  rewrite Nat2Z.id, (list_lookup_total_correct _ _ _ Hx) in H. apply H. unfold nwords. lia.
Qed.

Lemma zero_ok : word_ok W 0.
Proof using HW. split; [lia|]. apply Z.pow_pos_nonneg; lia. Qed.

Lemma trunc_ok x : word_ok W (x mod 2 ^ W).
Proof using HW. apply Z.mod_pos_bound, Z.pow_pos_nonneg; lia. Qed.

Lemma shiftr_ok x k : 0 <= k -> word_ok W x -> word_ok W (Z.shiftr x k).
Proof using HW.
  intros Hk Hx. apply (word_ok_bits W HW); [apply Z.shiftr_nonneg, Hx|].
  intros i Hi. rewrite Z.shiftr_spec by lia. apply (word_ok_high W); [done|lia].
Qed.

(** A phase that keeps the length and gives a proper word at each index. *)
Lemma phase_ok ws ws' :
  0 < nwords ws -> (forall j, 0 <= j < nwords ws -> length ws' = length ws /\ word_ok W (vget ws' j)) ->
  nwords ws' = nwords ws /\ Forall (word_ok W) ws'.
Proof using.
  intros Hn H. assert (length ws' = length ws) as E by (apply (H 0); lia).
  split; [unfold nwords; lia|]. apply words_ok_intro. intros j Hj. apply H. unfold nwords in *. lia.
Qed.

Lemma shl_phases_ok k ws :
  0 <= k < W -> 0 < nwords ws -> Forall (word_ok W) ws ->
  nwords (shl_bit_phase W k ws) = nwords ws /\ Forall (word_ok W) (shl_bit_phase W k ws).
Proof using HW.
  intros Hk Hn Hw. apply phase_ok; [done|]. intros j Hj.
  destruct (shl_bit_phase_get k ws j Hk Hj) as [-> ->]. split; [done|].
  assert (Hin : forall j, 0 <= j < nwords ws -> word_ok W (vget ws j)) by (intros; by apply words_ok_vget).
  destruct (0 <? k); [|by apply Hin]. apply (lor_ok W HW); [apply trunc_ok|].
  destruct (Z.ltb_spec 0 j); [|apply zero_ok]. apply shiftr_ok; [lia|]. apply Hin. lia.
Qed.

Lemma shl_word_phase_ok k ws :
  0 <= k < nwords ws -> Forall (word_ok W) ws ->
  nwords (shl_word_phase k ws) = nwords ws /\ Forall (word_ok W) (shl_word_phase k ws).
Proof using HW.
  intros Hk Hw. apply phase_ok; [lia|]. intros j Hj.
  destruct (shl_word_phase_get k ws j Hk Hj) as [-> ->]. split; [done|].
  destruct (Z.leb_spec k j); [|apply zero_ok]. apply words_ok_vget; [done|lia].
Qed.

(** Bits of a one-word vector. *)
Lemma wbit_one w i : 0 <= i < W -> wbit W [w] i = Z.testbit w i.
Proof using HW.
  intros Hi. pose proof (wbit_at W HW [w] 0 i Hi) as B. by rewrite Z.mul_0_r, Z.add_0_l in B.
Qed.

Lemma shift_words b s : shape W (size_ b) (words_of W b) -> 0 <= s < size_ b ->
  0 <= s / W < nwords (words_of W b) /\ 0 <= s mod W < W /\ s = W * (s / W) + s mod W.
Proof using HW.
  intros [Hsz _ _] Hs. split; [split; [apply Z.div_pos | apply Z.div_lt_upper_bound]; lia|].
  split; [apply Z.mod_pos_bound; lia | apply Z.div_mod; lia].
Qed.

(** [operator<<=] moves every bit up. *)
Lemma shl_rep b s :
  bv_wf W b -> 0 <= s ->
  bv_rep W (shl W b s)
    ((fun i => (s <=? Z.of_nat i) && wbit W (words_of W b) (Z.of_nat i - s))
       <$> seq 0 (Z.to_nat (size_ b))).
Proof using HW.
  intros Hwf Hs. unfold shl. destruct (Z.leb_spec (size_ b) s) as [Hge|Hlt].
  { destruct (reset_rep W HW b Hwf) as [Hr E]. split; [done|]. rewrite <- E, length_bv_bits.
    apply list_eq. intros i. rewrite list_lookup_fmap.
    destruct (decide (i < Z.to_nat (size_ b))%nat).
    - rewrite lookup_seq_lt, lookup_replicate_2 by done. simpl. by rewrite (proj2 (Z.leb_gt _ _)) by lia.
    - rewrite lookup_seq_ge, lookup_ge_None_2 by (rewrite ?length_replicate; lia). done. }
  destruct Hwf as [[Hsz Hlen Hw] _ _].
  set (r := if size_ b <=? W then _ else _).
  assert (Es : size_ r = size_ b) by (subst r; by destruct (size_ b <=? W)).
  assert (Hr : shape W (size_ b) (words_of W r) /\ forall i, 0 <= i < size_ b ->
    wbit W (words_of W r) i = (s <=? i) && wbit W (words_of W b) (i - s)).
  { subst r. destruct (Z.leb_spec (size_ b) W) as [Hle|Hgt].
    - rewrite !words_of_single in * by done. cbn [single_word_].
      split; [apply single_shape; [lia|]; apply Z.mod_pos_bound, Z.pow_pos_nonneg; lia|].
      intros i Hi. rewrite wbit_one, Z.mod_pow2_bits_low, Z.shiftl_spec by lia.
      destruct (Z.leb_spec s i); simpl; [by rewrite wbit_one by lia | by apply Z.testbit_neg_r; lia].
    - destruct (shift_words b s) as (Hn & Hmod & Hdm); [by constructor|lia|].
      rewrite !words_of_multi in * by done. cbn [words_]. set (ws := words_ b) in *.
      destruct (shl_word_phase_ok _ _ Hn Hw) as [N1 Hw1].
      destruct (shl_phases_ok (s mod W) (shl_word_phase (s / W) ws)) as [N2 Hw2]; [done|lia|done|].
      rewrite N1 in N2. split; [by constructor; rewrite ?N2|].
      intros i Hi. rewrite shl_bit_phase_bit by (done || lia).
      destruct (Z.leb_spec (s mod W) i); simpl.
      + rewrite shl_word_phase_bit by (done || lia). f_equal; [bool_cases; done || lia|].
        f_equal. lia.
      + by rewrite (proj2 (Z.leb_gt s i)) by lia. }
  destruct Hr as [Hrs Hrb]. apply rep_clear_update; rewrite ?Es; try done.
  - by rewrite length_fmap, length_seq.
  - intros i Hi. rewrite list_lookup_fmap, lookup_seq_lt by lia. simpl.
    rewrite Z2Nat.id by lia. by rewrite Hrb.
Qed.
Lemma shr_word_phase_get k ws j :
  0 <= k < nwords ws -> 0 <= j < nwords ws ->
  length (shr_word_phase k ws) = length ws
  /\ vget (shr_word_phase k ws) j = if j + k <? nwords ws then vget ws (j + k) else 0.
Proof using HW.
  intros Hk Hj. unfold shr_word_phase. fold (nwords ws). destruct (Z.ltb_spec 0 k).
  2: { split; [done|]. rewrite (proj2 (Z.ltb_lt _ _)) by lia. f_equal. lia. }
  destruct (fold_vset_pure (fun ws i => vget ws (i + k)) (range (nwords ws - k)) ws) as [L1 G1].
  - apply NoDup_range.
  - intros i Hi%elem_of_range. lia.
  - intros ids1 i ids2 ws' E _ Hws.
    assert (Hi : i ∈ range (nwords ws - k)) by (rewrite E; set_solver).
    apply elem_of_range in Hi. apply Hws; [lia|]. intros Hin.
    pose proof (range_before _ _ _ _ _ E Hin). lia.
  - set (ws1 := fold_left _ (range (nwords ws - k)) ws) in *. set (n := nwords ws) in *.
    assert (Hloop : fold_left (fun ws i => vset ws (n - k + i) 0) (range k) ws1
      = fold_left (fun ws i => vset ws i 0) ((fun i => n - k + i) <$> range k) ws1).
    { generalize ws1. generalize (range k). intros l. induction l; intros; simpl; auto. }
    rewrite Hloop. destruct (fold_vset_pure (fun _ _ => 0) ((fun i => n - k + i) <$> range k) ws1) as [L2 G2].
    + apply NoDup_fmap; [intros ? ?; lia | apply NoDup_range].
    + intros i (y & -> & Hy%elem_of_range)%list_elem_of_fmap. unfold nwords. rewrite L1.
      fold (nwords ws). fold n. lia.
    + done.
    + split; [by rewrite L2|]. rewrite G2, G1 by lia.
      assert (Hmem : j ∈ (fun i => n - k + i) <$> range k <-> n - k <= j < n).
      { rewrite list_elem_of_fmap. setoid_rewrite elem_of_range. split.
        - intros (y & -> & ?). lia.
        - intros. exists (j - (n - k)). lia. }
      destruct (Z.ltb_spec (j + k) n).
      * rewrite bool_decide_eq_false_2 by (rewrite Hmem; lia).
        rewrite bool_decide_eq_true_2; [done|]. apply elem_of_range. lia.
      * rewrite bool_decide_eq_true_2; [done|]. rewrite Hmem. lia.
Qed.

Lemma shr_bit_phase_get k ws j :
  0 <= k < W -> 0 <= j < nwords ws ->
  length (shr_bit_phase W k ws) = length ws
  /\ vget (shr_bit_phase W k ws) j
     = if 0 <? k then
         Z.lor (Z.shiftr (vget ws j) k)
               (if j <? nwords ws - 1 then Z.shiftl (vget ws (j + 1)) (W - k) mod 2 ^ W else 0)
       else vget ws j.
Proof using HW.
  intros Hk Hj. unfold shr_bit_phase. fold (nwords ws). destruct (Z.ltb_spec 0 k); [|done].
  set (F := fun ws i => Z.lor (Z.shiftr (vget ws i) k) (Z.shiftl (vget ws (i + 1)) (W - k) mod 2 ^ W)).
  destruct (fold_vset_pure F (range (nwords ws - 1)) ws) as [L1 G1].
  - apply NoDup_range.
  - intros i Hi%elem_of_range. lia.
  - intros ids1 i ids2 ws' E _ Hws.
    assert (Hi : i ∈ range (nwords ws - 1)) by (rewrite E; set_solver).
    apply elem_of_range in Hi. unfold F. rewrite !Hws; [done|lia| |lia|]; intros Hin;
      pose proof (range_before _ _ _ _ _ E Hin); lia.
  - unfold F in *. set (ws1 := fold_left _ (range (nwords ws - 1)) ws) in *.
    rewrite length_vset. split; [done|].
    rewrite vget_vset by (rewrite ?L1; unfold nwords in *; lia).
    destruct (Z.eqb_spec (nwords ws - 1) j) as [<-|].
    + rewrite G1 by lia. rewrite bool_decide_eq_false_2 by (rewrite elem_of_range; lia).
      rewrite (proj2 (Z.ltb_ge _ _)) by lia. by rewrite Z.lor_0_r.
    + rewrite G1 by lia. rewrite (proj2 (Z.ltb_lt j _)) by lia. rewrite bool_decide_eq_true_2; [done|].
      apply elem_of_range. lia.
Qed.

Lemma shr_bit_phase_bit k ws i :
  0 <= k < W -> Forall (word_ok W) ws -> 0 <= i < W * nwords ws ->
  wbit W (shr_bit_phase W k ws) i = (i + k <? W * nwords ws) && wbit W ws (i + k).
Proof using HW.
  intros Hk Hw Hi. destruct (split_pos W HW _ _ Hi) as (j & m & -> & Hj & Hm).
  rewrite wbit_at by done. destruct (shr_bit_phase_get k ws j Hk Hj) as [_ ->].
  destruct (Z.ltb_spec 0 k).
  2: { replace k with 0 by lia. rewrite Z.add_0_r, wbit_at by done.
       by rewrite (proj2 (Z.ltb_lt _ _)) by nia. }
  rewrite Z.lor_spec, Z.shiftr_spec by lia.
  destruct (Z.lt_ge_cases (m + k) W) as [Hkm|Hkm].
  - rewrite (proj2 (Z.ltb_lt (W * j + m + k) _)) by nia. simpl.
    replace (W * j + m + k) with (W * j + (m + k)) by lia. rewrite wbit_at by lia.
    assert (Z.testbit (if j <? nwords ws - 1 then Z.shiftl (vget ws (j + 1)) (W - k) mod 2 ^ W else 0) m
      = false) as ->; [|apply orb_false_r].
    destruct (j <? nwords ws - 1); [|apply Z.bits_0].
    rewrite Z.mod_pow2_bits_low, Z.shiftl_spec by lia. apply Z.testbit_neg_r. lia.
  - rewrite (word_ok_high W (vget ws j)) by (try apply words_ok_vget; done || lia). simpl.
    destruct (Z.ltb_spec j (nwords ws - 1)) as [Hj0|Hj0].
    + rewrite (proj2 (Z.ltb_lt (W * j + m + k) _)) by nia. simpl.
      replace (W * j + m + k) with (W * (j + 1) + (m + k - W)) by lia. rewrite wbit_at by lia.
      rewrite Z.mod_pow2_bits_low, Z.shiftl_spec by lia. f_equal. lia.
    + rewrite (proj2 (Z.ltb_ge _ _)) by nia. apply Z.bits_0.
Qed.

Lemma shr_word_phase_bit k ws i :
  0 <= k < nwords ws -> 0 <= i < W * nwords ws ->
  wbit W (shr_word_phase k ws) i = (i + W * k <? W * nwords ws) && wbit W ws (i + W * k).
Proof using HW.
  intros Hk Hi. destruct (split_pos W HW _ _ Hi) as (j & m & -> & Hj & Hm).
  rewrite wbit_at by done. destruct (shr_word_phase_get k ws j Hk Hj) as [_ ->].
  destruct (Z.ltb_spec (j + k) (nwords ws)).
  - rewrite (proj2 (Z.ltb_lt _ _)) by nia. simpl.
    replace (W * j + m + W * k) with (W * (j + k) + m) by lia. by rewrite wbit_at by lia.
  - rewrite (proj2 (Z.ltb_ge _ _)) by nia. apply Z.bits_0.
Qed.
Lemma shr_phases_ok k ws :
  0 <= k < W -> 0 < nwords ws -> Forall (word_ok W) ws ->
  nwords (shr_bit_phase W k ws) = nwords ws /\ Forall (word_ok W) (shr_bit_phase W k ws).
Proof using HW.
  intros Hk Hn Hw. apply phase_ok; [done|]. intros j Hj.
  destruct (shr_bit_phase_get k ws j Hk Hj) as [-> ->]. split; [done|].
  assert (Hin : forall j, 0 <= j < nwords ws -> word_ok W (vget ws j)) by (intros; by apply words_ok_vget).
  destruct (0 <? k); [|by apply Hin]. apply (lor_ok W HW); [apply shiftr_ok; [lia|by apply Hin]|].
  destruct (j <? nwords ws - 1); [apply trunc_ok | apply zero_ok].
Qed.

Lemma shr_word_phase_ok k ws :
  0 <= k < nwords ws -> Forall (word_ok W) ws ->
  nwords (shr_word_phase k ws) = nwords ws /\ Forall (word_ok W) (shr_word_phase k ws).
Proof using HW.
  intros Hk Hw. apply phase_ok; [lia|]. intros j Hj.
  destruct (shr_word_phase_get k ws j Hk Hj) as [-> ->]. split; [done|].
  destruct (Z.ltb_spec (j + k) (nwords ws)); [|apply zero_ok]. apply words_ok_vget; [done|lia].
Qed.

(** [operator>>=] moves every bit down and needs no masking. *)
Lemma shr_rep b s :
  bv_wf W b -> 0 <= s ->
  bv_rep W (shr W b s)
    ((fun i => (Z.of_nat i + s <? size_ b) && wbit W (words_of W b) (Z.of_nat i + s))
       <$> seq 0 (Z.to_nat (size_ b))).
Proof using HW.
  intros Hwf Hs. unfold shr. destruct (Z.leb_spec (size_ b) s) as [Hge|Hlt].
  { destruct (reset_rep W HW b Hwf) as [Hr E]. split; [done|]. rewrite <- E, length_bv_bits.
    apply list_eq. intros i. rewrite list_lookup_fmap.
    destruct (decide (i < Z.to_nat (size_ b))%nat).
    - rewrite lookup_seq_lt, lookup_replicate_2 by done. simpl. by rewrite (proj2 (Z.ltb_ge _ _)) by lia.
    - rewrite lookup_seq_ge, lookup_ge_None_2 by (rewrite ?length_replicate; lia). done. }
  destruct Hwf as [[Hsz Hlen Hw] Hcl _].
  set (r := if size_ b <=? W then _ else _).
  assert (Es : size_ r = size_ b) by (subst r; by destruct (size_ b <=? W)).
  assert (Hr : shape W (size_ b) (words_of W r) /\ nwords (words_of W r) = nwords (words_of W b)
    /\ forall i, 0 <= i < W * nwords (words_of W b) -> wbit W (words_of W r) i
       = (i + s <? W * nwords (words_of W b)) && wbit W (words_of W b) (i + s)).
  { subst r. destruct (Z.leb_spec (size_ b) W) as [Hle|Hgt].
    - rewrite !words_of_single in * by done. cbn [single_word_].
      assert (word_ok W (single_word_ b)) as Hw0 by (by inversion Hw).
      split; [apply single_shape; [lia|]; by apply shiftr_ok|]. split; [done|].
      change (nwords [single_word_ b]) with 1. intros i Hi.
      rewrite wbit_one, Z.shiftr_spec by lia.
      destruct (Z.ltb_spec (i + s) (W * 1)); simpl; [by rewrite wbit_one by lia | apply (word_ok_high W); done || lia].
    - destruct (shift_words b s) as (Hn & Hmod & Hdm); [by constructor|lia|].
      rewrite !words_of_multi in * by done. cbn [words_]. set (ws := words_ b) in *.
      destruct (shr_word_phase_ok _ _ Hn Hw) as [N1 Hw1].
      destruct (shr_phases_ok (s mod W) (shr_word_phase (s / W) ws)) as [N2 Hw2]; [done|lia|done|].
      rewrite N1 in N2. split; [by constructor; rewrite ?N2|]. split; [done|].
      intros i Hi. rewrite shr_bit_phase_bit by (done || lia). rewrite N1.
      destruct (Z.ltb_spec (i + s mod W) (W * nwords ws)); simpl.
      + rewrite shr_word_phase_bit by (done || lia). replace (i + s mod W + W * (s / W)) with (i + s) by lia.
        done.
      + by rewrite (proj2 (Z.ltb_ge (i + s) _)) by nia. }
  destruct Hr as (Hrs & Hn & Hrb). apply rep_update; rewrite ?Es; try done.
  - intros i Hi. rewrite Hn in Hi. rewrite Hrb by lia.
    destruct (Z.ltb_spec (i + s) (W * nwords (words_of W b))); [|done]. apply Hcl. lia.
  - by rewrite length_fmap, length_seq.
  - intros i Hi. rewrite list_lookup_fmap, lookup_seq_lt by lia. simpl.
    rewrite Z2Nat.id, Hrb by lia. f_equal. destruct (Z.ltb_spec (i + s) (size_ b)).
    + by rewrite (proj2 (Z.ltb_lt _ _)) by lia.
    + destruct (Z.ltb_spec (i + s) (W * nwords (words_of W b))); [|done]. symmetry. apply Hcl. lia.
Qed.
End Shifts.

(** ** Reversal *)

Section Reversal.
Variable W : Z.
Hypothesis HW : 0 < W <= 64.

Lemma reverse_bits_loop size ws n :
  0 <= size <= W * nwords ws -> (n <= Z.to_nat size)%nat ->
  let step := fun rev i =>
    let p := size - 1 - i in
    if negb (Z.land (vget ws (i / W)) (Z.shiftl 1 (i mod W)) =? 0) then
      vset rev (p / W) (Z.lor (vget rev (p / W)) (Z.shiftl 1 (p mod W)))
    else rev in
  let r := fold_left step (span 0 n) (replicate (length ws) 0) in
  nwords r = nwords ws /\ Forall (word_ok W) r
  /\ forall q, 0 <= q < W * nwords ws ->
       wbit W r q = (size - Z.of_nat n <=? q) && (q <? size) && wbit W ws (size - 1 - q).
Proof using HW.
  intros Hsz. cbv zeta. induction n as [|n IH]; intros Hn.
  - split; [unfold nwords; simpl; by rewrite length_replicate|]. split; [by apply zeros_ok|].
    intros q Hq. simpl. rewrite (wbit_zero W HW).
    + bool_cases; done || lia.
    + intros j Hj. apply vget_replicate. unfold nwords in Hj. rewrite length_replicate in Hj. lia.
    + unfold nwords in *. by rewrite length_replicate.
  - destruct IH as (Hr & Hok & Hb); [lia|].
    replace (S n) with (n + 1)%nat by lia. rewrite span_app, fold_left_app.
    change (span (0 + Z.of_nat n) 1) with [0 + Z.of_nat n + 0]. rewrite Z.add_0_l, Z.add_0_r.
    cbn [fold_left]. set (r := fold_left _ (span 0 n) _) in *. set (p := size - 1 - Z.of_nat n).
    pose proof (Z.mod_pos_bound (Z.of_nat n) W ltac:(lia)). rewrite land_shiftl1_bit by lia.
    change (Z.testbit (vget ws (Z.of_nat n / W)) (Z.of_nat n mod W)) with (wbit W ws (Z.of_nat n)).
    assert (0 <= p / W < nwords r) as Hp
      by (rewrite Hr; subst p; split; [apply Z.div_pos | apply Z.div_lt_upper_bound]; lia).
    destruct (wbit W ws (Z.of_nat n)) eqn:E.
    + rewrite nwords_vset. split; [done|]. split.
      { apply words_ok_vset; [done|]. apply (lor_ok W HW); [by apply words_ok_vget|].
        apply (offset_ok W HW p). }
      intros q Hq. rewrite (wbit_vset W HW) by lia. pose proof (Z.mod_pos_bound q W ltac:(lia)).
      rewrite Z.lor_spec. change (Z.shiftl 1 (p mod W)) with (wordOffset W p).
      rewrite (offset_bit W HW) by lia.
      assert ((if q / W =? p / W then Z.testbit (vget r (p / W)) (q mod W) || (q mod W =? p mod W)
        else wbit W r q) = wbit W r q || (q =? p)) as ->.
      { destruct (Z.eqb_spec (q / W) (p / W)) as [Ed|Ed].
        - unfold wbit. rewrite Ed. f_equal. destruct (Z.eqb_spec (q mod W) (p mod W)) as [Em|Em].
          + symmetry. apply Z.eqb_eq. rewrite (Z.div_mod q W), (Z.div_mod p W) by lia. congruence.
          + symmetry. apply Z.eqb_neq. congruence.
        - rewrite (proj2 (Z.eqb_neq q p)) by congruence. symmetry. apply orb_false_r. }
      rewrite Hb by done. destruct (Z.eqb_spec q p) as [->|].
      * subst p. replace (size - 1 - (size - 1 - Z.of_nat n)) with (Z.of_nat n) by lia. rewrite E.
        bool_cases; done || lia.
      * rewrite orb_false_r. subst p. f_equal. bool_cases; done || lia.
    + split; [done|]. split; [done|]. intros q Hq. rewrite Hb by done.
      destruct (Z.eq_dec q p) as [->|].
      * subst p. replace (size - 1 - (size - 1 - Z.of_nat n)) with (Z.of_nat n) by lia. rewrite E.
        by rewrite !andb_false_r.
      * subst p. f_equal. bool_cases; done || lia.
Qed.

Lemma word_reverse_spec w m :
  word_ok W w -> 0 <= m -> Z.testbit (word_reverse W w) m = (m <? W) && Z.testbit w (W - 1 - m).
Proof using HW.
  intros [Hw0 Hw1] Hm. assert (2 ^ W <= 2 ^ 64) by (apply Z.pow_le_mono_r; lia).
  destruct (bit_reverse_spec w W) as (r & E & Hr); [lia..|].
  unfold word_reverse. rewrite E. simpl. by apply Hr.
Qed.

Lemma word_reverse_ok w : word_ok W w -> word_ok W (word_reverse W w).
Proof using HW.
  intros Hw. apply (word_ok_bits W HW).
  - unfold word_reverse, bit_reverse. repeat case_match; simpl; try lia.
    + unfold bit_reverse64. apply Z.lor_nonneg. split; [|apply u64_range].
      apply Z.shiftr_nonneg, Z.lor_nonneg. split; [apply Z.shiftr_nonneg, Z.land_nonneg; right; lia|apply u64_range].
    + generalize (range W). intros l. assert (Hgen : forall acc, 0 <= acc -> 0 <= fold_left (fun reversed i =>
        if negb (Z.land w (Z.shiftl 1 i) =? 0) then Z.lor reversed (Z.shiftl 1 (W - 1 - i))
        else reversed) l acc); [|by apply Hgen]. induction l as [|i l IH]; intros acc Hacc; simpl; [done|].
      apply IH. case_match; [|done]. apply Z.lor_nonneg. split; [done|]. apply Z.shiftl_nonneg. lia.
  - intros i Hi. rewrite word_reverse_spec by (done || lia). by rewrite (proj2 (Z.ltb_ge _ _)).
Qed.

(** Beyond one word, [reverse] maps bit [i] to bit [size - 1 - i]. *)
Lemma reverse_multi_rep b :
  bv_wf W b -> W < size_ b -> bv_rep W (updateAllZero W (reverse W b)) (List.rev (bv_bits W b)).
Proof using HW.
  intros [[Hsz Hlen Hw] Hcl _] Hgt. rewrite (words_of_multi W b) in * by done.
  unfold reverse. rewrite (proj2 (Z.eqb_neq _ 0)), (proj2 (Z.leb_gt _ _)) by lia.
  set (ws := words_ b) in *.
  set (ws' := if negb (size_ b mod W =? 0) then reverse_bits W (size_ b) ws
              else word_reverse W <$> List.rev ws).
  assert (Hr : nwords ws' = nwords ws /\ Forall (word_ok W) ws'
    /\ forall q, 0 <= q < W * nwords ws ->
         wbit W ws' q = (q <? size_ b) && wbit W ws (size_ b - 1 - q)).
  { subst ws'. destruct (Z.eqb_spec (size_ b mod W) 0) as [Hz|Hnz]; cbn [negb].
    - assert (size_ b = W * nwords ws) as Es.
      { apply Z.mod_divide in Hz as [q Hq]; [|lia]. destruct Hlen as [[? ?]|[_ Hl]]; [lia|].
        rewrite Hq in *. assert (q = nwords ws); [|subst; lia]. nia. }
      split; [unfold nwords; by rewrite length_fmap, length_rev|]. split.
      + apply Forall_fmap, Forall_rev. revert Hw. apply Forall_impl. intros w Hw. by apply word_reverse_ok.
      + intros q Hq. rewrite (proj2 (Z.ltb_lt _ _)) by lia. simpl.
        destruct (split_pos W HW _ _ Hq) as (j & m & -> & Hj & Hm).
        replace (size_ b - 1 - (W * j + m)) with (W * (nwords ws - 1 - j) + (W - 1 - m)) by lia.
        rewrite !(wbit_at W HW) by lia.
        assert (vget (word_reverse W <$> List.rev ws) j = word_reverse W (vget ws (nwords ws - 1 - j))) as ->.
        { unfold nwords in *. by rewrite vget_fmap, vget_rev by (rewrite ?length_rev; lia). }
        rewrite word_reverse_spec by (try apply words_ok_vget; done || lia).
        by rewrite (proj2 (Z.ltb_lt m W)) by lia.
    - destruct (reverse_bits_loop (size_ b) ws (Z.to_nat (size_ b))) as (H1 & H2 & H3); [lia..|].
      unfold reverse_bits. rewrite range_span. split; [exact H1|]. split; [exact H2|].
      intros q Hq. rewrite H3 by done. f_equal. rewrite (proj2 (Z.leb_le _ _)) by lia. done. }
  destruct Hr as (Hn & Hok & Hb).
  set (r := if negb (size_ b mod W =? 0) then _ else _).
  assert (size_ r = size_ b /\ words_of W r = ws') as [Es Er].
  { subst r ws'. unfold words_of. destruct (negb (size_ b mod W =? 0)); simpl;
      by rewrite (proj2 (Z.leb_gt _ _)). }
  apply rep_update; rewrite ?Es, ?Er.
  - by constructor; rewrite ?Hn.
  - intros i Hi. rewrite Hn in Hi. rewrite Hb by lia. by rewrite (proj2 (Z.ltb_ge _ _)) by lia.
  - by rewrite length_rev, length_bv_bits.
  - intros i Hi. rewrite rev_lookup by (rewrite length_bv_bits; lia). rewrite length_bv_bits.
    replace (Z.to_nat (size_ b) - S (Z.to_nat i))%nat with (Z.to_nat (size_ b - 1 - i)) by lia.
    rewrite bv_bits_lookup, Hb by lia. rewrite (proj2 (Z.ltb_lt _ _)) by lia. f_equal.
    by rewrite words_of_multi.
Qed.
Lemma existsb_rev (l : bits) : existsb id (List.rev l) = existsb id l.
Proof using.
  rewrite !existsb_popcount. f_equal. induction l as [|b l IH]; [done|].
  simpl. rewrite popcount_app. simpl. lia.
Qed.

(** The cached flag stays right because reversal permutes the bits. *)
Lemma reverse_rep b :
  bv_wf W b -> W < size_ b -> bv_rep W (reverse W b) (List.rev (bv_bits W b)).
Proof using HW.
  intros Hwf Hgt. pose proof (reverse_multi_rep b Hwf Hgt) as Hr.
  assert (updateAllZero W (reverse W b) = reverse W b) as <-; [|done].
  destruct Hr as [Hwf' Eb]. pose proof (any_rep W HW _ Hwf') as A1. pose proof (any_rep W HW _ Hwf) as A2.
  rewrite <- Eb, existsb_rev, <- A2 in A1. unfold any in A1.
  apply (f_equal negb) in A1. rewrite !negb_involutive in A1.
  assert (all_zero_ (reverse W b) = all_zero_ b) as E.
  { unfold reverse. repeat case_match; done. }
  rewrite <- E in A1. unfold updateAllZero in *. destruct (reverse W b) as [sz sw ws az].
  simpl in *. by rewrite A1.
Qed.
End Reversal.

(** ** Properties *)

(** The in-place word and bit phases of the shifts compute the shift of
    the whole vector: after [<<= s] bit [i] is the old bit [i - s], after
    [>>= s] the old bit [i + s], zeros come in at the ends, and the result is
    a well-formed vector with an exact [all_zero_] flag. *)
Theorem bitvector_shifts (W s i : Z) (b : BitVector)
    (HW : 0 < W <= 64) (Hb : bv_wf W b) (Hs : 0 <= s) (Hi : 0 <= i < size_ b) :
  let old k := default false (test W b k) in
  bv_wf W (shl W b s) /\ test W (shl W b s) i = Some ((s <=? i) && old (i - s))
  /\ bv_wf W (shr W b s) /\ test W (shr W b s) i = Some ((i + s <? size_ b) && old (i + s)).
Proof.
  cbv zeta. destruct (shl_rep W HW b s Hb Hs) as [W1 E1], (shr_rep W HW b s Hb Hs) as [W2 E2].
  assert (S1 : size_ (shl W b s) = size_ b).
  { apply (f_equal length) in E1. rewrite length_fmap, length_seq, length_bv_bits in E1.
    destruct (wf_shape _ _ W1) as [? _ _]. lia. }
  assert (S2 : size_ (shr W b s) = size_ b).
  { apply (f_equal length) in E2. rewrite length_fmap, length_seq, length_bv_bits in E2.
    destruct (wf_shape _ _ W2) as [? _ _]. lia. }
  split; [done|]. split; [|split; [done|]].
  - rewrite test_spec by (done || lia). rewrite <- bv_bits_lookup by lia. rewrite <- E1.
    rewrite list_lookup_fmap, lookup_seq_lt by lia. simpl. rewrite Z2Nat.id by lia. f_equal.
    destruct (Z.leb_spec s i); [|done]. simpl. by rewrite test_spec by (done || lia).
  - rewrite test_spec by (done || lia). rewrite <- bv_bits_lookup by lia. rewrite <- E2.
    rewrite list_lookup_fmap, lookup_seq_lt by lia. simpl. rewrite Z2Nat.id by lia. f_equal.
    destruct (Z.ltb_spec (i + s) (size_ b)); [|done]. simpl. by rewrite test_spec by (done || lia).
Qed.

Lemma demo_bv_wf : bv_wf 32 (BitVector_make 32 70 0xF0).
Proof. apply (make_rep 32); lia. Defined.

Lemma bitvector_shifts_witness :
  let b := BitVector_make 32 70 0xF0 in
  bv_wf 32 (shl 32 b 37) /\ test 32 (shl 32 b 37) 42 = Some true
  /\ bv_wf 32 (shr 32 b 37) /\ test 32 (shr 32 b 37) 42 = Some false.
Proof.
  apply (bitvector_shifts 32 37 42 (BitVector_make 32 70 0xF0)); [lia|exact demo_bv_wf|lia|].
  vm_compute. split; [discriminate|reflexivity].
Defined.

(** Past one word, [reverse] maps bit [i] to bit [size - 1 - i], for sizes
    that fill their last word and sizes that do not. *)
Theorem bitvector_reverse_multi (W i : Z) (b : BitVector)
    (HW : 0 < W <= 64) (Hb : bv_wf W b) (Hsz : W < size_ b) (Hi : 0 <= i < size_ b) :
  bv_wf W (reverse W b) /\ test W (reverse W b) i = test W b (size_ b - 1 - i).
Proof.
  destruct (reverse_rep W HW b Hb Hsz) as [Hr Er].
  assert (size_ (reverse W b) = size_ b) as Es by (unfold reverse; by repeat case_match).
  split; [done|]. rewrite !test_spec by (done || lia). rewrite <- !bv_bits_lookup, <- Er by lia.
  rewrite rev_lookup by (rewrite length_bv_bits; lia). rewrite length_bv_bits. f_equal. lia.
Qed.

Lemma bitvector_reverse_multi_witness :
  bv_wf 32 (reverse 32 (BitVector_make 32 70 0xF0))
  /\ test 32 (reverse 32 (BitVector_make 32 70 0xF0)) 65 = Some true.
Proof.
  apply (bitvector_reverse_multi 32 65 (BitVector_make 32 70 0xF0)); [lia|exact demo_bv_wf|reflexivity|].
  vm_compute. split; [discriminate|reflexivity].
Defined.

(** Within one word, [reverse] reverses the whole word instead of the
    [size] bits: in a vector of at most half a word every bit reads 0
    afterwards, while [any] and [count] still report the old bits. *)
Theorem bitvector_reverse_narrow_loses (W i : Z) (b : BitVector)
    (HW : 0 < W <= 64) (Hb : bv_wf W b) (Hsz : 2 * size_ b <= W) (Hi : 0 <= i < size_ b) :
  test W (reverse W b) i = Some false
  /\ any (reverse W b) = any b.
Proof.
  destruct Hb as [[Hs Hl Hw] Hcl Hz]. rewrite words_of_single in * by lia.
  unfold reverse. rewrite (proj2 (Z.eqb_neq _ 0)), (proj2 (Z.leb_le (size_ b) W)) by lia.
  split; [|done]. unfold test. cbn [size_ single_word_].
  rewrite (proj2 (Z.leb_gt (size_ b) i)), (proj2 (Z.leb_le (size_ b) W)) by lia.
  unfold wordOffset. rewrite Z.mod_small, land_shiftl1_bit by lia.
  assert (word_ok W (single_word_ b)) by (by inversion Hw).
  rewrite word_reverse_spec by (done || lia).
  specialize (Hcl (W - 1 - i)). change (nwords [single_word_ b]) with 1 in Hcl.
  rewrite (wbit_one W HW) in Hcl by lia. rewrite Hcl by lia. by rewrite andb_false_r.
Qed.

Lemma bitvector_reverse_narrow_loses_witness :
  test 32 (reverse 32 (BitVector_make 32 4 1)) 3 = Some false
  /\ any (reverse 32 (BitVector_make 32 4 1)) = true.
Proof.
  apply (bitvector_reverse_narrow_loses 32 3 (BitVector_make 32 4 1)); [lia| |vm_compute; discriminate|].
  - apply (make_rep 32); lia.
  - vm_compute. split; [discriminate|reflexivity].
Defined.

Lemma vget_vec_resize l n j :
  0 <= j < n -> vget (vec_resize l n) j = if j <? Z.of_nat (length l) then vget l j else 0.
Proof.
  intros Hj. unfold vec_resize, vget. rewrite !list_lookup_total_alt.
  destruct (Z.ltb_spec j (Z.of_nat (length l))).
  - rewrite lookup_app_l, lookup_take_lt by (rewrite ?length_take; lia). done.
  - rewrite lookup_app_r, length_take, lookup_replicate_2 by (rewrite ?length_take; lia). done.
Qed.

Lemma nwords_vec_resize l n : 0 <= n -> nwords (vec_resize l n) = n.
Proof. intros. unfold nwords, vec_resize. rewrite length_app, length_take, length_replicate. lia. Qed.

Lemma vec_resize_ok W l n :
  0 < W <= 64 -> Forall (word_ok W) l -> Forall (word_ok W) (vec_resize l n).
Proof.
  intros HW Hl. unfold vec_resize. apply Forall_app. split; [by apply Forall_take | by apply zeros_ok].
Qed.

(** Bits of the word vector [resize] starts from. *)
Lemma resize_multi_bits W b n i :
  0 < W <= 64 -> bv_wf W b -> W < size_ b -> W < n -> 0 <= i < n ->
  wbit W (vec_resize (words_ b) (num_blocks W n)) i
  = (i <? size_ b) && wbit W (words_ b) i.
Proof.
  intros HW [[Hs Hl Hw] Hcl _] Hb Hn Hi. rewrite words_of_multi in * by done.
  pose proof (num_blocks_bound W HW n Hn).
  destruct (split_pos W HW i (num_blocks W n)) as (j & m & -> & Hj & Hm); [lia|].
  rewrite !(wbit_at W HW), vget_vec_resize by done. fold (nwords (words_ b)).
  destruct (Z.ltb_spec j (nwords (words_ b))).
  - destruct (Z.ltb_spec (W * j + m) (size_ b)); [done|].
    rewrite <- (wbit_at W HW) by done. apply Hcl. nia.
  - rewrite Z.bits_0. by rewrite (proj2 (Z.ltb_ge _ _)) by nia.
Qed.

(** [resize] keeps the bits that fit and clears the rest, except when a
    vector of at most one word grows past a word: its words are sized afresh
    and [single_word_] is dropped, so every bit of the result is 0. *)
Lemma resize_spec (W n : Z) (b : BitVector)
    (HW : 0 < W <= 64) (Hb : bv_wf W b) (Hw : size_ b <= W -> words_ b = []) (Hn : 0 <= n) :
  bv_wf W (resize W b n) /\ size_ (resize W b n) = n
  /\ forall i, 0 <= i < n -> test W (resize W b n) i
     = Some (if (size_ b <=? W) && (W <? n) then false
             else if i <? size_ b then default false (test W b i) else false).
Proof.
  unfold resize. destruct (Z.eqb_spec n (size_ b)) as [->|Hne].
  { split; [done|]. split; [done|]. intros i Hi. rewrite test_spec by done.
    assert ((size_ b <=? W) && (W <? size_ b) = false) as -> by (bool_cases; done || lia).
    by rewrite (proj2 (Z.ltb_lt _ _)) by lia. }
  set (b1 := if n <=? W then _ else _).
  set (v i := if (size_ b <=? W) && (W <? n) then false
              else if i <? size_ b then default false (test W b i) else false).
  assert (H1 : size_ b1 = n /\ shape W n (words_of W b1)
    /\ forall k, 0 <= k < n -> wbit W (words_of W b1) k = v k).
  { pose proof Hb as [[Hs Hl Hwok] Hcl _]. subst b1 v.
    destruct (Z.leb_spec n W) as [Hle|Hgt], (Z.leb_spec (size_ b) W) as [Hbl|Hbg].
    - split; [done|]. rewrite (words_of_single W b), words_of_single in * by done. cbn [single_word_].
      split; [apply single_shape; [lia | by inversion Hwok]|]. intros k Hk.
      rewrite (proj2 (Z.ltb_ge W n)) by lia. cbn [andb]. destruct (Z.ltb_spec k (size_ b)).
      + rewrite test_spec, words_of_single by (done || lia). done.
      + apply Hcl. change (nwords [single_word_ b]) with 1. lia.
    - split; [done|]. rewrite (words_of_multi W b), words_of_single in * by done. cbn [single_word_].
      assert (0 < nwords (words_ b)) by nia.
      split; [apply single_shape; [lia | apply words_ok_vget; done || lia]|]. intros k Hk. cbn [andb].
      rewrite (proj2 (Z.ltb_lt k (size_ b))) by lia. rewrite (test_spec W HW b k Hb) by lia.
      rewrite words_of_multi by done. simpl.
      rewrite (wbit_one W HW) by lia. symmetry.
      pose proof (wbit_at W HW (words_ b) 0 k ltac:(lia)) as B. by rewrite Z.mul_0_r, Z.add_0_l in B.
    - rewrite (Hw Hbl) in *. split; [done|]. rewrite (words_of_multi W) by done. cbn [words_].
      pose proof (num_blocks_bound W HW n Hgt).
      split; [constructor; rewrite ?nwords_vec_resize by lia; try lia; by apply vec_resize_ok|].
      rewrite (proj2 (Z.ltb_lt W n)) by done. cbn [andb]. intros k Hk.
      apply (wbit_zero W HW); rewrite nwords_vec_resize by lia; [|lia].
      intros j Hj. by rewrite vget_vec_resize, (proj2 (Z.ltb_ge _ _)) by (simpl; lia).
    - split; [done|]. rewrite (words_of_multi W) by done. cbn [words_ andb].
      pose proof (num_blocks_bound W HW n Hgt). rewrite words_of_multi in Hwok by done.
      split; [constructor; rewrite ?nwords_vec_resize by lia; try lia; by apply vec_resize_ok|].
      intros k Hk. rewrite resize_multi_bits by done. destruct (Z.ltb_spec k (size_ b)); [|done].
      rewrite test_spec by (done || lia). by rewrite words_of_multi. }
  destruct H1 as (Es & Hsh & Hbits). rewrite <- Es in Hsh.
  destruct (rep_clear_update W HW b1 ((fun k => v (Z.of_nat k)) <$> seq 0 (Z.to_nat n))) as [Hwf Eb].
  - done.
  - by rewrite length_fmap, length_seq, Es.
  - rewrite Es. intros k Hk. rewrite list_lookup_fmap, lookup_seq_lt by lia. simpl.
    rewrite Hbits by done. do 2 f_equal. lia.
  - assert (size_ (updateAllZero W (clearUnusedBits W b1)) = n) as Es' by (simpl; by rewrite clear_size).
    split; [done|]. split; [done|]. intros i Hi. rewrite test_spec, <- bv_bits_lookup, <- Eb by (done || lia).
    rewrite list_lookup_fmap, lookup_seq_lt by lia. cbn [fmap option_fmap option_map].
    change (0 + Z.to_nat i)%nat with (Z.to_nat i). subst v. cbv beta. by rewrite Z2Nat.id by lia.
Qed.

Theorem bitvector_resize (W n i : Z) (b : BitVector)
    (HW : 0 < W <= 64) (Hb : bv_wf W b) (Hw : size_ b <= W -> words_ b = [])
    (Hn : 0 <= n) (Hi : 0 <= i < n) :
  bv_wf W (resize W b n) /\ size_ (resize W b n) = n
  /\ test W (resize W b n) i
     = Some (if (size_ b <=? W) && (W <? n) then false
             else if i <? size_ b then default false (test W b i) else false).
Proof. destruct (resize_spec W n b HW Hb Hw Hn) as (H1 & H2 & H3). auto. Qed.

Lemma bitvector_resize_witness :
  bv_wf 32 (resize 32 (BitVector_make 32 8 0xFF) 40)
  /\ size_ (resize 32 (BitVector_make 32 8 0xFF) 40) = 40
  /\ test 32 (resize 32 (BitVector_make 32 8 0xFF) 40) 3 = Some false.
Proof.
  apply (bitvector_resize 32 40 3 (BitVector_make 32 8 0xFF)); [lia| |intros _; reflexivity|lia|lia].
  apply (make_rep 32); lia.
Defined.

(** ** Expressions

    Every way to build a vector through the class: the constructors, [set]
    and [reset], the operators and their assignments, [flip], [reverse] and
    [resize]. *)
Inductive bv_expr :=
| ENew (n : Z)
| EMake (n v : Z)
| ESet (e : bv_expr) (i : Z) (b : bool)
| EReset (e : bv_expr)
| EAnd (e1 e2 : bv_expr)
| EOr (e1 e2 : bv_expr)
| EXor (e1 e2 : bv_expr)
| EFlip (e : bv_expr)
| EShl (e : bv_expr) (s : Z)
| EShr (e : bv_expr) (s : Z)
| EReverse (e : bv_expr)
| EResize (e : bv_expr) (n : Z).

(** As the class computes it; [None] is an exception. *)
Fixpoint bv_eval (W : Z) (e : bv_expr) : option BitVector :=
  match e with
  | ENew n => Some (BitVector_new W n)
  | EMake n v => Some (BitVector_make W n v)
  | ESet e i b => x ← bv_eval W e; set W x i b
  | EReset e => x ← bv_eval W e; Some (reset W x)
  | EAnd e1 e2 => x ← bv_eval W e1; y ← bv_eval W e2; bitwise W Z.land x y
  | EOr e1 e2 => x ← bv_eval W e1; y ← bv_eval W e2; bitwise W Z.lor x y
  | EXor e1 e2 => x ← bv_eval W e1; y ← bv_eval W e2; bitwise W Z.lxor x y
  | EFlip e => x ← bv_eval W e; Some (flip W x)
  | EShl e s => x ← bv_eval W e; Some (shl W x s)
  | EShr e s => x ← bv_eval W e; Some (shr W x s)
  | EReverse e => x ← bv_eval W e; Some (reverse W x)
  | EResize e n => x ← bv_eval W e; Some (resize W x n)
  end.

(** On bit lists, lowest index first. *)
Fixpoint bits_eval (e : bv_expr) : bits :=
  match e with
  | ENew n => replicate (Z.to_nat n) false
  | EMake n v => word_bits (Z.to_nat n) v
  | ESet e i b => <[Z.to_nat i := b]> (bits_eval e)
  | EReset e => replicate (length (bits_eval e)) false
  | EAnd e1 e2 => zip_with andb (bits_eval e1) (bits_eval e2)
  | EOr e1 e2 => zip_with orb (bits_eval e1) (bits_eval e2)
  | EXor e1 e2 => zip_with xorb (bits_eval e1) (bits_eval e2)
  | EFlip e => negb <$> bits_eval e
  | EShl e s => take (length (bits_eval e)) (replicate (Z.to_nat s) false ++ bits_eval e)
  | EShr e s => take (length (bits_eval e)) (drop (Z.to_nat s) (bits_eval e) ++ replicate (length (bits_eval e)) false)
  | EReverse e => List.rev (bits_eval e)
  | EResize e n => take (Z.to_nat n) (bits_eval e ++ replicate (Z.to_nat n) false)
  end.

Definition e_size (e : bv_expr) : Z := Z.of_nat (length (bits_eval e)).

(** The calls a client may make: no negative size or shift, values of one
    word, positions inside the vector, operands of one size; and neither the
    reversal of a vector of at most one word nor the growth of such a vector
    past a word, where the class loses bits. *)
Fixpoint expr_ok (W : Z) (e : bv_expr) : Prop :=
  match e with
  | ENew n => 0 <= n
  | EMake n v => 0 <= n /\ 0 <= v < 2 ^ W
  | ESet e i _ => expr_ok W e /\ 0 <= i < e_size e
  | EReset e | EFlip e => expr_ok W e
  | EAnd e1 e2 | EOr e1 e2 | EXor e1 e2 => expr_ok W e1 /\ expr_ok W e2 /\ e_size e1 = e_size e2
  | EShl e s | EShr e s => expr_ok W e /\ 0 <= s
  | EReverse e => expr_ok W e /\ W < e_size e
  | EResize e n => expr_ok W e /\ 0 <= n /\ (e_size e <= W -> n <= W)
  end.

Section Expr.
Variable W : Z.
Hypothesis HW : 0 < W <= 64.

(** A vector of at most one word has no word vector. *)
Definition narrow (b : BitVector) : Prop := size_ b <= W -> words_ b = [].

Definition implements (b : BitVector) (l : bits) : Prop := bv_rep W b l /\ narrow b.

Lemma implements_size b l : implements b l -> size_ b = Z.of_nat (length l).
Proof using. intros [[Hwf ->] _]. rewrite length_bv_bits. destruct (wf_shape _ _ Hwf) as [? _ _]. lia. Qed.

Lemma words_clear b : size_ b <= W -> words_ (clearUnusedBits W b) = words_ b.
Proof using. intros Hb. unfold clearUnusedBits. by rewrite (proj2 (Z.leb_le _ _)). Qed.

Lemma narrow_update b b' : narrow b -> size_ b' = size_ b -> (size_ b <= W -> words_ b' = words_ b) -> narrow b'.
Proof using. intros Hb Es Ew Hle. rewrite Es in Hle. rewrite Ew by done. by apply Hb. Qed.

Lemma set_implements b l i v : implements b l -> 0 <= i < size_ b ->
  exists b', set W b i v = Some b' /\ implements b' (<[Z.to_nat i := v]> l).
Proof using HW.
  intros [[Hwf ->] Hn] Hi. unfold set. destruct v.
  - destruct (set_bit_rep W HW b i Hwf Hi) as (b' & E & Es & R). exists b'. split; [done|]. split; [done|].
    apply (narrow_update b); [done..|]. intros Hle. unfold set_bit in E. rewrite (proj2 (Z.leb_gt _ _)) in E by lia. simplify_eq.
    unfold update_word. by rewrite (proj2 (Z.leb_le _ _)).
  - destruct (reset_bit_rep W HW b i Hwf Hi) as (b' & E & Es & R). exists b'. split; [done|]. split; [done|].
    apply (narrow_update b); [done..|]. intros Hle. unfold reset_bit in E. rewrite (proj2 (Z.leb_gt _ _)) in E by lia. simplify_eq.
    unfold update_word, updateAllZero. by rewrite (proj2 (Z.leb_le (size_ b) W)).
Qed.

Lemma bitwise_implements op g a b l1 l2 :
  (forall x y, word_ok W x -> word_ok W y -> word_ok W (op x y)) ->
  (forall x y m, 0 <= m -> Z.testbit (op x y) m = g (Z.testbit x m) (Z.testbit y m)) -> g false false = false ->
  implements a l1 -> implements b l2 -> length l1 = length l2 ->
  exists c, bitwise W op a b = Some c /\ implements c (zip_with g l1 l2).
Proof using HW.
  intros Ho Hg Hf Ia Ib Hl. pose proof (implements_size _ _ Ia) as Sa. pose proof (implements_size _ _ Ib) as Sb.
  destruct Ia as [[Wa ->] Na], Ib as [[Wb ->] Nb].
  destruct (bitwise_rep W HW op g a b Ho Hg Hf Wa Wb ltac:(lia)) as (c & E & Es & R). exists c. split; [done|]. split; [done|].
  apply (narrow_update a); [done..|]. intros Hle. unfold bitwise in E. destruct (negb _); [done|]. simplify_eq.
  unfold updateAllZero. by rewrite (proj2 (Z.leb_le (size_ a) W)).
Qed.

Lemma reset_implements b l : implements b l -> implements (reset W b) (replicate (length l) false).
Proof using HW.
  intros [[Hwf ->] Hn]. split; [by apply reset_rep|]. unfold reset.
  destruct (Z.leb_spec (size_ b) W); [done|]. intros Hle. simpl in Hle. lia.
Qed.

Lemma flip_implements b l : implements b l -> implements (flip W b) (negb <$> l).
Proof using HW.
  intros [[Hwf ->] Hn]. split; [by apply flip_rep|]. unfold flip, updateAllZero. intros Hle. cbn [size_ words_] in *. rewrite clear_size in Hle.
  destruct (Z.leb_spec (size_ b) W); cbn [size_] in Hle; [|lia]. rewrite words_clear by done. by apply Hn.
Qed.

Lemma shift_list (l l' : bits) (f : nat -> bool) : length l' = length l ->
  (forall i, (i < length l)%nat -> l' !! i = Some (f i)) -> l' = f <$> seq 0 (length l).
Proof using.
  intros Hl Hf. apply list_eq. intros i. rewrite list_lookup_fmap. destruct (decide (i < length l)%nat).
  - rewrite lookup_seq_lt, Hf by done. done.
  - rewrite lookup_seq_ge, lookup_ge_None_2 by lia. done.
Qed.

Lemma shl_implements b l s : implements b l -> 0 <= s -> implements (shl W b s) (take (length l) (replicate (Z.to_nat s) false ++ l)).
Proof using HW.
  intros I Hs. pose proof (implements_size _ _ I) as Sz. destruct I as [[Hwf El] Hn]. destruct (shl_rep W HW b s Hwf Hs) as [Hwf' E]. split.
  - split; [done|]. rewrite <- E. rewrite Sz, Nat2Z.id. apply shift_list; [rewrite length_take, length_app, length_replicate; lia|].
    intros i Hi. rewrite lookup_take_lt by done. destruct (Z.leb_spec s (Z.of_nat i)); cbn [andb].
    + rewrite lookup_app_r; rewrite length_replicate; [|lia]. rewrite El.
      replace (i - Z.to_nat s)%nat with (Z.to_nat (Z.of_nat i - s)) by lia. by rewrite bv_bits_lookup by lia.
    + rewrite lookup_app_l by (rewrite length_replicate; lia). by rewrite lookup_replicate_2 by lia.
  - unfold shl. destruct (Z.leb_spec (size_ b) s); [by apply (reset_implements b l)|].
    unfold updateAllZero. intros Hle. cbn [size_ words_] in *. rewrite clear_size in Hle.
    destruct (Z.leb_spec (size_ b) W); cbn [size_] in Hle; [|lia]. rewrite words_clear by done. by apply Hn.
Qed.

Lemma shr_implements b l s : implements b l -> 0 <= s ->
  implements (shr W b s) (take (length l) (drop (Z.to_nat s) l ++ replicate (length l) false)).
Proof using HW.
  intros I Hs. pose proof (implements_size _ _ I) as Sz. destruct I as [[Hwf El] Hn]. destruct (shr_rep W HW b s Hwf Hs) as [Hwf' E]. split.
  - split; [done|]. rewrite <- E. rewrite Sz, Nat2Z.id. apply shift_list; [rewrite length_take, length_app, length_drop, length_replicate; lia|].
    intros i Hi. rewrite lookup_take_lt by done. destruct (Z.ltb_spec (Z.of_nat i + s) (Z.of_nat (length l))); cbn [andb].
    + rewrite lookup_app_l by (rewrite length_drop; lia). rewrite lookup_drop, El.
      replace (Z.to_nat s + i)%nat with (Z.to_nat (Z.of_nat i + s)) by lia. by rewrite bv_bits_lookup by lia.
    + rewrite lookup_app_r; rewrite length_drop; [|lia]. by rewrite lookup_replicate_2 by lia.
  - unfold shr. destruct (Z.leb_spec (size_ b) s); [by apply (reset_implements b l)|].
    unfold updateAllZero. intros Hle. cbn [size_ words_] in *. destruct (Z.leb_spec (size_ b) W); [by apply Hn|]. cbn [size_] in Hle. lia.
Qed.

Lemma resize_implements b l n : implements b l -> 0 <= n -> (size_ b <= W -> n <= W) ->
  implements (resize W b n) (take (Z.to_nat n) (l ++ replicate (Z.to_nat n) false)).
Proof using HW.
  intros I Hn Hg. pose proof (implements_size _ _ I) as Sz. destruct I as [[Hwf El] Hw].
  destruct (resize_spec W n b HW Hwf Hw Hn) as (Hwf' & Es & Ht). split.
  - split; [done|]. apply bv_bits_ext; rewrite ?Es; [done|rewrite length_take, length_app, length_replicate; lia|]. intros i Hi.
    pose proof (Ht i Hi) as Ei. rewrite (test_spec W HW) in Ei by (done || lia). injection Ei as ->.
    rewrite lookup_take_lt by lia.
    assert ((size_ b <=? W) && (W <? n) = false) as -> by (destruct (Z.leb_spec (size_ b) W), (Z.ltb_spec W n); (done || lia)).
    destruct (Z.ltb_spec i (size_ b)).
    + rewrite lookup_app_l by lia. rewrite (test_spec W HW), El, bv_bits_lookup by (done || lia). done.
    + rewrite lookup_app_r by lia. by rewrite lookup_replicate_2 by lia.
  - unfold resize. destruct (n =? size_ b); [done|]. unfold updateAllZero. intros Hle. cbn [size_ words_] in *. rewrite clear_size in Hle.
    destruct (Z.leb_spec n W); [|cbn [size_] in Hle; lia]. destruct (Z.leb_spec (size_ b) W); rewrite words_clear by done; [by apply Hw|done].
Qed.

Lemma eval_implements e : expr_ok W e -> exists b, bv_eval W e = Some b /\ implements b (bits_eval e).
Proof using HW.
  assert (forall x y, word_ok W x -> word_ok W y -> word_ok W (Z.land x y)) as Land by (intros x y ? [? _]; by apply land_ok).
  induction e as [n|n v|e IH i v|e IH|e1 IH1 e2 IH2|e1 IH1 e2 IH2|e1 IH1 e2 IH2|e IH|e IH s|e IH s|e IH|e IH n];
    cbn [expr_ok bv_eval bits_eval]; intros Hok.
  1,2: eexists; split; [done|].
  - split; [by apply new_rep|]. unfold BitVector_new. destruct (Z.leb_spec n W); [done|]. intros Hle. simpl in Hle. lia.
  - split; [apply (make_rep W HW); tauto|]. unfold BitVector_make, updateAllZero. intros Hle. cbn [size_ words_] in *. rewrite clear_size in Hle.
    destruct (Z.leb_spec n W); [by rewrite words_clear|]. simpl in Hle. lia.
  - destruct Hok as [H1 H2]. destruct (IH H1) as (b & -> & I). bind_simpl. apply set_implements; [done|]. by rewrite (implements_size _ _ I).
  - destruct (IH Hok) as (b & -> & I). eexists. split; [done|]. by apply reset_implements.
  - destruct Hok as (H1 & H2 & Hl). destruct (IH1 H1) as (b & -> & I1), (IH2 H2) as (c & -> & I2). bind_simpl.
    apply (bitwise_implements Z.land andb); try done; [intros; apply Z.land_spec|]. unfold e_size in Hl. lia.
  - destruct Hok as (H1 & H2 & Hl). destruct (IH1 H1) as (b & -> & I1), (IH2 H2) as (c & -> & I2). bind_simpl.
    apply (bitwise_implements Z.lor orb); try done; [by apply lor_ok|intros; apply Z.lor_spec|]. unfold e_size in Hl. lia.
  - destruct Hok as (H1 & H2 & Hl). destruct (IH1 H1) as (b & -> & I1), (IH2 H2) as (c & -> & I2). bind_simpl.
    apply (bitwise_implements Z.lxor xorb); try done; [by apply lxor_ok|intros; apply Z.lxor_spec|]. unfold e_size in Hl. lia.
  - destruct (IH Hok) as (b & -> & I). eexists. split; [done|]. by apply flip_implements.
  - destruct Hok as [H1 H2]. destruct (IH H1) as (b & -> & I). eexists. split; [done|]. by apply shl_implements.
  - destruct Hok as [H1 H2]. destruct (IH H1) as (b & -> & I). eexists. split; [done|]. by apply shr_implements.
  - destruct Hok as [H1 H2]. destruct (IH H1) as (b & -> & I). eexists. split; [done|]. pose proof (implements_size _ _ I) as Sz.
    unfold e_size in H2. destruct I as [[Hwf ->] Hn]. split; [apply (reverse_rep W HW); [done|lia]|].
    assert (size_ (reverse W b) = size_ b) as Es by (unfold reverse; by repeat case_match). intros Hle. lia.
  - destruct Hok as (H1 & H2 & H3). destruct (IH H1) as (b & -> & I). eexists. split; [done|].
    apply resize_implements; [done|done|]. by rewrite (implements_size _ _ I).
Qed.

(** *** The observers *)

Lemma forallb_lookup {A} (f : A -> bool) (l : list A) : forallb f l = true <-> forall i x, l !! i = Some x -> f x = true.
Proof using.
  rewrite forallb_forall. split.
  - intros Hf i x Hx. apply Hf. by apply list_elem_of_In, list_elem_of_lookup_2 with i.
  - intros Hf x Hx. apply list_elem_of_In, list_elem_of_lookup in Hx as [i Hi]. by eapply Hf.
Qed.

Lemma word_full w n : word_ok W w -> 0 <= n <= W -> Z.land w (Z.ones n) = Z.ones n <-> forall m, 0 <= m < n -> Z.testbit w m = true.
Proof using HW.
  intros Hw Hn. split.
  - intros E m Hm. apply (f_equal (fun z => Z.testbit z m)) in E. rewrite Z.land_spec, Z.ones_spec_low, andb_true_r in E by lia. done.
  - intros Hb. apply Z.bits_inj'. intros m Hm. rewrite Z.land_spec. destruct (Z.lt_ge_cases m n).
    + rewrite Z.ones_spec_low, Hb by lia. done.
    + by rewrite Z.ones_spec_high, andb_false_r by lia.
Qed.

Lemma word_ones w : word_ok W w -> Z.land w (Z.ones W) = w.
Proof using HW. intros Hw. rewrite Z.land_ones by lia. by apply Z.mod_small. Qed.

Lemma forallb_range (f : Z -> bool) n : forallb f (range n) = true <-> forall j, 0 <= j < n -> f j = true.
Proof using.
  rewrite forallb_forall. split.
  - intros Hf j Hj. by apply Hf, list_elem_of_In, elem_of_range.
  - intros Hf x Hx. apply list_elem_of_In, elem_of_range in Hx. by apply Hf.
Qed.

(** The whole words and the rest of the last one are full. *)
Lemma all_words ws n : Forall (word_ok W) ws -> W < n -> n <= W * nwords ws ->
  (forall j, 0 <= j < n / W -> (vget ws j =? Z.ones W) = true) /\
    (n mod W <> 0 -> Z.land (vget ws (n / W)) (Z.ones (n mod W)) = Z.ones (n mod W)) <->
  (forall i, 0 <= i < n -> wbit W ws i = true).
Proof using HW.
  intros Hok Hn Hl. pose proof (Z.div_mod n W ltac:(lia)) as E. pose proof (Z.mod_pos_bound n W ltac:(lia)) as Hr.
  assert (forall j, 0 <= j < n / W -> word_ok W (vget ws j)) as Hword by (intros j Hj; apply words_ok_vget; [done|nia]).
  assert (n mod W <> 0 -> word_ok W (vget ws (n / W))) as Hlast by (intros; apply words_ok_vget; [done|nia]). split.
  - intros [Hf Hg] i Hi. destruct (split_pos W HW i (n / W + 1)) as (j & m & -> & Hj & Hm); [nia|]. rewrite (wbit_at W HW) by done.
    destruct (Z.eq_dec j (n / W)) as [->|].
    + apply (word_full _ (n mod W)); [apply Hlast; nia|lia|apply Hg; nia|nia].
    + specialize (Hf j ltac:(lia)). apply Z.eqb_eq in Hf. rewrite Hf. apply Z.ones_spec_low. lia.
  - intros Hb. split.
    + intros j Hj. apply Z.eqb_eq. rewrite <- (word_ones (vget ws j)) by auto. apply word_full; [auto|lia|]. intros m Hm.
      rewrite <- (wbit_at W HW) by done. apply Hb. nia.
    + intros Hz. apply word_full; [auto|lia|]. intros m Hm. rewrite <- (wbit_at W HW) by lia. apply Hb. nia.
Qed.

(** [all], on a vector that is not empty. *)
Lemma all_rep b : bv_wf W b -> 0 < size_ b -> all W b = forallb id (bv_bits W b).
Proof using HW.
  intros [[Hsz Hlen Hok] Hcl _] Hpos. apply Bool.eq_iff_eq_true.
  assert (forallb id (bv_bits W b) = true <-> forall i, 0 <= i < size_ b -> wbit W (words_of W b) i = true) as ->.
  { rewrite forallb_lookup. split.
    - intros Hf i Hi. by apply (Hf (Z.to_nat i)), bv_bits_lookup.
    - intros Hf i x Hx. pose proof (lookup_lt_Some _ _ _ Hx) as Hlt. rewrite length_bv_bits in Hlt.
      pose proof (bv_bits_lookup W b (Z.of_nat i) ltac:(lia)) as E. rewrite Nat2Z.id, Hx in E. injection E as ->. apply Hf. lia. }
  unfold all. replace (Z.shiftl 1 (size_ b mod W) - 1) with (Z.ones (size_ b mod W)) by (unfold Z.ones; rewrite Z.sub_1_r; done).
  destruct (Z.leb_spec (size_ b) W) as [Hle|Hgt].
  - rewrite words_of_single in * by done. assert (word_ok W (single_word_ b)) as Hw by (by inversion Hok).
    assert ((if negb (size_ b mod W =? 0) then Z.ones (size_ b mod W) else Z.ones W) = Z.ones (size_ b)) as ->.
    { destruct (Z.eq_dec (size_ b) W) as [->|]; [by rewrite Z.mod_same by lia|]. rewrite Z.mod_small by lia.
      by rewrite (proj2 (Z.eqb_neq _ 0)) by lia. }
    rewrite Z.eqb_eq. assert (Z.land (single_word_ b) (Z.ones (size_ b)) = single_word_ b) as El.
    { apply Z.bits_inj'. intros m Hm. rewrite Z.land_spec. destruct (Z.lt_ge_cases m (size_ b)).
      - by rewrite Z.ones_spec_low, andb_true_r by lia.
      - rewrite Z.ones_spec_high, andb_false_r by lia. destruct (Z.lt_ge_cases m W); [|by rewrite (word_ok_high W)].
        specialize (Hcl m). change (nwords [single_word_ b]) with 1 in Hcl. rewrite (wbit_one W HW) in Hcl by lia. by rewrite Hcl by lia. }
    rewrite <- El at 1. rewrite word_full by (done || lia). split; intros Hf i Hi; [rewrite (wbit_one W HW) by lia; by apply Hf|].
    specialize (Hf i Hi). by rewrite (wbit_one W HW) in Hf by lia.
  - rewrite words_of_multi in * by done. rewrite <- all_words; [|done|done|lia]. rewrite andb_true_iff, forallb_range.
    apply and_iff_compat_l. destruct (Z.eqb_spec (size_ b mod W) 0) as [Hz|Hz]; simpl; [split; [lia|done]|]. rewrite Z.eqb_eq. tauto.
Qed.

(** [to_ulong] reads the bits as a number. *)
Lemma to_ulong_rep b : bv_wf W b -> size_ b <= 64 ->
  exists v, to_ulong W b = Some v /\ forall k, 0 <= k -> Z.testbit v k = default false (bv_bits W b !! Z.to_nat k).
Proof using HW.
  intros Hwf Hsz. pose proof (wf_shape _ _ Hwf) as [[H0 _] _ _]. unfold to_ulong. rewrite (proj2 (Z.ltb_ge _ _)) by lia. eexists. split; [done|].
  assert (forall n, Z.of_nat n <= size_ b -> forall k, 0 <= k ->
    Z.testbit (fold_left (fun acc i => if default false (test W b i) then Z.lor acc (Z.shiftl 1 i) else acc) (Z.of_nat <$> seq 0 n) 0) k =
      if k <? Z.of_nat n then default false (bv_bits W b !! Z.to_nat k) else false) as Hf.
  { induction n as [|n IH]; intros Hn k Hk; [by rewrite (proj2 (Z.ltb_ge _ _)), Z.bits_0 by lia|].
    rewrite seq_S, fmap_app, fold_left_app. cbn [fmap list_fmap fold_left Nat.add]. specialize (IH ltac:(lia) k Hk).
    rewrite (test_spec W HW) by (done || lia). cbn [default]. pose proof (bv_bits_lookup W b (Z.of_nat n) ltac:(lia)) as En.
    destruct (Z.eq_dec k (Z.of_nat n)) as [->|Hne].
    - rewrite (proj2 (Z.ltb_lt _ _)), En by lia. rewrite (proj2 (Z.ltb_ge (Z.of_nat n) (Z.of_nat n))) in IH by lia. simpl.
      destruct (wbit W _ _); [|done]. rewrite Z.lor_spec, Z.shiftl_1_l, Z.pow2_bits_true, orb_true_r by lia. done.
    - assert ((k <? Z.of_nat (S n)) = (k <? Z.of_nat n)) as -> by (destruct (Z.ltb_spec k (Z.of_nat (S n))), (Z.ltb_spec k (Z.of_nat n)); (done || lia)).
      simpl. destruct (wbit W _ _); [|done]. by rewrite Z.lor_spec, Z.shiftl_1_l, Z.pow2_bits_false, orb_false_r by lia. }
  intros k Hk. unfold range. rewrite Hf by lia. destruct (Z.ltb_spec k (Z.of_nat (Z.to_nat (size_ b)))); [done|].
  by rewrite lookup_ge_None_2 by (rewrite length_bv_bits; lia).
Qed.

(** C37. [BitVector] refines bit lists.  Whatever a client builds from the
    two constructors by [set] and [reset], the operators [&], [|], [^], [<<],
    [>>] and [~], [reverse] and [resize], at any size (one word or many), no
    exception is thrown, the size is that of the bit list, and the observers
    [test], [count], [any], [none], [all] and [to_ulong] answer as the list of
    bits would; in particular unused bits never leak and the cached
    [all_zero_] flag is exact.  [all] is compared on vectors that are not
    empty (it is false on the empty one), [to_ulong] up to 64 bits; positions
    are inside the vector and operands of one size.  Left out are the two
    calls on vectors of at most one word with which the class loses bits:
    [reverse] ([bitvector_reverse_narrow_loses]) and a [resize] past a word
    ([bitvector_resize]).  The comparison operators are not covered. *)
Theorem bitvector_refines_bits e : expr_ok W e ->
  exists b, bv_eval W e = Some b /\ let l := bits_eval e in
    size_ b = e_size e /\ count W b = popcount l /\ any b = existsb id l /\ none b = negb (existsb id l) /\
    (0 < e_size e -> all W b = forallb id l) /\
    (forall i, 0 <= i < e_size e -> test W b i = l !! Z.to_nat i) /\
    (e_size e <= 64 -> exists v, to_ulong W b = Some v /\ forall k, 0 <= k -> Z.testbit v k = default false (l !! Z.to_nat k)).
Proof using HW.
  intros He. destruct (eval_implements e He) as (b & E & I). exists b. split; [done|]. pose proof (implements_size _ _ I) as Sz.
  destruct I as [[Hwf El] _]. unfold e_size. rewrite <- Sz. cbv zeta. rewrite El. pose proof (any_rep W HW b Hwf) as Ha.
  split_and!; [done|by apply count_rep|done| |by apply all_rep| |by apply to_ulong_rep].
  - rewrite <- Ha. unfold any, none. by rewrite negb_involutive.
  - intros i Hi. rewrite bv_bits_lookup by lia. by apply test_spec.
Qed.
End Expr.

(** Sizes of one word and of three, every operator. *)
Lemma bitvector_refines_bits_witness :
  let e := EResize (EReverse (EXor (EShl (EFlip (ESet (ENew 72) 70 true)) 3) (EOr (EShr (EMake 72 5) 1) (EAnd (ENew 72) (EMake 72 9))))) 20 in
  exists b, bv_eval 32 e = Some b /\ size_ b = 20 /\ count 32 b = popcount (bits_eval e) /\ all 32 b = forallb id (bits_eval e) /\
    forall i, 0 <= i < 20 -> test 32 b i = bits_eval e !! Z.to_nat i.
Proof.
  intros e. destruct (bitvector_refines_bits 32 ltac:(lia) e) as (b & E & Hs & Hc & _ & _ & Ha & Ht & _).
  - unfold e, e_size. repeat split; vm_compute; first [discriminate | reflexivity | done].
  - exists b. split; [exact E|]. split; [exact Hs|]. split; [exact Hc|]. split; [apply Ha; reflexivity|exact Ht].
Defined.
