(* ===== verification/Kmu.v ===== *)
(** * Kernel Management Unit — [sim/simx/kmu/kmu.h], [kmu.cpp]

    The KMU holds the kernel descriptor the host programs through DCR
    writes and walks the grid, producing one CTA per [step], cluster by
    cluster.  The file models every operation of the class and shows that a
    launch whose grid is a whole multiple of its cluster enumerates every
    block of the grid exactly once and then stops. *)

From S2P Require Import Prelude.

(** ** Device configuration registers ([VX_types.toml], [dcr_kmu]) *)

Definition VX_DCR_KMU_STARTUP_ADDR0 : Z := 0x010.
Definition VX_DCR_KMU_STARTUP_ADDR1 : Z := 0x011.
Definition VX_DCR_KMU_KERNEL_ENTRY0 : Z := 0x012.
Definition VX_DCR_KMU_KERNEL_ENTRY1 : Z := 0x013.
Definition VX_DCR_KMU_STARTUP_ARG0 : Z := 0x014.
Definition VX_DCR_KMU_STARTUP_ARG1 : Z := 0x015.
Definition VX_DCR_KMU_BLOCK_DIM_X : Z := 0x016.
Definition VX_DCR_KMU_BLOCK_DIM_Y : Z := 0x017.
Definition VX_DCR_KMU_BLOCK_DIM_Z : Z := 0x018.
Definition VX_DCR_KMU_GRID_DIM_X : Z := 0x019.
Definition VX_DCR_KMU_GRID_DIM_Y : Z := 0x01A.
Definition VX_DCR_KMU_GRID_DIM_Z : Z := 0x01B.
Definition VX_DCR_KMU_LMEM_SIZE : Z := 0x01C.
Definition VX_DCR_KMU_BLOCK_SIZE : Z := 0x01D.
Definition VX_DCR_KMU_WARP_STEP_X : Z := 0x01E.
Definition VX_DCR_KMU_WARP_STEP_Y : Z := 0x01F.
Definition VX_DCR_KMU_WARP_STEP_Z : Z := 0x020.
Definition VX_DCR_KMU_CLUSTER_DIM_X : Z := 0x021.
Definition VX_DCR_KMU_CLUSTER_DIM_Y : Z := 0x022.
Definition VX_DCR_KMU_CLUSTER_DIM_Z : Z := 0x023.

(** ** State *)

(** [kmu_req_t]: one CTA handed to a dispatcher. *)
Record kmu_req_t := mk_kmu_req {
  req_PC : Z;
  req_entry : Z;
  req_param : Z;
  req_cta_id : Z;
  req_block_idx : dim3;
  req_block_dim : dim3;
  req_grid_dim : dim3;
  req_lmem_size : Z;
  req_block_size : Z;
  req_warp_step : dim3;
  req_cluster_dim : dim3;
  req_is_first_of_cluster : bool
}.

(** The members of [Kmu] that [dcr_write] sets: the kernel descriptor. *)
Record kmu_desc_t := mk_kmu_desc {
  PC_ : Z;
  entry_ : Z;
  param_ : Z;
  block_dim_ : dim3;
  grid_dim_ : dim3;
  lmem_size_ : Z;
  block_size_ : Z;
  warp_step_ : dim3;
  cluster_dim_ : dim3
}.

(** The whole object: descriptor and per-run progression. *)
Record Kmu := mk_kmu {
  desc : kmu_desc_t;
  running_ : bool;
  cta_id_ : Z;
  group_origin_ : dim3;
  intra_offset_ : dim3
}.

Definition dim3_zero : dim3 := Dim3 0 0 0.
Definition dim3_one : dim3 := Dim3 1 1 1.

(** [Kmu::Kmu] *)
Definition Kmu_new : Kmu :=
  mk_kmu (mk_kmu_desc 0 0 0 dim3_one dim3_one 0 0 dim3_one dim3_one)
    false 0 dim3_zero dim3_zero.

(** [Kmu::on_reset]: only the progression is reset. *)
Definition on_reset (k : Kmu) : Kmu :=
  mk_kmu (desc k) false 0 dim3_zero dim3_zero.

Definition lo_mask : Z := 0xFFFFFFFF.

(** [(reg & ~uint64_t(0xFFFFFFFF)) | value] and
    [(reg & uint64_t(0xFFFFFFFF)) | (uint64_t(value) << 32)]. *)
Definition set_lo (reg value : Z) : Z := Z.lor (Z.land reg (lnot_w 64 lo_mask)) value.
Definition set_hi (reg value : Z) : Z := Z.lor (Z.land reg lo_mask) (u64 (Z.shiftl value 32)).

Definition set_x (d : dim3) v := Dim3 v (dim_y d) (dim_z d).
Definition set_y (d : dim3) v := Dim3 (dim_x d) v (dim_z d).
Definition set_z (d : dim3) v := Dim3 (dim_x d) (dim_y d) v.

Definition with_PC v (d : kmu_desc_t) :=
  mk_kmu_desc v (entry_ d) (param_ d) (block_dim_ d) (grid_dim_ d) (lmem_size_ d)
    (block_size_ d) (warp_step_ d) (cluster_dim_ d).
Definition with_entry v (d : kmu_desc_t) :=
  mk_kmu_desc (PC_ d) v (param_ d) (block_dim_ d) (grid_dim_ d) (lmem_size_ d)
    (block_size_ d) (warp_step_ d) (cluster_dim_ d).
Definition with_param v (d : kmu_desc_t) :=
  mk_kmu_desc (PC_ d) (entry_ d) v (block_dim_ d) (grid_dim_ d) (lmem_size_ d)
    (block_size_ d) (warp_step_ d) (cluster_dim_ d).
Definition with_block_dim v (d : kmu_desc_t) :=
  mk_kmu_desc (PC_ d) (entry_ d) (param_ d) v (grid_dim_ d) (lmem_size_ d)
    (block_size_ d) (warp_step_ d) (cluster_dim_ d).
Definition with_grid_dim v (d : kmu_desc_t) :=
  mk_kmu_desc (PC_ d) (entry_ d) (param_ d) (block_dim_ d) v (lmem_size_ d)
    (block_size_ d) (warp_step_ d) (cluster_dim_ d).
Definition with_lmem_size v (d : kmu_desc_t) :=
  mk_kmu_desc (PC_ d) (entry_ d) (param_ d) (block_dim_ d) (grid_dim_ d) v
    (block_size_ d) (warp_step_ d) (cluster_dim_ d).
Definition with_block_size v (d : kmu_desc_t) :=
  mk_kmu_desc (PC_ d) (entry_ d) (param_ d) (block_dim_ d) (grid_dim_ d) (lmem_size_ d)
    v (warp_step_ d) (cluster_dim_ d).
Definition with_warp_step v (d : kmu_desc_t) :=
  mk_kmu_desc (PC_ d) (entry_ d) (param_ d) (block_dim_ d) (grid_dim_ d) (lmem_size_ d)
    (block_size_ d) v (cluster_dim_ d).
Definition with_cluster_dim v (d : kmu_desc_t) :=
  mk_kmu_desc (PC_ d) (entry_ d) (param_ d) (block_dim_ d) (grid_dim_ d) (lmem_size_ d)
    (block_size_ d) (warp_step_ d) v.

(** The [switch (addr)] of [Kmu::dcr_write]. *)
Definition dcr_write_desc (addr value : Z) (d : kmu_desc_t) : kmu_desc_t :=
  if addr =? VX_DCR_KMU_STARTUP_ADDR0 then with_PC (set_lo (PC_ d) value) d
  else if addr =? VX_DCR_KMU_STARTUP_ADDR1 then with_PC (set_hi (PC_ d) value) d
  else if addr =? VX_DCR_KMU_KERNEL_ENTRY0 then with_entry (set_lo (entry_ d) value) d
  else if addr =? VX_DCR_KMU_KERNEL_ENTRY1 then with_entry (set_hi (entry_ d) value) d
  else if addr =? VX_DCR_KMU_STARTUP_ARG0 then with_param (set_lo (param_ d) value) d
  else if addr =? VX_DCR_KMU_STARTUP_ARG1 then with_param (set_hi (param_ d) value) d
  else if addr =? VX_DCR_KMU_BLOCK_DIM_X then with_block_dim (set_x (block_dim_ d) value) d
  else if addr =? VX_DCR_KMU_BLOCK_DIM_Y then with_block_dim (set_y (block_dim_ d) value) d
  else if addr =? VX_DCR_KMU_BLOCK_DIM_Z then with_block_dim (set_z (block_dim_ d) value) d
  else if addr =? VX_DCR_KMU_GRID_DIM_X then with_grid_dim (set_x (grid_dim_ d) value) d
  else if addr =? VX_DCR_KMU_GRID_DIM_Y then with_grid_dim (set_y (grid_dim_ d) value) d
  else if addr =? VX_DCR_KMU_GRID_DIM_Z then with_grid_dim (set_z (grid_dim_ d) value) d
  else if addr =? VX_DCR_KMU_LMEM_SIZE then with_lmem_size value d
  else if addr =? VX_DCR_KMU_BLOCK_SIZE then with_block_size value d
  else if addr =? VX_DCR_KMU_WARP_STEP_X then with_warp_step (set_x (warp_step_ d) value) d
  else if addr =? VX_DCR_KMU_WARP_STEP_Y then with_warp_step (set_y (warp_step_ d) value) d
  else if addr =? VX_DCR_KMU_WARP_STEP_Z then with_warp_step (set_z (warp_step_ d) value) d
  else if addr =? VX_DCR_KMU_CLUSTER_DIM_X then with_cluster_dim (set_x (cluster_dim_ d) value) d
  else if addr =? VX_DCR_KMU_CLUSTER_DIM_Y then with_cluster_dim (set_y (cluster_dim_ d) value) d
  else if addr =? VX_DCR_KMU_CLUSTER_DIM_Z then with_cluster_dim (set_z (cluster_dim_ d) value) d
  else d.

(** [Kmu::dcr_write] *)
Definition dcr_write (addr value : Z) (k : Kmu) : Kmu :=
  mk_kmu (dcr_write_desc addr value (desc k)) (running_ k) (cta_id_ k)
    (group_origin_ k) (intra_offset_ k).

(** [Kmu::start] *)
Definition start (k : Kmu) : Kmu :=
  let d := desc k in
  let r := (0 <? block_size_ d)
        && (0 <? dim_x (grid_dim_ d)) && (0 <? dim_y (grid_dim_ d)) && (0 <? dim_z (grid_dim_ d))
        && (0 <? dim_x (cluster_dim_ d)) && (0 <? dim_y (cluster_dim_ d))
        && (0 <? dim_z (cluster_dim_ d)) in
  if r then mk_kmu d true 0 dim3_zero dim3_zero
  else mk_kmu d false (cta_id_ k) (group_origin_ k) (intra_offset_ k).

(** [Kmu::launch_delegated] and [Kmu::startup_pc] *)
Definition launch_delegated (k : Kmu) : bool :=
  let g := grid_dim_ (desc k) in
  negb (negb (dim_x g =? 0) && negb (dim_y g =? 0) && negb (dim_z g =? 0)).
Definition startup_pc (k : Kmu) : Z := PC_ (desc k).

(** The request [Kmu::step] fills before it advances. *)
Definition step_req (k : Kmu) : kmu_req_t :=
  let d := desc k in
  let o := group_origin_ k in
  let i := intra_offset_ k in
  {| req_PC := PC_ d; req_entry := entry_ d; req_param := param_ d;
     req_cta_id := cta_id_ k;
     req_block_idx := Dim3 (u32 (dim_x o + dim_x i)) (u32 (dim_y o + dim_y i))
                           (u32 (dim_z o + dim_z i));
     req_block_dim := block_dim_ d; req_grid_dim := grid_dim_ d;
     req_lmem_size := lmem_size_ d; req_block_size := block_size_ d;
     req_warp_step := warp_step_ d; req_cluster_dim := cluster_dim_ d;
     req_is_first_of_cluster := (dim_x i =? 0) && (dim_y i =? 0) && (dim_z i =? 0) |}.

(** The group-origin half of the advance: the new origin, and whether the
    grid is exhausted ([running_ = false]). *)
Definition advance_origin (o c g : dim3) : dim3 * bool :=
  let ox := u32 (dim_x o + dim_x c) in
  if ox =? dim_x g then
    let oy := u32 (dim_y o + dim_y c) in
    if oy =? dim_y g then
      let oz := u32 (dim_z o + dim_z c) in
      if oz =? dim_z g then (Dim3 0 0 0, true)
      else (Dim3 0 0 oz, false)
    else (Dim3 0 oy (dim_z o), false)
  else (Dim3 ox (dim_y o) (dim_z o), false).

(** The advance of [Kmu::step]: intra-cluster offset first, then the group
    origin in (X, Y, Z) order when the inner loop wraps. *)
Definition step_advance (k : Kmu) : Kmu :=
  let d := desc k in
  let c := cluster_dim_ d in
  let i := intra_offset_ k in
  let o := group_origin_ k in
  let id := u32 (cta_id_ k + 1) in
  if negb (u32 (dim_x i + 1) =? dim_x c) then
    mk_kmu d (running_ k) id o (Dim3 (u32 (dim_x i + 1)) (dim_y i) (dim_z i))
  else if negb (u32 (dim_y i + 1) =? dim_y c) then
    mk_kmu d (running_ k) id o (Dim3 0 (u32 (dim_y i + 1)) (dim_z i))
  else if negb (u32 (dim_z i + 1) =? dim_z c) then
    mk_kmu d (running_ k) id o (Dim3 0 0 (u32 (dim_z i + 1)))
  else
    let '(o', last) := advance_origin o c (grid_dim_ d) in
    mk_kmu d (if last then false else running_ k) id o' (Dim3 0 0 0).

(** [Kmu::step]: [None] is the [return false] of an exhausted grid. *)
Definition step (k : Kmu) : option (kmu_req_t * Kmu) :=
  if negb (running_ k) then None else Some (step_req k, step_advance k).

(** The requests of up to [n] successive [step] calls. *)
Fixpoint run (n : nat) (k : Kmu) : list kmu_req_t * Kmu :=
  match n with
  | O => ([], k)
  | S n' =>
    match step k with
    | None => ([], k)
    | Some (r, k') => let '(rs, k'') := run n' k' in (r :: rs, k'')
    end
  end.

(** ** The grid walk

    The walk is a six-digit odometer: three intra-cluster digits below the
    cluster dimensions and three cluster digits below [grid / cluster]. *)

(** What [Queue::enqueue_launch] validates before it programs the KMU: every
    dimension positive and the grid a whole multiple of the cluster. *)
Definition axis_ok (g c : Z) : Prop := 0 < c /\ 0 < g < 2 ^ 32 /\ (c | g).

Definition launch_ok (d : kmu_desc_t) : Prop :=
  0 < block_size_ d
  /\ axis_ok (dim_x (grid_dim_ d)) (dim_x (cluster_dim_ d))
  /\ axis_ok (dim_y (grid_dim_ d)) (dim_y (cluster_dim_ d))
  /\ axis_ok (dim_z (grid_dim_ d)) (dim_z (cluster_dim_ d)).

Definition in_grid (d : kmu_desc_t) (b : dim3) : Prop := dim3_lt b (grid_dim_ d).

(** Position of a cluster digit vector [j] and intra digit vector [i]. *)
Definition odometer (c q i j : dim3) : Z :=
  dim_x i + dim_x c * (dim_y i + dim_y c * (dim_z i + dim_z c *
    (dim_x j + dim_x q * (dim_y j + dim_y q * dim_z j)))).

Definition clusters (d : kmu_desc_t) : dim3 :=
  Dim3 (dim_x (grid_dim_ d) / dim_x (cluster_dim_ d))
       (dim_y (grid_dim_ d) / dim_y (cluster_dim_ d))
       (dim_z (grid_dim_ d) / dim_z (cluster_dim_ d)).

Definition dim3_mul (a b : dim3) : dim3 :=
  Dim3 (dim_x a * dim_x b) (dim_y a * dim_y b) (dim_z a * dim_z b).
Definition dim3_add (a b : dim3) : dim3 :=
  Dim3 (dim_x a + dim_x b) (dim_y a + dim_y b) (dim_z a + dim_z b).

Lemma axis_clusters g c : axis_ok g c -> g = c * (g / c) /\ 0 < g / c.
Proof. intros (Hc & Hg & z & ->). rewrite Z.div_mul by lia. nia. Qed.

Lemma launch_clusters d :
  launch_ok d -> grid_dim_ d = dim3_mul (cluster_dim_ d) (clusters d)
    /\ dim3_lt dim3_zero (cluster_dim_ d) /\ dim3_lt dim3_zero (clusters d).
Proof.
  intros (_ & Hx & Hy & Hz).
  destruct (axis_clusters _ _ Hx), (axis_clusters _ _ Hy), (axis_clusters _ _ Hz).
  unfold axis_ok, dim3_lt, dim3_mul, clusters, dim3_zero in *. simpl.
  destruct (grid_dim_ d); simpl in *. split; [f_equal; assumption | lia].
Qed.

Lemma odometer_inj c q i j i' j' :
  dim3_lt i c -> dim3_lt i' c -> dim3_lt j q -> dim3_lt j' q ->
  odometer c q i j = odometer c q i' j' -> i = i' /\ j = j'.
Proof.
  destruct i, j, i', j'. unfold dim3_lt, odometer. simpl.
  intros (?&?&?) (?&?&?) (?&?&?) (?&?&?) E.
  apply radix_inj in E as [-> E]; [|lia..]. apply radix_inj in E as [-> E]; [|lia..].
  apply radix_inj in E as [-> E]; [|lia..]. apply radix_inj in E as [-> E]; [|lia..].
  apply radix_inj in E as [-> ->]; [|lia..]. done.
Qed.

Lemma odometer_bound c q i j :
  dim3_lt i c -> dim3_lt j q ->
  0 <= odometer c q i j < dim3_volume c * dim3_volume q.
Proof.
  unfold dim3_lt, odometer, dim3_volume. intros (?&?&?) (?&?&?).
  replace (_ * _ * _ * (_ * _ * _)) with
    (dim_x c * (dim_y c * (dim_z c * (dim_x q * (dim_y q * dim_z q))))) by ring.
  repeat (apply radix_bound; [lia|]). lia.
Qed.

(** Every position below the volume is an odometer reading. *)
Lemma odometer_surj c q p :
  dim3_lt dim3_zero c -> dim3_lt dim3_zero q ->
  0 <= p < dim3_volume c * dim3_volume q ->
  exists i j, dim3_lt i c /\ dim3_lt j q /\ p = odometer c q i j.
Proof.
  unfold dim3_lt, dim3_zero, dim3_volume, odometer. simpl. intros Hc Hq Hp.
  set (p1 := p / dim_x c). set (p2 := p1 / dim_y c). set (p3 := p2 / dim_z c).
  set (p4 := p3 / dim_x q). set (p5 := p4 / dim_y q).
  exists (Dim3 (p mod dim_x c) (p1 mod dim_y c) (p2 mod dim_z c)).
  exists (Dim3 (p3 mod dim_x q) (p4 mod dim_y q) p5). simpl.
  assert (0 <= p5 < dim_z q).
  { subst p1 p2 p3 p4 p5. rewrite !Z.div_div by nia. split.
    - apply Z.div_pos; nia.
    - apply Z.div_lt_upper_bound; nia. }
  repeat split; try (apply Z.mod_pos_bound; lia); try lia.
  subst p1 p2 p3 p4 p5.
  rewrite !(Z.add_comm (_ mod _)), <- !Z.div_mod by lia. done.
Qed.

(** The KMU is walking launch [d] and its counters read [i], [j]. *)
Record kmu_at (d : kmu_desc_t) (k : Kmu) (i j : dim3) : Prop := {
  at_desc : desc k = d;
  at_running : running_ k = true;
  at_intra : intra_offset_ k = i;
  at_origin : group_origin_ k = dim3_mul (cluster_dim_ d) j;
  at_id : cta_id_ k = u32 (odometer (cluster_dim_ d) (clusters d) i j);
  at_i : dim3_lt i (cluster_dim_ d);
  at_j : dim3_lt j (clusters d)
}.

Section Walk.
Variable d : kmu_desc_t.
Hypothesis Hd : launch_ok d.

#[local] Abbreviation c := (cluster_dim_ d).
#[local] Abbreviation q := (clusters d).
#[local] Abbreviation pos := (odometer c q).

Lemma u32_succ_id p : u32 (u32 p + 1) = u32 (p + 1).
Proof. unfold u32. rewrite Zplus_mod_idemp_l. done. Qed.

(** One axis of the group origin: the sum neither wraps nor overshoots. *)
Lemma axis_advance g cc j :
  axis_ok g cc -> 0 <= j < g / cc ->
  u32 (cc * j + cc) = cc * (j + 1) /\ (u32 (cc * j + cc) =? g) = (j + 1 =? g / cc).
Proof.
  intros Hax Hj. destruct (axis_clusters _ _ Hax) as [E ?]. destruct Hax as (? & Hg & _).
  generalize dependent (g / cc). intros z E Hz Hj. subst g.
  replace (cc * j + cc) with (cc * (j + 1)) by ring.
  assert (cc * (j + 1) <= cc * z) by (apply Z.mul_le_mono_nonneg_l; lia).
  rewrite u32_small by nia. split; [done|].
  destruct (Z.eqb_spec (cc * (j + 1)) (cc * z)), (Z.eqb_spec (j + 1) z); nia.
Qed.

Lemma intra_advance g cc i :
  axis_ok g cc -> 0 <= i < cc -> u32 (i + 1) = i + 1.
Proof.
  intros (? & ? & Hdiv) Hi. apply Z.divide_pos_le in Hdiv; [|lia].
  apply u32_small. lia.
Qed.

(** The pure odometer: the branches of [step_advance] on the digits. *)
Definition next_digits (i j : dim3) : option (dim3 * dim3) :=
  if negb (dim_x i + 1 =? dim_x c) then Some (Dim3 (dim_x i + 1) (dim_y i) (dim_z i), j)
  else if negb (dim_y i + 1 =? dim_y c) then Some (Dim3 0 (dim_y i + 1) (dim_z i), j)
  else if negb (dim_z i + 1 =? dim_z c) then Some (Dim3 0 0 (dim_z i + 1), j)
  else if negb (dim_x j + 1 =? dim_x q) then Some (Dim3 0 0 0, Dim3 (dim_x j + 1) (dim_y j) (dim_z j))
  else if negb (dim_y j + 1 =? dim_y q) then Some (Dim3 0 0 0, Dim3 0 (dim_y j + 1) (dim_z j))
  else if negb (dim_z j + 1 =? dim_z q) then Some (Dim3 0 0 0, Dim3 0 0 (dim_z j + 1))
  else None.

Lemma next_digits_spec i j :
  dim3_lt i c -> dim3_lt j q ->
  match next_digits i j with
  | Some (i', j') => dim3_lt i' c /\ dim3_lt j' q /\ pos i' j' = pos i j + 1
  | None => pos i j + 1 = dim3_volume c * dim3_volume q
  end.
Proof.
  unfold next_digits, dim3_lt, odometer, dim3_volume.
  destruct c as [cx cy cz], q as [qx qy qz], i as [ix iy iz], j as [jx jy jz]. simpl.
  intros. bool_cases; simpl; subst; (split_and!; try lia; ring) || ring.
Qed.

Lemma step_advance_digits k i j :
  kmu_at d k i j ->
  match next_digits i j with
  | Some (i', j') => step_advance k =
      mk_kmu d true (u32 (pos i j + 1)) (dim3_mul c j') i'
  | None => running_ (step_advance k) = false
  end.
Proof.
  destruct Hd as (_ & Hx & Hy & Hz).
  intros [Ed Er Ei Eo Eid (Hi1 & Hi2 & Hi3) (Hj1 & Hj2 & Hj3)].
  unfold step_advance, advance_origin, next_digits.
  rewrite Ed, Er, Ei, Eo, Eid, u32_succ_id.
  rewrite (intra_advance _ _ _ Hx Hi1), (intra_advance _ _ _ Hy Hi2),
    (intra_advance _ _ _ Hz Hi3).
  destruct (axis_advance _ _ _ Hx Hj1) as [Vx Bx], (axis_advance _ _ _ Hy Hj2) as [Vy By],
    (axis_advance _ _ _ Hz Hj3) as [Vz Bz].
  simpl in Bx, By, Bz, Vx, Vy, Vz |- *. rewrite Bx, By, Bz, Vx, Vy, Vz.
  repeat (case_match; simpl in *; try discriminate; simplify_eq);
    done || (unfold dim3_mul; simpl; repeat f_equal; lia).
Qed.

Lemma step_advance_next k i j :
  kmu_at d k i j ->
  (running_ (step_advance k) = false
     /\ pos i j + 1 = dim3_volume c * dim3_volume q)
  \/ exists i' j', kmu_at d (step_advance k) i' j' /\ pos i' j' = pos i j + 1.
Proof.
  intros Hat. pose proof (step_advance_digits _ _ _ Hat) as E.
  destruct Hat as [_ _ _ _ _ Hi Hj]. pose proof (next_digits_spec i j Hi Hj) as S.
  destruct (next_digits i j) as [[i' j']|]; [right | by left].
  destruct S as (? & ? & P). exists i', j'. rewrite E, P. split; [|done].
  by constructor; simpl; rewrite ?P.
Qed.

(** The request issued when the counters read [i], [j]. *)
Definition req_at (i j : dim3) : kmu_req_t :=
  mk_kmu_req (PC_ d) (entry_ d) (param_ d) (u32 (pos i j)) (dim3_add (dim3_mul c j) i)
    (block_dim_ d) (grid_dim_ d) (lmem_size_ d) (block_size_ d) (warp_step_ d) c
    (bool_decide (i = dim3_zero)).

Lemma axis_block g cc i j :
  axis_ok g cc -> 0 <= i < cc -> 0 <= j < g / cc -> 0 <= cc * j + i < g.
Proof.
  intros Hax Hi Hj. destruct (axis_clusters _ _ Hax) as [E ?].
  generalize dependent (g / cc). intros z Hj E Hz. subst g. nia.
Qed.

Lemma block_in_grid i j :
  dim3_lt i c -> dim3_lt j q -> in_grid d (dim3_add (dim3_mul c j) i).
Proof.
  destruct Hd as (_ & Hx & Hy & Hz). intros (?&?&?) (?&?&?).
  unfold in_grid, dim3_lt. simpl. split_and!; by eapply axis_block.
Qed.

Lemma step_req_at k i j : kmu_at d k i j -> step_req k = req_at i j.
Proof.
  intros [Ed Er Ei Eo Eid Hi Hj]. unfold step_req, req_at.
  rewrite Ed, Ei, Eo, Eid. pose proof (block_in_grid _ _ Hi Hj) as (Gx & Gy & Gz).
  destruct Hd as (_ & (_ & ? & _) & (_ & ? & _) & (_ & ? & _)). simpl in *.
  rewrite (u32_small (dim_x c * _ + _)), (u32_small (dim_y c * _ + _)),
    (u32_small (dim_z c * _ + _)) by lia. f_equal.
  destruct i as [ix iy iz]. simpl. unfold dim3_zero.
  destruct (Z.eqb_spec ix 0), (Z.eqb_spec iy 0), (Z.eqb_spec iz 0);
    simpl; case_bool_decide; congruence.
Qed.

(** With enough fuel the run is finite and issues [pos i j], [pos i j + 1],
    ... up to the last position. *)
Lemma run_at n k i j :
  kmu_at d k i j -> dim3_volume c * dim3_volume q <= pos i j + Z.of_nat n ->
  exists rs k', run n k = (rs, k') /\ running_ k' = false
    /\ pos i j + Z.of_nat (length rs) = dim3_volume c * dim3_volume q
    /\ forall m r, rs !! m = Some r -> exists i' j',
         pos i' j' = pos i j + Z.of_nat m /\ dim3_lt i' c /\ dim3_lt j' q /\ r = req_at i' j'.
Proof.
  revert k i j. induction n as [|n IH]; intros k i j Hat Hn.
  { destruct Hat as [_ _ _ _ _ Hi Hj]. pose proof (odometer_bound _ _ _ _ Hi Hj). lia. }
  simpl. unfold step. rewrite (at_running _ _ _ _ Hat). simpl.
  rewrite (step_req_at _ _ _ Hat).
  assert (H0 : forall r, r = req_at i j -> exists i' j', pos i' j' = pos i j + Z.of_nat 0
    /\ dim3_lt i' c /\ dim3_lt j' q /\ r = req_at i' j').
  { intros r ->. exists i, j. destruct Hat. split_and!; by rewrite ?Z.add_0_r. }
  destruct (step_advance_next _ _ _ Hat) as [[Hstop Hlast] | (i1 & j1 & Hat1 & P1)].
  - exists [req_at i j], (step_advance k). split_and!; [|done|simpl; lia|].
    + destruct n; simpl; [done|]. unfold step. by rewrite Hstop.
    + intros [|m] r E; simpl in E; [|done]. apply H0. congruence.
  - destruct (IH _ _ _ Hat1) as (rs & k' & Erun & ? & Hlen & Hrs); [lia|].
    rewrite Erun. exists (req_at i j :: rs), k'. split_and!; [done|done|simpl; lia|].
    intros [|m] r E; simpl in E; [apply H0; congruence|].
    destruct (Hrs _ _ E) as (i' & j' & P & ?). exists i', j'. rewrite P, P1. split; [lia|done].
Qed.

Lemma start_at k : desc k = d -> kmu_at d (start k) dim3_zero dim3_zero.
Proof.
  intros Ed. unfold start. rewrite Ed.
  destruct (launch_clusters _ Hd) as (_ & Hc & Hq).
  pose proof Hd as (Hb & (?&?&_) & (?&?&_) & (?&?&_)).
  repeat match goal with
  | |- context [0 <? ?x] => rewrite (proj2 (Z.ltb_lt 0 x)) by lia
  end. simpl.
  constructor; simpl; try done.
  - unfold dim3_mul, dim3_zero. simpl. by rewrite !Z.mul_0_r.
  - unfold odometer. simpl. by rewrite !Z.mul_0_r.
Qed.

Lemma volume_grid : dim3_volume c * dim3_volume q = dim3_volume (grid_dim_ d).
Proof.
  destruct (launch_clusters _ Hd) as (-> & _). unfold dim3_volume, dim3_mul. simpl. ring.
Qed.

(** The whole run of a launch. *)
Lemma run_start n k :
  desc k = d -> dim3_volume (grid_dim_ d) <= Z.of_nat n ->
  exists rs k', run n (start k) = (rs, k') /\ running_ k' = false
    /\ Z.of_nat (length rs) = dim3_volume (grid_dim_ d)
    /\ forall m r, rs !! m = Some r -> exists i j,
         pos i j = Z.of_nat m /\ dim3_lt i c /\ dim3_lt j q /\ r = req_at i j.
Proof.
  intros Ed Hn. rewrite <- volume_grid in *.
  assert (P0 : pos dim3_zero dim3_zero = 0) by (unfold odometer; simpl; by rewrite !Z.mul_0_r).
  destruct (run_at n _ _ _ (start_at k Ed)) as (rs & k' & ? & ? & ? & Hrs); [lia|].
  exists rs, k'. split_and!; [done|done|lia|].
  intros m r E. destruct (Hrs m r E) as (i & j & P & ?). exists i, j. split; [lia|done].
Qed.

Lemma block_digits_inj i j i' j' :
  dim3_lt i c -> dim3_lt i' c -> dim3_add (dim3_mul c j) i = dim3_add (dim3_mul c j') i' ->
  i = i' /\ j = j'.
Proof.
  destruct i as [ix iy iz], j as [jx jy jz], i' as [ix' iy' iz'], j' as [jx' jy' jz'].
  unfold dim3_lt, dim3_add, dim3_mul. simpl. intros (?&?&?) (?&?&?) E. injection E as Ex Ey Ez.
  rewrite !(Z.add_comm (dim_x c * _)) in Ex. rewrite !(Z.add_comm (dim_y c * _)) in Ey.
  rewrite !(Z.add_comm (dim_z c * _)) in Ez.
  apply radix_inj in Ex as [-> ->]; [|lia..]. apply radix_inj in Ey as [-> ->]; [|lia..].
  apply radix_inj in Ez as [-> ->]; [|lia..]. done.
Qed.

Lemma block_digits b :
  in_grid d b -> exists i j, dim3_lt i c /\ dim3_lt j q /\ b = dim3_add (dim3_mul c j) i.
Proof.
  destruct Hd as (_ & (?&?&?) & (?&?&?) & (?&?&?)). intros (?&?&?).
  exists (Dim3 (dim_x b mod dim_x c) (dim_y b mod dim_y c) (dim_z b mod dim_z c)).
  exists (Dim3 (dim_x b / dim_x c) (dim_y b / dim_y c) (dim_z b / dim_z c)).
  unfold dim3_lt, dim3_add, dim3_mul. simpl.
  split_and!; try (apply Z.mod_pos_bound; lia); try (apply Z.div_pos; lia);
    try (apply Z.div_lt_upper_bound; [lia|]; rewrite <- Z.divide_div_mul_exact, Z.mul_comm, Z.div_mul by (lia || done); lia).
  rewrite <- !Z.div_mod by lia. by destruct b.
Qed.
End Walk.

(** The run of a launch enumerates its grid. *)
Lemma run_enumerates d k n :
  launch_ok d -> desc k = d -> dim3_volume (grid_dim_ d) <= Z.of_nat n ->
  let blocks := req_block_idx <$> (run n (start k)).1 in
  running_ (run n (start k)).2 = false
  /\ Z.of_nat (length blocks) = dim3_volume (grid_dim_ d)
  /\ NoDup blocks
  /\ forall b, b ∈ blocks <-> in_grid d b.
Proof.
  intros Hok <- Hn.
  destruct (run_start _ Hok n k eq_refl Hn) as (rs & k' & -> & Hstop & Hlen & Hrs).
  simpl. split_and!; [done | by rewrite length_fmap | |].
  - apply NoDup_alt. intros m1 m2 b E1 E2.
    apply list_lookup_fmap_Some in E1 as (r1 & -> & E1), E2 as (r2 & Eb & E2).
    destruct (Hrs _ _ E1) as (i1 & j1 & P1 & Hi1 & Hj1 & ->).
    destruct (Hrs _ _ E2) as (i2 & j2 & P2 & Hi2 & Hj2 & ->).
    apply block_digits_inj in Eb as [-> ->]; [lia | done..].
  - intros b. split.
    + intros (r & -> & Hin)%list_elem_of_fmap. apply list_elem_of_lookup in Hin as [m E].
      destruct (Hrs _ _ E) as (i & j & _ & Hi & Hj & ->). by apply block_in_grid.
    + intros Hb. destruct (block_digits _ Hok b Hb) as (i & j & Hi & Hj & ->).
      pose proof (odometer_bound _ _ _ _ Hi Hj) as Hp. rewrite volume_grid in Hp by done.
      destruct (lookup_lt_is_Some_2 rs (Z.to_nat (odometer (cluster_dim_ (desc k)) (clusters (desc k)) i j)))
        as [r E]; [lia|].
      destruct (Hrs _ _ E) as (i' & j' & P & Hi' & Hj' & ->).
      rewrite Z2Nat.id in P by lia. apply odometer_inj in P as [-> ->]; [|done..].
      apply list_elem_of_fmap. exists (req_at (desc k) i j). split; [done|].
      by apply list_elem_of_lookup_2 in E.
Qed.

(** Every request carries the launch's descriptor. *)
Lemma run_reqs d k n r :
  launch_ok d -> desc k = d -> dim3_volume (grid_dim_ d) <= Z.of_nat n ->
  r ∈ (run n (start k)).1 -> exists i j, r = req_at d i j.
Proof.
  intros Hok Hk Hn Hr. destruct (run_start _ Hok n k Hk Hn) as (rs & k' & E & _ & _ & Hrs).
  rewrite E in Hr. apply list_elem_of_lookup in Hr as [m Hm].
  destruct (Hrs _ _ Hm) as (i & j & _ & _ & _ & ->). by exists i, j.
Qed.

(** ** Properties *)

Definition demo_desc : kmu_desc_t :=
  mk_kmu_desc 0x80000000 0x80000100 0x10000 (Dim3 4 1 1) (Dim3 4 2 1) 256 4 (Dim3 0 1 0) (Dim3 2 2 1).
Definition demo_kmu : Kmu := mk_kmu demo_desc false 7 (Dim3 9 9 9) (Dim3 9 9 9).

Lemma demo_launch_ok : launch_ok (desc demo_kmu).
Proof.
  unfold launch_ok, axis_ok. simpl.
  split_and!; try lia; [exists 2 | exists 1 | exists 1]; lia.
Defined.

(** Linear index of the cluster a block belongs to. *)
Definition cluster_index (d : kmu_desc_t) (b : dim3) : Z :=
  let c := cluster_dim_ d in let q := clusters d in
  dim_x b / dim_x c + dim_x q * (dim_y b / dim_y c + dim_y q * (dim_z b / dim_z c)).

Lemma div_digit m a b : 0 <= a < m -> (m * b + a) / m = b.
Proof. intros. rewrite Z.mul_comm, Z.div_add_l by lia. rewrite Z.div_small by lia. lia. Qed.

(** The cluster digits are the high part of a position, the intra digits the
    low part. *)
Lemma odometer_split c q i j :
  dim3_lt i c ->
  odometer c q i j / dim3_volume c = dim_x j + dim_x q * (dim_y j + dim_y q * dim_z j)
  /\ (odometer c q i j mod dim3_volume c = 0 <-> i = dim3_zero).
Proof.
  intros (?&?&?). unfold odometer, dim3_volume.
  set (hi := dim_x j + _). set (lo := dim_x i + dim_x c * (dim_y i + dim_y c * dim_z i)).
  assert (0 <= lo < dim_x c * dim_y c * dim_z c).
  { subst lo. rewrite <- Z.mul_assoc. repeat (apply radix_bound; [lia|]). lia. }
  replace (dim_x i + _) with (dim_x c * dim_y c * dim_z c * hi + lo) by (subst lo hi; ring).
  split; [by apply div_digit|].
  rewrite Z.mul_comm, Z.add_comm, Z.mod_add, Z.mod_small by lia. subst lo.
  destruct i as [ix iy iz]. unfold dim3_zero. simpl in *.
  split; [intros E | intros E; injection E as -> -> ->; lia].
  assert (ix + dim_x c * (iy + dim_y c * iz) = 0 + dim_x c * (0 + dim_y c * 0)) as E' by lia.
  apply radix_inj in E' as [-> E']; [|lia..]. apply radix_inj in E' as [-> ->]; [|lia..]. done.
Qed.

(** The CTAs of one cluster are issued back to back: the [m]-th request
    carries [cta_id = m], belongs to cluster number [m / volume], and raises
    [is_first_of_cluster] exactly when [m] is a multiple of the cluster
    volume.  The dispatcher's reservation of consecutive LMEM slots relies on
    it. *)
Theorem kmu_clusters_contiguous (k : Kmu) (n m : nat) (r : kmu_req_t)
    (Hok : launch_ok (desc k))
    (Hn : dim3_volume (grid_dim_ (desc k)) <= Z.of_nat n)
    (Hr : (run n (start k)).1 !! m = Some r) :
  let V := dim3_volume (cluster_dim_ (desc k)) in
  req_cta_id r = u32 (Z.of_nat m)
  /\ cluster_index (desc k) (req_block_idx r) = Z.of_nat m / V
  /\ req_is_first_of_cluster r = (Z.of_nat m mod V =? 0).
Proof.
  destruct (run_start _ Hok n k eq_refl Hn) as (rs & k' & E & _ & _ & Hrs).
  rewrite E in Hr. destruct (Hrs _ _ Hr) as (i & j & P & Hi & Hj & ->).
  destruct (odometer_split _ (clusters (desc k)) i j Hi) as [Hdiv Hmod].
  rewrite <- P. simpl. split_and!; [done| |].
  - rewrite Hdiv. unfold cluster_index. simpl. destruct Hi as (?&?&?).
    by rewrite !div_digit.
  - case_bool_decide as D; symmetry; [by apply Z.eqb_eq, Hmod | by apply Z.eqb_neq; rewrite Hmod].
Qed.

Lemma kmu_clusters_contiguous_witness :
  exists r, (run 20 (start demo_kmu)).1 !! 4%nat = Some r
    /\ req_cta_id r = 4 /\ cluster_index demo_desc (req_block_idx r) = 1
    /\ req_is_first_of_cluster r = true.
Proof.
  eexists. split; [vm_compute; reflexivity|].
  apply (kmu_clusters_contiguous demo_kmu 20 4 _ demo_launch_ok);
    [vm_compute; discriminate | vm_compute; reflexivity].
Defined.

(** The digits of a block: its cluster, its place inside the cluster, and its
    rank when the clusters are counted in (X, Y, Z) order and the blocks of a
    cluster, in the same order, within it. *)
Definition block_cluster (d : kmu_desc_t) (b : dim3) : dim3 :=
  let c := cluster_dim_ d in Dim3 (dim_x b / dim_x c) (dim_y b / dim_y c) (dim_z b / dim_z c).
Definition block_offset (d : kmu_desc_t) (b : dim3) : dim3 :=
  let c := cluster_dim_ d in Dim3 (dim_x b mod dim_x c) (dim_y b mod dim_y c) (dim_z b mod dim_z c).
Definition block_rank (d : kmu_desc_t) (b : dim3) : Z :=
  odometer (cluster_dim_ d) (clusters d) (block_offset d b) (block_cluster d b).

Lemma mod_digit m a b : 0 <= a < m -> (m * b + a) mod m = a.
Proof. intros. rewrite Z.mul_comm, Z.add_comm, Z.mod_add, Z.mod_small by lia. done. Qed.

Lemma block_digits_of d i j :
  dim3_lt i (cluster_dim_ d) ->
  block_cluster d (dim3_add (dim3_mul (cluster_dim_ d) j) i) = j
  /\ block_offset d (dim3_add (dim3_mul (cluster_dim_ d) j) i) = i.
Proof.
  intros (?&?&?). unfold block_cluster, block_offset. simpl. destruct i, j; simpl in *.
  by rewrite !div_digit, !mod_digit.
Qed.

(** The [m]-th request of a launch. *)
Lemma run_in_order d k n m r :
  launch_ok d -> desc k = d -> dim3_volume (grid_dim_ d) <= Z.of_nat n -> (run n (start k)).1 !! m = Some r ->
  let b := req_block_idx r in
  block_rank d b = Z.of_nat m
  /\ r = mk_kmu_req (PC_ d) (entry_ d) (param_ d) (u32 (Z.of_nat m)) b (block_dim_ d) (grid_dim_ d) (lmem_size_ d)
          (block_size_ d) (warp_step_ d) (cluster_dim_ d) (bool_decide (block_offset d b = dim3_zero)).
Proof.
  intros Hok Hk Hn Hr. destruct (run_start _ Hok n k Hk Hn) as (rs & k' & E & _ & _ & Hrs).
  rewrite E in Hr. destruct (Hrs _ _ Hr) as (i & j & P & Hi & Hj & ->). cbn [req_at req_block_idx].
  destruct (block_digits_of d i j Hi) as [Ej Ei]. unfold block_rank. rewrite Ej, Ei, P. split; [done|].
  unfold req_at. by rewrite P.
Qed.

(** C12. A launch of positive dimensions whose grid is a whole multiple of its
    cluster ([launch_ok]) issues the grid in cluster-major order and then
    stops.  With at least as many [step] calls as the grid has blocks the walk
    ends with [running_] false; a block is issued if and only if it lies in
    the grid, and once; the [m]-th request is the block of rank [m] when the
    clusters are counted in (X, Y, Z) order and the blocks of a cluster in the
    same order within it; and it carries the number [m] (32 bits), the
    descriptor of the launch, and the first-of-cluster flag exactly at the
    first block of a cluster. *)
Theorem kmu_enumerates_grid (k : Kmu) (n : nat)
    (Hok : launch_ok (desc k))
    (Hn : dim3_volume (grid_dim_ (desc k)) <= Z.of_nat n) :
  let d := desc k in
  let reqs := (run n (start k)).1 in
  running_ (run n (start k)).2 = false
  /\ Z.of_nat (length reqs) = dim3_volume (grid_dim_ d)
  /\ NoDup (req_block_idx <$> reqs)
  /\ (forall b, b ∈ (req_block_idx <$> reqs) <-> in_grid d b)
  /\ (forall m r, reqs !! m = Some r ->
        let b := req_block_idx r in
        block_rank d b = Z.of_nat m
        /\ r = mk_kmu_req (PC_ d) (entry_ d) (param_ d) (u32 (Z.of_nat m)) b (block_dim_ d) (grid_dim_ d) (lmem_size_ d)
                (block_size_ d) (warp_step_ d) (cluster_dim_ d) (bool_decide (block_offset d b = dim3_zero))).
Proof.
  intros d reqs. destruct (run_enumerates d k n Hok eq_refl Hn) as (? & Hlen & ? & ?). rewrite length_fmap in Hlen.
  split_and!; try done. intros m r Hr. by apply (run_in_order d k n).
Qed.

(** A grid of 4 by 2 blocks in clusters of 2 by 2: the blocks of the left
    cluster come before those of the right one. *)
Lemma kmu_enumerates_grid_witness :
  NoDup (req_block_idx <$> (run 20 (start demo_kmu)).1)
  /\ (forall b, b ∈ (req_block_idx <$> (run 20 (start demo_kmu)).1) <-> in_grid demo_desc b)
  /\ (forall r, (run 20 (start demo_kmu)).1 !! 2%nat = Some r -> block_rank demo_desc (req_block_idx r) = 2)
  /\ req_block_idx <$> (run 20 (start demo_kmu)).1 =
       [Dim3 0 0 0; Dim3 1 0 0; Dim3 0 1 0; Dim3 1 1 0; Dim3 2 0 0; Dim3 3 0 0; Dim3 2 1 0; Dim3 3 1 0].
Proof.
  destruct (kmu_enumerates_grid demo_kmu 20 demo_launch_ok) as (_ & _ & H1 & H2 & H3); [vm_compute; discriminate|].
  split_and!; [exact H1 | exact H2 | intros r Hr; exact (proj1 (H3 2%nat r Hr)) | vm_compute; reflexivity].
Defined.
