(* ===== verification/Cta.v ===== *)
(** * CTA dispatcher — [sim/simx/cta_dispatcher.h], [cta_dispatcher.cpp]

    The dispatcher fetches CTAs from the KMU, admits each into a local-memory
    slot, and hands out its warps rank by rank to free warp slots of the
    core.  The file models the whole class and shows the slot accounting
    invariant, the placement of local memory, and that the warps of a CTA
    cover its threads exactly once. *)

From S2P Require Import Prelude Mask Kmu.

(** [cta_warp_record_t]: what one dispatched warp starts with. *)
Record cta_warp_record_t (M : Type) := mk_cta_warp_record {
  rec_do_init : bool;
  rec_PC : Z;
  rec_entry : Z;
  rec_tmask : M;
  rec_mscratch : Z;
  rec_cta_id : Z;
  rec_cta_rank : Z;
  rec_cta_size : Z;
  rec_thread_idx : dim3;
  rec_block_idx : dim3;
  rec_block_dim : dim3;
  rec_grid_dim : dim3;
  rec_param : Z;
  rec_lmem_addr : Z;
  rec_cluster_size : Z
}.
Arguments mk_cta_warp_record {M}.
Arguments rec_do_init {M}. Arguments rec_PC {M}. Arguments rec_entry {M}.
Arguments rec_tmask {M}. Arguments rec_mscratch {M}. Arguments rec_cta_id {M}.
Arguments rec_cta_rank {M}. Arguments rec_cta_size {M}. Arguments rec_thread_idx {M}.
Arguments rec_block_idx {M}. Arguments rec_block_dim {M}. Arguments rec_grid_dim {M}.
Arguments rec_param {M}. Arguments rec_lmem_addr {M}. Arguments rec_cluster_size {M}.

Record CtaDispatcher := mk_cta {
  slot_rem_warps_ : list Z;
  wid_to_slot_ : list Z;
  tail_slot_ : Z;
  has_cta_ : bool;
  cur_slot_ : Z;
  cta_ : kmu_req_t;
  cta_size_ : Z;
  rank_ : Z;
  block_size_rem_ : Z;
  thread_idx_ : dim3;
  lmem_addr_ : Z;
  has_pending_ : bool;
  pending_cta_ : kmu_req_t;
  cur_kernel_pc_ : Z;
  warp_init_mask_ : list bool
}.

Section CtaDispatcher.
Context `{VxConfig} `{HM : MaskSpec M}.

#[local] Abbreviation nwarps := (Z.to_nat NUM_WARPS).

(** A [kmu_req_t] member before the first assignment. *)
Definition req_none : kmu_req_t :=
  mk_kmu_req 0 0 0 0 dim3_zero dim3_zero dim3_zero 0 0 dim3_zero dim3_zero false.

(** [CtaDispatcher::CtaDispatcher]; slot [NUM_WARPS] means unassigned. *)
Definition CtaDispatcher_new : CtaDispatcher :=
  mk_cta (replicate nwarps 0) (replicate nwarps NUM_WARPS) 0 false 0 req_none 0 0 0
    dim3_zero 0 false req_none 0 (replicate nwarps false).

(** [CtaDispatcher::on_reset] *)
Definition on_reset (d : CtaDispatcher) : CtaDispatcher :=
  mk_cta (replicate nwarps 0) (replicate nwarps NUM_WARPS) 0 false (cur_slot_ d) (cta_ d)
    (cta_size_ d) (rank_ d) (block_size_rem_ d) (thread_idx_ d) (lmem_addr_ d)
    false (pending_cta_ d) 0 (replicate nwarps false).

(** [1u << VX_CFG_LMEM_LOG_SIZE] *)
Definition lmem_capacity_ : Z := u32 (Z.shiftl 1 LMEM_LOG_SIZE).

(** [CtaDispatcher::usable_slots] *)
Definition usable_slots (stride : Z) : Z :=
  if stride =? 0 then NUM_WARPS
  else
    let fit := lmem_capacity_ / stride in
    let fit := if NUM_WARPS <? fit then NUM_WARPS else fit in
    if fit =? 0 then 1 else fit.

(** Per-CTA LMEM size rounded up to a [MEM_BLOCK_SIZE] multiple. *)
Definition lmem_stride (lmem_size : Z) : Z :=
  Z.land (u32 (lmem_size + MEM_BLOCK_SIZE - 1)) (lnot_w 32 (MEM_BLOCK_SIZE - 1)).

(** Number of CTAs of a cluster, computed in [uint32_t]. *)
Definition cluster_volume (c : dim3) : Z := u32 (u32 (dim_x c * dim_y c) * dim_z c).

(** [slot_rem_warps_[base + i] == 0] for every [i < k]. *)
Definition window_free (slots : list Z) (base k : Z) : bool :=
  forallb (fun i => vget slots (base + i) =? 0) (range k).

(** Slot choice of [step]: [None] is an early [return false]. *)
Definition choose_slot (slots : list Z) (tail max_slots : Z) (p : kmu_req_t) : option Z :=
  let base := tail in
  if req_is_first_of_cluster p then
    let k := cluster_volume (req_cluster_dim p) in
    let k := if k =? 0 then 1 else k in
    let base := if max_slots <? u32 (base + k) then 0 else base in
    let k := if max_slots <? k then max_slots else k in
    if window_free slots base k then Some base else None
  else if vget slots base =? 0 then Some base else None.

(** The body of [if (!has_cta_)] once a pending CTA is present: admission
    of the pending CTA.  Only [tail_slot_] changes when it must wait. *)
Definition admit_cta (d : CtaDispatcher) : CtaDispatcher * bool :=
  let p := pending_cta_ d in
  let stride := lmem_stride (req_lmem_size p) in
  let max_slots := usable_slots stride in
  let tail := if max_slots <=? tail_slot_ d then 0 else tail_slot_ d in
  match choose_slot (slot_rem_warps_ d) tail max_slots p with
  | None =>
    (mk_cta (slot_rem_warps_ d) (wid_to_slot_ d) tail (has_cta_ d) (cur_slot_ d) (cta_ d)
       (cta_size_ d) (rank_ d) (block_size_rem_ d) (thread_idx_ d) (lmem_addr_ d)
       (has_pending_ d) p (cur_kernel_pc_ d) (warp_init_mask_ d), false)
  | Some base =>
    let transition := negb (req_PC p =? cur_kernel_pc_ d) in
    let cta_size := u32 (req_block_size p + NUM_THREADS - 1) / NUM_THREADS in
    (mk_cta (vset (slot_rem_warps_ d) base cta_size) (wid_to_slot_ d)
       ((base + 1) mod max_slots) true base p cta_size 0 (req_block_size p) dim3_zero
       (u64 (LMEM_BASE_ADDR + base * stride)) false p
       (if transition then word (req_PC p) else cur_kernel_pc_ d)
       (if transition then replicate nwarps false else warp_init_mask_ d), true)
  end.

(** [block_size_rem_ >= num_threads_ ? num_threads_ : block_size_rem_] *)
Definition active_threads (d : CtaDispatcher) : Z :=
  if NUM_THREADS <=? block_size_rem_ d then NUM_THREADS else block_size_rem_ d.

(** [thread_idx] advance with 3-D carry propagation. *)
Definition advance_thread_idx (t : dim3) (p : kmu_req_t) : dim3 :=
  let next_x := u32 (dim_x t + dim_x (req_warp_step p)) in
  let wrap_x := dim_x (req_block_dim p) <=? next_x in
  let next_y := u32 (dim_y t + dim_y (req_warp_step p) + (if wrap_x then 1 else 0)) in
  let wrap_y := dim_y (req_block_dim p) <=? next_y in
  Dim3 (if wrap_x then next_x - dim_x (req_block_dim p) else next_x)
       (if wrap_y then next_y - dim_y (req_block_dim p) else next_y)
       (u32 (dim_z t + dim_z (req_warp_step p) + (if wrap_y then 1 else 0))).

(** The record [next_warp] fills. *)
Definition warp_record (d : CtaDispatcher) (do_init : bool) : cta_warp_record_t M :=
  let p := cta_ d in
  {| rec_do_init := do_init;
     rec_PC := word (req_PC p);
     rec_entry := word (req_entry p);
     rec_tmask := m_fill (m_new NUM_THREADS) (Z.to_nat (active_threads d)) (fun _ => true);
     rec_mscratch := word (req_param p);
     rec_cta_id := cur_slot_ d;
     rec_cta_rank := rank_ d;
     rec_cta_size := cta_size_ d;
     rec_thread_idx := thread_idx_ d;
     rec_block_idx := req_block_idx p;
     rec_block_dim := req_block_dim p;
     rec_grid_dim := req_grid_dim p;
     rec_param := req_param p;
     rec_lmem_addr := lmem_addr_ d;
     rec_cluster_size := cluster_volume (req_cluster_dim p) |}.

(** [CtaDispatcher::next_warp] *)
Definition next_warp (d : CtaDispatcher) (do_init : bool)
    : option (cta_warp_record_t M * CtaDispatcher) :=
  if negb (has_cta_ d) then None
  else
    let rank := u32 (rank_ d + 1) in
    Some (warp_record d do_init,
      mk_cta (slot_rem_warps_ d) (wid_to_slot_ d) (tail_slot_ d)
        (if cta_size_ d <=? rank then false else has_cta_ d)
        (cur_slot_ d) (cta_ d) (cta_size_ d) rank
        (block_size_rem_ d - active_threads d)
        (advance_thread_idx (thread_idx_ d) (cta_ d)) (lmem_addr_ d)
        (has_pending_ d) (pending_cta_ d) (cur_kernel_pc_ d) (warp_init_mask_ d)).

(** Lowest-index warp slot that is not active. *)
Definition free_wid (active : gset Z) : option Z :=
  find (fun wid => bool_decide (wid ∉ active)) (range NUM_WARPS).

(** The tail of [step]: one warp rank into the lowest free warp slot. *)
Definition dispatch_warp (d : CtaDispatcher) (active : gset Z)
    : option (Z * cta_warp_record_t M) * CtaDispatcher :=
  match free_wid active with
  | None => (None, d)
  | Some wid =>
    match next_warp d (negb (vget (warp_init_mask_ d) wid)) with
    | None => (None, d)
    | Some (rec, d') =>
      (Some (wid, rec),
       mk_cta (slot_rem_warps_ d') (vset (wid_to_slot_ d') wid (cur_slot_ d')) (tail_slot_ d')
         (has_cta_ d') (cur_slot_ d') (cta_ d') (cta_size_ d') (rank_ d') (block_size_rem_ d')
         (thread_idx_ d') (lmem_addr_ d') (has_pending_ d') (pending_cta_ d')
         (cur_kernel_pc_ d') (vset (warp_init_mask_ d') wid true))
    end
  end.

Definition with_pending (d : CtaDispatcher) (p : kmu_req_t) : CtaDispatcher :=
  mk_cta (slot_rem_warps_ d) (wid_to_slot_ d) (tail_slot_ d) (has_cta_ d) (cur_slot_ d)
    (cta_ d) (cta_size_ d) (rank_ d) (block_size_rem_ d) (thread_idx_ d) (lmem_addr_ d)
    true p (cur_kernel_pc_ d) (warp_init_mask_ d).

(** [CtaDispatcher::step]: the dispatched warp if any, and the new states
    of the dispatcher and of the KMU it pulls from. *)
Definition step (d : CtaDispatcher) (k : Kmu) (active : gset Z)
    : option (Z * cta_warp_record_t M) * CtaDispatcher * Kmu :=
  if has_cta_ d then (dispatch_warp d active, k)
  else
    let fetched :=
      if has_pending_ d then Some (d, k)
      else match Kmu.step k with
           | None => None
           | Some (req, k') => Some (with_pending d req, k')
           end in
    match fetched with
    | None => (None, d, k)
    | Some (d1, k1) =>
      match admit_cta d1 with
      | (d2, false) => (None, d2, k1)
      | (d2, true) => (dispatch_warp d2 active, k1)
      end
    end.

(** [CtaDispatcher::warp_done]; [None] is the failed
    [assert(slot_rem_warps_[slot] > 0)]. *)
Definition warp_done (d : CtaDispatcher) (wid : Z) : option CtaDispatcher :=
  let slot := vget (wid_to_slot_ d) wid in
  if NUM_WARPS <=? slot then Some d
  else if vget (slot_rem_warps_ d) slot <=? 0 then None
  else Some
    (mk_cta (vset (slot_rem_warps_ d) slot (vget (slot_rem_warps_ d) slot - 1))
       (vset (wid_to_slot_ d) wid NUM_WARPS) (tail_slot_ d) (has_cta_ d) (cur_slot_ d) (cta_ d)
       (cta_size_ d) (rank_ d) (block_size_rem_ d) (thread_idx_ d) (lmem_addr_ d)
       (has_pending_ d) (pending_cta_ d) (cur_kernel_pc_ d) (warp_init_mask_ d)).

(** [CtaDispatcher::running] *)
Definition running (d : CtaDispatcher) (k : Kmu) : bool :=
  has_cta_ d || has_pending_ d || running_ k.
End CtaDispatcher.

(** ** The dispatcher among its clients

    [Scheduler::schedule] calls [step] with the active warps and activates
    the warp it returns; [Scheduler::setTmask] with an empty mask deactivates
    a warp and calls [warp_done]; [wspawn] and the fragment distributor
    activate warps the dispatcher does not know; the processor programs and
    starts the KMU.  [sys_live] records, for every live dispatched warp, the
    record it was started with. *)

Inductive sys_event :=
| EvLaunch (desc : kmu_desc_t)
| EvDispatch
| EvSpawn (wids : gset Z)
| EvExit (wid : Z).

Record cta_sys (M : Type) := mk_sys {
  sys_d : CtaDispatcher;
  sys_k : Kmu;
  sys_active : gset Z;
  sys_live : gmap Z (cta_warp_record_t M)
}.
Arguments mk_sys {M}. Arguments sys_d {M}. Arguments sys_k {M}.
Arguments sys_active {M}. Arguments sys_live {M}.

Section System.
Context `{VxConfig} `{HM : MaskSpec M}.

Definition sys_init : cta_sys M := mk_sys CtaDispatcher_new Kmu_new ∅ ∅.

(** The scheduler's reaction to the dispatcher's answer. *)
Definition sys_after (s : cta_sys M) (o : option (Z * cta_warp_record_t M))
    (d : CtaDispatcher) (k : Kmu) : cta_sys M :=
  match o with
  | None => mk_sys d k (sys_active s) (sys_live s)
  | Some (wid, rec) => mk_sys d k ({[wid]} ∪ sys_active s) (<[wid := rec]> (sys_live s))
  end.

(** One event; [None] is a failed assertion of the dispatcher. *)
Definition sys_exec (s : cta_sys M) (e : sys_event) : option (cta_sys M) :=
  match e with
  | EvLaunch desc =>
    Some (mk_sys (sys_d s) (start (mk_kmu desc (running_ (sys_k s)) (cta_id_ (sys_k s))
      (group_origin_ (sys_k s)) (intra_offset_ (sys_k s)))) (sys_active s) (sys_live s))
  | EvDispatch =>
    let '(o, d, k) := step (sys_d s) (sys_k s) (sys_active s) in
    Some (sys_after s o d k)
  | EvSpawn wids => Some (mk_sys (sys_d s) (sys_k s) (wids ∪ sys_active s) (sys_live s))
  | EvExit wid =>
    d ← warp_done (sys_d s) wid;
    Some (mk_sys d (sys_k s) (sys_active s ∖ {[wid]}) (delete wid (sys_live s)))
  end.

Fixpoint sys_run (es : list sys_event) (s : cta_sys M) : option (cta_sys M) :=
  match es with
  | [] => Some s
  | e :: es' => s' ← sys_exec s e; sys_run es' s'
  end.
End System.

(** ** Slot accounting and LMEM placement *)

Section Accounting.
Context `{Hcfg : VxConfigOk} `{HM : MaskSpec M}.

(** [Some l] when the kernels of the run share the LMEM size [l]; the
    accounting of slots does not depend on it, the placement does. *)
Variable L : option Z.

Definition same_size (size : Z) : Prop := forall l, L = Some l -> size = l.

Definition desc_ok (d : kmu_desc_t) : Prop :=
  same_size (lmem_size_ d) /\ 0 <= block_size_ d /\ block_size_ d + NUM_THREADS <= 2 ^ 32.

Definition event_ok (e : sys_event) : Prop :=
  match e with
  | EvLaunch d => desc_ok d
  | EvExit wid => 0 <= wid < NUM_WARPS
  | _ => True
  end.

Definition req_ok (r : kmu_req_t) : Prop :=
  same_size (req_lmem_size r) /\ 0 < req_block_size r /\ req_block_size r + NUM_THREADS <= 2 ^ 32.

(** Ranks of the in-flight CTA that slot [s] still waits for. *)
Definition inflight (d : CtaDispatcher) (s : Z) : Z :=
  if has_cta_ d && (cur_slot_ d =? s) then cta_size_ d - rank_ d else 0.

Definition slot_addr (l s : Z) : Z := u64 (LMEM_BASE_ADDR + s * lmem_stride l).

(** A slot of the core, and for kernels of size [l] one with room for [l] bytes
    at [addr]. *)
Definition placed (slot addr : Z) : Prop :=
  0 <= slot < NUM_WARPS /\ forall l, L = Some l -> slot < usable_slots (lmem_stride l) /\ addr = slot_addr l slot.

(** Everything about the dispatcher alone. *)
Record cta_wf (d : CtaDispatcher) : Prop := {
  wf_slots : length (slot_rem_warps_ d) = Z.to_nat NUM_WARPS;
  wf_wids : length (wid_to_slot_ d) = Z.to_nat NUM_WARPS;
  wf_tail : 0 <= tail_slot_ d < NUM_WARPS;
  wf_acct : forall s, 0 <= s < NUM_WARPS ->
    vget (slot_rem_warps_ d) s = occ s (wid_to_slot_ d) + inflight d s;
  wf_pending : has_pending_ d = true -> req_ok (pending_cta_ d);
  wf_cta : has_cta_ d = true ->
    0 <= rank_ d < cta_size_ d /\ cta_size_ d < 2 ^ 32
    /\ placed (cur_slot_ d) (lmem_addr_ d)
}.

(** The live warps agree with the dispatcher. *)
Record live_wf (d : CtaDispatcher) (active : gset Z) (live : gmap Z (cta_warp_record_t M)) : Prop := {
  live_slot : forall w, 0 <= w < NUM_WARPS ->
    vget (wid_to_slot_ d) w = match live !! w with Some r => rec_cta_id r | None => NUM_WARPS end;
  live_rec : forall w r, live !! w = Some r ->
    0 <= w < NUM_WARPS /\ w ∈ active /\ placed (rec_cta_id r) (rec_lmem_addr r);
  live_same : forall w1 w2 r1 r2, live !! w1 = Some r1 -> live !! w2 = Some r2 -> w1 <> w2 ->
    rec_cta_id r1 = rec_cta_id r2 ->
    rec_block_idx r1 = rec_block_idx r2 /\ rec_cta_rank r1 <> rec_cta_rank r2;
  live_cur : forall w r, has_cta_ d = true -> live !! w = Some r -> rec_cta_id r = cur_slot_ d ->
    rec_block_idx r = req_block_idx (cta_ d) /\ rec_cta_rank r < rank_ d
}.

Record sys_inv (s : cta_sys M) : Prop := {
  inv_d : cta_wf (sys_d s);
  inv_k : running_ (sys_k s) = true -> req_ok (step_req (sys_k s));
  inv_live : live_wf (sys_d s) (sys_active s) (sys_live s)
}.

Lemma usable_slots_bound st : 0 <= st -> 1 <= usable_slots st <= NUM_WARPS.
Proof using Hcfg.
  intros. pose proof num_warps_ok. unfold usable_slots, lmem_capacity_.
  assert (0 <= u32 (Z.shiftl 1 LMEM_LOG_SIZE) / st \/ st = 0).
  { destruct (Z.eq_dec st 0); [by right|left]. apply Z.div_pos; [apply u32_range | lia]. }
  bool_cases; lia.
Qed.

Lemma stride_nonneg l : 0 <= lmem_stride l.
Proof using. unfold lmem_stride. apply Z.land_nonneg. left. apply u32_range. Qed.

Lemma max_slots_bound l : 1 <= usable_slots (lmem_stride l) <= NUM_WARPS.
Proof using Hcfg. apply usable_slots_bound, stride_nonneg. Qed.

(** The slot [step] picks is a usable slot that is free. *)
Lemma choose_slot_free slots tail max p base :
  0 <= tail < max -> choose_slot slots tail max p = Some base ->
  0 <= base < max /\ vget slots base = 0.
Proof using.
  intros Ht. unfold choose_slot, window_free.
  destruct (req_is_first_of_cluster p).
  - set (k := if cluster_volume _ =? 0 then _ else _).
    assert (0 < k).
    { subst k. unfold cluster_volume. pose proof (u32_range (u32 (dim_x (req_cluster_dim p)
        * dim_y (req_cluster_dim p)) * dim_z (req_cluster_dim p))). bool_cases; lia. }
    set (b := if max <? _ then 0 else tail). set (kk := if max <? k then max else k).
    destruct (forallb _ _) eqn:F; [|done]. intros [= <-].
    split; [subst b; bool_cases; lia|].
    rewrite forallb_forall in F. specialize (F 0). rewrite Z.add_0_r in F.
    apply Z.eqb_eq, F, list_elem_of_In, elem_of_range. subst kk. bool_cases; lia.
  - bool_cases; [|done]. intros [= <-]. done.
Qed.

Lemma cta_size_bound p :
  req_ok p -> 0 < u32 (req_block_size p + NUM_THREADS - 1) / NUM_THREADS < 2 ^ 32.
Proof using Hcfg.
  intros (_ & ? & ?). pose proof num_threads_ok. rewrite u32_small by lia. split.
  - apply Z.div_str_pos. lia.
  - apply Z.div_lt_upper_bound; nia.
Qed.
Lemma nwarps_Z : Z.of_nat (Z.to_nat NUM_WARPS) = NUM_WARPS.
Proof using Hcfg. pose proof num_warps_ok. lia. Qed.

(** Admission keeps the accounting: the slot it fills had no warp. *)
Lemma admit_wf d d' b :
  cta_wf d -> has_cta_ d = false -> has_pending_ d = true ->
  admit_cta d = (d', b) -> cta_wf d' /\ (b = false -> has_cta_ d' = false).
Proof using Hcfg.
  intros [Hs Hw Ht Ha Hp Hc] Hno Hpend. pose proof (Hp Hpend) as Hreq.
  pose proof (max_slots_bound (req_lmem_size (pending_cta_ d))) as Hm. pose proof nwarps_Z as Hn. unfold admit_cta.
  set (stride := lmem_stride _) in *. set (tail := if _ <=? tail_slot_ d then 0 else _).
  assert (0 <= tail < usable_slots stride) by (subst tail; bool_cases; lia).
  destruct (choose_slot _ _ _ _) as [base|] eqn:E; intros [= <- <-].
  - apply choose_slot_free in E as [Hb Hz]; [|done]. split; [|done].
    pose proof (cta_size_bound _ Hreq). constructor; simpl; try done.
    + by rewrite length_vset.
    + split; [apply Z.mod_pos_bound; lia|].
      pose proof (Z.mod_pos_bound (base + 1) (usable_slots stride)). lia.
    + intros s Hs'. rewrite vget_vset by lia. specialize (Ha s Hs').
      unfold inflight in *. simpl. rewrite Hno in Ha. simpl in Ha.
      bool_cases; subst; lia.
    + intros _. split_and!; try lia. split; [lia|]. intros l El. subst stride.
      rewrite (proj1 Hreq l El) in *. split; [lia | done].
  - split; [|done]. constructor; simpl; try done. lia.
Qed.

Lemma admit_frame d d' b :
  admit_cta d = (d', b) -> wid_to_slot_ d' = wid_to_slot_ d /\ (b = true -> has_cta_ d' = true).
Proof using. unfold admit_cta. case_match; intros [= <- <-]; done. Qed.

(** A slot with no remaining warp has no live warp. *)
Lemma free_slot_no_live d active live s w r :
  cta_wf d -> live_wf d active live -> has_cta_ d = false ->
  0 <= s < NUM_WARPS -> vget (slot_rem_warps_ d) s = 0 ->
  live !! w = Some r -> rec_cta_id r <> s.
Proof using Hcfg.
  intros Hd Hl Hno Hs Hz Hr E. pose proof (live_rec _ _ _ Hl _ _ Hr) as (Hw & _).
  pose proof (live_slot _ _ _ Hl _ Hw) as W. rewrite Hr in W.
  apply occ_pos in W; [|rewrite (wf_wids _ Hd), nwarps_Z; lia].
  rewrite (wf_acct _ Hd _ Hs), E in *. unfold inflight in Hz. rewrite Hno in Hz. simpl in Hz. lia.
Qed.

Lemma admit_live d d' b active live :
  cta_wf d -> live_wf d active live -> has_cta_ d = false -> has_pending_ d = true ->
  admit_cta d = (d', b) -> live_wf d' active live.
Proof using Hcfg.
  intros Hd Hl Hno Hpend E. pose proof (wf_pending _ Hd Hpend) as Hreq.
  pose proof (max_slots_bound (req_lmem_size (pending_cta_ d))) as Hm. pose proof (wf_tail _ Hd) as Ht.
  pose proof Hl as [H1 H2 H3 _]. revert E. unfold admit_cta. destruct (choose_slot _ _ _ _) as [base|] eqn:C; intros [= <- <-].
  - apply choose_slot_free in C as [Hb Hz]; [|bool_cases; lia].
    constructor; simpl; try done. intros w r _ Hr E. exfalso.
    eapply (free_slot_no_live d active live base); eauto. lia.
  - constructor; simpl; try done. intros w r Hc. simpl in Hc. congruence.
Qed.

(** The warp slot picked for a rank is not active. *)
Lemma free_wid_spec active wid :
  free_wid active = Some wid -> 0 <= wid < NUM_WARPS /\ wid ∉ active.
Proof using.
  unfold free_wid. intros E. apply find_some in E as [Hin Hf].
  apply list_elem_of_In, elem_of_range in Hin. by apply bool_decide_eq_true in Hf.
Qed.

Lemma dispatch_wf d active live o d' :
  cta_wf d -> live_wf d active live -> has_cta_ d = true ->
  dispatch_warp d active = (o, d') ->
  cta_wf d'
  /\ match o with
     | None => live_wf d' active live
     | Some (wid, rec) => live_wf d' ({[wid]} ∪ active) (<[wid := rec]> live)
     end.
Proof using Hcfg.
  intros Hd Hl Hc. unfold dispatch_warp, next_warp. rewrite Hc. simpl.
  destruct (free_wid active) as [wid|] eqn:F; intros [= <- <-]; [|done].
  apply free_wid_spec in F as [Hwid Hfree].
  pose proof nwarps_Z as Hn. pose proof Hd as [Hs Hw Ht Ha Hp Hcta].
  destruct (Hcta Hc) as (Hr & Hsz & Hcur).
  assert (live !! wid = None) as Hnone.
  { destruct (live !! wid) eqn:E; [|done]. by apply (live_rec _ _ _ Hl) in E as (_ & ? & _). }
  pose proof (live_slot _ _ _ Hl _ Hwid) as W. rewrite Hnone in W.
  pose proof (proj1 Hcur) as Hm. split.
  - constructor; simpl; try done.
    + by rewrite length_vset.
    + intros s Hs'. rewrite occ_vset, W, (Ha s Hs') by lia. unfold inflight. simpl.
      rewrite Hc, (u32_small (rank_ d + 1)) by lia. simpl.
      bool_cases; simpl; bool_cases; subst; simpl in *; lia || congruence.
    + bool_cases; [done|]. intros _. rewrite u32_small in * by lia. split_and!; lia || done.
  - constructor; simpl.
    + intros w Hw'. rewrite vget_vset by lia. bool_cases; subst.
      * by rewrite lookup_insert_eq.
      * rewrite lookup_insert_ne by done. by apply (live_slot _ _ _ Hl).
    + intros w r [[<- <-]|[Hne Hr']]%lookup_insert_Some; simpl.
      * split; [lia|]. split; [by apply elem_of_union_l, elem_of_singleton | done].
      * apply (live_rec _ _ _ Hl) in Hr' as (? & ? & ?). split; [lia|]. split; [by apply elem_of_union_r|done].
    + intros w1 w2 r1 r2 [[<- <-]|[? L1]]%lookup_insert_Some [[<- <-]|[? L2]]%lookup_insert_Some Hne E;
        simpl in *; try done.
      * destruct (live_cur _ _ _ Hl _ _ Hc L2); [done|]. split; [done|lia].
      * destruct (live_cur _ _ _ Hl _ _ Hc L1); [done|]. split; [done|lia].
      * by eapply (live_same _ _ _ Hl w1 w2).
    + intros w r Hc' [[<- <-]|[Hne Hr']]%lookup_insert_Some E; simpl in *;
        rewrite (u32_small (rank_ d + 1)) by lia.
      * split; [done|lia].
      * destruct (live_cur _ _ _ Hl _ _ Hc Hr' E). split; [done|lia].
Qed.
(** A request from the KMU carries the descriptor's sizes, whatever the
    progression. *)
Lemma kmu_step_ok k r k' :
  (running_ k = true -> req_ok (step_req k)) -> Kmu.step k = Some (r, k') ->
  req_ok r /\ req_ok (step_req k').
Proof using.
  unfold Kmu.step. destruct (running_ k); [|done]. simpl. intros Hk [= <- <-].
  specialize (Hk eq_refl). split; [done|]. unfold step_advance.
  repeat case_match; exact Hk.
Qed.

Lemma dispatcher_step_inv s o d k :
  sys_inv s -> step (sys_d s) (sys_k s) (sys_active s) = (o, d, k) ->
  sys_inv (sys_after s o d k).
Proof using Hcfg.
  intros [Hd Hk Hl]. unfold step.
  assert (Hdisp : forall d1 k1, cta_wf d1 -> has_cta_ d1 = true ->
    live_wf d1 (sys_active s) (sys_live s) ->
    (running_ k1 = true -> req_ok (step_req k1)) ->
    (dispatch_warp d1 (sys_active s), k1) = (o, d, k) -> sys_inv (sys_after s o d k)).
  { intros d1 k1 Hd1 Hc1 Hl1 Hk1 E. injection E as E <-.
    destruct (dispatch_wf _ _ _ _ _ Hd1 Hl1 Hc1 E) as [? ?].
    destruct o as [[wid rec]|]; constructor; simpl; done. }
  destruct (has_cta_ (sys_d s)) eqn:Hc; [by apply Hdisp|].
  set (fetched := if has_pending_ _ then _ else _).
  assert (Hf : forall d1 k1, fetched = Some (d1, k1) ->
    cta_wf d1 /\ live_wf d1 (sys_active s) (sys_live s) /\ has_cta_ d1 = false
    /\ has_pending_ d1 = true /\ (running_ k1 = true -> req_ok (step_req k1))).
  { subst fetched. destruct (has_pending_ (sys_d s)) eqn:Hp; intros d1 k1.
    - intros [= <- <-]. done.
    - destruct (Kmu.step (sys_k s)) as [[r k']|] eqn:E; [|done]. intros [= <- <-].
      apply kmu_step_ok in E as [? ?]; [|done].
      split_and!; try done; [destruct Hd; by constructor | destruct Hl; by constructor]. }
  clearbody fetched. destruct fetched as [[d1 k1]|].
  - destruct (Hf _ _ eq_refl) as (Hd1 & Hl1 & Hc1 & Hp1 & Hk1).
    destruct (admit_cta d1) as [d2 b] eqn:E.
    pose proof (admit_live _ _ _ _ _ Hd1 Hl1 Hc1 Hp1 E) as Hl2.
    destruct (admit_wf _ _ _ Hd1 Hc1 Hp1 E) as [Hd2 Hc2].
    destruct (admit_frame _ _ _ E) as [_ Hb].
    destruct b; [apply Hdisp; auto|]. intros [= <- <- <-]. by constructor.
  - intros [= <- <- <-]. by constructor.
Qed.

(** A live warp's exit finds its slot counted, so the assertion holds. *)
Lemma warp_done_some s wid :
  sys_inv s -> 0 <= wid < NUM_WARPS -> exists d, warp_done (sys_d s) wid = Some d.
Proof using Hcfg.
  intros [Hd _ Hl] Hw. unfold warp_done.
  destruct (Z.leb_spec NUM_WARPS (vget (wid_to_slot_ (sys_d s)) wid)) as [|Hlt]; [by eexists|].
  pose proof (live_slot _ _ _ Hl _ Hw) as W.
  destruct (sys_live s !! wid) as [r|] eqn:E; [|lia].
  apply (live_rec _ _ _ Hl) in E as (_ & _ & [Hr _]).
  rewrite (wf_acct _ Hd) by lia.
  assert (0 < occ (vget (wid_to_slot_ (sys_d s)) wid) (wid_to_slot_ (sys_d s))).
  { eapply occ_pos; [|done]. rewrite (wf_wids _ Hd), nwarps_Z. lia. }
  assert (0 <= inflight (sys_d s) (vget (wid_to_slot_ (sys_d s)) wid)).
  { unfold inflight. destruct (has_cta_ (sys_d s)) eqn:Hc; [|simpl; lia].
    pose proof (wf_cta _ Hd Hc). simpl. bool_cases; lia. }
  rewrite (proj2 (Z.leb_gt _ _)) by lia. by eexists.
Qed.

Lemma warp_done_inv s wid d :
  sys_inv s -> 0 <= wid < NUM_WARPS -> warp_done (sys_d s) wid = Some d ->
  sys_inv (mk_sys d (sys_k s) (sys_active s ∖ {[wid]}) (delete wid (sys_live s))).
Proof using Hcfg.
  intros [Hd Hk Hl] Hw. unfold warp_done.
  pose proof (live_slot _ _ _ Hl _ Hw) as W. pose proof nwarps_Z as Hn.
  destruct (Z.leb_spec NUM_WARPS (vget (wid_to_slot_ (sys_d s)) wid)) as [Hge|Hlt].
  - intros [= <-]. assert (sys_live s !! wid = None) as E.
    { destruct (sys_live s !! wid) as [r|] eqn:E; [|done].
      apply (live_rec _ _ _ Hl) in E as (_ & _ & [Hr _]). lia. }
    constructor; simpl; [done|done|]. rewrite delete_id by done.
    destruct Hl as [H1' H2' H3' H4']. constructor; try done.
    intros w r Hr. destruct (H2' _ _ Hr) as (? & ? & ?). split_and!; try done; try lia.
    apply elem_of_difference. split; [done|]. rewrite elem_of_singleton. congruence.
  - destruct (Z.leb_spec (vget (slot_rem_warps_ (sys_d s)) (vget (wid_to_slot_ (sys_d s)) wid)) 0)
      as [|Hpos]; [done|]. intros [= <-].
    destruct (sys_live s !! wid) as [r0|] eqn:E0; [|lia].
    destruct (live_rec _ _ _ Hl _ _ E0) as (_ & _ & [Hr0 _]). rewrite W in *.
    pose proof Hd as [Hs Hwl Ht Ha Hp Hcta].
    constructor; simpl; [|done|].
    + constructor; simpl; try done; [by rewrite length_vset..|].
      intros s' Hs'. rewrite vget_vset, occ_vset by lia.
      change (inflight _ s') with (inflight (sys_d s) s').
      rewrite W. bool_cases; subst; try lia; rewrite (Ha _ Hs') in *; lia.
    + destruct Hl as [H1' H2' H3' H4']. constructor; simpl.
      * intros w Hw'. rewrite vget_vset by lia. bool_cases; subst.
        -- by rewrite lookup_delete_eq.
        -- rewrite lookup_delete_ne by done. by apply H1'.
      * intros w r [Hne Hr]%lookup_delete_Some. destruct (H2' _ _ Hr) as (? & ? & ?).
        split_and!; try done; try lia. apply elem_of_difference. split; [done|].
        rewrite elem_of_singleton. congruence.
      * intros w1 w2 r1 r2 [_ ?]%lookup_delete_Some [_ ?]%lookup_delete_Some. by apply H3'.
      * intros w r Hc [_ ?]%lookup_delete_Some. intros; by eapply H4'.
Qed.
Lemma sys_init_inv : sys_inv sys_init.
Proof using Hcfg.
  pose proof num_warps_ok. constructor; simpl; [| done |].
  - constructor; simpl; rewrite ?length_replicate; try done; [lia|].
    intros s Hs. rewrite vget_replicate, occ_replicate by lia. done.
  - constructor; simpl; try (intros *; rewrite ?lookup_empty; done).
    intros w Hw. rewrite vget_replicate by lia. done.
Qed.

(** Every event keeps the invariant, and no assertion fails. *)
Lemma sys_exec_inv s e :
  sys_inv s -> event_ok e -> exists s', sys_exec s e = Some s' /\ sys_inv s'.
Proof using Hcfg.
  intros Hs He. destruct e as [d| |wids|wid]; simpl in *.
  - eexists. split; [done|]. destruct Hs as [Hd _ Hl]. constructor; simpl; [done| |done].
    unfold start. destruct He as (? & ? & ?). case_match eqn:E; simpl; [|done].
    intros _. repeat apply andb_prop in E as [E _]. apply Z.ltb_lt in E. done.
  - destruct (step _ _ _) as [[o d] k] eqn:E. eexists. split; [done|].
    by apply dispatcher_step_inv.
  - eexists. split; [done|]. destruct Hs as [Hd Hk [L1 L2 L3 L4]].
    constructor; simpl; [done..|]. constructor; try done.
    intros w r Hr. destruct (L2 _ _ Hr) as (? & ? & ?).
    split_and!; try done; try lia. by apply elem_of_union_r.
  - destruct (warp_done_some _ _ Hs He) as [d E]. rewrite E. simpl.
    eexists. split; [done|]. by apply warp_done_inv.
Qed.

Lemma sys_run_inv es s :
  sys_inv s -> Forall event_ok es -> exists s', sys_run es s = Some s' /\ sys_inv s'.
Proof using Hcfg.
  intros Hs Hes. revert s Hs. induction Hes as [|e es He _ IH]; intros s Hs; simpl; [by eexists|].
  destruct (sys_exec_inv _ _ Hs He) as (s1 & -> & H1'). by apply IH.
Qed.

(** The live warps of a slot are the entries of [wid_to_slot_]. *)
Lemma live_occ s slot :
  sys_inv s -> 0 <= slot < NUM_WARPS ->
  occ slot (wid_to_slot_ (sys_d s))
  = Z.of_nat (length (filter (fun w => rec_cta_id <$> sys_live s !! w = Some slot) (range NUM_WARPS))).
Proof using Hcfg.
  intros [Hd _ Hl] Hslot. rewrite <- nwarps_Z at 1. rewrite <- (wf_wids _ Hd).
  apply occ_filter_range. intros i y Hi.
  pose proof (lookup_lt_Some _ _ _ Hi) as Hlt. rewrite (wf_wids _ Hd) in Hlt.
  pose proof (live_slot _ _ _ Hl (Z.of_nat i) ltac:(lia)) as W.
  unfold vget in W. rewrite Nat2Z.id, (list_lookup_total_correct _ _ _ Hi) in W. subst y.
  destruct (sys_live s !! Z.of_nat i); simpl; split; intros; simplify_eq; done || lia.
Qed.

Lemma usable_slots_fit stride slot :
  0 <= stride <= lmem_capacity_ -> 0 <= slot < usable_slots stride ->
  (slot + 1) * stride <= lmem_capacity_.
Proof using Hcfg.
  intros Hfit. unfold usable_slots.
  destruct (Z.eqb_spec stride 0) as [->|]; [pose proof (u32_range (Z.shiftl 1 LMEM_LOG_SIZE)); unfold lmem_capacity_; lia|].
  assert (0 < stride) by lia. pose proof (Z.mul_div_le lmem_capacity_ stride).
  assert (1 <= lmem_capacity_ / stride) by (apply Z.div_le_lower_bound; lia).
  bool_cases; nia.
Qed.

(** Rounding up to the block size. *)
Lemma lmem_stride_ge l :
  0 <= l -> l + MEM_BLOCK_SIZE <= 2 ^ 32 -> l <= lmem_stride l /\ (MEM_BLOCK_SIZE | lmem_stride l).
Proof using Hcfg.
  intros HL Hb. destruct mem_block_ok as (n & Hn & E). unfold lmem_stride.
  assert (0 < MEM_BLOCK_SIZE) by (rewrite E; apply Z.pow_pos_nonneg; lia).
  rewrite u32_small by lia.
  rewrite E, land_lnot_low by (rewrite <- ?E; lia). rewrite <- E.
  set (x := l + MEM_BLOCK_SIZE - 1).
  pose proof (Z.mod_pos_bound x MEM_BLOCK_SIZE). pose proof (Z.div_mod x MEM_BLOCK_SIZE).
  split; [lia|]. exists (x / MEM_BLOCK_SIZE). lia.
Qed.

Lemma slot_addr_eq l s :
  0 <= s < NUM_WARPS -> slot_addr l s = LMEM_BASE_ADDR + s * lmem_stride l.
Proof using Hcfg.
  intros Hs. pose proof num_warps_ok. pose proof lmem_base_ok. pose proof (stride_nonneg l).
  apply u64_small. assert (lmem_stride l < 2 ^ 32); [|nia].
  unfold lmem_stride. eapply Z.le_lt_trans; [apply land_le_l; apply u32_range|].
  apply u32_range.
Qed.
End Accounting.

(** ** Threads of a CTA *)

Section Threads.
Context `{Hcfg : VxConfigOk} `{HM : MaskSpec M}.

(** What a thread reads from the CSRs [VX_CSR_CTA_THREAD_ID_X], [_Y] and [_Z]
    ([CsrUnit::get_csr]): [t] is the [thread_idx] of its warp and [tid] its
    lane. *)
Definition csr_thread_id (t block : dim3) (tid : Z) : dim3 :=
  let x := u32 (dim_x t + tid) in
  let y := u32 (dim_y t + x / dim_x block) in
  let z := u32 (dim_z t + y / dim_y block) in
  Dim3 (x mod dim_x block) (y mod dim_y block) z.

(** The coordinates of thread number [n] of a block, X fastest. *)
Definition thread_coord (block : dim3) (n : Z) : dim3 :=
  Dim3 (n mod dim_x block) (n / dim_x block mod dim_y block) (n / dim_x block / dim_y block).

(** Linear index of a thread in its block, X fastest. *)
Definition thread_lin (block t : dim3) : Z := dim_x t + dim_x block * (dim_y t + dim_y block * dim_z t).

(** The coordinates the threads of a dispatched warp read: those of each lane
    set in the thread mask. *)
Definition rec_threads (r : cta_warp_record_t M) : list dim3 :=
  csr_thread_id (rec_thread_idx r) (rec_block_dim r)
    <$> filter (fun t => m_test (rec_tmask r) t = true) (range NUM_THREADS).

(** The in-flight CTA dispatched under a sequence of active-warp sets, one
    per cycle: its warps in dispatch order. *)
Fixpoint dispatch_all (acts : list (gset Z)) (d : CtaDispatcher)
    : list (cta_warp_record_t M) * CtaDispatcher :=
  match acts with
  | [] => ([], d)
  | a :: acts' =>
    if negb (has_cta_ d) then ([], d)
    else
      let '(o, d1) := dispatch_warp d a in
      let '(rs, d2) := dispatch_all acts' d1 in
      (match o with Some (_, r) => r :: rs | None => rs end, d2)
  end.

(** Cycles in which some warp slot is free. *)
Definition free_cycles (acts : list (gset Z)) : Z :=
  Z.of_nat (length (filter (fun a => free_wid a <> None) acts)).

(** What [prepare_kernel_launch_params] programs for a block. *)
Definition warp_step_of (block : dim3) : dim3 :=
  Dim3 (NUM_THREADS mod dim_x block) ((NUM_THREADS / dim_x block) mod dim_y block)
       ((NUM_THREADS / (dim_x block * dim_y block)) mod dim_z block).

Record block_ok (p : kmu_req_t) : Prop := {
  blk_pos : dim3_lt dim3_zero (req_block_dim p);
  blk_size : req_block_size p = dim3_volume (req_block_dim p);
  blk_fits : req_block_size p + NUM_THREADS <= 2 ^ 32;
  blk_step : req_warp_step p = warp_step_of (req_block_dim p)
}.

(** [r] warps of CTA [p] have been dispatched. *)
Record at_rank (p : kmu_req_t) (r : Z) (d : CtaDispatcher) : Prop := {
  rk_cta : cta_ d = p;
  rk_rank : rank_ d = r;
  rk_size : cta_size_ d = (req_block_size p + NUM_THREADS - 1) / NUM_THREADS;
  rk_rem : block_size_rem_ d = req_block_size p - r * NUM_THREADS;
  rk_lin : thread_lin (req_block_dim p) (thread_idx_ d) = r * NUM_THREADS;
  rk_x : 0 <= dim_x (thread_idx_ d) < dim_x (req_block_dim p);
  rk_y : 0 <= dim_y (thread_idx_ d) < dim_y (req_block_dim p);
  rk_z : 0 <= dim_z (thread_idx_ d)
}.

(** Digits of the warp width: adding them with carries adds [NUM_THREADS]. *)
Lemma warp_step_lin p :
  block_ok p -> NUM_THREADS < req_block_size p ->
  let s := req_warp_step p in let b := req_block_dim p in
  thread_lin b s = NUM_THREADS /\ 0 <= dim_x s < dim_x b /\ 0 <= dim_y s < dim_y b /\ 0 <= dim_z s
  /\ dim_x s <= NUM_THREADS /\ dim_y s <= NUM_THREADS /\ dim_z s <= NUM_THREADS.
Proof using Hcfg.
  intros [(? & ? & ?) Hsz Hfit ->] Hlt. rewrite Hsz in *. pose proof num_threads_ok.
  unfold dim3_volume, thread_lin, warp_step_of, dim3_zero in *. simpl in *.
  destruct (req_block_dim p) as [bx by_ bz]. simpl in *.
  set (T := NUM_THREADS) in *. rewrite <- (Z.div_div T bx by_) by lia.
  set (q := T / bx). set (q2 := q / by_).
  assert (0 <= q <= T) by (split; [apply Z.div_pos | apply Z.div_le_upper_bound]; nia).
  assert (0 <= q2 <= T) by (split; [apply Z.div_pos | apply Z.div_le_upper_bound]; nia).
  assert (q2 < bz).
  { subst q2 q. rewrite Z.div_div by lia. apply Z.div_lt_upper_bound; nia. }
  rewrite (Z.mod_small q2) by lia.
  pose proof (Z.div_mod T bx). pose proof (Z.div_mod q by_).
  pose proof (Z.mod_pos_bound T bx). pose proof (Z.mod_pos_bound q by_).
  pose proof (Z.mod_le T bx). pose proof (Z.mod_le q by_).
  subst q2. split_and!; lia.
Qed.

Lemma advance_lin p t :
  block_ok p -> NUM_THREADS < req_block_size p ->
  0 <= dim_x t < dim_x (req_block_dim p) -> 0 <= dim_y t < dim_y (req_block_dim p) ->
  0 <= dim_z t -> thread_lin (req_block_dim p) t + NUM_THREADS < req_block_size p ->
  let t' := advance_thread_idx t p in
  thread_lin (req_block_dim p) t' = thread_lin (req_block_dim p) t + NUM_THREADS
  /\ 0 <= dim_x t' < dim_x (req_block_dim p) /\ 0 <= dim_y t' < dim_y (req_block_dim p)
  /\ 0 <= dim_z t'.
Proof using Hcfg.
  intros Hb Hlt Hx Hy Hz Hin. pose proof num_threads_ok. destruct (warp_step_lin _ Hb Hlt) as (Hs & ? & ? & ? & ? & ? & ?).
  destruct Hb as [(? & ? & ?) Hsz Hfit _]. unfold dim3_volume, dim3_zero in *. simpl in *.
  unfold thread_lin, advance_thread_idx in *.
  destruct (req_block_dim p) as [bx by_ bz], (req_warp_step p) as [sx sy sz], t as [tx ty tz].
  simpl in *. rewrite Hsz in *. clear Hsz.
  assert (0 < bx * by_) by nia. assert (0 <= bx * ty) by nia.
  assert (tz < bz) by (apply (Z.mul_lt_mono_pos_l (bx * by_)); lia).
  assert (bx * by_ <= bx * by_ * bz) by nia.
  assert (bx <= bx * by_ /\ by_ <= bx * by_) by nia.
  rewrite (u32_small (tx + sx)) by lia.
  assert (0 <= bx * by_ * tz) by nia.
  assert (ty <= bx * ty) by nia. assert (tz <= bx * by_ * tz) by nia.
  set (cx := bx <=? tx + sx). set (cyy := if cx then 1 else 0).
  assert (0 <= cyy <= 1) by (subst cyy; destruct cx; lia).
  rewrite (u32_small (ty + sy + cyy)) by lia.
  set (cy := by_ <=? ty + sy + cyy). set (czz := if cy then 1 else 0).
  assert (0 <= czz <= 1) by (subst czz; destruct cy; lia).
  rewrite (u32_small (tz + sz + czz)) by lia.
  clear Hin. subst cy cyy cx czz. rewrite <- Hs. bool_cases; (split; [ring|lia]).
Qed.
Lemma active_bound d : 0 <= block_size_rem_ d -> 0 <= active_threads d <= NUM_THREADS.
Proof using Hcfg. pose proof num_threads_ok. unfold active_threads. bool_cases; lia. Qed.

(** The mask of a dispatched warp is a prefix of lanes. *)
Lemma tmask_test d b t :
  0 <= block_size_rem_ d -> 0 <= t < NUM_THREADS ->
  m_test (rec_tmask (warp_record d b)) t = (t <? active_threads d).
Proof using Hcfg HM.
  intros Hrem Ht. pose proof (active_bound d Hrem). simpl.
  set (n := Z.to_nat (active_threads d)).
  assert (R : m_rep (m_new NUM_THREADS : M) (replicate (Z.to_nat NUM_THREADS) false))
    by (apply m_new_rep; lia).
  apply (m_fill_prefix _ _ n (fun _ => true)) in R; [|rewrite length_replicate; lia].
  eapply m_test_rep; [exact R|lia|]. rewrite lookup_app.
  destruct (decide (Z.to_nat t < n)%nat).
  - rewrite list_lookup_fmap, lookup_seq_lt by done. simpl. f_equal. bool_cases; lia.
  - rewrite list_lookup_fmap, lookup_seq_ge by lia. simpl.
    rewrite length_fmap, length_seq, lookup_drop.
    rewrite lookup_replicate_2 by lia. f_equal. bool_cases; lia.
Qed.

(** The coordinates a lane reads are those of its number in the block. *)
Lemma csr_coord block t tid :
  0 <= dim_x t < dim_x block -> 0 <= dim_y t < dim_y block -> 0 <= dim_z t -> 0 <= tid ->
  thread_lin block t + tid < 2 ^ 32 ->
  csr_thread_id t block tid = thread_coord block (thread_lin block t + tid).
Proof using.
  unfold csr_thread_id, thread_coord, thread_lin. destruct t as [tx ty tz], block as [bx by_ bz]. simpl.
  intros Hx Hy Hz Ht Hlt. assert (0 <= by_ * tz) by nia. assert (0 <= bx * (ty + by_ * tz)) by nia.
  rewrite (u32_small (tx + tid)) by lia. set (x := tx + tid).
  assert (0 <= x) by (subst x; lia).
  replace (tx + bx * (ty + by_ * tz) + tid) with (x + (ty + by_ * tz) * bx) in * by (subst x; ring).
  rewrite Z.mod_add, Z.div_add by lia.
  assert (0 <= x / bx <= x) by (split; [apply Z.div_pos; lia | apply Z.div_le_upper_bound; nia]).
  assert (ty + by_ * tz <= (ty + by_ * tz) * bx) by nia.
  rewrite (u32_small (ty + x / bx)) by lia. set (y := ty + x / bx) in *.
  replace (x / bx + (ty + by_ * tz)) with (y + tz * by_) by (subst y; ring).
  rewrite Z.mod_add, Z.div_add by lia.
  assert (0 <= y) by (subst y; lia).
  assert (0 <= y / by_ <= y) by (split; [apply Z.div_pos; lia | apply Z.div_le_upper_bound; nia]).
  assert (tz <= by_ * tz) by nia. rewrite u32_small by (subst y; lia). f_equal. ring.
Qed.

Lemma coord_lin block t :
  0 <= dim_x t < dim_x block -> 0 <= dim_y t < dim_y block -> thread_coord block (thread_lin block t) = t.
Proof using.
  unfold thread_coord, thread_lin. destruct t as [tx ty tz], block as [bx by_ bz]. simpl. intros Hx Hy.
  rewrite (Z.mul_comm bx), Z.mod_add, Z.div_add, (Z.div_small tx), Z.add_0_l by lia.
  rewrite (Z.mul_comm by_), Z.mod_add, Z.div_add, (Z.div_small ty), !Z.mod_small by lia. done.
Qed.

Lemma at_rank_coord p r d : at_rank p r d -> thread_idx_ d = thread_coord (req_block_dim p) (r * NUM_THREADS).
Proof using. intros [? ? ? ? <- Hx Hy _]. by rewrite coord_lin. Qed.

Lemma warp_threads p r d b :
  block_ok p -> at_rank p r d -> 0 <= block_size_rem_ d -> 0 <= r ->
  rec_threads (warp_record d b) = thread_coord (req_block_dim p) <$> span (r * NUM_THREADS) (Z.to_nat (active_threads d)).
Proof using Hcfg HM.
  intros Hp Hr Hrem Hr0. pose proof (active_bound d Hrem). unfold rec_threads.
  rewrite (filter_range_prefix _ _ (active_threads d)); [|lia|].
  - simpl. rewrite range_span, <- (Z.add_0_r (r * NUM_THREADS)), <- span_shift, <- list_fmap_compose.
    apply list_fmap_ext. intros i t Hi. apply list_elem_of_lookup_2 in Hi. rewrite <- range_span, elem_of_range in Hi.
    pose proof (rk_rem _ _ _ Hr) as Erem. pose proof (blk_fits _ Hp).
    destruct Hr as [-> _ _ _ Hl Hx Hy Hz]. cbn [compose]. rewrite <- Hl. apply csr_coord; try done; lia.
  - intros t Ht. rewrite tmask_test by lia. by rewrite Z.ltb_lt.
Qed.

(** The rank count and the thread count end together. *)
Lemma last_rank bs r :
  (bs + NUM_THREADS - 1) / NUM_THREADS <= r + 1 <-> bs <= (r + 1) * NUM_THREADS.
Proof using Hcfg.
  pose proof num_threads_ok. rewrite <- Z.lt_succ_r. split; intros Hle.
  - pose proof (Z.mul_succ_div_gt (bs + NUM_THREADS - 1) NUM_THREADS). nia.
  - apply Z.div_lt_upper_bound; lia.
Qed.

Lemma dispatch_rank p r d a :
  block_ok p -> at_rank p r d -> has_cta_ d = true -> 0 <= r -> r * NUM_THREADS < req_block_size p ->
  match free_wid a with
  | None => dispatch_warp d a = (None, d)
  | Some wid => exists b d', dispatch_warp d a = (Some (wid, warp_record d b), d')
    /\ has_cta_ d' = negb (req_block_size p <=? (r + 1) * NUM_THREADS)
    /\ ((r + 1) * NUM_THREADS < req_block_size p -> at_rank p (r + 1) d')
  end.
Proof using Hcfg.
  intros Hp [Hcta Hrk Hsz Hrem Hlin Hx Hy Hz] Hc Hr Hlt. unfold dispatch_warp, next_warp.
  destruct (free_wid a) as [wid|]; [|done]. rewrite Hc. simpl.
  pose proof num_threads_ok. pose proof (blk_fits _ Hp).
  rewrite Hrk, Hsz, Hcta, (u32_small (r + 1)) by nia.
  eexists _, _. split; [done|]. simpl. split.
  - destruct (Z.leb_spec ((req_block_size p + NUM_THREADS - 1) / NUM_THREADS) (r + 1)) as [E|E];
      destruct (Z.leb_spec (req_block_size p) ((r + 1) * NUM_THREADS)) as [E'|E']; try done;
      [apply last_rank in E | apply last_rank in E']; lia.
  - intros Hmore.
    destruct (advance_lin p (thread_idx_ d) Hp) as (A1 & A2 & A3 & A4); [lia..|].
    constructor; simpl; try done; try lia.
    unfold active_threads. rewrite Hrem, (proj2 (Z.leb_le _ _)) by lia. lia.
Qed.

(** The [i]-th warp has rank [r + i] and starts at the coordinates of its first
    thread. *)
Definition ranked (p : kmu_req_t) (r : Z) (rs : list (cta_warp_record_t M)) : Prop :=
  forall i w, rs !! i = Some w ->
    rec_cta_rank w = r + Z.of_nat i /\ rec_block_idx w = req_block_idx p
    /\ rec_thread_idx w = thread_coord (req_block_dim p) ((r + Z.of_nat i) * NUM_THREADS).

Lemma ranked_cons p r d b rs :
  at_rank p r d -> ranked p (r + 1) rs -> ranked p r (warp_record d b :: rs).
Proof using.
  intros Hat Hrs [|i] w; cbn [lookup list_lookup].
  - intros [= <-]. cbn. rewrite Z.add_0_r, (rk_rank _ _ _ Hat), (at_rank_coord _ _ _ Hat), (rk_cta _ _ _ Hat). done.
  - intros Hw. destruct (Hrs i w Hw) as (-> & -> & ->). split_and!; [lia | done | do 2 f_equal; lia].
Qed.

Lemma dispatch_all_threads p acts d r :
  block_ok p -> at_rank p r d -> has_cta_ d = true -> 0 <= r -> r * NUM_THREADS < req_block_size p ->
  cta_size_ d - r <= free_cycles acts ->
  let '(rs, d') := dispatch_all acts d in
  mjoin (rec_threads <$> rs)
    = thread_coord (req_block_dim p) <$> span (r * NUM_THREADS) (Z.to_nat (req_block_size p - r * NUM_THREADS))
  /\ ranked p r rs /\ has_cta_ d' = false.
Proof using Hcfg HM.
  intros Hp. revert d r. induction acts as [|a acts IH]; intros d r Hat Hc Hr Hlt Hn.
  { exfalso. change (free_cycles []) with 0 in Hn. rewrite (rk_size _ _ _ Hat) in Hn.
    pose proof (proj1 (last_rank (req_block_size p) (r - 1))). lia. }
  simpl. rewrite Hc. simpl. pose proof (dispatch_rank p r d a Hp Hat Hc Hr Hlt) as D.
  unfold free_cycles in Hn. destruct (free_wid a) as [wid|] eqn:F.
  - destruct D as (b & d1 & -> & Hc1 & Hnext).
    rewrite filter_cons_True in Hn by congruence. simpl in Hn.
    destruct (dispatch_all acts d1) as [rs d2] eqn:E. rewrite fmap_cons. simpl.
    pose proof (rk_rem _ _ _ Hat) as Hrem. rewrite (warp_threads p r) by (done || lia).
    destruct (Z.leb_spec (req_block_size p) ((r + 1) * NUM_THREADS)) as [Hlast|Hmore]; simpl in Hc1.
    + assert (rs = [] /\ d2 = d1) as [-> ->].
      { destruct acts; simpl in E; rewrite ?Hc1 in E; simpl in E; by injection E as <- <-. }
      simpl. rewrite app_nil_r. split; [|split; [by apply ranked_cons | done]]. do 2 f_equal.
      unfold active_threads. rewrite Hrem. bool_cases; lia.
    + specialize (Hnext ltac:(lia)). specialize (IH d1 (r + 1) Hnext Hc1 ltac:(lia) ltac:(lia)).
      rewrite E in IH. rewrite (rk_size _ _ _ Hnext), <- (rk_size _ _ _ Hat) in IH.
      destruct IH as (-> & Hrs & ->); [unfold free_cycles; lia|]. split; [|split; [by apply ranked_cons | done]].
      pose proof num_threads_ok.
      assert (active_threads d = NUM_THREADS) as ->
        by (unfold active_threads; rewrite Hrem; bool_cases; lia).
      replace (Z.to_nat (req_block_size p - r * NUM_THREADS)) with
        (Z.to_nat NUM_THREADS + Z.to_nat (req_block_size p - (r + 1) * NUM_THREADS))%nat by lia.
      rewrite span_app, fmap_app. do 3 f_equal. lia.
  - rewrite D. rewrite filter_cons_False in Hn by (by intros []).
    specialize (IH d r Hat Hc Hr Hlt Hn). destruct (dispatch_all acts d). exact IH.
Qed.

(** Admission starts the CTA at rank 0. *)
Lemma admit_rank d d' :
  block_ok (pending_cta_ d) -> admit_cta d = (d', true) ->
  at_rank (pending_cta_ d) 0 d' /\ has_cta_ d' = true.
Proof using Hcfg.
  intros [(? & ? & ?) Hsz Hfit _]. pose proof num_threads_ok.
  unfold admit_cta. case_match; [|done]. intros [= <-]. split; [|done].
  unfold dim3_zero, dim3_volume in *. simpl in *.
  constructor; simpl; try done; try lia; [|unfold thread_lin; simpl; lia].
  rewrite u32_small by nia. done.
Qed.
(** From admission to the end of the CTA. *)
Lemma admitted_threads d d' acts :
  block_ok (pending_cta_ d) -> admit_cta d = (d', true) -> cta_size_ d' <= free_cycles acts ->
  mjoin (rec_threads <$> (dispatch_all acts d').1)
    = thread_coord (req_block_dim (pending_cta_ d)) <$> range (req_block_size (pending_cta_ d))
  /\ ranked (pending_cta_ d) 0 (dispatch_all acts d').1
  /\ has_cta_ (dispatch_all acts d').2 = false.
Proof using Hcfg HM.
  intros Hb Ha Hn.
  destruct (admit_rank _ _ Hb Ha) as [Hat Hc].
  assert (0 < req_block_size (pending_cta_ d)).
  { destruct Hb as [(? & ? & ?) -> _ _]. unfold dim3_volume, dim3_zero in *. simpl in *. nia. }
  pose proof (dispatch_all_threads _ acts _ 0 Hb Hat Hc) as D.
  rewrite !Z.mul_0_l, !Z.sub_0_r in D. specialize (D ltac:(lia) ltac:(lia) Hn).
  destruct (dispatch_all acts d'). by rewrite range_span.
Qed.
End Threads.

(** ** Properties *)

Section Properties.
Context `{Hcfg : VxConfigOk} `{HM : MaskSpec M}.

(** C13. The dispatcher never trips its assertion and its slots are counted
    exactly: after any sequence of launches, dispatch cycles, foreign warp
    activations and exits of warps of the core, every slot's
    [slot_rem_warps_] is the number of live warps placed in it plus the ranks
    of the in-flight CTA still to come, so a slot reads free exactly when
    nobody uses it.  The launches may have any local-memory sizes and block
    sizes of at most [2^32 - NUM_THREADS] threads: above that the 32-bit
    rounding of the number of warps wraps. *)
Theorem cta_slots_exact (es : list sys_event) (Hes : Forall (event_ok None) es) :
  exists s : cta_sys M, sys_run es sys_init = Some s
    /\ forall slot, 0 <= slot < NUM_WARPS ->
         vget (slot_rem_warps_ (sys_d s)) slot
         = Z.of_nat (length (filter (fun w => rec_cta_id <$> sys_live s !! w = Some slot)
                                   (range NUM_WARPS)))
           + inflight (sys_d s) slot.
Proof using Hcfg HM.
  destruct (sys_run_inv None es _ (sys_init_inv None) Hes) as (s & Hrun & Hinv).
  exists s. split; [done|]. intros slot Hslot.
  rewrite (wf_acct _ _ (inv_d _ _ Hinv) _ Hslot). f_equal.
  by apply (live_occ None).
Qed.

(** Local memory is private to a CTA: while kernels of one LMEM size run,
    two live warps either belong to the same CTA (same slot, same block
    index, same LMEM base, different ranks) or own disjoint LMEM regions of
    [L] bytes; and every region lies inside local memory whenever one CTA
    fits. *)
Theorem cta_lmem_private (L : Z) (es : list sys_event) (s : cta_sys M)
    (w1 w2 : Z) (r1 r2 : cta_warp_record_t M)
    (Hes : Forall (event_ok (Some L)) es)
    (HL : 0 <= L /\ L + MEM_BLOCK_SIZE <= 2 ^ 32)
    (Hs : sys_run es sys_init = Some s)
    (H1 : sys_live s !! w1 = Some r1) (H2 : sys_live s !! w2 = Some r2) (Hne : w1 <> w2) :
  (if rec_cta_id r1 =? rec_cta_id r2 then
     rec_block_idx r1 = rec_block_idx r2 /\ rec_lmem_addr r1 = rec_lmem_addr r2
     /\ rec_cta_rank r1 <> rec_cta_rank r2
   else
     rec_lmem_addr r1 + L <= rec_lmem_addr r2 \/ rec_lmem_addr r2 + L <= rec_lmem_addr r1)
  /\ (lmem_stride L <= lmem_capacity_ ->
      LMEM_BASE_ADDR <= rec_lmem_addr r1
      /\ rec_lmem_addr r1 + L <= LMEM_BASE_ADDR + lmem_capacity_).
Proof using Hcfg HM.
  destruct (sys_run_inv (Some L) es _ (sys_init_inv (Some L)) Hes) as (s' & Hrun & Hinv).
  rewrite Hs in Hrun. injection Hrun as <-. destruct Hinv as [_ _ Hl].
  destruct (live_rec _ _ _ _ Hl _ _ H1) as (_ & _ & B1 & P1). destruct (P1 L eq_refl) as [C1 A1].
  destruct (live_rec _ _ _ _ Hl _ _ H2) as (_ & _ & B2 & P2). destruct (P2 L eq_refl) as [C2 A2].
  pose proof (stride_nonneg L). destruct (lmem_stride_ge L) as [Hst _]; [lia..|].
  rewrite A1, A2, !slot_addr_eq by lia. split.
  - destruct (Z.eqb_spec (rec_cta_id r1) (rec_cta_id r2)) as [E|E].
    + destruct (live_same _ _ _ _ Hl _ _ _ _ H1 H2 Hne E). rewrite E. done.
    + destruct (Z.lt_ge_cases (rec_cta_id r1) (rec_cta_id r2)); [left|right]; nia.
  - intros Hfit. assert ((rec_cta_id r1 + 1) * lmem_stride L <= lmem_capacity_) by (apply usable_slots_fit; lia). nia.
Qed.

(** C38. The warps of a CTA run each thread of its block exactly once, with its
    own coordinates.  Take a pending CTA of a block with positive dimensions,
    the block size and warp step of the launch path, and at most
    [2^32 - NUM_THREADS] threads ([block_ok]).  Once it is admitted, for every
    sequence of active-warp sets with enough free slots the dispatcher
    finishes the CTA; the coordinates its threads read from the CSRs are
    those of the threads [0, 1, ..., block_size - 1] of the block, X fastest;
    and the [i]-th warp has rank [i] and the [thread_idx] of its first
    thread, number [i * NUM_THREADS], below the block dimensions. *)
Theorem cta_threads_exact (d d' : CtaDispatcher) (acts : list (gset Z))
    (Hb : block_ok (pending_cta_ d))
    (Ha : admit_cta d = (d', true))
    (Hn : cta_size_ d' <= free_cycles acts) :
  let p := pending_cta_ d in
  let warps := (dispatch_all (M := M) acts d').1 in
  mjoin (rec_threads <$> warps) = thread_coord (req_block_dim p) <$> range (req_block_size p)
  /\ (forall i w, warps !! i = Some w ->
       rec_cta_rank w = Z.of_nat i /\ rec_block_idx w = req_block_idx p
       /\ rec_thread_idx w = thread_coord (req_block_dim p) (Z.of_nat i * NUM_THREADS))
  /\ has_cta_ (dispatch_all (M := M) acts d').2 = false.
Proof using Hcfg HM. by apply admitted_threads. Qed.
End Properties.

(** ** Witnesses *)

Definition demo_block : dim3 := Dim3 3 2 1.
Definition demo_launch : kmu_desc_t :=
  mk_kmu_desc 0x80000000 0x80000100 0x10000 demo_block (Dim3 2 1 1) 100 6 (Dim3 1 1 0) (Dim3 1 1 1).
Definition demo_events : list sys_event :=
  [EvLaunch demo_launch; EvDispatch; EvDispatch; EvDispatch; EvExit 1; EvDispatch].

Lemma demo_events_ok : Forall (@event_ok default_config (Some 100)) demo_events.
Proof. repeat constructor; simpl; try lia. by intros ? [= <-]. Defined.

(** A second kernel with a larger local memory before the first is over. *)
Definition demo_mixed : list sys_event :=
  demo_events ++ [EvLaunch (mk_kmu_desc 0x90000000 0x90000100 0x10000 (Dim3 8 1 1) (Dim3 3 1 1) 5000 8 (Dim3 4 0 0) (Dim3 1 1 1));
                  EvExit 0; EvDispatch; EvDispatch; EvExit 2].

Lemma demo_mixed_ok : Forall (@event_ok default_config None) demo_mixed.
Proof. repeat constructor; simpl; try lia; done. Defined.

Lemma cta_slots_exact_witness :
  exists s : cta_sys bits, @sys_run default_config _ _ demo_mixed (@sys_init default_config _) = Some s
    /\ forall slot, 0 <= slot < 4 ->
         vget (slot_rem_warps_ (sys_d s)) slot
         = Z.of_nat (length (filter (fun w => rec_cta_id <$> sys_live s !! w = Some slot)
                                   (range 4)))
           + inflight (sys_d s) slot.
Proof.
  exact (@cta_slots_exact default_config default_config_ok bits bits_mask bits_mask_spec demo_mixed demo_mixed_ok).
Defined.

(** Two live warps of two different CTAs. *)
Definition demo_state : option (cta_sys bits) :=
  @sys_run default_config _ _ demo_events (@sys_init default_config _).

Lemma cta_lmem_private_witness :
  exists (s : cta_sys bits) r1 r2,
    demo_state = Some s /\ sys_live s !! 0 = Some r1 /\ sys_live s !! 2 = Some r2
    /\ (rec_cta_id r1 =? rec_cta_id r2) = false
    /\ (rec_lmem_addr r1 + 100 <= rec_lmem_addr r2 \/ rec_lmem_addr r2 + 100 <= rec_lmem_addr r1).
Proof.
  destruct demo_state as [s|] eqn:Es; [|vm_compute in Es; discriminate].
  destruct (sys_live s !! 0) as [r1|] eqn:E1;
    [|vm_compute in Es; injection Es as <-; vm_compute in E1; discriminate].
  destruct (sys_live s !! 2) as [r2|] eqn:E2;
    [|vm_compute in Es; injection Es as <-; vm_compute in E2; discriminate].
  exists s, r1, r2. split; [done|]. split; [done|]. split; [done|].
  assert ((rec_cta_id r1 =? rec_cta_id r2) = false) as Hne.
  { vm_compute in Es. injection Es as <-. vm_compute in E1, E2.
    injection E1 as <-. injection E2 as <-. reflexivity. }
  split; [exact Hne|].
  pose proof (@cta_lmem_private default_config default_config_ok bits bits_mask bits_mask_spec
    100 demo_events s 0 2 r1 r2 demo_events_ok ltac:(simpl; lia) Es E1 E2 ltac:(lia)) as P.
  rewrite Hne in P. exact (proj1 P).
Defined.

Definition demo_pending : CtaDispatcher :=
  with_pending (@CtaDispatcher_new default_config)
    (step_req (start (mk_kmu demo_launch false 0 dim3_zero dim3_zero))).

Lemma cta_threads_exact_witness :
  let d' := (@admit_cta default_config demo_pending).1 in
  let acts := [∅; list_to_set [0; 1; 2; 3]; {[0]}] in
  mjoin (@rec_threads default_config bits _ <$> (@dispatch_all default_config bits _ acts d').1)
    = [Dim3 0 0 0; Dim3 1 0 0; Dim3 2 0 0; Dim3 0 1 0; Dim3 1 1 0; Dim3 2 1 0]
  /\ (forall i w, (@dispatch_all default_config bits _ acts d').1 !! i = Some w ->
       rec_cta_rank w = Z.of_nat i /\ rec_block_idx w = Dim3 0 0 0
       /\ rec_thread_idx w = thread_coord (Dim3 3 2 1) (Z.of_nat i * 4))
  /\ has_cta_ (@dispatch_all default_config bits _ acts d').2 = false.
Proof.
  apply (@cta_threads_exact default_config default_config_ok bits bits_mask bits_mask_spec
    demo_pending (@admit_cta default_config demo_pending).1).
  - constructor; simpl; unfold dim3_lt; simpl; reflexivity || lia || auto with zarith.
  - vm_compute. reflexivity.
  - vm_compute. discriminate.
Defined.
