(* ===== verification/Launch.v ===== *)
(** * Host side of a kernel launch — [sw/runtime/common/queue.cpp], [utils.cpp], [legacy_runtime.cpp]

    The runtime validates a launch request, derives the KMU descriptor (block
    size, per-warp thread step, cluster shape) and programs it through DCR
    writes: one by one ([Queue::enqueue_launch], [vx_start]) or packed in a
    QMD the command processor replays ([cmd_stage_qmds],
    [cmd_submit_launch]).  The file models the validation, the derivation and
    the three programming sequences, and shows that they configure the KMU as
    requested, so that the launch runs every thread of every block once. *)

From S2P Require Import Prelude Mask Kmu Cta.

(** [vx_result_t], the codes the modelled code returns. *)
Inductive vx_result := VX_SUCCESS | VX_ERR_INVALID_INFO | VX_ERR_INVALID_VALUE.

#[global] Instance vx_result_eq_dec : EqDecision vx_result.
Proof. solve_decision. Defined.

(** The program base and entry of a [Kernel] handle. *)
Record kernel_t := mk_kernel { module_base : Z; kernel_pc : Z }.

(** [vx_launch_info_t]; [li_args_host] is whether the pointer is set. *)
Record launch_info := mk_launch_info {
  li_struct_ok : bool;
  li_kernel : option kernel_t;
  li_args_host : bool;
  li_args_size : Z;
  li_ndim : Z;
  li_grid_dim : list Z;
  li_block_dim : list Z;
  li_cluster_dim : list Z;
  li_lmem_size : Z
}.

(** What [enqueue_launch] captures ([CmdRec] of the batch path). *)
Record CmdRec := mk_cmd_rec {
  cr_kernel : option kernel_t;
  cr_has_args : bool;
  cr_ndim : Z;
  cr_lmem_size : Z;
  cr_grid : list Z;
  cr_block : list Z;
  cr_cluster : list Z
}.

(** [{1, 1, 1}] with the first [ndim] entries copied from [src]. *)
Definition copy_dims (ndim : Z) (src : list Z) : list Z :=
  (fun i => if i <? ndim then vget src i else 1) <$> range 3.

(** [if (lg == 0) lg = 1;] *)
Definition norm_cluster (lg : Z) : Z := if lg =? 0 then 1 else lg.

(** The validation of [Queue::enqueue_launch] and of [cmd_build_recs]. *)
Definition validate_launch (info : option launch_info) : vx_result + CmdRec :=
  match info with
  | None => inl VX_ERR_INVALID_VALUE
  | Some li =>
    if negb (li_struct_ok li) then inl VX_ERR_INVALID_INFO
    else if 3 <? li_ndim li then inl VX_ERR_INVALID_VALUE
    else if negb (li_args_size li =? 0) && negb (li_args_host li) then inl VX_ERR_INVALID_VALUE
    else
      let grid := copy_dims (li_ndim li) (li_grid_dim li) in
      let block := copy_dims (li_ndim li) (li_block_dim li) in
      let lg i := norm_cluster (vget (li_cluster_dim li) i) in
      if forallb (fun i => vget grid i mod lg i =? 0) (range (li_ndim li)) then
        inr (mk_cmd_rec (li_kernel li) (li_args_host li && (0 <? li_args_size li)) (li_ndim li)
               (li_lmem_size li) grid block
               ((fun i => if i <? li_ndim li then lg i else 1) <$> range 3))
      else inl VX_ERR_INVALID_VALUE
  end.

(** C++ [a / b] and [a % b] on [uint32_t]; a zero divisor is undefined. *)
Definition div32 (a b : Z) : option Z := if b =? 0 then None else Some (a / b).
Definition mod32 (a b : Z) : option Z := if b =? 0 then None else Some (a mod b).

(** [block_size *= eff_block[i]] over the used dimensions. *)
Definition block_product (ndim : Z) (block : list Z) : Z :=
  fold_left (fun acc i => u32 (acc * vget block i)) (range ndim) 1.

(** [prepare_kernel_launch_params]: effective block, block size, warp step. *)
Definition prepare_kernel_launch_params (tpw nwarps ndim : Z) (block_dim : option (list Z))
    : option (list Z * Z * dim3) :=
  let src := default [tpw; nwarps; 1] block_dim in
  let eff := copy_dims ndim src in
  let block_size := block_product ndim eff in
  sx ← mod32 tpw (vget eff 0);
  qy ← div32 tpw (vget eff 0);
  sy ← mod32 qy (vget eff 1);
  qz ← div32 tpw (u32 (vget eff 0 * vget eff 1));
  sz ← mod32 qz (vget eff 2);
  Some (eff, block_size, Dim3 sx sy sz).

(** The warp step of the launch worker and of [cmd_stage_qmds]. *)
Definition launch_warp_step (tpw ndim : Z) (eff : list Z) : option dim3 :=
  sx ← (if (1 <=? ndim) && negb (vget eff 0 =? 0) then mod32 tpw (vget eff 0) else Some 0);
  sy ← (if (2 <=? ndim) && negb (vget eff 1 =? 0) then
          q ← div32 tpw (vget eff 0); mod32 q (vget eff 1) else Some 0);
  sz ← (if (3 <=? ndim) && negb (vget eff 2 =? 0) then
          q ← div32 tpw (u32 (vget eff 0 * vget eff 1)); mod32 q (vget eff 2) else Some 0);
  Some (Dim3 sx sy sz).

(** The DCR writes of one launch, as both the worker ([WR]) and the QMD
    packer ([put]) produce them; [args] is the staged argument address. *)
Definition launch_writes (tpw : Z) (r : CmdRec) (args : option Z) : option (list (Z * Z)) :=
  let eff := copy_dims (cr_ndim r) (cr_block r) in
  let block_size := block_product (cr_ndim r) eff in
  ws ← launch_warp_step tpw (cr_ndim r) eff;
  Some (
    match cr_kernel r with
    | Some k =>
      [(VX_DCR_KMU_STARTUP_ADDR0, Z.land (module_base k) lo_mask);
       (VX_DCR_KMU_STARTUP_ADDR1, u32 (Z.shiftr (module_base k) 32));
       (VX_DCR_KMU_KERNEL_ENTRY0, Z.land (kernel_pc k) lo_mask);
       (VX_DCR_KMU_KERNEL_ENTRY1, u32 (Z.shiftr (kernel_pc k) 32))]
    | None => []
    end ++
    match args with
    | Some a =>
      [(VX_DCR_KMU_STARTUP_ARG0, Z.land a lo_mask);
       (VX_DCR_KMU_STARTUP_ARG1, u32 (Z.shiftr a 32))]
    | None => []
    end ++
    (if 0 <? cr_ndim r then
      [(VX_DCR_KMU_BLOCK_DIM_X, vget eff 0);
       (VX_DCR_KMU_BLOCK_DIM_Y, vget eff 1);
       (VX_DCR_KMU_BLOCK_DIM_Z, vget eff 2);
       (VX_DCR_KMU_GRID_DIM_X, vget (cr_grid r) 0);
       (VX_DCR_KMU_GRID_DIM_Y, if 2 <=? cr_ndim r then vget (cr_grid r) 1 else 1);
       (VX_DCR_KMU_GRID_DIM_Z, if 3 <=? cr_ndim r then vget (cr_grid r) 2 else 1);
       (VX_DCR_KMU_LMEM_SIZE, cr_lmem_size r);
       (VX_DCR_KMU_BLOCK_SIZE, block_size);
       (VX_DCR_KMU_WARP_STEP_X, dim_x ws);
       (VX_DCR_KMU_WARP_STEP_Y, dim_y ws);
       (VX_DCR_KMU_WARP_STEP_Z, dim_z ws);
       (VX_DCR_KMU_CLUSTER_DIM_X, vget (cr_cluster r) 0);
       (VX_DCR_KMU_CLUSTER_DIM_Y, vget (cr_cluster r) 1);
       (VX_DCR_KMU_CLUSTER_DIM_Z, vget (cr_cluster r) 2)]
     else [])).

(** The QMD words [[count, (addr, value) ...]] of [cmd_stage_qmds]. *)
Definition pack_qmd (ws : list (Z * Z)) : list Z :=
  let body := mjoin ((fun w => [w.1; w.2]) <$> ws) in
  u32 (Z.of_nat (length body) / 2) :: body.

(** The pairs [cmd_submit_launch] replays when the CP has no QMD decoder. *)
Definition replay_qmd (qmd : list Z) : list (Z * Z) :=
  let count := match qmd with [] => 0 | c :: _ => c end in
  (fun k => (vget qmd (1 + 2 * k), vget qmd (2 + 2 * k))) <$> range count.

(** The write table of the legacy [vx_start]. *)
Definition legacy_writes (pc argp num_cores num_threads num_warps : Z) : option (list (Z * Z)) :=
  '(eff, block_size, ws) ← prepare_kernel_launch_params num_threads num_warps 1 None;
  Some [(VX_DCR_KMU_STARTUP_ADDR0, u32 (Z.land pc lo_mask));
        (VX_DCR_KMU_STARTUP_ADDR1, u32 (Z.shiftr pc 32));
        (VX_DCR_KMU_STARTUP_ARG0, u32 (Z.land argp lo_mask));
        (VX_DCR_KMU_STARTUP_ARG1, u32 (Z.shiftr argp 32));
        (VX_DCR_KMU_BLOCK_DIM_X, vget eff 0);
        (VX_DCR_KMU_BLOCK_DIM_Y, 1);
        (VX_DCR_KMU_BLOCK_DIM_Z, 1);
        (VX_DCR_KMU_GRID_DIM_X, u32 num_cores);
        (VX_DCR_KMU_GRID_DIM_Y, 1);
        (VX_DCR_KMU_GRID_DIM_Z, 1);
        (VX_DCR_KMU_LMEM_SIZE, 0);
        (VX_DCR_KMU_BLOCK_SIZE, block_size);
        (VX_DCR_KMU_WARP_STEP_X, dim_x ws);
        (VX_DCR_KMU_WARP_STEP_Y, dim_y ws);
        (VX_DCR_KMU_WARP_STEP_Z, dim_z ws);
        (VX_DCR_KMU_CLUSTER_DIM_X, 1);
        (VX_DCR_KMU_CLUSTER_DIM_Y, 1);
        (VX_DCR_KMU_CLUSTER_DIM_Z, 1)].

(** The DCR writes reaching the KMU in order. *)
Definition dcr_writes (ws : list (Z * Z)) (k : Kmu) : Kmu :=
  fold_left (fun k w => dcr_write w.1 w.2 k) ws k.

(** ** Lemmas *)

Definition dims (l : list Z) : dim3 := Dim3 (vget l 0) (vget l 1) (vget l 2).

(** The pair of 32-bit halves reassembles a 64-bit register. *)
Lemma set_lo_hi reg v :
  0 <= v < 2 ^ 64 -> set_hi (set_lo reg (Z.land v lo_mask)) (u32 (Z.shiftr v 32)) = v.
Proof.
  intros Hv. unfold set_hi, set_lo, lnot_w, u32, u64.
  change lo_mask with (Z.ones 32). rewrite <- !Z.land_ones by lia.
  apply Z.bits_inj'. intros i Hi.
  rewrite !Z.lor_spec, !Z.land_spec, !Z.lor_spec, !Z.land_spec, Z.lxor_spec.
  destruct (Z.lt_ge_cases i 32).
  - rewrite Z.shiftl_spec_low, !(Z.ones_spec_low 32), (Z.ones_spec_low 64) by lia.
    destruct (Z.testbit v i), (Z.testbit reg i); done.
  - rewrite (Z.ones_spec_high 32 i) by lia. rewrite Z.shiftl_spec, Z.land_spec, Z.shiftr_spec by lia.
    replace (i - 32 + 32) with i by lia.
    destruct (Z.lt_ge_cases i 64).
    + rewrite (Z.ones_spec_low 32 (i - 32)), (Z.ones_spec_low 64) by lia.
      destruct (Z.testbit v i), (Z.testbit reg i); done.
    + rewrite (testbit_high 64 v i) by lia. destruct (Z.testbit reg i); simpl; rewrite ?andb_false_r; done.
Qed.

Lemma set_lo_hi32 reg v :
  0 <= v < 2 ^ 64 -> set_hi (set_lo reg (u32 (Z.land v lo_mask))) (u32 (Z.shiftr v 32)) = v.
Proof.
  intros Hv. rewrite u32_small; [by apply set_lo_hi|].
  change lo_mask with (Z.ones 32). rewrite Z.land_ones by lia. apply Z.mod_pos_bound. lia.
Qed.

(** The descriptor a launch asks for. *)
Definition requested_desc (r : CmdRec) (args : option Z) (step : dim3) (old : kmu_desc_t) : kmu_desc_t :=
  {| PC_ := match cr_kernel r with Some k => module_base k | None => PC_ old end;
     entry_ := match cr_kernel r with Some k => kernel_pc k | None => entry_ old end;
     param_ := default (param_ old) args;
     block_dim_ := dims (copy_dims (cr_ndim r) (cr_block r));
     grid_dim_ := Dim3 (vget (cr_grid r) 0) (if 2 <=? cr_ndim r then vget (cr_grid r) 1 else 1)
                       (if 3 <=? cr_ndim r then vget (cr_grid r) 2 else 1);
     lmem_size_ := cr_lmem_size r;
     block_size_ := block_product (cr_ndim r) (copy_dims (cr_ndim r) (cr_block r));
     warp_step_ := step;
     cluster_dim_ := dims (cr_cluster r) |}.

Definition addr64 (a : Z) : Prop := 0 <= a < 2 ^ 64.

(** Runs a sequence of writes to known registers. *)
Ltac run_dcr_writes :=
  cbv [dcr_writes fold_left app fst snd dcr_write dcr_write_desc desc running_ cta_id_ group_origin_
    intra_offset_ PC_ entry_ param_ block_dim_ grid_dim_ lmem_size_ block_size_ warp_step_ cluster_dim_
    with_PC with_entry with_param with_block_dim with_grid_dim with_lmem_size with_block_size
    with_warp_step with_cluster_dim set_x set_y set_z dim_x dim_y dim_z Z.eqb Pos.eqb
    VX_DCR_KMU_STARTUP_ADDR0 VX_DCR_KMU_STARTUP_ADDR1 VX_DCR_KMU_KERNEL_ENTRY0
    VX_DCR_KMU_KERNEL_ENTRY1 VX_DCR_KMU_STARTUP_ARG0 VX_DCR_KMU_STARTUP_ARG1
    VX_DCR_KMU_BLOCK_DIM_X VX_DCR_KMU_BLOCK_DIM_Y VX_DCR_KMU_BLOCK_DIM_Z
    VX_DCR_KMU_GRID_DIM_X VX_DCR_KMU_GRID_DIM_Y VX_DCR_KMU_GRID_DIM_Z
    VX_DCR_KMU_LMEM_SIZE VX_DCR_KMU_BLOCK_SIZE
    VX_DCR_KMU_WARP_STEP_X VX_DCR_KMU_WARP_STEP_Y VX_DCR_KMU_WARP_STEP_Z
    VX_DCR_KMU_CLUSTER_DIM_X VX_DCR_KMU_CLUSTER_DIM_Y VX_DCR_KMU_CLUSTER_DIM_Z].

(** The writes leave exactly the requested descriptor, whatever was there. *)
Lemma launch_writes_desc tpw r args ws step k :
  0 < cr_ndim r -> launch_warp_step tpw (cr_ndim r) (copy_dims (cr_ndim r) (cr_block r)) = Some step ->
  (forall kn, cr_kernel r = Some kn -> addr64 (module_base kn) /\ addr64 (kernel_pc kn)) ->
  (forall a, args = Some a -> addr64 a) ->
  launch_writes tpw r args = Some ws ->
  dcr_writes ws k = mk_kmu (requested_desc r args step (desc k)) (running_ k) (cta_id_ k)
                      (group_origin_ k) (intra_offset_ k).
Proof.
  intros Hn Hstep Hk Ha. unfold launch_writes. rewrite Hstep, (proj2 (Z.ltb_lt 0 _) Hn).
  simpl. intros [= <-]. unfold requested_desc, dims. destruct step as [sx sy sz].
  destruct k as [[pc en pa bd gd lm bs wst cd] ru id go io].
  destruct (cr_kernel r) as [kn|], args as [a|];
    repeat match goal with
    | H : forall kn', Some _ = Some kn' -> _ |- _ => specialize (H _ eq_refl)
    | H : forall a', Some _ = Some a' -> _ |- _ => specialize (H _ eq_refl)
    end;
    run_dcr_writes; rewrite ?set_lo_hi by (apply Hk || apply Ha); done.
Qed.

Lemma copy_dims_eq n l :
  copy_dims n l = [if 0 <? n then vget l 0 else 1; if 1 <? n then vget l 1 else 1;
                   if 2 <? n then vget l 2 else 1].
Proof. reflexivity. Qed.

Lemma copy_dims_fix n l :
  copy_dims n l = l -> exists x y z, l = [x; y; z] /\ (n <= 1 -> y = 1) /\ (n <= 2 -> z = 1).
Proof.
  rewrite copy_dims_eq. intros E. eexists _, _, _. split; [symmetry; exact E|].
  split; intros; bool_cases; lia.
Qed.

Lemma ndim_cases n : 1 <= n <= 3 -> n = 1 \/ n = 2 \/ n = 3.
Proof. lia. Qed.

(** A launch shape the runtime and the hardware can represent: used
    dimensions positive, all sizes in range. *)
Record shape_ok (tpw : Z) (r : CmdRec) : Prop := {
  sh_ndim : 1 <= cr_ndim r <= 3;
  sh_tpw : 0 < tpw;
  sh_block : dim3_lt dim3_zero (dims (cr_block r));
  sh_block_unused : copy_dims (cr_ndim r) (cr_block r) = cr_block r;
  sh_volume : dim3_volume (dims (cr_block r)) + tpw <= 2 ^ 32;
  sh_grid : dim3_lt dim3_zero (dims (cr_grid r));
  sh_grid_unused : copy_dims (cr_ndim r) (cr_grid r) = cr_grid r;
  sh_grid32 : dim3_lt (dims (cr_grid r)) (Dim3 (2 ^ 32) (2 ^ 32) (2 ^ 32));
  sh_kernel : forall kn, cr_kernel r = Some kn -> addr64 (module_base kn) /\ addr64 (kernel_pc kn)
}.

(** The digits of the warp width in the block. *)
Definition warp_digits (tpw : Z) (b : dim3) : dim3 :=
  Dim3 (tpw mod dim_x b) ((tpw / dim_x b) mod dim_y b) ((tpw / (dim_x b * dim_y b)) mod dim_z b).

Lemma mod32_pos a b : 0 < b -> mod32 a b = Some (a mod b).
Proof. intros. unfold mod32. by rewrite (proj2 (Z.eqb_neq b 0)) by lia. Qed.

Lemma div32_pos a b : 0 < b -> div32 a b = Some (a / b).
Proof. intros. unfold div32. by rewrite (proj2 (Z.eqb_neq b 0)) by lia. Qed.

Section Shape.
Variables (tpw : Z) (r : CmdRec).
Hypothesis Hr : shape_ok tpw r.

(** The block as three positive numbers whose products fit. *)
Lemma shape_block :
  exists x y z, cr_block r = [x; y; z] /\ 0 < x /\ 0 < y /\ 0 < z
    /\ x * y * z + tpw <= 2 ^ 32 /\ x * y <= x * y * z /\ x <= x * y
    /\ (cr_ndim r <= 1 -> y = 1) /\ (cr_ndim r <= 2 -> z = 1).
Proof using Hr.
  destruct Hr as [Hn Ht (Hx & Hy & Hz) Hu Hv _ _ _ _].
  destruct (copy_dims_fix _ _ Hu) as (x & y & z & E & Hy1 & Hz1).
  rewrite E in Hx, Hy, Hz, Hv. change (dims [x; y; z]) with (Dim3 x y z) in *.
  unfold dim3_volume in Hv. simpl in Hx, Hy, Hz, Hv.
  exists x, y, z. split_and!; done || lia || nia.
Qed.

Lemma shape_product : block_product (cr_ndim r) (cr_block r) = dim3_volume (dims (cr_block r)).
Proof using Hr.
  destruct shape_block as (x & y & z & -> & ? & ? & ? & ? & ? & ? & Hy1 & Hz1).
  pose proof (sh_ndim _ _ Hr) as Hn. pose proof (sh_tpw _ _ Hr).
  unfold dims, dim3_volume. cbn [dim_x dim_y dim_z].
  change (vget [x; y; z] 0) with x. change (vget [x; y; z] 1) with y.
  change (vget [x; y; z] 2) with z.
  apply ndim_cases in Hn as [E | [E | E]]; rewrite E in *.
  - change (u32 (1 * x) = x * y * z). rewrite Hy1, Hz1 in * by lia. rewrite u32_small by lia. lia.
  - change (u32 (u32 (1 * x) * y) = x * y * z).
    rewrite Hz1 in * by lia. rewrite (u32_small (1 * x)), Z.mul_1_l, u32_small by lia. lia.
  - change (u32 (u32 (u32 (1 * x) * y) * z) = x * y * z).
    rewrite (u32_small (1 * x)), Z.mul_1_l, (u32_small (x * y)), u32_small by lia. lia.
Qed.

(** Both derivations of the warp step succeed and give the digits. *)
Lemma launch_step_digits :
  launch_warp_step tpw (cr_ndim r) (cr_block r) = Some (warp_digits tpw (dims (cr_block r))).
Proof using Hr.
  destruct shape_block as (x & y & z & -> & ? & ? & ? & ? & ? & ? & Hy1 & Hz1).
  pose proof (sh_ndim _ _ Hr) as Hn. pose proof (sh_tpw _ _ Hr).
  unfold launch_warp_step, warp_digits, dims. cbn [dim_x dim_y dim_z].
  change (vget [x; y; z] 0) with x. change (vget [x; y; z] 1) with y.
  change (vget [x; y; z] 2) with z.
  rewrite !(proj2 (Z.eqb_neq _ 0)) by lia. rewrite (u32_small (x * y)), !div32_pos by lia.
  rewrite !mod32_pos by lia. cbn [negb andb].
  apply ndim_cases in Hn as [E | [E | E]]; rewrite E in *; cbn -[Z.modulo Z.div Z.mul];
    rewrite ?mod32_pos by lia; cbn -[Z.modulo Z.div Z.mul].
  - rewrite Hy1, Hz1, !Z.mod_1_r by lia. done.
  - rewrite Hz1, !Z.mod_1_r by lia. done.
  - done.
Qed.

Lemma prepare_digits nwarps :
  prepare_kernel_launch_params tpw nwarps (cr_ndim r) (Some (cr_block r))
  = Some (cr_block r, block_product (cr_ndim r) (cr_block r), warp_digits tpw (dims (cr_block r))).
Proof using Hr.
  unfold prepare_kernel_launch_params. cbn [default id]. rewrite (sh_block_unused _ _ Hr).
  destruct shape_block as (x & y & z & -> & ? & ? & ? & ? & ? & ? & Hy1 & Hz1).
  pose proof (sh_tpw _ _ Hr). unfold warp_digits, dims. cbn [dim_x dim_y dim_z].
  change (vget [x; y; z] 0) with x. change (vget [x; y; z] 1) with y.
  change (vget [x; y; z] 2) with z.
  rewrite (u32_small (x * y)), !div32_pos by lia. rewrite mod32_pos by lia. cbn [mbind option_bind].
  rewrite !mod32_pos by lia. done.
Qed.
End Shape.

(** A request within the representable sizes: used dimensions positive. *)
Record info_ok (tpw : Z) (li : launch_info) : Prop := {
  ii_tpw : 0 < tpw;
  ii_ndim : 1 <= li_ndim li;
  ii_block : dim3_lt dim3_zero (dims (copy_dims (li_ndim li) (li_block_dim li)));
  ii_volume : dim3_volume (dims (copy_dims (li_ndim li) (li_block_dim li))) + tpw <= 2 ^ 32;
  ii_grid : dim3_lt dim3_zero (dims (copy_dims (li_ndim li) (li_grid_dim li)));
  ii_grid32 : dim3_lt (dims (copy_dims (li_ndim li) (li_grid_dim li))) (Dim3 (2 ^ 32) (2 ^ 32) (2 ^ 32));
  ii_cluster : Forall (fun c => 0 <= c) (li_cluster_dim li);
  ii_kernel : forall kn, li_kernel li = Some kn -> addr64 (module_base kn) /\ addr64 (kernel_pc kn)
}.

Lemma copy_dims_idem n l : copy_dims n (copy_dims n l) = copy_dims n l.
Proof.
  rewrite !copy_dims_eq.
  change (vget [?x; ?y; ?z] 0) with x. change (vget [?x; ?y; ?z] 1) with y.
  change (vget [?x; ?y; ?z] 2) with z. bool_cases; done.
Qed.

(** What an accepted request captures. *)
Lemma validate_shape tpw li r :
  info_ok tpw li -> validate_launch (Some li) = inr r ->
  shape_ok tpw r /\ forall i, 0 <= i < 3 ->
    0 < vget (cr_cluster r) i /\ (vget (cr_cluster r) i | vget (cr_grid r) i).
Proof.
  intros [Ht Hn Hb Hv Hg Hg32 Hc Hk]. unfold validate_launch.
  destruct (li_struct_ok li); [|done]. cbn [negb].
  destruct (Z.ltb_spec 3 (li_ndim li)); [done|].
  destruct (negb (li_args_size li =? 0) && _); [done|].
  destruct (forallb _ _) eqn:F; [|done]. intros <-%(inj inr). split.
  - constructor; cbn [cr_ndim cr_block cr_grid cr_kernel]; rewrite ?copy_dims_idem; done || lia.
  - intros i Hi. cbn [cr_cluster cr_grid].
    assert (forall f : Z -> Z, vget (f <$> range 3) i = f i) as Hget.
    { intros f. assert (i = 0 \/ i = 1 \/ i = 2) as [-> | [-> | ->]] by lia; done. }
    unfold copy_dims at 1. rewrite !Hget. cbv beta.
    destruct (Z.ltb_spec i (li_ndim li)); [|split; [lia | exists 1; lia]].
    rewrite forallb_forall in F. specialize (F i).
    rewrite <- list_elem_of_In, elem_of_range in F. specialize (F ltac:(lia)).
    apply Z.eqb_eq in F. unfold copy_dims in F. rewrite Hget, (proj2 (Z.ltb_lt _ _)) in F by done.
    assert (0 < norm_cluster (vget (li_cluster_dim li) i)) as Hpos.
    { unfold norm_cluster, vget. bool_cases; [lia|].
      destruct (decide (Z.to_nat i < length (li_cluster_dim li))%nat) as [Hl|Hl].
      - apply list_lookup_lookup_total_lt in Hl. eapply Forall_lookup_1 in Hl; [|done]. simpl in Hl. lia.
      - rewrite list_lookup_total_alt, lookup_ge_None_2 by lia. done. }
    split; [done|]. apply Z.mod_divide in F; [done|lia].
Qed.

(** The requested descriptor is one the KMU walks exactly. *)
Lemma requested_launch_ok tpw r args old :
  shape_ok tpw r ->
  (forall i, 0 <= i < 3 ->
    0 < vget (cr_cluster r) i /\ (vget (cr_cluster r) i | vget (cr_grid r) i)) ->
  let d := requested_desc r args (warp_digits tpw (dims (cr_block r))) old in
  launch_ok d /\ grid_dim_ d = dims (cr_grid r) /\ block_dim_ d = dims (cr_block r)
  /\ block_size_ d = dim3_volume (dims (cr_block r)).
Proof.
  intros Hr Hc. cbn [requested_desc grid_dim_ block_dim_ block_size_].
  rewrite (sh_block_unused _ _ Hr), (shape_product _ _ Hr).
  assert (Dim3 (vget (cr_grid r) 0) (if 2 <=? cr_ndim r then vget (cr_grid r) 1 else 1)
            (if 3 <=? cr_ndim r then vget (cr_grid r) 2 else 1) = dims (cr_grid r)) as Hg.
  { destruct (copy_dims_fix _ _ (sh_grid_unused _ _ Hr)) as (x & y & z & -> & Hy1 & Hz1).
    unfold dims. f_equal; bool_cases; done || (symmetry; cbn; apply Hy1 || apply Hz1; lia). }
  rewrite Hg. split; [|done]. destruct (sh_grid _ _ Hr) as (? & ? & ?), (sh_grid32 _ _ Hr) as (? & ? & ?).
  unfold launch_ok, requested_desc, axis_ok. cbn [block_size_ grid_dim_ cluster_dim_].
  rewrite Hg, (sh_block_unused _ _ Hr), (shape_product _ _ Hr). simpl in *.
  split; [|repeat split; try lia; apply Hc; lia].
  destruct (sh_block _ _ Hr) as (? & ? & ?). unfold dim3_volume. simpl in *. nia.
Qed.

(** ** Properties *)

Section EndToEnd.
Context `{Hcfg : VxConfigOk} `{HM : MaskSpec M}.

(** C31. A well-formed launch the runtime accepts runs every thread of every
    block exactly once.  Well-formed ([info_ok]): one to three dimensions,
    positive block and grid dimensions below [2^32], a block of at most
    [2^32 - NUM_THREADS] threads and 64-bit addresses; the validation of the
    runtime does not ensure this, and a zero block dimension divides by zero
    ([zero_block_divides_by_zero]).  The thread count of the capability word
    is taken to be [NUM_THREADS].  Then the DCR writes of [enqueue_launch]
    exist, the KMU they program issues every block of the requested grid
    exactly once, and each issued CTA, whenever a dispatcher admits it and
    whatever warp slots are free on each cycle, starts threads that read the
    coordinates of every thread of the block, once each and X fastest. *)
Theorem launch_runs_every_thread (li : launch_info) (r : CmdRec) (args : option Z) (k : Kmu) (n : nat)
    (Hli : info_ok NUM_THREADS li)
    (Hv : validate_launch (Some li) = inr r)
    (Hargs : forall a, args = Some a -> addr64 a)
    (Hn : dim3_volume (dims (cr_grid r)) <= Z.of_nat n) :
  exists ws, launch_writes NUM_THREADS r args = Some ws
  /\ let reqs := (run n (start (dcr_writes ws k))).1 in
     NoDup (req_block_idx <$> reqs)
     /\ (forall b, b ∈ (req_block_idx <$> reqs) <-> dim3_lt b (dims (cr_grid r)))
     /\ forall d d' acts, pending_cta_ d ∈ reqs -> admit_cta d = (d', true) ->
          cta_size_ d' <= free_cycles acts ->
          mjoin (rec_threads <$> (dispatch_all (M := M) acts d').1)
          = thread_coord (dims (cr_block r)) <$> range (dim3_volume (dims (cr_block r))).
Proof using Hcfg HM.
  destruct (validate_shape _ _ _ Hli Hv) as [Hr Hc].
  pose proof (launch_step_digits _ _ Hr) as Hstep.
  set (step := warp_digits NUM_THREADS (dims (cr_block r))) in *.
  assert (exists ws, launch_writes NUM_THREADS r args = Some ws) as [ws Hws].
  { unfold launch_writes. rewrite (sh_block_unused _ _ Hr), Hstep. by eexists. }
  exists ws. split; [done|].
  pose proof (sh_ndim _ _ Hr).
  rewrite (launch_writes_desc NUM_THREADS r args ws step); [|lia| |apply (sh_kernel _ _ Hr)|done..];
    [|by rewrite (sh_block_unused _ _ Hr)].
  destruct (requested_launch_ok NUM_THREADS r args (desc k) Hr Hc) as (Hok & Hg & Hb & Hbs).
  fold step in Hok, Hg, Hb, Hbs. set (d := requested_desc r args step (desc k)) in *.
  assert (warp_step_ d = step) as Hst by done. clearbody d.
  rewrite <- Hg in Hn |- *.
  destruct (run_enumerates d (mk_kmu d (running_ k) (cta_id_ k) (group_origin_ k) (intra_offset_ k)) n
    Hok eq_refl Hn) as (_ & _ & Hnd & Hin).
  split; [exact Hnd|]. split; [exact Hin|]. intros dd d' acts Hp Ha Hcyc.
  apply (run_reqs d) in Hp as (i & j & Hq); [|done..].
  destruct (admitted_threads (M := M) dd d' acts) as [-> _]; [|done..|by rewrite Hq; cbn; rewrite Hb, Hbs].
  pose proof (sh_volume _ _ Hr). rewrite Hq.
  constructor; cbn; rewrite ?Hb, ?Hbs, ?Hst; try done. apply (sh_block _ _ Hr).
Qed.
End EndToEnd.

Lemma pack_body_get ws k :
  0 <= k < Z.of_nat (length ws) ->
  (vget (0 :: mjoin ((fun w : Z * Z => [w.1; w.2]) <$> ws)) (1 + 2 * k),
   vget (0 :: mjoin ((fun w : Z * Z => [w.1; w.2]) <$> ws)) (2 + 2 * k)) = vget ws k.
Proof.
  intros Hk. unfold vget.
  replace (Z.to_nat (1 + 2 * k)) with (S (2 * Z.to_nat k)) by lia.
  replace (Z.to_nat (2 + 2 * k)) with (S (S (2 * Z.to_nat k))) by lia.
  assert (Hn : (Z.to_nat k < length ws)%nat) by lia. revert Hn. generalize (Z.to_nat k). clear Hk.
  induction ws as [|[a b] ws IH]; intros n Hn; [simpl in Hn; lia|].
  destruct n as [|n]; [done|]. change (((a, b) :: ws) !!! S n) with (ws !!! n).
  rewrite <- (IH n) by (simpl in Hn; lia).
  replace (2 * S n)%nat with (S (S (2 * n))) by lia. done.
Qed.

(** The QMD is a faithful carrier: replaying a packed descriptor issues
    exactly the DCR writes that were packed, in order, so the batch path
    programs the KMU as the direct path does. *)
Theorem qmd_roundtrip (ws : list (Z * Z)) (Hlen : Z.of_nat (length ws) < 2 ^ 32) :
  replay_qmd (pack_qmd ws) = ws.
Proof.
  unfold replay_qmd, pack_qmd.
  assert (Z.of_nat (length (mjoin ((fun w : Z * Z => [w.1; w.2]) <$> ws)))
    = 2 * Z.of_nat (length ws)) as ->.
  { clear. induction ws as [|w ws IH]; [done|]. rewrite fmap_cons. simpl in *. lia. }
  rewrite Z.mul_comm, Z.div_mul, u32_small by lia.
  apply list_eq. intros i. rewrite list_lookup_fmap, range_span, Nat2Z.id. unfold span.
  rewrite list_lookup_fmap. destruct (decide (i < length ws)%nat) as [Hi|Hi].
  - rewrite lookup_seq_lt by done. simpl fmap. cbn [fmap option_fmap option_map].
    pose proof (pack_body_get ws (Z.of_nat i) ltac:(lia)) as P.
    rewrite list_lookup_lookup_total_lt by done. f_equal.
    unfold vget in P at 3. rewrite Nat2Z.id in P. rewrite <- P, !Z.add_0_l.
    unfold vget. f_equal.
    + replace (Z.to_nat (1 + 2 * Z.of_nat i)) with (S (2 * i)) by lia. done.
    + replace (Z.to_nat (2 + 2 * Z.of_nat i)) with (S (S (2 * i))) by lia. done.
  - rewrite lookup_seq_ge, lookup_ge_None_2 by lia. done.
Qed.

Lemma qmd_roundtrip_witness : replay_qmd (pack_qmd [(0x10, 5); (0x11, 6)]) = [(0x10, 5); (0x11, 6)].
Proof. apply qmd_roundtrip. simpl. lia. Defined.

(** The launch worker and [prepare_kernel_launch_params] derive the same
    block size and warp step for every accepted request with positive used
    block dimensions. *)
Theorem launch_params_agree (tpw nwarps : Z) (li : launch_info) (r : CmdRec)
    (Hli : info_ok tpw li) (Hv : validate_launch (Some li) = inr r) :
  exists step,
    launch_warp_step tpw (cr_ndim r) (copy_dims (cr_ndim r) (cr_block r)) = Some step
    /\ prepare_kernel_launch_params tpw nwarps (li_ndim li) (Some (li_block_dim li))
       = Some (copy_dims (cr_ndim r) (cr_block r),
               block_product (cr_ndim r) (copy_dims (cr_ndim r) (cr_block r)), step).
Proof.
  destruct (validate_shape _ _ _ Hli Hv) as [Hr _].
  assert (cr_block r = copy_dims (li_ndim li) (li_block_dim li) /\ cr_ndim r = li_ndim li) as [Eb En].
  { revert Hv. unfold validate_launch. repeat (case_match; try done). by intros <-%(inj inr). }
  exists (warp_digits tpw (dims (cr_block r))).
  rewrite (sh_block_unused _ _ Hr). split; [by apply launch_step_digits|].
  rewrite <- (prepare_digits tpw r Hr nwarps), En.
  unfold prepare_kernel_launch_params. cbn [default id]. by rewrite Eb, copy_dims_idem.
Qed.

(** A request for a 4x2 grid of 3x2 blocks in clusters of two. *)
Definition demo_info : launch_info :=
  mk_launch_info true (Some (mk_kernel 0x80000000 0x80000040)) true 16 2
    [4; 2; 0] [3; 2; 0] [2; 0; 0] 100.
Definition demo_rec : CmdRec :=
  mk_cmd_rec (Some (mk_kernel 0x80000000 0x80000040)) true 2 100 [4; 2; 1] [3; 2; 1] [2; 1; 1].

Lemma demo_info_ok : info_ok 4 demo_info.
Proof.
  constructor.
  - lia.
  - cbn. lia.
  - change (dim3_lt dim3_zero (Dim3 3 2 1)). unfold dim3_lt. cbn. lia.
  - change (6 + 4 <= 2 ^ 32). lia.
  - change (dim3_lt dim3_zero (Dim3 4 2 1)). unfold dim3_lt. cbn. lia.
  - change (dim3_lt (Dim3 4 2 1) (Dim3 (2 ^ 32) (2 ^ 32) (2 ^ 32))). unfold dim3_lt.
    cbn [dim_x dim_y dim_z]. lia.
  - repeat constructor; lia.
  - intros kn [= <-]. unfold addr64. cbn [module_base kernel_pc]. lia.
Defined.

Lemma launch_params_agree_witness :
  exists step, launch_warp_step 4 2 [3; 2; 1] = Some step
    /\ prepare_kernel_launch_params 4 4 2 (Some [3; 2; 0]) = Some ([3; 2; 1], 6, step).
Proof. exact (launch_params_agree 4 4 demo_info demo_rec demo_info_ok eq_refl). Defined.

(** A grid of 4 by 2 blocks of 3 by 2 threads in clusters of two; the sixth CTA
    takes two warps. *)
Lemma launch_runs_every_thread_witness :
  exists ws q, launch_writes 4 demo_rec (Some 0x1000) = Some ws
  /\ NoDup (req_block_idx <$> (run 8 (start (dcr_writes ws Kmu_new))).1)
  /\ (forall b, b ∈ (req_block_idx <$> (run 8 (start (dcr_writes ws Kmu_new))).1)
       <-> dim3_lt b (Dim3 4 2 1))
  /\ (run 8 (start (dcr_writes ws Kmu_new))).1 !! 5%nat = Some q
  /\ mjoin (@rec_threads default_config bits _ <$> (@dispatch_all default_config bits _ [∅; ∅]
       (@admit_cta default_config (with_pending (@CtaDispatcher_new default_config) q)).1).1)
     = [Dim3 0 0 0; Dim3 1 0 0; Dim3 2 0 0; Dim3 0 1 0; Dim3 1 1 0; Dim3 2 1 0].
Proof.
  destruct (@launch_runs_every_thread default_config default_config_ok bits bits_mask bits_mask_spec
    demo_info demo_rec (Some 0x1000) Kmu_new 8 demo_info_ok eq_refl) as (ws & Hws & Hnd & Hin & Hth).
  - intros a [= <-]. unfold addr64. lia.
  - vm_compute. discriminate.
  - assert (exists q, (run 8 (start (dcr_writes ws Kmu_new))).1 !! 5%nat = Some q
      /\ @admit_cta default_config (with_pending (@CtaDispatcher_new default_config) q)
         = ((@admit_cta default_config (with_pending (@CtaDispatcher_new default_config) q)).1, true)
      /\ cta_size_ (@admit_cta default_config (with_pending (@CtaDispatcher_new default_config) q)).1 = 2) as (q & Hq & Ha & Hc).
    { vm_compute in Hws. injection Hws as <-. eexists. split; [vm_compute; reflexivity|]. split; vm_compute; reflexivity. }
    exists ws, q. split; [exact Hws|]. split; [exact Hnd|]. split; [exact Hin|]. split; [exact Hq|].
    refine (Hth (with_pending (@CtaDispatcher_new default_config) q) _ _ _ Ha _); [by eapply list_elem_of_lookup_2|].
    rewrite Hc. vm_compute. discriminate.
Defined.

(** A block whose X dimension is zero is not rejected: with two used
    dimensions the warp-step derivation tests [eff_block[1]] but divides by
    [eff_block[0]], so an accepted request reaches a division by zero; with
    one used dimension the same zero is guarded. *)
Theorem zero_block_divides_by_zero (y : Z) (Hy : 0 < y < 2 ^ 32) :
  let li ndim := mk_launch_info true None false 0 ndim [1; 1; 1] [0; y; 1] [0; 0; 0] 0 in
  (exists r, validate_launch (Some (li 2)) = inr r /\ launch_writes 4 r None = None)
  /\ (exists r ws, validate_launch (Some (li 1)) = inr r /\ launch_writes 4 r None = Some ws).
Proof.
  destruct y as [|p|p]; [lia| |lia]. split.
  - eexists. split; reflexivity.
  - eexists _, _. split; reflexivity.
Qed.

Lemma zero_block_divides_by_zero_witness :
  exists r, validate_launch (Some (mk_launch_info true None false 0 2 [1; 1; 1] [0; 4; 1] [0; 0; 0] 0))
    = inr r /\ launch_writes 4 r None = None.
Proof. apply (zero_block_divides_by_zero 4). lia. Defined.
