(* ===== verification/Instr.v ===== *)
(** * Decoded instructions — [sim/simx/types.h], [sim/simx/instr.h]

    Register operands, the operation and argument variants of the pipeline,
    and the [Instr] object the decoder builds.  The members of the variants
    that the build compiles only with an extension are always present here;
    the extension switches guard the decoder's use of them. *)

From S2P Require Import Prelude.

(** ** Registers *)

(** [RegType] *)
Inductive RegType := RegNone | RegInteger | RegFloat.

#[global] Instance RegType_eq_dec : EqDecision RegType.
Proof. solve_decision. Defined.
#[global] Instance RegType_countable : Countable RegType.
Proof.
  refine (inj_countable' (fun r => match r with RegNone => 0%nat | RegInteger => 1%nat | RegFloat => 2%nat end)
    (fun n => match n with 0%nat => RegNone | 1%nat => RegInteger | _ => RegFloat end) _).
  by intros [].
Defined.

Definition RegType_int (t : RegType) : Z :=
  match t with RegNone => 0 | RegInteger => 1 | RegFloat => 2 end.

(** [RegOpd]; [LOG_NUM_REGS] is 5 and [ID_BITS] is [log2ceil(3) + 5]. *)
Record RegOpd := mk_reg { reg_type : RegType; reg_idx : Z }.

#[global] Instance RegOpd_eq_dec : EqDecision RegOpd.
Proof. solve_decision. Defined.
#[global] Instance RegOpd_countable : Countable RegOpd.
Proof.
  refine (inj_countable' (fun r => (reg_type r, reg_idx r)) (fun p => mk_reg p.1 p.2) _). by intros [].
Defined.

Definition LOG_NUM_REGS : Z := 5.
Definition ID_BITS : Z := 7.

Definition reg_id_of (r : RegOpd) : Z :=
  if decide (reg_type r = RegNone) then 0
  else Z.lor (Z.shiftl (RegType_int (reg_type r) - 1) LOG_NUM_REGS) (reg_idx r).

(** ** Functional units and operations *)

Inductive FUType := ALU | LSU | FPU | SFU | TCU.

#[global] Instance FUType_eq_dec : EqDecision FUType.
Proof. solve_decision. Defined.

Inductive AluType := LUI | AUIPC | ADD | SUB | SLL | SRL | SRA | SLT | SLTU | AND | OR | XOR | CZERO.

Record IntrAluArgs := mk_alu_args { alu_is_imm : bool; alu_is_w : bool; alu_imm : Z }.

Inductive BrType := BR | JAL | JALR | SYS.

Record IntrBrArgs := mk_br_args { br_cmp : Z; br_is_rvc : bool; br_offset : Z }.

Inductive VoteType := ALL | ANY | UNI | BAL.

Inductive ShflType := UP | DOWN | BFLY | IDX.

Inductive WgatherType := WGATHER.

Record IntrWgatherArgs := mk_wgather_args { src_lane : Z }.

Inductive MdvType := MUL | MULHU | MULH | MULHSU | DIV | DIVU | REM | REMU.

Record IntrMdvArgs := mk_mdv_args { mdv_is_w : bool }.

Inductive LsuType := LOAD | STORE | FENCE.

Record IntrLsuArgs := mk_lsu_args { lsu_width : Z; lsu_stride : Z; lsu_offset : Z }.

Inductive AmoType := LR | SC | AMOADD | AMOSWAP | AMOAND | AMOOR | AMOXOR | AMOMIN | AMOMAX | AMOMINU | AMOMAXU.

Record IntrAmoArgs := mk_amo_args { amo_width : Z; amo_aq : Z; amo_rl : Z }.

Inductive FpuType :=
  | FADD | FSUB | FMUL | FDIV | FSQRT | FMADD | FMSUB | FNMADD | FNMSUB | F2I | I2F | F2F | FCMP | FSGNJ
  | FCLASS | FMVXW | FMVWX | FMINMAX.

Record IntrFpuArgs := mk_fpu_args { frm : Z; cvt : Z; is_f64 : bool }.

Inductive WctlType := TMC | WSPAWN | SPLIT | JOIN | BAR | PRED | WSYNC.

(** [IntrWctlArgs] *)
Record IntrWctlArgs := mk_wctl_args {
  is_cond_neg : bool;
  is_sync_bar : bool;
  is_bar_arrive : bool
}.

Inductive DxaType := ISSUE.

Inductive TexType := SAMPLE.

Record IntrTexArgs := mk_tex_args { tex_stage : Z; is_tex4 : Z; tex_mode : Z; out_slot : Z }.

Inductive OmType := WRITE.

Inductive RtuType := SETW | CB_RET | TRACE2 | WAIT2 | GETWF | GETW | GETWS.

Record IntrRtuArgs := mk_rtu_args { rtu_slot : Z; rtu_uop : Z; rtu_count : Z }.

Inductive CsrType := CSRRW | CSRRS | CSRRC.

Record IntrCsrArgs := mk_csr_args { csr_is_imm : bool; csr_imm : Z; csr_csr : Z }.

Inductive TcuType := WMMA | WGMMA | WMMA_SP | WGMMA_SP | TCU_LD.

(** The step and micro-op members are zero in a decoded instruction. *)
Record IntrTcuArgs := mk_tcu_args { is_a_smem : Z; cd_nregs : Z; fmt_s : Z; fmt_d : Z }.

Inductive OpType :=
  | OpAlu (t : AluType) | OpBr (t : BrType) | OpMdv (t : MdvType) | OpLsu (t : LsuType) | OpAmo (t : AmoType)
  | OpFpu (t : FpuType) | OpCsr (t : CsrType) | OpVote (t : VoteType) | OpShfl (t : ShflType)
  | OpWgather (t : WgatherType) | OpWctl (t : WctlType) | OpDxa (t : DxaType) | OpTcu (t : TcuType)
  | OpTex (t : TexType) | OpOm (t : OmType) | OpRtu (t : RtuType).

Inductive IntrArgs :=
  | AluArgs (a : IntrAluArgs) | BrArgs (a : IntrBrArgs) | MdvArgs (a : IntrMdvArgs) | LsuArgs (a : IntrLsuArgs)
  | AmoArgs (a : IntrAmoArgs) | FpuArgs (a : IntrFpuArgs) | CsrArgs (a : IntrCsrArgs)
  | WgatherArgs (a : IntrWgatherArgs) | WctlArgs (a : IntrWctlArgs) | DxaArgs | TcuArgs (a : IntrTcuArgs)
  | TexArgs (a : IntrTexArgs) | OmArgs | RtuArgs (a : IntrRtuArgs).

(** ** [Instr]

    The members a decoded instruction carries; the per-uop mask and the
    functional-unit lock flags keep their defaults until the sequencer. *)
Record Instr := mk_instr {
  uuid_ : Z;
  fu_type_ : FUType;
  op_type_ : OpType;
  args_ : IntrArgs;
  rsrc_ : list RegOpd;
  rdest_ : RegOpd;
  is_macro_op_ : bool;
  is_wstall_ : bool
}.

Definition MAX_REG_SOURCES : nat := 3.
Definition no_reg : RegOpd := mk_reg RegNone 0.

(** [Instr(uuid, FUType::ALU)]; the variants start at their first member. *)
Definition Instr_new (uuid : Z) : Instr :=
  mk_instr uuid ALU (OpAlu LUI) (AluArgs (mk_alu_args false false 0)) (replicate MAX_REG_SOURCES no_reg) no_reg
    false false.

Definition set_fu_type (t : FUType) (i : Instr) : Instr :=
  mk_instr (uuid_ i) t (op_type_ i) (args_ i) (rsrc_ i) (rdest_ i) (is_macro_op_ i) (is_wstall_ i).
Definition set_op_type (t : OpType) (i : Instr) : Instr :=
  mk_instr (uuid_ i) (fu_type_ i) t (args_ i) (rsrc_ i) (rdest_ i) (is_macro_op_ i) (is_wstall_ i).
Definition set_args (a : IntrArgs) (i : Instr) : Instr :=
  mk_instr (uuid_ i) (fu_type_ i) (op_type_ i) a (rsrc_ i) (rdest_ i) (is_macro_op_ i) (is_wstall_ i).
Definition set_src_reg (index : nat) (r : Z) (t : RegType) (i : Instr) : Instr :=
  mk_instr (uuid_ i) (fu_type_ i) (op_type_ i) (args_ i) (<[index := mk_reg t r]> (rsrc_ i)) (rdest_ i)
    (is_macro_op_ i) (is_wstall_ i).
Definition set_dest_reg (r : Z) (t : RegType) (i : Instr) : Instr :=
  mk_instr (uuid_ i) (fu_type_ i) (op_type_ i) (args_ i) (rsrc_ i) (mk_reg t r) (is_macro_op_ i) (is_wstall_ i).
Definition set_macro_op (i : Instr) : Instr :=
  mk_instr (uuid_ i) (fu_type_ i) (op_type_ i) (args_ i) (rsrc_ i) (rdest_ i) true (is_wstall_ i).
Definition set_wstall (b : bool) (i : Instr) : Instr :=
  mk_instr (uuid_ i) (fu_type_ i) (op_type_ i) (args_ i) (rsrc_ i) (rdest_ i) (is_macro_op_ i) b.

(** [get_src_reg(i)] *)
Definition get_src_reg (n : nat) (i : Instr) : RegOpd := default no_reg (rsrc_ i !! n).
