(* ===== verification/Decode.v ===== *)
(** * Instruction decoder — [sim/simx/decode.cpp], [sim/simx/gfx_doctrine.h]

    [Decoder::decode]: the expansion of compressed words, the fields of the
    instruction word and the operation, arguments, operands and flags of every
    opcode.  [None] is [std::abort] or a failed assertion.  The file proves that
    the decoder inverts the reference encodings of the instruction set, and
    that the compressed and the full form of an instruction decode alike. *)

From S2P Require Import Prelude Bitmanip Isa Instr Decompress.

(** The extension switches of the build. *)
Class IsaConfig := {
  EXT_DXA : bool;      (* VX_CFG_EXT_DXA_ENABLE *)
  EXT_TCU : bool;      (* VX_CFG_EXT_TCU_ENABLE *)
  TCU_WGMMA : bool;    (* VX_CFG_TCU_WGMMA_ENABLE *)
  TCU_META : bool;     (* TCU_META_ENABLE *)
  EXT_TEX : bool;      (* VX_CFG_EXT_TEX_ENABLE *)
  EXT_OM : bool;       (* VX_CFG_EXT_OM_ENABLE *)
  GFX_WINDOW : bool;   (* VX_GFX_WINDOW_ENABLE *)
  EXT_RTU : bool       (* VX_CFG_EXT_RTU_ENABLE *)
}.

(** ** Opcodes and fields ([instr.h]) *)

Definition OPC_R : Z := 0x33.
Definition OPC_L : Z := 0x03.
Definition OPC_I : Z := 0x13.
Definition OPC_S : Z := 0x23.
Definition OPC_B : Z := 0x63.
Definition OPC_LUI : Z := 0x37.
Definition OPC_AUIPC : Z := 0x17.
Definition OPC_JAL : Z := 0x6F.
Definition OPC_JALR : Z := 0x67.
Definition OPC_SYS : Z := 0x73.
Definition OPC_FENCE : Z := 0x0F.
Definition OPC_AMO : Z := 0x2F.
Definition OPC_FL : Z := 0x07.
Definition OPC_FS : Z := 0x27.
Definition OPC_FCI : Z := 0x53.
Definition OPC_FMADD : Z := 0x43.
Definition OPC_FMSUB : Z := 0x47.
Definition OPC_FNMSUB : Z := 0x4B.
Definition OPC_FNMADD : Z := 0x4F.
Definition OPC_R_W : Z := 0x3B.
Definition OPC_I_W : Z := 0x1B.
Definition OPC_EXT1 : Z := 0x0B.
Definition OPC_EXT2 : Z := 0x2B.

Definition width_reg : Z := 5.
Definition width_i_imm : Z := 12.
Definition width_j_imm : Z := 20.

(** [DecodeConstants]: the shifts are sums of the field widths, the masks are
    [(1 << width) - 1]. *)
Definition shift_rd : Z := 7.
Definition shift_funct3 : Z := shift_rd + 5.
Definition shift_rs1 : Z := shift_funct3 + 3.
Definition shift_rs2 : Z := shift_rs1 + 5.
Definition shift_funct2 : Z := shift_rs2 + 5.
Definition shift_funct5 : Z := shift_funct2 + 2.
Definition shift_rl : Z := shift_funct2.
Definition shift_aq : Z := shift_rl + 1.
Definition shift_rs3 : Z := shift_funct2 + 2.
Definition mask (width : Z) : Z := Z.shiftl 1 width - 1.

(** The local variables of [decode]. *)
Record fields := mk_fields {
  f_code : Z; f_op : Z;
  funct2 : Z; funct3 : Z; funct5 : Z; funct7 : Z;
  f_rd : Z; f_rs1 : Z; f_rs2 : Z; f_rs3 : Z
}.

Definition get_field (code shift width : Z) : Z := Z.land (Z.shiftr code shift) (mask width).

Definition get_fields (code : Z) : fields :=
  {| f_code := code;
     f_op := get_field code 0 7;
     funct2 := get_field code shift_funct2 2;
     funct3 := get_field code shift_funct3 3;
     funct5 := get_field code shift_funct5 5;
     funct7 := get_field code shift_funct2 7;
     f_rd := get_field code shift_rd 5;
     f_rs1 := get_field code shift_rs1 5;
     f_rs2 := get_field code shift_rs2 5;
     f_rs3 := get_field code shift_rs3 5 |}.

(** ** Base instructions *)

Definition decode_u (f : fields) (i : Instr) : Instr :=
  let imm20 := u32 (Z.shiftl (Z.shiftr (f_code f) shift_funct3) shift_funct3) in
  set_dest_reg (f_rd f) RegInteger
    (set_args (AluArgs (mk_alu_args true false imm20))
      (set_op_type (OpAlu (if f_op f =? OPC_LUI then LUI else AUIPC)) i)).

Definition mdv_of (funct3 : Z) : option MdvType :=
  match funct3 with
  | 0 => Some MUL | 1 => Some MULH | 2 => Some MULHSU | 3 => Some MULHU
  | 4 => Some DIV | 5 => Some DIVU | 6 => Some REM | 7 => Some REMU
  | _ => None
  end.

Definition alu_of (is_imm : bool) (funct3 funct7 : Z) : option AluType :=
  match funct3 with
  | 0 => Some (if negb is_imm && (funct7 =? 0x20) then SUB else ADD)
  | 1 => Some SLL
  | 2 => Some SLT
  | 3 => Some SLTU
  | 4 => Some XOR
  | 5 => Some (if Z.shiftr funct7 1 =? 0x10 then SRA else SRL)
  | 6 => Some OR
  | 7 => Some AND
  | _ => None
  end.

Section Decode.
Context `{Hcfg : VxConfig} `{Hisa : IsaConfig}.

(** The immediate of the register-immediate operations. *)
Definition alu_imm_of (f : fields) : option Z :=
  if (funct3 f =? 1) || (funct3 f =? 5) then
    Some (if rv64 then Z.lor (f_rs2 f) (u32 (Z.shiftl (Z.land (funct7 f) 1) 5)) else f_rs2 f)
  else sext 32 (Z.shiftr (f_code f) shift_rs2) width_i_imm.

(** The operation and its arguments: conditional zero, multiply/divide, or
    arithmetic. *)
Definition decode_int_op (f : fields) (is_w is_imm : bool) : option (OpType * IntrArgs) :=
  if (f_op f =? OPC_R) && (funct7 f =? 7) then
    if funct3 f =? 5 then Some (OpAlu CZERO, AluArgs (mk_alu_args false false 0))
    else if funct3 f =? 7 then Some (OpAlu CZERO, AluArgs (mk_alu_args false false 1))
    else None
  else if ((f_op f =? OPC_R) || (f_op f =? OPC_R_W)) && negb (Z.land (funct7 f) 1 =? 0) then
    t ← mdv_of (funct3 f); Some (OpMdv t, MdvArgs (mk_mdv_args is_w))
  else
    imm ← alu_imm_of f;
    t ← alu_of is_imm (funct3 f) (funct7 f);
    Some (OpAlu t, AluArgs (mk_alu_args is_imm is_w imm)).

Definition decode_int (f : fields) (i : Instr) : option Instr :=
  let is_w := (f_op f =? OPC_R_W) || (f_op f =? OPC_I_W) in
  let is_imm := (f_op f =? OPC_I) || (f_op f =? OPC_I_W) in
  '(t, a) ← decode_int_op f is_w is_imm;
  let i := set_src_reg 0 (f_rs1 f) RegInteger (set_dest_reg (f_rd f) RegInteger (set_args a (set_op_type t i))) in
  Some (if is_imm then i else set_src_reg 1 (f_rs2 f) RegInteger i).

Definition decode_branch (is_rvc : bool) (f : fields) (i : Instr) : option Instr :=
  let bit_11 := Z.land (f_rd f) 1 in
  let bits_4_1 := Z.shiftr (f_rd f) 1 in
  let bit_10_5 := Z.land (funct7 f) 0x3f in
  let bit_12 := Z.shiftr (funct7 f) 6 in
  let imm12 := Z.lor (Z.lor (Z.lor (shl bits_4_1 1) (shl bit_10_5 5)) (shl bit_11 11)) (shl bit_12 12) in
  addr ← sext 32 imm12 (width_i_imm + 1);
  Some (set_wstall true
    (set_src_reg 1 (f_rs2 f) RegInteger (set_src_reg 0 (f_rs1 f) RegInteger
      (set_args (BrArgs (mk_br_args (funct3 f) is_rvc addr)) (set_op_type (OpBr BR) i))))).

Definition decode_jal (is_rvc : bool) (f : fields) (i : Instr) : option Instr :=
  let unordered := Z.shiftr (f_code f) shift_funct3 in
  let bits_19_12 := Z.land unordered 0xff in
  let bit_11 := Z.land (Z.shiftr unordered 8) 1 in
  let bits_10_1 := Z.land (Z.shiftr unordered 9) 0x3ff in
  let bit_20 := Z.land (Z.shiftr unordered 19) 1 in
  let imm20 := Z.lor (Z.lor (Z.lor (shl bits_10_1 1) (shl bit_11 11)) (shl bits_19_12 12)) (shl bit_20 20) in
  addr ← sext 32 imm20 (width_j_imm + 1);
  Some (set_wstall true (set_dest_reg (f_rd f) RegInteger
    (set_args (BrArgs (mk_br_args 0 is_rvc addr)) (set_op_type (OpBr JAL) i)))).

Definition decode_jalr (is_rvc : bool) (f : fields) (i : Instr) : option Instr :=
  addr ← sext 32 (Z.shiftr (f_code f) shift_rs2) width_i_imm;
  Some (set_wstall true (set_src_reg 0 (f_rs1 f) RegInteger (set_dest_reg (f_rd f) RegInteger
    (set_args (BrArgs (mk_br_args 0 is_rvc addr)) (set_op_type (OpBr JALR) i))))).

Definition decode_mem (f : fields) (i : Instr) : option Instr :=
  let is_float := (f_op f =? OPC_FL) || (f_op f =? OPC_FS) in
  let is_load := (f_op f =? OPC_L) || (f_op f =? OPC_FL) in
  let rtype := if is_float then RegFloat else RegInteger in
  let i := set_src_reg 0 (f_rs1 f) RegInteger (set_fu_type LSU i) in
  let imm12 := if is_load then Z.shiftr (f_code f) shift_rs2
               else Z.lor (shl (funct7 f) width_reg) (f_rd f) in
  let i := if is_load then set_dest_reg (f_rd f) rtype i else set_src_reg 1 (f_rs2 f) rtype i in
  offset ← sext 32 imm12 width_i_imm;
  Some (set_args (LsuArgs (mk_lsu_args (funct3 f) 0 (sint 32 offset)))
    (set_op_type (OpLsu (if is_load then LOAD else STORE)) i)).

Definition decode_fence (i : Instr) : Instr :=
  set_args (LsuArgs (mk_lsu_args 0 0 0)) (set_op_type (OpLsu FENCE) (set_fu_type LSU i)).

Definition amo_of (funct5 : Z) : option AmoType :=
  match funct5 with
  | 0x00 => Some AMOADD | 0x01 => Some AMOSWAP | 0x02 => Some LR | 0x03 => Some SC | 0x04 => Some AMOXOR
  | 0x08 => Some AMOOR | 0x0c => Some AMOAND | 0x10 => Some AMOMIN | 0x14 => Some AMOMAX
  | 0x18 => Some AMOMINU | 0x1c => Some AMOMAXU
  | _ => None
  end.

Definition decode_amo (f : fields) (i : Instr) : option Instr :=
  let aq := get_field (f_code f) shift_aq 1 in
  let rl := get_field (f_code f) shift_rl 1 in
  t ← amo_of (funct5 f);
  Some (set_src_reg 1 (f_rs2 f) RegInteger (set_src_reg 0 (f_rs1 f) RegInteger (set_dest_reg (f_rd f) RegInteger
    (set_args (AmoArgs (mk_amo_args (funct3 f) aq rl)) (set_op_type (OpAmo t) (set_fu_type LSU i)))))).

Definition csr_of (funct3 : Z) : option CsrType :=
  match funct3 with
  | 1 | 5 => Some CSRRW | 2 | 6 => Some CSRRS | 3 | 7 => Some CSRRC
  | _ => None
  end.

Definition decode_sys (f : fields) (i : Instr) : option Instr :=
  let imm12 := Z.shiftr (f_code f) shift_rs2 in
  if negb (funct3 f =? 0) then
    t ← csr_of (funct3 f);
    let i := set_op_type (OpCsr t) (set_dest_reg (f_rd f) RegInteger (set_fu_type SFU i)) in
    Some (if funct3 f <? 5
          then set_args (CsrArgs (mk_csr_args false 0 imm12)) (set_src_reg 0 (f_rs1 f) RegInteger i)
          else set_args (CsrArgs (mk_csr_args true (f_rs1 f) imm12)) i)
  else Some (set_wstall true (set_args (BrArgs (mk_br_args 0 false imm12)) (set_op_type (OpBr SYS) i))).

(** ** Floating point *)

(** Operation, destination and source register types of an [FCI] [funct7]. *)
Definition fci_of (funct3 funct7 : Z) : option (FpuType * RegType * list RegType) :=
  match funct7 with
  | 0x00 | 0x01 => Some (FADD, RegFloat, [RegFloat; RegFloat])
  | 0x04 | 0x05 => Some (FSUB, RegFloat, [RegFloat; RegFloat])
  | 0x08 | 0x09 => Some (FMUL, RegFloat, [RegFloat; RegFloat])
  | 0x10 | 0x11 => Some (FSGNJ, RegFloat, [RegFloat; RegFloat])
  | 0x14 | 0x15 => Some (FMINMAX, RegFloat, [RegFloat; RegFloat])
  | 0x0c | 0x0d => Some (FDIV, RegFloat, [RegFloat; RegFloat])
  | 0x20 | 0x21 => Some (F2F, RegFloat, [RegFloat])
  | 0x2c | 0x2d => Some (FSQRT, RegFloat, [RegFloat])
  | 0x50 | 0x51 => Some (FCMP, RegInteger, [RegFloat; RegFloat])
  | 0x60 | 0x61 => Some (F2I, RegInteger, [RegFloat; RegNone])
  | 0x68 | 0x69 => Some (I2F, RegFloat, [RegInteger; RegNone])
  | 0x70 | 0x71 => Some (if negb (funct3 =? 0) then FCLASS else FMVXW, RegInteger, [RegFloat])
  | 0x78 | 0x79 => Some (FMVWX, RegFloat, [RegInteger])
  | _ => None
  end.

(** [cvt] is a two-bit member. *)
Definition fpu_args (f : fields) (c : Z) : IntrArgs :=
  FpuArgs (mk_fpu_args (funct3 f) (Z.land c 3) (negb (Z.land (funct7 f) 1 =? 0))).

Definition decode_fci (f : fields) (i : Instr) : option Instr :=
  '(t, rd_t, srcs) ← fci_of (funct3 f) (funct7 f);
  let i := set_dest_reg (f_rd f) rd_t (set_op_type (OpFpu t) (set_args (fpu_args f (f_rs2 f)) (set_fu_type FPU i))) in
  Some (match srcs with
        | [t0; t1] => set_src_reg 1 (f_rs2 f) t1 (set_src_reg 0 (f_rs1 f) t0 i)
        | [t0] => set_src_reg 0 (f_rs1 f) t0 i
        | _ => i
        end).

Definition decode_fma (f : fields) (i : Instr) : Instr :=
  let t := if f_op f =? OPC_FMADD then FMADD else if f_op f =? OPC_FMSUB then FMSUB
           else if f_op f =? OPC_FNMADD then FNMADD else FNMSUB in
  set_src_reg 2 (f_rs3 f) RegFloat (set_src_reg 1 (f_rs2 f) RegFloat (set_src_reg 0 (f_rs1 f) RegFloat
    (set_dest_reg (f_rd f) RegFloat (set_args (fpu_args f (funct2 f)) (set_op_type (OpFpu t) (set_fu_type FPU i)))))).

(** ** Vortex extension 1 *)

Definition decode_wctl (f : fields) (i : Instr) : option Instr :=
  let i := set_fu_type SFU i in
  let int n r := set_src_reg n r RegInteger in
  let none := mk_wctl_args false false false in
  match funct3 f with
  | 0 => Some (set_args (WctlArgs none) (set_wstall true (int 0%nat (f_rs1 f) (set_op_type (OpWctl TMC) i))))
  | 1 => Some (set_args (WctlArgs none)
           (set_wstall true (int 1%nat (f_rs2 f) (int 0%nat (f_rs1 f) (set_op_type (OpWctl WSPAWN) i)))))
  | 2 => Some (set_args (WctlArgs (mk_wctl_args (negb (f_rs2 f =? 0)) false false))
           (set_wstall true (int 0%nat (f_rs1 f) (set_dest_reg (f_rd f) RegInteger (set_op_type (OpWctl SPLIT) i)))))
  | 3 => Some (set_args (WctlArgs none) (set_wstall true (int 0%nat (f_rs1 f) (set_op_type (OpWctl JOIN) i))))
  | 4 => Some (set_args (WctlArgs (mk_wctl_args false true false))
           (set_wstall true (int 1%nat (f_rs2 f) (int 0%nat (f_rs1 f) (set_op_type (OpWctl BAR) i)))))
  | 5 => Some (set_args (WctlArgs (mk_wctl_args (negb (f_rd f =? 0)) false false))
           (set_wstall true (int 1%nat (f_rs2 f) (int 0%nat (f_rs1 f) (set_op_type (OpWctl PRED) i)))))
  | 6 => Some (set_args (WctlArgs (mk_wctl_args false false (negb (f_rd f =? 0))))
           (set_wstall (f_rd f =? 0) (int 1%nat (f_rs2 f) (int 0%nat (f_rs1 f)
             (set_dest_reg (f_rd f) RegInteger (set_op_type (OpWctl BAR) i))))))
  | 7 => Some (set_args (WctlArgs none) (set_wstall true (set_op_type (OpWctl WSYNC) i)))
  | _ => None
  end.

Definition decode_vote (f : fields) (i : Instr) : option Instr :=
  let i := set_src_reg 0 (f_rs1 f) RegInteger (set_dest_reg (f_rd f) RegInteger i) in
  let shfl t := Some (set_src_reg 1 (f_rs2 f) RegInteger (set_op_type (OpShfl t) i)) in
  match funct3 f with
  | 0 => Some (set_op_type (OpVote ALL) i)
  | 1 => Some (set_op_type (OpVote ANY) i)
  | 2 => Some (set_op_type (OpVote UNI) i)
  | 3 => Some (set_op_type (OpVote BAL) i)
  | 4 => shfl UP
  | 5 => shfl DOWN
  | 6 => shfl BFLY
  | 7 => shfl IDX
  | _ => None
  end.

Definition decode_tcu (f : fields) (i : Instr) : option Instr :=
  let i := set_fu_type TCU i in
  let sparse := negb (Z.land (f_rs2 f) 1 =? 0) in
  match funct3 f with
  | 0 => Some (set_wstall true (set_macro_op (set_args (TcuArgs (mk_tcu_args 0 0 (f_rs1 f) (f_rd f)))
           (set_op_type (OpTcu (if sparse then WMMA_SP else WMMA)) i))))
  | 1 => if TCU_WGMMA then
           Some (set_wstall true (set_macro_op
             (set_args (TcuArgs (mk_tcu_args (Z.land (Z.shiftr (f_rs2 f) 3) 1) (Z.land (Z.shiftr (f_rs2 f) 1) 3)
                                  (f_rs1 f) (f_rd f)))
               (set_op_type (OpTcu (if sparse then WGMMA_SP else WGMMA)) i))))
         else None
  | 2 => if TCU_META then
           Some (set_src_reg 0 (f_rs1 f) RegInteger (set_args (TcuArgs (mk_tcu_args 0 0 (f_rs2 f) (f_rd f)))
             (set_op_type (OpTcu TCU_LD) i)))
         else None
  | _ => None
  end.

Definition decode_packld (f : fields) (i : Instr) : option Instr :=
  let i := set_src_reg 1 (f_rs2 f) RegInteger (set_src_reg 0 (f_rs1 f) RegInteger
             (set_dest_reg (f_rd f) RegFloat (set_op_type (OpLsu LOAD) (set_fu_type LSU i)))) in
  i ← match funct3 f with
      | 1 => Some (set_args (LsuArgs (mk_lsu_args 0 0 0)) i)
      | 2 => Some (set_args (LsuArgs (mk_lsu_args 1 0 0)) i)
      | _ => None
      end;
  Some (set_wstall true (set_macro_op i)).

Definition decode_ext1 (f : fields) (i : Instr) : option Instr :=
  match funct7 f with
  | 0 => decode_wctl f i
  | 1 => decode_vote f i
  | 3 => if EXT_DXA then
           Some (set_src_reg 1 (f_rs2 f) RegInteger (set_src_reg 0 (f_rs1 f) RegInteger
             (set_op_type (OpDxa ISSUE) (set_args DxaArgs (set_fu_type SFU i)))))
         else None
  | 2 => if EXT_TCU then decode_tcu f i else None
  | 4 => decode_packld f i
  | _ => None
  end.

(** ** Vortex extension 2: gather, texture, output merger, graphics window and
    ray tracing *)

(** A window read of more than one slot is a macro operation. *)
Definition windowed (count : Z) (i : Instr) : Instr :=
  if 1 <? count then set_wstall true (set_macro_op i) else i.

Definition window_slot (f : fields) : Z := Z.land (Z.shiftr (funct7 f) 2) 0x1F.

Definition decode_window (f : fields) (i : Instr) : option Instr :=
  let i := set_fu_type SFU i in
  let count := Z.land (f_rs2 f) 0xF in
  let args := RtuArgs (mk_rtu_args (window_slot f) 0 count) in
  match funct2 f with
  | 0 => if EXT_RTU then
           Some (set_args (RtuArgs (mk_rtu_args 0 0 0)) (set_src_reg 0 (f_rs1 f) RegInteger (set_op_type (OpRtu CB_RET) i)))
         else None
  | 1 => Some (set_args (RtuArgs (mk_rtu_args (window_slot f) 0 0))
           (set_src_reg 0 (f_rs1 f) RegInteger (set_op_type (OpRtu SETW) i)))
  | 2 => Some (windowed count (set_args args (set_src_reg 0 (f_rs1 f) RegInteger
           (set_dest_reg (f_rd f) RegFloat (set_op_type (OpRtu GETWF) i)))))
  | 3 => Some (windowed count (set_args args (set_src_reg 0 (f_rs1 f) RegInteger
           (set_dest_reg (f_rd f) RegInteger (set_op_type (OpRtu GETW) i)))))
  | _ => None
  end.

Definition decode_rtu2 (f : fields) (i : Instr) : option Instr :=
  let i := set_fu_type SFU i in
  let op t := set_args (RtuArgs (mk_rtu_args 0 0 0)) (set_src_reg 0 (f_rs1 f) RegInteger
                (set_dest_reg (f_rd f) RegInteger (set_op_type (OpRtu t) i))) in
  match funct2 f with
  | 0 => Some (set_wstall true (set_macro_op (op TRACE2)))
  | 1 => Some (op WAIT2)
  | _ => None
  end.

Definition decode_tex (f : fields) (i : Instr) : Instr :=
  set_args (TexArgs (mk_tex_args (Z.land (Z.shiftr (funct7 f) 1) 1) 1 (Z.land (funct7 f) 1) (window_slot f)))
    (set_src_reg 1 (f_rs2 f) RegInteger (set_src_reg 0 (f_rs1 f) RegInteger (set_dest_reg (f_rd f) RegInteger
      (set_op_type (OpTex SAMPLE) (set_fu_type SFU i))))).

Definition decode_ext2_op (f : fields) (i : Instr) : option Instr :=
  match funct3 f with
  | 0 => Some (set_args (WgatherArgs (mk_wgather_args (funct2 f)))
           (set_src_reg 2 (f_rs3 f) RegInteger (set_src_reg 1 (f_rs2 f) RegInteger (set_src_reg 0 (f_rs1 f) RegInteger
             (set_dest_reg (f_rd f) RegInteger (set_op_type (OpWgather WGATHER) i))))))
  | 5 => if EXT_TEX then Some (decode_tex f i) else None
  | 2 => if EXT_OM then
           Some (set_args OmArgs (set_src_reg 1 (f_rs2 f) RegInteger (set_src_reg 0 (f_rs1 f) RegInteger
             (set_op_type (OpOm WRITE) (set_fu_type SFU i)))))
         else None
  | 4 => if GFX_WINDOW then
           let count := Z.land (f_rs2 f) 0xF in
           Some (windowed count (set_args (RtuArgs (mk_rtu_args (window_slot f) 0 count))
             (set_src_reg 0 (f_rs1 f) RegInteger (set_dest_reg (f_rd f) RegInteger
               (set_op_type (OpRtu GETWS) (set_fu_type SFU i))))))
         else None
  | 6 => if GFX_WINDOW then decode_window f i else None
  | 7 => if EXT_RTU then decode_rtu2 f i else None
  | _ => None
  end.

(** *** The fixed-function hand-off check ([gfx_doctrine.h]) *)

Inductive Handoff := Scoreboarded | SideEffectFree | KnownViolation | Unclassified.

Definition classify (op : OpType) : Handoff :=
  match op with
  | OpTex _ => if EXT_TEX then Scoreboarded else Unclassified
  | OpOm _ => if EXT_OM then KnownViolation else Unclassified
  | OpRtu t =>
      if GFX_WINDOW then
        match t with
        | TRACE2 | WAIT2 | GETWF | GETW | GETWS => Scoreboarded
        | CB_RET => SideEffectFree
        | SETW => KnownViolation
        end
      else Unclassified
  | _ => Unclassified
  end.

(** [strict] is [VX_GFX_STRICT_DOCTRINE]; [false] is an abort. *)
Definition doctrine_check (strict : bool) (i : Instr) : bool :=
  if decide (fu_type_ i = SFU) then
    let has_dest := negb (bool_decide (reg_type (rdest_ i) = RegNone)) in
    match classify (op_type_ i) with
    | Scoreboarded => has_dest
    | SideEffectFree => true
    | KnownViolation => negb strict
    | Unclassified => false
    end
  else true.

Definition decode_ext2 (strict : bool) (f : fields) (i : Instr) : option Instr :=
  i ← decode_ext2_op f i;
  if doctrine_check strict i then Some i else None.

(** ** [Decoder::decode] *)

(** The switch on the opcode. *)
Definition decode_op (strict is_rvc : bool) (f : fields) (i : Instr) : option Instr :=
  let op := f_op f in
  if (op =? OPC_LUI) || (op =? OPC_AUIPC) then Some (decode_u f i)
  else if (op =? OPC_R) || (op =? OPC_I) || (rv64 && ((op =? OPC_R_W) || (op =? OPC_I_W))) then decode_int f i
  else if op =? OPC_B then decode_branch is_rvc f i
  else if op =? OPC_JAL then decode_jal is_rvc f i
  else if op =? OPC_JALR then decode_jalr is_rvc f i
  else if (op =? OPC_L) || (op =? OPC_FL) || (op =? OPC_S) || (op =? OPC_FS) then decode_mem f i
  else if op =? OPC_FENCE then Some (decode_fence i)
  else if op =? OPC_AMO then decode_amo f i
  else if op =? OPC_SYS then decode_sys f i
  else if op =? OPC_FCI then decode_fci f i
  else if (op =? OPC_FMADD) || (op =? OPC_FMSUB) || (op =? OPC_FNMADD) || (op =? OPC_FNMSUB) then Some (decode_fma f i)
  else if op =? OPC_EXT1 then decode_ext1 f i
  else if op =? OPC_EXT2 then decode_ext2 strict f i
  else None.

Definition is_rvc_code (code : Z) : bool := negb (Z.land code 3 =? 3).

Definition decode (strict : bool) (code uuid : Z) : option Instr :=
  let is_rvc := is_rvc_code code in
  code ← (if is_rvc then
            let r := rvc_decompress (Z.land code 0xFFFF) in
            if illegal r then None else Some (instr32 r)
          else Some code);
  decode_op strict is_rvc (get_fields code) (Instr_new uuid).
End Decode.

(** ** The decoded form of the reference instructions *)

Section Reference.
Context `{Hcfg : VxConfig} {Hok : VxConfigOk} `{Hisa : IsaConfig}.

Definition x (r : Z) : RegOpd := mk_reg RegInteger r.
Definition fr (r : Z) : RegOpd := mk_reg RegFloat r.

(** An instruction from its unit, operation, arguments, sources and
    destination; [stall] when the warp waits for it. *)
Definition instr (uuid : Z) (fu : FUType) (op : OpType) (a : IntrArgs) (srcs : list RegOpd) (rd : RegOpd) (stall : bool) : Instr :=
  mk_instr uuid fu op a (take 3 (srcs ++ replicate 3 no_reg)) rd false stall.

Definition rop_op (o : rop) : OpType * IntrArgs :=
  let alu t := (OpAlu t, AluArgs (mk_alu_args false false 0)) in
  let mdv t := (OpMdv t, MdvArgs (mk_mdv_args false)) in
  match o with
  | r_add => alu ADD | r_sub => alu SUB | r_sll => alu SLL | r_slt => alu SLT | r_sltu => alu SLTU
  | r_xor => alu XOR | r_srl => alu SRL | r_sra => alu SRA | r_or => alu OR | r_and => alu AND
  | r_mul => mdv MUL | r_mulh => mdv MULH | r_mulhsu => mdv MULHSU | r_mulhu => mdv MULHU
  | r_div => mdv DIV | r_divu => mdv DIVU | r_rem => mdv REM | r_remu => mdv REMU
  | r_czero_eqz => alu CZERO
  | r_czero_nez => (OpAlu CZERO, AluArgs (mk_alu_args false false 1))
  end.

Definition rwop_op (o : rwop) : OpType * IntrArgs :=
  let alu t := (OpAlu t, AluArgs (mk_alu_args false true 0)) in
  let mdv t := (OpMdv t, MdvArgs (mk_mdv_args true)) in
  match o with
  | w_addw => alu ADD | w_subw => alu SUB | w_sllw => alu SLL | w_srlw => alu SRL | w_sraw => alu SRA
  | w_mulw => mdv MUL | w_divw => mdv DIV | w_divuw => mdv DIVU | w_remw => mdv REM | w_remuw => mdv REMU
  end.

Definition iop_type (o : iop) : AluType :=
  match o with i_addi => ADD | i_slti => SLT | i_sltiu => SLTU | i_xori => XOR | i_ori => OR | i_andi => AND end.

Definition shop_type (o : shop) : AluType := match o with s_slli => SLL | s_srli => SRL | s_srai => SRA end.

Definition amoop_type (o : amoop) : AmoType :=
  match o with
  | a_lr => LR | a_sc => SC | a_amoswap => AMOSWAP | a_amoadd => AMOADD | a_amoxor => AMOXOR | a_amoand => AMOAND
  | a_amoor => AMOOR | a_amomin => AMOMIN | a_amomax => AMOMAX | a_amominu => AMOMINU | a_amomaxu => AMOMAXU
  end.

Definition csrop_type (o : csrop) : CsrType := match o with c_csrrw => CSRRW | c_csrrs => CSRRS | c_csrrc => CSRRC end.

Definition fmaop_type (o : fmaop) : FpuType :=
  match o with f_madd => FMADD | f_msub => FMSUB | f_nmadd => FNMADD | f_nmsub => FNMSUB end.

Definition fbinop_type (o : fbinop) : FpuType :=
  match o with f_add => FADD | f_sub => FSUB | f_mul => FMUL | f_div => FDIV end.

Definition fselop_type (o : fselop) : FpuType := match o with f_min | f_max => FMINMAX | _ => FSGNJ end.

(** [is_rvc] is recorded by branches and jumps only. *)
Definition instr_of (uuid : Z) (rvc : bool) (i : rv_instr) : Instr :=
  let fp t m c d srcs rd := instr uuid FPU (OpFpu t) (FpuArgs (mk_fpu_args m c d)) srcs rd false in
  match i with
  | rv_lui rd imm => instr uuid ALU (OpAlu LUI) (AluArgs (mk_alu_args true false (2 ^ 12 * imm))) [] (x rd) false
  | rv_auipc rd imm => instr uuid ALU (OpAlu AUIPC) (AluArgs (mk_alu_args true false (2 ^ 12 * imm))) [] (x rd) false
  | rv_op o rd rs1 rs2 => instr uuid ALU (rop_op o).1 (rop_op o).2 [x rs1; x rs2] (x rd) false
  | rv_opw o rd rs1 rs2 => instr uuid ALU (rwop_op o).1 (rwop_op o).2 [x rs1; x rs2] (x rd) false
  | rv_opi o rd rs1 imm =>
      instr uuid ALU (OpAlu (iop_type o)) (AluArgs (mk_alu_args true false (u32 imm))) [x rs1] (x rd) false
  | rv_shi o rd rs1 sh =>
      instr uuid ALU (OpAlu (shop_type o)) (AluArgs (mk_alu_args true false sh)) [x rs1] (x rd) false
  | rv_addiw rd rs1 imm => instr uuid ALU (OpAlu ADD) (AluArgs (mk_alu_args true true (u32 imm))) [x rs1] (x rd) false
  | rv_shiw o rd rs1 sh =>
      instr uuid ALU (OpAlu (shop_type o)) (AluArgs (mk_alu_args true true sh)) [x rs1] (x rd) false
  | rv_branch o rs1 rs2 off =>
      instr uuid ALU (OpBr BR) (BrArgs (mk_br_args (brop_f3 o) rvc (u32 off))) [x rs1; x rs2] no_reg true
  | rv_jal rd off => instr uuid ALU (OpBr JAL) (BrArgs (mk_br_args 0 rvc (u32 off))) [] (x rd) true
  | rv_jalr rd rs1 off => instr uuid ALU (OpBr JALR) (BrArgs (mk_br_args 0 rvc (u32 off))) [x rs1] (x rd) true
  | rv_load o rd rs1 off =>
      instr uuid LSU (OpLsu LOAD) (LsuArgs (mk_lsu_args (ldop_f3 o) 0 off)) [x rs1] (x rd) false
  | rv_store o rs2 rs1 off =>
      instr uuid LSU (OpLsu STORE) (LsuArgs (mk_lsu_args (stop_f3 o) 0 off)) [x rs1; x rs2] no_reg false
  | rv_fload d rd rs1 off =>
      instr uuid LSU (OpLsu LOAD) (LsuArgs (mk_lsu_args (2 + b2 d) 0 off)) [x rs1] (fr rd) false
  | rv_fstore d rs2 rs1 off =>
      instr uuid LSU (OpLsu STORE) (LsuArgs (mk_lsu_args (2 + b2 d) 0 off)) [x rs1; fr rs2] no_reg false
  | rv_fence _ _ _ => instr uuid LSU (OpLsu FENCE) (LsuArgs (mk_lsu_args 0 0 0)) [] no_reg false
  | rv_amo o d aq rl rd rs1 rs2 =>
      instr uuid LSU (OpAmo (amoop_type o)) (AmoArgs (mk_amo_args (2 + b2 d) (b2 aq) (b2 rl))) [x rs1; x rs2] (x rd) false
  | rv_csr o rd rs1 csr => instr uuid SFU (OpCsr (csrop_type o)) (CsrArgs (mk_csr_args false 0 csr)) [x rs1] (x rd) false
  | rv_csri o rd zimm csr => instr uuid SFU (OpCsr (csrop_type o)) (CsrArgs (mk_csr_args true zimm csr)) [] (x rd) false
  | rv_sys o => instr uuid ALU (OpBr SYS) (BrArgs (mk_br_args 0 false (sysop_imm o))) [] no_reg true
  | rv_fma o d rm rd rs1 rs2 rs3 => fp (fmaop_type o) rm 0 d [fr rs1; fr rs2; fr rs3] (fr rd)
  | rv_fbin o d rm rd rs1 rs2 => fp (fbinop_type o) rm 0 d [fr rs1; fr rs2] (fr rd)
  | rv_fsqrt d rm rd rs1 => fp FSQRT rm 0 d [fr rs1] (fr rd)
  | rv_fsel o d rd rs1 rs2 => fp (fselop_type o) (fselop_f3 o) 0 d [fr rs1; fr rs2] (fr rd)
  | rv_fcmp o d rd rs1 rs2 => fp FCMP (fcmpop_f3 o) 0 d [fr rs1; fr rs2] (x rd)
  | rv_f2i k d rm rd rs1 => fp F2I rm (fint_rs2 k) d [fr rs1; mk_reg RegNone (fint_rs2 k)] (x rd)
  | rv_i2f k d rm rd rs1 => fp I2F rm (fint_rs2 k) d [x rs1; mk_reg RegNone (fint_rs2 k)] (fr rd)
  | rv_f2f d rm rd rs1 => fp F2F rm 0 d [fr rs1] (fr rd)
  | rv_fclass d rd rs1 => fp FCLASS 1 0 d [fr rs1] (x rd)
  | rv_fmvxw d rd rs1 => fp FMVXW 0 0 d [fr rs1] (x rd)
  | rv_fmvwx d rd rs1 => fp FMVWX 0 0 d [x rs1] (fr rd)
  end.

(** The arguments an operation uses: a register operation ignores the
    immediate, and only the conversions use the conversion code. *)
Definition used_args (op : OpType) (a : IntrArgs) : IntrArgs :=
  match op, a with
  | OpAlu (LUI | AUIPC | CZERO), _ => a
  | OpAlu _, AluArgs (mk_alu_args false w _) => AluArgs (mk_alu_args false w 0)
  | OpFpu (F2I | I2F), _ => a
  | OpFpu _, FpuArgs (mk_fpu_args m _ d) => FpuArgs (mk_fpu_args m 0 d)
  | _, _ => a
  end.

Definition canonical (i : Instr) : Instr := set_args (used_args (op_type_ i) (args_ i)) i.

(** ** Field extraction *)

Lemma get_field_slice code shift width :
  0 <= shift -> 0 <= width -> get_field code shift width = slice code shift width.
Proof.
  intros. unfold get_field, mask. rewrite Z.shiftl_1_l, land_ones_slice, slice_shiftr by lia. f_equal. lia.
Qed.

(** The fields of a word given by its R-format view. *)
Definition fields_R (code f7 rs2 rs1 f3 rd op : Z) : fields :=
  mk_fields code op (slice f7 0 2) f3 (slice f7 2 5) f7 rd rs1 rs2 (slice f7 2 5).

Lemma slice_id v n : 0 <= n -> 0 <= v < 2 ^ n -> slice v 0 n = v.
Proof. apply slice0_small. Qed.

Lemma get_fields_R f7 rs2 rs1 f3 rd op :
  0 <= f7 < 2 ^ 7 -> 0 <= rs2 < 2 ^ 5 -> 0 <= rs1 < 2 ^ 5 -> 0 <= f3 < 2 ^ 3 -> 0 <= rd < 2 ^ 5 -> 0 <= op < 2 ^ 7 ->
  get_fields (enc_R f7 rs2 rs1 f3 rd op) = fields_R (enc_R f7 rs2 rs1 f3 rd op) f7 rs2 rs1 f3 rd op.
Proof.
  intros. unfold get_fields, fields_R. rewrite !get_field_slice by (vm_compute; done).
  unfold enc_R.
  repeat match goal with
  | |- context [slice (val ?s) ?l ?n] =>
      rewrite (slice_val s l n) by (reflexivity || (vm_compute; discriminate));
      let r := eval vm_compute in (cut l n s) in change (cut l n s) with r
  end.
  rewrite !val_one. rewrite (slice_id f7 7), (slice_id rs2 5), (slice_id rs1 5), (slice_id f3 3), (slice_id rd 5), (slice_id op 7) by lia.
  done.
Qed.

Lemma slice_cut y lo n k : 0 <= lo -> 0 <= n <= k -> slice y lo k = slice y lo n + 2 ^ n * slice y (lo + n) (k - n).
Proof. intros. rewrite <- slice_split by lia. f_equal. lia. Qed.

(** Every format as an R-format word. *)
Lemma val_cons x lo n r : val (Seg x lo n :: r) = slice x lo n + 2 ^ n * val r.
Proof. done. Qed.

Lemma slice_val_all s n : widths_ok s = true -> total s = n -> slice (val s) 0 n = val s.
Proof. intros Hs <-. apply slice0_small; [by apply total_nonneg | by apply val_range]. Qed.

Lemma enc_I_R imm rs1 f3 rd op : enc_I imm rs1 f3 rd op = enc_R (slice imm 5 7) (slice imm 0 5) rs1 f3 rd op.
Proof.
  unfold enc_I, enc_R. rewrite !val_cons. rewrite !slice_slice by lia.
  rewrite (slice_cut imm 0 5 12) by lia. change (slice imm (0 + 5) (12 - 5)) with (slice imm 5 7).
  change (5 + 0) with 5. change (0 + 0) with 0. cbn [val]. lia.
Qed.

Lemma enc_S_R imm rs2 rs1 f3 op : enc_S imm rs2 rs1 f3 op = enc_R (slice imm 5 7) rs2 rs1 f3 (slice imm 0 5) op.
Proof. unfold enc_S, enc_R. rewrite !val_cons. rewrite !slice_slice by lia. done. Qed.

Lemma enc_B_R imm rs2 rs1 f3 op :
  enc_B imm rs2 rs1 f3 op =
  enc_R (val [Seg imm 5 6; Seg imm 12 1]) rs2 rs1 f3 (val [Seg imm 11 1; Seg imm 1 4]) op.
Proof.
  pose proof (slice_val_all [Seg imm 5 6; Seg imm 12 1] 7 eq_refl eq_refl) as Ea.
  pose proof (slice_val_all [Seg imm 11 1; Seg imm 1 4] 5 eq_refl eq_refl) as Eb.
  set (a := val [Seg imm 5 6; Seg imm 12 1]) in *. set (b := val [Seg imm 11 1; Seg imm 1 4]) in *.
  unfold enc_B, enc_R. cbn [val]. rewrite Ea, Eb. subst a b. cbn [val]. lia.
Qed.

Lemma enc_U_R imm rd op :
  enc_U imm rd op = enc_R (slice imm 13 7) (slice imm 8 5) (slice imm 3 5) (slice imm 0 3) rd op.
Proof.
  unfold enc_U, enc_R. rewrite !val_cons, !slice_slice by lia.
  rewrite (slice_cut imm 0 3 20) by lia. change (slice imm (0 + 3) (20 - 3)) with (slice imm 3 17).
  rewrite (slice_cut imm 3 5 17) by lia. change (slice imm (3 + 5) (17 - 5)) with (slice imm 8 12).
  rewrite (slice_cut imm 8 5 12) by lia. change (slice imm (8 + 5) (12 - 5)) with (slice imm 13 7).
  change (13 + 0) with 13. change (8 + 0) with 8. change (3 + 0) with 3. change (0 + 0) with 0. cbn [val]. lia.
Qed.

Lemma enc_J_R imm rd op :
  enc_J imm rd op =
  enc_R (val [Seg imm 5 6; Seg imm 20 1]) (val [Seg imm 11 1; Seg imm 1 4]) (slice imm 15 5) (slice imm 12 3) rd op.
Proof.
  pose proof (slice_val_all [Seg imm 5 6; Seg imm 20 1] 7 eq_refl eq_refl) as Ea.
  pose proof (slice_val_all [Seg imm 11 1; Seg imm 1 4] 5 eq_refl eq_refl) as Eb.
  set (a := val [Seg imm 5 6; Seg imm 20 1]) in *. set (b := val [Seg imm 11 1; Seg imm 1 4]) in *.
  unfold enc_J, enc_R. cbn [val]. rewrite Ea, Eb, !(slice_slice imm) by lia. subst a b.
  rewrite (slice_cut imm 12 3 8), (slice_cut imm 1 4 10) by lia.
  change (slice imm (12 + 3) (8 - 3)) with (slice imm 15 5). change (slice imm (1 + 4) (10 - 4)) with (slice imm 5 6).
  change (15 + 0) with 15. change (12 + 0) with 12. cbn [val]. lia.
Qed.

Lemma enc_R4_R rs3 f2 rs2 rs1 f3 rd op :
  enc_R4 rs3 f2 rs2 rs1 f3 rd op = enc_R (val [Seg f2 0 2; Seg rs3 0 5]) rs2 rs1 f3 rd op.
Proof.
  pose proof (slice_val_all [Seg f2 0 2; Seg rs3 0 5] 7 eq_refl eq_refl) as Ea. set (a := val [Seg f2 0 2; Seg rs3 0 5]) in *.
  unfold enc_R4, enc_R. cbn [val]. rewrite Ea. subst a. cbn [val]. lia.
Qed.

(** The upper twelve bits, where the I format keeps its immediate. *)
Lemma upper12 imm rs1 f3 rd op : Z.shiftr (enc_I imm rs1 f3 rd op) shift_rs2 = slice imm 0 12.
Proof.
  assert (Z.shiftr (enc_I imm rs1 f3 rd op) shift_rs2 = slice (enc_I imm rs1 f3 rd op) 20 12) as ->.
  { unfold slice. rewrite Z.shiftr_div_pow2 by (vm_compute; discriminate). change shift_rs2 with 20. symmetry. apply Z.mod_small.
    pose proof (val_range [Seg op 0 7; Seg rd 0 5; Seg f3 0 3; Seg rs1 0 5; Seg imm 0 12] eq_refl) as Hr.
    fold (enc_I imm rs1 f3 rd op) in Hr. change (total _) with 32 in Hr.
    split; [apply Z.div_pos; lia | apply Z.div_lt_upper_bound; lia]. }
  unfold enc_I. rewrite slice_val by (lia || done). apply val_one.
Qed.

(** ** Decoding inverts encoding *)

Definition decodes (i : rv_instr) : Prop :=
  forall strict rvc uuid, rv_valid i = true ->
  canonical <$> decode_op strict rvc (get_fields (encode i)) (Instr_new uuid) = Some (instr_of uuid rvc i).

Lemma sext_12_some y : exists z, sext 32 y width_i_imm = Some z.
Proof. by eexists. Qed.

(** Run the decoder on known opcode and function fields. *)
Ltac run1 :=
  cbn -[sext u32 shl Z.lor Z.shiftl Z.shiftr rv64 slice sint width_i_imm width_j_imm shift_rs2 shift_funct3 shift_aq shift_rl get_field].

Ltac run :=
  run1;
  repeat match goal with E : rv64 = true |- _ => rewrite E; clear E end;
  rewrite ?andb_false_r; run1;
  cbv beta delta [decode_u decode_int decode_branch decode_jal decode_jalr decode_mem decode_fence decode_amo decode_sys
    decode_fci decode_fma]; run1.

Lemma decodes_op o rd rs1 rs2 : decodes (rv_op o rd rs1 rs2).
Proof.
  intros strict rvc uuid Hv. split_rv Hv. cbn [encode].
  destruct o; rewrite get_fields_R by (cbn [rop_f3 rop_f7]; lia);
    match goal with |- context [fields_R ?c] => generalize c; intros code end;
    destruct (sext_12_some (Z.shiftr code shift_rs2)) as [z Ez]; run; rewrite ?Ez; done.
Qed.

Lemma decodes_opw o rd rs1 rs2 : decodes (rv_opw o rd rs1 rs2).
Proof.
  intros strict rvc uuid Hv. split_rv Hv. cbn [encode].
  destruct o; rewrite get_fields_R by (cbn [rwop_f3 rwop_f7]; lia);
    match goal with |- context [fields_R ?c] => generalize c; intros code end;
    destruct (sext_12_some (Z.shiftr code shift_rs2)) as [z Ez]; run; rewrite ?Ez; done.
Qed.

Lemma i_imm imm : - 2 ^ 11 <= imm < 2 ^ 11 -> sext 32 (slice imm 0 12) width_i_imm = Some (u32 imm).
Proof. intros. unfold slice. rewrite Z.div_1_r. apply (sext_signed imm 12); [unfold width_i_imm; lia | done]. Qed.

Lemma get_fields_I imm rs1 f3 rd op :
  0 <= rs1 < 2 ^ 5 -> 0 <= f3 < 2 ^ 3 -> 0 <= rd < 2 ^ 5 -> 0 <= op < 2 ^ 7 ->
  get_fields (enc_I imm rs1 f3 rd op) = fields_R (enc_I imm rs1 f3 rd op) (slice imm 5 7) (slice imm 0 5) rs1 f3 rd op.
Proof. intros. rewrite enc_I_R. apply get_fields_R; try lia; by apply slice_range. Qed.

Ltac i_format :=
  rewrite get_fields_I by lia;
  match goal with |- context [fields_R (enc_I ?imm ?rs1 ?f3 ?rd ?op)] =>
    let E := fresh "E" in pose proof (upper12 imm rs1 f3 rd op) as E;
    revert E; generalize (enc_I imm rs1 f3 rd op); intros code E
  end.

Lemma decodes_opi o rd rs1 imm : decodes (rv_opi o rd rs1 imm).
Proof.
  intros strict rvc uuid Hv. split_rv Hv. cbn [encode].
  destruct o; cbn [iop_f3]; i_format; run; rewrite E, i_imm by lia; done.
Qed.

(** The shift amount of [SLLI]/[SRLI]/[SRAI] and their high bits. *)
Lemma shamt_lo hi sh : hi = 0 \/ hi = 2 ^ 10 -> 0 <= sh < 64 -> slice (hi + sh) 0 5 = sh mod 32.
Proof. intros [-> | ->] Hs; unfold slice; change (2 ^ 0) with 1; change (2 ^ 5) with 32; change (2 ^ 10) with 1024; Z.to_euclidean_division_equations; lia. Qed.

Lemma shamt_hi hi sh : hi = 0 \/ hi = 2 ^ 10 -> 0 <= sh < 64 -> slice (hi + sh) 5 7 = hi / 32 + sh / 32.
Proof. intros [-> | ->] Hs; unfold slice; change (2 ^ 7) with 128; change (2 ^ 5) with 32; change (2 ^ 10) with 1024; Z.to_euclidean_division_equations; lia. Qed.

Lemma rv64_true : rv64 = true <-> XLEN = 64.
Proof using. unfold rv64. apply Z.eqb_eq. Qed.

Lemma rv64_false : rv64 = false -> XLEN = 32.
Proof using Hok. unfold rv64. intros ?%Z.eqb_neq. destruct xlen_cases; lia. Qed.

Lemma shamt_value sh : 0 <= sh < XLEN -> (if rv64 then Z.lor (sh mod 32) (u32 (Z.shiftl (sh / 32) 5)) else sh mod 32) = sh.
Proof using Hok.
  intros Hs. destruct rv64 eqn:E.
  - apply rv64_true in E. rewrite E in Hs. assert (sh / 32 = 0 \/ sh / 32 = 1) as [Ed|Ed] by (Z.to_euclidean_division_equations; lia); rewrite Ed.
    + change (u32 (Z.shiftl 0 5)) with 0. rewrite Z.lor_0_r. Z.to_euclidean_division_equations; lia.
    + change (u32 (Z.shiftl 1 5)) with (2 ^ 5). rewrite lor_pow2 by (pose proof (Z.mod_pos_bound sh 32); lia). Z.to_euclidean_division_equations; lia.
  - apply rv64_false in E. rewrite E in Hs. apply Z.mod_small. lia.
Qed.

Lemma decodes_shi o rd rs1 sh : decodes (rv_shi o rd rs1 sh).
Proof using Hok.
  intros strict rvc uuid Hv. split_rv Hv. cbn [encode].
  pose proof (shamt_value sh ltac:(lia)) as Es. assert (0 <= sh < 64) by (destruct xlen_cases; lia).
  assert (sh / 32 = 0 \/ sh / 32 = 1) as Ed by (Z.to_euclidean_division_equations; lia).
  destruct o; cbn [shop_f3 shop_hi]; i_format; rewrite shamt_lo, shamt_hi by lia; clear E;
    destruct Ed as [Ed|Ed]; rewrite Ed in *;
    match goal with |- context [fields_R _ ?f7] => let v := eval vm_compute in f7 in change f7 with v end;
    run; change (Z.land 0 1) with 0; change (Z.land 1 1) with 1; change (Z.land 32 1) with 0; change (Z.land 33 1) with 1;
    rewrite Es; done.
Qed.

(** The upper twenty bits, where the U format keeps its immediate. *)
Lemma upper20 imm rd op : Z.shiftr (enc_U imm rd op) shift_funct3 = slice imm 0 20.
Proof using.
  assert (Z.shiftr (enc_U imm rd op) shift_funct3 = slice (enc_U imm rd op) 12 20) as ->.
  { unfold slice. rewrite Z.shiftr_div_pow2 by (vm_compute; discriminate). change shift_funct3 with 12. symmetry. apply Z.mod_small.
    pose proof (val_range [Seg op 0 7; Seg rd 0 5; Seg imm 0 20] eq_refl) as Hr.
    fold (enc_U imm rd op) in Hr. change (total _) with 32 in Hr.
    split; [apply Z.div_pos; lia | apply Z.div_lt_upper_bound; lia]. }
  unfold enc_U. rewrite slice_val by (lia || done). apply val_one.
Qed.

Lemma fields_U imm rd op :
  0 <= op < 2 ^ 7 -> 0 <= imm < 2 ^ 20 -> 0 <= rd < 2 ^ 5 -> exists code,
  get_fields (enc_U imm rd op) = fields_R code (slice imm 13 7) (slice imm 8 5) (slice imm 3 5) (slice imm 0 3) rd op /\
  u32 (Z.shiftl (Z.shiftr code shift_funct3) shift_funct3) = 2 ^ 12 * imm.
Proof using.
  intros Ho Hi Hr. exists (enc_U imm rd op). rewrite upper20, (slice0_small imm 20) by lia. split.
  - rewrite enc_U_R. apply get_fields_R; try lia; by apply slice_range.
  - change shift_funct3 with 12. rewrite Z.shiftl_mul_pow2, u32_small by lia. lia.
Qed.

Lemma decodes_lui rd imm : decodes (rv_lui rd imm).
Proof using.
  intros strict rvc uuid Hv; split_rv Hv; cbn [encode].
  destruct (fields_U imm rd 0x37) as (c & -> & E); [lia.. |]. run. unfold decode_u. run. by rewrite E.
Qed.

Lemma decodes_auipc rd imm : decodes (rv_auipc rd imm).
Proof using.
  intros strict rvc uuid Hv; split_rv Hv; cbn [encode].
  destruct (fields_U imm rd 0x17) as (c & -> & E); [lia.. |]. run. unfold decode_u. run. by rewrite E.
Qed.

Lemma decodes_addiw rd rs1 imm : decodes (rv_addiw rd rs1 imm).
Proof.
  intros strict rvc uuid Hv. split_rv Hv. cbn [encode]. i_format. run. rewrite E, i_imm by lia. done.
Qed.

Lemma decodes_jalr rd rs1 off : decodes (rv_jalr rd rs1 off).
Proof. intros strict rvc uuid Hv. split_rv Hv. cbn [encode]. i_format. run. rewrite E, i_imm by lia. done. Qed.

Lemma decodes_load o rd rs1 off : decodes (rv_load o rd rs1 off).
Proof.
  intros strict rvc uuid Hv. destruct o; split_rv Hv; cbn [encode ldop_f3]; i_format; run; rewrite E, i_imm by lia; run; 
    rewrite sint_u32 by lia; done.
Qed.

Lemma decodes_fload d rd rs1 off : decodes (rv_fload d rd rs1 off).
Proof.
  intros strict rvc uuid Hv. destruct d; split_rv Hv; cbn [encode b2]; i_format; run; rewrite E, i_imm by lia; run;
    rewrite sint_u32 by lia; done.
Qed.

Lemma decodes_shiw o rd rs1 sh : decodes (rv_shiw o rd rs1 sh).
Proof using Hok.
  intros strict rvc uuid Hv. split_rv Hv. cbn [encode].
  assert (Ed : sh / 32 = 0) by (apply Z.div_small; lia). assert (Em : sh mod 32 = sh) by (apply Z.mod_small; lia).
  destruct o; cbn [shop_f3 shop_hi]; i_format; rewrite shamt_lo, shamt_hi by lia; clear E; rewrite Ed, Em;
    match goal with |- context [fields_R _ ?f7] => let v := eval vm_compute in f7 in change f7 with v end;
    run; change (Z.land 0 1) with 0; change (Z.land 32 1) with 0; change (u32 (Z.shiftl 0 5)) with 0; rewrite ?Z.lor_0_r; done.
Qed.

#[local] Instance within_slice y l n : TCEq (0 <=? n) true -> within (slice y l n) (2 ^ n - 1).
Proof using.
  intros Hn%TCEq_eq. apply Z.leb_le in Hn. unfold within. rewrite land_ones_slice by done.
  apply slice0_small; [done | by apply slice_range].
Qed.

(** The immediate of the S format. *)
Lemma s_imm imm : Z.lor (shl (slice imm 5 7) width_reg) (slice imm 0 5) = slice imm 0 12.
Proof using.
  change width_reg with 5. lor_sum. rewrite (shl_mul _ _ 7) by (apply slice_range || lia; lia).
  rewrite (slice_cut imm 0 5 12) by lia. change (slice imm (0 + 5) (12 - 5)) with (slice imm 5 7). lia.
Qed.

Lemma get_fields_S imm rs2 rs1 f3 op :
  0 <= rs2 < 2 ^ 5 -> 0 <= rs1 < 2 ^ 5 -> 0 <= f3 < 2 ^ 3 -> 0 <= op < 2 ^ 7 ->
  exists code, get_fields (enc_S imm rs2 rs1 f3 op) = fields_R code (slice imm 5 7) rs2 rs1 f3 (slice imm 0 5) op.
Proof using. intros. rewrite enc_S_R. eexists. apply get_fields_R; try lia; by apply slice_range. Qed.

Ltac s_format :=
  match goal with |- context [get_fields (enc_S ?imm ?rs2 ?rs1 ?f3 ?op)] =>
    let code := fresh "code" in destruct (get_fields_S imm rs2 rs1 f3 op) as [code ->]; [lia.. |]
  end.

Lemma decodes_store o rs2 rs1 off : decodes (rv_store o rs2 rs1 off).
Proof.
  intros strict rvc uuid Hv. destruct o; split_rv Hv; cbn [encode stop_f3]; s_format; run; rewrite s_imm, i_imm by lia; run;
    rewrite sint_u32 by lia; done.
Qed.

Lemma decodes_fstore d rs2 rs1 off : decodes (rv_fstore d rs2 rs1 off).
Proof.
  intros strict rvc uuid Hv. destruct d; split_rv Hv; cbn [encode b2]; s_format; run; rewrite s_imm, i_imm by lia; run;
    rewrite sint_u32 by lia; done.
Qed.

Lemma decodes_fence imm rs1 rd : decodes (rv_fence imm rs1 rd).
Proof. intros strict rvc uuid Hv. split_rv Hv. cbn [encode]. i_format. run. done. Qed.

Lemma decodes_csr o rd rs1 csr : decodes (rv_csr o rd rs1 csr).
Proof.
  intros strict rvc uuid Hv. split_rv Hv. cbn [encode].
  destruct o; cbn [csrop_f3]; i_format; run; rewrite E, (slice0_small csr 12) by lia; done.
Qed.

Lemma decodes_csri o rd zimm csr : decodes (rv_csri o rd zimm csr).
Proof.
  intros strict rvc uuid Hv. split_rv Hv. cbn [encode].
  destruct o; cbn [csrop_f3]; i_format; run; rewrite E, (slice0_small csr 12) by lia; done.
Qed.

Lemma decodes_sys o : decodes (rv_sys o).
Proof.
  intros strict rvc uuid Hv. cbn [encode]. destruct o; cbn [sysop_imm]; i_format; run; rewrite E; done.
Qed.

(** Register-format floating point: known function codes. *)
Ltac r_format :=
  rewrite get_fields_R by (cbn; lia);
  match goal with |- context [fields_R ?c] => generalize c; intros code end.

Lemma decodes_fbin o d rm rd rs1 rs2 : decodes (rv_fbin o d rm rd rs1 rs2).
Proof. intros strict rvc uuid Hv. split_rv Hv. cbn [encode]. destruct o, d; r_format; run; done. Qed.

Lemma decodes_fsqrt d rm rd rs1 : decodes (rv_fsqrt d rm rd rs1).
Proof. intros strict rvc uuid Hv. split_rv Hv. cbn [encode]. destruct d; r_format; run; done. Qed.

Lemma decodes_fsel o d rd rs1 rs2 : decodes (rv_fsel o d rd rs1 rs2).
Proof. intros strict rvc uuid Hv. split_rv Hv. cbn [encode]. destruct o, d; r_format; run; done. Qed.

Lemma decodes_fcmp o d rd rs1 rs2 : decodes (rv_fcmp o d rd rs1 rs2).
Proof. intros strict rvc uuid Hv. split_rv Hv. cbn [encode]. destruct o, d; r_format; run; done. Qed.

Lemma decodes_f2i k d rm rd rs1 : decodes (rv_f2i k d rm rd rs1).
Proof. intros strict rvc uuid Hv. cbn [encode]. destruct k, d; split_rv Hv; r_format; run; done. Qed.

Lemma decodes_i2f k d rm rd rs1 : decodes (rv_i2f k d rm rd rs1).
Proof. intros strict rvc uuid Hv. cbn [encode]. destruct k, d; split_rv Hv; r_format; run; done. Qed.

Lemma decodes_f2f d rm rd rs1 : decodes (rv_f2f d rm rd rs1).
Proof. intros strict rvc uuid Hv. split_rv Hv. cbn [encode]. destruct d; r_format; run; done. Qed.

Lemma decodes_fclass d rd rs1 : decodes (rv_fclass d rd rs1).
Proof. intros strict rvc uuid Hv. split_rv Hv. cbn [encode]. destruct d; r_format; run; done. Qed.

Lemma decodes_fmvxw d rd rs1 : decodes (rv_fmvxw d rd rs1).
Proof. intros strict rvc uuid Hv. split_rv Hv. cbn [encode]. destruct d; r_format; run; done. Qed.

Lemma decodes_fmvwx d rd rs1 : decodes (rv_fmvwx d rd rs1).
Proof. intros strict rvc uuid Hv. split_rv Hv. cbn [encode]. destruct d; r_format; run; done. Qed.

Lemma decodes_amo o d aq rl rd rs1 rs2 : decodes (rv_amo o d aq rl rd rs1 rs2).
Proof.
  intros strict rvc uuid Hv. destruct d; split_rv Hv; cbn [encode];
  (assert (Ha : forall f7, 0 <= f7 < 2 ^ 7 -> forall y c, get_field (enc_R f7 rs2 rs1 y rd c) shift_aq 1 = slice f7 1 1
    /\ get_field (enc_R f7 rs2 rs1 y rd c) shift_rl 1 = slice f7 0 1) by
   (intros; rewrite !get_field_slice by (vm_compute; discriminate); unfold enc_R; slice_vals; done));
  (destruct o, aq, rl; rewrite get_fields_R by (cbn; lia); cbn [amoop_f5 b2];
    match goal with |- context [fields_R (enc_R ?f7 rs2 rs1 ?y rd ?c)] =>
      destruct (Ha f7 ltac:(lia) y c) as [E1 E2]; generalize dependent (enc_R f7 rs2 rs1 y rd c); intros code E1 E2 end;
    run; rewrite E1, E2; done).
Qed.

Lemma decodes_fma o d rm rd rs1 rs2 rs3 : decodes (rv_fma o d rm rd rs1 rs2 rs3).
Proof.
  intros strict rvc uuid Hv. split_rv Hv. cbn [encode]. rewrite enc_R4_R.
  assert (Hop : 0 <= fmaop_op o < 2 ^ 7) by (destruct o; cbn; lia).
  rewrite get_fields_R by (lia || apply (val_range [Seg (b2 d) 0 2; Seg rs3 0 5]); done).
  match goal with |- context [fields_R ?c] => generalize c; intros code end. unfold fields_R.
  assert (E3 : slice (val [Seg (b2 d) 0 2; Seg rs3 0 5]) 2 5 = rs3) by (slice_vals; apply slice0_small; lia).
  assert (E2 : slice (val [Seg (b2 d) 0 2; Seg rs3 0 5]) 0 2 = b2 d) by (slice_vals; by destruct d).
  assert (E1 : Z.land (val [Seg (b2 d) 0 2; Seg rs3 0 5]) 1 = b2 d).
  { rewrite (land_mask _ 1 1) by lia. slice_vals. by destruct d. }
  revert E1 E2 E3. generalize (val [Seg (b2 d) 0 2; Seg rs3 0 5]). intros f7 E1 E2 E3.
  destruct o; run; unfold fpu_args; cbn [funct7 funct2 funct3 f_rs3]; rewrite E1, E2, E3; by destruct d.
Qed.

(** The immediates of the B and J formats, reassembled by the decoder. *)
Lemma b_imm imm : imm mod 2 = 0 ->
  let rd := val [Seg imm 11 1; Seg imm 1 4] in
  let f7 := val [Seg imm 5 6; Seg imm 12 1] in
  Z.lor (Z.lor (Z.lor (shl (Z.shiftr rd 1) 1) (shl (Z.land f7 0x3f) 5)) (shl (Z.land rd 1) 11)) (shl (Z.shiftr f7 6) 12)
  = slice imm 0 13.
Proof using.
  intros He rd f7.
  assert (Z.shiftr rd 1 = slice imm 1 4) as ->.
  { rewrite Z.shiftr_div_pow2 by lia. rewrite <- (Z.mod_small (rd / 2 ^ 1) (2 ^ 4)).
    - change (slice rd 1 4 = slice imm 1 4). subst rd. slice_vals. done.
    - pose proof (val_range [Seg imm 11 1; Seg imm 1 4] eq_refl) as Hr. fold rd in Hr. change (total _) with 5 in Hr.
      split; [apply Z.div_pos; lia | apply Z.div_lt_upper_bound; lia]. }
  assert (Z.shiftr f7 6 = slice imm 12 1) as ->.
  { rewrite Z.shiftr_div_pow2 by lia. rewrite <- (Z.mod_small (f7 / 2 ^ 6) (2 ^ 1)).
    - change (slice f7 6 1 = slice imm 12 1). subst f7. slice_vals. done.
    - pose proof (val_range [Seg imm 5 6; Seg imm 12 1] eq_refl) as Hr. fold f7 in Hr. change (total _) with 7 in Hr.
      split; [apply Z.div_pos; lia | apply Z.div_lt_upper_bound; lia]. }
  rewrite (land_mask rd 1 1), (land_mask f7 0x3f 6) by lia. subst rd f7. slice_vals. lor_sum.
  rewrite (shl_mul _ 1 4), (shl_mul _ 5 6), (shl_mul _ 11 1), (shl_mul _ 12 1) by (apply slice_range || lia; lia).
  rewrite (slice_cut imm 0 1 13), (slice_cut imm (0 + 1) 4 (13 - 1)), (slice_cut imm (0 + 1 + 4) 6 (13 - 1 - 4)),
    (slice_cut imm (0 + 1 + 4 + 6) 1 (13 - 1 - 4 - 6)) by lia.
  assert (slice imm 0 1 = 0) as -> by (unfold slice; by rewrite Z.div_1_r).
  change (0 + 1 + 4 + 6 + 1) with 12. change (0 + 1 + 4 + 6) with 11. change (0 + 1 + 4) with 5. change (0 + 1) with 1.
  change (13 - 1 - 4 - 6 - 1) with 1. lia.
Qed.

Lemma decodes_branch o rs1 rs2 off : decodes (rv_branch o rs1 rs2 off).
Proof.
  intros strict rvc uuid Hv. split_rv Hv. cbn [encode]. rewrite enc_B_R.
  rewrite get_fields_R; [|apply (val_range [Seg off 5 6; Seg off 12 1]); done | lia | lia | destruct o; cbn; lia
    | apply (val_range [Seg off 11 1; Seg off 1 4]); done | lia].
  match goal with |- context [fields_R ?c] => generalize c; intros code end. pose proof (b_imm off ltac:(assumption)) as E. cbv zeta in E.
  revert E. generalize (val [Seg off 11 1; Seg off 1 4]) (val [Seg off 5 6; Seg off 12 1]); intros vrd vf7 E.
  run. rewrite E. unfold slice. change (width_i_imm + 1) with 13. rewrite Z.div_1_r, (sext_signed off 13) by lia. done.
Qed.

Lemma j_imm imm rd op : imm mod 2 = 0 ->
  let unordered := Z.shiftr (enc_J imm rd op) shift_funct3 in
  Z.lor (Z.lor (Z.lor (shl (Z.land (Z.shiftr unordered 9) 0x3ff) 1) (shl (Z.land (Z.shiftr unordered 8) 1) 11))
    (shl (Z.land unordered 0xff) 12)) (shl (Z.land (Z.shiftr unordered 19) 1) 20) = slice imm 0 21.
Proof using.
  intros He unordered. subst unordered. change shift_funct3 with 12. rewrite !Z.shiftr_shiftr by lia.
  rewrite (land_mask _ 0x3ff 10), (land_mask _ 0xff 8), !(land_mask _ 1 1) by lia. rewrite !slice_shiftr by lia.
  change (12 + 9 + 0) with 21. change (12 + 8 + 0) with 20. change (12 + 0) with 12. change (12 + 19 + 0) with 31.
  unfold enc_J. slice_vals. lor_sum.
  rewrite (shl_mul _ 1 10), (shl_mul _ 11 1), (shl_mul _ 12 8), (shl_mul _ 20 1) by (apply slice_range || lia; lia).
  rewrite (slice_cut imm 0 1 21), (slice_cut imm (0 + 1) 10 (21 - 1)), (slice_cut imm (0 + 1 + 10) 1 (21 - 1 - 10)),
    (slice_cut imm (0 + 1 + 10 + 1) 8 (21 - 1 - 10 - 1)) by lia.
  assert (slice imm 0 1 = 0) as -> by (unfold slice; by rewrite Z.div_1_r).
  change (0 + 1 + 10 + 1 + 8) with 20. change (0 + 1 + 10 + 1) with 12. change (0 + 1 + 10) with 11. change (0 + 1) with 1.
  change (21 - 1 - 10 - 1 - 8) with 1. lia.
Qed.

Lemma decodes_jal rd off : decodes (rv_jal rd off).
Proof.
  intros strict rvc uuid Hv. split_rv Hv. cbn [encode]. pose proof (j_imm off rd 0x6F ltac:(assumption)) as E. cbv zeta in E.
  rewrite (enc_J_R off rd 0x6F) at 1.
  rewrite get_fields_R; [|apply (val_range [Seg off 5 6; Seg off 20 1]); done | apply (val_range [Seg off 11 1; Seg off 1 4]); done
    | by apply slice_range | by apply slice_range | lia | lia].
  rewrite <- enc_J_R. revert E. generalize (enc_J off rd 0x6F). intros code E.
  run. rewrite E. unfold slice. change (width_j_imm + 1) with 21. rewrite Z.div_1_r, (sext_signed off 21) by lia. done.
Qed.

Lemma decodes_all i : decodes i.
Proof using Hok.
  destruct i; [apply decodes_lui | apply decodes_auipc | apply decodes_op | apply decodes_opi | apply decodes_shi
    | apply decodes_opw | apply decodes_addiw | apply decodes_shiw | apply decodes_branch | apply decodes_jal
    | apply decodes_jalr | apply decodes_load | apply decodes_store | apply decodes_fload | apply decodes_fstore
    | apply decodes_fence | apply decodes_amo | apply decodes_csr | apply decodes_csri | apply decodes_sys
    | apply decodes_fma | apply decodes_fbin | apply decodes_fsqrt | apply decodes_fsel | apply decodes_fcmp
    | apply decodes_f2i | apply decodes_i2f | apply decodes_f2f | apply decodes_fclass | apply decodes_fmvxw
    | apply decodes_fmvwx].
Qed.

(** The two low bits tell a full-size instruction from a compressed one. *)
Lemma encode_32bit i : is_rvc_code (encode i) = false.
Proof using.
  unfold is_rvc_code. rewrite (land_mask _ 3 2) by lia.
  destruct i; cbn [encode]; unfold enc_R, enc_I, enc_S, enc_B, enc_U, enc_J, enc_R4;
    slice_vals; try destruct o; done.
Qed.

(** C17. The decoder inverts the reference encoding: for every valid
    instruction of the configured instruction set (RV32/RV64 with M, A, F, D,
    Zicsr and Zicond) [decode] of its encoding returns the instruction with
    its unit, operation, arguments, operand registers and stall flag. *)
Theorem decode_inverts_encode (strict : bool) (uuid : Z) (i : rv_instr) :
  rv_valid i = true ->
  canonical <$> decode strict (encode i) uuid = Some (instr_of uuid false i).
Proof using Hok.
  intros Hv. unfold decode. rewrite encode_32bit. cbn [mbind option_bind]. by apply decodes_all.
Qed.

Lemma decode_rvc (strict : bool) (uuid code : Z) :
  0 <= code < 2 ^ 32 -> code mod 4 <> 3 ->
  (forall c, c_valid c = true -> rv_valid (cexpand c) = true -> code mod 2 ^ 16 = cencode c ->
     canonical <$> decode strict code uuid = Some (instr_of uuid true (cexpand c))) /\
  ((forall c, c_valid c = true -> code mod 2 ^ 16 <> cencode c) -> decode strict code uuid = None).
Proof using Hok.
  intros Hc H3. assert (is_rvc_code code = true) as E.
  { unfold is_rvc_code. rewrite (land_mask _ 3 2) by lia. unfold slice. rewrite Z.div_1_r. change (2 ^ 2) with 4.
    by destruct (Z.eqb_spec (code mod 4) 3). }
  assert (Z.land code 0xFFFF = code mod 2 ^ 16) as El by (rewrite (land_mask _ 0xFFFF 16) by lia; unfold slice; by rewrite Z.div_1_r).
  pose proof (decompress_cases (code mod 2 ^ 16)) as [Hy Hn].
  { apply Z.mod_pos_bound. lia. }
  { rewrite Z.mod_mod_divide; [done | by exists (2 ^ 14)]. }
  unfold decode. rewrite E, El. split.
  - intros c Hv Hr Ec. rewrite (Hy c Hv Ec). cbn. by apply decodes_all.
  - intros Hc'. rewrite (Hn Hc'). done.
Qed.

(** Compressed fetch: whatever the upper half-word holds, [decode] of a
    word whose lower half encodes a compressed instruction returns the
    instruction that the expanded form decodes to, differing only in the
    recorded instruction size, and [decode] aborts when the lower half is no
    compressed instruction. *)
Theorem decode_compressed (strict : bool) (uuid code : Z) :
  0 <= code < 2 ^ 32 -> code mod 4 <> 3 ->
  (forall c, c_valid c = true -> rv_valid (cexpand c) = true -> code mod 2 ^ 16 = cencode c ->
     canonical <$> decode strict code uuid = Some (instr_of uuid true (cexpand c))) /\
  ((forall c, c_valid c = true -> code mod 2 ^ 16 <> cencode c) -> decode strict code uuid = None).
Proof using Hok. apply decode_rvc. Qed.
End Reference.

#[local] Existing Instances default_config default_config_ok.

#[local] Instance no_extensions : IsaConfig :=
  {| EXT_DXA := false; EXT_TCU := false; TCU_WGMMA := false; TCU_META := false; EXT_TEX := false; EXT_OM := false;
     GFX_WINDOW := false; EXT_RTU := false |}.

(** [lw x10, -4(x11)] *)
Lemma decode_inverts_encode_witness :
  canonical <$> decode false 0xFFC5A503 7 = Some (instr_of 7 false (rv_load l_lw 10 11 (-4))).
Proof. exact (decode_inverts_encode false 7 (rv_load l_lw 10 11 (-4)) eq_refl). Defined.

(** [c.lw x10, 4(x11)] under an arbitrary upper half-word. *)
Lemma decode_compressed_witness :
  canonical <$> decode false 0xBEEF41C8 7 = Some (instr_of 7 true (rv_load l_lw 10 11 4)).
Proof.
  exact (proj1 (decode_compressed false 7 0xBEEF41C8 ltac:(lia) ltac:(vm_compute; discriminate))
    (c_load cm_w 10 11 4) eq_refl eq_refl eq_refl).
Defined.

(** ** Shape of the decoded instructions *)

Section Typing.
Context `{Hcfg : VxConfig} `{Hisa : IsaConfig}.

(** The unit that executes an operation. *)
Definition fu_of (op : OpType) : FUType :=
  match op with
  | OpAlu _ | OpBr _ | OpMdv _ | OpVote _ | OpShfl _ | OpWgather _ => ALU
  | OpLsu _ | OpAmo _ => LSU
  | OpFpu _ => FPU
  | OpCsr _ | OpWctl _ | OpDxa _ | OpTex _ | OpOm _ | OpRtu _ => SFU
  | OpTcu _ => TCU
  end.

(** The alternative of the argument variant the unit reads; votes and shuffles
    read none. *)
Definition args_match (op : OpType) (a : IntrArgs) : bool :=
  match op, a with
  | OpAlu _, AluArgs _ | OpBr _, BrArgs _ | OpMdv _, MdvArgs _ | OpLsu _, LsuArgs _ | OpAmo _, AmoArgs _
  | OpFpu _, FpuArgs _ | OpCsr _, CsrArgs _ | OpWgather _, WgatherArgs _ | OpWctl _, WctlArgs _ | OpDxa _, DxaArgs
  | OpTcu _, TcuArgs _ | OpTex _, TexArgs _ | OpOm _, OmArgs | OpRtu _, RtuArgs _ | OpVote _, _ | OpShfl _, _ => true
  | _, _ => false
  end.

(** The operations whose warp must not be fetched from until they are done. *)
Definition must_stall (i : Instr) : bool :=
  is_macro_op_ i ||
  match op_type_ i, args_ i with
  | OpBr _, _ => true
  | OpWctl BAR, WctlArgs a => negb (is_bar_arrive a)
  | OpWctl _, _ => true
  | _, _ => false
  end.

Definition reg_ok (r : RegOpd) : Prop := 0 <= reg_idx r < 32.
Record regs_ok (i : Instr) : Prop := { ro_srcs : length (rsrc_ i) = MAX_REG_SOURCES; ro_src : Forall reg_ok (rsrc_ i); ro_dest : reg_ok (rdest_ i) }.
Record instr_typed (i : Instr) : Prop := {
  it_fu : fu_type_ i = fu_of (op_type_ i);
  it_args : args_match (op_type_ i) (args_ i) = true;
  it_regs : regs_ok i;
  it_stall : is_wstall_ i = must_stall i
}.

Lemma regs_new uuid : regs_ok (Instr_new uuid).
Proof. split; [done| |done]. by repeat constructor. Qed.

Lemma regs_src n r t i : 0 <= r < 32 -> regs_ok i -> regs_ok (set_src_reg n r t i).
Proof. intros Hr [? ? ?]. split; simpl; [by rewrite length_insert|by apply Forall_insert|done]. Qed.

Lemma regs_dest r t i : 0 <= r < 32 -> regs_ok i -> regs_ok (set_dest_reg r t i).
Proof. intros Hr [? ? ?]. by split. Qed.

Lemma regs_other i j : rsrc_ j = rsrc_ i -> rdest_ j = rdest_ i -> regs_ok i -> regs_ok j.
Proof. intros E1 E2 [? ? ?]. split; by rewrite ?E1, ?E2. Qed.

Lemma get_field_range code shift : 0 <= get_field code shift 5 < 32.
Proof. unfold get_field. change (mask 5) with (Z.ones 5). rewrite Z.land_ones by lia. apply Z.mod_pos_bound. lia. Qed.

(** Splits the cases of a decoder. *)
Ltac decode_hyp E :=
  repeat match type of E with
  | None = Some _ => discriminate E
  | _ ≫= _ = Some _ => let E' := fresh "E" in apply bind_Some in E as (? & E' & E); decode_hyp E'
  | context [match ?x with _ => _ end] => destruct x eqn:?; try discriminate E
  | Some _ = Some _ => injection E as <-
  end.
Ltac decode_cases := let E := fresh "E" in intros E; decode_hyp E.

Section Fields.
Variables (f : fields) (uuid : Z).
Hypotheses (H1 : 0 <= f_rd f < 32) (H2 : 0 <= f_rs1 f < 32) (H3 : 0 <= f_rs2 f < 32) (H4 : 0 <= f_rs3 f < 32).

Ltac regs :=
  repeat first [apply regs_new | apply regs_src; [done|] | apply regs_dest; [done|]
    | lazymatch goal with
      | |- regs_ok (set_args _ ?i) => apply (regs_other i); [done|done|]
      | |- regs_ok (set_op_type _ ?i) => apply (regs_other i); [done|done|]
      | |- regs_ok (set_fu_type _ ?i) => apply (regs_other i); [done|done|]
      | |- regs_ok (set_wstall _ ?i) => apply (regs_other i); [done|done|]
      | |- regs_ok (set_macro_op ?i) => apply (regs_other i); [done|done|]
      end].
Ltac typed := split; [done|done|regs|done].

Lemma typed_u : instr_typed (decode_u f (Instr_new uuid)).
Proof. unfold decode_u. typed. Qed.

Lemma typed_int i : decode_int f (Instr_new uuid) = Some i -> instr_typed i.
Proof. unfold decode_int, decode_int_op. cbv zeta. decode_cases; typed. Qed.

Lemma typed_branch c i : decode_branch c f (Instr_new uuid) = Some i -> instr_typed i.
Proof. unfold decode_branch. cbv zeta. decode_cases; typed. Qed.

Lemma typed_jal c i : decode_jal c f (Instr_new uuid) = Some i -> instr_typed i.
Proof. unfold decode_jal. cbv zeta. decode_cases; typed. Qed.

Lemma typed_jalr c i : decode_jalr c f (Instr_new uuid) = Some i -> instr_typed i.
Proof. unfold decode_jalr. decode_cases; typed. Qed.

Lemma typed_mem i : decode_mem f (Instr_new uuid) = Some i -> instr_typed i.
Proof. unfold decode_mem. cbv zeta. decode_cases; typed. Qed.

Lemma typed_fence : instr_typed (decode_fence (Instr_new uuid)).
Proof. unfold decode_fence. typed. Qed.

Lemma typed_amo i : decode_amo f (Instr_new uuid) = Some i -> instr_typed i.
Proof. unfold decode_amo. cbv zeta. decode_cases; typed. Qed.

Lemma typed_sys i : decode_sys f (Instr_new uuid) = Some i -> instr_typed i.
Proof. unfold decode_sys. cbv zeta. decode_cases; typed. Qed.

Lemma typed_fci i : decode_fci f (Instr_new uuid) = Some i -> instr_typed i.
Proof. unfold decode_fci, fpu_args. destruct (fci_of _ _) as [[[t d] l]|]; [|done]. bind_simpl. decode_cases; typed. Qed.

Lemma typed_fma : instr_typed (decode_fma f (Instr_new uuid)).
Proof. unfold decode_fma. typed. Qed.

Lemma typed_wctl i : decode_wctl f (Instr_new uuid) = Some i -> instr_typed i.
Proof. unfold decode_wctl. cbv zeta. decode_cases; try typed. all: split; [done|done|regs|]; unfold must_stall; simpl; by destruct (f_rd f =? 0). Qed.

Lemma typed_vote i : decode_vote f (Instr_new uuid) = Some i -> instr_typed i.
Proof. unfold decode_vote. cbv zeta. decode_cases; typed. Qed.

Lemma typed_tcu i : decode_tcu f (Instr_new uuid) = Some i -> instr_typed i.
Proof. unfold decode_tcu. cbv zeta. decode_cases; typed. Qed.

Lemma typed_ext1 i : decode_ext1 f (Instr_new uuid) = Some i -> instr_typed i.
Proof.
  unfold decode_ext1. destruct (funct7 f) as [|[[]|[[]|[]|]|]|]; try done.
  - apply typed_wctl.
  - decode_cases; typed.
  - unfold decode_packld. cbv zeta. decode_cases; typed.
  - destruct EXT_TCU; [apply typed_tcu|done].
  - apply typed_vote.
Qed.

Lemma typed_ext2 strict i : decode_ext2 strict f (Instr_new uuid) = Some i -> instr_typed i.
Proof.
  unfold decode_ext2. intros (j & E & Ej)%bind_Some. destruct (doctrine_check strict j); [|done]. injection Ej as <-. revert E.
  unfold decode_ext2_op, decode_tex, decode_window, decode_rtu2, windowed. cbv zeta. decode_cases; typed.
Qed.

Lemma typed_op strict c i : decode_op strict c f (Instr_new uuid) = Some i -> instr_typed i.
Proof.
  unfold decode_op. cbv zeta. repeat (case_match; [intros; simplify_eq;
    first [by apply typed_u|by eapply typed_int|by eapply typed_branch|by eapply typed_jal|by eapply typed_jalr|by eapply typed_mem
      |by apply typed_fence|by eapply typed_amo|by eapply typed_sys|by eapply typed_fci|by apply typed_fma|by eapply typed_ext1|by eapply typed_ext2]|]).
  done.
Qed.
End Fields.

(** C29. Every instruction the decoder accepts is well typed, for every code word
    and every set of extensions: the unit is the one of the operation, the
    argument variant holds the alternative that unit reads, the three source
    operands and the destination name one of the 32 registers of their file,
    and an instruction stalls its warp exactly when it is a macro operation, a
    branch or a warp-control operation other than the arrival at a barrier
    ([BAR] with a destination register), after which the warp runs on. *)
Theorem decode_well_typed strict code uuid i : decode strict code uuid = Some i -> instr_typed i.
Proof.
  unfold decode. intros (c & _ & E)%bind_Some. revert E. apply typed_op; apply get_field_range.
Qed.
End Typing.

(** [vx_wspawn] stalls its warp, the arrival at a barrier does not. *)
Lemma decode_well_typed_witness :
  (exists i, decode false 0x00B5100B 7 = Some i /\ op_type_ i = OpWctl WSPAWN /\ is_wstall_ i = true /\ instr_typed i) /\
  (exists i, decode false 0x00B5628B 7 = Some i /\ op_type_ i = OpWctl BAR /\ is_wstall_ i = false /\ instr_typed i).
Proof.
  split.
  - destruct (decode false 0x00B5100B 7) as [i|] eqn:E; [|discriminate E]. exists i. split; [reflexivity|].
    pose proof (decode_well_typed false 0x00B5100B 7 i E) as T. injection E as <-. split; [reflexivity|]. split; [reflexivity|exact T].
  - destruct (decode false 0x00B5628B 7) as [i|] eqn:E; [|discriminate E]. exists i. split; [reflexivity|].
    pose proof (decode_well_typed false 0x00B5628B 7 i E) as T. injection E as <-. split; [reflexivity|]. split; [reflexivity|exact T].
Defined.
