(* ===== verification/IsaSem.v ===== *)
(** * Reference semantics of the integer instructions

    The value and the jump target that the RISC-V specification assigns to the
    integer instructions of [Isa.v], on unsigned [XLEN]-bit register values.
    This is a specification; it models no source file. *)

From S2P Require Import Prelude Isa.

Section Sem.
Context `{VxConfig}.

(** The signed reading of a register value. *)
Definition sgn (x : Z) : Z := sint XLEN x.

(** A 32-bit result, sign-extended. *)
Definition sext32 (x : Z) : Z := word (sint 32 x).

Definition b01 (b : bool) : Z := if b then 1 else 0.

(** Division by zero gives all ones and leaves the dividend as remainder;
    the overflowing quotient wraps. *)
Definition rop_sem (o : rop) (a b : Z) : Z :=
  match o with
  | r_add => word (a + b)
  | r_sub => word (a - b)
  | r_sll => word (a * 2 ^ (b mod XLEN))
  | r_slt => b01 (sgn a <? sgn b)
  | r_sltu => b01 (a <? b)
  | r_xor => Z.lxor a b
  | r_srl => a / 2 ^ (b mod XLEN)
  | r_sra => word (sgn a / 2 ^ (b mod XLEN))
  | r_or => Z.lor a b
  | r_and => Z.land a b
  | r_mul => word (a * b)
  | r_mulh => word (sgn a * sgn b / 2 ^ XLEN)
  | r_mulhsu => word (sgn a * b / 2 ^ XLEN)
  | r_mulhu => a * b / 2 ^ XLEN
  | r_div => if b =? 0 then 2 ^ XLEN - 1 else word (Z.quot (sgn a) (sgn b))
  | r_divu => if b =? 0 then 2 ^ XLEN - 1 else a / b
  | r_rem => if b =? 0 then a else word (Z.rem (sgn a) (sgn b))
  | r_remu => if b =? 0 then a else a mod b
  | r_czero_eqz => if b =? 0 then 0 else a
  | r_czero_nez => if b =? 0 then a else 0
  end.

(** The word operations of RV64 use the low halves. *)
Definition rwop_sem (o : rwop) (a b : Z) : Z :=
  let ua := u32 a in let ub := u32 b in
  let sa := sint 32 a in let sb := sint 32 b in
  sext32
    match o with
    | w_addw => ua + ub
    | w_subw => ua - ub
    | w_sllw => ua * 2 ^ (ub mod 32)
    | w_srlw => ua / 2 ^ (ub mod 32)
    | w_sraw => sa / 2 ^ (ub mod 32)
    | w_mulw => ua * ub
    | w_divw => if sb =? 0 then -1 else Z.quot sa sb
    | w_divuw => if ub =? 0 then -1 else ua / ub
    | w_remw => if sb =? 0 then sa else Z.rem sa sb
    | w_remuw => if ub =? 0 then ua else ua mod ub
    end.

Definition iop_rop (o : iop) : rop :=
  match o with
  | i_addi => r_add | i_slti => r_slt | i_sltiu => r_sltu | i_xori => r_xor | i_ori => r_or | i_andi => r_and
  end.
Definition shop_rop (o : shop) : rop := match o with s_slli => r_sll | s_srli => r_srl | s_srai => r_sra end.
Definition shop_rwop (o : shop) : rwop := match o with s_slli => w_sllw | s_srli => w_srlw | s_srai => w_sraw end.

Definition brop_sem (o : brop) (a b : Z) : bool :=
  match o with
  | b_beq => a =? b
  | b_bne => negb (a =? b)
  | b_blt => sgn a <? sgn b
  | b_bge => sgn b <=? sgn a
  | b_bltu => a <? b
  | b_bgeu => b <=? a
  end.

(** The value of [rd] of a computational instruction at address [pc] with
    source values [a] and [b]; [None] for the others. *)
Definition rv_value (i : rv_instr) (pc a b : Z) : option Z :=
  match i with
  | rv_lui _ imm => Some (sext32 (2 ^ 12 * imm))
  | rv_auipc _ imm => Some (word (pc + sext32 (2 ^ 12 * imm)))
  | rv_op o _ _ _ => Some (rop_sem o a b)
  | rv_opi o _ _ imm => Some (rop_sem (iop_rop o) a (word imm))
  | rv_shi o _ _ sh => Some (rop_sem (shop_rop o) a sh)
  | rv_opw o _ _ _ => Some (rwop_sem o a b)
  | rv_addiw _ _ imm => Some (rwop_sem w_addw a (word imm))
  | rv_shiw o _ _ sh => Some (rwop_sem (shop_rwop o) a sh)
  | _ => None
  end.

(** The target of a control transfer, [None] when it is not taken. *)
Definition rv_target (i : rv_instr) (pc a b : Z) : option Z :=
  match i with
  | rv_branch o _ _ off => if brop_sem o a b then Some (word (pc + off)) else None
  | rv_jal _ off => Some (word (pc + off))
  | rv_jalr _ _ off => Some (Z.land (word (a + off)) (lnot_w XLEN 1))
  | _ => None
  end.
End Sem.

(** The registers an integer instruction names. *)
Definition rv_rd (i : rv_instr) : Z :=
  match i with
  | rv_lui rd _ | rv_auipc rd _ | rv_op _ rd _ _ | rv_opi _ rd _ _ | rv_shi _ rd _ _ | rv_opw _ rd _ _
  | rv_addiw rd _ _ | rv_shiw _ rd _ _ | rv_jal rd _ | rv_jalr rd _ _ => rd
  | _ => 0
  end.
Definition rv_rs1 (i : rv_instr) : Z :=
  match i with
  | rv_op _ _ r _ | rv_opi _ _ r _ | rv_shi _ _ r _ | rv_opw _ _ r _ | rv_addiw _ r _ | rv_shiw _ _ r _
  | rv_branch _ r _ _ | rv_jalr _ r _ => r
  | _ => 0
  end.
Definition rv_rs2 (i : rv_instr) : Z :=
  match i with rv_op _ _ _ r | rv_opw _ _ _ r | rv_branch _ _ r _ => r | _ => 0 end.

(** ** Results are register values *)

Section Range.
Context `{Hcfg : VxConfig} {Hok : VxConfigOk}.

Lemma pow_xlen : 0 < 2 ^ XLEN.
Proof using Hok. apply Z.pow_pos_nonneg; destruct xlen_cases; lia. Qed.

Lemma word_bounds x : 0 <= word x < 2 ^ XLEN.
Proof using Hok. apply Z.mod_pos_bound, pow_xlen. Qed.

Lemma bitop_bounds (f : Z -> Z -> Z) (g : bool -> bool -> bool) a b :
  (forall i, Z.testbit (f a b) i = g (Z.testbit a i) (Z.testbit b i)) -> g false false = false -> 0 <= f a b ->
  0 <= a < 2 ^ XLEN -> 0 <= b < 2 ^ XLEN -> 0 <= f a b < 2 ^ XLEN.
Proof using Hok.
  intros Hb Hg Hf Ha Hbb. split; [done|]. assert (0 <= XLEN) by (destruct xlen_cases; lia).
  assert (f a b mod 2 ^ XLEN = f a b) as E; [|rewrite <- E; apply word_bounds].
  apply Z.bits_inj'. intros i Hi. rewrite Z.testbit_mod_pow2 by lia. destruct (Z.ltb_spec i XLEN); [done|]. cbn.
  rewrite Hb. rewrite <- (Z.mod_small a (2 ^ XLEN)), <- (Z.mod_small b (2 ^ XLEN)) by lia.
  by rewrite !Z.mod_pow2_bits_high, Hg by lia.
Qed.

Lemma rop_bounds o a b : 0 <= a < 2 ^ XLEN -> 0 <= b < 2 ^ XLEN -> 0 <= rop_sem o a b < 2 ^ XLEN.
Proof using Hok.
  intros Ha Hb. pose proof pow_xlen. assert (1 < 2 ^ XLEN) by (destruct xlen_cases as [-> | ->]; lia).
  destruct o; cbn [rop_sem]; try apply word_bounds.
  - destruct (_ <? _); cbn; lia.
  - destruct (_ <? _); cbn; lia.
  - apply (bitop_bounds Z.lxor xorb); try done; [intros; apply Z.lxor_spec | apply Z.lxor_nonneg; lia].
  - assert (0 < 2 ^ (b mod XLEN)) by (apply Z.pow_pos_nonneg; [lia|]; apply Z.mod_pos_bound; destruct xlen_cases; lia).
    split; [apply Z.div_pos; lia|]. apply Z.div_lt_upper_bound; nia.
  - apply (bitop_bounds Z.lor orb); try done; [intros; apply Z.lor_spec | apply Z.lor_nonneg; lia].
  - apply (bitop_bounds Z.land andb); try done; [intros; apply Z.land_spec | apply Z.land_nonneg; lia].
  - split; [apply Z.div_pos; nia|]. apply Z.div_lt_upper_bound; nia.
  - destruct (_ =? _); [lia | apply word_bounds].
  - destruct (Z.eqb_spec b 0); [lia|]. split; [apply Z.div_pos; lia|]. apply Z.div_lt_upper_bound; nia.
  - destruct (_ =? _); [lia | apply word_bounds].
  - destruct (Z.eqb_spec b 0); [lia|]. pose proof (Z.mod_pos_bound a b ltac:(lia)). lia.
  - destruct (_ =? _); lia.
  - destruct (_ =? _); lia.
Qed.

Lemma value_bounds i pc a b v :
  rv_valid i = true -> rv_value i pc a b = Some v -> 0 <= a < 2 ^ XLEN -> 0 <= b < 2 ^ XLEN -> 0 <= v < 2 ^ XLEN.
Proof using Hok.
  intros Hv E Ha Hb. pose proof (word_bounds) as Hw. assert (XLEN < 2 ^ XLEN) by (destruct xlen_cases as [-> | ->]; lia).
  destruct i; try discriminate E; injection E as <-; try apply Hw; try (by apply rop_bounds).
  cbn in Hv. rewrite !andb_true_iff in Hv. destruct Hv as [_ Hs]. unfold in_range in Hs. apply rop_bounds; [done | lia].
Qed.
End Range.
