(* ===== verification/Regfile.v ===== *)
(** * Operand collectors and the register file — [sim/simx/opc_unit.cpp],
      [sim/simx/operands.cpp]

    The registers of a core are spread over the issue lanes, the operand
    collectors of a lane and the warp slots of a collector.  The file models
    the routing, the operand reads and the masked, byte-selective write-back,
    and shows that the banked file implements one flat map from warp, register
    and lane to a value. *)

From S2P Require Import Prelude Mask Bitmanip Isa Instr Decompress.

(** Issue lanes, operand collectors per lane, register banks. *)
Class OpcConfig := {
  ISSUE_WIDTH : Z;     (* VX_CFG_ISSUE_WIDTH *)
  NUM_OPCS : Z;        (* VX_CFG_NUM_OPCS *)
  NUM_GPR_BANKS : Z    (* VX_CFG_NUM_GPR_BANKS *)
}.

Class OpcConfigOk `{OpcConfig} : Prop := {
  issue_width_ok : 1 <= ISSUE_WIDTH;
  num_opcs_ok : 1 <= NUM_OPCS;
  num_banks_ok : 1 <= NUM_GPR_BANKS
}.

Definition MAX_NUM_REGS : Z := 32.
Definition NUM_SRC_REGS : nat := 3.

(** [OpcUnit::warp_regs_t]: [ireg_file[reg][thread]] and
    [freg_file[reg][thread]]. *)
Record warp_regs_t := mk_regs { ireg_file : list (list Z); freg_file : list (list Z) }.

(** [OpcUnit::regs_], [Operands::opc_units_], [Core::operands_] *)
Abbreviation OpcUnit := (list warp_regs_t).
Abbreviation Operands := (list OpcUnit).
Abbreviation CoreRegs := (list Operands).

Section Regfile.
Context `{Hcfg : VxConfig} `{Hopc : OpcConfig} `{MO : MaskOps M}.

Definition zero_bank : list Z := replicate (Z.to_nat NUM_THREADS) 0.

Definition warp_regs_new : warp_regs_t :=
  mk_regs (replicate (Z.to_nat MAX_NUM_REGS) zero_bank) (replicate (Z.to_nat MAX_NUM_REGS) zero_bank).

(** [warp_regs_t::reset] *)
Definition warp_regs_reset (r : warp_regs_t) : warp_regs_t :=
  mk_regs (map (map (fun _ => 0)) (ireg_file r)) (map (map (fun _ => 0)) (freg_file r)).

(** Routing of a warp. *)
Definition wid_to_lane (wid : Z) : Z := wid mod ISSUE_WIDTH.
Definition wid_to_opc_idx (wid : Z) : Z := (wid / ISSUE_WIDTH) mod NUM_OPCS.
Definition wid_to_slot (wid : Z) : Z := (wid / ISSUE_WIDTH) / NUM_OPCS.
Definition per_opc_warps : Z := (NUM_WARPS + ISSUE_WIDTH * NUM_OPCS - 1) / (ISSUE_WIDTH * NUM_OPCS).

Definition OpcUnit_new : OpcUnit := replicate (Z.to_nat per_opc_warps) warp_regs_new.
Definition OpcUnit_reset (o : OpcUnit) : OpcUnit := warp_regs_reset <$> o.
Definition Operands_new : Operands := replicate (Z.to_nat NUM_OPCS) OpcUnit_new.
Definition CoreRegs_new : CoreRegs := replicate (Z.to_nat ISSUE_WIDTH) Operands_new.

(** [compute_bank_conflicts]: pairs of source registers in the same bank. *)
Definition conflicts (ri rj : RegOpd) : bool :=
  negb (bool_decide (reg_type ri = RegNone) || bool_decide (reg_type rj = RegNone))
  && negb ((bool_decide (reg_type ri = RegInteger) && (reg_id_of ri =? 0))
           || (bool_decide (reg_type rj = RegInteger) && (reg_id_of rj =? 0)))
  && (reg_idx ri mod NUM_GPR_BANKS =? reg_idx rj mod NUM_GPR_BANKS).

Fixpoint compute_bank_conflicts (srcs : list RegOpd) : Z :=
  match srcs with
  | [] => 0
  | r :: rest => Z.of_nat (length (filter (fun r' => conflicts r r' = true) rest)) + compute_bank_conflicts rest
  end.

(** [OpcUnit::read_src]; an operand without register keeps its zeros. *)
Definition read_src (o : OpcUnit) (wid : Z) (r : RegOpd) : option (list Z) :=
  slot ← vat o (wid_to_slot wid);
  match reg_type r with
  | RegInteger => src ← vat (ireg_file slot) (reg_idx r); mapM (vat src) (range NUM_THREADS)
  | RegFloat => src ← vat (freg_file slot) (reg_idx r); mapM (vat src) (range NUM_THREADS)
  | RegNone => Some zero_bank
  end.

(** [Operands::fetch_operands] *)
Definition fetch_operands (ops : Operands) (wid : Z) (srcs : list RegOpd) : option (list (list Z)) :=
  opc ← vat ops (wid_to_opc_idx wid);
  mapM (fun r => if bool_decide (reg_type r = RegNone) then Some zero_bank else read_src opc wid r) srcs.

(** [expand_bytesel64] *)
Definition expand_bytesel64 (bs : Z) : Z :=
  fold_left (fun m b => if negb (Z.land bs (Z.shiftl 1 b) =? 0) then Z.lor m (u64 (Z.shiftl 0xFF (8 * b))) else m) (range 8) 0.

(** One lane of [writeback]: [(cur & ~mask) | (incoming & mask)]. *)
Definition merge (w mask cur incoming : Z) : Z := Z.lor (Z.land cur (lnot_w w mask)) (Z.land incoming mask).

Definition write_lane (w mask : Z) (m : M) (dst : list Z) (bank : option (list Z)) (t : Z) : option (list Z) :=
  bank ← bank;
  if m_test m t then
    cur ← vat bank t; incoming ← vat dst t;
    Some (vset bank t (merge w mask cur incoming))
  else Some bank.

Definition write_bank (w mask : Z) (m : M) (dst bank : list Z) : option (list Z) :=
  fold_left (write_lane w mask m dst) (range NUM_THREADS) (Some bank).

(** [OpcUnit::writeback] *)
Definition opc_writeback (o : OpcUnit) (wid : Z) (r : RegOpd) (bytesel : Z) (m : M) (dst : list Z) : option OpcUnit :=
  if bool_decide (dst = []) then Some o
  else
    let slot := wid_to_slot wid in
    let mask := expand_bytesel64 bytesel in
    match reg_type r with
    | RegNone => Some o
    | RegInteger =>
        regs ← vat o slot; bank ← vat (ireg_file regs) (reg_idx r);
        bank' ← write_bank XLEN (word mask) m dst bank;
        Some (vset o slot (mk_regs (vset (ireg_file regs) (reg_idx r) bank') (freg_file regs)))
    | RegFloat =>
        regs ← vat o slot; bank ← vat (freg_file regs) (reg_idx r);
        bank' ← write_bank 64 mask m dst bank;
        Some (vset o slot (mk_regs (ireg_file regs) (vset (freg_file regs) (reg_idx r) bank')))
    end.

(** [Operands::writeback] *)
Definition writeback (ops : Operands) (wid : Z) (r : RegOpd) (bytesel : Z) (m : M) (dst : list Z) : option Operands :=
  opc ← vat ops (wid_to_opc_idx wid);
  opc' ← opc_writeback opc wid r bytesel m dst;
  Some (vset ops (wid_to_opc_idx wid) opc').

(** [operands_.at(iw)->...] *)
Definition core_fetch (c : CoreRegs) (wid : Z) (srcs : list RegOpd) : option (list (list Z)) :=
  ops ← vat c (wid_to_lane wid); fetch_operands ops wid srcs.
Definition core_writeback (c : CoreRegs) (wid : Z) (r : RegOpd) (bytesel : Z) (m : M) (dst : list Z) : option CoreRegs :=
  ops ← vat c (wid_to_lane wid);
  ops' ← writeback ops wid r bytesel m dst;
  Some (vset c (wid_to_lane wid) ops').

(** [Operands::get_exit_code]: [x3] of the first thread of warp 0. *)
Definition get_exit_code (ops : Operands) : option Z :=
  o ← vat ops 0; regs ← vat o 0; bank ← vat (ireg_file regs) 3; v ← vat bank 0; Some (sint 32 v).

(** [Operands::dtm_ireg] *)
Definition dtm_ireg (ops : Operands) (wid reg : Z) : option Z :=
  o ← vat ops (wid_to_opc_idx wid); regs ← vat o (wid_to_slot wid); bank ← vat (ireg_file regs) reg; vat bank 0.
End Regfile.

(** ** Indexing *)

Lemma vat_Some {A} (l : list A) i x : vat l i = Some x <-> 0 <= i /\ l !! Z.to_nat i = Some x.
Proof. unfold vat. destruct (Z.ltb_spec i 0); split; [done | lia | by split | by intros []]. Qed.

Lemma vat_range {A} (l : list A) i x : vat l i = Some x -> 0 <= i < Z.of_nat (length l).
Proof. intros [Hi E]%vat_Some. apply lookup_lt_Some in E. lia. Qed.

Lemma vat_in {A} (l : list A) i : 0 <= i < Z.of_nat (length l) -> exists x, vat l i = Some x.
Proof.
  intros Hi. destruct (lookup_lt_is_Some_2 l (Z.to_nat i) ltac:(lia)) as [x E]. exists x. apply vat_Some. split; [lia | done].
Qed.

Lemma vat_vset {A} (l : list A) i j x :
  0 <= i < Z.of_nat (length l) -> vat (vset l i x) j = if decide (i = j) then Some x else vat l j.
Proof.
  intros Hi. unfold vset, vat. destruct (decide (i = j)) as [->|Hne].
  - rewrite (proj2 (Z.ltb_ge j 0)) by lia. apply list_lookup_insert_eq. lia.
  - destruct (Z.ltb_spec j 0); [done|]. apply list_lookup_insert_ne. lia.
Qed.

Lemma vat_elem {A} (l : list A) i x : vat l i = Some x -> x ∈ l.
Proof. intros [_ E]%vat_Some. by eapply list_elem_of_lookup_2. Qed.

Lemma vat_Forall {A} (P : A -> Prop) l i x : Forall P l -> vat l i = Some x -> P x.
Proof. intros HF E%vat_elem. rewrite list.Forall_forall in HF. by apply HF. Qed.

Lemma Forall_vset {A} (P : A -> Prop) l i x : Forall P l -> P x -> Forall P (vset l i x).
Proof. intros. by apply Forall_insert. Qed.

Lemma length_vset' {A} (l : list A) i x : length (vset l i x) = length l.
Proof. apply length_insert. Qed.

(** ** Flat view *)

Section Flat.
Context `{Hcfg : VxConfig} {Hok : VxConfigOk} `{Hopc : OpcConfig} {Hook : OpcConfigOk} `{HM : MaskSpec M}.

Definition warp_regs (c : CoreRegs) (wid : Z) : option warp_regs_t :=
  ops ← vat c (wid_to_lane wid); o ← vat ops (wid_to_opc_idx wid); vat o (wid_to_slot wid).

Definition bank (regs : warp_regs_t) (r : RegOpd) : option (list Z) :=
  match reg_type r with
  | RegInteger => vat (ireg_file regs) (reg_idx r)
  | RegFloat => vat (freg_file regs) (reg_idx r)
  | RegNone => None
  end.

Definition bank_of (c : CoreRegs) (wid : Z) (r : RegOpd) : option (list Z) := regs ← warp_regs c wid; bank regs r.

(** The flat register file: the value of register [r] of warp [wid] in lane
    [t]. *)
Definition reg_at (c : CoreRegs) (wid : Z) (r : RegOpd) (t : Z) : option Z := b ← bank_of c wid r; vat b t.

Definition reg_width (r : RegOpd) : Z := match reg_type r with RegFloat => 64 | _ => XLEN end.

(** Shape and value ranges. *)
Definition bank_ok (w : Z) (b : list Z) : Prop := Z.of_nat (length b) = NUM_THREADS /\ Forall (fun v => 0 <= v < 2 ^ w) b.
Definition regs_ok (r : warp_regs_t) : Prop :=
  Z.of_nat (length (ireg_file r)) = MAX_NUM_REGS /\ Forall (bank_ok XLEN) (ireg_file r) /\
  Z.of_nat (length (freg_file r)) = MAX_NUM_REGS /\ Forall (bank_ok 64) (freg_file r).
Definition opc_ok (o : OpcUnit) : Prop := Z.of_nat (length o) = per_opc_warps /\ Forall regs_ok o.
Definition ops_ok (ops : Operands) : Prop := Z.of_nat (length ops) = NUM_OPCS /\ Forall opc_ok ops.
Definition rf_ok (c : CoreRegs) : Prop := Z.of_nat (length c) = ISSUE_WIDTH /\ Forall ops_ok c.

Lemma Forall_replicate_intro {A} (P : A -> Prop) n x : P x -> Forall P (replicate n x).
Proof using. intros. apply list.Forall_forall. intros y Hy. apply elem_of_replicate in Hy as [-> _]. done. Qed.


(** The routing is a bijection onto lane, collector and slot. *)
Lemma route_inj w1 w2 :
  wid_to_lane w1 = wid_to_lane w2 -> wid_to_opc_idx w1 = wid_to_opc_idx w2 -> wid_to_slot w1 = wid_to_slot w2 -> w1 = w2.
Proof using Hook.
  unfold wid_to_lane, wid_to_opc_idx, wid_to_slot. intros E1 E2 E3. pose proof issue_width_ok. pose proof num_opcs_ok.
  rewrite (Z.div_mod w1 ISSUE_WIDTH), (Z.div_mod w2 ISSUE_WIDTH) by lia. rewrite E1. f_equal. f_equal.
  rewrite (Z.div_mod (w1 / ISSUE_WIDTH) NUM_OPCS), (Z.div_mod (w2 / ISSUE_WIDTH) NUM_OPCS) by lia. by rewrite E2, E3.
Qed.

Lemma route_range wid :
  0 <= wid < NUM_WARPS ->
  0 <= wid_to_lane wid < ISSUE_WIDTH /\ 0 <= wid_to_opc_idx wid < NUM_OPCS /\ 0 <= wid_to_slot wid < per_opc_warps.
Proof using Hook.
  intros Hw. pose proof issue_width_ok. pose proof num_opcs_ok. split_and!; try (apply Z.mod_pos_bound; lia).
  - unfold wid_to_slot. apply Z.div_pos; [apply Z.div_pos|]; lia.
  - unfold wid_to_slot, per_opc_warps. rewrite Z.div_div by lia.
    assert (0 < ISSUE_WIDTH * NUM_OPCS) by nia. set (n := ISSUE_WIDTH * NUM_OPCS) in *.
    replace (NUM_WARPS + n - 1) with (NUM_WARPS - 1 + 1 * n) by lia. rewrite Z.div_add by lia.
    assert (wid / n <= (NUM_WARPS - 1) / n) by (apply Z.div_le_mono; lia). lia.
Qed.

Lemma warp_regs_some c wid : rf_ok c -> 0 <= wid < NUM_WARPS -> exists regs, warp_regs c wid = Some regs /\ regs_ok regs.
Proof using Hook.
  intros [Hl Hc] Hw. destruct (route_range wid Hw) as (H1 & H2 & H3). unfold warp_regs.
  destruct (vat_in c (wid_to_lane wid)) as [ops E1]; [lia|]. rewrite E1. cbn. destruct (vat_Forall _ _ _ _ Hc E1) as [Hl2 Ho].
  destruct (vat_in ops (wid_to_opc_idx wid)) as [o E2]; [lia|]. rewrite E2. cbn. destruct (vat_Forall _ _ _ _ Ho E2) as [Hl3 Hr].
  destruct (vat_in o (wid_to_slot wid)) as [r E3]; [lia|]. rewrite E3. exists r. split; [done|]. exact (vat_Forall _ _ _ _ Hr E3).
Qed.

Lemma bank_some regs r :
  regs_ok regs -> reg_type r <> RegNone -> 0 <= reg_idx r < MAX_NUM_REGS -> exists b, bank regs r = Some b /\ bank_ok (reg_width r) b.
Proof using.
  intros (Hi & Fi & Hf & Ff) Ht Hr. unfold bank, reg_width. destruct (reg_type r); [done|..].
  - destruct (vat_in (ireg_file regs) (reg_idx r)) as [b E]; [lia|]. exists b. split; [done|]. exact (vat_Forall _ _ _ _ Fi E).
  - destruct (vat_in (freg_file regs) (reg_idx r)) as [b E]; [lia|]. exists b. split; [done|]. exact (vat_Forall _ _ _ _ Ff E).
Qed.

(** ** Write-back *)

Lemma vat_lanes_eq (l : list Z) : Z.of_nat (length l) = NUM_THREADS -> l = (fun t => vget l t) <$> range NUM_THREADS.
Proof using.
  intros Hl. apply list_eq. intros i. unfold range. rewrite !list_lookup_fmap.
  destruct (decide (i < Z.to_nat NUM_THREADS)%nat) as [Hi|Hi].
  - rewrite lookup_seq_lt by done. cbn. destruct (lookup_lt_is_Some_2 l i ltac:(lia)) as [v E]. rewrite E. f_equal.
    unfold vget. rewrite Nat2Z.id. symmetry. by apply list_lookup_total_correct.
  - rewrite lookup_seq_ge by lia. cbn. apply lookup_ge_None_2. lia.
Qed.

Lemma vat_vget (l : list Z) t : 0 <= t < Z.of_nat (length l) -> vat l t = Some (vget l t).
Proof using.
  intros Ht. destruct (vat_in l t Ht) as [v E]. rewrite E. apply vat_Some in E as [_ E]. f_equal. unfold vget. symmetry.
  by apply list_lookup_total_correct.
Qed.

Lemma write_bank_ok w mask (m : M) dst b :
  Z.of_nat (length b) = NUM_THREADS -> Z.of_nat (length dst) = NUM_THREADS ->
  exists b', write_bank w mask m dst b = Some b' /\ length b' = length b /\
    forall t, 0 <= t < NUM_THREADS -> vget b' t = if m_test m t then merge w mask (vget b t) (vget dst t) else vget b t.
Proof using.
  intros Hb Hd. unfold write_bank, range.
  assert (forall n, Z.of_nat n <= NUM_THREADS -> exists b',
    fold_left (write_lane w mask m dst) (Z.of_nat <$> seq 0 n) (Some b) = Some b' /\ length b' = length b /\
    forall t, 0 <= t < NUM_THREADS ->
      vget b' t = if (t <? Z.of_nat n) && m_test m t then merge w mask (vget b t) (vget dst t) else vget b t) as Hp.
  { induction n as [|n IH]; intros Hn.
    - exists b. split_and!; try done. intros t Ht. by rewrite (proj2 (Z.ltb_ge t _)) by lia.
    - destruct IH as (b1 & E & Hl & Hv); [lia|]. rewrite seq_S, fmap_app, fold_left_app, E. cbn [fmap list_fmap fold_left Nat.add].
      assert (forall t, t <> Z.of_nat n -> (t <? Z.of_nat (S n)) = (t <? Z.of_nat n)) as Hlt.
      { intros t Hne. destruct (Z.ltb_spec t (Z.of_nat (S n))), (Z.ltb_spec t (Z.of_nat n)); done || lia. }
      unfold write_lane. cbn [mbind option_bind]. destruct (m_test m (Z.of_nat n)) eqn:Em.
      + rewrite !vat_vget by lia. cbn [mbind option_bind]. eexists. split; [done|]. split; [by rewrite length_vset'|].
        intros t Ht. destruct (Z.eq_dec t (Z.of_nat n)) as [->|Hne].
        * rewrite vget_vset_eq by lia. rewrite Hv, (proj2 (Z.ltb_ge _ _)), (proj2 (Z.ltb_lt _ (Z.of_nat (S n)))), Em by lia. done.
        * rewrite vget_vset_ne, Hv, Hlt by lia. done.
      + exists b1. split_and!; try done. intros t Ht. rewrite Hv by done. destruct (Z.eq_dec t (Z.of_nat n)) as [->|Hne].
        * by rewrite Em, !andb_false_r.
        * by rewrite Hlt. }
  destruct (Hp (Z.to_nat NUM_THREADS)) as (b' & E & Hl & Hv); [lia|]. exists b'. split_and!; try done.
  intros t Ht. rewrite Hv by done. by rewrite (proj2 (Z.ltb_lt _ _)) by lia.
Qed.

Lemma merge_range w mask cur inc : 0 <= w -> 0 <= mask < 2 ^ w -> 0 <= cur < 2 ^ w -> 0 <= merge w mask cur inc < 2 ^ w.
Proof using.
  intros Hw Hm Hc. assert (forall z, 0 <= z -> (forall i, w <= i -> Z.testbit z i = false) -> 0 <= z < 2 ^ w) as Hb.
  { intros z Hz Hi. split; [done|]. destruct (Z.eq_dec z 0) as [->|]; [by apply Z.pow_pos_nonneg|].
    apply Z.log2_lt_pow2; [lia|]. destruct (Z.lt_ge_cases (Z.log2 z) w) as [|Hge]; [done|].
    specialize (Hi _ Hge). rewrite Z.bit_log2 in Hi by lia. done. }
  assert (forall z i, 0 <= z < 2 ^ w -> w <= i -> Z.testbit z i = false) as Hh.
  { intros z i Hz Hi. rewrite <- (Z.mod_small z (2 ^ w)) by lia. by apply Z.mod_pow2_bits_high. }
  unfold merge. apply Hb.
  - apply Z.lor_nonneg. split; apply Z.land_nonneg; [left; lia | right; lia].
  - intros i Hi. rewrite Z.lor_spec, !Z.land_spec, (Hh cur), (Hh mask) by done. by rewrite andb_false_r.
Qed.

Lemma merge_full w cur inc : 0 <= w -> 0 <= inc < 2 ^ w -> merge w (2 ^ w - 1) cur inc = inc.
Proof using.
  intros Hw Hi. unfold merge, lnot_w. rewrite Z.sub_1_r, <- Z.ones_equiv, Z.lxor_nilpotent, Z.land_0_r, Z.lor_0_l.
  by rewrite Z.land_ones, Z.mod_small by lia.
Qed.

Lemma bytesel_full : expand_bytesel64 0xFF = 2 ^ 64 - 1.
Proof using. reflexivity. Qed.

Lemma bytesel_range bs : 0 <= expand_bytesel64 bs < 2 ^ 64.
Proof using.
  unfold expand_bytesel64. change (range 8) with [0; 1; 2; 3; 4; 5; 6; 7]. cbn [fold_left].
  assert (forall k m, 0 <= k < 8 -> 0 <= m < 2 ^ 64 ->
    0 <= (if negb (Z.land bs (Z.shiftl 1 k) =? 0) then Z.lor m (u64 (Z.shiftl 0xFF (8 * k))) else m) < 2 ^ 64) as Hs.
  { intros k m Hk Hm. destruct (negb _); [|done]. pose proof (u64_range (Z.shiftl 0xFF (8 * k))) as Hu.
    generalize dependent (u64 (Z.shiftl 0xFF (8 * k))). intros v Hv.
    pose proof (merge_range 64 v m (2 ^ 64 - 1) ltac:(lia) Hv Hm).
    assert (0 <= Z.lor m v) by (apply Z.lor_nonneg; lia). split; [done|].
    destruct (Z.eq_dec (Z.lor m v) 0) as [->|]; [lia|]. apply Z.log2_lt_pow2; [lia|]. rewrite Z.log2_lor by lia.
    apply Z.max_lub_lt; (destruct (Z.eq_dec m 0), (Z.eq_dec v 0); subst; try (simpl; lia); apply Z.log2_lt_pow2; lia). }
  repeat apply Hs; lia.
Qed.
End Flat.

Section Writeback.
Context `{Hcfg : VxConfig} {Hok : VxConfigOk} `{Hopc : OpcConfig} {Hook : OpcConfigOk} `{HM : MaskSpec M}.

(** Replacing the registers of one warp. *)
Lemma warp_regs_update c wid ops o regs regs' :
  rf_ok c -> vat c (wid_to_lane wid) = Some ops -> vat ops (wid_to_opc_idx wid) = Some o -> vat o (wid_to_slot wid) = Some regs ->
  regs_ok regs' ->
  let c' := vset c (wid_to_lane wid) (vset ops (wid_to_opc_idx wid) (vset o (wid_to_slot wid) regs')) in
  rf_ok c' /\ forall wid', warp_regs c' wid' = if decide (wid' = wid) then Some regs' else warp_regs c wid'.
Proof using Hook.
  intros [Hl Hc] E1 E2 E3 Hr c'. destruct (vat_Forall _ _ _ _ Hc E1) as [Hl2 Ho], (vat_Forall _ _ _ _ Ho E2) as [Hl3 Hs].
  subst c'. split.
  - split; [by rewrite length_vset'|]. apply Forall_vset; [done|]. split; [by rewrite length_vset'|]. apply Forall_vset; [done|].
    split; [by rewrite length_vset'|]. by apply Forall_vset.
  - intros wid'. unfold warp_regs. rewrite vat_vset by (by eapply vat_range). destruct (decide (wid' = wid)) as [->|Hne].
    + rewrite decide_True by done. cbn. rewrite vat_vset, decide_True by (done || by eapply vat_range). cbn.
      by rewrite vat_vset, decide_True by (done || by eapply vat_range).
    + destruct (decide (wid_to_lane wid = wid_to_lane wid')) as [El|El]; [|done]. cbn [mbind option_bind].
      rewrite <- El, E1. cbn [mbind option_bind]. rewrite vat_vset by (by eapply vat_range).
      destruct (decide (wid_to_opc_idx wid = wid_to_opc_idx wid')) as [Eo|Eo]; [|done]. cbn [mbind option_bind].
      rewrite <- Eo, E2. cbn [mbind option_bind]. rewrite vat_vset by (by eapply vat_range).
      rewrite decide_False; [done|]. intros Es. apply Hne. symmetry. by apply route_inj.
Qed.

Lemma opc_writeback_ok o wid r bs (m : M) dst regs :
  vat o (wid_to_slot wid) = Some regs -> regs_ok regs -> reg_type r <> RegNone -> 0 <= reg_idx r < MAX_NUM_REGS ->
  Z.of_nat (length dst) = NUM_THREADS ->
  exists regs' b b', opc_writeback o wid r bs m dst = Some (vset o (wid_to_slot wid) regs') /\ regs_ok regs' /\
    bank regs r = Some b /\ (forall r', bank regs' r' = if decide (r' = r) then Some b' else bank regs r') /\
    Z.of_nat (length b) = NUM_THREADS /\ length b' = length b /\
    forall t, 0 <= t < NUM_THREADS -> vget b' t =
      if m_test m t then merge (reg_width r) (expand_bytesel64 bs mod 2 ^ reg_width r) (vget b t) (vget dst t) else vget b t.
Proof using Hok.
  intros Eo Hr Ht Hi Hd. pose proof num_threads_ok. pose proof (bytesel_range bs) as Hbs.
  destruct (bank_some regs r Hr Ht Hi) as (b & Eb & Hbl & Hbr). destruct Hr as (Hil & HiF & Hfl & HfF).
  destruct (write_bank_ok (reg_width r) (expand_bytesel64 bs mod 2 ^ reg_width r) m dst b Hbl Hd) as (b' & Ew & Hl' & Hv).
  assert (bank_ok (reg_width r) b') as Hb'.
  { split; [lia|]. apply list.Forall_forall. intros v Hv'. apply list_elem_of_lookup in Hv' as [i Ei].
    pose proof (lookup_lt_Some _ _ _ Ei). rewrite list.Forall_forall in Hbr.
    assert (v = vget b' (Z.of_nat i)) as -> by (unfold vget; rewrite Nat2Z.id; symmetry; by apply list_lookup_total_correct).
    assert (0 <= vget b (Z.of_nat i) < 2 ^ reg_width r) as Hc.
    { apply Hbr. eapply vat_elem. apply vat_vget. lia. }
    assert (0 <= reg_width r) by (unfold reg_width; destruct xlen_cases, (reg_type r); lia).
    rewrite Hv by lia. destruct (m_test m _); [|done]. apply merge_range; [lia | apply Z.mod_pos_bound; lia | done]. }
  unfold opc_writeback. rewrite bool_decide_eq_false_2 by (intros ->; simpl in Hd; lia).
  unfold bank, reg_width in *. destruct (reg_type r) eqn:Er; [done|..]; rewrite Eo; cbn [mbind option_bind]; rewrite Eb; cbn [mbind option_bind].
  - unfold word. rewrite Ew. cbn [mbind option_bind]. eexists _, b, b'. split; [done|]. split.
    { split_and!; cbn [ireg_file freg_file]; try done; [by rewrite length_vset' | by apply Forall_vset]. }
    split; [done|]. split; [|done]. intros r'. cbn [ireg_file freg_file]. destruct (decide (r' = r)) as [->|Hne].
    + rewrite Er. by rewrite vat_vset, decide_True by (done || by eapply vat_range).
    + destruct r' as [[] k]; try done. cbn. rewrite vat_vset by (by eapply vat_range). rewrite decide_False; [done|].
      intros E. apply Hne. destruct r. cbn in *. by subst.
  - rewrite (Z.mod_small _ (2 ^ 64)) in Ew by lia. rewrite Ew. cbn [mbind option_bind]. eexists _, b, b'. split; [done|]. split.
    { split_and!; cbn [ireg_file freg_file]; try done; [by rewrite length_vset' | by apply Forall_vset]. }
    split; [done|]. split; [|done]. intros r'. cbn [ireg_file freg_file]. destruct (decide (r' = r)) as [->|Hne].
    + rewrite Er. by rewrite vat_vset, decide_True by (done || by eapply vat_range).
    + destruct r' as [[] k]; try done. cbn. rewrite vat_vset by (by eapply vat_range). rewrite decide_False; [done|].
      intros E. apply Hne. destruct r. cbn in *. by subst.
Qed.

Lemma writeback_flat c wid r bs (m : M) dst :
  rf_ok c -> 0 <= wid < NUM_WARPS -> reg_type r <> RegNone -> 0 <= reg_idx r < MAX_NUM_REGS -> Z.of_nat (length dst) = NUM_THREADS ->
  exists c', core_writeback c wid r bs m dst = Some c' /\ rf_ok c' /\
    forall wid' r' t, 0 <= t < NUM_THREADS -> reg_at c' wid' r' t =
      if decide (wid' = wid /\ r' = r /\ m_test m t = true)
      then (fun cur => merge (reg_width r) (expand_bytesel64 bs mod 2 ^ reg_width r) cur (vget dst t)) <$> reg_at c wid r t
      else reg_at c wid' r' t.
Proof using Hok Hook.
  intros Hc Hw Ht Hi Hd. destruct (warp_regs_some c wid Hc Hw) as (regs & E & Hr). pose proof E as E'. unfold warp_regs in E'.
  destruct (vat c (wid_to_lane wid)) as [ops|] eqn:E1; [|done]. cbn [mbind option_bind] in E'.
  destruct (vat ops (wid_to_opc_idx wid)) as [o|] eqn:E2; [|done]. cbn [mbind option_bind] in E'.
  destruct (opc_writeback_ok o wid r bs m dst regs E' Hr Ht Hi Hd) as (regs' & b & b' & Ew & Hr' & Eb & Hb & Hlb & Hlb' & Hv).
  destruct (warp_regs_update c wid ops o regs regs' Hc E1 E2 E' Hr') as [Hc' Hwr].
  eexists. split; [|split; [exact Hc'|]].
  { unfold core_writeback. rewrite E1. cbn [mbind option_bind]. unfold writeback. rewrite E2. cbn [mbind option_bind].
    rewrite Ew. done. }
  intros wid' r' t Ht'. unfold reg_at, bank_of. rewrite Hwr, E. cbn [mbind option_bind]. rewrite Eb. cbn [mbind option_bind].
  destruct (decide (wid' = wid)) as [->|Hne]; [|rewrite decide_False by tauto; done].
  cbn [mbind option_bind]. rewrite E. cbn [mbind option_bind]. rewrite Hb.
  destruct (decide (r' = r)) as [->|Hne]; [|rewrite decide_False by tauto; done].
  rewrite Eb. cbn [mbind option_bind]. rewrite !vat_vget by lia. rewrite Hv by done.
  destruct (m_test m t) eqn:Em; [rewrite decide_True by done | rewrite decide_False by (intros (_ & _ & ?); congruence)]; done.
Qed.
End Writeback.

(** ** The register file as an interface

    What the operand collectors promise to the pipeline: a flat file of
    registers per warp and lane, read at issue and written under a mask. *)

Definition reg_valid (r : RegOpd) : Prop := reg_type r <> RegNone /\ 0 <= reg_idx r < MAX_NUM_REGS.

Abbreviation flat_regs := (Z -> RegOpd -> Z -> Z).

Section Interface.
Context `{Hcfg : VxConfig}.

Definition flat_read (f : flat_regs) (wid : Z) (r : RegOpd) : list Z :=
  (fun t => if bool_decide (reg_type r = RegNone) then 0 else f wid r t) <$> range NUM_THREADS.

Definition flat_write {M} `{MaskOps M} (f : flat_regs) (wid : Z) (r : RegOpd) (bs : Z) (m : M) (dst : list Z) : flat_regs :=
  fun wid' r' t =>
    if decide (wid' = wid /\ r' = r /\ m_test m t = true)
    then merge (reg_width r) (expand_bytesel64 bs mod 2 ^ reg_width r) (f wid r t) (vget dst t)
    else f wid' r' t.

Class RegFile (R M : Type) `{MaskOps M} := {
  rf_new : R;
  rf_fetch : R -> Z -> list RegOpd -> option (list (list Z));
  rf_write : R -> Z -> RegOpd -> Z -> M -> list Z -> option R;
  rf_rep : R -> flat_regs -> Prop;
  rf_rep_range : forall c f wid r t, rf_rep c f -> 0 <= wid < NUM_WARPS -> reg_valid r -> 0 <= t < NUM_THREADS ->
    0 <= f wid r t < 2 ^ reg_width r;
  rf_rep_ext : forall c f g, rf_rep c f ->
    (forall wid r t, 0 <= wid < NUM_WARPS -> reg_valid r -> 0 <= t < NUM_THREADS -> f wid r t = g wid r t) -> rf_rep c g;
  rf_new_rep : rf_rep rf_new (fun _ _ _ => 0);
  rf_fetch_rep : forall c f wid srcs, rf_rep c f -> 0 <= wid < NUM_WARPS ->
    Forall (fun r => reg_type r = RegNone \/ reg_valid r) srcs -> rf_fetch c wid srcs = Some (flat_read f wid <$> srcs);
  rf_write_rep : forall c f wid r bs m dst, rf_rep c f -> 0 <= wid < NUM_WARPS -> reg_valid r ->
    Z.of_nat (length dst) = NUM_THREADS ->
    exists c', rf_write c wid r bs m dst = Some c' /\ rf_rep c' (flat_write f wid r bs m dst)
}.
End Interface.

Section Implementation.
Context `{Hcfg : VxConfig} {Hok : VxConfigOk} `{Hopc : OpcConfig} {Hook : OpcConfigOk} `{HM : MaskSpec M}.

Definition flat_rep (c : CoreRegs) (f : flat_regs) : Prop :=
  rf_ok c /\ forall wid r t, 0 <= wid < NUM_WARPS -> reg_valid r -> 0 <= t < NUM_THREADS -> reg_at c wid r t = Some (f wid r t).

Lemma flat_rep_range c f wid r t :
  flat_rep c f -> 0 <= wid < NUM_WARPS -> reg_valid r -> 0 <= t < NUM_THREADS -> 0 <= f wid r t < 2 ^ reg_width r.
Proof using Hook.
  intros [Hc Hf] Hw [Hn Hi] Ht. specialize (Hf wid r t Hw (conj Hn Hi) Ht). unfold reg_at, bank_of in Hf.
  destruct (warp_regs_some c wid Hc Hw) as (regs & E & Hr). rewrite E in Hf. cbn in Hf.
  destruct (bank_some regs r Hr Hn Hi) as (b & Eb & Hbl & Hbr). rewrite Eb in Hf. cbn in Hf. exact (vat_Forall _ _ _ _ Hbr Hf).
Qed.

Lemma flat_rep_ext c f g :
  flat_rep c f -> (forall wid r t, 0 <= wid < NUM_WARPS -> reg_valid r -> 0 <= t < NUM_THREADS -> f wid r t = g wid r t) -> flat_rep c g.
Proof using. intros [Hc Hf] Hfg. split; [done|]. intros. rewrite <- Hfg by done. by apply Hf. Qed.

(** A write of every byte replaces the lanes of the mask. *)
Lemma flat_write_full {N} `{MaskOps N} (G : flat_regs) wid r (m : N) v wid' r' t :
  0 <= v t < 2 ^ reg_width r -> 0 <= t < NUM_THREADS ->
  flat_write G wid r 0xFF m (v <$> range NUM_THREADS) wid' r' t =
  if decide (wid' = wid /\ r' = r /\ m_test m t = true) then v t else G wid' r' t.
Proof using Hok.
  intros Hv Ht. unfold flat_write. destruct (decide _) as [_|_]; [|done].
  assert (vget (v <$> range NUM_THREADS) t = v t) as ->.
  { unfold vget, range. rewrite list_lookup_total_alt, !list_lookup_fmap, lookup_seq_lt by lia. cbn. by rewrite Z2Nat.id by lia. }
  rewrite bytesel_full.
  assert ((2 ^ 64 - 1) mod 2 ^ reg_width r = 2 ^ reg_width r - 1) as ->.
  { unfold reg_width. destruct xlen_cases as [E|E]; destruct (reg_type r); rewrite ?E; reflexivity. }
  apply merge_full; [|done]. unfold reg_width. destruct xlen_cases as [E|E]; destruct (reg_type r); lia.
Qed.

Lemma CoreRegs_new_rep : flat_rep CoreRegs_new (fun _ _ _ => 0).
Proof using Hok Hook.
  pose proof num_threads_ok. pose proof num_warps_ok. pose proof issue_width_ok. pose proof num_opcs_ok.
  assert (forall w, 0 <= w -> bank_ok w zero_bank) as Hb.
  { intros w Hw. unfold zero_bank. split; [rewrite length_replicate; lia|]. apply Forall_replicate_intro. lia. }
  assert (0 <= XLEN) by (destruct xlen_cases; lia).
  assert (rf_ok CoreRegs_new) as Hn.
  { split; [unfold CoreRegs_new; rewrite length_replicate; lia|]. apply Forall_replicate_intro.
    split; [unfold Operands_new; rewrite length_replicate; lia|]. apply Forall_replicate_intro.
    split; [unfold OpcUnit_new; rewrite length_replicate; rewrite Z2Nat.id; [done|]; apply Z.div_pos; nia|].
    apply Forall_replicate_intro.
    split_and!; cbn [warp_regs_new ireg_file freg_file]; rewrite ?length_replicate; try done;
      apply Forall_replicate_intro, Hb; lia. }
  split; [done|]. intros wid r t Hw [Ht Hi] Hlane. destruct (warp_regs_some _ _ Hn Hw) as (regs & E & Hr).
  unfold reg_at, bank_of. rewrite E. cbn [mbind option_bind].
  assert (regs = warp_regs_new) as ->.
  { unfold warp_regs, CoreRegs_new, Operands_new, OpcUnit_new in E. 
    destruct (vat _ (wid_to_lane wid)) as [ops|] eqn:E1; [|done]. apply vat_elem, elem_of_replicate in E1 as [-> _]. cbn in E.
    destruct (vat _ (wid_to_opc_idx wid)) as [o|] eqn:E2; [|done]. apply vat_elem, elem_of_replicate in E2 as [-> _]. cbn in E.
    by apply vat_elem, elem_of_replicate in E as [-> _]. }
  destruct (bank_some _ r Hr Ht Hi) as (b & Eb & Hbl & _). rewrite Eb. cbn.
  assert (b = zero_bank) as ->.
  { unfold bank in Eb. destruct (reg_type r); [done|..]; by apply vat_elem, elem_of_replicate in Eb as [-> _]. }
  destruct (vat_in zero_bank t) as [v Ev]; [lia|]. rewrite Ev. by apply vat_elem, elem_of_replicate in Ev as [-> _].
Qed.

Lemma mapM_vat (b : list Z) : Z.of_nat (length b) = NUM_THREADS -> mapM (vat b) (range NUM_THREADS) = Some b.
Proof using.
  intros Hb. rewrite (vat_lanes_eq b Hb) at 2.
  assert (forall l, (forall t, t ∈ l -> vat b t = Some (vget b t)) -> mapM (vat b) l = Some ((fun t => vget b t) <$> l)) as Hm.
  { induction l as [|t l IH]; intros Hl; [done|]. cbn. rewrite (Hl t) by left. cbn. rewrite IH; [done|].
    intros; apply Hl; by right. }
  apply Hm. intros t Ht%elem_of_range. apply vat_vget. lia.
Qed.

Lemma core_fetch_rep c f wid srcs :
  flat_rep c f -> 0 <= wid < NUM_WARPS -> Forall (fun r => reg_type r = RegNone \/ reg_valid r) srcs ->
  core_fetch c wid srcs = Some (flat_read f wid <$> srcs).
Proof using Hok Hook.
  intros [Hc Hf] Hw Hs. pose proof num_threads_ok. destruct (warp_regs_some c wid Hc Hw) as (regs & E & Hr). pose proof E as E'.
  unfold warp_regs in E'. unfold core_fetch, fetch_operands.
  destruct (vat c (wid_to_lane wid)) as [ops|] eqn:E1; [|done]. cbn [mbind option_bind] in *.
  destruct (vat ops (wid_to_opc_idx wid)) as [o|] eqn:E2; [|done]. cbn [mbind option_bind] in *.
  induction Hs as [|r srcs Hr1 Hs IH]; [done|]. cbn [mapM list_fmap fmap]. rewrite IH. 
  assert ((if bool_decide (reg_type r = RegNone) then Some zero_bank else read_src o wid r) = Some (flat_read f wid r)) as ->; [|done].
  unfold flat_read. destruct (bool_decide_reflect (reg_type r = RegNone)) as [Hn|Hn].
  - f_equal. unfold zero_bank, range. clear. generalize (Z.to_nat NUM_THREADS) 0%nat. intros k.
    induction k as [|k IH]; intros j; [done|]. cbn. by rewrite (IH (S j)).
  - destruct Hr1 as [|[Ht Hi]]; [done|]. unfold read_src. rewrite E'. cbn [mbind option_bind].
    destruct (bank_some regs r Hr Ht Hi) as (b & Eb & Hbl & _).
    assert (mapM (vat b) (range NUM_THREADS) = Some ((fun t => f wid r t) <$> range NUM_THREADS)) as Hm.
    { rewrite mapM_vat, (vat_lanes_eq b) by done. f_equal. apply list_fmap_ext. intros i t Ei.
      assert (0 <= t < NUM_THREADS) as Hlane by (apply elem_of_range; by eapply list_elem_of_lookup_2).
      specialize (Hf wid r t Hw (conj Ht Hi) Hlane). unfold reg_at, bank_of in Hf. rewrite E in Hf. cbn in Hf. rewrite Eb in Hf.
      cbn in Hf. rewrite vat_vget in Hf by lia. by injection Hf. }
    unfold bank in Eb. destruct (reg_type r); [done|..]; rewrite Eb; exact Hm.
Qed.

Lemma core_writeback_rep c f wid r bs (m : M) dst :
  flat_rep c f -> 0 <= wid < NUM_WARPS -> reg_valid r -> Z.of_nat (length dst) = NUM_THREADS ->
  exists c', core_writeback c wid r bs m dst = Some c' /\ flat_rep c' (flat_write f wid r bs m dst).
Proof using Hok Hook.
  intros [Hc Hf] Hw [Ht Hi] Hd. destruct (writeback_flat c wid r bs m dst Hc Hw Ht Hi Hd) as (c' & E & Hc' & Hv).
  exists c'. split; [done|]. split; [done|]. intros wid' r' t Hw' Hr' Hlane. rewrite Hv by done. unfold flat_write.
  destruct (decide _) as [(-> & -> & Em)|]; rewrite Hf; done.
Qed.

#[global] Instance core_regfile : RegFile CoreRegs M := {|
  rf_new := CoreRegs_new;
  rf_fetch := core_fetch;
  rf_write := core_writeback;
  rf_rep := flat_rep;
  rf_rep_range := flat_rep_range;
  rf_rep_ext := flat_rep_ext;
  rf_new_rep := CoreRegs_new_rep;
  rf_fetch_rep := core_fetch_rep;
  rf_write_rep := core_writeback_rep
|}.

(** A write-back of the pipeline. *)
Record write_op := mk_write { w_wid : Z; w_reg : RegOpd; w_bytesel : Z; w_mask : M; w_data : list Z }.

Definition write_ok (o : write_op) : Prop :=
  0 <= w_wid o < NUM_WARPS /\ reg_valid (w_reg o) /\ Z.of_nat (length (w_data o)) = NUM_THREADS.

Definition run_banked (ops : list write_op) : option CoreRegs :=
  fold_left (fun c o => c ← c; core_writeback c (w_wid o) (w_reg o) (w_bytesel o) (w_mask o) (w_data o)) ops
    (Some CoreRegs_new).
Definition run_flat (ops : list write_op) : flat_regs :=
  fold_left (fun f o => flat_write f (w_wid o) (w_reg o) (w_bytesel o) (w_mask o) (w_data o)) ops (fun _ _ _ => 0).

(** C25. The banked register file implements one flat register file: after any
    sequence of masked, byte-selective write-backs by any warps, the operand
    fetch of a warp returns, for every lane, the values a single map from
    warp, register and lane holds after the same writes; the routing over
    issue lanes, collectors and slots never fails and never mixes warps. *)
Theorem regfile_refines_flat (ops : list write_op) (wid : Z) (srcs : list RegOpd) :
  Forall write_ok ops -> 0 <= wid < NUM_WARPS -> Forall (fun r => reg_type r = RegNone \/ reg_valid r) srcs ->
  exists c, run_banked ops = Some c /\ core_fetch c wid srcs = Some (flat_read (run_flat ops) wid <$> srcs).
Proof using Hok Hook.
  intros Ho Hw Hs. assert (exists c, run_banked ops = Some c /\ flat_rep c (run_flat ops)) as (c & E & Hc).
  { unfold run_banked, run_flat. induction ops as [|o ops IH] using rev_ind.
    - exists CoreRegs_new. split; [done | apply CoreRegs_new_rep].
    - apply Forall_app in Ho as [Ho Hlast]. destruct (IH Ho) as (c & E & Hc). rewrite !fold_left_app, E. cbn.
      apply Forall_singleton in Hlast as (H1 & H2 & H3). by apply core_writeback_rep. }
  exists c. split; [done|]. by apply core_fetch_rep.
Qed.
End Implementation.

#[local] Existing Instances default_config default_config_ok.
#[local] Instance opc_config : OpcConfig := {| ISSUE_WIDTH := 2; NUM_OPCS := 1; NUM_GPR_BANKS := 4 |}.
#[local] Instance opc_config_ok : OpcConfigOk.
Proof. constructor; cbn; lia. Defined.

(** Warps 1 and 3 share an issue lane; a masked byte write into [x5] of
    warp 1 over an earlier full write. *)
Lemma regfile_refines_flat_witness :
  let x5 := mk_reg RegInteger 5 in
  let ops := [mk_write 1 x5 0xFF [true; true; true; true] [0x1111; 0x2222; 0x3333; 0x4444];
              mk_write 3 x5 0xFF [true; true; true; true] [9; 9; 9; 9];
              mk_write 1 x5 0x01 [true; false; true; false] [0xAA; 0xBB; 0xCC; 0xDD]] in
  exists c, run_banked ops = Some c /\ core_fetch c 1 [x5; no_reg] = Some [[0x11AA; 0x2222; 0x33CC; 0x4444]; [0; 0; 0; 0]].
Proof.
  intros x5 ops.
  destruct (regfile_refines_flat ops 1 [x5; no_reg]) as (c & E & Ef).
  - repeat constructor; cbn; lia || done.
  - cbn. lia.
  - constructor; [right; split; [done | unfold MAX_NUM_REGS; subst x5; cbn; lia]|]. constructor; [by left | constructor].
  - exists c. split; [exact E|]. rewrite Ef. reflexivity.
Defined.
