(* ===== verification/Dispatch.v ===== *)
(** * Dispatcher — [sim/simx/dispatcher.cpp]

    The dispatcher of a functional unit takes the issued traces of the issue
    lanes in batches and splits a trace into packets of [num_lanes] threads
    when the unit is narrower than a warp.  The file shows that the packets of
    a trace partition its active threads, that their number is the one the
    commit stage counts to, and that every waiting trace is dispatched after a
    bounded number of ticks. *)

From Stdlib Require Import Sorted.
From S2P Require Import Prelude Mask.

(** The members of a trace the dispatcher reads and writes; [dt_id] is the
    pointer. *)
Record dtrace (M : Type) := mk_dtrace {
  dt_id : positive;
  dt_tmask : M;
  dt_pid : Z;
  dt_sop : bool;
  dt_eop : bool;
  dt_num_pkts : Z
}.
Arguments mk_dtrace {M}. Arguments dt_id {M}. Arguments dt_tmask {M}. Arguments dt_pid {M}. Arguments dt_sop {M}.
Arguments dt_eop {M}. Arguments dt_num_pkts {M}.

(** [Dispatcher]: the constructor's parameters and the two state members. *)
Record Dispatcher := mk_dispatcher {
  block_size_ : Z;
  num_lanes_ : Z;
  num_blocks_ : Z;
  num_packets_ : Z;
  batch_idx_ : Z;
  block_pids_ : list Z
}.

Section Dispatch.
Context `{Hcfg : VxConfig} `{MO : MaskOps M}.

Definition Dispatcher_new (issue_width block_size num_lanes : Z) : Dispatcher :=
  mk_dispatcher block_size num_lanes (issue_width / block_size) (NUM_THREADS / num_lanes) 0
    (replicate (Z.to_nat block_size) 0).

(** [Dispatcher::on_reset] *)
Definition on_reset (d : Dispatcher) : Dispatcher :=
  mk_dispatcher (block_size_ d) (num_lanes_ d) (num_blocks_ d) (num_packets_ d) 0 ((fun _ => 0) <$> block_pids_ d).

Definition set_pid (d : Dispatcher) (b pid : Z) : Dispatcher :=
  mk_dispatcher (block_size_ d) (num_lanes_ d) (num_blocks_ d) (num_packets_ d) (batch_idx_ d) (vset (block_pids_ d) b pid).

(** The groups of [num_lanes] threads with an active thread:
    [for (j = 0; j < NUM_THREADS; j += num_lanes)]. *)
Definition group_active (num_lanes : Z) (m : M) (g : Z) : bool :=
  existsb (fun k => m_test m (g * num_lanes + k)) (range num_lanes).

Definition count_packets (num_lanes num_packets : Z) (m : M) : Z :=
  let n := Z.of_nat (length (filter (fun g => group_active num_lanes m g = true) (range num_packets))) in
  if n =? 0 then 1 else n.

(** First and last active thread from [block_pid * num_lanes] on, as groups. *)
Definition active_from (m : M) (j : Z) : list Z := filter (fun t => j <= t /\ m_test m t = true) (range NUM_THREADS).
Definition start_of (num_lanes : Z) (m : M) (j : Z) : option Z := (fun t => t / num_lanes) <$> list.head (active_from m j).
Definition end_of (num_lanes : Z) (m : M) (j : Z) : option Z := (fun t => t / num_lanes) <$> list.last (active_from m j).

(** The threads of group [g]. *)
Definition group_mask (num_lanes : Z) (m : M) (g : Z) : M :=
  fold_left (fun q j => m_assign q j (m_test m j)) ((fun k => g * num_lanes + k) <$> range num_lanes) (m_new NUM_THREADS).

(** One block with a waiting trace: the trace as left at the input (with its
    packet count), the packet sent, the new block state, and whether the input
    is popped.  [None] when no thread is active, where the group index is out
    of range. *)
Definition split_trace (num_lanes num_packets : Z) (tr : dtrace M) (block_pid : Z) : option (dtrace M * dtrace M * Z * bool) :=
  let m := dt_tmask tr in
  let n := if block_pid =? 0 then count_packets num_lanes num_packets m else dt_num_pkts tr in
  start ← start_of num_lanes m (block_pid * num_lanes);
  stop ← end_of num_lanes m (block_pid * num_lanes);
  let tr' := mk_dtrace (dt_id tr) m (dt_pid tr) (dt_sop tr) (dt_eop tr) n in
  let pkt := mk_dtrace (dt_id tr) (group_mask num_lanes m start) start (dt_sop tr && (0 =? block_pid))
               (dt_eop tr && (start =? stop)) n in
  Some (tr', pkt, if negb (start =? stop) then start + 1 else -1, start =? stop).

(** The loop of [on_tick] over the blocks; [full b] says that the output of
    block [b] is full.  The state is the dispatcher, the input queues, the
    packets sent and [block_sent]. *)
Definition tick_block (full : Z -> bool) (acc : option (Dispatcher * list (list (dtrace M)) * list (Z * dtrace M) * Z)) (b : Z)
    : option (Dispatcher * list (list (dtrace M)) * list (Z * dtrace M) * Z) :=
  '(d, ins, sent, block_sent) ← acc;
  let i := batch_idx_ d * block_size_ d + b in
  input ← vat ins i;
  match input with
  | [] => Some (d, ins, sent, block_sent + 1)
  | tr :: rest =>
    if full b then Some (d, ins, sent, block_sent)
    else if negb (num_packets_ d =? 1) then
      block_pid ← vat (block_pids_ d) b;
      if block_pid =? -1 then Some (d, ins, sent, block_sent + 1)
      else
        '(tr', pkt, pid', pop) ← split_trace (num_lanes_ d) (num_packets_ d) tr block_pid;
        Some (set_pid d b pid', vset ins i (if pop : bool then rest else tr' :: rest), sent ++ [(b, pkt)],
              if pop then block_sent + 1 else block_sent)
    else Some (d, vset ins i rest, sent ++ [(b, tr)], block_sent + 1)
  end.

(** [Dispatcher::on_tick] *)
Definition on_tick (full : Z -> bool) (d : Dispatcher) (ins : list (list (dtrace M)))
    : option (Dispatcher * list (list (dtrace M)) * list (Z * dtrace M)) :=
  '(d', ins', sent, block_sent) ← fold_left (tick_block full) (range (block_size_ d)) (Some (d, ins, [], 0));
  Some (if block_sent =? block_size_ d'
        then mk_dispatcher (block_size_ d') (num_lanes_ d') (num_blocks_ d') (num_packets_ d')
               ((batch_idx_ d' + 1) mod num_blocks_ d') ((fun _ => 0) <$> block_pids_ d')
        else d', ins', sent).
End Dispatch.

(** ** First and last elements of filtered ranges *)

Lemma head_filter_seq (P : Z -> Prop) `{forall t, Decision (P t)} a n :
  match list.head (filter P (Z.of_nat <$> seq a n)) with
  | Some t => Z.of_nat a <= t < Z.of_nat (a + n) /\ P t /\ forall u, Z.of_nat a <= u < t -> ~ P u
  | None => forall u, Z.of_nat a <= u < Z.of_nat (a + n) -> ~ P u
  end.
Proof.
  revert a. induction n as [|n IH]; intros a; cbn [seq fmap list_fmap]; [cbn; lia|].
  destruct (decide (P (Z.of_nat a))) as [Hp|Hp].
  - rewrite filter_cons_True by done. cbn. split; [lia|]. split; [done|]. lia.
  - rewrite filter_cons_False by done. specialize (IH (S a)). destruct (list.head _) as [t|].
    + destruct IH as (Ht & Hpt & Hmin). split; [lia|]. split; [done|]. intros u Hu.
      destruct (Z.eq_dec u (Z.of_nat a)) as [->|]; [done|]. apply Hmin. lia.
    + intros u Hu. destruct (Z.eq_dec u (Z.of_nat a)) as [->|]; [done|]. apply IH. lia.
Qed.

Lemma last_filter_seq (P : Z -> Prop) `{forall t, Decision (P t)} n :
  match list.last (filter P (Z.of_nat <$> seq 0 n)) with
  | Some t => 0 <= t < Z.of_nat n /\ P t /\ forall u, t < u < Z.of_nat n -> ~ P u
  | None => forall u, 0 <= u < Z.of_nat n -> ~ P u
  end.
Proof.
  induction n as [|n IH]; [cbn; lia|]. rewrite seq_S, fmap_app, list.filter_app. cbn [fmap list_fmap Nat.add].
  destruct (decide (P (Z.of_nat n))) as [Hp|Hp].
  - rewrite list.filter_cons_True, last_app by done. cbn. split; [lia|]. split; [done|]. lia.
  - rewrite filter_cons_False by done. cbn. rewrite app_nil_r. destruct (list.last _) as [t|].
    + destruct IH as (Ht & Hpt & Hmax). split; [lia|]. split; [done|]. intros u Hu.
      destruct (Z.eq_dec u (Z.of_nat n)) as [->|]; [done|]. apply Hmax. lia.
    + intros u Hu. destruct (Z.eq_dec u (Z.of_nat n)) as [->|]; [done|]. apply IH. lia.
Qed.

Lemma filter_agree {A} (P Q : A -> Prop) `{forall x, Decision (P x), forall x, Decision (Q x)} (l : list A) :
  (forall x, x ∈ l -> P x <-> Q x) -> filter P l = filter Q l.
Proof.
  induction l as [|x l IH]; intros Hpq; [done|].
  assert (filter P l = filter Q l) as E by (apply IH; intros; apply Hpq; by right).
  destruct (decide (P x)) as [Hp|Hp].
  - rewrite !list.filter_cons_True by (done || by apply Hpq; [left|]). by rewrite E.
  - rewrite !list.filter_cons_False by (done || (rewrite <- Hpq; [done | left])). done.
Qed.

Section Split.
Context `{Hcfg : VxConfig} {Hok : VxConfigOk} `{HM : MaskSpec M}.
(** A unit of [nl] lanes; a warp takes [np] packets. *)
Variables nl np : Z.
Hypothesis Hnl : 1 <= nl.
Hypothesis Hnp : NUM_THREADS = nl * np.

(** The groups with an active thread, from group [p] on. *)
Definition groups_from (m : M) (p : Z) : list Z := filter (fun g => p <= g /\ group_active nl m g = true) (range np).

Lemma np_pos : 1 <= np.
Proof using Hok Hnl Hnp. pose proof num_threads_ok. nia. Qed.

Lemma group_active_spec m g : 0 <= g < np ->
  group_active nl m g = true <-> exists t, 0 <= t < NUM_THREADS /\ t / nl = g /\ m_test m t = true.
Proof using Hnl Hnp.
  intros Hg. unfold group_active. rewrite existsb_exists. split.
  - intros (k & Hk & Ht). apply list_elem_of_In, elem_of_range in Hk. exists (g * nl + k). split_and!; [nia | nia | | done].
    rewrite Z.add_comm, Z.div_add, Z.div_small by lia. lia.
  - intros (t & Ht & E & Hm). exists (t mod nl). split.
    + apply list_elem_of_In, elem_of_range, Z.mod_pos_bound. lia.
    + rewrite <- E, Z.mul_comm, <- Z.div_mod by lia. done.
Qed.

Lemma start_of_head m p : 0 <= p -> start_of nl m (p * nl) = list.head (groups_from m p).
Proof using Hnl Hnp.
  intros Hp. unfold start_of, active_from, groups_from, range.
  pose proof (head_filter_seq (fun t => p * nl <= t /\ m_test m t = true) 0 (Z.to_nat NUM_THREADS)) as H1.
  pose proof (head_filter_seq (fun g => p <= g /\ group_active nl m g = true) 0 (Z.to_nat np)) as H2.
  destruct (list.head (filter _ (_ <$> seq 0 (Z.to_nat NUM_THREADS)))) as [t|], (list.head (filter _ (_ <$> seq 0 (Z.to_nat np)))) as [g|]; cbn.
  - destruct H1 as (Ht & [Hpt Hat] & Hmin), H2 as (Hg & [Hpg Hag] & Hming). f_equal.
    apply group_active_spec in Hag as (u & Hu & Eu & Hau); [|lia].
    assert (0 <= t / nl < np) by (split; [apply Z.div_pos | apply Z.div_lt_upper_bound]; nia).
    assert (p <= t / nl) by (apply Z.div_le_lower_bound; lia).
    destruct (Z.lt_trichotomy (t / nl) g) as [Hlt|[->|Hgt]]; [exfalso|done|exfalso].
    + apply (Hming (t / nl)); [lia|]. split; [done|]. apply group_active_spec; [done|]. exists t. split; [lia|done].
    + apply (Hmin u).
      * split; [lia|]. destruct (Z.lt_ge_cases u t) as [|Hge]; [done|]. pose proof (Z.div_le_mono t u nl ltac:(lia) Hge). lia.
      * split; [|done]. rewrite (Z.div_mod u nl) by lia. pose proof (Z.mod_pos_bound u nl). nia.
  - destruct H1 as (Ht & [Hpt Hat] & Hmin). exfalso.
    assert (0 <= t / nl < np) by (split; [apply Z.div_pos | apply Z.div_lt_upper_bound]; nia).
    apply (H2 (t / nl)); [lia|]. split; [apply Z.div_le_lower_bound; lia|]. apply group_active_spec; [done|]. exists t. split; [lia|done].
  - destruct H2 as (Hg & [Hpg Hag] & _). exfalso. apply group_active_spec in Hag as (u & Hu & Eu & Hau); [|lia].
    apply (H1 u); [lia|]. split; [|done]. rewrite (Z.div_mod u nl) by lia. pose proof (Z.mod_pos_bound u nl). nia.
  - done.
Qed.

Lemma end_of_last m p : 0 <= p -> end_of nl m (p * nl) = list.last (groups_from m p).
Proof using Hnl Hnp.
  intros Hp. unfold end_of, active_from, groups_from, range.
  pose proof (last_filter_seq (fun t => p * nl <= t /\ m_test m t = true) (Z.to_nat NUM_THREADS)) as H1.
  pose proof (last_filter_seq (fun g => p <= g /\ group_active nl m g = true) (Z.to_nat np)) as H2.
  destruct (list.last (filter _ (_ <$> seq 0 (Z.to_nat NUM_THREADS)))) as [t|], (list.last (filter _ (_ <$> seq 0 (Z.to_nat np)))) as [g|]; cbn.
  - destruct H1 as (Ht & [Hpt Hat] & Hmax), H2 as (Hg & [Hpg Hag] & Hmaxg). f_equal.
    apply group_active_spec in Hag as (u & Hu & Eu & Hau); [|lia].
    assert (0 <= t / nl < np) by (split; [apply Z.div_pos | apply Z.div_lt_upper_bound]; nia).
    assert (p <= t / nl) by (apply Z.div_le_lower_bound; lia).
    destruct (Z.lt_trichotomy (t / nl) g) as [Hlt|[->|Hgt]]; [exfalso|done|exfalso].
    + apply (Hmax u).
      * split; [|lia]. destruct (Z.lt_ge_cases t u) as [|Hge]; [done|]. pose proof (Z.div_le_mono u t nl ltac:(lia) Hge). lia.
      * split; [|done]. rewrite (Z.div_mod u nl) by lia. pose proof (Z.mod_pos_bound u nl). nia.
    + apply (Hmaxg (t / nl)); [lia|]. split; [done|]. apply group_active_spec; [done|]. exists t. split; [lia|done].
  - destruct H1 as (Ht & [Hpt Hat] & _). exfalso.
    assert (0 <= t / nl < np) by (split; [apply Z.div_pos | apply Z.div_lt_upper_bound]; nia).
    apply (H2 (t / nl)); [lia|]. split; [apply Z.div_le_lower_bound; lia|]. apply group_active_spec; [done|]. exists t. split; [lia|done].
  - destruct H2 as (Hg & [Hpg Hag] & _). exfalso. apply group_active_spec in Hag as (u & Hu & Eu & Hau); [|lia].
    apply (H1 u); [lia|]. split; [|done]. rewrite (Z.div_mod u nl) by lia. pose proof (Z.mod_pos_bound u nl). nia.
  - done.
Qed.

Lemma filter_tail (Q : Z -> bool) p a n g rest :
  filter (fun x => p <= x /\ Q x = true) (Z.of_nat <$> seq a n) = g :: rest ->
  p <= g /\ filter (fun x => g + 1 <= x /\ Q x = true) (Z.of_nat <$> seq a n) = rest.
Proof using.
  revert a. induction n as [|n IH]; intros a; cbn [seq fmap list_fmap]; [done|].
  destruct (decide (p <= Z.of_nat a /\ Q (Z.of_nat a) = true)) as [Hp|Hp].
  - rewrite list.filter_cons_True by done. intros [= <- <-]. split; [lia|]. rewrite list.filter_cons_False by lia.
    apply filter_agree. intros x Hx. apply list_elem_of_fmap in Hx as (k & -> & Hk%elem_of_seq). split; intros [_ Hq]; (split; [lia | done]).
  - rewrite list.filter_cons_False by done. intros E. destruct (IH (S a) E) as [Hg Hr]. split; [done|].
    rewrite list.filter_cons_False; [done|]. intros [Hx Hq].
    assert (g ∈ g :: rest) as Hin by left. rewrite <- E in Hin. apply list_elem_of_filter in Hin as [_ Hin].
    apply list_elem_of_fmap in Hin as (k & -> & Hk%elem_of_seq). lia.
Qed.

Lemma groups_next m p g rest : groups_from m p = g :: rest -> p <= g /\ groups_from m (g + 1) = rest.
Proof using. apply filter_tail. Qed.

Lemma group_mask_test m l g t :
  m_rep m l -> Z.of_nat (length l) = NUM_THREADS -> 0 <= g < np -> 0 <= t < NUM_THREADS ->
  m_test (group_mask nl m g) t = m_test m t && (t / nl =? g).
Proof using Hnl Hnp HM.
  intros Hm Hl Hg Ht. unfold group_mask, range.
  assert (forall n, Z.of_nat n <= nl -> exists l',
    m_rep (fold_left (fun q j => m_assign q j (m_test m j)) ((fun k => g * nl + k) <$> (Z.of_nat <$> seq 0 n)) (m_new NUM_THREADS)) l' /\
    Z.of_nat (length l') = NUM_THREADS /\
    forall u, 0 <= u < NUM_THREADS -> l' !! Z.to_nat u = Some (m_test m u && (g * nl <=? u) && (u <? g * nl + Z.of_nat n))) as Hp.
  { induction n as [|n IH]; intros Hn.
    - exists (replicate (Z.to_nat NUM_THREADS) false). split; [apply m_new_rep; lia|]. split; [rewrite length_replicate; lia|].
      intros u Hu. rewrite lookup_replicate_2 by lia. f_equal.
      destruct (Z.leb_spec (g * nl) u), (Z.ltb_spec u (g * nl + Z.of_nat 0)); rewrite ?andb_false_r; done || lia.
    - destruct IH as (l1 & Hr & Hl1 & Hv); [lia|]. rewrite seq_S, !fmap_app, fold_left_app. cbn [fmap list_fmap fold_left Nat.add].
      exists (<[Z.to_nat (g * nl + Z.of_nat n) := m_test m (g * nl + Z.of_nat n)]> l1).
      assert (0 <= g * nl + Z.of_nat n < NUM_THREADS) by nia.
      split; [apply m_assign_rep; [done | lia]|]. split; [by rewrite length_insert|].
      intros u Hu. destruct (Z.eq_dec u (g * nl + Z.of_nat n)) as [->|Hne].
      + rewrite list_lookup_insert_eq by lia. rewrite (proj2 (Z.leb_le _ _)), (proj2 (Z.ltb_lt _ _)), !andb_true_r by lia. done.
      + rewrite list_lookup_insert_ne by lia. rewrite Hv by done. f_equal. f_equal.
        destruct (Z.ltb_spec u (g * nl + Z.of_nat n)), (Z.ltb_spec u (g * nl + Z.of_nat (S n))); done || lia. }
  destruct (Hp (Z.to_nat nl)) as (l' & Hr & Hl' & Hv); [lia|].
  rewrite (m_test_rep _ _ t _ Hr ltac:(lia) (Hv t Ht)). rewrite Z2Nat.id by lia. rewrite <- andb_assoc. f_equal.
  destruct (Z.eqb_spec (t / nl) g) as [E|E].
  - pose proof (Z.div_mod t nl). pose proof (Z.mod_pos_bound t nl). rewrite (proj2 (Z.leb_le _ _)), (proj2 (Z.ltb_lt _ _)); nia.
  - pose proof (Z.div_mod t nl). pose proof (Z.mod_pos_bound t nl).
    destruct (Z.leb_spec (g * nl) t), (Z.ltb_spec t (g * nl + nl)); try done. exfalso. apply E.
    symmetry. apply Z.div_unique with (t - g * nl); lia.
Qed.

(** The packets of a trace, in the order in which they are sent. *)
Fixpoint split_all (fuel : nat) (tr : dtrace M) (block_pid : Z) : option (list (dtrace M)) :=
  match fuel with
  | O => None
  | S k =>
    '(tr', pkt, pid', pop) ← split_trace nl np tr block_pid;
    if pop : bool then Some [pkt] else rest ← split_all k tr' pid'; Some (pkt :: rest)
  end.

(** The expected packets of [tr] for the groups [gs]. *)
Fixpoint packets (tr : dtrace M) (n : Z) (first : bool) (gs : list Z) : list (dtrace M) :=
  match gs with
  | [] => []
  | g :: gs' =>
    mk_dtrace (dt_id tr) (group_mask nl (dt_tmask tr) g) g (dt_sop tr && first) (dt_eop tr && bool_decide (gs' = [])) n
      :: packets tr n false gs'
  end.

Lemma packets_ext tr tr' n first gs :
  dt_id tr = dt_id tr' -> dt_tmask tr = dt_tmask tr' -> dt_sop tr = dt_sop tr' -> dt_eop tr = dt_eop tr' ->
  packets tr n first gs = packets tr' n first gs.
Proof using. intros E1 E2 E3 E4. revert first. induction gs as [|g gs IH]; intros first; cbn; [done|]. by rewrite E1, E2, E3, E4, IH. Qed.

Lemma split_all_packets fuel tr p n gs :
  0 <= p -> gs = groups_from (dt_tmask tr) p -> gs <> [] -> (length gs <= fuel)%nat ->
  n = (if p =? 0 then count_packets nl np (dt_tmask tr) else dt_num_pkts tr) ->
  split_all fuel tr p = Some (packets tr n (0 =? p) gs).
Proof using Hnl Hnp.
  revert tr p gs. induction fuel as [|fuel IH]; intros tr p gs Hp Hgs Hne Hlen Hn; [destruct gs; [done | simpl in Hlen; lia]|].
  cbn [split_all]. unfold split_trace. rewrite start_of_head, end_of_last, <- Hgs, <- Hn by done.
  destruct gs as [|g gs]; [done|]. destruct (groups_next _ _ _ _ (eq_sym Hgs)) as [Hpg Hnext].
  cbn [list.head mbind option_bind]. destruct (list.last (g :: gs)) as [z|] eqn:Ez; [|by apply last_None in Ez].
  cbn [mbind option_bind packets]. destruct gs as [|g' gs].
  - injection Ez as <-. rewrite Z.eqb_refl. done.
  - assert (g <> z) as Hz.
    { rewrite last_cons_cons in Ez. apply last_Some_elem_of in Ez. rewrite <- Hnext in Ez.
      apply list_elem_of_filter in Ez as [[? _] _]. lia. }
    rewrite (proj2 (Z.eqb_neq g z)) by done. cbn [negb].
    rewrite (IH _ (g + 1) (g' :: gs)); [| lia | done | done | simpl in *; lia | ].
    + rewrite (proj2 (Z.eqb_neq 0 (g + 1))) by lia. rewrite (packets_ext _ tr) by done. cbn [mbind option_bind packets].
      by rewrite (bool_decide_eq_false_2 (g' :: gs = [])) by done.
    + rewrite (proj2 (Z.eqb_neq (g + 1) 0)) by lia. done.
Qed.

Lemma packets_length tr n first gs : length (packets tr n first gs) = length gs.
Proof using. revert first. induction gs as [|g gs IH]; intros first; cbn; [done|]. by rewrite IH. Qed.

Lemma packets_elem tr n first gs pkt :
  pkt ∈ packets tr n first gs -> dt_id pkt = dt_id tr /\ dt_num_pkts pkt = n /\ dt_pid pkt ∈ gs /\
    dt_tmask pkt = group_mask nl (dt_tmask tr) (dt_pid pkt).
Proof using.
  revert first. induction gs as [|g gs IH]; intros first; cbn; [by intros ?%elem_of_nil|].
  intros [->|Hin]%list.elem_of_cons; [cbn; split_and!; done || left|].
  destruct (IH _ Hin) as (? & ? & ? & ?). split_and!; try done. by right.
Qed.

Lemma packets_flags tr n first gs :
  gs <> [] -> dt_sop <$> packets tr n first gs = (dt_sop tr && first) :: replicate (length gs - 1) false /\
  dt_eop <$> packets tr n first gs = replicate (length gs - 1) false ++ [dt_eop tr].
Proof using.
  revert first. induction gs as [|g gs IH]; intros first; [done|]. intros _. destruct gs as [|g' gs].
  - cbn. by rewrite andb_true_r.
  - destruct (IH false) as [E1 E2]; [done|]. remember (g' :: gs) as gs'. cbn [packets]. rewrite !fmap_cons, E1, E2.
    cbn [dt_sop dt_eop].
    rewrite (bool_decide_eq_false_2 (gs' = [])) by (by subst). rewrite !andb_false_r. subst gs'. cbn [length].
    replace (S (S (length gs)) - 1)%nat with (S (S (length gs) - 1))%nat by lia. done.
Qed.

(** How many packets carry thread [t]. *)
Definition carriers (pkts : list (dtrace M)) (t : Z) : nat := length (filter (fun pkt => m_test (dt_tmask pkt) t = true) pkts).

Lemma packets_carriers tr l n first gs t :
  m_rep (dt_tmask tr) l -> Z.of_nat (length l) = NUM_THREADS -> 0 <= t < NUM_THREADS ->
  Forall (fun g => 0 <= g < np) gs -> NoDup gs ->
  carriers (packets tr n first gs) t = if m_test (dt_tmask tr) t && bool_decide (t / nl ∈ gs) then 1%nat else 0%nat.
Proof using Hnl Hnp HM.
  intros Hm Hl Ht. unfold carriers. revert first. induction gs as [|g gs IH]; intros first Hg Hnd.
  - cbn. by rewrite andb_false_r.
  - apply list.Forall_cons in Hg as [Hg Hgs]. apply list.NoDup_cons in Hnd as [Hni Hnd]. cbn [packets].
    specialize (IH false Hgs Hnd). pose proof (group_mask_test (dt_tmask tr) l g t Hm Hl Hg Ht) as Eg.
    destruct (Z.eqb_spec (t / nl) g) as [E|E].
    + rewrite (bool_decide_eq_true_2 (t / nl ∈ g :: gs)) by (rewrite E; left).
      rewrite (bool_decide_eq_false_2 (t / nl ∈ gs)) in IH by (by rewrite E). rewrite andb_false_r in IH. rewrite andb_true_r in *.
      destruct (m_test (dt_tmask tr) t).
      * rewrite list.filter_cons_True by done. cbn [length]. by rewrite IH.
      * rewrite list.filter_cons_False by (cbn; by rewrite Eg). done.
    + rewrite andb_false_r in Eg. rewrite list.filter_cons_False by (cbn; by rewrite Eg). rewrite IH.
      replace (bool_decide (t / nl ∈ g :: gs)) with (bool_decide (t / nl ∈ gs)); [done|].
      apply bool_decide_ext. rewrite list.elem_of_cons. split; [by right | by intros [|]].
Qed.

Lemma groups_zero m : groups_from m 0 = filter (fun g => group_active nl m g = true) (range np).
Proof using.
  unfold groups_from. apply filter_agree. intros g Hg%elem_of_range. split; [by intros [_ ?]|]. intros; split; [lia | done].
Qed.

Lemma groups_facts m l :
  m_rep m l -> Z.of_nat (length l) = NUM_THREADS -> m_any m = true ->
  groups_from m 0 <> [] /\ NoDup (groups_from m 0) /\ Forall (fun g => 0 <= g < np) (groups_from m 0) /\
  (length (groups_from m 0) <= Z.to_nat np)%nat /\ count_packets nl np m = Z.of_nat (length (groups_from m 0)) /\
  (forall t, 0 <= t < NUM_THREADS -> m_test m t = true -> t / nl ∈ groups_from m 0).
Proof using Hnl Hnp HM.
  intros Hm Hl Ha.
  assert (forall t, 0 <= t < NUM_THREADS -> m_test m t = true -> t / nl ∈ groups_from m 0) as Hin.
  { intros t Ht Hat. assert (0 <= t / nl < np) by (split; [apply Z.div_pos | apply Z.div_lt_upper_bound]; nia).
    apply list_elem_of_filter. split; [|by apply elem_of_range]. split; [lia|]. apply group_active_spec; [done|]. by exists t. }
  destruct (m_any_active m l Hm Hl Ha) as (t & Ht & Hat). specialize (Hin t Ht Hat) as Hne.
  assert (groups_from m 0 <> []) as Hnil by (intros E; rewrite E in Hne; by apply elem_of_nil in Hne).
  split_and!; try done.
  - apply list.NoDup_filter, NoDup_range.
  - apply list.Forall_forall. intros g Hg. apply list_elem_of_filter in Hg as [_ Hg]. by apply elem_of_range.
  - etransitivity; [apply length_filter|]. unfold range. by rewrite length_fmap, length_seq.
  - unfold count_packets. rewrite <- groups_zero. destruct (groups_from m 0); [done|].
    cbn [length]. by rewrite (proj2 (Z.eqb_neq _ 0)) by lia.
Qed.

Lemma packets_pids tr n first gs : dt_pid <$> packets tr n first gs = gs.
Proof using. revert first. induction gs as [|g gs IH]; intros first; cbn; [done|]. by rewrite IH. Qed.

Lemma filter_seq_sorted (P : Z -> Prop) `{forall t, Decision (P t)} a n : StronglySorted Z.lt (filter P (Z.of_nat <$> seq a n)).
Proof using.
  revert a. induction n as [|n IH]; intros a; cbn [seq fmap list_fmap]; [constructor|].
  destruct (decide (P (Z.of_nat a))); [|rewrite filter_cons_False by done; apply IH].
  rewrite filter_cons_True by done. constructor; [apply IH|]. apply list.Forall_forall. intros x Hx.
  apply list_elem_of_filter in Hx as [_ Hx]. apply list_elem_of_fmap in Hx as (k & -> & Hk%elem_of_seq). lia.
Qed.

(** The groups are those of the active threads. *)
Lemma groups_elem m g : g ∈ groups_from m 0 <-> exists t, 0 <= t < NUM_THREADS /\ t / nl = g /\ m_test m t = true.
Proof using Hnl Hnp.
  unfold groups_from. rewrite list_elem_of_filter, elem_of_range. split.
  - intros [[_ Ha] Hg]. by apply group_active_spec.
  - intros (t & Ht & E & Hm). assert (0 <= g < np) by (subst g; split; [apply Z.div_pos | apply Z.div_lt_upper_bound]; nia).
    split; [|done]. split; [lia|]. apply group_active_spec; [done|]. by exists t.
Qed.

(** C26. Splitting a warp over a narrower unit: a trace with an active thread
    is sent in one packet per group of [num_lanes] neighbouring threads that
    has an active one, in the order of the groups.  Each packet carries
    exactly the active threads of its group, at least one; so every active
    thread is in exactly one packet and no other thread is in any.  Each packet
    names its group and the number of packets, which is what commit counts to;
    only the first packet opens the instruction and only the last one closes
    it. *)
Theorem dispatch_partitions_warp (tr : dtrace M) l :
  m_rep (dt_tmask tr) l -> Z.of_nat (length l) = NUM_THREADS -> m_any (dt_tmask tr) = true ->
  exists pkts, split_all (Z.to_nat np) tr 0 = Some pkts /\
    StronglySorted Z.lt (dt_pid <$> pkts) /\
    (forall g, g ∈ dt_pid <$> pkts <-> exists t, 0 <= t < NUM_THREADS /\ t / nl = g /\ m_test (dt_tmask tr) t = true) /\
    (forall pkt t, pkt ∈ pkts -> 0 <= t < NUM_THREADS ->
      m_test (dt_tmask pkt) t = m_test (dt_tmask tr) t && (t / nl =? dt_pid pkt)) /\
    (forall pkt, pkt ∈ pkts -> exists t, 0 <= t < NUM_THREADS /\ m_test (dt_tmask pkt) t = true) /\
    (forall t, 0 <= t < NUM_THREADS -> carriers pkts t = if m_test (dt_tmask tr) t then 1%nat else 0%nat) /\
    (forall pkt, pkt ∈ pkts -> dt_id pkt = dt_id tr /\ dt_num_pkts pkt = Z.of_nat (length pkts)) /\
    dt_sop <$> pkts = dt_sop tr :: replicate (length pkts - 1) false /\
    dt_eop <$> pkts = replicate (length pkts - 1) false ++ [dt_eop tr].
Proof using Hok Hnl Hnp HM.
  intros Hm Hl Ha. destruct (groups_facts _ _ Hm Hl Ha) as (Hne & Hnd & HF & Hlen & Hc & Hin).
  set (gs := groups_from (dt_tmask tr) 0) in *. set (n := count_packets nl np (dt_tmask tr)) in *.
  exists (packets tr n (0 =? 0) gs). split; [by apply split_all_packets|].
  assert (forall pkt t, pkt ∈ packets tr n (0 =? 0) gs -> 0 <= t < NUM_THREADS ->
    m_test (dt_tmask pkt) t = m_test (dt_tmask tr) t && (t / nl =? dt_pid pkt)) as Hmask.
  { intros pkt t (_ & _ & Hg & ->)%packets_elem Ht. rewrite list.Forall_forall in HF. by apply (group_mask_test _ l); auto. }
  rewrite packets_length, packets_pids. destruct (packets_flags tr n (0 =? 0) _ Hne) as [-> ->]. rewrite andb_true_r. split_and!; try done.
  - apply filter_seq_sorted.
  - apply groups_elem.
  - intros pkt Hp. pose proof Hp as (_ & _ & Hg & _)%packets_elem. apply groups_elem in Hg as (t & Ht & E & Hat).
    exists t. split; [done|]. rewrite Hmask by done. by rewrite Hat, E, Z.eqb_refl.
  - intros t Ht. rewrite (packets_carriers tr l) by done. destruct (m_test (dt_tmask tr) t) eqn:E; [|done].
    by rewrite bool_decide_eq_true_2 by (by apply Hin).
  - intros pkt (? & ? & _)%packets_elem. split; [done|]. by rewrite <- Hc.
Qed.
End Split.

#[local] Existing Instances default_config default_config_ok.

(** Four threads, threads 0 and 1 inactive in one case and thread 0 in the
    other, over a unit of two lanes. *)
Lemma dispatch_partitions_warp_witness :
  let tr := mk_dtrace 1 [false; true; true; true] (-1) true true 1 in
  let half := mk_dtrace 1 [false; false; true; true] (-1) true true 1 in
  exists pkts pkts', split_all 2 2 (Z.to_nat 2) tr 0 = Some pkts /\ dt_pid <$> pkts = [0; 1] /\
    (forall t, 0 <= t < 4 -> carriers pkts t = if m_test (dt_tmask tr) t then 1%nat else 0%nat) /\
    split_all 2 2 (Z.to_nat 2) half 0 = Some pkts' /\ dt_pid <$> pkts' = [1] /\
    (forall pkt, pkt ∈ pkts' -> exists t, 0 <= t < 4 /\ m_test (dt_tmask pkt) t = true).
Proof.
  intros tr half.
  destruct (dispatch_partitions_warp (Hcfg := default_config) 2 2 ltac:(lia) eq_refl tr [false; true; true; true])
    as (pkts & E & _ & _ & _ & _ & Hc & _); [reflexivity..|].
  destruct (dispatch_partitions_warp (Hcfg := default_config) 2 2 ltac:(lia) eq_refl half [false; false; true; true])
    as (pkts' & E' & _ & _ & _ & Hn & _); [reflexivity..|].
  exists pkts, pkts'. split; [exact E|]. split; [injection E as <-; reflexivity|]. split; [exact Hc|].
  split; [exact E'|]. split; [injection E' as <-; reflexivity|exact Hn].
Defined.
