(* ===== verification/Scoreboard.v ===== *)
(** * Register scoreboard — [sim/simx/scoreboard.h], [scoreboard.cpp]

    The scoreboard tracks the destination registers of the instructions
    between issue and writeback.  The file models the whole class, with the
    instruction traces as a heap of records (the class stores pointers), and
    shows that its busy bits are exactly the registers with an in-flight
    owner, that its assertions hold for the issue and commit stages' use, and
    that the trap-time lift and restore of reservations round-trips. *)

From S2P Require Import Prelude Instr.

(** The members of [instr_trace_t] the scoreboard reads. *)
Record instr_trace_t := mk_trace {
  tr_wid : Z;
  tr_wb : bool;
  tr_dst_reg : RegOpd;
  tr_src_regs : list RegOpd;
  tr_num_pkts : Z;
  tr_suspended : bool;
  tr_uuid : Z;
  tr_fu_type : Z;
  tr_op_type : Z;
  tr_dst_bytesel : Z
}.

(** [reg_use_t] *)
Record reg_use_t := mk_reg_use {
  use_reg : RegOpd; use_fu_type : Z; use_op_type : Z; use_uuid : Z
}.

Definition get_reg_id (r : RegOpd) (wid : Z) : Z :=
  Z.lor (u32 (Z.shiftl wid ID_BITS)) (reg_id_of r).

(** A trace pointer. *)
Abbreviation tid := positive.

(** [in_use_regs_] as the set of busy (warp, register) pairs. *)
Record Scoreboard := mk_sb {
  in_use_regs_ : gset (Z * RegOpd);
  owners_ : gmap Z tid;
  commit_counts_ : gmap Z Z;
  pending_reserve_ : gmap Z tid
}.

Definition Scoreboard_reset : Scoreboard := mk_sb ∅ ∅ ∅ ∅.

Definition busy (s : Scoreboard) (wid : Z) (r : RegOpd) : bool :=
  bool_decide ((wid, r) ∈ in_use_regs_ s).

(** The source registers the loops test. *)
Definition live_srcs (t : instr_trace_t) : list RegOpd :=
  filter (fun r => reg_type r <> RegNone) (tr_src_regs t).

Section Ops.
(** The traces the pointers point to. *)
Variable heap : tid -> instr_trace_t.

(** [Scoreboard::in_use]; [None] is the failed assertion. *)
Definition in_use (s : Scoreboard) (p : tid) : option bool :=
  let t := heap p in
  if tr_wb t && bool_decide (reg_type (tr_dst_reg t) = RegNone) then None
  else Some ((tr_wb t && busy s (tr_wid t) (tr_dst_reg t))
             || existsb (busy s (tr_wid t)) (live_srcs t)).

(** One entry of [get_uses]; [owners_.at] throws when there is no owner. *)
Definition use_of (s : Scoreboard) (wid : Z) (r : RegOpd) : option (list reg_use_t) :=
  if busy s wid r then
    o ← owners_ s !! get_reg_id r wid;
    Some [mk_reg_use r (tr_fu_type (heap o)) (tr_op_type (heap o)) (tr_uuid (heap o))]
  else Some [].

(** [Scoreboard::get_uses] *)
Definition get_uses (s : Scoreboard) (p : tid) : option (list reg_use_t) :=
  let t := heap p in
  if tr_wb t && bool_decide (reg_type (tr_dst_reg t) = RegNone) then None
  else
    d ← (if tr_wb t then use_of s (tr_wid t) (tr_dst_reg t) else Some []);
    ss ← mapM (use_of s (tr_wid t)) (live_srcs t);
    Some (d ++ mjoin ss).

(** [Scoreboard::reserve] *)
Definition reserve (s : Scoreboard) (p : tid) : option Scoreboard :=
  let t := heap p in
  let id := get_reg_id (tr_dst_reg t) (tr_wid t) in
  if negb (tr_wb t) then None
  else match owners_ s !! id with
       | Some _ => None
       | None => Some (mk_sb ({[(tr_wid t, tr_dst_reg t)]} ∪ in_use_regs_ s)
                         (<[id := p]> (owners_ s)) (commit_counts_ s) (pending_reserve_ s))
       end.

(** [Scoreboard::release] *)
Definition release (s : Scoreboard) (p : tid) : option Scoreboard :=
  let t := heap p in
  let id := get_reg_id (tr_dst_reg t) (tr_wid t) in
  if negb (tr_wb t) then None
  else if negb (busy s (tr_wid t) (tr_dst_reg t)) then None
  else match owners_ s !! id with
       | None => None
       | Some _ =>
         let owners := delete id (owners_ s) in
         let counts := delete id (commit_counts_ s) in
         match pending_reserve_ s !! id with
         | Some q => Some (mk_sb (in_use_regs_ s) (<[id := q]> owners) counts
                             (delete id (pending_reserve_ s)))
         | None => Some (mk_sb (in_use_regs_ s ∖ {[(tr_wid t, tr_dst_reg t)]}) owners counts
                           (pending_reserve_ s))
         end
       end.

(** An owner [snapshot_warp] lifts. *)
Definition lifted (wid : Z) (e : Z * tid) : Prop :=
  tr_wid (heap e.2) = wid /\ tr_suspended (heap e.2) = true.

#[global] Instance lifted_dec wid e : Decision (lifted wid e).
Proof. unfold lifted. apply _. Defined.

Definition lift_one (wid : Z) (s : Scoreboard) (e : Z * tid) : Scoreboard :=
  mk_sb (in_use_regs_ s ∖ {[(wid, tr_dst_reg (heap e.2))]}) (delete e.1 (owners_ s))
    (delete e.1 (commit_counts_ s)) (pending_reserve_ s).

(** [Scoreboard::snapshot_warp]; the iteration order of the
    [unordered_map] is the one [map_to_list] gives. *)
Definition snapshot_warp (s : Scoreboard) (wid : Z) : list tid * Scoreboard :=
  let es := filter (lifted wid) (map_to_list (owners_ s)) in
  (es.*2, fold_left (lift_one wid) es s).

(** [Scoreboard::restore_warp] *)
Definition restore_one (s : Scoreboard) (p : tid) : Scoreboard :=
  let t := heap p in
  let id := get_reg_id (tr_dst_reg t) (tr_wid t) in
  match owners_ s !! id with
  | None => mk_sb ({[(tr_wid t, tr_dst_reg t)]} ∪ in_use_regs_ s) (<[id := p]> (owners_ s))
              (commit_counts_ s) (pending_reserve_ s)
  | Some _ => mk_sb (in_use_regs_ s) (owners_ s) (commit_counts_ s) (<[id := p]> (pending_reserve_ s))
  end.

Definition restore_warp (s : Scoreboard) (snapshot : list tid) : Scoreboard :=
  fold_left restore_one snapshot s.

(** [Scoreboard::commit_packet] *)
Definition commit_packet (s : Scoreboard) (p : tid) : bool * Scoreboard :=
  let t := heap p in
  let id := get_reg_id (tr_dst_reg t) (tr_wid t) in
  let n := u32 (default 0 (commit_counts_ s !! id) + 1) in
  (tr_num_pkts t <=? n,
   mk_sb (in_use_regs_ s) (owners_ s) (<[id := n]> (commit_counts_ s)) (pending_reserve_ s)).
End Ops.

(** ** Register identifiers *)

(** A register a trace can write: a real register of a real warp. *)
Record reg_ok (wid : Z) (r : RegOpd) : Prop := {
  ok_wid : 0 <= wid < 64;
  ok_type : reg_type r <> RegNone;
  ok_idx : 0 <= reg_idx r < 32
}.

Lemma get_reg_id_val wid r :
  reg_ok wid r -> get_reg_id r wid = wid * 128 + (RegType_int (reg_type r) - 1) * 32 + reg_idx r.
Proof.
  intros [Hw Ht Hi]. unfold get_reg_id, reg_id_of. rewrite decide_False by done.
  unfold LOG_NUM_REGS, ID_BITS. rewrite (lor_disjoint _ (reg_idx r) 5) by lia.
  assert (0 <= (RegType_int (reg_type r) - 1) * 2 ^ 5 + reg_idx r < 2 ^ 7)
    by (destruct (reg_type r); simpl in *; done || lia).
  rewrite u32_small by (rewrite Z.shiftl_mul_pow2 by lia; lia).
  rewrite lor_disjoint by lia. lia.
Qed.

Lemma get_reg_id_inj wid r wid' r' :
  reg_ok wid r -> reg_ok wid' r' -> get_reg_id r wid = get_reg_id r' wid' -> wid = wid' /\ r = r'.
Proof.
  intros H H'. rewrite !get_reg_id_val by done. destruct H as [Hw Ht Hi], H' as [Hw' Ht' Hi'].
  destruct r as [t i], r' as [t' i']. simpl in *.
  destruct t, t'; simpl; try done; intros E; (assert (wid = wid') by lia); subst;
    (assert (i = i') by lia); subst; done || lia.
Qed.

(** ** Invariant *)

Section Invariant.
Variable heap : tid -> instr_trace_t.

#[local] Abbreviation rid p := (get_reg_id (tr_dst_reg (heap p)) (tr_wid (heap p))).

(** A trace that writes a real register. *)
Definition writer (p : tid) : Prop :=
  tr_wb (heap p) = true /\ reg_ok (tr_wid (heap p)) (tr_dst_reg (heap p)).

Record sb_inv (s : Scoreboard) : Prop := {
  inv_owner : forall id p, owners_ s !! id = Some p -> id = rid p /\ writer p;
  inv_busy : forall w r, (w, r) ∈ in_use_regs_ s <->
    exists p, owners_ s !! get_reg_id r w = Some p /\ tr_wid (heap p) = w /\ tr_dst_reg (heap p) = r;
  inv_pending : forall id q, pending_reserve_ s !! id = Some q ->
    id = rid q /\ writer q /\ is_Some (owners_ s !! id)
}.

Lemma reset_inv : sb_inv Scoreboard_reset.
Proof using.
  constructor; simpl; try (intros *; by rewrite lookup_empty).
  intros w r. split; [by intros ?%elem_of_empty|]. intros (p & E & _). by rewrite lookup_empty in E.
Qed.

(** A register that is not busy has no owner. *)
Lemma idle_no_owner s p : sb_inv s -> writer p -> (tr_wid (heap p), tr_dst_reg (heap p)) ∉ in_use_regs_ s ->
  owners_ s !! rid p = None.
Proof using.
  intros Hs [_ Hok] Hn. destruct (owners_ s !! rid p) as [o|] eqn:E; [|done]. exfalso. apply Hn.
  apply (inv_busy _ Hs). exists o. split; [done|].
  destruct (inv_owner _ Hs _ _ E) as [Eid [_ Hok']].
  destruct (get_reg_id_inj _ _ _ _ Hok Hok' Eid) as [-> ->]. done.
Qed.

Lemma add_owner s p :
  sb_inv s -> writer p -> owners_ s !! rid p = None ->
  sb_inv (mk_sb ({[(tr_wid (heap p), tr_dst_reg (heap p))]} ∪ in_use_regs_ s) (<[rid p := p]> (owners_ s))
            (commit_counts_ s) (pending_reserve_ s)).
Proof using.
  intros [Ho Hb Hp] Hw Hn. constructor; simpl.
  - intros id q [[<- <-]|[_ E]]%lookup_insert_Some; [done | by apply Ho].
  - intros w r. rewrite elem_of_union, elem_of_singleton, Hb. split.
    + intros [[= -> ->]|(q & E & <- & <-)].
      * exists p. by rewrite lookup_insert_eq.
      * exists q. rewrite lookup_insert_ne by congruence. done.
    + intros (q & [[E <-]|[_ E]]%lookup_insert_Some & <- & <-); [by left|].
      right. by exists q.
  - intros id q E. destruct (Hp _ _ E) as (? & ? & ?). split; [done|]. split; [done|].
    by apply lookup_insert_is_Some'; right.
Qed.

Lemma reserve_inv s p :
  sb_inv s -> writer p -> (tr_wid (heap p), tr_dst_reg (heap p)) ∉ in_use_regs_ s ->
  exists s', reserve heap s p = Some s' /\ sb_inv s'.
Proof using.
  intros Hs Hw Hn. pose proof (idle_no_owner _ _ Hs Hw Hn) as E. unfold reserve.
  destruct Hw as [Hwb Hok]. rewrite Hwb, E. simpl. eexists. split; [done|]. by apply add_owner.
Qed.

Lemma owner_busy s p : sb_inv s -> owners_ s !! rid p = Some p ->
  busy s (tr_wid (heap p)) (tr_dst_reg (heap p)) = true.
Proof using. intros Hs E. apply bool_decide_eq_true. apply (inv_busy _ Hs). by exists p. Qed.

(** Removing an owner frees exactly its register. *)
Lemma del_owner s p c :
  sb_inv s -> owners_ s !! rid p = Some p -> pending_reserve_ s !! rid p = None ->
  sb_inv (mk_sb (in_use_regs_ s ∖ {[(tr_wid (heap p), tr_dst_reg (heap p))]}) (delete (rid p) (owners_ s))
            c (pending_reserve_ s)).
Proof using.
  intros [Ho Hb Hp] E Hn. destruct (Ho _ _ E) as [_ [Hwb Hok]]. constructor; simpl.
  - intros id q [_ Eq]%lookup_delete_Some. by apply Ho.
  - intros w r. rewrite elem_of_difference, elem_of_singleton, Hb. split.
    + intros [(q & Eq & <- & <-) Hne]. exists q. split; [|done]. rewrite lookup_delete_ne; [done|].
      intros Eid. rewrite <- Eid, E in Eq. injection Eq as <-. done.
    + intros (q & [Hne Eq]%lookup_delete_Some & <- & <-). split; [by exists q|].
      intros [= Ew Er]. apply Hne. congruence.
  - intros id q Eq. destruct (Hp _ _ Eq) as (Eid & Hq & Hs). split; [done|]. split; [done|].
    rewrite lookup_delete_ne; [done|]. intros E'. congruence.
Qed.

Lemma release_inv s p :
  sb_inv s -> writer p -> owners_ s !! rid p = Some p ->
  exists s', release heap s p = Some s' /\ sb_inv s'.
Proof using.
  intros Hs [Hwb Hok] E. unfold release. rewrite Hwb, (owner_busy s p Hs E), E. simpl.
  destruct (pending_reserve_ s !! rid p) as [q|] eqn:Ep; eexists; (split; [done|]);
    [|by apply del_owner].
  destruct Hs as [Ho Hb Hp]. destruct (Hp _ _ Ep) as (Eid & [Hwb' Hok'] & _).
  destruct (get_reg_id_inj _ _ _ _ Hok Hok' Eid) as [Ew Er].
  constructor; simpl.
  - intros id o [[<- <-]|[_ Eo]]%lookup_insert_Some; [done|].
    apply lookup_delete_Some in Eo as [_ Eo]. by apply Ho.
  - intros w r. rewrite Hb. split; intros (o & Eo & <- & <-).
    + destruct (decide (rid o = rid p)) as [Eop|Hne].
      * exists q. rewrite Eop in Eo. rewrite E in Eo. injection Eo as <-.
        rewrite lookup_insert_eq. done.
      * exists o. rewrite lookup_insert_ne, lookup_delete_ne by done. done.
    + apply lookup_insert_Some in Eo as [[Eop <-]|[Hne Eo]].
      * exists p. rewrite <- Eop, <- Ew, <- Er. done.
      * apply lookup_delete_Some in Eo as [_ Eo]. by exists o.
  - intros id o [Hne Eo]%lookup_delete_Some. destruct (Hp _ _ Eo) as (? & ? & ?).
    split; [done|]. split; [done|]. rewrite lookup_insert_ne, lookup_delete_ne by done. done.
Qed.

Lemma restore_inv s ps : sb_inv s -> Forall writer ps -> sb_inv (restore_warp heap s ps).
Proof using.
  intros Hs Hps. unfold restore_warp. revert s Hs. induction Hps as [|p ps Hp _ IH]; intros s Hs; [done|].
  simpl. apply IH. unfold restore_one. destruct (owners_ s !! rid p) as [o|] eqn:E.
  - destruct Hs as [Ho Hb Hpd]. constructor; simpl; [done..|].
    intros id q [[<- <-]|[_ Eq]]%lookup_insert_Some; [|by apply Hpd]. split; [done|]. split; [done|].
    by eexists.
  - by apply add_owner.
Qed.
(** Lifting a list of owners with distinct registers. *)
Lemma lift_fold wid es s :
  sb_inv s -> NoDup es.*1 ->
  (forall e, e ∈ es -> owners_ s !! e.1 = Some e.2 /\ tr_wid (heap e.2) = wid
     /\ pending_reserve_ s !! e.1 = None) ->
  let s' := fold_left (lift_one heap wid) es s in
  sb_inv s' /\ pending_reserve_ s' = pending_reserve_ s
  /\ (forall id, owners_ s' !! id = if bool_decide (id ∈ es.*1) then None else owners_ s !! id).
Proof using.
  cbv zeta. revert s. induction es as [|[id p] es IH]; intros s Hs Hnd Hes; [done|].
  destruct (Hes (id, p)) as (E & Ew & Epn); [left|]. simpl in E, Ew, Epn.
  destruct (inv_owner _ Hs _ _ E) as [Eid _]. rewrite fmap_cons in Hnd.
  apply list.NoDup_cons in Hnd as [Hni Hnd]. simpl.
  assert (Hone : lift_one heap wid s (id, p) = mk_sb
    (in_use_regs_ s ∖ {[(tr_wid (heap p), tr_dst_reg (heap p))]}) (delete (rid p) (owners_ s))
    (delete (rid p) (commit_counts_ s)) (pending_reserve_ s)).
  { unfold lift_one. simpl. by rewrite Eid, <- Ew. }
  rewrite Hone. rewrite Eid in E, Epn.
  destruct (IH (mk_sb (in_use_regs_ s ∖ {[(tr_wid (heap p), tr_dst_reg (heap p))]})
    (delete (rid p) (owners_ s)) (delete (rid p) (commit_counts_ s)) (pending_reserve_ s)))
    as (H1 & H2 & H3); [by apply del_owner|done| |].
  - intros e He. destruct (Hes e) as (? & ? & ?); [by right|]. simpl. split; [|done].
    rewrite lookup_delete_ne; [done|]. rewrite <- Eid. intros Ee. apply Hni.
    apply list_elem_of_fmap. by exists e.
  - split; [done|]. split; [done|]. intros k. rewrite H3. simpl. rewrite <- Eid.
    destruct (bool_decide_reflect (k ∈ es.*1)) as [Hin|Hin].
    + by rewrite bool_decide_eq_true_2 by (by right).
    + destruct (decide (k = id)) as [->|].
      * rewrite bool_decide_eq_true_2 by (by left). by rewrite lookup_delete_eq.
      * rewrite bool_decide_eq_false_2, lookup_delete_ne by (done || (intros [|]%elem_of_cons; done)). done.
Qed.

Lemma lifted_entries s wid :
  sb_inv s -> (forall id p, owners_ s !! id = Some p -> lifted heap wid (id, p) ->
                 pending_reserve_ s !! id = None) ->
  let es := filter (lifted heap wid) (map_to_list (owners_ s)) in
  NoDup es.*1 /\ (forall e, e ∈ es -> owners_ s !! e.1 = Some e.2 /\ tr_wid (heap e.2) = wid
     /\ pending_reserve_ s !! e.1 = None) /\ Forall writer es.*2.
Proof using.
  intros Hs Hpn. cbv zeta. set (es := filter _ _).
  assert (Hes : forall e, e ∈ es -> owners_ s !! e.1 = Some e.2 /\ lifted heap wid e).
  { intros [id p] [Hl Hin]%list_elem_of_filter. by apply elem_of_map_to_list in Hin. }
  split; [|split].
  - apply (sublist_NoDup _ (map_to_list (owners_ s)).*1); [apply NoDup_fst_map_to_list|].
    apply fmap_sublist, sublist_filter.
  - intros [id p] He. destruct (Hes _ He) as [E Hl]. simpl in *. split; [done|].
    split; [apply Hl | by eapply Hpn].
  - apply Forall_fmap, list.Forall_forall. intros e He. destruct (Hes _ He) as [E _].
    by apply (inv_owner _ Hs) in E as [_ ?].
Qed.

Lemma snapshot_inv s wid :
  sb_inv s -> (forall id p, owners_ s !! id = Some p -> lifted heap wid (id, p) ->
                 pending_reserve_ s !! id = None) ->
  let '(snap, s') := snapshot_warp heap s wid in sb_inv s' /\ Forall writer snap.
Proof using.
  intros Hs Hpn. destruct (lifted_entries s wid Hs Hpn) as (Hnd & Hes & Hw).
  unfold snapshot_warp. by destruct (lift_fold wid _ s Hs Hnd Hes) as (? & _).
Qed.
End Invariant.

(** ** The scoreboard in the pipeline

    Issue stalls while [in_use] holds and reserves the destination otherwise;
    commit counts packets and releases on the last; functional units park
    and unpark traces; an asynchronous trap lifts the parked reservations of
    its warp and the return re-installs them.  [pl_snap] is the scheduler's
    [async_trap_snapshot_]. *)

Record pipeline := mk_pl {
  pl_heap : tid -> instr_trace_t;
  pl_sb : Scoreboard;
  pl_snap : Z -> list tid
}.

Definition with_suspended (t : instr_trace_t) (b : bool) : instr_trace_t :=
  mk_trace (tr_wid t) (tr_wb t) (tr_dst_reg t) (tr_src_regs t) (tr_num_pkts t) b (tr_uuid t)
    (tr_fu_type t) (tr_op_type t) (tr_dst_bytesel t).

Definition fupd {A} `{EqDecision K} (f : K -> A) (k : K) (x : A) : K -> A :=
  fun k' => if decide (k' = k) then x else f k'.

Definition is_owner (pl : pipeline) (p : tid) : Prop :=
  owners_ (pl_sb pl) !! get_reg_id (tr_dst_reg (pl_heap pl p)) (tr_wid (pl_heap pl p)) = Some p.

Inductive pl_step : pipeline -> pipeline -> Prop :=
| pl_issue h s n p s' :
    in_use h s p = Some false -> writer h p -> reserve h s p = Some s' ->
    pl_step (mk_pl h s n) (mk_pl h s' n)
| pl_partial h s n p s' :
    is_owner (mk_pl h s n) p -> commit_packet h s p = (false, s') ->
    pl_step (mk_pl h s n) (mk_pl h s' n)
| pl_commit h s n p s1 s' :
    is_owner (mk_pl h s n) p -> commit_packet h s p = (true, s1) -> release h s1 p = Some s' ->
    pl_step (mk_pl h s n) (mk_pl h s' n)
| pl_park h s n p b :
    pl_step (mk_pl h s n) (mk_pl (fupd h p (with_suspended (h p) b)) s n)
| pl_trap h s n wid snap s' :
    (forall id p, owners_ s !! id = Some p -> lifted h wid (id, p) -> pending_reserve_ s !! id = None) ->
    snapshot_warp h s wid = (snap, s') ->
    pl_step (mk_pl h s n) (mk_pl h s' (fupd n wid snap))
| pl_mret h s n wid :
    pl_step (mk_pl h s n) (mk_pl h (restore_warp h s (n wid)) (fupd n wid [])).

Definition pl_init (h : tid -> instr_trace_t) : pipeline := mk_pl h Scoreboard_reset (fun _ => []).

Definition pl_inv (pl : pipeline) : Prop :=
  sb_inv (pl_heap pl) (pl_sb pl) /\ forall wid, Forall (writer (pl_heap pl)) (pl_snap pl wid).

(** Parking does not change what the invariant reads. *)
Lemma park_same (h : tid -> instr_trace_t) (p : tid) b q :
  let h' := fupd h p (with_suspended (h p) b) in
  tr_wid (h' q) = tr_wid (h q) /\ tr_dst_reg (h' q) = tr_dst_reg (h q) /\ tr_wb (h' q) = tr_wb (h q).
Proof. cbv zeta. unfold fupd. destruct (decide (q = p)) as [->|]; done. Qed.

Lemma park_writer (h : tid -> instr_trace_t) (p : tid) b q : writer (fupd h p (with_suspended (h p) b)) q <-> writer h q.
Proof. unfold writer. by destruct (park_same h p b q) as (-> & -> & ->). Qed.

Lemma park_inv (h : tid -> instr_trace_t) (p : tid) b s : sb_inv h s -> sb_inv (fupd h p (with_suspended (h p) b)) s.
Proof.
  intros [Ho Hb Hp]. constructor.
  - intros id q E. destruct (Ho _ _ E) as [Eid Hw]. rewrite park_writer.
    by destruct (park_same h p b q) as (-> & -> & _).
  - intros w r. rewrite Hb. split; intros (q & E & Ew & Er); exists q; (split; [done|]);
      by destruct (park_same h p b q) as (? & ? & _); split; congruence.
  - intros id q E. destruct (Hp _ _ E) as (Eid & Hw & ?). rewrite park_writer.
    by destruct (park_same h p b q) as (-> & -> & _).
Qed.

Lemma commit_same h s p b s' :
  commit_packet h s p = (b, s') ->
  in_use_regs_ s' = in_use_regs_ s /\ owners_ s' = owners_ s /\ pending_reserve_ s' = pending_reserve_ s.
Proof. unfold commit_packet. by intros [= _ <-]. Qed.

Lemma commit_inv h s p b s' : commit_packet h s p = (b, s') -> sb_inv h s -> sb_inv h s'.
Proof.
  intros (E1 & E2 & E3)%commit_same [Ho Hb Hp].
  constructor; intros *; rewrite ?E1, ?E2, ?E3; [apply Ho | apply Hb | apply Hp].
Qed.

Lemma not_in_use h s p :
  in_use h s p = Some false -> writer h p -> (tr_wid (h p), tr_dst_reg (h p)) ∉ in_use_regs_ s.
Proof.
  unfold in_use. intros E [Hwb _]. rewrite Hwb in E. simpl in E. case_match; [done|].
  injection E as E. apply orb_false_iff in E as [E _]. unfold busy in E. by apply bool_decide_eq_false in E.
Qed.

Lemma pl_step_inv pl pl' : pl_step pl pl' -> pl_inv pl -> pl_inv pl'.
Proof.
  intros Hstep [Hs Hn]. destruct Hstep as
    [h s n p s' Hu Hw E|h s n p s' Ho E|h s n p s1 s' Ho Ec E|h s n p b|h s n wid snap s' Hp E|h s n wid];
    unfold pl_inv in *; simpl in *.
  - destruct (reserve_inv h s p Hs Hw (not_in_use _ _ _ Hu Hw)) as (s2 & E2 & ?). split; [congruence|done].
  - split; [by eapply commit_inv|done].
  - pose proof (commit_inv _ _ _ _ _ Ec Hs) as Hs1. destruct (commit_same _ _ _ _ _ Ec) as (_ & Eo & _).
    unfold is_owner in Ho. simpl in Ho. rewrite <- Eo in Ho.
    destruct (inv_owner _ _ Hs1 _ _ Ho) as [_ Hw].
    destruct (release_inv h s1 p Hs1 Hw Ho) as (s2 & E2 & ?). split; [congruence|done].
  - split; [by apply park_inv|]. intros wid. specialize (Hn wid). revert Hn. apply Forall_impl.
    intros q. by rewrite park_writer.
  - pose proof (snapshot_inv h s wid Hs Hp) as Hsn. rewrite E in Hsn. destruct Hsn as [? Hsn].
    split; [done|]. intros w. unfold fupd. destruct (decide (w = wid)); [done|apply Hn].
  - split; [by apply restore_inv|]. intros w. unfold fupd. destruct (decide (w = wid)); [done|apply Hn].
Qed.

Lemma pl_reach_inv h pl : rtc pl_step (pl_init h) pl -> pl_inv pl.
Proof.
  assert (forall a b, rtc pl_step a b -> pl_inv a -> pl_inv b) as Hrtc.
  { induction 1 as [|a b c Hab _ IH]; [done|]. intros Ha. by eapply IH, pl_step_inv. }
  intros Hr. eapply Hrtc; [exact Hr|]. split; [apply reset_inv | done].
Qed.

(** ** Packet counts *)

(** Only owned registers have a packet count. *)
Definition counts_owned (s : Scoreboard) : Prop :=
  forall id, is_Some (commit_counts_ s !! id) -> is_Some (owners_ s !! id).

Lemma lift_counts h wid es s : counts_owned s -> counts_owned (fold_left (lift_one h wid) es s).
Proof.
  revert s. induction es as [|e es IH]; intros s Hs; [done|]. simpl. apply IH. intros id. simpl.
  intros [n [Hne E]%lookup_delete_Some]. rewrite lookup_delete_ne by done. apply Hs. by exists n.
Qed.

Lemma restore_counts h ps s : counts_owned s -> counts_owned (restore_warp h s ps).
Proof.
  unfold restore_warp. revert s. induction ps as [|p ps IH]; intros s Hs; [done|]. simpl. apply IH.
  unfold restore_one. destruct (owners_ s !! _) eqn:E; [exact Hs|].
  intros id Hc. apply lookup_insert_is_Some'. right. by apply Hs.
Qed.

Lemma release_counts h s p s' : release h s p = Some s' -> counts_owned s -> counts_owned s'.
Proof.
  unfold release. intros E Hs. repeat case_match; try done; injection E as <-; intros id; simpl;
    intros [n [Hne En]%lookup_delete_Some]; rewrite ?lookup_insert_ne, lookup_delete_ne by done;
    apply Hs; by exists n.
Qed.

Lemma commit_counts h s p b s' :
  commit_packet h s p = (b, s') -> owners_ s !! get_reg_id (tr_dst_reg (h p)) (tr_wid (h p)) = Some p ->
  counts_owned s -> counts_owned s'.
Proof.
  unfold commit_packet. intros [= _ <-] Ho Hs id. simpl.
  intros [<-|[_ ?]]%lookup_insert_is_Some; [by exists p | by apply Hs].
Qed.

Lemma pl_counts h pl : rtc pl_step (pl_init h) pl -> counts_owned (pl_sb pl).
Proof.
  assert (forall a b, rtc pl_step a b -> counts_owned (pl_sb a) -> counts_owned (pl_sb b)) as Hrtc.
  { induction 1 as [|a b c Hab _ IH]; [done|]. intros Ha. apply IH. clear IH.
    destruct Hab as [h0 s n p s' Hu Hw E|h0 s n p s' Ho E|h0 s n p s1 s' Ho Ec E|h0 s n p f|
      h0 s n wid snap s' Hp E|h0 s n wid]; simpl in *.
    - unfold reserve in E. repeat case_match; try done. injection E as <-. intros id Hc. simpl.
      apply lookup_insert_is_Some'. right. by apply Ha.
    - by eapply commit_counts.
    - by eapply release_counts, commit_counts.
    - done.
    - unfold snapshot_warp in E. injection E as _ <-. by apply lift_counts.
    - by apply restore_counts. }
  intros Hr. apply (Hrtc _ _ Hr). intros id [n Hn]. simpl in Hn. by rewrite lookup_empty in Hn.
Qed.

(** [n] packets of the trace committed. *)
Fixpoint commits (h : tid -> instr_trace_t) (s : Scoreboard) (p : tid) (n : nat) : bool * Scoreboard :=
  match n with
  | O => (false, s)
  | S m => commit_packet h (commits h s p m).2 p
  end.

Lemma commits_count h s p n :
  commit_counts_ s !! get_reg_id (tr_dst_reg (h p)) (tr_wid (h p)) = None -> Z.of_nat n < 2 ^ 32 ->
  default 0 (commit_counts_ (commits h s p n).2 !! get_reg_id (tr_dst_reg (h p)) (tr_wid (h p))) = Z.of_nat n.
Proof.
  intros E. induction n as [|n IH]; intros Hn; [by simpl; rewrite E|].
  simpl commits. unfold commit_packet at 1. simpl. rewrite lookup_insert_eq. simpl.
  rewrite IH by lia. rewrite u32_small by lia. lia.
Qed.

(** ** Round trip of the trap-time lift *)

(** Restoring the traces of registers without owner installs them all. *)
Lemma restore_fold h s ps :
  Forall (fun p => owners_ s !! get_reg_id (tr_dst_reg (h p)) (tr_wid (h p)) = None) ps ->
  NoDup ((fun p => get_reg_id (tr_dst_reg (h p)) (tr_wid (h p))) <$> ps) ->
  let s' := restore_warp h s ps in
  pending_reserve_ s' = pending_reserve_ s /\ commit_counts_ s' = commit_counts_ s
  /\ (forall id o, owners_ s' !! id = Some o <->
        owners_ s !! id = Some o \/ (o ∈ ps /\ id = get_reg_id (tr_dst_reg (h o)) (tr_wid (h o)))).
Proof.
  cbv zeta. unfold restore_warp. revert s. induction ps as [|p ps IH]; intros s Hn Hnd.
  { split; [done|]. split; [done|]. intros id o. simpl. set_solver. }
  apply list.Forall_cons in Hn as [Hp Hn]. rewrite fmap_cons in Hnd. apply list.NoDup_cons in Hnd as [Hni Hnd].
  simpl. unfold restore_one at 2 4 6. rewrite Hp.
  destruct (IH (mk_sb ({[(tr_wid (h p), tr_dst_reg (h p))]} ∪ in_use_regs_ s)
    (<[get_reg_id (tr_dst_reg (h p)) (tr_wid (h p)) := p]> (owners_ s)) (commit_counts_ s) (pending_reserve_ s)))
    as (H1 & H2 & H3); [|done|].
  - apply list.Forall_forall. intros q Hq. simpl. rewrite lookup_insert_ne.
    + by eapply (proj1 (list.Forall_forall _ _) Hn).
    + intros E. apply Hni. rewrite E. by apply (list_elem_of_fmap_2 (fun p => get_reg_id (tr_dst_reg (h p)) (tr_wid (h p)))).
  - split; [done|]. split; [done|]. intros id o. rewrite H3. simpl. rewrite lookup_insert_Some, elem_of_cons.
    destruct (decide (id = get_reg_id (tr_dst_reg (h p)) (tr_wid (h p)))) as [->|]; [|naive_solver].
    rewrite Hp. naive_solver.
Qed.

Lemma busy_determined h s s' :
  sb_inv h s -> sb_inv h s' -> owners_ s' = owners_ s -> in_use_regs_ s' = in_use_regs_ s.
Proof.
  intros Hs Hs' E. apply set_eq. intros [w r]. by rewrite (inv_busy _ _ Hs), (inv_busy _ _ Hs'), E.
Qed.

Lemma snapshot_restore_owners h s wid :
  sb_inv h s ->
  (forall id p, owners_ s !! id = Some p -> lifted h wid (id, p) -> pending_reserve_ s !! id = None) ->
  let '(snap, s1) := snapshot_warp h s wid in
  owners_ (restore_warp h s1 snap) = owners_ s /\ pending_reserve_ (restore_warp h s1 snap) = pending_reserve_ s.
Proof.
  intros Hs Hpn. destruct (lifted_entries h s wid Hs Hpn) as (Hnd & Hes & Hw). unfold snapshot_warp.
  set (es := filter _ _) in *.
  destruct (lift_fold h wid es s Hs Hnd Hes) as (Hs1 & Hp1 & Ho1). set (s1 := fold_left _ _ _) in *.
  set (rid := fun p => get_reg_id (tr_dst_reg (h p)) (tr_wid (h p))).
  assert (Hrid : rid <$> es.*2 = es.*1).
  { rewrite <- list_fmap_compose. apply list_fmap_ext. intros i e He. simpl.
    apply list_elem_of_lookup_2 in He. destruct (Hes e He) as (Eo & _). symmetry.
    by apply (inv_owner _ _ Hs) in Eo as [? _]. }
  destruct (restore_fold h s1 es.*2) as (H1 & _ & H3).
  { apply list.Forall_forall. intros p Hp. rewrite Ho1.
    rewrite bool_decide_eq_true_2; [done|]. rewrite <- Hrid. by apply (list_elem_of_fmap_2 rid). }
  { fold rid. by rewrite Hrid. }
  split; [|congruence]. apply map_eq. intros id. apply option_eq. intros o. rewrite H3, Ho1.
  split.
  - intros [E|[Ho ->]]; [by case_match|]. apply list_elem_of_fmap in Ho as (e & -> & He).
    destruct (Hes e He) as (Eo & _). destruct (inv_owner _ _ Hs _ _ Eo) as [<- _]. done.
  - intros E. destruct (bool_decide_reflect (id ∈ es.*1)) as [Hin|]; [right|by left].
    apply list_elem_of_fmap in Hin as (e & -> & He). destruct (Hes e He) as (Eo & _).
    rewrite E in Eo. injection Eo as ->. split; [by apply (list_elem_of_fmap_2 snd)|].
    by apply (inv_owner _ _ Hs) in E as [? _].
Qed.

Lemma busy_owner h s w r :
  sb_inv h s -> busy s w r = true <->
  exists p, owners_ s !! get_reg_id r w = Some p /\ tr_wid (h p) = w /\ tr_dst_reg (h p) = r.
Proof. intros Hs. unfold busy. rewrite bool_decide_eq_true. apply (inv_busy _ _ Hs). Qed.

Lemma use_of_total h s w r : sb_inv h s -> is_Some (use_of h s w r).
Proof.
  intros Hs. unfold use_of. destruct (busy s w r) eqn:E; [|by eexists].
  apply (busy_owner h) in E as (p & -> & _); [|done]. by eexists.
Qed.

Lemma get_uses_total h s p :
  sb_inv h s -> (tr_wb (h p) = true -> writer h p) -> is_Some (get_uses h s p).
Proof.
  intros Hs Hw. unfold get_uses.
  destruct (tr_wb (h p)) eqn:Ewb.
  - destruct (Hw eq_refl) as [_ Hok]. rewrite bool_decide_eq_false_2 by apply (ok_type _ _ Hok). simpl.
    destruct (use_of_total h s (tr_wid (h p)) (tr_dst_reg (h p)) Hs) as [d ->]. simpl.
    destruct (proj2 (mapM_is_Some (use_of h s (tr_wid (h p))) (live_srcs (h p)))) as [ss ->];
      [|by eexists]. apply list.Forall_forall. intros r _. by apply use_of_total.
  - simpl. destruct (proj2 (mapM_is_Some (use_of h s (tr_wid (h p))) (live_srcs (h p)))) as [ss ->];
      [|by eexists]. apply list.Forall_forall. intros r _. by apply use_of_total.
Qed.

(** The hazard test reports exactly the in-flight writers of the registers
    the trace touches. *)
Lemma in_use_exact h s p :
  sb_inv h s -> (tr_wb (h p) = true -> writer h p) ->
  exists b, in_use h s p = Some b
    /\ (b = true <-> exists o r, owners_ s !! get_reg_id r (tr_wid (h p)) = Some o
          /\ tr_wid (h o) = tr_wid (h p) /\ tr_dst_reg (h o) = r
          /\ ((tr_wb (h p) = true /\ r = tr_dst_reg (h p)) \/ r ∈ live_srcs (h p))).
Proof.
  intros Hs Hw. unfold in_use.
  assert (Hn : tr_wb (h p) && bool_decide (reg_type (tr_dst_reg (h p)) = RegNone) = false).
  { destruct (tr_wb (h p)) eqn:E; [|done]. destruct (Hw eq_refl) as [_ Hok].
    by rewrite bool_decide_eq_false_2 by apply (ok_type _ _ Hok). }
  rewrite Hn. eexists. split; [done|]. rewrite orb_true_iff, andb_true_iff, existsb_exists. split.
  - intros [[Hwb (o & ?)%(busy_owner h s _ _ Hs)]|(r & Hr & (o & ?)%(busy_owner h s _ _ Hs))].
    + exists o, (tr_dst_reg (h p)). naive_solver.
    + exists o, r. rewrite <- list_elem_of_In in Hr. naive_solver.
  - intros (o & r & E & Ew & Er & [[Hwb ->]|Hr]); [left|right; exists r]; (split; [by rewrite <- ?list_elem_of_In|]);
      apply (busy_owner h s _ _ Hs); naive_solver.
Qed.

(** ** Properties *)

(** C33. In every reachable pipeline state, and for every trace that names a
    real destination when it writes one: the hazard test does not assert and
    reports exactly whether an unreleased instruction of the same warp writes
    the trace's destination or one of its sources; listing the uses never
    misses an owner; a trace found free reserves without asserting; and an
    owner's commit can always be followed by its release. *)
Theorem scoreboard_hazards_exact h pl p :
  rtc pl_step (pl_init h) pl -> (tr_wb (pl_heap pl p) = true -> writer (pl_heap pl) p) ->
  let t := pl_heap pl p in
  (exists b, in_use (pl_heap pl) (pl_sb pl) p = Some b
    /\ (b = true <-> exists o, is_owner pl o /\ tr_wid (pl_heap pl o) = tr_wid t
          /\ ((tr_wb t = true /\ tr_dst_reg (pl_heap pl o) = tr_dst_reg t)
              \/ tr_dst_reg (pl_heap pl o) ∈ live_srcs t))
    /\ (b = false -> tr_wb t = true -> is_Some (reserve (pl_heap pl) (pl_sb pl) p)))
  /\ is_Some (get_uses (pl_heap pl) (pl_sb pl) p)
  /\ (is_owner pl p ->
      is_Some (release (pl_heap pl) (commit_packet (pl_heap pl) (pl_sb pl) p).2 p)).
Proof.
  intros Hr Hw. destruct (pl_reach_inv _ _ Hr) as [Hs _]. cbv zeta. split; [|split].
  - destruct (in_use_exact _ _ _ Hs Hw) as (b & E & Hb). exists b. split; [done|]. split.
    + rewrite Hb. unfold is_owner. split.
      * intros (o & r & Eo & Ew & Er & Hcase). exists o. rewrite Er, Ew. naive_solver.
      * intros (o & Eo & Ew & Hcase). exists o, (tr_dst_reg (pl_heap pl o)). rewrite <- Ew. naive_solver.
    + intros -> Hwb.
      destruct (reserve_inv _ _ _ Hs (Hw Hwb) (not_in_use _ _ _ E (Hw Hwb))) as (s' & -> & _). by eexists.
  - by apply get_uses_total.
  - intros Ho. destruct (commit_packet _ _ p) as [b s1] eqn:Ec. simpl.
    destruct (commit_same _ _ _ _ _ Ec) as (_ & Eo & _). unfold is_owner in Ho. rewrite <- Eo in Ho.
    pose proof (commit_inv _ _ _ _ _ Ec Hs) as Hs1. destruct (inv_owner _ _ Hs1 _ _ Ho) as [_ Hw1].
    destruct (release_inv _ _ _ Hs1 Hw1 Ho) as (s' & -> & _). by eexists.
Qed.

(** After an instruction reserves its destination in a reachable state,
    its packets are counted from zero: the [n]-th commit reports the last
    packet exactly when [n] has reached the packet count. *)
Theorem scoreboard_last_packet h pl p s' n :
  rtc pl_step (pl_init h) pl -> reserve (pl_heap pl) (pl_sb pl) p = Some s' ->
  Z.of_nat n < 2 ^ 32 -> (0 < n)%nat ->
  (commits (pl_heap pl) s' p n).1 = (tr_num_pkts (pl_heap pl p) <=? Z.of_nat n).
Proof.
  intros Hr E Hn Hpos. pose proof (pl_counts _ _ Hr) as Hc. unfold reserve in E.
  case_match; [done|]. case_match eqn:Eo; [done|]. injection E as <-.
  destruct n as [|n]; [lia|]. simpl commits. unfold commit_packet at 1. simpl.
  rewrite commits_count; [| |lia].
  - rewrite u32_small by lia. f_equal. lia.
  - simpl. destruct (commit_counts_ _ !! _) eqn:En; [|done].
    destruct (Hc _ (mk_is_Some _ _ En)) as [o Eo2]. congruence.
Qed.

(** Lifting the parked reservations of a warp at a trap and restoring
    them at the return gives back the same owners, the same busy registers
    and the same deferred reservations; and while they are lifted the
    registers they held are free. *)
Theorem scoreboard_trap_roundtrip h pl wid :
  rtc pl_step (pl_init h) pl ->
  (forall id p, owners_ (pl_sb pl) !! id = Some p -> lifted (pl_heap pl) wid (id, p) ->
     pending_reserve_ (pl_sb pl) !! id = None) ->
  let '(snap, s1) := snapshot_warp (pl_heap pl) (pl_sb pl) wid in
  let s2 := restore_warp (pl_heap pl) s1 snap in
  owners_ s2 = owners_ (pl_sb pl) /\ in_use_regs_ s2 = in_use_regs_ (pl_sb pl)
  /\ pending_reserve_ s2 = pending_reserve_ (pl_sb pl)
  /\ Forall (fun p => busy s1 wid (tr_dst_reg (pl_heap pl p)) = false) snap.
Proof.
  intros Hr Hpn. destruct (pl_reach_inv _ _ Hr) as [Hs _].
  pose proof (snapshot_restore_owners _ _ _ Hs Hpn) as Hso. pose proof (snapshot_inv _ _ _ Hs Hpn) as Hsi.
  destruct (snapshot_warp _ _ wid) as [snap s1] eqn:E. destruct Hso as [Ho Hp], Hsi as [Hs1 Hsn]. cbv zeta.
  split; [done|]. split; [by apply (busy_determined (pl_heap pl)), Ho; [|apply restore_inv]|]. split; [done|].
  destruct (lifted_entries _ _ wid Hs Hpn) as (Hnd & Hes & _). unfold snapshot_warp in E.
  destruct (lift_fold _ wid _ _ Hs Hnd Hes) as (_ & _ & Ho1). injection E as <- Es1. rewrite Es1 in Ho1.
  apply Forall_fmap, list.Forall_forall. intros e He. destruct (Hes e He) as (Eo & Ew & _). simpl.
  apply not_true_iff_false. intros (q & Eq & _)%(busy_owner _ _ _ _ Hs1).
  destruct (inv_owner _ _ Hs _ _ Eo) as [Eid _]. rewrite <- Ew, <- Eid, Ho1 in Eq.
  rewrite bool_decide_eq_true_2 in Eq; [done|]. by apply (list_elem_of_fmap_2 fst).
Qed.

(** Trace 1 writes x5 of warp 0 in two packets and is parked; the others read
    x5 and write x6. *)
Definition ex_heap (p : tid) : instr_trace_t :=
  match p with
  | 1%positive => mk_trace 0 true (mk_reg RegInteger 5) [mk_reg RegInteger 1] 2 true 7 0 0 0xFF
  | _ => mk_trace 0 true (mk_reg RegInteger 6) [mk_reg RegInteger 5] 1 false 8 0 0 0xFF
  end.

Definition ex_sb : Scoreboard := default Scoreboard_reset (reserve ex_heap Scoreboard_reset 1%positive).

Lemma ex_heap_writer p : writer ex_heap p.
Proof. by destruct p; split; try (constructor; simpl; done || lia). Qed.

Lemma ex_reach : rtc pl_step (pl_init ex_heap) (mk_pl ex_heap ex_sb (fun _ => [])).
Proof.
  apply rtc_once. eapply (pl_issue _ _ _ 1%positive); [reflexivity | apply ex_heap_writer | reflexivity].
Qed.

Lemma scoreboard_hazards_exact_witness :
  exists b, in_use ex_heap ex_sb 2%positive = Some b
    /\ (b = true <-> exists o, is_owner (mk_pl ex_heap ex_sb (fun _ => [])) o
          /\ tr_wid (ex_heap o) = 0
          /\ ((true = true /\ tr_dst_reg (ex_heap o) = mk_reg RegInteger 6)
              \/ tr_dst_reg (ex_heap o) ∈ live_srcs (ex_heap 2%positive))).
Proof.
  destruct (scoreboard_hazards_exact ex_heap _ 2%positive ex_reach (fun _ => ex_heap_writer _))
    as ((b & E & Hb & _) & _).
  exists b. split; [exact E | exact Hb].
Defined.

Lemma scoreboard_last_packet_witness :
  (commits ex_heap ex_sb 1%positive 2).1 = true /\ (commits ex_heap ex_sb 1%positive 1).1 = false.
Proof.
  split.
  - refine (scoreboard_last_packet ex_heap (pl_init ex_heap) 1%positive ex_sb 2 (rtc_refl _ _) eq_refl _ _); lia.
  - refine (scoreboard_last_packet ex_heap (pl_init ex_heap) 1%positive ex_sb 1 (rtc_refl _ _) eq_refl _ _); lia.
Defined.

Lemma scoreboard_trap_roundtrip_witness :
  (snapshot_warp ex_heap ex_sb 0).1 = [1%positive]
  /\ owners_ (restore_warp ex_heap (snapshot_warp ex_heap ex_sb 0).2 (snapshot_warp ex_heap ex_sb 0).1)
     = owners_ ex_sb.
Proof.
  split; [reflexivity|].
  pose proof (scoreboard_trap_roundtrip ex_heap _ 0 ex_reach) as H. simpl pl_heap in H. simpl pl_sb in H.
  destruct (snapshot_warp ex_heap ex_sb 0) as [snap s1] eqn:E. simpl.
  apply H. intros id p _ _. apply lookup_empty.
Defined.
