(* ===== verification/Pipeline.v ===== *)
(** * Issue and commit — [sim/simx/core.cpp]

    Instructions issue in order when the scoreboard shows no hazard, read
    their operands at issue, execute in units of different latency and write
    back packet by packet when the units deliver, in any order.  The file
    models the issue and commit stages over the scoreboard and the register
    file and shows that the registers end up as if the instructions had run
    one after the other in issue order, and that the stages never deadlock. *)

From S2P Require Import Prelude Mask Instr Regfile Dispatch Scoreboard.

Section Pipeline.
Context `{Hcfg : VxConfig} {Hok : VxConfigOk} `{HM : MaskSpec M} `{HR : !RegFile R M}.

(** The traces: what the scoreboard reads, the thread mask, the packets the
    dispatcher sends, and the value the functional unit computes for a lane
    from the captured operands. *)
Variable heap : tid -> instr_trace_t.
Variable tmask : tid -> M.
Variable pkts : tid -> list M.
Variable result : tid -> list (list Z) -> Z -> Z.

(** An in-flight trace: its operands and the packets not yet committed. *)
Record flight := mk_flight { fl_ops : list (list Z); fl_rem : list M }.

Record pipe := mk_pipe { p_regs : R; p_sb : Scoreboard; p_flight : gmap tid flight }.

Definition pipe_new : pipe := mk_pipe rf_new Scoreboard_reset ∅.

(** The issue of one trace: [in_use], [fetch_operands], [reserve]. *)
Definition issue (s : pipe) (p : tid) : option pipe :=
  let t := heap p in
  used ← in_use heap (p_sb s) p;
  if used : bool then None
  else
    ops ← rf_fetch (p_regs s) (tr_wid t) (tr_src_regs t);
    sb ← (if tr_wb t then reserve heap (p_sb s) p else Some (p_sb s));
    Some (mk_pipe (p_regs s) sb (<[p := mk_flight ops (pkts p)]> (p_flight s))).

(** The commit of packet [k] of trace [p]: [writeback], [commit_packet],
    [release]. *)
Definition commit (s : pipe) (p : tid) (k : nat) : option pipe :=
  let t := heap p in
  f ← p_flight s !! p;
  m ← fl_rem f !! k;
  let rest := delete k (fl_rem f) in
  let flight' := if bool_decide (rest = []) then delete p (p_flight s)
                 else <[p := mk_flight (fl_ops f) rest]> (p_flight s) in
  if tr_wb t then
    regs ← rf_write (p_regs s) (tr_wid t) (tr_dst_reg t) (tr_dst_bytesel t) m (result p (fl_ops f) <$> range NUM_THREADS);
    let '(fin, sb) := commit_packet heap (p_sb s) p in
    sb' ← (if fin : bool then release heap sb p else Some sb);
    Some (mk_pipe regs sb' flight')
  else Some (mk_pipe (p_regs s) (p_sb s) flight').

(** Any interleaving of issues and packet commits; the list records the issue
    order, latest first. *)
Inductive pipe_reach : list tid -> pipe -> Prop :=
  | reach_new : pipe_reach [] pipe_new
  | reach_issue iss s p s' : pipe_reach iss s -> p_flight s !! p = None -> issue s p = Some s' -> pipe_reach (p :: iss) s'
  | reach_commit iss s p k s' : pipe_reach iss s -> commit s p k = Some s' -> pipe_reach iss s'.

(** ** Sequential execution *)

(** The register after trace [p] wrote [v] over [old]: the bytes of its byte
    select. *)
Definition merged (p : tid) (old v : Z) : Z :=
  let w := reg_width (tr_dst_reg (heap p)) in merge w (expand_bytesel64 (tr_dst_bytesel (heap p)) mod 2 ^ w) old v.

(** One instruction after the other. *)
Definition seq_exec (F : flat_regs) (p : tid) : flat_regs :=
  let t := heap p in
  fun wid r u =>
    if decide (tr_wb t = true /\ wid = tr_wid t /\ r = tr_dst_reg t /\ m_test (tmask p) u = true)
    then merged p (F wid r u) (result p (flat_read F (tr_wid t) <$> tr_src_regs t) u)
    else F wid r u.

Fixpoint seq_run (iss : list tid) : flat_regs :=
  match iss with [] => fun _ _ _ => 0 | p :: iss' => seq_exec (seq_run iss') p end.

(** ** What the decoder, the dispatcher and the units guarantee *)

Record trace_ok (p : tid) : Prop := {
  ok_warp : 0 <= tr_wid (heap p) < NUM_WARPS;
  ok_srcs : Forall (fun r => reg_type r = RegNone \/ reg_valid r) (tr_src_regs (heap p));
  ok_dst : tr_wb (heap p) = true -> reg_valid (tr_dst_reg (heap p));
  ok_pkts : Z.of_nat (length (pkts p)) = tr_num_pkts (heap p) /\ 1 <= tr_num_pkts (heap p) < 2 ^ 32;
  ok_split : forall t, 0 <= t < NUM_THREADS ->
    length (filter (fun m => m_test m t = true) (pkts p)) = if m_test (tmask p) t then 1%nat else 0%nat
}.
Hypothesis traces_ok : forall p, trace_ok p.

#[local] Abbreviation rid p := (get_reg_id (tr_dst_reg (heap p)) (tr_wid (heap p))).

(** Thread [t] is in a packet of [l]. *)
Definition covers (l : list M) (t : Z) : bool := existsb (fun m => m_test m t) l.

(** The in-flight writers own their registers, the commit counts are the
    committed packets, and the register file differs from the sequential one
    only in the lanes of the packets still in flight. *)
Record pinv (F : flat_regs) (s : pipe) : Prop := {
  pi_sb : sb_inv heap (p_sb s);
  pi_pend : pending_reserve_ (p_sb s) = ∅;
  pi_owner : forall p f, p_flight s !! p = Some f -> tr_wb (heap p) = true -> owners_ (p_sb s) !! rid p = Some p;
  pi_flight : forall id p, owners_ (p_sb s) !! id = Some p -> exists f, p_flight s !! p = Some f;
  pi_count : forall id, match owners_ (p_sb s) !! id with
    | Some p => forall f, p_flight s !! p = Some f ->
        default 0 (commit_counts_ (p_sb s) !! id) = tr_num_pkts (heap p) - Z.of_nat (length (fl_rem f))
    | None => commit_counts_ (p_sb s) !! id = None end;
  pi_rem : forall p f, p_flight s !! p = Some f -> fl_rem f <> [] /\
    Z.of_nat (length (fl_rem f)) <= tr_num_pkts (heap p) /\
    (forall t, 0 <= t < NUM_THREADS -> (length (filter (fun m => m_test m t = true) (fl_rem f)) <= 1)%nat);
  pi_regs : exists G, rf_rep (p_regs s) G /\
    forall wid r t, 0 <= wid < NUM_WARPS -> reg_valid r -> 0 <= t < NUM_THREADS ->
      (forall p f, p_flight s !! p = Some f -> tr_wb (heap p) = true -> tr_wid (heap p) = wid -> tr_dst_reg (heap p) = r ->
         F wid r t = if covers (fl_rem f) t then merged p (G wid r t) (result p (fl_ops f) t) else G wid r t) /\
      ((wid, r) ∉ in_use_regs_ (p_sb s) -> F wid r t = G wid r t)
}.

Lemma writer_of p : tr_wb (heap p) = true -> writer heap p.
Proof using Hok traces_ok.
  intros Hw. split; [done|]. pose proof (ok_warp _ (traces_ok p)). pose proof num_warps_ok. destruct (ok_dst _ (traces_ok p) Hw).
  split; [lia | done | done].
Qed.

Lemma pipe_new_inv : pinv (fun _ _ _ => 0) pipe_new.
Proof using.
  constructor; cbn [p_sb p_flight p_regs pipe_new Scoreboard_reset owners_ pending_reserve_ commit_counts_]; try (intros; by rewrite ?lookup_empty in * ).
  - apply reset_inv.
  - exists (fun _ _ _ => 0). split; [apply rf_new_rep|]. intros wid r t _ _ _. split; [|done]. intros p f E. done.
Qed.

(** An idle register has the sequential value. *)
Lemma fetch_sequential F s wid srcs :
  pinv F s -> 0 <= wid < NUM_WARPS -> Forall (fun r => reg_type r = RegNone \/ reg_valid r) srcs ->
  existsb (busy (p_sb s) wid) (filter (fun r => reg_type r <> RegNone) srcs) = false ->
  rf_fetch (p_regs s) wid srcs = Some (flat_read F wid <$> srcs).
Proof using.
  intros Hi Hw Hs Hb. destruct (pi_regs _ _ Hi) as (G & HG & Hv). rewrite (rf_fetch_rep _ G) by done. f_equal.
  apply list_fmap_ext. intros i r Er. unfold flat_read. apply list_fmap_ext. intros j t Et.
  apply list_elem_of_lookup_2, elem_of_range in Et. destruct (bool_decide_reflect (reg_type r = RegNone)) as [|Hn]; [done|].
  symmetry. apply list_elem_of_lookup_2 in Er. rewrite list.Forall_forall in Hs. destruct (Hs r Er) as [|Hr]; [done|].
  apply Hv; [done..|]. intros Hin. assert (existsb (busy (p_sb s) wid) (filter (fun r => reg_type r <> RegNone) srcs) = true); [|congruence].
  apply existsb_exists. exists r. split; [apply list_elem_of_In, list_elem_of_filter; by split|]. by apply bool_decide_eq_true.
Qed.

Lemma covers_pkts p t : 0 <= t < NUM_THREADS -> covers (pkts p) t = m_test (tmask p) t.
Proof using traces_ok.
  intros Ht. pose proof (ok_split _ (traces_ok p) t Ht) as Hl. unfold covers. destruct (m_test (tmask p) t).
  - apply existsb_exists. destruct (filter _ (pkts p)) as [|m l] eqn:E; [done|]. exists m.
    assert (m ∈ m :: l) as Hm by left. rewrite <- E in Hm. apply list_elem_of_filter in Hm as [? ?]. by rewrite <- list_elem_of_In.
  - apply not_true_iff_false. intros (m & Hm & Hmt)%existsb_exists. apply list_elem_of_In in Hm.
    apply length_zero_iff_nil in Hl. assert (m ∈ filter (fun m => m_test m t = true) (pkts p)) as Hin by (by apply list_elem_of_filter).
    rewrite Hl in Hin. by apply elem_of_nil in Hin.
Qed.

(** Two in-flight writers write different registers. *)
Lemma flight_distinct F s p q f g :
  pinv F s -> p_flight s !! p = Some f -> p_flight s !! q = Some g -> tr_wb (heap p) = true -> tr_wb (heap q) = true ->
  rid p = rid q -> p = q.
Proof using.
  intros Hi Ep Eq Hp Hq E. pose proof (pi_owner _ _ Hi _ _ Ep Hp) as Op. pose proof (pi_owner _ _ Hi _ _ Eq Hq) as Oq. congruence.
Qed.

Lemma owner_writer F s id p : pinv F s -> owners_ (p_sb s) !! id = Some p -> id = rid p /\ tr_wb (heap p) = true.
Proof using. intros Hi E. destruct (inv_owner _ _ (pi_sb _ _ Hi) _ _ E) as [? [? _]]. done. Qed.

Lemma issue_reader F s p ops :
  pinv F s -> p_flight s !! p = None -> tr_wb (heap p) = false ->
  pinv (seq_exec F p) (mk_pipe (p_regs s) (p_sb s) (<[p := mk_flight ops (pkts p)]> (p_flight s))).
Proof using traces_ok.
  intros Hi Hnf Hw. destruct (ok_pkts _ (traces_ok p)) as [Hlp Hnp].
  assert (forall id q, owners_ (p_sb s) !! id = Some q -> q <> p) as Hne by (intros id q E ->; apply (owner_writer F s) in E as [_ ?]; [congruence | done]).
  constructor; cbn [p_sb p_flight p_regs]; try apply Hi.
  - intros q f [[<- _]|[_ E]]%lookup_insert_Some Hq; [congruence | by eapply pi_owner].
  - intros id q E. rewrite lookup_insert_ne by (symmetry; by eapply Hne). by eapply pi_flight.
  - intros id. pose proof (pi_count _ _ Hi id) as Hc. destruct (owners_ (p_sb s) !! id) as [q|] eqn:E; [|done].
    rewrite lookup_insert_ne by (symmetry; by eapply Hne). done.
  - intros q f [[<- <-]|[_ E]]%lookup_insert_Some; [|by apply (pi_rem _ _ Hi q)]. cbn [fl_rem]. split_and!.
    + intros E. rewrite E in Hlp. cbn in Hlp. lia.
    + lia.
    + intros t Ht. rewrite (ok_split _ (traces_ok p)) by done. destruct (m_test _ t); lia.
  - destruct (pi_regs _ _ Hi) as (G & HG & Hv). exists G. split; [done|]. intros wid r t H1 H2 H3. unfold seq_exec.
    rewrite decide_False by (intros [? _]; congruence). destruct (Hv wid r t H1 H2 H3) as [Ha Hb]. split; [|done].
    intros q f [[<- _]|[_ E]]%lookup_insert_Some; [congruence | by apply Ha].
Qed.

Lemma issue_writer F s p :
  pinv F s -> p_flight s !! p = None -> tr_wb (heap p) = true -> (tr_wid (heap p), tr_dst_reg (heap p)) ∉ in_use_regs_ (p_sb s) ->
  exists sb, reserve heap (p_sb s) p = Some sb /\
    pinv (seq_exec F p) (mk_pipe (p_regs s) sb
      (<[p := mk_flight (flat_read F (tr_wid (heap p)) <$> tr_src_regs (heap p)) (pkts p)]> (p_flight s))).
Proof using Hok traces_ok.
  intros Hi Hnf Hw Hn. pose proof (writer_of p Hw) as Hwr. destruct (ok_pkts _ (traces_ok p)) as [Hlp Hnp].
  pose proof (idle_no_owner _ _ _ (pi_sb _ _ Hi) Hwr Hn) as Ho. unfold reserve. rewrite Hw, Ho. cbn [negb]. eexists. split; [done|].
  assert (forall id q, owners_ (p_sb s) !! id = Some q -> q <> p /\ id <> rid p) as Hne.
  { intros id q E. destruct (pi_flight _ _ Hi _ _ E) as [f Ef]. split; intros ->; congruence. }
  constructor; cbn [p_sb p_flight p_regs owners_ commit_counts_ pending_reserve_ in_use_regs_].
  - apply add_owner; [apply Hi | done | done].
  - apply Hi.
  - intros q f [[<- _]|[Hq E]]%lookup_insert_Some Hqw; [by rewrite lookup_insert_eq|].
    pose proof (pi_owner _ _ Hi _ _ E Hqw) as Oq. rewrite lookup_insert_ne; [done|]. symmetry. by eapply Hne.
  - intros id q [[_ <-]|[_ E]]%lookup_insert_Some; [eexists; apply lookup_insert_eq|].
    rewrite lookup_insert_ne by (symmetry; by eapply Hne). by eapply pi_flight.
  - intros id. pose proof (pi_count _ _ Hi id) as Hc. destruct (decide (id = rid p)) as [->|Hid].
    + rewrite lookup_insert_eq. intros f. rewrite lookup_insert_eq. intros [= <-]. rewrite Ho in Hc. rewrite Hc. cbn. lia.
    + rewrite lookup_insert_ne by done. destruct (owners_ (p_sb s) !! id) as [q|] eqn:E; [|done].
      rewrite lookup_insert_ne by (symmetry; by eapply Hne). done.
  - intros q f [[<- <-]|[_ E]]%lookup_insert_Some; [|by apply (pi_rem _ _ Hi q)]. cbn [fl_rem]. split_and!.
    + intros E. rewrite E in Hlp. cbn in Hlp. lia.
    + lia.
    + intros t Ht. rewrite (ok_split _ (traces_ok p)) by done. destruct (m_test _ t); lia.
  - destruct (pi_regs _ _ Hi) as (G & HG & Hv). exists G. split; [done|]. intros wid r t H1 H2 H3.
    destruct (Hv wid r t H1 H2 H3) as [Ha Hb]. split.
    + intros q f [[<- <-]|[Hq E]]%lookup_insert_Some Hqw <- <-; cbn [fl_rem fl_ops]; unfold seq_exec.
      * rewrite covers_pkts by done. destruct (m_test (tmask p) t) eqn:Em; [rewrite decide_True by done; by rewrite Hb|].
        rewrite decide_False by (intros (_ & _ & _ & ?); congruence). by apply Hb.
      * rewrite decide_False; [by apply Ha|]. intros (_ & E1 & E2 & _). apply Hn.
        apply (inv_busy _ _ (pi_sb _ _ Hi)). exists q. rewrite <- E1, <- E2. split; [by eapply pi_owner | done].
    + rewrite elem_of_union, elem_of_singleton. intros Hni. unfold seq_exec. rewrite decide_False by (intros (_ & -> & -> & _); apply Hni; by left).
      apply Hb. intros Hin. apply Hni. by right.
Qed.

Lemma pipe_issue_inv F s p :
  pinv F s -> p_flight s !! p = None -> in_use heap (p_sb s) p = Some false ->
  exists s', issue s p = Some s' /\ pinv (seq_exec F p) s'.
Proof using Hok traces_ok.
  intros Hi Hnf Hu. pose proof (traces_ok p) as Ht. unfold issue. rewrite Hu. cbn [mbind option_bind].
  unfold in_use in Hu. destruct (tr_wb (heap p) && _) eqn:Ew; [done|]. injection Hu as Hu. apply orb_false_iff in Hu as [Hd Hs].
  rewrite (fetch_sequential F s) by (done || apply Ht). cbn [mbind option_bind]. destruct (tr_wb (heap p)) eqn:Hw.
  - destruct (issue_writer F s p Hi Hnf Hw) as (sb & E & Hinv); [by apply bool_decide_eq_false in Hd|].
    rewrite E. cbn [mbind option_bind]. by eexists.
  - cbn [mbind option_bind]. eexists. split; [done|]. by apply issue_reader.
Qed.

(** ** Commit *)

Lemma covers_delete l k m t : l !! k = Some m -> covers l t = m_test m t || covers (delete k l) t.
Proof using.
  revert k. induction l as [|x l IH]; intros k E; [done|]. destruct k as [|k]; cbn in *; [by injection E as <-|].
  unfold covers in *. cbn. rewrite (IH k E). by rewrite !orb_assoc, (orb_comm (m_test x t)).
Qed.

Lemma count_delete l k m t : l !! k = Some m ->
  length (filter (fun m => m_test m t = true) l) =
  ((if m_test m t then 1 else 0) + length (filter (fun m => m_test m t = true) (delete k l)))%nat.
Proof using.
  revert k. induction l as [|x l IH]; intros k E; [done|]. destruct k as [|k].
  - injection E as ->. cbn [delete list_delete]. destruct (m_test m t) eqn:Em.
    + by rewrite list.filter_cons_True.
    + by rewrite list.filter_cons_False by congruence.
  - cbn in E. specialize (IH k E). cbn [delete list_delete]. destruct (decide (m_test x t = true)) as [Ex|Ex].
    + rewrite !list.filter_cons_True by done. cbn [length]. rewrite IH. symmetry. apply Nat.add_succ_r.
    + rewrite !list.filter_cons_False by done. done.
Qed.

Lemma covers_count l t : length (filter (fun m => m_test m t = true) l) = 0%nat -> covers l t = false.
Proof using.
  intros Hl. apply not_true_iff_false. intros (m & Hm & Hmt)%existsb_exists. apply list_elem_of_In in Hm.
  apply length_zero_iff_nil in Hl. assert (m ∈ filter (fun m => m_test m t = true) l) as Hin by (by apply list_elem_of_filter).
  rewrite Hl in Hin. by apply elem_of_nil in Hin.
Qed.

(** Committing a packet of a trace that writes no register. *)
Lemma commit_reader F s p f k m :
  pinv F s -> p_flight s !! p = Some f -> fl_rem f !! k = Some m -> tr_wb (heap p) = false ->
  exists s', commit s p k = Some s' /\ pinv F s'.
Proof using.
  intros Hi Ef Em Hw. unfold commit. rewrite Ef. cbn [mbind option_bind]. rewrite Em. cbn [mbind option_bind]. rewrite Hw.
  eexists. split; [done|]. destruct (pi_rem _ _ Hi _ _ Ef) as (Hne & Hlen & Hcnt).
  assert (forall id q, owners_ (p_sb s) !! id = Some q -> q <> p) as Hno by (intros id q E ->; apply (owner_writer F s) in E as [_ ?]; [congruence | done]).
  pose proof (length_delete (fl_rem f) k (mk_is_Some _ _ Em)) as Hl. pose proof (lookup_lt_Some _ _ _ Em).
  set (fl' := if bool_decide _ then _ else _).
  assert (forall q, q <> p -> fl' !! q = p_flight s !! q) as Hfl.
  { intros q Hq. subst fl'. case_bool_decide; [by rewrite lookup_delete_ne | by rewrite lookup_insert_ne]. }
  assert (forall q g, fl' !! q = Some g -> q = p \/ p_flight s !! q = Some g) as Hback.
  { intros q g E. destruct (decide (q = p)) as [|Hq]; [by left|]. right. by rewrite <- Hfl. }
  constructor; cbn [p_sb p_flight p_regs]; try apply Hi.
  - intros q g E Hq. destruct (Hback q g E) as [->|E']; [congruence | by eapply pi_owner].
  - intros id q E. rewrite Hfl by (by eapply Hno). by eapply pi_flight.
  - intros id. pose proof (pi_count _ _ Hi id) as Hc. destruct (owners_ (p_sb s) !! id) as [q|] eqn:E; [|done].
    by rewrite Hfl by (by eapply Hno).
  - intros q g E. destruct (decide (q = p)) as [->|Hq]; [|apply (pi_rem _ _ Hi q); by rewrite <- Hfl].
    subst fl'. case_bool_decide as Hr; [by rewrite lookup_delete_eq in E|]. rewrite lookup_insert_eq in E. injection E as <-.
    cbn [fl_rem]. split_and!; [done | lia|]. intros t Ht. specialize (Hcnt t Ht). rewrite (count_delete _ _ _ t Em) in Hcnt. lia.
  - destruct (pi_regs _ _ Hi) as (G & HG & Hv). exists G. split; [done|]. intros wid r t H1 H2 H3.
    destruct (Hv wid r t H1 H2 H3) as [Ha Hb]. split; [|done]. intros q g E Hq. destruct (Hback q g E) as [->|E']; [congruence | by apply Ha].
Qed.

(** The registers after a packet of a writer is written back. *)
Lemma commit_regs F s p f k m :
  pinv F s -> p_flight s !! p = Some f -> fl_rem f !! k = Some m -> tr_wb (heap p) = true ->
  exists regs G, rf_write (p_regs s) (tr_wid (heap p)) (tr_dst_reg (heap p)) (tr_dst_bytesel (heap p)) m
      (result p (fl_ops f) <$> range NUM_THREADS) = Some regs
    /\ rf_rep regs G
    /\ forall wid r t, 0 <= wid < NUM_WARPS -> reg_valid r -> 0 <= t < NUM_THREADS ->
      (forall q g, p_flight s !! q = Some g -> q <> p -> tr_wb (heap q) = true -> tr_wid (heap q) = wid -> tr_dst_reg (heap q) = r ->
         F wid r t = if covers (fl_rem g) t then merged q (G wid r t) (result q (fl_ops g) t) else G wid r t) /\
      (tr_wid (heap p) = wid -> tr_dst_reg (heap p) = r ->
         F wid r t = if covers (delete k (fl_rem f)) t then merged p (G wid r t) (result p (fl_ops f) t) else G wid r t) /\
      ((wid, r) ∉ in_use_regs_ (p_sb s) -> F wid r t = G wid r t).
Proof using Hok traces_ok.
  intros Hi Ef Em Hw. pose proof (traces_ok p) as Hp. destruct (pi_regs _ _ Hi) as (G & HG & Hv). pose proof num_threads_ok.
  destruct (rf_write_rep (p_regs s) G (tr_wid (heap p)) (tr_dst_reg (heap p)) (tr_dst_bytesel (heap p)) m
    (result p (fl_ops f) <$> range NUM_THREADS)) as (regs & E & HG');
    [done | by apply ok_warp | by apply ok_dst | unfold range; rewrite !length_fmap, length_seq; lia|].
  exists regs. eexists. split; [exact E|]. split; [exact HG'|]. intros wid r t H1 H2 H3. destruct (Hv wid r t H1 H2 H3) as [Ha Hb].
  unfold flat_write. rewrite vget_fmap_range by done. split_and!.
  - intros q g Eg Hq Hqw <- <-. rewrite decide_False; [by apply Ha|]. intros (Ewid & Er & _). apply Hq.
    eapply (flight_distinct F s); [done..|]. by rewrite Ewid, Er.
  - intros <- <-. specialize (Ha p f Ef Hw eq_refl eq_refl). rewrite (covers_delete _ _ _ t Em) in Ha.
    destruct (pi_rem _ _ Hi _ _ Ef) as (_ & _ & Hcnt). specialize (Hcnt t H3). rewrite (count_delete _ _ _ t Em) in Hcnt.
    destruct (m_test m t) eqn:Emt; cbn [orb] in Ha.
    + rewrite decide_True by done. rewrite Ha, covers_count by lia. done.
    + rewrite decide_False by (intros (_ & _ & ?); congruence). done.
  - intros Hn. rewrite decide_False; [by apply Hb|]. intros (-> & -> & _). apply Hn.
    apply (inv_busy _ _ (pi_sb _ _ Hi)). exists p. split; [|done]. by eapply pi_owner.
Qed.

(** Committing the last packet of a writer releases its register. *)
Lemma commit_last F s p f k m :
  pinv F s -> p_flight s !! p = Some f -> fl_rem f !! k = Some m -> tr_wb (heap p) = true -> delete k (fl_rem f) = [] ->
  exists s', commit s p k = Some s' /\ pinv F s'.
Proof using Hok traces_ok.
  intros Hi Ef Em Hw Hr. destruct (commit_regs _ _ _ _ _ _ Hi Ef Em Hw) as (regs & G & Er & HG & Hv).
  pose proof (pi_owner _ _ Hi _ _ Ef Hw) as Ho. pose proof (pi_count _ _ Hi (rid p)) as Hc. rewrite Ho in Hc. specialize (Hc f Ef).
  pose proof (length_delete (fl_rem f) k (mk_is_Some _ _ Em)) as Hl. rewrite Hr in Hl. pose proof (lookup_lt_Some _ _ _ Em). cbn in Hl.
  destruct (ok_pkts _ (traces_ok p)) as [_ Hnp]. pose proof (owner_busy _ _ _ (pi_sb _ _ Hi) Ho) as Hbusy.
  unfold commit. rewrite Ef. cbn [mbind option_bind]. rewrite Em. cbn [mbind option_bind]. rewrite Hw, Er, Hr, bool_decide_eq_true_2 by done.
  unfold commit_packet. cbn [mbind option_bind]. rewrite Hc, u32_small by lia. rewrite (proj2 (Z.leb_le _ _)) by lia.
  unfold release, busy. cbn [owners_ in_use_regs_ pending_reserve_ commit_counts_]. unfold busy in Hbusy.
  rewrite Hw, Hbusy, Ho, (pi_pend _ _ Hi), lookup_empty. cbn [negb mbind option_bind]. eexists. split; [done|].
  assert (forall id q, delete (rid p) (owners_ (p_sb s)) !! id = Some q -> q <> p /\ id <> rid p /\ owners_ (p_sb s) !! id = Some q) as Hne.
  { intros id q [Hid E]%lookup_delete_Some. split_and!; [|done..]. intros ->. destruct (owner_writer F s _ _ Hi E). congruence. }
  constructor; cbn [p_sb p_flight p_regs owners_ commit_counts_ pending_reserve_ in_use_regs_].
  - rewrite <- (pi_pend _ _ Hi). apply (del_owner heap (p_sb s)); [apply Hi | done | by rewrite (pi_pend _ _ Hi), lookup_empty].
  - done.
  - intros q g [Hq E]%lookup_delete_Some Hqw. pose proof (pi_owner _ _ Hi _ _ E Hqw) as Oq. rewrite lookup_delete_ne; [done|].
    intros Eid. apply Hq. rewrite <- Eid, Ho in Oq. congruence.
  - intros id q E. destruct (Hne _ _ E) as (Hq & _ & E'). rewrite lookup_delete_ne by done. by eapply pi_flight.
  - intros id. destruct (decide (id = rid p)) as [->|Hid]; [by rewrite !lookup_delete_eq|].
    rewrite !lookup_delete_ne, lookup_insert_ne by done. pose proof (pi_count _ _ Hi id) as Hc'.
    destruct (owners_ (p_sb s) !! id) as [q|] eqn:E; [|done]. rewrite lookup_delete_ne; [done|].
    intros ->. destruct (owner_writer F s _ _ Hi E). congruence.
  - intros q g [Hq E]%lookup_delete_Some. by apply (pi_rem _ _ Hi q).
  - exists G. split; [done|]. intros wid r t H1 H2 H3. destruct (Hv wid r t H1 H2 H3) as (Ha & Hb & Hd). split.
    + intros q g [Hq E]%lookup_delete_Some. by apply Ha.
    + rewrite not_elem_of_difference, elem_of_singleton. intros [Hn|[= -> ->]]; [by apply Hd|]. specialize (Hb eq_refl eq_refl).
      by rewrite Hr in Hb.
Qed.

Lemma commit_more F s p f k m :
  pinv F s -> p_flight s !! p = Some f -> fl_rem f !! k = Some m -> tr_wb (heap p) = true -> delete k (fl_rem f) <> [] ->
  exists s', commit s p k = Some s' /\ pinv F s'.
Proof using Hok traces_ok.
  intros Hi Ef Em Hw Hr. destruct (commit_regs _ _ _ _ _ _ Hi Ef Em Hw) as (regs & G & Er & HG & Hv).
  pose proof (pi_owner _ _ Hi _ _ Ef Hw) as Ho. pose proof (pi_count _ _ Hi (rid p)) as Hc. rewrite Ho in Hc. specialize (Hc f Ef).
  pose proof (length_delete (fl_rem f) k (mk_is_Some _ _ Em)) as Hl. pose proof (lookup_lt_Some _ _ _ Em).
  assert (length (delete k (fl_rem f)) <> 0%nat) as Hl0 by (by intros ?%length_zero_iff_nil).
  destruct (ok_pkts _ (traces_ok p)) as [_ Hnp]. destruct (pi_rem _ _ Hi _ _ Ef) as (_ & Hlen & Hcnt).
  unfold commit. rewrite Ef. cbn [mbind option_bind]. rewrite Em. cbn [mbind option_bind]. rewrite Hw, Er, bool_decide_eq_false_2 by done.
  unfold commit_packet. cbn [mbind option_bind]. rewrite Hc, u32_small by lia. rewrite (proj2 (Z.leb_gt _ _)) by lia. cbn [mbind option_bind].
  eexists. split; [done|].
  constructor; cbn [p_sb p_flight p_regs owners_ commit_counts_ pending_reserve_ in_use_regs_].
  - destruct (pi_sb _ _ Hi). by constructor.
  - apply Hi.
  - intros q g [[<- _]|[_ E]]%lookup_insert_Some Hqw; [done|]. by eapply pi_owner.
  - intros id q E. destruct (decide (q = p)) as [->|Hq]; [eexists; apply lookup_insert_eq|]. rewrite lookup_insert_ne by done. by eapply pi_flight.
  - intros id. destruct (decide (id = rid p)) as [->|Hid].
    + rewrite Ho. intros g. rewrite !lookup_insert_eq. intros [= <-]. cbn [from_option fl_rem]. unfold id. rewrite Hl. lia.
    + rewrite lookup_insert_ne by done. pose proof (pi_count _ _ Hi id) as Hc'. destruct (owners_ (p_sb s) !! id) as [q|] eqn:E; [|done].
      rewrite lookup_insert_ne; [done|]. intros <-. destruct (owner_writer F s _ _ Hi E). congruence.
  - intros q g [[<- <-]|[_ E]]%lookup_insert_Some; [|by apply (pi_rem _ _ Hi q)]. cbn [fl_rem]. split_and!; [done | lia|].
    intros t Ht. specialize (Hcnt t Ht). rewrite (count_delete _ _ _ t Em) in Hcnt. lia.
  - exists G. split; [done|]. intros wid r t H1 H2 H3. destruct (Hv wid r t H1 H2 H3) as (Ha & Hb & Hd). split; [|done].
    intros q g [[<- <-]|[Hq E]]%lookup_insert_Some; [by intros _; apply Hb | by apply Ha].
Qed.

Lemma pipe_commit_inv F s p f k m :
  pinv F s -> p_flight s !! p = Some f -> fl_rem f !! k = Some m -> exists s', commit s p k = Some s' /\ pinv F s'.
Proof using Hok traces_ok.
  intros Hi Ef Em. destruct (tr_wb (heap p)) eqn:Hw; [|by eapply commit_reader].
  destruct (decide (delete k (fl_rem f) = [])); [by eapply commit_last | by eapply commit_more].
Qed.

Lemma reach_inv iss s : pipe_reach iss s -> pinv (seq_run iss) s.
Proof using Hok traces_ok.
  induction 1 as [|iss s p s' _ IH Hnf E|iss s p k s' _ IH E]; [apply pipe_new_inv|..].
  - destruct (in_use heap (p_sb s) p) as [[]|] eqn:Hu; unfold issue in E; rewrite Hu in E; cbn [mbind option_bind] in E; [done| |done].
    destruct (pipe_issue_inv _ _ _ IH Hnf Hu) as (s1 & E1 & Hi). unfold issue in E1. rewrite Hu in E1. cbn [mbind option_bind] in E1.
    rewrite E in E1. injection E1 as <-. done.
  - unfold commit in E. destruct (p_flight s !! p) as [f|] eqn:Ef; [|done]. cbn [mbind option_bind] in E.
    destruct (fl_rem f !! k) as [m|] eqn:Em; [|done].
    destruct (pipe_commit_inv _ _ _ _ _ _ IH Ef Em) as (s1 & E1 & Hi). unfold commit in E1. rewrite Ef in E1.
    cbn [mbind option_bind] in E1. rewrite Em in E1. cbn [mbind option_bind] in E, E1. rewrite E in E1. by injection E1 as <-.
Qed.

(** ** Draining *)

(** The packets still in flight. *)
Definition outstanding (s : pipe) : nat := map_fold (fun _ f n => length (fl_rem f) + n)%nat 0%nat (p_flight s).

Definition commit_step (s s' : pipe) : Prop := exists p k, commit s p k = Some s'.

Lemma issue_flight s p s' : issue s p = Some s' -> exists ops, p_flight s' = <[p := mk_flight ops (pkts p)]> (p_flight s).
Proof using.
  unfold issue. intros (used & _ & E)%bind_Some. destruct used; [done|].
  apply bind_Some in E as (ops & _ & (sb & _ & [= <-])%bind_Some). by exists ops.
Qed.

Lemma commit_flight s p k s' :
  commit s p k = Some s' -> exists f m, p_flight s !! p = Some f /\ fl_rem f !! k = Some m /\
    p_flight s' = if bool_decide (delete k (fl_rem f) = []) then delete p (p_flight s)
                  else <[p := mk_flight (fl_ops f) (delete k (fl_rem f))]> (p_flight s).
Proof using.
  unfold commit. intros E. destruct (p_flight s !! p) as [f|] eqn:Ef; [|done]. cbn [mbind option_bind] in E.
  destruct (fl_rem f !! k) as [m|] eqn:Em; [|done]. cbn [mbind option_bind] in E. exists f, m. split_and!; [done..|].
  destruct (tr_wb (heap p)); [|by injection E as <-]. destruct (rf_write _ _ _ _ _ _); [|done]. cbn [mbind option_bind] in E.
  destruct (commit_packet _ _ _) as [fin sb]. destruct (if fin then _ else _); [|done]. cbn [mbind option_bind] in E. by injection E as <-.
Qed.

Lemma commit_outstanding s s' : commit_step s s' -> outstanding s = S (outstanding s').
Proof using.
  intros (p & k & (f & m & Ef & Em & E)%commit_flight). unfold outstanding. rewrite E.
  rewrite (map_fold_delete_L _ _ p f (p_flight s)) by (done || intros; lia).
  pose proof (length_delete (fl_rem f) k (mk_is_Some _ _ Em)) as Hl. pose proof (lookup_lt_Some _ _ _ Em).
  case_bool_decide as Hd.
  - rewrite Hd in Hl. cbn in Hl. lia.
  - rewrite <- insert_delete_eq, map_fold_insert_L; [cbn [fl_rem]; lia | intros; lia | apply lookup_delete_eq].
Qed.

Lemma outstanding_flight F s : pinv F s -> p_flight s <> ∅ -> exists s', commit_step s s'.
Proof using Hok traces_ok.
  intros Hi (p & f & Ef)%map_choose. destruct (pi_rem _ _ Hi _ _ Ef) as (Hn & _). destruct (fl_rem f) as [|m l] eqn:E; [done|].
  destruct (pipe_commit_inv F s p f 0 m Hi Ef) as (s' & Es & _); [by rewrite E|]. exists s', p, 0%nat. done.
Qed.

Lemma drained_issue F s p : pinv F s -> p_flight s = ∅ -> is_Some (issue s p).
Proof using Hok traces_ok.
  intros Hi He. destruct (in_use_exact heap (p_sb s) p (pi_sb _ _ Hi) (writer_of p)) as (b & Eb & Hb).
  destruct b; [|destruct (pipe_issue_inv F s p Hi) as (s' & E & _); [by rewrite He | done | by eexists]].
  destruct (proj1 Hb eq_refl) as (o & r & Eo & _). destruct (pi_flight _ _ Hi _ _ Eo) as [f Ef]. by rewrite He, lookup_empty in Ef.
Qed.

(** ** Properties *)

(** C6. Out-of-order completion does not change the result: after any
    interleaving of issues and packet commits, in any order, that leaves no
    packet in flight, the registers of every warp hold what executing the
    issued instructions one after the other, each in one step on all its
    active threads and writing the bytes of its byte select, would leave
    there.  While packets are in flight, a register that the scoreboard does
    not hold already has its sequential value. *)
Theorem pipeline_sequential iss s :
  pipe_reach iss s ->
  exists G, rf_rep (p_regs s) G /\
    (forall wid r t, 0 <= wid < NUM_WARPS -> reg_valid r -> 0 <= t < NUM_THREADS ->
      (busy (p_sb s) wid r = false \/ p_flight s = ∅) -> G wid r t = seq_run iss wid r t).
Proof using Hok traces_ok.
  intros Hi%reach_inv. destruct (pi_regs _ _ Hi) as (G & HG & Hv). exists G. split; [done|]. intros wid r t H1 H2 H3 H4.
  destruct (Hv wid r t H1 H2 H3) as [_ Hb]. symmetry. apply Hb. destruct H4 as [Hn|He]; [by apply bool_decide_eq_false in Hn|].
  intros (p & Eo & _)%(inv_busy _ _ (pi_sb _ _ Hi)). destruct (pi_flight _ _ Hi _ _ Eo) as [f Ef]. by rewrite He, lookup_empty in Ef.
Qed.

(** C22. The stages never deadlock: in every reachable state each packet in
    flight can be committed without failing an assertion of the scoreboard or
    of the register file, each commit takes one packet out of flight, so after
    exactly as many commits as there are packets, in whatever order, nothing
    is in flight; and then every instruction can issue. *)
Theorem pipeline_drains iss s :
  pipe_reach iss s ->
  (forall p f k m, p_flight s !! p = Some f -> fl_rem f !! k = Some m -> is_Some (commit s p k)) /\
  (forall n s', nsteps commit_step n s s' -> (n <= outstanding s)%nat /\
     (n = outstanding s -> p_flight s' = ∅ /\ forall p, is_Some (issue s' p)) /\
     ((n < outstanding s)%nat -> exists s'', commit_step s' s'')).
Proof using Hok traces_ok.
  intros Hr. split.
  - intros p f k m Ef Em. destruct (pipe_commit_inv _ _ _ _ _ _ (reach_inv _ _ Hr) Ef Em) as (s' & E & _). by eexists.
  - intros n s' Hn. assert (outstanding s = n + outstanding s' /\ pipe_reach iss s')%nat as [Ho Hr'].
    { revert Hr. induction Hn as [s|n s s1 s' Hs _ IH]; intros Hr; [done|]. destruct IH as [IH ?].
      - destruct Hs as (p & k & E). by eapply reach_commit.
      - pose proof (commit_outstanding _ _ Hs). split; [lia | done]. }
    assert (outstanding s' = 0%nat <-> p_flight s' = ∅) as He.
    { split; intros E0; [|unfold outstanding; rewrite E0; apply map_fold_empty]. destruct (decide (p_flight s' = ∅)) as [|Hne]; [done|].
      destruct (outstanding_flight _ _ (reach_inv _ _ Hr') Hne) as (s'' & Hs). pose proof (commit_outstanding _ _ Hs). lia. }
    split_and!; [lia|..].
    + intros En. assert (p_flight s' = ∅) as E0 by (apply He; lia). split; [done|]. intros p. eapply drained_issue; [by apply reach_inv | done].
    + intros Hlt. apply (outstanding_flight (seq_run iss)); [by apply reach_inv|]. intros E0%He. lia.
Qed.
End Pipeline.

(** ** Witnesses *)

#[local] Existing Instances default_config default_config_ok opc_config opc_config_ok.

(** Trace 1 adds 0x101 to x5 in two packets; every other trace puts the low byte
    of x5 plus 0x101 into x6 in one packet. *)
Definition inc_heap (p : tid) : instr_trace_t :=
  match p with
  | 1%positive => mk_trace 0 true (mk_reg RegInteger 5) [mk_reg RegInteger 5] 2 false 7 0 0 0xFF
  | _ => mk_trace 0 true (mk_reg RegInteger 6) [mk_reg RegInteger 5] 1 false 8 0 0 0x01
  end.
Definition inc_pkts (p : tid) : list Mask.bits :=
  match p with
  | 1%positive => [[true; true; false; false]; [false; false; true; true]]
  | _ => [[true; true; true; true]]
  end.
Definition inc_result (_ : tid) (ops : list (list Z)) (t : Z) : Z := (vget (ops !!! 0%nat) t + 0x101) mod 2 ^ 32.

#[local] Abbreviation inc_new := (pipe_new (R := CoreRegs) (M := Mask.bits)).
#[local] Abbreviation inc_issue := (issue (R := CoreRegs) inc_heap inc_pkts).
#[local] Abbreviation inc_commit := (commit (R := CoreRegs) inc_heap inc_result).
#[local] Abbreviation inc_reach := (pipe_reach (R := CoreRegs) inc_heap inc_pkts inc_result).

Lemma inc_ok p : trace_ok inc_heap (fun _ => [true; true; true; true]) inc_pkts p.
Proof.
  assert (forall t : Z, 0 <= t < 4 -> t = 0 \/ t = 1 \/ t = 2 \/ t = 3) as Hc by (intros; lia).
  destruct p; constructor; cbn [inc_heap inc_pkts tr_wid tr_src_regs tr_wb tr_dst_reg tr_num_pkts]; try (cbn; lia);
    try (apply Forall_singleton; right; split; [done | unfold MAX_NUM_REGS; cbn; lia]);
    try (intros; split; [done | unfold MAX_NUM_REGS; cbn; lia]); try (intros t Ht; destruct (Hc t Ht) as [->|[->|[->| ->]]]; reflexivity).
Qed.

(** The two packets of the first increment commit in reverse order. *)
Definition inc_run : option pipe :=
  s ← inc_issue inc_new 1%positive;
  s ← inc_commit s 1%positive 1;
  s ← inc_commit s 1%positive 0;
  s ← inc_issue s 2%positive;
  inc_commit s 2%positive 0.

Lemma inc_run_drained : exists s, inc_run = Some s /\ p_flight s = ∅.
Proof.
  assert (match inc_run with Some s => bool_decide (p_flight s = ∅) | None => false end = true) as Hr by (vm_compute; reflexivity).
  destruct inc_run as [s|]; [|done]. apply bool_decide_eq_true in Hr. by exists s.
Qed.

Lemma inc_run_reach s : inc_run = Some s -> inc_reach [2%positive; 1%positive] s.
Proof.
  unfold inc_run. intros (s1 & E1 & (s2 & E2 & (s3 & E3 & (s4 & E4 & E5)%bind_Some)%bind_Some)%bind_Some)%bind_Some.
  assert (p_flight s3 !! 2%positive = None) as Hn.
  { apply commit_flight in E2 as (f2 & m2 & F2 & _ & G2). apply commit_flight in E3 as (f3 & m3 & F3 & _ & G3).
    apply issue_flight in E1 as [ops G1].
    rewrite G3, G2, G1. repeat case_bool_decide; repeat (rewrite lookup_delete_ne by done || rewrite lookup_insert_ne by done); done. }
  eapply reach_commit; [|exact E5]. eapply reach_issue; [|exact Hn | exact E4]. eapply reach_commit; [|exact E3].
  eapply reach_commit; [|exact E2]. eapply reach_issue; [apply reach_new | reflexivity | exact E1].
Qed.

Lemma pipeline_sequential_witness :
  exists s G, inc_run = Some s /\ rf_rep (p_regs s) G /\ forall t, 0 <= t < 4 -> G 0 (mk_reg RegInteger 6) t = 2.
Proof.
  destruct inc_run_drained as (s & E & He).
  destruct (pipeline_sequential inc_heap (fun _ => [true; true; true; true]) inc_pkts inc_result inc_ok _ s (inc_run_reach s E))
    as (G & HG & Hv).
  exists s, G. split; [exact E|]. split; [exact HG|]. intros t Ht. rewrite Hv.
  - assert (t = 0 \/ t = 1 \/ t = 2 \/ t = 3) as [->|[->|[->| ->]]] by lia; reflexivity.
  - cbn. lia.
  - split; [done | unfold MAX_NUM_REGS; cbn; lia].
  - exact Ht.
  - by right.
Defined.

Lemma pipeline_drains_witness :
  exists s, inc_issue inc_new 1%positive = Some s /\ outstanding s = 2%nat /\ is_Some (inc_commit s 1%positive 0) /\
    forall s', nsteps (commit_step inc_heap inc_result) 2 s s' -> forall p, is_Some (inc_issue s' p).
Proof.
  destruct inc_run_drained as (s0 & (s & E & _)%bind_Some & _). exists s.
  assert (inc_reach [1%positive] s) as Hr by (eapply reach_issue; [apply reach_new | reflexivity | exact E]).
  assert (outstanding s = 2%nat) as Ho by (vm_compute in E; injection E as <-; reflexivity).
  destruct (pipeline_drains inc_heap (fun _ => [true; true; true; true]) inc_pkts inc_result inc_ok _ s Hr) as [H1 H2].
  split; [exact E|]. split; [exact Ho|]. split.
  - destruct (p_flight s !! 1%positive) as [f|] eqn:Ef; [|vm_compute in E; injection E as <-; discriminate].
    destruct (fl_rem f) as [|m l] eqn:Em; [vm_compute in E; injection E as <-; injection Ef as <-; discriminate|].
    apply (H1 1%positive f 0%nat m); [exact Ef | by rewrite Em].
  - intros s' Hn. apply (H2 2%nat s' Hn). symmetry. exact Ho.
Defined.
