(* ===== verification/Scheduler.v ===== *)
(** * Warp scheduler — [sim/simx/scheduler.h], [scheduler.cpp]

    The scheduler owns the warps of a core: it activates the warps the CTA
    dispatcher, [wspawn] and the fragment work distributor start, picks the
    next ready warp each cycle, keeps the registered stall state, and takes
    and returns from traps.  The file models the whole class. *)

From S2P Require Import Prelude Mask Kmu Cta Instr Scoreboard.

(** [ipdom_entry_t] *)
Record ipdom_entry_t (M : Type) := mk_ipdom {
  orig_tmask : M;
  else_PC : Z;
  fallthrough : bool
}.
Arguments mk_ipdom {M}. Arguments orig_tmask {M}. Arguments else_PC {M}. Arguments fallthrough {M}.

(** [cta_csrs_t] *)
Record cta_csrs_t := mk_cta_csrs {
  csr_cta_id : Z;
  csr_cta_rank : Z;
  csr_cta_size : Z;
  csr_thread_idx : dim3;
  csr_block_idx : dim3;
  csr_block_dim : dim3;
  csr_grid_dim : dim3;
  csr_entry : Z;
  csr_lmem_addr : Z;
  csr_cluster_size : Z
}.

Definition cta_csrs_new : cta_csrs_t :=
  mk_cta_csrs 0 0 0 dim3_zero dim3_zero (Dim3 1 1 1) (Dim3 1 1 1) 0 0 1.

(** [warp_t]; the stack's top is the head of the list. *)
Record warp_t (M : Type) := mk_warp {
  ipdom_stack : list (ipdom_entry_t M);
  tmask : M;
  PC : Z;
  fcsr : Z;
  uuid : Z;
  mscratch : Z;
  mstatus : Z;
  mtvec : Z;
  mepc : Z;
  mcause : Z;
  mtval : Z;
  mscratch_tmask : M;
  cta_csrs : cta_csrs_t
}.
Arguments mk_warp {M}. Arguments ipdom_stack {M}. Arguments tmask {M}. Arguments PC {M}.
Arguments fcsr {M}. Arguments uuid {M}. Arguments mscratch {M}. Arguments mstatus {M}.
Arguments mtvec {M}. Arguments mepc {M}. Arguments mcause {M}. Arguments mtval {M}.
Arguments mscratch_tmask {M}. Arguments cta_csrs {M}.

(** [wspawn_t] *)
Record wspawn_t := mk_wspawn { ws_valid : bool; ws_num_warps : Z; ws_nextPC : Z }.

(** [Scheduler::FwdWave]; a payload is a [(pos_mask, pid)] pair per lane. *)
Record FwdWave (M : Type) := mk_wave { wave_tmask : M; wave_payload : list (Z * Z) }.
Arguments mk_wave {M}. Arguments wave_tmask {M}. Arguments wave_payload {M}.

(** The fragment work distributor's members. *)
Record fwd_t (M : Type) := mk_fwd {
  fwd_armed_ : bool;
  fwd_drained_ : bool;
  fwd_frag_entry_ : Z;
  fwd_frag_param_ : Z;
  fwd_launched_ : Z;
  fwd_retired_ : Z;
  fwd_reqs_outstanding_ : Z;
  fwd_waves_ : list (FwdWave M);
  fwd_is_fragment_ : gset Z
}.
Arguments mk_fwd {M}. Arguments fwd_armed_ {M}. Arguments fwd_drained_ {M}.
Arguments fwd_frag_entry_ {M}. Arguments fwd_frag_param_ {M}. Arguments fwd_launched_ {M}.
Arguments fwd_retired_ {M}. Arguments fwd_reqs_outstanding_ {M}. Arguments fwd_waves_ {M}.
Arguments fwd_is_fragment_ {M}.

(** [Scheduler]; the per-warp trap members are indexed by warp. *)
Record Scheduler (M : Type) := mk_sched {
  cta_dispatcher_ : CtaDispatcher;
  warps_ : list (warp_t M);
  active_warps_ : gset Z;
  stalled_warps_ : gset Z;
  stalled_warps_next_ : gset Z;
  in_async_trap_ : list bool;
  trap_epoch_ : list Z;
  last_mret_cycle_ : list Z;
  async_trap_snapshot_ : list (list tid);
  wspawn_ : wspawn_t;
  fwd_ : fwd_t M
}.
Arguments mk_sched {M}. Arguments cta_dispatcher_ {M}. Arguments warps_ {M}.
Arguments active_warps_ {M}. Arguments stalled_warps_ {M}. Arguments stalled_warps_next_ {M}.
Arguments in_async_trap_ {M}. Arguments trap_epoch_ {M}. Arguments last_mret_cycle_ {M}.
Arguments async_trap_snapshot_ {M}. Arguments wspawn_ {M}. Arguments fwd_ {M}.

(** The header [schedule] fills in a fresh trace. *)
Record sched_trace (M : Type) := mk_sched_trace {
  st_uuid : Z;
  st_wid : Z;
  st_cta_id : Z;
  st_PC : Z;
  st_tmask : M;
  st_trap_epoch : Z
}.
Arguments mk_sched_trace {M}. Arguments st_uuid {M}. Arguments st_wid {M}. Arguments st_cta_id {M}.
Arguments st_PC {M}. Arguments st_tmask {M}. Arguments st_trap_epoch {M}.

Section Scheduler.
Context `{VxConfig} `{HM : MaskSpec M}.

#[local] Abbreviation nwarps := (Z.to_nat NUM_WARPS).

(** [warp_t::warp_t] *)
Definition warp_new : warp_t M :=
  mk_warp [] (m_new NUM_THREADS) 0 0 0 0 0 0 0 0 0 (m_new NUM_THREADS) cta_csrs_new.

#[global] Instance warp_inhabited : Inhabited (warp_t M) := populate warp_new.

(** [warp_t::reset] *)
Definition warp_reset (w : warp_t M) : warp_t M :=
  mk_warp (ipdom_stack w) (m_clear (tmask w)) 0 0 0 (mscratch w) 0 0 0 0 0
    (m_clear (mscratch_tmask w)) (cta_csrs w).

(** Member updates. *)
Definition warp_set_PC (w : warp_t M) (pc : Z) : warp_t M :=
  mk_warp (ipdom_stack w) (tmask w) pc (fcsr w) (uuid w) (mscratch w) (mstatus w) (mtvec w) (mepc w)
    (mcause w) (mtval w) (mscratch_tmask w) (cta_csrs w).
Definition warp_set_tmask (w : warp_t M) (m : M) : warp_t M :=
  mk_warp (ipdom_stack w) m (PC w) (fcsr w) (uuid w) (mscratch w) (mstatus w) (mtvec w) (mepc w)
    (mcause w) (mtval w) (mscratch_tmask w) (cta_csrs w).
Definition warp_set_stack (w : warp_t M) (st : list (ipdom_entry_t M)) : warp_t M :=
  mk_warp st (tmask w) (PC w) (fcsr w) (uuid w) (mscratch w) (mstatus w) (mtvec w) (mepc w)
    (mcause w) (mtval w) (mscratch_tmask w) (cta_csrs w).

Definition set_warps (s : Scheduler M) (ws : list (warp_t M)) : Scheduler M :=
  mk_sched (cta_dispatcher_ s) ws (active_warps_ s) (stalled_warps_ s) (stalled_warps_next_ s)
    (in_async_trap_ s) (trap_epoch_ s) (last_mret_cycle_ s) (async_trap_snapshot_ s) (wspawn_ s) (fwd_ s).
Definition set_dispatcher (s : Scheduler M) (d : CtaDispatcher) : Scheduler M :=
  mk_sched d (warps_ s) (active_warps_ s) (stalled_warps_ s) (stalled_warps_next_ s)
    (in_async_trap_ s) (trap_epoch_ s) (last_mret_cycle_ s) (async_trap_snapshot_ s) (wspawn_ s) (fwd_ s).
Definition set_masks (s : Scheduler M) (active stalled next : gset Z) : Scheduler M :=
  mk_sched (cta_dispatcher_ s) (warps_ s) active stalled next
    (in_async_trap_ s) (trap_epoch_ s) (last_mret_cycle_ s) (async_trap_snapshot_ s) (wspawn_ s) (fwd_ s).
Definition set_wspawn (s : Scheduler M) (w : wspawn_t) : Scheduler M :=
  mk_sched (cta_dispatcher_ s) (warps_ s) (active_warps_ s) (stalled_warps_ s) (stalled_warps_next_ s)
    (in_async_trap_ s) (trap_epoch_ s) (last_mret_cycle_ s) (async_trap_snapshot_ s) w (fwd_ s).
Definition set_fwd (s : Scheduler M) (f : fwd_t M) : Scheduler M :=
  mk_sched (cta_dispatcher_ s) (warps_ s) (active_warps_ s) (stalled_warps_ s) (stalled_warps_next_ s)
    (in_async_trap_ s) (trap_epoch_ s) (last_mret_cycle_ s) (async_trap_snapshot_ s) (wspawn_ s) f.
Definition set_trap (s : Scheduler M) (ia : list bool) (ep lm : list Z) (sn : list (list tid)) : Scheduler M :=
  mk_sched (cta_dispatcher_ s) (warps_ s) (active_warps_ s) (stalled_warps_ s) (stalled_warps_next_ s)
    ia ep lm sn (wspawn_ s) (fwd_ s).

Definition warp (s : Scheduler M) (wid : Z) : warp_t M := vget (warps_ s) wid.
Definition upd_warp (s : Scheduler M) (wid : Z) (w : warp_t M) : Scheduler M :=
  set_warps s (vset (warps_ s) wid w).

Definition fwd_new : fwd_t M := mk_fwd false false 0 0 0 0 0 [] ∅.

(** [Scheduler::Scheduler] followed by the reset of the platform. *)
Definition Scheduler_new : Scheduler M :=
  mk_sched CtaDispatcher_new (replicate nwarps warp_new) ∅ ∅ ∅ (replicate nwarps false)
    (replicate nwarps 0) (replicate nwarps 0) (replicate nwarps []) (mk_wspawn false 0 0) fwd_new.

(** [Scheduler::on_reset]; the dispatcher is reset by the platform. *)
Definition on_reset (s : Scheduler M) : Scheduler M :=
  mk_sched (cta_dispatcher_ s) (warp_reset <$> warps_ s) ∅ ∅ ∅ (replicate nwarps false)
    (replicate nwarps 0) (last_mret_cycle_ s) (async_trap_snapshot_ s)
    (mk_wspawn false (ws_num_warps (wspawn_ s)) (ws_nextPC (wspawn_ s)))
    (mk_fwd false false (fwd_frag_entry_ (fwd_ s)) (fwd_frag_param_ (fwd_ s)) 0 0 0 [] ∅).

(** The CSR values [activate_warp] copies. *)
Definition csrs_of (r : cta_warp_record_t M) : cta_csrs_t :=
  mk_cta_csrs (rec_cta_id r) (rec_cta_rank r) (rec_cta_size r) (rec_thread_idx r) (rec_block_idx r)
    (rec_block_dim r) (rec_grid_dim r) (rec_entry r) (rec_lmem_addr r) (rec_cluster_size r).

(** [Scheduler::activate_warp] *)
Definition activate_warp (s : Scheduler M) (wid : Z) (r : cta_warp_record_t M) : Scheduler M :=
  let w := warp s wid in
  let w' := mk_warp [] (rec_tmask r) (if rec_do_init r then rec_PC r else word (PC w - 20)) (fcsr w)
              (uuid w) (rec_mscratch r) (mstatus w) (mtvec w) (mepc w) (mcause w) (mtval w)
              (mscratch_tmask w) (csrs_of r) in
  set_masks (upd_warp s wid w') ({[wid]} ∪ active_warps_ s) (stalled_warps_ s ∖ {[wid]})
    (stalled_warps_next_ s ∖ {[wid]}).

(** [Scheduler::suspend] and [Scheduler::resume]; [None] is a failed
    assertion. *)
Definition suspend (s : Scheduler M) (wid : Z) : option (Scheduler M) :=
  if bool_decide (wid ∈ active_warps_ s) && bool_decide (wid ∉ stalled_warps_next_ s)
  then Some (set_masks s (active_warps_ s) (stalled_warps_ s) ({[wid]} ∪ stalled_warps_next_ s))
  else None.

Definition resume (s : Scheduler M) (wid : Z) : option (Scheduler M) :=
  if bool_decide (wid ∈ active_warps_ s) && bool_decide (wid ∈ stalled_warps_next_ s)
  then Some (set_masks s (active_warps_ s) (stalled_warps_ s) (stalled_warps_next_ s ∖ {[wid]}))
  else None.

(** ** Fragment work distributor *)

Definition fwd_arm (s : Scheduler M) (frag_entry frag_param : Z) : Scheduler M :=
  set_fwd s (mk_fwd true false frag_entry frag_param 0 0 0 (fwd_waves_ (fwd_ s)) (fwd_is_fragment_ (fwd_ s))).

Definition fwd_wave_queue_full (s : Scheduler M) : bool :=
  NUM_WARPS <=? Z.of_nat (length (fwd_waves_ (fwd_ s))).

Definition fwd_push_wave (s : Scheduler M) (w : FwdWave M) : Scheduler M :=
  let f := fwd_ s in
  set_fwd s (mk_fwd (fwd_armed_ f) (fwd_drained_ f) (fwd_frag_entry_ f) (fwd_frag_param_ f) (fwd_launched_ f)
    (fwd_retired_ f) (fwd_reqs_outstanding_ f) (fwd_waves_ f ++ [w]) (fwd_is_fragment_ f)).

Definition fwd_mark_drained (s : Scheduler M) : Scheduler M :=
  let f := fwd_ s in
  set_fwd s (mk_fwd (fwd_armed_ f) true (fwd_frag_entry_ f) (fwd_frag_param_ f) (fwd_launched_ f)
    (fwd_retired_ f) (fwd_reqs_outstanding_ f) (fwd_waves_ f) (fwd_is_fragment_ f)).

(** [fwd_waves_.size() + fwd_reqs_outstanding_] is a [size_t]. *)
Definition fwd_can_request (s : Scheduler M) : bool :=
  let f := fwd_ s in
  negb (fwd_drained_ f) && (Z.of_nat (length (fwd_waves_ f)) + fwd_reqs_outstanding_ f <? NUM_WARPS).

Definition fwd_set_outstanding (s : Scheduler M) (n : Z) : Scheduler M :=
  let f := fwd_ s in
  set_fwd s (mk_fwd (fwd_armed_ f) (fwd_drained_ f) (fwd_frag_entry_ f) (fwd_frag_param_ f) (fwd_launched_ f)
    (fwd_retired_ f) n (fwd_waves_ f) (fwd_is_fragment_ f)).

Definition fwd_on_request (s : Scheduler M) : Scheduler M :=
  fwd_set_outstanding s (u32 (fwd_reqs_outstanding_ (fwd_ s) + 1)).

Definition fwd_on_response (s : Scheduler M) : Scheduler M :=
  if fwd_reqs_outstanding_ (fwd_ s) =? 0 then s
  else fwd_set_outstanding s (fwd_reqs_outstanding_ (fwd_ s) - 1).

Definition fwd_done (s : Scheduler M) : bool :=
  let f := fwd_ s in
  fwd_armed_ f && fwd_drained_ f && (match fwd_waves_ f with [] => true | _ => false end)
  && (fwd_reqs_outstanding_ f =? 0) && (fwd_launched_ f =? fwd_retired_ f).

Definition fwd_disarm (s : Scheduler M) : Scheduler M :=
  let f := fwd_ s in
  set_fwd s (mk_fwd false (fwd_drained_ f) (fwd_frag_entry_ f) (fwd_frag_param_ f) (fwd_launched_ f)
    (fwd_retired_ f) (fwd_reqs_outstanding_ f) (fwd_waves_ f) (fwd_is_fragment_ f)).

(** [sizeof(frag_payload_t)] is 8. *)
Definition kFwdPayloadStride : Z := u32 (NUM_THREADS * 8).

(** The record an injected wave starts with. *)
Definition fwd_record (f : fwd_t M) (startup : Z) (wid : Z) (w : FwdWave M) : cta_warp_record_t M :=
  {| rec_do_init := true;
     rec_PC := startup;
     rec_entry := fwd_frag_entry_ f;
     rec_tmask := wave_tmask w;
     rec_mscratch := fwd_frag_param_ f;
     rec_cta_id := 0;
     rec_cta_rank := 0;
     rec_cta_size := 1;
     rec_thread_idx := dim3_zero;
     rec_block_idx := Dim3 wid 0 0;
     rec_block_dim := Dim3 NUM_THREADS 1 1;
     rec_grid_dim := Dim3 1 1 1;
     rec_param := fwd_frag_param_ f;
     rec_lmem_addr := u64 (LMEM_BASE_ADDR + wid * kFwdPayloadStride);
     rec_cluster_size := 1 |}.

(** One iteration of the injection loop for the front wave. *)
Definition fwd_inject_one (s : Scheduler M) (startup wid : Z) (w : FwdWave M) (ws : list (FwdWave M))
    : Scheduler M :=
  let f := fwd_ s in
  let s1 := activate_warp s wid (fwd_record f startup wid w) in
  set_fwd s1 (mk_fwd (fwd_armed_ f) (fwd_drained_ f) (fwd_frag_entry_ f) (fwd_frag_param_ f)
    (u64 (fwd_launched_ f + 1)) (fwd_retired_ f) (fwd_reqs_outstanding_ f) ws
    ({[wid]} ∪ fwd_is_fragment_ f)).

(** The loop over the queue; also returns the [(wid, wave)] pairs handed to
    [SfuUnit::stage_fwd_window]. *)
Fixpoint fwd_inject_loop (s : Scheduler M) (startup : Z) (ws : list (FwdWave M))
    : Scheduler M * list (Z * FwdWave M) :=
  match ws with
  | [] => (s, [])
  | w :: ws' =>
    match free_wid (active_warps_ s) with
    | None => (s, [])
    | Some wid =>
      let '(s', staged) := fwd_inject_loop (fwd_inject_one s startup wid w ws') startup ws' in
      (s', (wid, w) :: staged)
    end
  end.

(** [Scheduler::fwd_try_inject] *)
Definition fwd_try_inject (s : Scheduler M) (k : Kmu) : Scheduler M * list (Z * FwdWave M) :=
  fwd_inject_loop s (word (startup_pc k)) (fwd_waves_ (fwd_ s)).

(** ** Scheduling *)

(** One iteration of the pending-[wspawn] loop. *)
Definition spawn_one (nextPC ms : Z) (s : Scheduler M) (i : Z) : Scheduler M :=
  let w := warp s i in
  let w' := mk_warp (ipdom_stack w) (m_assign (tmask w) 0 true) nextPC (fcsr w) (uuid w) ms (mstatus w)
              (mtvec w) (mepc w) (mcause w) (mtval w) (mscratch_tmask w) (cta_csrs w) in
  set_masks (upd_warp s i w') ({[i]} ∪ active_warps_ s) (stalled_warps_ s ∖ {[i]})
    (stalled_warps_next_ s ∖ {[i]}).

(** "process pending wspawn when we are down to a single active warp" *)
Definition process_wspawn (s : Scheduler M) : option (Scheduler M) :=
  let ws := wspawn_ s in
  if ws_valid ws && bool_decide (size (active_warps_ s) = 1%nat) then
    let s1 := fold_left (spawn_one (ws_nextPC ws) (mscratch (warp s 0)))
                (span 1 (Z.to_nat (ws_num_warps ws - 1))) s in
    resume (set_wspawn s1 (mk_wspawn false (ws_num_warps ws) (ws_nextPC ws))) 0
  else Some s.

(** "pick next ready warp" *)
Definition pick_warp (s : Scheduler M) (warp_mask : gset Z) : option Z :=
  find (fun wid => bool_decide (wid ∈ active_warps_ s) && bool_decide (wid ∉ stalled_warps_ s)
                   && bool_decide (wid ∈ warp_mask)) (range NUM_WARPS).

(** The trace header of the picked warp, and its suspension. *)
Definition issue_trace (core_id : Z) (s : Scheduler M) (wid : Z) : option (sched_trace M * Scheduler M) :=
  let w := warp s wid in
  if negb (m_any (tmask w)) then None
  else
    let g_wid := u32 (core_id * NUM_WARPS + wid) in
    let tr := mk_sched_trace (Z.lor (Z.shiftl g_wid 32) (uuid w)) wid (csr_cta_id (cta_csrs w)) (PC w)
                (tmask w) (vget (trap_epoch_ s) wid) in
    let w' := mk_warp (ipdom_stack w) (tmask w) (PC w) (fcsr w) (u32 (uuid w + 1)) (mscratch w) (mstatus w)
                (mtvec w) (mepc w) (mcause w) (mtval w) (mscratch_tmask w) (cta_csrs w) in
    s' ← suspend (upd_warp s wid w') wid;
    Some (tr, s').

(** "stalled_warps_ = stalled_warps_next_" *)
Definition clock_stalls (s : Scheduler M) : Scheduler M :=
  set_masks s (active_warps_ s) (stalled_warps_next_ s) (stalled_warps_next_ s).

(** The dispatch at the head of [schedule]. *)
Definition dispatch_cta (s : Scheduler M) (k : Kmu) : Scheduler M * Kmu :=
  let '(o, d, k') := Cta.step (cta_dispatcher_ s) k (active_warps_ s) in
  let s1 := set_dispatcher s d in
  (match o with Some (wid, r) => activate_warp s1 wid r | None => s1 end, k').

(** [Scheduler::schedule]: the trace, the staged waves, and the new states;
    [None] is a failed assertion. *)
Definition schedule (core_id : Z) (s : Scheduler M) (k : Kmu) (warp_mask : gset Z)
    : option (option (sched_trace M) * list (Z * FwdWave M) * Scheduler M * Kmu) :=
  let '(s1, k1) := dispatch_cta s k in
  let '(s2, staged) := if fwd_armed_ (fwd_ s1) then fwd_try_inject s1 k1 else (s1, []) in
  s3 ← process_wspawn s2;
  match pick_warp s3 warp_mask with
  | None => Some (None, staged, clock_stalls s3, k1)
  | Some wid =>
    '(tr, s4) ← issue_trace core_id s3 wid;
    Some (Some tr, staged, clock_stalls s4, k1)
  end.

(** [Scheduler::running] *)
Definition running (s : Scheduler M) (k : Kmu) : bool :=
  negb (bool_decide (active_warps_ s = ∅)) || Cta.running (cta_dispatcher_ s) k || fwd_armed_ (fwd_ s).

(** [Scheduler::advance_pc] *)
Definition advance_pc (s : Scheduler M) (wid trap_epoch inc : Z) : Scheduler M :=
  if negb (trap_epoch =? vget (trap_epoch_ s) wid) then s
  else upd_warp s wid (warp_set_PC (warp s wid) (word (PC (warp s wid) + inc))).

(** The retirement of a fragment wave in [setTmask]. *)
Definition retire_fragment (f : fwd_t M) (wid : Z) : fwd_t M :=
  if bool_decide (wid ∈ fwd_is_fragment_ f) then
    mk_fwd (fwd_armed_ f) (fwd_drained_ f) (fwd_frag_entry_ f) (fwd_frag_param_ f) (fwd_launched_ f)
      (u64 (fwd_retired_ f + 1)) (fwd_reqs_outstanding_ f) (fwd_waves_ f) (fwd_is_fragment_ f ∖ {[wid]})
  else f.

(** [Scheduler::setTmask] *)
Definition setTmask (s : Scheduler M) (wid : Z) (m : M) : option (bool * Scheduler M) :=
  let s1 := upd_warp s wid (warp_set_tmask (warp s wid) m) in
  if negb (m_any m) then
    let s2 := set_masks s1 (active_warps_ s1 ∖ {[wid]}) (stalled_warps_ s1) (stalled_warps_next_ s1) in
    let s3 := set_fwd s2 (retire_fragment (fwd_ s2) wid) in
    d ← warp_done (cta_dispatcher_ s3) wid;
    Some (false, set_dispatcher s3 d)
  else Some (true, s1).

(** [Scheduler::wspawn] *)
Definition wspawn (s : Scheduler M) (num_warps nextPC : Z) : bool * Scheduler M :=
  let n := Z.min num_warps NUM_WARPS in
  if (n <? 2) && bool_decide (size (active_warps_ s) = 1%nat) then (true, s)
  else (false, set_wspawn s (mk_wspawn true n nextPC)).

(** ** Traps *)

(** [Scheduler::raise_trap] *)
Definition raise_trap (s : Scheduler M) (wid cause trap_pc : Z) : Scheduler M :=
  let w := warp s wid in
  upd_warp s wid
    (mk_warp (ipdom_stack w) (tmask w) (Z.land (mtvec w) (lnot_w XLEN 3)) (fcsr w) (uuid w) (mscratch w)
       (mstatus w) (mtvec w) trap_pc cause 0 (tmask w) (cta_csrs w)).

(** [Scheduler::raise_async_trap]; [flushed] is what
    [Core::flush_warp_pipeline] returns. *)
Definition raise_async_trap (heap : tid -> instr_trace_t) (sb : Scoreboard) (s : Scheduler M)
    (wid cause trap_pc : Z) (new_tmask : M) (flushed : Z) : option (Scheduler M * Scoreboard) :=
  let resume_pc := if flushed =? 0 then trap_pc else flushed in
  let s1 := raise_trap s wid cause resume_pc in
  let s2 := upd_warp s1 wid (warp_set_tmask (warp s1 wid) new_tmask) in
  s3 ← (if bool_decide (wid ∈ stalled_warps_next_ s2) then resume s2 wid else Some s2);
  let '(snap, sb') := snapshot_warp heap sb wid in
  Some (set_trap s3 (vset (in_async_trap_ s3) wid true)
          (vset (trap_epoch_ s3) wid (u32 (vget (trap_epoch_ s3) wid + 1)))
          (last_mret_cycle_ s3) (vset (async_trap_snapshot_ s3) wid snap), sb').

(** [Scheduler::mret]; [cycles] is the platform's cycle counter. *)
Definition mret (heap : tid -> instr_trace_t) (sb : Scoreboard) (s : Scheduler M) (wid cycles : Z)
    : Scheduler M * Scoreboard :=
  let w := warp s wid in
  let w' := mk_warp (ipdom_stack w) (if m_any (mscratch_tmask w) then mscratch_tmask w else tmask w)
              (mepc w) (fcsr w) (uuid w) (mscratch w) (mstatus w) (mtvec w) (mepc w) (mcause w) (mtval w)
              (mscratch_tmask w) (cta_csrs w) in
  let s1 := upd_warp s wid w' in
  (set_trap s1 (vset (in_async_trap_ s1) wid false) (trap_epoch_ s1) (vset (last_mret_cycle_ s1) wid cycles)
     (vset (async_trap_snapshot_ s1) wid []),
   restore_warp heap sb (vget (async_trap_snapshot_ s1) wid)).

Definition TRAP_CAUSE_BREAKPOINT : Z := 3.
Definition TRAP_CAUSE_ECALL_MMODE : Z := 11.

Definition trigger_ecall (s : Scheduler M) (wid trap_pc : Z) : Scheduler M :=
  raise_trap s wid TRAP_CAUSE_ECALL_MMODE trap_pc.
Definition trigger_ebreak (s : Scheduler M) (wid trap_pc : Z) : Scheduler M :=
  raise_trap s wid TRAP_CAUSE_BREAKPOINT trap_pc.
End Scheduler.

(** ** Invariant *)

Section Inv.
Context `{Hcfg : VxConfigOk} `{HM : MaskSpec M}.
(** The LMEM size shared by the kernels of the run. *)
Variable L : option Z.

#[local] Abbreviation nwarps := (Z.to_nat NUM_WARPS).
#[local] Abbreviation nthreads := (Z.to_nat NUM_THREADS).

(** A well-formed mask of the core's thread count. *)
Definition sized (m : M) : Prop := exists l, m_rep m l /\ length l = nthreads.

(** The saved masks of the IPDOM stack strictly grow towards its bottom,
    starting above the bits [l]. *)
Fixpoint chain (l : bits) (st : list (ipdom_entry_t M)) : Prop :=
  match st with
  | [] => True
  | e :: st' => exists lo, m_rep (orig_tmask e) lo /\ length lo = length l /\ bits_sub l lo /\ l <> lo /\ chain lo st'
  end.

(** A mask that can run above the stack [st]. *)
Definition fits (st : list (ipdom_entry_t M)) (m : M) : Prop :=
  exists l, m_rep m l /\ length l = nthreads /\ chain l st.

Lemma fits_sized st m : fits st m -> sized m.
Proof using. intros (l & ? & ? & _). by exists l. Qed.

Lemma fits_nil m : fits [] m <-> sized m.
Proof using. split; [apply fits_sized|]. intros (l & ? & ?). by exists l. Qed.

(** A warp is active exactly when its thread mask is not empty; its mask
    stays below its IPDOM stack, which is empty once it exits. *)
Record masks_ok (ws : list (warp_t M)) (active : gset Z) : Prop := {
  mo_len : length ws = nwarps;
  mo_active : forall w, w ∈ active -> 0 <= w < NUM_WARPS;
  mo_tmask : forall w, 0 <= w < NUM_WARPS ->
    fits (ipdom_stack (vget ws w)) (tmask (vget ws w)) /\ m_any (tmask (vget ws w)) = bool_decide (w ∈ active);
  mo_idle : forall w, 0 <= w < NUM_WARPS -> w ∉ active -> ipdom_stack (vget ws w) = [];
  mo_saved : forall w, 0 <= w < NUM_WARPS -> sized (mscratch_tmask (vget ws w))
}.

(** The next stall state only ever releases warps between two cycles, and a
    pending spawn holds warp 0. *)
Record stalls_ok (s : Scheduler M) : Prop := {
  so_next : stalled_warps_next_ s ⊆ stalled_warps_ s;
  so_spawn : ws_valid (wspawn_ s) = true ->
    0 ∈ active_warps_ s /\ 0 ∈ stalled_warps_next_ s /\ ws_num_warps (wspawn_ s) <= NUM_WARPS
}.

(** The in-flight CTA still has a thread for each of its remaining ranks. *)
Definition rem_wf (d : CtaDispatcher) : Prop :=
  has_cta_ d = true -> 0 < block_size_rem_ d
    /\ cta_size_ d - rank_ d = (block_size_rem_ d + NUM_THREADS - 1) / NUM_THREADS.

Definition cta_ok (s : Scheduler M) (k : Kmu) : Prop :=
  rem_wf (cta_dispatcher_ s)
  /\ exists live : gmap Z (cta_warp_record_t M), sys_inv L (mk_sys (cta_dispatcher_ s) k (active_warps_ s) live).

Definition wave_ok (w : FwdWave M) : Prop := sized (wave_tmask w) /\ m_any (wave_tmask w) = true.

(** Launched waves that have not retired are the live fragment warps. *)
Record fwd_ok (s : Scheduler M) : Prop := {
  fo_waves : Forall wave_ok (fwd_waves_ (fwd_ s));
  fo_active : fwd_is_fragment_ (fwd_ s) ⊆ active_warps_ s;
  fo_count : fwd_launched_ (fwd_ s)
    = u64 (fwd_retired_ (fwd_ s) + Z.of_nat (size (fwd_is_fragment_ (fwd_ s))));
  fo_retired : 0 <= fwd_retired_ (fwd_ s) < 2 ^ 64;
  fo_idle : fwd_armed_ (fwd_ s) = false -> fwd_is_fragment_ (fwd_ s) = ∅
}.

Record sched_inv (s : Scheduler M) (k : Kmu) : Prop := {
  si_masks : masks_ok (warps_ s) (active_warps_ s);
  si_stalls : stalls_ok s;
  si_cta : cta_ok s k;
  si_fwd : fwd_ok s
}.

Lemma masks_ok_upd ws active active' wid w' :
  masks_ok ws active -> 0 <= wid < NUM_WARPS ->
  (forall x, x <> wid -> (x ∈ active' <-> x ∈ active)) ->
  fits (ipdom_stack w') (tmask w') -> sized (mscratch_tmask w') -> m_any (tmask w') = bool_decide (wid ∈ active') ->
  (wid ∉ active' -> ipdom_stack w' = []) -> masks_ok (vset ws wid w') active'.
Proof using Hcfg.
  intros [Hl Ha Ht Hi Hs] Hw Hact Hst Hss Hany Hidle.
  assert (Hlz : Z.of_nat (length ws) = NUM_WARPS) by (pose proof num_warps_ok; lia).
  constructor.
  - by rewrite length_vset.
  - intros x Hx. destruct (decide (x = wid)) as [->|Hne]; [done|]. by apply Ha, Hact.
  - intros x Hx. rewrite vget_vset by lia. destruct (Z.eqb_spec wid x) as [<-|Hne]; [done|].
    destruct (Ht x Hx) as [? ->]. split; [done|]. apply bool_decide_ext. by rewrite Hact.
  - intros x Hx Hn. rewrite vget_vset by lia. destruct (Z.eqb_spec wid x) as [<-|Hne]; [by apply Hidle|].
    apply Hi; [done|]. by rewrite <- Hact.
  - intros x Hx. rewrite vget_vset by lia. destruct (Z.eqb_spec wid x); [done|]. by apply Hs.
Qed.

(** What activating other warps leaves unchanged. *)
Record frame (s s' : Scheduler M) : Prop := {
  fr_active : active_warps_ s ⊆ active_warps_ s';
  fr_next : forall w, w ∈ active_warps_ s -> (w ∈ stalled_warps_next_ s' <-> w ∈ stalled_warps_next_ s);
  fr_stall : forall w, w ∈ active_warps_ s -> (w ∈ stalled_warps_ s' <-> w ∈ stalled_warps_ s);
  fr_new : forall w, w ∈ active_warps_ s' -> w ∉ active_warps_ s -> w ∉ stalled_warps_next_ s';
  fr_spawn : wspawn_ s' = wspawn_ s
}.

#[global] Instance frame_refl : Reflexive frame.
Proof using. by constructor. Qed.

#[global] Instance frame_trans : Transitive frame.
Proof using Hcfg.
  intros a b c [A1 A2 A3 A4 A5] [B1 B2 B3 B4 B5]. constructor; [set_solver| | | |congruence]; intros w Hw.
  - rewrite B2 by set_solver. by apply A2.
  - rewrite B3 by set_solver. by apply A3.
  - intros Hn. destruct (decide (w ∈ active_warps_ b)) as [Hb|Hb]; [|by apply B4].
    rewrite B2 by done. by apply A4.
Qed.

Lemma frame_stalls s s' : frame s s' -> stalled_warps_next_ s' ⊆ stalled_warps_ s' -> stalls_ok s -> stalls_ok s'.
Proof using Hcfg.
  intros [F1 F2 F3 _ F4] Hn [Hs Hw]. constructor; [done|]. rewrite F4. intros Hv.
  destruct (Hw Hv) as (? & ? & ?). split_and!; [set_solver | by apply F2 | done].
Qed.

Lemma activate_frame s wid r : wid ∉ active_warps_ s -> frame s (activate_warp s wid r).
Proof using Hcfg.
  intros Hn. constructor; simpl; [set_solver| | |set_solver|done];
    intros w Hw; (assert (w <> wid) by congruence); set_solver.
Qed.

Lemma activate_stalls s wid r : wid ∉ active_warps_ s -> stalls_ok s -> stalls_ok (activate_warp s wid r).
Proof using Hcfg.
  intros Hn Hs. apply (frame_stalls s); [by apply activate_frame| |done].
  simpl. pose proof (so_next _ Hs). set_solver.
Qed.

Lemma activate_masks s wid r :
  masks_ok (warps_ s) (active_warps_ s) -> 0 <= wid < NUM_WARPS -> sized (rec_tmask r) ->
  m_any (rec_tmask r) = true ->
  masks_ok (warps_ (activate_warp s wid r)) (active_warps_ (activate_warp s wid r)).
Proof using Hcfg.
  intros Hm Hw Hs Ha. simpl. apply (masks_ok_upd _ (active_warps_ s)); simpl; try done.
  - set_solver.
  - by apply fits_nil.
  - by apply (mo_saved _ _ Hm).
  - rewrite Ha. symmetry. apply bool_decide_eq_true. set_solver.
Qed.

(** ** Dispatch *)

Lemma fill_any n : 0 < n <= NUM_THREADS ->
  sized (m_fill (m_new NUM_THREADS) (Z.to_nat n) (fun _ => true))
  /\ m_any (m_fill (m_new NUM_THREADS) (Z.to_nat n) (fun _ => true)) = true.
Proof using Hcfg.
  intros Hn. assert (0 <= NUM_THREADS) as H0n by lia. pose proof (m_new_rep NUM_THREADS H0n) as Hm.
  apply (m_fill_prefix _ _ (Z.to_nat n) (fun _ => true)) in Hm; [|rewrite length_replicate; lia].
  split.
  - eexists. split; [exact Hm|]. rewrite length_app, length_fmap, length_seq, length_drop, length_replicate. lia.
  - rewrite (m_any_rep _ _ Hm), existsb_app. destruct (Z.to_nat n) eqn:E; [lia|done].
Qed.

Lemma next_warp_rem d b (r : cta_warp_record_t M) d' :
  rem_wf d -> cta_wf L d -> next_warp d b = Some (r, d') ->
  rem_wf d' /\ sized (rec_tmask r) /\ m_any (rec_tmask r) = true.
Proof using Hcfg.
  intros Hr Hd. unfold next_warp. destruct (has_cta_ d) eqn:Hc; [|done]. simpl. intros [= <- <-].
  destruct (Hr Hc) as [Hpos Heq]. pose proof (wf_cta _ _ Hd Hc) as (Hrank & Hcs & _).
  pose proof num_threads_ok. rewrite (u32_small (rank_ d + 1)) by lia. split.
  - intros Hc'. simpl in *. destruct (Z.leb_spec (cta_size_ d) (rank_ d + 1)); [done|].
    assert (2 <= (block_size_rem_ d + NUM_THREADS - 1) / NUM_THREADS) as Hge2 by lia.
    assert (NUM_THREADS < block_size_rem_ d) by
      (apply Z.lt_nge; intros Hle; clear Heq; pose proof (Z.div_lt_upper_bound (block_size_rem_ d + NUM_THREADS - 1) NUM_THREADS 2); lia).
    unfold active_threads. rewrite (proj2 (Z.leb_le NUM_THREADS (block_size_rem_ d))) by lia.
    split; [lia|].
    replace (block_size_rem_ d + NUM_THREADS - 1)
      with (block_size_rem_ d - NUM_THREADS + NUM_THREADS - 1 + 1 * NUM_THREADS) in Heq by lia.
    rewrite Z.div_add in Heq by lia. lia.
  - simpl. apply fill_any. unfold active_threads. bool_cases; lia.
Qed.

Lemma dispatch_warp_rem d active o d' :
  rem_wf d -> cta_wf L d -> dispatch_warp d active = (o, d') ->
  rem_wf d' /\ match o with
    | None => True
    | Some (wid, r) => (0 <= wid < NUM_WARPS) /\ (wid ∉ active) /\ sized (rec_tmask r) /\ m_any (rec_tmask r) = true
    end.
Proof using Hcfg.
  intros Hr Hd. unfold dispatch_warp. destruct (free_wid active) as [wid|] eqn:Hf; [|by intros [= <- <-]].
  destruct (free_wid_spec _ _ Hf) as [Hw Hn].
  destruct (next_warp d _) as [[r d1]|] eqn:E; [|by intros [= <- <-]].
  destruct (next_warp_rem _ _ _ _ Hr Hd E) as (H1' & H2' & H3'). intros [= <- <-]. done.
Qed.

Lemma admit_rem d d' b : rem_wf d -> req_ok L (pending_cta_ d) -> admit_cta d = (d', b) -> rem_wf d'.
Proof using Hcfg.
  intros Hr (_ & Hp & Hb) E. unfold admit_cta in E. pose proof num_threads_ok.
  destruct (choose_slot _ _ _ _) as [base|]; injection E as <- <-; [|exact Hr].
  intros _. simpl. split; [done|]. rewrite u32_small by lia. lia.
Qed.

Lemma step_rem d k active o d' k' (live : gmap Z (cta_warp_record_t M)) :
  rem_wf d -> sys_inv L (mk_sys d k active live) -> Cta.step d k active = (o, d', k') ->
  rem_wf d' /\ match o with
    | None => True
    | Some (wid, r) => (0 <= wid < NUM_WARPS) /\ (wid ∉ active) /\ sized (rec_tmask r) /\ m_any (rec_tmask r) = true
    end.
Proof using Hcfg.
  intros Hr [Hd Hk Hl] E. unfold Cta.step in E. simpl in *. destruct (has_cta_ d) eqn:Hc.
  { destruct (dispatch_warp d active) as [o1 d1] eqn:Ed. injection E as <- <- <-. by eapply dispatch_warp_rem. }
  assert (Hadm : forall d1 k1, cta_wf L d1 -> has_cta_ d1 = false -> has_pending_ d1 = true -> rem_wf d1 ->
    (match admit_cta d1 with (d2, false) => (None, d2, k1) | (d2, true) => (dispatch_warp d2 active, k1) end)
      = (o, d', k') -> rem_wf d' /\ match o with
        | None => True
        | Some (wid, r) => (0 <= wid < NUM_WARPS) /\ (wid ∉ active) /\ sized (rec_tmask r)
                           /\ m_any (rec_tmask r) = true
        end).
  { intros d1 k1 Hd1 Hc1 Hp1 Hr1 E1. destruct (admit_cta d1) as [d2 []] eqn:Ea.
    - pose proof (admit_rem _ _ _ Hr1 (wf_pending _ _ Hd1 Hp1) Ea) as Hr2.
      destruct (admit_wf _ _ _ _ Hd1 Hc1 Hp1 Ea) as [Hd2 _].
      destruct (dispatch_warp d2 active) as [o1 d3] eqn:Ed. injection E1 as <- <- <-. by eapply dispatch_warp_rem.
    - injection E1 as <- <- <-. split; [|done]. by eapply admit_rem, Ea; [|apply (wf_pending _ _ Hd1)]. }
  destruct (has_pending_ d) eqn:Hp; [by eapply Hadm|].
  destruct (Kmu.step k) as [[req k1]|] eqn:Ek; [|by injection E as <- <- <-].
  eapply Hadm; [| | | |exact E]; try done.
  destruct Hd as [W1 W2 W3 W4 W5 W6]. constructor; try done. intros _. simpl.
  unfold Kmu.step in Ek. destruct (running_ k) eqn:Hrun; [|done].
  simpl in Ek. injection Ek as <- _. by apply Hk.
Qed.

Lemma dispatch_cta_inv s k s' k' :
  sched_inv s k -> dispatch_cta s k = (s', k') ->
  sched_inv s' k' /\ frame s s' /\ fwd_ s' = fwd_ s.
Proof using Hcfg.
  intros [Hm Hst [Hr [live Hc]] Hf] E. unfold dispatch_cta in E.
  destruct (Cta.step _ _ _) as [[o d] k1] eqn:Es.
  pose proof (dispatcher_step_inv _ (mk_sys _ _ _ live) _ _ _ Hc Es) as Hc'.
  destruct (step_rem _ _ _ _ _ _ _ Hr Hc Es) as [Hr' Ho].
  destruct o as [[wid r]|]; injection E as <- <-.
  - destruct Ho as (Hw & Hn & Hs & Ha). split; [constructor|split; [|done]].
    + by apply (activate_masks (set_dispatcher s d)).
    + apply (activate_stalls (set_dispatcher s d)); [done|]. destruct Hst. by constructor.
    + split; [done|]. by eexists.
    + destruct Hf as [F1 F2 F3 F4 F5]. constructor; simpl; try done. set_solver.
    + destruct (activate_frame (set_dispatcher s d) wid r Hn). by constructor.
  - split; [|by split; [constructor|]]. destruct Hst, Hf. constructor; try done. split; [done|]. by eexists.
Qed.

(** ** Fragment injection *)

Lemma spawn_cta s k wid :
  cta_ok s k -> forall s', cta_dispatcher_ s' = cta_dispatcher_ s ->
  active_warps_ s' = {[wid]} ∪ active_warps_ s -> cta_ok s' k.
Proof using Hcfg HM.
  intros [Hr [live Hc]] s' Ed Ea. split; [by rewrite Ed|]. exists live. rewrite Ed, Ea.
  destruct (sys_exec_inv _ _ (EvSpawn {[wid]}) Hc I) as (x & Ex & Hx). injection Ex as <-. done.
Qed.

Lemma inject_one_inv s k startup wid w ws :
  sched_inv s k -> 0 <= wid < NUM_WARPS -> wid ∉ active_warps_ s -> fwd_armed_ (fwd_ s) = true ->
  fwd_waves_ (fwd_ s) = w :: ws ->
  sched_inv (fwd_inject_one s startup wid w ws) k /\ frame s (fwd_inject_one s startup wid w ws).
Proof using Hcfg HM.
  intros [Hm Hst Hc Hf] Hw Hn Harm Hq. destruct Hf as [F1 F2 F3 F4 F5].
  rewrite Hq in F1. apply list.Forall_cons in F1 as [[Hs Ha] F1].
  set (r := fwd_record (fwd_ s) startup wid w). split; [constructor|].
  - by apply (activate_masks s wid r).
  - destruct (activate_stalls s wid r Hn Hst) as [A1 A2]. by constructor.
  - by apply (spawn_cta s k wid).
  - constructor; simpl; try done; [set_solver| |congruence].
    rewrite F3, size_union by set_solver. rewrite size_singleton. unfold u64.
    rewrite Zplus_mod_idemp_l. f_equal. lia.
  - destruct (activate_frame s wid r Hn). by constructor.
Qed.

Lemma inject_loop_inv ws : forall s k startup s' staged,
  sched_inv s k -> fwd_armed_ (fwd_ s) = true -> fwd_waves_ (fwd_ s) = ws ->
  fwd_inject_loop s startup ws = (s', staged) ->
  sched_inv s' k /\ frame s s' /\ fwd_armed_ (fwd_ s') = true.
Proof using Hcfg HM.
  induction ws as [|w ws IH]; intros s k startup s' staged Hs Ha Hq E; simpl in E; [by injection E as <- <-|].
  destruct (free_wid _) as [wid|] eqn:Hf; [|by injection E as <- <-].
  destruct (free_wid_spec _ _ Hf) as [Hw Hn].
  destruct (inject_one_inv s k startup wid w ws Hs Hw Hn Ha Hq) as [Hs1 Hfr].
  destruct (fwd_inject_loop (fwd_inject_one s startup wid w ws) startup ws) as [s2 st2] eqn:E2.
  injection E as <- <-. destruct (IH _ _ _ _ _ Hs1 Ha eq_refl E2) as (? & ? & ?).
  split; [done|]. split; [by transitivity (fwd_inject_one s startup wid w ws)|done].
Qed.

(** ** Spawning *)

Lemma assign0_any m : sized m -> sized (m_assign m 0 true) /\ m_any (m_assign m 0 true) = true.
Proof using Hcfg HM.
  intros (l & Hl & Hlen). pose proof num_threads_ok.
  assert (Ha : m_rep (m_assign m 0 true) (<[0%nat := true]> l)) by (apply (m_assign_rep m l 0); [done|lia]).
  split; [eexists; split; [exact Ha|by rewrite length_insert]|].
  rewrite (m_any_rep _ _ Ha). destruct l as [|b l]; [simpl in Hlen; lia|done].
Qed.

Lemma spawn_one_inv s k pc ms i :
  sched_inv s k -> 0 <= i < NUM_WARPS -> i ∉ active_warps_ s ->
  sched_inv (spawn_one pc ms s i) k /\ frame s (spawn_one pc ms s i) /\ fwd_ (spawn_one pc ms s i) = fwd_ s.
Proof using Hcfg HM.
  intros [Hm Hst Hc Hf] Hi Hn.
  assert (Hfr : frame s (spawn_one pc ms s i)).
  { constructor; simpl; [set_solver| | |set_solver|done]; intros w Hw; (assert (w <> i) by congruence); set_solver. }
  split; [|done]. constructor.
  - destruct (mo_tmask _ _ Hm i Hi) as [Hs _]. destruct (assign0_any _ (fits_sized _ _ Hs)) as [Hs' Ha'].
    pose proof (mo_idle _ _ Hm i Hi Hn) as Hst0.
    apply (masks_ok_upd _ (active_warps_ s)); simpl; try done; unfold warp; rewrite ?Hst0;
      [set_solver|by apply fits_nil|by apply (mo_saved _ _ Hm)|].
    rewrite Ha'. symmetry. apply bool_decide_eq_true. set_solver.
  - apply (frame_stalls s); [done| |done]. simpl. pose proof (so_next _ Hst). set_solver.
  - by apply (spawn_cta s k i).
  - destruct Hf. constructor; simpl; try done. set_solver.
Qed.

Lemma spawn_fold_inv pc ms l : forall s k,
  sched_inv s k -> NoDup l -> Forall (fun i => 0 <= i < NUM_WARPS /\ i ∉ active_warps_ s) l ->
  let s' := fold_left (spawn_one pc ms) l s in
  sched_inv s' k /\ frame s s' /\ fwd_ s' = fwd_ s.
Proof using Hcfg HM.
  cbv zeta. induction l as [|i l IH]; intros s k Hs Hnd Hl; [done|]. simpl.
  apply list.NoDup_cons in Hnd as [Hni Hnd]. apply list.Forall_cons in Hl as [[Hi Hn] Hl].
  destruct (spawn_one_inv s k pc ms i Hs Hi Hn) as (Hs1 & Hf1 & Ef1).
  destruct (IH (spawn_one pc ms s i) k Hs1 Hnd) as (Hs2 & Hf2 & Ef2).
  - apply list.Forall_forall. intros j Hj. destruct (proj1 (list.Forall_forall _ _) Hl j Hj) as [? ?].
    split; [done|]. simpl. assert (j <> i) by congruence. set_solver.
  - split; [done|]. split; [by transitivity (spawn_one pc ms s i)|congruence].
Qed.

Lemma resume_some (s : Scheduler M) wid :
  wid ∈ active_warps_ s -> wid ∈ stalled_warps_next_ s ->
  resume s wid = Some (set_masks s (active_warps_ s) (stalled_warps_ s) (stalled_warps_next_ s ∖ {[wid]})).
Proof using. intros Ha Hs. unfold resume. by rewrite !bool_decide_eq_true_2. Qed.

Lemma resume_inv s k wid s' :
  sched_inv s k -> (ws_valid (wspawn_ s) = true -> wid <> 0) -> resume s wid = Some s' -> sched_inv s' k.
Proof using Hcfg HM.
  intros [Hm Hst Hc Hf] Hw E. unfold resume in E. case_match; [|done]. injection E as <-. destruct Hf.
  constructor; try done. destruct Hst as [S1 S2]. constructor; simpl; [set_solver|]. intros Hv.
  destruct (S2 Hv) as (? & ? & ?). pose proof (Hw Hv). split_and!; try done. set_solver.
Qed.

(** The whole pending-spawn step never fails, and releases at most warp 0. *)
Lemma process_wspawn_inv s k :
  sched_inv s k -> exists s', process_wspawn s = Some s' /\ sched_inv s' k
  /\ active_warps_ s ⊆ active_warps_ s'
  /\ (forall w, w ∈ active_warps_ s -> (w ∈ stalled_warps_ s' <-> w ∈ stalled_warps_ s))
  /\ (forall w, w ∈ active_warps_ s -> (ws_valid (wspawn_ s) = true -> w <> 0) ->
       w ∈ stalled_warps_next_ s -> w ∈ stalled_warps_next_ s')
  /\ (forall w, w ∈ active_warps_ s' -> w ∈ stalled_warps_next_ s' ->
       (w ∈ active_warps_ s) /\ (w ∈ stalled_warps_next_ s)
       /\ (w = 0 -> ws_valid (wspawn_ s) = true -> ws_valid (wspawn_ s') = true))
  /\ (ws_valid (wspawn_ s') = true -> ws_valid (wspawn_ s) = true) /\ fwd_ s' = fwd_ s.
Proof using Hcfg HM.
  intros Hs. unfold process_wspawn. destruct (ws_valid (wspawn_ s)) eqn:Hv; simpl; [|by exists s; split_and!; done || congruence].
  destruct (bool_decide_reflect (size (active_warps_ s) = 1%nat)) as [Hsz|]; [|by exists s; split_and!; done || congruence].
  destruct (so_spawn _ (si_stalls _ _ Hs) Hv) as (Ha & Hn & Hnum).
  assert (Hact : active_warps_ s = {[0]}).
  { apply size_1_elem_of in Hsz as [x Hx]. apply leibniz_equiv in Hx. rewrite Hx in Ha |- *.
    apply elem_of_singleton in Ha. by rewrite Ha. }
  edestruct (spawn_fold_inv (ws_nextPC (wspawn_ s)) (mscratch (warp s 0))
    (span 1 (Z.to_nat (ws_num_warps (wspawn_ s) - 1))) s k Hs) as (Hs1 & Hf1 & Ef1).
  { unfold span. apply NoDup_fmap_2; [intros ???; lia|apply NoDup_seq]. }
  { apply list.Forall_forall. intros i Hi%elem_of_span. split; [lia|]. rewrite Hact, elem_of_singleton. lia. }
  set (s1 := fold_left _ _ s) in *.
  rewrite resume_some; [|apply (fr_active _ _ Hf1), Ha|by apply (fr_next _ _ Hf1)].
  eexists. split; [done|]. split_and!.
  - destruct Hs1 as [Hm Hst Hc Hf]. destruct Hf. constructor; try done. destruct Hst as [S1 S2].
    constructor; simpl; [set_solver|done].
  - apply (fr_active _ _ Hf1).
  - apply (fr_stall _ _ Hf1).
  - intros w Hw Hne Hwn. simpl. apply elem_of_difference. split; [by apply (fr_next _ _ Hf1)|].
    rewrite elem_of_singleton. by apply Hne.
  - simpl. intros w Hw [Hwn Hw0]%elem_of_difference. rewrite elem_of_singleton in Hw0.
    destruct (decide (w ∈ active_warps_ s)) as [Hws|Hws]; [|by destruct (fr_new _ _ Hf1 w Hw Hws)].
    split; [done|]. split; [by apply (fr_next _ _ Hf1)|done].
  - done.
  - done.
Qed.

(** ** One cycle *)

(** Everything up to the pick: activations and the pending spawn. *)
Lemma before_pick s k :
  sched_inv s k -> forall s1 k1 s2 staged,
  dispatch_cta s k = (s1, k1) ->
  (if fwd_armed_ (fwd_ s1) then fwd_try_inject s1 k1 else (s1, [])) = (s2, staged) ->
  sched_inv s2 k1 /\ frame s s2.
Proof using Hcfg HM.
  intros Hs s1 k1 s2 staged Ed Ei. destruct (dispatch_cta_inv _ _ _ _ Hs Ed) as (Hs1 & Hf1 & _).
  destruct (fwd_armed_ (fwd_ s1)) eqn:Ha; [|by injection Ei as <- <-].
  destruct (inject_loop_inv _ _ _ _ _ _ Hs1 Ha eq_refl Ei) as (Hs2 & Hf2 & _).
  split; [done|]. by transitivity s1.
Qed.

Lemma clock_inv s k : sched_inv s k -> sched_inv (clock_stalls s) k.
Proof using Hcfg HM.
  intros [Hm Hst Hc Hf]. by destruct Hst, Hf.
Qed.

(** Issuing the picked warp succeeds and suspends it. *)
Lemma issue_inv cid s k wid mask :
  sched_inv s k -> pick_warp s mask = Some wid ->
  exists tr s', issue_trace cid s wid = Some (tr, s') /\ sched_inv (clock_stalls s') k
  /\ active_warps_ s' = active_warps_ s
  /\ stalled_warps_next_ s' = {[wid]} ∪ stalled_warps_next_ s
  /\ wspawn_ s' = wspawn_ s /\ fwd_ s' = fwd_ s
  /\ st_wid tr = wid /\ st_PC tr = PC (warp s wid) /\ st_tmask tr = tmask (warp s wid)
  /\ m_any (st_tmask tr) = true /\ st_trap_epoch tr = vget (trap_epoch_ s) wid
  /\ tmask (warp s' wid) = tmask (warp s wid).
Proof using Hcfg HM.
  intros [Hm Hst Hc Hf] [Hin Hb]%find_some. rewrite !andb_true_iff, !bool_decide_eq_true in Hb.
  destruct Hb as [[Ha Hns] _]. apply list_elem_of_In, elem_of_range in Hin.
  pose proof (so_next _ Hst) as Hnx.
  destruct (mo_tmask _ _ Hm wid Hin) as [Hsz Hany]. rewrite bool_decide_eq_true_2 in Hany by done.
  unfold issue_trace, warp at 1. rewrite Hany. simpl. unfold suspend. simpl.
  rewrite !bool_decide_eq_true_2 by set_solver. simpl. do 2 eexists. split; [done|].
  assert (Hwl : 0 <= wid < Z.of_nat (length (warps_ s))) by (rewrite (mo_len _ _ Hm); lia).
  split_and!; simpl; try done; [|unfold warp at 1; simpl; by rewrite vget_vset_eq].
  destruct Hf. constructor; simpl; try done.
  - apply (masks_ok_upd _ (active_warps_ s)); try done; [by apply (mo_saved _ _ Hm)|].
    simpl. unfold warp. rewrite Hany. symmetry. by apply bool_decide_eq_true.
  - constructor; simpl; [done|]. intros Hv. destruct (so_spawn _ Hst Hv) as (? & ? & ?). set_solver.
Qed.

(** What a cycle does, for the clients of the stall protocol. *)
Record cycle_spec (s s' : Scheduler M) (tr : option (sched_trace M)) : Prop := {
  cy_active : active_warps_ s ⊆ active_warps_ s';
  cy_next : forall w, w ∈ active_warps_ s -> (ws_valid (wspawn_ s) = true -> w <> 0) ->
    w ∈ stalled_warps_next_ s -> w ∈ stalled_warps_next_ s';
  cy_stalled : forall w, w ∈ active_warps_ s' -> w ∈ stalled_warps_next_ s' ->
    (exists t, tr = Some t /\ w = st_wid t)
    \/ ((w ∈ active_warps_ s) /\ (w ∈ stalled_warps_next_ s)
        /\ (w = 0 -> ws_valid (wspawn_ s) = true -> ws_valid (wspawn_ s') = true));
  cy_spawn : ws_valid (wspawn_ s') = true -> ws_valid (wspawn_ s) = true;
  cy_trace : forall t, tr = Some t ->
    (st_wid t ∈ active_warps_ s') /\ (st_wid t ∈ stalled_warps_next_ s')
    /\ (st_wid t ∈ active_warps_ s -> st_wid t ∉ stalled_warps_next_ s)
    /\ (ws_valid (wspawn_ s) = true -> st_wid t <> 0)
    /\ m_any (st_tmask t) = true /\ st_tmask t = tmask (warp s' (st_wid t))
}.

(** No assertion of [schedule] fails. *)
Lemma schedule_inv cid s k mask :
  sched_inv s k ->
  exists tr staged s' k', schedule cid s k mask = Some (tr, staged, s', k')
    /\ sched_inv s' k' /\ cycle_spec s s' tr.
Proof using Hcfg HM.
  intros Hs. unfold schedule. destruct (dispatch_cta s k) as [s1 k1] eqn:Ed.
  destruct (if fwd_armed_ (fwd_ s1) then fwd_try_inject s1 k1 else (s1, [])) as [s2 staged] eqn:Ei.
  destruct (before_pick _ _ Hs _ _ _ _ Ed Ei) as [Hs2 [F1 F2 F3 Fn F4]].
  destruct (process_wspawn_inv _ _ Hs2) as (s3 & -> & Hs3 & W1 & W2 & W3 & Wr & W4 & _). simpl.
  rewrite F4 in *.
  assert (Hback : forall w, w ∈ active_warps_ s3 -> w ∈ stalled_warps_next_ s3 ->
    (w ∈ active_warps_ s) /\ (w ∈ stalled_warps_next_ s)
    /\ (w = 0 -> ws_valid (wspawn_ s) = true -> ws_valid (wspawn_ s3) = true)).
  { intros w H1' H2'. destruct (Wr w H1' H2') as (H3' & H4' & H5').
    destruct (decide (w ∈ active_warps_ s)) as [Hws|Hws]; [|by destruct (Fn w H3' Hws)].
    split; [done|]. split; [by apply F2|done]. }
  assert (Hnext : forall w, w ∈ active_warps_ s -> (ws_valid (wspawn_ s) = true -> w <> 0) ->
    w ∈ stalled_warps_next_ s -> w ∈ stalled_warps_next_ s3).
  { intros w Ha Hv Hw. apply W3; [by apply F1|done|by apply F2]. }
  destruct (pick_warp s3 mask) as [wid|] eqn:Ep.
  - destruct (issue_inv cid _ _ _ _ Hs3 Ep) as (tr & s4 & -> & Hs4 & A4 & N4 & S4 & _ & T1 & T2 & T3 & T4 & _ & T6).
    simpl. do 4 eexists. split; [done|]. split; [done|].
    pose proof (si_masks _ _ Hs4) as Hm4. apply find_some in Ep as [Hin Hb].
    rewrite !andb_true_iff, !bool_decide_eq_true in Hb. destruct Hb as [[Ha Hns] _].
    apply list_elem_of_In, elem_of_range in Hin.
    constructor; simpl; rewrite ?A4, ?N4, ?S4; [set_solver| | |done|].
    + intros w H1' H2' H3'. apply elem_of_union_r. by apply Hnext.
    + intros w H1' [->%elem_of_singleton|H2']%elem_of_union; [left; by exists tr|right; by apply Hback].
    + intros t [= <-]. rewrite T1. split_and!; [done|set_solver| | |done|].
      * intros Ha0 Hn0. apply Hns, W2; [by apply F1|]. apply F3; [done|]. by apply (so_next _ (si_stalls _ _ Hs)).
      * intros Hv ->. destruct (so_spawn _ (si_stalls _ _ Hs) Hv) as (Ha0 & Hn0 & _).
        apply Hns, W2; [by apply F1|]. apply F3; [done|]. by apply (so_next _ (si_stalls _ _ Hs)).
      * change (warp (clock_stalls s4) wid) with (warp s4 wid). congruence.
  - simpl. do 4 eexists. split; [done|]. split; [by apply clock_inv|].
    constructor; simpl; try done; [set_solver|]. intros w H1' H2'. right. by apply Hback.
Qed.

(** ** Mask updates, traps and the distributor's operations *)

Lemma upd_warp_inv s k wid w' :
  sched_inv s k -> wid ∈ active_warps_ s -> fits (ipdom_stack w') (tmask w') -> sized (mscratch_tmask w') ->
  m_any (tmask w') = true -> sched_inv (upd_warp s wid w') k.
Proof using Hcfg HM.
  intros [Hm Hst Hc Hf] Hw H1' H2' H3'. destruct Hst, Hf. constructor; try done.
  apply (masks_ok_upd _ (active_warps_ s)); try done; [by apply (mo_active _ _ Hm)|].
  rewrite H3'. symmetry. by apply bool_decide_eq_true.
Qed.

(** The mask and the saved mask of an active warp. *)
Lemma warp_sized s k wid :
  sched_inv s k -> wid ∈ active_warps_ s ->
  fits (ipdom_stack (warp s wid)) (tmask (warp s wid)) /\ m_any (tmask (warp s wid)) = true
  /\ sized (mscratch_tmask (warp s wid)).
Proof using Hcfg HM.
  intros [Hm _ _ _] Hw. pose proof (mo_active _ _ Hm _ Hw) as Hr. destruct (mo_tmask _ _ Hm _ Hr) as [Hs Ha].
  rewrite bool_decide_eq_true_2 in Ha by done. split; [done|]. split; [done|]. by apply (mo_saved _ _ Hm).
Qed.

Lemma retire_ok s wid :
  fwd_ok s -> forall s', fwd_ s' = retire_fragment (fwd_ s) wid -> active_warps_ s' = active_warps_ s ∖ {[wid]} ->
  fwd_ok s'.
Proof using Hcfg HM.
  intros [F1 F2 F3 F4 F5] s' Ef Ea. unfold retire_fragment in Ef.
  destruct (bool_decide_reflect (wid ∈ fwd_is_fragment_ (fwd_ s))) as [Hin|Hni];
    constructor; rewrite Ef, ?Ea; simpl; try done.
  - set_solver.
  - rewrite F3, size_difference, size_singleton by set_solver.
    assert (1 <= size (fwd_is_fragment_ (fwd_ s)))%nat.
    { destruct (size (fwd_is_fragment_ (fwd_ s))) eqn:E; [|lia]. apply size_empty_inv in E. set_solver. }
    unfold u64. rewrite Zplus_mod_idemp_l. f_equal. lia.
  - apply u64_range.
  - intros Ha. rewrite F5 in Hin by done. set_solver.
  - set_solver.
Qed.

(** Updating a warp and then its mask. *)
Lemma upd_then_mask (s : Scheduler M) wid w' m :
  0 <= wid < Z.of_nat (length (warps_ s)) ->
  upd_warp (upd_warp s wid w') wid (warp_set_tmask (warp (upd_warp s wid w') wid) m)
  = upd_warp s wid (warp_set_tmask w' m).
Proof using.
  intros Hw. unfold upd_warp at 1 3, warp, upd_warp. simpl. rewrite vget_vset_eq by done.
  unfold set_warps, vset. simpl. by rewrite list_insert_insert_eq.
Qed.

(** [setTmask] after an update [w'] of the warp's other members. *)
Lemma setTmask_inv s k wid w' m :
  sched_inv s k -> wid ∈ active_warps_ s -> fits (ipdom_stack w') m -> sized (mscratch_tmask w') ->
  (m_any m = false -> ipdom_stack w' = []) -> (ws_valid (wspawn_ s) = true -> wid <> 0) ->
  exists s', setTmask (upd_warp s wid w') wid m = Some (m_any m, s') /\ sched_inv s' k
    /\ active_warps_ s' = (if m_any m then active_warps_ s else active_warps_ s ∖ {[wid]})
    /\ stalled_warps_next_ s' = stalled_warps_next_ s /\ wspawn_ s' = wspawn_ s
    /\ warps_ s' = vset (warps_ s) wid (warp_set_tmask w' m).
Proof using Hcfg HM.
  intros Hs Hw Hm Hsv Hidle Hsp. pose proof (mo_active _ _ (si_masks _ _ Hs) _ Hw) as Hr.
  unfold setTmask. rewrite upd_then_mask by (rewrite (mo_len _ _ (si_masks _ _ Hs)); lia).
  destruct (m_any m) eqn:Ha; cbn [negb].
  { eexists. split; [done|]. split; [by apply upd_warp_inv|done]. }
  destruct Hs as [Hmk Hst [Hrem [live Hc]] Hf].
  destruct (warp_done_some _ _ _ Hc Hr) as [d Ed]. simpl in Ed. simpl. rewrite Ed. simpl.
  eexists. split; [done|]. split; [|done]. constructor; simpl.
  - apply (masks_ok_upd _ (active_warps_ s)); simpl; try done; [set_solver| |intros _; by apply Hidle].
    rewrite Ha. symmetry. apply bool_decide_eq_false. set_solver.
  - destruct Hst as [S1 S2]. constructor; simpl; [done|]. intros Hv. destruct (S2 Hv) as (? & ? & ?).
    pose proof (Hsp Hv). set_solver.
  - split; simpl.
    + unfold warp_done in Ed. repeat case_match; try done; injection Ed as <-; exact Hrem.
    + exists (delete wid live). exact (warp_done_inv _ _ wid d Hc Hr Ed).
  - by apply (retire_ok s wid).
Qed.

Lemma wspawn_inv s k n pc :
  sched_inv s k -> 0 ∈ active_warps_ s -> 0 ∈ stalled_warps_next_ s ->
  sched_inv (wspawn s n pc).2 k.
Proof using Hcfg HM.
  intros [Hm Hst Hc Hf] Ha Hn. unfold wspawn. case_match; simpl; [by constructor|].
  destruct Hf. constructor; try done. destruct Hst. constructor; simpl; [done|]. intros _. split_and!; try done. lia.
Qed.

Lemma advance_pc_inv s k wid e inc :
  sched_inv s k -> wid ∈ active_warps_ s -> sched_inv (advance_pc s wid e inc) k.
Proof using Hcfg HM.
  intros Hs Hw. unfold advance_pc. case_match; [done|]. destruct (warp_sized _ _ _ Hs Hw) as (? & ? & ?).
  by apply upd_warp_inv.
Qed.

Lemma raise_trap_inv s k wid c pc :
  sched_inv s k -> wid ∈ active_warps_ s -> sched_inv (raise_trap s wid c pc) k.
Proof using Hcfg HM.
  intros Hs Hw. destruct (warp_sized _ _ _ Hs Hw) as (? & ? & ?). apply upd_warp_inv; try done.
  by eapply fits_sized.
Qed.

Lemma set_trap_inv s k ia ep lm sn : sched_inv s k -> sched_inv (set_trap s ia ep lm sn) k.
Proof using Hcfg HM. intros [Hm Hst Hc Hf]. by destruct Hst, Hf. Qed.

Lemma mret_inv h sb s k wid cyc :
  sched_inv s k -> wid ∈ active_warps_ s ->
  (m_any (mscratch_tmask (warp s wid)) = true -> fits (ipdom_stack (warp s wid)) (mscratch_tmask (warp s wid))) ->
  sched_inv (mret h sb s wid cyc).1 k.
Proof using Hcfg HM.
  intros Hs Hw Hfit. destruct (warp_sized _ _ _ Hs Hw) as (? & ? & ?). unfold mret. simpl.
  apply set_trap_inv, upd_warp_inv; try done; simpl; destruct (m_any (mscratch_tmask _)) eqn:E; auto.
Qed.

Lemma async_trap_inv h sb s k wid c pc m fl :
  sched_inv s k -> wid ∈ active_warps_ s -> fits (ipdom_stack (warp s wid)) m -> m_any m = true ->
  (ws_valid (wspawn_ s) = true -> wid <> 0) ->
  exists s' sb', raise_async_trap h sb s wid c pc m fl = Some (s', sb') /\ sched_inv s' k
    /\ active_warps_ s' = active_warps_ s /\ wspawn_ s' = wspawn_ s
    /\ stalled_warps_next_ s' = stalled_warps_next_ s ∖ {[wid]}.
Proof using Hcfg HM.
  intros Hs Hw Hm Ha Hv. unfold raise_async_trap.
  set (pc' := if fl =? 0 then pc else fl).
  assert (H2' : sched_inv (upd_warp (raise_trap s wid c pc') wid
            (warp_set_tmask (warp (raise_trap s wid c pc') wid) m)) k).
  { pose proof (raise_trap_inv _ _ _ c pc' Hs Hw) as H1'.
    destruct (warp_sized _ _ wid H1' Hw) as (_ & _ & ?). apply upd_warp_inv; try done. simpl.
    unfold warp at 1, raise_trap. simpl. rewrite vget_vset_eq; [done|].
    rewrite (mo_len _ _ (si_masks _ _ Hs)). pose proof (mo_active _ _ (si_masks _ _ Hs) _ Hw). lia. }
  set (s2 := upd_warp _ _ _) in *.
  destruct (bool_decide_reflect (wid ∈ stalled_warps_next_ s2)) as [Hin|Hni].
  - assert (Hr := resume_some s2 wid Hw Hin). rewrite Hr. simpl. destruct (snapshot_warp h sb wid) as [snap sb'].
    do 2 eexists. split; [done|]. split; [|done].
    by apply set_trap_inv, (resume_inv s2 k wid).
  - simpl. destruct (snapshot_warp h sb wid) as [snap sb'].
    do 2 eexists. split; [done|]. split; [by apply set_trap_inv|]. split_and!; try done.
    simpl. set_solver.
Qed.

(** The operations of the distributor, with the state they are called in. *)
Inductive fwd_event :=
| FwdArm (entry param : Z)
| FwdPush (w : FwdWave M)
| FwdDrained
| FwdRequest
| FwdResponse
| FwdDisarm.

Definition fwd_exec (s : Scheduler M) (e : fwd_event) : Scheduler M :=
  match e with
  | FwdArm en pa => fwd_arm s en pa
  | FwdPush w => fwd_push_wave s w
  | FwdDrained => fwd_mark_drained s
  | FwdRequest => fwd_on_request s
  | FwdResponse => fwd_on_response s
  | FwdDisarm => fwd_disarm s
  end.

Definition fwd_event_ok (s : Scheduler M) (e : fwd_event) : Prop :=
  match e with
  | FwdArm _ _ => fwd_armed_ (fwd_ s) = false
  | FwdPush w => wave_ok w
  | FwdDisarm => fwd_done s = true
  | _ => True
  end.

Lemma active_size s k : sched_inv s k -> (size (active_warps_ s) <= nwarps)%nat.
Proof using Hcfg HM.
  intros Hs. transitivity (size (list_to_set (range NUM_WARPS) : gset Z)).
  - apply subseteq_size. intros w Hw. apply elem_of_list_to_set, elem_of_range.
    by apply (mo_active _ _ (si_masks _ _ Hs)).
  - rewrite size_list_to_set by apply NoDup_range. unfold range. by rewrite length_fmap, length_seq.
Qed.

(** The epoch is over exactly when no wave is queued or live. *)
Lemma fwd_done_idle s k : sched_inv s k -> fwd_done s = true ->
  fwd_is_fragment_ (fwd_ s) = ∅ /\ fwd_waves_ (fwd_ s) = [].
Proof using Hcfg HM.
  intros Hs Hd. unfold fwd_done in Hd. rewrite !andb_true_iff, !Z.eqb_eq in Hd.
  destruct Hd as [[[[_ _] Hw] _] Hl]. destruct (si_fwd _ _ Hs) as [_ F2 F3 F4 _].
  pose proof (active_size _ _ Hs) as Hsz. pose proof (subseteq_size _ _ F2). pose proof num_warps_ok.
  split; [|by destruct (fwd_waves_ (fwd_ s))].
  apply leibniz_equiv, size_empty_inv. rewrite Hl in F3. unfold u64 in F3.
  set (n := size (fwd_is_fragment_ (fwd_ s))) in *. set (r := fwd_retired_ (fwd_ s)) in *.
  destruct (Z.lt_ge_cases (r + Z.of_nat n) (2 ^ 64)) as [Hlt|Hge].
  - rewrite Z.mod_small in F3 by lia. lia.
  - rewrite <- (Z.mod_unique (r + Z.of_nat n) (2 ^ 64) 1 (r + Z.of_nat n - 2 ^ 64)) in F3 by lia. lia.
Qed.

Lemma set_fwd_inv s k f : sched_inv s k -> fwd_ok (set_fwd s f) -> sched_inv (set_fwd s f) k.
Proof using Hcfg HM. intros [Hm Hst Hc _] Hf. by destruct Hst. Qed.

Lemma fwd_exec_inv s k e : sched_inv s k -> fwd_event_ok s e -> sched_inv (fwd_exec s e) k.
Proof using Hcfg HM.
  intros Hs He. pose proof (si_fwd _ _ Hs) as [F1 F2 F3 F4 F5].
  destruct e as [en pa|w| | | |]; simpl in *; try (apply set_fwd_inv; [done|]; by constructor).
  - apply set_fwd_inv; [done|]. constructor; simpl; try done. by rewrite F5.
  - apply set_fwd_inv; [done|]. constructor; simpl; try done. apply Forall_app. split; [done|]. by constructor.
  - unfold fwd_on_response. case_match; [done|]. apply set_fwd_inv; [done|]. by constructor.
  - apply set_fwd_inv; [done|]. constructor; simpl; try done. intros _. by apply (fwd_done_idle s k).
Qed.

Lemma new_inv : sched_inv Scheduler_new Kmu_new.
Proof using Hcfg HM.
  pose proof num_warps_ok. pose proof num_threads_ok. assert (0 <= NUM_THREADS) as H0n by lia.
  assert (Hs : sized (m_new NUM_THREADS)).
  { eexists. split; [apply m_new_rep; lia|]. by rewrite length_replicate. }
  constructor.
  - constructor; simpl; [by rewrite length_replicate|set_solver| | |];
      intros w Hw; rewrite vget_replicate by lia; simpl; [split; [by apply fits_nil|]|done..].
    rewrite (m_any_rep _ _ (m_new_rep NUM_THREADS H0n)), bool_decide_eq_false_2 by set_solver.
    induction (Z.to_nat NUM_THREADS) as [|n IH]; [done|exact IH].
  - constructor; simpl; done.
  - split; [done|]. exists ∅. apply sys_init_inv.
  - by constructor.
Qed.
End Inv.

(** ** Trap round trip *)

Section Trap.
Context `{Hcfg : VxConfigOk} `{HM : MaskSpec M}.

Lemma mret_warp h sb (s : Scheduler M) wid cyc :
  0 <= wid < Z.of_nat (length (warps_ s)) ->
  warp (mret h sb s wid cyc).1 wid =
    let w := warp s wid in
    mk_warp (ipdom_stack w) (if m_any (mscratch_tmask w) then mscratch_tmask w else tmask w)
      (mepc w) (fcsr w) (uuid w) (mscratch w) (mstatus w) (mtvec w) (mepc w) (mcause w) (mtval w)
      (mscratch_tmask w) (cta_csrs w).
Proof using. intros Hw. unfold mret, warp at 1. simpl. by rewrite vget_vset_eq. Qed.

(** C32. An asynchronous trap saves exactly what the return restores: after
    [raise_async_trap] and [mret] the warp runs again with its thread mask,
    its IPDOM stack and its CTA registers, at the oldest flushed instruction
    (or at the trap's program counter when nothing was flushed); while the
    handler runs, it runs at [mtvec] under the narrowed mask, and the decode
    of an instruction fetched before the trap does not move its program
    counter. *)
Theorem async_trap_returns h sb sb1 (s s1 : Scheduler M) wid cause trap_pc m flushed cycles inc :
  0 <= wid < NUM_WARPS -> length (warps_ s) = Z.to_nat NUM_WARPS -> length (trap_epoch_ s) = Z.to_nat NUM_WARPS ->
  0 <= vget (trap_epoch_ s) wid < 2 ^ 32 -> m_any (tmask (warp s wid)) = true ->
  raise_async_trap h sb s wid cause trap_pc m flushed = Some (s1, sb1) ->
  (tmask (warp s1 wid) = m /\ PC (warp s1 wid) = Z.land (mtvec (warp s wid)) (lnot_w XLEN 3)
   /\ advance_pc s1 wid (vget (trap_epoch_ s) wid) inc = s1)
  /\ let w := warp s wid in
     let w2 := warp (mret h sb1 s1 wid cycles).1 wid in
     tmask w2 = tmask w /\ ipdom_stack w2 = ipdom_stack w /\ cta_csrs w2 = cta_csrs w
     /\ PC w2 = (if flushed =? 0 then trap_pc else flushed).
Proof using Hcfg.
  intros Hw Hl Hle Hep Hany E. unfold raise_async_trap in E.
  set (pc := if flushed =? 0 then trap_pc else flushed) in *.
  assert (Hr : 0 <= wid < Z.of_nat (length (warps_ s))) by lia.
  set (s2 := upd_warp (raise_trap s wid cause pc) wid _) in E.
  assert (Hs2 : warp s2 wid = mk_warp (ipdom_stack (warp s wid)) m (Z.land (mtvec (warp s wid)) (lnot_w XLEN 3))
    (fcsr (warp s wid)) (uuid (warp s wid)) (mscratch (warp s wid)) (mstatus (warp s wid)) (mtvec (warp s wid))
    pc cause 0 (tmask (warp s wid)) (cta_csrs (warp s wid))).
  { unfold s2, upd_warp, raise_trap, warp at 1. simpl. rewrite vget_vset_eq by (by rewrite length_vset).
    unfold warp at 1, raise_trap. simpl. by rewrite vget_vset_eq. }
  assert (Hlen : length (warps_ s2) = Z.to_nat NUM_WARPS) by (simpl; by rewrite !length_vset).
  destruct (if bool_decide _ then _ else _) as [s3|] eqn:E3; [|done]. simpl in E.
  assert (H3 : warps_ s3 = warps_ s2 /\ trap_epoch_ s3 = trap_epoch_ s).
  { case_match; [|by injection E3 as <-]. unfold resume in E3. case_match; [|done]. by injection E3 as <-. }
  destruct H3 as [Hw3 He3]. destruct (snapshot_warp h sb wid) as [snap sb'].
  injection E as <- <-. change (warp (set_trap s3 _ _ _ _) wid) with (warp s3 wid).
  assert (Hww : warp s3 wid = warp s2 wid) by (unfold warp; by rewrite Hw3).
  split.
  - rewrite Hww, Hs2. simpl. split_and!; try done. unfold advance_pc. simpl. rewrite He3, vget_vset_eq by lia.
    rewrite (proj2 (Z.eqb_neq _ _)); [done|]. unfold u32.
    destruct (Z.eq_dec (vget (trap_epoch_ s) wid) (2 ^ 32 - 1)) as [->|]; [done|]. rewrite Z.mod_small; lia.
  - cbv zeta. rewrite mret_warp by (simpl; rewrite Hw3, Hlen; lia).
    change (warp (set_trap s3 _ _ _ _) wid) with (warp s3 wid). rewrite Hww, Hs2. simpl. by rewrite Hany.
Qed.
End Trap.

(** Warp 0 of a running core takes an asynchronous trap. *)
Definition demo_sched : Scheduler bits :=
  let s := @Scheduler_new default_config bits _ in
  set_masks (upd_warp s 0 (warp_set_tmask (@warp default_config bits _ s 0) [true; true; false; false])) {[0]} ∅ ∅.

Definition demo_trap : option (Scheduler bits * Scoreboard) :=
  @raise_async_trap default_config bits _ ex_heap Scoreboard_reset demo_sched 0 24 0x80000020 [true; false; false; false] 0.

Lemma async_trap_returns_witness :
  exists s1 sb1, demo_trap = Some (s1, sb1)
    /\ tmask (@warp default_config bits _ s1 0) = [true; false; false; false]
    /\ tmask (@warp default_config bits _ (@mret default_config bits _ ex_heap sb1 s1 0 100).1 0) = [true; true; false; false].
Proof.
  destruct demo_trap as [[s1 sb1]|] eqn:E; [|exfalso; vm_compute in E; discriminate].
  exists s1, sb1. split; [reflexivity|].
  destruct (@async_trap_returns default_config default_config_ok bits bits_mask ex_heap Scoreboard_reset sb1
    demo_sched s1 0 24 0x80000020 [true; false; false; false] 0 100 4) as [[H1 _] [H2 _]];
    try (vm_compute; reflexivity); try exact E.
  - simpl. lia.
  - vm_compute. split; [discriminate|reflexivity].
  - split; [exact H1|exact H2].
Defined.
