(* ===== verification/Alu.v ===== *)
(** * Integer unit — [sim/simx/alu_unit.cpp]

    [AluUnit::execute]: the integer arithmetic, vote, shuffle, gather, branch
    and multiply/divide operations over the lanes of a warp.  [None] is an
    abort, an index out of range or a shift by at least the operand width.
    Signed arithmetic wraps. *)

From S2P Require Import Prelude Mask Bitmanip Isa IsaSem Instr Decompress Decode Scoreboard Scheduler.

(** The members of the trace that [execute] reads; register values are
    unsigned words. *)
Record alu_trace (M : Type) := mk_alu_trace {
  at_wid : Z;
  at_PC : Z;
  at_tmask : M;
  at_op : OpType;
  at_args : IntrArgs;
  at_rs1 : list Z;
  at_rs2 : list Z;
  at_rs3 : list Z
}.
Arguments mk_alu_trace {M}. Arguments at_wid {M}. Arguments at_PC {M}. Arguments at_tmask {M}. Arguments at_op {M}.
Arguments at_args {M}. Arguments at_rs1 {M}. Arguments at_rs2 {M}. Arguments at_rs3 {M}.

(** What [execute] leaves: the destination values, the trace's mask, the
    scheduler and the scoreboard. *)
Record alu_result (M : Type) := mk_alu_result {
  ar_dst : list Z;
  ar_tmask : M;
  ar_sched : Scheduler M;
  ar_sb : Scoreboard
}.
Arguments mk_alu_result {M}. Arguments ar_dst {M}. Arguments ar_tmask {M}. Arguments ar_sched {M}. Arguments ar_sb {M}.

Section Alu.
Context `{Hcfg : VxConfig} `{MO : MaskOps M}.

(** [AluUnit::latency_of] *)
Definition latency_of (op : OpType) : option Z :=
  match op with
  | OpAlu _ | OpVote _ | OpShfl _ | OpWgather _ | OpBr _ => Some 2
  | OpMdv (MUL | MULHU | MULH | MULHSU) => Some 2
  | OpMdv (DIV | DIVU | REM | REMU) => Some (XLEN + 2)
  | _ => None
  end.

(** ** Lane arithmetic *)

(** [sext((uint64_t)r, 32)] stored in a [WordI]; [r] is a 32-bit result
    converted to [uint64_t]. *)
Definition sext_w (r : Z) : option Z := v ← sext 64 (u64 r) 32; Some (word v).

(** [x << n], [x >> n] at width [w]. *)
Definition shl_w (w x n : Z) : option Z := if n <? w then Some (Z.shiftl x n mod 2 ^ w) else None.
Definition shr_w (w x n : Z) : option Z := if n <? w then Some (Z.shiftr x n) else None.

Definition shamt_mask : Z := word (word (Z.shiftl 1 (log2up 32 XLEN)) - 1).

(** [case AluType]: the value for lane [t]. *)
Definition alu_lane (op : AluType) (a : IntrAluArgs) (pc imm : Z) (rs1 rs2 : list Z) (t : Z) : option Z :=
  let is_w := rv64 && alu_is_w a in
  let opd := if alu_is_imm a then Some imm else vat rs2 t in
  let opd32 := if alu_is_imm a then Some (alu_imm a) else u32 <$> vat rs2 t in
  match op with
  | LUI => Some imm
  | AUIPC => Some (word (imm + pc))
  | ADD =>
      x ← vat rs1 t;
      if is_w then y ← opd32; sext_w (sint 32 (sint 32 x + sint 32 y)) else y ← opd; Some (word (x + y))
  | SUB =>
      x ← vat rs1 t;
      if is_w then y ← opd32; sext_w (sint 32 (sint 32 x - sint 32 y)) else y ← opd; Some (word (x - y))
  | SLT => x ← vat rs1 t; y ← opd; Some (b01 (sint XLEN x <? sint XLEN y))
  | SLTU => x ← vat rs1 t; y ← opd; Some (b01 (x <? y))
  | SLL =>
      x ← vat rs1 t;
      if is_w then y ← opd32; r ← shl_w 32 (u32 x) (Z.land y shamt_mask); sext_w r
      else y ← opd; shl_w XLEN x (Z.land y shamt_mask)
  | SRA =>
      x ← vat rs1 t;
      if is_w then y ← opd32; r ← shr_w 32 (sint 32 x) (Z.land y shamt_mask); sext_w (u32 r)
      else y ← opd; r ← shr_w XLEN (sint XLEN x) (Z.land y shamt_mask); Some (word r)
  | SRL =>
      x ← vat rs1 t;
      if is_w then y ← opd32; r ← shr_w 32 (u32 x) (Z.land y shamt_mask); sext_w r
      else y ← opd; shr_w XLEN x (Z.land y shamt_mask)
  | AND => x ← vat rs1 t; y ← opd; Some (Z.land x y)
  | OR => x ← vat rs1 t; y ← opd; Some (Z.lor x y)
  | XOR => x ← vat rs1 t; y ← opd; Some (Z.lxor x y)
  | CZERO =>
      y ← vat rs2 t;
      if negb (Z.lxor (b01 (y =? 0)) (alu_imm a) =? 0) then Some 0 else vat rs1 t
  end.

(** [quotient] and [remainder] of [DIV] and [REM] at width [w]. *)
Definition sdiv (w x y : Z) : Z :=
  if y =? 0 then -1 else if (x =? - 2 ^ (w - 1)) && (y =? -1) then x else Z.quot x y.
Definition srem (w x y : Z) : Z :=
  if y =? 0 then x else if (x =? - 2 ^ (w - 1)) && (y =? -1) then 0 else Z.rem x y.
Definition udiv (w x y : Z) : Z := if negb (y =? 0) then x / y else 2 ^ w - 1.
Definition urem (x y : Z) : Z := if negb (y =? 0) then x mod y else x.

(** [DWord] *)
Definition dword (x : Z) : Z := x mod 2 ^ (2 * XLEN).

(** [case MdvType] *)
Definition mdv_lane (op : MdvType) (a : IntrMdvArgs) (rs1 rs2 : list Z) (t : Z) : option Z :=
  let is_w := rv64 && mdv_is_w a in
  x ← vat rs1 t; y ← vat rs2 t;
  let i := sint XLEN in
  match op with
  | MUL => if is_w then sext_w (sint 32 (sint 32 x * sint 32 y)) else Some (word (i x * i y))
  | MULH => Some (word (Z.shiftr (i x * i y) XLEN))
  | MULHSU => Some (word (Z.shiftr (dword (dword (i x) * y)) XLEN))
  | MULHU => Some (word (Z.shiftr (dword (x * y)) XLEN))
  | DIV => if is_w then sext_w (sdiv 32 (sint 32 x) (sint 32 y)) else Some (word (sdiv XLEN (i x) (i y)))
  | DIVU => if is_w then sext_w (udiv 32 (u32 x) (u32 y)) else Some (udiv XLEN x y)
  | REM => if is_w then sext_w (srem 32 (sint 32 x) (sint 32 y)) else Some (word (srem XLEN (i x) (i y)))
  | REMU => if is_w then sext_w (urem (u32 x) (u32 y)) else Some (urem x y)
  end.

(** The lane loop: [dst_data] starts zeroed and inactive lanes are skipped. *)
Definition lane_loop (m : M) (f : Z -> option Z) : option (list Z) :=
  mapM (fun t => if m_test m t then f t else Some 0) (range NUM_THREADS).

(** ** Vote and shuffle *)

(** The scan: whether an active lane votes true, whether one votes false, and
    the ballot. *)
Definition vote_step (m : M) (rs1 : list Z) (acc : option (bool * bool * Z)) (t : Z) : option (bool * bool * Z) :=
  '(vt, vf, ballot) ← acc;
  if m_test m t then
    x ← vat rs1 t;
    if negb (Z.land x 1 =? 0) then
      if t <? XLEN then Some (true, vf, Z.lor ballot (word (Z.shiftl 1 t))) else None
    else Some (vt, true, ballot)
  else acc.

Definition vote_scan (m : M) (rs1 : list Z) : option (bool * bool * Z) :=
  fold_left (vote_step m rs1) (range NUM_THREADS) (Some (false, false, 0)).

Definition vote (op : VoteType) (m : M) (rs1 : list Z) : option (list Z) :=
  '(vt, vf, ballot) ← vote_scan m rs1;
  let v := match op with
           | ALL => b01 (negb vf)
           | ANY => b01 vt
           | UNI => b01 (negb vt || negb vf)
           | BAL => ballot
           end in
  Some ((fun t => if thread_start m <=? t then v else 0) <$> range NUM_THREADS).

(** The source lane of lane [t] and whether it is in the segment. *)
Definition shfl_lane (op : ShflType) (bc t : Z) : Z * bool :=
  let bval := Z.land (Z.shiftr bc 0) 0x3f in
  let cval := Z.land (Z.shiftr bc 6) 0x3f in
  let mask := Z.land (Z.shiftr bc 12) 0x3f in
  let maxLane := Z.lor (Z.land t mask) (Z.land cval (Z.lnot mask)) in
  let minLane := Z.land t mask in
  match op with
  | UP => let lane := t - bval in (lane, minLane <=? lane)
  | DOWN => let lane := t + bval in (lane, lane <=? maxLane)
  | BFLY => let lane := Z.lxor t bval in (lane, lane <=? maxLane)
  | IDX => let lane := Z.lor minLane (Z.land bval (Z.lnot mask)) in (lane, lane <=? maxLane)
  end.

Definition shfl (op : ShflType) (rs1 rs2 : list Z) (t : Z) : option Z :=
  bc ← vat rs2 t;
  let '(lane, pval) := shfl_lane op (sint XLEN bc) t in
  let lane := if pval then lane else t in
  if lane <? NUM_THREADS then vat rs1 lane else vat rs1 t.

(** ** Gather *)

Definition last_tid (active : M) : Z :=
  fold_left (fun l t => if (thread_start active <=? t) && m_test active t then t else l) (range NUM_THREADS)
    (thread_start active).

(** [active.test(nominal)] throws beyond the last lane. *)
Definition wgather_lane (active : M) (src t : Z) (rs1 rs2 rs3 : list Z) : option (option Z) :=
  let nominal := Z.land t (lnot_w 32 3) + src in
  if nominal <? NUM_THREADS then
    let sl := if m_test active nominal then nominal else last_tid active in
    let offset := Z.land (u32 (t - nominal)) 3 in
    if offset =? 1 then Some <$> vat rs1 sl
    else if offset =? 2 then Some <$> vat rs2 sl
    else if offset =? 3 then Some <$> vat rs3 sl
    else Some None
  else None.

Definition wgather_step (active : M) (src : Z) (rs1 rs2 rs3 : list Z) (acc : option (M * list Z)) (t : Z)
    : option (M * list Z) :=
  '(m, rd) ← acc;
  if t <? thread_start active then acc
  else if Z.land t 3 =? src then Some (m_assign m t false, rd)
  else
    v ← wgather_lane active src t rs1 rs2 rs3;
    Some (m_assign m t true, match v with Some v => vset rd t v | None => rd end).

Definition wgather (m : M) (src : Z) (rs1 rs2 rs3 : list Z) : option (M * list Z) :=
  fold_left (wgather_step m src rs1 rs2 rs3) (range NUM_THREADS) (Some (m, replicate (Z.to_nat NUM_THREADS) 0)).

(** ** Branches *)

Definition br_taken (cmp x y : Z) : option bool :=
  match cmp with
  | 0 => Some (sint XLEN x =? sint XLEN y)
  | 1 => Some (negb (sint XLEN x =? sint XLEN y))
  | 4 => Some (sint XLEN x <? sint XLEN y)
  | 5 => Some (sint XLEN y <=? sint XLEN x)
  | 6 => Some (x <? y)
  | 7 => Some (y <=? x)
  | _ => None
  end.

Definition jump (s : Scheduler M) (wid pc : Z) : Scheduler M := upd_warp s wid (warp_set_PC (warp s wid) pc).

(** [case BrType]; [heap] and [cycles] are what [Scheduler::mret] uses. *)
Definition execute_br (heap : tid -> instr_trace_t) (cycles : Z) (s : Scheduler M) (sb : Scoreboard)
    (tr : alu_trace M) (op : BrType) (a : IntrBrArgs) : option (alu_result M) :=
  let m := at_tmask tr in
  let zeros := replicate (Z.to_nat NUM_THREADS) 0 in
  offset ← sext XLEN (br_offset a) 32;
  let link := word (at_PC tr + (if br_is_rvc a then 2 else 4)) in
  match op with
  | BR =>
      x ← vat (at_rs1 tr) (thread_last m); y ← vat (at_rs2 tr) (thread_last m);
      taken ← br_taken (br_cmp a) x y;
      Some (mk_alu_result zeros m (if taken : bool then jump s (at_wid tr) (word (at_PC tr + offset)) else s) sb)
  | JAL =>
      dst ← lane_loop m (fun _ => Some link);
      Some (mk_alu_result dst m (jump s (at_wid tr) (word (at_PC tr + offset))) sb)
  | JALR =>
      dst ← lane_loop m (fun _ => Some link);
      x ← vat (at_rs1 tr) (thread_last m);
      Some (mk_alu_result dst m (jump s (at_wid tr) (word (x + offset))) sb)
  | SYS =>
      if br_offset a =? 0x000 then Some (mk_alu_result zeros m (trigger_ecall s (at_wid tr) (at_PC tr)) sb)
      else if br_offset a =? 0x001 then Some (mk_alu_result zeros m (trigger_ebreak s (at_wid tr) (at_PC tr)) sb)
      else if (br_offset a =? 0x002) || (br_offset a =? 0x102) || (br_offset a =? 0x302) then
        let '(s', sb') := mret heap sb s (at_wid tr) cycles in Some (mk_alu_result zeros m s' sb')
      else None
  end.

(** [AluUnit::execute] *)
Definition execute (heap : tid -> instr_trace_t) (cycles : Z) (s : Scheduler M) (sb : Scoreboard) (tr : alu_trace M)
    : option (alu_result M) :=
  let m := at_tmask tr in
  let lanes (f : Z -> option Z) := dst ← lane_loop m f; Some (mk_alu_result dst m s sb) in
  match at_op tr, at_args tr with
  | OpAlu op, AluArgs a =>
      imm ← sext XLEN (alu_imm a) 32;
      lanes (alu_lane op a (at_PC tr) imm (at_rs1 tr) (at_rs2 tr))
  | OpVote op, _ => dst ← vote op m (at_rs1 tr); Some (mk_alu_result dst m s sb)
  | OpShfl op, _ => lanes (shfl op (at_rs1 tr) (at_rs2 tr))
  | OpWgather WGATHER, WgatherArgs a =>
      '(m', dst) ← wgather m (src_lane a) (at_rs1 tr) (at_rs2 tr) (at_rs3 tr);
      Some (mk_alu_result dst m' s sb)
  | OpBr op, BrArgs a => execute_br heap cycles s sb tr op a
  | OpMdv op, MdvArgs a => lanes (mdv_lane op a (at_rs1 tr) (at_rs2 tr))
  | _, _ => None
  end.
End Alu.

(** ** Words *)

Section Words.
Context `{Hcfg : VxConfig} {Hok : VxConfigOk}.

Lemma xlen_pos : 32 <= XLEN <= 64.
Proof using Hok. destruct xlen_cases; lia. Qed.

Lemma word_range x : 0 <= word x < 2 ^ XLEN.
Proof using Hok. apply Z.mod_pos_bound. pose proof xlen_pos. lia. Qed.

Lemma word_small x : 0 <= x < 2 ^ XLEN -> word x = x.
Proof using. apply Z.mod_small. Qed.

Lemma word_sint w x : XLEN <= w -> word (sint w x) = word x.
Proof using Hok. intros. pose proof xlen_pos. apply sint_mod; lia. Qed.

Lemma sint_eq w x y : x mod 2 ^ w = y mod 2 ^ w -> sint w x = sint w y.
Proof using. unfold sint. by intros ->. Qed.

Lemma sint_sint w x : 1 <= w -> sint w (sint w x) = sint w x.
Proof using. intros. apply sint_eq. apply sint_mod; lia. Qed.

Lemma word_eq_sint x y : 0 <= x < 2 ^ XLEN -> sint XLEN x = y -> x = word y.
Proof using Hok. intros Hx <-. by rewrite word_sint, word_small by lia. Qed.

Lemma sext_imm32 imm : 0 <= imm < 2 ^ 32 -> sext XLEN imm 32 = Some (sext32 imm).
Proof using Hok.
  intros Hi. pose proof xlen_pos. assert (2 ^ 32 <= 2 ^ XLEN) by (apply Z.pow_le_mono_r; lia).
  destruct (sext_preserves_value XLEN imm 32) as (r & -> & Hr & E);
    [unfold std_width; destruct xlen_cases; lia | lia | lia |].
  f_equal. by apply word_eq_sint.
Qed.

Lemma sext_w_ok r : sext_w r = Some (sext32 r).
Proof using Hok.
  unfold sext_w. destruct (sext_preserves_value 64 (u64 r) 32) as (v & -> & Hr & E);
    [unfold std_width; lia | apply u64_range | lia |].
  cbn. f_equal. rewrite <- (word_sint 64) by (pose proof xlen_pos; lia). rewrite E. unfold sext32. f_equal.
  apply sint_eq. unfold u64. by rewrite Z.mod_mod_divide by (by exists (2 ^ 32)).
Qed.

Lemma shamt_mod y : Z.land y shamt_mask = y mod XLEN.
Proof using Hok.
  unfold shamt_mask, word. destruct xlen_cases as [E|E]; rewrite E.
  - change (Z.land y (_ mod _)) with (Z.land y (2 ^ 5 - 1)). rewrite land_ones_slice by lia. unfold slice. by rewrite Z.div_1_r.
  - change (Z.land y (_ mod _)) with (Z.land y (2 ^ 6 - 1)). rewrite land_ones_slice by lia. unfold slice. by rewrite Z.div_1_r.
Qed.
End Words.

(** ** One lane computes the reference value *)

Section Lane.
Context `{Hcfg : VxConfig} {Hok : VxConfigOk}.

Definition lane (op : OpType) (args : IntrArgs) (pc : Z) (rs1 rs2 : list Z) (t : Z) : option Z :=
  match op, args with
  | OpAlu op, AluArgs a => imm ← sext XLEN (alu_imm a) 32; alu_lane op a pc imm rs1 rs2 t
  | OpMdv op, MdvArgs a => mdv_lane op a rs1 rs2 t
  | _, _ => None
  end.

Lemma shl_w_ok w x n : 0 <= n < w -> shl_w w x n = Some (x * 2 ^ n mod 2 ^ w).
Proof using. intros. unfold shl_w. rewrite (proj2 (Z.ltb_lt n w)), Z.shiftl_mul_pow2 by lia. done. Qed.

Lemma shr_w_ok w x n : 0 <= n < w -> shr_w w x n = Some (x / 2 ^ n).
Proof using. intros. unfold shr_w. rewrite (proj2 (Z.ltb_lt n w)), Z.shiftr_div_pow2 by lia. done. Qed.

Lemma shamt_bound y : 0 <= y mod XLEN < XLEN.
Proof using Hok. apply Z.mod_pos_bound. pose proof xlen_pos. lia. Qed.

Lemma sint_zero w x : 1 <= w -> 0 <= x < 2 ^ w -> (sint w x =? 0) = (x =? 0).
Proof using.
  intros Hw Hx. assert (0 < 2 ^ (w - 1)) by (apply Z.pow_pos_nonneg; lia).
  unfold sint. rewrite Z.mod_small by lia. repeat (case_match || bool_cases); done || lia.
Qed.

Lemma sint_inj w x y : 1 <= w -> 0 <= x < 2 ^ w -> 0 <= y < 2 ^ w -> sint w x = sint w y -> x = y.
Proof using.
  intros Hw Hx Hy E. apply (f_equal (fun z => z mod 2 ^ w)) in E. rewrite !sint_mod in E by lia.
  by rewrite !Z.mod_small in E.
Qed.

Lemma word_mul_sint x y : word (sint XLEN x * sint XLEN y) = word (x * y).
Proof using Hok.
  unfold word. pose proof xlen_pos. rewrite Z.mul_mod by lia. rewrite !sint_mod by lia. by rewrite <- Z.mul_mod by lia.
Qed.

Lemma high_half z : word (Z.shiftr (dword z) XLEN) = word (z / 2 ^ XLEN).
Proof using Hok.
  pose proof xlen_pos. unfold dword, word. rewrite Z.shiftr_div_pow2 by lia.
  replace (z mod 2 ^ (2 * XLEN)) with (slice z 0 (2 * XLEN)) by (unfold slice; by rewrite Z.div_1_r).
  change (slice (slice z 0 (2 * XLEN)) XLEN XLEN = slice z XLEN XLEN). by rewrite slice_slice by lia.
Qed.

(** The overflowing quotient wraps to the dividend. *)
Lemma sdiv_wrap w x y : 1 <= w -> y <> 0 -> sdiv w x y mod 2 ^ w = Z.quot x y mod 2 ^ w.
Proof using.
  intros Hw Hy. unfold sdiv. rewrite (proj2 (Z.eqb_neq y 0)) by done.
  destruct ((x =? _) && _) eqn:E; [|done]. apply andb_true_iff in E as [Ex%Z.eqb_eq Ey%Z.eqb_eq]. subst x y.
  change (-1) with (- (1)). rewrite Z.quot_opp_opp, Z.quot_1_r by lia.
  apply (proj2 (Z.cong_iff_ex (- 2 ^ (w - 1)) (2 ^ (w - 1)) (2 ^ w))). exists (-1).
  replace w with (Z.succ (w - 1)) at 3 by lia. rewrite Z.pow_succ_r by lia. lia.
Qed.

Lemma srem_ok w x y : y <> 0 -> srem w x y = Z.rem x y.
Proof using.
  intros Hy. unfold srem. rewrite (proj2 (Z.eqb_neq y 0)) by done.
  destruct ((x =? _) && _) eqn:E; [|done]. apply andb_true_iff in E as [_ Ey%Z.eqb_eq]. subst y.
  change (-1) with (- (1)). by rewrite Z.rem_opp_r, Z.rem_1_r by lia.
Qed.

Lemma word_m1 : word (-1) = 2 ^ XLEN - 1.
Proof using Hok. pose proof xlen_pos. unfold word. symmetry. apply Zmod_unique with (-1); [|lia]. assert (0 < 2 ^ XLEN) by lia. lia. Qed.

Lemma rop_lane o a b pc rs1 rs2 t :
  vat rs1 t = Some a -> vat rs2 t = Some b -> 0 <= a < 2 ^ XLEN -> 0 <= b < 2 ^ XLEN ->
  lane (rop_op o).1 (rop_op o).2 pc rs1 rs2 t = Some (rop_sem o a b).
Proof using Hok.
  intros E1 E2 Ha Hb. pose proof xlen_pos. pose proof (shamt_bound b).
  destruct o; cbn [rop_op fst snd lane alu_imm]; rewrite ?(sext_imm32 0), ?(sext_imm32 1) by lia; cbn [mbind option_bind];
    unfold alu_lane, mdv_lane; cbn [alu_is_w alu_is_imm mdv_is_w alu_imm]; rewrite ?E1, ?E2, ?andb_false_r;
    cbn [mbind option_bind rop_sem]; rewrite ?shamt_mod; unfold sgn.
  1, 2, 4, 5, 6, 9, 10: done.
  - by rewrite shl_w_ok by lia.
  - by rewrite shr_w_ok by lia.
  - by rewrite shr_w_ok by lia.
  - by rewrite word_mul_sint.
  - by rewrite Z.shiftr_div_pow2 by lia.
  - assert (dword (dword (sint XLEN a) * b) = dword (sint XLEN a * b)) as -> by (unfold dword; rewrite Z.mul_mod_idemp_l; lia).
    by rewrite high_half.
  - rewrite high_half, word_small; [done|]. split; [apply Z.div_pos; nia|]. apply Z.div_lt_upper_bound; nia.
  - rewrite <- (sint_zero XLEN b) by lia. destruct (Z.eqb_spec (sint XLEN b) 0) as [E|E].
    + rewrite E. unfold sdiv. simpl. by rewrite word_m1.
    + f_equal. apply sdiv_wrap; [lia | done].
  - unfold udiv. by destruct (b =? 0).
  - rewrite <- (sint_zero XLEN b) by lia. destruct (Z.eqb_spec (sint XLEN b) 0) as [E|E].
    + rewrite E. unfold srem. simpl. by rewrite word_sint, word_small by lia.
    + by rewrite srem_ok.
  - unfold urem. by destruct (b =? 0).
  - by destruct (b =? 0).
  - by destruct (b =? 0).
Qed.
End Lane.

Section LaneW.
Context `{Hcfg : VxConfig} {Hok : VxConfigOk}.

Lemma sext32_eq x y : x mod 2 ^ 32 = y mod 2 ^ 32 -> sext32 x = sext32 y.
Proof using. intros E. unfold sext32. f_equal. by apply sint_eq. Qed.

Lemma sint32_mod x : sint 32 x mod 2 ^ 32 = x mod 2 ^ 32.
Proof using. apply sint_mod; lia. Qed.

Lemma add32 x y : sint 32 (sint 32 x + sint 32 (u32 y)) mod 2 ^ 32 = (u32 x + u32 y) mod 2 ^ 32.
Proof using. rewrite sint32_mod, Z.add_mod, !sint32_mod, <- Z.add_mod by lia. unfold u32. rewrite Z.add_mod_idemp_l by lia. done. Qed.

Lemma sub32 x y : sint 32 (sint 32 x - sint 32 (u32 y)) mod 2 ^ 32 = (u32 x - u32 y) mod 2 ^ 32.
Proof using. rewrite sint32_mod, Zminus_mod, !sint32_mod, <- Zminus_mod. unfold u32. by rewrite Zminus_mod_idemp_l. Qed.

Lemma mul32 x y : sint 32 (sint 32 x * sint 32 y) mod 2 ^ 32 = (u32 x * u32 y) mod 2 ^ 32.
Proof using. rewrite sint32_mod, Z.mul_mod, !sint32_mod by lia. done. Qed.

Lemma sint32_zero y : (sint 32 y =? 0) = (u32 y =? 0).
Proof using. rewrite <- (sint_zero 32 (u32 y)); [|lia | apply u32_range]. f_equal. apply sint_eq. unfold u32. by rewrite Z.mod_mod. Qed.

(** Register word shifts take their amount modulo 64 and are only defined
    below 32. *)
Definition w_shift_defined (o : rwop) (b : Z) : bool :=
  match o with w_sllw | w_srlw | w_sraw => u32 b mod 64 <? 32 | _ => true end.

Lemma w_shamt b : rv64 = true -> u32 b mod 64 < 32 -> Z.land (u32 b) shamt_mask = u32 b mod 32 /\ 0 <= u32 b mod 32 < 32.
Proof using Hok.
  intros E Hb. rewrite shamt_mod. apply rv64_true in E. rewrite E. split; [|apply Z.mod_pos_bound; lia].
  rewrite <- (Z.mod_small (u32 b mod 64) 32) by (pose proof (Z.mod_pos_bound (u32 b) 64); lia).
  rewrite Z.mod_mod_divide by (by exists 2). done.
Qed.

Lemma rwop_lane o a b pc rs1 rs2 t :
  rv64 = true -> vat rs1 t = Some a -> vat rs2 t = Some b -> w_shift_defined o b = true ->
  lane (rwop_op o).1 (rwop_op o).2 pc rs1 rs2 t = Some (rwop_sem o a b).
Proof using Hok.
  intros E64 E1 E2 Hd. 
  destruct o; cbn [rwop_op fst snd lane alu_imm]; rewrite ?(sext_imm32 0) by lia; cbn [mbind option_bind];
    unfold alu_lane, mdv_lane; cbn [alu_is_w alu_is_imm mdv_is_w alu_imm]; rewrite E64, ?E1, ?E2;
    cbn [mbind option_bind fmap option_fmap option_map andb rwop_sem];
    try (apply Z.ltb_lt in Hd; destruct (w_shamt b E64 Hd) as [-> Hb]).
  - rewrite sext_w_ok. f_equal. apply sext32_eq, add32.
  - rewrite sext_w_ok. f_equal. apply sext32_eq, sub32.
  - rewrite shl_w_ok by lia. cbn [mbind option_bind]. rewrite sext_w_ok. f_equal. apply sext32_eq. by rewrite Z.mod_mod by lia.
  - rewrite shr_w_ok by lia. cbn [mbind option_bind]. by rewrite sext_w_ok.
  - rewrite shr_w_ok by lia. cbn [mbind option_bind]. rewrite sext_w_ok. f_equal. apply sext32_eq. unfold u32. by rewrite Z.mod_mod by lia.
  - rewrite sext_w_ok. f_equal. apply sext32_eq, mul32.
  - rewrite sext_w_ok. f_equal. apply sext32_eq. destruct (Z.eqb_spec (sint 32 b) 0) as [E|E]; [by rewrite E|].
    by apply sdiv_wrap.
  - rewrite sext_w_ok. f_equal. apply sext32_eq. unfold udiv. by destruct (u32 b =? 0).
  - rewrite sext_w_ok. f_equal. apply sext32_eq. destruct (Z.eqb_spec (sint 32 b) 0) as [E|E]; [by rewrite E|].
    by rewrite srem_ok.
  - rewrite sext_w_ok. f_equal. apply sext32_eq. unfold urem. by destruct (u32 b =? 0).
Qed.

Lemma sext32_u32 imm : - 2 ^ 31 <= imm < 2 ^ 31 -> sext32 (u32 imm) = word imm.
Proof using. intros. unfold sext32. by rewrite sint_u32. Qed.

Lemma iop_lane o a imm pc rs1 rs2 t :
  vat rs1 t = Some a -> 0 <= a < 2 ^ XLEN -> - 2 ^ 11 <= imm < 2 ^ 11 ->
  lane (OpAlu (iop_type o)) (AluArgs (mk_alu_args true false (u32 imm))) pc rs1 rs2 t = Some (rop_sem (iop_rop o) a (word imm)).
Proof using Hok.
  intros E1 Ha Hi. pose proof (u32_range imm).
  destruct o; cbn [lane iop_type alu_imm]; rewrite sext_imm32, sext32_u32 by lia; cbn [mbind option_bind];
    unfold alu_lane; cbn [alu_is_w alu_is_imm]; rewrite E1, ?andb_false_r; done.
Qed.

Lemma shop_lane o a sh pc rs1 rs2 t :
  vat rs1 t = Some a -> 0 <= a < 2 ^ XLEN -> 0 <= sh < XLEN ->
  lane (OpAlu (shop_type o)) (AluArgs (mk_alu_args true false sh)) pc rs1 rs2 t = Some (rop_sem (shop_rop o) a sh).
Proof using Hok.
  intros E1 Ha Hs. pose proof xlen_pos. assert (2 ^ 32 <= 2 ^ XLEN) by (apply Z.pow_le_mono_r; lia).
  assert (E : sext32 sh = sh) by (rewrite <- (u32_small sh) at 1 by lia; rewrite sext32_u32, word_small by lia; done).
  destruct o; cbn [lane shop_type alu_imm]; rewrite sext_imm32, E by lia; cbn [mbind option_bind];
    unfold alu_lane; cbn [alu_is_w alu_is_imm]; rewrite E1, ?andb_false_r; cbn [mbind option_bind rop_sem shop_rop];
    rewrite shamt_mod; [rewrite shl_w_ok | rewrite shr_w_ok | rewrite shr_w_ok]; done || apply shamt_bound.
Qed.

Lemma addiw_lane a imm pc rs1 rs2 t :
  rv64 = true -> vat rs1 t = Some a -> - 2 ^ 11 <= imm < 2 ^ 11 ->
  lane (OpAlu ADD) (AluArgs (mk_alu_args true true (u32 imm))) pc rs1 rs2 t = Some (rwop_sem w_addw a (word imm)).
Proof using Hok.
  intros E64 E1 Hi. pose proof (u32_range imm). cbn [lane alu_imm]. rewrite sext_imm32 by done. cbn [mbind option_bind].
  unfold alu_lane. cbn [alu_is_w alu_is_imm alu_imm]. rewrite E1, E64. cbn [mbind option_bind andb rwop_sem]. rewrite sext_w_ok. f_equal.
  apply sext32_eq. rewrite add32. f_equal. f_equal. unfold u32, word. pose proof xlen_pos.
  rewrite Z.mod_mod_divide; [done|]. exists (2 ^ (XLEN - 32)). rewrite <- Z.pow_add_r by lia. f_equal. lia.
Qed.

Lemma shiw_lane o a sh pc rs1 rs2 t :
  rv64 = true -> vat rs1 t = Some a -> 0 <= sh < 32 ->
  lane (OpAlu (shop_type o)) (AluArgs (mk_alu_args true true sh)) pc rs1 rs2 t = Some (rwop_sem (shop_rwop o) a sh).
Proof using Hok.
  intros E64 E1 Hs. assert (u32 sh = sh) as Eu by (apply u32_small; lia).
  destruct (w_shamt sh E64) as [Em Hm]; [rewrite Eu, Z.mod_small; lia|]. rewrite Eu in Em, Hm.
  destruct o; cbn [lane shop_type alu_imm]; rewrite sext_imm32 by lia; cbn [mbind option_bind];
    unfold alu_lane; cbn [alu_is_w alu_is_imm alu_imm]; rewrite E1, E64; cbn [mbind option_bind andb]; unfold rwop_sem; cbn [shop_rwop];
    rewrite Em, Eu; [rewrite shl_w_ok | rewrite shr_w_ok | rewrite shr_w_ok]; try done; cbn [mbind option_bind]; rewrite sext_w_ok; f_equal;
    apply sext32_eq; unfold u32; rewrite ?Z.mod_mod by lia; done.
Qed.
End LaneW.

(** ** Decode and execute *)

Section Exec.
Context `{Hcfg : VxConfig} {Hok : VxConfigOk} `{Hisa : IsaConfig} `{HM : MaskSpec M}.

(** The trace of a decoded instruction. *)
Definition trace_of (wid pc : Z) (m : M) (rs1 rs2 rs3 : list Z) (i : Instr) : alu_trace M :=
  mk_alu_trace wid pc m (op_type_ i) (args_ i) rs1 rs2 rs3.

(** The operand vector [v] of a decoded instruction holds [g t] for every
    active lane [t]; nothing is assumed of an operand the instruction does
    not name. *)
Definition operand (i : Instr) (n : nat) (m : M) (v : list Z) (g : Z -> Z) : Prop :=
  reg_type (get_src_reg n i) <> RegNone ->
  forall t, 0 <= t < NUM_THREADS -> m_test m t = true -> vat v t = Some (g t) /\ 0 <= g t < 2 ^ XLEN.

Lemma alu_lane_used op a a' pc imm imm' rs1 rs2 t :
  alu_is_imm a = false -> alu_is_imm a' = false -> alu_is_w a = alu_is_w a' ->
  match op with LUI | AUIPC | CZERO => False | _ => True end ->
  alu_lane op a pc imm rs1 rs2 t = alu_lane op a' pc imm' rs1 rs2 t.
Proof using. intros E1 E2 E3 Ho. unfold alu_lane. rewrite E1, E2, E3. by destruct op. Qed.

Lemma mapM_ext_range {A} (f g : Z -> option A) n :
  (forall t, 0 <= t < n -> f t = g t) -> mapM f (range n) = mapM g (range n).
Proof using.
  intros Hfg. assert (forall l, (forall t, t ∈ l -> f t = g t) -> mapM f l = mapM g l) as Hl.
  { induction l as [|t l IH]; intros Hl; [done|]. cbn. rewrite (Hl t) by left.
    rewrite IH by (intros; apply Hl; by right). done. }
  apply Hl. intros t Ht. by apply Hfg, elem_of_range.
Qed.

Lemma lane_loop_ext (m : M) f g :
  (forall t, 0 <= t < NUM_THREADS -> m_test m t = true -> f t = g t) -> lane_loop m f = lane_loop m g.
Proof using.
  intros Hfg. apply mapM_ext_range. intros t Ht. destruct (m_test m t) eqn:E; [by apply Hfg | done].
Qed.

Lemma sext_32_some y : exists v, sext XLEN y 32 = Some v.
Proof using Hok.
  unfold sext. pose proof xlen_pos. rewrite (proj2 (Z.leb_le 32 XLEN)) by lia. cbn [andb]. change (1 <? 32) with true.
  destruct (32 =? XLEN); by eexists.
Qed.

(** Fields that an operation does not use do not change its execution. *)
Lemma execute_canonical heap cycles s sb wid pc (m : M) rs1 rs2 rs3 i :
  execute heap cycles s sb (trace_of wid pc m rs1 rs2 rs3 (canonical i)) =
  execute heap cycles s sb (trace_of wid pc m rs1 rs2 rs3 i).
Proof using Hok.
  unfold trace_of, canonical. destruct i as [u fu op args srcs rd mo ws]. cbn [op_type_ args_ set_args].
  destruct op; try done.
  destruct args as [[[] w imm]|?|?|?|?|?|?|?|?| |?|?| |?]; try (by destruct t).
  destruct (sext_32_some imm) as [v Ev], (sext_32_some 0) as [v0 E0].
  destruct t; try done; cbn [used_args execute at_op at_args alu_imm at_tmask at_PC at_rs1 at_rs2];
    rewrite Ev, E0; cbn [mbind option_bind]; (erewrite lane_loop_ext; [done|]);
    intros; by apply alu_lane_used.
Qed.

Lemma lane_loop_some (m : M) f g :
  (forall t, 0 <= t < NUM_THREADS -> m_test m t = true -> f t = Some (g t)) ->
  lane_loop m f = Some ((fun t => if m_test m t then g t else 0) <$> range NUM_THREADS).
Proof using.
  intros Hfg. unfold lane_loop. rewrite (mapM_ext_range _ (fun t => Some (if m_test m t then g t else 0))).
  - generalize (range NUM_THREADS). intros l. induction l as [|t l IH]; [done|]. cbn. by rewrite IH.
  - intros t Ht. destruct (m_test m t) eqn:E; [by apply Hfg | done].
Qed.

(** Computational instructions: the register word shifts must be defined. *)
Definition shift_defined (i : rv_instr) (b : Z) : bool :=
  match i with rv_opw o _ _ _ => w_shift_defined o b | _ => true end.

Lemma value_lane i f uuid rvc pc rs1 rs2 t a b :
  rv_valid i = true -> (forall a b, rv_value i pc a b = Some (f a b)) -> shift_defined i b = true ->
  (reg_type (get_src_reg 0 (instr_of uuid rvc i)) <> RegNone -> vat rs1 t = Some a /\ 0 <= a < 2 ^ XLEN) ->
  (reg_type (get_src_reg 1 (instr_of uuid rvc i)) <> RegNone -> vat rs2 t = Some b /\ 0 <= b < 2 ^ XLEN) ->
  lane (op_type_ (instr_of uuid rvc i)) (args_ (instr_of uuid rvc i)) pc rs1 rs2 t = Some (f a b).
Proof using Hok.
  intros Hv Hf Hd H1 H2. specialize (Hf a b). rewrite <- Hf.
  destruct i; cbn [rv_value] in *; try discriminate Hf; split_rv Hv; cbn [instr_of instr op_type_ args_] in *;
    try (specialize (H1 ltac:(discriminate)) as [E1 Ha]); try (specialize (H2 ltac:(discriminate)) as [E2 Hb]).
  - cbn [lane alu_imm]. rewrite sext_imm32 by lia. done.
  - cbn [lane alu_imm]. rewrite sext_imm32 by lia. cbn. by rewrite Z.add_comm.
  - by apply rop_lane.
  - by apply iop_lane.
  - by apply shop_lane.
  - by apply rwop_lane.
  - by apply addiw_lane.
  - by apply shiw_lane.
Qed.

Lemma execute_lanes heap cycles s sb wid pc (m : M) rs1 rs2 rs3 i g :
  (forall t, 0 <= t < NUM_THREADS -> m_test m t = true -> lane (op_type_ i) (args_ i) pc rs1 rs2 t = Some (g t)) ->
  match op_type_ i, args_ i with OpAlu _, AluArgs _ | OpMdv _, MdvArgs _ => True | _, _ => False end ->
  execute heap cycles s sb (trace_of wid pc m rs1 rs2 rs3 i) =
  Some (mk_alu_result ((fun t => if m_test m t then g t else 0) <$> range NUM_THREADS) m s sb).
Proof using Hok.
  unfold trace_of, execute. cbn [at_tmask at_op at_args at_PC at_rs1 at_rs2].
  destruct (op_type_ i); try done; destruct (args_ i); try done; cbn [lane]; intros Hl _.
  - destruct (sext_32_some (alu_imm a)) as [v E]. rewrite E in *. cbn in Hl |- *. by rewrite (lane_loop_some m _ g).
  - by rewrite (lane_loop_some m _ g).
Qed.

(** [code] is a fetched word for the instruction [i]: its encoding, or a word
    whose lower half is a compressed instruction that stands for it. *)
Definition codes (code : Z) (rvc : bool) (i : rv_instr) : Prop :=
  if rvc then exists c, c_valid c = true /\ cexpand c = i /\ 0 <= code < 2 ^ 32 /\ code mod 2 ^ 16 = cencode c
  else code = encode i.

Lemma decoded_as strict uuid code rvc i :
  rv_valid i = true -> codes code rvc i ->
  exists ins, decode strict code uuid = Some ins /\ canonical ins = instr_of uuid rvc i.
Proof using Hok.
  intros Hv Hc. assert (canonical <$> decode strict code uuid = Some (instr_of uuid rvc i)) as E.
  { destruct rvc; cbn in Hc.
    - destruct Hc as (c & Hcv & Ei & Hr & Ec). subst i.
      apply (proj1 (decode_rvc strict uuid code Hr ltac:(rewrite <- (Z.mod_mod_divide code (2 ^ 16) 4) by (by exists (2 ^ 14));
        rewrite Ec; apply cencode_16bit)) c); done.
    - subst code. unfold decode. rewrite encode_32bit. cbn [mbind option_bind]. by apply decodes_all. }
  destruct (decode strict code uuid) as [ins|]; [|done]. exists ins. split; [done|]. by injection E.
Qed.

Lemma execute_value uuid heap cycles s sb wid pc (m : M) rs1 rs2 rs3 ins rvc i (f : Z -> Z -> Z) (a b : Z -> Z) :
  rv_valid i = true -> canonical ins = instr_of uuid rvc i -> (forall x y, rv_value i pc x y = Some (f x y)) ->
  operand (instr_of uuid rvc i) 0 m rs1 a -> operand (instr_of uuid rvc i) 1 m rs2 b ->
  (forall t, 0 <= t < NUM_THREADS -> m_test m t = true -> shift_defined i (b t) = true) ->
  execute heap cycles s sb (trace_of wid pc m rs1 rs2 rs3 ins) =
  Some (mk_alu_result ((fun t => if m_test m t then f (a t) (b t) else 0) <$> range NUM_THREADS) m s sb).
Proof using Hok.
  intros Hv Ec Hf H1 H2 Hd. rewrite <- execute_canonical, Ec. apply execute_lanes.
  - intros t Ht Hm. apply value_lane; eauto.
  - specialize (Hf 0 0). destruct i; try discriminate Hf; cbn; try done; try by destruct o.
Qed.

(** The integer unit implements the instruction set: a valid
    computational instruction of the base, M and Zicond extensions, decoded
    from its full or compressed encoding and executed, gives every active lane the value the
    specification assigns to its operands (division by zero and overflow
    included), zero to the others, and changes neither the mask, the warps nor
    the scoreboard.  Register word shifts are required to have an amount
    below 32. *)
Theorem alu_executes_isa strict uuid heap cycles s sb wid pc (m : M) rs1 rs2 rs3 code rvc i (f : Z -> Z -> Z)
    (a b : Z -> Z) :
  rv_valid i = true -> codes code rvc i -> (forall x y, rv_value i pc x y = Some (f x y)) ->
  operand (instr_of uuid rvc i) 0 m rs1 a -> operand (instr_of uuid rvc i) 1 m rs2 b ->
  (forall t, 0 <= t < NUM_THREADS -> m_test m t = true -> shift_defined i (b t) = true) ->
  exists ins, decode strict code uuid = Some ins /\
    execute heap cycles s sb (trace_of wid pc m rs1 rs2 rs3 ins) =
    Some (mk_alu_result ((fun t => if m_test m t then f (a t) (b t) else 0) <$> range NUM_THREADS) m s sb).
Proof using Hok.
  intros Hv Hc Hf H1 H2 Hd. destruct (decoded_as strict uuid code rvc i Hv Hc) as (ins & Ed & Ec).
  exists ins. split; [done|]. by eapply execute_value.
Qed.

(** ** Control transfers *)

Lemma br_taken_ok o x y : 0 <= x < 2 ^ XLEN -> 0 <= y < 2 ^ XLEN -> br_taken (brop_f3 o) x y = Some (brop_sem o x y).
Proof using Hok.
  intros Hx Hy. pose proof xlen_pos.
  assert ((sint XLEN x =? sint XLEN y) = (x =? y)) as E.
  { destruct (Z.eqb_spec x y) as [->|Hn]; [apply Z.eqb_refl|]. apply Z.eqb_neq. intros E. by apply sint_inj in E; [|lia..]. }
  destruct o; cbn [br_taken brop_f3 brop_sem]; rewrite ?E; done.
Qed.

Lemma word_add_l x y : word (x + word y) = word (x + y).
Proof using Hok. unfold word. apply Zplus_mod_idemp_r. Qed.

Lemma clear_bit0 x : 0 <= x < 2 ^ XLEN -> x mod 2 = 0 -> Z.land x (lnot_w XLEN 1) = x.
Proof using Hok.
  intros Hx He. pose proof xlen_pos. apply Z.bits_inj'. intros i Hi. rewrite Z.land_spec. unfold lnot_w. rewrite Z.lxor_spec.
  destruct (Z.lt_ge_cases i XLEN) as [Hl|Hl].
  - rewrite Z.ones_spec_low by lia. destruct (Z.eq_dec i 0) as [->|Hn].
    + pose proof (Z.bit0_mod x) as Eb. rewrite He in Eb. by destruct (Z.testbit x 0).
    + change 1 with (2 ^ 0). rewrite Z.pow2_bits_false by lia. by rewrite andb_true_r.
  - assert (Z.testbit x i = false) as ->; [|done]. rewrite <- (Z.mod_small x (2 ^ XLEN)) by lia.
    apply Z.mod_pow2_bits_high. lia.
Qed.

Lemma zeros_range n : replicate (Z.to_nat n) 0 = (fun _ => 0) <$> range n.
Proof using.
  unfold range. generalize (Z.to_nat n) 0%nat. intros k. induction k as [|k IH]; intros j; [done|]. cbn. by rewrite (IH (S j)).
Qed.

(** Whether the target of an indirect jump is even. *)
Definition target_even (i : rv_instr) (a : Z) : bool :=
  match i with rv_jalr _ _ off => (a + off) mod 2 =? 0 | _ => true end.

Definition is_transfer (i : rv_instr) : bool :=
  match i with rv_branch _ _ _ _ | rv_jal _ _ | rv_jalr _ _ _ => true | _ => false end.

Definition links (i : rv_instr) : bool := match i with rv_jal _ _ | rv_jalr _ _ _ => true | _ => false end.

(** A branch or jump, executed by a warp with an active lane, sets the
    program counter to the target the specification gives for the operands of
    the last active lane, and leaves it when a branch is not taken; jumps give
    every active lane the address after the instruction. *)
Lemma execute_transfer uuid heap cycles s sb wid pc (m : M) l rs1 rs2 rs3 ins rvc i (a b : Z -> Z) :
  rv_valid i = true -> canonical ins = instr_of uuid rvc i -> is_transfer i = true ->
  m_rep m l -> Z.of_nat (length l) = NUM_THREADS -> m_any m = true ->
  operand (instr_of uuid rvc i) 0 m rs1 a -> operand (instr_of uuid rvc i) 1 m rs2 b ->
  target_even i (a (thread_last m)) = true ->
  execute heap cycles s sb (trace_of wid pc m rs1 rs2 rs3 ins) =
  Some (mk_alu_result
    ((fun t => if m_test m t && links i then word (pc + (if rvc then 2 else 4)) else 0) <$> range NUM_THREADS) m
    match rv_target i pc (a (thread_last m)) (b (thread_last m)) with Some p => jump s wid p | None => s end sb).
Proof using Hok HM.
  intros Hv Ec Ht Hm Hl Ha H1 H2 He. rewrite <- execute_canonical, Ec. destruct (thread_last_test m l Hm Hl Ha) as [Hr Hat].
  assert (forall n v g, operand (instr_of uuid rvc i) n m v g -> reg_type (get_src_reg n (instr_of uuid rvc i)) <> RegNone ->
    vat v (thread_last m) = Some (g (thread_last m)) /\ 0 <= g (thread_last m) < 2 ^ XLEN) as Ho by (intros n v g Hg Hn; by apply Hg).
  specialize (Ho 0%nat rs1 a H1) as Ho1. specialize (Ho 1%nat rs2 b H2) as Ho2. clear H1 H2 Ho.
  destruct i; try discriminate Ht; split_rv Hv; unfold trace_of, execute; cbn [instr_of instr op_type_ args_] in *;
    cbn [at_tmask at_op at_args]; unfold execute_br; cbn [br_offset br_cmp br_is_rvc at_PC at_rs1 at_rs2 at_tmask at_wid];
    rewrite sext_imm32, sext32_u32 by (apply u32_range || lia); cbn [mbind option_bind].
  - destruct (Ho1 ltac:(discriminate)) as [-> Hx], (Ho2 ltac:(discriminate)) as [-> Hy]. cbn [mbind option_bind].
    rewrite br_taken_ok by done. cbn [mbind option_bind rv_target links]. rewrite word_add_l. f_equal. f_equal.
    + rewrite zeros_range. apply list_fmap_ext. intros; by rewrite andb_false_r.
    + by destruct (brop_sem o _ _).
  - rewrite (lane_loop_some m _ (fun _ => word (pc + (if rvc then 2 else 4)))) by done.
    cbn [mbind option_bind rv_target links]. rewrite word_add_l. f_equal. f_equal.
    apply list_fmap_ext. intros; by rewrite andb_true_r.
  - rewrite (lane_loop_some m _ (fun _ => word (pc + (if rvc then 2 else 4)))) by done.
    destruct (Ho1 ltac:(discriminate)) as [-> Hx]. cbn [mbind option_bind rv_target links target_even] in *. rewrite word_add_l.
    rewrite clear_bit0; [|apply word_range|].
    + f_equal. f_equal. apply list_fmap_ext. intros; by rewrite andb_true_r.
    + apply Z.eqb_eq in He. unfold word. rewrite Z.mod_mod_divide; [done|]. pose proof xlen_pos.
      exists (2 ^ (XLEN - 1)). rewrite Z.mul_comm, <- Z.pow_succ_r by lia. f_equal. lia.
Qed.
End Exec.

(** ** Vote, shuffle and gather *)

Section Cooperative.
Context `{Hcfg : VxConfig} {Hok : VxConfigOk} `{HM : MaskSpec M}.

Lemma lane_loop_none (m : M) f t :
  0 <= t < NUM_THREADS -> m_test m t = true -> f t = None -> lane_loop m f = None.
Proof using.
  intros Ht Hm Hf. unfold lane_loop. apply elem_of_range in Ht. revert Ht. generalize (range NUM_THREADS). intros l.
  induction l as [|u l IH]; [by intros ?%elem_of_nil|]. intros [->|Hl]%list.elem_of_cons; cbn.
  - by rewrite Hm, Hf.
  - destruct (if m_test m u then f u else Some 0); [|done]. cbn. by rewrite IH.
Qed.

(** The lanes below [n] that are active and vote true, or false. *)
Definition voters (m : M) (a : Z -> Z) (v : bool) (n : nat) : bool :=
  existsb (fun t => m_test m t && eqb (Z.odd (a t)) v) (Z.of_nat <$> seq 0 n).

Lemma voters_S m a v n : voters m a v (S n) = voters m a v n || (m_test m (Z.of_nat n) && eqb (Z.odd (a (Z.of_nat n))) v).
Proof using. unfold voters. rewrite seq_S, fmap_app, existsb_app. cbn. by rewrite orb_false_r. Qed.

Lemma odd_bit x : negb (Z.land x 1 =? 0) = Z.odd x.
Proof using.
  rewrite (land_mask x 1 1) by lia. unfold slice. rewrite Z.div_1_r, Zmod_odd. by destruct (Z.odd x).
Qed.

(** The scan of the first [n] lanes. *)
Lemma vote_scan_prefix (m : M) rs1 a n :
  Z.of_nat n <= NUM_THREADS -> NUM_THREADS <= XLEN ->
  (forall t, 0 <= t < NUM_THREADS -> m_test m t = true -> vat rs1 t = Some (a t)) ->
  exists ballot,
    fold_left (vote_step m rs1) (Z.of_nat <$> seq 0 n) (Some (false, false, 0)) =
      Some (voters m a true n, voters m a false n, ballot) /\
    forall i, Z.testbit ballot i = (0 <=? i) && (i <? Z.of_nat n) && m_test m i && Z.odd (a i).
Proof using Hok.
  intros Hn Hx Hv. induction n as [|n IH].
  - exists 0. split; [done|]. intros i. rewrite Z.bits_0. destruct (Z.leb_spec 0 i), (Z.ltb_spec i (Z.of_nat 0)); done || lia.
  - destruct IH as (ballot & E & Hb); [lia|]. rewrite seq_S, fmap_app, fold_left_app, E. cbn [fmap list_fmap fold_left Nat.add].
    rewrite !voters_S. unfold vote_step. cbn [mbind option_bind]. destruct (m_test m (Z.of_nat n)) eqn:Em; cbn [andb].
    + rewrite (Hv (Z.of_nat n)) by (done || lia). cbn [mbind option_bind]. rewrite odd_bit.
      destruct (Z.odd (a (Z.of_nat n))) eqn:Eo; cbn [eqb].
      * rewrite (proj2 (Z.ltb_lt (Z.of_nat n) XLEN)) by lia. rewrite orb_true_r, orb_false_r. eexists. split; [done|].
        intros i. rewrite Z.lor_spec, Hb. rewrite Z.shiftl_1_l, word_small by (split; [lia|apply Z.pow_lt_mono_r; lia]).
        rewrite Z.pow2_bits_eqb by lia. destruct (Z.eqb_spec (Z.of_nat n) i) as [<-|Hne].
        -- rewrite Em, Eo. rewrite (proj2 (Z.leb_le _ _)), (proj2 (Z.ltb_lt (Z.of_nat n) (Z.of_nat (S n)))) by lia.
           by rewrite orb_true_r.
        -- rewrite orb_false_r. do 2 f_equal. destruct (Z.ltb_spec i (Z.of_nat n)), (Z.ltb_spec i (Z.of_nat (S n))); done || lia.
      * rewrite orb_true_r, orb_false_r. exists ballot. split; [done|]. intros i. rewrite Hb.
        destruct (Z.eq_dec i (Z.of_nat n)) as [->|Hne]; [by rewrite Eo, !andb_false_r|].
        do 2 f_equal. destruct (Z.ltb_spec i (Z.of_nat n)), (Z.ltb_spec i (Z.of_nat (S n))); done || lia.
    + rewrite !orb_false_r. exists ballot. split; [done|]. intros i. rewrite Hb.
      destruct (Z.eq_dec i (Z.of_nat n)) as [->|Hne]; [by rewrite Em, !andb_false_r|].
      do 2 f_equal. destruct (Z.ltb_spec i (Z.of_nat n)), (Z.ltb_spec i (Z.of_nat (S n))); done || lia.
Qed.

(** The value of a vote over the active lanes. *)
Definition vote_sem (op : VoteType) (m : M) (a : Z -> Z) (v : Z) : Prop :=
  let all p := forall t, 0 <= t < NUM_THREADS -> m_test m t = true -> Z.odd (a t) = p in
  match op with
  | ALL => v = 1 /\ all true \/ v = 0 /\ ~ all true
  | ANY => v = 0 /\ all false \/ v = 1 /\ ~ all false
  | UNI => v = 1 /\ (all true \/ all false) \/ v = 0 /\ ~ (all true \/ all false)
  | BAL => forall i, Z.testbit v i = (0 <=? i) && (i <? NUM_THREADS) && m_test m i && Z.odd (a i)
  end.

Lemma voters_false m a v :
  voters m a v (Z.to_nat NUM_THREADS) = false <->
  forall t, 0 <= t < NUM_THREADS -> m_test m t = true -> Z.odd (a t) = negb v.
Proof using.
  unfold voters. fold (range NUM_THREADS). split.
  - intros E t Ht Hm. destruct (eqb (Z.odd (a t)) v) eqn:Eo; [|by destruct (Z.odd (a t)), v].
    assert (existsb (fun t => m_test m t && eqb (Z.odd (a t)) v) (range NUM_THREADS) = true) as E'; [|congruence].
    apply existsb_exists. exists t. split; [by apply list_elem_of_In, elem_of_range | by rewrite Hm, Eo].
  - intros Hall. apply not_true_iff_false. intros (t & Hin & E)%existsb_exists. apply list_elem_of_In, elem_of_range in Hin.
    apply andb_true_iff in E as [Em Eo]. rewrite (Hall t Hin Em) in Eo. by destruct v.
Qed.

Lemma voters_true m a v :
  voters m a v (Z.to_nat NUM_THREADS) = true <->
  ~ forall t, 0 <= t < NUM_THREADS -> m_test m t = true -> Z.odd (a t) = negb v.
Proof using. rewrite <- voters_false. by destruct (voters _ _ _ _). Qed.

Lemma vote_ok op (m : M) rs1 a :
  NUM_THREADS <= XLEN -> (forall t, 0 <= t < NUM_THREADS -> m_test m t = true -> vat rs1 t = Some (a t)) ->
  exists v, vote op m rs1 = Some ((fun t => if thread_start m <=? t then v else 0) <$> range NUM_THREADS) /\ vote_sem op m a v.
Proof using Hok.
  intros Hx Hv. pose proof num_threads_ok.
  destruct (vote_scan_prefix m rs1 a (Z.to_nat NUM_THREADS)) as (ballot & E & Hb); [lia | done | done |].
  unfold vote, vote_scan. fold (range NUM_THREADS) in E. rewrite E. cbn [mbind option_bind].
  eexists. split; [done|]. unfold vote_sem. destruct op.
  - destruct (voters m a false _) eqn:F; [right | left]; (split; [done|]);
      [exact (proj1 (voters_true m a false) F) | exact (proj1 (voters_false m a false) F)].
  - destruct (voters m a true _) eqn:F; [right | left]; (split; [done|]);
      [exact (proj1 (voters_true m a true) F) | exact (proj1 (voters_false m a true) F)].
  - pose proof (voters_true m a true) as Ht. pose proof (voters_false m a true) as Hf.
    pose proof (voters_true m a false) as Ht'. pose proof (voters_false m a false) as Hf'. cbn [negb] in *.
    destruct (voters m a true _), (voters m a false _); cbn; intuition.
  - intros i. rewrite Hb. rewrite Z2Nat.id by lia. done.
Qed.
End Cooperative.

Section Shuffle.
Context `{Hcfg : VxConfig} {Hok : VxConfigOk} `{HM : MaskSpec M}.

(** The source lane of a shuffle with segment mask [mask], clamp [cval] and
    lane operand [bval]: the lane of [op] when it stays in the segment and in
    the warp, the lane itself otherwise. *)
Definition shfl_src (op : ShflType) (mask cval bval t : Z) : Z :=
  let lo := Z.land t mask in
  let hi := Z.lor lo (Z.land cval (Z.lnot mask)) in
  let '(lane, inside) :=
    match op with
    | UP => (t - bval, lo <=? t - bval)
    | DOWN => (t + bval, t + bval <=? hi)
    | BFLY => (Z.lxor t bval, Z.lxor t bval <=? hi)
    | IDX => (Z.lor lo (Z.land bval (Z.lnot mask)), Z.lor lo (Z.land bval (Z.lnot mask)) <=? hi)
    end in
  if inside && (lane <? NUM_THREADS) then lane else t.

Definition shfl_pack (mask cval bval : Z) : Z := Z.lor (Z.lor (Z.shiftl mask 12) (Z.shiftl cval 6)) bval.

Lemma pack_val mask cval bval :
  0 <= mask < 64 -> 0 <= cval < 64 -> 0 <= bval < 64 ->
  shfl_pack mask cval bval = val [Seg bval 0 6; Seg cval 0 6; Seg mask 0 6].
Proof using.
  intros Hm Hc Hb. unfold shfl_pack. cbn [val]. rewrite !slice0_small by lia. rewrite !Z.shiftl_mul_pow2 by lia.
  rewrite (Z.lor_comm _ bval), (Z.lor_comm (mask * _)).
  assert (forall k x y, 0 <= k -> 0 <= x < 2 ^ k -> Z.lor x (y * 2 ^ k) = x + y * 2 ^ k) as Hl.
  { intros k x y Hk Hx. rewrite <- Z.shiftl_mul_pow2 by lia. rewrite <- Z.lxor_lor, <- Z.add_nocarry_lxor; [done|..];
      apply Z.bits_inj'; intros i Hi; rewrite Z.land_spec, Z.bits_0; (destruct (Z.lt_ge_cases i k);
      [rewrite Z.shiftl_spec_low by lia; apply andb_false_r
      | rewrite <- (Z.mod_small x (2 ^ k)) by lia; rewrite Z.mod_pow2_bits_high by lia; done]). }
  rewrite (Hl 12) by lia. replace (cval * 2 ^ 6 + mask * 2 ^ 12) with ((cval + mask * 2 ^ 6) * 2 ^ 6) by lia.
  rewrite Hl by lia. lia.
Qed.

Lemma pack_fields mask cval bval :
  0 <= mask < 64 -> 0 <= cval < 64 -> 0 <= bval < 64 -> let bc := sint XLEN (shfl_pack mask cval bval) in
  Z.land (Z.shiftr bc 0) 0x3f = bval /\ Z.land (Z.shiftr bc 6) 0x3f = cval /\ Z.land (Z.shiftr bc 12) 0x3f = mask.
Proof using Hok.
  intros Hm Hc Hb bc. assert (bc = val [Seg bval 0 6; Seg cval 0 6; Seg mask 0 6]) as E.
  { subst bc. rewrite pack_val by done. pose proof (val_range [Seg bval 0 6; Seg cval 0 6; Seg mask 0 6] eq_refl) as Hr.
    change (total _) with 18 in Hr. unfold sint. pose proof xlen_pos. assert (2 ^ 31 <= 2 ^ (XLEN - 1)) by (apply Z.pow_le_mono_r; lia).
    assert (2 ^ (XLEN - 1) < 2 ^ XLEN) by (apply Z.pow_lt_mono_r; lia).
    rewrite Z.mod_small, (proj2 (Z.ltb_lt _ _)) by lia. done. }
  rewrite !(land_mask _ 0x3f 6), !slice_shiftr, E by lia.
  split_and!; (rewrite slice_val by (lia || done)); 
    (match goal with |- val ?c = _ => let r := eval vm_compute in c in change c with r end); rewrite val_one;
    apply slice0_small; lia.
Qed.

Lemma shfl_src_bounds op mask cval bval t :
  0 <= mask -> 0 <= cval -> 0 <= bval -> 0 <= t < NUM_THREADS -> 0 <= shfl_src op mask cval bval t < NUM_THREADS.
Proof using.
  intros Hm Hc Hb Ht. assert (0 <= Z.land t mask) by (apply Z.land_nonneg; lia).
  unfold shfl_src. destruct op.
  - destruct (Z.leb_spec (Z.land t mask) (t - bval)), (Z.ltb_spec (t - bval) NUM_THREADS); simpl; lia.
  - destruct (_ <=? _), (Z.ltb_spec (t + bval) NUM_THREADS); simpl; lia.
  - assert (0 <= Z.lxor t bval) by (apply Z.lxor_nonneg; lia).
    destruct (_ <=? _), (Z.ltb_spec (Z.lxor t bval) NUM_THREADS); simpl; lia.
  - assert (0 <= Z.lor (Z.land t mask) (Z.land bval (Z.lnot mask))).
    { apply Z.lor_nonneg. split; [done|]. apply Z.land_nonneg. by left. }
    destruct (_ <=? _), (Z.ltb_spec (Z.lor (Z.land t mask) (Z.land bval (Z.lnot mask))) NUM_THREADS); simpl; lia.
Qed.

Lemma shfl_ok op rs1 rs2 t mask cval bval :
  0 <= mask < 64 -> 0 <= cval < 64 -> 0 <= bval < 64 -> 0 <= t < NUM_THREADS ->
  vat rs2 t = Some (shfl_pack mask cval bval) ->
  shfl op rs1 rs2 t = vat rs1 (shfl_src op mask cval bval t).
Proof using Hok.
  intros Hm Hc Hb Ht E. unfold shfl. rewrite E. cbn [mbind option_bind].
  destruct (pack_fields mask cval bval Hm Hc Hb) as (E1 & E2 & E3). unfold shfl_lane, shfl_src. rewrite E1, E2, E3.
  destruct op; cbv zeta; match goal with |- context [if ?c then _ else t] => destruct c end; cbn [andb];
    repeat case_match; try done; apply Z.ltb_ge in H; lia || (exfalso; lia).
Qed.
End Shuffle.

Section Gather.
Context `{Hcfg : VxConfig} {Hok : VxConfigOk} `{HM : MaskSpec M}.

Lemma find_active (m : M) l :
  m_rep m l -> Z.of_nat (length l) = NUM_THREADS -> m_any m = true -> exists t, find (m_test m) (rev (range NUM_THREADS)) = Some t.
Proof using HM.
  intros Hm Hl Ha. destruct (find _ _) as [t|] eqn:E; [by eexists|]. destruct (m_any_active m l Hm Hl Ha) as (t & Hr & Ht).
  pose proof (find_none _ _ E t) as Hn. rewrite <- in_rev in Hn. rewrite Ht in Hn. discriminate Hn.
  by apply list_elem_of_In, elem_of_range.
Qed.

Lemma last_tid_last (m : M) l :
  m_rep m l -> Z.of_nat (length l) = NUM_THREADS -> m_any m = true -> last_tid m = thread_last m.
Proof using HM.
  intros Hm Hl Ha. destruct (find_active m l Hm Hl Ha) as [u Eu]. unfold last_tid, thread_last. rewrite Eu.
  assert (forall n d, Z.of_nat n <= NUM_THREADS ->
    fold_left (fun k t => if (thread_start m <=? t) && m_test m t then t else k) (Z.of_nat <$> seq 0 n) d =
    default d (find (m_test m) (rev (Z.of_nat <$> seq 0 n)))) as Hf.
  { induction n as [|n IH]; intros d Hn; [done|]. rewrite seq_S, fmap_app, fold_left_app, rev_app_distr, IH by lia. cbn.
    destruct (m_test m (Z.of_nat n)) eqn:E; [|by rewrite andb_false_r].
    by rewrite (proj2 (Z.leb_le _ _)) by (apply thread_start_le; [lia | done]). }
  unfold range in *. rewrite Hf by lia. by rewrite Eu.
Qed.

(** Lists given by a function of the lane. *)
Lemma vat_lanes {A} (f : Z -> A) N t : 0 <= t < N -> vat (f <$> range N) t = Some (f t).
Proof using.
  intros Ht. unfold vat. rewrite (proj2 (Z.ltb_ge t 0)) by lia. rewrite list_lookup_fmap, lookup_range.
  rewrite (proj2 (Nat.ltb_lt _ _)) by lia. cbn. by rewrite Z2Nat.id by lia.
Qed.

Lemma lanes_insert {A} (f : Z -> A) N n v :
  0 <= n < N -> <[Z.to_nat n := v]> (f <$> range N) = (fun t => if t =? n then v else f t) <$> range N.
Proof using.
  intros Hn. apply list_eq. intros i. destruct (decide (i = Z.to_nat n)) as [->|Hne].
  - rewrite list_lookup_insert_eq by (rewrite length_fmap, length_range; lia).
    rewrite list_lookup_fmap, lookup_range, (proj2 (Nat.ltb_lt _ _)) by lia. cbn. rewrite Z2Nat.id by lia. by rewrite Z.eqb_refl.
  - rewrite list_lookup_insert_ne by done. rewrite !list_lookup_fmap, lookup_range. destruct (_ <? _)%nat; [|done]. cbn.
    f_equal. destruct (Z.eqb_spec (Z.of_nat i) n); [lia | done].
Qed.

(** The gathered value of lane [t]: source lane [src] of its group of four,
    or the last active lane when that one is masked, and its operand by the
    distance to the source lane. *)
Definition gathered (m : M) (src : Z) (rs1 rs2 rs3 : Z -> Z) (t : Z) : Z :=
  let nominal := 4 * (t / 4) + src in
  let sl := if m_test m nominal then nominal else thread_last m in
  match (t - src) mod 4 with 1 => rs1 sl | 2 => rs2 sl | _ => rs3 sl end.

Lemma land3 t : Z.land t 3 = t mod 4.
Proof using. rewrite (land_mask t 3 2) by lia. unfold slice. by rewrite Z.div_1_r. Qed.

Lemma group_base t : 0 <= t < 2 ^ 32 -> Z.land t (lnot_w 32 3) = 4 * (t / 4).
Proof using.
  intros Ht. rewrite (land_field t (lnot_w 32 3) 2 30) by (reflexivity || lia). unfold slice. change (2 ^ 2) with 4.
  rewrite (Z.mod_small (t / 4)); [done|]. split; [apply Z.div_pos; lia | apply Z.div_lt_upper_bound; lia].
Qed.

Lemma wgather_lane_ok (m : M) l src t rs1 rs2 rs3 a1 a2 a3 :
  m_rep m l -> Z.of_nat (length l) = NUM_THREADS -> m_any m = true -> NUM_THREADS mod 4 = 0 ->
  0 <= src < 4 -> 0 <= t < NUM_THREADS -> t mod 4 <> src ->
  (forall u, 0 <= u < NUM_THREADS -> vat rs1 u = Some (a1 u) /\ vat rs2 u = Some (a2 u) /\ vat rs3 u = Some (a3 u)) ->
  wgather_lane m src t rs1 rs2 rs3 = Some (Some (gathered m src a1 a2 a3 t)).
Proof using Hok HM.
  intros Hm Hl Ha H4 Hs Ht Hne Hv. pose proof num_threads_ok. unfold wgather_lane. rewrite group_base by lia.
  assert (0 <= 4 * (t / 4) + src < NUM_THREADS) as Hn by (Z.to_euclidean_division_equations; lia).
  rewrite (proj2 (Z.ltb_lt _ _)) by lia. rewrite (last_tid_last m l) by done. rewrite land3.
  assert (u32 (t - (4 * (t / 4) + src)) mod 4 = (t - src) mod 4) as ->.
  { unfold u32. rewrite Z.mod_mod_divide by (by exists (2 ^ 30)). Z.to_euclidean_division_equations; lia. }
  unfold gathered. set (sl := if m_test m _ then _ else _).
  assert (0 <= sl < NUM_THREADS) as Hsl by (subst sl; destruct (m_test m _); [done | by apply (thread_last_active m l)]).
  destruct (Hv sl Hsl) as (-> & -> & ->).
  assert ((t - src) mod 4 = 1 \/ (t - src) mod 4 = 2 \/ (t - src) mod 4 = 3) as [-> | [-> | ->]]; [|done..].
  Z.to_euclidean_division_equations; lia.
Qed.

Lemma lanes_ext {A} (f g : Z -> A) N : (forall t, 0 <= t < N -> f t = g t) -> f <$> range N = g <$> range N.
Proof using.
  intros Hfg. apply list_fmap_ext. intros i t Ei. apply Hfg, elem_of_range. by eapply list_elem_of_lookup_2.
Qed.

Lemma mask_lanes (m : M) l : m_rep m l -> Z.of_nat (length l) = NUM_THREADS -> l = m_test m <$> range NUM_THREADS.
Proof using HM.
  intros Hm Hl. apply list_eq. intros i. rewrite list_lookup_fmap, lookup_range.
  destruct (Nat.ltb_spec i (Z.to_nat NUM_THREADS)).
  - destruct (lookup_lt_is_Some_2 l i ltac:(lia)) as [b Eb]. rewrite Eb. cbn. f_equal. symmetry.
    apply (m_test_rep _ _ (Z.of_nat i) b Hm); [lia | by rewrite Nat2Z.id].
  - rewrite lookup_ge_None_2 by lia. done.
Qed.

(** Mask and destination after the lanes below [n]. *)
Definition wg_mask (m : M) (src n t : Z) : bool :=
  if (thread_start m <=? t) && (t <? n) then negb (t mod 4 =? src) else m_test m t.
Definition wg_val (m : M) (src : Z) (a1 a2 a3 : Z -> Z) (n t : Z) : Z :=
  if (thread_start m <=? t) && (t <? n) && negb (t mod 4 =? src) then gathered m src a1 a2 a3 t else 0.

Lemma wg_mask_next (m : M) src n t :
  wg_mask m src (n + 1) t = if (t =? n) && (thread_start m <=? n) then negb (n mod 4 =? src) else wg_mask m src n t.
Proof using.
  unfold wg_mask. destruct (Z.eqb_spec t n) as [->|Hne]; cbn [andb].
  - rewrite (proj2 (Z.ltb_lt n (n + 1))), (proj2 (Z.ltb_ge n n)), andb_true_r, andb_false_r by lia. done.
  - replace (t <? n + 1) with (t <? n); [done|]. destruct (Z.ltb_spec t n), (Z.ltb_spec t (n + 1)); done || lia.
Qed.

Lemma wg_val_next (m : M) src a1 a2 a3 n t :
  wg_val m src a1 a2 a3 (n + 1) t =
  if (t =? n) && (thread_start m <=? n) && negb (n mod 4 =? src) then gathered m src a1 a2 a3 n else wg_val m src a1 a2 a3 n t.
Proof using.
  unfold wg_val. destruct (Z.eqb_spec t n) as [->|Hne]; cbn [andb].
  - rewrite (proj2 (Z.ltb_lt n (n + 1))), (proj2 (Z.ltb_ge n n)), andb_true_r, andb_false_r by lia. done.
  - replace (t <? n + 1) with (t <? n); [done|]. destruct (Z.ltb_spec t n), (Z.ltb_spec t (n + 1)); done || lia.
Qed.

Lemma wgather_next (m : M) l src rs1 rs2 rs3 a1 a2 a3 m' n :
  m_rep m l -> Z.of_nat (length l) = NUM_THREADS -> m_any m = true -> NUM_THREADS mod 4 = 0 -> 0 <= src < 4 ->
  (forall u, 0 <= u < NUM_THREADS -> vat rs1 u = Some (a1 u) /\ vat rs2 u = Some (a2 u) /\ vat rs3 u = Some (a3 u)) ->
  0 <= n < NUM_THREADS -> m_rep m' (wg_mask m src n <$> range NUM_THREADS) ->
  exists m'', wgather_step m src rs1 rs2 rs3 (Some (m', wg_val m src a1 a2 a3 n <$> range NUM_THREADS)) n =
    Some (m'', wg_val m src a1 a2 a3 (n + 1) <$> range NUM_THREADS) /\
    m_rep m'' (wg_mask m src (n + 1) <$> range NUM_THREADS).
Proof using Hok HM.
  intros Hm Hl Ha H4 Hs Hv Hn Hm'. unfold wgather_step. cbn [mbind option_bind].
  rewrite (lanes_ext (wg_val m src a1 a2 a3 (n + 1)) _ NUM_THREADS (fun t _ => wg_val_next m src a1 a2 a3 n t)).
  rewrite (lanes_ext (wg_mask m src (n + 1)) _ NUM_THREADS (fun t _ => wg_mask_next m src n t)).
  assert (forall b, m_rep (m_assign m' n b) ((fun t => if t =? n then b else wg_mask m src n t) <$> range NUM_THREADS)) as Hr.
  { intros b. rewrite <- lanes_insert by done. apply m_assign_rep; [done|]. rewrite length_fmap, length_range. lia. }
  destruct (Z.ltb_spec n (thread_start m)) as [Hlt|Hge].
  - rewrite (proj2 (Z.leb_gt (thread_start m) n)) by lia. exists m'. split.
    + f_equal. f_equal. apply lanes_ext. intros. by rewrite andb_false_r.
    + erewrite lanes_ext; [exact Hm'|]. intros. cbn. by rewrite andb_false_r.
  - rewrite (proj2 (Z.leb_le (thread_start m) n)) by lia. rewrite land3. destruct (Z.eqb_spec (n mod 4) src) as [Es|Es]; cbn [negb].
    + exists (m_assign m' n false). split.
      * f_equal. f_equal. apply lanes_ext. intros. by rewrite andb_false_r.
      * erewrite lanes_ext; [exact (Hr false)|]. intros. cbn. by rewrite andb_true_r.
    + rewrite (wgather_lane_ok m l src n rs1 rs2 rs3 a1 a2 a3) by done. cbn [mbind option_bind].
      exists (m_assign m' n true). split.
      * f_equal. f_equal. unfold vset. rewrite lanes_insert by done. apply lanes_ext. intros. by rewrite !andb_true_r.
      * erewrite lanes_ext; [exact (Hr true)|]. intros. cbn. by rewrite andb_true_r.
Qed.

Lemma wgather_ok (m : M) l src rs1 rs2 rs3 a1 a2 a3 :
  m_rep m l -> Z.of_nat (length l) = NUM_THREADS -> m_any m = true -> NUM_THREADS mod 4 = 0 -> 0 <= src < 4 ->
  (forall u, 0 <= u < NUM_THREADS -> vat rs1 u = Some (a1 u) /\ vat rs2 u = Some (a2 u) /\ vat rs3 u = Some (a3 u)) ->
  exists m', wgather m src rs1 rs2 rs3 = Some (m', wg_val m src a1 a2 a3 NUM_THREADS <$> range NUM_THREADS) /\
    m_rep m' (wg_mask m src NUM_THREADS <$> range NUM_THREADS).
Proof using Hok HM.
  intros Hm Hl Ha H4 Hs Hv. pose proof num_threads_ok.
  assert (forall n, Z.of_nat n <= NUM_THREADS -> exists m',
    fold_left (wgather_step m src rs1 rs2 rs3) (Z.of_nat <$> seq 0 n) (Some (m, replicate (Z.to_nat NUM_THREADS) 0)) =
      Some (m', wg_val m src a1 a2 a3 (Z.of_nat n) <$> range NUM_THREADS) /\
    m_rep m' (wg_mask m src (Z.of_nat n) <$> range NUM_THREADS)) as Hp.
  { induction n as [|n IH]; intros Hn.
    - exists m. split.
      + cbn [seq fmap list_fmap fold_left]. f_equal. f_equal. rewrite zeros_range. apply lanes_ext. intros t Ht. unfold wg_val.
        by rewrite (proj2 (Z.ltb_ge t (Z.of_nat 0))), andb_false_r by lia.
      + rewrite (mask_lanes m l Hm Hl) in Hm. erewrite lanes_ext; [exact Hm|]. intros t Ht. unfold wg_mask.
        by rewrite (proj2 (Z.ltb_ge t (Z.of_nat 0))), andb_false_r by lia.
    - destruct IH as (m' & E & Hm'); [lia|]. rewrite seq_S, fmap_app, fold_left_app, E. cbn [fmap list_fmap fold_left Nat.add].
      rewrite Nat2Z.inj_succ, <- Z.add_1_r. by apply (wgather_next m l); [..|lia|]. }
  destruct (Hp (Z.to_nat NUM_THREADS)) as (m' & E & Hm'); [lia|]. rewrite Z2Nat.id in * by lia. exists m'. by split.
Qed.
End Gather.

(** ** Where the unit departs from the instruction set *)

Section Deviations.
Context `{Hcfg : VxConfig} {Hok : VxConfigOk} `{Hisa : IsaConfig} `{HM : MaskSpec M}.

Lemma word_shift_lane o a b pc rs1 rs2 t :
  rv64 = true -> w_shift_defined o b = false -> vat rs1 t = Some a -> vat rs2 t = Some b ->
  lane (rwop_op o).1 (rwop_op o).2 pc rs1 rs2 t = None.
Proof using Hok.
  intros E64 Hd E1 E2. pose proof E64 as Ex. apply rv64_true in Ex.
  destruct o; try discriminate Hd; cbn [rwop_op fst snd lane alu_imm]; rewrite (sext_imm32 0) by lia; cbn [mbind option_bind];
    unfold alu_lane; cbn [alu_is_w alu_is_imm]; rewrite E64, E1, E2; cbn [mbind option_bind fmap option_fmap option_map andb];
    rewrite shamt_mod, Ex; unfold shl_w, shr_w, w_shift_defined in *; by rewrite Hd.
Qed.

Lemma warp_upd_eq (s : Scheduler M) wid w : 0 <= wid < Z.of_nat (length (warps_ s)) -> warp (upd_warp s wid w) wid = w.
Proof using. intros Hw. unfold warp, upd_warp. cbn [warps_ set_warps]. by apply vget_vset_eq. Qed.

(** Two departures from the instruction set.  A register word shift
    ([SLLW], [SRLW], [SRAW]) masks its amount with 63 instead of 31: when an
    active lane's amount has bit 5 set, the 32-bit value is shifted by 32 or
    more, which is undefined.  An indirect jump keeps bit 0 of its target:
    when base plus offset is odd the program counter becomes odd, although
    the specification clears the bit. *)
Theorem alu_isa_deviations strict uuid heap cycles s sb wid pc (m : M) l rs1 rs2 rs3 (a b : Z -> Z) :
  m_rep m l -> Z.of_nat (length l) = NUM_THREADS ->
  (forall o rd r1 r2 t, rv_valid (rv_opw o rd r1 r2) = true -> 0 <= t < NUM_THREADS -> m_test m t = true ->
     vat rs1 t = Some (a t) -> vat rs2 t = Some (b t) -> w_shift_defined o (b t) = false ->
     exists ins, decode strict (encode (rv_opw o rd r1 r2)) uuid = Some ins /\
       execute heap cycles s sb (trace_of wid pc m rs1 rs2 rs3 ins) = None) /\
  (forall rd r1 off, rv_valid (rv_jalr rd r1 off) = true -> m_any m = true -> 0 <= wid < Z.of_nat (length (warps_ s)) ->
     operand (instr_of uuid false (rv_jalr rd r1 off)) 0 m rs1 a -> (a (thread_last m) + off) mod 2 = 1 ->
     exists ins r, decode strict (encode (rv_jalr rd r1 off)) uuid = Some ins /\
       execute heap cycles s sb (trace_of wid pc m rs1 rs2 rs3 ins) = Some r /\
       PC (warp (ar_sched r) wid) mod 2 = 1 /\
       rv_target (rv_jalr rd r1 off) pc (a (thread_last m)) 0 <> Some (PC (warp (ar_sched r) wid))).
Proof using Hok HM.
  intros Hm Hl. split.
  - intros o rd r1 r2 t Hv Ht Hat E1 E2 Hd.
    destruct (decoded_as strict uuid _ false (rv_opw o rd r1 r2) Hv eq_refl) as (ins & Ed & Ec).
    exists ins. split; [done|]. rewrite <- execute_canonical, Ec. split_rv Hv.
    pose proof (word_shift_lane o (a t) (b t) pc rs1 rs2 t ltac:(done) Hd E1 E2) as Hn.
    unfold trace_of, execute. cbn [instr_of instr op_type_ args_ at_op at_args at_tmask at_PC at_rs1 at_rs2].
    destruct o; try discriminate Hd; cbn [rwop_op fst snd] in *; unfold lane in Hn; cbn [alu_imm] in *;
      rewrite (sext_imm32 0) in * by lia; cbn [mbind option_bind] in *; by rewrite (lane_loop_none m _ t).
  - intros rd r1 off Hv Ha Hw Ho He. destruct (thread_last_test m l Hm Hl Ha) as [Hr Hat].
    destruct (decoded_as strict uuid _ false (rv_jalr rd r1 off) Hv eq_refl) as (ins & Ed & Ec).
    exists ins. split_rv Hv. destruct (Ho ltac:(discriminate) _ Hr Hat) as [Ea Hx].
    eexists. split; [done|]. rewrite <- execute_canonical, Ec. split.
    { unfold trace_of, execute, execute_br. cbn [instr_of instr op_type_ args_ at_op at_args at_tmask br_offset br_is_rvc].
      rewrite sext_imm32, sext32_u32 by (apply u32_range || lia). cbn [mbind option_bind].
      rewrite (lane_loop_some m _ (fun _ => word (at_PC (mk_alu_trace wid pc m (OpBr JALR) (BrArgs (mk_br_args 0 false (u32 off))) rs1 rs2 rs3) + 4))) by done.
      cbn [mbind option_bind at_rs1 at_PC at_wid]. rewrite Ea. cbn [mbind option_bind]. done. }
    cbn [ar_sched]. rewrite word_add_l. unfold jump. rewrite warp_upd_eq by done. cbn [PC warp_set_PC rv_target].
    assert (word (a (thread_last m) + off) mod 2 = 1) as Eo.
    { unfold word. rewrite Z.mod_mod_divide; [done|]. pose proof xlen_pos. exists (2 ^ (XLEN - 1)).
      rewrite Z.mul_comm, <- Z.pow_succ_r by lia. f_equal. lia. }
    split; [done|]. intros [= E]. rewrite <- E in Eo.
    pose proof (Z.bit0_mod (Z.land (word (a (thread_last m) + off)) (lnot_w XLEN 1))) as Eb. rewrite Eo in Eb.
    rewrite Z.land_spec in Eb. replace (Z.testbit (lnot_w XLEN 1) 0) with false in Eb; [by rewrite andb_false_r in Eb|].
    unfold lnot_w. rewrite Z.lxor_spec, Z.ones_spec_low by (pose proof xlen_pos; lia). done.
Qed.
End Deviations.

#[local] Existing Instances default_config default_config_ok.

#[local] Instance no_extensions : IsaConfig :=
  {| EXT_DXA := false; EXT_TCU := false; TCU_WGMMA := false; TCU_META := false; EXT_TEX := false; EXT_OM := false;
     GFX_WINDOW := false; EXT_RTU := false |}.

#[local] Abbreviation lanes4 f := (f <$> range 4).

Lemma operand4 (i : Instr) n (m : list bool) f :
  (forall t, 0 <= t < 4 -> 0 <= f t < 2 ^ 32) -> operand i n m (lanes4 f) f.
Proof. intros Hf _ t Ht _. split; [by apply (vat_lanes f 4) | by apply Hf]. Qed.

Definition heap0 : tid -> instr_trace_t := fun _ => mk_trace 0 false no_reg [] 0 false 0 0 0 0xFF.

(** [div x5, x6, x7] of 6 by 0 and of [-2^31] by [-1], with lane 2 masked. *)
Lemma alu_executes_isa_witness :
  let m := [true; true; false; true] in
  let a := fun t => if t =? 1 then 2 ^ 31 else 6 in
  let b := fun t => if t =? 0 then 0 else if t =? 1 then 2 ^ 32 - 1 else 2 in
  exists ins, decode false 0x027342B3 1 = Some ins /\
    ar_dst <$> execute heap0 0 (Scheduler_new (M := list bool)) Scoreboard_reset (trace_of 0 0 m (lanes4 a) (lanes4 b) [] ins) =
    Some [2 ^ 32 - 1; 2 ^ 31; 0; 3].
Proof.
  intros m a b.
  destruct (alu_executes_isa (M := list bool) false 1 heap0 0 Scheduler_new Scoreboard_reset 0 0 m (lanes4 a) (lanes4 b) []
    0x027342B3 false (rv_op r_div 5 6 7) (rop_sem r_div) a b) as (ins & E & Ex); try done.
  - apply operand4. intros t Ht. subst a. simpl. destruct (t =? 1); lia.
  - apply operand4. intros t Ht. subst b. simpl. destruct (t =? 0), (t =? 1); lia.
  - exists ins. split; [done|]. rewrite Ex. reflexivity.
Defined.

(** The default configuration at [XLEN = 64]. *)
#[local] Instance default_config64 : VxConfig := {|
  XLEN := 64; NUM_THREADS := 4; NUM_WARPS := 4; NUM_BARRIERS := 8;
  MEM_BLOCK_SIZE := 64; LMEM_LOG_SIZE := 14; LMEM_BASE_ADDR := 0x1FFFF0000 |}.

#[local] Instance default_config64_ok : VxConfigOk.
Proof. constructor; simpl; try lia. exists 6. lia. Defined.

(** [sllw x5, x6, x7] by 32. *)
Lemma alu_isa_deviations_witness :
  let m := [true; false; false; false] in
  exists ins, decode false 0x007312BB 1 = Some ins /\
    execute heap0 0 (Scheduler_new (M := list bool)) Scoreboard_reset
      (trace_of 0 0 m (lanes4 (fun _ => 1)) (lanes4 (fun _ => 32)) [] ins) = None.
Proof.
  intros m. assert (m_rep m m) as Hm by done.
  destruct (proj1 (alu_isa_deviations (Hcfg := default_config64) (Hok := default_config64_ok) (M := list bool) false 1 heap0 0 Scheduler_new Scoreboard_reset 0 0 m m
    (lanes4 (fun _ => 1)) (lanes4 (fun _ => 32)) [] (fun _ => 1) (fun _ => 32) Hm eq_refl) w_sllw 5 6 7 0)
    as (ins & E & Ex); [reflexivity | cbn; lia | reflexivity.. |]. by exists ins.
Defined.
