(* ===== verification/Core.v ===== *)
(** * The path of an instruction — [sim/simx/core.cpp]

    The decode stage, and the way one instruction of one warp takes through
    the core: the scheduler's trace, the decoder, the operand fetch, the ALU
    and the write-back.  Against it stands the instruction set of a warp,
    every active thread executing the instruction on its own registers; a warp
    that runs a program of integer instructions, full or compressed, with
    branches and jumps, follows the instruction set step by step. *)

From S2P Require Import Prelude Mask Isa IsaSem Instr Decompress Decode Regfile Scoreboard Scheduler Alu.

(** ** The core *)

Section Core.
Context `{Hcfg : VxConfig} `{Hisa : IsaConfig} `{HM : MaskSpec M} `{HR : !RegFile R M}.

Record core := mk_core { co_regs : R; co_sched : Scheduler M; co_sb : Scoreboard }.

(** What [Core::Impl::decode] fills in a trace. *)
Record dec_trace := mk_dec {
  dec_instr : Instr;
  dec_dst_reg : RegOpd;
  dec_src_regs : list RegOpd;
  dec_wb : bool;
  dec_fetch_stall : bool
}.

(** [Core::Impl::decode]: the metadata, the program counter advanced by the
    size of the instruction, and the release of a warp that need not wait. *)
Definition decode_stage (strict : bool) (s : Scheduler M) (tr : sched_trace M) (code : Z) : option (dec_trace * Scheduler M) :=
  ins ← decode strict code (st_uuid tr);
  let dst := rdest_ ins in
  let wb := negb (bool_decide (reg_type dst = RegNone))
            && negb (bool_decide (reg_type dst = RegInteger) && (reg_idx dst =? 0)) in
  let d := mk_dec ins dst ((fun i => get_src_reg i ins) <$> seq 0 3) wb (is_wstall_ ins) in
  let is_rvc := negb (Z.land code 0x3 =? 0x3) in
  let s1 := advance_pc s (st_wid tr) (st_trap_epoch tr) (if is_rvc then 2 else 4) in
  s2 ← (if is_wstall_ ins then Some s1 else resume s1 (st_wid tr));
  Some (d, s2).

Variable heap : tid -> instr_trace_t.
Variable cycles core_id : Z.

(** Warp [wid] runs the instruction [code] on its own: it is picked and
    suspended, the instruction is decoded, reads its operands, executes,
    writes back, and a warp that had to wait is resumed.  The byte select of
    the destination is 0xFF: an [Instr] is constructed with it and only the
    load unit sets another. *)
Definition run_instr (strict : bool) (c : core) (wid code : Z) : option core :=
  wid ← pick_warp (co_sched c) {[wid]};
  '(tr, s) ← issue_trace core_id (co_sched c) wid;
  '(d, s1) ← decode_stage strict (clock_stalls s) tr code;
  ops ← rf_fetch (co_regs c) wid (dec_src_regs d);
  r ← execute heap cycles s1 (co_sb c)
        (trace_of wid (st_PC tr) (st_tmask tr) (ops !!! 0%nat) (ops !!! 1%nat) (ops !!! 2%nat) (dec_instr d));
  regs ← (if dec_wb d then rf_write (co_regs c) wid (dec_dst_reg d) 0xFF (ar_tmask r) (ar_dst r) else Some (co_regs c));
  s2 ← (if dec_fetch_stall d then resume (ar_sched r) wid else Some (ar_sched r));
  Some (mk_core regs (clock_stalls s2) (ar_sb r)).

(** [n] instructions fetched from the program counter. *)
Fixpoint run_core (strict : bool) (imem : Z -> Z) (n : nat) (c : core) (wid : Z) : option core :=
  match n with
  | O => Some c
  | S n' => c' ← run_instr strict c wid (imem (PC (warp (co_sched c) wid))); run_core strict imem n' c' wid
  end.

(** A given sequence of instructions. *)
Fixpoint run_codes (strict : bool) (c : core) (wid : Z) (cs : list Z) : option core :=
  match cs with
  | [] => Some c
  | code :: cs' => c' ← run_instr strict c wid code; run_codes strict c' wid cs'
  end.
End Core.

(** ** The instruction set of a warp *)

Section Isa.
Context `{Hcfg : VxConfig} `{HM : MaskSpec M}.

(** [x0] reads zero; a write goes to the active threads and not to [x0]. *)
Definition isa_get (F : flat_regs) (wid r t : Z) : Z := if r =? 0 then 0 else F wid (x r) t.
Definition isa_set (F : flat_regs) (wid rd : Z) (m : M) (v : Z -> Z) : flat_regs :=
  fun wid' r t => if decide (wid' = wid /\ r = x rd /\ rd <> 0 /\ m_test m t = true) then v t else F wid' r t.

(** One instruction of size [len] at [pc], executed by the threads of [m]: a
    computation writes [rd] in every active thread; a transfer goes where the
    last active thread goes.  [None]: not an integer instruction. *)
Definition isa_exec (wid : Z) (m : M) (len : Z) (i : rv_instr) (st : Z * flat_regs) : option (Z * flat_regs) :=
  let '(pc, F) := st in
  let a := isa_get F wid (rv_rs1 i) in
  let b := isa_get F wid (rv_rs2 i) in
  let u := thread_last m in
  let next := word (pc + len) in
  if is_transfer i then
    Some (default next (rv_target i pc (a u) (b u)), if links i then isa_set F wid (rv_rd i) m (fun _ => next) else F)
  else
    match rv_value i pc 0 0 with
    | Some _ => Some (next, isa_set F wid (rv_rd i) m (fun t => default 0 (rv_value i pc (a t) (b t))))
    | None => None
    end.

(** Where the unit follows the specification: not for a [jalr] whose base and
    offset have an odd sum, and not for a register shift of words by an amount
    with bit 5 set. *)
Definition unit_follows (wid : Z) (m : M) (i : rv_instr) (F : flat_regs) : bool :=
  if is_transfer i then target_even i (isa_get F wid (rv_rs1 i) (thread_last m))
  else forallb (fun t => negb (m_test m t) || shift_defined i (isa_get F wid (rv_rs2 i) t)) (range NUM_THREADS).

(** [n] steps of a program; [true] marks a compressed instruction. *)
Fixpoint isa_run (prog : Z -> option (rv_instr * bool)) (wid : Z) (m : M) (n : nat) (st : Z * flat_regs) : option (Z * flat_regs) :=
  match n with
  | O => Some st
  | S n' => '(i, rvc) ← prog st.1; st' ← isa_exec wid m (if rvc : bool then 2 else 4) i st; isa_run prog wid m n' st'
  end.

(** None of the [n] instructions is one of the exceptions. *)
Fixpoint all_followed (prog : Z -> option (rv_instr * bool)) (wid : Z) (m : M) (n : nat) (st : Z * flat_regs) : bool :=
  match n with
  | O => true
  | S n' =>
      match prog st.1 with
      | None => true
      | Some (i, rvc) =>
          unit_follows wid m i st.2 &&
          match isa_exec wid m (if rvc : bool then 2 else 4) i st with
          | Some st' => all_followed prog wid m n' st'
          | None => true
          end
      end
  end.
End Isa.

(** ** The front end *)

Section Step.
Context `{Hcfg : VxConfig} {Hok : VxConfigOk} `{Hisa : IsaConfig} `{HM : MaskSpec M} `{HR : !RegFile R M}.
Variable heap : tid -> instr_trace_t.
Variable cycles core_id : Z.

(** Warp [wid] is active, with thread mask [m] and program counter [pc]. *)
Record at_pc (s : Scheduler M) (wid : Z) (m : M) (pc : Z) : Prop := {
  ap_wid : 0 <= wid < NUM_WARPS;
  ap_len : length (warps_ s) = Z.to_nat NUM_WARPS;
  ap_active : wid ∈ active_warps_ s;
  ap_mask : tmask (warp s wid) = m;
  ap_pc : PC (warp s wid) = pc
}.

Definition ready (s : Scheduler M) (wid : Z) (m : M) (pc : Z) : Prop :=
  at_pc s wid m pc /\ (wid ∉ stalled_warps_ s) /\ (wid ∉ stalled_warps_next_ s).

(** The core runs warp [wid] from [pc] on the registers [F], where [x0] is
    zero. *)
Record core_rep (c : core) (wid : Z) (m : M) (st : Z * flat_regs) : Prop := {
  cr_ready : ready (co_sched c) wid m st.1;
  cr_regs : rf_rep (co_regs c) st.2;
  cr_zero : forall t, 0 <= t < NUM_THREADS -> st.2 wid (x 0) t = 0
}.

Lemma upd_at s wid m pc w pc' :
  at_pc s wid m pc -> tmask w = m -> PC w = pc' -> at_pc (upd_warp s wid w) wid m pc'.
Proof using Hok.
  intros [Hw Hl Ha _ _] Hm Hp. assert (warp (upd_warp s wid w) wid = w) as E.
  { unfold warp, upd_warp. cbn [warps_ set_warps]. apply vget_vset_eq. lia. }
  constructor; rewrite ?E; try done. cbn [warps_ upd_warp set_warps]. unfold vset. by rewrite length_insert.
Qed.

Lemma masks_at s wid m pc st nx : at_pc s wid m pc -> at_pc (set_masks s (active_warps_ s) st nx) wid m pc.
Proof using. intros [Hw Hl Ha Hm Hp]. by constructor. Qed.

Lemma jump_at s wid m pc pc' : at_pc s wid m pc -> at_pc (jump s wid pc') wid m pc'.
Proof using Hok. intros Hs. eapply upd_at; [done| |done]. by destruct Hs. Qed.

Lemma pick_ready s wid m pc : ready s wid m pc -> pick_warp s {[wid]} = Some wid.
Proof using Hok.
  intros ([Hw _ Ha _ _] & Hs & _). unfold pick_warp. destruct (find _ _) as [w|] eqn:E.
  - apply find_some in E as [_ E]. rewrite !andb_true_iff, !bool_decide_eq_true in E; destruct E as [_ ->%elem_of_singleton]. done.
  - exfalso. assert (In wid (range NUM_WARPS)) as Hin by (by apply list_elem_of_In, elem_of_range).
    pose proof (find_none _ _ E wid Hin) as Hf. cbn in Hf. rewrite !bool_decide_eq_true_2 in Hf by set_solver. done.
Qed.

Lemma issue_ready s wid m pc :
  ready s wid m pc -> m_any m = true ->
  exists tr s1, issue_trace core_id s wid = Some (tr, s1) /\ st_wid tr = wid /\ st_PC tr = pc /\ st_tmask tr = m /\
    st_trap_epoch tr = vget (trap_epoch_ s1) wid /\ at_pc s1 wid m pc /\ (wid ∈ stalled_warps_next_ s1).
Proof using Hok.
  intros (Hs & _ & Hnx) Ha. pose proof Hs as [Hw Hl Hact Hm Hp]. unfold issue_trace. rewrite Hm, Ha. cbn [negb]. unfold suspend.
  cbn [active_warps_ stalled_warps_next_ upd_warp set_warps]. rewrite !bool_decide_eq_true_2 by done. cbn [andb mbind option_bind].
  do 2 eexists. split; [done|]. cbn [st_wid st_PC st_tmask st_trap_epoch trap_epoch_ set_masks stalled_warps_next_].
  split_and!; try done; [|by apply elem_of_union_l, elem_of_singleton]. eapply (masks_at (upd_warp s wid _)), upd_at; done.
Qed.

(** The decode stage moves the warp to the next instruction and leaves it
    suspended exactly when the instruction stalls. *)
Lemma decode_at strict s tr code ins m pc :
  at_pc s (st_wid tr) m pc -> st_wid tr ∈ stalled_warps_next_ s -> st_trap_epoch tr = vget (trap_epoch_ s) (st_wid tr) ->
  decode strict code (st_uuid tr) = Some ins ->
  exists d s2, decode_stage strict s tr code = Some (d, s2) /\ dec_instr d = ins /\ dec_dst_reg d = rdest_ ins /\
    dec_src_regs d = (fun i => get_src_reg i ins) <$> seq 0 3 /\ dec_fetch_stall d = is_wstall_ ins /\
    dec_wb d = negb (bool_decide (reg_type (rdest_ ins) = RegNone))
            && negb (bool_decide (reg_type (rdest_ ins) = RegInteger) && (reg_idx (rdest_ ins) =? 0)) /\
    at_pc s2 (st_wid tr) m (word (pc + (if Z.land code 3 =? 3 then 4 else 2))) /\
    (st_wid tr ∈ stalled_warps_next_ s2 <-> is_wstall_ ins = true).
Proof using Hok.
  intros Hs Hnx He Hd. pose proof Hs as [Hw Hl Hact Hm Hp]. unfold decode_stage. rewrite Hd. cbn [mbind option_bind].
  unfold advance_pc. rewrite He, Z.eqb_refl. cbn [negb]. rewrite Hp.
  assert (forall b, (if negb b then 2 else 4) = (if b then 4 else 2)) as Hb by (by intros []). rewrite Hb.
  set (s1 := upd_warp _ _ _). assert (at_pc s1 (st_wid tr) m (word (pc + (if Z.land code 3 =? 3 then 4 else 2)))) as Hs1 by (by eapply upd_at).
  destruct (is_wstall_ ins) eqn:Ew.
  - cbn [mbind option_bind]. do 2 eexists. split; [done|]. split_and!; done.
  - rewrite resume_some by (by subst s1). cbn [mbind option_bind]. do 2 eexists. split; [done|].
    split_and!; try done; [by apply masks_at|]. cbn [stalled_warps_next_ set_masks]. split; [|done].
    by intros [_ []%not_elem_of_singleton]%elem_of_difference.
Qed.

(** ** Execution and write-back *)

(** The integer instructions of the reference. *)
Definition isa_int (i : rv_instr) : bool := is_transfer i || match rv_value i 0 0 0 with Some _ => true | None => false end.

Definition wb_of (r : RegOpd) : bool :=
  negb (bool_decide (reg_type r = RegNone)) && negb (bool_decide (reg_type r = RegInteger) && (reg_idx r =? 0)).

Lemma int_regs uuid rvc i :
  isa_int i = true -> rv_valid i = true ->
  (forall n r, (n, r) ∈ [(0%nat, rv_rs1 i); (1%nat, rv_rs2 i)] -> 0 <= r < 32 /\
     (reg_type (get_src_reg n (instr_of uuid rvc i)) <> RegNone -> get_src_reg n (instr_of uuid rvc i) = x r)) /\
  0 <= rv_rd i < 32 /\
  rdest_ (instr_of uuid rvc i) = (if is_transfer i && negb (links i) then no_reg else x (rv_rd i)) /\
  is_wstall_ (instr_of uuid rvc i) = is_transfer i /\
  get_src_reg 2 (instr_of uuid rvc i) = no_reg.
Proof using.
  intros Hi Hv. destruct i; try discriminate Hi; split_rv Hv; cbn [rv_rs1 rv_rs2 rv_rd];
    (split; [intros n r Hn; rewrite list.elem_of_cons, list_elem_of_singleton in Hn; destruct Hn as [[= -> ->]|[= -> ->]];
       (split; [lia | intros Ht; first [reflexivity | by destruct Ht]])
    | split_and!; (lia || reflexivity)]).
Qed.

Lemma vat_flat_read F wid r t : 0 <= t < NUM_THREADS -> vat (flat_read F wid (x r)) t = Some (F wid (x r) t).
Proof using. intros Ht. unfold flat_read. by rewrite vat_lanes. Qed.

Lemma int_operand (c : R) uuid rvc i ins F wid (m : M) n r :
  isa_int i = true -> rv_valid i = true -> (n, r) ∈ [(0%nat, rv_rs1 i); (1%nat, rv_rs2 i)] ->
  get_src_reg n ins = get_src_reg n (instr_of uuid rvc i) -> rf_rep c F -> 0 <= wid < NUM_WARPS ->
  (forall t, 0 <= t < NUM_THREADS -> F wid (x 0) t = 0) ->
  operand (instr_of uuid rvc i) n m (flat_read F wid (get_src_reg n ins)) (isa_get F wid r).
Proof using Hok.
  intros Hi Hv Hn Eg HF Hw Hz Hr t Ht _. destruct (int_regs uuid rvc i Hi Hv) as (Hs & _). destruct (Hs n r Hn) as [H32 Es].
  rewrite Eg, Es, vat_flat_read by done. unfold isa_get. assert (0 <= F wid (x r) t < 2 ^ reg_width (x r)) as Hb.
  { apply (rf_rep_range c); [done..| |done]. split; [done|]. unfold MAX_NUM_REGS. cbn. lia. }
  destruct (Z.eqb_spec r 0) as [->|]; [rewrite Hz in * by done|]; done.
Qed.

Lemma isa_set_wb F wid rd (m : M) v g wid' r t :
  (m_test m t = true -> v t = g t) ->
  isa_set F wid rd m v wid' r t =
  if decide (wid' = wid /\ r = x rd /\ wb_of (x rd) = true /\ m_test m t = true) then g t else F wid' r t.
Proof using.
  intros Hv. unfold isa_set, wb_of. cbn [x reg_type reg_idx]. rewrite bool_decide_eq_false_2, bool_decide_eq_true_2 by done. cbn [negb andb].
  destruct (decide _) as [(-> & -> & Hn & Hm)|Hn]; [rewrite decide_True; [auto|]|rewrite decide_False; [done|]].
  - split_and!; try done. by apply negb_true_iff, Z.eqb_neq.
  - intros (-> & -> & E & Hm). apply Hn. split_and!; try done. by apply negb_true_iff, Z.eqb_neq in E.
Qed.

Lemma int_execute (c : R) uuid rvc i ins s sb wid (m : M) l pc F pc' F' :
  rv_valid i = true -> canonical ins = instr_of uuid rvc i -> m_rep m l -> Z.of_nat (length l) = NUM_THREADS -> m_any m = true ->
  unit_follows wid m i F = true -> isa_exec wid m (if rvc then 2 else 4) i (pc, F) = Some (pc', F') -> rf_rep c F -> (forall t, 0 <= t < NUM_THREADS -> F wid (x 0) t = 0) ->
  at_pc s wid m (word (pc + (if rvc then 2 else 4))) ->
  let rs n := flat_read F wid (get_src_reg n ins) in
  exists g s', execute heap cycles s sb (trace_of wid pc m (rs 0%nat) (rs 1%nat) (rs 2%nat) ins) =
      Some (mk_alu_result (g <$> range NUM_THREADS) m s' sb) /\
    at_pc s' wid m pc' /\ stalled_warps_next_ s' = stalled_warps_next_ s /\
    (forall t, 0 <= t < NUM_THREADS -> 0 <= g t < 2 ^ XLEN) /\
    (forall wid' r t, F' wid' r t = if decide (wid' = wid /\ r = rdest_ ins /\ wb_of (rdest_ ins) = true /\ m_test m t = true) then g t else F wid' r t).
Proof using Hok HM.
  intros Hv Ec Hm Hl Ha Hfo He HF Hz Hs rs. pose proof Hs as [Hw _ _ _ _].
  assert (isa_int i = true) as Hi.
  { unfold isa_exec in He. unfold isa_int. destruct (is_transfer i); [done|]. by destruct i. }
  assert (forall n, get_src_reg n ins = get_src_reg n (instr_of uuid rvc i)) as Eg by (intros n; by rewrite <- Ec).
  destruct (int_regs uuid rvc i Hi Hv) as (Hsr & Hrd & Ed & _).
  destruct (Hsr 0%nat (rv_rs1 i) ltac:(left)) as [Hr1 _], (Hsr 1%nat (rv_rs2 i) ltac:(right; left)) as [Hr2 _]. pose proof (word_bounds) as Hwb.
  assert (rdest_ ins = rdest_ (instr_of uuid rvc i)) as -> by (by rewrite <- Ec).
  assert (operand (instr_of uuid rvc i) 0 m (rs 0%nat) (isa_get F wid (rv_rs1 i))) as H1.
  { apply (int_operand c); try done. left. }
  assert (operand (instr_of uuid rvc i) 1 m (rs 1%nat) (isa_get F wid (rv_rs2 i))) as H2.
  { apply (int_operand c); try done. right. left. }
  assert (forall r t, 0 <= r < 32 -> 0 <= t < NUM_THREADS -> 0 <= isa_get F wid r t < 2 ^ XLEN) as Hg.
  { intros r t Hr Ht. unfold isa_get. destruct (r =? 0); [pose proof pow_xlen; lia|]. apply (rf_rep_range c F wid (x r)); [done..| |done].
    split; [done|]. unfold MAX_NUM_REGS. cbn. lia. }
  unfold isa_exec in He. unfold unit_follows in Hfo. destruct (is_transfer i) eqn:Et.
  - injection He as Epc EF.
    eexists _, _. split; [by eapply execute_transfer|]. split; [|split_and!]; try done.
    + destruct (rv_target i pc _ _) as [p|] eqn:Etg; cbn in Epc; subst pc'; [by eapply jump_at | done].
    + by destruct (rv_target i pc _ _).
    + intros t Ht. cbn beta. destruct (m_test m t && links i); [apply Hwb | pose proof pow_xlen; lia].
    + intros wid' r t. subst F'. rewrite Ed. destruct (links i) eqn:El; cbn [andb negb].
      * rewrite (isa_set_wb F wid (rv_rd i) m _ (fun t => if m_test m t && true then word (pc + (if rvc then 2 else 4)) else 0)); [done|].
        by intros ->.
      * rewrite decide_False; [done|]. by intros (_ & _ & ? & _).
  - destruct (rv_value i pc 0 0) as [v0|] eqn:E0; [|done]. rename Hfo into Efa. injection He as <- <-.
    assert (forall a b, rv_value i pc a b = Some (default 0 (rv_value i pc a b))) as Hf by (intros; by destruct i).
    eexists _, _. split; [eapply execute_value with (f := fun a b => default 0 (rv_value i pc a b)); try done|split_and!; try done].
    + intros t Ht Hmt. rewrite forallb_forall in Efa. specialize (Efa t ltac:(by apply list_elem_of_In, elem_of_range)). by rewrite Hmt in Efa.
    + intros t Ht. cbn beta. destruct (m_test m t); [|pose proof pow_xlen; lia].
      eapply value_bounds; [done | apply Hf | by apply Hg..].
    + intros wid' r t. rewrite Ed. cbn [andb].
      rewrite (isa_set_wb F wid (rv_rd i) m _
        (fun t => if m_test m t then default 0 (rv_value i pc (isa_get F wid (rv_rs1 i) t) (isa_get F wid (rv_rs2 i) t)) else 0)); [done|].
      by intros ->.
Qed.

Lemma code_size code rvc i :
  rv_valid i = true -> codes code rvc i -> (Z.land code 3 =? 3) = negb rvc.
Proof using Hok.
  intros Hv Hc. destruct rvc; cbn in Hc.
  - destruct Hc as (c & _ & _ & _ & Ec). rewrite (land_mask code 3 2) by lia. unfold slice. rewrite Z.div_1_r. apply Z.eqb_neq.
    rewrite <- (Z.mod_mod_divide code (2 ^ 16) (2 ^ 2)) by (by exists (2 ^ 14)). rewrite Ec. apply cencode_16bit.
  - subst code. pose proof (encode_32bit i) as E. unfold is_rvc_code in E. by apply negb_false_iff in E.
Qed.

(** Writing back the lanes [g] of the mask. *)
Lemma write_back (regs : R) F F' wid r (m : M) g :
  rf_rep regs F -> 0 <= wid < NUM_WARPS -> (wb_of r = true -> reg_valid r /\ reg_width r = XLEN) ->
  (forall t, 0 <= t < NUM_THREADS -> 0 <= g t < 2 ^ XLEN) ->
  (forall wid' r' t, 0 <= t < NUM_THREADS -> F' wid' r' t =
     if decide (wid' = wid /\ r' = r /\ wb_of r = true /\ m_test m t = true) then g t else F wid' r' t) ->
  exists regs', (if wb_of r then rf_write regs wid r 0xFF m (g <$> range NUM_THREADS) else Some regs) = Some regs' /\ rf_rep regs' F'.
Proof using Hok.
  intros HF Hw Hr Hg HF'. pose proof num_threads_ok. destruct (wb_of r).
  - destruct (Hr eq_refl) as [Hv Hx].
    destruct (rf_write_rep regs F wid r 0xFF m (g <$> range NUM_THREADS)) as (regs' & E & HF1);
      [done..|rewrite length_fmap, length_range; lia|]. exists regs'. split; [done|]. eapply rf_rep_ext; [done|].
    intros wid' r' t H1 H2 H3. rewrite flat_write_full by (try rewrite Hx; auto). rewrite HF' by done.
    destruct (decide _) as [(-> & -> & Hm)|Hn]; [by rewrite decide_True|]. rewrite decide_False; [done|].
    intros (? & ? & _ & ?). by apply Hn.
  - exists regs. split; [done|]. eapply rf_rep_ext; [done|]. intros wid' r' t _ _ Ht. rewrite HF' by done. rewrite decide_False; [done|].
    by intros (_ & _ & ? & _).
Qed.

(** The registers an integer instruction names exist. *)
Lemma int_valid uuid rvc i ins :
  isa_int i = true -> rv_valid i = true -> canonical ins = instr_of uuid rvc i ->
  Forall (fun r => reg_type r = RegNone \/ reg_valid r) ((fun n => get_src_reg n ins) <$> seq 0 3) /\
  (wb_of (rdest_ ins) = true -> reg_valid (rdest_ ins) /\ reg_width (rdest_ ins) = XLEN).
Proof using.
  intros Hi Hv Ec. destruct (int_regs uuid rvc i Hi Hv) as (Hs & Hrd & Ed & _ & E2).
  assert (forall n, get_src_reg n ins = get_src_reg n (instr_of uuid rvc i)) as Eg by (intros n; by rewrite <- Ec).
  assert (forall r, 0 <= r < 32 -> reg_valid (x r)) as Hx by (intros r Hr; split; [done | unfold MAX_NUM_REGS; cbn; lia]).
  assert (forall n r, (n, r) ∈ [(0%nat, rv_rs1 i); (1%nat, rv_rs2 i)] -> reg_type (get_src_reg n ins) = RegNone \/ reg_valid (get_src_reg n ins)) as Hsrc.
  { intros n r Hn. destruct (Hs n r Hn) as [Hr Er]. rewrite Eg. destruct (decide (reg_type (get_src_reg n (instr_of uuid rvc i)) = RegNone)); [by left|].
    right. rewrite Er by done. by apply Hx. }
  split.
  - cbn [seq fmap list_fmap]. constructor; [eapply Hsrc; left|]. constructor; [eapply Hsrc; right; left|].
    constructor; [left; by rewrite Eg, E2 | constructor].
  - assert (rdest_ ins = rdest_ (instr_of uuid rvc i)) as -> by (by rewrite <- Ec). rewrite Ed.
    destruct (_ && _); [done|]. intros _. split; [by apply Hx | done].
Qed.

(** What decoding and executing [code] at [pc] does to warp [wid]: the
    registers go from [F] to [F'] and the program counter to [pc']. *)
Definition executes (strict : bool) (wid : Z) (m : M) (code pc : Z) (F : flat_regs) (pc' : Z) (F' : flat_regs) : Prop :=
  forall uuid, exists ins, decode strict code uuid = Some ins /\
    Forall (fun r => reg_type r = RegNone \/ reg_valid r) ((fun n => get_src_reg n ins) <$> seq 0 3) /\
    (wb_of (rdest_ ins) = true -> reg_valid (rdest_ ins) /\ reg_width (rdest_ ins) = XLEN) /\
    forall s sb, at_pc s wid m (word (pc + (if Z.land code 3 =? 3 then 4 else 2))) ->
      let rs n := flat_read F wid (get_src_reg n ins) in
      exists g m' s', execute heap cycles s sb (trace_of wid pc m (rs 0%nat) (rs 1%nat) (rs 2%nat) ins) =
          Some (mk_alu_result (g <$> range NUM_THREADS) m' s' sb) /\
        at_pc s' wid m pc' /\ stalled_warps_next_ s' = stalled_warps_next_ s /\
        (forall t, 0 <= t < NUM_THREADS -> 0 <= g t < 2 ^ XLEN) /\
        (forall wid' r t, 0 <= t < NUM_THREADS -> F' wid' r t =
           if decide (wid' = wid /\ r = rdest_ ins /\ wb_of (rdest_ ins) = true /\ m_test m' t = true) then g t else F wid' r t).

(** One instruction through the core. *)
Lemma run_instr_exec strict (c : core) wid (m : M) code pc F pc' F' :
  core_rep c wid m (pc, F) -> m_any m = true -> executes strict wid m code pc F pc' F' ->
  exists c', run_instr heap cycles core_id strict c wid code = Some c' /\ core_rep c' wid m (pc', F').
Proof using Hok HM.
  intros [Hrd HF Hz] Ha Hx. cbn [fst snd] in *.
  destruct (issue_ready _ _ _ _ Hrd Ha) as (tr & s1 & Ei & Ew & Epc & Em & Eep & Hs1 & Hn1). subst wid.
  destruct (Hx (st_uuid tr)) as (ins & Ed & Hsrc & Hdst & He).
  destruct (decode_at strict (clock_stalls s1) tr code ins m pc) as (d & s2 & Eds & E1 & E2 & E3 & E4 & E5 & Hs2 & Hn2);
    [by apply masks_at | done | done | done|].
  destruct (He s2 (co_sb c) Hs2) as (g & m' & s3 & Ex & Hs3 & Hn3 & Hg & HF').
  destruct (write_back (co_regs c) F F' (st_wid tr) (rdest_ ins) m' g) as (regs' & Ewr & HR'); [done | apply Hs1 | done..|].
  unfold run_instr. rewrite (pick_ready _ _ _ _ Hrd). cbn [mbind option_bind]. rewrite Ei. cbn [mbind option_bind].
  rewrite Eds. cbn [mbind option_bind]. rewrite (rf_fetch_rep _ F) by (rewrite ?E3; try done; apply Hs1). cbn [mbind option_bind].
  rewrite E1, E2, E3, E4, E5, Epc, Em. change (execute _ _ _ _ _) with
    (execute heap cycles s2 (co_sb c) (trace_of (st_wid tr) pc m (flat_read F (st_wid tr) (get_src_reg 0 ins))
      (flat_read F (st_wid tr) (get_src_reg 1 ins)) (flat_read F (st_wid tr) (get_src_reg 2 ins)) ins)).
  rewrite Ex. cbn [mbind option_bind ar_tmask ar_dst ar_sched ar_sb]. unfold wb_of in Ewr. rewrite Ewr. cbn [mbind option_bind].
  assert (exists s4, (if is_wstall_ ins then resume s3 (st_wid tr) else Some s3) = Some s4 /\ at_pc s4 (st_wid tr) m pc' /\
    (st_wid tr ∉ stalled_warps_next_ s4)) as (s4 & E6 & Hs4 & Hn4).
  { destruct (is_wstall_ ins).
    - rewrite resume_some by (apply Hs3 || (rewrite Hn3; by apply Hn2)). eexists. split; [done|]. split; [by apply masks_at|].
      cbn [stalled_warps_next_ set_masks]. by intros [_ []%not_elem_of_singleton]%elem_of_difference.
    - exists s3. split; [done|]. split; [done|]. rewrite Hn3. by intros ?%Hn2. }
  rewrite E6. cbn [mbind option_bind]. eexists. split; [done|]. constructor; cbn [co_sched co_regs fst snd]; [|done|].
  - split; [by apply masks_at | done].
  - intros t Ht. rewrite HF' by done. rewrite decide_False; [by apply Hz|]. intros (_ & <- & ? & _). done.
Qed.

(** One integer instruction is one step of the instruction set. *)
Lemma run_instr_isa strict (c : core) wid (m : M) l code rvc i st st' :
  core_rep c wid m st -> m_rep m l -> Z.of_nat (length l) = NUM_THREADS -> m_any m = true ->
  rv_valid i = true -> codes code rvc i -> unit_follows wid m i st.2 = true -> isa_exec wid m (if rvc then 2 else 4) i st = Some st' ->
  exists c', run_instr heap cycles core_id strict c wid code = Some c' /\ core_rep c' wid m st'.
Proof using Hok HM.
  destruct st as [pc F], st' as [pc' F']. intros Hc Hm Hl Ha Hv Hcode Hfo He. eapply run_instr_exec; [done..|]. intros uuid.
  destruct (decoded_as strict uuid code rvc i Hv Hcode) as (ins & Ed & Ec). exists ins. pose proof Hc as [_ HF Hz].
  assert (isa_int i = true) as Hi.
  { unfold isa_exec in He. unfold isa_int. destruct (is_transfer i); [done|]. by destruct i. }
  destruct (int_valid uuid rvc i ins Hi Hv Ec) as [Hsrc Hdst]. split_and!; [done..|]. intros s sb Hs rs.
  rewrite (code_size code rvc i Hv Hcode) in Hs. replace (if negb rvc then 4 else 2) with (if rvc then 2 else 4) in Hs by (by destruct rvc).
  destruct (int_execute (co_regs c) uuid rvc i ins s sb wid m l pc F pc' F' Hv Ec Hm Hl Ha Hfo He HF Hz Hs)
    as (g & s3 & Ex & Hs3 & Hn3 & Hg & HF'). exists g, m, s3. by split_and!.
Qed.

(** ** Properties *)

End Step.

#[local] Existing Instances default_config default_config_ok opc_config opc_config_ok no_extensions.

(** [2 + 1] by a loop: [addi x5,x0,2; add x6,x6,x5; c.addi x5,-1;
    bne x5,x0,-6], with thread 2 masked. *)
Definition sum_prog (pc : Z) : option (rv_instr * bool) :=
  match pc with
  | 0x100 => Some (rv_opi i_addi 5 0 2, false)
  | 0x104 => Some (rv_op r_add 6 6 5, false)
  | 0x108 => Some (rv_opi i_addi 5 5 (-1), true)
  | 0x10A => Some (rv_branch b_bne 5 0 (-6), false)
  | _ => None
  end.
Definition sum_mem (pc : Z) : Z :=
  match pc with 0x100 => 0x00200293 | 0x104 => 0x00530333 | 0x108 => 0x9DE312FD | _ => 0xFE029DE3 end.

Definition sum_core : core (M := list bool) (R := CoreRegs) :=
  mk_core CoreRegs_new
    (set_masks (upd_warp Scheduler_new 0 (warp_set_PC (warp_set_tmask warp_new [true; true; false; true]) 0x100)) {[0]} ∅ ∅)
    Scoreboard_reset.

Definition sum_mask : list bool := [true; true; false; true].
Definition sum_start : Z * flat_regs := (0x100, fun _ _ _ => 0).

Lemma sum_prog_mem pc i rvc : sum_prog pc = Some (i, rvc) -> rv_valid i = true /\ codes (sum_mem pc) rvc i.
Proof.
  unfold sum_prog. intros Hp. repeat case_match; try discriminate; injection Hp as <- <-; (split; [reflexivity|]); try reflexivity.
  exists (c_addi 5 (-1)). split_and!; try reflexivity; cbn; lia.
Qed.

Lemma sum_rep : core_rep sum_core 0 sum_mask sum_start.
Proof.
  constructor; cbn [sum_core co_sched co_regs sum_start fst snd]; [|apply CoreRegs_new_rep | reflexivity]. split; [constructor|].
  - cbn. lia.
  - reflexivity.
  - by apply elem_of_singleton.
  - reflexivity.
  - reflexivity.
  - split; apply not_elem_of_empty.
Qed.

Lemma sum_isa : exists st, isa_run sum_prog 0 sum_mask 7 sum_start = Some st /\ st.1 = 0x10E /\
  (fun t => st.2 0 (x 6) t) <$> range 4 = [3; 3; 0; 3].
Proof.
  assert (match isa_run sum_prog 0 sum_mask 7 sum_start with
          | Some st => (st.1 =? 0x10E) && bool_decide ((fun t => st.2 0 (x 6) t) <$> range 4 = [3; 3; 0; 3])
          | None => false end = true) as Hr by (vm_compute; reflexivity).
  destruct (isa_run _ _ _ _ _) as [st|]; [|discriminate]. apply andb_true_iff in Hr as [H1 H2]. exists st.
  split; [reflexivity|]. split; [by apply Z.eqb_eq | by apply bool_decide_eq_true in H2].
Qed.

