(* ===== verification/Intrinsics.v ===== *)
(** * Kernel intrinsics — [sw/kernel/include/vx_intrinsics.h]

    The instruction words the inline assembly of the intrinsics emits, and
    their meaning on the simulated core: the decoder turns every word into the
    operation the intrinsic documents, votes and shuffles compute their
    documented result, and [vx_transpose4] transposes.  The register operands
    are those the compiler allocates. *)

From S2P Require Import Prelude Mask Isa IsaSem Instr Decompress Decode Regfile Scoreboard Scheduler Alu Core.

(** [.insn r opcode, funct3, funct7, rd, rs1, rs2] and [.insn r4] *)
Definition insn_r (op f3 f7 rd rs1 rs2 : Z) : Z := enc_R f7 rs2 rs1 f3 rd op.
Definition insn_r4 (op f3 f2 rd rs1 rs2 rs3 : Z) : Z := enc_R4 rs3 f2 rs2 rs1 f3 rd op.

Definition RISCV_CUSTOM0 : Z := 0x0B.
Definition RISCV_CUSTOM1 : Z := 0x2B.

Definition vx_tmc (thread_mask : Z) : Z := insn_r RISCV_CUSTOM0 0 0 0 thread_mask 0.
Definition vx_tmc_zero : Z := insn_r RISCV_CUSTOM0 0 0 0 0 0.
(** [li a0, 1], then the mask change. *)
Definition vx_tmc_one : list Z := [encode (rv_opi i_addi 10 0 1); insn_r RISCV_CUSTOM0 0 0 0 10 0].
Definition vx_pred (condition thread_mask : Z) : Z := insn_r RISCV_CUSTOM0 5 0 0 condition thread_mask.
Definition vx_pred_n (condition thread_mask : Z) : Z := insn_r RISCV_CUSTOM0 5 0 1 condition thread_mask.
Definition vx_wspawn (num_warps func_ptr : Z) : Z := insn_r RISCV_CUSTOM0 1 0 0 num_warps func_ptr.
Definition vx_split (ret predicate : Z) : Z := insn_r RISCV_CUSTOM0 2 0 ret predicate 0.
Definition vx_split_n (ret predicate : Z) : Z := insn_r RISCV_CUSTOM0 2 0 ret predicate 1.
Definition vx_join (stack_ptr : Z) : Z := insn_r RISCV_CUSTOM0 3 0 0 stack_ptr 0.
Definition vx_barrier (barried_id num_warps : Z) : Z := insn_r RISCV_CUSTOM0 4 0 0 barried_id num_warps.
Definition vx_wsync : Z := insn_r RISCV_CUSTOM0 7 0 0 0 0.
Definition vx_vote_all (ret predicate : Z) : Z := insn_r RISCV_CUSTOM0 0 1 ret predicate 0.
Definition vx_vote_any (ret predicate : Z) : Z := insn_r RISCV_CUSTOM0 1 1 ret predicate 0.
Definition vx_vote_uni (ret predicate : Z) : Z := insn_r RISCV_CUSTOM0 2 1 ret predicate 0.
Definition vx_vote_ballot (ret predicate : Z) : Z := insn_r RISCV_CUSTOM0 3 1 ret predicate 0.
Definition vx_shfl_up (ret value bc : Z) : Z := insn_r RISCV_CUSTOM0 4 1 ret value bc.
Definition vx_shfl_down (ret value bc : Z) : Z := insn_r RISCV_CUSTOM0 5 1 ret value bc.
Definition vx_shfl_bfly (ret value bc : Z) : Z := insn_r RISCV_CUSTOM0 6 1 ret value bc.
Definition vx_shfl_idx (ret value bc : Z) : Z := insn_r RISCV_CUSTOM0 7 1 ret value bc.
Definition VX_WGATHER (src_lane ret v1 v2 v3 : Z) : Z := insn_r4 RISCV_CUSTOM1 0 src_lane ret v1 v2 v3.
Definition vx_barrier_arrive (phase barrier_id num_warps : Z) : Z := insn_r RISCV_CUSTOM0 6 0 phase barrier_id num_warps.
Definition vx_barrier_wait (barrier_id phase : Z) : Z := insn_r RISCV_CUSTOM0 6 0 0 barrier_id phase.
Definition vx_barrier_expect_tx (discard barrier_id rs2 : Z) : Z := insn_r RISCV_CUSTOM0 6 0 discard barrier_id rs2.
Definition vx_packlb_f (out base stride : Z) : Z := insn_r RISCV_CUSTOM0 1 4 out base stride.
Definition vx_packlh_f (out base stride : Z) : Z := insn_r RISCV_CUSTOM0 2 4 out base stride.

(** An intrinsic with its registers; [neg] is the [_n] variant. *)
Inductive intrinsic :=
  | I_tmc (mask : Z) | I_pred (neg : bool) (c mask : Z) | I_wspawn (n f : Z) | I_split (neg : bool) (ret p : Z)
  | I_join (sp : Z) | I_barrier (id n : Z) | I_wsync | I_vote (op : VoteType) (ret p : Z)
  | I_shfl (op : ShflType) (ret v bc : Z) | I_wgather (src ret v1 v2 v3 : Z)
  | I_arrive (phase id n : Z) | I_wait (id phase : Z) | I_packlb (out base stride : Z) | I_packlh (out base stride : Z).

Definition intrinsic_word (i : intrinsic) : Z :=
  match i with
  | I_tmc m => vx_tmc m
  | I_pred neg c m => if neg then vx_pred_n c m else vx_pred c m
  | I_wspawn n f => vx_wspawn n f
  | I_split neg r p => if neg then vx_split_n r p else vx_split r p
  | I_join sp => vx_join sp
  | I_barrier id n => vx_barrier id n
  | I_wsync => vx_wsync
  | I_vote ALL r p => vx_vote_all r p
  | I_vote ANY r p => vx_vote_any r p
  | I_vote UNI r p => vx_vote_uni r p
  | I_vote BAL r p => vx_vote_ballot r p
  | I_shfl UP r v bc => vx_shfl_up r v bc
  | I_shfl DOWN r v bc => vx_shfl_down r v bc
  | I_shfl BFLY r v bc => vx_shfl_bfly r v bc
  | I_shfl IDX r v bc => vx_shfl_idx r v bc
  | I_wgather s r v1 v2 v3 => VX_WGATHER s r v1 v2 v3
  | I_arrive ph id n => vx_barrier_arrive ph id n
  | I_wait id ph => vx_barrier_wait id ph
  | I_packlb o b s => vx_packlb_f o b s
  | I_packlh o b s => vx_packlh_f o b s
  end.

(** What each intrinsic stands for: its unit, operation, arguments and
    operands, and whether the warp waits for it. *)
Definition no_wctl : IntrWctlArgs := mk_wctl_args false false false.

Definition packed_load (uuid width o b s : Z) : Instr :=
  mk_instr uuid LSU (OpLsu LOAD) (LsuArgs (mk_lsu_args width 0 0)) [x b; x s; no_reg] (fr o) true true.

Definition default_args : IntrArgs := AluArgs (mk_alu_args false false 0).

Definition intrinsic_instr (uuid : Z) (i : intrinsic) : Instr :=
  let wctl t a srcs rd stall := instr uuid SFU (OpWctl t) (WctlArgs a) srcs rd stall in
  match i with
  | I_tmc m => wctl TMC no_wctl [x m] no_reg true
  | I_pred neg c m => wctl PRED (mk_wctl_args neg false false) [x c; x m] no_reg true
  | I_wspawn n f => wctl WSPAWN no_wctl [x n; x f] no_reg true
  | I_split neg r p => wctl SPLIT (mk_wctl_args neg false false) [x p] (x r) true
  | I_join sp => wctl JOIN no_wctl [x sp] no_reg true
  | I_barrier id n => wctl BAR (mk_wctl_args false true false) [x id; x n] no_reg true
  | I_wsync => wctl WSYNC no_wctl [] no_reg true
  | I_vote op r p => instr uuid ALU (OpVote op) default_args [x p] (x r) false
  | I_shfl op r v bc => instr uuid ALU (OpShfl op) default_args [x v; x bc] (x r) false
  | I_wgather s r v1 v2 v3 => instr uuid ALU (OpWgather WGATHER) (WgatherArgs (mk_wgather_args s)) [x v1; x v2; x v3] (x r) false
  | I_arrive ph id n => wctl BAR (mk_wctl_args false false true) [x id; x n] (x ph) false
  | I_wait id ph => wctl BAR (mk_wctl_args false false false) [x id; x ph] (x 0) true
  | I_packlb o b s => packed_load uuid 0 o b s
  | I_packlh o b s => packed_load uuid 1 o b s
  end.

(** Register operands are register numbers; an output is not [x0], which the
    register allocator never hands out. *)
Definition intrinsic_ok (i : intrinsic) : bool :=
  let out r := in_range 1 32 r in
  match i with
  | I_tmc a | I_join a => reg5 a
  | I_pred _ a b | I_wspawn a b | I_barrier a b | I_wait a b => reg5 a && reg5 b
  | I_split _ r a | I_vote _ r a => out r && reg5 a
  | I_wsync => true
  | I_shfl _ r a b | I_arrive r a b => out r && reg5 a && reg5 b
  | I_packlb r a b | I_packlh r a b => reg5 r && reg5 a && reg5 b
  | I_wgather s r a b c => in_range 0 4 s && out r && reg5 a && reg5 b && reg5 c
  end.

(** ** Decoding *)

Section Decoding.
Context `{Hcfg : VxConfig} {Hok : VxConfigOk} `{Hisa : IsaConfig}.

(** Decide the opcode comparisons of [decode_op]. *)
Ltac dispatch_opcode c :=
  repeat match goal with |- context [c =? ?k] => let b := eval vm_compute in (c =? k) in change (c =? k) with b end;
  cbn [orb andb]; rewrite ?andb_false_r; cbn [orb].

Lemma custom_32bit s c : cut 0 2 s = [Seg c 0 2] -> widths_ok s = true -> slice c 0 2 = 3 -> is_rvc_code (val s) = false.
Proof using.
  intros Ec Hw H3. unfold is_rvc_code. rewrite (land_mask _ 3 2), slice_val, Ec, val_one, H3 by (lia || done). done.
Qed.

Lemma decode_custom0 f3 f7 rd rs1 rs2 strict uuid :
  0 <= f7 < 2 ^ 7 -> 0 <= rs2 < 2 ^ 5 -> 0 <= rs1 < 2 ^ 5 -> 0 <= f3 < 2 ^ 3 -> 0 <= rd < 2 ^ 5 ->
  exists code, decode strict (insn_r RISCV_CUSTOM0 f3 f7 rd rs1 rs2) uuid =
    decode_ext1 (fields_R code f7 rs2 rs1 f3 rd RISCV_CUSTOM0) (Instr_new uuid).
Proof using Hok.
  intros. eexists. unfold decode, insn_r.
  assert (is_rvc_code (enc_R f7 rs2 rs1 f3 rd RISCV_CUSTOM0) = false) as -> by (by apply (custom_32bit _ RISCV_CUSTOM0)).
  cbn [mbind option_bind]. rewrite get_fields_R by (assumption || (unfold RISCV_CUSTOM0; lia)).
  unfold decode_op. cbn [f_op fields_R]. dispatch_opcode RISCV_CUSTOM0. reflexivity.
Qed.

Lemma decode_custom1 f3 f2 rd rs1 rs2 rs3 strict uuid :
  0 <= f2 < 2 ^ 2 -> 0 <= rs3 < 2 ^ 5 -> 0 <= rs2 < 2 ^ 5 -> 0 <= rs1 < 2 ^ 5 -> 0 <= f3 < 2 ^ 3 -> 0 <= rd < 2 ^ 5 ->
  exists code f7, decode strict (insn_r4 RISCV_CUSTOM1 f3 f2 rd rs1 rs2 rs3) uuid =
    decode_ext2 strict (mk_fields code RISCV_CUSTOM1 f2 f3 rs3 f7 rd rs1 rs2 rs3) (Instr_new uuid).
Proof using Hok.
  intros. eexists _, _. unfold decode, insn_r4.
  assert (is_rvc_code (enc_R4 rs3 f2 rs2 rs1 f3 rd RISCV_CUSTOM1) = false) as -> by (by apply (custom_32bit _ RISCV_CUSTOM1)).
  cbn [mbind option_bind]. rewrite enc_R4_R. rewrite get_fields_R;
    [|apply (val_range [Seg f2 0 2; Seg rs3 0 5]); done | done | done | done | done | unfold RISCV_CUSTOM1; lia].
  unfold decode_op. cbn [f_op fields_R]. dispatch_opcode RISCV_CUSTOM1. unfold fields_R.
  rewrite (slice_val _ 0 2), (slice_val _ 2 5) by (lia || done).
  repeat match goal with |- context [val (cut ?l ?n ?s)] =>
    let r := eval vm_compute in (cut l n s) in change (cut l n s) with r end.
  rewrite !val_one, (slice0_small f2 2), (slice0_small rs3 5) by lia. reflexivity.
Qed.

Lemma intrinsic_decodes strict uuid i :
  intrinsic_ok i = true -> decode strict (intrinsic_word i) uuid = Some (intrinsic_instr uuid i).
Proof using Hok.
  intros Hv. unfold intrinsic_ok, reg5, in_range in Hv.
  assert (forall f3 f7 rd rs1 rs2 ins, 0 <= f7 < 2 ^ 7 -> 0 <= rs2 < 2 ^ 5 -> 0 <= rs1 < 2 ^ 5 -> 0 <= f3 < 2 ^ 3 -> 0 <= rd < 2 ^ 5 ->
    (forall code, decode_ext1 (fields_R code f7 rs2 rs1 f3 rd RISCV_CUSTOM0) (Instr_new uuid) = Some ins) ->
    decode strict (insn_r RISCV_CUSTOM0 f3 f7 rd rs1 rs2) uuid = Some ins) as H0.
  { intros f3 f7 rd rs1 rs2 ins ? ? ? ? ? Hd. destruct (decode_custom0 f3 f7 rd rs1 rs2 strict uuid) as [c ->]; [done..|]. apply Hd. }
  destruct i; try destruct neg; try destruct op; rewrite ?andb_true_iff, ?Z.leb_le, ?Z.ltb_lt in Hv; destruct_and? Hv;
    cbn [intrinsic_word];
    lazymatch goal with
    | |- context [VX_WGATHER] => idtac
    | |- context [vx_barrier_arrive] => idtac
    | |- context [decode strict (?w _ _ _)] => unfold w
    | |- context [decode strict (?w _ _)] => unfold w
    | |- context [decode strict (?w _)] => unfold w
    | |- context [decode strict ?w] => unfold w
    end;
    lazymatch goal with |- context [insn_r] => apply H0; [lia..|]; reflexivity | |- _ => idtac end.
  - unfold VX_WGATHER. destruct (decode_custom1 0 src ret v1 v2 v3 strict uuid) as (c & f7 & ->); [lia..|]. reflexivity.
  - apply H0; [lia..|]. intros code. cbn -[Z.eqb]. rewrite (proj2 (Z.eqb_neq phase 0)) by lia. reflexivity.
Qed.
Lemma intrinsic_size i : is_rvc_code (intrinsic_word i) = false.
Proof using.
  destruct i; try destruct neg; try destruct op; first
    [by apply (custom_32bit _ RISCV_CUSTOM0) | by apply (custom_32bit _ RISCV_CUSTOM1)].
Qed.

(** Every intrinsic's instruction word decodes to the operation it
    documents, with the registers the compiler chose: the negated variants of
    split and predicate carry the negation flag, an arrival on an asynchronous
    barrier is told from a wait, only the blocking operations stall the warp, and the
    word is a four-byte instruction. *)
Theorem intrinsics_decode strict uuid i :
  intrinsic_ok i = true ->
  decode strict (intrinsic_word i) uuid = Some (intrinsic_instr uuid i) /\ is_rvc_code (intrinsic_word i) = false.
Proof using Hok. intros Hv. split; [by apply intrinsic_decodes | apply intrinsic_size]. Qed.
End Decoding.

(** ** Execution *)

Section Execution.
Context `{Hcfg : VxConfig} {Hok : VxConfigOk} `{Hisa : IsaConfig} `{HM : MaskSpec M} `{HR : !RegFile R M}.
Variable heap : tid -> instr_trace_t.
Variable cycles core_id : Z.

#[local] Abbreviation run := (run_instr (R := R) (M := M) heap cycles core_id).

Lemma intrinsic_len i : (Z.land (intrinsic_word i) 3 =? 3) = true.
Proof using. pose proof (intrinsic_size i) as E. unfold is_rvc_code in E. by apply negb_false_iff in E. Qed.

Lemma valid_x r : 0 <= r < 32 -> reg_valid (x r) /\ reg_width (x r) = XLEN.
Proof using. intros Hr. split; [|done]. split; [done|]. unfold MAX_NUM_REGS. cbn. lia. Qed.

Lemma wb_x r : 1 <= r < 32 -> wb_of (x r) = true.
Proof using. intros Hr. unfold wb_of. cbn. rewrite bool_decide_eq_false_2, bool_decide_eq_true_2 by done. destruct (Z.eqb_spec r 0); [lia | done]. Qed.

(** An intrinsic of the ALU that writes lanes [g] of mask [m'] into [ret]. *)
Lemma alu_intrinsic strict (c : core) wid (m : M) pc F i ret srcs op a g m' :
  core_rep c wid m (pc, F) -> m_any m = true -> intrinsic_ok i = true -> 1 <= ret < 32 -> Forall (fun r => 0 <= r < 32) srcs ->
  (length srcs <= 3)%nat ->
  (forall uuid, intrinsic_instr uuid i = instr uuid ALU op a (x <$> srcs) (x ret) false) ->
  (forall s sb, let rs n := flat_read F wid (default no_reg ((x <$> srcs) !! n)) in
     execute heap cycles s sb (mk_alu_trace wid pc m op a (rs 0%nat) (rs 1%nat) (rs 2%nat)) =
     Some (mk_alu_result (g <$> range NUM_THREADS) m' s sb)) ->
  (forall t, 0 <= t < NUM_THREADS -> 0 <= g t < 2 ^ XLEN) ->
  exists c', run strict c wid (intrinsic_word i) = Some c' /\
    core_rep c' wid m (word (pc + 4), isa_set F wid ret m' g).
Proof using Hok HM.
  intros Hc Ha Hi Hret Hs H3 Hins Hx Hg. eapply run_instr_exec; [done..|]. intros uuid. eexists.
  split; [by apply intrinsic_decodes|]. rewrite Hins. cbn [instr rdest_].
  assert (forall n, get_src_reg n (instr uuid ALU op a (x <$> srcs) (x ret) false) = default no_reg ((x <$> srcs) !! n)) as Hsrc.
  { intros n. unfold get_src_reg. cbn [instr rsrc_]. destruct srcs as [|r1 [|r2 [|r3 [|]]]]; [..|cbn in H3; lia]; destruct n as [|[|[|[|]]]]; done. }
  split; [|split].
  - apply list.Forall_forall. intros r (n & -> & _)%list_elem_of_fmap. rewrite Hsrc, list_lookup_fmap.
    destruct (srcs !! n) as [r|] eqn:E; [|by left]. right. apply valid_x. by apply (list.Forall_lookup_1 _ _ _ _ Hs E).
  - intros _. apply valid_x. lia.
  - intros s sb Hat. rewrite !Hsrc. exists g, m', s. rewrite intrinsic_len in Hat. split; [apply Hx|].
    split; [done|]. split; [done|]. split; [done|]. intros wid' r t Ht. by apply isa_set_wb.
Qed.

Lemma reg_bounds (c : core) wid (m : M) pc F r t :
  core_rep c wid m (pc, F) -> 0 <= r < 32 -> 0 <= t < NUM_THREADS -> 0 <= F wid (x r) t < 2 ^ XLEN.
Proof using.
  intros [[[Hw _ _ _ _] _] HF _] Hr Ht. destruct (valid_x r Hr) as [Hv Hx]. rewrite <- Hx. by apply (rf_rep_range (co_regs c)).
Qed.

Lemma active_lanes F wid r (m : M) t : 0 <= t < NUM_THREADS -> m_test m t = true -> vat (flat_read F wid (x r)) t = Some (F wid (x r) t).
Proof using. intros Ht _. by apply vat_flat_read. Qed.

(** Only the lanes of the mask matter. *)
Lemma isa_set_mask (c : core) wid (m m' : M) pc F ret g g' :
  core_rep c wid m (pc, isa_set F wid ret m' g) -> (forall t, 0 <= t < NUM_THREADS -> m_test m' t = true -> g t = g' t) ->
  core_rep c wid m (pc, isa_set F wid ret m' g').
Proof using.
  intros [Hr HF Hz] Hg. assert (forall wid' r t, 0 <= t < NUM_THREADS -> isa_set F wid ret m' g wid' r t = isa_set F wid ret m' g' wid' r t) as E.
  { intros wid' r t Ht. unfold isa_set. destruct (decide _) as [(_ & _ & _ & Hm)|]; [by apply Hg | done]. }
  constructor; [done| |].
  - eapply rf_rep_ext; [done|]. intros. by apply E.
  - intros t Ht. cbn [snd] in *. rewrite <- E by done. by apply Hz.
Qed.

Lemma vote_bounds op (m : M) a v : NUM_THREADS <= XLEN -> vote_sem op m a v -> 0 <= v < 2 ^ XLEN.
Proof using Hok.
  intros Hx Hv. assert (1 < 2 ^ XLEN) by (destruct xlen_cases as [-> | ->]; lia). destruct op; cbn in Hv; try lia.
  assert (word v = v) as <-; [|apply word_bounds]. unfold word. apply Z.bits_inj'. intros i Hi.
  rewrite Z.testbit_mod_pow2 by (destruct xlen_cases; lia). destruct (Z.ltb_spec i XLEN); [done|]. cbn. rewrite Hv.
  rewrite (proj2 (Z.ltb_ge i NUM_THREADS)) by lia. by rewrite andb_false_r.
Qed.

(** C34. Votes and shuffles, from the instruction word to the registers, on an
    ALU as wide as the warp (a narrower one executes the packets of the warp
    one by one, and each votes and shuffles among its own lanes).  A vote on
    at most [XLEN] threads gives every active thread the same value: whether
    bit 0 of the predicate is set in all of the active threads, in any, in
    all or none, or the mask of those in which it is; the header documents
    predicates that are true, which agrees for predicates 0 and 1.  A shuffle
    whose operand is in each active thread [(mask << 12) | (cval << 6) | bval]
    for six-bit values of that thread gives the thread the value of the source
    lane, which is a lane of the warp: the requested one, or the thread itself
    when that is outside its segment or the warp.  No other register changes
    and the warp moves to the next instruction. *)
Theorem votes_and_shuffles strict (c : core) wid (m : M) l pc F :
  core_rep c wid m (pc, F) -> m_rep m l -> Z.of_nat (length l) = NUM_THREADS -> m_any m = true ->
  (forall op ret p, intrinsic_ok (I_vote op ret p) = true -> NUM_THREADS <= XLEN ->
     exists v c', vote_sem op m (F wid (x p)) v /\ run strict c wid (intrinsic_word (I_vote op ret p)) = Some c' /\
       core_rep c' wid m (word (pc + 4), isa_set F wid ret m (fun _ => v))) /\
  (forall op ret value bc mask cval bval, intrinsic_ok (I_shfl op ret value bc) = true ->
     (forall t, 0 <= mask t < 64 /\ 0 <= cval t < 64 /\ 0 <= bval t < 64) ->
     (forall t, 0 <= t < NUM_THREADS -> m_test m t = true -> F wid (x bc) t = shfl_pack (mask t) (cval t) (bval t)) ->
     let src t := shfl_src op (mask t) (cval t) (bval t) t in
     (forall t, 0 <= t < NUM_THREADS -> 0 <= src t < NUM_THREADS) /\
     exists c', run strict c wid (intrinsic_word (I_shfl op ret value bc)) = Some c' /\
       core_rep c' wid m (word (pc + 4), isa_set F wid ret m (fun t => F wid (x value) (src t)))).
Proof using Hok HM.
  intros Hc Hm Hl Ha. split.
  - intros op ret p Hi Hx. pose proof Hi as Hi'. cbn in Hi'. unfold reg5, in_range in Hi'. rewrite !andb_true_iff in Hi'.
    destruct (vote_ok op m (flat_read F wid (x p)) (F wid (x p)) Hx) as (v & Ev & Hv); [by intros; apply (active_lanes _ _ _ m)|].
    pose proof (vote_bounds op m _ v Hx Hv) as Hb. pose proof pow_xlen. exists v.
    edestruct (alu_intrinsic strict c wid m pc F (I_vote op ret p) ret [p] (OpVote op) default_args
      (fun t => if thread_start m <=? t then v else 0) m) as (c' & E & Hc'); try done.
    + lia.
    + constructor; [lia | done].
    + cbn. lia.
    + intros s sb. cbn [execute at_op at_args at_tmask at_rs1 fmap list_fmap lookup list_lookup default]. cbn. by rewrite Ev.
    + intros t Ht. cbn beta. destruct (thread_start m <=? t); lia.
    + exists c'. split; [done|]. split; [done|]. eapply isa_set_mask; [done|]. intros t Ht Hmt. cbn beta.
      by rewrite (proj2 (Z.leb_le _ _)) by (by apply thread_start_le).
  - intros op ret value bc mask cval bval Hi Hf Hbc src. pose proof Hi as Hi'. cbn in Hi'. unfold reg5, in_range in Hi'.
    rewrite !andb_true_iff in Hi'. assert (forall t, 0 <= t < NUM_THREADS -> 0 <= src t < NUM_THREADS) as Hs.
    { intros t Ht. apply shfl_src_bounds; try apply Hf; done. }
    split; [done|]. pose proof pow_xlen.
    edestruct (alu_intrinsic strict c wid m pc F (I_shfl op ret value bc) ret [value; bc] (OpShfl op) default_args
      (fun t => if m_test m t then F wid (x value) (src t) else 0) m) as (c' & E & Hc'); try done.
    + lia.
    + repeat constructor; lia.
    + cbn. lia.
    + intros s sb. unfold execute. cbn [at_op at_args at_tmask at_rs1 at_rs2]. 
      rewrite (lane_loop_some m _ (fun t => F wid (x value) (src t))); [done|].
      intros t Ht Hmt. cbn. rewrite (shfl_ok op _ _ t (mask t) (cval t) (bval t)); try apply Hf; try done.
      * apply vat_flat_read. by apply Hs.
      * by rewrite vat_flat_read, Hbc.
    + intros t Ht. cbn beta. destruct (m_test m t); [|lia]. apply (reg_bounds c wid m pc); [done | lia | by apply Hs].
    + exists c'. split; [done|]. eapply isa_set_mask; [done|]. intros t Ht Hmt. cbn beta. by rewrite Hmt.
Qed.

(** ** The 4x4 transpose *)

(** [__VX_WGATHER]: the self value moved into the result register, then the
    gather. *)
Definition vx_wgather_from (src_lane out self_val v1 v2 v3 : Z) : list Z :=
  [encode (rv_opi i_addi out self_val 0); VX_WGATHER src_lane out v1 v2 v3].

Definition vx_transpose4 (a0 a1 a2 a3 out0 out1 out2 out3 : Z) : list Z :=
  vx_wgather_from 0 out0 a0 a1 a2 a3 ++ vx_wgather_from 1 out1 a1 a2 a3 a0 ++
  vx_wgather_from 2 out2 a2 a3 a0 a1 ++ vx_wgather_from 3 out3 a3 a0 a1 a2.

(** Lane [t] of the gather: the register at the distance to the source lane,
    read there. *)
Definition gather_lane (F : flat_regs) (wid src self v1 v2 v3 t : Z) : Z :=
  let u := 4 * (t / 4) + src in
  match (t - src) mod 4 with 0 => F wid (x self) t | 1 => F wid (x v1) u | 2 => F wid (x v2) u | _ => F wid (x v3) u end.

Section Full.
(** All threads of the warp are active. *)
Context (m : M) (l : list bool).
Hypothesis Hm : m_rep m l.
Hypothesis Hl : Z.of_nat (length l) = NUM_THREADS.
Hypothesis Hall : forall t, 0 <= t < NUM_THREADS -> m_test m t = true.

Lemma full_any : m_any m = true.
Proof using Hok Hm Hl Hall.
  pose proof num_threads_ok. rewrite (m_any_rep _ _ Hm). apply existsb_exists. exists true. split; [|done].
  apply list_elem_of_In, list_elem_of_lookup. exists 0%nat.
  rewrite (mask_lanes m l Hm Hl), list_lookup_fmap, lookup_range, (proj2 (Nat.ltb_lt _ _)) by lia. cbn. by rewrite Hall by lia.
Qed.

Lemma full_start t : 0 <= t < NUM_THREADS -> thread_start m <= t.
Proof using Hall. intros Ht. by apply thread_start_le, Hall. Qed.

Lemma full_gather_mask src m' t :
  m_rep m' (wg_mask m src NUM_THREADS <$> range NUM_THREADS) -> 0 <= t < NUM_THREADS -> m_test m' t = negb (t mod 4 =? src).
Proof using HM Hok Hl Hall.
  intros Hm' Ht. apply (m_test_rep _ _ t _ Hm'); [lia|]. rewrite list_lookup_fmap, lookup_range, (proj2 (Nat.ltb_lt _ _)) by lia.
  cbn. rewrite Z2Nat.id by lia. unfold wg_mask.
  by rewrite (proj2 (Z.leb_le _ _)), (proj2 (Z.ltb_lt _ _)) by (try apply full_start; lia).
Qed.

Lemma full_gather_val F wid src self v1 v2 v3 t :
  NUM_THREADS mod 4 = 0 -> 0 <= src < 4 -> 0 <= t < NUM_THREADS -> t mod 4 <> src ->
  wg_val m src (F wid (x v1)) (F wid (x v2)) (F wid (x v3)) NUM_THREADS t = gather_lane F wid src self v1 v2 v3 t.
Proof using Hok Hl Hall.
  intros H4 Hs Ht Hn. unfold wg_val, gathered, gather_lane.
  rewrite (proj2 (Z.leb_le _ _)), (proj2 (Z.ltb_lt _ _)) by (try apply full_start; lia).
  rewrite (proj2 (Z.eqb_neq _ _)) by done. cbn [andb negb]. rewrite Hall by (Z.to_euclidean_division_equations; lia).
  assert ((t - src) mod 4 = 1 \/ (t - src) mod 4 = 2 \/ (t - src) mod 4 = 3) as [-> | [-> | ->]]; [|done..].
  Z.to_euclidean_division_equations; lia.
Qed.

Lemma wgather_executes strict (c : core) wid pc F src ret v1 v2 v3 :
  core_rep c wid m (pc, F) -> NUM_THREADS mod 4 = 0 ->
  intrinsic_ok (I_wgather src ret v1 v2 v3) = true ->
  exists c' F', run strict c wid (VX_WGATHER src ret v1 v2 v3) = Some c' /\ core_rep c' wid m (word (pc + 4), F') /\
    forall wid' r t, 0 <= t < NUM_THREADS -> F' wid' r t =
      if decide (wid' = wid /\ r = x ret) then gather_lane F wid src ret v1 v2 v3 t else F wid' r t.
Proof using Hok HM Hm Hl Hall.
  intros Hc H4 Hi. pose proof num_threads_ok. pose proof Hi as Hi'. cbn in Hi'. unfold reg5, in_range in Hi'.
  rewrite !andb_true_iff, !Z.leb_le, !Z.ltb_lt in Hi'. destruct_and? Hi'. pose proof full_any as Ha. pose proof pow_xlen.
  destruct (wgather_ok m l src (flat_read F wid (x v1)) (flat_read F wid (x v2)) (flat_read F wid (x v3))
    (F wid (x v1)) (F wid (x v2)) (F wid (x v3))) as (m' & E & Hm'); [done.. | lia | by intros; rewrite !vat_flat_read|].
  pose proof (fun t => full_gather_mask src m' t Hm') as Hmt. pose proof (full_gather_val F wid src ret v1 v2 v3) as Hval.
  assert (forall t, 0 <= t < NUM_THREADS -> 0 <= 4 * (t / 4) + src < NUM_THREADS) as Hu
    by (intros; Z.to_euclidean_division_equations; lia).
  edestruct (alu_intrinsic strict c wid m pc F (I_wgather src ret v1 v2 v3) ret [v1; v2; v3] (OpWgather WGATHER)
    (WgatherArgs (mk_wgather_args src)) (wg_val m src (F wid (x v1)) (F wid (x v2)) (F wid (x v3)) NUM_THREADS) m') as (c' & Er & Hc'); try done.
  - repeat constructor; lia.
  - intros s sb. cbn -[wg_val]. by rewrite E.
  - intros t Ht. destruct (decide (t mod 4 = src)) as [Es|Hn].
    + unfold wg_val. rewrite (proj2 (Z.eqb_eq _ _)) by done. cbn [negb]. rewrite andb_false_r. lia.
    + rewrite Hval by done. unfold gather_lane. cbv zeta. repeat case_match; apply (reg_bounds c wid m pc); (done || lia || by apply Hu).
  - eexists _, _. split; [exact Er|]. split; [exact Hc'|]. intros wid' r t Ht. unfold isa_set. destruct (decide (wid' = wid /\ r = x ret)) as [[-> ->]|Hn].
    + destruct (decide (t mod 4 = src)) as [Es|Hne].
      * rewrite decide_False; [|intros (_ & _ & _ & Et); rewrite Hmt, (proj2 (Z.eqb_eq _ _)) in Et by done; done].
        unfold gather_lane. replace ((t - src) mod 4) with 0; [done|]. Z.to_euclidean_division_equations; lia.
      * rewrite decide_True; [by apply Hval|]. split_and!; try done; [lia|]. rewrite Hmt by done. by apply negb_true_iff, Z.eqb_neq.
    + rewrite decide_False; [done|]. intros (-> & -> & _). by apply Hn.
Qed.

(** One [vx_wgather_from]. *)
Lemma gather_from strict (c : core) wid pc F src out self v1 v2 v3 :
  core_rep c wid m (pc, F) -> NUM_THREADS mod 4 = 0 -> 0 <= src < 4 -> 1 <= out < 32 ->
  Forall (fun r => 1 <= r < 32 /\ r <> out) [self; v1; v2; v3] ->
  exists c' pc' F', run_codes heap cycles core_id strict c wid (vx_wgather_from src out self v1 v2 v3) = Some c' /\
    core_rep c' wid m (pc', F') /\
    forall wid' r t, 0 <= t < NUM_THREADS -> F' wid' r t =
      if decide (wid' = wid /\ r = x out) then gather_lane F wid src self v1 v2 v3 t else F wid' r t.
Proof using Hok HM Hm Hl Hall.
  intros Hc H4 Hs Ho Hr. rewrite !list.Forall_cons in Hr. destruct Hr as ([R0 N0] & [R1 N1] & [R2 N2] & [R3 N3] & _).
  destruct (run_instr_isa heap cycles core_id strict c wid m l (encode (rv_opi i_addi out self 0)) false (rv_opi i_addi out self 0) (pc, F)
    (word (pc + 4), isa_set F wid out m (fun t => word (isa_get F wid self t + word 0)))) as (c1 & E1 & Hc1); try done.
  - apply full_any.
  - cbn. unfold reg5, in_range. lia.
  - unfold unit_follows. cbn [is_transfer]. apply forallb_forall. intros t _. apply orb_true_r.
  - destruct (wgather_executes strict c1 wid _ _ src out v1 v2 v3 Hc1 H4) as (c2 & F2 & E2 & Hc2 & HF2).
    { cbn. unfold reg5, in_range. lia. }
    exists c2, (word (word (pc + 4) + 4)), F2. split; [|split; [exact Hc2|]].
    + unfold vx_wgather_from. cbn [run_codes]. rewrite E1. cbn [mbind option_bind]. by rewrite E2.
    + intros wid' r t Ht. rewrite HF2 by done. destruct (decide (wid' = wid /\ r = x out)) as [[-> ->]|Hn].
      * assert (forall r u, r <> out -> isa_set F wid out m (fun t => word (isa_get F wid self t + word 0)) wid (x r) u = F wid (x r) u) as Hoth.
        { intros r u Hrn. unfold isa_set. rewrite decide_False; [done|]. by intros (_ & [= ->] & _). }
        unfold gather_lane. cbv zeta.
        assert ((t - src) mod 4 = 0 \/ (t - src) mod 4 = 1 \/ (t - src) mod 4 = 2 \/ (t - src) mod 4 = 3) as [E|[E|[E|E]]]
          by (Z.to_euclidean_division_equations; lia); rewrite E; [|by apply Hoth..]. unfold isa_set.
        rewrite decide_True by (split_and!; try done; [lia | by apply Hall]). unfold isa_get. destruct (Z.eqb_spec self 0); [lia|].
        change (word 0) with (0 mod 2 ^ XLEN). rewrite Z.mod_0_l, Z.add_0_r by (pose proof pow_xlen; lia).
        apply word_small. by apply (reg_bounds c wid m pc); [| lia |].
      * unfold isa_set. rewrite decide_False; [done|]. intros (-> & -> & _). by apply Hn.
Qed.
End Full.

Lemma run_codes_app strict (c : core) wid cs cs' :
  run_codes heap cycles core_id strict c wid (cs ++ cs') =
  run_codes heap cycles core_id strict c wid cs ≫= fun c' => run_codes (R := R) (M := M) heap cycles core_id strict c' wid cs'.
Proof using.
  revert c. induction cs as [|code cs IH]; intros c; [done|]. cbn [app run_codes]. destruct (run_instr _ _ _ _ _ _ _) as [c1|]; [|done].
  apply IH.
Qed.

(** Entry [j] of a row. *)
Definition entry (F : flat_regs) (wid a0 a1 a2 a3 lane j : Z) : Z :=
  match j with 0 => F wid (x a0) lane | 1 => F wid (x a1) lane | 2 => F wid (x a2) lane | _ => F wid (x a3) lane end.

(** Gathering from lane [src] with the registers rotated to it. *)
Lemma gather_entry F G wid src r0 r1 r2 r3 a0 a1 a2 a3 t :
  (src, r0, r1, r2, r3) ∈ [(0, a0, a1, a2, a3); (1, a1, a2, a3, a0); (2, a2, a3, a0, a1); (3, a3, a0, a1, a2)] ->
  (forall u, 0 <= u < NUM_THREADS -> Forall (fun a => G wid (x a) u = F wid (x a) u) [a0; a1; a2; a3]) ->
  NUM_THREADS mod 4 = 0 -> 0 <= t < NUM_THREADS ->
  gather_lane G wid src r0 r1 r2 r3 t = entry F wid a0 a1 a2 a3 (4 * (t / 4) + src) (t mod 4).
Proof using.
  intros Hin HG H4 Ht. assert (forall s, 0 <= s < 4 -> 0 <= 4 * (t / 4) + s < NUM_THREADS) as Hu by (intros; Z.to_euclidean_division_equations; lia).
  assert (forall s, 0 <= s < 4 -> t mod 4 = s -> t = 4 * (t / 4) + s) as Hself by (intros; Z.to_euclidean_division_equations; lia).
  assert (forall s k j, 0 <= s < 4 -> t mod 4 = k -> (k - s) mod 4 = j -> (t - s) mod 4 = j) as Hj
    by (intros; Z.to_euclidean_division_equations; lia).
  unfold gather_lane, entry. assert (t mod 4 = 0 \/ t mod 4 = 1 \/ t mod 4 = 2 \/ t mod 4 = 3) as Hk by (Z.to_euclidean_division_equations; lia).
  repeat (apply list.elem_of_cons in Hin as [[= -> -> -> -> ->]|Hin]); [..|by apply elem_of_nil in Hin];
    destruct Hk as [Ek|[Ek|[Ek|Ek]]];
    lazymatch goal with |- context [(t - ?s) mod 4] => lazymatch type of Ek with _ = ?k =>
      let j := eval vm_compute in ((k - s) mod 4) in rewrite (Hj s k j ltac:(lia) Ek eq_refl) end end;
    rewrite Ek; cbv zeta;
    match type of Ek with _ = ?k => try rewrite <- (Hself k ltac:(lia) Ek) end;
    match goal with |- G _ _ ?u = _ => assert (0 <= u < NUM_THREADS) as Hu' by (exact Ht || (apply Hu; lia)) end;
    specialize (HG _ Hu'); rewrite !list.Forall_cons in HG; destruct HG as (? & ? & ? & ? & _); assumption.
Qed.

(** A sequence of gathers: source lane, result, self value and the three
    gathered registers. *)
Definition job := (Z * Z * (Z * Z * Z * Z))%type.
Definition job_out (j : job) : Z := j.1.2.
Definition job_srcs (j : job) : list Z := let '(_, (self, v1, v2, v3)) := j in [self; v1; v2; v3].
Definition job_codes (j : job) : list Z := let '(src, out, (self, v1, v2, v3)) := j in vx_wgather_from src out self v1 v2 v3.
Definition job_lane (F : flat_regs) (wid : Z) (j : job) (t : Z) : Z :=
  let '(src, _, (self, v1, v2, v3)) := j in gather_lane F wid src self v1 v2 v3 t.
Definition job_ok (j : job) : Prop := 0 <= j.1.1 < 4 /\ 1 <= job_out j < 32 /\ Forall (fun r => 1 <= r < 32) (job_srcs j).

Lemma job_lane_ext F G wid j t :
  (forall a u, a ∈ job_srcs j -> 0 <= u < NUM_THREADS -> G wid (x a) u = F wid (x a) u) -> 0 <= j.1.1 < 4 ->
  NUM_THREADS mod 4 = 0 -> 0 <= t < NUM_THREADS -> job_lane G wid j t = job_lane F wid j t.
Proof using.
  destruct j as [[src out] [[[self v1] v2] v3]]. cbn [job_srcs job_lane fst]. intros HG Hs H4 Ht. unfold gather_lane. cbv zeta.
  assert (0 <= 4 * (t / 4) + src < NUM_THREADS) by (Z.to_euclidean_division_equations; lia).
  assert ((t - src) mod 4 = 0 \/ (t - src) mod 4 = 1 \/ (t - src) mod 4 = 2 \/ (t - src) mod 4 = 3) as [-> | [-> | [-> | ->]]]
    by (Z.to_euclidean_division_equations; lia); (apply HG; [|done]);
    [left | right; left | right; right; left | right; right; right; left].
Qed.

Lemma jobs_run strict wid (m : M) l jobs (c : core) pc F :
  m_rep m l -> Z.of_nat (length l) = NUM_THREADS -> (forall t, 0 <= t < NUM_THREADS -> m_test m t = true) -> NUM_THREADS mod 4 = 0 ->
  core_rep c wid m (pc, F) -> Forall job_ok jobs -> NoDup (job_out <$> jobs) ->
  (forall j a, j ∈ jobs -> a ∈ job_srcs j -> a ∉ job_out <$> jobs) ->
  exists c' pc' F', run_codes heap cycles core_id strict c wid (jobs ≫= job_codes) = Some c' /\ core_rep c' wid m (pc', F') /\
    (forall j t, j ∈ jobs -> 0 <= t < NUM_THREADS -> F' wid (x (job_out j)) t = job_lane F wid j t) /\
    (forall wid' r t, 0 <= t < NUM_THREADS -> (wid' <> wid \/ r ∉ (x ∘ job_out) <$> jobs) -> F' wid' r t = F wid' r t).
Proof using Hok HM.
  intros Hm Hl Hall H4. revert c pc F. induction jobs as [|j jobs IH]; intros c pc F Hc Hok' Hnd Hdis.
  { exists c, pc, F. split_and!; try done. by intros j t ?%elem_of_nil. }
  apply list.Forall_cons in Hok' as [Hj Hjs]. rewrite fmap_cons in Hnd, Hdis. apply list.NoDup_cons in Hnd as [Hnj Hnd].
  destruct j as [[src out] [[[self v1] v2] v3]] eqn:Ej. rewrite <- Ej in *. pose proof Hj as (Hs & Ho & Hsrc).
  destruct (gather_from m l Hm Hl Hall strict c wid pc F src out self v1 v2 v3 Hc H4) as (c1 & pc1 & F1 & E1 & Hc1 & HF1).
  { by rewrite Ej in Hs. } { by rewrite Ej in Ho. }
  { rewrite list.Forall_forall in Hsrc |- *. intros r Hr. split; [apply Hsrc; by rewrite Ej|]. intros ->.
    apply (Hdis j out); [left | by rewrite Ej | rewrite Ej; left]. }
  destruct (IH c1 pc1 F1 Hc1 Hjs Hnd) as (c' & pc' & F' & E & Hc' & Hout & Hoth).
  { intros j' a Hj' Ha Hin. apply (Hdis j' a); [by right | done | by right]. }
  assert (forall j' a u, j' ∈ j :: jobs -> a ∈ job_srcs j' -> 0 <= u < NUM_THREADS -> F1 wid (x a) u = F wid (x a) u) as Hsame.
  { intros j' a u Hj' Ha Hu. rewrite HF1 by done. rewrite decide_False; [done|]. intros [_ [= ->]].
    apply (Hdis j' out Hj' Ha). rewrite Ej. left. }
  exists c', pc', F'. split_and!; [|done|..].
  - cbn [mbind list_bind]. rewrite Ej. cbn [job_codes]. rewrite run_codes_app, E1. exact E.
  - intros j' t Hj' Ht. apply list.elem_of_cons in Hj' as [->|Hin].
    + rewrite Hoth by (try done; right; intros (j2 & E2 & Hj2)%list_elem_of_fmap; apply Hnj; injection E2 as E2;
        apply list_elem_of_fmap; by exists j2). rewrite HF1, Ej by done. by rewrite decide_True.
    + rewrite Hout by done. rewrite list.Forall_forall in Hjs. apply job_lane_ext; [|by apply Hjs | done..].
      intros a u Ha Hu. apply (Hsame j'); [by right | done..].
  - intros wid' r t Ht Hn. rewrite Hoth; [|done|destruct Hn as [?|Hn]; [by left | right; intros ?; apply Hn; by right]].
    rewrite HF1 by done. rewrite decide_False; [done|]. intros [-> ->]. destruct Hn as [?|Hn]; [done|]. apply Hn. rewrite Ej. left.
Qed.

(** [vx_transpose4] transposes: with all threads active and a number of
    threads divisible by four, running the eight instructions of the macro,
    for any choice of eight registers with the results apart from the
    sources, turns the 4x4 matrix that each group of four threads holds, one
    row per thread, into its transpose: result [j] of thread [i] of a group is
    entry [i] of the row of thread [j].  Every other register of every warp
    keeps its value. *)
Theorem transpose4_transposes strict (c : core) wid (m : M) l pc F a0 a1 a2 a3 o0 o1 o2 o3 :
  core_rep c wid m (pc, F) -> m_rep m l -> Z.of_nat (length l) = NUM_THREADS ->
  (forall t, 0 <= t < NUM_THREADS -> m_test m t = true) -> NUM_THREADS mod 4 = 0 ->
  Forall (fun r => 1 <= r < 32) [a0; a1; a2; a3; o0; o1; o2; o3] -> NoDup [o0; o1; o2; o3] ->
  (forall a o, a ∈ [a0; a1; a2; a3] -> o ∈ [o0; o1; o2; o3] -> a <> o) ->
  exists c' pc' F', run_codes heap cycles core_id strict c wid (vx_transpose4 a0 a1 a2 a3 o0 o1 o2 o3) = Some c' /\
    core_rep c' wid m (pc', F') /\
    (forall j o t, (j, o) ∈ [(0, o0); (1, o1); (2, o2); (3, o3)] -> 0 <= t < NUM_THREADS ->
       F' wid (x o) t = entry F wid a0 a1 a2 a3 (4 * (t / 4) + j) (t mod 4)) /\
    (forall wid' r t, 0 <= t < NUM_THREADS -> (wid' <> wid \/ r ∉ x <$> [o0; o1; o2; o3]) -> F' wid' r t = F wid' r t).
Proof using Hok HM.
  intros Hc Hm Hl Hall H4 Hr Hnd Hao. rewrite !list.Forall_cons in Hr. destruct_and! Hr.
  set (jobs := [(0, o0, (a0, a1, a2, a3)); (1, o1, (a1, a2, a3, a0)); (2, o2, (a2, a3, a0, a1)); (3, o3, (a3, a0, a1, a2))] : list job).
  destruct (jobs_run strict wid m l jobs c pc F Hm Hl Hall H4 Hc) as (c' & pc' & F' & E & Hc' & Hout & Hoth).
  - subst jobs. repeat constructor; cbn; lia.
  - exact Hnd.
  - intros j a Hj Ha Hin. apply (Hao a a); [|done|done].
    subst jobs. repeat (apply list.elem_of_cons in Hj as [->|Hj]); [..|by apply elem_of_nil in Hj]; cbn in Ha; set_solver.
  - exists c', pc', F'. split_and!; [exact E | done | | exact Hoth]. intros j o t Hj Ht.
    assert (forall u, Forall (fun a => F wid (x a) u = F wid (x a) u) [a0; a1; a2; a3]) as Hrefl by (intros; repeat constructor).
    assert (forall src out r0 r1 r2 r3, ((src, out, (r0, r1, r2, r3)) : job) ∈ jobs ->
      (src, r0, r1, r2, r3) ∈ [(0, a0, a1, a2, a3); (1, a1, a2, a3, a0); (2, a2, a3, a0, a1); (3, a3, a0, a1, a2)] ->
      F' wid (x out) t = entry F wid a0 a1 a2 a3 (4 * (t / 4) + src) (t mod 4)) as Hjob.
    { intros src out r0 r1 r2 r3 Hin Hin'. etransitivity; [exact (Hout _ t Hin Ht)|]. by apply gather_entry. }
    repeat (apply list.elem_of_cons in Hj as [[= -> ->]|Hj]); [..|by apply elem_of_nil in Hj];
      [apply (Hjob _ _ a0 a1 a2 a3) | apply (Hjob _ _ a1 a2 a3 a0) | apply (Hjob _ _ a2 a3 a0 a1) | apply (Hjob _ _ a3 a0 a1 a2)];
      subst jobs; repeat (left || right).
Qed.
End Execution.

#[local] Existing Instances default_config default_config_ok opc_config opc_config_ok no_extensions.

(** [vx_barrier_arrive] into [x10], with its operands in [x11] and [x12]. *)
Lemma intrinsics_decode_witness :
  decode false 0x00C5E50B 7 = Some (instr 7 SFU (OpWctl BAR) (WctlArgs (mk_wctl_args false false true)) [x 11; x 12] (x 10) false)
  /\ is_rvc_code 0x00C5E50B = false.
Proof. exact (intrinsics_decode false 7 (I_arrive 10 11 12) eq_refl). Defined.

(** Registers written by all four threads of warp 0. *)
Definition row_mask : list bool := [true; true; true; true].
Definition regs_of (ws : list (Z * list Z)) : flat_regs :=
  fold_left (fun F w => flat_write F 0 (x w.1) 0xFF row_mask w.2) ws (fun _ _ _ => 0).

Lemma regs_of_rep ws :
  Forall (fun w => 1 <= w.1 < 32 /\ length w.2 = 4%nat) ws ->
  exists c : core (R := CoreRegs), core_rep c 0 row_mask (0x100, regs_of ws).
Proof.
  intros Hws. assert (exists regs, flat_rep regs (regs_of ws)) as [regs Hr].
  { unfold regs_of. assert (exists regs, flat_rep regs (fun _ _ _ => 0)) as HF by (exists CoreRegs_new; apply CoreRegs_new_rep).
    revert HF. generalize (fun (_ : Z) (_ : RegOpd) (_ : Z) => 0). induction Hws as [|[w vs] ws [Hw Hl] _ IH]; intros F HF; [done|].
    cbn [fold_left]. apply IH. destruct HF as [regs HF].
    destruct (core_writeback_rep regs F 0 (x w) 0xFF row_mask vs) as (regs' & _ & HF');
      [done | cbn; lia | apply valid_x; cbn in Hw; lia | cbn in Hl; cbn; lia | by exists regs']. }
  exists (mk_core regs (set_masks (upd_warp Scheduler_new 0 (warp_set_PC (warp_set_tmask warp_new row_mask) 0x100)) {[0]} ∅ ∅) Scoreboard_reset).
  constructor; cbn [co_sched co_regs fst snd]; [split; [constructor|]; try reflexivity | done |].
  - cbn. lia.
  - split; apply not_elem_of_empty.
  - intros t Ht. unfold regs_of. assert (forall F, F 0 (x 0) t = 0 -> fold_left (fun F w => flat_write F 0 (x w.1) 0xFF row_mask w.2) ws F 0 (x 0) t = 0) as H;
      [|by apply H]. clear Hr. induction Hws as [|w ws [Hw _] _ IH]; intros F HF; [done|]. cbn [fold_left]. apply IH.
    unfold flat_write. rewrite decide_False; [done|]. intros (_ & E & _). injection E as E. lia.
Qed.

(** Predicates [1; 2; 4; 7] in [x10], and in [x11] the shuffle operand of each
    thread: lanes 0 and 1 ask for lanes 3 and 2, lanes 2 and 3 for lane 1. *)
Definition vote_regs : flat_regs := regs_of [(10, [1; 2; 4; 7]); (11, [0xC3; 0xC2; 0xC1; 0xC1])].

Lemma votes_and_shuffles_witness :
  exists c c1 c2 : core (R := CoreRegs),
    run_instr heap0 0 0 false c 0 (vx_vote_ballot 5 10) = Some c1 /\ core_fetch (co_regs c1) 0 [x 5] = Some [[9; 9; 9; 9]] /\
    run_instr heap0 0 0 false c 0 (intrinsic_word (I_shfl IDX 6 10 11)) = Some c2 /\
    core_fetch (co_regs c2) 0 [x 6] = Some [[7; 4; 2; 2]].
Proof.
  destruct (regs_of_rep [(10, [1; 2; 4; 7]); (11, [0xC3; 0xC2; 0xC1; 0xC1])]) as [c Hc0]; [repeat constructor; cbn; lia|].
  assert (m_rep row_mask row_mask) as Hm by reflexivity.
  destruct (votes_and_shuffles (R := CoreRegs) heap0 0 0 false c 0 row_mask row_mask 0x100 vote_regs Hc0 Hm eq_refl eq_refl) as [Hvote Hshfl].
  destruct (Hvote BAL 5 10 eq_refl) as (v & c1 & Hv & E1 & Hc1); [cbn; lia|].
  destruct (Hshfl IDX 6 10 11 (fun _ => 0) (fun _ => 3) (fun t => vget [3; 2; 1; 1] t mod 64) eq_refl) as (_ & c2 & E2 & Hc2).
  { intros t. split; [lia|]. split; [lia|]. apply Z.mod_pos_bound. lia. }
  { intros t Ht _. cbn in Ht. assert (t = 0 \/ t = 1 \/ t = 2 \/ t = 3) as [-> | [-> | [-> | ->]]] by lia; vm_compute; reflexivity. }
  assert (forall n, 0 <= n < 32 -> Forall (fun r => reg_type r = RegNone \/ reg_valid r) [x n]) as Hx.
  { intros n Hn. apply Forall_singleton. right. apply valid_x. lia. }
  exists c, c1, c2. split; [exact E1|]. split; [|split; [exact E2|]].
  - rewrite (core_fetch_rep _ _ _ _ (cr_regs _ _ _ _ Hc1)); [|cbn; lia | apply Hx; lia]. assert (v = 9) as ->; [|vm_compute; reflexivity].
    apply Z.bits_inj'. intros i Hi. rewrite Hv. cbn [NUM_THREADS default_config]. destruct (Z.ltb_spec i 4).
    + assert (i = 0 \/ i = 1 \/ i = 2 \/ i = 3) as [-> | [-> | [-> | ->]]] by lia; vm_compute; reflexivity.
    + rewrite andb_false_r. symmetry. apply (Z.bits_above_log2 9); [lia | change (Z.log2 9) with 3; lia].
  - rewrite (core_fetch_rep _ _ _ _ (cr_regs _ _ _ _ Hc2)); [vm_compute; reflexivity | cbn; lia | apply Hx; lia].
Defined.

(** The matrix [10 * i + j] in [x10] to [x13]. *)
Definition row_writes : list (Z * list Z) := (fun j => (10 + j, (fun i => 10 * i + j) <$> range 4)) <$> range 4.
Definition row_regs : flat_regs := regs_of row_writes.

Lemma row_rep : exists c : core (R := CoreRegs), core_rep c 0 row_mask (0x100, row_regs).
Proof. apply regs_of_rep. repeat constructor; cbn; lia. Qed.

Lemma transpose4_transposes_witness :
  exists (c c' : core (R := CoreRegs)), run_codes heap0 0 0 false c 0 (vx_transpose4 10 11 12 13 20 21 22 23) = Some c' /\
    core_fetch (co_regs c') 0 [x 21] = Some [[10; 11; 12; 13]].
Proof.
  destruct row_rep as [c Hc]. assert (m_rep row_mask row_mask) as Hm by reflexivity.
  destruct (transpose4_transposes (R := CoreRegs) heap0 0 0 false c 0 row_mask row_mask 0x100 row_regs 10 11 12 13 20 21 22 23 Hc Hm eq_refl)
    as (c' & pc' & F' & E & Hc' & Hout & _).
  - intros t Ht. cbn in Ht. assert (t = 0 \/ t = 1 \/ t = 2 \/ t = 3) as [->|[->|[->| ->]]] by lia; reflexivity.
  - reflexivity.
  - repeat constructor; lia.
  - apply (bool_decide_unpack _). vm_compute. exact I.
  - intros a o Ha Ho ->. repeat (apply list.elem_of_cons in Ha as [->|Ha]); [..|by apply elem_of_nil in Ha];
      pose proof (bool_decide_eq_true_2 _ Ho) as E; vm_compute in E; discriminate.
  - exists c, c'. split; [exact E|]. rewrite (core_fetch_rep _ _ _ _ (cr_regs _ _ _ _ Hc')).
    + assert (forall t, 0 <= t < 4 -> F' 0 (x 21) t = 10 + t) as Hv.
      { intros t Ht. rewrite (Hout 1 21 t ltac:(right; left) Ht).
        assert (t = 0 \/ t = 1 \/ t = 2 \/ t = 3) as [->|[->|[->| ->]]] by lia; reflexivity. }
      change (Some [F' 0 (x 21) <$> range 4] = Some [[10; 11; 12; 13]]).
      rewrite (lanes_ext _ (fun t => 10 + t) 4 Hv). reflexivity.
    + cbn. lia.
    + apply Forall_singleton. right. apply valid_x. lia.
Defined.
