(* ===== verification/Barrier.v ===== *)
(** * Barriers — [sim/simx/barrier_unit.cpp], [types.h], [cluster.cpp]

    Every core has a barrier table ([BarrierUnit]); a barrier whose id has bit
    31 set is global and is completed by the cluster once enough cores have
    arrived.  The file models the whole class, the cluster's arrival
    handler, and the cores they act on, and shows how local generations are
    counted, what a global completion does, and that the phase returned by an
    asynchronous arrival stops matching from the third generation on. *)

From S2P Require Import Prelude Mask Kmu Cta Scheduler.

(** [bar_decode_id] *)
Definition bar_decode_id (bar_id_raw num_barriers : Z) : Z :=
  let cta_no := Z.land bar_id_raw 0xff in
  let bar_no := Z.land (Z.shiftr bar_id_raw 8) 0x7fffff in
  Z.lor (u32 (cta_no * num_barriers + bar_no)) (Z.land bar_id_raw 0x80000000).

(** [warp_barrier_t] *)
Record warp_barrier_t := mk_bar {
  wait_mask : gset Z;
  arrival_mask : gset Z;
  bar_count : Z;
  bar_events : Z;
  bar_phase : Z
}.

Definition bar_new : warp_barrier_t := mk_bar ∅ ∅ 0 0 0.

(** A core's scheduler and barrier table; the cores of a cluster with the
    cluster's global barriers ([core_barrier_t] is a mask of cores). *)
Record core_t (M : Type) := mk_core { co_sched : Scheduler M; co_barriers : list warp_barrier_t }.
Arguments mk_core {M}. Arguments co_sched {M}. Arguments co_barriers {M}.

Record Cluster (M : Type) := mk_cluster {
  cl_id : Z;
  cl_cores : list (core_t M);
  cl_gbarriers : list (gset Z)
}.
Arguments mk_cluster {M}. Arguments cl_id {M}. Arguments cl_cores {M}. Arguments cl_gbarriers {M}.

Definition is_global (bar_id : Z) : bool := negb (Z.shiftr bar_id 31 =? 0).
Definition bar_index (bar_id : Z) : Z := Z.land bar_id 0x7fffffff.

Section Barrier.
Context `{VxConfig} `{HM : MaskSpec M}.

(** [BarrierUnit::BarrierUnit], [BarrierUnit::on_reset] *)
Definition barriers_new : list warp_barrier_t := replicate (Z.to_nat (NUM_WARPS * NUM_BARRIERS)) bar_new.

(** [BarrierUnit::get_phase]; out of range throws. *)
Definition get_phase (bs : list warp_barrier_t) (bar_id : Z) : option Z :=
  bar_phase <$> bs !! Z.to_nat (bar_index bar_id).

Definition set_bar (co : core_t M) (bar_id : Z) (b : warp_barrier_t) : core_t M :=
  mk_core (co_sched co) (vset (co_barriers co) (bar_index bar_id) b).

(** "resume waiting warps" *)
Definition resume_waiters (s : Scheduler M) (mask : gset Z) : option (Scheduler M) :=
  foldl (fun o i => s' ← o; if bool_decide (i ∈ mask) then resume s' i else Some s') (Some s) (range NUM_WARPS).

(** [BarrierUnit::global_resume] *)
Definition global_resume (co : core_t M) (bar_id : Z) : option (core_t M) :=
  b ← co_barriers co !! Z.to_nat (bar_index bar_id);
  s ← resume_waiters (co_sched co) (wait_mask b);
  Some (set_bar (mk_core s (co_barriers co)) bar_id
          (mk_bar ∅ (arrival_mask b) (bar_count b) (bar_events b) (u32 (bar_phase b + 1)))).

(** [Cluster::Impl::global_barrier_arrive]; the cores of the sockets are
    visited in index order. *)
Definition global_barrier_arrive (cl : Cluster M) (bar_id count core_id : Z) : option (Cluster M) :=
  let n := Z.of_nat (length (cl_cores cl)) in
  let gi := bar_id mod Z.of_nat (length (cl_gbarriers cl)) in
  mask ← cl_gbarriers cl !! Z.to_nat gi;
  let mask := {[core_id mod n]} ∪ mask in
  if Z.of_nat (size mask) =? count then
    cores ← mapM (fun '(i, co) => if bool_decide (i ∈ mask) then global_resume co bar_id else Some co)
              (zip (range n) (cl_cores cl));
    Some (mk_cluster (cl_id cl) cores (vset (cl_gbarriers cl) gi ∅))
  else Some (mk_cluster (cl_id cl) (cl_cores cl) (vset (cl_gbarriers cl) gi mask)).

(** [Core::id] of the [i]-th core of the cluster. *)
Definition core_id_of (cl : Cluster M) (i : Z) : Z := cl_id cl * Z.of_nat (length (cl_cores cl)) + i.

Definition set_core (cl : Cluster M) (i : Z) (co : core_t M) : Cluster M :=
  mk_cluster (cl_id cl) (vset (cl_cores cl) i co) (cl_gbarriers cl).

(** After the cluster has been told: "arrival_mask is local-only and reset
    here". *)
Definition clear_arrivals (cl : Cluster M) (i bar_id : Z) : option (Cluster M) :=
  co ← cl_cores cl !! Z.to_nat i;
  b ← co_barriers co !! Z.to_nat (bar_index bar_id);
  Some (set_core cl i (set_bar co bar_id (mk_bar (wait_mask b) ∅ 0 0 (bar_phase b)))).

(** The local branch of [arrive]. *)
Definition arrive_local (co : core_t M) (b : warp_barrier_t) (bar_id count wid : Z) (is_sync : bool)
    : option (core_t M) :=
  let wm := if is_sync then {[wid]} ∪ wait_mask b else wait_mask b in
  let p1 := u32 (bar_count b + 1) in
  r ← (if (p1 =? count) && (bar_events b =? 0) then
         s ← resume_waiters (co_sched co) wm;
         Some (s, ∅, u32 (bar_phase b + 1))
       else Some (co_sched co, wm, bar_phase b));
  let '(s, wm', phase) := r in
  if count =? 0 then None
  else Some (set_bar (mk_core s (co_barriers co)) bar_id
               (mk_bar wm' (arrival_mask b) (p1 mod count) (bar_events b) phase)).

(** [BarrierUnit::arrive] on core [i] of the cluster. *)
Definition arrive (cl : Cluster M) (i bar_id count wid : Z) (is_sync : bool) : option (Cluster M) :=
  co ← cl_cores cl !! Z.to_nat i;
  b ← co_barriers co !! Z.to_nat (bar_index bar_id);
  if is_global bar_id then
    let b1 := mk_bar (if is_sync then {[wid]} ∪ wait_mask b else wait_mask b)
                ({[wid]} ∪ arrival_mask b) count (bar_events b) (bar_phase b) in
    let cl1 := set_core cl i (set_bar co bar_id b1) in
    if bool_decide (size (arrival_mask b1) = size (active_warps_ (co_sched co))) && (bar_events b1 =? 0) then
      cl2 ← global_barrier_arrive cl1 bar_id count (core_id_of cl i);
      clear_arrivals cl2 i bar_id
    else Some cl1
  else
    co' ← arrive_local co b bar_id count wid is_sync;
    Some (set_core cl i co').

(** [BarrierUnit::wait] *)
Definition wait (co : core_t M) (bar_id phase wid : Z) : option (bool * core_t M) :=
  b ← co_barriers co !! Z.to_nat (bar_index bar_id);
  if bar_phase b =? phase then
    Some (true, set_bar co bar_id (mk_bar ({[wid]} ∪ wait_mask b) (arrival_mask b) (bar_count b)
                                     (bar_events b) (bar_phase b)))
  else Some (false, co).

(** [BarrierUnit::event_attach] *)
Definition event_attach (co : core_t M) (bar_id count : Z) : option (core_t M) :=
  b ← co_barriers co !! Z.to_nat (bar_index bar_id);
  Some (set_bar co bar_id (mk_bar (wait_mask b) (arrival_mask b) (bar_count b)
                             (u32 (bar_events b + count)) (bar_phase b))).

(** The local branch of [event_release] once no event is left. *)
Definition release_local (co : core_t M) (b : warp_barrier_t) (bar_id : Z) : option (core_t M) :=
  if bar_count b =? 0 then
    s ← resume_waiters (co_sched co) (wait_mask b);
    Some (set_bar (mk_core s (co_barriers co)) bar_id
            (mk_bar ∅ (arrival_mask b) (bar_count b) (bar_events b) (u32 (bar_phase b + 1))))
  else Some (set_bar co bar_id b).

(** [BarrierUnit::event_release]; without a pending event the assertion
    fails. *)
Definition event_release (cl : Cluster M) (i bar_id : Z) : option (Cluster M) :=
  co ← cl_cores cl !! Z.to_nat i;
  b ← co_barriers co !! Z.to_nat (bar_index bar_id);
  if bar_events b <=? 0 then None
  else
    let b1 := mk_bar (wait_mask b) (arrival_mask b) (bar_count b) (bar_events b - 1) (bar_phase b) in
    let cl1 := set_core cl i (set_bar co bar_id b1) in
    if bar_events b1 =? 0 then
      if is_global bar_id then
        if bool_decide (size (arrival_mask b1) = size (active_warps_ (co_sched co))) then
          cl2 ← global_barrier_arrive cl1 bar_id (bar_count b1) (core_id_of cl i);
          clear_arrivals cl2 i bar_id
        else Some cl1
      else co' ← release_local co b1 bar_id; Some (set_core cl i co')
    else Some cl1.
End Barrier.

(** ** Waiting warps *)

Section Waiters.
Context `{Hcfg : VxConfigOk} `{HM : MaskSpec M}.
Variable L : option Z.

(** Resuming a set of stalled warps: each is found stalled, and they are the
    only ones released. *)
Lemma resume_list_inv k (mask : gset Z) l : forall s,
  sched_inv L s k -> NoDup l ->
  (forall w, w ∈ mask -> w ∈ active_warps_ s) -> (forall w, w ∈ l -> w ∈ mask -> w ∈ stalled_warps_next_ s) ->
  (ws_valid (wspawn_ s) = true -> 0 ∉ mask) ->
  exists s', foldl (fun o i => s' ← o; if bool_decide (i ∈ mask) then resume s' i else Some s') (Some s) l = Some s'
    /\ sched_inv L s' k /\ active_warps_ s' = active_warps_ s /\ wspawn_ s' = wspawn_ s
    /\ (forall w, w ∈ stalled_warps_next_ s' <-> w ∈ stalled_warps_next_ s /\ ~ (w ∈ l /\ w ∈ mask)).
Proof using Hcfg HM.
  induction l as [|i l IH]; intros s Hs Hnd Ha Hn Hv; simpl.
  { exists s. split_and!; try done. set_solver. }
  apply list.NoDup_cons in Hnd as [Hni Hnd].
  destruct (bool_decide_reflect (i ∈ mask)) as [Hi|Hi].
  - assert (Hin : i ∈ stalled_warps_next_ s) by (apply Hn; [left|done]).
    assert (Hr := resume_some s i (Ha i Hi) Hin). rewrite Hr.
    assert (Hs1 := resume_inv L s k i _ Hs (fun V E => Hv V ltac:(by rewrite <- E)) Hr).
    set (s1 := set_masks _ _ _ _) in *.
    destruct (IH s1 Hs1 Hnd Ha) as (s' & E & H1' & H2' & H3' & H4'); [|done|].
    + intros w Hw Hm. simpl. apply elem_of_difference. split; [apply Hn; [by right|done]|].
      rewrite elem_of_singleton. congruence.
    + exists s'. split_and!; try done. intros w. rewrite H4'. simpl. set_solver.
  - destruct (IH s Hs Hnd Ha) as (s' & E & H1' & H2' & H3' & H4'); [|done|].
    + intros w Hw. apply Hn. by right.
    + exists s'. split_and!; try done. intros w. rewrite H4'. set_solver.
Qed.

Lemma resume_waiters_inv s k mask :
  sched_inv L s k -> mask ⊆ active_warps_ s -> mask ⊆ stalled_warps_next_ s ->
  (ws_valid (wspawn_ s) = true -> 0 ∉ mask) ->
  exists s', resume_waiters s mask = Some s' /\ sched_inv L s' k
    /\ active_warps_ s' = active_warps_ s /\ wspawn_ s' = wspawn_ s
    /\ stalled_warps_next_ s' = stalled_warps_next_ s ∖ mask.
Proof using Hcfg HM.
  intros Hs Ha Hn Hv.
  destruct (resume_list_inv k mask (range NUM_WARPS) s Hs (NoDup_range _)) as (s' & E & H1' & H2' & H3' & H4');
    [set_solver..|done|].
  exists s'. split_and!; try done. apply set_eq. intros w. rewrite H4', elem_of_difference. split.
  - intros [Hw Hm]. split; [done|]. intros Hin. apply Hm. split; [|done].
    apply elem_of_range, (mo_active _ _ (si_masks _ _ _ Hs)). by apply Ha.
  - naive_solver.
Qed.

(** ** Stall ownership

    [tok] holds the warps whose instruction is still in the pipeline and
    will resume them; every other stalled warp waits on exactly one barrier,
    or is warp 0 waiting for its spawn. *)
Record core_ok (k : Kmu) (tok : gset Z) (co : core_t M) : Prop := {
  ck_sched : sched_inv L (co_sched co) k;
  ck_tok : forall w, w ∈ tok -> w ∈ active_warps_ (co_sched co) /\ w ∈ stalled_warps_next_ (co_sched co);
  ck_tok0 : ws_valid (wspawn_ (co_sched co)) = true -> 0 ∉ tok;
  ck_len : length (co_barriers co) = Z.to_nat (NUM_WARPS * NUM_BARRIERS);
  ck_wait : forall j b w, co_barriers co !! j = Some b -> w ∈ wait_mask b ->
    w ∈ active_warps_ (co_sched co) /\ w ∈ stalled_warps_next_ (co_sched co) /\ (w ∉ tok)
    /\ (ws_valid (wspawn_ (co_sched co)) = true -> w <> 0);
  ck_disj : forall j j' b b' w, co_barriers co !! j = Some b -> co_barriers co !! j' = Some b' ->
    w ∈ wait_mask b -> w ∈ wait_mask b' -> j = j';
  ck_owned : forall w, w ∈ active_warps_ (co_sched co) -> w ∈ stalled_warps_next_ (co_sched co) ->
    w ∈ tok \/ (exists j b, co_barriers co !! j = Some b /\ w ∈ wait_mask b)
    \/ (w = 0 /\ ws_valid (wspawn_ (co_sched co)) = true)
}.

(** Replacing a barrier by one with the same waiters. *)
Lemma set_bar_ok k tok co bar_id b b' :
  core_ok k tok co -> co_barriers co !! Z.to_nat (bar_index bar_id) = Some b ->
  wait_mask b' = wait_mask b -> core_ok k tok (set_bar co bar_id b').
Proof using Hcfg HM.
  intros [C1 C2 C3 C4 C5 C6 C7] Eb Hsub.
  assert (Hlk : forall j x, vset (co_barriers co) (bar_index bar_id) b' !! j = Some x ->
    exists y, co_barriers co !! j = Some y /\ wait_mask x = wait_mask y).
  { intros j x. unfold vset. rewrite list_lookup_insert_Some. intros [(<- & -> & _)|[_ E]]; [by exists b|by exists x]. }
  constructor; simpl; try done; [by rewrite length_vset| | |].
  - intros j x w (y & Ey & ->)%Hlk Hw. by apply (C5 j y w Ey).
  - intros j j' x x' w (y & Ey & ->)%Hlk (y' & Ey' & ->)%Hlk Hw Hw'. by eapply (C6 j j' y y' w).
  - intros w Ha Hn. destruct (C7 w Ha Hn) as [?|[(j & y & Ey & Hy)|?]]; [by left| |by right; right].
    right. left. destruct (decide (j = Z.to_nat (bar_index bar_id))) as [->|Hne].
    + exists (Z.to_nat (bar_index bar_id)), b'. unfold vset.
      rewrite list_lookup_insert_eq by (by eapply lookup_lt_Some). split; [done|]. congruence.
    + exists j, y. unfold vset. by rewrite list_lookup_insert_ne.
Qed.

(** A warp in the pipeline starts waiting on a barrier. *)
Lemma park_ok k tok co bar_id b b' wid :
  core_ok k tok co -> co_barriers co !! Z.to_nat (bar_index bar_id) = Some b -> wid ∈ tok ->
  wait_mask b' = {[wid]} ∪ wait_mask b -> core_ok k (tok ∖ {[wid]}) (set_bar co bar_id b').
Proof using Hcfg HM.
  intros [C1 C2 C3 C4 C5 C6 C7] Eb Ht Hb'.
  assert (Hwn : forall j y, co_barriers co !! j = Some y -> wid ∉ wait_mask y).
  { intros j y Ey Hw. by destruct (C5 j y wid Ey Hw) as (_ & _ & ? & _). }
  assert (Hlk : forall j x, vset (co_barriers co) (bar_index bar_id) b' !! j = Some x ->
    exists y, co_barriers co !! j = Some y
      /\ forall w, w ∈ wait_mask x -> w ∈ wait_mask y \/ (w = wid /\ j = Z.to_nat (bar_index bar_id))).
  { intros j x. unfold vset. rewrite list_lookup_insert_Some.
    intros [(<- & -> & _)|[_ E]]; [exists b|exists x]; (split; [done|]); [rewrite Hb'|]; set_solver. }
  constructor; simpl; try done; [set_solver|set_solver|by rewrite length_vset| | |].
  - intros j x w (y & Ey & Hs)%Hlk [Hw|[-> _]]%Hs.
    + destruct (C5 j y w Ey Hw) as (? & ? & ? & ?). set_solver.
    + destruct (C2 _ Ht). split_and!; try done; [set_solver|]. intros Hv ->. by apply (C3 Hv).
  - intros j j' x x' w (y & Ey & Hs)%Hlk (y' & Ey' & Hs')%Hlk [Hw|[-> ->]]%Hs [Hw'|[E' Ej']]%Hs'.
    + by eapply (C6 j j' y y' w).
    + subst w. by destruct (Hwn _ _ Ey Hw).
    + by destruct (Hwn _ _ Ey' Hw').
    + done.
  - intros w Ha Hn. destruct (decide (w = wid)) as [->|Hne].
    { right. left. exists (Z.to_nat (bar_index bar_id)), b'. unfold vset.
      rewrite list_lookup_insert_eq by (by eapply lookup_lt_Some). split; [done|]. set_solver. }
    destruct (C7 w Ha Hn) as [?|[(j & y & Ey & Hy)|?]]; [left; set_solver| |by right; right].
    right. left. destruct (decide (j = Z.to_nat (bar_index bar_id))) as [->|Hj].
    + exists (Z.to_nat (bar_index bar_id)), b'. unfold vset.
      rewrite list_lookup_insert_eq by (by eapply lookup_lt_Some). split; [done|]. set_solver.
    + exists j, y. unfold vset. by rewrite list_lookup_insert_ne.
Qed.

(** All the waiters of a barrier are released. *)
Lemma wake_ok k tok co bar_id b b' :
  core_ok k tok co -> co_barriers co !! Z.to_nat (bar_index bar_id) = Some b -> wait_mask b' = ∅ ->
  exists s', resume_waiters (co_sched co) (wait_mask b) = Some s'
    /\ core_ok k tok (set_bar (mk_core s' (co_barriers co)) bar_id b')
    /\ active_warps_ s' = active_warps_ (co_sched co)
    /\ stalled_warps_next_ s' = stalled_warps_next_ (co_sched co) ∖ wait_mask b.
Proof using Hcfg HM.
  intros [C1 C2 C3 C4 C5 C6 C7] Eb Hb'.
  destruct (resume_waiters_inv (co_sched co) k (wait_mask b) C1) as (s' & E & S1 & S2 & S3 & S4).
  { intros w Hw. by destruct (C5 _ _ _ Eb Hw). }
  { intros w Hw. by destruct (C5 _ _ _ Eb Hw) as (_ & ? & _). }
  { intros Hv H0'. destruct (C5 _ _ _ Eb H0') as (_ & _ & _ & Hz). by apply Hz. }
  assert (Hlk : forall j x w, vset (co_barriers co) (bar_index bar_id) b' !! j = Some x -> w ∈ wait_mask x ->
    co_barriers co !! j = Some x /\ j <> Z.to_nat (bar_index bar_id)).
  { intros j x w. unfold vset. rewrite list_lookup_insert_Some.
    intros [(<- & -> & _)|[Hne Ex]] Hw; [rewrite Hb' in Hw; set_solver|done]. }
  exists s'. split; [done|]. split; [|done]. constructor; simpl; rewrite ?S2, ?S3, ?S4; try done.
  - intros w Hw. destruct (C2 _ Hw). split; [done|]. apply elem_of_difference. split; [done|].
    intros Hwb. by destruct (C5 _ _ _ Eb Hwb) as (_ & _ & ? & _).
  - by rewrite length_vset.
  - intros j x w Ex Hw. destruct (Hlk _ _ _ Ex Hw) as [Ex' Hne]. destruct (C5 _ _ _ Ex' Hw) as (? & ? & ? & ?).
    split_and!; try done. apply elem_of_difference. split; [done|]. intros Hwb. apply Hne. by eapply C6.
  - intros j j' x x' w Ex Ex' Hw Hw'. destruct (Hlk _ _ _ Ex Hw), (Hlk _ _ _ Ex' Hw'). by eapply (C6 j j' x x').
  - intros w Ha [Hn Hnb]%elem_of_difference.
    destruct (C7 w Ha Hn) as [?|[(j & y & Ey & Hy)|?]]; [by left| |by right; right].
    right. left. exists j, y. unfold vset. rewrite list_lookup_insert_ne; [done|]. intros <-. congruence.
Qed.

(** ** Operations keep the ownership *)

Lemma set_bar_twice (co : core_t M) bar_id b b' (s : Scheduler M) :
  set_bar (mk_core s (co_barriers (set_bar co bar_id b))) bar_id b' = set_bar (mk_core s (co_barriers co)) bar_id b'.
Proof using. unfold set_bar, vset. simpl. by rewrite list_insert_insert_eq. Qed.

Lemma set_bar_lookup (co : core_t M) bar_id b b' :
  co_barriers co !! Z.to_nat (bar_index bar_id) = Some b ->
  co_barriers (set_bar co bar_id b') !! Z.to_nat (bar_index bar_id) = Some b'.
Proof using. intros E. simpl. unfold vset. apply list_lookup_insert_eq. by eapply lookup_lt_Some. Qed.

Lemma global_resume_ok k tok co bar_id :
  core_ok k tok co -> (Z.to_nat (bar_index bar_id) < length (co_barriers co))%nat ->
  exists co', global_resume co bar_id = Some co' /\ core_ok k tok co'.
Proof using Hcfg HM.
  intros Hco [b Eb]%lookup_lt_is_Some_2. unfold global_resume. rewrite Eb. simpl.
  destruct (wake_ok k tok co bar_id b (mk_bar ∅ (arrival_mask b) (bar_count b) (bar_events b)
    (u32 (bar_phase b + 1))) Hco Eb eq_refl) as (s' & -> & ? & _). simpl. by eexists.
Qed.

Lemma arrive_local_ok k tok co bar_id b count wid sync :
  core_ok k tok co -> co_barriers co !! Z.to_nat (bar_index bar_id) = Some b -> count <> 0 -> wid ∈ tok ->
  exists co', arrive_local co b bar_id count wid sync = Some co'
    /\ core_ok k (if sync then tok ∖ {[wid]} else tok) co'.
Proof using Hcfg HM.
  intros Hco Eb Hcnt Ht. unfold arrive_local. rewrite (proj2 (Z.eqb_neq count 0)) by done.
  set (p1 := u32 (bar_count b + 1)). destruct sync.
  - set (b1 := mk_bar ({[wid]} ∪ wait_mask b) (arrival_mask b) (bar_count b) (bar_events b) (bar_phase b)).
    pose proof (park_ok _ _ _ bar_id b b1 wid Hco Eb Ht eq_refl) as H1'.
    destruct ((p1 =? count) && (bar_events b =? 0)); simpl.
    + destruct (wake_ok _ _ _ bar_id b1 (mk_bar ∅ (arrival_mask b) (p1 mod count) (bar_events b)
        (u32 (bar_phase b + 1))) H1' (set_bar_lookup _ _ _ _ Eb) eq_refl) as (s' & Es & H2' & _).
      simpl in Es. rewrite Es. simpl. eexists. split; [done|]. by rewrite set_bar_twice in H2'.
    + eexists. split; [done|]. by apply (park_ok _ _ _ bar_id b _ wid Hco Eb Ht).
  - destruct ((p1 =? count) && (bar_events b =? 0)); simpl.
    + destruct (wake_ok _ _ _ bar_id b (mk_bar ∅ (arrival_mask b) (p1 mod count) (bar_events b)
        (u32 (bar_phase b + 1))) Hco Eb eq_refl) as (s' & -> & H2' & _). simpl. by eexists.
    + eexists. split; [done|]. apply (set_bar_ok _ _ _ bar_id b _ Hco Eb). done.
Qed.

Lemma wait_ok k tok co bar_id phase wid :
  core_ok k tok co -> (Z.to_nat (bar_index bar_id) < length (co_barriers co))%nat -> wid ∈ tok ->
  exists r co', wait co bar_id phase wid = Some (r, co') /\ core_ok k (if r then tok ∖ {[wid]} else tok) co'.
Proof using Hcfg HM.
  intros Hco [b Eb]%lookup_lt_is_Some_2 Ht. unfold wait. rewrite Eb. simpl.
  case_match; do 2 eexists; (split; [done|]); [|done].
  by apply (park_ok _ _ _ bar_id b _ wid Hco Eb Ht).
Qed.

Lemma event_attach_ok k tok co bar_id count :
  core_ok k tok co -> (Z.to_nat (bar_index bar_id) < length (co_barriers co))%nat ->
  exists co', event_attach co bar_id count = Some co' /\ core_ok k tok co'.
Proof using Hcfg HM.
  intros Hco [b Eb]%lookup_lt_is_Some_2. unfold event_attach. rewrite Eb. simpl. eexists. split; [done|].
  by apply (set_bar_ok _ _ _ bar_id b _ Hco Eb).
Qed.

(** ** The cluster *)

Record cluster_ok (k : Kmu) (toks : list (gset Z)) (cl : Cluster M) : Prop := {
  kl_cores : Forall2 (core_ok k) toks (cl_cores cl);
  kl_gbar : length (cl_gbarriers cl) = Z.to_nat NUM_BARRIERS
}.

(** A barrier of the table. *)
Definition bar_valid (bar_id : Z) : Prop := 0 <= bar_id /\ bar_index bar_id < NUM_WARPS * NUM_BARRIERS.

Lemma bar_valid_lookup k tok co bar_id :
  core_ok k tok co -> bar_valid bar_id -> (Z.to_nat (bar_index bar_id) < length (co_barriers co))%nat.
Proof using Hcfg HM.
  intros Hco [H1' H2']. rewrite (ck_len _ _ _ Hco).
  assert (0 <= bar_index bar_id) by (apply Z.land_nonneg; lia). lia.
Qed.

Lemma set_core_ok k toks cl i co' tok' :
  cluster_ok k toks cl -> core_ok k tok' co' ->
  cluster_ok k (<[Z.to_nat i := tok']> toks) (set_core cl i co').
Proof using Hcfg HM. intros [H1' H2'] Hco. constructor; [|done]. by apply Forall2_insert. Qed.

Lemma mapM_cores (P : gset Z -> core_t M -> Prop) f toks cores : Forall2 P toks cores ->
  (forall tok co i, P tok co -> exists co', f (i, co) = Some co' /\ P tok co') ->
  forall l : list Z, length l = length cores ->
  exists cores', mapM f (zip l cores) = Some cores' /\ Forall2 P toks cores'.
Proof using.
  intros HF Hf. induction HF as [|tok co toks cores Hp _ IH]; intros l Hl.
  { destruct l; [|done]. exists []. by split; [|constructor]. }
  destruct l as [|i l]; [done|]. simpl. destruct (Hf tok co i Hp) as (co' & -> & Hp').
  destruct (IH l) as (cores' & -> & HF'); [by injection Hl|]. simpl. eexists. split; [done|]. by constructor.
Qed.

Lemma gbar_arrive_ok k toks cl bar_id count cid :
  cluster_ok k toks cl -> bar_valid bar_id ->
  exists cl', global_barrier_arrive cl bar_id count cid = Some cl' /\ cluster_ok k toks cl'.
Proof using Hcfg HM.
  intros [H1' H2'] Hv. unfold global_barrier_arrive. pose proof num_barriers_ok.
  assert (Hg : (Z.to_nat (bar_id mod Z.of_nat (length (cl_gbarriers cl))) < length (cl_gbarriers cl))%nat).
  { rewrite H2'. pose proof (Z.mod_pos_bound bar_id (Z.of_nat (Z.to_nat NUM_BARRIERS))). lia. }
  apply lookup_lt_is_Some_2 in Hg as [mask Em]. rewrite Em. simpl.
  destruct (_ =? count).
  - destruct (mapM_cores (core_ok k)
      (fun '(i, co) => if bool_decide (i ∈ {[cid mod Z.of_nat (length (cl_cores cl))]} ∪ mask)
                       then global_resume co bar_id else Some co) toks (cl_cores cl) H1')
      with (l := range (Z.of_nat (length (cl_cores cl)))) as (cores' & -> & HF).
    + intros tok co i Hco. case_match; [|by eexists]. apply global_resume_ok; [done|].
      by eapply bar_valid_lookup.
    + unfold range. rewrite length_fmap, length_seq. lia.
    + simpl. eexists. split; [done|]. constructor; [done|]. simpl. by rewrite length_vset.
  - eexists. split; [done|]. constructor; [done|]. simpl. by rewrite length_vset.
Qed.

Lemma clear_arrivals_ok k toks cl i bar_id tok :
  cluster_ok k toks cl -> toks !! Z.to_nat i = Some tok -> bar_valid bar_id ->
  exists cl', clear_arrivals cl i bar_id = Some cl' /\ cluster_ok k toks cl'.
Proof using Hcfg HM.
  intros Hcl Ht Hv. destruct (Forall2_lookup_l _ _ _ _ _ (kl_cores _ _ _ Hcl) Ht) as (co & Eco & Hco).
  unfold clear_arrivals. rewrite Eco. simpl.
  destruct (lookup_lt_is_Some_2 _ _ (bar_valid_lookup _ _ _ _ Hco Hv)) as [b Eb]. rewrite Eb. simpl.
  eexists. split; [done|]. rewrite <- (list_insert_id toks (Z.to_nat i) tok) by done.
  apply set_core_ok; [done|]. by apply (set_bar_ok _ _ _ bar_id b _ Hco Eb).
Qed.

Lemma arrive_ok k toks cl i bar_id count wid sync tok :
  cluster_ok k toks cl -> toks !! Z.to_nat i = Some tok -> wid ∈ tok -> bar_valid bar_id -> count <> 0 ->
  exists cl', arrive cl i bar_id count wid sync = Some cl'
    /\ cluster_ok k (<[Z.to_nat i := if sync then tok ∖ {[wid]} else tok]> toks) cl'.
Proof using Hcfg HM.
  intros Hcl Ht Hw Hv Hc. destruct (Forall2_lookup_l _ _ _ _ _ (kl_cores _ _ _ Hcl) Ht) as (co & Eco & Hco).
  unfold arrive. rewrite Eco. bind_simpl.
  destruct (lookup_lt_is_Some_2 _ _ (bar_valid_lookup _ _ _ _ Hco Hv)) as [b Eb]. rewrite Eb. bind_simpl.
  destruct (is_global bar_id).
  - set (b1 := mk_bar _ _ _ _ _).
    assert (H1' : cluster_ok k (<[Z.to_nat i := if sync then tok ∖ {[wid]} else tok]> toks)
                    (set_core cl i (set_bar co bar_id b1))).
    { apply set_core_ok; [done|]. destruct sync; [by apply (park_ok _ _ _ bar_id b b1 wid)|].
      by apply (set_bar_ok _ _ _ bar_id b). }
    destruct (_ && _); [|eexists; split; [reflexivity|exact H1']].
    destruct (gbar_arrive_ok _ _ _ bar_id count (core_id_of cl i) H1' Hv) as (cl2 & -> & H2'). bind_simpl.
    eapply clear_arrivals_ok; [done| |done]. apply list_lookup_insert_eq. by eapply lookup_lt_Some.
  - destruct (arrive_local_ok _ _ _ bar_id b count wid sync Hco Eb Hc Hw) as (co' & -> & Hco'). bind_simpl.
    eexists. split; [done|]. by apply set_core_ok.
Qed.

Lemma event_release_ok k toks cl i bar_id tok co b :
  cluster_ok k toks cl -> toks !! Z.to_nat i = Some tok -> bar_valid bar_id ->
  cl_cores cl !! Z.to_nat i = Some co -> co_barriers co !! Z.to_nat (bar_index bar_id) = Some b ->
  0 < bar_events b ->
  exists cl', event_release cl i bar_id = Some cl' /\ cluster_ok k toks cl'.
Proof using Hcfg HM.
  intros Hcl Ht Hv Eco Eb Hev. destruct (Forall2_lookup_l _ _ _ _ _ (kl_cores _ _ _ Hcl) Ht) as (co0 & Eco0 & Hco).
  rewrite Eco in Eco0. injection Eco0 as <-. unfold event_release. rewrite Eco. bind_simpl. rewrite Eb. bind_simpl.
  rewrite (proj2 (Z.leb_gt (bar_events b) 0)) by done. set (b1 := mk_bar _ _ _ _ _).
  assert (Hb1 : core_ok k tok (set_bar co bar_id b1)) by (by apply (set_bar_ok _ _ _ bar_id b)).
  assert (Hput : forall co', core_ok k tok co' -> cluster_ok k toks (set_core cl i co')).
  { intros co' Hco'. rewrite <- (list_insert_id toks (Z.to_nat i) tok) by done. by apply set_core_ok. }
  destruct (bar_events b1 =? 0); [|by eexists; split; [done|apply Hput]].
  destruct (is_global bar_id).
  - case_match; [|by eexists; split; [done|apply Hput]].
    destruct (gbar_arrive_ok _ _ _ bar_id (bar_count b1) (core_id_of cl i) (Hput _ Hb1) Hv) as (cl2 & -> & H2').
    bind_simpl. by eapply clear_arrivals_ok.
  - unfold release_local. case_match; [|by eexists; split; [done|apply Hput]].
    destruct (wake_ok _ _ _ bar_id b (mk_bar ∅ (arrival_mask b1) (bar_count b1) (bar_events b1)
      (u32 (bar_phase b1 + 1))) Hco Eb eq_refl) as (s' & Es & H2' & _).
    change (wait_mask b1) with (wait_mask b). rewrite Es. bind_simpl. by eexists; split; [done|apply Hput].
Qed.
End Waiters.

(** ** Generations of a local barrier *)

Section Generations.
Context `{Hcfg : VxConfigOk} `{HM : MaskSpec M}.
Variable L : option Z.

(** Warps arrive one after the other on a synchronous local barrier. *)
Definition arrive_all (co : core_t M) (bar_id count : Z) (ws : list Z) : option (core_t M) :=
  foldl (fun o w => co' ← o; b ← co_barriers co' !! Z.to_nat (bar_index bar_id);
                    arrive_local co' b bar_id count w true) (Some co) ws.

(** The barrier and the stalled warps after the arrivals [ws]: complete
    generations have been released, the last incomplete one waits. *)
Record after_arrivals (tok : gset Z) (co : core_t M) (bar_id count : Z) (b : warp_barrier_t) (ws : list Z)
    (co' : core_t M) : Prop := {
  ga_bar : co_barriers co' !! Z.to_nat (bar_index bar_id) =
    Some (mk_bar (list_to_set (drop (length ws - length ws mod Z.to_nat count) ws)) (arrival_mask b)
            (Z.of_nat (length ws) mod count) 0 (u32 (bar_phase b + Z.of_nat (length ws) / count)));
  ga_next : stalled_warps_next_ (co_sched co') = stalled_warps_next_ (co_sched co)
    ∖ list_to_set (take (length ws - length ws mod Z.to_nat count) ws);
  ga_active : active_warps_ (co_sched co') = active_warps_ (co_sched co)
}.

(** One more arrival either completes a generation or does not. *)
Lemma gen_arith n count : 0 < count ->
  let c := Z.to_nat count in
  ((S n mod c)%nat = 0%nat /\ Z.of_nat n mod count + 1 = count
   /\ Z.of_nat (S n) mod count = 0 /\ Z.of_nat (S n) / count = Z.of_nat n / count + 1)
  \/ ((S n mod c)%nat = S (n mod c) /\ Z.of_nat n mod count + 1 < count
      /\ Z.of_nat (S n) mod count = Z.of_nat n mod count + 1 /\ Z.of_nat (S n) / count = Z.of_nat n / count).
Proof using.
  cbv zeta. intros Hc. pose proof (Z.mod_pos_bound (Z.of_nat n) count Hc) as Hb.
  pose proof (Z.div_mod (Z.of_nat n) count ltac:(lia)) as E.
  assert (Hmod : forall m, Z.of_nat (m mod Z.to_nat count) = Z.of_nat m mod count)
    by (intros m; rewrite Nat2Z.inj_mod, Z2Nat.id; lia).
  set (q := Z.of_nat n / count) in *. set (r := Z.of_nat n mod count) in *.
  destruct (Z.eq_dec (r + 1) count) as [E1|E1]; [left|right].
  - assert (Es : Z.of_nat (S n) = count * (q + 1) + 0) by (rewrite Z.mul_add_distr_l; lia).
    rewrite <- (Z.mod_unique _ count (q + 1) 0), <- (Z.div_unique _ count (q + 1) 0) by lia.
    pose proof (Hmod (S n)) as Hm. rewrite <- (Z.mod_unique _ count (q + 1) 0) in Hm by lia. lia.
  - assert (Es : Z.of_nat (S n) = count * q + (r + 1)) by lia.
    rewrite <- (Z.mod_unique _ count q (r + 1)), <- (Z.div_unique _ count q (r + 1)) by lia.
    pose proof (Hmod (S n)) as Hm. rewrite <- (Z.mod_unique _ count q (r + 1)) in Hm by lia.
    pose proof (Hmod n). lia.
Qed.

Section Step.
Variables (k : Kmu) (tok : gset Z) (co co' : core_t M) (bar_id count : Z) (b : warp_barrier_t) (ws : list Z) (w : Z).
Hypothesis (Hga : after_arrivals tok co bar_id count b ws co').
Hypothesis (Hco : core_ok L k (tok ∖ list_to_set ws) co').
Hypothesis (Hw : w ∈ tok ∖ list_to_set ws).
Hypothesis (Hc : 0 < count < 2 ^ 32).

#[local] Abbreviation n := (length ws).
#[local] Abbreviation c := (Z.to_nat count).
#[local] Abbreviation b1 := (mk_bar (list_to_set (drop (n - n mod c) ws)) (arrival_mask b)
  (Z.of_nat n mod count) 0 (u32 (bar_phase b + Z.of_nat n / count))).

Lemma snoc_len : length (ws ++ [w]) = S n.
Proof using. rewrite length_app. simpl. lia. Qed.

(** The arrival completes the generation. *)
Lemma arrive_last co'' :
  Z.of_nat n mod count + 1 = count -> (S n mod c)%nat = 0%nat ->
  Z.of_nat (S n) mod count = 0 -> Z.of_nat (S n) / count = Z.of_nat n / count + 1 ->
  arrive_local co' b1 bar_id count w true = Some co'' -> after_arrivals tok co bar_id count b (ws ++ [w]) co''.
Proof using All.
  intros E1 E2 E3 E4. destruct Hga as [Eb En Ea]. unfold arrive_local.
  set (D := list_to_set (drop (n - n mod c) ws) : gset Z) in *. simpl bar_count.
  rewrite (u32_small (Z.of_nat n mod count + 1)) by lia. simpl bar_events.
  rewrite (proj2 (Z.eqb_neq count 0)), (proj2 (Z.eqb_eq (Z.of_nat n mod count + 1) count)) by lia.
  pose proof (park_ok L _ _ _ bar_id b1 (mk_bar ({[w]} ∪ wait_mask b1) (arrival_mask b1) (bar_count b1)
    (bar_events b1) (bar_phase b1)) w Hco Eb Hw eq_refl) as Hp. fold D in Hp.
  destruct (wake_ok L _ _ _ bar_id _ (mk_bar ∅ ∅ 0 0 0) Hp (set_bar_lookup _ _ _ _ Eb) eq_refl)
    as (s' & Es & _ & Sa & Sn).
  change (resume_waiters (co_sched co') ({[w]} ∪ D) = Some s') in Es.
  cbn [set_bar co_sched wait_mask] in Sa, Sn. change (true && (0 =? 0)) with true. cbv iota. cbn [wait_mask arrival_mask bar_phase].
  rewrite Es. bind_simpl. intros [= <-].
  constructor; rewrite ?snoc_len, ?E2, ?Nat.sub_0_r; simpl.
  - unfold vset. rewrite list_lookup_insert_eq by (by eapply lookup_lt_Some).
    rewrite drop_ge by (rewrite snoc_len; lia). rewrite E1, Z_mod_same_full. f_equal. f_equal; [by rewrite <- E3|].
    change (Z.pos (Pos.of_succ_nat n)) with (Z.of_nat (S n)). rewrite E4. unfold u32.
    rewrite Zplus_mod_idemp_l. f_equal. lia.
  - rewrite Sn, En, (take_ge (ws ++ [w])) by (rewrite snoc_len; lia). rewrite list_to_set_app_L.
    assert (Hws : (list_to_set ws : gset Z) = list_to_set (take (n - n mod c) ws) ∪ D)
      by (unfold D; by rewrite <- list_to_set_app_L, take_drop).
    rewrite Hws. apply set_eq. intros x. rewrite !elem_of_difference, !elem_of_union.
    rewrite (elem_of_list_to_set x [w]), list_elem_of_singleton, elem_of_singleton. tauto.
  - congruence.
Qed.

(** The arrival waits. *)
Lemma arrive_more co'' :
  Z.of_nat n mod count + 1 < count -> (S n mod c)%nat = S (n mod c) ->
  Z.of_nat (S n) mod count = Z.of_nat n mod count + 1 -> Z.of_nat (S n) / count = Z.of_nat n / count ->
  arrive_local co' b1 bar_id count w true = Some co'' -> after_arrivals tok co bar_id count b (ws ++ [w]) co''.
Proof using All.
  intros E1 E2 E3 E4. destruct Hga as [Eb En Ea]. unfold arrive_local. simpl bar_count.
  pose proof (Z.mod_pos_bound (Z.of_nat n) count ltac:(lia)). pose proof (Nat.Div0.mod_le n c).
  rewrite (u32_small (Z.of_nat n mod count + 1)) by lia. simpl bar_events.
  rewrite (proj2 (Z.eqb_neq count 0)), (proj2 (Z.eqb_neq (Z.of_nat n mod count + 1) count)) by lia.
  change (false && (0 =? 0)) with false. cbv iota. bind_simpl. intros [= <-].
  assert (Hlen : (S n - S (n mod c) = n - n mod c)%nat) by lia.
  constructor; rewrite ?snoc_len, ?E2, ?Hlen; simpl.
  - unfold vset. rewrite list_lookup_insert_eq by (by eapply lookup_lt_Some).
    rewrite drop_app_le by lia. change (Z.pos (Pos.of_succ_nat n)) with (Z.of_nat (S n)). rewrite E3, E4.
    f_equal. f_equal; [|apply Z.mod_small; lia].
    rewrite list_to_set_app_L. simpl. by rewrite (union_empty_r_L {[w]}), union_comm_L.
  - rewrite En. by rewrite take_app_le by lia.
  - done.
Qed.
End Step.

Lemma arrive_step k tok co bar_id count b ws w co' :
  after_arrivals tok co bar_id count b ws co' -> core_ok L k (tok ∖ list_to_set ws) co' ->
  w ∈ tok -> w ∉ ws -> 0 < count < 2 ^ 32 ->
  exists co'', (b' ← co_barriers co' !! Z.to_nat (bar_index bar_id); arrive_local co' b' bar_id count w true) = Some co''
    /\ after_arrivals tok co bar_id count b (ws ++ [w]) co'' /\ core_ok L k (tok ∖ list_to_set (ws ++ [w])) co''.
Proof using Hcfg HM.
  intros Hga Hco Hw Hni Hc. rewrite (ga_bar _ _ _ _ _ _ _ Hga). bind_simpl.
  assert (Hw' : w ∈ tok ∖ list_to_set ws) by set_solver.
  edestruct (arrive_local_ok L _ _ _ bar_id _ count w true Hco (ga_bar _ _ _ _ _ _ _ Hga)) as (co2 & E & Hco2);
    [lia|done|].
  exists co2. split; [exact E|]. split.
  - destruct (gen_arith (length ws) count) as [(? & ? & ? & ?)|(? & ? & ? & ?)]; [lia| |].
    + by eapply (arrive_last k).
    + by eapply (arrive_more k).
  - replace (tok ∖ list_to_set (ws ++ [w])) with ((tok ∖ list_to_set ws) ∖ {[w]}); [done|].
    rewrite list_to_set_app_L. set_solver.
Qed.

Lemma arrive_all_spec k tok co bar_id count b ws :
  core_ok L k tok co -> co_barriers co !! Z.to_nat (bar_index bar_id) = Some b ->
  wait_mask b = ∅ -> bar_count b = 0 -> bar_events b = 0 -> 0 <= bar_phase b < 2 ^ 32 ->
  NoDup ws -> (forall w, w ∈ ws -> w ∈ tok) -> 0 < count < 2 ^ 32 ->
  exists co', arrive_all co bar_id count ws = Some co'
    /\ after_arrivals tok co bar_id count b ws co' /\ core_ok L k (tok ∖ list_to_set ws) co'.
Proof using Hcfg HM.
  intros Hco Eb Hwm Hcnt Hev Hph Hnd Hin Hc. induction ws as [|w ws IH] using rev_ind.
  - exists co. split; [done|]. split; [|by rewrite list_to_set_nil, difference_empty_L].
    constructor; [|by rewrite take_nil, list_to_set_nil, difference_empty_L|done].
    rewrite Eb, drop_nil, list_to_set_nil. destruct b as [bw ba bc be bp]; simpl in *. subst. f_equal. f_equal.
    rewrite Z.div_0_l, Z.add_0_r, u32_small by lia. done.
  - apply list.NoDup_app in Hnd as (Hnd & Hdis & _).
    destruct IH as (co' & E & Hga & Hco'); [done|intros x Hx; apply Hin; set_solver|].
    destruct (arrive_step k tok co bar_id count b ws w co' Hga Hco') as (co'' & E' & ? & ?);
      [apply Hin; set_solver|intros Hw; apply (Hdis w Hw); left|done|].
    exists co''. split; [|done]. unfold arrive_all. rewrite foldl_app. simpl.
    unfold arrive_all in E. rewrite E. exact E'.
Qed.
End Generations.
