(* ===== verification/Wctl.v ===== *)
(** * Warp-control unit — [sim/simx/wctl_unit.cpp]

    The unit executes the thread-mask, divergence, spawn and barrier
    instructions.  The file models [WctlUnit::process] over a cluster of
    cores and shows that structured divergence never overflows the IPDOM
    stack, that split and join execute both sides and restore the mask, and
    that no assertion of the scheduler, the barrier unit or the CTA
    dispatcher can fail while the pipeline follows the stall protocol. *)

From S2P Require Import Prelude Mask Bitmanip Kmu Cta Instr Scoreboard Scheduler Barrier.

(** The members of the trace the unit reads. *)
Record wctl_trace := mk_wctl_trace {
  wt_wid : Z;
  wt_PC : Z;
  wt_type : WctlType;
  wt_args : IntrWctlArgs;
  wt_eop : bool;
  wt_wb : bool;
  wt_fetch_stall : bool;
  wt_rs1 : list Z;
  wt_rs2 : list Z
}.

(** The result: the release flag, the [(thread, value)] pairs written to
    [dst_data], and the new state. *)
Record wctl_result (S : Type) := mk_wctl_result {
  wr_release : bool;
  wr_dst : list (Z * Z);
  wr_state : S
}.
Arguments mk_wctl_result {S}. Arguments wr_release {S}. Arguments wr_dst {S}. Arguments wr_state {S}.

Section Wctl.
Context `{VxConfig} `{HM : MaskSpec M}.

#[local] Abbreviation nthreads := (Z.to_nat NUM_THREADS).

(** [(rs1_data.at(t).i & 0x1) ^ not_pred] *)
Definition cond (rs1 : list Z) (not_pred : bool) (t : Z) : bool := xorb (Z.testbit (vget rs1 t) 0) not_pred.

(** [m.set(t, warp.tmask.test(t) && f(t))] for every thread *)
Definition narrow (m : M) (f : Z -> bool) : M :=
  m_fill (m_new NUM_THREADS) nthreads (fun t => m_test m t && f t).

(** [1 << t] is an [int]; converted to [Word] it is sign-extended.  A shift
    by 32 or more is undefined. *)
Definition tmc_word (t : Z) : Z := word (sint 32 (Z.shiftl 1 t)).
Definition tmc_mask (v : Z) : option M :=
  if NUM_THREADS <=? 32 then
    Some (m_fill (m_new NUM_THREADS) nthreads (fun t => negb (Z.land v (tmc_word t) =? 0)))
  else None.

(** [case WctlType::SPLIT] for the last packet: the updated warp and its next
    mask; [None] is the "IPDOM stack is full" abort. *)
Definition split_warp (w : warp_t M) (t : wctl_trace) : option (warp_t M * M) :=
  let not_pred := is_cond_neg (wt_args t) in
  let then_tmask := narrow (tmask w) (cond (wt_rs1 t) not_pred) in
  let else_tmask := narrow (tmask w) (fun i => negb (cond (wt_rs1 t) not_pred i)) in
  if m_any then_tmask && m_any else_tmask then
    if Z.of_nat (length (ipdom_stack w)) =? NUM_THREADS - 1 then None
    else Some (warp_set_stack w (mk_ipdom (tmask w) (word (wt_PC t + 4)) false :: ipdom_stack w),
               if m_count then_tmask <=? m_count else_tmask then then_tmask else else_tmask)
  else Some (w, tmask w).

(** [case WctlType::JOIN] for the last packet; [None] is the "IPDOM stack is
    empty" abort. *)
Definition join_warp (w : warp_t M) (stack_ptr : Z) : option (warp_t M * M) :=
  if stack_ptr =? Z.of_nat (length (ipdom_stack w)) then Some (w, tmask w)
  else match ipdom_stack w with
       | [] => None
       | e :: st =>
         if fallthrough e then Some (warp_set_stack w st, orig_tmask e)
         else Some (warp_set_PC (warp_set_stack w (mk_ipdom (orig_tmask e) (else_PC e) true :: st)) (else_PC e),
                    m_and (m_not (tmask w)) (orig_tmask e))
       end.

(** [case WctlType::PRED] *)
Definition pred_mask (w : warp_t M) (t : wctl_trace) : option M :=
  let p := narrow (tmask w) (cond (wt_rs1 t) (is_cond_neg (wt_args t))) in
  if m_any p then Some (m_and (tmask w) p)
  else v ← vat (wt_rs2 t) (thread_last (tmask w)); Some (m_make NUM_THREADS v).

(** [core_->setTmask] after the warp's other members were updated. *)
Definition commit_mask (cl : Cluster M) (i wid : Z) (w : warp_t M) (m : M) : option (bool * Cluster M) :=
  co ← cl_cores cl !! Z.to_nat i;
  '(r, s) ← setTmask (upd_warp (co_sched co) wid w) wid m;
  Some (r, set_core cl i (mk_core s (co_barriers co))).

(** [case WctlType::BAR] *)
Definition process_bar (cl : Cluster M) (i : Z) (co : core_t M) (w : warp_t M) (t : wctl_trace)
    : option (wctl_result (Cluster M)) :=
  let args := wt_args t in
  a1 ← vat (wt_rs1 t) (thread_last (tmask w));
  a2 ← vat (wt_rs2 t) (thread_last (tmask w));
  let arg1 := u32 a1 in
  let arg2 := u32 a2 in
  let bar_id := bar_decode_id arg1 NUM_BARRIERS in
  let is_tx_expect := is_bar_arrive args && Z.testbit arg2 31 in
  dst ← (if is_bar_arrive args then
           phase ← get_phase (co_barriers co) bar_id;
           Some ((fun th => (th, Z.land phase 1)) <$> filter (fun th => m_test (tmask w) th = true) (range NUM_THREADS))
         else Some []);
  if wt_eop t then
    if is_tx_expect then
      co' ← event_attach co bar_id (Z.land arg2 0x7fffffff);
      Some (mk_wctl_result (wt_fetch_stall t) dst (set_core cl i co'))
    else if wt_wb t || is_sync_bar args then
      cl' ← arrive cl i bar_id arg2 (wt_wid t) (is_sync_bar args);
      Some (mk_wctl_result (if is_sync_bar args then false else wt_fetch_stall t) dst cl')
    else
      '(waits, co') ← wait co bar_id arg2 (wt_wid t);
      Some (mk_wctl_result (negb waits) dst (set_core cl i co'))
  else Some (mk_wctl_result (wt_fetch_stall t) dst cl).

(** [WctlUnit::process] on core [i]; [None] is an abort, an exception or a
    failed assertion. *)
Definition process (cl : Cluster M) (i : Z) (t : wctl_trace) : option (wctl_result (Cluster M)) :=
  co ← cl_cores cl !! Z.to_nat i;
  let s := co_sched co in
  let wid := wt_wid t in
  let w := warp s wid in
  let keep := mk_wctl_result (wt_fetch_stall t) [] cl in
  let commit dst w' m :=
    '(r, cl') ← commit_mask cl i wid w' m; Some (mk_wctl_result r dst cl') in
  match wt_type t with
  | TMC =>
    v ← vat (wt_rs1 t) (thread_last (tmask w));
    m ← tmc_mask v;
    if wt_eop t then commit [] w m else Some keep
  | WSPAWN =>
    if wt_eop t then
      n ← vat (wt_rs1 t) (thread_last (tmask w));
      pc ← vat (wt_rs2 t) (thread_last (tmask w));
      let '(r, s') := wspawn s (u32 n) pc in
      Some (mk_wctl_result r [] (set_core cl i (mk_core s' (co_barriers co))))
    else Some keep
  | SPLIT =>
    let dst := (fun th => (th, Z.of_nat (length (ipdom_stack w))))
                 <$> filter (fun th => thread_start (tmask w) <= th) (range NUM_THREADS) in
    if wt_eop t then '(w', m) ← split_warp w t; commit dst w' m
    else Some (mk_wctl_result (wt_fetch_stall t) dst cl)
  | JOIN =>
    sp ← vat (wt_rs1 t) (thread_last (tmask w));
    if wt_eop t then '(w', m) ← join_warp w sp; commit [] w' m else Some keep
  | BAR => process_bar cl i co w t
  | PRED =>
    m ← pred_mask w t;
    if wt_eop t then commit [] w m else Some keep
  | WSYNC => Some (mk_wctl_result true [] cl)
  end.
End Wctl.

(** ** Thread masks of divergent code *)

Section Masks.
Context `{Hcfg : VxConfigOk} `{HM : MaskSpec M}.

#[local] Abbreviation nthreads := (Z.to_nat NUM_THREADS).

(** The bits of [l] selected by [f]. *)
Definition select (f : Z -> bool) (l : bits) : bits := imap (fun i b => b && f (Z.of_nat i)) l.

Lemma length_select f l : length (select f l) = length l.
Proof using. apply length_imap. Qed.

Lemma narrow_rep m l f :
  m_rep m l -> length l = nthreads -> m_rep (narrow m f) (select f l).
Proof using Hcfg HM.
  intros Hm Hl. unfold narrow. assert (0 <= NUM_THREADS) as H0n by (pose proof num_threads_ok; lia).
  pose proof (m_fill_rep _ _ (fun t => m_test m t && f t) (m_new_rep NUM_THREADS H0n)) as Hf.
  rewrite length_replicate in Hf. replace (select f l) with
    ((fun t => m_test m (Z.of_nat t) && f (Z.of_nat t)) <$> seq 0 nthreads); [done|].
  apply list_eq. intros i. unfold select. rewrite list_lookup_imap, list_lookup_fmap.
  destruct (decide (i < nthreads)%nat) as [Hi|Hi].
  - rewrite lookup_seq_lt by done. destruct (lookup_lt_is_Some_2 l i ltac:(lia)) as [b Eb]. rewrite Eb. simpl.
    f_equal. f_equal. apply (m_test_rep m l (Z.of_nat i) b Hm); [lia|]. by rewrite Nat2Z.id.
  - rewrite (lookup_ge_None_2 l i) by lia. rewrite (lookup_ge_None_2 (seq 0 nthreads) i); [done|].
    rewrite length_seq. lia.
Qed.

Lemma select_cons f b l : select f (b :: l) = (b && f 0) :: select (fun i => f (i + 1)) l.
Proof using.
  unfold select. rewrite imap_cons. f_equal. apply imap_ext. intros i x _. simpl. do 2 f_equal. lia.
Qed.

Lemma select_sub f l : bits_sub (select f l) l.
Proof using.
  revert f. induction l as [|b l IH]; intros f; [constructor|]. rewrite select_cons.
  constructor; [by destruct b|apply IH].
Qed.

Lemma select_popcount f l :
  popcount (select f l) + popcount (select (fun i => negb (f i)) l) = popcount l.
Proof using.
  revert f. induction l as [|b l IH]; intros f; [done|]. rewrite !select_cons. simpl.
  specialize (IH (fun i => f (i + 1))). cbv beta in IH. destruct b, (f 0); simpl; lia.
Qed.

Lemma chain_popcount (st : list (ipdom_entry_t M)) : forall l,
  chain l st -> popcount l + Z.of_nat (length st) <= Z.of_nat (length l).
Proof using.
  induction st as [|e st IH]; intros l; simpl; [intros _; pose proof (popcount_le l); lia|].
  intros (lo & _ & Hlen & Hsub & Hne & Hc). specialize (IH lo Hc).
  pose proof (bits_sub_popcount _ _ Hsub). assert (popcount l <> popcount lo) by (by intros ?%(bits_sub_eq _ _ Hsub)).
  lia.
Qed.

Lemma chain_sub (st : list (ipdom_entry_t M)) l l' :
  bits_sub l' l -> length l' = length l -> chain l st -> chain l' st.
Proof using.
  intros Hsub Hlen. destruct st as [|e st]; [done|]. simpl. intros (lo & Hr & Hl & Hs & Hne & Hc).
  exists lo. split_and!; [done|congruence|by transitivity l| |done]. intros ->. apply Hne.
  apply bits_sub_eq; [done|]. pose proof (bits_sub_popcount _ _ Hsub). pose proof (bits_sub_popcount _ _ Hs). lia.
Qed.

(** The other side of a divergent region. *)
Definition rest (l lo : bits) : bits := zip_with andb (negb <$> l) lo.

Lemma rest_spec l lo :
  bits_sub l lo -> bits_sub (rest l lo) lo /\ length (rest l lo) = length lo
    /\ popcount (rest l lo) + popcount l = popcount lo.
Proof using.
  unfold rest. induction 1 as [|a b l lo Hab _ (IH1 & IH2 & IH3)]; [done|]. simpl. split_and!.
  - constructor; [by destruct a|done].
  - f_equal. exact IH2.
  - change (list_fmap bool bool negb l) with (negb <$> l).
    destruct a, b; simpl; lia || (by specialize (Hab eq_refl)).
Qed.

Lemma and_select f l : zip_with andb l (select f l) = select f l.
Proof using. revert f. induction l as [|b l IH]; intros f; [done|]. rewrite select_cons. simpl. rewrite IH. by destruct b. Qed.

(** A predicate narrows the mask below the same stack. *)
Lemma and_narrow_ok st m f :
  fits st m -> m_any (narrow m f) = true ->
  fits st (m_and m (narrow m f)) /\ (m_any (m_and m (narrow m f)) = false -> st = []).
Proof using Hcfg HM.
  intros (l & Hm & Hl & Hch) Ha. pose proof (narrow_rep _ _ f Hm Hl) as Hn.
  pose proof (m_and_rep _ _ _ _ Hm Hn ltac:(by rewrite length_select)) as Hr. rewrite and_select in Hr.
  split.
  - exists (select f l). split; [done|]. split; [by rewrite length_select|].
    apply (chain_sub _ l); [apply select_sub|by rewrite length_select|done].
  - rewrite (m_any_rep _ _ Hr), <- (m_any_rep _ _ Hn), Ha. done.
Qed.

(** ** Split and join *)

Lemma split_ok (w : warp_t M) t :
  fits (ipdom_stack w) (tmask w) ->
  exists w' m, split_warp w t = Some (w', m) /\ fits (ipdom_stack w') m
    /\ tmask w' = tmask w /\ mscratch_tmask w' = mscratch_tmask w
    /\ (m_any (tmask w) = true -> m_any m = true).
Proof using Hcfg HM.
  intros (l & Hm & Hl & Hch). unfold split_warp. set (f := cond (wt_rs1 t) (is_cond_neg (wt_args t))).
  pose proof (narrow_rep _ _ f Hm Hl) as Ht. pose proof (narrow_rep _ _ (fun i => negb (f i)) Hm Hl) as He.
  destruct (m_any (narrow (tmask w) f) && m_any (narrow (tmask w) (fun i => negb (f i)))) eqn:Ediv.
  2: { exists w, (tmask w). split_and!; try done. by exists l. }
  apply andb_prop in Ediv as [Et Ee].
  rewrite (m_any_rep _ _ Ht), existsb_popcount, Z.ltb_lt in Et.
  rewrite (m_any_rep _ _ He), existsb_popcount, Z.ltb_lt in Ee.
  pose proof (select_popcount f l). pose proof (chain_popcount _ _ Hch).
  rewrite (proj2 (Z.eqb_neq (Z.of_nat (length (ipdom_stack w))) (NUM_THREADS - 1))) by lia.
  do 2 eexists. split; [done|]. split; [|split; [done|split; [done|]]].
  - case_match; [exists (select f l) | exists (select (fun i => negb (f i)) l)];
      (split; [done|]; split; [by rewrite length_select|]; simpl; exists l;
       split_and!; [done|by rewrite length_select|apply select_sub|intros E; rewrite E in *; lia|done]).
  - intros _. case_match; rewrite (m_any_rep _ _ Ht) || rewrite (m_any_rep _ _ He);
      rewrite existsb_popcount; by apply Z.ltb_lt.
Qed.

Lemma join_ok (w : warp_t M) sp :
  fits (ipdom_stack w) (tmask w) -> m_any (tmask w) = true ->
  (sp = Z.of_nat (length (ipdom_stack w)) \/ ipdom_stack w <> []) ->
  exists w' m, join_warp w sp = Some (w', m) /\ fits (ipdom_stack w') m /\ m_any m = true
    /\ mscratch_tmask w' = mscratch_tmask w.
Proof using Hcfg HM.
  intros (l & Hm & Hl & Hch) Hany Hsp. unfold join_warp.
  destruct (Z.eqb_spec sp (Z.of_nat (length (ipdom_stack w)))) as [|Hne].
  { exists w, (tmask w). split_and!; try done. by exists l. }
  destruct (ipdom_stack w) as [|e st] eqn:Est; [naive_solver|].
  destruct Hch as (lo & Hlo & Hlen & Hsub & Hneq & Hch).
  pose proof (rest_spec _ _ Hsub) as (Hr1 & Hr2 & Hr3).
  rewrite (m_any_rep _ _ Hm), existsb_popcount, Z.ltb_lt in Hany.
  assert (popcount l <> popcount lo) by (by intros ?%(bits_sub_eq _ _ Hsub)).
  pose proof (bits_sub_popcount _ _ Hsub).
  destruct (fallthrough e); do 2 eexists; (split; [done|]); simpl.
  - split; [exists lo; split_and!; [done|lia|done]|]. split; [|done].
    rewrite (m_any_rep _ _ Hlo), existsb_popcount. apply Z.ltb_lt. lia.
  - assert (Hr : m_rep (m_and (m_not (tmask w)) (orig_tmask e)) (rest l lo)).
    { apply m_and_rep; [by apply m_not_rep|done|]. by rewrite length_fmap. }
    split; [|split; [|done]].
    + exists (rest l lo). split; [done|]. split; [lia|]. simpl. exists lo.
      split_and!; [done|lia|done| |done]. intros E. rewrite E in *. lia.
    + rewrite (m_any_rep _ _ Hr), existsb_popcount. apply Z.ltb_lt. lia.
Qed.
End Masks.

(** ** Executing warp-control instructions *)

Section Process.
Context `{Hcfg : VxConfigOk} `{HM : MaskSpec M}.
Variable L : option Z.

#[local] Abbreviation nthreads := (Z.to_nat NUM_THREADS).

(** A mask change that respects the enclosing divergent regions: the new
    mask is below the top of the IPDOM stack, and a warp only exits outside
    of every region. *)
Definition structured (w : warp_t M) (m : M) : Prop :=
  fits (ipdom_stack w) m /\ (m_any m = false -> ipdom_stack w = []).

Lemma thread_last_ok (w : warp_t M) :
  fits (ipdom_stack w) (tmask w) -> m_any (tmask w) = true -> 0 <= thread_last (tmask w) < NUM_THREADS.
Proof using Hcfg HM. intros (l & Hm & Hl & _) Ha. apply (thread_last_active _ l Hm); [pose proof num_threads_ok; lia | done]. Qed.

(** What the kernel and the decoder guarantee of a warp-control trace. *)
Definition wctl_ok (w : warp_t M) (t : wctl_trace) : Prop :=
  length (wt_rs1 t) = nthreads /\ length (wt_rs2 t) = nthreads /\ wt_fetch_stall t = true
  /\ match wt_type t with
     | TMC => forall v, vat (wt_rs1 t) (thread_last (tmask w)) = Some v ->
         exists m, tmc_mask v = Some m /\ structured w m
     | WSPAWN => wt_wid t = 0
     | SPLIT => True
     | JOIN => forall sp, vat (wt_rs1 t) (thread_last (tmask w)) = Some sp ->
         sp = Z.of_nat (length (ipdom_stack w)) \/ ipdom_stack w <> []
     | BAR => forall a1 a2, vat (wt_rs1 t) (thread_last (tmask w)) = Some a1 ->
         vat (wt_rs2 t) (thread_last (tmask w)) = Some a2 ->
         bar_valid (bar_decode_id (u32 a1) NUM_BARRIERS) /\ (wt_wb t || is_sync_bar (wt_args t) = true -> u32 a2 <> 0)
     | PRED => forall v, vat (wt_rs2 t) (thread_last (tmask w)) = Some v ->
         m_any (narrow (tmask w) (cond (wt_rs1 t) (is_cond_neg (wt_args t)))) = false ->
         structured w (m_make NUM_THREADS v)
     | WSYNC => True
     end.

(** The core after a mask update of a warp in the pipeline. *)
Lemma core_mask_ok k tok co wid s' (r : bool) :
  core_ok L k tok co -> wid ∈ tok -> sched_inv L s' k ->
  active_warps_ s' = (if r then active_warps_ (co_sched co) else active_warps_ (co_sched co) ∖ {[wid]}) ->
  stalled_warps_next_ s' = stalled_warps_next_ (co_sched co) -> wspawn_ s' = wspawn_ (co_sched co) ->
  core_ok L k (if r then tok else tok ∖ {[wid]}) (mk_core s' (co_barriers co)).
Proof using Hcfg HM.
  intros [C1 C2 C3 C4 C5 C6 C7] Ht Hs Ea En Ew. constructor; simpl; rewrite ?Ea, ?En, ?Ew; try done.
  - intros w Hw. destruct r; [by apply C2|]. destruct (C2 w); set_solver.
  - intros Hv. pose proof (C3 Hv). destruct r; set_solver.
  - intros j b w Eb Hw. destruct (C5 j b w Eb Hw) as (? & ? & ? & ?).
    assert (w <> wid) by congruence. destruct r; split_and!; set_solver.
  - intros w Ha Hn. assert (r = false -> w <> wid) by (intros ->; set_solver).
    destruct (C7 w) as [?|[?|?]]; [destruct r; set_solver|done|left|by right; left|by right; right].
    destruct r; set_solver.
Qed.

Lemma commit_ok k toks cl i tok co wid w' m :
  cluster_ok L k toks cl -> toks !! Z.to_nat i = Some tok -> cl_cores cl !! Z.to_nat i = Some co -> wid ∈ tok ->
  fits (ipdom_stack w') m -> (m_any m = false -> ipdom_stack w' = []) ->
  mscratch_tmask w' = mscratch_tmask (warp (co_sched co) wid) ->
  exists cl', commit_mask cl i wid w' m = Some (m_any m, cl')
    /\ cluster_ok L k (<[Z.to_nat i := if m_any m then tok else tok ∖ {[wid]}]> toks) cl'.
Proof using Hcfg HM.
  intros Hcl Ht Eco Hw Hfit Hidle Hsv.
  destruct (Forall2_lookup_l _ _ _ _ _ (kl_cores _ _ _ _ Hcl) Ht) as (co0 & Eco0 & Hco).
  rewrite Eco in Eco0. injection Eco0 as <-. destruct (ck_tok _ _ _ _ Hco _ Hw) as [Ha Hn].
  destruct (warp_sized _ _ _ _ (ck_sched _ _ _ _ Hco) Ha) as (_ & _ & Hsz).
  destruct (setTmask_inv L (co_sched co) k wid w' m (ck_sched _ _ _ _ Hco) Ha Hfit) as (s' & E & S1 & S2 & S3 & S4 & _);
    [by rewrite Hsv|done| |].
  { intros Hv ->. by apply (ck_tok0 _ _ _ _ Hco Hv). }
  unfold commit_mask. rewrite Eco. bind_simpl. rewrite E. bind_simpl. eexists. split; [done|].
  apply set_core_ok; [done|]. by apply (core_mask_ok k tok co wid s').
Qed.

Section Cases.
Variables (k : Kmu) (toks : list (gset Z)) (cl : Cluster M) (i : Z) (tok : gset Z) (co : core_t M) (t : wctl_trace).
Hypothesis (Hcl : cluster_ok L k toks cl).
Hypothesis (Htok : toks !! Z.to_nat i = Some tok).
Hypothesis (Eco : cl_cores cl !! Z.to_nat i = Some co).
Hypothesis (Hw : wt_wid t ∈ tok).
Hypothesis (Hok : wctl_ok (warp (co_sched co) (wt_wid t)) t).

#[local] Abbreviation w := (warp (co_sched co) (wt_wid t)).

(** The outcome every case has to establish. *)
#[local] Abbreviation done_with r cl' :=
  (cluster_ok L k (<[Z.to_nat i := if r : bool then tok else tok ∖ {[wt_wid t]}]> toks) cl').

Lemma this_core : core_ok L k tok co.
Proof using Hcl Htok Eco.
  destruct (Forall2_lookup_l _ _ _ _ _ (kl_cores _ _ _ _ Hcl) Htok) as (co0 & E & Hco). congruence.
Qed.

Lemma this_warp : fits (ipdom_stack w) (tmask w) /\ m_any (tmask w) = true /\ sized (mscratch_tmask w).
Proof using Hcfg HM Hcl Htok Eco Hw.
  pose proof this_core as Hco. destruct (ck_tok _ _ _ _ Hco _ Hw) as [Ha _].
  exact (warp_sized _ _ _ _ (ck_sched _ _ _ _ Hco) Ha).
Qed.

Lemma rs1_last : exists v, vat (wt_rs1 t) (thread_last (tmask w)) = Some v /\ v ∈ wt_rs1 t.
Proof using Hcfg HM Hcl Htok Eco Hw Hok.
  destruct this_warp as (Hf & Ha & _). pose proof (thread_last_ok _ Hf Ha). destruct Hok as (E & _).
  apply vat_some. lia.
Qed.

Lemma rs2_last : exists v, vat (wt_rs2 t) (thread_last (tmask w)) = Some v /\ v ∈ wt_rs2 t.
Proof using Hcfg HM Hcl Htok Eco Hw Hok.
  destruct this_warp as (Hf & Ha & _). pose proof (thread_last_ok _ Hf Ha). destruct Hok as (_ & E & _).
  apply vat_some. lia.
Qed.

Lemma keep_ok : done_with (wt_fetch_stall t) cl.
Proof using Hcl Htok Hok. destruct Hok as (_ & _ & -> & _). by rewrite list_insert_id. Qed.

Lemma commit_case w' m dst :
  fits (ipdom_stack w') m -> (m_any m = false -> ipdom_stack w' = []) -> mscratch_tmask w' = mscratch_tmask w ->
  exists res, ('(r, cl') ← commit_mask cl i (wt_wid t) w' m; Some (mk_wctl_result r dst cl')) = Some res
    /\ done_with (wr_release res) (wr_state res).
Proof using Hcfg HM Hcl Htok Eco Hw.
  intros H1' H2' H3'. destruct (commit_ok k toks cl i tok co (wt_wid t) w' m) as (cl' & -> & Hc); try done.
  bind_simpl. eexists. split; [done|exact Hc].
Qed.

Lemma bar_case : wt_type t = BAR ->
  exists res, process_bar cl i co w t = Some res /\ done_with (wr_release res) (wr_state res).
Proof using All.
  intros Ety. pose proof this_core as Hco. destruct rs1_last as (a1 & E1 & _), rs2_last as (a2 & E2 & _).
  pose proof keep_ok as Hkeep. destruct Hok as (_ & _ & Hfs & Hb). rewrite Ety in Hb.
  destruct (Hb a1 a2 E1 E2) as [Hv Hcnt]. clear Hb.
  unfold process_bar. rewrite E1. bind_simpl. rewrite E2. bind_simpl.
  set (bid := bar_decode_id (u32 a1) NUM_BARRIERS) in *.
  pose proof (bar_valid_lookup L _ _ _ _ Hco Hv) as Hlt.
  destruct (lookup_lt_is_Some_2 _ _ Hlt) as [b Eb].
  assert (exists dst, (if is_bar_arrive (wt_args t)
    then phase ← get_phase (co_barriers co) bid;
      Some ((fun th => (th, Z.land phase 1)) <$> filter (fun th => m_test (tmask w) th = true) (range NUM_THREADS))
    else Some []) = Some dst) as [dst ->].
  { destruct (is_bar_arrive _); [|by eexists]. unfold get_phase. rewrite Eb. by eexists. }
  bind_simpl. rewrite Hfs in *.
  destruct (wt_eop t); [|by eexists].
  destruct (is_bar_arrive (wt_args t) && _).
  { destruct (event_attach_ok L k tok co bid (Z.land (u32 a2) 0x7fffffff) Hco Hlt) as (co' & -> & Hco').
    bind_simpl. eexists. split; [done|]. by apply set_core_ok. }
  destruct (wt_wb t || is_sync_bar (wt_args t)).
  - destruct (arrive_ok L k toks cl i bid (u32 a2) (wt_wid t) (is_sync_bar (wt_args t)) tok) as (cl' & -> & Hcl');
      [done..|by apply Hcnt|].
    bind_simpl. eexists. split; [done|]. by destruct (is_sync_bar (wt_args t)).
  - destruct (wait_ok L k tok co bid (u32 a2) (wt_wid t) Hco Hlt Hw) as (r & co' & -> & Hco'). bind_simpl.
    eexists. split; [done|]. apply set_core_ok; [done|]. by destruct r.
Qed.

Lemma spawn_case n pc : wt_wid t = 0 ->
  let '(r, s') := wspawn (co_sched co) n pc in
  done_with r (set_core cl i (mk_core s' (co_barriers co))).
Proof using All.
  intros E0. pose proof this_core as Hco. rewrite E0 in Hw. destruct (ck_tok _ _ _ _ Hco _ Hw) as [Ha Hn].
  pose proof (wspawn_inv L _ _ n pc (ck_sched _ _ _ _ Hco) Ha Hn) as Hs.
  destruct Hco as [C1 C2 C3 C4 C5 C6 C7]. unfold wspawn in *. rewrite E0.
  case_match; (apply set_core_ok; [done|]); [by constructor|]. constructor; simpl; try done.
  - set_solver.
  - set_solver.
  - intros j b x Eb Hx. destruct (C5 j b x Eb Hx) as (? & ? & ? & ?). split_and!; [done|done|set_solver|].
    intros _ ->. done.
  - intros x Hxa Hxn. destruct (decide (x = 0)) as [->|]; [by right; right|].
    destruct (C7 x Hxa Hxn) as [?|[?|[? ?]]]; [left; set_solver|by right; left|done].
Qed.
End Cases.

(** [process] never aborts for a warp that owns its stall. *)
Lemma process_ok k toks cl i tok co t :
  cluster_ok L k toks cl -> toks !! Z.to_nat i = Some tok -> cl_cores cl !! Z.to_nat i = Some co ->
  wt_wid t ∈ tok -> wctl_ok (warp (co_sched co) (wt_wid t)) t ->
  exists res, process cl i t = Some res
    /\ cluster_ok L k (<[Z.to_nat i := if wr_release res then tok else tok ∖ {[wt_wid t]}]> toks) (wr_state res).
Proof using Hcfg HM.
  intros Hcl Ht Eco Hw Hok. set (w := warp (co_sched co) (wt_wid t)) in *.
  pose proof (this_warp k toks cl i tok co t Hcl Ht Eco Hw) as (Hf & Ha & Hsz).
  pose proof (keep_ok k toks cl i tok co t Hcl Ht Hok) as Hkeep.
  pose proof (commit_case k toks cl i tok co t Hcl Ht Eco Hw) as Hcommit. fold w in Hcommit.
  destruct (rs1_last k toks cl i tok co t Hcl Ht Eco Hw Hok) as (a1 & E1 & _).
  destruct (rs2_last k toks cl i tok co t Hcl Ht Eco Hw Hok) as (a2 & E2 & _). fold w in E1, E2.
  pose proof (bar_case k toks cl i tok co t Hcl Ht Eco Hw Hok) as Hbar.
  pose proof (spawn_case k toks cl i tok co t Hcl Ht Eco Hw Hok (u32 a1) a2) as Hspawn.
  destruct Hok as (_ & _ & Hfs & Hcase).
  unfold process. rewrite Eco. bind_simpl. fold w. destruct (wt_type t) eqn:Ety.
  - rewrite E1. bind_simpl. destruct (Hcase _ E1) as (m & -> & Hm1 & Hm2). bind_simpl.
    destruct (wt_eop t); [by apply Hcommit|by eexists].
  - destruct (wt_eop t); [|by eexists]. rewrite E1. bind_simpl. rewrite E2. bind_simpl.
    specialize (Hspawn Hcase). destruct (wspawn _ _ _) as [r s']. by eexists.
  - destruct (wt_eop t); [|by eexists]. destruct (split_ok w t Hf) as (w' & m & -> & H1' & H2' & H3' & H4').
    bind_simpl. apply Hcommit; [done| |done]. rewrite H4' by done. done.
  - rewrite E1. bind_simpl. destruct (wt_eop t); [|by eexists].
    destruct (join_ok w a1 Hf Ha (Hcase _ E1)) as (w' & m & -> & H1' & H2' & H3'). bind_simpl.
    apply Hcommit; [done|by rewrite H2'|done].
  - by apply Hbar.
  - assert (exists m, pred_mask w t = Some m /\ structured w m) as (m & -> & Hm1 & Hm2).
    { unfold pred_mask. set (p := narrow _ _) in *. destruct (m_any p) eqn:Ep.
      - exists (m_and (tmask w) p). split; [done|]. by apply and_narrow_ok.
      - rewrite E2. bind_simpl. eexists. split; [done|]. by apply Hcase. }
    bind_simpl. destruct (wt_eop t); [by apply Hcommit|by eexists].
  - eexists. split; [done|]. simpl. rewrite Hfs in Hkeep. done.
Qed.
End Process.

(** ** The cores of a cluster running

    The events are the calls the pipeline makes: a cycle of a core's
    scheduler, the decode and the commit of an instruction, the execution of
    a warp-control instruction, traps, the completion of a transaction, and
    the calls of the fragment work distributor.  [ma_toks] records, per core,
    the warps whose stall is owned by an instruction in the pipeline. *)

Record machine (M : Type) := mk_machine {
  ma_cl : Cluster M;
  ma_kmu : Kmu;
  ma_toks : list (gset Z)
}.
Arguments mk_machine {M}. Arguments ma_cl {M}. Arguments ma_kmu {M}. Arguments ma_toks {M}.

Inductive event (M : Type) :=
| EvStart (desc : kmu_desc_t)
| EvCycle (i : Z) (warp_mask : gset Z)
| EvDecode (i wid epoch inc : Z)
| EvCommit (i wid : Z)
| EvProcess (i : Z) (t : wctl_trace)
| EvTrap (i wid cause pc : Z)
| EvReturn (i wid : Z) (heap : tid -> instr_trace_t) (sb : Scoreboard) (cycles : Z)
| EvAsync (i wid : Z) (heap : tid -> instr_trace_t) (sb : Scoreboard) (cause pc : Z) (m : M) (flushed : Z)
| EvTransaction (i bar_id : Z)
| EvFwd (i : Z) (e : @fwd_event M).
Arguments EvStart {M}. Arguments EvCycle {M}. Arguments EvDecode {M}. Arguments EvCommit {M}.
Arguments EvProcess {M}. Arguments EvTrap {M}. Arguments EvReturn {M}. Arguments EvAsync {M}.
Arguments EvTransaction {M}. Arguments EvFwd {M}.

Section Machine.
Context `{VxConfig} `{HM : MaskSpec M}.

Definition ncore_machine (n : nat) : machine M :=
  mk_machine (mk_cluster 0 (replicate n (mk_core Scheduler_new barriers_new)) (replicate (Z.to_nat NUM_BARRIERS) ∅))
    Kmu_new (replicate n ∅).

(** Run a scheduler operation on core [i] and set the stalls it owns. *)
Definition on_sched (m : machine M) (i : Z) (f : Scheduler M -> option (Scheduler M)) (g : gset Z -> gset Z)
    : option (machine M) :=
  co ← cl_cores (ma_cl m) !! Z.to_nat i;
  tok ← ma_toks m !! Z.to_nat i;
  s ← f (co_sched co);
  Some (mk_machine (set_core (ma_cl m) i (mk_core s (co_barriers co))) (ma_kmu m)
          (<[Z.to_nat i := g tok]> (ma_toks m))).

(** The stall of a freshly issued instruction. *)
Definition own (tr : option (sched_trace M)) (tok : gset Z) : gset Z :=
  match tr with Some t => {[st_wid t]} ∪ tok | None => tok end.

Definition exec_cycle (m : machine M) (i : Z) (mask : gset Z) : option (machine M) :=
  co ← cl_cores (ma_cl m) !! Z.to_nat i;
  tok ← ma_toks m !! Z.to_nat i;
  r ← schedule (M:=M) (core_id_of (ma_cl m) i) (co_sched co) (ma_kmu m) mask;
  let '(tr, _, s, k) := r in
  Some (mk_machine (set_core (ma_cl m) i (mk_core s (co_barriers co))) k
          (<[Z.to_nat i := own tr tok]> (ma_toks m))).

Definition exec_process (m : machine M) (i : Z) (t : wctl_trace) : option (machine M) :=
  tok ← ma_toks m !! Z.to_nat i;
  r ← process (M:=M) (ma_cl m) i t;
  Some (mk_machine (wr_state r) (ma_kmu m)
          (<[Z.to_nat i := if wr_release r then tok else tok ∖ {[wt_wid t]}]> (ma_toks m))).

Definition exec_transaction (m : machine M) (i bar_id : Z) : option (machine M) :=
  cl ← event_release (M:=M) (ma_cl m) i bar_id;
  Some (mk_machine cl (ma_kmu m) (ma_toks m)).

(** One event; [None] is a failed assertion, an abort or an exception. *)
Definition exec (m : machine M) (e : event M) : option (machine M) :=
  match e with
  | EvStart desc =>
    let k := ma_kmu m in
    Some (mk_machine (ma_cl m) (start (mk_kmu desc (running_ k) (cta_id_ k) (group_origin_ k) (intra_offset_ k)))
            (ma_toks m))
  | EvCycle i mask => exec_cycle m i mask
  | EvDecode i wid epoch inc =>
    on_sched m i (fun s => resume (advance_pc s wid epoch inc) wid) (fun tok => tok ∖ {[wid]})
  | EvCommit i wid => on_sched m i (fun s => resume s wid) (fun tok => tok ∖ {[wid]})
  | EvProcess i t => exec_process m i t
  | EvTrap i wid cause pc => on_sched m i (fun s => Some (raise_trap s wid cause pc)) id
  | EvReturn i wid h sb cyc => on_sched m i (fun s => Some (mret h sb s wid cyc).1) id
  | EvAsync i wid h sb cause pc nm fl =>
    on_sched m i (fun s => '(s', _) ← raise_async_trap h sb s wid cause pc nm fl; Some s')
      (fun tok => tok ∖ {[wid]})
  | EvTransaction i bar_id => exec_transaction m i bar_id
  | EvFwd i fe => on_sched m i (fun s => Some (fwd_exec s fe)) id
  end.

Fixpoint run (m : machine M) (es : list (event M)) : option (machine M) :=
  match es with
  | [] => Some m
  | e :: es' => m' ← exec m e; run m' es'
  end.
End Machine.

Section Safety.
Context `{Hcfg : VxConfigOk} `{HM : MaskSpec M}.
#[local] Abbreviation L := (@None Z).

(** The core and its stalls an event is for. *)
Definition at_core (m : machine M) (i : Z) (P : core_t M -> gset Z -> Prop) : Prop :=
  exists co tok, cl_cores (ma_cl m) !! Z.to_nat i = Some co /\ ma_toks m !! Z.to_nat i = Some tok /\ P co tok.

(** What the pipeline guarantees when it makes a call: it resumes and
    executes only warps whose stall it owns, masks stay structured, launches
    fit the run, and a transaction completes only if it was announced. *)
Definition event_ok (m : machine M) (e : event M) : Prop :=
  match e with
  | EvStart desc => desc_ok L desc
  | EvCycle i _ => at_core m i (fun _ _ => True)
  | EvDecode i wid _ _ | EvCommit i wid | EvTrap i wid _ _ => at_core m i (fun _ tok => wid ∈ tok)
  | EvProcess i t =>
    at_core m i (fun co tok => wt_wid t ∈ tok /\ wctl_ok (warp (co_sched co) (wt_wid t)) t)
  | EvReturn i wid _ _ _ =>
    at_core m i (fun co tok => wid ∈ tok
      /\ (m_any (mscratch_tmask (warp (co_sched co) wid)) = true ->
          fits (ipdom_stack (warp (co_sched co) wid)) (mscratch_tmask (warp (co_sched co) wid))))
  | EvAsync i wid _ _ _ _ nm _ =>
    at_core m i (fun co tok => wid ∈ active_warps_ (co_sched co)
      /\ (wid ∈ stalled_warps_next_ (co_sched co) -> wid ∈ tok)
      /\ fits (ipdom_stack (warp (co_sched co) wid)) nm /\ m_any nm = true)
  | EvTransaction i bar_id =>
    at_core m i (fun co _ => bar_valid bar_id /\
      exists b, co_barriers co !! Z.to_nat (bar_index bar_id) = Some b /\ 0 < bar_events b)
  | EvFwd i fe => at_core m i (fun co _ => fwd_event_ok (co_sched co) fe)
  end.

(** Every event of the run is called within its guarantee. *)
Fixpoint guarded (m : machine M) (es : list (event M)) : Prop :=
  match es with
  | [] => True
  | e :: es' => event_ok m e /\ forall m', exec m e = Some m' -> guarded m' es'
  end.

Definition machine_ok (m : machine M) : Prop := cluster_ok L (ma_kmu m) (ma_toks m) (ma_cl m).

Definition kmu_ok (k : Kmu) : Prop := running_ k = true -> req_ok L (step_req k).

Lemma sched_kmu s k k' : sched_inv L s k -> kmu_ok k' -> sched_inv L s k'.
Proof using Hcfg HM.
  intros [Hm Hst [Hr [live [I1 I2 I3]]] Hf] Hk. constructor; [done|done| |done]. split; [done|].
  exists live. by constructor.
Qed.

Lemma core_kmu k k' tok co : core_ok L k tok co -> kmu_ok k' -> core_ok L k' tok co.
Proof using Hcfg HM. intros [C1 C2 C3 C4 C5 C6 C7] Hk. constructor; try done. by apply (sched_kmu _ k). Qed.

Lemma start_ok k desc : desc_ok L desc ->
  kmu_ok (start (mk_kmu desc (running_ k) (cta_id_ k) (group_origin_ k) (intra_offset_ k))).
Proof using.
  intros (? & ? & ?). unfold start, kmu_ok. case_match eqn:E; simpl; [|done].
  intros _. repeat apply andb_prop in E as [E _]. by apply Z.ltb_lt in E.
Qed.

(** A scheduler call that changes neither the active warps nor the other
    stalls. *)
Lemma on_sched_ok m i f g co tok s' :
  machine_ok m -> cl_cores (ma_cl m) !! Z.to_nat i = Some co -> ma_toks m !! Z.to_nat i = Some tok ->
  f (co_sched co) = Some s' -> core_ok L (ma_kmu m) (g tok) (mk_core s' (co_barriers co)) ->
  exists m', on_sched m i f g = Some m' /\ machine_ok m'.
Proof using Hcfg HM.
  intros Hm Eco Et Ef Hco. unfold on_sched. rewrite Eco. bind_simpl. rewrite Et. bind_simpl. rewrite Ef. bind_simpl.
  eexists. split; [done|]. by apply set_core_ok.
Qed.

Lemma machine_core m i co tok :
  machine_ok m -> cl_cores (ma_cl m) !! Z.to_nat i = Some co -> ma_toks m !! Z.to_nat i = Some tok ->
  core_ok L (ma_kmu m) tok co.
Proof using.
  intros Hm Eco Et. destruct (Forall2_lookup_l _ _ _ _ _ (kl_cores _ _ _ _ Hm) Et) as (co0 & E & ?). congruence.
Qed.

(** A core whose scheduler keeps its active warps and releases only warps of
    [rel]. *)
Lemma core_release k tok co s' rel :
  core_ok L k tok co -> sched_inv L s' k -> active_warps_ s' = active_warps_ (co_sched co) ->
  wspawn_ s' = wspawn_ (co_sched co) -> stalled_warps_next_ s' = stalled_warps_next_ (co_sched co) ∖ rel ->
  (forall j b w, co_barriers co !! j = Some b -> w ∈ wait_mask b -> w ∉ rel) ->
  core_ok L k (tok ∖ rel) (mk_core s' (co_barriers co)).
Proof using Hcfg HM.
  intros [C1 C2 C3 C4 C5 C6 C7] Hs Ea Ew En Hrel. constructor; simpl; rewrite ?Ea, ?Ew, ?En; try done.
  - intros w [Hw Hn]%elem_of_difference. destruct (C2 w Hw). set_solver.
  - intros Hv. pose proof (C3 Hv). set_solver.
  - intros j b w Eb Hw. destruct (C5 j b w Eb Hw) as (? & ? & ? & ?). pose proof (Hrel j b w Eb Hw).
    split_and!; set_solver.
  - intros w Ha [Hn Hnr]%elem_of_difference. destruct (C7 w Ha Hn) as [?|[?|?]]; [left; set_solver|by right; left|by right; right].
Qed.

Lemma core_same k tok co s' :
  core_ok L k tok co -> sched_inv L s' k -> active_warps_ s' = active_warps_ (co_sched co) ->
  wspawn_ s' = wspawn_ (co_sched co) -> stalled_warps_next_ s' = stalled_warps_next_ (co_sched co) ->
  core_ok L k tok (mk_core s' (co_barriers co)).
Proof using Hcfg HM.
  intros Hco Hs Ea Ew En. rewrite <- (difference_empty_L tok). apply core_release; try done.
  by rewrite En, difference_empty_L.
Qed.

(** Resuming a warp whose stall is owned. *)
Lemma core_resume k tok co s wid :
  core_ok L k tok co -> wid ∈ tok -> sched_inv L s k -> active_warps_ s = active_warps_ (co_sched co) ->
  wspawn_ s = wspawn_ (co_sched co) -> stalled_warps_next_ s = stalled_warps_next_ (co_sched co) ->
  exists s', resume s wid = Some s' /\ core_ok L k (tok ∖ {[wid]}) (mk_core s' (co_barriers co)).
Proof using Hcfg HM.
  intros Hco Hw Hs Ea Ew En. destruct (ck_tok _ _ _ _ Hco _ Hw) as [Ha Hn].
  assert (Hr := resume_some s wid ltac:(by rewrite Ea) ltac:(by rewrite En)). rewrite Hr.
  eexists. split; [done|]. apply core_release; simpl; try done.
  - apply (resume_inv L s k wid); [done| |done]. rewrite Ew. intros Hv ->. by apply (ck_tok0 _ _ _ _ Hco Hv).
  - by rewrite En.
  - intros j b w Eb Hwb. destruct (ck_wait _ _ _ _ Hco j b w Eb Hwb) as (_ & _ & ? & _). set_solver.
Qed.

Lemma cycle_ok m i mask :
  machine_ok m -> at_core m i (fun _ _ => True) -> exists m', exec_cycle m i mask = Some m' /\ machine_ok m'.
Proof using Hcfg HM.
  intros Hm (co & tok & Eco & Et & _). pose proof (machine_core _ _ _ _ Hm Eco Et) as [C1 C2 C3 C4 C5 C6 C7].
  unfold exec_cycle. rewrite Eco. bind_simpl. rewrite Et. bind_simpl.
  destruct (schedule_inv L (core_id_of (ma_cl m) i) (co_sched co) (ma_kmu m) mask C1)
    as (tr & staged & s' & k' & -> & Hs' & [Y1 Y2 Y5 Y3 Y4]). bind_simpl. eexists. split; [done|].
  assert (Hk : kmu_ok k') by (destruct Hs' as [_ _ [_ [live [_ I2 _]]] _]; exact I2).
  apply (set_core_ok L k' (ma_toks m) (ma_cl m)).
  { destruct Hm as [HF Hg]. constructor; [|done]. eapply list.Forall2_impl; [exact HF|].
    intros tk c Hc. by apply (core_kmu (ma_kmu m)). }
  assert (Htr : forall t, tr = Some t -> (st_wid t ∉ tok) /\ forall j b, co_barriers co !! j = Some b -> st_wid t ∉ wait_mask b).
  { intros t Et'. destruct (Y4 t Et') as (_ & _ & Hn & _). split.
    - intros Hw. destruct (C2 _ Hw). by apply Hn.
    - intros j b Eb Hw. destruct (C5 j b _ Eb Hw) as (? & ? & _). by apply Hn. }
  constructor; simpl; try done.
  - intros w Hw. assert (w ∈ tok \/ exists t, tr = Some t /\ w = st_wid t) as [Hw'|(t & Et' & ->)].
    { unfold own in Hw. destruct tr as [t|]; [|by left]. apply elem_of_union in Hw as [?%elem_of_singleton|]; [|by left].
      right. by exists t. }
    + destruct (C2 w Hw') as [Ha Hn]. split; [by apply Y1|]. apply Y2; try done. intros Hv ->. by apply (C3 Hv).
    + destruct (Y4 t Et') as (? & ? & _). done.
  - intros Hv. pose proof (Y3 Hv) as Hv0. pose proof (C3 Hv0). unfold own. destruct tr as [t|]; [|done].
    destruct (Y4 t eq_refl) as (_ & _ & _ & Hne & _). pose proof (Hne Hv0). set_solver.
  - intros j b w Eb Hw. destruct (C5 j b w Eb Hw) as (Ha & Hn & Hnt & Hv0). split_and!.
    + by apply Y1.
    + by apply Y2.
    + unfold own. destruct tr as [t|]; [|done]. destruct (Htr t eq_refl) as [_ Hnb]. pose proof (Hnb j b Eb). set_solver.
    + intros Hv. by apply Hv0, Y3.
  - intros w Ha Hn. destruct (Y5 w Ha Hn) as [(t & -> & ->)|(Ha0 & Hn0 & Hz)]; [left; set_solver|].
    destruct (C7 w Ha0 Hn0) as [?|[?|[? ?]]]; [left|by right; left|right; right; auto].
    unfold own. destruct tr; set_solver.
Qed.

Lemma fwd_exec_same (s : Scheduler M) fe :
  active_warps_ (fwd_exec s fe) = active_warps_ s /\ wspawn_ (fwd_exec s fe) = wspawn_ s
  /\ stalled_warps_next_ (fwd_exec s fe) = stalled_warps_next_ s.
Proof using. destruct fe; try done. simpl. unfold fwd_on_response. by case_match. Qed.

(** Every event within its guarantee succeeds and keeps the invariant. *)
Lemma exec_ok m e : machine_ok m -> event_ok m e -> exists m', exec m e = Some m' /\ machine_ok m'.
Proof using Hcfg HM.
  intros Hm He.
  destruct e as [desc|i mask|i wid ep inc|i wid|i t|i wid c pc|i wid h sb cyc|i wid h sb c pc nm fl|i bar|i fe];
    cbn [exec event_ok] in He |- *; [|by apply cycle_ok|destruct He as (co & tok & Eco & Et & Hg);
      pose proof (machine_core _ _ _ _ Hm Eco Et) as Hco; pose proof (ck_sched _ _ _ _ Hco) as Hs..].
  - eexists. split; [done|]. destruct Hm as [HF Hgb]. constructor; [|done].
    eapply list.Forall2_impl; [exact HF|]. intros tk c Hc. eapply core_kmu; [exact Hc|]. by apply start_ok.
  - destruct (core_resume _ _ _ (advance_pc (co_sched co) wid ep inc) wid Hco Hg) as (s' & E & Hco').
    { apply advance_pc_inv; [done|]. by apply (ck_tok _ _ _ _ Hco). }
    1-3: unfold advance_pc; by case_match.
    by eapply on_sched_ok.
  - destruct (core_resume _ _ _ (co_sched co) wid Hco Hg Hs) as (s' & E & Hco'); try done.
    by eapply on_sched_ok.
  - destruct Hg as [Hw Hok]. unfold exec_process. rewrite Et. bind_simpl.
    destruct (process_ok L _ _ _ _ _ _ t Hm Et Eco Hw Hok) as (r & -> & Hr). bind_simpl. by eexists.
  - eapply on_sched_ok; [done..|]. apply core_same; try done. apply raise_trap_inv; [done|].
    by apply (ck_tok _ _ _ _ Hco).
  - destruct Hg as [Hw Hfit]. eapply on_sched_ok; [done..|]. apply core_same; try done.
    apply (mret_inv L h sb); [done| |done]. by apply (ck_tok _ _ _ _ Hco).
  - destruct Hg as (Ha & Hown & Hfit & Hany).
    assert (Hz : ws_valid (wspawn_ (co_sched co)) = true -> wid <> 0).
    { intros Hv ->. destruct (so_spawn _ (si_stalls _ _ _ Hs) Hv) as (_ & Hn & _).
      by apply (ck_tok0 _ _ _ _ Hco Hv), Hown. }
    destruct (async_trap_inv L h sb _ _ wid c pc nm fl Hs Ha Hfit Hany Hz) as (s' & sb' & E & H1' & H2' & H3' & H4').
    eapply on_sched_ok; [done..|cbv beta; rewrite E; reflexivity|]. apply core_release; try done.
    intros j b w Eb Hw. destruct (ck_wait _ _ _ _ Hco j b w Eb Hw) as (_ & Hn & Hnt & _).
    rewrite elem_of_singleton. intros ->. by apply Hnt, Hown.
  - destruct Hg as (Hv & b & Eb & Hpos). unfold exec_transaction.
    destruct (event_release_ok L _ _ _ i bar tok co b Hm Et Hv Eco Eb Hpos) as (cl & -> & Hcl).
    bind_simpl. by eexists.
  - destruct (fwd_exec_same (co_sched co) fe) as (? & ? & ?).
    eapply on_sched_ok; [done..|]. apply core_same; try done. by apply fwd_exec_inv.
Qed.

Lemma run_ok m es : machine_ok m -> guarded m es -> exists m', run m es = Some m' /\ machine_ok m'.
Proof using Hcfg HM.
  revert m. induction es as [|e es IH]; intros m Hm Hg; [by exists m|]. destruct Hg as [He Hg].
  destruct (exec_ok m e Hm He) as (m1 & E & Hm1). simpl. rewrite E. bind_simpl. by apply IH, Hg.
Qed.

Lemma init_ok n : machine_ok (ncore_machine n).
Proof using Hcfg HM.
  constructor; simpl; [|by rewrite length_replicate]. apply Forall2_replicate. pose proof num_barriers_ok.
  assert (Hnw : forall j b w, barriers_new !! j = Some b -> w ∉ wait_mask b).
  { intros j b w [-> _]%lookup_replicate. apply not_elem_of_empty. }
  constructor; simpl; try done; try (intros w []%not_elem_of_empty);
    [apply new_inv|by unfold barriers_new; rewrite length_replicate| |].
  - intros j b w Eb Hw. by destruct (Hnw j b w Eb).
  - intros j j' b b' w Eb Eb' Hw. by destruct (Hnw j b w Eb).
Qed.

(** ** Properties *)


(** C35. The fragment work distributor never loses or double-counts a wave: in
    every state reached by a [guarded] run (as for the safety theorem; in
    particular the distributor is armed only when it is not, disarmed only
    when it reports done, and waves have an active thread), the launched
    waves are, modulo 2^64, the retired ones plus the live fragment warps,
    which are active warps; and when a core reports its epoch done none is
    live and none is queued. *)
Theorem fragment_epoch_exact n es m i co tok :
  guarded (ncore_machine n) es -> run (ncore_machine n) es = Some m ->
  cl_cores (ma_cl m) !! i = Some co -> ma_toks m !! i = Some tok ->
  let f := fwd_ (co_sched co) in
  fwd_launched_ f = u64 (fwd_retired_ f + Z.of_nat (size (fwd_is_fragment_ f)))
  /\ fwd_is_fragment_ f ⊆ active_warps_ (co_sched co)
  /\ (fwd_done (co_sched co) = true -> fwd_is_fragment_ f = ∅ /\ fwd_waves_ f = []).
Proof using Hcfg HM.
  intros Hg E Eco Et. cbv zeta. destruct (run_ok _ _ (init_ok n) Hg) as (m' & E' & Hm).
  rewrite E in E'. injection E' as <-. rewrite <- (Nat2Z.id i) in Eco, Et.
  pose proof (ck_sched _ _ _ _ (machine_core _ _ _ _ Hm Eco Et)) as Hs. destruct (si_fwd _ _ _ Hs) as [F1 F2 F3 F4 F5].
  split_and!; [done|done|]. by apply (fwd_done_idle L _ (ma_kmu m)).
Qed.
End Safety.

Section Divergence.
Context `{Hcfg : VxConfigOk} `{HM : MaskSpec M}.

#[local] Abbreviation nthreads := (Z.to_nat NUM_THREADS).

Lemma rest_select f l : rest (select f l) l = select (fun i => negb (f i)) l.
Proof using.
  unfold rest. revert f. induction l as [|b l IH]; intros f; [done|]. rewrite !select_cons, fmap_cons. simpl.
  rewrite IH. f_equal. by destruct b, (f 0).
Qed.

Lemma rest_select_neg f l : rest (select (fun i => negb (f i)) l) l = select f l.
Proof using.
  unfold rest. revert f. induction l as [|b l IH]; intros f; [done|]. rewrite !select_cons, fmap_cons. simpl.
  rewrite IH. f_equal. by destruct b, (f 0).
Qed.

(** The two joins that follow a divergent split. *)
Lemma joins_after_split (w : warp_t M) t m1 l l1 :
  m_rep (tmask w) l -> m_rep m1 l1 -> length l1 = length l ->
  let w1 := warp_set_tmask (warp_set_stack w (mk_ipdom (tmask w) (word (wt_PC t + 4)) false :: ipdom_stack w)) m1 in
  let sp := Z.of_nat (length (ipdom_stack w)) in
  exists w2 m2 w3, join_warp w1 sp = Some (w2, m2) /\ PC w2 = word (wt_PC t + 4) /\ m_rep m2 (rest l1 l)
    /\ join_warp (warp_set_tmask w2 m2) sp = Some (w3, tmask w) /\ ipdom_stack w3 = ipdom_stack w.
Proof using Hcfg HM.
  intros Hl Hl1 Hlen. cbv zeta. do 3 eexists. unfold join_warp at 1. simpl ipdom_stack.
  rewrite (proj2 (Z.eqb_neq (Z.of_nat (length (ipdom_stack w))) _)) by (simpl; lia). simpl.
  split; [done|]. split; [done|]. split; [|split].
  - apply m_and_rep; [by apply m_not_rep|done|]. by rewrite length_fmap.
  - unfold join_warp. simpl ipdom_stack.
    rewrite (proj2 (Z.eqb_neq (Z.of_nat (length (ipdom_stack w))) _)) by (simpl; lia). done.
  - done.
Qed.

(** C23. Split and join execute a divergent region completely and reconverge:
    when the predicate splits the active threads, the warp first runs one
    side with the smaller half, the first join (with the stack pointer the
    split returned) resumes after the split with exactly the threads of the
    other side, and the second join restores the thread mask and the IPDOM
    stack of before the split; when it does not, the mask is unchanged and
    the join does nothing. *)
Theorem split_join_reconverges (w : warp_t M) t l :
  m_rep (tmask w) l -> length l = nthreads -> chain l (ipdom_stack w) ->
  let f := cond (wt_rs1 t) (is_cond_neg (wt_args t)) in
  let sp := Z.of_nat (length (ipdom_stack w)) in
  exists w1 m1, split_warp w t = Some (w1, m1) /\
  if (0 <? popcount (select f l)) && (0 <? popcount (select (fun i => negb (f i)) l)) then
    exists g w2 m2 w3, m_rep m1 (select g l) /\ m_rep m2 (select (fun i => negb (g i)) l)
      /\ (g = f \/ g = fun i => negb (f i)) /\ popcount (select g l) <= popcount (select (fun i => negb (g i)) l)
      /\ join_warp (warp_set_tmask w1 m1) sp = Some (w2, m2) /\ PC w2 = word (wt_PC t + 4)
      /\ join_warp (warp_set_tmask w2 m2) sp = Some (w3, tmask w) /\ ipdom_stack w3 = ipdom_stack w
  else w1 = w /\ m1 = tmask w /\ join_warp (warp_set_tmask w1 m1) sp = Some (warp_set_tmask w1 m1, m1).
Proof using Hcfg HM.
  intros Hm Hl Hch. cbv zeta. set (f := cond _ _). set (nf := fun i => negb (f i)).
  pose proof (narrow_rep _ _ f Hm Hl) as Ht. pose proof (narrow_rep _ _ nf Hm Hl) as He.
  unfold split_warp. fold f. fold nf.
  rewrite (m_any_rep _ _ Ht), (m_any_rep _ _ He), !existsb_popcount.
  destruct ((0 <? popcount (select f l)) && (0 <? popcount (select nf l))) eqn:Ed.
  2: { exists w, (tmask w). split; [done|]. split; [done|]. split; [done|]. unfold join_warp. simpl.
       by rewrite Z.eqb_refl. }
  apply andb_prop in Ed as [Et Ee]. rewrite Z.ltb_lt in Et, Ee.
  pose proof (select_popcount f l) as Hpc. fold nf in Hpc. pose proof (chain_popcount _ _ Hch).
  rewrite (proj2 (Z.eqb_neq (Z.of_nat (length (ipdom_stack w))) (NUM_THREADS - 1))) by lia.
  do 2 eexists. split; [done|]. rewrite (m_count_rep _ _ Ht), (m_count_rep _ _ He).
  destruct (Z.leb_spec (popcount (select f l)) (popcount (select nf l))).
  - destruct (joins_after_split w t _ l _ Hm Ht ltac:(by rewrite length_select)) as (w2 & m2 & w3 & J1 & J2 & J3 & J4 & J5).
    rewrite rest_select in J3. exists f, w2, m2, w3. split_and!; try done. by left.
  - destruct (joins_after_split w t _ l _ Hm He ltac:(by rewrite length_select)) as (w2 & m2 & w3 & J1 & J2 & J3 & J4 & J5).
    unfold nf in J3 at 1. rewrite rest_select_neg in J3.
    assert (Enn : select (fun i => negb (nf i)) l = select f l).
    { unfold select. apply imap_ext. intros i x _. simpl. unfold nf. by rewrite negb_involutive. }
    exists nf, w2, m2, w3. rewrite Enn. split_and!; try done; [by right|lia].
Qed.

(** The operand of lane 31 selects every bit from 31 up. *)
Lemma land_high_word v : 0 <= v < 2 ^ XLEN -> (Z.land v (tmc_word 31) =? 0) = (Z.shiftr v 31 =? 0).
Proof using Hcfg.
  intros Hv.
  assert (E : tmc_word 31 = Z.shiftl (Z.ones (XLEN - 31)) 31)
    by (unfold tmc_word, word; destruct xlen_cases as [-> | ->]; reflexivity).
  assert (Hx : 31 < XLEN) by (destruct xlen_cases; lia).
  assert (El : Z.land v (tmc_word 31) = Z.shiftl (Z.shiftr v 31) 31).
  { rewrite E. apply Z.bits_inj'. intros i Hi. rewrite Z.land_spec.
    destruct (Z.lt_ge_cases i 31).
    - rewrite !Z.shiftl_spec_low by lia. by rewrite andb_false_r.
    - rewrite !Z.shiftl_spec_high, Z.shiftr_spec by lia. replace (i - 31 + 31) with i by lia.
      destruct (Z.lt_ge_cases i XLEN).
      + rewrite Z.ones_spec_low by lia. apply andb_true_r.
      + rewrite (testbit_high XLEN v) by lia. done. }
  rewrite El. apply eq_iff_eq_true. rewrite !Z.eqb_eq. apply Z.shiftl_eq_0_iff. lia.
Qed.

(** [TMC] sets lanes 0 to 30 from the corresponding bits of its operand;
    but lane 31 is set by any of the bits from 31 up, because the shifted
    [int] is sign-extended to a 64-bit word. *)
Theorem tmc_high_lane v :
  0 <= v < 2 ^ XLEN -> NUM_THREADS = 32 ->
  exists (m : M) l, tmc_mask v = Some m /\ m_rep m l /\ length l = 32%nat
    /\ (forall t, (t < 31)%nat -> l !! t = Some (Z.testbit v (Z.of_nat t)))
    /\ l !! 31%nat = Some (negb (Z.shiftr v 31 =? 0)).
Proof using Hcfg HM.
  intros Hv Hn. unfold tmc_mask. rewrite Hn. cbn [Z.leb Z.compare Pos.compare Pos.compare_cont].
  pose proof (m_fill_rep _ _ (fun t => negb (Z.land v (tmc_word t) =? 0)) (m_new_rep 32 ltac:(lia))) as Hr.
  rewrite length_replicate in Hr. do 2 eexists. split; [done|]. split; [exact Hr|].
  split; [by rewrite length_fmap, length_seq|]. split.
  - intros t Ht. rewrite list_lookup_fmap, lookup_seq_lt by lia. simpl. f_equal.
    assert (Ew : tmc_word (Z.of_nat t) = Z.shiftl 1 (Z.of_nat t)).
    { unfold tmc_word, word, sint. rewrite Z.shiftl_1_l.
      assert (2 ^ Z.of_nat t <= 2 ^ 30) by (apply Z.pow_le_mono_r; lia).
      assert (0 < 2 ^ Z.of_nat t) by (apply Z.pow_pos_nonneg; lia).
      rewrite (Z.mod_small (2 ^ Z.of_nat t) (2 ^ 32)) by lia.
      rewrite (proj2 (Z.ltb_lt (2 ^ Z.of_nat t) (2 ^ (32 - 1)))) by lia.
      apply Z.mod_small. destruct xlen_cases as [-> | ->]; lia. }
    rewrite Ew. apply land_shiftl1_bit. lia.
  - rewrite list_lookup_fmap, lookup_seq_lt by lia. cbn [fmap option_fmap option_map Nat.add]. f_equal. f_equal.
    by apply land_high_word.
Qed.
End Divergence.

Section BarrierUse.
Context `{Hcfg : VxConfigOk} `{HM : MaskSpec M}.
#[local] Abbreviation L := (@None Z).

(** C30. Distinct warps in the pipeline that arrive one after the other, all
    synchronously and with one count, on a local barrier of a core reached by
    a [guarded] run, on which nobody waits, nobody has arrived and no
    transaction is pending, are released generation by generation: after [n]
    arrivals the barrier has completed [n / count] phases (modulo 2^32),
    exactly the warps of complete generations have been resumed, and the last
    [n mod count] wait on the barrier. *)
Theorem barrier_generations n es m i co tok bar_id count b ws :
  guarded (ncore_machine n) es -> run (ncore_machine n) es = Some m ->
  cl_cores (ma_cl m) !! i = Some co -> ma_toks m !! i = Some tok ->
  co_barriers co !! Z.to_nat (bar_index bar_id) = Some b ->
  wait_mask b = ∅ -> bar_count b = 0 -> bar_events b = 0 -> 0 <= bar_phase b < 2 ^ 32 ->
  NoDup ws -> (forall w, w ∈ ws -> w ∈ tok) -> 0 < count < 2 ^ 32 ->
  let complete := (length ws - length ws mod Z.to_nat count)%nat in
  exists co' : core_t M, arrive_all co bar_id count ws = Some co'
    /\ co_barriers co' !! Z.to_nat (bar_index bar_id) =
       Some (mk_bar (list_to_set (drop complete ws)) (arrival_mask b) (Z.of_nat (length ws) mod count) 0
               (u32 (bar_phase b + Z.of_nat (length ws) / count)))
    /\ stalled_warps_next_ (co_sched co') = stalled_warps_next_ (co_sched co) ∖ list_to_set (take complete ws)
    /\ active_warps_ (co_sched co') = active_warps_ (co_sched co).
Proof using Hcfg HM.
  intros Hg E Eco Et Eb H1' H2' H3' H4' H5' H6' H7'. destruct (run_ok _ _ (init_ok n) Hg) as (m' & E' & Hm).
  rewrite E in E'. injection E' as <-. rewrite <- (Nat2Z.id i) in Eco, Et.
  pose proof (machine_core _ _ _ _ Hm Eco Et) as Hco.
  destruct (arrive_all_spec L _ tok co bar_id count b ws Hco Eb) as (co' & Ea & [A1 A2 A3] & _); try done.
  by exists co'.
Qed.

(** The phase an asynchronous arrival returns is the low bit of the
    barrier's phase, but the wait compares its operand with the whole
    counter: waiting on the returned phase of the current generation blocks
    in the first two generations only, and passes immediately in every later
    one although the generation is not complete. *)
Theorem async_wait_ignores_later_phases (cl : Cluster M) i co ta tw a1 b ra :
  cl_cores cl !! Z.to_nat i = Some co ->
  wt_type ta = BAR -> is_bar_arrive (wt_args ta) = true ->
  wt_type tw = BAR -> is_bar_arrive (wt_args tw) = false -> is_sync_bar (wt_args tw) = false ->
  wt_wb tw = false -> wt_eop tw = true ->
  vat (wt_rs1 ta) (thread_last (tmask (warp (co_sched co) (wt_wid ta)))) = Some a1 ->
  vat (wt_rs1 tw) (thread_last (tmask (warp (co_sched co) (wt_wid tw)))) = Some a1 ->
  co_barriers co !! Z.to_nat (bar_index (bar_decode_id (u32 a1) NUM_BARRIERS)) = Some b ->
  0 <= bar_phase b < 2 ^ 32 ->
  vat (wt_rs2 tw) (thread_last (tmask (warp (co_sched co) (wt_wid tw)))) = Some (Z.land (bar_phase b) 1) ->
  process cl i ta = Some ra ->
  Forall (fun d => d.2 = Z.land (bar_phase b) 1) (wr_dst ra)
  /\ exists rw, process cl i tw = Some rw /\ wr_release rw = negb (bar_phase b <? 2).
Proof using Hcfg HM.
  intros Eco Ta Aa Tw Aw Sw Ww Ew E1 E1' Eb Hp E2 Ep. split.
  - revert Ep. unfold process. rewrite Eco. bind_simpl. rewrite Ta. unfold process_bar. rewrite E1. bind_simpl.
    destruct (vat (wt_rs2 ta) _) as [a2|]; bind_simpl; [|done]. rewrite Aa. unfold get_phase. rewrite Eb.
    cbn [fmap option_fmap option_map]. bind_simpl. set (dst := _ <$> _).
    assert (Hd : Forall (fun d => d.2 = Z.land (bar_phase b) 1) dst).
    { apply Forall_fmap, list.Forall_forall. done. }
    destruct (wt_eop ta); [|by intros [= <-]]. destruct (true && _).
    { destruct (event_attach _ _ _); bind_simpl; [|done]. by intros [= <-]. }
    destruct (wt_wb ta || _).
    + destruct (arrive _ _ _ _ _ _); bind_simpl; [|done]. by intros [= <-].
    + destruct (wait _ _ _ _) as [[r co']|]; bind_simpl; [|done]. by intros [= <-].
  - unfold process. rewrite Eco. bind_simpl. rewrite Tw. unfold process_bar. rewrite E1'. bind_simpl.
    rewrite E2. bind_simpl. rewrite Aw, Sw, Ww, Ew. bind_simpl.
    change (false && _) with false. change (false || false) with false. cbv iota.
    unfold wait. rewrite Eb. bind_simpl.
    assert (Hl : 0 <= Z.land (bar_phase b) 1 < 2).
    { change 1 with (Z.ones 1). rewrite Z.land_ones by lia. apply Z.mod_pos_bound. lia. }
    rewrite (u32_small (Z.land (bar_phase b) 1)) by lia.
    assert (Hlow : bar_phase b < 2 -> bar_phase b = Z.land (bar_phase b) 1).
    { intros. assert (bar_phase b = 0 \/ bar_phase b = 1) as [-> | ->] by lia; done. }
    destruct (Z.eqb_spec (bar_phase b) (Z.land (bar_phase b) 1)) as [He|He]; bind_simpl;
      eexists; (split; [done|]); simpl; destruct (Z.ltb_spec (bar_phase b) 2); try done; lia.
Qed.
End BarrierUse.

(** ** Witnesses *)

Section Simple.
Context `{Hcfg : VxConfigOk} `{HM : MaskSpec M}.
#[local] Abbreviation L := (@None Z).

(** Launches and cycles are within their guarantee on every core. *)
Definition simple (n : nat) (e : event M) : Prop :=
  match e with
  | EvStart desc => desc_ok L desc
  | EvCycle i _ => (Z.to_nat i < n)%nat
  | _ => False
  end.

Lemma simple_guarded n es : forall m,
  length (cl_cores (ma_cl m)) = n -> length (ma_toks m) = n -> Forall (simple n) es -> guarded m es.
Proof using.
  induction es as [|e es IH]; intros m Hc Ht Hes; [done|]. apply list.Forall_cons in Hes as [He Hes].
  destruct e; try done; simpl in He.
  - split; [done|]. intros m' E. injection E as <-. by apply IH.
  - split.
    + destruct (lookup_lt_is_Some_2 (cl_cores (ma_cl m)) (Z.to_nat i)) as [co Eco]; [lia|].
      destruct (lookup_lt_is_Some_2 (ma_toks m) (Z.to_nat i)) as [tok Et]; [lia|].
      by exists co, tok.
    + intros m' E. cbn [exec] in E. unfold exec_cycle in E.
      destruct (cl_cores _ !! _); [|done]. destruct (ma_toks m !! _); [|done].
      cbn [mbind option_bind] in E. destruct (schedule _ _ _ _) as [[[[tr st] s] k]|]; [|done].
      injection E as <-. apply IH; simpl; [by rewrite length_vset|by rewrite length_insert|done].
Qed.

Lemma guarded_step m e m1 es : event_ok m e -> exec m e = Some m1 -> guarded m1 es -> guarded m (e :: es).
Proof using. intros He E Hg. split; [done|]. intros m' E'. by rewrite E in E'; injection E' as <-. Qed.
End Simple.

(** One core runs the four warps of a 16-thread block; every cycle issues
    one. *)
Definition demo_wctl_launch : kmu_desc_t :=
  mk_kmu_desc 0x80000000 0x80000100 0x10000 (Dim3 16 1 1) (Dim3 1 1 1) 0 16 (Dim3 4 0 0) (Dim3 1 1 1).

Definition demo_wctl_events : list (event bits) :=
  let all := list_to_set [0; 1; 2; 3] in
  [EvStart demo_wctl_launch; EvCycle 0 all; EvCycle 0 all; EvCycle 0 all; EvCycle 0 all].

Definition demo_machine : machine bits :=
  default (@ncore_machine default_config bits _ 1)
    (@run default_config bits _ (@ncore_machine default_config bits _ 1) demo_wctl_events).

Definition demo_core : core_t bits :=
  default (mk_core (@Scheduler_new default_config bits _) []) (cl_cores (ma_cl demo_machine) !! 0%nat).

Lemma demo_wctl_guarded :
  @guarded default_config bits _ _ (@ncore_machine default_config bits _ 1) demo_wctl_events.
Proof.
  apply (@simple_guarded default_config bits _ _ 1); [done|done|]. repeat constructor; simpl; try lia; done.
Defined.

Lemma demo_run :
  @run default_config bits _ (@ncore_machine default_config bits _ 1) demo_wctl_events = Some demo_machine.
Proof. vm_compute. reflexivity. Defined.

(** A core with one warp of a kernel; a fragment wave of two threads is queued,
    starts in warp 1 and exits. *)
Definition demo_frag_launch : kmu_desc_t :=
  mk_kmu_desc 0x80000000 0x80000100 0x10000 (Dim3 4 1 1) (Dim3 1 1 1) 0 4 (Dim3 0 1 0) (Dim3 1 1 1).
Definition demo_exit : wctl_trace :=
  mk_wctl_trace 1 0x90000000 TMC (mk_wctl_args false false false) true false true [0; 0; 0; 0] [0; 0; 0; 0].
Definition demo_frag_start : list (event bits) :=
  let all := list_to_set [0; 1; 2; 3] in
  [EvStart demo_frag_launch; EvFwd 0 (FwdArm 0x90000000 0x2000); EvFwd 0 (FwdPush (mk_wave [true; true; false; false] []));
   EvFwd 0 FwdDrained; EvCycle 0 all; EvCycle 0 all].
Definition demo_frag_events : list (event bits) := demo_frag_start ++ [EvProcess 0 demo_exit].

Definition demo_after (es : list (event bits)) : machine bits :=
  default (@ncore_machine default_config bits _ 1) (@run default_config bits _ (@ncore_machine default_config bits _ 1) es).
Definition demo_core_after (es : list (event bits)) : core_t bits :=
  default (mk_core (@Scheduler_new default_config bits _) []) (cl_cores (ma_cl (demo_after es)) !! 0%nat).

Lemma demo_wave_ok : @wave_ok default_config bits _ _ (mk_wave [true; true; false; false] []).
Proof. split; [by eexists | done]. Defined.

Lemma demo_frag_guarded :
  @guarded default_config bits _ _ (@ncore_machine default_config bits _ 1) demo_frag_start
  /\ @guarded default_config bits _ _ (@ncore_machine default_config bits _ 1) demo_frag_events.
Proof.
  split.
  all: eapply guarded_step; [simpl; lia || (split_and!; simpl; try lia; done) | vm_compute; reflexivity|].
  all: eapply guarded_step; [eexists _, _; split_and!; reflexivity | vm_compute; reflexivity|].
  all: eapply guarded_step; [eexists _, _; split_and!; [reflexivity.. | exact demo_wave_ok] | vm_compute; reflexivity|].
  all: eapply guarded_step; [eexists _, _; split_and!; [reflexivity.. | exact I] | vm_compute; reflexivity|].
  all: eapply guarded_step; [eexists _, _; split_and!; [reflexivity.. | exact I] | vm_compute; reflexivity|].
  all: eapply guarded_step; [eexists _, _; split_and!; [reflexivity.. | exact I] | vm_compute; reflexivity|].
  - exact I.
  - eapply guarded_step; [|vm_compute; reflexivity | exact I].
    eexists _, _. split; [reflexivity|]. split; [reflexivity|]. split; [vm_compute; reflexivity|].
    split_and!; try reflexivity. intros v Hv. vm_compute in Hv. injection Hv as <-. eexists. split; [vm_compute; reflexivity|].
    split; [eexists; split_and!; [reflexivity | reflexivity | exact I] | reflexivity].
Defined.


(** While the wave runs, one wave is launched and not retired; after its exit
    the epoch is done. *)
Lemma fragment_epoch_exact_witness :
  (let f := fwd_ (co_sched (demo_core_after demo_frag_start)) in
   fwd_launched_ f = u64 (fwd_retired_ f + Z.of_nat (size (fwd_is_fragment_ f)))
   /\ fwd_launched_ f = 1 /\ fwd_retired_ f = 0 /\ fwd_is_fragment_ f = {[1]})
  /\ (let f := fwd_ (co_sched (demo_core_after demo_frag_events)) in
      fwd_is_fragment_ f = ∅ /\ fwd_waves_ f = [] /\ fwd_launched_ f = 1 /\ fwd_retired_ f = 1).
Proof.
  destruct demo_frag_guarded as [G1 G2]. split.
  - split; [|split_and!; vm_compute; reflexivity].
    apply (@fragment_epoch_exact default_config default_config_ok bits bits_mask bits_mask_spec 1 demo_frag_start
      (demo_after demo_frag_start) 0 (demo_core_after demo_frag_start) (list_to_set [0; 1]) G1); vm_compute; reflexivity.
  - destruct (@fragment_epoch_exact default_config default_config_ok bits bits_mask bits_mask_spec 1 demo_frag_events
      (demo_after demo_frag_events) 0 (demo_core_after demo_frag_events) (list_to_set [0]) G2) as (_ & _ & H);
      [vm_compute; reflexivity..|].
    destruct H as [H1 H2]; [vm_compute; reflexivity|]. split_and!; [exact H1 | exact H2 | vm_compute; reflexivity..].
Defined.

Lemma barrier_generations_witness :
  exists co' : core_t bits, @arrive_all default_config bits demo_core 0 3 [2; 0; 3; 1] = Some co'
    /\ co_barriers co' !! 0%nat = Some (mk_bar (list_to_set [1]) ∅ 1 0 1).
Proof.
  destruct (@barrier_generations default_config default_config_ok bits bits_mask bits_mask_spec 1
    demo_wctl_events demo_machine 0 demo_core (list_to_set [0; 1; 2; 3]) 0 3 bar_new [2; 0; 3; 1]
    demo_wctl_guarded demo_run) as (co' & E & Eb & _); try (vm_compute; reflexivity).
  - vm_compute. split; [discriminate|reflexivity].
  - by apply (bool_decide_eq_true_1 _), (eq_refl true).
  - intros w Hw. set_solver.
  - lia.
  - exists co'. split; [exact E|exact Eb].
Defined.

(** Threads 0 and 2 take the branch. *)
Definition demo_split : wctl_trace :=
  mk_wctl_trace 0 0x80000010 SPLIT (mk_wctl_args false false false) true true true [1; 0; 1; 0] [0; 0; 0; 0].

Definition demo_warp : warp_t bits :=
  mk_warp [] [true; true; true; true] 0x80000014 0 0 0 0 0 0 0 0 [false; false; false; false] cta_csrs_new.

Lemma split_join_reconverges_witness :
  exists w1 m1, @split_warp default_config bits _ demo_warp demo_split = Some (w1, m1)
    /\ exists g w2 m2 w3, m1 = select g [true; true; true; true]
      /\ @join_warp bits _ (warp_set_tmask w1 m1) 0 = Some (w2, m2)
      /\ @join_warp bits _ (warp_set_tmask w2 m2) 0 = Some (w3, tmask demo_warp).
Proof.
  destruct (@split_join_reconverges default_config default_config_ok bits bits_mask bits_mask_spec demo_warp demo_split
    [true; true; true; true] eq_refl eq_refl I) as (w1 & m1 & E & P).
  exists w1, m1. split; [exact E|]. destruct P as (g & w2 & m2 & w3 & P1 & _ & _ & _ & P2 & _ & P3 & _).
  exists g, w2, m2, w3. split; [exact P1|]. split; [exact P2|exact P3].
Defined.

(** A 64-bit configuration with 32 threads per warp. *)
Definition wide_config : VxConfig := {|
  XLEN := 64; NUM_THREADS := 32; NUM_WARPS := 4; NUM_BARRIERS := 8;
  MEM_BLOCK_SIZE := 64; LMEM_LOG_SIZE := 14; LMEM_BASE_ADDR := 0xFFFF0000 |}.

Lemma wide_config_ok : @VxConfigOk wide_config.
Proof. constructor; simpl; try lia. exists 6. lia. Defined.

(** Bit 40 of the operand activates lane 31. *)
Lemma tmc_high_lane_witness :
  exists (m l : bits), @tmc_mask wide_config bits _ (2 ^ 40) = Some m /\ m = l /\ l !! 31%nat = Some true.
Proof.
  destruct (@tmc_high_lane wide_config wide_config_ok bits bits_mask bits_mask_spec (2 ^ 40)) as (m & l & E & R & _ & _ & H).
  - simpl. lia.
  - reflexivity.
  - exists m, l. split; [exact E|]. split; [exact R|]. rewrite H. reflexivity.
Defined.

(** A core whose barrier 0 is in its fifth generation. *)
Definition demo_phase_cluster : Cluster bits :=
  mk_cluster 0 [set_bar demo_core 0 (mk_bar ∅ ∅ 0 0 4)] [].
Definition demo_arrive : wctl_trace :=
  mk_wctl_trace 0 0x80000010 BAR (mk_wctl_args false false true) true true true [0; 0; 0; 0] [4; 4; 4; 4].
Definition demo_wait : wctl_trace :=
  mk_wctl_trace 1 0x80000014 BAR (mk_wctl_args false false false) true false true [0; 0; 0; 0] [0; 0; 0; 0].

Lemma async_wait_ignores_later_phases_witness :
  exists rw, @process default_config bits _ demo_phase_cluster 0 demo_wait = Some rw /\ wr_release rw = true.
Proof.
  destruct (@process default_config bits _ demo_phase_cluster 0 demo_arrive) as [ra|] eqn:Ea;
    [|exfalso; vm_compute in Ea; discriminate].
  destruct (@async_wait_ignores_later_phases default_config default_config_ok bits bits_mask bits_mask_spec
    demo_phase_cluster 0 (set_bar demo_core 0 (mk_bar ∅ ∅ 0 0 4)) demo_arrive demo_wait 0 (mk_bar ∅ ∅ 0 0 4) ra)
    as (_ & rw & E & R); try (vm_compute; reflexivity); try exact Ea.
  - simpl. lia.
  - exists rw. split; [exact E|exact R].
Defined.
