(* ===== verification/MemAlloc.v ===== *)
(** * The device-memory allocator ([sw/common/mem_alloc.h])

    [MemoryAllocator] hands out address ranges only; the memory itself is on
    the device.  Its pages are an address-sorted list, each page a store of
    blocks threaded on three intrusive lists: the used blocks, the free blocks
    by decreasing size (the S-list) and the free blocks by increasing address
    (the M-list).  The same block object sits on both free lists, and merging
    changes its size in place, so a page is modelled as a store from block
    addresses to sizes with three lists of addresses into it: a block is
    identified by its address, which no operation changes.

    A result [None] is a failed assertion or a null pointer followed.  The
    refinement theorem shows that it never happens, that live blocks are
    disjoint, aligned and in range, and that a request fails only when there
    is no room for it. *)

From stdpp Require Import sorting.
From S2P Require Import Prelude.

#[local] Open Scope Z_scope.

(** ** Intrusive lists *)

(** The insertion loops of [insertFreeMList] and [insertFreeSList]: past the
    nodes that satisfy the loop condition. *)
Fixpoint insert_after (cond : Z -> bool) (b : Z) (l : list Z) : list Z :=
  match l with
  | [] => [b]
  | c :: l' => if cond c then c :: insert_after cond b l' else b :: l
  end.

(** Unlinking a node of a doubly linked list. *)
Fixpoint unlink (b : Z) (l : list Z) : list Z :=
  match l with
  | [] => []
  | c :: l' => if c =? b then l' else c :: unlink b l'
  end.

(** [block->prevFreeM] and [block->nextFreeM] *)
Fixpoint prevFreeM (b : Z) (l : list Z) : option Z :=
  match l with
  | [] => None
  | c :: l' => match l' with
               | d :: _ => if d =? b then Some c else prevFreeM b l'
               | [] => None
               end
  end.

Fixpoint nextFreeM (b : Z) (l : list Z) : option Z :=
  match l with
  | [] => None
  | c :: l' => if c =? b then head l' else nextFreeM b l'
  end.

(** ** Pages *)

(** [block_t]s as a store: block address to block size. *)
Abbreviation blocks := (gmap Z Z) (only parsing).

Definition bsize (st : blocks) (b : Z) : Z := default 0 (st !! b).

Record page_t := Page {
  pg_addr : Z;
  pg_size : Z;
  pg_blockAlign : Z;
  pg_store : blocks;
  usedList : list Z;
  freeSList : list Z;
  freeMList : list Z
}.

Definition page_new (addr size blockAlign : Z) : page_t :=
  Page addr size blockAlign {[ addr := size ]} [] [addr] [addr].

Definition page_empty (p : page_t) : bool :=
  match usedList p with [] => true | _ => false end.

(** The assertions of [~page_t]. *)
Definition page_delete_ok (p : page_t) : bool :=
  page_empty p && match freeMList p with [_] => true | _ => false end.

Definition insertFreeMList (b : Z) (l : list Z) : list Z := insert_after (fun c => c <? b) b l.

Definition insertFreeSList (st : blocks) (b : Z) (l : list Z) : list Z :=
  insert_after (fun c => bsize st b <? bsize st c) b l.

Definition page_allocate (p : page_t) (size b : Z) : page_t :=
  let fm := unlink b (freeMList p) in
  let fs := unlink b (freeSList p) in
  let st := pg_store p in
  let extraBytes := u64 (bsize st b - size) in
  if pg_blockAlign p <=? extraBytes then
    let nextAddr := u64 (b + size) in
    let st := <[nextAddr := extraBytes]> (<[b := size]> st) in
    Page (pg_addr p) (pg_size p) (pg_blockAlign p) st (b :: usedList p)
         (insertFreeSList st nextAddr fs) (insertFreeMList nextAddr fm)
  else
    Page (pg_addr p) (pg_size p) (pg_blockAlign p) st (b :: usedList p) fs fm.

(** The free lists while [release] works on them: the store, the S-list, the
    M-list and the block being freed. *)
Record freeing := Freeing { fr_store : blocks; fr_S : list Z; fr_M : list Z; fr_block : Z }.

Definition merge_left (f : freeing) : freeing :=
  let '(Freeing st fs fm b) := f in
  match prevFreeM b fm with
  | Some c =>
      if b =? u64 (c + bsize st c) then
        Freeing (delete b (<[c := u64 (bsize st c + bsize st b)]> st)) (unlink c fs) (unlink b fm) c
      else f
  | None => f
  end.

Definition merge_right (f : freeing) : freeing :=
  let '(Freeing st fs fm b) := f in
  match nextFreeM b fm with
  | Some n =>
      if n =? u64 (b + bsize st b) then
        Freeing (delete n (<[b := u64 (bsize st b + bsize st n)]> st)) (unlink n fs) (unlink n fm) b
      else f
  | None => f
  end.

Definition page_release (p : page_t) (b : Z) : page_t :=
  let used := unlink b (usedList p) in
  let fm := insertFreeMList b (freeMList p) in
  let '(Freeing st fs fm b) := merge_right (merge_left (Freeing (pg_store p) (freeSList p) fm b)) in
  Page (pg_addr p) (pg_size p) (pg_blockAlign p) st used (insertFreeSList st b fs) fm.

(** The walk of the S-list to the smallest block that fits. *)
Fixpoint fit_walk (st : blocks) (size b : Z) (l : list Z) : Z :=
  match l with
  | n :: l' => if size <=? bsize st n then fit_walk st size n l' else b
  | [] => b
  end.

Definition findFreeBlock (p : page_t) (size : Z) : option Z :=
  match freeSList p with
  | b :: l => if size <=? bsize (pg_store p) b then Some (fit_walk (pg_store p) size b l) else None
  | [] => None
  end.

Definition findUsedBlock (p : page_t) (addr : Z) : option Z :=
  if (pg_addr p <=? addr) && (addr <? u64 (pg_addr p + pg_size p))
  then List.find (fun b => b =? addr) (usedList p) else None.

(** ** The allocator *)

Record MemoryAllocator := Allocator {
  baseAddress_ : Z;
  capacity_ : Z;
  pageAlign_ : Z;
  blockAlign_ : Z;
  pages_ : list page_t;
  allocated_ : Z
}.

Definition MemoryAllocator_new (baseAddress capacity pageAlign blockAlign : Z) : MemoryAllocator :=
  Allocator baseAddress capacity pageAlign blockAlign [] 0.

Definition set_pages (m : MemoryAllocator) (ps : list page_t) (n : Z) : MemoryAllocator :=
  Allocator (baseAddress_ m) (capacity_ m) (pageAlign_ m) (blockAlign_ m) ps n.

(** The 32-bit accessors and the 64-bit counters. *)
Definition baseAddress (m : MemoryAllocator) : Z := u32 (baseAddress_ m).
Definition capacity (m : MemoryAllocator) : Z := u32 (capacity_ m).
Definition free (m : MemoryAllocator) : Z := u64 (capacity_ m - allocated_ m).

Definition alignSize (size alignment : Z) : option Z :=
  if Z.land alignment (u64 (alignment - 1)) =? 0
  then Some (Z.land (u64 (size + alignment - 1)) (lnot_w 64 (u64 (alignment - 1)))) else None.

(** Position of a new page in the address-sorted list. *)
Fixpoint page_skip (addr : Z) (ps : list page_t) : nat :=
  match ps with
  | p :: ps' => if pg_addr p <? addr then S (page_skip addr ps') else O
  | [] => O
  end.

Definition page_pos (addr : Z) (ps : list page_t) : nat :=
  match ps with
  | [] => O
  | p :: ps' => if addr <? pg_addr p then O else S (page_skip addr ps')
  end.

Definition createPage (m : MemoryAllocator) (addr size : Z) : list page_t * nat :=
  let i := page_pos addr (pages_ m) in
  (take i (pages_ m) ++ page_new addr size (blockAlign_ m) :: drop i (pages_ m), i).

Definition deletePage (ps : list page_t) (i : nat) : option (list page_t) :=
  match ps !! i with
  | Some p => if page_delete_ok p then Some (delete i ps) else None
  | None => None
  end.

(** The gap search; [None] is the return of [false]. *)
Fixpoint next_gap (hi size endOfLastPage : Z) (ps : list page_t) : option Z :=
  match ps with
  | p :: ps' =>
      if u64 (endOfLastPage + size) <=? pg_addr p then Some endOfLastPage
      else next_gap hi size (u64 (pg_addr p + pg_size p)) ps'
  | [] => if u64 (endOfLastPage + size) <=? hi then Some endOfLastPage else None
  end.

Definition findNextAddress (m : MemoryAllocator) (size : Z) : option Z :=
  match pages_ m with
  | [] => Some (baseAddress_ m)
  | ps => next_gap (u64 (baseAddress_ m + capacity_ m)) size (baseAddress_ m) ps
  end.

Definition hasPageOverlap (ps : list page_t) (start size : Z) : bool :=
  List.existsb (fun p => (start <? u64 (pg_addr p + pg_size p)) && (pg_addr p <? u64 (start + size))) ps.

(** The page loops of [allocate] and [release]: the first page whose search
    succeeds, with its result. *)
Fixpoint find_page (f : page_t -> option Z) (ps : list page_t) : option (nat * Z) :=
  match ps with
  | [] => None
  | p :: ps' =>
      match f p with
      | Some b => Some (O, b)
      | None => match find_page f ps' with Some (i, b) => Some (S i, b) | None => None end
      end
  end.

(** [currPage->allocate(size, freeBlock)] and the bookkeeping after it; a null
    [freeBlock] would be followed. *)
Definition take_block (m : MemoryAllocator) (ps : list page_t) (i : nat) (b : option Z) (size : Z) :
    option (option Z * MemoryAllocator) :=
  p ← ps !! i; b ← b;
  Some (Some b, set_pages m (<[i := page_allocate p size b]> ps) (u64 (allocated_ m + size))).

(** [int allocate(size, &addr)]: [Some a] for the address, [None] for [-1]. *)
Definition allocate (m : MemoryAllocator) (size : Z) : option (option Z * MemoryAllocator) :=
  if size =? 0 then Some (None, m) else
  size ← alignSize size (blockAlign_ m);
  match find_page (fun p => findFreeBlock p size) (pages_ m) with
  | Some (i, b) => take_block m (pages_ m) i (Some b) size
  | None =>
      pageSize ← alignSize size (pageAlign_ m);
      match findNextAddress m pageSize with
      | None => Some (None, m)
      | Some pageAddr =>
          let '(ps, i) := createPage m pageAddr pageSize in
          take_block m ps i (p ← ps !! i; findFreeBlock p size) size
      end
  end.

Definition reserve (m : MemoryAllocator) (addr size : Z) : option (bool * MemoryAllocator) :=
  if size =? 0 then Some (false, m) else
  size ← alignSize size (pageAlign_ m);
  if u64 (baseAddress_ m + capacity_ m) <? u64 (addr + size) then Some (false, m) else
  if hasPageOverlap (pages_ m) addr size then Some (false, m) else
  let '(ps, i) := createPage m addr size in
  '(_, m) ← take_block m ps i (p ← ps !! i; findFreeBlock p size) size;
  Some (true, m).

Definition release (m : MemoryAllocator) (addr : Z) : option (bool * MemoryAllocator) :=
  match find_page (fun p => findUsedBlock p addr) (pages_ m) with
  | None => Some (false, m)
  | Some (i, b) =>
      p ← pages_ m !! i;
      let size := bsize (pg_store p) b in
      let p' := page_release p b in
      let ps := <[i := p']> (pages_ m) in
      ps ← (if page_empty p' then deletePage ps i else Some ps);
      Some (true, set_pages m ps (u64 (allocated_ m - size)))
  end.

(** The destructor: in a build with virtual memory every used block is released
    first, then each page is deleted under its assertions. *)
Definition destroy_page (vm : bool) (p : page_t) : option unit :=
  let p := if vm then fold_left page_release (usedList p) p else p in
  if page_delete_ok p then Some tt else None.

Fixpoint destroy_pages (vm : bool) (ps : list page_t) : option unit :=
  match ps with
  | [] => Some tt
  | p :: ps' => _ ← destroy_page vm p; destroy_pages vm ps'
  end.

Definition MemoryAllocator_destroy (vm : bool) (m : MemoryAllocator) : option unit :=
  destroy_pages vm (pages_ m).

(** ** Sequences of calls *)

Inductive call :=
| CAllocate (size : Z)
| CReserve (addr size : Z)
| CRelease (addr : Z).

Inductive ret :=
| RAddr (addr : option Z)
| RCode (ok : bool).

Definition invoke (m : MemoryAllocator) (c : call) : option (ret * MemoryAllocator) :=
  match c with
  | CAllocate size => '(r, m) ← allocate m size; Some (RAddr r, m)
  | CReserve addr size => '(r, m) ← reserve m addr size; Some (RCode r, m)
  | CRelease addr => '(r, m) ← release m addr; Some (RCode r, m)
  end.

Fixpoint invoke_all (m : MemoryAllocator) (cs : list call) : option (list ret * MemoryAllocator) :=
  match cs with
  | [] => Some ([], m)
  | c :: cs' => '(r, m) ← invoke m c; '(rs, m) ← invoke_all m cs'; Some (r :: rs, m)
  end.

(** ** List lemmas *)

Lemma unlink_app b l1 l2 : (b ∉ l1) -> unlink b (l1 ++ b :: l2) = l1 ++ l2.
Proof.
  induction l1 as [|c l1 IH]; intros Hb; simpl; [by rewrite Z.eqb_refl|].
  apply not_elem_of_cons in Hb as [Hc Hb]. rewrite (proj2 (Z.eqb_neq c b)) by done. f_equal; auto.
Qed.

Lemma unlink_perm b l : b ∈ l -> l ≡ₚ b :: unlink b l.
Proof.
  induction l as [|c l IH]; intros Hb; simpl; [by apply elem_of_nil in Hb|].
  destruct (Z.eqb_spec c b); [by subst|]. apply list.elem_of_cons in Hb as [?|Hb]; [done|].
  rewrite (IH Hb) at 1. apply Permutation_swap.
Qed.

Lemma insert_after_app cond b l1 l2 :
  Forall (fun c => cond c = true) l1 -> Forall (fun c => cond c = false) l2 ->
  insert_after cond b (l1 ++ l2) = l1 ++ b :: l2.
Proof.
  induction 1 as [|c l1 Hc _ IH]; intros H2; simpl.
  - destruct H2 as [|c l2 Hc _]; simpl; [done|]. by rewrite Hc.
  - rewrite Hc. f_equal; auto.
Qed.

Lemma insert_after_perm cond b l : insert_after cond b l ≡ₚ b :: l.
Proof.
  induction l as [|c l IH]; simpl; [done|]. destruct (cond c); [|done].
  rewrite IH. apply Permutation_swap.
Qed.

Lemma prevFreeM_none b l : (b ∉ l) -> prevFreeM b l = None.
Proof.
  induction l as [|c [|d l] IH]; intros Hb; simpl in *; [done|done|].
  rewrite (proj2 (Z.eqb_neq d b)) by set_solver. apply IH. set_solver.
Qed.

Lemma prevFreeM_app b l1 l2 : (b ∉ l1) -> (b ∉ l2) -> prevFreeM b (l1 ++ b :: l2) = list.last l1.
Proof.
  intros H1 H2. induction l1 as [|c [|d l1] IH]; simpl.
  - destruct l2 as [|d l2]; [done|].
    rewrite (proj2 (Z.eqb_neq d b)) by set_solver. apply prevFreeM_none. set_solver.
  - by rewrite Z.eqb_refl.
  - rewrite (proj2 (Z.eqb_neq d b)) by set_solver. apply IH. set_solver.
Qed.

Lemma nextFreeM_app b l1 l2 : (b ∉ l1) -> nextFreeM b (l1 ++ b :: l2) = head l2.
Proof.
  induction l1 as [|c l1 IH]; intros Hb; simpl; [by rewrite Z.eqb_refl|].
  rewrite (proj2 (Z.eqb_neq c b)) by set_solver. apply IH. set_solver.
Qed.

(** Lists sorted by decreasing size. *)
Definition by_size (st : gmap Z Z) (l : list Z) : Prop :=
  StronglySorted (fun b c => bsize st c <= bsize st b) l.

Lemma by_size_ext st st' l :
  (forall b, b ∈ l -> bsize st' b = bsize st b) -> by_size st l -> by_size st' l.
Proof.
  intros E Hl. induction Hl as [|b l Hl IH Hb]; constructor.
  - apply IH. intros. apply E. by right.
  - rewrite list.Forall_forall in Hb |- *. intros c Hc.
    rewrite !E by (by (left || right)). auto.
Qed.

Lemma by_size_unlink st b l : by_size st l -> by_size st (unlink b l).
Proof.
  intros Hl. induction Hl as [|c l Hl IH Hc]; simpl; [constructor|].
  destruct (c =? b); [done|]. constructor; [done|].
  rewrite list.Forall_forall in Hc |- *. intros d Hd. apply Hc. clear - Hd.
  induction l as [|e l IH]; simpl in Hd; [done|]. destruct (e =? b); set_solver.
Qed.

Lemma by_size_insert st b l : by_size st l -> by_size st (insertFreeSList st b l).
Proof.
  unfold insertFreeSList. intros Hl. induction Hl as [|c l Hl IH Hc]; simpl; [by repeat constructor|].
  destruct (Z.ltb_spec (bsize st b) (bsize st c)).
  - constructor; [done|]. rewrite list.Forall_forall in Hc |- *.
    intros d. rewrite insert_after_perm, list.elem_of_cons. intros [->|Hd]; [lia|auto].
  - constructor; [by constructor|]. rewrite list.Forall_forall in Hc |- *.
    intros d [->|Hd]%list.elem_of_cons; [lia|]. specialize (Hc d Hd). lia.
Qed.

(** ** Tilings

    What a page is, abstractly: a partition of its range into blocks, free and
    used, without two free neighbours. *)

Record tile := Tile { t_addr : Z; t_size : Z; t_free : bool }.

Fixpoint tiled (ba lo hi : Z) (l : list tile) : Prop :=
  match l with
  | [] => lo = hi
  | t :: l' => t_addr t = lo /\ 0 < t_size t /\ (ba | t_size t) /\ tiled ba (lo + t_size t) hi l'
  end.

Fixpoint coalesced (prev : bool) (l : list tile) : Prop :=
  match l with
  | [] => True
  | t :: l' => prev && t_free t = false /\ coalesced (t_free t) l'
  end.

Definition frees (l : list tile) : list Z := t_addr <$> filter (fun t => t_free t = true) l.
Definition useds (l : list tile) : list (Z * Z) :=
  (fun t => (t_addr t, t_size t)) <$> filter (fun t => t_free t = false) l.

Lemma tiled_app ba lo hi l1 l2 :
  tiled ba lo hi (l1 ++ l2) <-> exists mid, tiled ba lo mid l1 /\ tiled ba mid hi l2.
Proof.
  revert lo. induction l1 as [|t l1 IH]; intros lo; simpl.
  - naive_solver.
  - rewrite IH. naive_solver.
Qed.

Lemma tiled_le ba lo hi l : tiled ba lo hi l -> lo <= hi.
Proof.
  revert lo. induction l as [|t l IH]; intros lo; simpl; [lia|].
  intros (_ & ? & _ & ?%IH). lia.
Qed.

Lemma tiled_in ba lo hi l t :
  tiled ba lo hi l -> t ∈ l ->
  lo <= t_addr t /\ t_addr t + t_size t <= hi /\ 0 < t_size t /\ (ba | t_size t).
Proof.
  revert lo. induction l as [|u l IH]; intros lo; simpl; [by intros _ ?%elem_of_nil|].
  intros (<- & ? & ? & Hl) [->|Ht]%list.elem_of_cons.
  - apply tiled_le in Hl. split_and!; [lia..|done].
  - destruct (IH _ Hl Ht) as (? & ? & ? & ?). split_and!; [lia..|done].
Qed.

Lemma coalesced_app prev l1 l2 :
  coalesced prev (l1 ++ l2) <->
  coalesced prev l1 /\ coalesced (default prev (t_free <$> list.last l1)) l2.
Proof.
  revert prev. induction l1 as [|t l1 IH]; intros prev; simpl coalesced; [simpl; tauto|].
  rewrite last_cons, IH. destruct (list.last l1); simpl; tauto.
Qed.

Lemma coalesced_false prev l : coalesced prev l -> coalesced false l.
Proof. destruct l; simpl; tauto. Qed.

Lemma frees_app l1 l2 : frees (l1 ++ l2) = frees l1 ++ frees l2.
Proof. unfold frees. by rewrite list.filter_app, fmap_app. Qed.

Lemma useds_app l1 l2 : useds (l1 ++ l2) = useds l1 ++ useds l2.
Proof. unfold useds. by rewrite list.filter_app, fmap_app. Qed.

Lemma frees_cons t l : frees (t :: l) = if t_free t then t_addr t :: frees l else frees l.
Proof.
  unfold frees. destruct (t_free t) eqn:E;
    [rewrite list.filter_cons_True by done | rewrite list.filter_cons_False by congruence]; done.
Qed.

Lemma useds_cons t l : useds (t :: l) = if t_free t then useds l else (t_addr t, t_size t) :: useds l.
Proof.
  unfold useds. destruct (t_free t) eqn:E;
    [rewrite list.filter_cons_False by congruence | rewrite list.filter_cons_True by done]; done.
Qed.

Lemma elem_of_frees b l : b ∈ frees l <-> exists s, Tile b s true ∈ l.
Proof.
  unfold frees. rewrite list_elem_of_fmap. setoid_rewrite list_elem_of_filter. split.
  - intros ([b' s f] & -> & <- & ?). eauto.
  - intros [s ?]. by exists (Tile b s true).
Qed.

Lemma elem_of_useds b s l : (b, s) ∈ useds l <-> Tile b s false ∈ l.
Proof.
  unfold useds. rewrite list_elem_of_fmap. setoid_rewrite list_elem_of_filter. split.
  - intros ([b' s' f] & E & <- & ?). by simplify_eq/=.
  - intros ?. by exists (Tile b s false).
Qed.

Lemma tiled_mid ba lo hi l1 b s f l2 :
  tiled ba lo hi (l1 ++ Tile b s f :: l2) <->
  tiled ba lo b l1 /\ 0 < s /\ (ba | s) /\ tiled ba (b + s) hi l2.
Proof.
  rewrite tiled_app. simpl. split.
  - intros (mid & H1 & -> & ? & ? & ?). auto.
  - intros (? & ? & ? & ?). exists b. auto.
Qed.

(** The store holds exactly the blocks of the tiling. *)
Definition store_rep (st : gmap Z Z) (l : list tile) : Prop :=
  forall b s, st !! b = Some s <-> exists f, Tile b s f ∈ l.

Lemma store_rep_bsize st l b s f : store_rep st l -> Tile b s f ∈ l -> bsize st b = s.
Proof. intros Hst Hb. unfold bsize. by rewrite (proj2 (Hst b s)) by eauto. Qed.

Lemma store_rep_flag st l1 b s f f' l2 :
  store_rep st (l1 ++ Tile b s f :: l2) -> store_rep st (l1 ++ Tile b s f' :: l2).
Proof.
  intros Hst c n. rewrite (Hst c n).
  setoid_rewrite elem_of_app. setoid_rewrite list.elem_of_cons. naive_solver.
Qed.

(** Block addresses below and above a tile. *)
Lemma tiled_below ba lo b l c s f : tiled ba lo b l -> Tile c s f ∈ l -> lo <= c /\ c + s <= b /\ 0 < s.
Proof. intros Hl Hc. destruct (tiled_in _ _ _ _ _ Hl Hc) as (? & ? & ? & ?). simpl in *. lia. Qed.

Ltac tile_mem := 
  repeat match goal with
  | H : _ ∈ _ ++ _ |- _ => apply elem_of_app in H as [H|H]
  | H : _ ∈ _ :: _ |- _ => apply list.elem_of_cons in H as [H|H]
  | H : Tile _ _ _ ∈ ?l, K : tiled _ _ _ ?l |- _ =>
      lazymatch goal with
      | _ : _ <= _ /\ _ <= _ /\ 0 < _ |- _ => fail
      | _ => pose proof (tiled_below _ _ _ _ _ _ _ K H)
      end
  end.

Lemma store_rep_split ba lo hi st l1 b s f l2 n f1 f2 :
  tiled ba lo hi (l1 ++ Tile b s f :: l2) -> 0 < n < s ->
  store_rep st (l1 ++ Tile b s f :: l2) ->
  store_rep (<[b + n := s - n]> (<[b := n]> st)) (l1 ++ Tile b n f1 :: Tile (b + n) (s - n) f2 :: l2).
Proof.
  intros (H1 & Hs & _ & H2)%tiled_mid Hn Hst c k.
  rewrite !lookup_insert_Some, (Hst c k). split.
  - intros [[<- <-]|[Hc [[<- <-]|[Hc' [g Hg]]]]].
    + exists f2. set_solver.
    + exists f1. set_solver.
    + exists g. set_solver.
  - intros [g Hg]. tile_mem; simplify_eq.
    + right. split; [lia|]. right. split; [lia|]. exists g. set_solver.
    + right. split; [lia|]. by left.
    + by left.
    + right. split; [lia|]. right. split; [lia|]. exists g. set_solver.
Qed.

Lemma store_rep_merge ba lo hi st l1 b s f c s' f' l2 g :
  tiled ba lo hi (l1 ++ Tile b s f :: Tile c s' f' :: l2) ->
  store_rep st (l1 ++ Tile b s f :: Tile c s' f' :: l2) ->
  store_rep (delete c (<[b := s + s']> st)) (l1 ++ Tile b (s + s') g :: l2).
Proof.
  intros (H1 & Hs & _ & Hc & Hs' & _ & H2)%tiled_mid Hst d k. simpl in *. subst c.
  rewrite lookup_delete_Some, lookup_insert_Some, (Hst d k). split.
  - intros [Hd [[<- <-]|[Hd' [h Hh]]]]; [exists g; set_solver|].
    exists h. tile_mem; simplify_eq; set_solver.
  - intros [h Hh]. tile_mem; simplify_eq.
    + split; [lia|]. right. split; [lia|]. exists h. set_solver.
    + split; [lia|]. by left.
    + split; [lia|]. right. split; [lia|]. exists h. set_solver.
Qed.

(** A free block is found on the free lists, at its place in the tiling. *)
Lemma tiled_notin_l ba lo b l : tiled ba lo b l -> b ∉ frees l.
Proof. intros Hl [s Hs]%elem_of_frees. tile_mem. lia. Qed.

Lemma frees_below ba lo b l : tiled ba lo b l -> Forall (fun c => c < b) (frees l).
Proof. intros Hl. apply list.Forall_forall. intros c [s Hs]%elem_of_frees. tile_mem. lia. Qed.

Lemma frees_above ba b hi l : tiled ba b hi l -> Forall (fun c => b <= c) (frees l).
Proof. intros Hl. apply list.Forall_forall. intros c [s Hs]%elem_of_frees. tile_mem. lia. Qed.

(** ** What a page represents *)

Record page_rep (p : page_t) (l : list tile) : Prop := {
  pr_tiled : tiled (pg_blockAlign p) (pg_addr p) (pg_addr p + pg_size p) l;
  pr_coal : coalesced false l;
  pr_store : store_rep (pg_store p) l;
  pr_M : freeMList p = frees l;
  pr_S : freeSList p ≡ₚ frees l;
  pr_sorted : by_size (pg_store p) (freeSList p);
  pr_used : usedList p ≡ₚ (useds l).*1;
  pr_align : 0 < pg_blockAlign p;
  pr_lo : 0 <= pg_addr p;
  pr_hi : pg_addr p + pg_size p < 2 ^ 64
}.

Lemma page_new_rep addr size ba :
  0 < ba -> 0 < size -> (ba | size) -> 0 <= addr -> addr + size < 2 ^ 64 ->
  page_rep (page_new addr size ba) [Tile addr size true].
Proof.
  intros. constructor; simpl; try done.
  - intros b s. rewrite lookup_singleton_Some. split.
    + intros [<- <-]. exists true. by left.
    + intros [f Hf]. tile_mem; [by simplify_eq | by apply elem_of_nil in Hf].
  - by repeat constructor.
Qed.

(** ** Allocation in a page *)

Lemma frees_mid l1 b s l2 : frees (l1 ++ Tile b s true :: l2) = frees l1 ++ b :: frees l2.
Proof. by rewrite frees_app, frees_cons. Qed.

Lemma frees_gap l1 b s l2 : frees (l1 ++ Tile b s false :: l2) = frees l1 ++ frees l2.
Proof. by rewrite frees_app, frees_cons. Qed.

Lemma useds_mid l1 b s l2 : useds (l1 ++ Tile b s true :: l2) = useds l1 ++ useds l2.
Proof. by rewrite useds_app, useds_cons. Qed.

Lemma useds_gap l1 b s l2 : useds (l1 ++ Tile b s false :: l2) = useds l1 ++ (b, s) :: useds l2.
Proof. by rewrite useds_app, useds_cons. Qed.

Definition carved (l1 : list tile) (b n s : Z) (l2 : list tile) : list tile :=
  l1 ++ Tile b n false :: (if n =? s then l2 else Tile (b + n) (s - n) true :: l2).

Lemma carved_useds l1 b n s l2 : useds (carved l1 b n s l2) = useds l1 ++ (b, n) :: useds l2.
Proof.
  unfold carved. rewrite useds_gap. destruct (n =? s); [done|]. by rewrite useds_cons.
Qed.

Lemma carved_frees l1 b n s l2 :
  frees (carved l1 b n s l2) = frees l1 ++ (if n =? s then [] else [b + n]) ++ frees l2.
Proof. unfold carved. rewrite frees_gap. destruct (n =? s); [done|]. by rewrite frees_cons. Qed.

Lemma carved_tiled ba lo hi l1 b n s l2 :
  0 < n <= s -> (ba | n) ->
  tiled ba lo hi (l1 ++ Tile b s true :: l2) -> tiled ba lo hi (carved l1 b n s l2).
Proof.
  intros Hn Hba (H1 & Hs & Hd & H2)%tiled_mid. apply tiled_mid. split_and!; [done|lia|done|].
  destruct (Z.eqb_spec n s); [by subst|]. simpl. split_and!; [done|lia|by apply Z.divide_sub_r|].
  by replace (b + n + (s - n)) with (b + s) by lia.
Qed.

Lemma carved_coalesced l1 b n s l2 :
  coalesced false (l1 ++ Tile b s true :: l2) -> coalesced false (carved l1 b n s l2).
Proof.
  unfold carved. rewrite !coalesced_app. simpl. intros (H1 & _ & H2). rewrite andb_false_r.
  split_and!; [done|done|]. destruct (n =? s); simpl; [by eapply coalesced_false | done].
Qed.

Lemma multiple_le ba x : 0 < ba -> (ba | x) -> 0 < x -> ba <= x.
Proof. intros. by apply Z.divide_pos_le. Qed.

Section AllocatePage.
Context (p : page_t) (l1 : list tile) (b s : Z) (l2 : list tile) (n : Z).
Context (R : page_rep p (l1 ++ Tile b s true :: l2)).

Lemma alloc_bsize : bsize (pg_store p) b = s.
Proof using R. eapply store_rep_bsize; [apply R|]. apply elem_of_app. right. left. Qed.

Lemma alloc_bounds : 0 <= b /\ b + s < 2 ^ 64 /\ 0 < s.
Proof using R.
  destruct (proj1 (tiled_mid _ _ _ _ _ _ _ _) (pr_tiled _ _ R)) as (H1 & ? & _ & H2).
  apply tiled_le in H1, H2. pose proof (pr_lo _ _ R). pose proof (pr_hi _ _ R). lia.
Qed.

Lemma alloc_M : unlink b (freeMList p) = frees l1 ++ frees l2.
Proof using R.
  rewrite (pr_M _ _ R), frees_mid. apply unlink_app.
  destruct (proj1 (tiled_mid _ _ _ _ _ _ _ _) (pr_tiled _ _ R)) as (H1 & _).
  by eapply tiled_notin_l.
Qed.

Lemma alloc_S : unlink b (freeSList p) ≡ₚ frees l1 ++ frees l2.
Proof using R.
  apply (Permutation_cons_inv (a := b)). rewrite <- unlink_perm.
  - rewrite (pr_S _ _ R), frees_mid. by rewrite Permutation_middle.
  - rewrite (pr_S _ _ R), frees_mid. apply elem_of_app. right. left.
Qed.

Lemma alloc_others c : c ∈ frees l1 ++ frees l2 -> c <> b /\ (c < b \/ b + s <= c).
Proof using R.
  destruct (proj1 (tiled_mid _ _ _ _ _ _ _ _) (pr_tiled _ _ R)) as (H1 & Hs & _ & H2).
  intros [Hc|Hc]%elem_of_app; apply elem_of_frees in Hc as [k Hk]; tile_mem; lia.
Qed.

Context (Hn : 0 < n <= s) (Hba : (pg_blockAlign p | n)).

Lemma alloc_extra : u64 (bsize (pg_store p) b - n) = s - n.
Proof using R Hn. rewrite alloc_bsize. pose proof alloc_bounds. apply u64_small. lia. Qed.

Lemma alloc_split : (pg_blockAlign p <=? s - n) = negb (n =? s).
Proof using R Hn Hba.
  pose proof (pr_align _ _ R) as Hb.
  destruct (proj1 (tiled_mid _ _ _ _ _ _ _ _) (pr_tiled _ _ R)) as (_ & _ & Hd & _).
  destruct (Z.eqb_spec n s) as [->|Hne]; simpl; [apply Z.leb_gt; lia|].
  apply Z.leb_le, multiple_le; [done|by apply Z.divide_sub_r|lia].
Qed.

Lemma page_allocate_rep : page_rep (page_allocate p n b) (carved l1 b n s l2).
Proof using R Hn Hba.
  pose proof alloc_bounds as B. pose proof (pr_tiled _ _ R) as T.
  destruct (proj1 (tiled_mid _ _ _ _ _ _ _ _) T) as (H1 & _ & _ & H2).
  assert (usedList p ≡ₚ (useds l1 ++ useds l2).*1) as U by (rewrite (pr_used _ _ R), useds_mid; done).
  pose proof (carved_tiled _ _ _ _ _ _ _ _ Hn Hba T) as T'.
  pose proof (carved_coalesced _ _ n _ _ (pr_coal _ _ R)) as C'.
  unfold page_allocate. rewrite alloc_extra, alloc_split, alloc_M.
  rewrite (u64_small (b + n)) by lia.
  destruct (Z.eqb_spec n s) as [->|Hne]; simpl negb; cbv iota zeta.
  - constructor; simpl; try done; try apply R.
    + unfold carved. rewrite Z.eqb_refl. eapply store_rep_flag, R.
    + rewrite carved_frees, Z.eqb_refl. done.
    + rewrite carved_frees, Z.eqb_refl. apply alloc_S.
    + apply by_size_unlink, R.
    + rewrite carved_useds, U, !fmap_app. simpl. by rewrite Permutation_middle.
  - constructor; simpl; try done; try apply R.
    + unfold carved. rewrite (proj2 (Z.eqb_neq n s)) by done. eapply store_rep_split; [done|lia|apply R].
    + rewrite carved_frees, (proj2 (Z.eqb_neq n s)) by done. apply insert_after_app.
      * eapply list.Forall_impl; [exact (frees_below _ _ _ _ H1)|]. intros c Hc. apply Z.ltb_lt. simpl in Hc. lia.
      * eapply list.Forall_impl; [exact (frees_above _ _ _ _ H2)|]. intros c Hc. apply Z.ltb_ge. simpl in Hc. lia.
    + unfold insertFreeSList.
      rewrite insert_after_perm, alloc_S, carved_frees, (proj2 (Z.eqb_neq n s)) by done.
      simpl. by rewrite Permutation_middle.
    + apply by_size_insert. eapply by_size_ext, by_size_unlink, R. intros c Hc.
      rewrite alloc_S in Hc. apply alloc_others in Hc. unfold bsize.
      by rewrite !lookup_insert_ne by lia.
    + rewrite carved_useds, U, !fmap_app. simpl. by rewrite Permutation_middle.
Qed.
End AllocatePage.

(** ** Release in a page *)

Definition last_free (l : list tile) : bool := default false (t_free <$> list.last l).
Definition head_free (l : list tile) : bool := default false (t_free <$> head l).

Record freeing_rep (ba lo hi : Z) (f : freeing) (l1 : list tile) (s : Z) (l2 : list tile) : Prop := {
  fr_tiled : tiled ba lo hi (l1 ++ Tile (fr_block f) s true :: l2);
  fr_stored : store_rep (fr_store f) (l1 ++ Tile (fr_block f) s true :: l2);
  fr_Ml : fr_M f = frees l1 ++ fr_block f :: frees l2;
  fr_Sl : fr_S f ≡ₚ frees l1 ++ frees l2;
  fr_sorted : by_size (fr_store f) (fr_S f);
  fr_coal1 : coalesced false l1;
  fr_coal2 : coalesced false l2;
  fr_lo : 0 <= lo;
  fr_hi : hi < 2 ^ 64
}.

Lemma NoDup_frees ba lo hi l : tiled ba lo hi l -> NoDup (frees l).
Proof.
  revert lo. induction l as [|[b s f] l IH]; intros lo; [constructor|]. simpl.
  intros (-> & ? & _ & Hl). rewrite frees_cons. simpl. destruct f; [|by eapply IH].
  constructor; [|by eapply IH]. intros [k Hk]%elem_of_frees. tile_mem. lia.
Qed.

(** Taking a block off the S-list after the store changed at [b] and [c] only. *)
Lemma by_size_merge st l c b x :
  (b ∉ unlink c l) -> (c ∉ unlink c l) -> by_size st l -> by_size (delete b (<[c := x]> st)) (unlink c l).
Proof.
  intros Hb Hc Hl. eapply by_size_ext, by_size_unlink, Hl. intros d Hd. unfold bsize.
  rewrite lookup_delete_ne, lookup_insert_ne; [done|congruence..].
Qed.

Section Merge.
Context (ba lo hi : Z) (st : gmap Z Z) (fs fm : list Z) (b : Z) (l1 : list tile) (s : Z) (l2 : list tile).
Abbreviation f := (Freeing st fs fm b).
Context (R : freeing_rep ba lo hi f l1 s l2).

Lemma merge_parts : tiled ba lo b l1 /\ 0 < s /\ tiled ba (b + s) hi l2 /\ 0 <= b /\ b + s < 2 ^ 64.
Proof using R.
  destruct R as [(H1 & ? & ? & H2)%tiled_mid _ _ _ _ _ _ Hlo Hhi]. simpl in *.
  pose proof (tiled_le _ _ _ _ H1). pose proof (tiled_le _ _ _ _ H2). split_and!; try done; lia.
Qed.

Lemma merge_size_b : bsize st b = s.
Proof using R. eapply store_rep_bsize; [apply (fr_stored _ _ _ _ _ _ _ R)|]. apply elem_of_app. right. left. Qed.

Lemma merge_size_l c k g : Tile c k g ∈ l1 -> bsize st c = k.
Proof using R.
  intros Hc. eapply store_rep_bsize; [apply (fr_stored _ _ _ _ _ _ _ R)|]. apply elem_of_app. by left.
Qed.

Lemma merge_size_r c k g : Tile c k g ∈ l2 -> bsize st c = k.
Proof using R.
  intros Hc. eapply store_rep_bsize; [apply (fr_stored _ _ _ _ _ _ _ R)|].
  apply elem_of_app. right. by right.
Qed.

Lemma merge_M : fm = frees l1 ++ b :: frees l2.
Proof using R. exact (fr_Ml _ _ _ _ _ _ _ R). Qed.

Lemma merge_prev : prevFreeM b fm = list.last (frees l1).
Proof using R.
  destruct merge_parts as (H1 & Hs & H2 & _). rewrite merge_M. apply prevFreeM_app.
  - by eapply tiled_notin_l.
  - intros [k Hk]%elem_of_frees. tile_mem. lia.
Qed.

Lemma merge_next : nextFreeM b fm = head (frees l2).
Proof using R.
  destruct merge_parts as (H1 & Hs & H2 & _). rewrite merge_M. apply nextFreeM_app.
  by eapply tiled_notin_l.
Qed.

Lemma merge_left_idle : last_free l1 = false -> merge_left f = f.
Proof using R.
  intros Hl. simpl. rewrite merge_prev. destruct (list.last (frees l1)) as [d|] eqn:Ed; [|done].
  destruct merge_parts as (H1 & Hs & H2 & Hb & Hbs).
  pose proof merge_size_l as SL. pose proof (fr_lo _ _ _ _ _ _ _ R) as Hlo.
  destruct l1 as [|t l1' _] using rev_ind; [done|]. unfold last_free in Hl.
  rewrite last_snoc in Hl. simpl in Hl. destruct t as [c sc fc]. simpl in Hl. subst fc.
  rewrite frees_gap, app_nil_r in Ed.
  assert (d ∈ frees l1') as [sd Hd]%elem_of_frees.
  { apply last_Some in Ed as [k ->]. apply elem_of_app. right. left. }
  rewrite (SL d sd true) by (apply elem_of_app; by left).
  apply tiled_mid in H1 as (H1 & Hc & _ & Hcb). simpl in Hcb. tile_mem. subst.
  pose proof (tiled_le _ _ _ _ H1).
  rewrite u64_small by lia. rewrite (proj2 (Z.eqb_neq _ _)); [done|lia].
Qed.

Lemma merge_right_idle : head_free l2 = false -> merge_right f = f.
Proof using R.
  intros Hl. simpl. rewrite merge_next. destruct (head (frees l2)) as [d|] eqn:Ed; [|done].
  destruct merge_parts as (H1 & Hs & H2 & Hb & Hbs).
  rewrite merge_size_b.
  destruct l2 as [|[c sc fc] l2']; [done|]. cbn in Hl. subst fc. rewrite frees_cons in Ed. simpl in Ed.
  assert (d ∈ frees l2') as [sd Hd]%elem_of_frees.
  { destruct (frees l2'); simplify_eq/=. left. }
  simpl in H2. destruct H2 as (-> & Hc & _ & H2). tile_mem.
  rewrite u64_small by lia. rewrite (proj2 (Z.eqb_neq _ _)); [done|lia].
Qed.
End Merge.

Lemma coalesced_true_head l : coalesced true l -> head_free l = false.
Proof. destruct l as [|t l]; simpl; [done|]. by intros [? _]. Qed.

Lemma frees_snoc l c s : frees (l ++ [Tile c s true]) = frees l ++ [c].
Proof. by rewrite frees_mid. Qed.

Section MergeLeft.
Context (ba lo hi : Z) (st : gmap Z Z) (fs fm : list Z) (b : Z).
Context (l1 : list tile) (c sc s : Z) (l2 : list tile).
Context (R : freeing_rep ba lo hi (Freeing st fs fm b) (l1 ++ [Tile c sc true]) s l2).

Lemma left_parts :
  tiled ba lo c l1 /\ 0 < sc /\ b = c + sc /\ 0 < s /\ tiled ba (b + s) hi l2 /\ 0 <= c /\ b + s < 2 ^ 64.
Proof using R.
  destruct (merge_parts _ _ _ _ _ _ _ _ _ _ R) as (H1 & ? & H2 & ? & ?).
  apply tiled_mid in H1 as (H1 & ? & _ & Hend). simpl in Hend.
  pose proof (tiled_le _ _ _ _ H1). pose proof (fr_lo _ _ _ _ _ _ _ R). split_and!; try done; lia.
Qed.

Lemma merge_left_eq :
  merge_left (Freeing st fs fm b) =
  Freeing (delete b (<[c := sc + s]> st)) (unlink c fs) (frees l1 ++ c :: frees l2) c.
Proof using R.
  destruct left_parts as (H1 & Hsc & Hb & Hs & H2 & Hc & Hhi).
  simpl. rewrite (merge_prev _ _ _ _ _ _ _ _ _ _ R), frees_snoc. simpl.
  rewrite last_snoc, (merge_size_b _ _ _ _ _ _ _ _ _ _ R).
  rewrite (merge_size_l _ _ _ _ _ _ _ _ _ _ R c sc true) by (apply elem_of_app; right; left).
  rewrite (u64_small (c + sc)), (u64_small (sc + s)), <- Hb, Z.eqb_refl by lia. f_equal.
  rewrite (merge_M _ _ _ _ _ _ _ _ _ _ R), unlink_app.
  - by rewrite frees_snoc, <- app_assoc.
  - eapply tiled_notin_l, (merge_parts _ _ _ _ _ _ _ _ _ _ R).
Qed.

Lemma left_S : unlink c fs ≡ₚ frees l1 ++ frees l2.
Proof using R.
  pose proof (fr_Sl _ _ _ _ _ _ _ R) as P. simpl in P. rewrite frees_snoc, <- app_assoc in P. simpl in P.
  apply (Permutation_cons_inv (a := c)). rewrite <- unlink_perm.
  - by rewrite P, Permutation_middle.
  - rewrite P. apply elem_of_app. right. left.
Qed.

Lemma merge_left_rep :
  freeing_rep ba lo hi (merge_left (Freeing st fs fm b)) l1 (sc + s) l2 /\ last_free l1 = false.
Proof using R.
  destruct left_parts as (H1 & Hsc & Hb & Hs & H2 & Hc & Hhi). rewrite merge_left_eq.
  destruct R as [T ST _ _ Hord C1 C2 Hlo Hhi']. cbn [fr_block fr_store fr_M fr_S] in *.
  rewrite <- app_assoc in T, ST. cbn [app] in T, ST.
  apply coalesced_app in C1 as [C1 [C1' _]]. split; [|by rewrite andb_true_r in C1'].
  constructor; cbn [fr_block fr_store fr_M fr_S]; try done.
  - apply tiled_mid in T as (_ & _ & D & _ & _ & D' & _). cbn [t_size] in *. apply tiled_mid.
    split_and!; [done|lia|by apply Z.divide_add_r|]. by replace (c + (sc + s)) with (b + s) by lia.
  - eapply store_rep_merge; done.
  - apply left_S.
  - apply by_size_merge; [| |done]; rewrite left_S;
      intros [[k Hk]%elem_of_frees|[k Hk]%elem_of_frees]%elem_of_app; tile_mem; lia.
Qed.
End MergeLeft.

Section MergeRight.
Context (ba lo hi : Z) (st : gmap Z Z) (fs fm : list Z) (b : Z).
Context (l1 : list tile) (s c sc : Z) (l2 : list tile).
Context (R : freeing_rep ba lo hi (Freeing st fs fm b) l1 s (Tile c sc true :: l2)).

Lemma right_parts :
  tiled ba lo b l1 /\ 0 < s /\ c = b + s /\ 0 < sc /\ tiled ba (c + sc) hi l2 /\ 0 <= b /\ c + sc < 2 ^ 64.
Proof using R.
  destruct (merge_parts _ _ _ _ _ _ _ _ _ _ R) as (H1 & ? & (Hend & ? & _ & H2) & ? & ?). cbn [t_addr t_size] in *.
  subst c. pose proof (tiled_le _ _ _ _ H2). pose proof (fr_hi _ _ _ _ _ _ _ R). split_and!; try done; lia.
Qed.

Lemma merge_right_eq :
  merge_right (Freeing st fs fm b) =
  Freeing (delete c (<[b := s + sc]> st)) (unlink c fs) (frees l1 ++ b :: frees l2) b.
Proof using R.
  destruct right_parts as (H1 & Hs & Hc & Hsc & H2 & Hb & Hhi).
  simpl. rewrite (merge_next _ _ _ _ _ _ _ _ _ _ R), frees_cons. simpl.
  rewrite (merge_size_b _ _ _ _ _ _ _ _ _ _ R).
  rewrite (merge_size_r _ _ _ _ _ _ _ _ _ _ R c sc true) by left.
  rewrite (u64_small (b + s)), (u64_small (s + sc)), <- Hc, Z.eqb_refl by lia. f_equal.
  rewrite (merge_M _ _ _ _ _ _ _ _ _ _ R), frees_cons. simpl.
  change (b :: c :: frees l2) with ([b] ++ c :: frees l2). rewrite app_assoc, unlink_app; [by rewrite <- app_assoc|].
  intros [[k Hk]%elem_of_frees|Hk]%elem_of_app; [tile_mem; lia|].
  apply list_elem_of_singleton in Hk. lia.
Qed.

Lemma right_S : unlink c fs ≡ₚ frees l1 ++ frees l2.
Proof using R.
  pose proof (fr_Sl _ _ _ _ _ _ _ R) as P. simpl in P. rewrite frees_cons in P. simpl in P.
  apply (Permutation_cons_inv (a := c)). rewrite <- unlink_perm.
  - by rewrite P, Permutation_middle.
  - rewrite P. apply elem_of_app. right. left.
Qed.

Lemma merge_right_rep :
  freeing_rep ba lo hi (merge_right (Freeing st fs fm b)) l1 (s + sc) l2 /\ head_free l2 = false.
Proof using R.
  destruct right_parts as (H1 & Hs & Hc & Hsc & H2 & Hb & Hhi). rewrite merge_right_eq.
  destruct R as [T ST _ _ Hord C1 C2 Hlo Hhi']. cbn [fr_block fr_store fr_M fr_S] in *.
  destruct C2 as [_ C2]. cbn [t_free] in C2. split; [|by apply coalesced_true_head].
  constructor; cbn [fr_block fr_store fr_M fr_S]; try done.
  - apply tiled_mid in T as (_ & _ & D & _ & _ & D' & _). cbn [t_size] in *. apply tiled_mid.
    split_and!; [done|lia|by apply Z.divide_add_r|]. by replace (b + (s + sc)) with (c + sc) by lia.
  - eapply store_rep_merge; done.
  - apply right_S.
  - eapply by_size_ext, by_size_unlink, Hord. intros d Hd. rewrite right_S in Hd. unfold bsize.
    apply elem_of_app in Hd as [[k Hk]%elem_of_frees|[k Hk]%elem_of_frees]; tile_mem;
      rewrite lookup_delete_ne, lookup_insert_ne by lia; done.
  - by eapply coalesced_false.
Qed.
End MergeRight.

(** Both merges: the block freed has used neighbours afterwards. *)
Lemma merge_left_settles ba lo hi f l1 s l2 :
  freeing_rep ba lo hi f l1 s l2 ->
  exists l1' s', freeing_rep ba lo hi (merge_left f) l1' s' l2 /\ useds l1' = useds l1 /\ last_free l1' = false.
Proof.
  destruct f as [st fs fm b]. intros R. destruct (last_free l1) eqn:E.
  - destruct l1 as [|[c sc fc] l1' _] using rev_ind; [done|].
    unfold last_free in E. rewrite last_snoc in E. simpl in E. subst fc.
    destruct (merge_left_rep _ _ _ _ _ _ _ _ _ _ _ _ R) as [R' E].
    exists l1', (sc + s). by rewrite useds_mid, app_nil_r.
  - exists l1, s. by rewrite (merge_left_idle _ _ _ _ _ _ _ _ _ _ R E).
Qed.

Lemma merge_right_settles ba lo hi f l1 s l2 :
  freeing_rep ba lo hi f l1 s l2 ->
  exists l2' s', freeing_rep ba lo hi (merge_right f) l1 s' l2' /\ useds l2' = useds l2 /\ head_free l2' = false.
Proof.
  destruct f as [st fs fm b]. intros R. destruct (head_free l2) eqn:E.
  - destruct l2 as [|[c sc fc] l2']; [done|]. cbn in E. subst fc.
    destruct (merge_right_rep _ _ _ _ _ _ _ _ _ _ _ _ R) as [R' E].
    exists l2', (s + sc). by rewrite useds_cons.
  - exists l2, s. by rewrite (merge_right_idle _ _ _ _ _ _ _ _ _ _ R E).
Qed.

Lemma coalesced_settled l1 b s l2 :
  coalesced false l1 -> coalesced false l2 -> last_free l1 = false -> head_free l2 = false ->
  coalesced false (l1 ++ Tile b s true :: l2).
Proof.
  intros C1 C2 E1 E2. apply coalesced_app. split; [done|]. unfold last_free in E1. rewrite E1.
  split; [done|]. simpl. destruct l2 as [|t l2]; [done|]. cbn in E2. destruct C2 as [_ C2].
  split; [by rewrite E2 | done].
Qed.

Lemma freeing_start p l1 b s l2 :
  page_rep p (l1 ++ Tile b s false :: l2) ->
  freeing_rep (pg_blockAlign p) (pg_addr p) (pg_addr p + pg_size p)
    (Freeing (pg_store p) (freeSList p) (insertFreeMList b (freeMList p)) b) l1 s l2.
Proof.
  intros [T C St EM ES O EU A Hlo Hhi].
  pose proof T as (H1 & Hs & _ & H2)%tiled_mid. apply coalesced_app in C as [C1 C2].
  constructor; simpl; try done.
  - apply tiled_mid. by apply tiled_mid in T.
  - by eapply store_rep_flag.
  - rewrite EM, frees_gap. apply insert_after_app.
    + eapply list.Forall_impl; [exact (frees_below _ _ _ _ H1)|]. intros c Hc. by apply Z.ltb_lt.
    + eapply list.Forall_impl; [exact (frees_above _ _ _ _ H2)|]. intros c Hc. simpl in Hc. apply Z.ltb_ge. lia.
  - by rewrite ES, frees_gap.
  - destruct C2 as [_ C2]. by eapply coalesced_false.
Qed.

Lemma page_release_rep p l1 b s l2 :
  page_rep p (l1 ++ Tile b s false :: l2) ->
  exists l, page_rep (page_release p b) l /\ useds l = useds l1 ++ useds l2.
Proof.
  intros R. destruct (merge_left_settles _ _ _ _ _ _ _ (freeing_start _ _ _ _ _ R)) as (l1' & s1 & R1 & U1 & E1).
  destruct (merge_right_settles _ _ _ _ _ _ _ R1) as (l2' & s2 & R2 & U2 & E2).
  unfold page_release. destruct (merge_right _) as [st fs fm c] eqn:Ef.
  exists (l1' ++ Tile c s2 true :: l2'). rewrite useds_mid, U1, U2. split; [|done].
  destruct R2 as [T St EM ES O C1 C2 Hlo Hhi]. simpl in *.
  constructor; simpl; try apply R; try done.
  - by apply coalesced_settled.
  - by rewrite EM, frees_mid.
  - unfold insertFreeSList. by rewrite insert_after_perm, ES, frees_mid, Permutation_middle.
  - by apply by_size_insert.
  - pose proof (pr_used _ _ R) as U. rewrite useds_gap, fmap_app in U. simpl in U.
    apply (Permutation_cons_inv (a := b)). rewrite <- unlink_perm.
    + by rewrite U, useds_mid, U1, U2, fmap_app, Permutation_middle.
    + rewrite U. apply elem_of_app. right. left.
Qed.

(** ** Searching a page *)

Lemma fit_walk_spec st size b l :
  by_size st (b :: l) -> size <= bsize st b ->
  fit_walk st size b l ∈ b :: l /\ size <= bsize st (fit_walk st size b l) /\
  forall c, c ∈ b :: l -> size <= bsize st c -> bsize st (fit_walk st size b l) <= bsize st c.
Proof.
  revert b. induction l as [|n l IH]; intros b Hl Hb; simpl.
  - split_and!; [left|done|]. by intros c ->%list_elem_of_singleton.
  - apply StronglySorted_inv in Hl as [Hl Hn]. rewrite list.Forall_forall in Hn.
    destruct (Z.leb_spec size (bsize st n)) as [Hs|Hs].
    + destruct (IH n Hl Hs) as (I1 & I2 & I3). split_and!; [by right|done|].
      intros c [->|Hc]%list.elem_of_cons; [|auto]. intros _. etrans; [apply I3; [left|done]|apply Hn; left].
    + split_and!; [left|done|]. intros c [->|Hc]%list.elem_of_cons Hc'; [done|].
      apply StronglySorted_inv in Hl as [_ Hl]. rewrite list.Forall_forall in Hl.
      apply list.elem_of_cons in Hc as [->|Hc]; [lia|]. specialize (Hl _ Hc). lia.
Qed.

(** Best fit: the smallest free block of the page that is large enough. *)
Lemma findFreeBlock_spec p l size :
  page_rep p l ->
  match findFreeBlock p size with
  | Some b => exists s, Tile b s true ∈ l /\ size <= s /\
                forall c s', Tile c s' true ∈ l -> size <= s' -> s <= s'
  | None => forall c s', Tile c s' true ∈ l -> s' < size
  end.
Proof.
  intros R. pose proof (pr_sorted _ _ R) as O. pose proof (pr_S _ _ R) as P. pose proof (pr_store _ _ R) as St.
  assert (forall c s, Tile c s true ∈ l -> c ∈ freeSList p /\ bsize (pg_store p) c = s) as F.
  { intros c s Hc. split; [|by eapply store_rep_bsize]. rewrite P. apply elem_of_frees. eauto. }
  unfold findFreeBlock. destruct (freeSList p) as [|b fs].
  { intros c s' [Hc _]%F. by apply elem_of_nil in Hc. }
  destruct (Z.leb_spec size (bsize (pg_store p) b)) as [Hs|Hs].
  - destruct (fit_walk_spec _ _ _ _ O Hs) as (I1 & I2 & I3). rewrite P in I1.
    apply elem_of_frees in I1 as [s Hb]. destruct (F _ _ Hb) as [_ E]. rewrite E in *.
    exists s. split_and!; [done|done|]. intros c s' [Hc <-]%F. by apply I3.
  - apply StronglySorted_inv in O as [_ O]. rewrite list.Forall_forall in O.
    intros c s' [Hc <-]%F. apply list.elem_of_cons in Hc as [->|Hc]; [done|]. specialize (O _ Hc). lia.
Qed.

Lemma find_eqb (l : list Z) a :
  List.find (fun b => b =? a) l = if bool_decide (a ∈ l) then Some a else None.
Proof.
  induction l as [|b l IH]; simpl; [done|]. rewrite IH. destruct (Z.eqb_spec b a) as [->|].
  - by rewrite bool_decide_true by left.
  - apply (f_equal (fun b : bool => if b then Some a else None)), bool_decide_ext. set_solver.
Qed.

Lemma findUsedBlock_spec p l a :
  page_rep p l ->
  match findUsedBlock p a with
  | Some b => b = a /\ Tile a (bsize (pg_store p) a) false ∈ l
  | None => forall s, Tile a s false ∉ l
  end.
Proof.
  intros R. pose proof (pr_used _ _ R) as P. pose proof (pr_tiled _ _ R) as T.
  assert (forall s, Tile a s false ∈ l -> a ∈ usedList p /\ pg_addr p <= a < pg_addr p + pg_size p) as F.
  { intros s Hs. split; [|tile_mem; lia]. rewrite P. apply list_elem_of_fmap. exists (a, s).
    split; [done|]. by apply elem_of_useds. }
  unfold findUsedBlock. pose proof (pr_lo _ _ R). pose proof (pr_hi _ _ R). pose proof (tiled_le _ _ _ _ T).
  rewrite u64_small by lia.
  destruct (Z.leb_spec (pg_addr p) a), (Z.ltb_spec a (pg_addr p + pg_size p)); simpl;
    try by (intros s [_ ?]%F; lia).
  rewrite find_eqb. case_bool_decide as Ha; [|by intros s [? _]%F].
  split; [done|]. rewrite P in Ha. apply list_elem_of_fmap in Ha as ([b s] & -> & Hb%elem_of_useds).
  simpl. by rewrite (store_rep_bsize _ _ _ _ _ (pr_store _ _ R) Hb).
Qed.

(** ** Rounding sizes *)

Definition round_up (n a : Z) : Z := (n + a - 1) / a * a.

Lemma round_up_bounds n a : 0 < a -> n <= round_up n a < n + a.
Proof.
  intros. unfold round_up. pose proof (Z.div_mod (n + a - 1) a). pose proof (Z.mod_pos_bound (n + a - 1) a). lia.
Qed.

Lemma round_up_divide n a : (a | round_up n a).
Proof. apply Z.divide_factor_r. Qed.

Lemma round_up_le n a c : 0 < a -> n <= c -> (a | c) -> round_up n a <= c.
Proof.
  intros Ha Hn [k ->]. unfold round_up. apply Z.mul_le_mono_nonneg_r; [lia|].
  apply Z.lt_succ_r, Z.div_lt_upper_bound; lia.
Qed.

Lemma alignSize_pow2 n k :
  0 <= k <= 31 -> 0 <= n -> n + 2 ^ k < 2 ^ 64 -> alignSize n (2 ^ k) = Some (round_up n (2 ^ k)).
Proof.
  intros Hk Hn Hs. unfold alignSize.
  assert (0 < 2 ^ k) by lia. assert (2 ^ k <= 2 ^ 31) by (apply Z.pow_le_mono_r; lia).
  rewrite (u64_small (2 ^ k - 1)) by lia.
  rewrite (u64_small (n + 2 ^ k - 1)) by lia.
  replace (Z.land (2 ^ k) (2 ^ k - 1)) with 0; [simpl|].
  - f_equal. rewrite land_lnot_low by lia. unfold round_up.
    pose proof (Z.div_mod (n + 2 ^ k - 1) (2 ^ k)). lia.
  - rewrite Z.sub_1_r, <- Z.ones_equiv, Z.land_ones by lia. by rewrite Z.mod_same by lia.
Qed.

(** ** The page list *)

Fixpoint pages_rep (ba lo hi : Z) (ps : list page_t) (ls : list (list tile)) : Prop :=
  match ps, ls with
  | [], [] => lo <= hi
  | p :: ps', l :: ls' =>
      lo <= pg_addr p /\ page_rep p l /\ pg_blockAlign p = ba /\ (ba | pg_addr p) /\ useds l <> [] /\
      pages_rep ba (pg_addr p + pg_size p) hi ps' ls'
  | _, _ => False
  end.

Definition live (ls : list (list tile)) : list (Z * Z) := ls ≫= useds.

Lemma live_app ls1 ls2 : live (ls1 ++ ls2) = live ls1 ++ live ls2.
Proof. apply bind_app. Qed.

Lemma page_rep_size p l : page_rep p l -> useds l <> [] -> 0 < pg_size p.
Proof.
  intros R U. pose proof (pr_tiled _ _ R) as T. destruct l as [|t l]; [done|].
  destruct T as (_ & ? & _ & H%tiled_le). lia.
Qed.

Lemma pages_rep_le ba lo hi ps ls : pages_rep ba lo hi ps ls -> lo <= hi.
Proof.
  revert lo ls. induction ps as [|p ps IH]; intros lo [|l ls]; simpl; try done.
  intros (? & R & _ & _ & U & ?%IH). pose proof (page_rep_size _ _ R U). lia.
Qed.

Lemma pages_rep_app ba lo hi ps1 ps2 ls :
  pages_rep ba lo hi (ps1 ++ ps2) ls <->
  exists mid ls1 ls2, ls = ls1 ++ ls2 /\ pages_rep ba lo mid ps1 ls1 /\ pages_rep ba mid hi ps2 ls2.
Proof.
  revert lo ls. induction ps1 as [|p ps1 IH]; intros lo ls; simpl.
  - split.
    + intros H. exists lo, [], ls. simpl. split_and!; [done|lia|done].
    + intros (mid & [|] & ls2 & -> & ? & H); [|done]. simpl. destruct ps2, ls2; simpl in *; try done; [lia|].
      split_and!; try apply H. lia.
  - destruct ls as [|l ls]; [split; [done|]|].
    + intros (mid & ls1 & ls2 & E & H & _). destruct ls1; [done|]. simplify_eq.
    + rewrite IH. split.
      * intros (? & ? & ? & ? & ? & mid & ls1 & ls2 & -> & ? & ?). exists mid, (l :: ls1), ls2. simpl. auto 10.
      * intros (mid & [|l' ls1] & ls2 & E & H & ?); [done|]. simplify_eq/=. destruct H as (?&?&?&?&?&?).
        split_and!; try done. eauto 10.
Qed.

Lemma pages_rep_widen ba lo lo' hi hi' ps ls :
  lo' <= lo -> hi <= hi' -> pages_rep ba lo hi ps ls -> pages_rep ba lo' hi' ps ls.
Proof.
  revert lo lo' ls. induction ps as [|p ps IH]; intros lo lo' [|l ls] ? ?; simpl; try done; [lia|].
  intros (?&?&?&?&?&?). split_and!; try done; [lia|]. eapply IH; [|done..]. done.
Qed.

Lemma pages_rep_in ba lo hi ps ls p :
  pages_rep ba lo hi ps ls -> p ∈ ps -> lo <= pg_addr p /\ 0 < pg_size p /\ pg_addr p + pg_size p <= hi.
Proof.
  revert lo ls. induction ps as [|q ps IH]; intros lo [|l ls]; simpl; try done.
  - by intros _ ?%elem_of_nil.
  - intros (?&R&_&_&U&H) [->|Hp]%list.elem_of_cons; pose proof (page_rep_size _ _ R U).
    + pose proof (pages_rep_le _ _ _ _ _ H). lia.
    + destruct (IH _ _ H Hp) as (?&?&?). lia.
Qed.

(** A range that no page touches splits the list. *)
Definition touches (p : page_t) (a n : Z) : Prop := a < pg_addr p + pg_size p /\ pg_addr p < a + n.

Lemma pages_split ba lo hi ps ls a n :
  pages_rep ba lo hi ps ls -> lo <= a -> a + n <= hi -> 0 < n -> (forall p, p ∈ ps -> ~ touches p a n) ->
  exists ps1 ps2 ls1 ls2, ps = ps1 ++ ps2 /\ ls = ls1 ++ ls2 /\
    pages_rep ba lo a ps1 ls1 /\ pages_rep ba (a + n) hi ps2 ls2.
Proof.
  revert lo ls. induction ps as [|p ps IH]; intros lo [|l ls] H Hlo Hhi Hn Hp; try done.
  - exists [], [], [], []. simpl. split_and!; done || lia.
  - pose proof H as (?&R&?&?&U&H'). pose proof (page_rep_size _ _ R U).
    assert (~ touches p a n) as Ht by (apply Hp; left). unfold touches in Ht.
    destruct (Z.le_gt_cases (pg_addr p + pg_size p) a).
    + destruct (IH _ _ H' ltac:(lia) Hhi Hn) as (ps1 & ps2 & ls1 & ls2 & -> & -> & ? & ?).
      { intros q Hq. apply Hp. by right. }
      exists (p :: ps1), ps2, (l :: ls1), ls2. simpl. split_and!; done || lia.
    + exists [], (p :: ps), [], (l :: ls). simpl. split_and!; done || lia.
Qed.

Lemma page_pos_app ba lo hi a n ps1 ps2 ls1 ls2 :
  0 < n -> pages_rep ba lo a ps1 ls1 -> pages_rep ba (a + n) hi ps2 ls2 ->
  page_pos a (ps1 ++ ps2) = length ps1.
Proof.
  intros Hn H1 H2.
  assert (forall p, p ∈ ps1 -> pg_addr p < a) as F1.
  { intros p Hp. destruct (pages_rep_in _ _ _ _ _ _ H1 Hp) as (?&?&?). lia. }
  assert (forall p, p ∈ ps2 -> a < pg_addr p) as F2.
  { intros p Hp. destruct (pages_rep_in _ _ _ _ _ _ H2 Hp) as (?&?&?). lia. }
  clear H1 H2.
  assert (forall ps, (forall p, p ∈ ps -> pg_addr p < a) -> page_skip a (ps ++ ps2) = length ps) as K.
  { induction ps as [|p ps IH]; intros F; simpl.
    - destruct ps2 as [|q ps2]; [done|]. simpl. rewrite (proj2 (Z.ltb_ge _ _)); [done|].
      specialize (F2 q ltac:(left)). lia.
    - rewrite (proj2 (Z.ltb_lt _ _)) by (apply F; left). f_equal. apply IH. intros. apply F. by right. }
  destruct ps1 as [|p ps1]; simpl.
  - destruct ps2 as [|q ps2]; [done|]. simpl. by rewrite (proj2 (Z.ltb_lt _ _)) by (apply F2; left).
  - rewrite (proj2 (Z.ltb_ge _ _)) by (specialize (F1 p ltac:(left)); lia). f_equal. apply K.
    intros q Hq. apply F1. by right.
Qed.

(** ** Gaps and overlaps *)

Lemma tiled_divide ba lo hi l : tiled ba lo hi l -> (ba | hi - lo).
Proof.
  revert lo. induction l as [|t l IH]; intros lo; simpl.
  - intros ->. rewrite Z.sub_diag. apply Z.divide_0_r.
  - intros (_ & _ & D & H%IH). replace (hi - lo) with (hi - (lo + t_size t) + t_size t) by lia.
    by apply Z.divide_add_r.
Qed.

Lemma next_gap_spec ba lo hi ps ls n :
  pages_rep ba lo hi ps ls -> 0 <= lo -> 0 < n -> hi + n < 2 ^ 64 -> (ba | lo) ->
  match next_gap hi n lo ps with
  | Some a => lo <= a /\ a + n <= hi /\ (ba | a) /\ forall p, p ∈ ps -> ~ touches p a n
  | None => forall a, lo <= a -> a + n <= hi -> exists p, p ∈ ps /\ touches p a n
  end.
Proof.
  revert lo ls. induction ps as [|p ps IH]; intros lo [|l ls] H Hlo Hn Hhi D; simpl; try done.
  - simpl in H. rewrite u64_small by lia. bool_cases.
    + split_and!; [lia|lia|done|]. by intros p ?%elem_of_nil.
    + lia.
  - pose proof (pages_rep_le _ _ _ _ _ H). destruct H as (?&R&Eb&Da&U&H).
    pose proof (page_rep_size _ _ R U). pose proof (pages_rep_le _ _ _ _ _ H).
    pose proof (tiled_divide _ _ _ _ (pr_tiled _ _ R)) as Ds. rewrite Eb in Ds.
    rewrite !u64_small by lia. destruct (Z.leb_spec (lo + n) (pg_addr p)).
    + split_and!; [lia|lia|done|]. unfold touches. intros q [->|Hq]%list.elem_of_cons; [lia|].
      destruct (pages_rep_in _ _ _ _ _ _ H Hq) as (?&?&?). lia.
    + specialize (IH _ _ H ltac:(lia) Hn Hhi ltac:(apply Z.divide_add_r; [done|by rewrite Z.add_simpl_l in Ds])). destruct (next_gap _ _ _ _) as [a|].
      * destruct IH as (? & ? & ? & IH). split_and!; [lia|lia|done|]. intros q [->|Hq]%list.elem_of_cons; [|auto].
        unfold touches. lia.
      * intros a Ha Ha'. destruct (Z.le_gt_cases (pg_addr p + pg_size p) a) as [Hp|Hp].
        -- destruct (IH a Hp Ha') as (q & ? & ?). exists q. split; [by right|done].
        -- exists p. split; [left|]. unfold touches. lia.
Qed.

Lemma hasPageOverlap_spec ba lo hi ps ls a n :
  pages_rep ba lo hi ps ls -> 0 <= lo -> hi < 2 ^ 64 -> 0 <= a + n < 2 ^ 64 ->
  hasPageOverlap ps a n = true <-> exists p, p ∈ ps /\ touches p a n.
Proof.
  intros H Hlo Hhi Ha. unfold hasPageOverlap. rewrite existsb_exists.
  assert (forall p, List.In p ps -> u64 (pg_addr p + pg_size p) = pg_addr p + pg_size p) as E.
  { intros p Hp. apply list_elem_of_In in Hp. destruct (pages_rep_in _ _ _ _ _ _ H Hp) as (?&?&?).
    apply u64_small. lia. }
  setoid_rewrite andb_true_iff. setoid_rewrite Z.ltb_lt. rewrite (u64_small (a + n)) by lia. unfold touches.
  split; intros (p & Hp & T); exists p.
  - rewrite E in T by done. by rewrite list_elem_of_In.
  - rewrite list_elem_of_In in Hp. by rewrite E.
Qed.

Lemma find_page_spec (f : page_t -> option Z) ps :
  match find_page f ps with
  | Some (i, b) => exists ps1 p ps2, ps = ps1 ++ p :: ps2 /\ i = length ps1 /\ f p = Some b /\
                     forall q, q ∈ ps1 -> f q = None
  | None => forall p, p ∈ ps -> f p = None
  end.
Proof.
  induction ps as [|p ps IH]; simpl; [by intros p ?%elem_of_nil|].
  destruct (f p) eqn:Ep.
  - exists [], p, ps. split_and!; try done. by intros q ?%elem_of_nil.
  - destruct (find_page f ps) as [[i b]|].
    + destruct IH as (ps1 & q & ps2 & -> & -> & ? & IH). exists (p :: ps1), q, ps2.
      split_and!; try done. intros r [->|Hr]%list.elem_of_cons; auto.
    + intros q [->|Hq]%list.elem_of_cons; auto.
Qed.

(** ** Accounting *)

Definition sum_sizes (L : list (Z * Z)) : Z := foldr (fun x n => x.2 + n) 0 L.

Lemma sum_sizes_app L1 L2 : sum_sizes (L1 ++ L2) = sum_sizes L1 + sum_sizes L2.
Proof. unfold sum_sizes. induction L1; simpl; lia. Qed.

#[global] Instance sum_sizes_perm : Proper (Permutation ==> eq) sum_sizes.
Proof. intros L1 L2 H. unfold sum_sizes. induction H; simpl; lia. Qed.

Lemma useds_sum ba lo hi l : tiled ba lo hi l -> 0 <= sum_sizes (useds l) <= hi - lo.
Proof.
  revert lo. induction l as [|[b s f] l IH]; intros lo; simpl; [unfold sum_sizes; simpl; lia|].
  intros (-> & ? & _ & H%IH). rewrite useds_cons. destruct f; simpl; lia.
Qed.

Lemma live_sum ba lo hi ps ls : pages_rep ba lo hi ps ls -> 0 <= sum_sizes (live ls) <= hi - lo.
Proof.
  revert lo ls. induction ps as [|p ps IH]; intros lo [|l ls]; simpl; try done.
  - unfold sum_sizes. simpl. lia.
  - intros (? & R & _ & _ & _ & H%IH). change (live (l :: ls)) with (useds l ++ live ls).
    rewrite sum_sizes_app. pose proof (useds_sum _ _ _ _ (pr_tiled _ _ R)). lia.
Qed.

(** Live blocks lie inside their page. *)
Lemma live_in ba lo hi ps ls c k :
  pages_rep ba lo hi ps ls -> (c, k) ∈ live ls -> lo <= c /\ c + k <= hi /\ 0 < k.
Proof.
  revert lo ls. induction ps as [|p ps IH]; intros lo [|l ls]; simpl; try done.
  - by intros _ ?%elem_of_nil.
  - intros (? & R & _ & _ & U & H). change (live (l :: ls)) with (useds l ++ live ls).
    pose proof (page_rep_size _ _ R U). pose proof (pages_rep_le _ _ _ _ _ H).
    intros [Hc|Hc]%elem_of_app.
    + apply elem_of_useds in Hc. pose proof (pr_tiled _ _ R). tile_mem. lia.
    + destruct (IH _ _ H Hc) as (?&?&?). lia.
Qed.

Lemma tiled_aligned ba lo hi l t : tiled ba lo hi l -> (ba | lo) -> t ∈ l -> (ba | t_addr t).
Proof.
  revert lo. induction l as [|u l IH]; intros lo; simpl; [by intros _ _ ?%elem_of_nil|].
  intros (<- & ? & ? & Hl) D [->|Ht]%list.elem_of_cons; [done|].
  eapply IH; [done|by apply Z.divide_add_r|done].
Qed.

(** ** The contract

    What the allocator promises of the list of live blocks, whatever its pages
    look like. *)

Definition room_for (base cap ba : Z) (L : list (Z * Z)) (a n : Z) : Prop :=
  base <= a /\ a + n <= base + cap /\ 0 < n /\ (ba | a) /\ (ba | n) /\
  forall b s, (b, s) ∈ L -> a + n <= b \/ b + s <= a.

Definition permitted (base cap pa ba : Z) (L : list (Z * Z)) (c : call) (r : ret) (L' : list (Z * Z)) : Prop :=
  match c, r with
  | CAllocate n, RAddr (Some a) =>
      0 < n /\ room_for base cap ba L a (round_up n ba) /\ L' ≡ₚ (a, round_up n ba) :: L
  | CAllocate _, RAddr None => L' = L
  | CReserve a n, RCode true =>
      0 < n /\ room_for base cap ba L a (round_up n pa) /\ L' ≡ₚ (a, round_up n pa) :: L
  | CReserve _ _, RCode false => L' = L
  | CRelease a, RCode true => exists s, L ≡ₚ (a, s) :: L'
  | CRelease a, RCode false => L' = L /\ forall s, (a, s) ∉ L
  | _, _ => False
  end.

Inductive trace (base cap pa ba : Z) : list (Z * Z) -> list call -> list ret -> list (Z * Z) -> Prop :=
| trace_nil L : trace base cap pa ba L [] [] L
| trace_cons L c r L' cs rs L'' :
    permitted base cap pa ba L c r L' -> trace base cap pa ba L' cs rs L'' ->
    trace base cap pa ba L (c :: cs) (r :: rs) L''.

(** The callers' side: sizes within the capacity, reservations that start in
    the range at a block boundary. *)
Definition call_ok (base cap ba : Z) (c : call) : Prop :=
  match c with
  | CAllocate n => 0 <= n <= cap
  | CReserve a n => 0 <= n <= cap /\ base <= a <= base + cap /\ (ba | a)
  | CRelease _ => True
  end.

Record config_ok (base cap pk bk : Z) : Prop := {
  co_bk : 0 <= bk <= pk;
  co_pk : pk <= 31;
  co_base : 0 <= base;
  co_cap : 0 < cap;
  co_cap_pages : (2 ^ pk | cap);
  co_base_blocks : (2 ^ bk | base);
  co_range : base + 2 * cap < 2 ^ 64
}.

Section Refinement.
Context (base cap pk bk : Z) (K : config_ok base cap pk bk).
Abbreviation pa := (2 ^ pk).
Abbreviation ba := (2 ^ bk).

Record alloc_rep (m : MemoryAllocator) (ls : list (list tile)) : Prop := {
  ar_base : baseAddress_ m = base;
  ar_cap : capacity_ m = cap;
  ar_pa : pageAlign_ m = pa;
  ar_ba : blockAlign_ m = ba;
  ar_pages : pages_rep ba base (base + cap) (pages_ m) ls;
  ar_allocated : allocated_ m = sum_sizes (live ls)
}.

Lemma conf_aligns : 0 < ba /\ ba <= pa /\ (ba | pa) /\ pa <= cap.
Proof using K.
  destruct K. split_and!; try lia.
  - apply Z.pow_le_mono_r; lia.
  - exists (2 ^ (pk - bk)). rewrite <- Z.pow_add_r by lia. f_equal. lia.
  - apply Z.divide_pos_le; [lia|done].
Qed.

Lemma align_block n : 0 <= n <= cap -> alignSize n ba = Some (round_up n ba).
Proof using K.
  intros. pose proof conf_aligns as (? & ? & D & ?).
  destruct K. apply alignSize_pow2; lia.
Qed.

Lemma align_page n : 0 <= n <= cap -> alignSize n pa = Some (round_up n pa).
Proof using K. intros. pose proof conf_aligns. destruct K. apply alignSize_pow2; lia. Qed.

Lemma round_block n : 0 < n <= cap -> 0 < round_up n ba <= cap /\ (ba | round_up n ba).
Proof using K.
  intros. pose proof conf_aligns as (? & ? & D & ?). pose proof (round_up_bounds n ba ltac:(lia)).
  split; [|apply round_up_divide]. split; [lia|]. apply round_up_le; [lia|lia|].
  etrans; [done|]. by destruct K.
Qed.

Lemma round_page n : 0 < n <= cap -> n <= round_up n pa <= cap /\ (ba | round_up n pa).
Proof using K.
  intros. pose proof conf_aligns as (? & ? & D & ?). pose proof (round_up_bounds n pa ltac:(lia)).
  split; [|etrans; [done|apply round_up_divide]]. split; [lia|]. apply round_up_le; [lia|lia|]. by destruct K.
Qed.

Lemma alloc_new_rep : alloc_rep (MemoryAllocator_new base cap pa ba) [].
Proof using K. constructor; try done. simpl. destruct K. lia. Qed.

(** Taking a block of one page. *)
Section TakeBlock.
Context (m : MemoryAllocator) (ps1 : list page_t) (p : page_t) (ps2 : list page_t).
Context (ls1 ls2 : list (list tile)) (lo : Z) (l1 : list tile) (b s : Z) (l2 : list tile) (n : Z).
Context (Em : baseAddress_ m = base /\ capacity_ m = cap /\ pageAlign_ m = pa /\ blockAlign_ m = ba).
Context (H1 : pages_rep ba base lo ps1 ls1) (Hlo : lo <= pg_addr p) (Hp : page_rep p (l1 ++ Tile b s true :: l2)).
Context (Eb : pg_blockAlign p = ba) (Da : (ba | pg_addr p)).
Context (H2 : pages_rep ba (pg_addr p + pg_size p) (base + cap) ps2 ls2).
Context (Hn : 0 < n <= s) (Dn : (ba | n)).
Abbreviation L := (live ls1 ++ useds (l1 ++ Tile b s true :: l2) ++ live ls2).
Context (Hall : allocated_ m = sum_sizes L).
Abbreviation m' := (set_pages m (ps1 ++ page_allocate p n b :: ps2) (allocated_ m + n)).

Lemma take_live : live (ls1 ++ carved l1 b n s l2 :: ls2) ≡ₚ (b, n) :: L.
Proof.
  rewrite live_app. change (live (?l :: ls2)) with (useds l ++ live ls2).
  rewrite carved_useds, useds_mid, <- !app_assoc. simpl.
  by rewrite <- (Permutation_middle (useds l1)), <- (Permutation_middle (live ls1)).
Qed.

Lemma take_pages : pages_rep ba base (base + cap) (ps1 ++ page_allocate p n b :: ps2) (ls1 ++ carved l1 b n s l2 :: ls2).
Proof using H1 Hlo Hp Eb Da H2 Hn Dn.
  apply pages_rep_app. exists lo, ls1, (carved l1 b n s l2 :: ls2). split_and!; [done..|]. simpl.
  pose proof (page_allocate_rep p l1 b s l2 n Hp Hn ltac:(by rewrite Eb)) as R.
  assert (forall (P : page_t -> Z), P = pg_addr \/ P = pg_size \/ P = pg_blockAlign -> P (page_allocate p n b) = P p) as E.
  { intros P HP. unfold page_allocate. destruct (_ <=? _); destruct HP as [->|[->| ->]]; done. }
  rewrite !E by auto. split_and!; try done. rewrite carved_useds. by destruct (useds l1).
Qed.

Lemma take_room : room_for base cap ba L b n.
Proof using pk H1 Hlo Hp Da H2 Hn Dn Eb.
  pose proof (pr_tiled _ _ Hp) as T. pose proof T as (T1 & _ & _ & T2)%tiled_mid.
  pose proof (tiled_le _ _ _ _ T1). pose proof (tiled_le _ _ _ _ T2).
  pose proof (pages_rep_le _ _ _ _ _ H1). pose proof (pages_rep_le _ _ _ _ _ H2).
  split_and!; try done; try lia.
  - rewrite Eb in T. apply (tiled_aligned _ _ _ _ (Tile b s true) T); [done|]. apply elem_of_app. right. left.
  - intros c k. rewrite useds_mid. intros [Hc|[[Hc|Hc]%elem_of_app|Hc]%elem_of_app]%elem_of_app.
    + pose proof (live_in _ _ _ _ _ _ _ H1 Hc). lia.
    + apply elem_of_useds in Hc. tile_mem. lia.
    + apply elem_of_useds in Hc. tile_mem. lia.
    + pose proof (live_in _ _ _ _ _ _ _ H2 Hc). lia.
Qed.

Lemma take_block_step :
  take_block m (ps1 ++ p :: ps2) (length ps1) (Some b) n = Some (Some b, m') /\
  alloc_rep m' (ls1 ++ carved l1 b n s l2 :: ls2).
Proof using K Em H1 Hlo Hp Eb Da H2 Hn Dn Hall.
  pose proof take_pages as P. pose proof (live_sum _ _ _ _ _ P) as Hs. rewrite take_live in Hs. simpl in Hs.
  assert (u64 (allocated_ m + n) = allocated_ m + n) as E.
  { apply u64_small. rewrite Hall. destruct K, (live_sum _ _ _ _ _ H1), (live_sum _ _ _ _ _ H2).
    rewrite !sum_sizes_app in *. pose proof (useds_sum _ _ _ _ (pr_tiled _ _ Hp)). lia. }
  split.
  - unfold take_block. rewrite list_lookup_middle by done. simpl. rewrite E. do 3 f_equal.
    by rewrite insert_app_r_alt, Nat.sub_diag by done.
  - constructor; try apply Em; [done|]. simpl. rewrite take_live, Hall. simpl. lia.
Qed.
End TakeBlock.

Lemma ar_fields m ls :
  alloc_rep m ls -> baseAddress_ m = base /\ capacity_ m = cap /\ pageAlign_ m = pa /\ blockAlign_ m = ba.
Proof. by intros []. Qed.

(** A block of a page already there. *)
Lemma old_page_step m ls i b n :
  alloc_rep m ls -> 0 < n -> (ba | n) ->
  find_page (fun p => findFreeBlock p n) (pages_ m) = Some (i, b) ->
  exists m' ls', take_block m (pages_ m) i (Some b) n = Some (Some b, m') /\ alloc_rep m' ls' /\
    room_for base cap ba (live ls) b n /\ live ls' ≡ₚ (b, n) :: live ls.
Proof using K.
  intros R Hn Dn Ef. pose proof (find_page_spec (fun p => findFreeBlock p n) (pages_ m)) as F. rewrite Ef in F.
  destruct F as (ps1 & p & ps2 & Ep & -> & Eb & _). pose proof (ar_pages _ _ R) as P.
  rewrite Ep in P. apply pages_rep_app in P as (mid & ls1 & ls2 & -> & P1 & P2).
  destruct ls2 as [|l ls2]; [done|]. destruct P2 as (? & Rp & Ea & Da & U & P2).
  pose proof (findFreeBlock_spec p l n Rp) as Sp. rewrite Eb in Sp. destruct Sp as (s & Hb & Hs & _).
  apply list_elem_of_split in Hb as (l1 & l2 & ->).
  pose proof (ar_allocated _ _ R) as A. rewrite live_app in *. change (live (?l :: ls2)) with (useds l ++ live ls2) in *.
  destruct (take_block_step m ps1 p ps2 ls1 ls2 mid l1 b s l2 n) as [E R']; try done; [by eapply ar_fields|].
  eexists _, _. rewrite Ep. split_and!; [done|done| |apply take_live].
  by eapply (take_room ps1 p ps2 ls1 ls2 mid).
Qed.

(** A block at the start of a page made for it. *)
Lemma new_page_step m ls a N n :
  alloc_rep m ls -> 0 < n <= N -> (ba | n) -> (ba | N) -> (ba | a) -> base <= a -> a + N <= base + cap ->
  (forall p, p ∈ pages_ m -> ~ touches p a N) ->
  exists m' ls',
    (let '(ps, i) := createPage m a N in take_block m ps i (p ← ps !! i; findFreeBlock p n) n) = Some (Some a, m') /\
    alloc_rep m' ls' /\ room_for base cap ba (live ls) a n /\ live ls' ≡ₚ (a, n) :: live ls.
Proof using K.
  intros R Hn Dn DN Da Ha HaN Ht. pose proof conf_aligns as (? & _).
  destruct (pages_split _ _ _ _ _ a N (ar_pages _ _ R) Ha HaN ltac:(lia) Ht)
    as (ps1 & ps2 & ls1 & ls2 & Ep & -> & P1 & P2).
  unfold createPage. rewrite Ep, (page_pos_app _ _ _ a N _ _ _ _ ltac:(lia) P1 P2), (ar_ba _ _ R).
  rewrite take_app_length, drop_app_length, list_lookup_middle by done. bind_simpl.
  assert (page_rep (page_new a N ba) ([] ++ Tile a N true :: [])) as Rp.
  { destruct K. apply page_new_rep; done || lia. }
  assert (findFreeBlock (page_new a N ba) n = Some a) as ->.
  { unfold findFreeBlock. simpl. unfold bsize. rewrite lookup_singleton_eq. simpl.
    by rewrite (proj2 (Z.leb_le n N)) by lia. }
  pose proof (ar_allocated _ _ R) as A. rewrite live_app in *.
  destruct (take_block_step m ps1 (page_new a N ba) ps2 ls1 ls2 a [] a N [] n) as [E R'];
    try done; [by eapply ar_fields|].
  eexists _, _. split_and!; [done|done| |apply take_live].
  by eapply (take_room ps1 (page_new a N ba) ps2 ls1 ls2 a [] a N []).
Qed.

Lemma findNextAddress_spec m ls N :
  alloc_rep m ls -> 0 < N <= cap ->
  match findNextAddress m N with
  | Some a => base <= a /\ a + N <= base + cap /\ (ba | a) /\ forall p, p ∈ pages_ m -> ~ touches p a N
  | None => forall a, base <= a -> a + N <= base + cap -> exists p, p ∈ pages_ m /\ touches p a N
  end.
Proof using K.
  intros R HN. pose proof (ar_pages _ _ R) as P. destruct K. unfold findNextAddress.
  rewrite (ar_base _ _ R), (ar_cap _ _ R), u64_small by lia.
  pose proof (next_gap_spec _ _ _ _ _ N P ltac:(lia) ltac:(lia) ltac:(lia) ltac:(done)) as G.
  destruct (pages_ m); [|done]. simpl in *. split_and!; [lia|lia|done|]. by intros p ?%elem_of_nil.
Qed.

Lemma allocate_step m ls n :
  alloc_rep m ls -> 0 <= n <= cap ->
  exists r m' ls', allocate m n = Some (r, m') /\ alloc_rep m' ls' /\
    permitted base cap pa ba (live ls) (CAllocate n) (RAddr r) (live ls').
Proof using K.
  intros R Hn. unfold allocate. destruct (Z.eqb_spec n 0) as [->|Hn0]; [by exists None, m, ls|].
  rewrite (ar_ba _ _ R), align_block by done. bind_simpl.
  destruct (round_block n ltac:(lia)) as [Hb Db]. destruct (round_page _ Hb) as [HN DN].
  destruct (find_page _ _) as [[i b]|] eqn:Ef.
  - destruct (old_page_step _ _ _ _ _ R (proj1 Hb) Db Ef) as (m' & ls' & E & R' & Ro & Lv).
    exists (Some b), m', ls'. split_and!; try done. simpl. split_and!; done || lia.
  - rewrite (ar_pa _ _ R), align_page by lia. bind_simpl.
    pose proof (findNextAddress_spec m ls (round_up (round_up n ba) pa) R ltac:(lia)) as G.
    destruct (findNextAddress _ _) as [a|]; [|by exists None, m, ls].
    destruct G as (G1 & G2 & G3 & G4).
    destruct (new_page_step m ls a (round_up (round_up n ba) pa) (round_up n ba) R ltac:(lia) Db DN G3 G1 G2 G4) as (m' & ls' & E & R' & Ro & Lv).
    exists (Some a), m', ls'. split_and!; try done. simpl. split_and!; done || lia.
Qed.

Lemma reserve_step m ls a n :
  alloc_rep m ls -> call_ok base cap ba (CReserve a n) ->
  exists r m' ls', reserve m a n = Some (r, m') /\ alloc_rep m' ls' /\
    permitted base cap pa ba (live ls) (CReserve a n) (RCode r) (live ls').
Proof using K.
  intros R (Hn & Ha & Da). unfold reserve. destruct (Z.eqb_spec n 0) as [->|Hn0]; [by exists false, m, ls|].
  rewrite (ar_pa _ _ R), align_page by done. bind_simpl.
  destruct (round_page n ltac:(lia)) as [HN DN]. set (N := round_up n pa) in *.
  pose proof (ar_pages _ _ R) as P. rewrite (ar_base _ _ R), (ar_cap _ _ R).
  assert (u64 (base + cap) = base + cap /\ u64 (a + N) = a + N) as [-> ->].
  { destruct K. split; apply u64_small; lia. }
  destruct (Z.ltb_spec (base + cap) (a + N)); [by exists false, m, ls|].
  destruct (hasPageOverlap _ _ _) eqn:Eo; [by exists false, m, ls|].
  destruct (new_page_step m ls a N N R) as (m' & ls' & E & R' & Ro & Lv); try done; try lia.
  - intros p Hp Ht. apply not_true_iff_false in Eo. apply Eo.
    destruct K. eapply hasPageOverlap_spec; try done; [lia..|eauto].
  - destruct (createPage m a N) as [ps i]. rewrite E. exists true, m', ls'. split_and!; try done.
    simpl. split_and!; done || lia.
Qed.

Lemma page_release_fields p b :
  pg_addr (page_release p b) = pg_addr p /\ pg_size (page_release p b) = pg_size p /\
  pg_blockAlign (page_release p b) = pg_blockAlign p.
Proof. unfold page_release. by destruct (merge_right _). Qed.

(** A page without used blocks is one free block: [~page_t]'s assertions hold. *)
Lemma all_free_single al lo hi l :
  tiled al lo hi l -> coalesced false l -> useds l = [] -> lo < hi -> exists s, l = [Tile lo s true].
Proof.
  destruct l as [|[b s f] [|[b' s' f'] l]]; simpl; [lia|..].
  - intros (<- & _) _ U _. rewrite useds_cons in U. destruct f; [by exists s|done].
  - intros _ (_ & C & _) U _. rewrite !useds_cons in U. simpl in *. by destruct f, f'.
Qed.

Lemma page_empty_useds p l : page_rep p l -> page_empty p = bool_decide (useds l = []).
Proof.
  intros R. pose proof (pr_used _ _ R) as P. unfold page_empty. destruct (usedList p) as [|b u].
  - symmetry. apply bool_decide_eq_true. symmetry in P. apply Permutation_nil_r in P. by destruct (useds l).
  - symmetry. apply bool_decide_eq_false. intros E. rewrite E in P. symmetry in P.
    by apply Permutation_nil_l in P.
Qed.

Lemma page_delete_ok_rep p l : page_rep p l -> 0 < pg_size p -> useds l = [] -> page_delete_ok p = true.
Proof.
  intros R Hs U. unfold page_delete_ok. rewrite (page_empty_useds _ _ R), bool_decide_true by done.
  destruct (all_free_single _ _ _ _ (pr_tiled _ _ R) (pr_coal _ _ R) U ltac:(lia)) as [s ->].
  by rewrite (pr_M _ _ R), frees_cons.
Qed.

Lemma live_page al lo hi ps ls a s :
  pages_rep al lo hi ps ls -> (a, s) ∈ live ls -> exists p l, p ∈ ps /\ page_rep p l /\ Tile a s false ∈ l.
Proof.
  revert lo ls. induction ps as [|p ps IH]; intros lo [|l ls]; simpl; try done.
  - by intros _ ?%elem_of_nil.
  - intros (_ & R & _ & _ & _ & H) [Ha|Ha]%elem_of_app.
    + exists p, l. split_and!; [left|done|by apply elem_of_useds].
    + destruct (IH _ _ H Ha) as (q & l' & ? & ? & ?). exists q, l'. split_and!; [by right|done|done].
Qed.

Lemma sum_sizes_nonneg L : (forall b k, (b, k) ∈ L -> 0 < k) -> 0 <= sum_sizes L.
Proof.
  induction L as [|[b k] L IH]; intros H; [done|]. simpl.
  pose proof (H b k ltac:(left)). assert (0 <= sum_sizes L); [|unfold sum_sizes in *; lia].
  apply IH. intros c j Hc. apply (H c). by right.
Qed.

Section ReleaseBlock.
Context (m : MemoryAllocator) (ps1 : list page_t) (p : page_t) (ps2 : list page_t) (mid : Z).
Context (ls1 ls2 : list (list tile)) (l1 : list tile) (a s : Z) (l2 : list tile).
Context (Ep : pages_ m = ps1 ++ p :: ps2).
Context (R : alloc_rep m (ls1 ++ (l1 ++ Tile a s false :: l2) :: ls2)).
Context (P1 : pages_rep ba base mid ps1 ls1).
Context (P2 : pages_rep ba mid (base + cap) (p :: ps2) ((l1 ++ Tile a s false :: l2) :: ls2)).
Abbreviation L' := (live ls1 ++ (useds l1 ++ useds l2) ++ live ls2).

Lemma release_live : live (ls1 ++ (l1 ++ Tile a s false :: l2) :: ls2) ≡ₚ (a, s) :: L'.
Proof.
  rewrite live_app. change (live (?l :: ls2)) with (useds l ++ live ls2).
  rewrite useds_gap, <- !app_assoc. simpl.
  by rewrite <- (Permutation_middle (useds l1)), <- (Permutation_middle (live ls1)).
Qed.

Lemma release_allocated : u64 (allocated_ m - s) = sum_sizes L'.
Proof using K R.
  pose proof (ar_allocated _ _ R) as A. pose proof (live_sum _ _ _ _ _ (ar_pages _ _ R)) as B.
  rewrite release_live in A, B. simpl in A, B.
  assert (allocated_ m - s = sum_sizes L') as -> by lia.
  apply u64_small. pose proof (release_live) as E.
  assert (forall b k, (b, k) ∈ (a, s) :: L' -> 0 < k) as Pos.
  { intros b k Hb. rewrite <- E in Hb. by destruct (live_in _ _ _ _ _ b k (ar_pages _ _ R) Hb) as (_ & _ & ?). }
  pose proof (Pos a s ltac:(left)). destruct K. split; [|lia].
  apply sum_sizes_nonneg. intros b k Hb. apply (Pos b). by right.
Qed.

Lemma release_page :
  exists ps ls', (if page_empty (page_release p a) then deletePage (<[length ps1 := page_release p a]> (pages_ m)) (length ps1)
              else Some (<[length ps1 := page_release p a]> (pages_ m))) = Some ps /\
    pages_rep ba base (base + cap) ps ls' /\ live ls' = L'.
Proof using Ep P1 P2.
  destruct P2 as (Hmid & Rp & Eb & Da & U & H2). destruct (page_release_rep _ _ _ _ _ Rp) as (l & Rl & El).
  pose proof (page_rep_size _ _ Rp U) as Hs. destruct (page_release_fields p a) as (E1 & E2 & E3).
  rewrite Ep, insert_app_r_alt, Nat.sub_diag by done. simpl.
  rewrite (page_empty_useds _ _ Rl). case_bool_decide as Eu.
  - unfold deletePage. rewrite list_lookup_middle, (page_delete_ok_rep _ _ Rl) by (done || lia).
    rewrite delete_middle. exists (ps1 ++ ps2), (ls1 ++ ls2). split_and!; [done| |].
    + apply pages_rep_app. exists (pg_addr p + pg_size p), ls1, ls2. split_and!; [done| |done].
      by eapply pages_rep_widen; [| |exact P1]; lia.
    + rewrite live_app, <- El, Eu. done.
  - exists (ps1 ++ page_release p a :: ps2), (ls1 ++ l :: ls2). split_and!; [done| |].
    + apply pages_rep_app. exists mid, ls1, (l :: ls2). split_and!; [done|done|]. simpl.
      rewrite E1, E2, E3. by split_and!.
    + rewrite live_app. change (live (l :: ls2)) with (useds l ++ live ls2). by rewrite El.
Qed.
End ReleaseBlock.

Lemma release_step m ls a :
  alloc_rep m ls ->
  exists r m' ls', release m a = Some (r, m') /\ alloc_rep m' ls' /\
    permitted base cap pa ba (live ls) (CRelease a) (RCode r) (live ls').
Proof using K.
  intros R. unfold release. pose proof (find_page_spec (fun p => findUsedBlock p a) (pages_ m)) as F.
  destruct (find_page _ _) as [[i b]|].
  - destruct F as (ps1 & p & ps2 & Ep & -> & Eb & _). pose proof (ar_pages _ _ R) as P.
    rewrite Ep in P. apply pages_rep_app in P as (mid & ls1 & ls2 & -> & P1 & P2).
    destruct ls2 as [|l ls2]; [done|]. pose proof P2 as (_ & Rp & _).
    pose proof (findUsedBlock_spec p l a Rp) as Sp. rewrite Eb in Sp. destruct Sp as [-> Ha].
    apply list_elem_of_split in Ha as (l1 & l2 & ->). set (s := bsize (pg_store p) a) in *.
    destruct (release_page m ps1 p ps2 mid ls1 ls2 l1 a s l2 Ep P1 P2) as (ps & ls' & E & P' & Lv).
    assert (pages_ m !! length ps1 = Some p) as -> by (rewrite Ep; by apply list_lookup_middle).
    bind_simpl. cbv zeta. rewrite E. bind_simpl.
    eexists true, _, ls'. split_and!; [done| |].
    + destruct (ar_fields _ _ R) as (?&?&?&?). constructor; try done. simpl. rewrite Lv.
      by eapply release_allocated.
    + simpl. exists s. rewrite Lv. apply release_live.
  - exists false, m, ls. split_and!; try done. simpl. split; [done|]. intros s Hs.
    destruct (live_page _ _ _ _ _ _ _ (ar_pages _ _ R) Hs) as (p & l & Hp & Rp & Hl).
    pose proof (findUsedBlock_spec p l a Rp) as Sp. rewrite (F p Hp) in Sp. by eapply Sp.
Qed.

Lemma invoke_step m ls c :
  alloc_rep m ls -> call_ok base cap ba c ->
  exists r m' ls', invoke m c = Some (r, m') /\ alloc_rep m' ls' /\
    permitted base cap pa ba (live ls) c r (live ls').
Proof using K.
  intros R Hc. destruct c as [n|a n|a]; simpl.
  - destruct (allocate_step m ls n R Hc) as (r & m' & ls' & -> & ? & ?). eexists _, m', ls'. by split_and!.
  - destruct (reserve_step m ls a n R Hc) as (r & m' & ls' & -> & ? & ?). eexists _, m', ls'. by split_and!.
  - destruct (release_step m ls a R) as (r & m' & ls' & -> & ? & ?). eexists _, m', ls'. by split_and!.
Qed.

Lemma invoke_all_steps cs m ls :
  alloc_rep m ls -> Forall (call_ok base cap ba) cs ->
  exists rs m' ls', invoke_all m cs = Some (rs, m') /\ alloc_rep m' ls' /\
    trace base cap pa ba (live ls) cs rs (live ls').
Proof using K.
  revert m ls. induction cs as [|c cs IH]; intros m ls R Hc; simpl.
  - exists [], m, ls. split_and!; try done. constructor.
  - apply list.Forall_cons in Hc as [Hc Hcs].
    destruct (invoke_step m ls c R Hc) as (r & m1 & ls1 & -> & R1 & S1). simpl.
    destruct (IH m1 ls1 R1 Hcs) as (rs & m' & ls' & -> & R' & S'). simpl.
    exists (r :: rs), m', ls'. split_and!; try done. by econstructor.
Qed.
End Refinement.

(** ** Destruction *)

Lemma page_release_used p b : usedList (page_release p b) = unlink b (usedList p).
Proof. unfold page_release. by destruct (merge_right _). Qed.

Lemma release_all_rep u p l :
  page_rep p l -> usedList p = u ->
  exists l', page_rep (fold_left page_release u p) l' /\ useds l' = [] /\
    pg_size (fold_left page_release u p) = pg_size p.
Proof.
  revert p l. induction u as [|b u IH]; intros p l R Eu; simpl.
  - exists l. split_and!; try done. pose proof (pr_used _ _ R) as P. rewrite Eu in P.
    symmetry in P. apply Permutation_nil_r in P. by destruct (useds l).
  - assert (b ∈ (useds l).*1) as Hb by (rewrite <- (pr_used _ _ R), Eu; left).
    apply list_elem_of_fmap in Hb as ([b' s] & -> & Hb%elem_of_useds). simpl in *.
    apply list_elem_of_split in Hb as (l1 & l2 & ->).
    destruct (page_release_rep _ _ _ _ _ R) as (l' & R' & _).
    destruct (page_release_fields p b') as (_ & Es & _). rewrite <- Es. apply (IH _ _ R').
    rewrite page_release_used, Eu. simpl. by rewrite Z.eqb_refl.
Qed.

Lemma destroy_pages_rep ba lo hi ps ls : pages_rep ba lo hi ps ls -> destroy_pages true ps = Some tt.
Proof.
  revert lo ls. induction ps as [|p ps IH]; intros lo [|l ls]; simpl; try done.
  intros (_ & R & _ & _ & U & H). unfold destroy_page.
  destruct (release_all_rep _ _ _ R eq_refl) as (l' & R' & U' & Es).
  rewrite (page_delete_ok_rep _ _ R'); [|by rewrite Es; eapply page_rep_size|done]. simpl. by eapply IH.
Qed.

Lemma pages_rep_nil ba lo hi ps ls : pages_rep ba lo hi ps ls -> live ls = [] -> ps = [].
Proof.
  destruct ps as [|p ps], ls as [|l ls]; simpl; try done. intros (_ & _ & _ & _ & U & _) E.
  unfold live in E. simpl in E. by apply app_eq_nil in E as [E _].
Qed.

(** ** Completeness of the search *)

(** A range of a page that meets no used block lies in one free block. *)
Lemma free_range ba lo hi prev l a n :
  tiled ba lo hi l -> coalesced prev l -> lo <= a -> a + n <= hi -> 0 < n ->
  (forall b s, Tile b s false ∈ l -> a + n <= b \/ b + s <= a) ->
  exists b s, Tile b s true ∈ l /\ n <= s.
Proof.
  revert lo prev. induction l as [|[b s f] l IH]; intros lo prev; simpl; [lia|].
  intros (-> & Hs & _ & T) (_ & C) Hlo Hhi Hn Hu.
  destruct (Z.le_gt_cases (lo + s) a) as [Ha|Ha].
  - destruct (IH _ _ T C Ha Hhi Hn) as (c & k & ? & ?).
    { intros c k Hc. apply Hu. by right. }
    exists c, k. split; [by right|done].
  - destruct f; [|specialize (Hu lo s ltac:(left)); lia].
    destruct (Z.le_gt_cases n s) as [Hns|Hns]; [exists lo, s; split; [left|done]|].
    destruct l as [|[c k g] l]; simpl in *; [lia|]. destruct T as (-> & Hk & _ & T), C as [C _].
    destruct g; [done|]. specialize (Hu (lo + s) k ltac:(right; left)). lia.
Qed.

Lemma no_room_in_page p l n a :
  page_rep p l -> findFreeBlock p n = None -> 0 < n -> pg_addr p <= a -> a + n <= pg_addr p + pg_size p ->
  exists b, b ∈ usedList p /\ b < a + n /\ a < b + bsize (pg_store p) b.
Proof.
  intros R F Hn Ha Hhi. pose proof (findFreeBlock_spec _ _ n R) as Sp. rewrite F in Sp.
  destruct (decide (Exists (fun b => b < a + n /\ a < b + bsize (pg_store p) b) (usedList p))) as [E|E].
  { apply list.Exists_exists in E. done. }
  exfalso. destruct (free_range _ _ _ _ _ a n (pr_tiled _ _ R) (pr_coal _ _ R) Ha Hhi Hn) as (b & s & Hb & Hs).
  - intros b s Hb. destruct (decide (a + n <= b \/ b + s <= a)); [done|]. exfalso. apply E.
    apply list.Exists_exists. exists b. rewrite (store_rep_bsize _ _ _ _ _ (pr_store _ _ R) Hb).
    split; [|lia]. rewrite (pr_used _ _ R). apply list_elem_of_fmap. exists (b, s).
    split; [done|by apply elem_of_useds].
  - specialize (Sp b s Hb). lia.
Qed.

Lemma pages_rep_page ba lo hi ps ls p : pages_rep ba lo hi ps ls -> p ∈ ps -> exists l, page_rep p l.
Proof.
  revert lo ls. induction ps as [|q ps IH]; intros lo [|l ls]; simpl; try done.
  - by intros _ ?%elem_of_nil.
  - intros (_ & R & _ & _ & _ & H) [->|Hp]%list.elem_of_cons; eauto.
Qed.

(** ** Properties *)

(** C7. The allocator keeps its contract.  For every sequence of calls whose sizes are within the capacity
    and whose reservations start at a block boundary of the range (a release may name any address), on an
    allocator whose page and block sizes are powers of two, the capacity whole pages, the base a whole number
    of blocks and base plus twice the capacity below [2^64], no call fails an assertion or follows a
    null pointer; every address handed out is aligned to the block size, its rounded range lies in
    [[base, base + capacity)] and meets no live block; a release succeeds exactly on the start of a live
    block and ends exactly that block; the byte counter is the sum of the live sizes; when nothing is live
    the allocator is back in its initial state; and in a virtual-memory build the destructor's assertions
    hold whatever is still live. *)
Theorem allocator_refines base cap pk bk cs :
  config_ok base cap pk bk -> Forall (call_ok base cap (2 ^ bk)) cs ->
  exists rs m L,
    invoke_all (MemoryAllocator_new base cap (2 ^ pk) (2 ^ bk)) cs = Some (rs, m) /\
    trace base cap (2 ^ pk) (2 ^ bk) [] cs rs L /\
    allocated_ m = sum_sizes L /\ free m = cap - sum_sizes L /\
    (L = [] -> m = MemoryAllocator_new base cap (2 ^ pk) (2 ^ bk)) /\
    MemoryAllocator_destroy true m = Some tt.
Proof.
  intros K Hcs.
  destruct (invoke_all_steps base cap pk bk K cs _ [] (alloc_new_rep base cap pk bk K) Hcs)
    as (rs & m & ls & E & [E1 E2 E3 E4 P A] & T).
  exists rs, m, (live ls). pose proof (live_sum _ _ _ _ _ P). split_and!; try done.
  - unfold free. rewrite E2, A. destruct K. apply u64_small. lia.
  - intros El. pose proof (pages_rep_nil _ _ _ _ _ P El). destruct m. simpl in *.
    rewrite El in A. subst. done.
  - by eapply destroy_pages_rep.
Qed.

Lemma allocator_refines_witness :
  config_ok 0x10000 0x100000 12 6 /\
  exists rs m L,
    invoke_all (MemoryAllocator_new 0x10000 0x100000 (2 ^ 12) (2 ^ 6))
      [CAllocate 100; CReserve 0x20000 8192; CAllocate 5000; CRelease 0x10000; CRelease 7] = Some (rs, m) /\
    trace 0x10000 0x100000 (2 ^ 12) (2 ^ 6) []
      [CAllocate 100; CReserve 0x20000 8192; CAllocate 5000; CRelease 0x10000; CRelease 7] rs L /\
    allocated_ m = sum_sizes L /\ free m = 0x100000 - sum_sizes L /\
    (L = [] -> m = MemoryAllocator_new 0x10000 0x100000 (2 ^ 12) (2 ^ 6)) /\
    MemoryAllocator_destroy true m = Some tt.
Proof.
  assert (config_ok 0x10000 0x100000 12 6) as K.
  { constructor; try lia; [by exists 0x100|by exists 0x400]. }
  split; [done|]. apply allocator_refines; [done|].
  repeat constructor; try done. by exists 0x800.
Defined.

(** C28. A request fails only when there is no room.  After any such sequence of calls, if [allocate] of a
    non-zero size within the capacity returns [-1], then every range of the rounded size inside a page meets a
    used block of that page (coalescing never hides room in fragments), and every range of whole pages inside
    [[base, base + capacity)] meets a page (the gap search misses no gap). *)
Theorem allocate_complete base cap pk bk cs rs m n m' :
  config_ok base cap pk bk -> Forall (call_ok base cap (2 ^ bk)) cs ->
  invoke_all (MemoryAllocator_new base cap (2 ^ pk) (2 ^ bk)) cs = Some (rs, m) ->
  0 < n <= cap -> allocate m n = Some (None, m') ->
  (forall p a, p ∈ pages_ m -> pg_addr p <= a -> a + round_up n (2 ^ bk) <= pg_addr p + pg_size p ->
     exists b, b ∈ usedList p /\ b < a + round_up n (2 ^ bk) /\ a < b + bsize (pg_store p) b) /\
  (forall a, base <= a -> a + round_up (round_up n (2 ^ bk)) (2 ^ pk) <= base + cap ->
     exists p, p ∈ pages_ m /\ touches p a (round_up (round_up n (2 ^ bk)) (2 ^ pk))).
Proof.
  intros K Hcs E Hn Ea.
  destruct (invoke_all_steps base cap pk bk K cs _ [] (alloc_new_rep base cap pk bk K) Hcs)
    as (rs' & m0 & ls & E' & R & _). rewrite E in E'. simplify_eq.
  destruct (round_block _ _ _ _ K n Hn) as [Hb Db]. destruct (round_page _ _ _ _ K _ Hb) as [HN DN].
  unfold allocate in Ea. rewrite (proj2 (Z.eqb_neq n 0)) in Ea by lia.
  rewrite (ar_ba _ _ _ _ _ _ R), (align_block _ _ _ _ K) in Ea by lia. cbn [mbind option_bind] in Ea.
  pose proof (find_page_spec (fun p => findFreeBlock p (round_up n (2 ^ bk))) (pages_ m0)) as F.
  destruct (find_page _ _) as [[i b]|].
  { unfold take_block in Ea. destruct (pages_ m0 !! i); simplify_eq/=. }
  rewrite (ar_pa _ _ _ _ _ _ R), (align_page _ _ _ _ K) in Ea by lia. cbn [mbind option_bind] in Ea.
  pose proof (findNextAddress_spec _ _ _ _ K m0 ls (round_up (round_up n (2 ^ bk)) (2 ^ pk)) R ltac:(lia)) as G.
  destruct (findNextAddress _ _) as [a|].
  { destruct (createPage _ _ _) as [ps i]. unfold take_block in Ea.
    destruct (ps !! i); simplify_eq/=. destruct (findFreeBlock _ _); simplify_eq/=. }
  split; [|done]. intros p a Hp Ha Ha'.
  destruct (pages_rep_page _ _ _ _ _ _ (ar_pages _ _ _ _ _ _ R) Hp) as [l Rp].
  eapply no_room_in_page; try done; [by apply F|lia].
Qed.

Lemma allocate_complete_witness :
  exists rs m,
    invoke_all (MemoryAllocator_new 0x10000 0x2000 (2 ^ 12) (2 ^ 6)) [CAllocate 0x1800; CAllocate 0x400]
      = Some (rs, m) /\
    allocate m 0x800 = Some (None, m) /\
    (forall p a, p ∈ pages_ m -> pg_addr p <= a -> a + round_up 0x800 (2 ^ 6) <= pg_addr p + pg_size p ->
       exists b, b ∈ usedList p /\ b < a + round_up 0x800 (2 ^ 6) /\ a < b + bsize (pg_store p) b).
Proof.
  eexists _, _. split; [vm_compute; reflexivity|]. split; [vm_compute; reflexivity|].
  eapply (allocate_complete 0x10000 0x2000 12 6 [CAllocate 0x1800; CAllocate 0x400] [RAddr (Some 0x10000); RAddr (Some 0x11800)]
           _ 0x800 _); [|by repeat constructor|vm_compute; reflexivity|lia|vm_compute; reflexivity].
  constructor; try lia; [by exists 2|by exists 0x400].
Defined.

(** The first request is not checked against the capacity.  On an allocator without pages, a request of any
    size above the capacity (up to the 64-bit limit) succeeds at the base address, although its range leaves
    [[base, base + capacity)], and the free-byte counter then wraps to a value near [2^64]. *)
Theorem first_allocation_unbounded base cap pk bk n :
  config_ok base cap pk bk -> cap < n -> base + n + 2 * 2 ^ pk < 2 ^ 64 ->
  exists m, allocate (MemoryAllocator_new base cap (2 ^ pk) (2 ^ bk)) n = Some (Some base, m) /\
    base + cap < base + allocated_ m /\ free m = 2 ^ 64 + cap - allocated_ m.
Proof.
  intros K Hn Hw. pose proof (conf_aligns _ _ _ _ K) as (? & Hbp & D & ?). destruct K.
  pose proof (round_up_bounds n (2 ^ bk) ltac:(lia)). set (N := round_up n (2 ^ bk)) in *.
  pose proof (round_up_bounds N (2 ^ pk) ltac:(lia)).
  unfold allocate. rewrite (proj2 (Z.eqb_neq n 0)) by lia. cbn [MemoryAllocator_new blockAlign_ pageAlign_ pages_ find_page].
  rewrite alignSize_pow2 by lia. fold N. bind_simpl. rewrite alignSize_pow2 by lia. bind_simpl.
  unfold createPage, findNextAddress, take_block, findFreeBlock. simpl. unfold bsize.
  rewrite lookup_singleton_eq. simpl. rewrite (proj2 (Z.leb_le _ _)) by lia. simpl.
  eexists. split; [done|]. unfold free. cbn [set_pages allocated_ capacity_ MemoryAllocator_new].
  rewrite Z.add_0_l, (u64_small N) by lia. split; [lia|]. unfold u64.
  rewrite <- (Z.mod_add _ 1) by lia. rewrite Z.mod_small; lia.
Qed.

Lemma first_allocation_unbounded_witness :
  exists m, allocate (MemoryAllocator_new 0x10000 0x100000 (2 ^ 12) (2 ^ 6)) 0x40000000 = Some (Some 0x10000, m) /\
    0x10000 + 0x100000 < 0x10000 + allocated_ m /\ free m = 2 ^ 64 + 0x100000 - allocated_ m.
Proof.
  apply first_allocation_unbounded; [|lia|lia].
  constructor; try lia; [by exists 0x100|by exists 0x400].
Defined.
