(* ===== verification/PageTable.v ===== *)
(** * Page tables ([sw/common/vm_types.h]) and their four walkers

    The value classes [SATP_t], [PTE_t] and [vAddr_t] that the host runtime
    and the simulator share, and the page-table walks written over them:
    [VMManager::page_table_walk] (host, [sw/runtime/common/vm.cpp]),
    [CommandProcessor::cp_translate] (copy engine,
    [sim/common/cmd_processor.cpp]) and [MemoryUnit::page_table_walk]
    ([sim/common/mem.cpp]); the MMU's walk state machine is in [Mmu].  A walk
    takes the memory as a function from the address of a page-table entry to
    its bytes.

    The mode is Sv39 when [XLEN] is 64 and Sv32 otherwise ([VX_types.toml]). *)

From S2P Require Import Prelude Bitmanip.

(** ** Geometry ([VX_types.toml]) *)

Section Geometry.
Context `{VxConfig}.

Definition sv39 : bool := XLEN =? 64.

Definition BARE : Z := 0.
Definition SV32 : Z := 1.
Definition SV39 : Z := 8.
Definition VM_ADDR_MODE : Z := if sv39 then SV39 else SV32.
Definition PAGE_LOG2_SIZE : Z := 12.
Definition PAGE_SIZE : Z := 2 ^ PAGE_LOG2_SIZE.
Definition PT_LEVEL : nat := if sv39 then 3%nat else 2%nat.
Definition PTE_SIZE : Z := if sv39 then 8 else 4.
Definition PT_SIZE : Z := PAGE_SIZE.

(** The least [r] with [2^r >= n]. *)
Fixpoint clog2_loop (fuel : nat) (n r : Z) : Z :=
  match fuel with
  | O => r
  | S fuel => if Z.shiftl 1 r <? n then clog2_loop fuel n (r + 1) else r
  end.

Definition vm_clog2 (n : Z) : Z := clog2_loop 64 n 0.

Definition VM_VPN_BITS : Z := vm_clog2 (PT_SIZE / PTE_SIZE).

(** ** Values *)

Definition bits (input s_idx e_idx : Z) : Z :=
  Z.land (Z.shiftr input s_idx) (Z.shiftl 1 (e_idx - s_idx + 1) - 1).

Record SATP_t := SATP { satp_mode : Z; satp_asid : Z; satp_ppn : Z; satp_bits : Z }.

Definition SATP_of_bits (satp : Z) : SATP_t :=
  if sv39
  then SATP (bits satp 60 63) (bits satp 44 59) (bits satp 0 43) satp
  else SATP (if Z.testbit satp 31 then 1 else 0) (bits satp 22 30) (bits satp 0 21) satp.

(** [None]: the assertion on the upper half of an Sv32 address. *)
Definition SATP_make (address asid : Z) : option SATP_t :=
  let ppn := Z.shiftr address PAGE_LOG2_SIZE in
  let pack hi lo := Z.lor (Z.lor (u64 (Z.shiftl VM_ADDR_MODE hi)) (Z.shiftl asid lo)) ppn in
  if sv39 then Some (SATP VM_ADDR_MODE asid ppn (pack 60 44))
  else if Z.shiftr address 32 =? 0 then Some (SATP VM_ADDR_MODE asid ppn (pack 31 22)) else None.

Record PTE_t := PTE {
  pte_ppn : Z; pte_flags : Z; pte_rsw : Z;
  pte_d : bool; pte_a : bool; pte_g : bool; pte_u : bool; pte_x : bool; pte_w : bool; pte_r : bool; pte_v : bool;
  pte_bytes : Z
}.

Definition set_flags (ppn rsw bytes flags : Z) : PTE_t :=
  PTE ppn flags rsw (Z.testbit flags 7) (Z.testbit flags 6) (Z.testbit flags 5) (Z.testbit flags 4)
      (Z.testbit flags 3) (Z.testbit flags 2) (Z.testbit flags 1) (Z.testbit flags 0) bytes.

(** [PTE_t(address, flags)]; [rsw] is not set by this constructor. *)
Definition PTE_make (address flags : Z) : option PTE_t :=
  let ppn := Z.shiftr address PAGE_LOG2_SIZE in
  let pte := set_flags ppn 0 (Z.lor (u64 (Z.shiftl ppn 10)) flags) flags in
  if sv39 then Some pte else if Z.shiftr address 32 =? 0 then Some pte else None.

(** [PTE_t(pte_bytes)] *)
Definition PTE_of_bytes (bytes : Z) : option PTE_t :=
  let flags := bits bytes 0 7 in
  if sv39 then Some (set_flags (bits bytes 10 53) (bits bytes 8 9) bytes flags)
  else if Z.shiftr bytes 32 =? 0 then Some (set_flags (bits bytes 10 31) (bits bytes 8 9) bytes flags)
  else None.

Record vAddr_t := VAddr { va_vpn : list Z; va_pgoff : Z }.

Definition vAddr_make (address : Z) : option vAddr_t :=
  if sv39
  then Some (VAddr [bits address 12 20; bits address 21 29; bits address 30 38] (bits address 0 11))
  else if Z.shiftr address 32 =? 0
  then Some (VAddr [bits address 12 21; bits address 22 31] (bits address 0 11)) else None.

(** ** Walks *)

(** How a walk ends without a translation. *)
Inductive fault :=
| FaultAssert      (* a failed assertion *)
| FaultInvalid     (* "invalid entry" *)
| FaultNoLeaf      (* "no leaf node" *)
| FaultPermission  (* "permission" *)
| FaultUninit.     (* the assertion on the fill pattern *)

Definition pte_addr (base_ppn vpn_idx : Z) : Z := u64 (base_ppn * PT_SIZE + vpn_idx * PTE_SIZE).

Definition baadf00d (bytes : Z) : bool := Z.land bytes 0xFFFFFFFF =? 0xbaadf00d.

(** The loop of [VMManager::page_table_walk]: the leaf's PPN and level. *)
Fixpoint host_walk (read_pte : Z -> Z) (va : vAddr_t) (i : nat) (cur_base_ppn : Z) : fault + (Z * nat) :=
  match PTE_of_bytes (read_pte (pte_addr cur_base_ppn (va_vpn va !!! i))) with
  | None => inl FaultAssert
  | Some pte =>
      if baadf00d (pte_bytes pte) then inl FaultUninit
      else if negb (pte_v pte) || (negb (pte_r pte) && pte_w pte) then inl FaultInvalid
      else if negb (pte_r pte) && negb (pte_w pte) && negb (pte_x pte) then
        match i with
        | O => inl FaultNoLeaf
        | S i' => host_walk read_pte va i' (pte_ppn pte)
        end
      else if negb (pte_r pte) then inl FaultPermission
      else inr (pte_ppn pte, i)
  end.

(** The physical address of [vaddr] under a leaf of level [i]. *)
Definition leaf_pa (ppn : Z) (i : nat) (vaddr : Z) : Z :=
  let off_mask := Z.shiftl 1 (PAGE_LOG2_SIZE + Z.of_nat i * VM_VPN_BITS) - 1 in
  Z.lor (Z.land (u64 (Z.shiftl ppn PAGE_LOG2_SIZE)) (lnot_w 64 off_mask)) (Z.land vaddr off_mask).

(** [VMManager::page_table_walk] under translation. *)
Definition page_table_walk (read_pte : Z -> Z) (base_ppn vAddr_bits : Z) : fault + Z :=
  match vAddr_make vAddr_bits with
  | None => inl FaultAssert
  | Some va =>
      match host_walk read_pte va (PT_LEVEL - 1) base_ppn with
      | inl f => inl f
      | inr (ppn, i) => inr (leaf_pa ppn i vAddr_bits)
      end
  end.

(** The loop of [cp_translate]; [inr None] passes the address through. *)
Fixpoint cp_walk (dram_read : Z -> Z) (va : vAddr_t) (i : nat) (cur_base_ppn : Z) : option (option (Z * nat)) :=
  match PTE_of_bytes (dram_read (pte_addr cur_base_ppn (va_vpn va !!! i))) with
  | None => None
  | Some pte =>
      if negb (pte_v pte) then Some None
      else if negb (pte_r pte) && negb (pte_w pte) && negb (pte_x pte) then
        match i with
        | O => Some None
        | S i' => cp_walk dram_read va i' (pte_ppn pte)
        end
      else Some (Some (pte_ppn pte, i))
  end.

Definition cp_translate (dram_read : Z -> Z) (satp_ vaddr : Z) (physical : bool) : option Z :=
  if physical || (satp_ =? 0) then Some vaddr else
  let satp := SATP_of_bits satp_ in
  if satp_mode satp =? BARE then Some vaddr else
  va ← vAddr_make vaddr;
  r ← cp_walk dram_read va (PT_LEVEL - 1) (satp_ppn satp);
  Some (match r with
        | None => vaddr
        | Some (ppn, i) => leaf_pa ppn i vaddr
        end).

(** [ACCESS_TYPE] *)
Inductive ACCESS_TYPE := LOAD | STORE | FETCH.

(** [MemoryUnit::page_table_walk]: the leaf's PPN and flags, the page size being
    [2^12] whatever the level. *)
Fixpoint mu_walk (read : Z -> Z) (va : vAddr_t) (type : ACCESS_TYPE) (i : nat) (cur_base_ppn : Z) : fault + (Z * Z) :=
  match PTE_of_bytes (read (pte_addr cur_base_ppn (va_vpn va !!! i))) with
  | None => inl FaultAssert
  | Some pte =>
      if baadf00d (pte_bytes pte) then inl FaultUninit
      else if negb (pte_v pte) || (negb (pte_r pte) && pte_w pte) then inl FaultInvalid
      else if negb (pte_r pte) && negb (pte_w pte) && negb (pte_x pte) then
        match i with
        | O => inl FaultNoLeaf
        | S i' => mu_walk read va type i' (pte_ppn pte)
        end
      else if (match type with
               | FETCH => negb (pte_r pte) || negb (pte_x pte)
               | LOAD => negb (pte_r pte)
               | STORE => negb (pte_w pte)
               end) then inl FaultPermission
      else inr (pte_ppn pte, pte_flags pte)
  end.

(** The address [MemoryUnit::vAddr_to_pAddr] forms on a TLB miss. *)
Definition mu_translate (read : Z -> Z) (base_ppn vAddr : Z) (type : ACCESS_TYPE) : fault + Z :=
  match vAddr_make vAddr with
  | None => inl FaultAssert
  | Some va =>
      match mu_walk read va type (PT_LEVEL - 1) base_ppn with
      | inl f => inl f
      | inr (pfn, _) => inr (u64 (Z.shiftl pfn 12 + Z.land vAddr (Z.shiftl 1 12 - 1)))
      end
  end.
End Geometry.

(** ** Arithmetic of the fields *)

Section Facts.
Context `{VxConfig}.

Lemma vpn_bits_eq : VM_VPN_BITS = if sv39 then 9 else 10.
Proof. unfold VM_VPN_BITS, PTE_SIZE. by destruct sv39. Qed.

Lemma vpn_bits_range : 9 <= VM_VPN_BITS <= 10.
Proof. rewrite vpn_bits_eq. destruct sv39; lia. Qed.

Lemma pt_geometry : 2 ^ VM_VPN_BITS * PTE_SIZE = PT_SIZE.
Proof. rewrite vpn_bits_eq. unfold PTE_SIZE. by destruct sv39. Qed.

Lemma pt_level_cases : PT_LEVEL = 3%nat /\ sv39 = true \/ PT_LEVEL = 2%nat /\ sv39 = false.
Proof. unfold PT_LEVEL. destruct sv39; auto. Qed.

Lemma bits_eq x s e : 0 <= s <= e -> bits x s e = (x / 2 ^ s) mod 2 ^ (e - s + 1).
Proof.
  intros. unfold bits. rewrite Z.shiftl_1_l, Z.sub_1_r, <- Z.ones_equiv, Z.land_ones, Z.shiftr_div_pow2 by lia.
  done.
Qed.

Lemma bits_range x s e : 0 <= s <= e -> 0 <= bits x s e < 2 ^ (e - s + 1).
Proof. intros. rewrite bits_eq by done. apply Z.mod_pos_bound. lia. Qed.

(** The table index of an address at a level. *)
Definition vidx (va : Z) (i : nat) : Z := (va / 2 ^ (12 + Z.of_nat i * VM_VPN_BITS)) mod 2 ^ VM_VPN_BITS.

Lemma vidx_range va i : 0 <= vidx va i < 2 ^ VM_VPN_BITS.
Proof. pose proof vpn_bits_range. apply Z.mod_pos_bound. lia. Qed.

(** The bits of an address that the mode translates. *)
Definition VA_BITS : Z := 12 + Z.of_nat PT_LEVEL * VM_VPN_BITS.

Lemma vAddr_make_ok va : 0 <= va < 2 ^ VA_BITS -> is_Some (vAddr_make va).
Proof.
  unfold VA_BITS, vAddr_make. rewrite vpn_bits_eq.
  destruct pt_level_cases as [[-> ->]|[-> ->]]; intros Hva; [eauto|].
  rewrite Z.shiftr_div_pow2, Z.div_small by lia. eauto.
Qed.

Lemma vAddr_vpn va v i : vAddr_make va = Some v -> (i < PT_LEVEL)%nat -> va_vpn v !!! i = vidx va i.
Proof.
  unfold vAddr_make, vidx. rewrite vpn_bits_eq.
  destruct pt_level_cases as [[-> ->]|[-> ->]]; [|destruct (_ =? 0); [|done]]; intros Ev Hi; simplify_eq/=;
    rewrite !bits_eq by lia; destruct i as [|[|[|i]]]; try lia; done.
Qed.

Lemma leaf_pa_eq ppn i va :
  (i < PT_LEVEL)%nat -> 0 <= ppn < 2 ^ 44 -> 0 <= va ->
  leaf_pa ppn i va =
    ppn / 2 ^ (Z.of_nat i * VM_VPN_BITS) * 2 ^ (12 + Z.of_nat i * VM_VPN_BITS)
    + va mod 2 ^ (12 + Z.of_nat i * VM_VPN_BITS).
Proof.
  intros Hi Hp Hva. unfold leaf_pa, PAGE_LOG2_SIZE. pose proof vpn_bits_range as B.
  assert (0 <= Z.of_nat i * VM_VPN_BITS <= 30) as Hb.
  { rewrite vpn_bits_eq. destruct pt_level_cases as [[E ->]|[E ->]]; lia. }
  set (b := Z.of_nat i * VM_VPN_BITS) in *. rewrite !Z.shiftl_mul_pow2, Z.mul_1_l by lia.
  rewrite u64_small by lia. rewrite land_lnot_low by lia.
  rewrite Z.sub_1_r, <- Z.ones_equiv, Z.land_ones by lia.
  rewrite (Z.pow_add_r 2 12 b), (Z.mul_comm ppn), Z.mul_mod_distr_l by lia.
  replace (2 ^ 12 * ppn - 2 ^ 12 * (ppn mod 2 ^ b)) with (ppn / 2 ^ b * (2 ^ 12 * 2 ^ b)).
  2: { pose proof (Z.div_mod ppn (2 ^ b)). nia. }
  rewrite <- Z.pow_add_r by lia. pose proof (Z.mod_pos_bound va (2 ^ (12 + b)) ltac:(lia)).
  rewrite <- Z.shiftl_mul_pow2, lor_disjoint by lia. by rewrite Z.shiftl_mul_pow2 by lia.
Qed.

(** ** Encoding *)

Ltac div_lia := Z.to_euclidean_division_equations; lia.

Definition PPN_BITS : Z := if sv39 then 44 else 22.

(** The addresses a page-table entry can hold. *)
Definition PA_BITS : Z := if sv39 then 56 else 32.

Lemma pte_make_bytes a f :
  0 <= a < 2 ^ PA_BITS -> 0 <= f < 2 ^ 8 ->
  PTE_make a f = Some (set_flags (a / 2 ^ 12) 0 (a / 2 ^ 12 * 2 ^ 10 + f) f).
Proof.
  intros Ha Hf. unfold PTE_make, PA_BITS in *. cbv zeta.
  rewrite Z.shiftr_div_pow2 by done.
  assert (0 <= a / 2 ^ PAGE_LOG2_SIZE < 2 ^ 44) as Hp.
  { unfold PAGE_LOG2_SIZE. split; [apply Z.div_pos; lia|]. apply Z.div_lt_upper_bound; destruct sv39; lia. }
  rewrite u64_small by (rewrite Z.shiftl_mul_pow2; lia). rewrite lor_disjoint by lia.
  destruct sv39; [done|]. by rewrite Z.shiftr_div_pow2, Z.div_small by lia.
Qed.

Lemma pte_of_bytes_ok x :
  0 <= x < 2 ^ (8 * PTE_SIZE) ->
  PTE_of_bytes x = Some (set_flags ((x / 2 ^ 10) mod 2 ^ PPN_BITS) ((x / 2 ^ 8) mod 2 ^ 2) x (x mod 2 ^ 8)).
Proof.
  unfold PTE_of_bytes, PTE_SIZE, PPN_BITS. cbv zeta. destruct sv39; intros Hx.
  - by rewrite !bits_eq, Z.pow_0_r, Z.div_1_r by lia.
  - rewrite Z.shiftr_div_pow2, Z.div_small by lia. simpl (0 =? 0).
    by rewrite !bits_eq, Z.pow_0_r, Z.div_1_r by lia.
Qed.

Lemma pte_word p f :
  0 <= f < 2 ^ 8 ->
  (p * 2 ^ 10 + f) / 2 ^ 10 = p /\ ((p * 2 ^ 10 + f) / 2 ^ 8) mod 2 ^ 2 = 0 /\ (p * 2 ^ 10 + f) mod 2 ^ 8 = f.
Proof. intros. split_and!; div_lia. Qed.

Lemma pte_roundtrip a f p :
  0 <= a < 2 ^ PA_BITS -> 0 <= f < 2 ^ 8 -> PTE_make a f = Some p -> PTE_of_bytes (pte_bytes p) = Some p.
Proof.
  intros Ha Hf E. rewrite pte_make_bytes in E by done. simplify_eq. simpl pte_bytes.
  assert (0 <= a / 2 ^ 12 < if sv39 then 2 ^ 44 else 2 ^ 20) as Hp.
  { unfold PA_BITS in Ha. destruct sv39; div_lia. }
  destruct (pte_word (a / 2 ^ 12) f Hf) as (E1 & E2 & E3).
  rewrite pte_of_bytes_ok, E1, E2, E3, Z.mod_small; [done|..]; unfold PA_BITS, PPN_BITS, PTE_SIZE in *; destruct sv39; lia.
Qed.

Lemma satp_roundtrip a asid s :
  0 <= a < 2 ^ PA_BITS -> 0 <= asid < (if sv39 then 2 ^ 16 else 2 ^ 9) -> SATP_make a asid = Some s ->
  SATP_of_bits (satp_bits s) = s /\ satp_mode s <> BARE /\ satp_bits s <> 0.
Proof.
  unfold SATP_make, SATP_of_bits, PA_BITS, VM_ADDR_MODE, PAGE_LOG2_SIZE. cbv zeta.
  rewrite Z.shiftr_div_pow2 by done. destruct sv39.
  - intros Ha Hs E. simplify_eq. simpl satp_bits. simpl satp_mode.
    assert (0 <= a / 2 ^ 12 < 2 ^ 44) by div_lia.
    assert (Z.lor (Z.lor (u64 (SV39 ≪ 60)) (asid ≪ 44)) (a / 2 ^ 12) = SV39 * 2 ^ 60 + asid * 2 ^ 44 + a / 2 ^ 12) as ->.
    { change (u64 (SV39 ≪ 60)) with ((SV39 ≪ 16) ≪ 44). rewrite <- Z.shiftl_lor.
      rewrite lor_disjoint, lor_disjoint by lia. lia. }
    unfold SV39, BARE. rewrite !bits_eq, Z.pow_0_r, Z.div_1_r by lia. split_and!; [|lia|lia]. f_equal; div_lia.
  - destruct (_ =? 0); [|done]. intros Ha Hs E. simplify_eq. simpl satp_bits. simpl satp_mode.
    assert (0 <= a / 2 ^ 12 < 2 ^ 20) by div_lia.
    assert (Z.lor (Z.lor (u64 (SV32 ≪ 31)) (asid ≪ 22)) (a / 2 ^ 12) = SV32 * 2 ^ 31 + asid * 2 ^ 22 + a / 2 ^ 12) as ->.
    { change (u64 (SV32 ≪ 31)) with ((SV32 ≪ 9) ≪ 22). rewrite <- Z.shiftl_lor.
      rewrite lor_disjoint, lor_disjoint by lia. lia. }
    unfold SV32, BARE. rewrite !bits_eq, Z.pow_0_r, Z.div_1_r by lia. rewrite Z.testbit_odd, Z.shiftr_div_pow2 by lia.
    split_and!; [|lia|lia].
    assert ((1 * 2 ^ 31 + asid * 2 ^ 22 + a / 2 ^ 12) / 2 ^ 31 = 1) as -> by div_lia. simpl Z.odd. f_equal; div_lia.
Qed.
End Facts.

(** ** The walkers against each other *)

Section Walkers.
Context `{VxConfig} (read : Z -> Z).

Lemma host_walk_level v i base ppn l : host_walk read v i base = inr (ppn, l) -> (l <= i)%nat.
Proof.
  revert base. induction i as [|i IH]; intros base; simpl; destruct (PTE_of_bytes _) as [p|]; try done;
    repeat match goal with |- context [if ?b then _ else _] => destruct b end; intros E; simplify_eq; try lia.
  apply IH in E. lia.
Qed.

(** Where the host finds a leaf, the copy engine finds the same one. *)
Lemma cp_walk_host v i base r : host_walk read v i base = inr r -> cp_walk read v i base = Some (Some r).
Proof.
  revert base. induction i as [|i IH]; intros base; simpl; destruct (PTE_of_bytes _) as [p|]; try done;
    destruct (baadf00d _), (pte_v p), (pte_r p), (pte_w p), (pte_x p); simpl; try done; try congruence; apply IH.
Qed.

Lemma mu_walk_host v i base ppn l :
  host_walk read v i base = inr (ppn, l) -> exists flags, mu_walk read v LOAD i base = inr (ppn, flags).
Proof.
  revert base. induction i as [|i IH]; intros base; simpl; destruct (PTE_of_bytes _) as [p|]; try done;
    destruct (baadf00d _), (pte_v p), (pte_r p), (pte_w p), (pte_x p); simpl; try done;
    try (intros; simplify_eq; eauto; done); apply IH.
Qed.

(** The copy engine's translation from a root the host programs. *)
Lemma cp_translate_walk root asid s va :
  0 <= root < 2 ^ (PA_BITS - 12) -> 0 <= asid < (if sv39 then 2 ^ 16 else 2 ^ 9) -> SATP_make (root * 2 ^ 12) asid = Some s ->
  cp_translate read (satp_bits s) va false =
    (v ← vAddr_make va; r ← cp_walk read v (PT_LEVEL - 1) root; Some (match r with None => va | Some (ppn, i) => leaf_pa ppn i va end)).
Proof.
  intros Hr Has Es.
  assert (0 <= root * 2 ^ 12 < 2 ^ PA_BITS) as Ha.
  { unfold PA_BITS in *. destruct sv39; lia. }
  destruct (satp_roundtrip _ _ _ Ha Has Es) as (E & Em & Ez).
  assert (satp_ppn s = root) as Ep.
  { unfold SATP_make, PAGE_LOG2_SIZE in Es. rewrite Z.shiftr_div_pow2, Z.div_mul in Es by lia.
    destruct sv39; [|destruct (_ =? 0)]; by simplify_eq. }
  unfold cp_translate. rewrite (proj2 (Z.eqb_neq _ _)) by done. cbn [orb]. rewrite E. by rewrite (proj2 (Z.eqb_neq _ _)), Ep by done.
Qed.

Lemma cp_translate_host root asid s va pa :
  0 <= root < 2 ^ (PA_BITS - 12) -> 0 <= asid < (if sv39 then 2 ^ 16 else 2 ^ 9) ->
  SATP_make (root * 2 ^ 12) asid = Some s ->
  page_table_walk read root va = inr pa -> cp_translate read (satp_bits s) va false = Some pa.
Proof.
  intros Hr Has Es Hw. rewrite (cp_translate_walk root asid s va Hr Has Es). unfold page_table_walk in Hw.
  destruct (vAddr_make va) as [v|]; [|done]. simpl.
  destruct (host_walk _ _ _ _) as [|[ppn i]] eqn:Eh; [done|]. rewrite (cp_walk_host _ _ _ _ Eh). simpl. by simplify_eq.
Qed.

(** [MemoryUnit]'s translation keeps only the page offset: under a leaf of a
    higher level it is right only on the first page of the superpage. *)
Lemma mu_superpage root va v ppn l :
  vAddr_make va = Some v -> 0 <= va -> host_walk read v (PT_LEVEL - 1) root = inr (ppn, l) ->
  0 <= ppn < 2 ^ 44 -> (2 ^ (Z.of_nat l * VM_VPN_BITS) | ppn) ->
  exists pa pa', page_table_walk read root va = inr pa /\ mu_translate read root va LOAD = inr pa' /\
    (pa' = pa <-> (va / 2 ^ 12) mod 2 ^ (Z.of_nat l * VM_VPN_BITS) = 0).
Proof.
  intros Ev Hva Hh Hp [q ->]. unfold page_table_walk, mu_translate. rewrite Ev, Hh.
  destruct (mu_walk_host _ _ _ _ _ Hh) as [fl ->]. eexists _, _. split_and!; [done|done|].
  pose proof (host_walk_level _ _ _ _ _ Hh) as Hl. pose proof vpn_bits_range.
  rewrite leaf_pa_eq by (done || destruct pt_level_cases as [[? _]|[? _]]; lia).
  set (b := Z.of_nat l * VM_VPN_BITS) in *. assert (0 <= b) by lia.
  rewrite Z.div_mul by lia. rewrite Z.shiftl_mul_pow2, Z.shiftl_1_l, Z.sub_1_r, <- Z.ones_equiv, Z.land_ones by lia.
  assert (0 <= va mod 2 ^ 12 < 2 ^ 12) by (apply Z.mod_pos_bound; lia).
  rewrite u64_small by lia.
  assert (va mod 2 ^ (12 + b) = va mod 2 ^ 12 + 2 ^ 12 * ((va / 2 ^ 12) mod 2 ^ b)) as ->.
  { rewrite Z.pow_add_r by lia. apply Z.rem_mul_r; lia. }
  rewrite Z.pow_add_r by lia. lia.
Qed.
End Walkers.
