(* ===== verification/Radix.v ===== *)
(** * Radix page tables, abstractly

    A page table as a function from a table's page number and an index to the
    entry there.  [tree_ok] says that the tables form a tree: every pointer
    leads one level down to a table of the tree, and no table has two parents.
    Under it, hanging an empty table below an invalid entry changes no
    translation, and writing a leaf changes exactly the translations of the
    addresses that share the leaf's indices. *)

From S2P Require Import Prelude PageTable.

#[local] Arguments Z.testbit : simpl never.
#[local] Arguments Nat.eqb : simpl never.

Section Radix.
Context `{VxConfig}.

(** ** Entries *)

Definition ent_ppn (x : Z) : Z := (x / 2 ^ 10) mod 2 ^ PPN_BITS.
Definition ent_rwx (x : Z) : bool := Z.testbit x 1 || Z.testbit x 2 || Z.testbit x 3.
Definition is_ptr (x : Z) : Prop := Z.testbit x 0 = true /\ ent_rwx x = false.
Definition is_leaf (x : Z) : Prop := Z.testbit x 0 = true /\ Z.testbit x 1 = true.

Lemma leaf_rwx x : is_leaf x -> ent_rwx x = true.
Proof. intros [_ E]. unfold ent_rwx. by rewrite E. Qed.

Lemma ent_ppn_range x : 0 <= ent_ppn x < 2 ^ 44.
Proof.
  unfold ent_ppn, PPN_BITS. destruct sv39.
  - apply Z.mod_pos_bound. lia.
  - pose proof (Z.mod_pos_bound (x / 2 ^ 10) (2 ^ 22) ltac:(lia)). lia.
Qed.

Lemma pte_word_ppn p f : 0 <= p < 2 ^ PPN_BITS -> 0 <= f < 2 ^ 8 -> ent_ppn (p * 2 ^ 10 + f) = p.
Proof. intros Hp Hf. unfold ent_ppn. destruct (pte_word p f Hf) as (-> & _). by apply Z.mod_small. Qed.

Lemma pte_word_bit p f j : 0 <= f < 2 ^ 8 -> 0 <= j < 8 -> Z.testbit (p * 2 ^ 10 + f) j = Z.testbit f j.
Proof.
  intros Hf Hj. rewrite <- (Z.mod_pow2_bits_low (p * 2 ^ 10 + f) 8 j) by lia.
  by destruct (pte_word p f Hf) as (_ & _ & ->).
Qed.

(** ** Walks *)

Definition entries := Z -> Z -> Z.

Fixpoint awalk (E : entries) (va : Z) (i : nat) (t : Z) : option (Z * nat) :=
  let x := E t (vidx va i) in
  if negb (Z.testbit x 0) then None
  else if ent_rwx x then Some (x, i)
  else match i with O => None | S i' => awalk E va i' (ent_ppn x) end.

(** The table of level [j] on the walk of [va]. *)
Fixpoint apath (E : entries) (va : Z) (i : nat) (t : Z) (j : nat) : option Z :=
  if Nat.eqb i j then Some t
  else match i with
       | O => None
       | S i' => let x := E t (vidx va i) in
                 if Z.testbit x 0 && negb (ent_rwx x) then apath E va i' (ent_ppn x) j else None
       end.

Lemma awalk_unfold E va i t :
  awalk E va i t =
  let x := E t (vidx va i) in
  if negb (Z.testbit x 0) then None
  else if ent_rwx x then Some (x, i)
  else match i with O => None | S i' => awalk E va i' (ent_ppn x) end.
Proof. by destruct i. Qed.

Record tree_ok (E : entries) (T : gmap Z nat) (root : Z) : Prop := {
  tr_root : T !! root = Some (PT_LEVEL - 1)%nat;
  tr_entry t i k : T !! t = Some i -> 0 <= k < 2 ^ VM_VPN_BITS ->
    E t k = 0 \/ is_leaf (E t k) \/ (is_ptr (E t k) /\ exists i', i = S i' /\ T !! ent_ppn (E t k) = Some i');
  tr_inj t i k t' i' k' : T !! t = Some i -> T !! t' = Some i' ->
    0 <= k < 2 ^ VM_VPN_BITS -> 0 <= k' < 2 ^ VM_VPN_BITS -> is_ptr (E t k) -> is_ptr (E t' k') ->
    ent_ppn (E t k) = ent_ppn (E t' k') -> t = t' /\ k = k'
}.

Lemma zero_entry x : x = 0 -> Z.testbit x 0 = false.
Proof. intros ->. apply Z.bits_0. Qed.

Section Tree.
Context (E : entries) (T : gmap Z nat) (root : Z) (W : tree_ok E T root).

Lemma ptr_step t i k :
  T !! t = Some i -> 0 <= k < 2 ^ VM_VPN_BITS -> Z.testbit (E t k) 0 = true -> ent_rwx (E t k) = false ->
  exists i', i = S i' /\ T !! ent_ppn (E t k) = Some i'.
Proof using W.
  intros Ht Hk Hv Hr. destruct (tr_entry _ _ _ W t i k Ht Hk) as [E0|[L|[_ P]]]; [|..|done].
  - by rewrite zero_entry in Hv.
  - by rewrite leaf_rwx in Hr.
Qed.

Lemma apath_level va i t j u : T !! t = Some i -> apath E va i t j = Some u -> T !! u = Some j.
Proof using W.
  revert t. induction i as [|i IH]; intros t Ht; simpl.
  - destruct (Nat.eqb_spec 0 j); [|done]. intros. by simplify_eq.
  - destruct (Nat.eqb_spec (S i) j); [intros; by simplify_eq|].
    destruct (Z.testbit _ 0) eqn:Ev, (ent_rwx _) eqn:Er; simpl; try done.
    destruct (ptr_step _ _ _ Ht (vidx_range va (S i)) Ev Er) as (i' & Hi & Ht'). simplify_eq. by apply IH.
Qed.

Lemma apath_above va i t j : (i < j)%nat -> apath E va i t j = None.
Proof.
  revert t. induction i as [|i IH]; intros t Hj; simpl; rewrite (proj2 (Nat.eqb_neq _ _)) by lia; [done|].
  destruct (_ && _); [|done]. apply IH. lia.
Qed.

Lemma apath_parent va i t j u :
  (j < i)%nat -> apath E va i t j = Some u ->
  exists w, apath E va i t (S j) = Some w /\ is_ptr (E w (vidx va (S j))) /\ ent_ppn (E w (vidx va (S j))) = u.
Proof.
  revert t. induction i as [|i IH]; intros t Hj; [lia|]. intros Hp. simpl in Hp.
  rewrite (proj2 (Nat.eqb_neq (S i) j)) in Hp by lia.
  destruct (Z.testbit _ 0) eqn:Ev, (ent_rwx _) eqn:Er; simpl in Hp; try done.
  destruct (decide (i = j)) as [->|Hi].
  - exists t. simpl. rewrite Nat.eqb_refl. split_and!; [done|done|].
    destruct j; simpl in Hp; rewrite ?Nat.eqb_refl in Hp; by simplify_eq.
  - destruct (IH _ ltac:(lia) Hp) as (w & Hw & P & Q). exists w. split_and!; [|done|done].
    simpl. rewrite (proj2 (Nat.eqb_neq (S i) (S j))) by lia. by rewrite Ev, Er.
Qed.

(** The indices above a table determine the path to it. *)
Lemma apath_unique va va' i t j u :
  T !! t = Some i -> (j <= i)%nat -> apath E va i t j = Some u -> apath E va' i t j = Some u ->
  forall l, (j < l <= i)%nat -> vidx va l = vidx va' l.
Proof using W.
  intros Ht Hj. remember (i - j)%nat as d eqn:Ed. revert j u Hj Ed.
  induction d as [|d IH]; intros j u Hj Ed H1 H2 l Hl; [lia|].
  destruct (apath_parent va i t j u ltac:(lia) H1) as (w & A1 & P1 & Q1).
  destruct (apath_parent va' i t j u ltac:(lia) H2) as (w' & A2 & P2 & Q2).
  pose proof (apath_level _ _ _ _ _ Ht A1) as L1. pose proof (apath_level _ _ _ _ _ Ht A2) as L2.
  destruct (tr_inj _ _ _ W _ _ _ _ _ _ L1 L2 (vidx_range _ _) (vidx_range _ _) P1 P2) as [-> Ek]; [congruence|].
  destruct (decide (l = S j)) as [->|]; [done|]. apply (IH (S j) w'); [lia..|done|done|lia].
Qed.
End Tree.

(** ** Changes *)

(** An invalid entry becomes a pointer to an empty table [f]. *)
Record hangs (E E' : entries) (t k f : Z) : Prop := {
  hg_ptr : is_ptr (E' t k) /\ ent_ppn (E' t k) = f;
  hg_new k' : 0 <= k' < 2 ^ VM_VPN_BITS -> E' f k' = 0;
  hg_old t' k' : 0 <= k' < 2 ^ VM_VPN_BITS -> t' <> f -> (t', k') <> (t, k) -> E' t' k' = E t' k'
}.

Section Hang.
Context (E E' : entries) (T : gmap Z nat) (root : Z) (W : tree_ok E T root).
Context (t : Z) (i : nat) (k f : Z) (Ht : T !! t = Some (S i)) (Hk : 0 <= k < 2 ^ VM_VPN_BITS).
Context (Hf : T !! f = None) (H0 : E t k = 0) (G : hangs E E' t k f).

Lemma hang_entry t' j k' :
  T !! t' = Some j -> 0 <= k' < 2 ^ VM_VPN_BITS -> (t', k') <> (t, k) -> E' t' k' = E t' k'.
Proof using Hf G. intros Ht' Hk' Hne. apply (hg_old _ _ _ _ _ G); [done| |done]. congruence. Qed.

Lemma hang_ok : tree_ok E' (<[f := i]> T) root.
Proof using W Ht Hf H0 G.
  assert (forall u j k', <[f := i]> T !! u = Some j -> 0 <= k' < 2 ^ VM_VPN_BITS ->
    (u = f /\ E' u k' = 0) \/ ((u, k') = (t, k)) \/ (T !! u = Some j /\ u <> f /\ (u, k') <> (t, k) /\ E' u k' = E u k')) as C.
  { intros u j k' Hu Hk'. destruct (decide (u = f)) as [->|Hne].
    - left. split; [done|]. by apply (hg_new _ _ _ _ _ G).
    - right. rewrite lookup_insert_ne in Hu by done. destruct (decide ((u, k') = (t, k))); [by left|right].
      split_and!; try done. by eapply hang_entry. }
  constructor.
  - rewrite lookup_insert_ne; [apply W|]. intros ->. by rewrite (tr_root _ _ _ W) in Hf.
  - intros u j k' Hu Hk'. destruct (C _ _ _ Hu Hk') as [[-> ->]|[Ek|(Hu' & Hne & _ & ->)]]; [by left|..].
    + simplify_eq. right. right. destruct (hg_ptr _ _ _ _ _ G) as [P Q]. split; [done|].
      rewrite lookup_insert_ne, Ht in Hu by congruence. injection Hu as <-. exists i. by rewrite Q, lookup_insert_eq.
    + destruct (tr_entry _ _ _ W u j k' Hu' Hk') as [|[|[P (i' & -> & Q)]]]; [by left|by right; left|right; right].
      split; [done|]. exists i'. split; [done|]. rewrite lookup_insert_ne by congruence. done.
  - assert (forall u j k', <[f := i]> T !! u = Some j -> 0 <= k' < 2 ^ VM_VPN_BITS -> is_ptr (E' u k') ->
      ((u, k') = (t, k) /\ ent_ppn (E' u k') = f) \/
      (T !! u = Some j /\ E' u k' = E u k' /\ ent_ppn (E u k') <> f)) as D.
    { intros u j k' Hu Hk' P. destruct (C _ _ _ Hu Hk') as [[-> E0]|[Ek|(Hu' & Hne & _ & Eq)]].
      - rewrite E0 in P. by destruct P as [P _].
      - left. simplify_eq. split; [done|]. apply G.
      - right. split_and!; try done. rewrite Eq in P. destruct P as [Pv Pr].
        destruct (ptr_step _ _ _ W _ _ _ Hu' Hk' Pv Pr) as (i' & _ & Q). congruence. }
    intros u j k' u' j' k'' Hu Hu' Hk1 Hk2 P1 P2 Q.
    destruct (D _ _ _ Hu Hk1 P1) as [[E1 F1]|(T1 & E1 & F1)], (D _ _ _ Hu' Hk2 P2) as [[E2 F2]|(T2 & E2 & F2)];
      try congruence.
    + simplify_eq. done.
    + rewrite E1, E2 in *. eapply (tr_inj _ _ _ W); done.
Qed.

Lemma hang_awalk va j u : T !! u = Some j -> awalk E' va j u = awalk E va j u.
Proof using W Ht Hf H0 G.
  revert u. induction j as [j IH] using lt_wf_ind. intros u Hu. rewrite !awalk_unfold. cbv zeta.
  destruct (decide ((u, vidx va j) = (t, k))) as [Ek|Hne].
  - injection Ek as -> ->. destruct (hg_ptr _ _ _ _ _ G) as [[-> ->] ->].
    rewrite H0, Z.bits_0. simpl. destruct j as [|j]; [done|].
    rewrite awalk_unfold. cbv zeta. by rewrite (hg_new _ _ _ _ _ G), Z.bits_0 by apply vidx_range.
  - rewrite (hang_entry _ _ _ Hu (vidx_range _ _) Hne).
    destruct (Z.testbit _ 0) eqn:Ev; [|done]. simpl. destruct (ent_rwx _) eqn:Er; [done|].
    destruct (ptr_step _ _ _ W _ _ _ Hu (vidx_range _ _) Ev Er) as (j' & -> & Hu'). apply IH; [lia|done].
Qed.

(** A path through the tree before is one after. *)
Lemma hang_apath va j u l w : T !! u = Some j -> apath E va j u l = Some w -> apath E' va j u l = Some w.
Proof using W Ht Hf H0 G.
  revert u. induction j as [|j IH]; intros u Hu; simpl.
  - by destruct (0 =? l)%nat.
  - destruct (S j =? l)%nat; [done|]. destruct (decide ((u, vidx va (S j)) = (t, k))) as [Ek|Hne].
    + injection Ek as -> ->. by rewrite H0, Z.bits_0.
    + rewrite (hang_entry _ _ _ Hu (vidx_range _ _) Hne).
      destruct (Z.testbit _ 0) eqn:Ev, (ent_rwx _) eqn:Er; simpl; try done.
      destruct (ptr_step _ _ _ W _ _ _ Hu (vidx_range _ _) Ev Er) as (j' & Hj & Hu'). simplify_eq. by apply IH.
Qed.

(** The only new path is the one into the new table. *)
Lemma hang_apath_conv va j u l w :
  T !! u = Some j -> apath E' va j u l = Some w ->
  apath E va j u l = Some w \/ (l = i /\ apath E va j u (S i) = Some t /\ vidx va (S i) = k).
Proof using W Ht Hf H0 G.
  revert u. induction j as [|j IH]; intros u Hu; simpl.
  - destruct (0 =? l)%nat; [by left|done].
  - destruct (Nat.eqb_spec (S j) l); [by left|]. destruct (decide ((u, vidx va (S j)) = (t, k))) as [Ek|Hne].
    + injection Ek as -> Ek. rewrite Ek. rewrite Hu in Ht. injection Ht as ->.
      destruct (hg_ptr _ _ _ _ _ G) as [[-> ->] ->]. cbn [negb andb]. intros Hp. right. rewrite Nat.eqb_refl.
      split_and!; [|done|done]. destruct (decide (l = i)) as [|Hli]; [done|]. exfalso.
      destruct i as [|m]; simpl in Hp; rewrite (proj2 (Nat.eqb_neq _ l)) in Hp by done; [done|].
      by rewrite (hg_new _ _ _ _ _ G), Z.bits_0 in Hp by apply vidx_range.
    + rewrite (hang_entry _ _ _ Hu (vidx_range _ _) Hne).
      destruct (Z.testbit _ 0) eqn:Ev, (ent_rwx _) eqn:Er; cbn [negb andb]; try done.
      destruct (ptr_step _ _ _ W _ _ _ Hu (vidx_range _ _) Ev Er) as (j' & Hj & Hu'). simplify_eq. intros Hp.
      destruct (IH _ Hu' Hp) as [|(-> & Hp' & Ek)]; [by left|]. right. split_and!; [done| |done].
      destruct (Nat.eqb_spec (S j') (S i)) as [Eij|]; [|done]. exfalso.
      rewrite apath_above in Hp' by lia. done.
Qed.
End Hang.

(** An invalid entry becomes a leaf. *)
Record plants (E E' : entries) (t k : Z) : Prop := {
  pl_leaf : is_leaf (E' t k);
  pl_old t' k' : 0 <= k' < 2 ^ VM_VPN_BITS -> (t', k') <> (t, k) -> E' t' k' = E t' k'
}.

Section Plant.
Context (E E' : entries) (T : gmap Z nat) (root : Z) (W : tree_ok E T root).
Context (t : Z) (i : nat) (k : Z) (Ht : T !! t = Some i) (H0 : E t k = 0) (G : plants E E' t k).

Lemma leaf_not_ptr x : is_leaf x -> ~ is_ptr x.
Proof. intros L [_ P]. by rewrite leaf_rwx in P. Qed.

Lemma plant_ok : tree_ok E' T root.
Proof using W G.
  constructor; [apply W|..].
  - intros u j k' Hu Hk'. destruct (decide ((u, k') = (t, k))) as [Ek|Hne].
    + injection Ek as -> ->. right. left. apply G.
    + rewrite (pl_old _ _ _ _ G) by done. by apply W.
  - intros u j k1 u' j' k2 Hu Hu' Hk1 Hk2 P1 P2 Q.
    destruct (decide ((u, k1) = (t, k))) as [Ek|N1]; [injection Ek as -> ->|].
    { by destruct (leaf_not_ptr _ (pl_leaf _ _ _ _ G)). }
    destruct (decide ((u', k2) = (t, k))) as [Ek|N2]; [injection Ek as -> ->|].
    { by destruct (leaf_not_ptr _ (pl_leaf _ _ _ _ G)). }
    rewrite (pl_old _ _ _ _ G) in P1, Q by done. rewrite (pl_old _ _ _ _ G) in P2, Q by done.
    by eapply (tr_inj _ _ _ W).
Qed.

(** The walk ends at the new leaf exactly when it passes through the slot. *)
Lemma plant_awalk va j u :
  T !! u = Some j ->
  awalk E' va j u = if bool_decide (apath E va j u i = Some t /\ vidx va i = k) then Some (E' t k, i) else awalk E va j u.
Proof using W Ht H0 G.
  revert u. induction j as [|j IH]; intros u Hu; rewrite (awalk_unfold E'), (awalk_unfold E); cbv zeta; simpl apath.
  - destruct (decide ((u, vidx va 0) = (t, k))) as [Ek|Hne].
    + injection Ek as -> Ek. rewrite Ek. rewrite Hu in Ht. injection Ht as <-.
      rewrite bool_decide_true by (by rewrite Nat.eqb_refl).
      destruct (pl_leaf _ _ _ _ G) as [-> L]. unfold ent_rwx. by rewrite L.
    + rewrite (pl_old _ _ _ _ G) by (apply vidx_range || done). rewrite bool_decide_false; [done|].
      intros [Hp Hv]. by destruct (Nat.eqb_spec 0 i); simplify_eq.
  - destruct (decide ((u, vidx va (S j)) = (t, k))) as [Ek|Hne].
    + injection Ek as -> Ek. rewrite Ek. rewrite Hu in Ht. injection Ht as <-.
      rewrite bool_decide_true by (by rewrite Nat.eqb_refl).
      destruct (pl_leaf _ _ _ _ G) as [-> L]. unfold ent_rwx. by rewrite L.
    + rewrite (pl_old _ _ _ _ G) by (apply vidx_range || done).
      destruct (Nat.eqb_spec (S j) i) as [<-|Hi].
      { rewrite bool_decide_false by (intros [Hp Hv]; by simplify_eq).
        destruct (Z.testbit _ 0) eqn:Ev; [|done]. simpl. destruct (ent_rwx _) eqn:Er; [done|].
        destruct (ptr_step _ _ _ W _ _ _ Hu (vidx_range _ _) Ev Er) as (j' & Hj & Hu'). simplify_eq.
        rewrite IH, bool_decide_false by (done || by rewrite apath_above by lia; intros []). done. }
      destruct (Z.testbit _ 0) eqn:Ev; cbn [negb andb]; [|by rewrite bool_decide_false by (by intros [])].
      destruct (ent_rwx _) eqn:Er; cbn [negb]; [by rewrite bool_decide_false by (by intros [])|].
      destruct (ptr_step _ _ _ W _ _ _ Hu (vidx_range _ _) Ev Er) as (j' & Hj & Hu'). simplify_eq. by apply IH.
Qed.

Lemma plant_apath va j u l : T !! u = Some j -> apath E' va j u l = apath E va j u l.
Proof using W H0 G.
  revert u. induction j as [|j IH]; intros u Hu; simpl; [done|].
  destruct (S j =? l)%nat; [done|]. destruct (decide ((u, vidx va (S j)) = (t, k))) as [Ek|Hne].
  - injection Ek as -> ->. rewrite (leaf_rwx _ (pl_leaf _ _ _ _ G)), andb_false_r, H0, Z.bits_0. done.
  - rewrite (pl_old _ _ _ _ G) by (apply vidx_range || done).
    destruct (Z.testbit _ 0) eqn:Ev, (ent_rwx _) eqn:Er; cbn [negb andb]; try done.
    destruct (ptr_step _ _ _ W _ _ _ Hu (vidx_range _ _) Ev Er) as (j' & Hj & Hu'). simplify_eq. by apply IH.
Qed.
End Plant.
End Radix.

(** ** Addresses that share their indices *)

Section Indices.
Context `{VxConfig}.

Abbreviation block j := (2 ^ (12 + Z.of_nat j * VM_VPN_BITS)).

Lemma block_pos j : 0 < block j.
Proof. pose proof vpn_bits_range. apply Z.pow_pos_nonneg; lia. Qed.

Lemma block_S j : block (S j) = block j * 2 ^ VM_VPN_BITS.
Proof. pose proof vpn_bits_range. rewrite <- Z.pow_add_r by lia. f_equal. lia. Qed.

Lemma block_div va j : va / block j = va / block (S j) * 2 ^ VM_VPN_BITS + vidx va j.
Proof.
  pose proof vpn_bits_range. pose proof (block_pos j). rewrite block_S, <- Z.div_div by lia. unfold vidx.
  pose proof (Z.div_mod (va / block j) (2 ^ VM_VPN_BITS)). lia.
Qed.

Definition shares (va va' : Z) (j : nat) : Prop := va / block j = va' / block j.

#[global] Instance shares_dec va va' j : Decision (shares va va' j).
Proof. unfold shares. apply _. Defined.

Lemma shares_up va va' j l : (j <= l)%nat -> shares va va' j -> shares va va' l.
Proof.
  intros Hl. induction Hl as [|l Hl IH]; [done|]. intros Hs%IH. unfold shares in *. pose proof vpn_bits_range.
  rewrite block_S. pose proof (block_pos l). by rewrite <- !Z.div_div, Hs by lia.
Qed.

Lemma shares_vidx va va' j : shares va va' j -> vidx va j = vidx va' j.
Proof. unfold shares, vidx. by intros ->. Qed.

Lemma vidx_shares va va' j :
  0 <= va < 2 ^ VA_BITS -> 0 <= va' < 2 ^ VA_BITS -> (j <= PT_LEVEL)%nat ->
  (forall l, (j <= l < PT_LEVEL)%nat -> vidx va l = vidx va' l) -> shares va va' j.
Proof.
  intros Hv Hv' Hj. remember (PT_LEVEL - j)%nat as d eqn:Ed. revert j Hj Ed.
  induction d as [|d IH]; intros j Hj Ed Hl; unfold shares.
  - assert (j = PT_LEVEL) as -> by lia. unfold VA_BITS in *. by rewrite !Z.div_small by done.
  - rewrite (block_div va j), (block_div va' j), (Hl j) by lia. f_equal. f_equal. apply (IH (S j)); [lia..|]. intros. apply Hl. lia.
Qed.
End Indices.

(** ** The host's walk *)

Section Host.
Context `{VxConfig} (read : Z -> Z) (T : gmap Z nat) (root : Z).
Abbreviation E := (fun t k => read (pte_addr t k)).
Context (W : tree_ok E T root) (Hr : forall a, 0 <= read a < 2 ^ (8 * PTE_SIZE)).

Lemma low_bit x j : 0 <= j < 8 -> Z.testbit (x mod 2 ^ 8) j = Z.testbit x j.
Proof. intros. apply Z.mod_pow2_bits_low. lia. Qed.

(** An entry of the tree is never the fill pattern. *)
Lemma not_baadf00d x : is_leaf x \/ is_ptr x -> baadf00d x = false.
Proof.
  intros Hx. unfold baadf00d. apply Z.eqb_neq. intros Eq.
  assert (forall j, 0 <= j < 32 -> Z.testbit x j = Z.testbit 0xbaadf00d j) as B.
  { intros j Hj. rewrite <- Eq, Z.land_spec. change 0xFFFFFFFF with (Z.ones 32).
    by rewrite Z.ones_spec_low, andb_true_r by lia. }
  destruct Hx as [[_ L]|[_ P]].
  - rewrite B in L by lia. done.
  - unfold ent_rwx in P. rewrite (B 2) in P by lia. by rewrite orb_true_r in P.
Qed.

Lemma host_walk_awalk va v i t :
  vAddr_make va = Some v -> (i < PT_LEVEL)%nat -> T !! t = Some i ->
  match awalk E va i t with
  | Some (x, l) => host_walk read v i t = inr (ent_ppn x, l)
  | None => exists f, host_walk read v i t = inl f
  end.
Proof using W Hr.
  intros Ev. revert t. induction i as [i IH] using lt_wf_ind. intros t Hi Ht. rewrite awalk_unfold. cbv zeta.
  assert (host_walk read v i t =
    match PTE_of_bytes (read (pte_addr t (va_vpn v !!! i))) with
    | None => inl FaultAssert
    | Some pte =>
        if baadf00d (pte_bytes pte) then inl FaultUninit
        else if negb (pte_v pte) || (negb (pte_r pte) && pte_w pte) then inl FaultInvalid
        else if negb (pte_r pte) && negb (pte_w pte) && negb (pte_x pte) then
          match i with O => inl FaultNoLeaf | S i' => host_walk read v i' (pte_ppn pte) end
        else if negb (pte_r pte) then inl FaultPermission else inr (pte_ppn pte, i)
    end) as -> by (by destruct i).
  rewrite (vAddr_vpn _ _ _ Ev Hi), pte_of_bytes_ok by apply Hr.
  cbn [set_flags pte_bytes pte_v pte_r pte_w pte_x pte_ppn]. rewrite !low_bit by lia. fold (ent_ppn (E t (vidx va i))).
  pose proof (tr_entry _ _ _ W t i _ Ht (vidx_range va i)) as C. cbv beta in *.
  set (x := read (pte_addr t (vidx va i))) in *. destruct C as [->|[L|[P (i' & -> & Ht')]]].
  - rewrite !Z.bits_0. simpl. destruct (baadf00d 0); eauto.
  - rewrite not_baadf00d by (by left). rewrite (leaf_rwx _ L). destruct L as [-> ->]. done.
  - rewrite not_baadf00d by (by right). destruct P as [-> P]. rewrite P. unfold ent_rwx in P.
    apply orb_false_elim in P as [[-> ->]%orb_false_elim ->]. simpl. apply IH; [lia|lia|done].
Qed.

(** Another memory that agrees on the tree's tables gives the same walk. *)
Lemma host_walk_ext (read' : Z -> Z) va v i t :
  vAddr_make va = Some v -> (i < PT_LEVEL)%nat -> T !! t = Some i ->
  (forall u j k, T !! u = Some j -> 0 <= k < 2 ^ VM_VPN_BITS -> read' (pte_addr u k) = read (pte_addr u k)) ->
  host_walk read' v i t = host_walk read v i t.
Proof using W Hr.
  intros Ev Hi Ht Heq. revert t Ht. induction i as [|i IH]; intros t Ht; simpl;
    rewrite (vAddr_vpn _ _ _ Ev Hi), (Heq _ _ _ Ht (vidx_range _ _)); [done|].
  rewrite pte_of_bytes_ok by apply Hr. cbn [set_flags pte_bytes pte_v pte_r pte_w pte_x pte_ppn]. rewrite !low_bit by lia.
  fold (ent_ppn (read (pte_addr t (vidx va (S i))))).
  pose proof (tr_entry _ _ _ W t _ _ Ht (vidx_range va (S i))) as C. cbv beta in C.
  destruct C as [->|[L|[P (i' & Ei & Ht')]]].
  - by rewrite !Z.bits_0.
  - destruct L as [-> ->]. done.
  - injection Ei as <-. rewrite IH by (done || lia). done.
Qed.

(** Where the tree has no leaf, the copy engine passes the address through. *)
Lemma cp_walk_fault (read' : Z -> Z) va v i t f :
  vAddr_make va = Some v -> (i < PT_LEVEL)%nat -> T !! t = Some i ->
  (forall u j k, T !! u = Some j -> 0 <= k < 2 ^ VM_VPN_BITS -> read' (pte_addr u k) = read (pte_addr u k)) ->
  host_walk read v i t = inl f -> cp_walk read' v i t = Some None.
Proof using W Hr.
  intros Ev Hi Ht Heq. revert t Ht. induction i as [|i IH]; intros t Ht; simpl;
    rewrite (vAddr_vpn _ _ _ Ev Hi), (Heq _ _ _ Ht (vidx_range _ _)); rewrite pte_of_bytes_ok by apply Hr;
    cbn [set_flags pte_bytes pte_v pte_r pte_w pte_x pte_ppn]; rewrite !low_bit by lia;
    match type of Ht with _ = Some ?i => fold (ent_ppn (read (pte_addr t (vidx va i)))); pose proof (tr_entry _ _ _ W t _ _ Ht (vidx_range va i)) as C end;
    cbv beta in C; destruct C as [Ex|[L|[P (i' & Ei & Ht')]]]; try done.
  - by rewrite Ex, !Z.bits_0.
  - rewrite not_baadf00d by (by left). destruct L as [-> ->]. done.
  - by rewrite Ex, !Z.bits_0.
  - rewrite not_baadf00d by (by left). destruct L as [-> ->]. done.
  - injection Ei as <-. rewrite not_baadf00d by (by right). destruct P as [-> P]. unfold ent_rwx in P.
    apply orb_false_elim in P as [[-> ->]%orb_false_elim ->]. simpl. apply IH; [lia|done].
Qed.
End Host.

(** Reads that agree on the tree's tables walk alike. *)
Lemma awalk_ext `{VxConfig} (E E' : entries) T root va i t :
  tree_ok E T root -> T !! t = Some i ->
  (forall u j k, T !! u = Some j -> 0 <= k < 2 ^ VM_VPN_BITS -> E' u k = E u k) -> awalk E' va i t = awalk E va i t.
Proof.
  intros W Ht Heq. revert t Ht. induction i as [i IH] using lt_wf_ind. intros t Ht. rewrite !awalk_unfold. cbv zeta.
  rewrite (Heq _ _ _ Ht (vidx_range _ _)). destruct (Z.testbit _ 0) eqn:Ev; [|done]. simpl.
  destruct (ent_rwx _) eqn:Er; [done|].
  destruct (ptr_step _ _ _ W _ _ _ Ht (vidx_range _ _) Ev Er) as (j & -> & Hu). apply IH; [lia|done].
Qed.

Lemma apath_ext `{VxConfig} (E E' : entries) T root va i t j :
  tree_ok E T root -> T !! t = Some i ->
  (forall u j k, T !! u = Some j -> 0 <= k < 2 ^ VM_VPN_BITS -> E' u k = E u k) -> apath E' va i t j = apath E va i t j.
Proof.
  intros W Ht Heq. revert t Ht. induction i as [|i IH]; intros t Ht; simpl; [done|].
  destruct (S i =? j)%nat; [done|]. rewrite (Heq _ _ _ Ht (vidx_range _ _)).
  destruct (Z.testbit _ 0) eqn:Ev, (ent_rwx _) eqn:Er; simpl; try done.
  destruct (ptr_step _ _ _ W _ _ _ Ht (vidx_range _ _) Ev Er) as (i' & Hi & Hu). simplify_eq. by apply IH.
Qed.

Lemma tree_ok_ext `{VxConfig} (E E' : entries) T root :
  tree_ok E T root -> (forall u j k, T !! u = Some j -> 0 <= k < 2 ^ VM_VPN_BITS -> E' u k = E u k) -> tree_ok E' T root.
Proof.
  intros [R1 R2 R3] Heq. constructor; [done|..].
  - intros t i k Ht Hk. rewrite (Heq _ _ _ Ht Hk). by apply R2.
  - intros t i k t' i' k' Ht Ht' Hk Hk'. rewrite (Heq _ _ _ Ht Hk), (Heq _ _ _ Ht' Hk'). by eapply R3.
Qed.

(** ** Walking along a path *)

Section Along.
Context `{VxConfig} (E : entries) (va : Z) (n : nat) (r : Z).

Lemma apath_refl i t : apath E va i t i = Some t.
Proof. destruct i; simpl; by rewrite ?Nat.eqb_refl. Qed.

Lemma apath_split i j t u :
  apath E va i t j = Some u -> (j <= i)%nat -> forall l, (l <= j)%nat -> apath E va i t l = apath E va j u l.
Proof.
  revert t. induction i as [|i IH]; intros t Hp Hj l Hl.
  - assert (j = 0%nat) as -> by lia. simpl in Hp. by simplify_eq.
  - destruct (decide (S i = j)) as [<-|Hne]; [rewrite apath_refl in Hp; by simplify_eq|].
    simpl in Hp |- *. rewrite (proj2 (Nat.eqb_neq (S i) j)) in Hp by done.
    rewrite (proj2 (Nat.eqb_neq (S i) l)) by lia.
    destruct (_ && _); [|done]. apply IH; [done|lia|done].
Qed.

Lemma apath_step i t :
  apath E va n r (S i) = Some t -> (S i <= n)%nat -> is_ptr (E t (vidx va (S i))) ->
  apath E va n r i = Some (ent_ppn (E t (vidx va (S i)))).
Proof.
  intros Hp Hi [P1 P2]. rewrite (apath_split _ _ _ _ Hp) by lia. simpl.
  rewrite (proj2 (Nat.eqb_neq (S i) i)) by lia. rewrite P1, P2. apply apath_refl.
Qed.

Lemma apath_stop i t j :
  apath E va n r i = Some t -> (i <= n)%nat -> ~ is_ptr (E t (vidx va i)) -> (j < i)%nat -> apath E va n r j = None.
Proof.
  intros Hp Hi P Hj. rewrite (apath_split _ _ _ _ Hp) by lia. destruct i as [|i]; [lia|]. simpl.
  rewrite (proj2 (Nat.eqb_neq (S i) j)) by lia. destruct (Z.testbit _ 0) eqn:Ev, (ent_rwx _) eqn:Er; try done.
  by destruct P.
Qed.

Lemma awalk_along i t : apath E va n r i = Some t -> (i <= n)%nat -> awalk E va n r = awalk E va i t.
Proof.
  revert r. induction n as [|m IH]; intros u Hp Hi.
  - assert (i = 0%nat) as -> by lia. simpl in Hp. by simplify_eq.
  - destruct (decide (S m = i)) as [<-|Hne]; [rewrite apath_refl in Hp; by simplify_eq|].
    simpl in Hp. rewrite (proj2 (Nat.eqb_neq (S m) i)) in Hp by done.
    rewrite awalk_unfold. cbv zeta. destruct (Z.testbit _ 0), (ent_rwx _); try done. simpl. apply IH; [done|lia].
Qed.

Lemma awalk_shares va' x l :
  awalk E va n r = Some (x, l) -> (forall j, (l <= j <= n)%nat -> vidx va' j = vidx va j) ->
  awalk E va' n r = Some (x, l) /\ (l <= n)%nat.
Proof.
  revert r. induction n as [|m IH]; intros u Hw Hl; rewrite awalk_unfold in Hw |- *; cbv zeta in *;
    destruct (Z.testbit _ 0) eqn:Ev; try done; cbn [negb] in Hw; destruct (ent_rwx _) eqn:Er; simplify_eq.
  - by rewrite (Hl 0%nat), Ev, Er by lia.
  - rewrite (Hl (S m)), Ev, Er by lia. split; [done|lia].
  - assert ((l <= m)%nat) as Hm.
    { clear - Hw. revert Hw. generalize (ent_ppn (E u (vidx va (S m)))). induction m as [|m IH]; intros w; rewrite awalk_unfold;
        cbv zeta; destruct (Z.testbit _ 0), (ent_rwx _); simpl; intros; simplify_eq; try lia. apply IH in Hw. lia. }
    rewrite (Hl (S m)), Ev, Er by lia. cbn [negb]. destruct (IH _ Hw) as [-> ?]; [|split; [done|lia]].
    intros. apply Hl. lia.
Qed.

Lemma apath_shares va' j :
  (forall l, (j < l <= n)%nat -> vidx va l = vidx va' l) -> apath E va' n r j = apath E va n r j.
Proof.
  revert r. induction n as [|m IH]; intros u Hl; simpl.
  - done.
  - destruct (Nat.eqb_spec (S m) j); [done|]. destruct (Nat.le_gt_cases (S m) j).
    + rewrite !apath_above by lia. by destruct (_ && _), (_ && _).
    + rewrite (Hl (S m)) by lia. destruct (_ && _); [|done]. apply IH. intros. apply Hl. lia.
Qed.
End Along.
