(* ===== verification/Vm.v ===== *)
(** * The host's virtual-memory manager ([sw/runtime/common/vm.cpp])

    [VMManager] builds the page tables the device walks.  It keeps them in a
    host shadow, one vector of [VX_VM_PT_SIZE] bytes per table, marks the pages
    it writes dirty, and pushes whole dirty pages to the device.  Tables come
    from one [MemoryAllocator], virtual addresses from another.

    A shadow page is a finite map from byte offsets to bytes, an absent byte
    being the zero the vector is created with; the device's copy of the tables
    is the map of the pages last transferred.  [None] is a failed assertion, a
    null pointer, an exception that escapes or the use of an indeterminate
    value. *)

From S2P Require Import Prelude Bitmanip PageTable MemAlloc Radix.

Section VMManager.
Context `{VxConfig}.

(** ** Constants ([VX_types.toml], [sw/runtime/common/common.h], [vm.h]) *)

Definition USER_BASE_ADDR : Z := 0x10000.
Definition ALLOC_BASE_ADDR : Z := USER_BASE_ADDR.
Definition PAGE_TABLE_BASE_ADDR : Z := 0xF0000000.
Definition PT_SIZE_LIMIT : Z := if sv39 then 2 ^ 25 else 2 ^ 23.
Definition GLOBAL_MEM_SIZE : Z := if sv39 then 0x200000000 else 0x100000000.
Definition CACHE_BLOCK_SIZE : Z := 64.
Definition VX_MEM_WRITE : Z := 2.

Definition PTE_V : Z := 1.
Definition PTE_R : Z := 2.
Definition PTE_W : Z := 4.
Definition PTE_X : Z := 8.

Definition pte_flags_from_access (access_flags : Z) : Z :=
  let pte := Z.lor PTE_V PTE_R in
  if Z.land access_flags VX_MEM_WRITE =? 0 then pte else Z.lor pte PTE_W.

(** ** State *)

Record VMManager := VM {
  satp_ : option SATP_t;
  page_table_mem_ : option MemoryAllocator;
  virtual_mem_ : option MemoryAllocator;
  addr_mapping : gmap Z Z;
  shadow_pt_ : gmap Z (gmap Z Z);
  dirty_pt_pages_ : gset Z;
  rng_ : nat;                      (* numbers drawn so far *)
  randomize_va_ : bool;
  dev_pt : gmap Z (gmap Z Z)
}.

Definition VMManager_new (randomize : bool) (dev : gmap Z (gmap Z Z)) : VMManager :=
  VM None None None ∅ ∅ ∅ 0 randomize dev.

Definition set_satp_ (s : VMManager) (x : SATP_t) : VMManager :=
  VM (Some x) (page_table_mem_ s) (virtual_mem_ s) (addr_mapping s) (shadow_pt_ s) (dirty_pt_pages_ s)
     (rng_ s) (randomize_va_ s) (dev_pt s).
Definition set_ptm (s : VMManager) (m : MemoryAllocator) : VMManager :=
  VM (satp_ s) (Some m) (virtual_mem_ s) (addr_mapping s) (shadow_pt_ s) (dirty_pt_pages_ s)
     (rng_ s) (randomize_va_ s) (dev_pt s).
Definition set_vm (s : VMManager) (m : MemoryAllocator) : VMManager :=
  VM (satp_ s) (page_table_mem_ s) (Some m) (addr_mapping s) (shadow_pt_ s) (dirty_pt_pages_ s)
     (rng_ s) (randomize_va_ s) (dev_pt s).
Definition set_mapping (s : VMManager) (ppn vpn : Z) : VMManager :=
  VM (satp_ s) (page_table_mem_ s) (virtual_mem_ s) (<[ppn := vpn]> (addr_mapping s)) (shadow_pt_ s)
     (dirty_pt_pages_ s) (rng_ s) (randomize_va_ s) (dev_pt s).
Definition set_shadow (s : VMManager) (sh : gmap Z (gmap Z Z)) (d : gset Z) : VMManager :=
  VM (satp_ s) (page_table_mem_ s) (virtual_mem_ s) (addr_mapping s) sh d (rng_ s) (randomize_va_ s) (dev_pt s).
Definition set_dev (s : VMManager) (dev : gmap Z (gmap Z Z)) : VMManager :=
  VM (satp_ s) (page_table_mem_ s) (virtual_mem_ s) (addr_mapping s) (shadow_pt_ s) ∅ (rng_ s)
     (randomize_va_ s) dev.
Definition set_rng (s : VMManager) (n : nat) : VMManager :=
  VM (satp_ s) (page_table_mem_ s) (virtual_mem_ s) (addr_mapping s) (shadow_pt_ s) (dirty_pt_pages_ s)
     n (randomize_va_ s) (dev_pt s).

Definition get_base_ppn (s : VMManager) : Z := match satp_ s with Some x => satp_ppn x | None => 0 end.
Definition get_mode (s : VMManager) : Z := match satp_ s with Some x => satp_mode x | None => 0 end.
Definition satp (s : VMManager) : Z := match satp_ s with Some x => satp_bits x | None => 0 end.

Definition need_trans (s : VMManager) : bool :=
  negb (match satp_ s with None => true | Some _ => get_mode s =? BARE end).

(** ** The shadow *)

Definition pt_page_of (addr : Z) : Z := Z.land addr (lnot_w 64 (PT_SIZE - 1)).

Definition touch_pt_page (s : VMManager) (addr : Z) : VMManager :=
  let page_pa := pt_page_of addr in
  set_shadow s (match shadow_pt_ s !! page_pa with
                | Some _ => shadow_pt_ s
                | None => <[page_pa := ∅]> (shadow_pt_ s)
                end) ({[page_pa]} ∪ dirty_pt_pages_ s).

Definition peek_pt_page (s : VMManager) (addr : Z) : option (gmap Z Z) := shadow_pt_ s !! pt_page_of addr.

Definition put_bytes (page : gmap Z Z) (off value : Z) : gmap Z Z :=
  fold_left (fun pg i => <[off + i := Z.land (Z.shiftr value (Z.shiftl i 3)) 0xff]> pg) (range PTE_SIZE) page.

Definition get_bytes (page : gmap Z Z) (off : Z) : Z :=
  fold_left (fun v i => Z.lor v (u64 (Z.shiftl (default 0 (page !! (off + i))) (Z.shiftl i 3)))) (range PTE_SIZE) 0.

Definition write_pte (s : VMManager) (addr value : Z) : VMManager :=
  let s := touch_pt_page s addr in
  let page := default ∅ (shadow_pt_ s !! pt_page_of addr) in
  let off := u64 (addr - pt_page_of addr) in
  set_shadow s (<[pt_page_of addr := put_bytes page off value]> (shadow_pt_ s)) (dirty_pt_pages_ s).

Definition read_page (pages : gmap Z (gmap Z Z)) (addr : Z) : Z :=
  match pages !! pt_page_of addr with
  | None => 0
  | Some page =>
      let off := u64 (addr - pt_page_of addr) in
      Z.land (get_bytes page off) (if sv39 then 0xFFFFFFFFFFFFFFFF else 0xFFFFFFFF)
  end.

Definition read_pte (s : VMManager) (addr : Z) : Z := read_page (shadow_pt_ s) addr.

Definition flush (s : VMManager) : VMManager :=
  set_dev s (filter (fun kv => kv.1 ∈ dirty_pt_pages_ s) (shadow_pt_ s) ∪ dev_pt s).

(** ** Tables *)

(** The error flag, the caller's [pt_addr] afterwards and the state. *)
Definition alloc_page_table (s : VMManager) (pt_addr : Z) : option (bool * Z * VMManager) :=
  m ← page_table_mem_ s;
  '(r, m) ← allocate m PT_SIZE;
  let s := set_ptm s m in
  match r with
  | None => Some (true, pt_addr, s)
  | Some a =>
      let s := touch_pt_page s a in
      Some (false, a, set_shadow s (<[pt_page_of a := ∅]> (shadow_pt_ s)) (dirty_pt_pages_ s))
  end.

(** The loop of [update_page_table]: the return value and the state. *)
Fixpoint update_loop (s : VMManager) (ppn vpn pte_flag : Z) (leaf_level : nat) (va : vAddr_t)
    (i : nat) (cur_base_ppn pt_addr : Z) : option (Z * VMManager) :=
  let addr := pte_addr cur_base_ppn (va_vpn va !!! i) in
  let bytes := read_pte s addr in
  pte ← PTE_of_bytes bytes;
  let valid := pte_v pte && negb (baadf00d bytes) in
  if valid && (pte_r pte || pte_w pte || pte_x pte) then
    let span := Z.shiftl 1 (Z.of_nat i * VM_VPN_BITS) in
    let mapped_ppn := Z.lor (Z.land (pte_ppn pte) (lnot_w 64 (span - 1))) (Z.land vpn (span - 1)) in
    Some (if mapped_ppn =? ppn then 0 else -1, s)
  else
    let next s base pt_addr :=
      match i with
      | O => Some (0, s)
      | S i' => update_loop s ppn vpn pte_flag leaf_level va i' base pt_addr
      end in
    if valid then next s (pte_ppn pte) pt_addr
    else if Nat.eqb i leaf_level then
      new_pte ← PTE_make (u64 (Z.shiftl ppn PAGE_LOG2_SIZE)) pte_flag;
      Some (0, write_pte s addr (pte_bytes new_pte))
    else
      '(_, pt_addr, s) ← alloc_page_table s pt_addr;
      new_pte ← PTE_make pt_addr PTE_V;
      next (write_pte s addr (pte_bytes new_pte)) (pte_ppn new_pte) pt_addr.

Definition update_page_table (s : VMManager) (ppn vpn pte_flag : Z) (leaf_level : nat) : option (Z * VMManager) :=
  let ok := if sv39 then (Z.shiftr ppn 44 =? 0) && (Z.shiftr vpn 27 =? 0)
            else (Z.shiftr ppn 20 =? 0) && (Z.shiftr vpn 20 =? 0) in
  if ok && Nat.ltb leaf_level PT_LEVEL then
    va ← vAddr_make (u64 (Z.shiftl vpn PAGE_LOG2_SIZE));
    update_loop s ppn vpn pte_flag leaf_level va (PT_LEVEL - 1) (get_base_ppn s) 0
  else None.

Definition IDENTITY_PTE_FLAGS : Z := Z.lor (Z.lor (Z.lor PTE_V PTE_R) PTE_W) PTE_X.

Fixpoint level_size (l : nat) : Z :=
  match l with
  | O => PAGE_SIZE
  | S l' => level_size l' * (PT_SIZE / PTE_SIZE)
  end.

Fixpoint pick_level (cur remaining : Z) (l : nat) : nat :=
  match l with
  | O => O
  | S l' => if (cur mod level_size l =? 0) && (level_size l <=? remaining) then l else pick_level cur remaining l'
  end.

(** The mapping loop; one page at least is covered by each round. *)
Fixpoint identity_loop (fuel : nat) (s : VMManager) (cur end_ : Z) : option (Z * VMManager) :=
  if cur <? end_ then
    match fuel with
    | O => None
    | S fuel =>
        let leaf_level := pick_level cur (end_ - cur) (PT_LEVEL - 1) in
        let vpn := Z.shiftr cur PAGE_LOG2_SIZE in
        '(err, s) ← update_page_table s vpn vpn IDENTITY_PTE_FLAGS leaf_level;
        if err =? 0 then identity_loop fuel s (u64 (cur + level_size leaf_level)) end_ else Some (err, s)
    end
  else Some (0, flush s).

Definition install_identity_map (s : VMManager) (addr size : Z) : option (Z * VMManager) :=
  m ← virtual_mem_ s;
  '(_, m) ← reserve m addr size;
  identity_loop (Z.to_nat (size / PAGE_SIZE + 1)) (set_vm s m) addr (u64 (addr + size)).

Definition vm_init (s : VMManager) : option (Z * VMManager) :=
  let s := set_ptm s (MemoryAllocator_new PAGE_TABLE_BASE_ADDR PT_SIZE_LIMIT PAGE_SIZE CACHE_BLOCK_SIZE) in
  let size := GLOBAL_MEM_SIZE - ALLOC_BASE_ADDR in
  let virtual_mem_size := if sv39 then size
    else if 0x100000000 <? ALLOC_BASE_ADDR + size then 0x100000000 - ALLOC_BASE_ADDR else size in
  let s := set_vm s (MemoryAllocator_new ALLOC_BASE_ADDR virtual_mem_size PAGE_SIZE CACHE_BLOCK_SIZE) in
  '(err, pt_addr, s) ← alloc_page_table s 0;
  if (err : bool) then Some (255, s) else
  x ← SATP_make pt_addr 0;
  let s := set_satp_ s x in
  '(err, s) ← install_identity_map s 0 USER_BASE_ADDR;
  if negb (err =? 0) then Some (err, s) else
  '(err, s) ← install_identity_map s PAGE_TABLE_BASE_ADDR (GLOBAL_MEM_SIZE - PAGE_TABLE_BASE_ADDR);
  if negb (err =? 0) then Some (err, s) else
  Some (0, flush s).

(** [VMManager::page_table_walk] *)
Definition vm_page_table_walk (s : VMManager) (vAddr : Z) : fault + Z :=
  if negb (need_trans s) then inr vAddr else page_table_walk (read_pte s) (get_base_ppn s) vAddr.

(** ** Virtual addresses *)

(** [dist(rng_)]: the [n]-th number drawn, in [[0, bound)]. *)
Context (draw : nat -> Z -> Z).

Definition vpn_in_use (s : VMManager) (vpn : Z) : bool :=
  List.existsb (fun m => m.2 =? vpn) (map_to_list (addr_mapping s)).

Definition va_range_end : Z :=
  if sv39 then PAGE_TABLE_BASE_ADDR else Z.min PAGE_TABLE_BASE_ADDR 0xFFFFFFFF.

(** The randomized search: the address reserved, if an attempt succeeds. *)
Fixpoint random_va (attempts : nat) (s : VMManager) (num_pages size : Z) : option (option Z * VMManager) :=
  match attempts with
  | O => Some (None, s)
  | S attempts =>
      let max_pages := u64 (Z.shiftr (va_range_end - ALLOC_BASE_ADDR) PAGE_LOG2_SIZE - num_pages) in
      let offset := draw (rng_ s) max_pages in
      let s := set_rng s (S (rng_ s)) in
      let candidate_va := u64 (ALLOC_BASE_ADDR + Z.shiftl offset PAGE_LOG2_SIZE) in
      if List.forallb (fun i => negb (vpn_in_use s (Z.shiftr candidate_va PAGE_LOG2_SIZE + i))) (range num_pages) then
        m ← virtual_mem_ s;
        '(ok, m) ← reserve m candidate_va size;
        if (ok : bool) then Some (Some candidate_va, set_vm s m) else random_va attempts (set_vm s m) num_pages size
      else random_va attempts s num_pages size
  end.

(** The address of [size] bytes of virtual memory; [fail] is what the caller's
    variable holds when the allocation fails. *)
Definition alloc_va (s : VMManager) (num_pages size : Z) (fail : option Z) : option (Z * VMManager) :=
  '(r, s) ← (if randomize_va_ s then random_va 1000 s num_pages size else Some (None, s));
  match r with
  | Some a => Some (a, s)
  | None =>
      m ← virtual_mem_ s;
      '(r, m) ← allocate m size;
      a ← match r with Some a => Some a | None => fail end;
      Some (a, set_vm s m)
  end.

(** [map_p2v]; its draw is bounded by the whole range ([num_pages = 0]) and its
    test by the one page, and [vpn] is indeterminate when the allocation fails. *)
Fixpoint random_vpn (attempts : nat) (s : VMManager) : option (option Z * VMManager) :=
  match attempts with
  | O => Some (None, s)
  | S attempts =>
      let max_pages := Z.shiftr (va_range_end - ALLOC_BASE_ADDR) PAGE_LOG2_SIZE in
      let offset := draw (rng_ s) max_pages in
      let s := set_rng s (S (rng_ s)) in
      let candidate_va := u64 (ALLOC_BASE_ADDR + Z.shiftl offset PAGE_LOG2_SIZE) in
      if negb (vpn_in_use s (Z.shiftr candidate_va PAGE_LOG2_SIZE)) then
        m ← virtual_mem_ s;
        '(ok, m) ← reserve m candidate_va PAGE_SIZE;
        if (ok : bool) then Some (Some (Z.shiftr candidate_va PAGE_LOG2_SIZE), set_vm s m)
        else random_vpn attempts (set_vm s m)
      else random_vpn attempts s
  end.

Definition map_p2v (s : VMManager) (ppn flags : Z) : option (Z * VMManager) :=
  match addr_mapping s !! ppn with
  | Some vpn => Some (vpn, s)
  | None =>
      '(r, s) ← (if randomize_va_ s then random_vpn 1000 s else Some (None, s));
      '(vpn, s) ← match r with
                  | Some vpn => Some (vpn, s)
                  | None => m ← virtual_mem_ s;
                            '(r, m) ← allocate m PAGE_SIZE;
                            a ← r; Some (Z.shiftr a PAGE_LOG2_SIZE, set_vm s m)
                  end;
      '(_, s) ← update_page_table s ppn vpn (pte_flags_from_access flags) 0;
      Some (vpn, flush (set_mapping s ppn vpn))
  end.

(** The page loop of [phy_to_virt_map]; the result of [update_page_table] is
    only printed. *)
Fixpoint map_pages (n : nat) (s : VMManager) (ppn vpn flags : Z) : option VMManager :=
  match n with
  | O => Some s
  | S n =>
      s ← match addr_mapping s !! ppn with
          | Some _ => Some s
          | None => '(_, s) ← update_page_table s ppn vpn (pte_flags_from_access flags) 0;
                    Some (set_mapping s ppn vpn)
          end;
      map_pages n s (ppn + 1) (vpn + 1) flags
  end.

(** [phy_to_virt_map] up to its assertion: the virtual address minted. *)
Definition mint_va (s : VMManager) (size pAddr flags : Z) : option (Z * VMManager) :=
  let num_pages := Z.shiftr (u64 (size + PAGE_SIZE - 1)) PAGE_LOG2_SIZE in
  let base_ppn := Z.shiftr pAddr PAGE_LOG2_SIZE in
  '(base_vpn, s) ← match addr_mapping s !! base_ppn with
                   | Some vpn => Some (vpn, s)
                   | None => '(va, s) ← alloc_va s num_pages size (Some 0);
                             Some (Z.shiftr va PAGE_LOG2_SIZE, s)
                   end;
  let vAddr := Z.lor (u64 (Z.shiftl base_vpn PAGE_LOG2_SIZE)) (Z.land pAddr (Z.shiftl 1 PAGE_LOG2_SIZE - 1)) in
  s ← map_pages (Z.to_nat num_pages) s base_ppn base_vpn flags;
  Some (vAddr, s).

Definition phy_to_virt_map (s : VMManager) (size pAddr flags : Z) : option (Z * VMManager) :=
  if negb (need_trans s) then Some (pAddr, s) else
  '(vAddr, s) ← mint_va s size pAddr flags;
  match vm_page_table_walk s vAddr with
  | inr pa => if pa =? pAddr then Some (vAddr, flush s) else None
  | inl _ => None
  end.

Definition virtual_mem_reserve (s : VMManager) (dev_addr size : Z) : option (Z * VMManager) :=
  m ← virtual_mem_ s;
  '(ok, m) ← reserve m dev_addr size;
  Some (if (ok : bool) then 0 else -1, set_vm s m).
End VMManager.

(** ** Bytes of the shadow *)

Section Shadow.
Context `{VxConfig}.

Lemma span_snoc lo n : span lo (S n) = span lo n ++ [lo + Z.of_nat n].
Proof.
  replace (S n) with (n + 1)%nat by lia. rewrite span_app. unfold span. simpl. by rewrite Z.add_0_r.
Qed.

Definition byte_of (v i : Z) : Z := Z.land (Z.shiftr v (Z.shiftl i 3)) 0xff.

Lemma byte_of_eq v i : 0 <= i -> byte_of v i = (v / 2 ^ (8 * i)) mod 2 ^ 8.
Proof.
  intros. unfold byte_of. rewrite Z.shiftl_mul_pow2 by done. change 0xff with (Z.ones 8).
  rewrite Z.land_ones, Z.shiftr_div_pow2 by lia. do 3 f_equal. lia.
Qed.

Definition put_n (n : nat) (page : gmap Z Z) (off v : Z) : gmap Z Z :=
  fold_left (fun pg i => <[off + i := byte_of v i]> pg) (span 0 n) page.

Lemma put_n_lookup n page off v j :
  put_n n page off v !! j =
  if bool_decide (off <= j < off + Z.of_nat n) then Some (byte_of v (j - off)) else page !! j.
Proof.
  unfold put_n. induction n as [|n IH]; [by rewrite bool_decide_false by lia|].
  rewrite span_snoc, fold_left_app, Z.add_0_l. cbn [fold_left].
  rewrite lookup_insert, IH. destruct (decide (off + Z.of_nat n = j)) as [Ej|Ej].
  - subst j. rewrite bool_decide_true by lia. do 2 f_equal. lia.
  - repeat case_bool_decide; done || lia.
Qed.

Definition get_n (n : nat) (page : gmap Z Z) (off : Z) : Z :=
  fold_left (fun x i => Z.lor x (u64 (Z.shiftl (default 0 (page !! (off + i))) (Z.shiftl i 3)))) (span 0 n) 0.

Lemma get_n_eq n page off v :
  (n <= 8)%nat -> (forall i, 0 <= i < Z.of_nat n -> default 0 (page !! (off + i)) = byte_of v i) ->
  get_n n page off = v mod 2 ^ (8 * Z.of_nat n).
Proof.
  unfold get_n. induction n as [|n IH]; intros Hn Hb; [by rewrite Z.mod_1_r|].
  rewrite span_snoc, fold_left_app, Z.add_0_l. cbn [fold_left].
  rewrite IH by (lia || intros; apply Hb; lia).
  rewrite (Hb (Z.of_nat n)), byte_of_eq by lia.
  pose proof (Z.mod_pos_bound (v / 2 ^ (8 * Z.of_nat n)) (2 ^ 8) ltac:(lia)) as B.
  pose proof (Z.mod_pos_bound v (2 ^ (8 * Z.of_nat n)) ltac:(lia)) as C.
  assert (Z.shiftl (Z.of_nat n) 3 = 8 * Z.of_nat n) as -> by (rewrite Z.shiftl_mul_pow2; lia).
  assert (2 ^ 8 * 2 ^ (8 * Z.of_nat n) <= 2 ^ 64) by (rewrite <- Z.pow_add_r by lia; apply Z.pow_le_mono_r; lia).
  rewrite u64_small by (rewrite Z.shiftl_mul_pow2 by lia; nia). rewrite Z.lor_comm, lor_disjoint by lia.
  replace (8 * Z.of_nat (S n)) with (8 * Z.of_nat n + 8) by lia. rewrite Z.pow_add_r, Z.rem_mul_r by lia. lia.
Qed.

Lemma get_n_ext n page page' off :
  (forall i, 0 <= i < Z.of_nat n -> page !! (off + i) = page' !! (off + i)) -> get_n n page off = get_n n page' off.
Proof.
  intros He. unfold get_n. apply fold_left_ext_in. intros x i Hi%elem_of_span. by rewrite He by lia.
Qed.

Lemma pte_size_cases : PTE_SIZE = 8 \/ PTE_SIZE = 4.
Proof. unfold PTE_SIZE. destruct sv39; auto. Qed.

Lemma put_bytes_n page off v : put_bytes page off v = put_n (Z.to_nat PTE_SIZE) page off v.
Proof. unfold put_bytes, put_n. by rewrite range_span. Qed.

Lemma get_bytes_n page off : get_bytes page off = get_n (Z.to_nat PTE_SIZE) page off.
Proof. unfold get_bytes, get_n. by rewrite range_span. Qed.

Lemma get_put page off v : 0 <= v < 2 ^ (8 * PTE_SIZE) -> get_bytes (put_bytes page off v) off = v.
Proof.
  intros Hv. pose proof pte_size_cases. rewrite get_bytes_n, put_bytes_n, (get_n_eq _ _ _ v); [|lia|].
  - rewrite Z.mod_small; [done|]. by rewrite Z2Nat.id by lia.
  - intros i Hi. rewrite put_n_lookup, bool_decide_true by lia. simpl. f_equal. lia.
Qed.

Lemma get_put_ne page off off' v :
  off + PTE_SIZE <= off' \/ off' + PTE_SIZE <= off -> get_bytes (put_bytes page off v) off' = get_bytes page off'.
Proof.
  intros Ho. pose proof pte_size_cases. rewrite !get_bytes_n, put_bytes_n. apply get_n_ext.
  intros i Hi. rewrite put_n_lookup, bool_decide_false by lia. done.
Qed.

(** ** Entries of the shadow *)

Definition slot_ok (t k : Z) : Prop := 0 <= t < 2 ^ 44 /\ 0 <= k < 2 ^ VM_VPN_BITS.

Lemma pte_addr_eq t k : slot_ok t k -> pte_addr t k = t * 2 ^ 12 + k * PTE_SIZE /\ k * PTE_SIZE + PTE_SIZE <= 2 ^ 12.
Proof.
  intros [Ht Hk]. pose proof pt_geometry as G. unfold PT_SIZE, PAGE_SIZE, PAGE_LOG2_SIZE in *.
  pose proof pte_size_cases. unfold pte_addr, PT_SIZE, PAGE_SIZE, PAGE_LOG2_SIZE.
  split; [apply u64_small|]; nia.
Qed.

Lemma pt_page_of_eq t off : 0 <= t < 2 ^ 52 -> 0 <= off < 2 ^ 12 -> pt_page_of (t * 2 ^ 12 + off) = t * 2 ^ 12.
Proof.
  intros Ht Ho. unfold pt_page_of, PT_SIZE, PAGE_SIZE, PAGE_LOG2_SIZE. rewrite land_lnot_low by lia.
  rewrite Z.add_comm, Z.mod_add, Z.mod_small by lia. lia.
Qed.

Lemma slot_page t k : slot_ok t k -> pt_page_of (pte_addr t k) = t * 2 ^ 12.
Proof.
  intros Hs. destruct (pte_addr_eq t k Hs) as [-> ?]. destruct Hs. pose proof pte_size_cases.
  apply pt_page_of_eq; nia.
Qed.

Lemma slot_off t k : slot_ok t k -> u64 (pte_addr t k - pt_page_of (pte_addr t k)) = k * PTE_SIZE.
Proof.
  intros Hs. rewrite slot_page by done. destruct (pte_addr_eq t k Hs) as [-> ?]. destruct Hs.
  pose proof pte_size_cases. rewrite Z.add_simpl_l. apply u64_small. nia.
Qed.

Lemma read_mask_eq : (if sv39 then 0xFFFFFFFFFFFFFFFF else 0xFFFFFFFF) = Z.ones (8 * PTE_SIZE).
Proof. unfold PTE_SIZE. by destruct sv39. Qed.

Lemma read_page_range pages a : 0 <= read_page pages a < 2 ^ (8 * PTE_SIZE).
Proof.
  pose proof pte_size_cases. unfold read_page. destruct (pages !! _) as [pg|]; [|lia]. cbv zeta.
  rewrite read_mask_eq, Z.land_ones by lia. apply Z.mod_pos_bound. lia.
Qed.

Lemma read_page_slot pages t k :
  slot_ok t k ->
  read_page pages (pte_addr t k) = get_bytes (default ∅ (pages !! (t * 2 ^ 12))) (k * PTE_SIZE) mod 2 ^ (8 * PTE_SIZE).
Proof.
  intros Hs. pose proof pte_size_cases. unfold read_page. rewrite slot_off, slot_page by done.
  destruct (pages !! _) as [pg|]; cbv zeta; simpl default.
  - by rewrite read_mask_eq, Z.land_ones by lia.
  - rewrite get_bytes_n, (get_n_eq _ _ _ 0); [|lia|].
    + by rewrite !Z.mod_0_l by lia.
    + intros i Hi. rewrite lookup_empty. by rewrite byte_of_eq, Z.div_0_l by lia.
Qed.
End Shadow.

(** ** The page-table allocator

    Only whole tables are ever requested of it and none is released: after
    [n] requests it holds [n] adjacent pages, each one used block. *)

Section TableMemory.
Context `{VxConfig}.

Definition full_page (a : Z) : page_t := Page a 4096 64 {[ a := 4096 ]} [a] [] [].

Fixpoint fulls (lo : Z) (n : nat) : list page_t :=
  match n with O => [] | S n => full_page lo :: fulls (lo + 4096) n end.

Definition pt_mem (n : nat) : MemoryAllocator :=
  Allocator PAGE_TABLE_BASE_ADDR PT_SIZE_LIMIT 4096 64 (fulls PAGE_TABLE_BASE_ADDR n) (4096 * Z.of_nat n).

Lemma fulls_snoc lo n : fulls lo (S n) = fulls lo n ++ [full_page (lo + 4096 * Z.of_nat n)].
Proof.
  revert lo. induction n as [|n IH]; intros lo; [simpl; by rewrite Z.add_0_r|].
  simpl fulls. f_equal. change (full_page (lo + 4096) :: fulls (lo + 4096 + 4096) n) with (fulls (lo + 4096) (S n)).
  rewrite IH. by replace (lo + 4096 + 4096 * Z.of_nat n) with (lo + 4096 * Z.of_nat (S n)) by lia.
Qed.

Lemma length_fulls lo n : length (fulls lo n) = n.
Proof. revert lo. induction n as [|n IH]; intros lo; simpl; [done|]. by rewrite IH. Qed.

Lemma find_page_fulls lo n : find_page (fun p => findFreeBlock p 4096) (fulls lo n) = None.
Proof. revert lo. induction n as [|n IH]; intros lo; simpl; [done|]. by rewrite IH. Qed.

Lemma next_gap_fulls hi lo n :
  0 <= lo -> lo + 4096 * Z.of_nat n + 4096 < 2 ^ 64 ->
  next_gap hi 4096 lo (fulls lo n) =
  if lo + 4096 * Z.of_nat n + 4096 <=? hi then Some (lo + 4096 * Z.of_nat n) else None.
Proof.
  revert lo. induction n as [|n IH]; intros lo Hlo Hn; simpl fulls; simpl next_gap.
  - rewrite u64_small by lia. by rewrite Z.mul_0_r, Z.add_0_r.
  - rewrite !u64_small by lia. rewrite (proj2 (Z.leb_gt (lo + 4096) lo)) by lia. rewrite IH by lia.
    by replace (lo + 4096 + 4096 * Z.of_nat n) with (lo + 4096 * Z.of_nat (S n)) by lia.
Qed.

Lemma page_skip_fulls a lo n : lo + 4096 * Z.of_nat n <= a -> page_skip a (fulls lo n) = n.
Proof.
  revert lo. induction n as [|n IH]; intros lo Ha; simpl; [done|].
  rewrite (proj2 (Z.ltb_lt lo a)) by lia. by rewrite IH by lia.
Qed.

Lemma page_pos_fulls lo n : page_pos (lo + 4096 * Z.of_nat n) (fulls lo n) = n.
Proof.
  destruct n as [|n]; simpl; [done|].
  rewrite (proj2 (Z.ltb_ge _ lo)) by lia. by rewrite page_skip_fulls by lia.
Qed.

Lemma pt_limit_bounds : 2 ^ 23 <= PT_SIZE_LIMIT <= 2 ^ 25.
Proof. unfold PT_SIZE_LIMIT. destruct sv39; lia. Qed.

Lemma new_full_page a : page_allocate (page_new a 4096 64) 4096 a = full_page a.
Proof.
  unfold page_allocate. cbn [page_new pg_store freeMList freeSList pg_blockAlign usedList pg_addr pg_size].
  unfold bsize. rewrite lookup_singleton_eq. simpl default. cbn [unlink]. rewrite Z.eqb_refl. done.
Qed.

Lemma new_page_find a : findFreeBlock (page_new a 4096 64) 4096 = Some a.
Proof.
  unfold findFreeBlock, bsize. cbn [page_new freeSList pg_store]. by rewrite lookup_singleton_eq.
Qed.

Lemma pt_next n :
  (0 < n)%nat -> 4096 * Z.of_nat n <= PT_SIZE_LIMIT ->
  findNextAddress (pt_mem n) 4096 =
  if 4096 * Z.of_nat n + 4096 <=? PT_SIZE_LIMIT then Some (PAGE_TABLE_BASE_ADDR + 4096 * Z.of_nat n) else None.
Proof.
  intros Hn Hl. pose proof pt_limit_bounds. destruct n as [|n]; [lia|].
  change (findNextAddress (pt_mem (S n)) 4096) with
    (next_gap (u64 (PAGE_TABLE_BASE_ADDR + PT_SIZE_LIMIT)) 4096 PAGE_TABLE_BASE_ADDR (fulls PAGE_TABLE_BASE_ADDR (S n))).
  rewrite next_gap_fulls by (unfold PAGE_TABLE_BASE_ADDR; lia).
  rewrite u64_small by (unfold PAGE_TABLE_BASE_ADDR; lia). bool_cases; done || lia.
Qed.

(** The [n]-th table is the [n]-th page of the region, while there is room. *)
Lemma pt_alloc n :
  4096 * Z.of_nat n + 4096 <= PT_SIZE_LIMIT ->
  allocate (pt_mem n) PT_SIZE = Some (Some (PAGE_TABLE_BASE_ADDR + 4096 * Z.of_nat n), pt_mem (S n)).
Proof.
  intros Hn. pose proof pt_limit_bounds. unfold allocate, PT_SIZE. change (PAGE_SIZE =? 0) with false. cbv iota.
  change (alignSize PAGE_SIZE (blockAlign_ (pt_mem n))) with (Some 4096). bind_simpl. cbn [pt_mem pages_].
  rewrite find_page_fulls. change (alignSize 4096 (pageAlign_ (pt_mem n))) with (Some 4096). bind_simpl.
  assert (findNextAddress (pt_mem n) 4096 = Some (PAGE_TABLE_BASE_ADDR + 4096 * Z.of_nat n)) as E.
  { destruct n as [|n]; [done|]. rewrite pt_next by lia. by rewrite (proj2 (Z.leb_le _ _)) by lia. }
  fold (pt_mem n). rewrite E. unfold createPage. cbn [pt_mem pages_ blockAlign_]. rewrite page_pos_fulls.
  rewrite firstn_all2, drop_ge by (rewrite length_fulls; lia).
  unfold take_block. rewrite lookup_app_r, length_fulls, Nat.sub_diag by (rewrite length_fulls; lia).
  cbn [lookup list_lookup mbind option_bind]. rewrite new_page_find. bind_simpl.
  rewrite insert_app_r_alt, length_fulls, Nat.sub_diag by (rewrite length_fulls; lia). cbn [insert list_insert].
  rewrite new_full_page, <- fulls_snoc. do 3 f_equal. unfold set_pages, pt_mem.
  cbn [baseAddress_ capacity_ pageAlign_ blockAlign_ allocated_]. f_equal. rewrite u64_small; lia.
Qed.

(** Exhausted, it reports an error and stays as it is. *)
Lemma pt_alloc_full n :
  (0 < n)%nat -> PT_SIZE_LIMIT < 4096 * Z.of_nat n + 4096 -> 4096 * Z.of_nat n <= PT_SIZE_LIMIT ->
  allocate (pt_mem n) PT_SIZE = Some (None, pt_mem n).
Proof.
  intros Hn Hl Hn'. pose proof pt_limit_bounds. unfold allocate, PT_SIZE. change (PAGE_SIZE =? 0) with false. cbv iota.
  change (alignSize PAGE_SIZE (blockAlign_ (pt_mem n))) with (Some 4096). bind_simpl. cbn [pt_mem pages_].
  rewrite find_page_fulls. change (alignSize 4096 (pageAlign_ (pt_mem n))) with (Some 4096). bind_simpl.
  assert (findNextAddress (pt_mem n) 4096 = None) as E.
  { rewrite pt_next by done. by rewrite (proj2 (Z.leb_gt _ _)) by lia. }
  fold (pt_mem n). by rewrite E.
Qed.
End TableMemory.

(** ** The tables as a tree *)

Section Tables.
Context `{VxConfig}.

Definition ROOT : Z := 0xF0000.

Definition ent (s : VMManager) : entries := fun t k => read_pte s (pte_addr t k).

Lemma write_shadow s a v :
  shadow_pt_ (write_pte s a v) =
  <[pt_page_of a := put_bytes (default ∅ (shadow_pt_ s !! pt_page_of a)) (u64 (a - pt_page_of a)) v]> (shadow_pt_ s).
Proof.
  unfold write_pte, touch_pt_page. cbn [set_shadow shadow_pt_].
  destruct (shadow_pt_ s !! pt_page_of a) as [pg|] eqn:E; simpl.
  - by rewrite E.
  - by rewrite lookup_insert_eq, insert_insert_eq.
Qed.

Lemma ent_write s t k v t' k' :
  slot_ok t k -> slot_ok t' k' -> 0 <= v < 2 ^ (8 * PTE_SIZE) ->
  ent (write_pte s (pte_addr t k) v) t' k' = if decide ((t', k') = (t, k)) then v else ent s t' k'.
Proof.
  intros Hs Hs' Hv. unfold ent, read_pte. rewrite !read_page_slot, write_shadow, slot_off, slot_page by done.
  pose proof pte_size_cases. destruct (decide (t' = t)) as [->|Ht].
  - rewrite lookup_insert_eq. cbn [from_option id]. destruct (decide (k' = k)) as [->|Hk].
    + rewrite decide_True by done. rewrite get_put, Z.mod_small; done.
    + rewrite decide_False by congruence. rewrite get_put_ne by nia. done.
  - rewrite decide_False by congruence. rewrite lookup_insert_ne by lia. done.
Qed.

(** What the loop leaves alone. *)
Record vm_frame (s s' : VMManager) : Prop := {
  vf_satp : satp_ s' = satp_ s;
  vf_vm : virtual_mem_ s' = virtual_mem_ s;
  vf_map : addr_mapping s' = addr_mapping s;
  vf_rng : rng_ s' = rng_ s;
  vf_rand : randomize_va_ s' = randomize_va_ s;
  vf_dev : dev_pt s' = dev_pt s
}.

#[global] Instance vm_frame_preorder : PreOrder vm_frame.
Proof. split; [by constructor|]. intros x y z [] []. constructor; congruence. Qed.

Lemma write_frame s a v : vm_frame s (write_pte s a v).
Proof. by constructor. Qed.

(** The root the manager programs. *)
Lemma satp_start : exists x, SATP_make (ROOT * 2 ^ 12) 0 = Some x /\ satp_ppn x = ROOT /\ satp_mode x = VM_ADDR_MODE.
Proof. unfold SATP_make, VM_ADDR_MODE. destruct sv39; eexists; done. Qed.

Record vm_inv (s : VMManager) (T : gmap Z nat) (n : nat) : Prop := {
  vi_satp : satp_ s = SATP_make (ROOT * 2 ^ 12) 0;
  vi_ptm : page_table_mem_ s = Some (pt_mem n);
  vi_room : 4096 * Z.of_nat n <= PT_SIZE_LIMIT;
  vi_dom t i : T !! t = Some i -> ROOT <= t < ROOT + Z.of_nat n /\ is_Some (shadow_pt_ s !! (t * 2 ^ 12));
  vi_tree : tree_ok (ent s) T ROOT;
  vi_dev p pg : shadow_pt_ s !! p = Some pg -> p ∈ dirty_pt_pages_ s \/ dev_pt s !! p = Some pg
}.

Lemma inv_table s T n t i : vm_inv s T n -> T !! t = Some i -> 0 <= t < 2 ^ 44.
Proof.
  intros I Ht. destruct (vi_dom _ _ _ I _ _ Ht) as [? _]. pose proof (vi_room _ _ _ I). pose proof pt_limit_bounds.
  unfold ROOT in *. lia.
Qed.

Lemma inv_slot s T n t i va l : vm_inv s T n -> T !! t = Some i -> slot_ok t (vidx va l).
Proof. intros I Ht. split; [by eapply inv_table|apply vidx_range]. Qed.

Lemma write_dev s t k v :
  slot_ok t k ->
  (forall p pg, shadow_pt_ s !! p = Some pg -> p ∈ dirty_pt_pages_ s \/ dev_pt s !! p = Some pg) ->
  forall p pg, shadow_pt_ (write_pte s (pte_addr t k) v) !! p = Some pg ->
    p ∈ dirty_pt_pages_ (write_pte s (pte_addr t k) v) \/ dev_pt (write_pte s (pte_addr t k) v) !! p = Some pg.
Proof.
  intros Hs D p pg. rewrite write_shadow. unfold write_pte, touch_pt_page. cbn [set_shadow dirty_pt_pages_ dev_pt].
  destruct (decide (p = pt_page_of (pte_addr t k))) as [->|Hp].
  - intros _. left. set_solver.
  - rewrite lookup_insert_ne by done. intros [|]%D; [left; set_solver|by right].
Qed.

(** Writing a leaf into an empty slot. *)
Section PlantLeaf.
Context (s : VMManager) (T : gmap Z nat) (n : nat) (I : vm_inv s T n).
Context (t : Z) (i : nat) (k w : Z) (Ht : T !! t = Some i) (Hk : 0 <= k < 2 ^ VM_VPN_BITS).
Context (Hw : 0 <= w < 2 ^ (8 * PTE_SIZE)) (Lw : is_leaf w) (H0 : ent s t k = 0).
Abbreviation s' := (write_pte s (pte_addr t k) w).

Lemma plant_entries u j k' :
  T !! u = Some j -> 0 <= k' < 2 ^ VM_VPN_BITS -> ent s' u k' = if decide ((u, k') = (t, k)) then w else ent s u k'.
Proof using I Ht Hk Hw. intros Hu Hk'. apply ent_write; [split; [by eapply inv_table|done]..|done]. Qed.

(** The entries as the abstract tree sees them, outside it unchanged. *)
Definition planted : entries := fun u k' => if decide ((u, k') = (t, k)) then w else ent s u k'.

Lemma planted_plants : plants (ent s) planted t k.
Proof using Lw.
  constructor; unfold planted; [by rewrite decide_True by done|]. intros u k' _ Hne. by rewrite decide_False.
Qed.

Lemma planted_agrees u j k' : T !! u = Some j -> 0 <= k' < 2 ^ VM_VPN_BITS -> ent s' u k' = planted u k'.
Proof using I Ht Hk Hw. apply plant_entries. Qed.

Lemma plant_inv : vm_inv s' T n.
Proof using I Ht Hk Hw Lw.
  assert (slot_ok t k) as Hs by (split; [by eapply inv_table|done]). destruct I as [I1 I2 I3 I4 I5 I6].
  constructor; try done.
  - intros u j Hu. destruct (I4 _ _ Hu) as [? [pg E]]. split; [done|]. rewrite write_shadow.
    destruct (decide (u * 2 ^ 12 = pt_page_of (pte_addr t k))) as [->|Hne]; [by rewrite lookup_insert_eq|].
    by rewrite lookup_insert_ne, E by done.
  - eapply tree_ok_ext; [exact (plant_ok _ _ _ _ I5 _ _ planted_plants)|]. intros. by eapply planted_agrees.
  - by apply write_dev.
Qed.

Lemma plant_walk va :
  awalk (ent s') va (PT_LEVEL - 1) ROOT =
  if bool_decide (apath (ent s) va (PT_LEVEL - 1) ROOT i = Some t /\ vidx va i = k) then Some (w, i)
  else awalk (ent s) va (PT_LEVEL - 1) ROOT.
Proof using I Ht Hk Hw Lw H0.
  pose proof (vi_tree _ _ _ I) as W. pose proof (tr_root _ _ _ W) as Hr.
  rewrite (awalk_ext planted _ T ROOT); [|exact (plant_ok _ _ _ _ W _ _ planted_plants)|done|intros; by eapply planted_agrees].
  rewrite (plant_awalk _ _ _ _ W _ _ _ Ht H0 planted_plants _ _ _ Hr). unfold planted at 1. by rewrite decide_True.
Qed.

Lemma plant_paths va j : apath (ent s') va (PT_LEVEL - 1) ROOT j = apath (ent s) va (PT_LEVEL - 1) ROOT j.
Proof using I Ht Hk Hw Lw H0.
  pose proof (vi_tree _ _ _ I) as W. pose proof (tr_root _ _ _ W) as Hr.
  rewrite (apath_ext planted _ T ROOT); [|exact (plant_ok _ _ _ _ W _ _ planted_plants)|done|intros; by eapply planted_agrees].
  eapply plant_apath; [done|done|exact planted_plants|done].
Qed.
End PlantLeaf.

(** Hanging a new table below an empty slot. *)
Definition new_table (n : nat) : Z := ROOT + Z.of_nat n.

(** The state after [alloc_page_table] succeeded. *)
Definition with_table (s : VMManager) (n : nat) : VMManager :=
  VM (satp_ s) (Some (pt_mem (S n))) (virtual_mem_ s) (addr_mapping s)
     (<[new_table n * 2 ^ 12 := ∅]> (shadow_pt_ s)) ({[new_table n * 2 ^ 12]} ∪ dirty_pt_pages_ s)
     (rng_ s) (randomize_va_ s) (dev_pt s).

Lemma alloc_page_table_ok s n pt_addr :
  page_table_mem_ s = Some (pt_mem n) -> 4096 * Z.of_nat n + 4096 <= PT_SIZE_LIMIT ->
  alloc_page_table s pt_addr = Some (false, new_table n * 2 ^ 12, with_table s n).
Proof.
  intros Em Hn. pose proof pt_limit_bounds. unfold alloc_page_table. rewrite Em. bind_simpl. rewrite pt_alloc by done. bind_simpl.
  assert (PAGE_TABLE_BASE_ADDR + 4096 * Z.of_nat n = new_table n * 2 ^ 12 + 0) as ->
    by (unfold PAGE_TABLE_BASE_ADDR, new_table, ROOT; lia).
  unfold touch_pt_page, set_ptm, set_shadow. rewrite pt_page_of_eq by (unfold new_table, ROOT; lia).
  cbn [satp_ virtual_mem_ addr_mapping shadow_pt_ dirty_pt_pages_ rng_ randomize_va_ dev_pt page_table_mem_].
  rewrite Z.add_0_r. do 2 f_equal. unfold with_table. f_equal.
  destruct (shadow_pt_ s !! _); [done|]. by rewrite insert_insert_eq.
Qed.

Section HangTable.
Context (s : VMManager) (T : gmap Z nat) (n : nat) (I : vm_inv s T n).
Context (t : Z) (i : nat) (k : Z) (Ht : T !! t = Some (S i)) (Hk : 0 <= k < 2 ^ VM_VPN_BITS).
Context (H0 : ent s t k = 0) (Hn : 4096 * Z.of_nat n + 4096 <= PT_SIZE_LIMIT).
Abbreviation f := (new_table n).
Abbreviation w := (f * 2 ^ 10 + PTE_V).
Abbreviation s' := (write_pte (with_table s n) (pte_addr t k) w).

Lemma new_table_range : 0 <= f < 2 ^ 20 /\ T !! f = None.
Proof using I Hn.
  pose proof pt_limit_bounds. split; [unfold new_table, ROOT; lia|].
  destruct (T !! f) as [j|] eqn:E; [|done]. destruct (vi_dom _ _ _ I _ _ E) as [? _]. unfold new_table, ROOT in *. lia.
Qed.

Lemma new_ptr : 0 <= w < 2 ^ (8 * PTE_SIZE) /\ is_ptr w /\ ent_ppn w = f.
Proof using I Hn.
  destruct new_table_range as [Hf _]. unfold PTE_V. split; [|split].
  - destruct pte_size_cases as [->| ->]; lia.
  - split; [by rewrite pte_word_bit|]. unfold ent_rwx. by rewrite !pte_word_bit by lia.
  - apply pte_word_ppn; [|lia]. unfold PPN_BITS. destruct sv39; lia.
Qed.

Lemma with_table_ent u k' :
  0 <= u < 2 ^ 44 -> 0 <= k' < 2 ^ VM_VPN_BITS ->
  ent (with_table s n) u k' = if decide (u = f) then 0 else ent s u k'.
Proof.
  intros Hu Hk'. unfold ent, read_pte. rewrite !read_page_slot by done. cbn [with_table shadow_pt_].
  destruct (decide (u = f)) as [->|Hne].
  - rewrite lookup_insert_eq. cbn [from_option id]. pose proof pte_size_cases.
    rewrite get_bytes_n, (get_n_eq _ _ _ 0); [by rewrite !Z.mod_0_l by lia|lia|].
    intros j Hj. rewrite lookup_empty. by rewrite byte_of_eq, Z.div_0_l by lia.
  - by rewrite lookup_insert_ne by lia.
Qed.

Definition hung : entries := fun u k' =>
  if decide ((u, k') = (t, k)) then w else if decide (u = f) then 0 else ent s u k'.

Lemma hung_hangs : hangs (ent s) hung t k f.
Proof using I Ht Hn.
  destruct new_table_range as [Hf Tf]. destruct new_ptr as (_ & P & Q). unfold hung. constructor.
  - by rewrite decide_True.
  - intros k' _. rewrite decide_False by congruence. by rewrite decide_True.
  - intros u k' _ Hu Hne. by rewrite !decide_False.
Qed.

Lemma hung_agrees u j k' :
  <[f := i]> T !! u = Some j -> 0 <= k' < 2 ^ VM_VPN_BITS -> ent s' u k' = hung u k'.
Proof using I Ht Hk Hn.
  intros Hu Hk'. destruct new_table_range as [Hf _]. destruct new_ptr as (Hw & _).
  assert (0 <= u < 2 ^ 44).
  { apply lookup_insert_Some in Hu as [[<- _]|[_ Hu]]; [lia|by eapply inv_table]. }
  rewrite ent_write by (done || (split; [by eapply inv_table|done])). unfold hung. by rewrite with_table_ent.
Qed.

Lemma hung_tree : tree_ok hung (<[f := i]> T) ROOT.
Proof using I Ht H0 Hn. eapply hang_ok; [apply I|done|apply new_table_range|done|apply hung_hangs]. Qed.

Lemma hang_inv : vm_inv s' (<[f := i]> T) (S n).
Proof using I Ht Hk H0 Hn.
  assert (slot_ok t k) as Hs by (split; [by eapply inv_table|done]). pose proof hung_tree as W.
  destruct I as [I1 I2 I3 I4 I5 I6]. constructor; try done.
  - lia.
  - intros u j Hu. assert (is_Some (shadow_pt_ (with_table s n) !! (u * 2 ^ 12)) /\ ROOT <= u < ROOT + Z.of_nat (S n)) as [[pg E] B].
    { cbn [with_table shadow_pt_]. apply lookup_insert_Some in Hu as [[<- _]|[Hne Hu]].
      - rewrite lookup_insert_eq. unfold new_table. split; [eauto|lia].
      - destruct (I4 _ _ Hu) as [? E]. rewrite lookup_insert_ne by lia. split; [done|lia]. }
    split; [done|]. rewrite write_shadow.
    destruct (decide (u * 2 ^ 12 = pt_page_of (pte_addr t k))) as [->|Hne]; [by rewrite lookup_insert_eq|].
    by rewrite lookup_insert_ne, E by done.
  - eapply tree_ok_ext; [exact W|]. intros. by eapply hung_agrees.
  - apply write_dev; [done|]. intros p pg. cbn [with_table shadow_pt_ dirty_pt_pages_ dev_pt].
    intros [[<- _]|[_ Hp]]%lookup_insert_Some; [left; set_solver|].
    destruct (I6 _ _ Hp); [left; set_solver|by right].
Qed.

Lemma hang_walk va : awalk (ent s') va (PT_LEVEL - 1) ROOT = awalk (ent s) va (PT_LEVEL - 1) ROOT.
Proof using I Ht Hk H0 Hn.
  pose proof (vi_tree _ _ _ I) as W. destruct new_table_range as [_ Tf].
  rewrite (awalk_ext hung _ (<[f := i]> T) ROOT); [|exact hung_tree|apply hung_tree|intros; by eapply hung_agrees].
  eapply hang_awalk; [done|done|done|done|exact hung_hangs|]. apply W.
Qed.

(** The path to the slot now continues into the new table, which is empty. *)
Lemma hang_path va :
  (S i <= PT_LEVEL - 1)%nat -> vidx va (S i) = k -> apath (ent s) va (PT_LEVEL - 1) ROOT (S i) = Some t ->
  apath (ent s') va (PT_LEVEL - 1) ROOT i = Some f /\ forall k', 0 <= k' < 2 ^ VM_VPN_BITS -> ent s' f k' = 0.
Proof using I Ht Hk H0 Hn.
  intros Hi Hv Hp. pose proof (vi_tree _ _ _ I) as W. destruct new_table_range as [_ Tf]. destruct new_ptr as (_ & P & Q).
  pose proof hang_inv as I'.
  assert (apath (ent s') va (PT_LEVEL - 1) ROOT (S i) = Some t) as Hp'.
  { rewrite (apath_ext hung _ (<[f := i]> T) ROOT); [|exact hung_tree|apply hung_tree|intros; by eapply hung_agrees].
    eapply hang_apath; [done|done|done|done|exact hung_hangs|apply W|done]. }
  assert (ent s' t k = w) as Ew.
  { rewrite (hung_agrees t (S i)); [|rewrite lookup_insert_ne; [done|congruence]|done]. unfold hung. by rewrite decide_True. }
  split.
  - rewrite (apath_step _ _ _ _ _ _ Hp' Hi); rewrite Hv, Ew; [by rewrite Q|done].
  - intros k' Hk'. rewrite (hung_agrees f i) by (done || apply lookup_insert_eq). apply hung_hangs. done.
Qed.

Lemma hang_paths va j :
  is_Some (apath (ent s') va (PT_LEVEL - 1) ROOT j) ->
  is_Some (apath (ent s) va (PT_LEVEL - 1) ROOT j) \/
  (j = i /\ apath (ent s) va (PT_LEVEL - 1) ROOT (S i) = Some t /\ vidx va (S i) = k).
Proof using I Ht Hk H0 Hn.
  pose proof (vi_tree _ _ _ I) as W. destruct new_table_range as [_ Tf].
  rewrite (apath_ext hung _ (<[f := i]> T) ROOT); [|exact hung_tree|apply hung_tree|intros; by eapply hung_agrees].
  intros [u Hu]. destruct (hang_apath_conv _ _ _ _ W t i k f Ht Tf H0 hung_hangs _ _ _ _ _ (tr_root _ _ _ W) Hu); eauto.
Qed.
End HangTable.
End Tables.

(** ** [update_page_table] *)

Section Update.
Context `{VxConfig}.
Context (ppn vpn flags : Z) (leaf : nat) (va0 : Z) (v : vAddr_t).
Context (Ev : vAddr_make va0 = Some v) (Hva0 : 0 <= va0 < 2 ^ VA_BITS).
Context (Hppn : 0 <= ppn < if sv39 then 2 ^ 44 else 2 ^ 20).
Context (Hfl : 0 <= flags < 2 ^ 8) (Hfv : Z.testbit flags 0 = true) (Hfr : Z.testbit flags 1 = true).
Abbreviation top := (PT_LEVEL - 1)%nat.
Abbreviation leafw := (ppn * 2 ^ 10 + flags).

Definition mapped_ppn (x : Z) (l : nat) : Z :=
  let span := Z.shiftl 1 (Z.of_nat l * VM_VPN_BITS) in
  Z.lor (Z.land (ent_ppn x) (lnot_w 64 (span - 1))) (Z.land vpn (span - 1)).

(** No table below the level of the leaf on the path of the address. *)
Definition no_table (s : VMManager) : Prop :=
  forall u, apath (ent s) va0 top ROOT leaf = Some u -> ~ is_ptr (ent s u (vidx va0 leaf)).

Inductive outcome (s s' : VMManager) (r : Z) : Prop :=
| out_mapped : r = 0 ->
    (forall va, 0 <= va < 2 ^ VA_BITS -> shares va va0 leaf -> awalk (ent s) va top ROOT = None) ->
    (forall va, 0 <= va < 2 ^ VA_BITS ->
      awalk (ent s') va top ROOT = if decide (shares va va0 leaf) then Some (leafw, leaf) else awalk (ent s) va top ROOT) ->
    outcome s s' r
| out_found x l : awalk (ent s) va0 top ROOT = Some (x, l) -> (leaf <= l <= top)%nat ->
    r = (if mapped_ppn x l =? ppn then 0 else -1) ->
    (forall va, awalk (ent s') va top ROOT = awalk (ent s) va top ROOT) -> outcome s s' r.

(** Tables appear only above the leaf, on the path of the address. *)
Definition grows (s s' : VMManager) : Prop :=
  forall va j, 0 <= va < 2 ^ VA_BITS -> is_Some (apath (ent s') va top ROOT j) ->
    is_Some (apath (ent s) va top ROOT j) \/ ((leaf <= j < top)%nat /\ shares va va0 (S j)).

Lemma leafw_ok : 0 <= leafw < 2 ^ (8 * PTE_SIZE) /\ is_leaf leafw /\
  PTE_make (u64 (Z.shiftl ppn PAGE_LOG2_SIZE)) flags = Some (set_flags ppn 0 leafw flags).
Proof using Hppn Hfl Hfv Hfr.
  unfold PAGE_LOG2_SIZE. rewrite Z.shiftl_mul_pow2 by lia. split; [|split].
  - unfold PTE_SIZE. destruct sv39; lia.
  - split; by rewrite pte_word_bit.
  - rewrite u64_small by (destruct sv39; lia). rewrite pte_make_bytes; [|unfold PA_BITS; destruct sv39; lia|done].
    by rewrite Z.div_mul by lia.
Qed.

Lemma ptr_make n :
  4096 * Z.of_nat n + 4096 <= PT_SIZE_LIMIT ->
  PTE_make (new_table n * 2 ^ 12) PTE_V = Some (set_flags (new_table n) 0 (new_table n * 2 ^ 10 + PTE_V) PTE_V).
Proof.
  intros Hn. pose proof pt_limit_bounds. rewrite pte_make_bytes; [by rewrite Z.div_mul by lia| |unfold PTE_V; lia].
  unfold new_table, ROOT, PA_BITS. destruct sv39; lia.
Qed.

Lemma update_loop_unfold s i base pt_addr :
  update_loop s ppn vpn flags leaf v i base pt_addr =
  let addr := pte_addr base (va_vpn v !!! i) in
  let bytes := read_pte s addr in
  pte ← PTE_of_bytes bytes;
  let valid := pte_v pte && negb (baadf00d bytes) in
  if valid && (pte_r pte || pte_w pte || pte_x pte) then
    let span := Z.shiftl 1 (Z.of_nat i * VM_VPN_BITS) in
    let mapped_ppn := Z.lor (Z.land (pte_ppn pte) (lnot_w 64 (span - 1))) (Z.land vpn (span - 1)) in
    Some (if mapped_ppn =? ppn then 0 else -1, s)
  else
    let next s base pt_addr :=
      match i with O => Some (0, s) | S i' => update_loop s ppn vpn flags leaf v i' base pt_addr end in
    if valid then next s (pte_ppn pte) pt_addr
    else if Nat.eqb i leaf then
      new_pte ← PTE_make (u64 (Z.shiftl ppn PAGE_LOG2_SIZE)) flags;
      Some (0, write_pte s addr (pte_bytes new_pte))
    else
      '(_, pt_addr, s) ← alloc_page_table s pt_addr;
      new_pte ← PTE_make pt_addr PTE_V;
      next (write_pte s addr (pte_bytes new_pte)) (pte_ppn new_pte) pt_addr.
Proof. by destruct i. Qed.

(** One iteration, by the kind of entry it meets. *)
Section Iteration.
Context (s : VMManager) (i : nat) (t pt : Z) (Hi : (i < PT_LEVEL)%nat).
Abbreviation x := (ent s t (vidx va0 i)).

Lemma iter_entry : PTE_of_bytes (read_pte s (pte_addr t (va_vpn v !!! i))) =
  Some (set_flags (ent_ppn x) ((x / 2 ^ 8) mod 2 ^ 2) x (x mod 2 ^ 8)) /\ read_pte s (pte_addr t (va_vpn v !!! i)) = x.
Proof using Ev Hi. rewrite (vAddr_vpn _ _ _ Ev Hi). split; [|done]. apply pte_of_bytes_ok, read_page_range. Qed.

Lemma iter_leaf :
  is_leaf x -> update_loop s ppn vpn flags leaf v i t pt = Some (if mapped_ppn x i =? ppn then 0 else -1, s).
Proof using Ev Hi.
  intros L. rewrite update_loop_unfold. cbv zeta. destruct iter_entry as [-> ->]. bind_simpl.
  cbn [set_flags pte_v pte_r pte_w pte_x pte_ppn]. rewrite !low_bit by lia.
  rewrite not_baadf00d by (by left). destruct L as [-> ->]. done.
Qed.

Lemma iter_ptr i' :
  i = S i' -> is_ptr x ->
  update_loop s ppn vpn flags leaf v i t pt = update_loop s ppn vpn flags leaf v i' (ent_ppn x) pt.
Proof using Ev Hi.
  intros Ei P. rewrite update_loop_unfold. cbv zeta. destruct iter_entry as [-> ->]. bind_simpl.
  cbn [set_flags pte_v pte_r pte_w pte_x pte_ppn]. rewrite !low_bit by lia.
  rewrite not_baadf00d by (by right). destruct P as [-> P]. unfold ent_rwx in P. rewrite P. cbn [negb andb]. by subst i.
Qed.

Lemma iter_empty :
  x = 0 ->
  update_loop s ppn vpn flags leaf v i t pt =
  if Nat.eqb i leaf then Some (0, write_pte s (pte_addr t (vidx va0 i)) leafw)
  else '(_, pt_addr, s) ← alloc_page_table s pt;
       new_pte ← PTE_make pt_addr PTE_V;
       match i with
       | O => Some (0, write_pte s (pte_addr t (vidx va0 i)) (pte_bytes new_pte))
       | S i' => update_loop (write_pte s (pte_addr t (vidx va0 i)) (pte_bytes new_pte)) ppn vpn flags leaf v i'
                   (pte_ppn new_pte) pt_addr
       end.
Proof using Ev Hi Hppn Hfl Hfv Hfr.
  intros E0. rewrite update_loop_unfold. cbv zeta. destruct iter_entry as [-> ->]. bind_simpl.
  cbn [set_flags pte_v]. rewrite low_bit, E0, Z.bits_0 by lia. cbn [andb].
  destruct leafw_ok as (_ & _ & ->). bind_simpl. by rewrite (vAddr_vpn _ _ _ Ev Hi).
Qed.
End Iteration.

(** The slot of a new leaf is reached exactly by the addresses that share it. *)
Lemma slot_shares s T n t va j :
  vm_inv s T n -> (j <= top)%nat -> apath (ent s) va0 top ROOT j = Some t -> 0 <= va < 2 ^ VA_BITS ->
  (apath (ent s) va top ROOT j = Some t /\ vidx va j = vidx va0 j) <-> shares va va0 j.
Proof using Hva0.
  intros I Hl Hp Hva. pose proof (vi_tree _ _ _ I) as W. pose proof pt_level_cases. split.
  - intros [Hp' Hv]. apply vidx_shares; [done|done|lia|]. intros l Hle.
    destruct (decide (l = j)) as [->|]; [done|].
    eapply (apath_unique _ _ _ W va va0 top ROOT j t); [apply W|done|done|done|lia].
  - intros Hs. split; [|by apply shares_vidx]. rewrite <- Hp. apply apath_shares. intros l Hle.
    symmetry. apply shares_vidx. eapply shares_up; [|done]. lia.
Qed.

Lemma iter_plant s T n t pt :
  vm_inv s T n -> (leaf <= top)%nat -> T !! t = Some leaf -> apath (ent s) va0 top ROOT leaf = Some t ->
  ent s t (vidx va0 leaf) = 0 ->
  exists s', update_loop s ppn vpn flags leaf v leaf t pt = Some (0, s') /\ vm_inv s' T n /\ vm_frame s s' /\ grows s s' /\
    outcome s s' 0.
Proof using Ev Hva0 Hppn Hfl Hfv Hfr.
  intros I Hl Ht Hp E0. pose proof pt_level_cases. destruct leafw_ok as (Hw & Lw & _).
  rewrite iter_empty by (done || lia). rewrite Nat.eqb_refl. eexists. split; [done|]. split; [|split; [|split]].
  - eapply plant_inv; try done. apply vidx_range.
  - apply write_frame.
  - intros va j _. rewrite (plant_paths _ _ _ I _ _ _ _ Ht (vidx_range _ _) Hw Lw E0). by left.
  - apply out_mapped; [done|..].
    + intros va Hva Hs. apply (slot_shares _ _ _ _ va leaf I Hl Hp Hva) in Hs as [Hp' Ek].
      rewrite (awalk_along _ _ _ _ _ _ Hp'), awalk_unfold by done. cbv zeta. by rewrite Ek, E0, Z.bits_0.
    + intros va Hva. rewrite (plant_walk _ _ _ I _ _ _ _ Ht (vidx_range _ _) Hw Lw E0).
      pose proof (slot_shares _ _ _ _ va leaf I Hl Hp Hva) as Hs.
      case_bool_decide as C; [rewrite decide_True by tauto | rewrite decide_False by tauto]; done.
Qed.

Lemma update_loop_spec i s T n t pt :
  vm_inv s T n -> (leaf <= i <= top)%nat -> T !! t = Some i -> apath (ent s) va0 top ROOT i = Some t ->
  no_table s -> 4096 * Z.of_nat (n + (i - leaf)) <= PT_SIZE_LIMIT ->
  exists r s' T' n', update_loop s ppn vpn flags leaf v i t pt = Some (r, s') /\ vm_inv s' T' n' /\ vm_frame s s' /\
    (n' <= n + (i - leaf))%nat /\ grows s s' /\ outcome s s' r.
Proof using Ev Hva0 Hppn Hfl Hfv Hfr.
  revert s T n t pt. induction i as [i IH] using lt_wf_ind. intros s T n t pt I Hi Ht Hp N Hn.
  pose proof (vi_tree _ _ _ I) as W. pose proof pt_level_cases.
  destruct (tr_entry _ _ _ W t i _ Ht (vidx_range va0 i)) as [E0|[L|[P (i' & -> & Ht')]]].
  - destruct (decide (i = leaf)) as [->|Hne].
    + destruct (iter_plant s T n t pt I (proj2 Hi) Ht Hp E0) as (s' & E & I' & F & Gr & O).
      exists 0, s', T, n. split_and!; try done. lia.
    + destruct i as [|i]; [lia|].
      assert (4096 * Z.of_nat n + 4096 <= PT_SIZE_LIMIT) as Hr by lia.
      rewrite iter_empty by (done || lia). rewrite (proj2 (Nat.eqb_neq _ _)) by done.
      rewrite (alloc_page_table_ok _ _ _ (vi_ptm _ _ _ I) Hr). bind_simpl. rewrite ptr_make by done. bind_simpl.
      cbn [set_flags pte_bytes pte_ppn].
      destruct (hang_path s T n I t i _ Ht (vidx_range _ _) E0 Hr va0 (proj2 Hi) eq_refl Hp) as [Hp' Hz].
      pose proof (hang_inv s T n I t i _ Ht (vidx_range _ _) E0 Hr) as I'.
      set (s1 := write_pte _ _ _) in *.
      assert (no_table s1) as N1.
      { intros u Hu. destruct (decide (i = leaf)) as [->|Hil].
        - rewrite Hp' in Hu. simplify_eq. rewrite Hz by apply vidx_range. by intros [].
        - rewrite (apath_stop _ _ _ _ _ _ _ Hp') in Hu; [done|lia| |lia]. rewrite Hz by apply vidx_range. by intros []. }
      destruct (IH i ltac:(lia) s1 _ _ (new_table n) (new_table n * 2 ^ 12) I' ltac:(lia) ltac:(apply lookup_insert_eq) Hp' N1
        ltac:(lia)) as (r & s' & T' & n' & E & I2 & F & Hn' & Gr & O).
      exists r, s', T', n'. split_and!; try done; [|lia|..].
      * etrans; [|exact F]. by constructor.
      * intros va j Hva Hj. destruct (Gr va j Hva Hj) as [Hj'|]; [|by right].
        destruct (hang_paths s T n I t i _ Ht (vidx_range _ _) E0 Hr va j Hj') as [|(-> & Hp2 & Hv2)]; [by left|].
        right. split; [lia|]. apply (slot_shares s T n t va (S i)); done || lia.
      * assert (forall va, awalk (ent s1) va top ROOT = awalk (ent s) va top ROOT) as Eq
          by (intros; by apply (hang_walk s T n I t i _ Ht (vidx_range _ _) E0 Hr)).
        destruct O as [E1 E2 E3|x l E1 E2 E3 E4].
        -- apply out_mapped; [done|intros; rewrite <- Eq; auto|]. intros va Hva. by rewrite <- Eq, E3.
        -- eapply out_found; [by rewrite <- Eq|done|done|]. intros va. by rewrite E4, Eq.
  - exists (if mapped_ppn (ent s t (vidx va0 i)) i =? ppn then 0 else -1), s, T, n.
    split_and!; [apply iter_leaf; done || lia|done|done|lia|by left|].
    eapply out_found; [|done|done|done].
    rewrite (awalk_along _ _ _ _ _ _ Hp), awalk_unfold by lia. cbv zeta. rewrite (leaf_rwx _ L). by destruct L as [-> _].
  - destruct (decide (S i' = leaf)) as [El|Hne]; [unfold no_table in N; rewrite <- El in N; by destruct (N _ Hp)|].
    rewrite (iter_ptr s (S i') t pt ltac:(lia) i' eq_refl P).
    destruct (IH i' ltac:(lia) s T n _ pt I ltac:(lia) Ht' (apath_step _ _ _ _ _ _ Hp ltac:(lia) P) N ltac:(lia))
      as (r & s' & T' & n' & E & I2 & F & Hn' & Gr & O).
    exists r, s', T', n'. split_and!; done || lia.
Qed.
End Update.

(** ** Translations *)

Section Translate.
Context `{VxConfig}.
Abbreviation top := (PT_LEVEL - 1)%nat.
Abbreviation vb l := (Z.of_nat l * VM_VPN_BITS).

(** The physical address of a virtual one, if the host's walk finds it. *)
Definition tr (s : VMManager) (va : Z) : option Z :=
  match vm_page_table_walk s va with inr pa => Some pa | inl _ => None end.

Lemma inv_trans s T n : vm_inv s T n -> need_trans s = true /\ get_base_ppn s = ROOT.
Proof.
  intros I. destruct satp_start as (x & Ex & Ep & Em). pose proof (vi_satp _ _ _ I) as E. rewrite Ex in E.
  unfold need_trans, get_base_ppn, get_mode. rewrite E, Em.
  split; [|done]. unfold VM_ADDR_MODE. by destruct sv39.
Qed.

Lemma tr_awalk s T n va :
  vm_inv s T n -> 0 <= va < 2 ^ VA_BITS ->
  tr s va = match awalk (ent s) va top ROOT with Some (x, l) => Some (leaf_pa (ent_ppn x) l va) | None => None end.
Proof.
  intros I Hva. unfold tr, vm_page_table_walk. destruct (inv_trans _ _ _ I) as [-> ->]. cbn [negb].
  unfold page_table_walk. destruct (vAddr_make_ok va Hva) as [v Ev]. rewrite Ev. pose proof pt_level_cases.
  pose proof (host_walk_awalk (read_pte s) T ROOT (vi_tree _ _ _ I) (read_page_range _) va v top ROOT Ev ltac:(lia)
    (tr_root _ _ _ (vi_tree _ _ _ I))) as Hw.
  fold (ent s) in Hw. destruct (awalk _ _ _ _) as [[x l]|]; [by rewrite Hw|]. by destruct Hw as [f ->].
Qed.

Lemma vb_bounds l : (l <= top)%nat -> 0 <= vb l <= 20.
Proof. intros. pose proof vpn_bits_eq as ->. destruct pt_level_cases as [[? ->]|[? ->]]; lia. Qed.

Lemma mapped_ppn_eq vpn x l :
  (l <= top)%nat -> 0 <= vpn -> mapped_ppn vpn x l = ent_ppn x / 2 ^ vb l * 2 ^ vb l + vpn mod 2 ^ vb l.
Proof.
  intros Hl Hv. pose proof (vb_bounds l Hl). pose proof (ent_ppn_range x). unfold mapped_ppn. cbv zeta.
  set (b := vb l) in *.
  rewrite Z.shiftl_1_l, land_lnot_low by lia. rewrite Z.sub_1_r, <- Z.ones_equiv, Z.land_ones by lia.
  pose proof (Z.mod_pos_bound vpn (2 ^ b) ltac:(lia)).
  assert (ent_ppn x - ent_ppn x mod 2 ^ b = ent_ppn x / 2 ^ b * 2 ^ b) as -> by (pose proof (Z.div_mod (ent_ppn x) (2 ^ b)); lia).
  rewrite <- Z.shiftl_mul_pow2, lor_disjoint by lia. by rewrite Z.shiftl_mul_pow2 by lia.
Qed.

(** Inside a block of pages that starts at [vpn], a leaf at or above the
    block's level translates by the page it gives to [vpn]. *)
Lemma leaf_pa_block vpn x l leaf o :
  (leaf <= l <= top)%nat -> 0 <= vpn -> (2 ^ vb leaf | vpn) -> 0 <= o < 2 ^ (12 + vb leaf) ->
  leaf_pa (ent_ppn x) l (vpn * 2 ^ 12 + o) = mapped_ppn vpn x l * 2 ^ 12 + o.
Proof.
  intros Hl Hv [q Eq] Ho. pose proof pt_level_cases. pose proof (ent_ppn_range x). pose proof (vb_bounds l ltac:(lia)).
  pose proof (vb_bounds leaf ltac:(lia)). pose proof vpn_bits_range.
  rewrite leaf_pa_eq, mapped_ppn_eq by lia.
  assert (vb l = vb leaf + vb (l - leaf)) as El by (rewrite <- Z.mul_add_distr_r; f_equal; lia).
  assert (0 <= vb (l - leaf)) by (apply Z.mul_nonneg_nonneg; lia). set (b1 := vb leaf) in *. set (b2 := vb (l - leaf)) in *.
  set (b := vb l) in *.
  assert ((vpn * 2 ^ 12 + o) mod 2 ^ (12 + b) = vpn mod 2 ^ b * 2 ^ 12 + o) as ->.
  { symmetry. apply (Z.mod_unique _ _ (vpn / 2 ^ b)).
    - left. pose proof (Z.mod_pos_bound q (2 ^ b2) ltac:(lia)).
      rewrite Eq, El, Z.pow_add_r, (Z.mul_comm q), Z.mul_mod_distr_l by lia.
      rewrite !Z.pow_add_r in * by lia. nia.
    - rewrite Z.pow_add_r by lia. pose proof (Z.div_mod vpn (2 ^ b)). lia. }
  rewrite Z.pow_add_r by lia. lia.
Qed.

Lemma shares_block vpn leaf va :
  0 <= va -> (2 ^ vb leaf | vpn) -> 0 <= vpn ->
  shares va (vpn * 2 ^ 12) leaf <-> vpn * 2 ^ 12 <= va < vpn * 2 ^ 12 + 2 ^ (12 + vb leaf).
Proof.
  intros Hva [q ->] Hv. unfold shares. pose proof vpn_bits_range. assert (0 <= vb leaf) by lia.
  rewrite (Z.pow_add_r 2 12) by lia. replace (q * 2 ^ vb leaf * 2 ^ 12) with (q * (2 ^ 12 * 2 ^ vb leaf)) by lia.
  set (B := 2 ^ 12 * 2 ^ vb leaf). assert (0 < B) by lia. rewrite Z.div_mul by lia. split.
  - intros <-. pose proof (Z.div_mod va B). pose proof (Z.mod_pos_bound va B). lia.
  - intros Hb. symmetry. apply (Z.div_unique _ _ _ (va - q * B)); lia.
Qed.

(** Page numbers [update_page_table] accepts. *)
Definition ppn_ok (ppn : Z) : Prop := 0 <= ppn < if sv39 then 2 ^ 44 else 2 ^ 20.
Definition vpn_ok (vpn : Z) : Prop := 0 <= vpn < if sv39 then 2 ^ 27 else 2 ^ 20.

Lemma vpn_ok_va vpn : vpn_ok vpn <-> 0 <= vpn * 2 ^ 12 < 2 ^ VA_BITS.
Proof.
  unfold vpn_ok, VA_BITS. rewrite vpn_bits_eq. destruct pt_level_cases as [[-> ->]|[-> ->]]; simpl Z.of_nat; lia.
Qed.

Lemma update_page_table_loop s ppn vpn flags leaf v :
  ppn_ok ppn -> vpn_ok vpn -> (leaf < PT_LEVEL)%nat -> vAddr_make (vpn * 2 ^ 12) = Some v ->
  update_page_table s ppn vpn flags leaf = update_loop s ppn vpn flags leaf v top (get_base_ppn s) 0.
Proof.
  unfold ppn_ok, vpn_ok. intros Hp Hv Hl Ev. unfold update_page_table. cbv zeta.
  rewrite (proj2 (Nat.ltb_lt _ _)) by done. unfold PAGE_LOG2_SIZE.
  rewrite !Z.shiftr_div_pow2, Z.shiftl_mul_pow2, u64_small by (destruct sv39; lia).
  destruct sv39; rewrite !Z.div_small by lia; simpl; by rewrite Ev.
Qed.

Record leaf_flags (flags : Z) : Prop := {
  lf_range : 0 <= flags < 2 ^ 8;
  lf_v : Z.testbit flags 0 = true;
  lf_r : Z.testbit flags 1 = true
}.

(** What a call of [update_page_table] does to the translations. *)
Record update_effect (s s' : VMManager) (r ppn vpn : Z) (leaf : nat) : Prop := {
  ue_maps o : r = 0 -> 0 <= o < 2 ^ (12 + vb leaf) -> tr s' (vpn * 2 ^ 12 + o) = Some (ppn * 2 ^ 12 + o);
  ue_keeps va : 0 <= va < 2 ^ VA_BITS -> ~ (vpn * 2 ^ 12 <= va < vpn * 2 ^ 12 + 2 ^ (12 + vb leaf)) -> tr s' va = tr s va;
  ue_mapped va : 0 <= va < 2 ^ VA_BITS -> is_Some (tr s va) -> tr s' va = tr s va;
  ue_result : r = 0 \/ r = -1 /\ exists pa, tr s (vpn * 2 ^ 12) = Some pa /\ pa <> ppn * 2 ^ 12
}.

Lemma block_in_va vpn leaf o :
  (leaf <= top)%nat -> vpn_ok vpn -> (2 ^ vb leaf | vpn) -> 0 <= o < 2 ^ (12 + vb leaf) -> 0 <= vpn * 2 ^ 12 + o < 2 ^ VA_BITS.
Proof.
  intros Hl Hv [q ->] Ho. apply vpn_ok_va in Hv. pose proof (vb_bounds leaf Hl) as Hb. unfold VA_BITS in *.
  pose proof vpn_bits_range. pose proof pt_level_cases as Hc.
  assert (exists c, 0 <= c /\ Z.of_nat PT_LEVEL * VM_VPN_BITS = vb leaf + c) as (c & Hc0 & Ec).
  { exists (Z.of_nat (PT_LEVEL - leaf) * VM_VPN_BITS). split; [apply Z.mul_nonneg_nonneg; lia|].
    rewrite <- Z.mul_add_distr_r. f_equal. lia. }
  rewrite Ec in *. set (b := vb leaf) in *. rewrite !Z.add_assoc, (Z.pow_add_r 2 (12 + b)) in * by lia.
  rewrite !(Z.pow_add_r 2 12 b) in * by lia. set (B := 2 ^ 12 * 2 ^ b) in *. assert (0 < B) by lia.
  replace (q * 2 ^ b * 2 ^ 12) with (q * B) in * by lia. assert (q < 2 ^ c) by nia. nia.
Qed.

Lemma mapped_leaf ppn vpn flags leaf :
  ppn_ok ppn -> vpn_ok vpn -> 0 <= flags < 2 ^ 8 -> (leaf <= top)%nat -> (2 ^ vb leaf | ppn) -> (2 ^ vb leaf | vpn) ->
  mapped_ppn vpn (ppn * 2 ^ 10 + flags) leaf = ppn.
Proof.
  intros Hp Hv Hf Hl [q ->] Dv. pose proof (vb_bounds leaf Hl). rewrite mapped_ppn_eq by (done || apply Hv).
  rewrite pte_word_ppn; [|unfold ppn_ok, PPN_BITS in *; destruct sv39; lia|done].
  set (b := vb leaf) in *. rewrite (proj2 (Z.mod_divide vpn (2 ^ b) ltac:(lia)) Dv), Z.div_mul by lia. lia.
Qed.

Lemma update_maps s T n ppn vpn flags leaf :
  vm_inv s T n -> ppn_ok ppn -> vpn_ok vpn -> (leaf <= top)%nat -> (2 ^ vb leaf | ppn) -> (2 ^ vb leaf | vpn) ->
  leaf_flags flags -> no_table leaf (vpn * 2 ^ 12) s -> 4096 * Z.of_nat (n + (top - leaf)) <= PT_SIZE_LIMIT ->
  exists r s' T' n', update_page_table s ppn vpn flags leaf = Some (r, s') /\ vm_inv s' T' n' /\ vm_frame s s' /\
    (n' <= n + (top - leaf))%nat /\ grows leaf (vpn * 2 ^ 12) s s' /\ update_effect s s' r ppn vpn leaf.
Proof.
  intros I Hp Hv Hl Dp Dv [F1 F2 F3] N Hn. pose proof pt_level_cases.
  pose proof (proj1 (vpn_ok_va vpn) Hv) as Hva. destruct (vAddr_make_ok _ Hva) as [v Ev].
  rewrite (update_page_table_loop s ppn vpn flags leaf v Hp Hv ltac:(lia) Ev), (proj2 (inv_trans _ _ _ I)).
  destruct (update_loop_spec ppn vpn flags leaf (vpn * 2 ^ 12) v Ev Hva Hp F1 F2 F3 top s T n ROOT 0 I ltac:(lia)
    (tr_root _ _ _ (vi_tree _ _ _ I)) (apath_refl _ _ _ _) N Hn) as (r & s' & T' & n' & E & I' & F & Hn' & Gr & O).
  exists r, s', T', n'. split_and!; try done.
  assert (forall va, 0 <= va < 2 ^ VA_BITS -> awalk (ent s') va top ROOT = awalk (ent s) va top ROOT -> tr s' va = tr s va) as Same.
  { intros va Hb Eq. rewrite (tr_awalk _ _ _ _ I' Hb), (tr_awalk _ _ _ _ I Hb). by rewrite Eq. }
  destruct O as [-> E0 Ew|x l E0 Hl' -> Ew].
  - split.
    + intros o _ Ho. pose proof (block_in_va _ _ _ Hl Hv Dv Ho) as Hb. rewrite (tr_awalk _ _ _ _ I' Hb), Ew by done.
      rewrite decide_True by (apply shares_block; [lia|done|apply Hv|lia]).
      rewrite (leaf_pa_block vpn _ leaf leaf) by (done || lia || apply Hv). by rewrite mapped_leaf.
    + intros va Hb Hne. apply Same; [done|]. rewrite Ew by done. rewrite decide_False; [done|].
      rewrite shares_block by (done || apply Hv || lia). done.
    + intros va Hb Hs. apply Same; [done|]. rewrite Ew by done. case_decide as Hsh; [|done].
      rewrite (tr_awalk _ _ _ _ I Hb), E0 in Hs by done. by destruct Hs.
    + by left.
  - assert (tr s (vpn * 2 ^ 12) = Some (mapped_ppn vpn x l * 2 ^ 12)) as E1.
    { rewrite (tr_awalk _ _ _ _ I Hva), E0. f_equal. pose proof (vb_bounds leaf Hl).
      rewrite <- (Z.add_0_r (vpn * 2 ^ 12)), (leaf_pa_block vpn x l leaf) by (done || apply Hv || lia). lia. }
    split.
    + intros o Er Ho. destruct (Z.eqb_spec (mapped_ppn vpn x l) ppn) as [Em|]; [|done].
      pose proof (block_in_va _ _ _ Hl Hv Dv Ho) as Hb. rewrite (tr_awalk _ _ _ _ I' Hb), Ew.
      destruct (awalk_shares _ _ _ _ (vpn * 2 ^ 12 + o) _ _ E0) as [-> _].
      * intros j Hj. apply shares_vidx, (shares_up _ _ leaf); [lia|]. apply shares_block; [lia|done|apply Hv|lia].
      * rewrite (leaf_pa_block vpn x l leaf) by (done || apply Hv || lia). by rewrite Em.
    + intros va Hb _. by apply Same.
    + intros va Hb _. by apply Same.
    + destruct (Z.eqb_spec (mapped_ppn vpn x l) ppn); [by left|]. right. split; [done|]. eexists. split; [done|]. lia.
Qed.
End Translate.

(** ** Flushing *)

Section Flush.
Context `{VxConfig}.

Lemma flush_inv s T n : vm_inv s T n -> vm_inv (flush s) T n.
Proof.
  intros [I1 I2 I3 I4 I5 I6]. constructor; try done. intros p pg Hp. right. cbn [flush set_dev dev_pt shadow_pt_] in *.
  apply lookup_union_Some_raw. destruct (decide (p ∈ dirty_pt_pages_ s)) as [Hd|Hd].
  - left. by apply map_lookup_filter_Some.
  - right. split; [apply map_lookup_filter_None; right; intros; done|]. by destruct (I6 _ _ Hp).
Qed.

Lemma flush_tr s va : tr (flush s) va = tr s va.
Proof. done. Qed.

(** With nothing dirty, the device's tables hold what the host's hold... *)
Lemma device_entry s T n u j k : vm_inv s T n -> dirty_pt_pages_ s = ∅ -> T !! u = Some j -> 0 <= k < 2 ^ VM_VPN_BITS ->
  read_page (dev_pt s) (pte_addr u k) = read_pte s (pte_addr u k).
Proof.
  intros I D Hu Hk. unfold read_pte, read_page. assert (slot_ok u k) as Hs by (split; [by eapply inv_table|done]).
  rewrite slot_page by done. destruct (vi_dom _ _ _ I _ _ Hu) as [_ [pg E]]. rewrite E.
  destruct (vi_dev _ _ _ I _ _ E) as [Hd|E']; [rewrite D in Hd; set_solver|]. by rewrite E'.
Qed.

(** ...and translate as they do. *)
Lemma device_walk s T n va :
  vm_inv s T n -> dirty_pt_pages_ s = ∅ -> 0 <= va < 2 ^ VA_BITS ->
  page_table_walk (read_page (dev_pt s)) (get_base_ppn s) va = vm_page_table_walk s va.
Proof.
  intros I D Hva. unfold vm_page_table_walk, page_table_walk. destruct (inv_trans _ _ _ I) as [-> ->]. cbn [negb].
  destruct (vAddr_make_ok va Hva) as [v Ev]. rewrite Ev. pose proof pt_level_cases.
  rewrite (host_walk_ext (read_pte s) T ROOT (vi_tree _ _ _ I) (read_page_range _) (read_page (dev_pt s)) va v _ _ Ev);
    [done|lia|apply (vi_tree _ _ _ I)|]. intros u j k. by apply (device_entry s T n).
Qed.
End Flush.

(** ** Identity maps *)

Section Identity.
Context `{VxConfig}.
Abbreviation top := (PT_LEVEL - 1)%nat.
Abbreviation vb l := (Z.of_nat l * VM_VPN_BITS).
Abbreviation block l := (2 ^ (12 + vb l)).

Lemma level_size_eq l : level_size l = block l.
Proof.
  pose proof vpn_bits_range. pose proof pt_geometry as G. pose proof pte_size_cases.
  assert (PT_SIZE / PTE_SIZE = 2 ^ VM_VPN_BITS) as E.
  { rewrite <- G. apply Z.div_mul. lia. }
  induction l as [|l IH]; [done|]. simpl. rewrite IH, E, <- Z.pow_add_r by lia. f_equal. lia.
Qed.

Lemma pick_level_spec cur rem m :
  let l := pick_level cur rem m in (l <= m)%nat /\ (l = 0%nat \/ ((block l | cur) /\ block l <= rem)).
Proof.
  induction m as [|m IH]; cbn [pick_level]; [by split; [|left]|]. cbv zeta in *. destruct IH as [IH1 IH2].
  rewrite level_size_eq. pose proof (block_pos (S m)).
  destruct (Z.eqb_spec (cur mod block (S m)) 0) as [E0|]; cbn [andb]; [|split; [lia|done]].
  destruct (Z.leb_spec (block (S m)) rem); [|split; [lia|done]]. split; [done|]. right. split; [|done].
  apply Z.mod_divide; [lia|done].
Qed.

(** The blocks the loop maps: start and level. *)
Fixpoint chunks (fuel : nat) (cur end_ : Z) : list (Z * nat) :=
  if cur <? end_ then
    match fuel with
    | O => []
    | S fuel => let l := pick_level cur (end_ - cur) top in (cur, l) :: chunks fuel (cur + level_size l) end_
    end
  else [].

Definition tables_for (cs : list (Z * nat)) : nat := foldr (fun c m => (top - c.2 + m)%nat) 0%nat cs.

(** The end of the last page touched. *)
Definition page_end (x : Z) : Z := (x + 4095) / 4096 * 4096.

Lemma page_end_bounds x : x <= page_end x < x + 4096.
Proof. unfold page_end. pose proof (Z.div_mod (x + 4095) 4096). pose proof (Z.mod_pos_bound (x + 4095) 4096). lia. Qed.

Lemma page_end_step cur end_ l :
  (4096 | cur) -> cur < end_ -> l = pick_level cur (end_ - cur) top -> cur + block l <= page_end end_ /\ (4096 | cur + block l).
Proof.
  intros [q ->] Hc ->. pose proof vpn_bits_range.
  destruct (pick_level_spec (q * 4096) (end_ - q * 4096) top) as [_ [->|[_ Hr]]].
  - change (block 0%nat) with 4096. split; [|exists (q + 1); lia]. unfold page_end.
    assert (q + 1 <= (end_ + 4095) / 4096) by (apply Z.div_le_lower_bound; lia). lia.
  - pose proof (page_end_bounds end_). split; [lia|]. set (l := pick_level _ _ _) in *.
    exists (q + 2 ^ vb l). rewrite Z.pow_add_r by lia. lia.
Qed.

Lemma no_table_0 s T n va : vm_inv s T n -> no_table 0 va s.
Proof.
  intros I u Hu P. pose proof (vi_tree _ _ _ I) as W.
  pose proof (apath_level _ _ _ W _ _ _ _ _ (tr_root _ _ _ W) Hu) as Ht. destruct P as [P1 P2].
  destruct (ptr_step _ _ _ W _ _ _ Ht (vidx_range va 0) P1 P2) as (i & ? & _). done.
Qed.

Lemma no_table_S s va j : (S j <= top)%nat -> no_table (S j) va s <-> apath (ent s) va top ROOT j = None.
Proof.
  intros Hj. split.
  - intros N. destruct (apath _ _ _ _ j) as [u|] eqn:E; [|done].
    destruct (apath_parent _ _ _ _ _ _ ltac:(exact Hj) E) as (w & Hw & P & _). by destruct (N _ Hw).
  - intros E u Hu P. by rewrite (apath_step _ _ _ _ _ _ Hu Hj P) in E.
Qed.

(** A block already passed leaves the freshness of a later one alone. *)
Lemma no_table_keeps s s' T n T' n' c l c' l' :
  vm_inv s T n -> vm_inv s' T' n' -> grows l c s s' -> (l' <= top)%nat -> 0 <= c < c' -> c' < 2 ^ VA_BITS ->
  (l' = 0%nat \/ (block l' | c')) -> no_table l' c' s -> no_table l' c' s'.
Proof.
  intros I I' Gr Hl Hc Hc' Al N. destruct l' as [|j]; [by eapply no_table_0|].
  rewrite no_table_S in N |- * by done. destruct (apath (ent s') _ _ _ _) as [u|] eqn:E; [|done].
  destruct (Gr c' j ltac:(lia) ltac:(eauto)) as [[w Ew]|[_ Sh]]; [congruence|].
  destruct Al as [|[q Eq]]; [done|]. unfold shares in Sh. pose proof (block_pos (S j)).
  rewrite Eq, Z.div_mul in Sh by lia. pose proof (Z.mul_div_le c (block (S j)) ltac:(lia)). lia.
Qed.

Lemma chunks_in fuel cur end_ c l :
  (c, l) ∈ chunks fuel cur end_ -> cur <= c < end_ /\ (l <= top)%nat /\ (l = 0%nat \/ (block l | c)).
Proof.
  revert cur. induction fuel as [|fuel IH]; intros cur; simpl; destruct (Z.ltb_spec cur end_); try by intros ?%elem_of_nil.
  intros [E|Hin]%list.elem_of_cons.
  - simplify_eq. destruct (pick_level_spec cur (end_ - cur) top) as [? [|[]]]; split_and!; auto; lia.
  - destruct (IH _ Hin) as (? & ? & ?). rewrite level_size_eq in *. pose proof (block_pos (pick_level cur (end_ - cur) top)).
    split_and!; done || lia.
Qed.

Lemma page_end_le cur x : (4096 | cur) -> x <= cur -> page_end x <= cur.
Proof.
  intros [q ->] Hx. unfold page_end. apply Z.mul_le_mono_nonneg_r; [lia|].
  apply Z.lt_succ_r, Z.div_lt_upper_bound; lia.
Qed.

Record vm_keeps (s s' : VMManager) : Prop := {
  vk_satp : satp_ s' = satp_ s;
  vk_vm : virtual_mem_ s' = virtual_mem_ s;
  vk_map : addr_mapping s' = addr_mapping s;
  vk_rng : rng_ s' = rng_ s;
  vk_rand : randomize_va_ s' = randomize_va_ s
}.

Lemma frame_keeps s s' s'' : vm_frame s s' -> vm_keeps s' s'' -> vm_keeps s s''.
Proof. intros [] []. constructor; congruence. Qed.

Definition no_conflict (s : VMManager) (lo hi : Z) : Prop :=
  forall va, lo <= va < hi -> tr s va = None \/ tr s va = Some va.

Lemma identity_flags : leaf_flags IDENTITY_PTE_FLAGS.
Proof. by constructor. Qed.

(** One round of the loop. *)
Lemma identity_step s T n cur end_ l :
  vm_inv s T n -> (4096 | cur) -> 0 <= cur < end_ -> page_end end_ <= 2 ^ VA_BITS -> l = pick_level cur (end_ - cur) top ->
  no_table l cur s -> 4096 * Z.of_nat (n + (top - l)) <= PT_SIZE_LIMIT -> no_conflict s cur (page_end end_) ->
  exists s' T' n', update_page_table s (Z.shiftr cur PAGE_LOG2_SIZE) (Z.shiftr cur PAGE_LOG2_SIZE) IDENTITY_PTE_FLAGS l = Some (0, s') /\
    vm_inv s' T' n' /\ vm_frame s s' /\ (n' <= n + (top - l))%nat /\ grows l cur s s' /\
    (forall va, cur <= va < cur + block l -> tr s' va = Some va) /\
    (forall va, 0 <= va < 2 ^ VA_BITS -> ~ (cur <= va < cur + block l) -> tr s' va = tr s va).
Proof.
  intros I [q Eq] Hc He El N Hn C. rewrite Z.shiftr_div_pow2 by done. unfold PAGE_LOG2_SIZE.
  assert (cur / 2 ^ 12 = q) as -> by (rewrite Eq; apply Z.div_mul; lia).
  destruct (page_end_step cur end_ l (ex_intro _ q Eq) (proj2 Hc) El) as [Hb _].
  pose proof (pick_level_spec cur (end_ - cur) top) as [Hl Al]. rewrite <- El in Hl, Al.
  pose proof (vb_bounds l Hl) as Hvb. assert (cur = q * 2 ^ 12) as Ec by lia.
  assert (vpn_ok q) as Hv by (apply vpn_ok_va; pose proof (block_pos l); lia).
  assert (2 ^ vb l | q) as D.
  { destruct Al as [->|[[c Ecc] _]]; [apply Z.divide_1_l|]. exists c. rewrite Z.pow_add_r in Ecc by lia. lia. }
  assert (ppn_ok q) as Hp by (unfold ppn_ok, vpn_ok in *; destruct sv39; lia).
  rewrite Ec in N. destruct (update_maps s T n q q _ l I Hp Hv Hl D D identity_flags N Hn)
    as (r & s' & T' & n' & E & I' & F & Hn' & Gr & [U1 U2 _ U4]).
  assert (r = 0) as ->.
  { destruct U4 as [|(_ & pa & Epa & Hne)]; [done|]. pose proof (block_pos l).
    destruct (C cur ltac:(lia)) as [Ec'|Ec']; rewrite Ec, Epa in Ec'; congruence. }
  exists s', T', n'. rewrite Ec. split_and!; try done.
  - intros va Hva. replace va with (q * 2 ^ 12 + (va - q * 2 ^ 12)) by lia. by apply U1; [|lia].
Qed.

Lemma identity_loop_spec end_ fuel s T n cur :
  page_end end_ <= 2 ^ VA_BITS -> vm_inv s T n -> (4096 | cur) -> 0 <= cur -> end_ - cur <= 4096 * Z.of_nat fuel ->
  (forall c l, (c, l) ∈ chunks fuel cur end_ -> no_table l c s) ->
  4096 * Z.of_nat (n + tables_for (chunks fuel cur end_)) <= PT_SIZE_LIMIT -> no_conflict s cur (page_end end_) ->
  exists s' T' n', identity_loop fuel s cur end_ = Some (0, s') /\ vm_inv s' T' n' /\ dirty_pt_pages_ s' = ∅ /\
    vm_keeps s s' /\ (n' <= n + tables_for (chunks fuel cur end_))%nat /\
    (forall va, cur <= va < page_end end_ -> tr s' va = Some va) /\
    (forall va, 0 <= va < 2 ^ VA_BITS -> ~ (cur <= va < page_end end_) -> tr s' va = tr s va) /\
    (forall va j, 0 <= va < 2 ^ VA_BITS -> is_Some (apath (ent s') va top ROOT j) ->
       is_Some (apath (ent s) va top ROOT j) \/ exists c l, (c, l) ∈ chunks fuel cur end_ /\ shares va c (S j)).
Proof.
  intros He. revert s T n cur. induction fuel as [|fuel IH]; intros s T n cur I Dc Hc Hf N Hn C;
    cbn [identity_loop chunks] in *; destruct (Z.ltb_spec cur end_) as [Hce|Hce]; [lia|..].
  1, 3: pose proof (page_end_le cur end_ Dc Hce); exists (flush s), T, n; split_and!; try done;
    [by apply flush_inv|lia|intros; lia|by left].
  cbv zeta in *. set (l := pick_level cur (end_ - cur) top) in *. cbn [tables_for foldr snd] in Hn. fold tables_for in Hn.
  destruct (page_end_step cur end_ l Dc Hce eq_refl) as [Hb Db]. pose proof (block_pos l) as Hpos.
  assert (2 ^ VA_BITS <= 2 ^ 39) as HVA by (unfold VA_BITS; rewrite vpn_bits_eq; destruct pt_level_cases as [[-> ->]|[-> ->]]; simpl; lia).
  destruct (identity_step s T n cur end_ l I Dc ltac:(lia) He eq_refl (N cur l ltac:(left)) ltac:(unfold tables_for in *; lia) C)
    as (s1 & T1 & n1 & E1 & I1 & F1 & Hn1 & G1 & M1 & K1).
  rewrite E1. bind_simpl. rewrite Z.eqb_refl, level_size_eq, u64_small by lia. rewrite level_size_eq in *.
  destruct (IH s1 T1 n1 (cur + block l) I1 Db ltac:(lia)) as (s' & T' & n' & E & I' & D' & Kp & Hn' & M & Kr & P).
  - assert (4096 <= block l); [|lia]. pose proof vpn_bits_range. rewrite Z.pow_add_r by lia.
    assert (0 < 2 ^ vb l) by (apply Z.pow_pos_nonneg; lia). lia.
  - intros c l' Hin. destruct (chunks_in _ _ _ _ _ Hin) as (Hc1 & Hl1 & Al).
    assert (c < 2 ^ VA_BITS) by (pose proof (page_end_bounds end_); lia).
    eapply (no_table_keeps s s1 T n T1 n1 cur l c l'); try done; [lia|]. apply N. by right.
  - unfold tables_for in *. lia.
  - intros va Hva. rewrite K1 by lia. apply C. lia.
  - exists s', T', n'. split_and!; try done.
    + by eapply frame_keeps.
    + unfold tables_for in *. simpl. lia.
    + intros va Hva. destruct (Z.lt_ge_cases va (cur + block l)); [|apply M; lia].
      rewrite Kr by lia. apply M1. lia.
    + intros va Hva Hne. rewrite Kr, K1 by lia. done.
    + intros va j Hva Hj. destruct (P va j Hva Hj) as [Hj'|(c & l' & Hin & Sh)].
      * destruct (G1 va j Hva Hj') as [|[_ Sh]]; [by left|]. right. exists cur, l. split; [left|done].
      * right. exists c, l'. split; [by right|done].
Qed.
End Identity.

(** ** Initialization *)

Section Init.
Context `{VxConfig}.
Abbreviation top := (PT_LEVEL - 1)%nat.
Abbreviation vb l := (Z.of_nat l * VM_VPN_BITS).
Abbreviation block l := (2 ^ (12 + vb l)).

Lemma pick_level_ge cur rem m k :
  (m <= k)%nat -> (block m | cur) -> block m <= rem -> (m <= pick_level cur rem k)%nat.
Proof.
  intros Hm D Hr. pose proof (block_pos m). induction Hm as [|k Hk IH].
  - destruct m as [|m]; cbn [pick_level]; [lia|]. rewrite level_size_eq.
    rewrite (proj2 (Z.eqb_eq _ 0)) by (apply Z.mod_divide; [lia|done]). by rewrite (proj2 (Z.leb_le _ _)).
  - cbn [pick_level]. destruct (_ && _); [lia|done].
Qed.

(** A region that starts and ends at a multiple of a block needs few tables. *)
Lemma tables_bound m end_ fuel cur :
  (m <= top)%nat -> (block m | cur) -> (block m | end_) ->
  Z.of_nat (tables_for (chunks fuel cur end_)) * block m <= Z.of_nat (top - m) * Z.max 0 (end_ - cur).
Proof.
  intros Hm Dc De. pose proof (block_pos m) as Hb. revert cur Dc. induction fuel as [|fuel IH]; intros cur Dc; cbn [chunks];
    destruct (Z.ltb_spec cur end_) as [Hc|Hc]; try (simpl; apply Z.mul_nonneg_nonneg; lia). cbv zeta.
  assert (block m <= end_ - cur) as Hr by (apply Z.divide_pos_le; [lia|by apply Z.divide_sub_r]).
  pose proof (pick_level_ge cur (end_ - cur) m top Hm Dc Hr) as Hl.
  destruct (pick_level_spec cur (end_ - cur) top) as [Hl' Hs]. set (l := pick_level cur (end_ - cur) top) in *.
  unfold tables_for. cbn [foldr snd]. fold (tables_for (chunks fuel (cur + level_size l) end_)). rewrite level_size_eq.
  assert (exists c, 1 <= c /\ block l = c * block m) as (c & Hc1 & Ec).
  { exists (2 ^ vb (l - m)). split.
    - assert (0 < 2 ^ vb (l - m)); [|lia]. pose proof vpn_bits_range.
      apply Z.pow_pos_nonneg; [lia|apply Z.mul_nonneg_nonneg; lia].
    - pose proof vpn_bits_range. rewrite <- Z.pow_add_r by (try apply Z.mul_nonneg_nonneg; lia). f_equal.
      assert (Z.of_nat l = Z.of_nat (l - m) + Z.of_nat m) as -> by lia. lia. }
  specialize (IH (cur + block l)). rewrite Ec in IH |- *.
  assert (c * block m <= end_ - cur).
  { destruct Hs as [E0|[_ Hs]]; [|lia]. rewrite E0 in *. assert (m = 0%nat) as -> by lia. lia. }
  specialize (IH ltac:(apply Z.divide_add_r; [done|by apply Z.divide_factor_r])).
  rewrite Z.max_r in IH by lia. rewrite Nat2Z.inj_add, Z.max_r by lia.
  assert (Z.of_nat (top - l) <= Z.of_nat (top - m)) by lia. nia.
Qed.

Definition vm_start (rnd : bool) (dev : gmap Z (gmap Z Z)) (m : MemoryAllocator) (x : SATP_t) : VMManager :=
  VM (Some x) (Some (pt_mem 1)) (Some m) ∅ {[ROOT * 2 ^ 12 := ∅]} {[ROOT * 2 ^ 12]} 0 rnd dev.

Lemma start_ent rnd dev m x k : 0 <= k < 2 ^ VM_VPN_BITS -> ent (vm_start rnd dev m x) ROOT k = 0.
Proof.
  intros Hk. unfold ent, read_pte. rewrite read_page_slot by (split; [unfold ROOT; lia|done]). cbn [vm_start shadow_pt_].
  rewrite lookup_singleton_eq. cbn [from_option id]. pose proof pte_size_cases.
  rewrite get_bytes_n, (get_n_eq _ _ _ 0); [by rewrite !Z.mod_0_l by lia|lia|].
  intros j Hj. rewrite lookup_empty. by rewrite byte_of_eq, Z.div_0_l by lia.
Qed.

Lemma start_inv rnd dev m x :
  SATP_make (ROOT * 2 ^ 12) 0 = Some x -> vm_inv (vm_start rnd dev m x) {[ROOT := top]} 1.
Proof.
  intros E1. pose proof pt_limit_bounds. constructor; cbn [vm_start satp_ page_table_mem_ shadow_pt_ dirty_pt_pages_ dev_pt].
  - done.
  - done.
  - lia.
  - intros t i [<- _]%lookup_singleton_Some. split; [lia|]. rewrite lookup_singleton_eq. eauto.
  - constructor.
    + by rewrite lookup_singleton_eq.
    + intros t i k [<- _]%lookup_singleton_Some Hk. left. by apply start_ent.
    + intros t i k t' i' k' [<- _]%lookup_singleton_Some _ Hk _ [P _]. by rewrite start_ent in P.
  - intros p pg [<- _]%lookup_singleton_Some. left. set_solver.
Qed.

Lemma start_walk rnd dev m x va : awalk (ent (vm_start rnd dev m x)) va top ROOT = None.
Proof. rewrite awalk_unfold. cbv zeta. by rewrite start_ent by apply vidx_range. Qed.

Lemma start_path rnd dev m x va j : (j < top)%nat -> apath (ent (vm_start rnd dev m x)) va top ROOT j = None.
Proof.
  intros Hj. apply (apath_stop _ _ _ _ top ROOT); [apply apath_refl|done| |done].
  rewrite start_ent by apply vidx_range. by intros [].
Qed.

(** The virtual allocator: fresh, and with the system regions reserved.  The
    first of them lies below its base. *)
Definition sys_page (a size : Z) : page_t := Page a size 64 {[a := size]} [a] [] [].

Definition virt (ps : list page_t) (n : Z) : MemoryAllocator :=
  Allocator ALLOC_BASE_ADDR (GLOBAL_MEM_SIZE - ALLOC_BASE_ADDR) PAGE_SIZE CACHE_BLOCK_SIZE ps n.

Definition low_page : page_t := sys_page 0 USER_BASE_ADDR.
Definition high_size : Z := GLOBAL_MEM_SIZE - PAGE_TABLE_BASE_ADDR.
Definition high_page : page_t := sys_page PAGE_TABLE_BASE_ADDR high_size.

Lemma reserve_low : reserve (virt [] 0) 0 USER_BASE_ADDR = Some (true, virt [low_page] USER_BASE_ADDR).
Proof. unfold virt, GLOBAL_MEM_SIZE. destruct sv39; vm_compute; reflexivity. Qed.

Lemma reserve_high :
  reserve (virt [low_page] USER_BASE_ADDR) PAGE_TABLE_BASE_ADDR high_size =
  Some (true, virt [low_page; high_page] (USER_BASE_ADDR + high_size)).
Proof. unfold high_page, high_size, virt, GLOBAL_MEM_SIZE. destruct sv39; vm_compute; reflexivity. Qed.

Lemma global_mem_bounds : GLOBAL_MEM_SIZE <= 2 ^ VA_BITS /\ (GLOBAL_MEM_SIZE = 2 ^ 33 \/ GLOBAL_MEM_SIZE = 2 ^ 32).
Proof.
  unfold GLOBAL_MEM_SIZE, VA_BITS. rewrite vpn_bits_eq. destruct pt_level_cases as [[-> ->]|[-> ->]]; simpl; lia.
Qed.

Lemma block_bounds l : (1 <= l <= top)%nat -> 2 ^ 21 <= block l <= 2 ^ 30.
Proof.
  intros Hl. rewrite vpn_bits_eq.
  destruct pt_level_cases as [[E ->]|[E ->]]; (destruct l as [|[|[|l]]]; [lia|simpl; lia|simpl; lia|lia]).
Qed.

(** The tables of the two system regions fit the table region. *)
Lemma tables_low fuel : Z.of_nat (tables_for (chunks fuel 0 USER_BASE_ADDR)) <= 32.
Proof.
  pose proof (tables_bound 0 USER_BASE_ADDR fuel 0 ltac:(lia) ltac:(apply Z.divide_0_r)
    ltac:(change (block 0%nat) with 4096; by exists 16)) as B.
  change (block 0%nat) with 4096 in B. pose proof pt_level_cases. unfold USER_BASE_ADDR in *. lia.
Qed.

Lemma tables_high fuel : Z.of_nat (tables_for (chunks fuel PAGE_TABLE_BASE_ADDR GLOBAL_MEM_SIZE)) <= if sv39 then 2176 else 0.
Proof.
  pose proof pt_level_cases as Hc. pose proof (block_bounds 1 ltac:(lia)) as Hb.
  assert ((block 1%nat | PAGE_TABLE_BASE_ADDR) /\ (block 1%nat | GLOBAL_MEM_SIZE)) as [D1 D2].
  { unfold GLOBAL_MEM_SIZE. rewrite vpn_bits_eq. destruct sv39; simpl; split;
      [by exists 1920|by exists 4096|by exists 960|by exists 1024]. }
  pose proof (tables_bound 1 GLOBAL_MEM_SIZE fuel PAGE_TABLE_BASE_ADDR ltac:(lia) D1 D2) as B.
  unfold GLOBAL_MEM_SIZE, PAGE_TABLE_BASE_ADDR in *. destruct Hc as [[E Es]|[E Es]]; rewrite Es in *; rewrite E in B; simpl in B; nia.
Qed.

Definition in_system (va : Z) : Prop :=
  0 <= va < USER_BASE_ADDR \/ PAGE_TABLE_BASE_ADDR <= va < GLOBAL_MEM_SIZE.

#[global] Instance in_system_dec va : Decision (in_system va).
Proof. unfold in_system. apply _. Defined.

Lemma page_end_aligned x : (4096 | x) -> page_end x = x.
Proof. intros D. pose proof (page_end_le x x D ltac:(lia)). pose proof (page_end_bounds x). lia. Qed.

Lemma install_low rnd dev x :
  SATP_make (ROOT * 2 ^ 12) 0 = Some x ->
  let s0 := vm_start rnd dev (virt [low_page] USER_BASE_ADDR) x in
  exists s1 T1 n1, install_identity_map (vm_start rnd dev (virt [] 0) x) 0 USER_BASE_ADDR = Some (0, s1) /\
    vm_inv s1 T1 n1 /\ dirty_pt_pages_ s1 = ∅ /\ vm_keeps s0 s1 /\ (n1 <= 33)%nat /\
    (forall va, 0 <= va < 2 ^ VA_BITS -> tr s1 va = if decide (va < USER_BASE_ADDR) then Some va else None) /\
    (forall va j, 0 <= va < 2 ^ VA_BITS -> (j < top)%nat -> is_Some (apath (ent s1) va top ROOT j) ->
       exists c, 0 <= c < USER_BASE_ADDR /\ shares va c (S j)).
Proof.
  intros Ex s0. unfold install_identity_map. cbn [vm_start virtual_mem_ mbind option_bind].
  rewrite reserve_low. bind_simpl. change (set_vm _ _) with s0. set (fuel := Z.to_nat _).
  change (u64 (0 + USER_BASE_ADDR)) with USER_BASE_ADDR. pose proof pt_limit_bounds.
  pose proof (start_inv rnd dev (virt [low_page] USER_BASE_ADDR) x Ex) as I0. fold s0 in I0.
  assert (page_end USER_BASE_ADDR = USER_BASE_ADDR) as Ee by done.
  assert (forall va, 0 <= va < 2 ^ VA_BITS -> tr s0 va = None) as E0.
  { intros va Hva. rewrite (tr_awalk _ _ _ _ I0 Hva). unfold s0. by rewrite start_walk. }
  pose proof global_mem_bounds as [HG HG']. pose proof (tables_low fuel).
  destruct (identity_loop_spec USER_BASE_ADDR fuel s0 _ _ 0 ltac:(rewrite Ee; unfold USER_BASE_ADDR; lia) I0)
    as (s1 & T1 & n1 & E & I1 & D1 & K1 & Hn & M & Kr & P); try done.
  - apply Z.divide_0_r.
  - intros c l Hin. destruct (chunks_in _ _ _ _ _ Hin) as (? & Hl & _).
    destruct l as [|l]; [by eapply no_table_0|]. apply no_table_S; [done|]. apply start_path. lia.
  - lia.
  - intros va Hva. left. apply E0. rewrite Ee in Hva. unfold USER_BASE_ADDR in *. lia.
  - exists s1, T1, n1. split_and!; try done; [lia|..].
    + intros va Hva. rewrite Ee in *. case_decide; [apply M; lia|]. rewrite Kr by lia. by apply E0.
    + intros va j Hva Hj Hp. destruct (P va j Hva Hp) as [Hs|(c & l & Hin & Sh)].
      * unfold s0 in Hs. rewrite start_path in Hs by done. by destruct Hs.
      * exists c. destruct (chunks_in _ _ _ _ _ Hin) as (? & _). split; [lia|done].
Qed.

(** The tables of the low region do not reach the high one. *)
Lemma high_free s T n fuel c l :
  vm_inv s T n ->
  (forall va j, 0 <= va < 2 ^ VA_BITS -> (j < top)%nat -> is_Some (apath (ent s) va top ROOT j) ->
    exists c', 0 <= c' < USER_BASE_ADDR /\ shares va c' (S j)) ->
  (c, l) ∈ chunks fuel PAGE_TABLE_BASE_ADDR GLOBAL_MEM_SIZE -> no_table l c s.
Proof.
  intros I P Hin. pose proof global_mem_bounds as [HG HG'].
  destruct (chunks_in _ _ _ _ _ Hin) as (Hc & Hl & _).
  destruct l as [|j]; [by eapply no_table_0|]. apply no_table_S; [done|].
  destruct (apath _ _ _ _ _) as [u|] eqn:Eu; [|done]. exfalso.
  assert (0 <= c < 2 ^ VA_BITS) as Hcv by (unfold PAGE_TABLE_BASE_ADDR in Hc; lia).
  destruct (P c j Hcv ltac:(lia) ltac:(exists u; done)) as (c' & Hc' & Sh).
  pose proof (block_bounds (S j) ltac:(lia)). unfold shares in Sh. unfold USER_BASE_ADDR, PAGE_TABLE_BASE_ADDR in *.
  rewrite (Z.div_small c') in Sh by lia. assert (1 <= c / block (S j)) by (apply Z.div_le_lower_bound; lia). lia.
Qed.

Lemma vm_init_spec rnd dev :
  exists s T n, vm_init (VMManager_new rnd dev) = Some (0, s) /\ vm_inv s T n /\ dirty_pt_pages_ s = ∅ /\
    addr_mapping s = ∅ /\ randomize_va_ s = rnd /\
    virtual_mem_ s = Some (virt [low_page; high_page] (USER_BASE_ADDR + high_size)) /\ (n <= if sv39 then 2209 else 33)%nat /\
    (forall va, 0 <= va < 2 ^ VA_BITS -> tr s va = if decide (in_system va) then Some va else None).
Proof.
  destruct satp_start as (x & Ex & _). pose proof global_mem_bounds as [HG HG'].
  unfold vm_init. cbv zeta.
  assert ((if sv39 then GLOBAL_MEM_SIZE - ALLOC_BASE_ADDR
     else if 0x100000000 <? ALLOC_BASE_ADDR + (GLOBAL_MEM_SIZE - ALLOC_BASE_ADDR) then 0x100000000 - ALLOC_BASE_ADDR
     else GLOBAL_MEM_SIZE - ALLOC_BASE_ADDR) = GLOBAL_MEM_SIZE - ALLOC_BASE_ADDR) as ->.
  { unfold GLOBAL_MEM_SIZE. by destruct sv39. }
  set (s00 := set_vm _ _). pose proof pt_limit_bounds as Hlim.
  rewrite (alloc_page_table_ok s00 0 0 eq_refl) by lia. bind_simpl.
  change (new_table 0 * 2 ^ 12) with (ROOT * 2 ^ 12). rewrite Ex. bind_simpl.
  change (set_satp_ (with_table s00 0) x) with (VM (Some x) (Some (pt_mem 1)) (Some (virt [] 0)) ∅
    (<[ROOT * 2 ^ 12 := ∅]> ∅) ({[ROOT * 2 ^ 12]} ∪ ∅) 0 rnd dev).
  rewrite insert_empty, union_empty_r_L. fold (vm_start rnd dev (virt [] 0) x).
  destruct (install_low rnd dev x Ex) as (s1 & T1 & n1 & -> & I1 & D1 & K1 & Hn1 & M1 & P1). bind_simpl.
  cbn [Z.eqb negb]. unfold install_identity_map at 1. rewrite (vk_vm _ _ K1). cbn [vm_start virtual_mem_ mbind option_bind].
  fold high_size. rewrite reserve_high. bind_simpl. set (s2 := set_vm s1 _).
  assert (PAGE_TABLE_BASE_ADDR + high_size = GLOBAL_MEM_SIZE) as Eg by (unfold high_size; lia).
  rewrite Eg, u64_small by lia. set (fuel := Z.to_nat _).
  assert (vm_inv s2 T1 n1) as I2 by (destruct I1; by constructor).
  assert (page_end GLOBAL_MEM_SIZE = GLOBAL_MEM_SIZE) as Ee.
  { apply page_end_aligned. destruct HG' as [-> | ->]; [by exists (2 ^ 21)|by exists (2 ^ 20)]. }
  pose proof (tables_high fuel) as Ht. pose proof pt_level_cases.
  destruct (identity_loop_spec GLOBAL_MEM_SIZE fuel s2 T1 n1 PAGE_TABLE_BASE_ADDR ltac:(by rewrite Ee) I2)
    as (s & T & n & -> & I & D & Kp & Hn & M & Kr & _).
  - by exists 0xF0000.
  - done.
  - unfold fuel, high_size, PAGE_TABLE_BASE_ADDR, PAGE_SIZE, PAGE_LOG2_SIZE in *. destruct HG' as [-> | ->]; vm_compute; congruence.
  - intros c l Hin. by apply (high_free s2 T1 n1 fuel).
  - unfold PT_SIZE_LIMIT. destruct sv39; lia.
  - intros va Hva. left. rewrite Ee in Hva. change (tr s2 va) with (tr s1 va). unfold PAGE_TABLE_BASE_ADDR in *.
    rewrite M1 by lia. unfold USER_BASE_ADDR. by rewrite decide_False by lia.
  - bind_simpl. cbn [Z.eqb negb]. exists (flush s), T, n. destruct K1 as [_ _ K2 _ K3], Kp as [_ L2 L3 _ L4].
    split_and!; try done; [by apply flush_inv|..].
    + cbn [flush set_dev addr_mapping]. rewrite L3. exact K2.
    + cbn [flush set_dev randomize_va_]. rewrite L4. exact K3.
    + destruct sv39; lia.
    + intros va Hva. rewrite flush_tr. unfold in_system. rewrite Ee in *.
      destruct (decide (PAGE_TABLE_BASE_ADDR <= va < GLOBAL_MEM_SIZE)) as [Hh|Hh].
      * rewrite decide_True by auto. by apply M.
      * rewrite Kr by done. change (tr s2 va) with (tr s1 va). rewrite M1 by done.
        destruct (decide (va < USER_BASE_ADDR)); [rewrite decide_True by lia|rewrite decide_False by lia]; done.
Qed.
End Init.

(** ** Minting virtual addresses *)

Section Mint.
Context `{VxConfig} (draw : nat -> Z -> Z).
Abbreviation top := (PT_LEVEL - 1)%nat.

Lemma access_flags flags : leaf_flags (pte_flags_from_access flags).
Proof. unfold pte_flags_from_access. destruct (_ =? 0); by constructor. Qed.

Lemma page_block o : 0 <= o < 4096 -> 0 <= o < 2 ^ (12 + Z.of_nat 0 * VM_VPN_BITS).
Proof. by rewrite Z.mul_0_l. Qed.

(** One page, not mapped yet. *)
Lemma map_page s T n ppn vpn flags :
  vm_inv s T n -> ppn_ok ppn -> vpn_ok vpn -> 4096 * Z.of_nat (n + top) <= PT_SIZE_LIMIT ->
  exists r s' T' n', update_page_table s ppn vpn (pte_flags_from_access flags) 0 = Some (r, s') /\ vm_inv s' T' n' /\
    vm_frame s s' /\ (n' <= n + top)%nat /\ update_effect s s' r ppn vpn 0.
Proof.
  intros I Hp Hv Hn.
  destruct (update_maps s T n ppn vpn _ 0 I Hp Hv ltac:(lia) (Z.divide_1_l _) (Z.divide_1_l _) (access_flags flags)
    (no_table_0 _ _ _ _ I) ltac:(by rewrite Nat.sub_0_r)) as (r & s' & T' & n' & E & I' & F & Hn' & _ & U).
  exists r, s', T', n'. split_and!; try done. lia.
Qed.

Lemma update_fresh s s' r ppn vpn :
  update_effect s s' r ppn vpn 0 -> tr s (vpn * 2 ^ 12) = None ->
  r = 0 /\ forall o, 0 <= o < 4096 -> tr s' (vpn * 2 ^ 12 + o) = Some (ppn * 2 ^ 12 + o).
Proof.
  intros [U1 _ _ U4] E. assert (r = 0) as -> by (destruct U4 as [|(_ & pa & Epa & _)]; [done|congruence]).
  split; [done|]. intros o Ho. by apply U1, page_block.
Qed.

Lemma set_mapping_inv s T n ppn vpn : vm_inv s T n -> vm_inv (set_mapping s ppn vpn) T n.
Proof. intros []. by constructor. Qed.

(** Fresh physical pages at fresh virtual pages. *)
Lemma map_pages_spec m s T n ppn vpn flags :
  vm_inv s T n -> 0 <= ppn -> ppn_ok (ppn + Z.of_nat m) -> 0 <= vpn -> vpn_ok (vpn + Z.of_nat m) ->
  4096 * Z.of_nat (n + m * top) <= PT_SIZE_LIMIT ->
  (forall i, 0 <= i < Z.of_nat m -> addr_mapping s !! (ppn + i) = None) ->
  (forall o, 0 <= o < 4096 * Z.of_nat m -> tr s (vpn * 2 ^ 12 + o) = None) ->
  exists s' T' n', map_pages m s ppn vpn flags = Some s' /\ vm_inv s' T' n' /\ (n' <= n + m * top)%nat /\
    (forall o, 0 <= o < 4096 * Z.of_nat m -> tr s' (vpn * 2 ^ 12 + o) = Some (ppn * 2 ^ 12 + o)) /\
    (forall va, 0 <= va < 2 ^ VA_BITS -> ~ (vpn * 2 ^ 12 <= va < vpn * 2 ^ 12 + 4096 * Z.of_nat m) -> tr s' va = tr s va) /\
    (forall p, addr_mapping s' !! p = if decide (ppn <= p < ppn + Z.of_nat m) then Some (vpn + (p - ppn)) else addr_mapping s !! p) /\
    virtual_mem_ s' = virtual_mem_ s /\ randomize_va_ s' = randomize_va_ s.
Proof.
  revert s T n ppn vpn. induction m as [|m IH]; intros s T n ppn vpn I Hp0 Hp Hv0 Hv Hn Hm Ht; cbn [map_pages].
  { exists s, T, n. split_and!; try done; [lia|lia|]. intros p. by rewrite decide_False by lia. }
  rewrite !Nat.mul_succ_l in *. set (mt := (m * top)%nat) in *.
  assert (addr_mapping s !! ppn = None) as -> by (rewrite <- (Z.add_0_r ppn); apply Hm; lia).
  assert (ppn_ok ppn) as Hp1 by (unfold ppn_ok in *; destruct sv39; lia).
  assert (vpn_ok vpn) as Hv1 by (unfold vpn_ok in *; destruct sv39; lia).
  destruct (map_page s T n ppn vpn flags I Hp1 Hv1 ltac:(lia)) as (r & s1 & T1 & n1 & -> & I1 & F1 & Hn1 & U). bind_simpl.
  destruct (update_fresh _ _ _ _ _ U) as [-> M1].
  { rewrite <- (Z.add_0_r (vpn * 2 ^ 12)). apply Ht. lia. }
  set (s2 := set_mapping s1 ppn vpn). assert (vm_inv s2 T1 n1) as I2 by (by apply set_mapping_inv).
  assert (forall va, 0 <= va < 2 ^ VA_BITS -> ~ (vpn * 2 ^ 12 <= va < vpn * 2 ^ 12 + 4096) -> tr s2 va = tr s va) as K1.
  { intros va Hva Hne. apply (ue_keeps _ _ _ _ _ _ U va Hva). by rewrite Z.mul_0_l. }
  pose proof (proj1 (vpn_ok_va _) Hv) as HV.
  destruct (IH s2 T1 n1 (ppn + 1) (vpn + 1) I2) as (s' & T' & n' & E & I' & Hn' & M & Kr & Mp & Ev & Er).
  - lia.
  - by replace (ppn + 1 + Z.of_nat m) with (ppn + Z.of_nat (S m)) by lia.
  - lia.
  - by replace (vpn + 1 + Z.of_nat m) with (vpn + Z.of_nat (S m)) by lia.
  - lia.
  - intros i Hi. cbn [s2 set_mapping addr_mapping]. rewrite lookup_insert_ne, (vf_map _ _ F1) by lia.
    rewrite <- Z.add_assoc. apply Hm. lia.
  - intros o Ho. rewrite K1 by lia. replace ((vpn + 1) * 2 ^ 12 + o) with (vpn * 2 ^ 12 + (4096 + o)) by lia. apply Ht. lia.
  - exists s', T', n'. split_and!; try done; [lia|..].
    + intros o Ho. destruct (Z.lt_ge_cases o 4096).
      * rewrite Kr by lia. change (tr s2 ?v) with (tr s1 v). apply M1. lia.
      * replace (vpn * 2 ^ 12 + o) with ((vpn + 1) * 2 ^ 12 + (o - 4096)) by lia. rewrite M by lia. f_equal. lia.
    + intros va Hva Hne. rewrite Kr by lia. apply K1; lia.
    + intros p. rewrite Mp. cbn [s2 set_mapping addr_mapping].
      destruct (decide (p = ppn)) as [->|].
      * rewrite decide_False, lookup_insert_eq, decide_True by lia. f_equal. lia.
      * rewrite lookup_insert_ne, (vf_map _ _ F1) by done. repeat case_decide; try lia; try done. f_equal. lia.
    + rewrite Ev. exact (vf_vm _ _ F1).
    + rewrite Er. exact (vf_rand _ _ F1).
Qed.

(** What the copy engine translates, from the device's tables and the root the
    manager programs. *)
Definition cp_va (s : VMManager) (va : Z) : option Z := cp_translate (read_page (dev_pt s)) (satp s) va false.

Lemma cp_agrees s T n va pa :
  vm_inv s T n -> dirty_pt_pages_ s = ∅ -> 0 <= va < 2 ^ VA_BITS -> tr s va = Some pa -> cp_va s va = Some pa.
Proof.
  intros I D Hva Ht. destruct satp_start as (x & Ex & Ep & _). pose proof (vi_satp _ _ _ I) as Es. rewrite Ex in Es.
  unfold cp_va, satp. rewrite Es. apply (cp_translate_host _ ROOT 0); [|destruct sv39; lia|done|].
  - unfold ROOT, PA_BITS. destruct sv39; simpl; lia.
  - rewrite <- (proj2 (inv_trans _ _ _ I)), (device_walk _ _ _ _ I D Hva). unfold tr in Ht.
    destruct (vm_page_table_walk s va); by simplify_eq.
Qed.

(** The copy engine does not translate what the tables do not map. *)
Lemma cp_unmapped s T n va :
  vm_inv s T n -> dirty_pt_pages_ s = ∅ -> 0 <= va < 2 ^ VA_BITS -> tr s va = None -> cp_va s va = Some va.
Proof.
  intros I D Hva Ht. destruct satp_start as (x & Ex & _). pose proof (vi_satp _ _ _ I) as Es. rewrite Ex in Es.
  unfold cp_va, satp. rewrite Es. rewrite (cp_translate_walk _ ROOT 0); [|unfold ROOT, PA_BITS; destruct sv39; simpl; lia|destruct sv39; lia|done].
  unfold tr, vm_page_table_walk, page_table_walk in Ht. destruct (inv_trans _ _ _ I) as [En Eb]. rewrite En, Eb in Ht. cbn [negb] in Ht.
  destruct (vAddr_make_ok va Hva) as [v Ev]. rewrite Ev in Ht |- *. bind_simpl. pose proof pt_level_cases.
  destruct (host_walk _ _ _ _) as [f|[ppn l]] eqn:Eh; [|done].
  rewrite (cp_walk_fault (read_pte s) T ROOT (vi_tree _ _ _ I) (read_page_range _) _ va v _ _ f Ev); [done|lia|apply (vi_tree _ _ _ I)| |done].
  intros u j k. by apply (device_entry s T n).
Qed.

(** What else changes: the allocator, the map from frames to pages and the
    number of tables. *)
Record minted (s s' : VMManager) (m' : MemoryAllocator) (pAddr a size : Z) (n n' : nat) : Prop := {
  mi_map p : addr_mapping s' !! p =
    if decide (pAddr / 4096 <= p < pAddr / 4096 + (size + 4095) / 4096) then Some (a / 4096 + (p - pAddr / 4096))
    else addr_mapping s !! p;
  mi_vm : virtual_mem_ s' = Some m';
  mi_rand : randomize_va_ s' = randomize_va_ s;
  mi_tables : Z.of_nat n' <= Z.of_nat n + 2 * (size / 4096 + 1)
}.

Lemma mint_fresh s T n size pAddr flags a m m' :
  vm_inv s T n -> randomize_va_ s = false -> virtual_mem_ s = Some m -> allocate m size = Some (Some a, m') ->
  0 < size -> 0 <= pAddr -> (4096 | pAddr) -> 0 <= a -> (4096 | a) ->
  pAddr + size + 4096 <= 2 ^ PA_BITS -> a + size + 4096 < 2 ^ VA_BITS ->
  4096 * (Z.of_nat n + 2 * (size / 4096 + 1)) <= PT_SIZE_LIMIT ->
  (forall i, 0 <= i < (size + 4095) / 4096 -> addr_mapping s !! (pAddr / 4096 + i) = None) ->
  (forall o, 0 <= o < size + 4096 -> tr s (a + o) = None) ->
  exists s' T' n', mint_va draw s size pAddr flags = Some (a, s') /\ vm_inv s' T' n' /\
    (forall o, 0 <= o < page_end size -> tr s' (a + o) = Some (pAddr + o)) /\
    (forall va, 0 <= va < 2 ^ VA_BITS -> ~ (a <= va < a + page_end size) -> tr s' va = tr s va) /\
    minted s s' m' pAddr a size n n'.
Proof.
  intros I Hr Em Ea Hs Hp [p Ep] Ha [v Ev] Hpb Hab Hn Hm Ht. set (k := (size + 4095) / 4096) in *.
  assert (size <= k * 4096 < size + 4096) as Hk by apply (page_end_bounds size).
  assert (2 ^ VA_BITS <= 2 ^ 39 /\ 2 ^ PA_BITS <= 2 ^ 56) as [HV HP].
  { unfold VA_BITS, PA_BITS. rewrite vpn_bits_eq. destruct pt_level_cases as [[-> ->]|[-> ->]]; simpl; lia. }
  unfold mint_va, PAGE_SIZE, PAGE_LOG2_SIZE. cbv zeta. rewrite !Z.shiftr_div_pow2 by lia.
  rewrite (u64_small (size + _ - 1)) by lia. replace (size + 2 ^ 12 - 1) with (size + 4095) by lia.
  change (2 ^ 12) with 4096. fold k. assert (pAddr / 4096 = p) as Epp by (rewrite Ep; apply Z.div_mul; lia).
  rewrite Epp in *. assert (addr_mapping s !! p = None) as -> by (rewrite <- (Z.add_0_r p); apply Hm; lia).
  unfold alloc_va. rewrite Hr. bind_simpl. rewrite Em. bind_simpl. rewrite Ea. bind_simpl.
  rewrite Z.shiftr_div_pow2 by lia. change (2 ^ 12) with 4096. assert (a / 4096 = v) as Eav by (rewrite Ev; apply Z.div_mul; lia). rewrite Eav.
  assert (Z.lor (u64 (v ≪ 12)) (Z.land pAddr (1 ≪ 12 - 1)) = a) as ->.
  { change (1 ≪ 12 - 1) with (Z.ones 12). rewrite Z.land_ones, Ep by lia. change (2 ^ 12) with 4096.
    rewrite Z.mod_mul, Z.lor_0_r, Z.shiftl_mul_pow2, u64_small by lia. lia. }
  assert (vm_inv (set_vm s m') T n) as I2 by (destruct I; by constructor).
  assert (k <= size / 4096 + 1) as Hk'.
  { pose proof (Z.div_mod size 4096). pose proof (Z.mod_pos_bound size 4096). apply Z.lt_succ_r, Z.div_lt_upper_bound; lia. }
  assert (Z.to_nat k * top <= Z.to_nat k * 2)%nat as Hkt by (apply Nat.mul_le_mono_l; pose proof pt_level_cases; lia).
  destruct (map_pages_spec (Z.to_nat k) (set_vm s m') T n p v flags I2) as (s' & T' & n' & -> & I' & Hn' & M & Kr & Mp & Em' & Er').
  - lia.
  - unfold ppn_ok, PA_BITS in *. destruct sv39; lia.
  - lia.
  - apply vpn_ok_va. lia.
  - lia.
  - intros i Hi. apply Hm. lia.
  - intros o Ho. change (tr (set_vm s m') ?x) with (tr s x). replace (v * 2 ^ 12 + o) with (a + o) by lia. apply Ht. lia.
  - bind_simpl. exists s', T', n'. split_and!; try done.
    + intros o Ho. unfold page_end in Ho. fold k in Ho. replace (a + o) with (v * 2 ^ 12 + o) by lia. rewrite M by lia. f_equal. lia.
    + intros va Hva Hne. change (tr s va) with (tr (set_vm s m') va). apply Kr; [done|].
      unfold page_end in Hne. fold k in Hne. lia.
    + constructor; [|by rewrite Em'|by rewrite Er'|lia]. intros q. rewrite Mp, Epp, Eav. fold k. by rewrite Z2Nat.id by lia.
Qed.
End Mint.

(** ** The address space the runtime builds *)

Section Space.
Context `{VxConfig} (draw : nat -> Z -> Z).
Abbreviation top := (PT_LEVEL - 1)%nat.
Abbreviation vb l := (Z.of_nat l * VM_VPN_BITS).

(** C27. After [init] the address space is exact: it succeeds, every address of
    the two system regions translates to itself and every other address of the
    virtual space faults; the tables on the device give the same result as the
    host's walk for every address; and the copy engine of the command
    processor, started from the programmed root, leaves every address as it
    is: the system regions because the tables map them to themselves, the
    rest because it passes an address the tables do not map through, where
    the host's walk and the MMU fault. *)
Theorem vm_init_identity rnd dev :
  exists s, vm_init (VMManager_new rnd dev) = Some (0, s) /\
    forall va, 0 <= va < 2 ^ VA_BITS ->
      tr s va = (if decide (in_system va) then Some va else None) /\
      page_table_walk (read_page (dev_pt s)) (get_base_ppn s) va = vm_page_table_walk s va /\
      cp_va s va = Some va.
Proof.
  destruct (vm_init_spec rnd dev) as (s & T & n & E & I & D & _ & _ & _ & _ & Ht). exists s. split; [done|].
  intros va Hva. split_and!; [by apply Ht|by eapply device_walk|]. specialize (Ht va Hva).
  case_decide; [by apply (cp_agrees s T n)|by apply (cp_unmapped s T n)].
Qed.

(** [update_page_table] is an insertion into the address space: on
    consistent tables with room for the missing levels, and no table already
    below the leaf, it returns 0 or -1 and keeps the tables consistent; 0 means that the whole
    (super)page translates to the requested frames, -1 that the page is mapped
    elsewhere already; no address outside the page changes its translation,
    and no address that was mapped changes it at all. *)
Theorem update_page_table_inserts s T n ppn vpn flags leaf :
  vm_inv s T n -> ppn_ok ppn -> vpn_ok vpn -> (leaf <= top)%nat -> (2 ^ vb leaf | ppn) -> (2 ^ vb leaf | vpn) ->
  leaf_flags flags -> no_table leaf (vpn * 2 ^ 12) s -> 4096 * Z.of_nat (n + (top - leaf)) <= PT_SIZE_LIMIT ->
  exists r s' T' n', update_page_table s ppn vpn flags leaf = Some (r, s') /\ vm_inv s' T' n' /\
    update_effect s s' r ppn vpn leaf.
Proof.
  intros I Hp Hv Hl Dp Dv Hf N Hn.
  destruct (update_maps s T n ppn vpn flags leaf I Hp Hv Hl Dp Dv Hf N Hn) as (r & s' & T' & n' & E & I' & _ & _ & _ & U). eauto 10.
Qed.

(** Mapping a page-aligned buffer whose frames and whose virtual block are
    fresh: the returned address is the block the virtual allocator chose, every
    byte of the buffer translates to its physical byte for the host's walk, for
    the walk over the device's tables after the flush and for the copy engine,
    and nothing outside the buffer's pages changes. *)
Lemma phy_to_virt_map_maps s T n size pAddr flags a m m' :
  vm_inv s T n -> randomize_va_ s = false -> virtual_mem_ s = Some m -> allocate m size = Some (Some a, m') ->
  0 < size -> 0 <= pAddr -> (4096 | pAddr) -> 0 <= a -> (4096 | a) ->
  pAddr + size + 4096 <= 2 ^ PA_BITS -> a + size + 4096 < 2 ^ VA_BITS ->
  4096 * (Z.of_nat n + 2 * (size / 4096 + 1)) <= PT_SIZE_LIMIT ->
  (forall i, 0 <= i < (size + 4095) / 4096 -> addr_mapping s !! (pAddr / 4096 + i) = None) ->
  (forall o, 0 <= o < size + 4096 -> tr s (a + o) = None) ->
  exists s' T' n', phy_to_virt_map draw s size pAddr flags = Some (a, s') /\ vm_inv s' T' n' /\
    (forall o, 0 <= o < size -> tr s' (a + o) = Some (pAddr + o) /\ cp_va s' (a + o) = Some (pAddr + o) /\
      page_table_walk (read_page (dev_pt s')) (get_base_ppn s') (a + o) = inr (pAddr + o)) /\
    (forall va, 0 <= va < 2 ^ VA_BITS -> ~ (a <= va < a + page_end size) -> tr s' va = tr s va).
Proof.
  intros I Hr Em Ea Hs Hp Dp Ha Da Hpb Hab Hn Hm Ht.
  destruct (mint_fresh draw s T n size pAddr flags a m m' I Hr Em Ea Hs Hp Dp Ha Da Hpb Hab Hn Hm Ht)
    as (s' & T' & n' & E & I' & M & K & _).
  unfold phy_to_virt_map. rewrite (proj1 (inv_trans _ _ _ I)), E. cbn [negb]. bind_simpl.
  pose proof (page_end_bounds size) as Hpe. pose proof (M 0 ltac:(lia)) as M0. rewrite !Z.add_0_r in M0. unfold tr in M0.
  destruct (vm_page_table_walk s' a) as [|pa] eqn:Ew; simplify_eq. rewrite Z.eqb_refl.
  exists (flush s'), T', n'. pose proof (flush_inv _ _ _ I') as IF. split_and!; try done.
  intros o Ho. pose proof (M o ltac:(lia)) as Mo. split_and!; [done|apply (cp_agrees _ T' n'); (done || lia)|].
  rewrite (device_walk _ T' n') by (done || lia). change (vm_page_table_walk (flush s') ?x) with (vm_page_table_walk s' x).
  unfold tr in Mo. destruct (vm_page_table_walk s' (a + o)); by simplify_eq.
Qed.
End Space.

Lemma user_unmapped `{VxConfig} s va :
  (forall va, 0 <= va < 2 ^ VA_BITS -> tr s va = if decide (in_system va) then Some va else None) ->
  0x10000 <= va < 0xF0000000 -> tr s va = None.
Proof.
  intros Ht Hva. pose proof global_mem_bounds. rewrite Ht by lia. apply decide_False.
  unfold in_system, USER_BASE_ADDR, PAGE_TABLE_BASE_ADDR. lia.
Qed.

Lemma va_small `{VxConfig} va : 0 <= va < 2 ^ 32 -> 0 <= va < 2 ^ VA_BITS.
Proof. pose proof global_mem_bounds. lia. Qed.

Lemma system_mapped `{VxConfig} s va :
  (forall va, 0 <= va < 2 ^ VA_BITS -> tr s va = if decide (in_system va) then Some va else None) ->
  0 <= va < 0x10000 -> tr s va = Some va.
Proof.
  intros Ht Hva. pose proof global_mem_bounds. rewrite Ht by lia. apply decide_True. by left.
Qed.

Lemma update_page_table_inserts_witness : let _ := default_config in
  exists s s' T n, vm_init (VMManager_new false ∅) = Some (0, s) /\
    update_page_table s 0x10 0x20 (pte_flags_from_access 1) 0 = Some (0, s') /\ vm_inv s' T n /\
    tr s' 0x20004 = Some 0x10004 /\ tr s' 0x4 = Some 0x4.
Proof.
  intros cfg. destruct (vm_init_spec false ∅) as (s & T & n & E & I & _ & _ & _ & _ & Hn & Ht).
  destruct (update_page_table_inserts s T n 0x10 0x20 (pte_flags_from_access 1) 0 I) as (r & s' & T' & n' & E' & I' & U).
  - unfold ppn_ok. destruct sv39; lia.
  - unfold vpn_ok. destruct sv39; lia.
  - lia.
  - apply Z.divide_1_l.
  - apply Z.divide_1_l.
  - apply access_flags.
  - exact (no_table_0 _ _ _ _ I).
  - change (if sv39 then 2209 else 33)%nat with 33%nat in Hn. change PT_SIZE_LIMIT with (2 ^ 23). change (PT_LEVEL) with 2%nat. lia.
  - assert (tr s 0x20000 = None) as Hf by (apply user_unmapped; [exact Ht|lia]).
    destruct (update_fresh _ _ _ _ _ U Hf) as [-> M]. exists s, s', T', n'. split_and!; [exact E|exact E'|exact I'| |].
    + apply (M 4). lia.
    + assert (tr s 4 = Some 4) as E4 by (apply system_mapped; [exact Ht|lia]).
      refine (eq_trans (ue_mapped _ _ _ _ _ _ U 4 _ (mk_is_Some _ _ E4)) E4). apply va_small. lia.
Defined.

Lemma first_two_pages `{VxConfig} : exists m,
  allocate (virt [low_page; high_page] (USER_BASE_ADDR + high_size)) 8192 = Some (Some 0x10000, m).
Proof. unfold high_page, high_size, virt, GLOBAL_MEM_SIZE. destruct sv39; eexists; vm_compute; reflexivity. Qed.

(** ** Sub-page buffers *)

Section SubPage.
Context `{VxConfig} (draw : nat -> Z -> Z).

Lemma subpage_blocks : exists m1 m2,
  allocate (virt [low_page; high_page] (USER_BASE_ADDR + high_size)) 4032 = Some (Some 0x10000, m1) /\
  allocate m1 64 = Some (Some 0x10FC0, m2).
Proof. unfold high_page, high_size, virt, GLOBAL_MEM_SIZE. destruct sv39; eexists _, _; (split; [vm_compute; reflexivity|vm_compute; reflexivity]). Qed.

Lemma tr_walk s va pa : tr s va = Some pa <-> vm_page_table_walk s va = inr pa.
Proof. unfold tr. destruct (vm_page_table_walk s va); split; intros; simplify_eq; done. Qed.

(** The first buffer, most of a page. *)
Lemma subpage_first flags : exists s0 s1 T n m2,
  vm_init (VMManager_new false ∅) = Some (0, s0) /\ phy_to_virt_map draw s0 4032 0x10000 flags = Some (0x10000, s1) /\
  vm_inv s1 T n /\ 4096 * Z.of_nat (n + 2) <= PT_SIZE_LIMIT /\ randomize_va_ s1 = false /\
  (exists m1, virtual_mem_ s1 = Some m1 /\ allocate m1 64 = Some (Some 0x10FC0, m2)) /\
  (forall p, addr_mapping s1 !! p = if decide (p = 0x10) then Some 0x10 else None) /\
  (forall o, 0 <= o < 4096 -> tr s1 (0x10000 + o) = Some (0x10000 + o)).
Proof.
  destruct (vm_init_spec false ∅) as (s & T & n & E & I & _ & Em & Er & Ev & Hn & Ht).
  destruct subpage_blocks as (m1 & m2 & A1 & A2). pose proof pt_limit_bounds as Hlim. pose proof global_mem_bounds as [HG1 HG2].
  assert (2 ^ 32 <= 2 ^ PA_BITS) as HPA by (unfold PA_BITS; destruct sv39; simpl; lia).
  assert (4096 * Z.of_nat (n + 4) <= PT_SIZE_LIMIT) as Hroom by (unfold PT_SIZE_LIMIT; destruct sv39; lia).
  destruct (mint_fresh draw s T n 4032 0x10000 flags 0x10000 _ m1 I Er Ev A1) as (s' & T' & n' & Em' & I' & M & K & [Mm Mv Mr Mt]);
    try lia; try (by exists 16).
  - change (4032 / 4096) with 0. lia.
  - intros i _. rewrite Em. apply lookup_empty.
  - intros o Ho. apply user_unmapped; [done|lia].
  - change (page_end 4032) with 4096 in M. change (4032 / 4096) with 0 in Mt.
    exists s, (flush s'), T', n', m2. split; [exact E|split; [|split; [|split; [|split; [|split; [|split]]]]]].
    + unfold phy_to_virt_map. rewrite (proj1 (inv_trans _ _ _ I)), Em'. cbn [negb]. bind_simpl.
      pose proof (M 0 ltac:(lia)) as M0. rewrite !Z.add_0_r in M0. apply tr_walk in M0. by rewrite M0.
    + by apply flush_inv.
    + lia.
    + change (randomize_va_ s' = false). by rewrite Mr.
    + exists m1. split; [exact Mv|exact A2].
    + intros p. change (addr_mapping (flush s')) with (addr_mapping s'). rewrite Mm, Em, lookup_empty.
      change (0x10000 / 4096) with 0x10. change ((4032 + 4095) / 4096) with 1.
      destruct (decide (p = 0x10)) as [->|]; [by rewrite decide_True|by rewrite decide_False by lia].
    + intros o Ho. rewrite flush_tr. apply M. lia.
Qed.

(** C39. Buffers smaller than a page can be handed the same virtual page.  After
    [init], a buffer of 4032 bytes at the start of a frame and one of 64 bytes
    at the end of the same frame are mapped; the virtual allocator never hears
    of the second, so for a third one, on the next frame, it returns the free
    tail of the first page: the page table keeps the old mapping, the
    error of [update_page_table] is dropped, the address chosen for the third
    buffer translates into the first, and the closing assertion fails. *)
Theorem subpage_conflict flags :
  exists s0 s1 s2 s3,
    vm_init (VMManager_new false ∅) = Some (0, s0) /\
    phy_to_virt_map draw s0 4032 0x10000 flags = Some (0x10000, s1) /\
    phy_to_virt_map draw s1 64 0x10FC0 flags = Some (0x10FC0, s2) /\
    mint_va draw s2 64 0x11000 flags = Some (0x10000, s3) /\ tr s3 0x10000 = Some 0x10000 /\
    phy_to_virt_map draw s2 64 0x11000 flags = None.
Proof.
  destruct (subpage_first flags) as (s0 & s1 & T & n & m2 & E0 & E1 & I & Hn & Er & (m1 & Ev & A2) & Mm & M).
  exists s0, s1, (flush s1). pose proof (proj1 (inv_trans _ _ _ I)) as Tr.
  assert (mint_va draw s1 64 0x10FC0 flags = Some (0x10FC0, s1)) as E2.
  { unfold mint_va. change (Z.shiftr 0x10FC0 PAGE_LOG2_SIZE) with 0x10. change (Z.shiftr (u64 _) _) with 1. cbv zeta.
    rewrite !Mm. rewrite decide_True by done. bind_simpl. change (Z.to_nat 1) with 1%nat. cbn [map_pages].
    rewrite Mm, decide_True by done. done. }
  assert (exists s3, mint_va draw (flush s1) 64 0x11000 flags = Some (0x10000, s3) /\ tr s3 0x10000 = Some 0x10000) as (s3 & E3 & T3).
  { pose proof (flush_inv _ _ _ I) as IF. set (s := set_vm (flush s1) m2).
    assert (vm_inv s T n) as I2 by (destruct IF; by constructor).
    destruct (map_page s T n 0x11 0x10 flags I2) as (r & s' & T' & n' & Eu & I' & _ & _ & U).
    - unfold ppn_ok. destruct sv39; lia.
    - unfold vpn_ok. destruct sv39; lia.
    - pose proof pt_level_cases. lia.
    - exists (set_mapping s' 0x11 0x10). split.
      + unfold mint_va. change (Z.shiftr 0x11000 PAGE_LOG2_SIZE) with 0x11. change (Z.shiftr (u64 _) _) with 1. cbv zeta.
        change (addr_mapping (flush s1)) with (addr_mapping s1). rewrite Mm, decide_False by done. unfold alloc_va.
        change (randomize_va_ (flush s1)) with (randomize_va_ s1).
        rewrite Er. bind_simpl. change (virtual_mem_ (flush s1)) with (virtual_mem_ s1). rewrite Ev. bind_simpl. rewrite A2. bind_simpl. fold s. change (Z.to_nat 1) with 1%nat. cbn [map_pages].
        change (addr_mapping s) with (addr_mapping s1). rewrite Mm, decide_False by done.
        change (Z.shiftr 0x10FC0 PAGE_LOG2_SIZE) with 0x10. rewrite Eu. done.
      + pose proof (M 0 ltac:(lia)) as M0. rewrite !Z.add_0_r in M0. change (tr (set_mapping s' 0x11 0x10) ?v) with (tr s' v).
        rewrite (ue_mapped _ _ _ _ _ _ U); [exact M0|apply va_small; lia|by exists 0x10000]. }
  exists s3. split_and!; try done; unfold phy_to_virt_map.
  - rewrite Tr, E2. cbn [negb]. bind_simpl. pose proof (M 0xFC0 ltac:(lia)) as Mf. apply tr_walk in Mf.
    change (0x10000 + 0xFC0) with 0x10FC0 in Mf. by rewrite Mf.
  - change (need_trans (flush s1)) with (need_trans s1). rewrite Tr, E3. cbn [negb]. bind_simpl. apply tr_walk in T3. by rewrite T3.
Qed.
End SubPage.
