(* ===== verification/CmdProc.v ===== *)
(** * The command processor

    [sim/common/cmd_processor.h] and [cmd_processor.cpp]: the register file
    the host programs, the fetch and unpacking of ring lines, the engine that
    executes one command at a time with its launch and draw sub-machines, and
    the completion counter.

    The six callbacks a backend installs are a [Hooks] record over the type of
    its state, each of them optional as a [std::function] is; they are
    parameters of the model.  [None] of a step is a failed assertion (an
    address outside the virtual space given to the page-table walk).

    The first part is the model.  The second gives commands a semantics of
    their own ([exec], [draw], [run]) and proves that the engine's cycles
    implement it: every command of the ring once, in order, one completion
    each. *)

From S2P Require Import Prelude Bitmanip PageTable.

(** ** Data *)

Record Hooks (W : Type) := MkHooks {
  dram_read : option (W -> Z -> nat -> list Z);
  dram_write : option (W -> Z -> list Z -> W);
  vortex_dcr_write : option (W -> Z -> Z -> W);
  vortex_dcr_read : option (W -> Z -> Z -> Z * W);
  vortex_start : option (W -> W);
  vortex_busy : option (W -> bool)
}.
Arguments MkHooks {W} _ _ _ _ _ _.
Arguments dram_read {W} _.
Arguments dram_write {W} _.
Arguments vortex_dcr_write {W} _.
Arguments vortex_dcr_read {W} _.
Arguments vortex_start {W} _.
Arguments vortex_busy {W} _.

Inductive EngState := EIdle | EDecode | EBid | EWaitDone | ERetire | EDrawStep | EDrawLaunchWait.
Inductive LaunchState := LIdle | LPulseStart | LWaitBusy | LWaitDrain.

#[global] Instance EngState_eq_dec : EqDecision EngState.
Proof. solve_decision. Defined.
#[global] Instance LaunchState_eq_dec : EqDecision LaunchState.
Proof. solve_decision. Defined.

Definition OP_NOP : Z := 0x00.
Definition OP_MEM_WRITE : Z := 0x01.
Definition OP_MEM_READ : Z := 0x02.
Definition OP_MEM_COPY : Z := 0x03.
Definition OP_DCR_WRITE : Z := 0x04.
Definition OP_DCR_READ : Z := 0x05.
Definition OP_LAUNCH : Z := 0x06.
Definition OP_FENCE : Z := 0x07.
Definition OP_EVENT_SIG : Z := 0x08.
Definition OP_EVENT_WAIT : Z := 0x09.
Definition OP_CACHE_FLUSH : Z := 0x0A.
Definition OP_LAUNCH_QMD : Z := 0x0B.
Definition OP_DRAW : Z := 0x0C.

Definition DRAW_STEP_BYTES : Z := 28.
Definition MAX_DRAW_STEPS : Z := 256.
Definition MAX_QMD_DCRS : Z := 64.
Definition MEM_FLAG_PHYSICAL : Z := 0x04.
Definition CL_BYTES : Z := 64.
Definition MAX_CMDS_PER_CL : Z := 5.
Definition CHUNK : Z := 64 * 1024.
Definition VX_DCR_BASE_CACHE_FLUSH : Z := 0x000.

Record Cmd := MkCmd { opcode : Z; flags : Z; reserved : Z; arg0 : Z; arg1 : Z; arg2 : Z }.

Definition Cmd_zero : Cmd := MkCmd 0 0 0 0 0 0.

Record Queue := MkQueue {
  ring_base : Z; head_addr : Z; cmpl_addr : Z; ring_log2 : Z; control : Z; tail : Z; tail_lo_staging : Z;
  head : Z; seqnum : Z; error : Z
}.

Definition Queue_new : Queue := MkQueue 0 0 0 16 0 0 0 0 0 0.

(** The engine's registers: state machines and the command they work on. *)
Record Engine := MkEngine {
  eng_state_ : EngState; launch_state_ : LaunchState; cur_cmd_ : Cmd; cur_is_launch_ : bool; cur_is_no_resource_ : bool
}.

Record DrawWalk := MkDraw { draw_phys_ : Z; draw_num_steps_ : Z; draw_step_ : Z; draw_cmd_ : Cmd }.

Record Fetch := MkFetch { cl_buf_ : list Z; cl_cmd_count_ : Z; cl_cmd_slot_ : Z; cl_loaded_ : bool }.

Record CommandProcessor := MkCP {
  cp_ctrl_ : Z; cp_satp_ : Z; cycle_counter_ : Z; q0_ : Queue; last_dcr_rsp_ : Z;
  eng : Engine; drw : DrawWalk; fch : Fetch
}.

Definition CommandProcessor_new : CommandProcessor :=
  MkCP 0 0 0 Queue_new 0 (MkEngine EIdle LIdle Cmd_zero false false) (MkDraw 0 0 0 Cmd_zero)
    (MkFetch (replicate 64 0) 0 0 false).

Definition set_ctrl (c : CommandProcessor) (v : Z) : CommandProcessor :=
  MkCP v (cp_satp_ c) (cycle_counter_ c) (q0_ c) (last_dcr_rsp_ c) (eng c) (drw c) (fch c).
Definition set_satp (c : CommandProcessor) (v : Z) : CommandProcessor :=
  MkCP (cp_ctrl_ c) v (cycle_counter_ c) (q0_ c) (last_dcr_rsp_ c) (eng c) (drw c) (fch c).
Definition set_cycle (c : CommandProcessor) (v : Z) : CommandProcessor :=
  MkCP (cp_ctrl_ c) (cp_satp_ c) v (q0_ c) (last_dcr_rsp_ c) (eng c) (drw c) (fch c).
Definition set_q0 (c : CommandProcessor) (q : Queue) : CommandProcessor :=
  MkCP (cp_ctrl_ c) (cp_satp_ c) (cycle_counter_ c) q (last_dcr_rsp_ c) (eng c) (drw c) (fch c).
Definition set_rsp (c : CommandProcessor) (v : Z) : CommandProcessor :=
  MkCP (cp_ctrl_ c) (cp_satp_ c) (cycle_counter_ c) (q0_ c) v (eng c) (drw c) (fch c).
Definition set_eng (c : CommandProcessor) (e : Engine) : CommandProcessor :=
  MkCP (cp_ctrl_ c) (cp_satp_ c) (cycle_counter_ c) (q0_ c) (last_dcr_rsp_ c) e (drw c) (fch c).
Definition set_drw (c : CommandProcessor) (d : DrawWalk) : CommandProcessor :=
  MkCP (cp_ctrl_ c) (cp_satp_ c) (cycle_counter_ c) (q0_ c) (last_dcr_rsp_ c) (eng c) d (fch c).
Definition set_fch (c : CommandProcessor) (f : Fetch) : CommandProcessor :=
  MkCP (cp_ctrl_ c) (cp_satp_ c) (cycle_counter_ c) (q0_ c) (last_dcr_rsp_ c) (eng c) (drw c) f.

Definition goto (c : CommandProcessor) (s : EngState) : CommandProcessor :=
  set_eng c (MkEngine s (launch_state_ (eng c)) (cur_cmd_ (eng c)) (cur_is_launch_ (eng c)) (cur_is_no_resource_ (eng c))).
Definition set_launch (c : CommandProcessor) (s : LaunchState) : CommandProcessor :=
  set_eng c (MkEngine (eng_state_ (eng c)) s (cur_cmd_ (eng c)) (cur_is_launch_ (eng c)) (cur_is_no_resource_ (eng c))).

(** ** Capability words

    The build's configuration beyond [VxConfig] that they publish. *)
Class CapsConfig := {
  ISA_IMPL_ID : Z; NUM_CORES : Z; SOCKET_SIZE : Z; NUM_CLUSTERS : Z; ISSUE_WIDTH : Z; LMEM_ENABLED : bool;
  MEMORY_NUM_BANKS : Z; MEMORY_ADDR_WIDTH : Z; MISA_EXT : Z; MISA_STD : Z; VM_ENABLE : bool
}.

(** [while ((uint64_t(1) << r) < n) ++r]; 64 rounds reach any 64-bit [n]. *)
Fixpoint cp_clog2_loop (fuel : nat) (n r : Z) : Z :=
  match fuel with
  | O => r
  | S fuel => if u64 (Z.shiftl 1 r) <? n then cp_clog2_loop fuel n (r + 1) else r
  end.
Definition cp_clog2 (n : Z) : Z := cp_clog2_loop 64 n 0.

Section Model.
Context `{VxConfig, CapsConfig}.

Definition gpu_dev_caps : Z :=
  let cluster_size := NUM_CORES / SOCKET_SIZE in
  let bank_addr_w := u32 (MEMORY_ADDR_WIDTH - cp_clog2 MEMORY_NUM_BANKS) in
  let field v mask sh := Z.shiftl (Z.land v mask) sh in
  Z.lor (Z.land ISA_IMPL_ID 0xFF)
  (Z.lor (field (cp_clog2 NUM_THREADS) 0x7 8)
  (Z.lor (field (cp_clog2 NUM_WARPS) 0x7 11)
  (Z.lor (field (cp_clog2 SOCKET_SIZE) 0x7 14)
  (Z.lor (field (cp_clog2 cluster_size) 0x7 17)
  (Z.lor (field (cp_clog2 NUM_CLUSTERS) 0x7 20)
  (Z.lor (field (cp_clog2 ISSUE_WIDTH) 0x7 23)
  (Z.lor (field (if LMEM_ENABLED then LMEM_LOG_SIZE else 0) 0xFF 26)
  (Z.lor (field (cp_clog2 MEMORY_NUM_BANKS) 0x7 34)
    (field (u32 (bank_addr_w - 20)) 0x1F 37))))))))).

Definition gpu_isa_caps : Z :=
  Z.lor (u64 (Z.shiftl MISA_EXT 32))
  (Z.lor (Z.shiftl (Z.land (u32 (cp_clog2 XLEN - 4)) 0x3) 30) MISA_STD).

(** ** Status *)

Definition enabled (c : CommandProcessor) : bool :=
  negb (Z.land (cp_ctrl_ c) 0x1 =? 0) && negb (Z.land (control (q0_ c)) 0x1 =? 0).

Definition busy (c : CommandProcessor) : bool :=
  enabled c && ((head (q0_ c) <? tail (q0_ c)) || cl_loaded_ (fch c)
    || negb (bool_decide (eng_state_ (eng c) = EIdle)) || negb (bool_decide (launch_state_ (eng c) = LIdle))).

(** ** Registers *)

Definition set_lo (x v : Z) : Z := Z.lor (Z.land x 0xFFFFFFFF00000000) v.
Definition set_hi (x v : Z) : Z := Z.lor (Z.land x 0x00000000FFFFFFFF) (u64 (Z.shiftl v 32)).

Definition q_write (q : Queue) (off value : Z) : Queue :=
  let '(MkQueue rb ha ca rl ct tl ts hd sq er) := q in
  if off =? 0x00 then MkQueue (set_lo rb value) ha ca rl ct tl ts hd sq er
  else if off =? 0x04 then MkQueue (set_hi rb value) ha ca rl ct tl ts hd sq er
  else if off =? 0x08 then MkQueue rb (set_lo ha value) ca rl ct tl ts hd sq er
  else if off =? 0x0C then MkQueue rb (set_hi ha value) ca rl ct tl ts hd sq er
  else if off =? 0x10 then MkQueue rb ha (set_lo ca value) rl ct tl ts hd sq er
  else if off =? 0x14 then MkQueue rb ha (set_hi ca value) rl ct tl ts hd sq er
  else if off =? 0x18 then MkQueue rb ha ca (Z.land value 0xFF) ct tl ts hd sq er
  else if off =? 0x1C then MkQueue rb ha ca rl value tl ts hd sq er
  else if off =? 0x20 then MkQueue rb ha ca rl ct tl value hd sq er
  else if off =? 0x24 then MkQueue rb ha ca rl ct (Z.lor (u64 (Z.shiftl value 32)) ts) ts hd sq er
  else q.

Definition mmio_write (c : CommandProcessor) (off value : Z) : CommandProcessor :=
  if off =? 0x000 then set_ctrl c value
  else if off =? 0x028 then set_satp c (set_lo (cp_satp_ c) value)
  else if off =? 0x02C then set_satp c (set_hi (cp_satp_ c) value)
  else if (0x100 <=? off) && (off <? 0x140) then set_q0 c (q_write (q0_ c) (off - 0x100) value)
  else c.

Definition lo32 (x : Z) : Z := Z.land x 0xFFFFFFFF.
Definition hi32 (x : Z) : Z := u32 (Z.shiftr x 32).

Definition q_read (c : CommandProcessor) (off : Z) : Z :=
  let q := q0_ c in
  if off =? 0x00 then lo32 (ring_base q) else if off =? 0x04 then hi32 (ring_base q)
  else if off =? 0x08 then lo32 (head_addr q) else if off =? 0x0C then hi32 (head_addr q)
  else if off =? 0x10 then lo32 (cmpl_addr q) else if off =? 0x14 then hi32 (cmpl_addr q)
  else if off =? 0x18 then ring_log2 q else if off =? 0x1C then control q
  else if off =? 0x20 then tail_lo_staging q else if off =? 0x24 then hi32 (tail q)
  else if off =? 0x28 then lo32 (seqnum q) else if off =? 0x2C then error q
  else if off =? 0x30 then last_dcr_rsp_ c else 0xDEADBEEF.

Definition cp_dev_caps : Z :=
  let vm_enabled := if VM_ENABLE then Z.shiftl 1 24 else 0 in
  Z.lor (Z.lor (Z.lor (Z.lor (Z.lor (Z.shiftl 1 26) (Z.shiftl 1 25)) vm_enabled) (Z.shiftl 6 16)) (Z.shiftl 16 8)) 1.

Definition mmio_read (c : CommandProcessor) (off : Z) : Z :=
  if off =? 0x000 then cp_ctrl_ c
  else if off =? 0x004 then (if busy c then 1 else 0)
  else if off =? 0x008 then cp_dev_caps
  else if off =? 0x010 then lo32 (cycle_counter_ c) else if off =? 0x014 then hi32 (cycle_counter_ c)
  else if off =? 0x018 then lo32 gpu_dev_caps else if off =? 0x01C then hi32 gpu_dev_caps
  else if off =? 0x020 then lo32 gpu_isa_caps else if off =? 0x024 then hi32 gpu_isa_caps
  else if off =? 0x028 then lo32 (cp_satp_ c) else if off =? 0x02C then hi32 (cp_satp_ c)
  else if (0x100 <=? off) && (off <? 0x140) then q_read c (off - 0x100)
  else 0xDEADBEEF.

(** ** Decoding *)

Definition rd8 (buf : list Z) (len o : Z) : Z := if (0 <=? o) && (o <? len) then buf !!! Z.to_nat o else 0.

(** [v |= uint64_t(rd8(o + i)) << (8 * i)] for [i] below 8. *)
Definition rd64 (buf : list Z) (len o : Z) : Z :=
  foldl (fun v i => Z.lor v (Z.shiftl (rd8 buf len (o + i)) (8 * i))) 0 (range 8).

(** Command size in bytes by opcode. *)
Definition cmd_size (op : Z) : Z :=
  if op =? OP_NOP then 4
  else if (op =? OP_LAUNCH) || (op =? OP_LAUNCH_QMD) || (op =? OP_DRAW) then 12
  else if op =? OP_FENCE then 8
  else if op =? OP_CACHE_FLUSH then 12
  else if (op =? OP_DCR_WRITE) || (op =? OP_DCR_READ) || (op =? OP_EVENT_SIG) then 20
  else if op =? OP_EVENT_WAIT then 28
  else if (op =? OP_MEM_WRITE) || (op =? OP_MEM_READ) || (op =? OP_MEM_COPY) then 28
  else 4.

Definition decode_cmd_bytes (buf : list Z) (len off : Z) : Z * Cmd :=
  let c := MkCmd (rd8 buf len off) (rd8 buf len (off + 1))
    (Z.lor (rd8 buf len (off + 2)) (Z.shiftl (rd8 buf len (off + 3)) 8))
    (rd64 buf len (off + 4)) (rd64 buf len (off + 12)) (rd64 buf len (off + 20)) in
  (cmd_size (opcode c), c).

Definition decode_cmd (c : CommandProcessor) (off : Z) : Z * Cmd := decode_cmd_bytes (cl_buf_ (fch c)) CL_BYTES off.

(** The number of commands of a line: at most [MAX_CMDS_PER_CL], up to a zero
    header or a command that does not fit. *)
Fixpoint unpack_loop (slots : nat) (buf : list Z) (offset count : Z) : Z :=
  match slots with
  | O => count
  | S slots =>
      if CL_BYTES <? offset + 4 then count else
      if (buf !!! Z.to_nat offset =? 0) && (buf !!! Z.to_nat (offset + 1) =? 0) then count else
      let sz := fst (decode_cmd_bytes buf CL_BYTES offset) in
      if CL_BYTES <? offset + sz then count else unpack_loop slots buf (offset + sz) (count + 1)
  end.

Definition unpack_cl (c : CommandProcessor) : CommandProcessor :=
  let buf := cl_buf_ (fch c) in
  set_fch c (MkFetch buf (unpack_loop (Z.to_nat MAX_CMDS_PER_CL) buf 0 0) 0 (cl_loaded_ (fch c))).

(** The offset of a slot: the sizes of the commands before it. *)
Fixpoint skip_cmds (s : nat) (buf : list Z) (off : Z) : Z :=
  match s with
  | O => off
  | S s => skip_cmds s buf (off + fst (decode_cmd_bytes buf CL_BYTES off))
  end.
End Model.

(** ** Engine *)

Section Engine.
Context `{VxConfig, CapsConfig} {W : Type} (hooks_ : Hooks W).

(** [n] bytes at [addr] as an integer; 0 without the hook. *)
Definition read_le (w : W) (addr : Z) (n : nat) : Z :=
  match dram_read hooks_ with Some rd => le_val (rd w addr n) | None => 0 end.

(** [CommandProcessor::cp_translate]: without [VX_CFG_VM_ENABLE] it returns its argument. *)
Definition cp_xlate (c : CommandProcessor) (w : W) (vaddr : Z) (physical : bool) : option Z :=
  if VM_ENABLE then cp_translate (fun a => read_le w a (Z.to_nat PTE_SIZE)) (cp_satp_ c) vaddr physical else Some vaddr.

Definition fetch_if_needed (c : CommandProcessor) (w : W) : CommandProcessor :=
  if cl_loaded_ (fch c) then c else
  if tail (q0_ c) <=? head (q0_ c) then c else
  let mask := u64 (Z.shiftl 1 (ring_log2 (q0_ c)) - 1) in
  let off := Z.land (head (q0_ c)) mask in
  match dram_read hooks_ with
  | None => c
  | Some rd => unpack_cl (set_fch c (MkFetch (rd w (u64 (ring_base (q0_ c) + off)) (Z.to_nat CL_BYTES)) (cl_cmd_count_ (fch c)) 0 true))
  end.

Definition publish_completion (c : CommandProcessor) (w : W) : W :=
  match dram_write hooks_ with
  | Some wr => if cmpl_addr (q0_ c) =? 0 then w else wr w (cmpl_addr (q0_ c)) (le_bytes 8 (seqnum (q0_ c)))
  | None => w
  end.

Definition event_wait_satisfied_ (w : W) (cmd : Cmd) : bool :=
  match dram_read hooks_ with
  | None => true
  | Some rd =>
      let cur := le_val (rd w (arg0 cmd) 8%nat) in
      let target := arg1 cmd in
      let op := Z.land (u32 (arg2 cmd)) 0x3 in
      if op =? 0 then cur =? target else if op =? 1 then target <=? cur
      else if op =? 2 then target <? cur else negb (cur =? target)
  end.

(** The pairs of a descriptor, replayed in order. *)
Fixpoint qmd_loop (n : nat) (rd : W -> Z -> nat -> list Z) (wr : W -> Z -> Z -> W) (w : W) (addr : Z) : W :=
  match n with
  | O => w
  | S n =>
      let pair := rd w addr 8%nat in
      qmd_loop n rd wr (wr w (Z.land (le_val (take 4 pair)) 0xFFF) (le_val (drop 4 pair))) (u64 (addr + 8))
  end.

Definition apply_qmd_ (c : CommandProcessor) (w : W) (qmd_addr : Z) : option W :=
  match dram_read hooks_, vortex_dcr_write hooks_ with
  | Some rd, Some wr =>
      addr ← cp_xlate c w qmd_addr false;
      let count := le_val (rd w addr 4%nat) in
      let count := if MAX_QMD_DCRS <? count then MAX_QMD_DCRS else count in
      Some (qmd_loop (Z.to_nat count) rd wr w (u64 (addr + 4)))
  | _, _ => Some w
  end.

Definition dcr_write_ (w : W) (cmd : Cmd) : W :=
  match vortex_dcr_write hooks_ with
  | Some wr => wr w (Z.land (arg0 cmd) 0xFFF) (Z.land (arg1 cmd) 0xFFFFFFFF)
  | None => w
  end.

Definition dcr_read_ (c : CommandProcessor) (w : W) (cmd : Cmd) : W * CommandProcessor :=
  match vortex_dcr_read hooks_ with
  | Some rd => let '(v, w) := rd w (Z.land (arg0 cmd) 0xFFF) (Z.land (arg1 cmd) 0xFFFFFFFF) in (w, set_rsp c v)
  | None => (w, c)
  end.

(** The sweep of the per-core flush over [[0, arg0)]. *)
Definition cache_flush_ (w : W) (cmd : Cmd) : W :=
  match vortex_dcr_read hooks_ with
  | Some rd => foldl (fun w cid => snd (rd w VX_DCR_BASE_CACHE_FLUSH cid)) w (range (Z.land (arg0 cmd) 0xFFFFFFFF))
  | None => w
  end.

Definition exec_inline_cmd_ (c : CommandProcessor) (w : W) (cmd : Cmd) : option (bool * (W * CommandProcessor)) :=
  if (opcode cmd =? OP_LAUNCH) || (opcode cmd =? OP_LAUNCH_QMD) then
    w ← (if opcode cmd =? OP_LAUNCH_QMD then apply_qmd_ c w (arg0 cmd) else Some w);
    Some (true, (w, set_launch c LPulseStart))
  else if opcode cmd =? OP_DCR_WRITE then Some (false, (dcr_write_ w cmd, c))
  else if opcode cmd =? OP_DCR_READ then Some (false, dcr_read_ c w cmd)
  else if opcode cmd =? OP_CACHE_FLUSH then Some (false, (cache_flush_ w cmd, c))
  else Some (false, (w, c)).

Definition draw_load_step_ (c : CommandProcessor) (w : W) : CommandProcessor :=
  let d := drw c in
  let cmd := match dram_read hooks_ with
    | None => Cmd_zero
    | Some rd =>
        let at_ := u64 (draw_phys_ d + 4 + draw_step_ d * DRAW_STEP_BYTES) in
        snd (decode_cmd_bytes (rd w at_ (Z.to_nat DRAW_STEP_BYTES)) DRAW_STEP_BYTES 0)
    end in
  set_drw c (MkDraw (draw_phys_ d) (draw_num_steps_ d) (draw_step_ d) cmd).

Definition tick_launch (c : CommandProcessor) (w : W) : W * CommandProcessor :=
  match launch_state_ (eng c) with
  | LIdle => (w, c)
  | LPulseStart => (match vortex_start hooks_ with Some f => f w | None => w end, set_launch c LWaitBusy)
  | LWaitBusy =>
      match vortex_busy hooks_ with Some f => if f w then (w, set_launch c LWaitDrain) else (w, c) | None => (w, c) end
  | LWaitDrain =>
      match vortex_busy hooks_ with Some f => if f w then (w, c) else (w, set_launch c LIdle) | None => (w, set_launch c LIdle) end
  end.

Definition load_next_cmd (c : CommandProcessor) : bool * CommandProcessor :=
  if negb (cl_loaded_ (fch c)) then (false, c) else
  let f := fch c in
  if cl_cmd_count_ f <=? cl_cmd_slot_ f then
    let '(MkQueue rb ha ca rl ct tl ts hd sq er) := q0_ c in
    (false, set_fch (set_q0 c (MkQueue rb ha ca rl ct tl ts (u64 (hd + CL_BYTES)) sq er))
       (MkFetch (cl_buf_ f) (cl_cmd_count_ f) (cl_cmd_slot_ f) false))
  else
    let off := skip_cmds (Z.to_nat (cl_cmd_slot_ f)) (cl_buf_ f) 0 in
    let cmd := snd (decode_cmd c off) in
    (true, set_eng c (MkEngine (eng_state_ (eng c)) (launch_state_ (eng c)) cmd
       ((opcode cmd =? OP_LAUNCH) || (opcode cmd =? OP_LAUNCH_QMD)) ((opcode cmd =? OP_NOP) || (opcode cmd =? OP_FENCE)))).

(** The copy, in chunks through a bounce buffer. *)
Fixpoint copy_loop (fuel : nat) (rd : W -> Z -> nat -> list Z) (wr : W -> Z -> list Z -> W) (w : W)
    (dst src total done : Z) : W :=
  match fuel with
  | O => w
  | S fuel =>
      if total <=? done then w else
      let n := if CHUNK <? total - done then CHUNK else total - done in
      copy_loop fuel rd wr (wr w (u64 (dst + done)) (rd w (u64 (src + done)) (Z.to_nat n))) dst src total (done + n)
  end.

Definition mem_copy_ (c : CommandProcessor) (w : W) (cmd : Cmd) : option W :=
  match dram_read hooks_, dram_write hooks_ with
  | Some rd, Some wr =>
      if arg2 cmd =? 0 then Some w else
      let physical := negb (Z.land (flags cmd) MEM_FLAG_PHYSICAL =? 0) in
      dst ← (if opcode cmd =? OP_MEM_READ then Some (arg0 cmd) else cp_xlate c w (arg0 cmd) physical);
      src ← (if opcode cmd =? OP_MEM_WRITE then Some (arg1 cmd) else cp_xlate c w (arg1 cmd) physical);
      Some (copy_loop (Z.to_nat (arg2 cmd / CHUNK + 1)) rd wr w dst src (arg2 cmd) 0)
  | _, _ => Some w
  end.

Definition draw_begin (c : CommandProcessor) (w : W) (cmd : Cmd) : option CommandProcessor :=
  phys ← cp_xlate c w (arg0 cmd) false;
  let n := read_le w phys 4 in
  let n := if MAX_DRAW_STEPS <? n then MAX_DRAW_STEPS else n in
  Some (goto (set_drw c (MkDraw phys n 0 (draw_cmd_ (drw c)))) EDrawStep).

(** The [Bid] state: dispatch of the current command. *)
Definition bid (c : CommandProcessor) (w : W) : option (W * CommandProcessor) :=
  let cmd := cur_cmd_ (eng c) in
  if cur_is_launch_ (eng c) then
    w ← (if opcode cmd =? OP_LAUNCH_QMD then apply_qmd_ c w (arg0 cmd) else Some w);
    Some (w, goto (set_launch c LPulseStart) EWaitDone)
  else if opcode cmd =? OP_DRAW then c ← draw_begin c w cmd; Some (w, c)
  else if opcode cmd =? OP_DCR_WRITE then Some (dcr_write_ w cmd, goto c ERetire)
  else if opcode cmd =? OP_DCR_READ then let '(w, c) := dcr_read_ c w cmd in Some (w, goto c ERetire)
  else if opcode cmd =? OP_CACHE_FLUSH then Some (cache_flush_ w cmd, goto c ERetire)
  else if opcode cmd =? OP_EVENT_SIG then
    Some (match dram_write hooks_ with Some wr => wr w (arg0 cmd) (le_bytes 8 (arg1 cmd)) | None => w end, goto c ERetire)
  else if opcode cmd =? OP_EVENT_WAIT then
    Some (w, if event_wait_satisfied_ w cmd then goto c ERetire else c)
  else if (opcode cmd =? OP_MEM_WRITE) || (opcode cmd =? OP_MEM_READ) || (opcode cmd =? OP_MEM_COPY) then
    w ← mem_copy_ c w cmd; Some (w, goto c ERetire)
  else Some (w, goto c ERetire).

Definition draw_next (c : CommandProcessor) : CommandProcessor :=
  let d := drw c in set_drw c (MkDraw (draw_phys_ d) (draw_num_steps_ d) (u32 (draw_step_ d + 1)) (draw_cmd_ d)).

Definition draw_step (c : CommandProcessor) (w : W) : option (W * CommandProcessor) :=
  if draw_num_steps_ (drw c) <=? draw_step_ (drw c) then Some (w, goto c ERetire) else
  let c := draw_load_step_ c w in
  '(launched, (w, c)) ← exec_inline_cmd_ c w (draw_cmd_ (drw c));
  Some (w, if (launched : bool) then goto c EDrawLaunchWait else draw_next c).

Definition retire (c : CommandProcessor) (w : W) : W * CommandProcessor :=
  let '(MkQueue rb ha ca rl ct tl ts hd sq er) := q0_ c in
  let c := set_q0 c (MkQueue rb ha ca rl ct tl ts hd (u64 (sq + 1)) er) in
  let w := publish_completion c w in
  let f := fch c in
  (w, goto (set_fch c (MkFetch (cl_buf_ f) (cl_cmd_count_ f) (cl_cmd_slot_ f + 1) (cl_loaded_ f))) EIdle).

Definition tick_engine (c : CommandProcessor) (w : W) : option (W * CommandProcessor) :=
  match eng_state_ (eng c) with
  | EIdle => let '(ok, c) := load_next_cmd (fetch_if_needed c w) in Some (w, if ok then goto c EDecode else c)
  | EDecode => Some (w, goto c (if cur_is_no_resource_ (eng c) then ERetire else EBid))
  | EBid => bid c w
  | EWaitDone =>
      Some (w, if cur_is_launch_ (eng c) && negb (bool_decide (launch_state_ (eng c) = LIdle)) then c else goto c ERetire)
  | EDrawStep => draw_step c w
  | EDrawLaunchWait =>
      Some (w, if bool_decide (launch_state_ (eng c) = LIdle) then goto (draw_next c) EDrawStep else c)
  | ERetire => Some (retire c w)
  end.

Definition tick (c : CommandProcessor) (w : W) : option (W * CommandProcessor) :=
  let c := set_cycle c (u64 (cycle_counter_ c + 1)) in
  if negb (enabled c) then Some (w, c) else
  '(w, c) ← tick_engine c w;
  Some (tick_launch c w).
End Engine.

(** ** What commands mean

    The device runs beside the command processor: [env] is what one cycle does
    to its state, and [quiet] says that no kernel is in flight. *)
Class DeviceLaws {W : Type} (hooks_ : Hooks W) (env : W -> W) (quiet : W -> Prop) : Prop := {
  quiet_env w : quiet w -> env w = w;
  quiet_dram_write w f a bs : quiet w -> dram_write hooks_ = Some f -> quiet (f w a bs);
  quiet_dcr_write w f a v : quiet w -> vortex_dcr_write hooks_ = Some f -> quiet (f w a v);
  quiet_dcr_read w f a t : quiet w -> vortex_dcr_read hooks_ = Some f -> quiet (snd (f w a t))
}.

Section Semantics.
Context `{VxConfig, CapsConfig} {W : Type} (hooks_ : Hooks W) (env : W -> W) (quiet : W -> Prop).

(** The commands see the processor through its page-table root only. *)
Definition at_satp (satp : Z) : CommandProcessor := set_satp CommandProcessor_new satp.

(** The state of the device [j] cycles after the start pulse. *)
Definition after_start (w : W) (j : nat) : W :=
  Nat.iter j env (match vortex_start hooks_ with Some f => f w | None => w end).

(** A kernel runs: it is seen busy at some cycle after the start pulse, and at
    a later one idle, with nothing in flight. *)
Definition kernel_run (w w' : W) : Prop :=
  exists f k1 k2, vortex_busy hooks_ = Some f /\ (k1 < k2)%nat /\
    (forall i, (i < k1)%nat -> f (after_start w (S i)) = false) /\
    (forall i, (k1 <= i < k2)%nat -> f (after_start w (S i)) = true) /\
    f (after_start w (S k2)) = false /\ w' = after_start w (S k2) /\ quiet w'.

Definition is_launch (op : Z) : bool := (op =? OP_LAUNCH) || (op =? OP_LAUNCH_QMD).
Definition is_mem (op : Z) : bool := (op =? OP_MEM_WRITE) || (op =? OP_MEM_READ) || (op =? OP_MEM_COPY).

Definition launch_setup (satp : Z) (w : W) (cmd : Cmd) : option W :=
  if opcode cmd =? OP_LAUNCH_QMD then apply_qmd_ hooks_ (at_satp satp) w (arg0 cmd) else Some w.

(** A command that a draw may contain.  The second component is the response
    register. *)
Inductive inline (satp : Z) (cmd : Cmd) : W * Z -> W * Z -> Prop :=
| in_launch w w1 w' r : is_launch (opcode cmd) = true -> launch_setup satp w cmd = Some w1 -> kernel_run w1 w' ->
    inline satp cmd (w, r) (w', r)
| in_dcr_write w r : opcode cmd = OP_DCR_WRITE -> inline satp cmd (w, r) (dcr_write_ hooks_ w cmd, r)
| in_dcr_read w r f : opcode cmd = OP_DCR_READ -> vortex_dcr_read hooks_ = Some f ->
    let a := f w (Z.land (arg0 cmd) 0xFFF) (Z.land (arg1 cmd) 0xFFFFFFFF) in inline satp cmd (w, r) (snd a, fst a)
| in_flush w r : opcode cmd = OP_CACHE_FLUSH -> inline satp cmd (w, r) (cache_flush_ hooks_ w cmd, r)
| in_nop w r : is_launch (opcode cmd) = false -> opcode cmd ∉ [OP_DCR_WRITE; OP_DCR_READ; OP_CACHE_FLUSH] ->
    inline satp cmd (w, r) (w, r).

(** The [i]-th command of a draw descriptor, as the processor loads it. *)
Definition draw_cmd (w : W) (phys : Z) (i : Z) : Cmd :=
  draw_cmd_ (drw (draw_load_step_ hooks_ (set_drw CommandProcessor_new (MkDraw phys 0 i Cmd_zero)) w)).

(** The remaining commands of a draw, from the [i]-th of [n] on. *)
Inductive draw (satp phys n : Z) : Z -> W * Z -> W * Z -> Prop :=
| dr_done i s : n <= i -> draw satp phys n i s s
| dr_step i s s1 s' : i < n -> inline satp (draw_cmd (fst s) phys i) s s1 -> draw satp phys n (i + 1) s1 s' ->
    draw satp phys n i s s'.

(** A command of the ring. *)
Inductive exec (satp : Z) (cmd : Cmd) : W * Z -> W * Z -> Prop :=
| ex_inline s s' : is_mem (opcode cmd) = false -> opcode cmd ∉ [OP_DRAW; OP_EVENT_SIG; OP_EVENT_WAIT] ->
    inline satp cmd s s' -> exec satp cmd s s'
| ex_signal w r f : opcode cmd = OP_EVENT_SIG -> dram_write hooks_ = Some f ->
    exec satp cmd (w, r) (f w (arg0 cmd) (le_bytes 8 (arg1 cmd)), r)
| ex_wait w r : opcode cmd = OP_EVENT_WAIT -> event_wait_satisfied_ hooks_ w cmd = true -> exec satp cmd (w, r) (w, r)
| ex_copy w w' r : is_mem (opcode cmd) = true -> mem_copy_ hooks_ (at_satp satp) w cmd = Some w' ->
    exec satp cmd (w, r) (w', r)
| ex_draw w r s' c : opcode cmd = OP_DRAW -> draw_begin hooks_ (at_satp satp) w cmd = Some c ->
    draw satp (draw_phys_ (drw c)) (draw_num_steps_ (drw c)) 0 (w, r) s' -> exec satp cmd (w, r) s'.

(** The completion record of a queue. *)
Definition complete (q : Queue) (seq : Z) (w : W) : W :=
  match dram_write hooks_ with
  | Some wr => if cmpl_addr q =? 0 then w else wr w (cmpl_addr q) (le_bytes 8 seq)
  | None => w
  end.

(** Commands one after the other, each followed by its completion. *)
Inductive exec_all (satp : Z) (q : Queue) : list Cmd -> W * Z * Z -> W * Z * Z -> Prop :=
| ea_nil s : exec_all satp q [] s s
| ea_cons cmd cmds w r seq w1 r1 s' :
    exec satp cmd (w, r) (w1, r1) ->
    exec_all satp q cmds (complete q (u64 (seq + 1)) w1, r1, u64 (seq + 1)) s' ->
    exec_all satp q (cmd :: cmds) (w, r, seq) s'.

(** The commands of a ring line. *)
Definition line_cmds (buf : list Z) : list Cmd :=
  (fun s => snd (decode_cmd_bytes buf CL_BYTES (skip_cmds s buf 0))) <$>
    seq 0 (Z.to_nat (unpack_loop (Z.to_nat MAX_CMDS_PER_CL) buf 0 0)).

(** The line at position [hd] of the ring. *)
Definition ring_line (q : Queue) (w : W) (hd : Z) : option (list Z) :=
  rd ← dram_read hooks_;
  Some (rd w (u64 (ring_base q + Z.land hd (u64 (Z.shiftl 1 (ring_log2 q) - 1)))) (Z.to_nat CL_BYTES)).

(** [n] lines from position [hd] on. *)
Inductive exec_ring (satp : Z) (q : Queue) : nat -> Z -> W * Z * Z -> W * Z * Z -> Prop :=
| er_done hd s : exec_ring satp q 0 hd s s
| er_line n hd s s1 s' buf : ring_line q (fst (fst s)) hd = Some buf -> exec_all satp q (line_cmds buf) s s1 ->
    exec_ring satp q n (hd + CL_BYTES) s1 s' -> exec_ring satp q (S n) hd s s'.

(** The processor and the device, [n] cycles. *)
Fixpoint cycles (n : nat) (c : CommandProcessor) (w : W) : option (W * CommandProcessor) :=
  match n with
  | O => Some (w, c)
  | S n => '(w, c) ← tick hooks_ c w; cycles n c (env w)
  end.

(** [P] holds before each of the next [n] cycles. *)
Fixpoint until (P : CommandProcessor -> W -> Prop) (n : nat) (c : CommandProcessor) (w : W) : Prop :=
  match n with
  | O => True
  | S n => P c w /\ match tick hooks_ c w with Some (w, c) => until P n c (env w) | None => True end
  end.

(** The processor is busy, and its completion counter is below [tgt] unless
    the device's state and the response register are the final ones. *)
Definition unfinished (tgt : Z) (fin : W * Z) (c : CommandProcessor) (w : W) : Prop :=
  busy c = true /\ (0 <= seqnum (q0_ c) < tgt \/ (w, last_dcr_rsp_ c) = fin).

Lemma cycles_add n m c w w1 c1 : cycles n c w = Some (w1, c1) -> cycles (n + m) c w = cycles m c1 w1.
Proof.
  revert c w. induction n as [|n IH]; intros c w E; simpl in *; [by simplify_eq|].
  destruct (tick hooks_ c w) as [[w2 c2]|]; simpl in *; [|done]. by apply IH.
Qed.

Lemma until_add P n m c w w1 c1 :
  cycles n c w = Some (w1, c1) -> until P n c w -> until P m c1 w1 -> until P (n + m) c w.
Proof.
  revert c w. induction n as [|n IH]; intros c w E B1 B2; simpl in *; [by simplify_eq|].
  destruct B1 as [B0 B1]. split; [done|]. destruct (tick hooks_ c w) as [[w2 c2]|]; simpl in *; [|done]. by apply IH.
Qed.
End Semantics.

(** ** The engine implements the semantics *)

Section Run.
Context `{VxConfig, CapsConfig} {W : Type} (hooks_ : Hooks W) (env : W -> W) (quiet : W -> Prop).
Context `{!DeviceLaws hooks_ env quiet}.
Context (ctrl satp : Z) (Hctrl : Z.land ctrl 1 <> 0) (tgt : Z) (fin : W * Z).

(** A state of processor and device, the cycle counter apart. *)
Record st := St { s_w : W; s_q : Queue; s_r : Z; s_e : Engine; s_d : DrawWalk; s_f : Fetch }.

Definition mk (s : st) (cyc : Z) : CommandProcessor := MkCP ctrl satp cyc (s_q s) (s_r s) (s_e s) (s_d s) (s_f s).

(** From one to the other, unfinished all the way. *)
Definition reach (s s' : st) : Prop :=
  forall x, exists n y, cycles hooks_ env n (mk s x) (s_w s) = Some (s_w s', mk s' y) /\
    until hooks_ env (unfinished tgt fin) n (mk s x) (s_w s).

#[local] Instance reach_preorder : PreOrder reach.
Proof.
  split.
  - intros s x. by exists 0%nat, x.
  - intros s1 s2 s3 R1 R2 x. destruct (R1 x) as (n & y & E1 & B1), (R2 y) as (m & z & E2 & B2).
    exists (n + m)%nat, z. split; [by rewrite (cycles_add _ _ _ _ _ _ _ _ E1)|by apply (until_add _ _ _ _ _ _ _ _ _ E1)].
Qed.

Definition q_on (q : Queue) : Prop := Z.land (control q) 1 <> 0.

(** There is something to do. *)
Definition live (s : st) : Prop :=
  (eng_state_ (s_e s) <> EIdle \/ cl_loaded_ (s_f s) = true \/ head (s_q s) < tail (s_q s)) /\
  (0 <= seqnum (s_q s) < tgt \/ (s_w s, s_r s) = fin).

Lemma mk_enabled s x : q_on (s_q s) -> enabled (mk s x) = true.
Proof using Hctrl. intros Hq. unfold enabled. simpl. apply andb_true_iff. split; by apply negb_true_iff, Z.eqb_neq. Qed.

Lemma live_unfinished s x : q_on (s_q s) -> live s -> unfinished tgt fin (mk s x) (s_w s).
Proof using Hctrl.
  intros Hq [L Hs]. split; [|done]. unfold busy. rewrite mk_enabled by done. cbn [mk q0_ fch eng andb].
  destruct L as [L|[-> | L]]; [rewrite bool_decide_false by done|..]; rewrite ?orb_true_r; try done.
  by rewrite (proj2 (Z.ltb_lt _ _)).
Qed.

(** One cycle. *)
Lemma reach_tick s w1 s1 w2 s2 :
  q_on (s_q s) -> live s ->
  (forall x, tick_engine hooks_ (mk s x) (s_w s) = Some (w1, mk s1 x)) ->
  (forall x, tick_launch hooks_ (mk s1 x) w1 = (w2, mk s2 x)) ->
  env w2 = s_w s2 -> reach s s2.
Proof using Hctrl.
  intros Hq L E1 E2 Ev x. exists 1%nat, (u64 (x + 1)). split; [|split; [by apply live_unfinished|]].
  - simpl. unfold tick. change (set_cycle (mk s x) (u64 (cycle_counter_ (mk s x) + 1))) with (mk s (u64 (x + 1))).
    rewrite mk_enabled by done. simpl. rewrite E1. simpl. rewrite E2. simpl. by rewrite Ev.
  - by destruct (tick hooks_ _ _) as [[? ?]|].
Qed.

(** One cycle with no kernel in flight. *)
Lemma reach_quiet s s' :
  q_on (s_q s) -> live s -> (forall x, tick_engine hooks_ (mk s x) (s_w s) = Some (s_w s', mk s' x)) ->
  launch_state_ (s_e s') = LIdle -> quiet (s_w s') -> reach s s'.
Proof using Hctrl DeviceLaws0.
  intros Hq Lv E L Hw. apply (reach_tick s (s_w s') s' (s_w s') s'); [done|done|done| |by apply (quiet_env (hooks_ := hooks_))].
  intros x. unfold tick_launch. cbn [mk eng]. by rewrite L.
Qed.

Abbreviation engine es ls cmd := (MkEngine es ls cmd (is_launch (opcode cmd)) ((opcode cmd =? OP_NOP) || (opcode cmd =? OP_FENCE))).

Lemma quiet_qmd n rd wr w a : quiet w -> vortex_dcr_write hooks_ = Some wr -> quiet (qmd_loop n rd wr w a).
Proof using DeviceLaws0.
  intros Hw E. revert w a Hw. induction n as [|n IH]; intros w a Hw; simpl; [done|]. apply IH.
  by apply (quiet_dcr_write (hooks_ := hooks_) (env := env)).
Qed.

Lemma quiet_setup w cmd w1 : quiet w -> launch_setup hooks_ satp w cmd = Some w1 -> quiet w1.
Proof using DeviceLaws0.
  unfold launch_setup, apply_qmd_. intros Hw. destruct (_ =? _); [|by intros [= <-]].
  destruct (dram_read hooks_); [|by intros [= <-]]. destruct (vortex_dcr_write hooks_) eqn:E; [|by intros [= <-]].
  destruct (cp_xlate _ _ _ _ _); [|done]. bind_simpl. intros [= <-]. by apply quiet_qmd.
Qed.

Lemma quiet_flush w cmd : quiet w -> quiet (cache_flush_ hooks_ w cmd).
Proof using DeviceLaws0.
  unfold cache_flush_. destruct (vortex_dcr_read hooks_) eqn:E; [|done]. generalize (range (Z.land (arg0 cmd) 0xFFFFFFFF)) as l.
  intros l. revert w. induction l as [|a l IH]; intros w Hw; simpl; [done|]. apply IH.
  by apply (quiet_dcr_read (hooks_ := hooks_) (env := env)).
Qed.

Lemma quiet_copy n rd wr w dst src total o : quiet w -> dram_write hooks_ = Some wr -> quiet (copy_loop n rd wr w dst src total o).
Proof using DeviceLaws0.
  intros Hw E. revert w o Hw. induction n as [|n IH]; intros w o Hw; simpl; [done|]. destruct (_ <=? _); [done|].
  apply IH. by apply (quiet_dram_write (hooks_ := hooks_) (env := env)).
Qed.

Lemma quiet_inline cmd s s' : inline hooks_ env quiet satp cmd s s' -> quiet (fst s) -> quiet (fst s').
Proof using DeviceLaws0.
  intros [w w1 w' r _ _ (b & k1 & k2 & ? & ? & ? & ? & ? & ? & ?)| | | |] Hw; simpl in *; [done| |subst a| |done].
  - unfold dcr_write_. destruct (vortex_dcr_write hooks_) eqn:E; [|done]. by apply (quiet_dcr_write (hooks_ := hooks_) (env := env)).
  - by apply (quiet_dcr_read (hooks_ := hooks_) (env := env)).
  - by apply quiet_flush.
Qed.

Lemma setup_eq c w cmd :
  (if opcode cmd =? OP_LAUNCH_QMD then apply_qmd_ hooks_ c w (arg0 cmd) else Some w) = launch_setup hooks_ (cp_satp_ c) w cmd.
Proof. done. Qed.

Section Command.
Context (q : Queue) (Hq : q_on q) (Hsq : 0 <= seqnum q < tgt) (cmd : Cmd).

Lemma iter_env w j : env (after_start hooks_ env w j) = after_start hooks_ env w (S j).
Proof. done. Qed.

(** A launch sub-machine that waits, whatever state of the engine it holds
    back: the kernel runs and drains. *)
Lemma launch_drains es r d f w w' :
  es <> EIdle ->
  (forall ls x w, ls <> LIdle -> tick_engine hooks_ (mk (St w q r (engine es ls cmd) d f) x) w = Some (w, mk (St w q r (engine es ls cmd) d f) x)) ->
  kernel_run hooks_ env quiet w w' ->
  reach (St (after_start hooks_ env w 1) q r (engine es LWaitBusy cmd) d f) (St w' q r (engine es LIdle cmd) d f).
Proof using Hctrl Hq Hsq DeviceLaws0.
  intros He Hwait (b & k1 & k2 & Eb & Hk & B1 & B2 & B3 & -> & Qt).
  assert (forall k j, (j + k = k1)%nat -> reach (St (after_start hooks_ env w (S j)) q r (engine es LWaitBusy cmd) d f)
    (St (after_start hooks_ env w (S k1)) q r (engine es LWaitBusy cmd) d f)) as P1.
  { induction k as [|k IH]; intros j Hj; [by replace j with k1 by lia|].
    etrans; [|apply (IH (S j)); lia].
    eapply reach_tick; [done|by split; left|intros x; by apply Hwait| |apply iter_env].
    intros x. unfold tick_launch. cbn [mk eng s_e s_w launch_state_]. rewrite Eb, B1 by lia. done. }
  assert (forall k j, (j + k = k2)%nat -> (k1 < j)%nat -> reach (St (after_start hooks_ env w (S j)) q r (engine es LWaitDrain cmd) d f)
    (St (after_start hooks_ env w (S k2)) q r (engine es LWaitDrain cmd) d f)) as P2.
  { induction k as [|k IH]; intros j Hj Hj'; [by replace j with k2 by lia|].
    etrans; [|apply (IH (S j)); lia].
    eapply reach_tick; [done|by split; left|intros x; by apply Hwait| |apply iter_env].
    intros x. unfold tick_launch. cbn [mk eng s_e s_w launch_state_]. rewrite Eb, B2 by lia. done. }
  etrans; [apply (P1 k1 0%nat); lia|]. etrans; [|etrans; [apply (P2 (k2 - S k1)%nat (S k1)); lia|]].
  - eapply reach_tick; [done|by split; left|intros x; by apply Hwait| |apply iter_env].
    intros x. unfold tick_launch. cbn [mk eng s_e s_w launch_state_]. rewrite Eb, B2 by lia. done.
  - eapply reach_tick; [done|by split; left|intros x; by apply Hwait| |by apply (quiet_env (hooks_ := hooks_))].
    intros x. unfold tick_launch. cbn [mk eng s_e s_w launch_state_]. rewrite Eb, B3. done.
Qed.

(** The cycle that pulses start and those until the kernel has drained. *)
Lemma launch_runs s es r d f w1 w' :
  s_q s = q -> live s -> es <> EIdle -> (forall x, tick_engine hooks_ (mk s x) (s_w s) = Some (w1, mk (St w1 q r (engine es LPulseStart cmd) d f) x)) ->
  (forall ls x w, ls <> LIdle -> tick_engine hooks_ (mk (St w q r (engine es ls cmd) d f) x) w = Some (w, mk (St w q r (engine es ls cmd) d f) x)) ->
  kernel_run hooks_ env quiet w1 w' -> reach s (St w' q r (engine es LIdle cmd) d f).
Proof using Hctrl Hq Hsq DeviceLaws0.
  intros Es L He E Hwait K. etrans; [|eapply launch_drains; [exact He|exact Hwait|exact K]].
  eapply reach_tick; [by rewrite Es|exact L|exact E| |apply iter_env]. intros x. done.
Qed.

(** A launch of the ring, from its dispatch to its retirement. *)
Lemma bid_launch r d f w w1 w' :
  is_launch (opcode cmd) = true -> launch_setup hooks_ satp w cmd = Some w1 -> kernel_run hooks_ env quiet w1 w' ->
  reach (St w q r (engine EBid LIdle cmd) d f) (St w' q r (engine ERetire LIdle cmd) d f).
Proof using Hctrl Hq Hsq DeviceLaws0.
  intros Hl Es K. assert (quiet w') as Qw by (destruct K as (? & ? & ? & ? & ? & ? & ? & ? & ? & ?); done).
  etrans; [apply (launch_runs _ EWaitDone r d f w1 w')|]; try done; try (by split; left).
  - intros x. unfold tick_engine. cbn [mk eng s_e eng_state_ s_w]. unfold bid. cbn [mk eng s_e cur_is_launch_ cur_cmd_].
    rewrite Hl, setup_eq. change (cp_satp_ (mk _ _)) with satp.
    rewrite Es. done.
  - intros ls x w0 Hls. unfold tick_engine. cbn [mk eng s_e eng_state_ cur_is_launch_ launch_state_]. by rewrite Hl, bool_decide_false.
  - apply reach_quiet; try done; try (by split; left). intros x. unfold tick_engine. cbn [mk eng s_e eng_state_ cur_is_launch_ launch_state_ s_w].
    rewrite bool_decide_true by done. by rewrite andb_false_r.
Qed.

(** A step of a draw. *)
Lemma draw_inline r r' d f w w' :
  quiet w -> 0 <= draw_step_ d < draw_num_steps_ d -> draw_num_steps_ d <= MAX_DRAW_STEPS -> is_launch (opcode cmd) = false ->
  inline hooks_ env quiet satp (draw_cmd hooks_ w (draw_phys_ d) (draw_step_ d)) (w, r) (w', r') ->
  exists dc, reach (St w q r (engine EDrawStep LIdle cmd) d f)
    (St w' q r' (engine EDrawStep LIdle cmd) (MkDraw (draw_phys_ d) (draw_num_steps_ d) (draw_step_ d + 1) dc) f).
Proof using Hctrl Hq Hsq DeviceLaws0.
  intros Hw Hi Hn Hl I. pose proof (quiet_inline _ _ _ I Hw) as Qw. simpl in Qw. set (dc := draw_cmd hooks_ w _ _) in I. exists dc.
  assert (u32 (draw_step_ d + 1) = draw_step_ d + 1) as E32 by (apply u32_small; unfold MAX_DRAW_STEPS in *; lia).
  set (d1 := MkDraw (draw_phys_ d) (draw_num_steps_ d) (draw_step_ d) dc).
  assert (forall x, tick_engine hooks_ (mk (St w q r (engine EDrawStep LIdle cmd) d f) x) w =
    '(l, (w, c)) ← exec_inline_cmd_ hooks_ (mk (St w q r (engine EDrawStep LIdle cmd) d1 f) x) w dc;
    Some (w, if (l : bool) then goto c EDrawLaunchWait else draw_next c)) as Et.
  { intros x. unfold tick_engine. cbn [mk eng s_e eng_state_]. unfold draw_step. cbn [mk drw s_d].
    rewrite (proj2 (Z.leb_gt _ _)) by lia. done. }
  assert (forall x c w2, tick_engine hooks_ (mk (St w q r (engine EDrawStep LIdle cmd) d f) x) w =
    Some (w2, draw_next (mk (St w2 q c (engine EDrawStep LIdle cmd) d1 f) x)) ->
    tick_engine hooks_ (mk (St w q r (engine EDrawStep LIdle cmd) d f) x) w =
    Some (w2, mk (St w2 q c (engine EDrawStep LIdle cmd) (MkDraw (draw_phys_ d) (draw_num_steps_ d) (draw_step_ d + 1) dc) f) x)) as En.
  { intros x c w2 ->. unfold draw_next, set_drw, mk. simpl. by rewrite E32. }
  inversion I as [w0 w1 w2 r0 Hd Es K|w0 r0 Ho|w0 r0 g Ho Eg|w0 r0 Ho|w0 r0 Ho Hx]; subst; clear I.
  - etrans; [apply (launch_runs _ EDrawLaunchWait r' d1 f w1 w')|]; try done; try (by split; left).
    + intros x. cbn [s_w]. rewrite Et. unfold exec_inline_cmd_. fold (is_launch (opcode dc)). rewrite Hd, setup_eq.
      change (cp_satp_ (mk _ _)) with satp. rewrite Es. done.
    + intros ls x w0 Hls. unfold tick_engine. cbn [mk eng s_e eng_state_ launch_state_]. by rewrite bool_decide_false.
    + apply reach_quiet; try done; try (by split; left). intros x. unfold tick_engine. cbn [mk eng s_e eng_state_ launch_state_ s_w].
      rewrite bool_decide_true by done. unfold goto, draw_next, set_drw, set_eng, mk. simpl. by rewrite E32.
  - apply reach_quiet; try done; try (by split; left). intros x. apply En. rewrite Et. unfold exec_inline_cmd_. rewrite Ho. done.
  - apply reach_quiet; try done; try (by split; left). intros x. apply En. rewrite Et. unfold exec_inline_cmd_. rewrite Ho. simpl.
    unfold dcr_read_. rewrite Eg. by destruct (g w _ _).
  - apply reach_quiet; try done; try (by split; left). intros x. apply En. rewrite Et. unfold exec_inline_cmd_. rewrite Ho. done.
  - apply reach_quiet; try done; try (by split; left). intros x. apply En. rewrite Et. unfold exec_inline_cmd_. fold (is_launch (opcode dc)).
    rewrite Ho. rewrite !not_elem_of_cons in Hx. destruct Hx as (H1 & H2 & H3 & _).
    by rewrite (proj2 (Z.eqb_neq _ _) H1), (proj2 (Z.eqb_neq _ _) H2), (proj2 (Z.eqb_neq _ _) H3).
Qed.

(** The rest of a draw. *)
Lemma draw_runs phys n i s s' : draw hooks_ env quiet satp phys n i s s' ->
  forall dc f, quiet (fst s) -> 0 <= i -> n <= MAX_DRAW_STEPS -> is_launch (opcode cmd) = false ->
  quiet (fst s') /\ exists d', reach (St (fst s) q (snd s) (engine EDrawStep LIdle cmd) (MkDraw phys n i dc) f)
    (St (fst s') q (snd s') (engine ERetire LIdle cmd) d' f).
Proof using Hctrl Hq Hsq DeviceLaws0.
  induction 1 as [i [w r] Hi|i [w r] [w1 r1] s' Hi I D IH]; intros dc f Hw H0i Hn Hl; simpl in *.
  - split; [done|]. exists (MkDraw phys n i dc). apply reach_quiet; try done; try (by split; left). intros x.
    unfold tick_engine. cbn [mk eng s_e eng_state_]. unfold draw_step. cbn [mk drw s_d draw_num_steps_ draw_step_].
    by rewrite (proj2 (Z.leb_le _ _)) by done.
  - destruct (draw_inline r r1 (MkDraw phys n i dc) f w w1 Hw (conj H0i Hi) Hn Hl I) as [dc1 R].
    destruct (IH dc1 f (quiet_inline _ _ _ I Hw) ltac:(lia) Hn Hl) as [Qw [d' R']].
    split; [done|]. exists d'. by etrans.
Qed.

Lemma opcode_eqb op l : op ∉ l -> Forall (fun x => (op =? x) = false) l.
Proof.
  intros Hn. apply list.Forall_forall. intros x Hx. apply Z.eqb_neq. by intros ->.
Qed.

(** Dispatch of the commands that finish at once. *)
Lemma bid_inline r r' d f w w' :
  quiet w -> is_mem (opcode cmd) = false -> opcode cmd ∉ [OP_DRAW; OP_EVENT_SIG; OP_EVENT_WAIT] ->
  inline hooks_ env quiet satp cmd (w, r) (w', r') ->
  reach (St w q r (engine EBid LIdle cmd) d f) (St w' q r' (engine ERetire LIdle cmd) d f).
Proof using Hctrl Hq Hsq DeviceLaws0.
  intros Hw Hm Hx I. pose proof (quiet_inline _ _ _ I Hw) as Qw. simpl in Qw.
  assert (forall x, is_launch (opcode cmd) = false -> tick_engine hooks_ (mk (St w q r (engine EBid LIdle cmd) d f) x) w =
    if opcode cmd =? OP_DCR_WRITE then Some (dcr_write_ hooks_ w cmd, mk (St w q r (engine ERetire LIdle cmd) d f) x)
    else if opcode cmd =? OP_DCR_READ then
      let '(w, c) := dcr_read_ hooks_ (mk (St w q r (engine EBid LIdle cmd) d f) x) w cmd in Some (w, goto c ERetire)
    else if opcode cmd =? OP_CACHE_FLUSH then Some (cache_flush_ hooks_ w cmd, mk (St w q r (engine ERetire LIdle cmd) d f) x)
    else Some (w, mk (St w q r (engine ERetire LIdle cmd) d f) x)) as Et.
  { intros x Hl. unfold tick_engine, bid. cbn [mk eng s_e eng_state_ cur_is_launch_ cur_cmd_]. rewrite Hl.
    apply opcode_eqb in Hx. inversion Hx as [|? ? E1 Hx1]; subst. inversion Hx1 as [|? ? E2 Hx2]; subst. inversion Hx2 as [|? ? E3 _]; subst.
    rewrite E1, E2, E3. unfold is_mem in Hm. by rewrite Hm. }
  inversion I as [w0 w1 w2 r0 Hd Es K|w0 r0 Ho|w0 r0 g Ho Eg|w0 r0 Ho|w0 r0 Ho Hx']; subst; clear I.
  - by eapply bid_launch.
  - apply reach_quiet; try done; try (by split; left). intros x. cbn [s_w]. rewrite Et; rewrite Ho; done.
  - apply reach_quiet; try done; try (by split; left). intros x. cbn [s_w]. rewrite Et; rewrite Ho; [|done]. simpl.
    unfold dcr_read_. rewrite Eg. by destruct (g w _ _).
  - apply reach_quiet; try done; try (by split; left). intros x. cbn [s_w]. rewrite Et; rewrite Ho; done.
  - apply reach_quiet; try done; try (by split; left). intros x. cbn [s_w]. rewrite Et by done.
    apply opcode_eqb in Hx'. inversion Hx' as [|? ? E1 Hx1]; subst. inversion Hx1 as [|? ? E2 Hx2]; subst. inversion Hx2 as [|? ? E3 _]; subst.
    by rewrite E1, E2, E3.
Qed.

Lemma quiet_mem_copy w w' : quiet w -> mem_copy_ hooks_ (at_satp satp) w cmd = Some w' -> quiet w'.
Proof using DeviceLaws0.
  intros Hw. unfold mem_copy_. destruct (dram_read hooks_); [|by intros [= <-]].
  destruct (dram_write hooks_) eqn:E; [|by intros [= <-]]. destruct (_ =? 0); [by intros [= <-]|].
  destruct (if opcode cmd =? OP_MEM_READ then _ else _); [|done]. bind_simpl.
  destruct (if opcode cmd =? OP_MEM_WRITE then _ else _); [|done]. bind_simpl. intros [= <-]. by apply quiet_copy.
Qed.

(** What [draw_begin] sets up depends on the root only, and it cuts the count. *)
Lemma draw_begin_root c c0 w c1 : cp_satp_ c = cp_satp_ c0 -> draw_begin hooks_ c0 w cmd = Some c1 ->
  draw_begin hooks_ c w cmd = Some (goto (set_drw c (MkDraw (draw_phys_ (drw c1)) (draw_num_steps_ (drw c1)) 0 (draw_cmd_ (drw c)))) EDrawStep) /\
  draw_num_steps_ (drw c1) <= MAX_DRAW_STEPS.
Proof.
  intros E. unfold draw_begin, cp_xlate. rewrite E. destruct (if VM_ENABLE then _ else _) as [phys|]; [|done]. bind_simpl. intros [= <-]. simpl.
  split; [done|]. destruct (Z.ltb_spec MAX_DRAW_STEPS (read_le hooks_ w phys 4)); lia.
Qed.

(** The dispatch of any command of the ring. *)
Lemma bid_runs d f s s' :
  quiet (fst s) -> exec hooks_ env quiet satp cmd s s' ->
  quiet (fst s') /\ exists d', reach (St (fst s) q (snd s) (engine EBid LIdle cmd) d f)
    (St (fst s') q (snd s') (engine ERetire LIdle cmd) d' f).
Proof using Hctrl Hq Hsq DeviceLaws0.
  intros Hw Ex. revert Hw. destruct Ex as [[w r] [w' r'] Hm Hx I|w r g Ho Eg|w r Ho Es|w w' r Hm Ec|w r s1 c1 Ho Ex D]; simpl; intros Hw.
  - split; [exact (quiet_inline _ _ _ I Hw)|]. exists d. by apply bid_inline.
  - assert (quiet (g w (arg0 cmd) (le_bytes 8 (arg1 cmd)))) by (by apply (quiet_dram_write (hooks_ := hooks_) (env := env))).
    split; [done|]. exists d. apply reach_quiet; try done; try (by split; left). intros x. unfold tick_engine, bid.
    cbn [mk eng s_e eng_state_ cur_is_launch_ cur_cmd_]. rewrite !Ho, Eg. done.
  - split; [done|]. exists d. apply reach_quiet; try done; try (by split; left). intros x. unfold tick_engine, bid.
    cbn [mk eng s_e eng_state_ cur_is_launch_ cur_cmd_]. rewrite !Ho. cbn [s_w]. rewrite Es. done.
  - pose proof (quiet_mem_copy _ _ Hw Ec). split; [done|]. exists d. apply reach_quiet; try done; try (by split; left). intros x. unfold tick_engine, bid.
    cbn [mk eng s_e eng_state_ cur_is_launch_ cur_cmd_ s_w].
    change (mem_copy_ hooks_ (mk _ _) w cmd) with (mem_copy_ hooks_ (at_satp satp) w cmd). rewrite Ec.
    assert (opcode cmd = OP_MEM_WRITE \/ opcode cmd = OP_MEM_READ \/ opcode cmd = OP_MEM_COPY) as [E|[E|E]].
    { unfold is_mem in Hm. bool_cases; simpl in *; auto; discriminate. }
    all: by rewrite !E.
  - assert (is_launch (opcode cmd) = false) as Hl by (by rewrite Ho).
    destruct (draw_begin_root (at_satp satp) _ _ _ eq_refl Ex) as [_ Hc].
    destruct (draw_runs _ _ _ _ _ D (draw_cmd_ d) f Hw ltac:(lia) Hc Hl) as [Qw [d' R]].
    split; [done|]. exists d'. etrans; [|exact R]. apply reach_quiet; try done; try (by split; left). intros x. unfold tick_engine, bid.
    cbn [mk eng s_e eng_state_ cur_is_launch_ cur_cmd_ s_w fst snd]. rewrite !Ho.
    by rewrite (proj1 (draw_begin_root (mk _ x) (at_satp satp) w _ eq_refl Ex)).
Qed.

(** A command from its decoding to its retirement; those that need no
    resource are not dispatched. *)
Lemma command_runs d f s s' :
  quiet (fst s) -> exec hooks_ env quiet satp cmd s s' ->
  quiet (fst s') /\ exists d', reach (St (fst s) q (snd s) (engine EDecode LIdle cmd) d f)
    (St (fst s') q (snd s') (engine ERetire LIdle cmd) d' f).
Proof using Hctrl Hq Hsq DeviceLaws0.
  intros Hw E. destruct (bid_runs d f s s' Hw E) as [Qw [d' R]].
  destruct ((opcode cmd =? OP_NOP) || (opcode cmd =? OP_FENCE)) eqn:Hn.
  - assert (s' = s) as ->.
    { assert (opcode cmd = OP_NOP \/ opcode cmd = OP_FENCE) as Ho by (bool_cases; simpl in *; auto; discriminate).
      destruct E as [s s' _ _ I|? ? ? Ho'|? ? Ho'|? ? ? Hm|? ? ? ? Ho']; try (destruct Ho as [Ho|Ho]; rewrite Ho in Ho'; discriminate Ho').
      - destruct I as [? ? ? ? Hl|? ? Ho'|? ? ? Ho'|? ? Ho'|]; try (destruct Ho as [Ho|Ho]; rewrite Ho in Ho'; discriminate Ho'); [|done].
        destruct Ho as [Ho|Ho]; by rewrite Ho in Hl.
      - destruct Ho as [Ho|Ho]; by rewrite Ho in Hm. }
    split; [done|]. exists d. apply reach_quiet; try done; by split; left.
  - split; [done|]. exists d'. etrans; [|exact R]. apply reach_quiet; try done; by split; left.
Qed.
End Command.

(** A queue with its head and completion count. *)
Definition q_at (q : Queue) (hd sq : Z) : Queue :=
  MkQueue (ring_base q) (head_addr q) (cmpl_addr q) (ring_log2 q) (control q) (tail q) (tail_lo_staging q) hd sq (error q).

Definition idle (e : Engine) : Prop := eng_state_ e = EIdle /\ launch_state_ e = LIdle.

(** Between commands, with the line [f] fetched or about to be. *)
Definition ready (s : st) (f : Fetch) : Prop :=
  idle (s_e s) /\ live s /\ cl_loaded_ f = true /\
  forall x, fetch_if_needed hooks_ (mk s x) (s_w s) = mk (St (s_w s) (s_q s) (s_r s) (s_e s) (s_d s) f) x.

Lemma ready_loaded s :
  idle (s_e s) -> cl_loaded_ (s_f s) = true -> 0 <= seqnum (s_q s) < tgt \/ (s_w s, s_r s) = fin -> ready s (s_f s).
Proof.
  intros He Hf Hs. split_and!; [done|split; [by right; left|done]|done|]. intros x. unfold fetch_if_needed. cbn [mk fch]. rewrite Hf. by destruct s.
Qed.

Definition next_slot (f : Fetch) : Fetch := MkFetch (cl_buf_ f) (cl_cmd_count_ f) (cl_cmd_slot_ f + 1) (cl_loaded_ f).

Definition slot_cmd (buf : list Z) (s : nat) : Cmd := snd (decode_cmd_bytes buf CL_BYTES (skip_cmds s buf 0)).

(** One command of a line. *)
Lemma slot_runs s f q hd sq w1 r1 :
  ready s f -> s_q s = q_at q hd sq -> q_on q -> 0 <= sq < tgt -> quiet (s_w s) -> cl_cmd_slot_ f < cl_cmd_count_ f ->
  exec hooks_ env quiet satp (slot_cmd (cl_buf_ f) (Z.to_nat (cl_cmd_slot_ f))) (s_w s, s_r s) (w1, r1) ->
  exists e d, idle e /\ quiet (complete hooks_ q (u64 (sq + 1)) w1) /\
    reach s (St (complete hooks_ q (u64 (sq + 1)) w1) (q_at q hd (u64 (sq + 1))) r1 e d (next_slot f)).
Proof using Hctrl DeviceLaws0.
  intros ([He1 He2] & Lv & Hf & Hft) Eq Hq Hsq Hw Hs Ex. set (cmd := slot_cmd _ _) in Ex.
  destruct (command_runs (q_at q hd sq) Hq Hsq cmd (s_d s) f (s_w s, s_r s) (w1, r1) Hw Ex) as [Qw [d' R]]. simpl in Qw, R.
  assert (quiet (complete hooks_ q (u64 (sq + 1)) w1)) as Qc.
  { unfold complete. destruct (dram_write hooks_) eqn:Ew; [|done]. destruct (_ =? 0); [done|].
    by apply (quiet_dram_write (hooks_ := hooks_) (env := env)). }
  exists (engine EIdle LIdle cmd), d'. split_and!; [done|done|].
  etrans; [|etrans; [exact R|]].
  - apply reach_quiet; try done; try (by split; left); [by rewrite Eq|]. intros x. unfold tick_engine. cbn [mk eng]. rewrite He1, Hft.
    unfold load_next_cmd. cbn [mk fch s_f]. rewrite Hf. cbn [negb]. rewrite (proj2 (Z.leb_gt _ _)) by lia.
    unfold goto, set_eng, mk. simpl. rewrite He2, Eq. done.
  - apply reach_quiet; try done; try (by split; left).
Qed.

(** The end of a line. *)
Lemma line_end s f q hd sq :
  ready s f -> s_q s = q_at q hd sq -> q_on q -> quiet (s_w s) -> cl_cmd_count_ f <= cl_cmd_slot_ f ->
  reach s (St (s_w s) (q_at q (u64 (hd + CL_BYTES)) sq) (s_r s) (s_e s) (s_d s)
    (MkFetch (cl_buf_ f) (cl_cmd_count_ f) (cl_cmd_slot_ f) false)).
Proof using Hctrl DeviceLaws0.
  intros ([He1 He2] & Lv & Hf & Hft) Eq Hq Hw Hs. apply reach_quiet; try done; try (by split; left); [by rewrite Eq|].
  intros x. unfold tick_engine. cbn [mk eng]. rewrite He1, Hft.
  unfold load_next_cmd. cbn [mk fch s_f]. rewrite Hf. cbn [negb]. rewrite (proj2 (Z.leb_le _ _)) by lia.
  unfold set_fch, set_q0, mk. simpl. by rewrite Eq.
Qed.

Lemma exec_all_seq q cmds w r sq t :
  exec_all hooks_ env quiet satp q cmds (w, r, sq) t -> 0 <= sq -> sq + Z.of_nat (length cmds) < 2 ^ 64 ->
  snd t = sq + Z.of_nat (length cmds) /\ (cmds = [] -> t = (w, r, sq)).
Proof.
  revert w r sq. induction cmds as [|cmd cmds IH]; intros w r sq E Hs Hb; inversion E; subst; clear E; [simpl; split; [lia|done]|].
  simpl length in *. match goal with X : exec_all _ _ _ _ _ cmds _ _ |- _ => apply IH in X as [X _] end; rewrite ?u64_small in * by lia; [|lia..].
  split; [lia|done].
Qed.

(** Before the end, the counter is not at the target. *)
Lemma exec_all_open q cmds w r sq t :
  exec_all hooks_ env quiet satp q cmds (w, r, sq) t -> 0 <= sq -> sq + Z.of_nat (length cmds) < 2 ^ 64 ->
  snd t < tgt \/ snd t = tgt /\ fst t = fin -> 0 <= sq < tgt \/ (w, r) = fin.
Proof.
  intros E Hs Hb Ht. destruct (exec_all_seq _ _ _ _ _ _ E Hs Hb) as [E1 E2].
  destruct cmds as [|cmd cmds]; [|left; simpl in E1; lia]. rewrite E2 in Ht by done. simpl in Ht. destruct Ht as [|[]]; [left; lia|by right].
Qed.

(** A whole line, from the slot it is at. *)
Lemma line_runs cmds : forall s f q hd sq t,
  0 <= sq -> sq + Z.of_nat (length cmds) < 2 ^ 64 -> snd t < tgt \/ snd t = tgt /\ fst t = fin ->
  ready s f -> s_q s = q_at q hd sq -> q_on q -> quiet (s_w s) -> 0 <= cl_cmd_slot_ f -> cl_cmd_slot_ f <= cl_cmd_count_ f ->
  cmds = slot_cmd (cl_buf_ f) <$> seq (Z.to_nat (cl_cmd_slot_ f)) (Z.to_nat (cl_cmd_count_ f - cl_cmd_slot_ f)) ->
  exec_all hooks_ env quiet satp q cmds (s_w s, s_r s, sq) t ->
  exists e d f', idle e /\ quiet (fst (fst t)) /\ cl_loaded_ f' = false /\
    reach s (St (fst (fst t)) (q_at q (u64 (hd + CL_BYTES)) (snd t)) (snd (fst t)) e d f').
Proof using Hctrl DeviceLaws0.
  induction cmds as [|cmd cmds IH]; intros s f q hd sq t Hsq Hb Htg Hr Eq Hq Hw H0s Hs Ec Ea.
  - inversion Ea; subst; clear Ea. simpl.
    assert (cl_cmd_count_ f <= cl_cmd_slot_ f).
    { apply (f_equal length) in Ec. rewrite length_fmap, length_seq in Ec. simpl in Ec. lia. }
    eexists _, _, _. split_and!; [exact (proj1 Hr)|done| |by eapply line_end]. done.
  - pose proof (exec_all_seq _ _ _ _ _ _ Ea Hsq Hb) as [Et _]. simpl length in *.
    inversion Ea as [|cmd' cmds' w r sq' w1 r1 s' Ex Ea']; subst; clear Ea.
    assert (exists k, Z.to_nat (cl_cmd_count_ f - cl_cmd_slot_ f) = S k) as [k Ek].
    { revert Ec. destruct (Z.to_nat (cl_cmd_count_ f - cl_cmd_slot_ f)) as [|k]; [done|eauto]. }
    rewrite Ek in Ec. simpl in Ec. injection Ec as -> Ec.
    destruct (slot_runs s f q hd sq w1 r1 Hr Eq Hq ltac:(lia) Hw ltac:(lia) Ex) as (e & d & He & Qc & R).
    set (s1 := St _ _ _ e d (next_slot f)) in R.
    assert (u64 (sq + 1) = sq + 1) as Eu by (apply u64_small; lia).
    assert (ready s1 (next_slot f)) as Hr1.
    { apply (ready_loaded s1); [done|apply Hr|]. apply (exec_all_open _ _ _ _ _ _ Ea'); rewrite ?Eu; [lia|lia|done]. }
    destruct (IH s1 (next_slot f) q hd (u64 (sq + 1)) t ltac:(lia) ltac:(lia) Htg Hr1 eq_refl Hq Qc) as (e' & d' & f' & He' & Qt & Hf' & R'); simpl.
    + lia.
    + lia.
    + rewrite Ec. do 2 f_equal; lia.
    + exact Ea'.
    + exists e', d', f'. split_and!; try done. by etrans.
Qed.

Lemma unpack_loop_count n buf : forall off c, 0 <= c -> c <= unpack_loop n buf off c.
Proof.
  induction n as [|n IH]; intros off c Hc; simpl; [lia|]. destruct (_ <? _); [lia|]. destruct (_ && _); [lia|].
  destruct (_ <? _); [lia|]. specialize (IH (off + cmd_size (rd8 buf CL_BYTES off)) (c + 1)). simpl in IH. lia.
Qed.

Lemma unpack_loop_max n buf : forall off c, unpack_loop n buf off c <= c + Z.of_nat n.
Proof.
  induction n as [|n IH]; intros off c; simpl; [lia|]. destruct (_ <? _); [lia|]. destruct (_ && _); [lia|].
  destruct (_ <? _); [lia|]. specialize (IH (off + cmd_size (rd8 buf CL_BYTES off)) (c + 1)). simpl in IH. lia.
Qed.

Lemma line_cmds_max buf : (length (line_cmds buf) <= 5)%nat.
Proof.
  unfold line_cmds. rewrite length_fmap, length_seq. pose proof (unpack_loop_max 5 buf 0 0). change (Z.to_nat MAX_CMDS_PER_CL) with 5%nat. lia.
Qed.

Lemma exec_ring_seq q n hd s t :
  exec_ring hooks_ env quiet satp q n hd s t -> 0 <= snd s -> snd s + 5 * Z.of_nat n < 2 ^ 64 ->
  snd s <= snd t /\ (snd t = snd s -> t = s).
Proof.
  induction 1 as [|n hd [[w r] sq] s1 s' buf El Ea Er IH]; intros Hs Hb; [by split|]. cbn [snd] in *.
  pose proof (line_cmds_max buf) as Hm. destruct (exec_all_seq _ _ _ _ _ _ Ea Hs ltac:(lia)) as [E1 E2].
  destruct (IH ltac:(lia) ltac:(lia)) as [I1 I2]. split; [lia|]. intros Et.
  destruct (line_cmds buf); [|simpl in E1; lia]. rewrite E2 in I2 by done. by apply I2.
Qed.

#[local] Arguments unpack_loop : simpl never.

(** The lines of the ring. *)
Lemma ring_runs n : forall s q hd sq t,
  snd t = tgt -> fst t = fin -> 0 <= sq -> sq + 5 * Z.of_nat n < 2 ^ 64 ->
  idle (s_e s) -> cl_loaded_ (s_f s) = false -> s_q s = q_at q hd sq -> q_on q -> quiet (s_w s) ->
  0 <= hd -> hd + Z.of_nat n * CL_BYTES = tail q -> tail q < 2 ^ 64 ->
  exec_ring hooks_ env quiet satp q n hd (s_w s, s_r s, sq) t ->
  exists e d f', idle e /\ quiet (fst (fst t)) /\ cl_loaded_ f' = false /\
    reach s (St (fst (fst t)) (q_at q (tail q) (snd t)) (snd (fst t)) e d f').
Proof using Hctrl DeviceLaws0.
  induction n as [|n IH]; intros s q hd sq t Htg Hfin Hsq Hsb He Hf Eq Hq Hw Hhd Ht Hb Er;
    pose proof (exec_ring_seq _ _ _ _ _ Er Hsq Hsb) as [Et1 Et2];
    inversion Er as [|n' hd' s' s1 s2 buf El Ea Er']; subst; clear Er; simpl.
  { exists (s_e s), (s_d s), (s_f s). split_and!; try done. destruct s. simpl in *. rewrite Z.mul_0_l, Z.add_0_r in Ht. by subst. }
  unfold CL_BYTES in Ht. simpl in El. unfold ring_line in El. destruct (dram_read hooks_) as [rd|] eqn:Ed; [|done].
  simpl in El. injection El as El.
  set (cnt := unpack_loop (Z.to_nat MAX_CMDS_PER_CL) buf 0 0). set (f := MkFetch buf cnt 0 true).
  assert (ready s f) as Hr.
  { split_and!; [done|split; [right; right|]; rewrite Eq; simpl|done|].
    1: lia.
    1: { destruct (decide (sq = snd t)) as [->|]; [right; rewrite <- Hfin, Et2 by done; done|left; simpl in *; lia]. }
     intros x. unfold fetch_if_needed. cbn [mk fch q0_]. rewrite Hf, Eq, Ed. cbn [q_at tail head ring_base ring_log2].
    rewrite (proj2 (Z.leb_gt _ _)) by lia. rewrite El. unfold unpack_cl, set_fch, mk. simpl. by rewrite Eq. }
  pose proof (unpack_loop_count (Z.to_nat MAX_CMDS_PER_CL) buf 0 0 ltac:(lia)) as Hc.
  pose proof (line_cmds_max buf) as Hm. destruct (exec_all_seq _ _ _ _ _ _ Ea Hsq ltac:(lia)) as [Es1 _].
  destruct (exec_ring_seq _ _ _ _ _ Er' ltac:(lia) ltac:(lia)) as [Et3 Et4].
  assert (snd s1 < tgt \/ snd s1 = tgt /\ fst s1 = fin) as Hopen.
  { destruct (decide (snd s1 = snd t)) as [Ed'|]; [right; rewrite <- Hfin, Et4 by done; split; congruence|left; lia]. }
  destruct (line_runs (line_cmds buf) s f q hd sq s1 Hsq ltac:(lia) Hopen Hr Eq Hq Hw ltac:(simpl; lia) Hc) as (e & d & f' & He' & Qt & Hf' & R); simpl.
  - by rewrite Z.sub_0_r.
  - exact Ea.
  - rewrite u64_small in R by (unfold CL_BYTES; lia). set (s3 := St _ _ _ e d f') in R.
    destruct (IH s3 q (hd + CL_BYTES) (snd s1) t Htg Hfin ltac:(lia) ltac:(lia) He' Hf' eq_refl Hq Qt) as (e2 & d2 & f2 & He2 & Qt2 & Hf2 & R2).
    + unfold CL_BYTES. lia.
    + unfold CL_BYTES. lia.
    + done.
    + by destruct s1 as [[? ?] ?].
    + exists e2, d2, f2. split_and!; try done. by etrans.
Qed.
End Run.

(** ** The contract *)

Section Contract.
Context `{VxConfig, CapsConfig} {W : Type} (hooks_ : Hooks W) (env : W -> W) (quiet : W -> Prop).
Context `{!DeviceLaws hooks_ env quiet}.

Lemma enabled_on c : enabled c = true -> Z.land (cp_ctrl_ c) 1 <> 0 /\ q_on (q0_ c).
Proof. unfold enabled, q_on. intros [E1 E2]%andb_true_iff. apply negb_true_iff, Z.eqb_neq in E1, E2. done. Qed.

Lemma serves_ring c w n t :
  enabled c = true -> idle (eng c) -> cl_loaded_ (fch c) = false -> quiet w ->
  0 <= head (q0_ c) -> head (q0_ c) + Z.of_nat n * CL_BYTES = tail (q0_ c) -> tail (q0_ c) < 2 ^ 64 ->
  0 <= seqnum (q0_ c) -> seqnum (q0_ c) + 5 * Z.of_nat n < 2 ^ 64 ->
  exec_ring hooks_ env quiet (cp_satp_ c) (q0_ c) n (head (q0_ c)) (w, last_dcr_rsp_ c, seqnum (q0_ c)) t ->
  exists k c', cycles hooks_ env k c w = Some (fst (fst t), c') /\ until hooks_ env (unfinished (snd t) (fst t)) k c w /\ busy c' = false /\
    q0_ c' = q_at (q0_ c) (tail (q0_ c)) (snd t) /\ last_dcr_rsp_ c' = snd (fst t) /\ quiet (fst (fst t)) /\
    idle (eng c') /\ cl_loaded_ (fch c') = false /\ enabled c' = true /\ cp_satp_ c' = cp_satp_ c.
Proof.
  intros He Hi Hf Hw Hh Ht Hb Hs0 Hs1 Er. destruct (enabled_on _ He) as [Hc Hq].
  set (s := St w (q0_ c) (last_dcr_rsp_ c) (eng c) (drw c) (fch c)).
  destruct (ring_runs hooks_ env quiet (cp_ctrl_ c) (cp_satp_ c) Hc (snd t) (fst t) n s (q0_ c) (head (q0_ c)) (seqnum (q0_ c)) t)
    as (e & d & f' & [E1 E2] & Qt & Hf' & R); try done; [by destruct (q0_ c)|].
  destruct (R (cycle_counter_ c)) as (k & y & E & B). assert (mk (cp_ctrl_ c) (cp_satp_ c) s (cycle_counter_ c) = c) as Ec by (by destruct c).
  rewrite Ec in E, B. eexists k, _. split; [exact E|]. split_and!; try done.
  unfold busy. cbn [mk s_q s_e s_f eng fch q0_ q_at head tail]. rewrite E1, E2, Hf', Z.ltb_irrefl.
  rewrite !bool_decide_true by done. by rewrite andb_false_r.
Qed.

(** One command from its decoding to its retirement. *)
Lemma command_cycles c w cmd w' r' :
  enabled c = true -> 0 <= seqnum (q0_ c) -> quiet w ->
  eng c = MkEngine EDecode LIdle cmd (is_launch (opcode cmd)) ((opcode cmd =? OP_NOP) || (opcode cmd =? OP_FENCE)) ->
  exec hooks_ env quiet (cp_satp_ c) cmd (w, last_dcr_rsp_ c) (w', r') ->
  exists k c', cycles hooks_ env k c w = Some (w', c') /\ eng_state_ (eng c') = ERetire /\ launch_state_ (eng c') = LIdle /\
    cur_cmd_ (eng c') = cmd /\ last_dcr_rsp_ c' = r' /\ q0_ c' = q0_ c /\ fch c' = fch c /\ quiet w'.
Proof.
  intros He Hs Hw Ee Ex. destruct (enabled_on _ He) as [Hc Hq].
  destruct (command_runs hooks_ env quiet (cp_ctrl_ c) (cp_satp_ c) Hc (seqnum (q0_ c) + 1) (w, 0) (q0_ c) Hq ltac:(lia) cmd (drw c) (fch c)
    (w, last_dcr_rsp_ c) (w', r') Hw Ex) as [Qw [d' R]]. destruct (R (cycle_counter_ c)) as (k & y & E & _). cbn [fst snd s_w] in E. rewrite <- Ee in E.
  exists k, (mk (cp_ctrl_ c) (cp_satp_ c) (St w' (q0_ c) r'
    (MkEngine ERetire LIdle cmd (is_launch (opcode cmd)) ((opcode cmd =? OP_NOP) || (opcode cmd =? OP_FENCE))) d' (fch c)) y).
  split_and!; try done. rewrite <- E. by destruct c.
Qed.

(** C19. The command processor serves the ring.  Enabled and between commands,
    with [n] lines between its head and its tail whose commands have an
    execution from the device's state (every launched kernel is seen busy at
    some cycle after its start and then drains, and the value a wait tests
    already holds when the wait is reached), it reaches after finitely many
    cycles exactly the state of that execution: every command of every line took
    effect once and in order, each launch finished before the next command
    began, each command's completion was published, the head has met the tail
    and the processor is idle. *)
Theorem cp_serves_ring c w n t :
  enabled c = true -> idle (eng c) -> cl_loaded_ (fch c) = false -> quiet w ->
  0 <= head (q0_ c) -> head (q0_ c) + Z.of_nat n * CL_BYTES = tail (q0_ c) -> tail (q0_ c) < 2 ^ 64 ->
  0 <= seqnum (q0_ c) -> seqnum (q0_ c) + 5 * Z.of_nat n < 2 ^ 64 ->
  exec_ring hooks_ env quiet (cp_satp_ c) (q0_ c) n (head (q0_ c)) (w, last_dcr_rsp_ c, seqnum (q0_ c)) t ->
  exists k c', cycles hooks_ env k c w = Some (fst (fst t), c') /\ busy c' = false /\
    q0_ c' = q_at (q0_ c) (tail (q0_ c)) (snd t) /\ last_dcr_rsp_ c' = snd (fst t) /\ quiet (fst (fst t)).
Proof.
  intros He Hi Hf Hw Hh Ht Hb Hs0 Hs1 Er.
  destruct (serves_ring c w n t He Hi Hf Hw Hh Ht Hb Hs0 Hs1 Er) as (k & c' & E & _ & B & Eq & Er' & Q & _). eauto 10.
Qed.

(** A launch that is never seen busy never retires: the sub-machine waits
    for the busy signal to rise, so when the kernel has finished before the
    first poll after its start, the engine stays busy and the completion
    counter stays where it is at every later cycle. *)
Theorem missed_kernel_hangs c w f n :
  enabled c = true -> eng_state_ (eng c) = EBid -> launch_state_ (eng c) = LIdle -> cur_is_launch_ (eng c) = true ->
  opcode (cur_cmd_ (eng c)) = OP_LAUNCH -> vortex_busy hooks_ = Some f ->
  (forall i, f (after_start hooks_ env w (S i)) = false) ->
  exists w' c', cycles hooks_ env n c w = Some (w', c') /\ seqnum (q0_ c') = seqnum (q0_ c) /\ busy c' = true.
Proof.
  intros He Hb Hl Hc Ho Eb Hn.
  assert (forall m j c1, enabled c1 = true -> eng_state_ (eng c1) = EWaitDone -> launch_state_ (eng c1) = LWaitBusy ->
    cur_is_launch_ (eng c1) = true -> exists w' c', cycles hooks_ env m c1 (after_start hooks_ env w (S j)) = Some (w', c') /\
      seqnum (q0_ c') = seqnum (q0_ c1) /\ busy c' = true) as Wait.
  { induction m as [|m IH]; intros j c1 He1 S1 S2 S3; cbn [cycles].
    - exists (after_start hooks_ env w (S j)), c1. split_and!; [done|done|]. unfold busy. rewrite He1, S1. simpl. by rewrite orb_true_r.
    - unfold tick. change (enabled (set_cycle c1 _)) with (enabled c1). rewrite He1. cbn [negb].
      unfold tick_engine. cbn [set_cycle eng]. rewrite S1, S3, S2. rewrite bool_decide_false by done. cbn [andb negb]. bind_simpl.
      unfold tick_launch. cbn [set_cycle eng]. rewrite S2, Eb, Hn. exact (IH (S j) (set_cycle c1 _) He1 S1 S2 S3). }
  destruct n as [|n]; [exists w, c; split_and!; [done|done|]; unfold busy; rewrite He, Hb; simpl; by rewrite orb_true_r|].
  simpl. unfold tick. change (enabled (set_cycle c _)) with (enabled c). rewrite He. cbn [negb].
  unfold tick_engine. cbn [set_cycle eng]. rewrite Hb. unfold bid. cbn [set_cycle eng]. rewrite Hc, Ho.
  change (OP_LAUNCH =? OP_LAUNCH_QMD) with false. bind_simpl. eapply (Wait n 0%nat (goto (set_launch (set_cycle c _) LWaitBusy) EWaitDone)); done.
Qed.
End Contract.

(** ** A device

    Byte memory, a log of register writes, and kernels that run for a fixed
    number of cycles. *)
Record demo := MkDemo { d_mem : Z -> Z; d_log : list (Z * Z); d_timer : nat }.

Definition demo_read (w : demo) (a : Z) (n : nat) : list Z := d_mem w <$> span a n.

Definition demo_write (w : demo) (a : Z) (bs : list Z) : demo :=
  MkDemo (fun x => if (a <=? x) && (x <? a + Z.of_nat (length bs)) then bs !!! Z.to_nat (x - a) else d_mem w x) (d_log w) (d_timer w).

Definition demo_hooks (duration : nat) : Hooks demo := MkHooks
  (Some demo_read) (Some demo_write)
  (Some (fun w a v => MkDemo (d_mem w) (d_log w ++ [(a, v)]) (d_timer w)))
  (Some (fun w a t => (t, w)))
  (Some (fun w => MkDemo (d_mem w) (d_log w) duration))
  (Some (fun w => negb (Nat.eqb (d_timer w) 0))).

Definition demo_env (w : demo) : demo := MkDemo (d_mem w) (d_log w) (pred (d_timer w)).
Definition demo_quiet (w : demo) : Prop := d_timer w = 0%nat.

#[global] Instance demo_laws n : DeviceLaws (demo_hooks n) demo_env demo_quiet.
Proof.
  split; unfold demo_quiet.
  - intros [m l t]. simpl. by intros ->.
  - intros w f a bs Hw [= <-]. done.
  - intros w f a v Hw [= <-]. done.
  - intros w f a t Hw [= <-]. done.
Defined.

Definition demo_start : demo := MkDemo (fun _ => 0) [] 0.

(** A line with a register write and a launch. *)
Definition demo_line : list Z := [4; 0; 0; 0; 16] ++ replicate 7 0 ++ [7] ++ replicate 7 0 ++ [6] ++ replicate 43 0.

Definition demo_world : demo := demo_write demo_start 0x1000 demo_line.

Definition demo_cp : CommandProcessor :=
  MkCP 1 0 0 (MkQueue 0x1000 0 0 16 1 64 64 0 0 0) 0 (eng CommandProcessor_new) (drw CommandProcessor_new) (fch CommandProcessor_new).

Definition demo_caps : CapsConfig := {|
  ISA_IMPL_ID := 0; NUM_CORES := 1; SOCKET_SIZE := 1; NUM_CLUSTERS := 1; ISSUE_WIDTH := 1; LMEM_ENABLED := true;
  MEMORY_NUM_BANKS := 2; MEMORY_ADDR_WIDTH := 32; MISA_EXT := 0; MISA_STD := 0; VM_ENABLE := false |}.

Lemma demo_kernel w : demo_quiet w -> kernel_run (demo_hooks 3) demo_env demo_quiet w w.
Proof.
  intros Hw. eexists _, 0%nat, 2%nat. split_and!; [done|lia| | |done| |done].
  - lia.
  - intros i Hi. destruct i as [|[|i]]; [done|done|lia].
  - destruct w as [m l t]. unfold demo_quiet in Hw. simpl in Hw. by rewrite Hw.
Qed.

Lemma cp_serves_ring_witness : let _ := default_config in let _ := demo_caps in
  exists k c', cycles (demo_hooks 3) demo_env k demo_cp demo_world =
      Some (MkDemo (d_mem demo_world) [(16, 7)] 0, c') /\ busy c' = false /\ seqnum (q0_ c') = 2.
Proof.
  intros cfg caps.
  destruct (cp_serves_ring (demo_hooks 3) demo_env demo_quiet demo_cp demo_world 1 (MkDemo (d_mem demo_world) [(16, 7)] 0, 0, 2))
    as (k & c' & E & B & Eq & _); try reflexivity; try (simpl; lia).
  - split; reflexivity.
  - eapply er_line; [reflexivity| |apply er_done].
    replace (line_cmds _) with [MkCmd OP_DCR_WRITE 0 0 16 7 (6 * 2 ^ 0); MkCmd OP_LAUNCH 0 0 0 0 0] by (vm_compute; reflexivity).
    eapply ea_cons; [eapply ex_inline; [reflexivity|vm_compute; set_solver|by apply in_dcr_write]|].
    eapply ea_cons; [|apply ea_nil].
    eapply ex_inline; [reflexivity|vm_compute; set_solver|]. eapply in_launch; [reflexivity|reflexivity|by apply demo_kernel].
  - exists k, c'. split_and!; [exact E|exact B|by rewrite Eq].
Defined.

Lemma demo_short m l i : d_timer (Nat.iter (S i) demo_env (MkDemo m l 1)) = 0%nat.
Proof. induction i as [|i IH]; [done|]. cbn [Nat.iter nat_rect demo_env d_timer] in *. by rewrite IH. Qed.

Lemma missed_kernel_hangs_witness : let _ := default_config in let _ := demo_caps in
  exists w' c', cycles (demo_hooks 1) demo_env 100
      (set_eng demo_cp (MkEngine EBid LIdle (MkCmd OP_LAUNCH 0 0 0 0 0) true false)) demo_start = Some (w', c') /\
    seqnum (q0_ c') = 0 /\ busy c' = true.
Proof.
  intros cfg caps. refine (missed_kernel_hangs (demo_hooks 1) demo_env _ demo_start _ 100 _ _ _ _ _ eq_refl _); try reflexivity.
  intros i. change (negb (Nat.eqb (d_timer (Nat.iter (S i) demo_env (MkDemo (fun _ => 0) [] 1))) 0) = false). by rewrite demo_short.
Defined.
