(* ===== verification/CpHost.v ===== *)
(** * Submitting commands to the command processor

    The host side of the ring in [sw/runtime/common/device.cpp]
    ([cp_ring_append_], [cp_batch_begin], [cp_batch_end], [cp_submit_cl_] and
    the encoders of the [cp_submit_*] functions) over the register channel of
    the functional backend ([sw/runtime/simx/vortex.cpp]), which runs the
    command processor for a bounded burst of cycles around each access.

    The ring lives in memory the host writes directly: [host_write] is the
    [memcpy] through its host pointer, a parameter with the law that the
    processor's reads see it ([HostLaws]).

    Theorems: every encoder is inverted by the processor's decoder; a batch of
    at most 1024 lines is executed in order and the closing poll returns; a
    longer one overwrites its own beginning; and the poll on the 32-bit
    sequence register cannot succeed once [2^32] commands were submitted. *)

From S2P Require Import Prelude Bitmanip PageTable CmdProc.

(** ** Command lines *)

Definition CP_Q_TAIL_LO : Z := 0x120.
Definition CP_Q_TAIL_HI : Z := 0x124.
Definition CP_Q_SEQNUM : Z := 0x128.
Definition CP_Q_LAST_DCR_RSP : Z := 0x130.
Definition CP_RING_SIZE : Z := Z.shiftl 1 16.
Definition CP_CL_BYTES : Z := 64.

(** [uint8_t cl[CP_CL_BYTES] = {0}] with the given prefix. *)
Definition pad (l : list Z) : list Z := l ++ replicate (64 - length l) 0.

(** [cl[0] = opcode; cl[1] = flags], then 64-bit arguments from byte 4 on. *)
Definition line (op fl : Z) (args : list Z) : list Z := pad ([op; fl; 0; 0] ++ (args ≫= le_bytes 8)).

(** [p32[0] = opcode; p32[1] = addr; p32[3] = value] *)
Definition line32 (op addr value : Z) : list Z := pad (le_bytes 4 op ++ le_bytes 4 addr ++ le_bytes 4 0 ++ le_bytes 4 value).

Definition cl_dcr_write (addr value : Z) : list Z := line32 OP_DCR_WRITE addr value.
Definition cl_dcr_read (addr tag : Z) : list Z := line32 OP_DCR_READ addr tag.
Definition cl_launch : list Z := line OP_LAUNCH 0 [].
Definition cl_launch_qmd (qmd_addr : Z) : list Z := line OP_LAUNCH_QMD 0 [qmd_addr].
Definition cl_draw (desc_addr : Z) : list Z := line OP_DRAW 0 [desc_addr].
Definition cl_cache_flush (cp_num_cores_ : Z) : list Z := line OP_CACHE_FLUSH 0 [cp_num_cores_].
Definition cl_mem (op a0 a1 a2 : Z) (physical : bool) : list Z :=
  line op (if physical then MEM_FLAG_PHYSICAL else 0) [a0; a1; a2].

(** ** The host's state *)

Inductive vx_result_t := VX_SUCCESS | VX_ERR_INVALID_VALUE.

Record Host := MkHost {
  cp_ring_ : Z; cp_tail_ : Z; cp_expected_seqnum_ : Z; cp_in_batch_ : bool; cp_batch_target_ : Z
}.

Section Submit.
Context `{VxConfig, CapsConfig} {W : Type} (hooks_ : Hooks W) (env : W -> W) (host_write : W -> Z -> list Z -> W).

(** Up to [n] cycles while the processor is busy. *)
Fixpoint burst (n : nat) (c : CommandProcessor) (w : W) : option (W * CommandProcessor) :=
  match n with
  | O => Some (w, c)
  | S n => if busy c then '(w, c) ← tick hooks_ c w; burst n c (env w) else Some (w, c)
  end.

Definition cp_reg_write (c : CommandProcessor) (w : W) (off value : Z) : option (W * CommandProcessor) :=
  burst 256 (mmio_write c off value) w.

Definition cp_reg_read (c : CommandProcessor) (w : W) (off : Z) : option (Z * (W * CommandProcessor)) :=
  '(w, c) ← burst 256 c w;
  Some (mmio_read c off, (w, c)).

Definition cp_ring_append_ (h : Host) (w : W) (cl : list Z) : vx_result_t * (Host * W) :=
  let ring_off := Z.land (cp_tail_ h) (CP_RING_SIZE - 1) in
  if CP_RING_SIZE <? ring_off + CP_CL_BYTES then (VX_ERR_INVALID_VALUE, (h, w)) else
  (VX_SUCCESS, (MkHost (cp_ring_ h) (u64 (cp_tail_ h + CP_CL_BYTES)) (u64 (cp_expected_seqnum_ h + 1)) (cp_in_batch_ h) (cp_batch_target_ h),
    host_write w (cp_ring_ h + ring_off) cl)).

Definition cp_batch_begin (h : Host) : Host := MkHost (cp_ring_ h) (cp_tail_ h) (cp_expected_seqnum_ h) true (cp_expected_seqnum_ h).

(** Both halves of the tail, the high one committing. *)
Definition doorbell (h : Host) (c : CommandProcessor) (w : W) : option (W * CommandProcessor) :=
  '(w, c) ← cp_reg_write c w CP_Q_TAIL_LO (Z.land (cp_tail_ h) 0xFFFFFFFF);
  cp_reg_write c w CP_Q_TAIL_HI (u32 (Z.shiftr (cp_tail_ h) 32)).

(** [for (;;)] on the sequence register, for at most [fuel] reads; the flag
    says whether it was left. *)
Fixpoint poll (fuel : nat) (c : CommandProcessor) (w : W) (target : Z) : option (bool * (W * CommandProcessor)) :=
  match fuel with
  | O => Some (false, (w, c))
  | S fuel =>
      '(seqnum32, (w, c)) ← cp_reg_read c w CP_Q_SEQNUM;
      if target <=? seqnum32 then Some (true, (w, c)) else poll fuel c w target
  end.

(** [cp_batch_end] up to its final console drain. *)
Definition cp_batch_end (fuel : nat) (h : Host) (c : CommandProcessor) (w : W) : option (bool * (Host * (W * CommandProcessor))) :=
  let target := cp_batch_target_ h in
  let h := MkHost (cp_ring_ h) (cp_tail_ h) (cp_expected_seqnum_ h) false target in
  '(w, c) ← doorbell h c w;
  '(ok, s) ← poll fuel c w target;
  Some (ok, (h, s)).

Definition cp_submit_cl_ (fuel : nat) (h : Host) (c : CommandProcessor) (w : W) (cl : list Z) :
    option (bool * vx_result_t * (Host * (W * CommandProcessor))) :=
  if cp_in_batch_ h then
    let '(r, (h, w)) := cp_ring_append_ h w cl in
    let h := match r with
      | VX_SUCCESS => MkHost (cp_ring_ h) (cp_tail_ h) (cp_expected_seqnum_ h) (cp_in_batch_ h) (cp_expected_seqnum_ h)
      | _ => h
      end in
    Some (true, r, (h, (w, c)))
  else
    match cp_ring_append_ h w cl with
    | (VX_SUCCESS, (h, w)) =>
        let target := cp_expected_seqnum_ h in
        '(w, c) ← doorbell h c w;
        '(ok, s) ← poll fuel c w target;
        Some (ok, VX_SUCCESS, (h, s))
    | (r, (h, w)) => Some (true, r, (h, (w, c)))
    end.

(** The lines of a batch, appended one by one. *)
Fixpoint submit_all (h : Host) (c : CommandProcessor) (w : W) (cls : list (list Z)) : option (Host * W) :=
  match cls with
  | [] => Some (h, w)
  | cl :: cls =>
      '(_, _, (h, (w, c))) ← cp_submit_cl_ 0 h c w cl;
      submit_all h c w cls
  end.
End Submit.

(** ** Encoding and decoding *)

Section Wire.
Context `{VxConfig, CapsConfig}.

Lemma length_le_bytes n v : length (le_bytes n v) = n.
Proof. revert v. induction n as [|n IH]; intros v; simpl; [done|]. by rewrite IH. Qed.

Lemma le_bytes_val n v : le_val (le_bytes n v) = v mod 2 ^ (8 * Z.of_nat n).
Proof.
  revert v. induction n as [|n IH]; intros v; [by rewrite Z.mul_0_r, Z.mod_1_r|].
  cbn [le_bytes le_val foldr]. fold (le_val (le_bytes n (v / 256))). rewrite IH.
  replace (8 * Z.of_nat (S n)) with (8 + 8 * Z.of_nat n) by lia. rewrite Z.pow_add_r by lia.
  change (2 ^ 8) with 256. rewrite Z.rem_mul_r by (apply Z.pow_nonzero || lia; lia). lia.
Qed.

Lemma le_bytes_range n v b : b ∈ le_bytes n v -> 0 <= b < 256.
Proof.
  revert v. induction n as [|n IH]; intros v; simpl; [by intros ?%elem_of_nil|].
  intros [-> |Hb]%list.elem_of_cons; [apply Z.mod_pos_bound; lia|by eapply IH].
Qed.

(** Reading eight bytes, most significant last. *)
Lemma rd64_fold l v k :
  (forall b, b ∈ l -> 0 <= b < 256) -> 0 <= v < 2 ^ (8 * k) -> 0 <= k ->
  foldl (fun v p => Z.lor v (Z.shiftl (snd p) (8 * fst p))) v (zip (span k (length l)) l) = v + 2 ^ (8 * k) * le_val l.
Proof.
  revert v k. induction l as [|b l IH]; intros v k Hl Hv Hk; [simpl; lia|].
  assert (0 <= b < 256) as Hb by (apply Hl, list.elem_of_cons; auto).
  change (span k (length (b :: l))) with (span k (1 + length l)). rewrite span_app.
  change (k + Z.of_nat 1) with (k + 1). cbn [zip_with span seq fmap list_fmap app foldl fst snd]. rewrite Z.add_0_r.
  assert (Z.lor v (b ≪ (8 * k)) = v + b * 2 ^ (8 * k)) as -> by (rewrite Z.lor_comm, lor_disjoint by lia; lia).
  assert (2 ^ (8 * (k + 1)) = 256 * 2 ^ (8 * k)) as E by (rewrite Z.mul_add_distr_l, Z.pow_add_r by lia; lia).
  rewrite IH; [cbn [le_val foldr]; fold (le_val l); rewrite E; nia| | |lia].
  - intros b' Hb'. apply Hl, list.elem_of_cons. auto.
  - rewrite E. nia.
Qed.

Lemma rd64_le buf len o v :
  (forall i, 0 <= i < 8 -> rd8 buf len (o + i) = le_bytes 8 v !!! Z.to_nat i) -> rd64 buf len o = v mod 2 ^ 64.
Proof.
  intros Hr. unfold rd64. change 64 with (8 * Z.of_nat 8). rewrite <- le_bytes_val.
  change (range 8) with [0; 1; 2; 3; 4; 5; 6; 7]. cbn [foldl]. rewrite !Hr by lia.
  pose proof (rd64_fold (le_bytes 8 v) 0 0 (le_bytes_range 8 v) ltac:(lia) ltac:(lia)) as F.
  rewrite Z.add_0_l, Z.mul_1_l in F. rewrite <- F. done.
Qed.

(** A line whose command fills [cmd_size] bytes holds that command alone. *)
Lemma line_decodes op fl a b c :
  0 <= a < 2 ^ 64 -> 0 <= b < 2 ^ 64 -> 0 <= c < 2 ^ 64 ->
  snd (decode_cmd_bytes (line op fl [a; b; c]) CL_BYTES 0) = MkCmd op fl 0 a b c.
Proof.
  intros Ha Hb Hc. unfold decode_cmd_bytes. cbn [snd].
  assert (forall k o v, [a; b; c] !! k = Some v -> o = 4 + 8 * Z.of_nat k -> rd64 (line op fl [a; b; c]) CL_BYTES o = v mod 2 ^ 64) as R.
  { intros k o v Hk ->. apply rd64_le. intros i Hi. assert (i ∈ range 8) as Hin by (by apply elem_of_range).
    clear Hi. revert Hin. change (range 8) with [0; 1; 2; 3; 4; 5; 6; 7].
    destruct k as [|[|[|k]]]; simplify_eq/=; intros Hin;
      repeat (apply list.elem_of_cons in Hin as [-> |Hin]; [reflexivity|]); by apply elem_of_nil in Hin. }
  rewrite (R 0%nat (0 + 4) a), (R 1%nat (0 + 12) b), (R 2%nat (0 + 20) c) by done. rewrite !Z.mod_small by done. done.
Qed.

Lemma le_bytes_app n m v : le_bytes (n + m) v = le_bytes n v ++ le_bytes m (v / 2 ^ (8 * Z.of_nat n)).
Proof.
  revert v. induction n as [|n IH]; intros v; [by rewrite Z.mul_0_r, Z.div_1_r|].
  cbn [le_bytes plus app]. rewrite IH. do 3 f_equal. replace (8 * Z.of_nat (S n)) with (8 + 8 * Z.of_nat n) by lia.
  rewrite Z.pow_add_r, <- Z.div_div by (lia || (apply Z.pow_nonzero; lia)). done.
Qed.

Lemma le_bytes_high v : 0 <= v < 2 ^ 32 -> le_bytes 8 v = le_bytes 4 v ++ [0; 0; 0; 0].
Proof. intros Hv. change 8%nat with (4 + 4)%nat. rewrite le_bytes_app. by rewrite Z.div_small. Qed.

Lemma line32_line op addr value :
  0 <= op < 256 -> 0 <= addr < 2 ^ 32 -> 0 <= value < 2 ^ 32 -> line32 op addr value = line op 0 [addr; value; 0].
Proof.
  intros Ho Ha Hv. unfold line, line32. change ([addr; value; 0] ≫= le_bytes 8) with (le_bytes 8 addr ++ le_bytes 8 value ++ le_bytes 8 0 ++ []).
  rewrite !le_bytes_high by lia. cbn [le_bytes]. rewrite (Z.div_small op), (Z.mod_small op) by lia. reflexivity.
Qed.

Lemma line_one op fl a b c :
  unpack_loop (Z.to_nat MAX_CMDS_PER_CL) (line op fl [a; b; c]) 0 0 = 1 ->
  0 <= a < 2 ^ 64 -> 0 <= b < 2 ^ 64 -> 0 <= c < 2 ^ 64 ->
  line_cmds (line op fl [a; b; c]) = [MkCmd op fl 0 a b c].
Proof.
  intros E Ha Hb Hc. unfold line_cmds. rewrite E. change (seq 0 (Z.to_nat 1)) with [0%nat].
  cbn [fmap list_fmap skip_cmds]. by rewrite line_decodes.
Qed.

(** C36. Commands survive the wire: the line built by each [cp_submit_*]
    function unpacks into exactly one command, with the opcode, flags and
    arguments that were submitted. *)
Theorem wire_roundtrip :
  (forall addr value, 0 <= addr < 2 ^ 32 -> 0 <= value < 2 ^ 32 ->
    line_cmds (cl_dcr_write addr value) = [MkCmd OP_DCR_WRITE 0 0 addr value 0] /\
    line_cmds (cl_dcr_read addr value) = [MkCmd OP_DCR_READ 0 0 addr value 0]) /\
  line_cmds cl_launch = [MkCmd OP_LAUNCH 0 0 0 0 0] /\
  (forall a, 0 <= a < 2 ^ 64 ->
    line_cmds (cl_launch_qmd a) = [MkCmd OP_LAUNCH_QMD 0 0 a 0 0] /\
    line_cmds (cl_draw a) = [MkCmd OP_DRAW 0 0 a 0 0] /\
    line_cmds (cl_cache_flush a) = [MkCmd OP_CACHE_FLUSH 0 0 a 0 0]) /\
  (forall op a b c (physical : bool), op ∈ [OP_MEM_WRITE; OP_MEM_READ; OP_MEM_COPY] ->
    0 <= a < 2 ^ 64 -> 0 <= b < 2 ^ 64 -> 0 <= c < 2 ^ 64 ->
    line_cmds (cl_mem op a b c physical) = [MkCmd op (if physical then MEM_FLAG_PHYSICAL else 0) 0 a b c]).
Proof.
  split_and!.
  - intros addr value Ha Hv. unfold cl_dcr_write, cl_dcr_read. rewrite !line32_line by (done || (unfold OP_DCR_WRITE, OP_DCR_READ; lia)).
    rewrite !line_one by (reflexivity || lia). done.
  - change cl_launch with (line OP_LAUNCH 0 [0; 0; 0]). by rewrite line_one by (reflexivity || lia).
  - intros a Ha. change (cl_launch_qmd a) with (line OP_LAUNCH_QMD 0 [a; 0; 0]). change (cl_draw a) with (line OP_DRAW 0 [a; 0; 0]).
    change (cl_cache_flush a) with (line OP_CACHE_FLUSH 0 [a; 0; 0]). rewrite !line_one by (reflexivity || lia). done.
  - intros op a b c physical Hop Ha Hb Hc. unfold cl_mem. apply line_one; try done.
    repeat (apply list.elem_of_cons in Hop as [-> |Hop]; [by destruct physical|]). by apply elem_of_nil in Hop.
Qed.

End Wire.

(** ** The ring *)

(** What the host's writes to the ring do to the memory the processor reads:
    the bytes written are read back, bytes elsewhere stay, and no kernel is
    started. *)
Class HostLaws {W : Type} (hooks_ : Hooks W) (host_write : W -> Z -> list Z -> W) (quiet : W -> Prop)
    (rd : W -> Z -> nat -> list Z) : Prop := {
  hl_read : dram_read hooks_ = Some rd;
  hl_same w a bs : rd (host_write w a bs) a (length bs) = bs;
  hl_other w a bs b n : a + Z.of_nat (length bs) <= b \/ b + Z.of_nat n <= a -> rd (host_write w a bs) b n = rd w b n;
  hl_quiet w a bs : quiet w -> quiet (host_write w a bs)
}.

Section Ring.
Context `{VxConfig, CapsConfig} {W : Type} (hooks_ : Hooks W) (env : W -> W) (host_write : W -> Z -> list Z -> W).
Context (quiet : W -> Prop) (rd : W -> Z -> nat -> list Z) `{!HostLaws hooks_ host_write quiet rd}.

Definition slot_of (pos : Z) : Z := pos mod CP_RING_SIZE.

Lemma ring_mask pos : Z.land pos (CP_RING_SIZE - 1) = slot_of pos.
Proof. change (CP_RING_SIZE - 1) with (Z.ones 16). by rewrite Z.land_ones. Qed.

Lemma slot_room pos : (64 | pos) -> slot_of pos + 64 <= CP_RING_SIZE.
Proof.
  intros [k ->]. unfold slot_of. change CP_RING_SIZE with (64 * 1024). rewrite (Z.mul_comm k), Z.mul_mod_distr_l by lia.
  pose proof (Z.mod_pos_bound k 1024). lia.
Qed.

Lemma slot_apart pos i j : (64 | pos) -> i <> j -> Z.abs (i - j) < 1024 ->
  slot_of (pos + 64 * i) + 64 <= slot_of (pos + 64 * j) \/ slot_of (pos + 64 * j) + 64 <= slot_of (pos + 64 * i).
Proof.
  intros [k ->] Hn Hd. unfold slot_of. change CP_RING_SIZE with (64 * 1024).
  replace (k * 64 + 64 * i) with (64 * (k + i)) by lia. replace (k * 64 + 64 * j) with (64 * (k + j)) by lia.
  rewrite !Z.mul_mod_distr_l by lia.
  assert ((k + i) mod 1024 <> (k + j) mod 1024); [|lia].
  intros E. pose proof (Z.div_mod (k + i) 1024). pose proof (Z.div_mod (k + j) 1024). lia.
Qed.

(** One line appended in a batch. *)
Lemma append_ok h c w cl :
  cp_in_batch_ h = true -> (64 | cp_tail_ h) ->
  cp_submit_cl_ hooks_ env host_write 0 h c w cl =
    Some (true, VX_SUCCESS, (MkHost (cp_ring_ h) (u64 (cp_tail_ h + 64)) (u64 (cp_expected_seqnum_ h + 1)) true (u64 (cp_expected_seqnum_ h + 1)),
      (host_write w (cp_ring_ h + slot_of (cp_tail_ h)) cl, c))).
Proof.
  intros Hb Ha. unfold cp_submit_cl_. rewrite Hb. unfold cp_ring_append_. rewrite ring_mask.
  rewrite (proj2 (Z.ltb_ge _ _)) by (apply slot_room, Ha). by rewrite Hb.
Qed.

Lemma submit_all_app h c w l1 l2 h1 w1 :
  submit_all hooks_ env host_write h c w l1 = Some (h1, w1) ->
  cp_in_batch_ h = true -> (64 | cp_tail_ h) -> 0 <= cp_tail_ h ->
  submit_all hooks_ env host_write h c w (l1 ++ l2) = submit_all hooks_ env host_write h1 c w1 l2.
Proof.
  revert h w. induction l1 as [|cl l1 IH]; intros h w E Hb Ha Hp; cbn [submit_all app] in *; [by simplify_eq|].
  rewrite append_ok in E |- * by done. bind_simpl. apply IH; [exact E|done| |]; cbn [cp_tail_].
  - destruct Ha as [k ->]. unfold u64. apply Z.mod_divide; [done|].
    rewrite Z.mod_mod_divide by (by exists (2 ^ 58)). replace (k * 64 + 64) with ((k + 1) * 64) by lia. by apply Z.mod_mul.
  - apply u64_range.
Qed.

(** What a batch leaves in the ring: its last 1024 lines. *)
Lemma submit_all_spec h c w cls :
  cp_in_batch_ h = true -> (64 | cp_tail_ h) -> 0 <= cp_tail_ h -> 0 <= cp_expected_seqnum_ h ->
  cp_tail_ h + 64 * Z.of_nat (length cls) < 2 ^ 64 -> cp_expected_seqnum_ h + Z.of_nat (length cls) < 2 ^ 64 ->
  cp_batch_target_ h = cp_expected_seqnum_ h -> Forall (fun cl => length cl = 64%nat) cls -> quiet w ->
  exists w', submit_all hooks_ env host_write h c w cls =
    Some (MkHost (cp_ring_ h) (cp_tail_ h + 64 * Z.of_nat (length cls)) (cp_expected_seqnum_ h + Z.of_nat (length cls)) true
      (cp_expected_seqnum_ h + Z.of_nat (length cls)), w') /\ quiet w' /\
    forall i cl, cls !! i = Some cl -> Z.of_nat (length cls) - 1024 <= Z.of_nat i ->
      rd w' (cp_ring_ h + slot_of (cp_tail_ h + 64 * Z.of_nat i)) 64 = cl.
Proof using HostLaws0.
  intros Hb Ha Hp Hs. revert Hb Ha Hp Hs. induction cls as [|cl cls IH] using rev_ind; intros Hb Ha Hp Hs Ht He Htg Hl Hw.
  { exists w. simpl. rewrite !Z.add_0_r. split_and!; [|done|done]. destruct h. simpl in *. by subst. }
  rewrite length_app in *. simpl length in *. apply Forall_app in Hl as [Hl Hcl]. inversion Hcl as [|? ? Hc _]; subst.
  destruct IH as (w1 & E & Q & R); try done; [lia|lia|].
  rewrite (submit_all_app _ _ _ _ _ _ _ E) by done. cbn [submit_all].
  assert ((64 | cp_tail_ h + 64 * Z.of_nat (length cls))) as Ha' by (apply Z.divide_add_r; [done|by apply Z.divide_factor_l]).
  rewrite append_ok by done. bind_simpl. cbn [cp_ring_ cp_tail_ cp_expected_seqnum_]. rewrite !u64_small by lia.
  eexists. split_and!; [do 3 f_equal; lia|by apply (hl_quiet (hooks_ := hooks_) (rd := rd))|].
  intros i cl' Hi Hr. apply lookup_app_Some in Hi as [Hi|[Hge Hi]].
  - rewrite (hl_other (hooks_ := hooks_) (quiet := quiet)); [apply R; [done|lia]|]. pose proof (lookup_lt_Some _ _ _ Hi).
    rewrite Hc. pose proof (slot_apart (cp_tail_ h) (Z.of_nat i) (Z.of_nat (length cls)) Ha ltac:(lia) ltac:(lia)). lia.
  - apply list_lookup_singleton_Some in Hi as [Hz ->]. replace i with (length cls) by lia.
    pose proof (hl_same (hooks_ := hooks_) (quiet := quiet) (rd := rd) w1 (cp_ring_ h + slot_of (cp_tail_ h + 64 * Z.of_nat (length cls))) cl') as S.
    by rewrite Hc in S.
Qed.
End Ring.

(** ** A batch from submission to completion *)

Section Batch.
Context `{VxConfig, CapsConfig} {W : Type} (hooks_ : Hooks W) (env : W -> W) (host_write : W -> Z -> list Z -> W).
Context (quiet : W -> Prop) (rd : W -> Z -> nat -> list Z) `{!HostLaws hooks_ host_write quiet rd} `{!DeviceLaws hooks_ env quiet}.

(** The host and the processor agree and nothing is pending. *)
Record in_sync (h : Host) (c : CommandProcessor) : Prop := {
  is_on : enabled c = true;
  is_idle : idle (eng c);
  is_unloaded : cl_loaded_ (fch c) = false;
  is_ring : ring_base (q0_ c) = cp_ring_ h;
  is_ring_lo : 0 <= cp_ring_ h;
  is_ring_hi : cp_ring_ h + CP_RING_SIZE <= 2 ^ 64;
  is_log2 : ring_log2 (q0_ c) = 16;
  is_tail : tail (q0_ c) = cp_tail_ h;
  is_head : head (q0_ c) = cp_tail_ h;
  is_seq : seqnum (q0_ c) = cp_expected_seqnum_ h;
  is_seq_lo : 0 <= cp_expected_seqnum_ h;
  is_tail_lo : 0 <= cp_tail_ h;
  is_aligned : (64 | cp_tail_ h)
}.

(** Commands that leave the ring's lines alone, one after the other. *)
Inductive exec_kept (satp : Z) (q : Queue) : list Cmd -> W * Z * Z -> W * Z * Z -> Prop :=
| ek_nil s : exec_kept satp q [] s s
| ek_cons cmd cmds w r seq w1 r1 s' :
    exec hooks_ env quiet satp cmd (w, r) (w1, r1) ->
    (forall pos, rd (complete hooks_ q (u64 (seq + 1)) w1) (ring_base q + slot_of pos) 64 = rd w (ring_base q + slot_of pos) 64) ->
    exec_kept satp q cmds (complete hooks_ q (u64 (seq + 1)) w1, r1, u64 (seq + 1)) s' ->
    exec_kept satp q (cmd :: cmds) (w, r, seq) s'.

Lemma ring_line_at q w pos :
  ring_log2 q = 16 -> 0 <= ring_base q -> ring_base q + CP_RING_SIZE <= 2 ^ 64 ->
  ring_line hooks_ q w pos = Some (rd w (ring_base q + slot_of pos) 64).
Proof using HostLaws0.
  intros El Hb0 Hb. unfold ring_line. rewrite (hl_read (HostLaws := HostLaws0)). bind_simpl. rewrite El.
  change (u64 (Z.shiftl 1 16 - 1)) with (CP_RING_SIZE - 1). rewrite ring_mask, u64_small; [done|].
  unfold slot_of. pose proof (Z.mod_pos_bound pos CP_RING_SIZE ltac:(done)). lia.
Qed.

Lemma kept_ring satp q cls cmds pos s t :
  ring_log2 q = 16 -> 0 <= ring_base q -> ring_base q + CP_RING_SIZE <= 2 ^ 64 ->
  Forall2 (fun cl cmd => line_cmds cl = [cmd]) cls cmds ->
  (forall i cl, cls !! i = Some cl -> rd (fst (fst s)) (ring_base q + slot_of (pos + 64 * Z.of_nat i)) 64 = cl) ->
  exec_kept satp q cmds s t -> exec_ring hooks_ env quiet satp q (length cls) pos s t.
Proof using HostLaws0.
  intros El Hb0 Hb F. revert pos s. induction F as [|cl cmd cls cmds Hc F IH]; intros pos s R E; inversion E; subst; clear E; [constructor|].
  pose proof (R 0%nat cl eq_refl) as R0. rewrite Z.mul_0_r, Z.add_0_r in R0. cbn [fst] in *.
  eapply er_line; [cbn [fst]; by rewrite ring_line_at, R0|rewrite Hc; eapply ea_cons; [eassumption|constructor]|].
  apply IH; [|done]. intros i cl' Hi. cbn [fst].
  replace (pos + CL_BYTES + 64 * Z.of_nat i) with (pos + 64 * Z.of_nat (S i)) by (unfold CL_BYTES; lia).
  match goal with X : forall pos, _ = _ |- _ => rewrite X end. by apply R.
Qed.

(** A burst stops when the processor is idle. *)
Lemma burst_cycles (P : CommandProcessor -> W -> Prop) n k c w wF cF :
  (forall c w, P c w -> busy c = true) ->
  cycles hooks_ env k c w = Some (wF, cF) -> until hooks_ env P k c w -> busy cF = false ->
  exists w1 c1, burst hooks_ env n c w = Some (w1, c1) /\ cycles hooks_ env (k - n) c1 w1 = Some (wF, cF) /\
    until hooks_ env P (k - n) c1 w1.
Proof.
  intros HP. revert k c w. induction n as [|n IH]; intros k c w E U B; simpl.
  - exists w, c. by rewrite Nat.sub_0_r.
  - destruct k as [|k]; simpl in *; [simplify_eq; rewrite B; by exists wF, cF|].
    destruct U as [U0 U]. rewrite (HP _ _ U0). destruct (tick hooks_ c w) as [[w1 c1]|]; simpl in *; [|done]. by apply IH.
Qed.

Lemma reg_read_seq c : mmio_read c CP_Q_SEQNUM = lo32 (seqnum (q0_ c)).
Proof. done. Qed.

Lemma lo32_small x : 0 <= x < 2 ^ 32 -> lo32 x = x.
Proof. intros. unfold lo32. change 0xFFFFFFFF with (Z.ones 32). rewrite Z.land_ones by lia. by apply Z.mod_small. Qed.

(** The poll returns, in the final state of the device, with the counter at
    the target and the processor about to be idle. *)
Record settled (target : Z) (fin : W * Z) (cF : CommandProcessor) (w : W) (c : CommandProcessor) : Prop := {
  se_world : w = fst fin;
  se_rsp : last_dcr_rsp_ c = snd fin;
  se_seq : target <= lo32 (seqnum (q0_ c));
  se_idle : exists m, cycles hooks_ env m c w = Some (fst fin, cF)
}.

Lemma poll_settles target fin cF : busy cF = false -> seqnum (q0_ cF) = target -> last_dcr_rsp_ cF = snd fin -> 0 <= target < 2 ^ 32 ->
  forall k c w, cycles hooks_ env k c w = Some (fst fin, cF) -> until hooks_ env (unfinished target fin) k c w ->
  exists fuel w' c', poll hooks_ env fuel c w target = Some (true, (w', c')) /\ settled target fin cF w' c'.
Proof.
  intros B Es Er Ht k. induction (lt_wf k) as [k _ IH]. intros c w E U.
  destruct (burst_cycles _ 256 k c w _ _ (fun c w X => proj1 X) E U B) as (w1 & c1 & Eb & E1 & U1).
  assert (forall fuel, poll hooks_ env (S fuel) c w target =
    if target <=? lo32 (seqnum (q0_ c1)) then Some (true, (w1, c1)) else poll hooks_ env fuel c1 w1 target) as Ep.
  { intros fuel. cbn [poll]. unfold cp_reg_read. rewrite Eb. done. }
  destruct (k - 256)%nat as [|k'] eqn:Ek.
  { simpl in E1. simplify_eq. exists 1%nat, (fst fin), cF. rewrite Ep, (lo32_small (seqnum _)), Z.leb_refl by lia.
    split; [done|]. constructor; try done; [rewrite lo32_small; lia|by exists 0%nat]. }
  destruct (Z.leb_spec target (lo32 (seqnum (q0_ c1)))) as [Hle|Hlt].
  - exists 1%nat, w1, c1. rewrite Ep. split; [done|]. destruct U1 as [[_ [U1|U1]] _].
    + rewrite lo32_small in Hle by lia. lia.
    + constructor; [by rewrite <- U1|by rewrite <- U1|done|by exists (S k')].
  - destruct (IH (S k') ltac:(lia) c1 w1 E1 U1) as (fuel & w' & c' & Ef & S'). exists (S fuel), w', c'. by rewrite Ep.
Qed.

(** The queue after the doorbell. *)
Definition with_tail (q : Queue) (t : Z) : Queue :=
  MkQueue (ring_base q) (head_addr q) (cmpl_addr q) (ring_log2 q) (control q) t (Z.land t 0xFFFFFFFF) (head q) (seqnum q) (error q).

Lemma tail_halves t : 0 <= t < 2 ^ 64 -> Z.lor (u64 (Z.shiftl (u32 (Z.shiftr t 32)) 32)) (Z.land t 0xFFFFFFFF) = t.
Proof.
  intros Ht. change 0xFFFFFFFF with (Z.ones 32). rewrite Z.land_ones, Z.shiftr_div_pow2 by lia.
  assert (0 <= t / 2 ^ 32 < 2 ^ 32) as Hd by (split; [apply Z.div_pos; lia|apply Z.div_lt_upper_bound; lia]).
  rewrite u32_small by done. rewrite u64_small by (rewrite Z.shiftl_mul_pow2; lia).
  rewrite lor_disjoint by (lia || (apply Z.mod_pos_bound; lia)). pose proof (Z.div_mod t (2 ^ 32)). lia.
Qed.

Lemma sync_not_busy h c : in_sync h c -> busy c = false.
Proof.
  intros []. unfold busy. destruct is_idle0 as [-> ->]. rewrite is_unloaded0, is_tail0, is_head0, Z.ltb_irrefl.
  rewrite !bool_decide_true by done. by rewrite andb_false_r.
Qed.

Lemma doorbell_eq h h1 c w :
  in_sync h c -> 0 <= cp_tail_ h1 < 2 ^ 64 ->
  doorbell hooks_ env h1 c w = burst hooks_ env 256 (set_q0 c (with_tail (q0_ c) (cp_tail_ h1))) w.
Proof.
  intros I Ht. set (c1 := mmio_write c CP_Q_TAIL_LO (Z.land (cp_tail_ h1) 0xFFFFFFFF)).
  assert (busy c1 = false) as B by (rewrite <- (sync_not_busy h c I); unfold c1, busy, enabled; cbn; by destruct (q0_ c)).
  assert (cp_reg_write hooks_ env c w CP_Q_TAIL_LO (Z.land (cp_tail_ h1) 0xFFFFFFFF) = Some (w, c1)) as E.
  { unfold cp_reg_write. fold c1. change 256%nat with (S 255). cbn [burst]. by rewrite B. }
  unfold doorbell. rewrite E. bind_simpl. unfold cp_reg_write. f_equal.
  unfold with_tail. rewrite <- (tail_halves (cp_tail_ h1) Ht) at 2. by destruct c as [ct sa cy [] rs en dr fe].
Qed.

Lemma kept_seq satp q cmds s t :
  exec_kept satp q cmds s t -> 0 <= snd s -> snd s + Z.of_nat (length cmds) < 2 ^ 64 -> snd t = snd s + Z.of_nat (length cmds).
Proof.
  induction 1 as [|cmd cmds w r sq w1 r1 s' _ _ _ IH]; cbn [snd length] in *; intros; [lia|]. rewrite u64_small in IH by lia.
  rewrite IH by lia. lia.
Qed.

Lemma kept_with_tail satp q tl cmds s t : exec_kept satp q cmds s t -> exec_kept satp (with_tail q tl) cmds s t.
Proof. induction 1; [constructor|by eapply ek_cons]. Qed.

(** The lines of a batch are in the ring and the tail is committed: the
    processor executes them. *)
Lemma batch_runs h c w cls cmds h1 w1 t :
  in_sync h c -> quiet w -> (length cls <= 1024)%nat -> Forall (fun cl => length cl = 64%nat) cls ->
  Forall2 (fun cl cmd => line_cmds cl = [cmd]) cls cmds ->
  cp_tail_ h + 64 * Z.of_nat (length cls) < 2 ^ 64 -> cp_expected_seqnum_ h + Z.of_nat (length cls) < 2 ^ 32 ->
  submit_all hooks_ env host_write (cp_batch_begin h) c w cls = Some (h1, w1) ->
  exec_kept (cp_satp_ c) (q0_ c) cmds (w1, last_dcr_rsp_ c, seqnum (q0_ c)) t ->
  snd t = cp_batch_target_ h1 /\ h1 = MkHost (cp_ring_ h) (cp_tail_ h + 64 * Z.of_nat (length cls)) (snd t) true (snd t) /\
  exists k cF, let c1 := set_q0 c (with_tail (q0_ c) (cp_tail_ h1)) in
    cycles hooks_ env k c1 w1 = Some (fst (fst t), cF) /\ until hooks_ env (unfinished (snd t) (fst t)) k c1 w1 /\
    busy cF = false /\ last_dcr_rsp_ cF = snd (fst t) /\ q0_ cF = q_at (q0_ c1) (cp_tail_ h1) (snd t) /\ quiet (fst (fst t)) /\
    enabled cF = true /\ idle (eng cF) /\ cl_loaded_ (fch cF) = false.
Proof using HostLaws0 DeviceLaws0.
  intros I Hw Hn Hl F Ht Hs Es Ek. pose proof (Forall2_length F) as Hlen.
  destruct (submit_all_spec hooks_ env host_write quiet rd (cp_batch_begin h) c w cls eq_refl (is_aligned _ _ I) (is_tail_lo _ _ I)
    (is_seq_lo _ _ I) Ht ltac:(simpl; lia) eq_refl Hl Hw) as (w2 & E2 & Q2 & R2).
  rewrite E2 in Es. injection Es as <- <-. cbn [cp_batch_begin cp_tail_ cp_ring_ cp_expected_seqnum_ cp_batch_target_] in *.
  pose proof (kept_seq _ _ _ _ _ Ek) as Et. cbn [snd] in Et. rewrite (is_seq _ _ I) in Et.
  pose proof (is_seq_lo _ _ I). pose proof (is_tail_lo _ _ I). specialize (Et ltac:(lia) ltac:(lia)). rewrite <- Hlen in Et.
  split; [done|]. split; [by rewrite Et|]. set (c1 := set_q0 c _).
  destruct (serves_ring hooks_ env quiet c1 w2 (length cls) t) as (k & cF & E & U & B & Eq & Er & Q & Hi & Hf & He & _); try apply I; try done.
  - cbn. rewrite (is_head _ _ I). lia.
  - cbn. rewrite (is_head _ _ I). unfold CL_BYTES. lia.
  - cbn. rewrite (is_seq _ _ I). lia.
  - cbn. rewrite (is_seq _ _ I). lia.
  - apply kept_ring with cmds; cbn; rewrite ?(is_ring _ _ I), ?(is_log2 _ _ I), ?(is_head _ _ I); try apply I; try done.
    + intros i cl Hi. apply R2; [done|]. lia.
    + by apply kept_with_tail.
  - exists k, cF. split_and!; done.
Qed.
End Batch.

Section Theorems.
Context `{VxConfig, CapsConfig} {W : Type} (hooks_ : Hooks W) (env : W -> W) (host_write : W -> Z -> list Z -> W).
Context (quiet : W -> Prop) (rd : W -> Z -> nat -> list Z) `{!HostLaws hooks_ host_write quiet rd} `{!DeviceLaws hooks_ env quiet}.

(** C8. A batch is executed.  Host and processor in agreement, and the lines
    of a batch appended after [cp_batch_begin]: [cp_batch_end] leaves its poll,
    in exactly the device state and with exactly the response that executing
    the commands once, in order, gives; the host is out of the batch, and when
    the processor has dropped the last line the two agree again, so that the
    next submission finds the state this one started from.  This is under the
    following conditions.  The batch has at most 1024 lines of 64 bytes with one
    command each; the sequence number stays below [2^32] and the tail below
    [2^64]; the commands have an execution (every kernel is seen busy after its
    start and drains, every event waited for has happened when its turn
    comes); and neither a command nor its completion writes the lines of the
    ring. *)
Theorem batch_executes h c w cls cmds h1 w1 t :
  in_sync h c -> quiet w -> (length cls <= 1024)%nat -> Forall (fun cl => length cl = 64%nat) cls ->
  Forall2 (fun cl cmd => line_cmds cl = [cmd]) cls cmds ->
  cp_tail_ h + 64 * Z.of_nat (length cls) < 2 ^ 64 -> cp_expected_seqnum_ h + Z.of_nat (length cls) < 2 ^ 32 ->
  submit_all hooks_ env host_write (cp_batch_begin h) c w cls = Some (h1, w1) ->
  exec_kept hooks_ env quiet rd (cp_satp_ c) (q0_ c) cmds (w1, last_dcr_rsp_ c, seqnum (q0_ c)) t ->
  exists fuel h2 c', cp_batch_end hooks_ env fuel h1 c w1 = Some (true, (h2, (fst (fst t), c'))) /\
    last_dcr_rsp_ c' = snd (fst t) /\ cp_in_batch_ h2 = false /\
    exists m cF, cycles hooks_ env m c' (fst (fst t)) = Some (fst (fst t), cF) /\ in_sync h2 cF.
Proof.
  intros I Hw Hn Hl F Ht Hs Es Ek.
  destruct (batch_runs hooks_ env host_write quiet rd h c w cls cmds h1 w1 t I Hw Hn Hl F Ht Hs Es Ek)
    as (Et & Eh & k & cF & E & U & B & Er & Eq & Q & He & Hi & Hf). pose proof (is_tail_lo _ _ I) as Htl.
  assert (snd t = cp_expected_seqnum_ h + Z.of_nat (length cls)) as Et'.
  { pose proof (is_seq_lo _ _ I). rewrite (Forall2_length F). rewrite <- (is_seq _ _ I).
    apply (kept_seq _ _ _ _ _ _ _ _ _ Ek); simpl; rewrite (is_seq _ _ I), <- ?(Forall2_length F); lia. }
  unfold cp_batch_end. cbv zeta. rewrite <- Et. set (h2 := MkHost _ _ _ false _).
  assert (0 <= cp_tail_ h1 < 2 ^ 64) as Ht1 by (rewrite Eh; simpl; lia).
  rewrite (doorbell_eq hooks_ env h h2 c w1 I Ht1). change (cp_tail_ h2) with (cp_tail_ h1).
  destruct (burst_cycles hooks_ env _ 256 k _ _ _ _ (fun c w X => proj1 X) E U B) as (w2 & c2 & -> & E2 & U2). bind_simpl.
  destruct (poll_settles hooks_ env (snd t) (fst t) cF B) with (k := (k - 256)%nat) (c := c2) (w := w2)
    as (fuel & w' & c' & Ep & [-> S2 _ [m S3]]); [by rewrite Eq|done|pose proof (is_seq_lo _ _ I); lia|done|done|].
  exists fuel, h2, c'. rewrite Ep. split_and!; try done. exists m, cF. split; [done|].
  unfold h2. rewrite Eh. constructor; simpl; rewrite ?Eq; try done; try apply I; simpl.
  - by rewrite Eh.
  - by rewrite Eh.
  - pose proof (is_seq_lo _ _ I). lia.
  - lia.
  - apply Z.divide_add_r; [apply I|apply Z.divide_factor_l].
Qed.

(** A batch longer than the ring overwrites its own beginning: after 1024
    lines the next one lands in the slot of the first, which the processor has
    not been told about yet, so the line it will fetch first is the last one
    submitted and the first command is never executed. *)
Theorem batch_overflow h c w cls first last_ :
  in_sync h c -> quiet w -> length cls = 1023%nat -> length first = 64%nat -> length last_ = 64%nat ->
  Forall (fun cl => length cl = 64%nat) cls ->
  cp_tail_ h + 64 * 1025 < 2 ^ 64 -> cp_expected_seqnum_ h + 1025 < 2 ^ 64 ->
  exists h1 w1, submit_all hooks_ env host_write (cp_batch_begin h) c w (first :: cls ++ [last_]) = Some (h1, w1) /\
    cp_tail_ h1 = cp_tail_ h + 64 * 1025 /\ ring_line hooks_ (q0_ c) w1 (head (q0_ c)) = Some last_.
Proof.
  intros I Hw Hn Hf Hl Hc Ht Hs. set (all := first :: cls ++ [last_]).
  assert (length all = 1025%nat) as Hall by (unfold all; simpl; rewrite length_app, Hn; done).
  destruct (submit_all_spec hooks_ env host_write quiet rd (cp_batch_begin h) c w all) as (w1 & E & _ & R); try apply I; try done.
  - rewrite Hall. exact Ht.
  - rewrite Hall. exact Hs.
  - constructor; [done|]. apply Forall_app. split; [done|by constructor].
  - eexists _, w1. split; [exact E|]. rewrite Hall. split; [done|].
    rewrite (ring_line_at hooks_ host_write quiet rd); rewrite ?(is_ring _ _ I); try apply I.
    f_equal. rewrite (is_head _ _ I). specialize (R 1024%nat last_). cbn [cp_batch_begin cp_ring_ cp_tail_] in R.
    replace (slot_of (cp_tail_ h)) with (slot_of (cp_tail_ h + 64 * Z.of_nat 1024)); [apply R|].
    + unfold all. simpl. rewrite lookup_app_r by lia. by rewrite Hn.
    + rewrite Hall. lia.
    + unfold slot_of. change (64 * Z.of_nat 1024) with (1 * CP_RING_SIZE). by apply Z.mod_add.
Qed.

(** The completion poll compares a 32-bit register with a 64-bit target:
    once the target has reached [2^32] no number of reads, from no state of
    the processor, makes it return. *)
Theorem poll_never_returns fuel c w target r :
  2 ^ 32 <= target -> poll hooks_ env fuel c w target = Some r -> fst r = false.
Proof.
  intros Ht. revert c w. induction fuel as [|fuel IH]; intros c w E; simpl in E; [by simplify_eq|].
  unfold cp_reg_read in E. destruct (burst _ _ _ _ _) as [[w1 c1]|]; [|done]. simpl in E.
  rewrite reg_read_seq in E. assert (lo32 (seqnum (q0_ c1)) < 2 ^ 32) as Hlo.
  { unfold lo32. change 0xFFFFFFFF with (Z.ones 32). rewrite Z.land_ones by lia. apply Z.mod_pos_bound. lia. }
  rewrite (proj2 (Z.leb_gt _ _)) in E by lia. by apply IH in E.
Qed.
End Theorems.

(** ** Instances *)

Lemma demo_read_write w a bs : demo_read (demo_write w a bs) a (length bs) = bs.
Proof.
  unfold demo_read, span. apply list_eq. intros i. rewrite !list_lookup_fmap. destruct (decide (i < length bs)%nat) as [Hi|Hi].
  - rewrite lookup_seq_lt by done. cbn [fmap option_fmap option_map plus demo_write d_mem].
    rewrite (proj2 (Z.leb_le _ _)), (proj2 (Z.ltb_lt _ _)) by lia. cbn [andb].
    replace (Z.to_nat (a + Z.of_nat i - a)) with i by lia. symmetry. by apply list_lookup_lookup_total_lt.
  - rewrite lookup_seq_ge by lia. by rewrite lookup_ge_None_2 by lia.
Qed.

Lemma demo_read_other w a bs b n :
  a + Z.of_nat (length bs) <= b \/ b + Z.of_nat n <= a -> demo_read (demo_write w a bs) b n = demo_read w b n.
Proof.
  intros Hd. unfold demo_read. apply list_fmap_ext. intros i x Hx%list_elem_of_lookup_2. apply elem_of_span in Hx. simpl.
  destruct (Z.leb_spec a x), (Z.ltb_spec x (a + Z.of_nat (length bs))); simpl; (done || lia).
Qed.

#[global] Instance demo_host_laws n : HostLaws (demo_hooks n) demo_write demo_quiet demo_read.
Proof. split; [done|apply demo_read_write|apply demo_read_other|done]. Defined.

Definition demo_host : Host := MkHost 0x1000 0 0 false 0.

Definition demo_idle : CommandProcessor :=
  MkCP 1 0 0 (MkQueue 0x1000 0 0 16 1 0 0 0 0 0) 0 (eng CommandProcessor_new) (drw CommandProcessor_new) (fch CommandProcessor_new).

Lemma demo_sync : let _ := default_config in let _ := demo_caps in in_sync demo_host demo_idle.
Proof. intros cfg caps. constructor; try reflexivity; simpl; try lia; [done|done|by exists 0]. Defined.

Lemma batch_executes_witness : let _ := default_config in let _ := demo_caps in
  exists h1 w1 fuel h2 c',
    submit_all (demo_hooks 3) demo_env demo_write (cp_batch_begin demo_host) demo_idle demo_start [cl_dcr_write 0x10 7; cl_launch] = Some (h1, w1) /\
    cp_batch_end (demo_hooks 3) demo_env fuel h1 demo_idle w1 = Some (true, (h2, (MkDemo (d_mem w1) [(0x10, 7)] 0, c'))) /\
    cp_in_batch_ h2 = false.
Proof.
  intros cfg caps. set (w1 := demo_write (demo_write demo_start 0x1000 (cl_dcr_write 0x10 7)) 0x1040 cl_launch).
  exists (MkHost 0x1000 128 2 true 2), w1.
  destruct (batch_executes (demo_hooks 3) demo_env demo_write demo_quiet demo_read demo_host demo_idle demo_start
    [cl_dcr_write 0x10 7; cl_launch] [MkCmd OP_DCR_WRITE 0 0 0x10 7 0; MkCmd OP_LAUNCH 0 0 0 0 0] (MkHost 0x1000 128 2 true 2) w1
    (MkDemo (d_mem w1) [(0x10, 7)] 0, 0, 2)
    demo_sync eq_refl ltac:(simpl; lia) ltac:(repeat constructor)) as (fuel & h2 & c' & E & _ & E2 & _);
    [| | |reflexivity| |exists fuel, h2, c'; split_and!; [reflexivity|exact E|exact E2]].
  - repeat constructor.
  - simpl. lia.
  - simpl. lia.
  - eapply ek_cons; [eapply ex_inline; [reflexivity|vm_compute; set_solver|by apply in_dcr_write]|done|].
    eapply ek_cons; [|done|apply ek_nil].
    eapply ex_inline; [reflexivity|vm_compute; set_solver|]. eapply in_launch; [reflexivity|reflexivity|by apply demo_kernel].
Defined.

Lemma batch_overflow_witness : let _ := default_config in let _ := demo_caps in
  exists h1 w1, submit_all (demo_hooks 3) demo_env demo_write (cp_batch_begin demo_host) demo_idle demo_start
      (cl_dcr_write 0x10 7 :: replicate 1023 cl_launch ++ [cl_dcr_write 0x11 8]) = Some (h1, w1) /\
    ring_line (demo_hooks 3) (q0_ demo_idle) w1 0 = Some (cl_dcr_write 0x11 8).
Proof.
  intros cfg caps.
  destruct (batch_overflow (demo_hooks 3) demo_env demo_write demo_quiet demo_read demo_host demo_idle demo_start
    (replicate 1023 cl_launch) (cl_dcr_write 0x10 7) (cl_dcr_write 0x11 8) demo_sync eq_refl) as (h1 & w1 & E & _ & R).
  - apply length_replicate.
  - reflexivity.
  - reflexivity.
  - apply Forall_replicate. reflexivity.
  - simpl. lia.
  - simpl. lia.
  - exists h1, w1. split; [exact E|exact R].
Defined.

Lemma poll_never_returns_witness : let _ := default_config in let _ := demo_caps in
  exists r, poll (demo_hooks 3) demo_env 10 demo_idle demo_start (2 ^ 32) = Some r /\ fst r = false.
Proof.
  intros cfg caps. eexists. split; [vm_compute; reflexivity|].
  refine (poll_never_returns (demo_hooks 3) demo_env 10 demo_idle demo_start (2 ^ 32) _ _ _); [lia|vm_compute; reflexivity].
Defined.
