(* ===== verification/Draw.v ===== *)
(** * Draw bundles (sw/runtime/common/queue.cpp, sim/common/cmd_processor.cpp)

    [Queue::enqueue_draw] submits a sequence of launches and register writes
    either as a batch of ring commands or, when the command processor decodes
    it, as one draw command whose descriptor holds the sequence.  This file
    models both encodings and relates what the processor executes for them.
    The launches are staged: a record carries the address of its launch
    descriptor ([cmd_stage_qmds]).  The check of the pinned slab in
    [cp_submit_dcr_write] is off, as it is without virtual memory. *)

From S2P Require Import Prelude Bitmanip PageTable CmdProc CpHost.

(** ** The host's encodings *)

Definition CP_DRAW_STEP_BYTES : Z := 28.

Inductive CmdRec :=
  | RecLaunch (qmd_addr : Z)
  | RecDcr (dcr_addr dcr_value : Z).

(** [put_step] *)
Definition put_step (op a0 a1 : Z) : list Z := [op; 0; 0; 0] ++ le_bytes 8 a0 ++ le_bytes 8 a1 ++ replicate 8 0.

Definition rec_steps (num_cores : Z) (r : CmdRec) : list (list Z) :=
  match r with
  | RecLaunch qmd => [put_step OP_LAUNCH_QMD qmd 0; put_step OP_CACHE_FLUSH num_cores 0]
  | RecDcr a v => [put_step OP_DCR_WRITE a v]
  end.

(** The resident descriptor. *)
Definition draw_desc (num_cores : Z) (recs : list CmdRec) : list Z :=
  let steps := recs ≫= rec_steps num_cores in
  le_bytes 4 (u32 (Z.of_nat (length steps))) ++ concat steps.

(** The fallback: the lines of the ring batch, a launch being
    [cp_submit_launch_qmd]. *)
Definition batch_lines (num_cores : Z) (recs : list CmdRec) : list (list Z) :=
  recs ≫= fun r =>
    match r with
    | RecLaunch qmd => [cl_launch_qmd qmd; cl_cache_flush num_cores]
    | RecDcr a v => [cl_dcr_write a v]
    end.

(** ** The commands *)

Definition rec_cmds (num_cores : Z) (r : CmdRec) : list Cmd :=
  match r with
  | RecLaunch qmd => [MkCmd OP_LAUNCH_QMD 0 0 qmd 0 0; MkCmd OP_CACHE_FLUSH 0 0 num_cores 0 0]
  | RecDcr a v => [MkCmd OP_DCR_WRITE 0 0 a v 0]
  end.

Definition rec_ok (r : CmdRec) : Prop :=
  match r with
  | RecLaunch qmd => 0 <= qmd < 2 ^ 64
  | RecDcr a v => 0 <= a < 2 ^ 32 /\ 0 <= v < 2 ^ 32
  end.

Section Draw.
Context `{VxConfig, CapsConfig} {W : Type} (hooks_ : Hooks W) (env : W -> W) (quiet : W -> Prop).

(** Commands one after the other. *)
Inductive inline_all (satp : Z) : list Cmd -> W * Z -> W * Z -> Prop :=
| ia_nil s : inline_all satp [] s s
| ia_cons cmd cmds s s1 s' : inline hooks_ env quiet satp cmd s s1 -> inline_all satp cmds s1 s' -> inline_all satp (cmd :: cmds) s s'.

(** The descriptor is in the device's memory at [phys]. *)
Definition resident (phys : Z) (desc : list Z) (w : W) : Prop :=
  exists rd, dram_read hooks_ = Some rd /\
    forall off n, (off + n <= length desc)%nat -> rd w (u64 (phys + Z.of_nat off)) n = take n (drop off desc).

Lemma step_length op a0 a1 : length (put_step op a0 a1) = 28%nat.
Proof. done. Qed.

Lemma step_decodes op a0 a1 : 0 <= a0 < 2 ^ 64 -> 0 <= a1 < 2 ^ 64 ->
  snd (decode_cmd_bytes (put_step op a0 a1) DRAW_STEP_BYTES 0) = MkCmd op 0 0 a0 a1 0.
Proof.
  intros Ha Hb. unfold decode_cmd_bytes. cbn [snd].
  assert (forall k o v, [a0; a1; 0] !! k = Some v -> o = 4 + 8 * Z.of_nat k -> rd64 (put_step op a0 a1) DRAW_STEP_BYTES o = v mod 2 ^ 64) as R.
  { intros k o v Hk ->. apply rd64_le. intros i Hi. assert (i ∈ range 8) as Hin by (by apply elem_of_range).
    clear Hi. revert Hin. change (range 8) with [0; 1; 2; 3; 4; 5; 6; 7].
    destruct k as [|[|[|k]]]; simplify_eq/=; intros Hin;
      repeat (apply list.elem_of_cons in Hin as [-> |Hin]; [reflexivity|]); by apply elem_of_nil in Hin. }
  rewrite (R 0%nat (0 + 4) a0), (R 1%nat (0 + 12) a1), (R 2%nat (0 + 20) 0) by done. rewrite !Z.mod_small by lia. done.
Qed.

(** Steps and commands correspond. *)
Definition step_cmd (bs : list Z) : Cmd := snd (decode_cmd_bytes bs DRAW_STEP_BYTES 0).

Lemma steps_cmds cores recs : 0 <= cores < 2 ^ 64 -> Forall rec_ok recs ->
  step_cmd <$> (recs ≫= rec_steps cores) = recs ≫= rec_cmds cores.
Proof.
  intros Hc. induction 1 as [|r recs Hr _ IH]; [done|]. rewrite !bind_cons, fmap_app, IH. f_equal. unfold step_cmd.
  destruct r as [qmd|a v]; cbn [rec_steps rec_cmds fmap list_fmap]; rewrite !step_decodes by (simpl in Hr; lia); done.
Qed.

Lemma steps_length cores recs : Forall (fun bs => length bs = 28%nat) (recs ≫= rec_steps cores).
Proof. induction recs as [|[] recs IH]; rewrite ?bind_cons; repeat constructor; done. Qed.

Lemma concat_slice (l : list (list Z)) n i bs rest : Forall (fun bs => length bs = n) l -> l !! i = Some bs ->
  take n (drop (n * i) (concat l ++ rest)) = bs.
Proof.
  intros Hl. revert i. induction Hl as [|b l Hb _ IH]; intros i; [done|]. destruct i as [|i]; cbn [lookup list_lookup concat].
  - intros [= ->]. rewrite Nat.mul_0_r, drop_0, <- app_assoc. by rewrite take_app_length' by done.
  - intros Hi. rewrite <- app_assoc. replace (n * S i)%nat with (length b + n * i)%nat by lia. rewrite <- drop_drop, drop_app_length. by apply IH.
Qed.

Lemma concat_length (l : list (list Z)) n : Forall (fun bs => length bs = n) l -> length (concat l) = (n * length l)%nat.
Proof. induction 1 as [|b l Hb _ IH]; simpl; [lia|]. rewrite length_app, IH. lia. Qed.

Section Resident.
Variables (satp phys cores : Z) (recs : list CmdRec).
Hypothesis (Hcores : 0 <= cores < 2 ^ 64) (Hrecs : Forall rec_ok recs) (Hphys : 0 <= phys).

Let cmds := recs ≫= rec_cmds cores.
Let desc := draw_desc cores recs.
Hypothesis Hend : phys + Z.of_nat (length desc) <= 2 ^ 64.

Lemma cmds_steps : length cmds = length (recs ≫= rec_steps cores).
Proof using Hcores Hrecs. unfold cmds. rewrite <- steps_cmds by done. apply length_fmap. Qed.

Lemma desc_length : length desc = (4 + 28 * length cmds)%nat.
Proof using Hcores Hrecs.
  unfold desc, draw_desc. rewrite length_app, length_le_bytes, (concat_length _ 28) by apply steps_length. by rewrite cmds_steps.
Qed.

(** What [draw_begin] sets up. *)
Lemma resident_begin c w cmd : resident phys desc w -> Z.of_nat (length cmds) < 2 ^ 32 -> cp_xlate hooks_ c w (arg0 cmd) false = Some phys ->
  exists c1, draw_begin hooks_ c w cmd = Some c1 /\ draw_phys_ (drw c1) = phys /\ draw_num_steps_ (drw c1) = Z.of_nat (length (take 256 cmds)).
Proof using Hcores Hrecs Hphys Hend.
  intros (rd & Erd & Hrd) Hn Ex. unfold draw_begin. rewrite Ex. bind_simpl. eexists. split; [done|]. split; [done|]. simpl. unfold read_le. rewrite Erd.
  pose proof desc_length as Hd. specialize (Hrd 0%nat 4%nat ltac:(lia)). change (Z.of_nat 0) with 0 in Hrd.
  rewrite Z.add_0_r, u64_small in Hrd by lia. rewrite Hrd, drop_0. unfold desc, draw_desc. rewrite take_app_length' by (by rewrite length_le_bytes).
  rewrite <- cmds_steps, le_bytes_val. unfold u32. change (8 * Z.of_nat 4) with 32. rewrite Z.mod_mod, Z.mod_small by lia. rewrite length_take. unfold MAX_DRAW_STEPS.
  destruct (Z.ltb_spec 256 (Z.of_nat (length cmds))); lia.
Qed.

Lemma resident_cmd w i cmd : resident phys desc w -> cmds !! i = Some cmd -> draw_cmd hooks_ w phys (Z.of_nat i) = cmd.
Proof using Hcores Hrecs Hphys Hend.
  intros (rd & Erd & Hrd) Hi. pose proof (lookup_lt_Some _ _ _ Hi) as Hlt. unfold draw_cmd, draw_load_step_. rewrite Erd. cbn [drw set_drw draw_cmd_ draw_phys_ draw_step_].
  unfold cmds in Hi. rewrite <- steps_cmds, list_lookup_fmap in Hi by done.
  destruct ((recs ≫= rec_steps cores) !! i) as [bs|] eqn:Eb; [|done]. injection Hi as <-. unfold step_cmd. do 2 f_equal.
  change DRAW_STEP_BYTES with 28. change (Z.to_nat 28) with 28%nat. pose proof desc_length as Hd.
  replace (phys + 4 + Z.of_nat i * 28) with (phys + Z.of_nat (4 + 28 * i)) by lia. rewrite Hrd by lia.
  unfold desc, draw_desc. rewrite <- drop_drop, drop_app_length' by (by rewrite length_le_bytes).
  rewrite <- (app_nil_r (concat _)). apply concat_slice; [apply steps_length|done].
Qed.

(** The walk of the descriptor from its [i]-th command. *)
Lemma draw_walk_inline l i s s' :
  (forall cmd s s', cmd ∈ cmds -> resident phys desc (fst s) -> inline hooks_ env quiet satp cmd s s' -> resident phys desc (fst s')) ->
  resident phys desc (fst s) -> (forall j, l !! j = cmds !! (i + j)%nat \/ l !! j = None) ->
  draw hooks_ env quiet satp phys (Z.of_nat (i + length l)) (Z.of_nat i) s s' <-> inline_all satp l s s'.
Proof using Hcores Hrecs Hphys Hend.
  intros Hk. revert i s. induction l as [|cmd l IH]; intros i s R Hl.
  - rewrite Nat.add_0_r. split; [inversion 1; subst; [constructor|lia]|]. inversion 1; subst. by apply dr_done.
  - assert (cmds !! i = Some cmd) as Hi by (destruct (Hl 0%nat) as [E|E]; [by rewrite Nat.add_0_r in E|done]).
    assert (forall j, l !! j = cmds !! (S i + j)%nat \/ l !! j = None) as Hl'.
    { intros j. destruct (Hl (S j)) as [E|E]; [left|by right]. by replace (S i + j)%nat with (i + S j)%nat by lia. }
    assert (cmd ∈ cmds) as Hin by by eapply list_elem_of_lookup_2.
    replace (i + length (cmd :: l))%nat with (S i + length l)%nat by (simpl; lia). split; intros D.
    + inversion D as [|? ? s1 ? Hlt St Dr]; subst; [lia|]. rewrite (resident_cmd _ i cmd R Hi) in St.
      apply (ia_cons _ _ _ _ s1); [done|]. apply (IH (S i) s1); [by eapply Hk|done|]. by rewrite Nat2Z.inj_succ, <- Z.add_1_r.
    + inversion D as [|? ? ? s1 ? St Dr]; subst. apply (dr_step _ _ _ _ _ _ _ _ s1); [lia|by rewrite (resident_cmd _ i cmd R Hi)|].
      replace (Z.of_nat i + 1) with (Z.of_nat (S i)) by lia. apply (IH (S i) s1); [by eapply Hk|done|done].
Qed.
End Resident.

(** The lines of the batch hold one command each. *)
Lemma batch_cmds cores recs : 0 <= cores < 2 ^ 64 -> Forall rec_ok recs ->
  concat (line_cmds <$> batch_lines cores recs) = recs ≫= rec_cmds cores.
Proof.
  intros Hc Hr. unfold batch_lines. induction Hr as [|x recs Hx _ IH]; [done|].
  rewrite !bind_cons, fmap_app, concat_app, IH. f_equal. destruct x as [qmd|a v]; simpl in Hx; cbn [fmap list_fmap concat rec_cmds].
  - change (cl_launch_qmd qmd) with (line OP_LAUNCH_QMD 0 [qmd; 0; 0]). change (cl_cache_flush cores) with (line OP_CACHE_FLUSH 0 [cores; 0; 0]).
    rewrite !line_one by (reflexivity || lia). done.
  - unfold cl_dcr_write. rewrite line32_line by (lia || (unfold OP_DCR_WRITE; lia)). rewrite line_one by (reflexivity || lia). done.
Qed.

(** C24. A draw command executes what the ring batch would, up to its first
    256 commands.  Let the descriptor the host wrote be resident at the
    address the command names, and let the commands in the lines of the ring
    batch (the register writes, and the launches each followed by its cache
    flush) have an execution, one after the other, of their first 256.  Then
    the processor that has decoded the draw command brings the device and
    its response register, after finitely many cycles, exactly to the end
    of that execution and retires the draw: it runs every step of the
    descriptor once and in order, each launched kernel to its end, and no
    step past the 256th.  The host places no bound on the bundle, and the
    rest is dropped without an error.  The bundle has less than [2^32]
    commands, its registers and values are 32 bits wide, every kernel is seen
    busy after its start, and no command of the bundle overwrites the
    descriptor. *)
Theorem draw_equals_batch `{!DeviceLaws hooks_ env quiet} c w cmd phys cores recs w' r' :
  enabled c = true -> 0 <= seqnum (q0_ c) -> quiet w -> eng c = MkEngine EDecode LIdle cmd false false ->
  opcode cmd = OP_DRAW -> cp_xlate hooks_ c w (arg0 cmd) false = Some phys -> 0 <= phys ->
  0 <= cores < 2 ^ 64 -> Forall rec_ok recs ->
  phys + Z.of_nat (length (draw_desc cores recs)) <= 2 ^ 64 -> Z.of_nat (length (recs ≫= rec_cmds cores)) < 2 ^ 32 ->
  resident phys (draw_desc cores recs) w ->
  (forall cmd s s', cmd ∈ recs ≫= rec_cmds cores -> resident phys (draw_desc cores recs) (fst s) ->
    inline hooks_ env quiet (cp_satp_ c) cmd s s' -> resident phys (draw_desc cores recs) (fst s')) ->
  inline_all (cp_satp_ c) (take 256 (concat (line_cmds <$> batch_lines cores recs))) (w, last_dcr_rsp_ c) (w', r') ->
  exists k c', cycles hooks_ env k c w = Some (w', c') /\ last_dcr_rsp_ c' = r' /\
    eng_state_ (eng c') = ERetire /\ launch_state_ (eng c') = LIdle /\ cur_cmd_ (eng c') = cmd /\ q0_ c' = q0_ c /\ fch c' = fch c /\ quiet w'.
Proof.
  intros He Hs Hw Ee Ho Ex Hp Hc Hr Hend Hn R Hk Ha. rewrite (batch_cmds _ _ Hc Hr) in Ha.
  assert (exec hooks_ env quiet (cp_satp_ c) cmd (w, last_dcr_rsp_ c) (w', r')) as E.
  { destruct (resident_begin phys cores recs Hc Hr Hp Hend (at_satp (cp_satp_ c)) w cmd R Hn Ex) as (c1 & Eb & E1 & E2).
    apply (ex_draw _ _ _ _ _ _ _ _ c1 Ho Eb). rewrite E1, E2.
    apply (draw_walk_inline (cp_satp_ c) phys cores recs Hc Hr Hp Hend (take 256 (recs ≫= rec_cmds cores)) 0); [done|done| |done].
    intros j. destruct (decide (j < 256)%nat); [left; by rewrite lookup_take_lt|right; by rewrite lookup_take_ge by lia]. }
  assert (eng c = MkEngine EDecode LIdle cmd (is_launch (opcode cmd)) ((opcode cmd =? OP_NOP) || (opcode cmd =? OP_FENCE))) as Ee'
    by (by rewrite Ho).
  destruct (command_cycles hooks_ env quiet c w cmd w' r' He Hs Hw Ee' E) as (k & c' & Ek & S1 & S2 & S3 & S4 & S5 & S6 & S7). eauto 12.
Qed.
End Draw.

(** ** A launch and 300 register writes, on the device of the command
    processor's example: the last 46 writes are cut. *)
Definition demo_qmd : list Z := le_bytes 4 1 ++ le_bytes 4 20 ++ le_bytes 4 9.
Definition demo_bundle : list CmdRec := RecLaunch 0x8000 :: replicate 300 (RecDcr 16 7).
Definition demo_desc : list Z := draw_desc 1 demo_bundle.
Definition demo_resident : demo := demo_write (demo_write demo_start 0x8000 demo_qmd) 0x2000 demo_desc.
Definition demo_drawer : CommandProcessor := set_eng demo_cp (MkEngine EDecode LIdle (MkCmd OP_DRAW 0 0 0x2000 0 0) false false).

Definition demo_put : Cmd := MkCmd OP_DCR_WRITE 0 0 16 7 0.
Definition demo_cmds : list Cmd := MkCmd OP_LAUNCH_QMD 0 0 0x8000 0 0 :: MkCmd OP_CACHE_FLUSH 0 0 1 0 0 :: replicate 300 demo_put.

Lemma demo_bundle_ok : Forall rec_ok demo_bundle.
Proof. constructor; [simpl; lia|]. apply Forall_replicate. simpl. lia. Qed.

Lemma demo_desc_length : length demo_desc = (4 + 28 * 302)%nat.
Proof. apply (desc_length 1 demo_bundle); [lia|apply demo_bundle_ok]. Qed.

Lemma demo_resident_ok w : d_mem w = d_mem demo_resident -> resident (demo_hooks 3) 0x2000 demo_desc w.
Proof.
  intros Ew. exists demo_read. split; [done|]. intros off n Hn. pose proof demo_desc_length as Hd.
  rewrite u64_small by lia. unfold demo_read. rewrite Ew. apply list_eq. intros i. unfold span. rewrite !list_lookup_fmap.
  destruct (decide (i < n)%nat).
  - rewrite lookup_seq_lt, lookup_take_lt, lookup_drop by done. cbn [fmap option_fmap option_map]. rewrite Nat.add_0_l.
    destruct (lookup_lt_is_Some_2 demo_desc (off + i)) as [b Eb]; [lia|]. rewrite Eb. f_equal.
    unfold demo_resident. set (w0 := demo_write demo_start 0x8000 demo_qmd). unfold demo_write. cbn [d_mem].
    rewrite (proj2 (Z.leb_le _ _)), (proj2 (Z.ltb_lt _ _)) by lia. cbn [andb].
    replace (Z.to_nat _) with (off + i)%nat by lia. by rewrite (list_lookup_total_correct _ _ _ Eb).
  - rewrite lookup_seq_ge, lookup_take_ge by lia. done.
Qed.

(** Nothing of the bundle touches the memory. *)
Lemma demo_qmd_keeps n w a :
  d_mem (qmd_loop n demo_read (fun w a v => MkDemo (d_mem w) (d_log w ++ [(a, v)]) (d_timer w)) w a) = d_mem w.
Proof. revert w a. induction n as [|n IH]; intros w a; cbn [qmd_loop]; [done|]. by rewrite IH. Qed.

Lemma demo_keeps cmd s s' : let _ := default_config in let _ := demo_caps in
  inline (demo_hooks 3) demo_env demo_quiet 0 cmd s s' -> d_mem (fst s') = d_mem (fst s).
Proof.
  intros cfg caps St. destruct St as [w w1 w' r _ Es (f & k1 & k2 & _ & _ & _ & _ & _ & -> & _)| |w r f _ [= <-]| |]; simpl; try done.
  - assert (forall k w, d_mem (Nat.iter k demo_env w) = d_mem w) as Hi by (intros k; induction k as [|k IH]; intros w0; [reflexivity|]; simpl; apply IH).
    unfold after_start. rewrite Hi. simpl. unfold launch_setup, apply_qmd_ in Es. destruct (_ =? _); [|by simplify_eq].
    cbn [demo_hooks dram_read vortex_dcr_write] in Es. unfold cp_xlate in Es. simpl VM_ENABLE in Es. bind_simpl. injection Es as <-.
    apply demo_qmd_keeps.
  - unfold cache_flush_. cbn [demo_hooks vortex_dcr_read]. generalize (range (Z.land (arg0 cmd) 0xFFFFFFFF)). intros l. revert w.
    induction l as [|x l IH]; intros w; simpl; [done|]. apply IH.
Qed.

Lemma demo_puts n m l r : let _ := default_config in let _ := demo_caps in
  inline_all (demo_hooks 3) demo_env demo_quiet 0 (replicate n demo_put) (MkDemo m l 0, r) (MkDemo m (l ++ replicate n (16, 7)) 0, r).
Proof.
  intros cfg caps. revert l. induction n as [|n IH]; intros l; simpl; [rewrite app_nil_r; constructor|].
  eapply ia_cons; [by apply in_dcr_write|]. specialize (IH (l ++ [(16, 7)])). by rewrite <- app_assoc in IH.
Qed.

(** The launch descriptor is past the draw's. *)
Lemma demo_qmd_read w a n : d_mem w = d_mem demo_resident -> 0x8000 <= a -> demo_read w a n = demo_read (demo_write demo_start 0x8000 demo_qmd) a n.
Proof.
  intros Ew Ha. unfold demo_read. rewrite Ew. apply list_fmap_ext. intros i x Hx. unfold demo_resident.
  set (w0 := demo_write demo_start 0x8000 demo_qmd). unfold demo_write. cbn [d_mem].
  assert (a <= x). { unfold span in Hx. rewrite list_lookup_fmap in Hx. destruct (seq 0 n !! i); simpl in Hx; [|done]. injection Hx as <-. lia. }
  rewrite (proj2 (Z.ltb_ge x (0x2000 + Z.of_nat (length demo_desc)))) by (rewrite demo_desc_length; lia). by rewrite andb_false_r.
Qed.

Lemma demo_setup w : let _ := default_config in let _ := demo_caps in
  d_mem w = d_mem demo_resident ->
  launch_setup (demo_hooks 3) 0 w (MkCmd OP_LAUNCH_QMD 0 0 0x8000 0 0) = Some (MkDemo (d_mem w) (d_log w ++ [(20, 9)]) (d_timer w)).
Proof.
  intros cfg caps Ew. unfold launch_setup, apply_qmd_, cp_xlate. cbn [opcode arg0 demo_hooks dram_read vortex_dcr_write].
  change (OP_LAUNCH_QMD =? OP_LAUNCH_QMD) with true. cbv iota. simpl VM_ENABLE. cbv iota. bind_simpl.
  rewrite (demo_qmd_read w 0x8000 4 Ew) by lia. change (le_val _) with 1. change (Z.to_nat _) with 1%nat. cbn [qmd_loop].
  change (u64 (0x8000 + 4)) with 0x8004. rewrite (demo_qmd_read w 0x8004 8 Ew) by lia. reflexivity.
Qed.

Lemma draw_equals_batch_witness : let _ := default_config in let _ := demo_caps in
  exists k c', cycles (demo_hooks 3) demo_env k demo_drawer demo_resident =
      Some (MkDemo (d_mem demo_resident) ((20, 9) :: replicate 254 (16, 7)) 0, c') /\ eng_state_ (eng c') = ERetire.
Proof.
  intros cfg caps. assert (demo_bundle ≫= rec_cmds 1 = demo_cmds) as Ec by reflexivity.
  destruct (draw_equals_batch (demo_hooks 3) demo_env demo_quiet demo_drawer demo_resident (MkCmd OP_DRAW 0 0 0x2000 0 0) 0x2000 1 demo_bundle
    (MkDemo (d_mem demo_resident) ((20, 9) :: replicate 254 (16, 7)) 0) 0) as (k & c' & E & _ & S & _).
  - reflexivity.
  - simpl. lia.
  - reflexivity.
  - reflexivity.
  - reflexivity.
  - reflexivity.
  - lia.
  - lia.
  - apply demo_bundle_ok.
  - fold demo_desc. rewrite demo_desc_length. lia.
  - rewrite Ec. change (length demo_cmds) with 302%nat. lia.
  - by apply demo_resident_ok.
  - intros cmd s s' _ (rd & Erd & R) St. apply demo_keeps in St as Em. exists rd. split; [done|]. injection Erd as <-.
    intros off n Hn. rewrite <- (R off n Hn). unfold demo_read. by rewrite Em.
  - rewrite batch_cmds by (lia || apply demo_bundle_ok). rewrite Ec.
    change (take 256 demo_cmds) with (MkCmd OP_LAUNCH_QMD 0 0 0x8000 0 0 :: MkCmd OP_CACHE_FLUSH 0 0 1 0 0 :: replicate 254 demo_put).
    eapply (ia_cons _ _ _ _ _ _ _ (MkDemo (d_mem demo_resident) [(20, 9)] 0, 0)); [|eapply ia_cons; [by apply in_flush|apply (demo_puts 254 _ [(20, 9)])]].
    eapply in_launch; [reflexivity|apply (demo_setup demo_resident eq_refl)|by apply demo_kernel].
  - eauto.
Defined.
