(* ===== verification/Caps.v ===== *)
(** * Capability words

    [sw/runtime/common/caps.h]: how the runtime reads the two capability words
    from the command processor's register file ([load_caps]) and takes them
    apart ([decode_caps]).  The words themselves and the register file are in
    [CmdProc].  The theorem is the round trip through the registers, with the
    ranges of the configuration that fit the fields; the last one shows what a
    configuration outside them reports. *)

From S2P Require Import Prelude Bitmanip PageTable CmdProc.

Inductive caps_id :=
| VX_CAPS_VERSION | VX_CAPS_NUM_THREADS | VX_CAPS_NUM_WARPS | VX_CAPS_NUM_CORES | VX_CAPS_SOCKET_SIZE | VX_CAPS_NUM_CLUSTERS
| VX_CAPS_ISSUE_WIDTH | VX_CAPS_LOCAL_MEM_SIZE | VX_CAPS_ISA_FLAGS | VX_CAPS_NUM_MEM_BANKS | VX_CAPS_MEM_BANK_SIZE
| VX_CAPS_other.

Definition decode_caps (dev_caps isa_caps : Z) (id : caps_id) : option Z :=
  let field sh mask := Z.land (Z.shiftr dev_caps sh) mask in
  match id with
  | VX_CAPS_VERSION => Some (field 0 0xff)
  | VX_CAPS_NUM_THREADS => Some (u64 (Z.shiftl 1 (field 8 0x7)))
  | VX_CAPS_NUM_WARPS => Some (u64 (Z.shiftl 1 (field 11 0x7)))
  | VX_CAPS_NUM_CORES =>
      let socket_size := u32 (Z.shiftl 1 (field 14 0x7)) in
      let cluster_size := u32 (Z.shiftl 1 (field 17 0x7)) in
      let num_clusters := u32 (Z.shiftl 1 (field 20 0x7)) in
      Some (u64 (u64 (num_clusters * cluster_size) * socket_size))
  | VX_CAPS_SOCKET_SIZE => Some (u64 (Z.shiftl 1 (field 14 0x7)))
  | VX_CAPS_NUM_CLUSTERS => Some (u64 (Z.shiftl 1 (field 20 0x7)))
  | VX_CAPS_ISSUE_WIDTH => Some (u64 (Z.shiftl 1 (field 23 0x7)))
  | VX_CAPS_LOCAL_MEM_SIZE => Some (u64 (Z.shiftl 1 (field 26 0xff)))
  | VX_CAPS_ISA_FLAGS => Some isa_caps
  | VX_CAPS_NUM_MEM_BANKS => Some (u64 (Z.shiftl 1 (field 34 0x7)))
  | VX_CAPS_MEM_BANK_SIZE => Some (u64 (Z.shiftl 1 (20 + field 37 0x1f)))
  | VX_CAPS_other => None
  end.

(** Two 32-bit reads per word. *)
Definition load_caps (cp_mmio_read : Z -> Z) : Z * Z :=
  let word lo hi := Z.lor (cp_mmio_read lo) (u64 (Z.shiftl (cp_mmio_read hi) 32)) in
  (word 0x018 0x01C, word 0x020 0x024).

Section Caps.
Context `{VxConfig, CapsConfig}.

Definition query (c : CommandProcessor) (id : caps_id) : option Z :=
  let '(d, i) := load_caps (mmio_read c) in decode_caps d i id.

(** ** Fields *)

Lemma lor_low a x n : 0 <= n -> 0 <= a < 2 ^ n -> (2 ^ n | x) -> Z.lor a x = a + x.
Proof.
  intros Hn Ha [k ->]. rewrite Z.lor_comm, <- Z.shiftl_mul_pow2 by done. rewrite lor_disjoint, Z.shiftl_mul_pow2 by done. lia.
Qed.

Lemma word_halves x : 0 <= x < 2 ^ 64 -> Z.lor (lo32 x) (u64 (Z.shiftl (hi32 x) 32)) = x.
Proof.
  intros Hx. unfold lo32, hi32. change 0xFFFFFFFF with (Z.ones 32). rewrite Z.land_ones, Z.shiftr_div_pow2 by lia.
  assert (0 <= x / 2 ^ 32 < 2 ^ 32) as Hd by (split; [apply Z.div_pos; lia|apply Z.div_lt_upper_bound; lia]).
  rewrite u32_small, Z.shiftl_mul_pow2, u64_small by lia. rewrite (lor_low _ _ 32) by (lia || (apply Z.mod_pos_bound; lia) || by exists (x / 2 ^ 32)).
  pose proof (Z.div_mod x (2 ^ 32)). lia.
Qed.

Lemma clog2_pow2 k : 0 <= k < 64 -> cp_clog2 (2 ^ k) = k.
Proof.
  intros Hk. assert (k ∈ range 64) as Hin by (by apply elem_of_range). clear Hk. revert k Hin.
  assert (Forall (fun k => cp_clog2 (2 ^ k) = k) (range 64)) as F by (apply (bool_decide_unpack _); vm_compute; exact I).
  intros k Hk. by apply (proj1 (list.Forall_forall _ _) F).
Qed.

(** The ten fields, each at its place. *)
Definition pack (a b c d e f g h i j : Z) : Z :=
  a + b * 2 ^ 8 + c * 2 ^ 11 + d * 2 ^ 14 + e * 2 ^ 17 + f * 2 ^ 20 + g * 2 ^ 23 + h * 2 ^ 26 + i * 2 ^ 34 + j * 2 ^ 37.

Lemma lor_fields a b c d e f g h i j :
  0 <= a < 2 ^ 8 -> 0 <= b < 2 ^ 3 -> 0 <= c < 2 ^ 3 -> 0 <= d < 2 ^ 3 -> 0 <= e < 2 ^ 3 -> 0 <= f < 2 ^ 3 -> 0 <= g < 2 ^ 3 ->
  0 <= h < 2 ^ 8 -> 0 <= i < 2 ^ 3 -> 0 <= j < 2 ^ 5 ->
  Z.lor a (Z.lor (b * 2 ^ 8) (Z.lor (c * 2 ^ 11) (Z.lor (d * 2 ^ 14) (Z.lor (e * 2 ^ 17) (Z.lor (f * 2 ^ 20)
    (Z.lor (g * 2 ^ 23) (Z.lor (h * 2 ^ 26) (Z.lor (i * 2 ^ 34) (j * 2 ^ 37))))))))) = pack a b c d e f g h i j.
Proof.
  intros. unfold pack.
  rewrite (lor_low (i * 2 ^ 34) _ 37) by (lia || by exists j).
  rewrite (lor_low (h * 2 ^ 26) _ 34) by (lia || (exists (i + j * 2 ^ 3); lia)).
  rewrite (lor_low (g * 2 ^ 23) _ 26) by (lia || (exists (h + i * 2 ^ 8 + j * 2 ^ 11); lia)).
  rewrite (lor_low (f * 2 ^ 20) _ 23) by (lia || (exists (g + h * 2 ^ 3 + i * 2 ^ 11 + j * 2 ^ 14); lia)).
  rewrite (lor_low (e * 2 ^ 17) _ 20) by (lia || (exists (f + g * 2 ^ 3 + h * 2 ^ 6 + i * 2 ^ 14 + j * 2 ^ 17); lia)).
  rewrite (lor_low (d * 2 ^ 14) _ 17) by (lia || (exists (e + f * 2 ^ 3 + g * 2 ^ 6 + h * 2 ^ 9 + i * 2 ^ 17 + j * 2 ^ 20); lia)).
  rewrite (lor_low (c * 2 ^ 11) _ 14)
    by (lia || (exists (d + e * 2 ^ 3 + f * 2 ^ 6 + g * 2 ^ 9 + h * 2 ^ 12 + i * 2 ^ 20 + j * 2 ^ 23); lia)).
  rewrite (lor_low (b * 2 ^ 8) _ 11)
    by (lia || (exists (c + d * 2 ^ 3 + e * 2 ^ 6 + f * 2 ^ 9 + g * 2 ^ 12 + h * 2 ^ 15 + i * 2 ^ 23 + j * 2 ^ 26); lia)).
  rewrite (lor_low a _ 8)
    by (lia || (exists (b + c * 2 ^ 3 + d * 2 ^ 6 + e * 2 ^ 9 + f * 2 ^ 12 + g * 2 ^ 15 + h * 2 ^ 18 + i * 2 ^ 26 + j * 2 ^ 29); lia)).
  lia.
Qed.

(** The fields taken out again. *)
Lemma pack_get a b c d e f g h i j :
  0 <= a < 2 ^ 8 -> 0 <= b < 2 ^ 3 -> 0 <= c < 2 ^ 3 -> 0 <= d < 2 ^ 3 -> 0 <= e < 2 ^ 3 -> 0 <= f < 2 ^ 3 -> 0 <= g < 2 ^ 3 ->
  0 <= h < 2 ^ 8 -> 0 <= i < 2 ^ 3 -> 0 <= j < 2 ^ 5 ->
  let get sh w := (pack a b c d e f g h i j / 2 ^ sh) mod 2 ^ w in
  0 <= pack a b c d e f g h i j < 2 ^ 64 /\
  get 0 8 = a /\ get 8 3 = b /\ get 11 3 = c /\ get 14 3 = d /\ get 17 3 = e /\ get 20 3 = f /\ get 23 3 = g /\
  get 26 8 = h /\ get 34 3 = i /\ get 37 5 = j.
Proof.
  intros. assert (forall sh w lo v hi, 0 <= sh -> 0 <= w -> 0 <= lo < 2 ^ sh -> 0 <= v < 2 ^ w ->
    pack a b c d e f g h i j = lo + v * 2 ^ sh + hi * (2 ^ sh * 2 ^ w) -> get sh w = v) as G.
  { intros sh w lo v hi Hsh Hw Hlo Hv E. unfold get. rewrite E.
    replace (lo + v * 2 ^ sh + hi * (2 ^ sh * 2 ^ w)) with (lo + (v + hi * 2 ^ w) * 2 ^ sh) by lia.
    rewrite Z.div_add, (Z.div_small lo) by lia. rewrite Z.add_0_l, Z.mod_add by lia. by apply Z.mod_small. }
  unfold pack in *. split_and!; [lia|lia|..].
  - apply (G 0 8 0 a (b + c * 2 ^ 3 + d * 2 ^ 6 + e * 2 ^ 9 + f * 2 ^ 12 + g * 2 ^ 15 + h * 2 ^ 18 + i * 2 ^ 26 + j * 2 ^ 29)); lia.
  - apply (G 8 3 a b (c + d * 2 ^ 3 + e * 2 ^ 6 + f * 2 ^ 9 + g * 2 ^ 12 + h * 2 ^ 15 + i * 2 ^ 23 + j * 2 ^ 26)); lia.
  - apply (G 11 3 (a + b * 2 ^ 8) c (d + e * 2 ^ 3 + f * 2 ^ 6 + g * 2 ^ 9 + h * 2 ^ 12 + i * 2 ^ 20 + j * 2 ^ 23)); lia.
  - apply (G 14 3 (a + b * 2 ^ 8 + c * 2 ^ 11) d (e + f * 2 ^ 3 + g * 2 ^ 6 + h * 2 ^ 9 + i * 2 ^ 17 + j * 2 ^ 20)); lia.
  - apply (G 17 3 (a + b * 2 ^ 8 + c * 2 ^ 11 + d * 2 ^ 14) e (f + g * 2 ^ 3 + h * 2 ^ 6 + i * 2 ^ 14 + j * 2 ^ 17)); lia.
  - apply (G 20 3 (a + b * 2 ^ 8 + c * 2 ^ 11 + d * 2 ^ 14 + e * 2 ^ 17) f (g + h * 2 ^ 3 + i * 2 ^ 11 + j * 2 ^ 14)); lia.
  - apply (G 23 3 (a + b * 2 ^ 8 + c * 2 ^ 11 + d * 2 ^ 14 + e * 2 ^ 17 + f * 2 ^ 20) g (h + i * 2 ^ 8 + j * 2 ^ 11)); lia.
  - apply (G 26 8 (a + b * 2 ^ 8 + c * 2 ^ 11 + d * 2 ^ 14 + e * 2 ^ 17 + f * 2 ^ 20 + g * 2 ^ 23) h (i + j * 2 ^ 3)); lia.
  - apply (G 34 3 (a + b * 2 ^ 8 + c * 2 ^ 11 + d * 2 ^ 14 + e * 2 ^ 17 + f * 2 ^ 20 + g * 2 ^ 23 + h * 2 ^ 26) i j); lia.
  - apply (G 37 5 (a + b * 2 ^ 8 + c * 2 ^ 11 + d * 2 ^ 14 + e * 2 ^ 17 + f * 2 ^ 20 + g * 2 ^ 23 + h * 2 ^ 26 + i * 2 ^ 34) j 0); lia.
Qed.

Lemma pack_caps :
  gpu_dev_caps = pack (Z.land ISA_IMPL_ID 0xFF) (Z.land (cp_clog2 NUM_THREADS) 7) (Z.land (cp_clog2 NUM_WARPS) 7)
    (Z.land (cp_clog2 SOCKET_SIZE) 7) (Z.land (cp_clog2 (NUM_CORES / SOCKET_SIZE)) 7) (Z.land (cp_clog2 NUM_CLUSTERS) 7)
    (Z.land (cp_clog2 ISSUE_WIDTH) 7) (Z.land (if LMEM_ENABLED then LMEM_LOG_SIZE else 0) 0xFF) (Z.land (cp_clog2 MEMORY_NUM_BANKS) 7)
    (Z.land (u32 (u32 (MEMORY_ADDR_WIDTH - cp_clog2 MEMORY_NUM_BANKS) - 20)) 0x1F).
Proof.
  unfold gpu_dev_caps. cbv zeta. change 0xFF with (Z.ones 8). change 0x1F with (Z.ones 5). change 7 with (Z.ones 3).
  rewrite !Z.land_ones, !Z.shiftl_mul_pow2 by lia. apply lor_fields; apply Z.mod_pos_bound; lia.
Qed.

Lemma isa_caps_range : 0 <= MISA_EXT < 2 ^ 32 -> 0 <= MISA_STD < 2 ^ 32 -> 0 <= gpu_isa_caps < 2 ^ 64.
Proof.
  intros He Hs. unfold gpu_isa_caps. set (x := Z.shiftl (Z.land _ _) 30).
  assert (0 <= x < 2 ^ 32) as Hx.
  { unfold x. change 3 with (Z.ones 2). rewrite Z.land_ones, Z.shiftl_mul_pow2 by lia.
    match goal with |- context [?y mod 2 ^ 2] => pose proof (Z.mod_pos_bound y (2 ^ 2)) end. lia. }
  assert (0 <= Z.lor x MISA_STD < 2 ^ 32) as Hl.
  { split; [apply Z.lor_nonneg; lia|]. apply Z.log2_lt_cancel. rewrite Z.log2_lor, Z.log2_pow2 by lia.
    destruct (Z.eq_dec x 0) as [->|], (Z.eq_dec MISA_STD 0) as [->|]; try (simpl; lia);
      apply Z.max_lub_lt; try (simpl; lia); apply Z.log2_lt_pow2; lia. }
  rewrite u64_small by (rewrite Z.shiftl_mul_pow2; lia). rewrite lor_disjoint by lia. lia.
Qed.

(** What the generator makes of a configuration that fits the fields. *)
Record caps_ok : Prop := {
  ck_id : 0 <= ISA_IMPL_ID < 256;
  ck_threads : exists k, 0 <= k < 8 /\ NUM_THREADS = 2 ^ k;
  ck_warps : exists k, 0 <= k < 8 /\ NUM_WARPS = 2 ^ k;
  ck_socket : exists k, 0 <= k < 8 /\ SOCKET_SIZE = 2 ^ k;
  ck_cluster : exists k, 0 <= k < 8 /\ NUM_CORES = 2 ^ k * SOCKET_SIZE;
  ck_clusters : exists k, 0 <= k < 8 /\ NUM_CLUSTERS = 2 ^ k;
  ck_issue : exists k, 0 <= k < 8 /\ ISSUE_WIDTH = 2 ^ k;
  ck_lmem : LMEM_ENABLED = true /\ 0 <= LMEM_LOG_SIZE < 64;
  ck_banks : exists k, 0 <= k < 8 /\ MEMORY_NUM_BANKS = 2 ^ k /\ 20 <= MEMORY_ADDR_WIDTH - k < 52;
  ck_isa : 0 <= MISA_EXT < 2 ^ 32 /\ 0 <= MISA_STD < 2 ^ 32
}.

Lemma query_eq c id :
  0 <= gpu_dev_caps < 2 ^ 64 -> 0 <= gpu_isa_caps < 2 ^ 64 -> query c id = decode_caps gpu_dev_caps gpu_isa_caps id.
Proof.
  intros Hd Hi. unfold query, load_caps.
  change (mmio_read c 0x018) with (lo32 gpu_dev_caps). change (mmio_read c 0x01C) with (hi32 gpu_dev_caps).
  change (mmio_read c 0x020) with (lo32 gpu_isa_caps). change (mmio_read c 0x024) with (hi32 gpu_isa_caps).
  by rewrite !word_halves.
Qed.

Lemma one_shl k : 0 <= k < 64 -> u64 (Z.shiftl 1 k) = 2 ^ k.
Proof. intros Hk. rewrite Z.shiftl_1_l. apply u64_small. split; [apply Z.pow_nonneg; lia|apply Z.pow_lt_mono_r; lia]. Qed.

Lemma one_shl32 k : 0 <= k < 8 -> u32 (Z.shiftl 1 k) = 2 ^ k.
Proof.
  intros Hk. rewrite Z.shiftl_1_l. apply u32_small. split; [apply Z.pow_nonneg; lia|].
  apply Z.lt_le_trans with (2 ^ 8); [apply Z.pow_lt_mono_r; lia|lia].
Qed.

(** The capability words are a faithful carrier: for every configuration
    that fits the fields, what the runtime decodes from the two 32-bit reads
    of each word is the configuration the processor was built with. *)
Theorem caps_roundtrip c : caps_ok ->
  query c VX_CAPS_VERSION = Some ISA_IMPL_ID /\ query c VX_CAPS_NUM_THREADS = Some NUM_THREADS /\
  query c VX_CAPS_NUM_WARPS = Some NUM_WARPS /\ query c VX_CAPS_NUM_CORES = Some (NUM_CLUSTERS * NUM_CORES) /\
  query c VX_CAPS_SOCKET_SIZE = Some SOCKET_SIZE /\ query c VX_CAPS_NUM_CLUSTERS = Some NUM_CLUSTERS /\
  query c VX_CAPS_ISSUE_WIDTH = Some ISSUE_WIDTH /\ query c VX_CAPS_LOCAL_MEM_SIZE = Some (2 ^ LMEM_LOG_SIZE) /\
  query c VX_CAPS_ISA_FLAGS = Some gpu_isa_caps /\ query c VX_CAPS_NUM_MEM_BANKS = Some MEMORY_NUM_BANKS /\
  query c VX_CAPS_MEM_BANK_SIZE = Some (2 ^ MEMORY_ADDR_WIDTH / MEMORY_NUM_BANKS).
Proof.
  intros [Hid (t & Ht & Et) (w & Hw & Ew) (s & Hs & Es) (cl & Hcl & Ecl) (cs & Hcs & Ecs) (iw & Hiw & Eiw) [El Hl] (mb & Hmb & Emb & Hbw) [Hx1 Hx2]].
  pose proof pack_caps as P. pose proof (isa_caps_range Hx1 Hx2) as Hi.
  assert (NUM_CORES / SOCKET_SIZE = 2 ^ cl) as Ec by (rewrite Ecl; apply Z.div_mul; rewrite Es; apply Z.pow_nonzero; lia).
  rewrite Et, Ew, Es in P. rewrite Es in Ec. rewrite Ec, Ecs, Eiw, Emb, El in P. rewrite !clog2_pow2 in P by lia.
  change 0xFF with (Z.ones 8) in P. change 0x1F with (Z.ones 5) in P. change 7 with (Z.ones 3) in P.
  rewrite !Z.land_ones in P by lia. rewrite (u32_small (MEMORY_ADDR_WIDTH - mb)), u32_small in P by lia.
  rewrite !Z.mod_small in P by lia.
  destruct (pack_get ISA_IMPL_ID t w s cl cs iw LMEM_LOG_SIZE mb (MEMORY_ADDR_WIDTH - mb - 20)) as (Hp & G); try lia. cbv zeta in G.
  rewrite <- P in Hp, G. destruct G as (G0 & G1 & G2 & G3 & G4 & G5 & G6 & G7 & G8 & G9).
  rewrite !query_eq by done. unfold decode_caps. cbv zeta.
  change 0xff with (Z.ones 8). change 0x1f with (Z.ones 5). change 7 with (Z.ones 3).
  rewrite !Z.land_ones, !Z.shiftr_div_pow2 by lia. rewrite G0, G1, G2, G3, G4, G5, G6, G7, G8, G9.
  rewrite !one_shl, !one_shl32 by lia. rewrite Et, Ew, Ecs, Ecl, Es, Eiw, Emb. split_and!; try done; f_equal.
  - assert (2 ^ cs * 2 ^ cl * 2 ^ s < 2 ^ 64 /\ 0 <= 2 ^ cs * 2 ^ cl < 2 ^ 64 /\ 0 <= 2 ^ cs * 2 ^ cl * 2 ^ s) as (B1 & B2 & B3).
    { rewrite <- !Z.pow_add_r by lia. split_and!; try (apply Z.pow_nonneg; lia); apply Z.pow_lt_mono_r; lia. }
    rewrite (u64_small (2 ^ cs * 2 ^ cl)), u64_small by lia. lia.
  - replace (2 ^ MEMORY_ADDR_WIDTH) with (2 ^ (20 + (MEMORY_ADDR_WIDTH - mb - 20)) * 2 ^ mb) by (rewrite <- Z.pow_add_r by lia; f_equal; lia).
    symmetry. apply Z.div_mul. apply Z.pow_nonzero; lia.
Qed.

(** A configuration with more than 128 threads per warp is reported modulo
    eight in the exponent: 256 threads read back as one. *)
Lemma caps_wrap k : 0 <= k < 64 -> NUM_THREADS = 2 ^ k ->
  Z.land (Z.shiftr gpu_dev_caps 8) 7 = k mod 8.
Proof.
  intros Hk Et. rewrite pack_caps, Et, clog2_pow2 by done. change 7 with (Z.ones 3). rewrite Z.land_ones, Z.shiftr_div_pow2 by lia.
  change 0xFF with (Z.ones 8). change 0x1F with (Z.ones 5). rewrite !Z.land_ones by lia.
  match goal with |- context [pack ?a ?b ?c ?d ?e ?f ?g ?h ?i ?j] => destruct (pack_get a b c d e f g h i j) as (_ & _ & G & _) end;
    try (apply Z.mod_pos_bound; lia). exact G.
Qed.
End Caps.

Lemma caps_roundtrip_witness : let _ := default_config in let _ := demo_caps in
  query demo_cp VX_CAPS_NUM_THREADS = Some 4 /\ query demo_cp VX_CAPS_MEM_BANK_SIZE = Some (2 ^ 31).
Proof.
  intros cfg caps. destruct (caps_roundtrip demo_cp) as (_ & Et & _ & _ & _ & _ & _ & _ & _ & _ & Em); [|by rewrite Et, Em].
  constructor; simpl; try lia; [by exists 2|by exists 2|by exists 0|by exists 0|by exists 0|by exists 0|by exists 1].
Defined.
