(* ===== verification/Mmu.v ===== *)
(** * The MMU of a core

    [sim/simx/mem/mmu_tlb.cpp] and [mmu.cpp]: the translation look-aside buffer
    and the object between a core's memory ports and its cache, which
    translates requests through the buffer and, on a miss, walks the page table
    with fetches it sends down its own port 0.

    A channel is the list of its messages, oldest first, with the capacity
    [CAP] of the outgoing ones; what the core and the memory do to the channels
    between two ticks is a step of its own ([step]).

    The theorem: whatever the interleaving, no request is lost, duplicated or
    altered, and every one that leaves has the address that the page table
    gives for the address it came with, under a root in force while it was
    inside.  The root may change between walks; [satp_change_during_walk] is
    what the code does when it changes during one. *)

From S2P Require Import Prelude Bitmanip PageTable.

(** ** Messages *)

Record MemReq := MkReq { m_addr : Z; m_write : bool; m_tag : Z; m_uuid : Z }.
Record MemRsp := MkRsp { r_tag : Z; r_data : option (list Z); r_uuid : Z }.

Definition with_addr (r : MemReq) (a : Z) : MemReq := MkReq a (m_write r) (m_tag r) (m_uuid r).

Definition PTW_TAG_MARKER : Z := Z.shiftl 1 24.

Definition marked (tag : Z) : bool := negb (Z.land tag PTW_TAG_MARKER =? 0).

(** ** The buffer *)

Record Entry := MkEntry { e_valid : bool; e_mru : bool; e_vpn : Z; e_ppn : Z; e_flags : Z }.

#[global] Instance Entry_inhabited : Inhabited Entry := populate (MkEntry false false 0 0 0).

Record Tlb := MkTlb { entries_ : list Entry; reads_ : Z; hits_ : Z; misses_ : Z; evictions_ : Z }.

Definition Tlb_new (size : nat) : Tlb := MkTlb (replicate size (MkEntry false false 0 0 0)) 0 0 0 0.

(** The first entry with [f], by index. *)
Fixpoint first_entry (f : Entry -> bool) (l : list Entry) : option nat :=
  match l with
  | [] => None
  | e :: l => if f e then Some 0%nat else S <$> first_entry f l
  end.

Definition Tlb_lookup (t : Tlb) (vpn : Z) : option Z * Tlb :=
  match first_entry (fun e => e_valid e && (e_vpn e =? vpn)) (entries_ t) with
  | Some i =>
      let e := entries_ t !!! i in
      (Some (e_ppn e), MkTlb (<[i := MkEntry (e_valid e) true (e_vpn e) (e_ppn e) (e_flags e)]> (entries_ t))
        (u64 (reads_ t + 1)) (u64 (hits_ t + 1)) (misses_ t) (evictions_ t))
  | None => (None, MkTlb (entries_ t) (u64 (reads_ t + 1)) (hits_ t) (u64 (misses_ t + 1)) (evictions_ t))
  end.

(** The slot to replace: the first invalid one, else the first that is not
    most recently used; else all marks are cleared and slot 0 goes. *)
Definition victim (l : list Entry) : nat * list Entry :=
  match first_entry (fun e => negb (e_valid e)) l with
  | Some i => (i, l)
  | None =>
      match first_entry (fun e => negb (e_mru e)) l with
      | Some i => (i, l)
      | None => (0%nat, (fun e => MkEntry (e_valid e) false (e_vpn e) (e_ppn e) (e_flags e)) <$> l)
      end
  end.

Definition Tlb_fill (t : Tlb) (vpn ppn flags : Z) : Tlb :=
  let '(i, l) := victim (entries_ t) in
  MkTlb (<[i := MkEntry true true vpn ppn flags]> l) (reads_ t) (hits_ t) (misses_ t)
    (if e_valid (l !!! i) then u64 (evictions_ t + 1) else evictions_ t).

Definition Tlb_flush (t : Tlb) : Tlb :=
  MkTlb ((fun e => MkEntry false false (e_vpn e) (e_ppn e) (e_flags e)) <$> entries_ t) (reads_ t) (hits_ t) (misses_ t) (evictions_ t).

(** ** The walker *)

Inductive PtwState := PTW_IDLE | PTW_REQ | PTW_WAIT | PTW_FILL.

#[global] Instance PtwState_eq_dec : EqDecision PtwState.
Proof. solve_decision. Defined.

Record Ptw := MkPtw {
  ptw_state_ : PtwState; ptw_vaddr_ : Z; ptw_type_ : ACCESS_TYPE; ptw_pte_addr_ : Z; ptw_cur_ppn_ : Z; ptw_level_ : nat;
  ptw_final_ppn_ : Z; ptw_flags_ : Z; ptw_leaf_level_ : nat; ptw_orig_req_ : MemReq; ptw_orig_port_ : nat
}.

Record Mmu := MkMmu {
  satp_ : option SATP_t; tlb_ : Tlb; ptw : Ptw; walks_ : Z; walk_latency_ : Z; walk_start_cyc_ : Z
}.

(** The channels, by port. *)
Record Ports := MkPorts {
  ReqIn : list (list MemReq); RspOut : list (list MemRsp); ReqOut : list (list MemReq); RspIn : list (list MemRsp)
}.

Section Model.
Context `{VxConfig} (CAP : nat).

Definition push {A} (l : list (list A)) (p : nat) (x : A) : list (list A) := <[p := (l !!! p) ++ [x]]> l.
Definition pop {A} (l : list (list A)) (p : nat) : list (list A) := <[p := tail (l !!! p)]> l.
Definition full {A} (l : list (list A)) (p : nat) : bool := bool_decide (CAP <= length (l !!! p))%nat.

Definition set_ptw (m : Mmu) (w : Ptw) : Mmu := MkMmu (satp_ m) (tlb_ m) w (walks_ m) (walk_latency_ m) (walk_start_cyc_ m).
Definition set_tlb (m : Mmu) (t : Tlb) : Mmu := MkMmu (satp_ m) t (ptw m) (walks_ m) (walk_latency_ m) (walk_start_cyc_ m).
Definition set_state (w : Ptw) (s : PtwState) : Ptw :=
  MkPtw s (ptw_vaddr_ w) (ptw_type_ w) (ptw_pte_addr_ w) (ptw_cur_ppn_ w) (ptw_level_ w) (ptw_final_ppn_ w) (ptw_flags_ w)
    (ptw_leaf_level_ w) (ptw_orig_req_ w) (ptw_orig_port_ w).

Definition on_reset (m : Mmu) : Mmu := set_ptw m (set_state (ptw m) PTW_IDLE).

Definition set_satp (m : Mmu) (satp : Z) : Mmu :=
  MkMmu (Some (SATP_of_bits satp)) (Tlb_flush (tlb_ m)) (ptw m) (walks_ m) (walk_latency_ m) (walk_start_cyc_ m).

Definition needs_translation (m : Mmu) : bool :=
  match satp_ m with Some s => negb (satp_mode s =? BARE) | None => false end.

Definition base_ppn (m : Mmu) : Z := match satp_ m with Some s => satp_ppn s | None => 0 end.

Definition start_ptw (now : Z) (m : Mmu) (va : Z) (type : ACCESS_TYPE) (orig : MemReq) (port : nat) : Mmu :=
  let w := ptw m in
  MkMmu (satp_ m) (tlb_ m)
    (MkPtw PTW_REQ va type (ptw_pte_addr_ w) (base_ppn m) (PT_LEVEL - 1) (ptw_final_ppn_ w) (ptw_flags_ w) (ptw_leaf_level_ w) orig port)
    (u64 (walks_ m + 1)) (walk_latency_ m) now.

(** The entry in the line that holds its address; none without data. *)
Definition rsp_pte (rsp : MemRsp) (addr : Z) : Z :=
  match r_data rsp with
  | Some line => le_val (take (Z.to_nat PTE_SIZE) (drop (Z.to_nat (Z.land addr (MEM_BLOCK_SIZE - 1))) line))
  | None => 0
  end.

(** [None]: a page fault, on which the simulator aborts. *)
Definition on_ptw_response (w : Ptw) (rsp : MemRsp) : option Ptw :=
  pte ← PTE_of_bytes (rsp_pte rsp (ptw_pte_addr_ w));
  if negb (pte_v pte) || (negb (pte_r pte) && pte_w pte) then None else
  if pte_r pte || pte_w pte || pte_x pte then
    Some (MkPtw PTW_FILL (ptw_vaddr_ w) (ptw_type_ w) (ptw_pte_addr_ w) (ptw_cur_ppn_ w) (ptw_level_ w) (pte_ppn pte) (pte_flags pte)
      (ptw_level_ w) (ptw_orig_req_ w) (ptw_orig_port_ w))
  else
    match ptw_level_ w with
    | O => None
    | S l =>
        Some (MkPtw PTW_REQ (ptw_vaddr_ w) (ptw_type_ w) (ptw_pte_addr_ w) (pte_ppn pte) l (ptw_final_ppn_ w) (ptw_flags_ w)
          (ptw_leaf_level_ w) (ptw_orig_req_ w) (ptw_orig_port_ w))
    end.

Definition VPN_BITS : Z := log2ceil 32 (PT_SIZE / PTE_SIZE).

Definition fetch_addr (w : Ptw) : Z :=
  let shift := PAGE_LOG2_SIZE + Z.of_nat (ptw_level_ w) * VPN_BITS in
  let vpn := Z.land (Z.shiftr (ptw_vaddr_ w) shift) (Z.shiftl 1 VPN_BITS - 1) in
  pte_addr (ptw_cur_ppn_ w) vpn.

(** The physical address of a finished walk. *)
Definition fill_pa (w : Ptw) : Z :=
  let off_bits := PAGE_LOG2_SIZE + Z.of_nat (ptw_leaf_level_ w) * VPN_BITS in
  let off_mask := Z.shiftl 1 off_bits - 1 in
  let pa_base := Z.land (u64 (Z.shiftl (ptw_final_ppn_ w) PAGE_LOG2_SIZE)) (lnot_w 64 off_mask) in
  Z.lor pa_base (Z.land (ptw_vaddr_ w) off_mask).

Definition ptw_fetch (a : Z) : MemReq := MkReq a false PTW_TAG_MARKER 0.

Definition drive_ptw (now : Z) (s : Mmu * Ports) : Mmu * Ports :=
  let '(m, io) := s in
  let w := ptw m in
  match ptw_state_ w with
  | PTW_REQ =>
      let w := MkPtw PTW_REQ (ptw_vaddr_ w) (ptw_type_ w) (fetch_addr w) (ptw_cur_ppn_ w) (ptw_level_ w) (ptw_final_ppn_ w) (ptw_flags_ w)
        (ptw_leaf_level_ w) (ptw_orig_req_ w) (ptw_orig_port_ w) in
      if full (ReqOut io) 0 then (set_ptw m w, io) else
      (set_ptw m (set_state w PTW_WAIT), MkPorts (ReqIn io) (RspOut io) (push (ReqOut io) 0 (ptw_fetch (ptw_pte_addr_ w))) (RspIn io))
  | PTW_FILL =>
      let pa := fill_pa w in
      let vpn := Z.shiftr (ptw_vaddr_ w) PAGE_LOG2_SIZE in
      let m := set_tlb m (Tlb_fill (tlb_ m) vpn (Z.shiftr pa PAGE_LOG2_SIZE) (ptw_flags_ w)) in
      if full (ReqOut io) (ptw_orig_port_ w) then (m, io) else
      (MkMmu (satp_ m) (tlb_ m) (set_state w PTW_IDLE) (walks_ m) (u64 (walk_latency_ m + (now - walk_start_cyc_ m))) (walk_start_cyc_ m),
       MkPorts (ReqIn io) (RspOut io) (push (ReqOut io) (ptw_orig_port_ w) (with_addr (ptw_orig_req_ w) pa)) (RspIn io))
  | _ => (m, io)
  end.

(** Step 1 of a tick, at port [p]. *)
Definition drain_port (s : Mmu * Ports) (p : nat) : option (Mmu * Ports) :=
  let '(m, io) := s in
  match RspIn io !!! p with
  | [] => Some (m, io)
  | rsp :: _ =>
      if marked (r_tag rsp) then
        w ← (if bool_decide (ptw_state_ (ptw m) = PTW_WAIT) then on_ptw_response (ptw m) rsp else Some (ptw m));
        Some (set_ptw m w, MkPorts (ReqIn io) (RspOut io) (ReqOut io) (pop (RspIn io) p))
      else if full (RspOut io) p then Some (m, io)
      else Some (m, MkPorts (ReqIn io) (push (RspOut io) p rsp) (ReqOut io) (pop (RspIn io) p))
  end.

(** Step 3 of a tick, at port [p]. *)
Definition forward_port (now : Z) (s : Mmu * Ports) (p : nat) : Mmu * Ports :=
  let '(m, io) := s in
  match ReqIn io !!! p with
  | [] => (m, io)
  | req :: _ =>
      let send r := if full (ReqOut io) p then io else MkPorts (pop (ReqIn io) p) (RspOut io) (push (ReqOut io) p r) (RspIn io) in
      if negb (needs_translation m) then (m, send req) else
      let vpn := Z.shiftr (m_addr req) PAGE_LOG2_SIZE in
      let '(r, t) := Tlb_lookup (tlb_ m) vpn in
      let m := set_tlb m t in
      match r with
      | Some ppn =>
          (m, send (with_addr req (Z.lor (u64 (Z.shiftl ppn PAGE_LOG2_SIZE)) (Z.land (m_addr req) (Z.shiftl 1 PAGE_LOG2_SIZE - 1)))))
      | None =>
          if bool_decide (ptw_state_ (ptw m) = PTW_IDLE) then
            (start_ptw now m (m_addr req) (if m_write req then STORE else LOAD) req p,
             MkPorts (pop (ReqIn io) p) (RspOut io) (ReqOut io) (RspIn io))
          else (m, io)
      end
  end.

Fixpoint drain_all (s : Mmu * Ports) (ps : list nat) : option (Mmu * Ports) :=
  match ps with [] => Some s | p :: ps => s ← drain_port s p; drain_all s ps end.

Definition on_tick (now : Z) (s : Mmu * Ports) : option (Mmu * Ports) :=
  let ports := seq 0 (length (ReqIn (snd s))) in
  s ← drain_all s ports;
  let s := drive_ptw now s in
  Some (foldl (forward_port now) s ports).
End Model.

(** ** The table's translation *)

Section Table.
Context `{VxConfig} (read : Z -> Z).

(** The walk the hardware makes: [host_walk] without the host's checks on the
    fill pattern and on the read permission. *)
Fixpoint mmu_walk (va : Z) (i : nat) (base : Z) : option (Z * nat) :=
  pte ← PTE_of_bytes (read (pte_addr base (vidx va i)));
  if negb (pte_v pte) || (negb (pte_r pte) && pte_w pte) then None else
  if pte_r pte || pte_w pte || pte_x pte then Some (pte_ppn pte, i) else
  match i with O => None | S i => mmu_walk va i (pte_ppn pte) end.

(** The physical address of [va] under the table at [root]. *)
Definition xlate (root va : Z) : option Z :=
  '(ppn, l) ← mmu_walk va (PT_LEVEL - 1) root;
  Some (leaf_pa ppn l va).

Lemma vpn_bits_mmu : VPN_BITS = VM_VPN_BITS.
Proof. rewrite vpn_bits_eq. unfold VPN_BITS, PTE_SIZE. by destruct sv39. Qed.

Lemma fetch_addr_eq w : fetch_addr w = pte_addr (ptw_cur_ppn_ w) (vidx (ptw_vaddr_ w) (ptw_level_ w)).
Proof.
  unfold fetch_addr, vidx, PAGE_LOG2_SIZE. rewrite vpn_bits_mmu. pose proof vpn_bits_range.
  rewrite Z.shiftl_1_l, Z.sub_1_r, <- Z.ones_equiv, Z.land_ones, Z.shiftr_div_pow2 by lia. done.
Qed.

Lemma fill_pa_eq w : fill_pa w = leaf_pa (ptw_final_ppn_ w) (ptw_leaf_level_ w) (ptw_vaddr_ w).
Proof. unfold fill_pa, leaf_pa. by rewrite vpn_bits_mmu. Qed.

(** Where the host finds a translation, the hardware finds the same one. *)
Lemma xlate_host root va pa : page_table_walk read root va = inr pa -> xlate root va = Some pa.
Proof.
  unfold page_table_walk, xlate. destruct (vAddr_make va) as [v|] eqn:Ev; [|done].
  assert (forall i base ppn l, (i < PT_LEVEL)%nat -> host_walk read v i base = inr (ppn, l) -> mmu_walk va i base = Some (ppn, l)) as W.
  { induction i as [|i IH]; intros base ppn l Hi; cbn [host_walk mmu_walk]; rewrite <- (vAddr_vpn va v _ Ev) by lia;
      destruct (PTE_of_bytes _) as [p|]; try done; bind_simpl; destruct (baadf00d _), (pte_v p), (pte_r p), (pte_w p), (pte_x p);
      simpl; try done; try congruence; apply IH; lia. }
  destruct (host_walk _ _ _ _) as [|[ppn l]] eqn:Eh; [done|]. intros [= <-].
  rewrite (W _ _ ppn l); [done| |exact Eh]. pose proof pt_level_cases. lia.
Qed.

Lemma pte_ppn_range x p : PTE_of_bytes x = Some p -> 0 <= pte_ppn p < 2 ^ 44.
Proof.
  unfold PTE_of_bytes. cbv zeta. destruct sv39.
  - intros [= <-]. simpl. pose proof (bits_range x 10 53). lia.
  - destruct (_ =? 0); [|done]. intros [= <-]. simpl. pose proof (bits_range x 10 31). lia.
Qed.

Lemma mmu_walk_range va i base ppn l : mmu_walk va i base = Some (ppn, l) -> (l <= i)%nat /\ 0 <= ppn < 2 ^ 44.
Proof.
  revert base. induction i as [|i IH]; intros base; cbn [mmu_walk]; destruct (PTE_of_bytes _) as [p|] eqn:Ep; try done; bind_simpl;
    destruct (_ || _); try done; destruct (_ || _); try done; intros E; simplify_eq; try (split; [lia|by eapply pte_ppn_range]).
  apply IH in E. lia.
Qed.

Lemma vidx_page va va' i : va / 2 ^ 12 = va' / 2 ^ 12 -> vidx va i = vidx va' i.
Proof.
  intros E. pose proof vpn_bits_range. unfold vidx. rewrite Z.pow_add_r, <- !Z.div_div by (lia || (apply Z.pow_nonzero; lia)). by rewrite E.
Qed.

Lemma mmu_walk_page va va' i base : va / 2 ^ 12 = va' / 2 ^ 12 -> mmu_walk va i base = mmu_walk va' i base.
Proof.
  intros E. revert base. induction i as [|i IH]; intros base; cbn [mmu_walk]; rewrite (vidx_page va va') by done; [done|].
  destruct (PTE_of_bytes _) as [p|]; [|done]. bind_simpl. by rewrite IH.
Qed.

(** One page, one frame. *)
Lemma xlate_page root va va' pa :
  0 <= va -> 0 <= va' -> va / 2 ^ 12 = va' / 2 ^ 12 -> xlate root va = Some pa ->
  0 <= pa / 2 ^ 12 < 2 ^ 52 /\ xlate root va' = Some (pa / 2 ^ 12 * 2 ^ 12 + va' mod 2 ^ 12).
Proof.
  intros Hva Hva' E. unfold xlate. rewrite <- (mmu_walk_page va va' _ _ E).
  destruct (mmu_walk va _ _) as [[ppn l]|] eqn:Ew; [|done]. bind_simpl. intros [= <-].
  apply mmu_walk_range in Ew as [Hl Hp]. pose proof pt_level_cases. pose proof vpn_bits_range.
  rewrite !leaf_pa_eq by (done || lia). set (k := Z.of_nat l * VM_VPN_BITS).
  assert (0 <= k <= 20) as Hk by (unfold k; rewrite vpn_bits_eq; destruct pt_level_cases as [[? ->]|[? ->]]; nia).
  rewrite Z.pow_add_r by lia.
  assert (forall x, 0 <= x -> x mod (2 ^ 12 * 2 ^ k) = x mod 2 ^ 12 + 2 ^ 12 * ((x / 2 ^ 12) mod 2 ^ k)) as Em.
  { intros x Hx. apply Z.rem_mul_r; [lia|apply Z.pow_pos_nonneg; lia]. }
  rewrite !Em, <- E by done. set (P := ppn / 2 ^ k). set (o := (va / 2 ^ 12) mod 2 ^ k).
  assert (0 <= o < 2 ^ k) as Ho by (apply Z.mod_pos_bound, Z.pow_pos_nonneg; lia).
  assert (0 <= P) as HP by (apply Z.div_pos; [lia|apply Z.pow_pos_nonneg; lia]).
  assert (P * 2 ^ k <= ppn) as HPk by (pose proof (Z.mul_div_le ppn (2 ^ k)); pose proof (Z.pow_pos_nonneg 2 k); lia).
  assert ((P * (2 ^ 12 * 2 ^ k) + (va mod 2 ^ 12 + 2 ^ 12 * o)) / 2 ^ 12 = P * 2 ^ k + o) as ->.
  { replace (P * (2 ^ 12 * 2 ^ k) + (va mod 2 ^ 12 + 2 ^ 12 * o)) with (va mod 2 ^ 12 + (P * 2 ^ k + o) * 2 ^ 12) by ring.
    rewrite Z.div_add, Z.div_small by (lia || (apply Z.mod_pos_bound; lia)). lia. }
  assert (2 ^ k <= 2 ^ 20) by (apply Z.pow_le_mono_r; lia). split; [nia|]. f_equal. ring.
Qed.
End Table.

(** ** The MMU between a core and its memory *)

Lemma push_lookup {A} (l : list (list A)) p q x : (p < length l)%nat -> push l p x !!! q = if decide (p = q) then (l !!! p) ++ [x] else l !!! q.
Proof.
  intros Hp. unfold push. case_decide as E; [subst; by apply list_lookup_total_insert_eq|by apply list_lookup_total_insert_ne].
Qed.

Lemma pop_lookup {A} (l : list (list A)) p q : (p < length l)%nat -> pop l p !!! q = if decide (p = q) then tail (l !!! p) else l !!! q.
Proof.
  intros Hp. unfold pop. case_decide as E; [subst; by apply list_lookup_total_insert_eq|by apply list_lookup_total_insert_ne].
Qed.

(** The system with its history: per port, the requests and responses that
    came in and those that were taken out, the table fetch that is in the
    memory, and the roots the register has held, the current one last.  A
    request that came in is kept with the index of the root in force then. *)
Record Sys := MkSys {
  s_mmu : Mmu; s_io : Ports; g_in : list (list (MemReq * nat)); g_sent : list (list MemReq);
  g_rsp : list (list MemRsp); g_got : list (list MemRsp); g_pend : option Z;
  g_satps : list (option SATP_t)
}.

Section System.
Context `{VxConfig} (CAP : nat) (read : Z -> Z).

(** Ticks of the MMU interleaved with what its neighbours do.  The memory
    answers a table fetch with a line that holds the entry.  The register is
    written, and the simulator reset, when no walk is under way; see
    [satp_change_during_walk] for what the code does otherwise. *)
Inductive step : Sys -> Sys -> Prop :=
| st_tick m io m' io' gi gs gr gg gp gh now : on_tick CAP now (m, io) = Some (m', io') ->
    step (MkSys m io gi gs gr gg gp gh) (MkSys m' io' gi gs gr gg gp gh)
| st_request m io gi gs gr gg gp gh p r : (p < length (ReqIn io))%nat -> marked (m_tag r) = false -> 0 <= m_addr r < 2 ^ 64 ->
    step (MkSys m io gi gs gr gg gp gh) (MkSys m (MkPorts (push (ReqIn io) p r) (RspOut io) (ReqOut io) (RspIn io)) (push gi p (r, pred (length gh))) gs gr gg gp gh)
| st_take m io gi gs gr gg gp gh p r l : (p < length (ReqOut io))%nat -> ReqOut io !!! p = r :: l -> marked (m_tag r) = false ->
    step (MkSys m io gi gs gr gg gp gh) (MkSys m (MkPorts (ReqIn io) (RspOut io) (pop (ReqOut io) p) (RspIn io)) gi (push gs p r) gr gg gp gh)
| st_take_fetch m io gi gs gr gg gp gh p r l : (p < length (ReqOut io))%nat -> ReqOut io !!! p = r :: l -> marked (m_tag r) = true ->
    step (MkSys m io gi gs gr gg gp gh) (MkSys m (MkPorts (ReqIn io) (RspOut io) (pop (ReqOut io) p) (RspIn io)) gi gs gr gg (Some (m_addr r)) gh)
| st_answer m io gi gs gr gg a rsp gh : marked (r_tag rsp) = true -> rsp_pte rsp a = read a ->
    step (MkSys m io gi gs gr gg (Some a) gh) (MkSys m (MkPorts (ReqIn io) (RspOut io) (ReqOut io) (push (RspIn io) 0 rsp)) gi gs gr gg None gh)
| st_respond m io gi gs gr gg gp gh p rsp : (p < length (RspIn io))%nat -> marked (r_tag rsp) = false ->
    step (MkSys m io gi gs gr gg gp gh) (MkSys m (MkPorts (ReqIn io) (RspOut io) (ReqOut io) (push (RspIn io) p rsp)) gi gs (push gr p rsp) gg gp gh)
| st_collect m io gi gs gr gg gp gh p rsp l : (p < length (RspOut io))%nat -> RspOut io !!! p = rsp :: l ->
    step (MkSys m io gi gs gr gg gp gh) (MkSys m (MkPorts (ReqIn io) (pop (RspOut io) p) (ReqOut io) (RspIn io)) gi gs gr (push gg p rsp) gp gh)
| st_set_satp m io gi gs gr gg gp gh satp : ptw_state_ (ptw m) = PTW_IDLE ->
    step (MkSys m io gi gs gr gg gp gh) (MkSys (set_satp m satp) io gi gs gr gg gp (gh ++ [Some (SATP_of_bits satp)]))
| st_reset m io gi gs gr gg gp gh : ptw_state_ (ptw m) = PTW_IDLE ->
    step (MkSys m io gi gs gr gg gp gh) (MkSys (on_reset m) io gi gs gr gg gp gh).

(** ** Invariant *)

Create HintDb mmu.

(** The root and the mode a register value gives, and [r] as [q] at its physical
    address under that value. *)
Definition root (sp : option SATP_t) : Z := match sp with Some s => satp_ppn s | None => 0 end.
Definition on (sp : option SATP_t) : bool := match sp with Some s => negb (satp_mode s =? BARE) | None => false end.
Definition translated (sp : option SATP_t) (q r : MemReq) : Prop :=
  exists pa, (if on sp then xlate read (root sp) (m_addr q) = Some pa else pa = m_addr q) /\ r = with_addr q pa.

(** A request with the root it came under and the root it was translated
    under, both among [sps]. *)
Definition sent_as (sps : list (option SATP_t)) (x : (MemReq * nat) * nat) (r : MemReq) : Prop :=
  (x.1.2 <= x.2)%nat /\ exists sp, sps !! x.2 = Some sp /\ translated sp x.1.1 r.

Section Inv.
Context (hist : list (option SATP_t)) (satp0 : option SATP_t) (n : nat).

Definition coherent (e : Entry) : Prop :=
  e_valid e = true -> 0 <= e_ppn e < 2 ^ 52 /\
    forall va, 0 <= va -> va / 2 ^ 12 = e_vpn e -> xlate read (root satp0) va = Some (e_ppn e * 2 ^ 12 + va mod 2 ^ 12).

(** Where the walk is. *)
Definition walking (w : Ptw) : Prop :=
  ptw_vaddr_ w = m_addr (ptw_orig_req_ w) /\ 0 <= ptw_vaddr_ w < 2 ^ 64 /\ (ptw_orig_port_ w < n)%nat /\ on satp0 = true /\
  match ptw_state_ w with
  | PTW_FILL => mmu_walk read (ptw_vaddr_ w) (PT_LEVEL - 1) (root satp0) = Some (ptw_final_ppn_ w, ptw_leaf_level_ w)
  | _ => mmu_walk read (ptw_vaddr_ w) (ptw_level_ w) (ptw_cur_ppn_ w) = mmu_walk read (ptw_vaddr_ w) (PT_LEVEL - 1) (root satp0)
  end.

Definition held (w : Ptw) (p : nat) : list MemReq :=
  if bool_decide (ptw_state_ w <> PTW_IDLE /\ ptw_orig_port_ w = p) then [ptw_orig_req_ w] else [].

(** The table fetch under way: waiting to leave, in the memory, or answered. *)
Definition in_flight (w : Ptw) (out : list MemReq) (gp : option Z) (rsp : list MemRsp) : Prop :=
  match ptw_state_ w with
  | PTW_WAIT =>
      ptw_pte_addr_ w = fetch_addr w /\
      (out = [ptw_fetch (ptw_pte_addr_ w)] /\ gp = None /\ rsp = [] \/
       out = [] /\ gp = Some (ptw_pte_addr_ w) /\ rsp = [] \/
       out = [] /\ gp = None /\ exists r, rsp = [r] /\ rsp_pte r (ptw_pte_addr_ w) = read (ptw_pte_addr_ w))
  | _ => out = [] /\ gp = None /\ rsp = []
  end.

Abbreviation fetches l := (filter (fun r : MemReq => marked (m_tag r) = true) l).
Abbreviation plain l := (filter (fun r : MemReq => marked (m_tag r) = false) l).
Abbreviation answers l := (filter (fun r : MemRsp => marked (r_tag r) = true) l).
Abbreviation replies l := (filter (fun r : MemRsp => marked (r_tag r) = false) l).

Record port_ok (m : Mmu) (io : Ports) (gi : list (MemReq * nat)) (gs : list MemReq) (gr gg : list MemRsp) (p : nat) : Prop := {
  po_reqs : exists fwd wait, gi ≡ₚ fwd.*1 ++ wait /\ wait.*1 = held (ptw m) p ++ ReqIn io !!! p /\
    Forall (fun x => x.2 <= length hist)%nat wait /\ Forall2 (sent_as (hist ++ [satp0])) fwd (gs ++ plain (ReqOut io !!! p));
  po_in : Forall (fun r => marked (m_tag r) = false /\ 0 <= m_addr r < 2 ^ 64) (ReqIn io !!! p);
  po_fetch : p <> 0%nat -> fetches (ReqOut io !!! p) = [] /\ answers (RspIn io !!! p) = [];
  po_rsps : gr = gg ++ RspOut io !!! p ++ replies (RspIn io !!! p)
}.

Record mmu_inv (s : Sys) : Prop := {
  mi_satp : satp_ (s_mmu s) = satp0;
  mi_satps : g_satps s = hist ++ [satp0];
  mi_ports : length (ReqIn (s_io s)) = n /\ length (RspOut (s_io s)) = n /\ length (ReqOut (s_io s)) = n /\ length (RspIn (s_io s)) = n;
  mi_ghosts : length (g_in s) = n /\ length (g_sent s) = n /\ length (g_rsp s) = n /\ length (g_got s) = n;
  mi_pos : (0 < n)%nat;
  mi_tlb : Forall coherent (entries_ (tlb_ (s_mmu s)));
  mi_walk : ptw_state_ (ptw (s_mmu s)) <> PTW_IDLE -> walking (ptw (s_mmu s));
  mi_orig : ptw_state_ (ptw (s_mmu s)) <> PTW_IDLE -> marked (m_tag (ptw_orig_req_ (ptw (s_mmu s)))) = false;
  mi_flight : in_flight (ptw (s_mmu s)) (fetches (ReqOut (s_io s) !!! 0%nat)) (g_pend s) (answers (RspIn (s_io s) !!! 0%nat));
  mi_port p : (p < n)%nat -> port_ok (s_mmu s) (s_io s) (g_in s !!! p) (g_sent s !!! p) (g_rsp s !!! p) (g_got s !!! p) p
}.

Lemma sent_now q a r : (a <= length hist)%nat -> translated satp0 q r -> sent_as (hist ++ [satp0]) ((q, a), length hist) r.
Proof. intros Ha T. split; [done|]. exists satp0. split; [by apply list_lookup_middle|done]. Qed.

(** *** The buffer *)

Lemma first_entry_Some f l i : first_entry f l = Some i -> exists e, l !! i = Some e /\ f e = true.
Proof.
  revert i. induction l as [|e l IH]; intros i; simpl; [done|]. destruct (f e) eqn:Ef; [intros [= <-]; by exists e|].
  destruct (first_entry f l) as [j|]; simpl; [|done]. intros [= <-]. by apply IH.
Qed.

Lemma lookup_coherent t vpn : Forall coherent (entries_ t) ->
  Forall coherent (entries_ (snd (Tlb_lookup t vpn))) /\
  forall ppn, fst (Tlb_lookup t vpn) = Some ppn -> 0 <= ppn < 2 ^ 52 /\
    forall va, 0 <= va -> va / 2 ^ 12 = vpn -> xlate read (root satp0) va = Some (ppn * 2 ^ 12 + va mod 2 ^ 12).
Proof.
  intros F. unfold Tlb_lookup. destruct (first_entry _ _) as [i|] eqn:Ei; [|by split].
  apply first_entry_Some in Ei as (e & Ee & [Ev Ep]%andb_true_iff). apply Z.eqb_eq in Ep.
  rewrite (list_lookup_total_correct _ _ _ Ee). pose proof (Forall_lookup_1 _ _ _ _ F Ee) as C. simpl. split.
  - by apply Forall_insert.
  - intros ppn [= <-]. rewrite <- Ep. by apply C.
Qed.

Lemma fill_coherent t vpn ppn flags : Forall coherent (entries_ t) -> coherent (MkEntry true true vpn ppn flags) ->
  Forall coherent (entries_ (Tlb_fill t vpn ppn flags)).
Proof.
  intros F C. unfold Tlb_fill. destruct (victim (entries_ t)) as [i l] eqn:Ev. simpl. apply Forall_insert; [|done].
  unfold victim in Ev. destruct (first_entry _ _); [by simplify_eq|]. destruct (first_entry _ _); [by simplify_eq|]. simplify_eq.
  apply Forall_fmap. eapply list.Forall_impl; [exact F|]. done.
Qed.

Lemma flush_coherent t : Forall coherent (entries_ (Tlb_flush t)).
Proof. simpl. apply Forall_fmap, list.Forall_true. done. Qed.

(** *** Responses *)

Definition upd (s : Sys) (x : Mmu * Ports) : Sys := MkSys (fst x) (snd x) (g_in s) (g_sent s) (g_rsp s) (g_got s) (g_pend s) (g_satps s).

Lemma held_same w w' p :
  (ptw_state_ w' <> PTW_IDLE <-> ptw_state_ w <> PTW_IDLE) -> ptw_orig_port_ w' = ptw_orig_port_ w -> ptw_orig_req_ w' = ptw_orig_req_ w ->
  held w' p = held w p.
Proof. intros E1 E2 E3. unfold held. rewrite E2, E3. by rewrite (bool_decide_ext _ _ (and_iff_compat_r _ E1)). Qed.

(** The walker takes the answer to its fetch. *)
Lemma response_walks w r w' :
  walking w -> ptw_state_ w = PTW_WAIT -> ptw_pte_addr_ w = fetch_addr w ->
  rsp_pte r (ptw_pte_addr_ w) = read (ptw_pte_addr_ w) -> on_ptw_response w r = Some w' ->
  walking w' /\ (ptw_state_ w' = PTW_REQ \/ ptw_state_ w' = PTW_FILL) /\ (forall p, held w' p = held w p) /\
  ptw_orig_req_ w' = ptw_orig_req_ w.
Proof.
  intros (W1 & W2 & W3 & W4 & W5) Es Ea Er. rewrite Es in W5. unfold on_ptw_response. rewrite Er, Ea, fetch_addr_eq.
  destruct (PTE_of_bytes _) as [pte|] eqn:Ep; [|done]. bind_simpl.
  assert (forall v, mmu_walk read (ptw_vaddr_ w) (ptw_level_ w) (ptw_cur_ppn_ w) = v ->
    mmu_walk read (ptw_vaddr_ w) (PT_LEVEL - 1) (root satp0) = v) as W by (intros v <-; done).
  destruct (ptw_level_ w) as [|l] eqn:El; cbn [mmu_walk] in W; rewrite Ep in W; cbn [mbind option_bind] in W;
    (destruct (negb (pte_v pte) || _); [done|]); destruct (_ || _ || _); try done; intros [= <-];
    (split; [|split; [auto|split; [intros p; apply held_same; simpl; rewrite ?Es; done|done]]]);
    refine (conj W1 (conj W2 (conj W3 (conj W4 _)))); simpl.
  - by apply W.
  - by apply W.
  - by rewrite (W _ eq_refl).
Qed.

Lemma len_insert {A} (l : list A) p x k : length l = k -> length (<[p := x]> l) = k.
Proof. by rewrite length_insert. Qed.

Lemma drain_inv s p x : mmu_inv s -> (p < n)%nat -> drain_port CAP (s_mmu s, s_io s) p = Some x -> mmu_inv (upd s x).
Proof.
  intros I Hp. destruct (mi_ports _ I) as (L1 & L2 & L3 & L4). unfold drain_port.
  destruct (RspIn (s_io s) !!! p) as [|rsp rest] eqn:Er; [intros [= <-]; by destruct s|].
  destruct (marked (r_tag rsp)) eqn:Em.
  - assert (p = 0%nat) as ->.
    { destruct (decide (p = 0%nat)) as [|Hp0]; [done|]. destruct (po_fetch _ _ _ _ _ _ _ (mi_port _ I p Hp) Hp0) as [_ Ha].
      rewrite Er, filter_cons_True in Ha by done. done. }
    pose proof (mi_flight _ I) as Fl. unfold in_flight in Fl. rewrite Er, filter_cons_True in Fl by done.
    destruct (ptw_state_ (ptw (s_mmu s))) eqn:Es; try by destruct Fl as (_ & _ & ?).
    destruct Fl as [Ea [(_ & _ & ?)|[(_ & _ & ?)|(Eo & Eg & r & Err & Ed)]]]; [done|done|]. injection Err as <- Ear.
    rewrite bool_decide_true by done. destruct (on_ptw_response (ptw (s_mmu s)) rsp) as [w'|] eqn:Ew; [|done]. bind_simpl. intros [= <-].
    destruct (response_walks _ _ _ (mi_walk _ I ltac:(by rewrite Es)) Es Ea Ed Ew) as (Ww & Sw & Hw & Ow).
    constructor; cbn [upd fst snd s_mmu s_io s_io set_ptw satp_ tlb_ ptw ReqIn RspOut ReqOut RspIn g_in g_sent g_rsp g_got g_pend g_satps]; try apply I.
    + split_and!; try done. by apply len_insert.
    + intros _. exact Ww.
    + intros _. rewrite Ow. apply (mi_orig _ I). by rewrite Es.
    + unfold in_flight. rewrite pop_lookup by lia. rewrite decide_True by done. rewrite Er. simpl tail. rewrite Ear, Eo, Eg.
      by destruct Sw as [-> | ->].
    + intros q Hq. destruct (mi_port _ I q Hq) as [P1 P2 P3 P4]. constructor; cbn [set_ptw ptw ReqIn RspOut ReqOut RspIn].
      * rewrite Hw. exact P1.
      * exact P2.
      * intros Hq0. rewrite pop_lookup by lia. rewrite decide_False by done. by apply P3.
      * rewrite pop_lookup by lia. case_decide as Eq; [subst q|done]. rewrite Er in P4 |- *. simpl tail.
        rewrite filter_cons_False in P4 by (rewrite Em; done). done.
  - destruct (full CAP (RspOut (s_io s)) p); intros [= <-]; [by destruct s|].
    constructor; cbn [upd fst snd s_mmu s_io ReqIn RspOut ReqOut RspIn g_in g_sent g_rsp g_got g_pend g_satps]; try apply I.
    + split_and!; try done; by apply len_insert.
    + pose proof (mi_flight _ I) as Fl. rewrite pop_lookup by lia. case_decide as Eq; [subst p|done].
      rewrite Er in Fl |- *. simpl tail. by rewrite filter_cons_False in Fl by (rewrite Em; done).
    + intros q Hq. destruct (mi_port _ I q Hq) as [P1 P2 P3 P4]. constructor; cbn [ReqIn RspOut ReqOut RspIn]; try done.
      * intros Hq0. rewrite pop_lookup by lia. case_decide as Eq; [subst q|by apply P3]. rewrite Er in P3 |- *. simpl tail.
        destruct (P3 Hq0) as [F1 F2]. split; [done|]. by rewrite filter_cons_False in F2 by (rewrite Em; done).
      * rewrite pop_lookup, push_lookup by lia. case_decide as Eq; [subst q|done]. rewrite Er in P4 |- *. simpl tail.
        rewrite filter_cons_True in P4 by done. rewrite P4. by rewrite <- !(assoc_L (++)).
Qed.

Lemma drain_all_inv ps : forall s x, mmu_inv s -> Forall (fun p => (p < n)%nat) ps ->
  drain_all CAP (s_mmu s, s_io s) ps = Some x -> mmu_inv (upd s x).
Proof.
  induction ps as [|p ps IH]; intros s x I F; cbn [drain_all]; [intros [= <-]; by destruct s|].
  inversion F as [|? ? Hp F']; subst. destruct (drain_port _ _ _) as [[m io]|] eqn:E; [|done]. bind_simpl. intros Ex.
  apply (IH (upd s (m, io))); [by eapply drain_inv|done|exact Ex].
Qed.

(** *** The walker's own messages *)

Lemma filter_snoc_True {A} (P : A -> Prop) `{forall x, Decision (P x)} l x : P x -> filter P (l ++ [x]) = filter P l ++ [x].
Proof. intros. rewrite list.filter_app, filter_cons_True by done. done. Qed.

Lemma filter_snoc_False {A} (P : A -> Prop) `{forall x, Decision (P x)} l x : ~ P x -> filter P (l ++ [x]) = filter P l.
Proof. intros. rewrite list.filter_app, filter_cons_False by done. by rewrite app_nil_r. Qed.

Lemma fill_xlate w : walking w -> ptw_state_ w = PTW_FILL -> xlate read (root satp0) (ptw_vaddr_ w) = Some (fill_pa w).
Proof. intros (_ & _ & _ & _ & W) Es. rewrite Es in W. unfold xlate. rewrite W. bind_simpl. by rewrite fill_pa_eq. Qed.

Lemma fill_entry w flags : walking w -> ptw_state_ w = PTW_FILL ->
  coherent (MkEntry true true (Z.shiftr (ptw_vaddr_ w) PAGE_LOG2_SIZE) (Z.shiftr (fill_pa w) PAGE_LOG2_SIZE) flags).
Proof.
  intros W Es _. pose proof (fill_xlate w W Es) as X. destruct W as (_ & Hv & _). unfold PAGE_LOG2_SIZE. simpl. rewrite !Z.shiftr_div_pow2 by lia.
  split; [by apply (xlate_page read (root satp0) (ptw_vaddr_ w) (ptw_vaddr_ w) _ ltac:(lia) ltac:(lia) eq_refl X)|].
  intros va Hva E. by apply (xlate_page read (root satp0) (ptw_vaddr_ w) va _ ltac:(lia) Hva (eq_sym E) X).
Qed.

Lemma drive_inv s now : mmu_inv s -> mmu_inv (upd s (drive_ptw CAP now (s_mmu s, s_io s))).
Proof.
  intros I. destruct (mi_ports _ I) as (L1 & L2 & L3 & L4). pose proof (mi_pos _ I) as Hn. unfold drive_ptw.
  destruct (ptw_state_ (ptw (s_mmu s))) eqn:Es; try by destruct s.
  - pose proof (mi_walk _ I ltac:(by rewrite Es)) as W. pose proof (mi_orig _ I ltac:(by rewrite Es)) as O.
    pose proof (mi_flight _ I) as Fl. unfold in_flight in Fl. rewrite Es in Fl. destruct Fl as (F1 & F2 & F3).
    unfold walking in W. rewrite Es in W.
    destruct (full CAP (ReqOut (s_io s)) 0);
      constructor; cbn [upd fst snd s_mmu s_io set_ptw set_state satp_ tlb_ ptw ReqIn RspOut ReqOut RspIn g_in g_sent g_rsp g_got g_pend g_satps
        ptw_orig_req_ ptw_state_]; try apply I; try done.
    + intros q Hq. destruct (mi_port _ I q Hq) as [P1 P2 P3 P4]. constructor; try done.
      erewrite held_same; [exact P1|cbn; by rewrite Es|done|done].
    + split_and!; try done. by apply len_insert.
    + rewrite push_lookup by lia. rewrite decide_True by done. unfold in_flight. cbn [ptw_state_ ptw_pte_addr_]. split; [done|].
      left. rewrite filter_snoc_True by done. by rewrite F1.
    + intros q Hq. destruct (mi_port _ I q Hq) as [P1 P2 P3 P4]. constructor; cbn [ReqIn RspOut ReqOut RspIn ptw set_ptw]; try done.
      * erewrite held_same; [|cbn; by rewrite Es|done|done]. rewrite push_lookup by lia. case_decide; [subst q|done].
        by rewrite filter_snoc_False.
      * intros Hq0. rewrite push_lookup by lia. rewrite decide_False by done. by apply P3.
  - pose proof (mi_walk _ I ltac:(by rewrite Es)) as W. pose proof (mi_orig _ I ltac:(by rewrite Es)) as O.
    pose proof (fill_entry _ (ptw_flags_ (ptw (s_mmu s))) W Es) as C. pose proof (fill_coherent _ _ _ _ (mi_tlb _ I) C) as T.
    pose proof (fill_xlate _ W Es) as X. destruct W as (W1 & W2 & W3 & W4 & W5).
    pose proof (mi_flight _ I) as Fl. unfold in_flight in Fl. rewrite Es in Fl. destruct Fl as (F1 & F2 & F3).
    destruct (full CAP (ReqOut (s_io s)) _);
      constructor; cbn [upd fst snd s_mmu s_io set_tlb set_state satp_ tlb_ ptw ReqIn RspOut ReqOut RspIn g_in g_sent g_rsp g_got g_pend g_satps
        ptw_orig_req_ ptw_state_]; try apply I; try done.
    + intros q Hq. by destruct (mi_port _ I q Hq).
    + split_and!; try done. by apply len_insert.
    + unfold in_flight. cbn [ptw_state_]. split_and!; try done. rewrite push_lookup by lia.
      destruct (decide (ptw_orig_port_ (ptw (s_mmu s)) = 0%nat)) as [E0|E0]; [|done].
      rewrite filter_snoc_False by (simpl; by rewrite O). by rewrite E0.
    + intros q Hq. destruct (mi_port _ I q Hq) as [(fwd & wait & P1 & Pw & Ps & P1') P2 P3 P4].
      constructor; cbn [ReqIn RspOut ReqOut RspIn ptw]; try done.
      * rewrite push_lookup by lia. unfold held in Pw |- *. cbn [ptw_state_ ptw_orig_port_].
        rewrite bool_decide_false by (by intros [? _]). destruct (decide (ptw_orig_port_ (ptw (s_mmu s)) = q)) as [E0|E0].
        -- subst q. rewrite bool_decide_true in Pw by (by rewrite Es). destruct wait as [|[q a] wait]; [done|]. simplify_list_eq.
           inversion Ps as [|? ? Ha Ps']; subst. exists (fwd ++ [((ptw_orig_req_ (ptw (s_mmu s)), a), length hist)]), wait.
           split_and!; [rewrite fmap_app, P1; solve_Permutation|done|done|]. rewrite filter_snoc_True by done. rewrite (assoc_L (++)).
           apply Forall2_app; [done|]. constructor; [|done]. apply sent_now; [done|]. eexists. split; [|done]. rewrite W4. by rewrite <- W1.
        -- rewrite bool_decide_false in Pw by (by intros [_ ?]). by exists fwd, wait.
      * intros Hq0. rewrite push_lookup by lia. destruct (decide (ptw_orig_port_ (ptw (s_mmu s)) = q)) as [E0|E0]; [|by apply P3]. subst q.
        rewrite filter_snoc_False by (simpl; by rewrite O). by apply P3.
Qed.

(** *** Requests *)

Lemma set_tlb_inv s t : mmu_inv s -> Forall coherent (entries_ t) -> mmu_inv (upd s (set_tlb (s_mmu s) t, s_io s)).
Proof. intros I T. constructor; cbn [upd fst snd s_mmu s_io set_tlb satp_ tlb_ ptw g_in g_sent g_rsp g_got g_pend g_satps]; try apply I; [done|]. intros q Hq. by destruct (mi_port _ I q Hq). Qed.

(** The head of a port leaves, translated. *)
Lemma send_inv s p req rest r :
  mmu_inv s -> (p < n)%nat -> ReqIn (s_io s) !!! p = req :: rest -> translated satp0 req r ->
  mmu_inv (upd s (s_mmu s, MkPorts (pop (ReqIn (s_io s)) p) (RspOut (s_io s)) (push (ReqOut (s_io s)) p r) (RspIn (s_io s)))).
Proof.
  intros I Hp Eq T. destruct (mi_ports _ I) as (L1 & L2 & L3 & L4).
  assert (marked (m_tag r) = false) as Hr.
  { destruct T as (pa & _ & ->). simpl. pose proof (po_in _ _ _ _ _ _ _ (mi_port _ I p Hp)) as F. rewrite Eq in F.
    inversion F as [|? ? [? _] _]; subst. done. }
  constructor; cbn [upd fst snd s_mmu s_io ReqIn RspOut ReqOut RspIn g_in g_sent g_rsp g_got g_pend g_satps]; try apply I.
  - split_and!; try done; by apply len_insert.
  - pose proof (mi_flight _ I) as Fl. rewrite push_lookup by lia. destruct (decide (p = 0%nat)) as [->|]; [|done].
    by rewrite filter_snoc_False by (rewrite Hr; done).
  - intros q Hq. destruct (mi_port _ I q Hq) as [(fwd & wait & P1 & Pw & Ps & P1') P2 P3 P4]. constructor; cbn [ReqIn RspOut ReqOut RspIn]; try done.
    + rewrite pop_lookup, push_lookup by lia. destruct (decide (p = q)) as [<-|]; [|by exists fwd, wait]. rewrite Eq in Pw |- *. simpl tail.
      apply fmap_app_inv in Pw as (w1 & w2 & E1 & E2 & ->). destruct w2 as [|[q0 a] w2]; [done|]. simplify_list_eq.
      apply Forall_app in Ps as [Ps1 Ps2]. inversion Ps2 as [|? ? Hs Ps3]; subst.
      exists (fwd ++ [((q0, a), length hist)]), (w1 ++ w2). rewrite !fmap_app.
      split_and!; [rewrite P1; solve_Permutation|by rewrite E1|by apply Forall_app|]. rewrite filter_snoc_True by done. rewrite (assoc_L (++)).
      apply Forall2_app; [done|]. constructor; [by apply sent_now|done].
    + rewrite pop_lookup by lia. destruct (decide (p = q)) as [<-|]; [|done]. rewrite Eq in P2 |- *. by inversion P2.
    + intros Hq0. rewrite push_lookup by lia. destruct (decide (p = q)) as [<-|]; [|by apply P3].
      rewrite filter_snoc_False by (rewrite Hr; done). by apply P3.
Qed.

(** A miss starts a walk for the head of a port. *)
Lemma start_walk_inv s p req rest now type :
  mmu_inv s -> (p < n)%nat -> ReqIn (s_io s) !!! p = req :: rest -> ptw_state_ (ptw (s_mmu s)) = PTW_IDLE -> on satp0 = true ->
  mmu_inv (upd s (start_ptw now (s_mmu s) (m_addr req) type req p,
    MkPorts (pop (ReqIn (s_io s)) p) (RspOut (s_io s)) (ReqOut (s_io s)) (RspIn (s_io s)))).
Proof.
  intros I Hp Eq Es On. destruct (mi_ports _ I) as (L1 & L2 & L3 & L4).
  pose proof (po_in _ _ _ _ _ _ _ (mi_port _ I p Hp)) as F. rewrite Eq in F. inversion F as [|? ? [Hr Ha] F']; subst.
  constructor; cbn [upd fst snd s_mmu s_io start_ptw satp_ tlb_ ptw ReqIn RspOut ReqOut RspIn g_in g_sent g_rsp g_got g_pend g_satps ptw_state_ ptw_orig_req_];
    try apply I; try done.
  - split_and!; try done; by apply len_insert.
  - intros _. refine (conj eq_refl (conj Ha (conj Hp (conj On _)))). simpl. unfold base_ppn, root. by rewrite (mi_satp _ I).
  - pose proof (mi_flight _ I) as Fl. unfold in_flight in *. rewrite Es in Fl. done.
  - intros q Hq. destruct (mi_port _ I q Hq) as [(fwd & wait & P1 & Pw & Ps & P1') P2 P3 P4]. constructor; cbn [ReqIn RspOut ReqOut RspIn ptw start_ptw]; try done.
    + exists fwd, wait. split_and!; try done. unfold held in *. cbn [ptw_state_ ptw_orig_port_ ptw_orig_req_].
      rewrite bool_decide_false in Pw by (rewrite Es; by intros [? _]). rewrite pop_lookup by lia. destruct (decide (p = q)) as [<-|].
      * rewrite bool_decide_true by done. rewrite Eq in Pw |- *. exact Pw.
      * rewrite bool_decide_false by (by intros [_ ?]). exact Pw.
    + rewrite pop_lookup by lia. destruct (decide (p = q)) as [<-|]; [|done]. by rewrite Eq.
Qed.

Lemma hit_addr ppn a : 0 <= ppn < 2 ^ 52 -> 0 <= a ->
  Z.lor (u64 (Z.shiftl ppn PAGE_LOG2_SIZE)) (Z.land a (Z.shiftl 1 PAGE_LOG2_SIZE - 1)) = ppn * 2 ^ 12 + a mod 2 ^ 12.
Proof.
  intros Hp Ha. unfold PAGE_LOG2_SIZE. change (Z.shiftl 1 12 - 1) with (Z.ones 12). rewrite Z.land_ones by lia.
  rewrite u64_small by (rewrite Z.shiftl_mul_pow2; lia). apply lor_disjoint; [lia|]. apply Z.mod_pos_bound. lia.
Qed.

Lemma forward_inv s now p : mmu_inv s -> (p < n)%nat -> mmu_inv (upd s (forward_port CAP now (s_mmu s, s_io s) p)).
Proof.
  intros I Hp. unfold forward_port. destruct (ReqIn (s_io s) !!! p) as [|req rest] eqn:Eq; [by destruct s|].
  assert (needs_translation (s_mmu s) = on satp0) as -> by (unfold needs_translation, on; by rewrite (mi_satp _ I)).
  pose proof (po_in _ _ _ _ _ _ _ (mi_port _ I p Hp)) as F. rewrite Eq in F. inversion F as [|? ? [Hr Ha] F']; subst.
  destruct (on satp0) eqn:On; cbn [negb].
  2: { destruct (full CAP (ReqOut (s_io s)) p); [by destruct s|]. apply (send_inv s p req rest); try done.
       exists (m_addr req). rewrite On. split; [done|]. by destruct req. }
  destruct (Tlb_lookup (tlb_ (s_mmu s)) _) as [r t] eqn:El.
  pose proof (lookup_coherent (tlb_ (s_mmu s)) (Z.shiftr (m_addr req) PAGE_LOG2_SIZE) (mi_tlb _ I)) as [T X]. rewrite El in T, X. simpl in T, X.
  pose proof (set_tlb_inv s t I T) as I'. destruct r as [ppn|].
  - destruct (full CAP (ReqOut (s_io s)) p); [done|].
    apply (send_inv (upd s (set_tlb (s_mmu s) t, s_io s)) p req rest); try done.
    destruct (X ppn eq_refl) as [Hppn Hx]. eexists. rewrite On. split; [|done].
    rewrite hit_addr by (done || lia). apply Hx; [lia|]. unfold PAGE_LOG2_SIZE. by rewrite Z.shiftr_div_pow2.
  - change (ptw_state_ (ptw (set_tlb (s_mmu s) t))) with (ptw_state_ (ptw (s_mmu s))).
    case_bool_decide as Ei; [|done]. by apply (start_walk_inv (upd s (set_tlb (s_mmu s) t, s_io s)) p req rest).
Qed.

Lemma forward_all_inv now ps : forall s, mmu_inv s -> Forall (fun p => (p < n)%nat) ps ->
  mmu_inv (upd s (foldl (forward_port CAP now) (s_mmu s, s_io s) ps)).
Proof.
  induction ps as [|p ps IH]; intros s I F; cbn [foldl]; [by destruct s|]. inversion F as [|? ? Hp F']; subst.
  pose proof (forward_inv s now p I Hp) as I'. destruct (forward_port CAP now (s_mmu s, s_io s) p) as [m io].
  apply (IH (upd s (m, io)) I' F').
Qed.

Lemma tick_inv s now x : mmu_inv s -> on_tick CAP now (s_mmu s, s_io s) = Some x -> mmu_inv (upd s x).
Proof.
  intros I. unfold on_tick. cbn [snd]. rewrite (proj1 (mi_ports _ I)).
  assert (Forall (fun p => (p < n)%nat) (seq 0 n)) as F by (apply list.Forall_forall; intros p Hp; apply elem_of_seq in Hp; lia).
  destruct (drain_all _ _ _) as [[m io]|] eqn:Ed; [|done]. bind_simpl. intros Ex%(inj Some). subst x.
  pose proof (drain_all_inv _ _ _ I F Ed) as I1. pose proof (drive_inv _ now I1) as I2.
  cbn [upd s_mmu s_io fst snd] in I2. destruct (drive_ptw CAP now (m, io)) as [m2 io2].
  apply (forward_all_inv now _ _ I2 F).
Qed.

(** *** The neighbours *)

Lemma request_inv m io gi gs gr gg gp gh p r :
  mmu_inv (MkSys m io gi gs gr gg gp gh) -> (p < length (ReqIn io))%nat -> marked (m_tag r) = false -> 0 <= m_addr r < 2 ^ 64 ->
  mmu_inv (MkSys m (MkPorts (push (ReqIn io) p r) (RspOut io) (ReqOut io) (RspIn io)) (push gi p (r, pred (length gh))) gs gr gg gp gh).
Proof.
  intros I Hp Hr Ha. destruct (mi_ports _ I) as (L1 & L2 & L3 & L4), (mi_ghosts _ I) as (G1 & G2 & G3 & G4). pose proof (mi_pos _ I) as Hn.
  cbn [s_mmu s_io g_in g_sent g_rsp g_got g_pend g_satps] in *.
  constructor; cbn [s_mmu s_io ReqIn RspOut ReqOut RspIn g_in g_sent g_rsp g_got g_pend g_satps]; try apply I.
  - split_and!; try done. by apply len_insert.
  - split_and!; try done. by apply len_insert.
  - intros q Hq. destruct (mi_port _ I q Hq) as [(fwd & wait & P1 & Pw & Ps & P1') P2 P3 P4]. constructor; cbn [ReqIn RspOut ReqOut RspIn]; try done.
    + rewrite !push_lookup by lia. destruct (decide (p = q)) as [<-|]; [|by exists fwd, wait].
      pose proof (mi_satps _ I) as Eh. cbn [g_satps] in Eh. subst gh. rewrite length_app, Nat.add_comm. simpl pred.
      exists fwd, (wait ++ [(r, length hist)]). cbn [s_mmu s_io g_in] in *. rewrite fmap_app, Pw, <- (assoc_L (++)).
      split_and!; [rewrite P1; solve_Permutation|done|apply Forall_app; split; [done|by constructor]|done].
    + rewrite push_lookup by lia. destruct (decide (p = q)) as [<-|]; [|done]. apply Forall_app. split; [done|by constructor].
Qed.

Lemma take_inv m io gi gs gr gg gp gh p r l :
  mmu_inv (MkSys m io gi gs gr gg gp gh) -> (p < length (ReqOut io))%nat -> ReqOut io !!! p = r :: l -> marked (m_tag r) = false ->
  mmu_inv (MkSys m (MkPorts (ReqIn io) (RspOut io) (pop (ReqOut io) p) (RspIn io)) gi (push gs p r) gr gg gp gh).
Proof.
  intros I Hp Eo Hr. destruct (mi_ports _ I) as (L1 & L2 & L3 & L4), (mi_ghosts _ I) as (G1 & G2 & G3 & G4). pose proof (mi_pos _ I) as Hn.
  cbn [s_mmu s_io g_in g_sent g_rsp g_got g_pend g_satps] in *.
  constructor; cbn [s_mmu s_io ReqIn RspOut ReqOut RspIn g_in g_sent g_rsp g_got g_pend g_satps]; try apply I.
  - split_and!; try done. by apply len_insert.
  - split_and!; try done. by apply len_insert.
  - pose proof (mi_flight _ I) as Fl. cbn [s_mmu s_io g_pend] in Fl. rewrite pop_lookup by lia.
    destruct (decide (p = 0%nat)) as [->|]; [|done]. rewrite Eo in Fl |- *. simpl tail. by rewrite filter_cons_False in Fl by (rewrite Hr; done).
  - intros q Hq. destruct (mi_port _ I q Hq) as [(fwd & wait & P1 & Pw & Ps & P1') P2 P3 P4]. constructor; cbn [ReqIn RspOut ReqOut RspIn]; try done.
    + exists fwd, wait. split_and!; try done. cbn [s_io g_sent] in P1'. rewrite pop_lookup, push_lookup by lia. destruct (decide (p = q)) as [<-|]; [|done].
      rewrite Eo in P1' |- *. simpl tail. rewrite filter_cons_True in P1' by done. by rewrite <- (assoc_L (++)).
    + intros Hq0. cbn [s_io] in P3. rewrite pop_lookup by lia. destruct (decide (p = q)) as [<-|]; [|by apply P3]. rewrite Eo in P3 |- *. simpl tail.
      by rewrite filter_cons_False in P3 by (rewrite Hr; done); apply P3.
Qed.

Lemma take_fetch_inv m io gi gs gr gg gp gh p r l :
  mmu_inv (MkSys m io gi gs gr gg gp gh) -> (p < length (ReqOut io))%nat -> ReqOut io !!! p = r :: l -> marked (m_tag r) = true ->
  mmu_inv (MkSys m (MkPorts (ReqIn io) (RspOut io) (pop (ReqOut io) p) (RspIn io)) gi gs gr gg (Some (m_addr r)) gh).
Proof.
  intros I Hp Eo Hr. destruct (mi_ports _ I) as (L1 & L2 & L3 & L4), (mi_ghosts _ I) as (G1 & G2 & G3 & G4). pose proof (mi_pos _ I) as Hn.
  cbn [s_mmu s_io g_in g_sent g_rsp g_got g_pend g_satps] in *.
  assert (p = 0%nat) as ->.
  { destruct (decide (p = 0%nat)) as [|Hp0]; [done|]. destruct (po_fetch _ _ _ _ _ _ _ (mi_port _ I p ltac:(lia)) Hp0) as [Hf _].
    cbn [s_io] in Hf. rewrite Eo, filter_cons_True in Hf by done. done. }
  pose proof (mi_flight _ I) as Fl. cbn [s_mmu s_io g_pend] in Fl. rewrite Eo, filter_cons_True in Fl by done. unfold in_flight in Fl.
  destruct (ptw_state_ (ptw m)) eqn:Es; try by destruct Fl as (? & _).
  destruct Fl as [Ea [(Ef & Eg & Er)|[(? & _)|(? & _)]]]; [|done|done]. injection Ef as Ef Erest. subst r.
  constructor; cbn [s_mmu s_io ReqIn RspOut ReqOut RspIn g_in g_sent g_rsp g_got g_pend g_satps]; try apply I.
  - split_and!; try done. by apply len_insert.
  - unfold in_flight. rewrite Es. split; [done|]. right. left. rewrite pop_lookup by lia. rewrite decide_True by done. by rewrite Eo.
  - intros q Hq. destruct (mi_port _ I q Hq) as [(fwd & wait & P1 & Pw & Ps & P1') P2 P3 P4]. constructor; cbn [ReqIn RspOut ReqOut RspIn]; try done.
    + exists fwd, wait. split_and!; try done. cbn [s_io g_sent] in P1'. rewrite pop_lookup by lia. destruct (decide (0%nat = q)) as [<-|]; [|done].
      rewrite Eo in P1' |- *. simpl tail. by rewrite filter_cons_False in P1'.
    + intros Hq0. cbn [s_io] in P3. rewrite pop_lookup by lia. rewrite decide_False by done. by apply P3.
Qed.

Lemma answer_inv m io gi gs gr gg a rsp gh :
  mmu_inv (MkSys m io gi gs gr gg (Some a) gh) -> marked (r_tag rsp) = true -> rsp_pte rsp a = read a ->
  mmu_inv (MkSys m (MkPorts (ReqIn io) (RspOut io) (ReqOut io) (push (RspIn io) 0 rsp)) gi gs gr gg None gh).
Proof.
  intros I Hr Ed. destruct (mi_ports _ I) as (L1 & L2 & L3 & L4), (mi_ghosts _ I) as (G1 & G2 & G3 & G4). pose proof (mi_pos _ I) as Hn.
  cbn [s_mmu s_io g_in g_sent g_rsp g_got g_pend g_satps] in *.
  pose proof (mi_flight _ I) as Fl. cbn [s_mmu s_io g_pend] in Fl. unfold in_flight in Fl.
  destruct (ptw_state_ (ptw m)) eqn:Es; try by destruct Fl as (_ & ? & _).
  destruct Fl as [Ea [(_ & ? & _)|[(Eo & Eg & Er)|(_ & ? & _)]]]; [done| |done]. injection Eg as ->.
  constructor; cbn [s_mmu s_io ReqIn RspOut ReqOut RspIn g_in g_sent g_rsp g_got g_pend g_satps]; try apply I.
  - split_and!; try done. by apply len_insert.
  - unfold in_flight. rewrite Es. split; [done|]. right. right. rewrite push_lookup by lia. rewrite decide_True by done.
    rewrite filter_snoc_True by done. rewrite Er. split_and!; try done. by exists rsp.
  - intros q Hq. destruct (mi_port _ I q Hq) as [P1 P2 P3 P4]. constructor; cbn [ReqIn RspOut ReqOut RspIn]; try done.
    + intros Hq0. rewrite push_lookup by lia. rewrite decide_False by done. by apply P3.
    + cbn [s_io g_rsp g_got] in P4. rewrite push_lookup by lia. destruct (decide (0%nat = q)) as [<-|]; [|done].
      by rewrite filter_snoc_False by (rewrite Hr; done).
Qed.

Lemma respond_inv m io gi gs gr gg gp gh p rsp :
  mmu_inv (MkSys m io gi gs gr gg gp gh) -> (p < length (RspIn io))%nat -> marked (r_tag rsp) = false ->
  mmu_inv (MkSys m (MkPorts (ReqIn io) (RspOut io) (ReqOut io) (push (RspIn io) p rsp)) gi gs (push gr p rsp) gg gp gh).
Proof.
  intros I Hp Hr. destruct (mi_ports _ I) as (L1 & L2 & L3 & L4), (mi_ghosts _ I) as (G1 & G2 & G3 & G4). pose proof (mi_pos _ I) as Hn.
  cbn [s_mmu s_io g_in g_sent g_rsp g_got g_pend g_satps] in *.
  constructor; cbn [s_mmu s_io ReqIn RspOut ReqOut RspIn g_in g_sent g_rsp g_got g_pend g_satps]; try apply I.
  - split_and!; try done. by apply len_insert.
  - split_and!; try done. by apply len_insert.
  - pose proof (mi_flight _ I) as Fl. cbn [s_mmu s_io g_pend] in Fl. rewrite push_lookup by lia.
    destruct (decide (p = 0%nat)) as [->|]; [|done]. by rewrite filter_snoc_False by (rewrite Hr; done).
  - intros q Hq. destruct (mi_port _ I q Hq) as [P1 P2 P3 P4]. constructor; cbn [ReqIn RspOut ReqOut RspIn]; try done.
    + intros Hq0. cbn [s_io] in P3. rewrite push_lookup by lia. destruct (decide (p = q)) as [<-|]; [|by apply P3].
      rewrite filter_snoc_False by (rewrite Hr; done). by apply P3.
    + cbn [s_io g_rsp g_got] in P4. rewrite !push_lookup by lia. destruct (decide (p = q)) as [<-|]; [|done].
      rewrite filter_snoc_True by done. rewrite P4. by rewrite <- !(assoc_L (++)).
Qed.

Lemma collect_inv m io gi gs gr gg gp gh p rsp l :
  mmu_inv (MkSys m io gi gs gr gg gp gh) -> (p < length (RspOut io))%nat -> RspOut io !!! p = rsp :: l ->
  mmu_inv (MkSys m (MkPorts (ReqIn io) (pop (RspOut io) p) (ReqOut io) (RspIn io)) gi gs gr (push gg p rsp) gp gh).
Proof.
  intros I Hp Eo. destruct (mi_ports _ I) as (L1 & L2 & L3 & L4), (mi_ghosts _ I) as (G1 & G2 & G3 & G4). pose proof (mi_pos _ I) as Hn.
  cbn [s_mmu s_io g_in g_sent g_rsp g_got g_pend g_satps] in *.
  constructor; cbn [s_mmu s_io ReqIn RspOut ReqOut RspIn g_in g_sent g_rsp g_got g_pend g_satps]; try apply I.
  - split_and!; try done. by apply len_insert.
  - split_and!; try done. by apply len_insert.
  - intros q Hq. destruct (mi_port _ I q Hq) as [P1 P2 P3 P4]. constructor; cbn [ReqIn RspOut ReqOut RspIn]; try done.
    cbn [s_io g_rsp g_got] in P4. rewrite pop_lookup, push_lookup by lia. destruct (decide (p = q)) as [<-|]; [|done].
    rewrite Eo in P4 |- *. simpl tail. rewrite P4. by rewrite <- !(assoc_L (++)).
Qed.

(** A reset with no walk under way changes nothing. *)
Lemma on_reset_idle m : ptw_state_ (ptw m) = PTW_IDLE -> on_reset m = m.
Proof. destruct m as [? ? [] ? ? ?]; simpl. by intros ->. Qed.

(** A fault of the walker is a fault of the table. *)
Lemma response_faults w r :
  walking w -> ptw_state_ w = PTW_WAIT -> ptw_pte_addr_ w = fetch_addr w ->
  rsp_pte r (ptw_pte_addr_ w) = read (ptw_pte_addr_ w) -> on_ptw_response w r = None -> xlate read (root satp0) (ptw_vaddr_ w) = None.
Proof.
  intros (_ & _ & _ & _ & W) Es Ea Er. rewrite Es in W. unfold on_ptw_response, xlate. rewrite Er, Ea, fetch_addr_eq, <- W.
  destruct (ptw_level_ w) as [|l]; cbn [mmu_walk]; (destruct (PTE_of_bytes _); [|done]); bind_simpl;
    (destruct (negb (pte_v _) || _); [done|]); by destruct (_ || _ || _).
Qed.

Lemma drain_faults s p : mmu_inv s -> (p < n)%nat -> drain_port CAP (s_mmu s, s_io s) p = None ->
  p = 0%nat /\ ptw_state_ (ptw (s_mmu s)) = PTW_WAIT /\ xlate read (root satp0) (m_addr (ptw_orig_req_ (ptw (s_mmu s)))) = None.
Proof.
  intros I Hp. unfold drain_port. destruct (RspIn (s_io s) !!! p) as [|rsp rest] eqn:Er; [done|].
  destruct (marked (r_tag rsp)) eqn:Em; [|by destruct (full _ _ _)].
  assert (p = 0%nat) as ->.
  { destruct (decide (p = 0%nat)) as [|Hp0]; [done|]. destruct (po_fetch _ _ _ _ _ _ _ (mi_port _ I p Hp) Hp0) as [_ Ha].
    rewrite Er, filter_cons_True in Ha by done. done. }
  pose proof (mi_flight _ I) as Fl. unfold in_flight in Fl. rewrite Er, filter_cons_True in Fl by done.
  case_bool_decide as Es; [|done]. rewrite Es in Fl. destruct Fl as [Ea [(_ & _ & ?)|[(_ & _ & ?)|(_ & _ & r & Err & Ed)]]]; [done|done|].
  injection Err as <- _. destruct (on_ptw_response _ _) eqn:Ew; [done|]. intros _. split; [done|]. split; [done|].
  pose proof (mi_walk _ I ltac:(by rewrite Es)) as W. rewrite <- (proj1 W). by apply (response_faults _ rsp W).
Qed.

Lemma drain_all_some ps : forall s, mmu_inv s -> Forall (fun p => (p < n)%nat /\ p <> 0%nat) ps ->
  drain_all CAP (s_mmu s, s_io s) ps <> None.
Proof.
  induction ps as [|p ps IH]; intros s I F; cbn [drain_all]; [done|]. inversion F as [|? ? [Hp Hp0] F']; subst.
  destruct (drain_port _ _ _) as [[m io]|] eqn:E; [|by destruct (drain_faults s p I Hp E)].
  bind_simpl. apply (IH (upd s (m, io))); [by eapply drain_inv|done].
Qed.
End Inv.

(** A new root: the buffer is empty, and what was sent under the old root
    stays as it is. *)
Lemma set_satp_inv hist sp n m io gi gs gr gg gp gh satp :
  mmu_inv hist sp n (MkSys m io gi gs gr gg gp gh) -> ptw_state_ (ptw m) = PTW_IDLE ->
  mmu_inv (hist ++ [sp]) (Some (SATP_of_bits satp)) n (MkSys (set_satp m satp) io gi gs gr gg gp (gh ++ [Some (SATP_of_bits satp)])).
Proof.
  intros I Ei. pose proof (mi_satps _ _ _ _ I) as Eh. cbn [g_satps] in Eh. subst gh.
  constructor; cbn [s_mmu s_io set_satp satp_ tlb_ ptw g_in g_sent g_rsp g_got g_pend g_satps]; try apply I; try done.
  - apply flush_coherent.
  - intros q Hq. destruct (mi_port _ _ _ _ I q Hq) as [(fwd & wait & P1 & Pw & Ps & P1') P2 P3 P4]. constructor; try done.
    exists fwd, wait. split_and!; [done|done| |].
    + eapply list.Forall_impl; [exact Ps|]. cbn. intros x Hx. rewrite length_app. lia.
    + eapply Forall2_impl; [|exact P1']. intros x r (Hx & s & Es & T). split; [done|]. exists s. split; [by apply lookup_app_l_Some|done].
Qed.

#[local] Hint Resolve request_inv take_inv take_fetch_inv answer_inv respond_inv collect_inv set_satp_inv : mmu.

Lemma step_inv hist sp n s s' : step s s' -> mmu_inv hist sp n s -> exists hist' sp', mmu_inv hist' sp' n s'.
Proof.
  intros St I. destruct St as [m io m' io' gi gs gr gg gp gh now E| | | | | | | |m io gi gs gr gg gp gh Ei]; eauto with mmu.
  - exists hist, sp. exact (tick_inv _ _ _ _ now (m', io') I E).
  - rewrite on_reset_idle by done. eauto.
Qed.

Section Contract.
Context (n size : nat).

(** The MMU as it is constructed, nothing in its channels. *)
Definition start : Sys :=
  MkSys (MkMmu None (Tlb_new size) (MkPtw PTW_IDLE 0 LOAD 0 0 0 0 0 0 (MkReq 0 false 0 0) 0) 0 0 0)
    (MkPorts (replicate n []) (replicate n []) (replicate n []) (replicate n [])) (replicate n []) (replicate n []) (replicate n []) (replicate n []) None
    [None].

Lemma start_inv0 : (0 < n)%nat -> mmu_inv [] None n start.
Proof.
  intros Hn. constructor; simpl; try done.
  - split_and!; apply length_replicate.
  - split_and!; apply length_replicate.
  - apply Forall_replicate. done.
  - unfold in_flight. simpl. by rewrite !lookup_total_replicate_2.
  - intros p Hp. constructor; simpl; rewrite ?lookup_total_replicate_2 by done; try done. by exists [], [].
Qed.

Lemma reachable_inv s : (0 < n)%nat -> rtc step start s -> exists hist sp, mmu_inv hist sp n s.
Proof.
  intros Hn R. pose proof (start_inv0 Hn) as I. revert I. generalize (@nil (option SATP_t)), (@None SATP_t).
  induction R as [|s1 s2 s3 St _ IH]; intros hist sp I; [by eauto|]. destruct (step_inv _ _ _ _ _ St I) as (hist' & sp' & I'). by eapply IH.
Qed.

(** C9. The MMU is transparent but for the address.  In every state reached
    from construction by any interleaving of its ticks with its neighbours'
    traffic, with writes of the register and with resets, per port: the
    requests that came in are, each exactly once, those sent on, the one its
    walk holds and those still waiting; each one sent on is the request itself
    at the address the page table gives under a root that was in force at
    some time between its arrival and its departure (its own address when
    translation was off under it), the address the host's walk gives wherever that
    walk succeeds; the last root recorded is the one in the register; and
    the core has received exactly the memory's responses, in order, none of
    them an answer to a table fetch.  The register is written and the
    simulator reset only when no walk is under way, the memory answers table
    fetches from one fixed content of the tables, and no request carries the
    walker's tag.  [satp_change_during_walk] shows that the first condition
    is needed. *)
Theorem mmu_transparent s p :
  (0 < n)%nat -> rtc step start s -> (p < n)%nat ->
  exists fwd waiting,
    g_in s !!! p ≡ₚ fwd.*1 ++ waiting /\
    Forall2 (fun x r => exists sp pa, (x.1.2 <= x.2)%nat /\ g_satps s !! x.2 = Some sp /\ r = with_addr x.1.1 pa /\
        (if on sp then xlate read (root sp) (m_addr x.1.1) = Some pa /\
           (forall pa', page_table_walk read (root sp) (m_addr x.1.1) = inr pa' -> pa' = pa)
         else pa = m_addr x.1.1))
      fwd (g_sent s !!! p ++ filter (fun r => marked (m_tag r) = false) (ReqOut (s_io s) !!! p)) /\
    waiting.*1 = held (ptw (s_mmu s)) p ++ ReqIn (s_io s) !!! p /\
    list.last (g_satps s) = Some (satp_ (s_mmu s)) /\
    g_rsp s !!! p = g_got s !!! p ++ RspOut (s_io s) !!! p ++ filter (fun r => marked (r_tag r) = false) (RspIn (s_io s) !!! p).
Proof.
  intros Hn R Hp. destruct (reachable_inv s Hn R) as (hist & sp & I). destruct (mi_port _ _ _ _ I p Hp) as [(fwd & wait & P1 & Pw & _ & P2) _ _ P4].
  exists fwd, wait. rewrite (mi_satps _ _ _ _ I), (mi_satp _ _ _ _ I), list.last_snoc. split_and!; try done.
  eapply Forall2_impl; [|exact P2]. intros x r (Hx & sp' & Es & pa & E & Er). exists sp', pa. split_and!; try done.
  destruct (on sp'); [|done]. split; [done|]. intros pa' E'. apply xlate_host in E'. congruence.
Qed.

(** The simulator aborts on page faults only: when a tick of a reachable
    state fails, the walk under way is for an address that has no translation
    in the table. *)
Theorem mmu_aborts_on_fault s now :
  (0 < n)%nat -> rtc step start s -> on_tick CAP now (s_mmu s, s_io s) = None ->
  exists q p, (p < n)%nat /\ q ∈ held (ptw (s_mmu s)) p /\ xlate read (root (satp_ (s_mmu s))) (m_addr q) = None.
Proof.
  intros Hn R. destruct (reachable_inv s Hn R) as (hist & sp & I). clear R. unfold on_tick. cbn [snd]. rewrite (proj1 (mi_ports _ _ _ _ I)).
  replace n with (S (n - 1)) by lia. cbn [seq drain_all].
  destruct (drain_port _ _ _) as [[m io]|] eqn:E; bind_simpl.
  - destruct (drain_all _ _ _) as [x|] eqn:Ed; [done|]. exfalso. revert Ed.
    apply (drain_all_some hist sp n _ (upd s (m, io))); [by apply (drain_inv hist sp n s 0)|].
    apply list.Forall_forall. intros p Hp. apply elem_of_seq in Hp. lia.
  - intros _. destruct (drain_faults hist sp n s 0 I Hn E) as (_ & Es & X).
    pose proof (mi_walk _ _ _ _ I ltac:(by rewrite Es)) as (_ & _ & Hp & _).
    exists (ptw_orig_req_ (ptw (s_mmu s))), (ptw_orig_port_ (ptw (s_mmu s))). rewrite (mi_satp _ _ _ _ I). split_and!; [lia| |done].
    unfold held. rewrite bool_decide_true by (by rewrite Es). by apply list_elem_of_singleton.
Qed.
End Contract.
End System.

(** ** Runs *)

(** The steps as actions to run. *)
Inductive action :=
| A_tick (now : Z) | A_request (p : nat) (r : MemReq) | A_take (p : nat) | A_answer (rsp : MemRsp)
| A_respond (p : nat) (rsp : MemRsp) | A_collect (p : nat) | A_set_satp (satp : Z) | A_reset.

Section Runs.
Context `{VxConfig} (CAP : nat) (read : Z -> Z).

Definition act (s : Sys) (a : action) : option Sys :=
  let '(MkSys m io gi gs gr gg gp gh) := s in
  match a with
  | A_tick now => '(m', io') ← on_tick CAP now (m, io); Some (MkSys m' io' gi gs gr gg gp gh)
  | A_request p r =>
      if bool_decide (p < length (ReqIn io))%nat && negb (marked (m_tag r)) && (0 <=? m_addr r) && (m_addr r <? 2 ^ 64)
      then Some (MkSys m (MkPorts (push (ReqIn io) p r) (RspOut io) (ReqOut io) (RspIn io)) (push gi p (r, pred (length gh))) gs gr gg gp gh)
      else None
  | A_take p =>
      match ReqOut io !!! p with
      | r :: _ =>
          if bool_decide (p < length (ReqOut io))%nat
          then Some (MkSys m (MkPorts (ReqIn io) (RspOut io) (pop (ReqOut io) p) (RspIn io)) gi
                 (if marked (m_tag r) then gs else push gs p r) gr gg (if marked (m_tag r) then Some (m_addr r) else gp) gh)
          else None
      | [] => None
      end
  | A_answer rsp =>
      x ← gp;
      if marked (r_tag rsp) && (rsp_pte rsp x =? read x)
      then Some (MkSys m (MkPorts (ReqIn io) (RspOut io) (ReqOut io) (push (RspIn io) 0 rsp)) gi gs gr gg None gh) else None
  | A_respond p rsp =>
      if bool_decide (p < length (RspIn io))%nat && negb (marked (r_tag rsp))
      then Some (MkSys m (MkPorts (ReqIn io) (RspOut io) (ReqOut io) (push (RspIn io) p rsp)) gi gs (push gr p rsp) gg gp gh) else None
  | A_collect p =>
      match RspOut io !!! p with
      | rsp :: _ =>
          if bool_decide (p < length (RspOut io))%nat
          then Some (MkSys m (MkPorts (ReqIn io) (pop (RspOut io) p) (ReqOut io) (RspIn io)) gi gs gr (push gg p rsp) gp gh) else None
      | [] => None
      end
  | A_set_satp satp => Some (MkSys (set_satp m satp) io gi gs gr gg gp (gh ++ [Some (SATP_of_bits satp)]))
  | A_reset => Some (MkSys (on_reset m) io gi gs gr gg gp gh)
  end.

(** The register is written and the simulator reset between walks. *)
Definition quiet (s : Sys) (a : action) : bool :=
  match a with A_set_satp _ | A_reset => bool_decide (ptw_state_ (ptw (s_mmu s)) = PTW_IDLE) | _ => true end.

Fixpoint acts (s : Sys) (l : list action) : option Sys :=
  match l with [] => Some s | a :: l => s' ← act s a; acts s' l end.

Fixpoint all_quiet (s : Sys) (l : list action) : bool :=
  match l with [] => true | a :: l => quiet s a && match act s a with Some s' => all_quiet s' l | None => true end end.

Lemma act_step s a s' : quiet s a = true -> act s a = Some s' -> step CAP read s s'.
Proof.
  destruct s as [m io gi gs gr gg gp gh], a as [now|p r|p|rsp|p rsp|p|satp|]; simpl; intros Q E; rewrite ?bool_decide_eq_true in Q.
  - destruct (on_tick _ _ _) as [[m' io']|] eqn:Et; [|done]. simplify_option_eq. by eapply st_tick.
  - destruct (bool_decide _ && _ && _ && _) eqn:Eg; [|done]. simplify_eq. rewrite !andb_true_iff, bool_decide_eq_true, negb_true_iff in Eg.
    apply st_request; [tauto..|]. lia.
  - destruct (ReqOut io !!! p) as [|r l] eqn:Eo; [done|]. case_bool_decide as Hp; [|done]. simplify_eq.
    destruct (marked (m_tag r)) eqn:Er; [by eapply st_take_fetch|by eapply st_take].
  - destruct gp as [x|]; [|done]. simpl in E. destruct (marked _) eqn:Em; [|done]. simpl in E.
    destruct (_ =? _) eqn:Ex; [|done]. simplify_eq. apply st_answer; [done|by apply Z.eqb_eq].
  - case_bool_decide as Hp; [|done]. destruct (marked _) eqn:Em; [done|]. simplify_eq/=. by apply st_respond.
  - destruct (RspOut io !!! p) as [|r l] eqn:Eo; [done|]. case_bool_decide as Hp; [|done]. simplify_eq. by eapply st_collect.
  - simplify_eq. by apply st_set_satp.
  - simplify_eq. by apply st_reset.
Qed.

Lemma acts_rtc l : forall s s', all_quiet s l = true -> acts s l = Some s' -> rtc (step CAP read) s s'.
Proof.
  induction l as [|a l IH]; intros s s'; simpl; [by intros _ [= ->]; reflexivity|]. rewrite andb_true_iff. intros [Q A].
  destruct (act s a) as [s1|] eqn:E; [|done]. simpl. intros R. eapply rtc_l; [by eapply act_step|by apply IH].
Qed.
End Runs.

(** ** Instances *)

(** Two roots, the tables of which map everything below 4 MB to a megapage at
    4 MB and at 8 MB; a request, and a walk for it up to the answer of the
    memory. *)
Definition demo_read (a : Z) : Z := if a <? 0x2000 then 0x10000F else 0x20000F.
Definition demo_line (pte : Z) : MemRsp := MkRsp PTW_TAG_MARKER (Some (concat (replicate 16 (le_bytes 4 pte)))) 0.
Definition demo_req : MemReq := MkReq 0x12345 false 7 9.
Definition demo_walk (satp pte t : Z) : list action :=
  [A_set_satp satp; A_request 0 demo_req; A_tick t; A_tick (t + 1); A_take 0; A_answer (demo_line pte)].

(** A request under each of the two roots in turn: the second is sent at
    the address of the second table. *)
Lemma mmu_transparent_witness : let _ := default_config in
  exists s (fwd : list (MemReq * nat * nat)) waiting, rtc (step 2 demo_read) (start 1 4) s /\
    g_in s = [[(demo_req, 1%nat); (demo_req, 2%nat)]] /\ [(demo_req, 1%nat); (demo_req, 2%nat)] ≡ₚ fwd.*1 ++ waiting /\ waiting = [] /\
    g_sent s = [[with_addr demo_req 0x412345]] /\
    filter (fun r => marked (m_tag r) = false) (ReqOut (s_io s) !!! 0%nat) = [with_addr demo_req 0x812345].
Proof.
  intros cfg.
  destruct (acts 2 demo_read (start 1 4)
    (demo_walk 0x80000001 0x10000F 0 ++ [A_tick 2; A_take 0; A_reset] ++ demo_walk 0x80000002 0x20000F 3 ++ [A_tick 5])) as [s|] eqn:E;
    [|vm_compute in E; discriminate].
  assert (rtc (step 2 demo_read) (start 1 4) s) as R by (eapply acts_rtc; [|exact E]; vm_compute; reflexivity).
  destruct (mmu_transparent 2 demo_read 1 4 s 0 ltac:(lia) R ltac:(lia)) as (fwd & waiting & P & _ & W & _).
  exists s, fwd, waiting. split; [exact R|]. clear R. vm_compute in E. injection E as <-. split; [reflexivity|]. split; [exact P|].
  split; [by destruct waiting|]. split; reflexivity.
Defined.

(** [set_satp] empties the buffer and leaves a walk under way alone.  When
    the register is written during a walk, the walk's fill puts the old
    root's translation in the buffer, and a request that comes later is sent at the
    old root's address. *)
Theorem satp_change_during_walk : let _ := default_config in
  exists s, acts 2 demo_read (start 1 4)
      (demo_walk 0x80000001 0x10000F 0 ++ [A_set_satp 0x80000002; A_tick 2; A_take 0; A_request 0 demo_req; A_tick 3]) = Some s /\
    g_in s = [[(demo_req, 1%nat); (demo_req, 2%nat)]] /\ g_satps s = [None; Some (SATP_of_bits 0x80000001); Some (SATP_of_bits 0x80000002)] /\
    g_sent s = [[with_addr demo_req 0x412345]] /\ ReqOut (s_io s) = [[with_addr demo_req 0x412345]] /\
    xlate demo_read (root (Some (SATP_of_bits 0x80000002))) (m_addr demo_req) = Some 0x812345.
Proof. intros cfg. eexists. split_and!; [vm_compute; reflexivity|reflexivity..]. Qed.

Lemma mmu_aborts_on_fault_witness : let _ := default_config in
  exists s q p, rtc (step 2 (fun _ => 0)) (start 1 4) s /\ on_tick 2 2 (s_mmu s, s_io s) = None /\
    q ∈ held (ptw (s_mmu s)) p /\ xlate (fun _ => 0) (root (satp_ (s_mmu s))) (m_addr q) = None.
Proof.
  intros cfg. destruct (acts 2 (fun _ => 0) (start 1 4) (demo_walk 0x80000001 0 0)) as [s|] eqn:E; [|vm_compute in E; discriminate].
  assert (rtc (step 2 (fun _ => 0)) (start 1 4) s) as R by (eapply acts_rtc; [|exact E]; vm_compute; reflexivity).
  assert (on_tick 2 2 (s_mmu s, s_io s) = None) as T by (vm_compute in E; injection E as <-; vm_compute; reflexivity).
  destruct (mmu_aborts_on_fault 2 (fun _ => 0) 1 4 s 2 ltac:(lia) R T) as (q & p & _ & Hq & X).
  exists s, q, p. split; [exact R|]. split; [exact T|]. split; [exact Hq|exact X].
Defined.
