(* ===== verification/Translation.v ===== *)
(** * The host's page table as the device uses it

    [VMManager] writes the tables, the MMU of each core and the copy engine of
    the command processor walk them.  This file composes the three: a buffer
    the host maps is reached by every request of a core at the bytes the host
    meant.  The device reads its memory as the host left it after the flush. *)

From S2P Require Import Prelude Bitmanip PageTable MemAlloc Radix Vm Mmu.

Section Translation.
Context `{VxConfig}.

(** The MMU started with the register value the host wrote. *)
Lemma satp_of_host s T n : vm_inv s T n ->
  on (Some (SATP_of_bits (Vm.satp s))) = true /\ root (Some (SATP_of_bits (Vm.satp s))) = get_base_ppn s.
Proof.
  intros I. pose proof (vi_satp _ _ _ I) as E. unfold Vm.satp, get_base_ppn. rewrite E.
  destruct satp_start as (x & Ex & Ep & Em). rewrite Ex.
  destruct (satp_roundtrip (ROOT * 2 ^ 12) 0 x) as (-> & Hm & _); [unfold ROOT, PA_BITS; destruct sv39; simpl; lia|destruct sv39; lia|done|].
  split; [|done]. unfold on. by rewrite (proj2 (Z.eqb_neq _ _)).
Qed.

(** C16. A mapped buffer is what the device accesses.  When the host maps a
    buffer, the address it returns is such that the copy engine translates
    every byte of the buffer to its physical byte, and in every state the MMU
    of a core reaches with that table, whatever the interleaving of its ports
    and of the memory's answers, every request that came after the host's
    register value was set and was sent on for a byte of the buffer carries
    that byte's physical address.  The buffer is fresh (none of its physical
    pages has a virtual address yet, and the range the allocator gives has no
    translation), it starts on a page both physically and virtually, addresses
    are not randomised, both ranges end below the limits of the address
    widths, the page-table area has room for the tables the mapping may need,
    and the register was written once. *)
Theorem buffer_reaches_memory draw s T n size pAddr flags a m m' :
  vm_inv s T n -> randomize_va_ s = false -> virtual_mem_ s = Some m -> allocate m size = Some (Some a, m') ->
  0 < size -> 0 <= pAddr -> (4096 | pAddr) -> 0 <= a -> (4096 | a) ->
  pAddr + size + 4096 <= 2 ^ PA_BITS -> a + size + 4096 < 2 ^ VA_BITS ->
  4096 * (Z.of_nat n + 2 * (size / 4096 + 1)) <= PT_SIZE_LIMIT ->
  (forall i, 0 <= i < (size + 4095) / 4096 -> addr_mapping s !! (pAddr / 4096 + i) = None) ->
  (forall o, 0 <= o < size + 4096 -> tr s (a + o) = None) ->
  exists s', phy_to_virt_map draw s size pAddr flags = Some (a, s') /\
    (forall o, 0 <= o < size -> cp_translate (read_page (dev_pt s')) (Vm.satp s') (a + o) false = Some (pAddr + o)) /\
    (forall cap ports entries sys p,
      (0 < ports)%nat -> (p < ports)%nat ->
      rtc (step cap (read_page (dev_pt s'))) (start ports entries) sys ->
      g_satps sys = [None; Some (SATP_of_bits (Vm.satp s'))] ->
      exists fwd, fwd ⊆+ g_in sys !!! p /\
        Forall2 (fun x r => exists pa, r = with_addr x.1 pa /\
            forall o, 0 <= o < size -> x.2 = 1%nat -> m_addr x.1 = a + o -> pa = pAddr + o)
          fwd (g_sent sys !!! p ++ filter (fun r => marked (m_tag r) = false) (ReqOut (s_io sys) !!! p))).
Proof.
  intros I Hr Em Ea Hs Hp Dp Ha Da Hpb Hab Hn Hm Ht.
  destruct (phy_to_virt_map_maps draw s T n size pAddr flags a m m' I Hr Em Ea Hs Hp Dp Ha Da Hpb Hab Hn Hm Ht)
    as (s' & T' & n' & E & I' & M & _).
  exists s'. split_and!; [done|intros o Ho; apply (M o Ho)|]. intros cap ports entries sys p H0 Hlt R Eh.
  apply reachable_inv in R as (hist & sp & R); [|done]. rewrite (mi_satps _ _ _ _ _ R) in Eh.
  destruct (mi_port _ _ _ _ _ R p Hlt) as [(fwd & wait & P & _ & _ & F) _ _ _]. rewrite Eh in F.
  destruct (satp_of_host s' T' n' I') as [Eon Eroot].
  exists (fwd.*1). split; [rewrite P; apply submseteq_inserts_r, reflexivity|]. apply Forall2_fmap_l. eapply Forall2_impl; [|exact F].
  intros [[q came] left] r (Hl & sp' & Es & pa & X & ->). cbn [fst snd] in *. exists pa. split; [done|]. intros o Ho Ec Eq.
  simpl in Hl, Es, Ec, Eq. destruct left as [|[|?]]; [lia| |done]. injection Es as <-. rewrite Eon, Eroot, Eq in X.
  destruct (M o Ho) as (_ & _ & W). apply xlate_host in W. congruence.
Qed.
End Translation.

Lemma buffer_reaches_memory_witness : let _ := default_config in
  exists s s', vm_init (VMManager_new false ∅) = Some (0, s) /\
    phy_to_virt_map (fun _ _ => 0) s 8192 0x40000 1 = Some (0x10000, s') /\
    cp_translate (read_page (dev_pt s')) (Vm.satp s') 0x11fff false = Some 0x41fff.
Proof.
  intros cfg. destruct (vm_init_spec false ∅) as (s & T & n & E & I & _ & Em & Er & Ev & Hn & Ht).
  destruct first_two_pages as [m Ea].
  destruct (buffer_reaches_memory (fun _ _ => 0) s T n 8192 0x40000 1 0x10000 _ m I Er Ev Ea) as (s' & E' & M & _).
  - lia.
  - lia.
  - exists 64. reflexivity.
  - lia.
  - exists 16. reflexivity.
  - apply Z.leb_le. reflexivity.
  - apply Z.ltb_lt. reflexivity.
  - change (if sv39 then 2209 else 33)%nat with 33%nat in Hn. change (8192 / 4096) with 2. change PT_SIZE_LIMIT with (2 ^ 23). lia.
  - intros i _. rewrite Em. apply lookup_empty.
  - intros o Ho. apply user_unmapped; [exact Ht|lia].
  - exists s, s'. split_and!; [exact E|exact E'|exact (M 0x1fff ltac:(lia))].
Defined.
