(* ===== verification/Ram.v ===== *)
(** * Simulated device memory (sim/common/mem.h, sim/common/mem.cpp)

    [ACLManager] keeps access flags for address ranges in an ordered map,
    modelled by a list of entries in increasing order of their keys.  [RAM]
    is a sparse byte memory: a directory of chunks of page pointers, pages made
    on the first write, a sentinel page that unmapped reads are served from and
    a cache of the last chunk used.  A chunk is named by the key it is stored
    under, a byte by the pointer [get] returns.  An operation returns the
    exception it throws together with the state it leaves. *)

From S2P Require Import Prelude Bitmanip.

(** ** [ACLManager] *)

Record acl_entry_t := Acl { acl_end : Z; acl_flags : Z }.
Abbreviation acl_map := (list (Z * acl_entry_t)).

(** [std::map]: assignment, [emplace] and [erase] by key. *)
Fixpoint map_put (m : acl_map) (k : Z) (e : acl_entry_t) : acl_map :=
  match m with
  | [] => [(k, e)]
  | (k', e') :: m' => if k <? k' then (k, e) :: m else if k =? k' then (k, e) :: m' else (k', e') :: map_put m' k e
  end.
Definition map_find (m : acl_map) (k : Z) : option acl_entry_t := snd <$> head (filter (fun x => x.1 = k) m).
Definition map_emplace (m : acl_map) (k : Z) (e : acl_entry_t) : acl_map :=
  match map_find m k with Some _ => m | None => map_put m k e end.
Definition map_erase (m : acl_map) (k : Z) : acl_map := filter (fun x => x.1 <> k) m.

(** [lower_bound], and the step back both operations take: the entries from
    the iterator on, and the one before it. *)
Fixpoint acl_start (addr : Z) (prev : option (Z * acl_entry_t)) (m : acl_map) : acl_map :=
  match m with
  | x :: m' =>
      if x.1 <? addr then acl_start addr (Some x) m'
      else match prev with Some p => if acl_end p.2 <? addr then m else p :: m | None => m end
  | [] => match prev with Some p => if acl_end p.2 <? addr then [] else [p] | None => [] end
  end.

Fixpoint acl_cut (addr end_ : Z) (it m : acl_map) : acl_map :=
  match it with
  | (first, e) :: it =>
      if first <? end_ then
        if acl_end e <=? addr then acl_cut addr end_ it m
        else
          let m := if end_ <? acl_end e then map_put m end_ e else m in
          let m := if first <? addr then map_put m first (Acl addr (acl_flags e)) else map_erase m first in
          acl_cut addr end_ it m
      else m
  | [] => m
  end.

(** The entries next to a key, [--it] and [std::next]. *)
Definition map_prev (m : acl_map) (k : Z) : option (Z * acl_entry_t) := list.last (filter (fun x => x.1 < k) m).
Definition map_next (m : acl_map) (k : Z) : option (Z * acl_entry_t) := head (filter (fun x => k < x.1) m).

Definition acl_merge_prev (m : acl_map) (addr flags : Z) (e : acl_entry_t) : acl_map * Z * acl_entry_t :=
  match map_prev m addr with
  | Some (p, pe) =>
      if (acl_end pe =? addr) && (acl_flags pe =? flags)
      then let e := Acl (acl_end e) (acl_flags pe) in (map_erase (map_put m p e) addr, p, e)
      else (m, addr, e)
  | None => (m, addr, e)
  end.
Definition acl_merge_next (m : acl_map) (it : Z) (e : acl_entry_t) : acl_map :=
  match map_next m it with
  | Some (n, ne) =>
      if (acl_end e =? n) && (acl_flags e =? acl_flags ne)
      then map_erase (map_put m it (Acl (acl_end ne) (acl_flags e))) n else m
  | None => m
  end.

Definition acl_set (m : acl_map) (addr size flags : Z) : acl_map :=
  if size =? 0 then m else
  let end_ := u64 (addr + size) in
  let m := acl_cut addr end_ (acl_start addr None m) m in
  if flags =? 0 then m else
  let m := map_emplace m addr (Acl end_ flags) in
  let e := default (Acl end_ flags) (map_find m addr) in
  let '(m, it, e) := acl_merge_prev m addr flags e in
  acl_merge_next m it e.

Fixpoint acl_check_loop (addr end_ flags : Z) (it : acl_map) : bool :=
  match it with
  | (first, e) :: it =>
      if first <? end_ then
        if addr <? acl_end e then
          if Z.land (acl_flags e) flags =? flags then acl_check_loop (acl_end e) end_ flags it else false
        else acl_check_loop addr end_ flags it
      else true
  | [] => true
  end.
Definition acl_check (m : acl_map) (addr size flags : Z) : bool :=
  acl_check_loop addr (u64 (addr + size)) flags (acl_start addr None m).

(** ** [RAM] *)

Inductive ram_exn := OutOfRange | BadAddress.

Definition CHUNK_BITS : Z := 10.
Definition CHUNK_SIZE : Z := 1024.

Record RAM := Ram {
  capacity_ : Z;
  page_bits_ : Z;
  chunks_ : gmap Z (gmap Z (list Z));
  last_chunk_ : option Z;
  last_chunk_index_ : Z;
  zero_page_ : list Z;
  acl_mngr_ : acl_map;
  check_acl_ : bool
}.

Definition fill_byte (i : Z) : Z := Z.land (Z.shiftr 0xbaadf00d (Z.land i 3 * 8)) 0xff.
Definition fill_page (page_size : Z) : list Z := fill_byte <$> range page_size.

Definition RAM_new (capacity page_size : Z) : option RAM :=
  if negb (ispow2 32 page_size) then None
  else if negb (capacity =? 0) && negb (ispow2 64 capacity && (page_size <=? capacity) && (capacity mod page_size =? 0))
  then None
  else Some (Ram capacity (log2ceil 32 page_size) ∅ None 0 (fill_page page_size) [] false).

Definition set_chunks (r : RAM) c : RAM :=
  Ram (capacity_ r) (page_bits_ r) c (last_chunk_ r) (last_chunk_index_ r) (zero_page_ r) (acl_mngr_ r) (check_acl_ r).
Definition set_last (r : RAM) (k : option Z) (i : Z) : RAM :=
  Ram (capacity_ r) (page_bits_ r) (chunks_ r) k i (zero_page_ r) (acl_mngr_ r) (check_acl_ r).
Definition set_acl_mngr (r : RAM) m : RAM :=
  Ram (capacity_ r) (page_bits_ r) (chunks_ r) (last_chunk_ r) (last_chunk_index_ r) (zero_page_ r) m (check_acl_ r).
Definition enable_acl (r : RAM) (enable : bool) : RAM :=
  Ram (capacity_ r) (page_bits_ r) (chunks_ r) (last_chunk_ r) (last_chunk_index_ r) (zero_page_ r) (acl_mngr_ r) enable.

Definition RAM_clear (r : RAM) : RAM := set_last (set_chunks r ∅) None (last_chunk_index_ r).

Definition RAM_size (r : RAM) : Z :=
  u64 (Z.shiftl (map_fold (fun _ c n => n + Z.of_nat (size c)) 0 (chunks_ r)) (page_bits_ r)).

(** The pointer [get] returns: into the sentinel or into a page of a chunk. *)
Inductive ptr := Zero (off : Z) | Page (chunk : Z) (slot off : Z).

Definition chunk_of (r : RAM) (k : Z) : gmap Z (list Z) := default ∅ (chunks_ r !! k).
Definition get_page (r : RAM) (chunk slot off : Z) (allocate : bool) : ptr * RAM :=
  match chunk_of r chunk !! slot with
  | Some _ => (Page chunk slot off, r)
  | None =>
      if negb allocate then (Zero off, r)
      else (Page chunk slot off,
            set_chunks r (<[chunk := <[slot := fill_page (u32 (Z.shiftl 1 (page_bits_ r)))]> (chunk_of r chunk)]> (chunks_ r)))
  end.

Definition RAM_get (r : RAM) (address : Z) (allocate : bool) : (ptr + ram_exn) * RAM :=
  if negb (capacity_ r =? 0) && (capacity_ r <=? address) then (inr OutOfRange, r) else
  let page_size := u32 (Z.shiftl 1 (page_bits_ r)) in
  let page_offset := Z.land address (page_size - 1) in
  let page_index := Z.shiftr address (page_bits_ r) in
  let chunk_index := Z.shiftr page_index CHUNK_BITS in
  let chunk_offset := Z.land page_index (CHUNK_SIZE - 1) in
  let page r k := let '(p, r) := get_page r k chunk_offset page_offset allocate in (inl p, r) in
  let find :=
    match chunks_ r !! chunk_index with
    | Some _ => page (set_last r (Some chunk_index) chunk_index) chunk_index
    | None =>
        if negb allocate then (inl (Zero page_offset), r)
        else page (set_last (set_chunks r (<[chunk_index := ∅]> (chunks_ r))) (Some chunk_index) chunk_index) chunk_index
    end in
  match last_chunk_ r with
  | Some k => if last_chunk_index_ r =? chunk_index then page r k else find
  | None => find
  end.

Definition load (r : RAM) (p : ptr) : Z :=
  match p with
  | Zero off => vget (zero_page_ r) off
  | Page k slot off => vget (default [] (chunk_of r k !! slot)) off
  end.
Definition store (r : RAM) (p : ptr) (b : Z) : RAM :=
  match p with
  | Zero off => Ram (capacity_ r) (page_bits_ r) (chunks_ r) (last_chunk_ r) (last_chunk_index_ r) (vset (zero_page_ r) off b)
                    (acl_mngr_ r) (check_acl_ r)
  | Page k slot off => set_chunks r (<[k := alter (fun pg => vset pg off b) slot (chunk_of r k)]> (chunks_ r))
  end.

Fixpoint read_loop (n : nat) (r : RAM) (addr i : Z) : (list Z + ram_exn) * RAM :=
  match n with
  | O => (inl [], r)
  | S n =>
      match RAM_get r (u64 (addr + i)) false with
      | (inr e, r) => (inr e, r)
      | (inl p, r) =>
          let b := load r p in
          match read_loop n r addr (i + 1) with (inl bs, r) => (inl (b :: bs), r) | (inr e, r) => (inr e, r) end
      end
  end.
Definition RAM_read (r : RAM) (addr size : Z) : (list Z + ram_exn) * RAM :=
  if check_acl_ r && negb (acl_check (acl_mngr_ r) addr size 0x1) then (inr BadAddress, r)
  else read_loop (Z.to_nat size) r addr 0.

Fixpoint write_loop (data : list Z) (r : RAM) (addr i : Z) : option ram_exn * RAM :=
  match data with
  | [] => (None, r)
  | b :: data =>
      match RAM_get r (u64 (addr + i)) true with
      | (inr e, r) => (Some e, r)
      | (inl p, r) => write_loop data (store r p b) addr (i + 1)
      end
  end.
Definition RAM_write (r : RAM) (data : list Z) (addr : Z) : option ram_exn * RAM :=
  if check_acl_ r && negb (acl_check (acl_mngr_ r) addr (Z.of_nat (length data)) 0x2) then (Some BadAddress, r)
  else write_loop data r addr 0.

Definition copy_byte (r : RAM) (dest src : Z) : option ram_exn * RAM :=
  match RAM_get r src false with
  | (inr e, r) => (Some e, r)
  | (inl p, r) =>
      let b := load r p in
      match RAM_get r dest true with
      | (inr e, r) => (Some e, r)
      | (inl q, r) => (None, store r q b)
      end
  end.
Fixpoint copy_down (i : nat) (r : RAM) (dest src : Z) : option ram_exn * RAM :=
  match i with
  | O => (None, r)
  | S n => match copy_byte r (u64 (dest + Z.of_nat i - 1)) (u64 (src + Z.of_nat i - 1)) with
           | (None, r) => copy_down n r dest src
           | (Some e, r) => (Some e, r)
           end
  end.
Fixpoint copy_up (n : nat) (r : RAM) (dest src i : Z) : option ram_exn * RAM :=
  match n with
  | O => (None, r)
  | S n => match copy_byte r (u64 (dest + i)) (u64 (src + i)) with
           | (None, r) => copy_up n r dest src (i + 1)
           | (Some e, r) => (Some e, r)
           end
  end.
Definition RAM_copy (r : RAM) (dest src size : Z) : option ram_exn * RAM :=
  if check_acl_ r && (negb (acl_check (acl_mngr_ r) src size 0x1) || negb (acl_check (acl_mngr_ r) dest size 0x2))
  then (Some BadAddress, r)
  else if src <? dest then copy_down (Z.to_nat size) r dest src
  else if dest <? src then copy_up (Z.to_nat size) r dest src 0
  else (None, r).

Definition RAM_set_acl (r : RAM) (addr size flags : Z) : option ram_exn * RAM :=
  if negb (capacity_ r =? 0) && (capacity_ r <? u64 (addr + size)) then (Some OutOfRange, r)
  else (None, set_acl_mngr r (acl_set (acl_mngr_ r) addr size flags)).

(** ** The flat memory *)

(** The byte at a position of the directory, and at an address. *)
Definition peek (r : RAM) (chunk slot off : Z) : Z :=
  match chunk_of r chunk !! slot with Some pg => vget pg off | None => fill_byte off end.
Definition mem (r : RAM) (a : Z) : Z :=
  let p := a / 2 ^ page_bits_ r in peek r (p / 1024) (p mod 1024) (a mod 2 ^ page_bits_ r).

Record ram_inv (r : RAM) : Prop := {
  ri_bits : 0 <= page_bits_ r < 32;
  ri_zero : zero_page_ r = fill_page (2 ^ page_bits_ r);
  ri_last k : last_chunk_ r = Some k -> k = last_chunk_index_ r /\ is_Some (chunks_ r !! k);
  ri_page k slot pg : chunk_of r k !! slot = Some pg -> Z.of_nat (length pg) = 2 ^ page_bits_ r;
  ri_cap : 0 <= capacity_ r < 2 ^ 64
}.

(** What an access leaves alone. *)
Record ram_frame (r r' : RAM) : Prop := {
  rf_cap : capacity_ r' = capacity_ r;
  rf_bits : page_bits_ r' = page_bits_ r;
  rf_acl : acl_mngr_ r' = acl_mngr_ r;
  rf_check : check_acl_ r' = check_acl_ r
}.

#[global] Instance ram_frame_pre : PreOrder ram_frame.
Proof. split; [by constructor|]. intros ? ? ? [] []. constructor; congruence. Qed.

Definition limit (r : RAM) : Z := if capacity_ r =? 0 then 2 ^ 64 else capacity_ r.

Lemma limit_frame r r' : ram_frame r r' -> limit r' = limit r.
Proof. intros []. unfold limit. by rewrite rf_cap0. Qed.

Lemma limit_le r : ram_inv r -> limit r <= 2 ^ 64.
Proof. intros I. pose proof (ri_cap _ I). unfold limit. case_match; lia. Qed.

Section Directory.
Variable r : RAM.
Hypothesis I : ram_inv r.

Let pb := page_bits_ r.

Lemma page_size_eq : u32 (Z.shiftl 1 pb) = 2 ^ pb.
Proof.
  assert (0 <= pb < 32) by apply (ri_bits _ I). rewrite Z.shiftl_mul_pow2, Z.mul_1_l by lia. unfold u32. apply Z.mod_small.
  split; [lia|]. apply Z.pow_lt_mono_r; lia.
Qed.

Lemma page_size_pos : 0 < 2 ^ pb.
Proof. apply Z.pow_pos_nonneg; [lia|]. apply (ri_bits _ I). Qed.

(** The chunk, slot and offset [get] computes. *)
Lemma get_indices a :
  Z.land a (u32 (Z.shiftl 1 pb) - 1) = a mod 2 ^ pb /\ Z.shiftr (Z.shiftr a pb) CHUNK_BITS = a / 2 ^ pb / 1024 /\
  Z.land (Z.shiftr a pb) (CHUNK_SIZE - 1) = (a / 2 ^ pb) mod 1024.
Proof.
  assert (0 <= pb < 32) by apply (ri_bits _ I). rewrite page_size_eq, !Z.shiftr_div_pow2 by (unfold CHUNK_BITS; lia).
  change (CHUNK_SIZE - 1) with (Z.ones 10). replace (2 ^ pb - 1) with (Z.ones pb) by (rewrite Z.ones_equiv; lia).
  by rewrite !Z.land_ones by lia.
Qed.

(** An address is determined by them. *)
Lemma indices_inj a x : a / 2 ^ pb / 1024 = x / 2 ^ pb / 1024 -> (a / 2 ^ pb) mod 1024 = (x / 2 ^ pb) mod 1024 ->
  a mod 2 ^ pb = x mod 2 ^ pb -> a = x.
Proof.
  intros H1 H2 H3. pose proof page_size_pos.
  pose proof (Z.div_mod (a / 2 ^ pb) 1024 ltac:(lia)). pose proof (Z.div_mod (x / 2 ^ pb) 1024 ltac:(lia)).
  rewrite (Z.div_mod a (2 ^ pb)), (Z.div_mod x (2 ^ pb)) by lia. rewrite H3. do 2 f_equal. lia.
Qed.
End Directory.

Lemma fill_lookup n off : 0 <= off < n -> vget (fill_page n) off = fill_byte off.
Proof.
  intros Ho. unfold vget, fill_page, range. rewrite list_lookup_total_alt, !list_lookup_fmap, lookup_seq_lt by lia.
  simpl. by rewrite Z2Nat.id by lia.
Qed.

Lemma fill_length n : 0 <= n -> Z.of_nat (length (fill_page n)) = n.
Proof. intros. unfold fill_page, range. rewrite !length_fmap, length_seq. lia. Qed.

(** Two directories that hold the same bytes. *)
Lemma mem_ext r r' : page_bits_ r' = page_bits_ r -> (forall k slot off, 0 <= off < 2 ^ page_bits_ r -> peek r' k slot off = peek r k slot off) ->
  0 <= page_bits_ r -> forall a, mem r' a = mem r a.
Proof. intros E Hp Hb a. unfold mem. rewrite E. apply Hp, Z.mod_pos_bound, Z.pow_pos_nonneg; lia. Qed.

(** What [get] promises of its pointer. *)
Record got (r : RAM) (a : Z) (allocate : bool) (p : ptr) (r' : RAM) : Prop := {
  got_inv : ram_inv r';
  got_frame : ram_frame r r';
  got_mem x : mem r' x = mem r x;
  got_load : load r' p = mem r a;
  got_chunks : allocate = false -> chunks_ r' = chunks_ r;
  got_page : allocate = true -> exists pg,
    p = Page (a / 2 ^ page_bits_ r / 1024) ((a / 2 ^ page_bits_ r) mod 1024) (a mod 2 ^ page_bits_ r) /\
    chunk_of r' (a / 2 ^ page_bits_ r / 1024) !! ((a / 2 ^ page_bits_ r) mod 1024) = Some pg
}.

Lemma set_last_inv r k : ram_inv r -> is_Some (chunks_ r !! k) -> ram_inv (set_last r (Some k) k).
Proof. intros [] Hk. constructor; try done. intros j [= <-]. done. Qed.

Lemma new_chunk_of r k j : chunks_ r !! k = None -> chunk_of (set_chunks r (<[k := ∅]> (chunks_ r))) j = chunk_of r j.
Proof. intros Hn. unfold chunk_of. cbn [chunks_ set_chunks]. destruct (decide (j = k)) as [->|]; [by rewrite lookup_insert_eq, Hn|by rewrite lookup_insert_ne]. Qed.

Lemma set_chunk_of r k c j : chunk_of (set_chunks r (<[k := c]> (chunks_ r))) j = if decide (j = k) then c else chunk_of r j.
Proof. unfold chunk_of. cbn [chunks_ set_chunks]. case_decide as E; [subst; by rewrite lookup_insert_eq|by rewrite lookup_insert_ne]. Qed.

Lemma new_chunk_inv r k : ram_inv r -> chunks_ r !! k = None -> ram_inv (set_chunks r (<[k := ∅]> (chunks_ r))).
Proof.
  intros [] Hn. constructor; try done.
  - intros j Ej. destruct (ri_last0 j Ej) as [-> ?]. split; [done|]. cbn [chunks_ set_chunks]. apply lookup_insert_is_Some'. by right.
  - intros j slot pg. rewrite new_chunk_of by done. apply ri_page0.
Qed.

Lemma get_page_spec r a allocate : ram_inv r ->
  let k := a / 2 ^ page_bits_ r / 1024 in
  let '(p, r') := get_page r k ((a / 2 ^ page_bits_ r) mod 1024) (a mod 2 ^ page_bits_ r) allocate in
  got r a allocate p r'.
Proof.
  intros I k. unfold get_page. rewrite (page_size_eq r I). set (slot := (a / _) mod 1024). set (off := a mod _).
  pose proof (page_size_pos r I) as Hp. assert (0 <= off < 2 ^ page_bits_ r) as Ho by (apply Z.mod_pos_bound; lia).
  destruct (chunk_of r k !! slot) as [pg|] eqn:E; [|destruct allocate; cbn [negb]].
  - split; try done; [simpl; unfold mem, peek; fold k slot off; by rewrite E|]. intros _. by exists pg.
  - assert (forall j s, chunk_of (set_chunks r (<[k:=<[slot:=fill_page (2 ^ page_bits_ r)]> (chunk_of r k)]> (chunks_ r))) j !! s
      = if decide (j = k /\ s = slot) then Some (fill_page (2 ^ page_bits_ r)) else chunk_of r j !! s) as L.
    { intros j s. rewrite set_chunk_of. destruct (decide (j = k)) as [->|]; [|by rewrite decide_False by tauto].
      destruct (decide (s = slot)) as [->|]; [by rewrite lookup_insert_eq, decide_True|rewrite lookup_insert_ne, decide_False by naive_solver; done]. }
    split; try done.
    + destruct I as [? ? I3 I4 ?]. constructor; try done.
      * intros j Ej. destruct (I3 j Ej) as [-> ?]. split; [done|]. apply lookup_insert_is_Some'. by right.
      * intros j s pg. rewrite L. case_decide; [intros [= <-]; apply fill_length; cbn; lia|apply I4].
    + apply mem_ext; [done| |apply (ri_bits _ I)]. intros j s o Hoo. unfold peek. rewrite L.
      case_decide as Ej; [|done]. destruct Ej as [-> ->]. rewrite E. by apply fill_lookup.
    + simpl. rewrite L, decide_True by done. simpl. unfold mem, peek. fold k slot off. rewrite E. by apply fill_lookup.
    + intros _. exists (fill_page (2 ^ page_bits_ r)). split; [done|]. rewrite L. by rewrite decide_True.
  - split; try done. simpl. rewrite (ri_zero _ I). unfold mem, peek. fold k slot off. rewrite E. by apply fill_lookup.
Qed.

Lemma got_mono r r1 a allocate p r' : ram_frame r r1 -> (forall x, mem r1 x = mem r x) -> (allocate = false -> chunks_ r1 = chunks_ r) ->
  got r1 a allocate p r' -> got r a allocate p r'.
Proof.
  intros F M C [G1 G2 G3 G4 G5 G6]. rewrite (rf_bits _ _ F) in G6. split; try done.
  - by transitivity r1.
  - intros x. by rewrite G3.
  - by rewrite G4.
  - intros Ha. by rewrite G5, C.
Qed.

Lemma get_spec r a allocate : ram_inv r -> 0 <= a < limit r -> exists p r', RAM_get r a allocate = (inl p, r') /\ got r a allocate p r'.
Proof.
  intros I Ha. unfold RAM_get.
  replace (negb (capacity_ r =? 0) && (capacity_ r <=? a)) with false by (unfold limit in Ha; destruct (Z.eqb_spec (capacity_ r) 0); simpl; lia).
  destruct (get_indices r I a) as (-> & -> & ->). set (k := a / 2 ^ page_bits_ r / 1024).
  assert (forall r1, ram_inv r1 -> ram_frame r r1 -> (forall x, mem r1 x = mem r x) -> (allocate = false -> chunks_ r1 = chunks_ r) ->
    exists p r', (let '(p, r) := get_page r1 k ((a / 2 ^ page_bits_ r) mod 1024) (a mod 2 ^ page_bits_ r) allocate in (@inl ptr ram_exn p, r))
      = (inl p, r') /\ got r a allocate p r') as P.
  { intros r1 I1 F M C. pose proof (get_page_spec r1 a allocate I1) as G. cbv zeta in G. rewrite (rf_bits _ _ F) in G. fold k in G.
    destruct (get_page _ _ _ _ _) as [p r']. exists p, r'. split; [done|]. by apply (got_mono r r1). }
  assert (exists p r', match chunks_ r !! k with
    | Some _ => let '(p, r) := get_page (set_last r (Some k) k) k ((a / 2 ^ page_bits_ r) mod 1024) (a mod 2 ^ page_bits_ r) allocate in (inl p, r)
    | None => if negb allocate then (inl (Zero (a mod 2 ^ page_bits_ r)), r)
              else let '(p, r) := get_page (set_last (set_chunks r (<[k:=∅]> (chunks_ r))) (Some k) k) k ((a / 2 ^ page_bits_ r) mod 1024)
                                    (a mod 2 ^ page_bits_ r) allocate in (inl p, r)
    end = (@inl ptr ram_exn p, r') /\ got r a allocate p r') as Find.
  { destruct (chunks_ r !! k) eqn:E; [|destruct allocate; cbn [negb]].
    - apply P; try done. apply set_last_inv; [done|by rewrite E].
    - apply P; [|done| |done].
      + apply set_last_inv; [by apply new_chunk_inv|]. apply lookup_insert_is_Some'. by left.
      + apply mem_ext; [done| |apply (ri_bits _ I)]. intros j s o _. unfold peek. change (chunk_of (set_last ?x _ _) j) with (chunk_of x j).
        by rewrite new_chunk_of.
    - eexists _, _. split; [done|]. split; try done. simpl. rewrite (ri_zero _ I). unfold mem, peek, chunk_of. fold k. rewrite E. simpl.
      rewrite lookup_empty. apply fill_lookup, Z.mod_pos_bound, (page_size_pos r I). }
  destruct (last_chunk_ r) as [j|] eqn:El; [|exact Find]. destruct (ri_last _ I j El) as [-> _].
  destruct (Z.eqb_spec (last_chunk_index_ r) k) as [->|]; [|exact Find]. by apply P.
Qed.

Lemma get_out_of_range r a allocate : ram_inv r -> limit r <= a < 2 ^ 64 -> RAM_get r a allocate = (inr OutOfRange, r).
Proof. intros I Ha. unfold RAM_get. replace (negb (capacity_ r =? 0) && (capacity_ r <=? a)) with true; [done|]. unfold limit in Ha. destruct (Z.eqb_spec (capacity_ r) 0); simpl; lia. Qed.

(** Writing through the pointer [get] returned changes its one byte. *)
Lemma store_spec r a p r' b : 0 <= a -> got r a true p r' ->
  let r'' := store r' p b in ram_inv r'' /\ ram_frame r r'' /\ forall x, mem r'' x = if decide (x = a) then b else mem r x.
Proof.
  intros Ha [I' F M _ _ G]. destruct (G eq_refl) as (pg & -> & E). clear G. rewrite <- (rf_bits _ _ F) in *. intros r''.
  set (k := a / 2 ^ page_bits_ r' / 1024) in *. set (slot := (a / _) mod 1024) in *. set (off := a mod _) in *.
  pose proof (page_size_pos r' I') as Hp. assert (0 <= off < 2 ^ page_bits_ r') as Ho by (apply Z.mod_pos_bound; lia).
  pose proof (ri_page _ I' _ _ _ E) as Hl.
  assert (forall j s, chunk_of r'' j !! s = if decide (j = k /\ s = slot) then Some (vset pg off b) else chunk_of r' j !! s) as L.
  { intros j s. unfold r''. simpl. rewrite set_chunk_of. destruct (decide (j = k)) as [->|]; [|by rewrite decide_False by tauto].
    destruct (decide (s = slot)) as [->|]; [by rewrite lookup_alter_eq, E, decide_True|rewrite lookup_alter_ne, decide_False by naive_solver; done]. }
  split_and!; [|destruct F; by constructor|].
  - destruct I' as [? ? I3 I4 ?]. constructor; try done.
    + intros j Ej. destruct (I3 j Ej) as [-> ?]. split; [done|]. apply lookup_insert_is_Some'. by right.
    + intros j s pg'. rewrite L. case_decide; [intros [= <-]|apply I4]. unfold vset. by rewrite length_insert.
  - intros x. rewrite <- M. unfold mem. change (page_bits_ r'') with (page_bits_ r'). cbv zeta. unfold peek. rewrite L.
    destruct (decide (x = a)) as [->|Hx]; [rewrite decide_True by done; apply vget_vset_eq; unfold off in *; lia|].
    case_decide as Ej; [|done]. destruct Ej as [E1 E2]. rewrite E1, E2, E. apply vget_vset_ne.
    + lia.
    + apply Z.mod_pos_bound. lia.
    + intros E3. apply Hx, (indices_inj r' I'); done.
Qed.

(** ** Accesses on the flat memory *)

Definition flat_read (m : Z -> Z) (a : Z) (n : nat) : list Z := m <$> span a n.
Definition flat_write (m : Z -> Z) (a : Z) (data : list Z) (x : Z) : Z :=
  if decide (a <= x < a + Z.of_nat (length data)) then vget data (x - a) else m x.
Definition flat_copy (m : Z -> Z) (dest src n x : Z) : Z := if decide (dest <= x < dest + n) then m (src + (x - dest)) else m x.

Lemma read_loop_spec n r addr i : ram_inv r -> 0 <= addr + i -> addr + i + Z.of_nat n <= limit r ->
  exists r', read_loop n r addr i = (inl (flat_read (mem r) (addr + i) n), r') /\
    ram_inv r' /\ ram_frame r r' /\ chunks_ r' = chunks_ r /\ forall x, mem r' x = mem r x.
Proof.
  revert r i. induction n as [|n IH]; intros r i I H0 Hl; [by exists r|]. pose proof (limit_le r I).
  cbn [read_loop]. rewrite u64_small by lia. destruct (get_spec r (addr + i) false I) as (p & r1 & -> & [I1 F M L C _]); [lia|].
  destruct (IH r1 (i + 1) I1) as (r2 & -> & I2 & F2 & C2 & M2); [lia|rewrite (limit_frame _ _ F); lia|].
  exists r2. split_and!; [|done|by transitivity r1|by rewrite C2, C|intros x; by rewrite M2].
  unfold flat_read. change (S n) with (1 + n)%nat. rewrite (span_app (addr + i) 1 n). change (span (addr + i) 1) with [addr + i + 0].
  rewrite Z.add_0_r. cbn [fmap list_fmap app]. rewrite L, Z.add_assoc. do 3 f_equal. apply list_fmap_ext. intros. apply M.
Qed.

Lemma write_loop_spec data r addr i : ram_inv r -> 0 <= addr + i -> addr + i + Z.of_nat (length data) <= limit r ->
  exists r', write_loop data r addr i = (None, r') /\
    ram_inv r' /\ ram_frame r r' /\ forall x, mem r' x = flat_write (mem r) (addr + i) data x.
Proof.
  revert r i. induction data as [|b data IH]; intros r i I H0 Hl.
  { exists r. split_and!; try done. intros x. unfold flat_write. by rewrite decide_False by (simpl; lia). }
  pose proof (limit_le r I). cbn [write_loop length] in *. rewrite u64_small by lia.
  destruct (get_spec r (addr + i) true I) as (p & r1 & -> & G); [lia|].
  destruct (store_spec r (addr + i) p r1 b ltac:(lia) G) as (I1 & F1 & M1). cbv zeta in *.
  destruct (IH (store r1 p b) (i + 1) I1) as (r2 & -> & I2 & F2 & M2); [lia|rewrite (limit_frame _ _ F1); lia|].
  exists r2. split_and!; [done|done|by transitivity (store r1 p b)|]. intros x. rewrite M2. unfold flat_write. rewrite M1. cbn [length].
  destruct (decide (x = addr + i)) as [->|].
  - rewrite decide_False, decide_True by lia. by rewrite Z.sub_diag.
  - destruct (decide (addr + (i + 1) <= x < _)); [rewrite decide_True by lia|by rewrite decide_False by lia].
    unfold vget. by replace (Z.to_nat (x - (addr + i))) with (S (Z.to_nat (x - (addr + (i + 1))))) by lia.
Qed.

Lemma copy_byte_spec r d s : ram_inv r -> 0 <= d < limit r -> 0 <= s < limit r ->
  exists r', copy_byte r d s = (None, r') /\ ram_inv r' /\ ram_frame r r' /\ forall x, mem r' x = if decide (x = d) then mem r s else mem r x.
Proof.
  intros I Hd Hs. unfold copy_byte. destruct (get_spec r s false I Hs) as (p & r1 & -> & [I1 F1 M1 L1 _ _]).
  destruct (get_spec r1 d true I1) as (q & r2 & -> & G); [by rewrite (limit_frame _ _ F1)|].
  destruct (store_spec r1 d q r2 (load r1 p) ltac:(lia) G) as (I2 & F2 & M2). eexists. split_and!; [done|done|by transitivity r1|].
  intros x. rewrite M2, L1, M1. done.
Qed.

Lemma copy_down_spec n r d s : ram_inv r -> 0 <= s < d -> d + Z.of_nat n <= limit r ->
  exists r', copy_down n r d s = (None, r') /\ ram_inv r' /\ ram_frame r r' /\ forall x, mem r' x = flat_copy (mem r) d s (Z.of_nat n) x.
Proof.
  revert r. induction n as [|n IH]; intros r I Hs Hl.
  { exists r. split_and!; try done. intros x. unfold flat_copy. by rewrite decide_False by lia. }
  pose proof (limit_le r I). cbn [copy_down]. rewrite !u64_small by lia.
  destruct (copy_byte_spec r (d + Z.of_nat (S n) - 1) (s + Z.of_nat (S n) - 1) I) as (r1 & -> & I1 & F1 & M1); [lia|lia|].
  destruct (IH r1 I1 Hs) as (r2 & -> & I2 & F2 & M2); [rewrite (limit_frame _ _ F1); lia|].
  exists r2. split_and!; [done|done|by transitivity r1|]. intros x. rewrite M2. unfold flat_copy. rewrite !M1.
  destruct (decide (x = d + Z.of_nat (S n) - 1)) as [->|].
  - rewrite decide_False, decide_True by lia. f_equal. lia.
  - destruct (decide (d <= x < d + Z.of_nat n)); [by rewrite decide_False, decide_True by lia|by rewrite decide_False by lia].
Qed.

Lemma copy_up_spec n r d s i : ram_inv r -> 0 <= i -> 0 <= d < s -> s + i + Z.of_nat n <= limit r ->
  exists r', copy_up n r d s i = (None, r') /\ ram_inv r' /\ ram_frame r r' /\
    forall x, mem r' x = flat_copy (mem r) (d + i) (s + i) (Z.of_nat n) x.
Proof.
  revert r i. induction n as [|n IH]; intros r i I Hi Hs Hl.
  { exists r. split_and!; try done. intros x. unfold flat_copy. by rewrite decide_False by lia. }
  pose proof (limit_le r I). cbn [copy_up]. rewrite !u64_small by lia.
  destruct (copy_byte_spec r (d + i) (s + i) I) as (r1 & -> & I1 & F1 & M1); [lia|lia|].
  destruct (IH r1 (i + 1) I1) as (r2 & -> & I2 & F2 & M2); [lia|lia|rewrite (limit_frame _ _ F1); lia|].
  exists r2. split_and!; [done|done|by transitivity r1|]. intros x. rewrite M2. unfold flat_copy. rewrite !M1.
  destruct (decide (x = d + i)) as [->|].
  - rewrite decide_False, decide_True by lia. f_equal. lia.
  - destruct (decide (d + (i + 1) <= x < d + (i + 1) + Z.of_nat n)); [rewrite decide_False, decide_True by lia; f_equal; lia|by rewrite decide_False by lia].
Qed.

(** ** Access flags per address *)

Fixpoint flags_at (m : acl_map) (x : Z) : option Z :=
  match m with
  | (k, e) :: m => if decide (k <= x < acl_end e) then Some (acl_flags e) else flags_at m x
  | [] => None
  end.

(** Entries are nonempty, disjoint and in increasing order. *)
Fixpoint acl_wf (lo : Z) (m : acl_map) : Prop :=
  match m with
  | (k, e) :: m => lo <= k < acl_end e /\ acl_wf (acl_end e) m
  | [] => True
  end.

(** Weakens a bound on all entries. *)
Ltac forall_by H := refine (Forall_impl _ _ H); intros [? ?]; simpl; lia.

Lemma acl_wf_mono lo lo' m : lo' <= lo -> acl_wf lo m -> acl_wf lo' m.
Proof. intros Hl. destruct m as [|[k e] m]; simpl; [done|]. intros []. split; [lia|done]. Qed.

Lemma acl_wf_keys lo m : acl_wf lo m -> Forall (fun x => lo <= x.1) m.
Proof.
  revert lo. induction m as [|[k e] m IH]; intros lo; simpl; [done|]. intros [Hk Hm]. constructor; [simpl; lia|].
  forall_by (IH _ Hm).
Qed.

Lemma acl_wf_app lo m k e it : acl_wf lo (m ++ (k, e) :: it) <->
  acl_wf lo m /\ Forall (fun x => acl_end x.2 <= k) m /\ lo <= k < acl_end e /\ acl_wf (acl_end e) it.
Proof.
  revert lo. induction m as [|[j d] m IH]; intros lo; simpl.
  - naive_solver.
  - rewrite IH, list.Forall_cons. simpl. split; [|naive_solver]. intros (H1 & H2 & H3 & H4 & H5). split_and!; try done; try lia; simpl in *; lia.
Qed.

Lemma wf_app_intro lo m m' : acl_wf lo m -> acl_wf lo m' -> Forall (fun x => Forall (fun y => acl_end x.2 <= y.1) m') m -> acl_wf lo (m ++ m').
Proof.
  revert lo. induction m as [|[k e] m IH]; intros lo; simpl; [done|]. intros [Hk Hm] Hm' [Hf Hr]%list.Forall_cons. split; [done|].
  apply IH; [done| |done]. destruct m' as [|[j d] m']; [done|]. simpl in *. apply list.Forall_cons in Hf as [? _]. simpl in *. split; [lia|]. apply Hm'.
Qed.

Lemma flags_at_app m m' x : flags_at (m ++ m') x = match flags_at m x with Some f => Some f | None => flags_at m' x end.
Proof. induction m as [|[k e] m IH]; simpl; [done|]. by case_decide. Qed.

Lemma flags_at_below m x : Forall (fun y => x < y.1) m -> flags_at m x = None.
Proof. induction 1 as [|[k e] m Hk _ IH]; simpl in *; [done|]. by rewrite decide_False by lia. Qed.

Lemma flags_at_above m x : Forall (fun y => acl_end y.2 <= x) m -> flags_at m x = None.
Proof. induction 1 as [|[k e] m Hk _ IH]; simpl in *; [done|]. by rewrite decide_False by lia. Qed.

Lemma flags_at_lo lo m x : acl_wf lo m -> x < lo -> flags_at m x = None.
Proof. intros W Hx. apply flags_at_below. forall_by (acl_wf_keys _ _ W). Qed.

(** The ordered map. *)
Lemma map_put_app m m' k e : Forall (fun x => x.1 < k) m -> map_put (m ++ m') k e = m ++ map_put m' k e.
Proof.
  induction 1 as [|[j d] m Hj _ IH]; simpl in *; [done|]. rewrite (proj2 (Z.ltb_ge _ _)), (proj2 (Z.eqb_neq _ _)) by lia. by rewrite IH.
Qed.

Lemma map_put_head m k e : Forall (fun x => k < x.1) m -> map_put m k e = (k, e) :: m.
Proof. destruct 1 as [|[j d] m Hj _]; simpl in *; [done|]. by rewrite (proj2 (Z.ltb_lt _ _)) by lia. Qed.

Lemma map_put_eq m k e d : map_put ((k, d) :: m) k e = (k, e) :: m.
Proof. simpl. by rewrite Z.ltb_irrefl, Z.eqb_refl. Qed.

Lemma filter_all {A} (P : A -> Prop) `{forall x, Decision (P x)} l : Forall P l -> filter P l = l.
Proof. induction 1; [done|]. rewrite filter_cons_True by done. by f_equal. Qed.

Lemma filter_none {A} (P : A -> Prop) `{forall x, Decision (P x)} l : Forall (fun x => ~ P x) l -> filter P l = [].
Proof. induction 1; [done|]. by rewrite filter_cons_False. Qed.

Lemma map_erase_mid m m' k e : Forall (fun x => x.1 < k) m -> Forall (fun x => k < x.1) m' -> map_erase (m ++ (k, e) :: m') k = m ++ m'.
Proof.
  intros H1 H2. unfold map_erase. rewrite list.filter_app, filter_cons_False by (simpl; lia).
  f_equal; apply filter_all; [forall_by H1|forall_by H2].
Qed.

(** The iterator both operations start from skips only entries that end
    before the address. *)
Lemma acl_start_some addr p m lo : acl_wf lo (p :: m) -> p.1 < addr ->
  exists pre, p :: m = pre ++ acl_start addr (Some p) m /\ Forall (fun x => acl_end x.2 < addr) pre.
Proof.
  revert lo p. induction m as [|[k e] m IH]; intros lo [j d] W Hp; simpl in *.
  - destruct (Z.ltb_spec (acl_end d) addr); [by exists [(j, d)]; split; [done|constructor]|by exists []].
  - destruct (Z.ltb_spec k addr).
    + destruct (IH (acl_end d) (k, e)) as (pre & -> & Hpre); [naive_solver|done|]. exists ((j, d) :: pre). split; [done|].
      constructor; [simpl; lia|done].
    + destruct (Z.ltb_spec (acl_end d) addr); [by exists [(j, d)]; split; [done|constructor]|by exists []].
Qed.

Lemma acl_start_spec addr m lo : acl_wf lo m ->
  exists pre, m = pre ++ acl_start addr None m /\ Forall (fun x => acl_end x.2 < addr) pre.
Proof.
  intros W. destruct m as [|[k e] m]; [by exists []|]. simpl. destruct (Z.ltb_spec k addr); [|by exists []].
  by apply (acl_start_some addr (k, e) m lo).
Qed.

(** *** Clearing a range

    The loop of [set] rewrites the entries in place; [cut] is its effect on
    the entries from the iterator on. *)
Section Cut.
Variables addr end_ : Z.
Hypothesis Hae : addr < end_.

Definition low_part (k : Z) (e : acl_entry_t) : acl_map := if k <? addr then [(k, Acl addr (acl_flags e))] else [].
Definition high_part (e : acl_entry_t) : acl_map := if end_ <? acl_end e then [(end_, e)] else [].
Fixpoint cut (it : acl_map) : acl_map :=
  match it with
  | (k, e) :: it' =>
      if k <? end_ then if acl_end e <=? addr then (k, e) :: cut it' else low_part k e ++ high_part e ++ cut it'
      else it
  | [] => []
  end.

Lemma pieces_wf lo k e it : lo <= k < acl_end e -> k < end_ -> addr < acl_end e -> acl_wf (acl_end e) it -> acl_wf lo (low_part k e ++ high_part e ++ it).
Proof.
  intros Hk Hke Ha W. unfold low_part, high_part.
  destruct (Z.ltb_spec k addr), (Z.ltb_spec end_ (acl_end e)); simpl; repeat split; try lia; try done; (eapply acl_wf_mono; [|exact W]); lia.
Qed.

Lemma cut_step pre k e it : Forall (fun x => acl_end x.2 <= k) pre -> Forall (fun x => x.1 < k) pre ->
  k < acl_end e -> k < end_ -> addr < acl_end e -> acl_wf (acl_end e) it ->
  let m := pre ++ (k, e) :: it in
  let m := if end_ <? acl_end e then map_put m end_ e else m in
  (if k <? addr then map_put m k (Acl addr (acl_flags e)) else map_erase m k) = pre ++ low_part k e ++ high_part e ++ it.
Proof.
  intros He Hk Hkk Hke Ha W. pose proof (acl_wf_keys _ _ W) as Hit.
  assert (Forall (fun x => k < x.1) (high_part e ++ it)) as Hh.
  { apply Forall_app. split; [unfold high_part; case_match; repeat constructor; simpl; lia|forall_by Hit]. }
  assert ((if end_ <? acl_end e then map_put (pre ++ (k, e) :: it) end_ e else pre ++ (k, e) :: it) = pre ++ (k, e) :: high_part e ++ it) as E.
  { unfold high_part. destruct (Z.ltb_spec end_ (acl_end e)); [|done]. rewrite map_put_app by forall_by Hk. f_equal.
    change ((k, e) :: it) with ([(k, e)] ++ it). rewrite map_put_app by (repeat constructor; simpl; lia).
    rewrite map_put_head by forall_by Hit. done. }
  cbv zeta. rewrite E. unfold low_part. destruct (Z.ltb_spec k addr).
  - rewrite map_put_app by done. by rewrite map_put_eq.
  - by rewrite map_erase_mid.
Qed.

Lemma acl_cut_eq it pre lo : acl_wf lo (pre ++ it) -> acl_cut addr end_ it (pre ++ it) = pre ++ cut it.
Proof.
  revert pre. induction it as [|[k e] it IH]; intros pre W; [done|]. cbn [acl_cut cut].
  apply acl_wf_app in W as (Wp & He & Hk & W).
  destruct (Z.ltb_spec k end_); [|done]. destruct (Z.leb_spec (acl_end e) addr).
  - rewrite cons_middle, app_assoc, (IH (pre ++ [(k, e)])); [by rewrite <- app_assoc|]. rewrite <- app_assoc. by apply acl_wf_app.
  - assert (Forall (fun x => x.1 < k) pre) as Hkp.
    { clear - Wp He. revert lo Wp. induction He as [|[j d] pre Hd _ IH]; intros lo; simpl in *; [done|]. intros [? ?]. constructor; [simpl; lia|].
      by apply (IH (acl_end d)). }
    rewrite cut_step by (done || lia). rewrite (app_assoc (low_part k e)), (app_assoc pre), (IH (pre ++ low_part k e ++ high_part e)).
    + by rewrite <- !app_assoc.
    + rewrite <- !app_assoc. apply wf_app_intro; [done|apply pieces_wf; [lia|done|done|done]|]. refine (Forall_impl _ _ He).
      intros [j d] Hj. simpl in *. pose proof (acl_wf_keys _ _ (pieces_wf k k e it ltac:(lia) ltac:(lia) ltac:(lia) W)) as Hp. forall_by Hp.
Qed.

Lemma pieces_flags lo k e it x : lo <= k < acl_end e -> k < end_ -> addr < acl_end e -> acl_wf (acl_end e) it ->
  flags_at (low_part k e ++ high_part e) x = if decide (addr <= x < end_) then None else if decide (k <= x < acl_end e) then Some (acl_flags e) else None.
Proof.
  intros. unfold low_part, high_part. destruct (Z.ltb_spec k addr), (Z.ltb_spec end_ (acl_end e)); simpl; repeat case_decide; try done; lia.
Qed.

Lemma cut_flags it lo x : acl_wf lo it -> flags_at (cut it) x = if decide (addr <= x < end_) then None else flags_at it x.
Proof.
  revert lo. induction it as [|[k e] it IH]; intros lo; simpl; [by case_decide|]. intros [Hk W].
  destruct (Z.ltb_spec k end_); [destruct (Z.leb_spec (acl_end e) addr)|].
  - simpl. rewrite (IH _ W). repeat case_decide; try done; lia.
  - rewrite app_assoc, flags_at_app, (pieces_flags lo k e it) by done. rewrite (IH _ W). repeat case_decide; done.
  - simpl. destruct (decide (addr <= x < end_)); [|done]. rewrite decide_False by lia. apply (flags_at_lo _ _ _ W). lia.
Qed.

Lemma cut_wf it lo : acl_wf lo it -> acl_wf lo (cut it).
Proof.
  revert lo. induction it as [|[k e] it IH]; intros lo; simpl; [done|]. intros [Hk W].
  destruct (Z.ltb_spec k end_); [destruct (Z.leb_spec (acl_end e) addr)|]; [by split; [|apply IH]|apply pieces_wf; [done|done|done|by apply IH]|by split].
Qed.

(** A range no entry meets separates the map. *)
Lemma gap_split m lo : acl_wf lo m -> (forall x, addr <= x < end_ -> flags_at m x = None) ->
  exists A B, m = A ++ B /\ Forall (fun x => acl_end x.2 <= addr) A /\ Forall (fun x => x.1 < addr) A /\ Forall (fun x => end_ <= x.1) B.
Proof.
  revert lo. induction m as [|[k e] m IH]; intros lo W Hg; [by exists [], []|]. destruct W as [Hk W].
  destruct (decide (acl_end e <= addr)) as [He|He].
  - destruct (IH _ W) as (A & B & -> & H1 & H2 & H3).
    { intros x Hx. specialize (Hg x Hx). simpl in Hg. by rewrite decide_False in Hg by lia. }
    exists ((k, e) :: A), B. split_and!; try done; constructor; try done; simpl; lia.
  - exists [], ((k, e) :: m). split_and!; try done. assert (end_ <= k).
    { destruct (decide (end_ <= k)); [done|]. specialize (Hg (Z.max k addr) ltac:(lia)). simpl in Hg. by rewrite decide_True in Hg by lia. }
    constructor; [done|]. forall_by (acl_wf_keys _ _ W).
Qed.
End Cut.

(** *** Entering a range *)

Lemma map_find_gap A B k : Forall (fun x => x.1 < k) A -> Forall (fun x => k < x.1) B -> map_find (A ++ B) k = None.
Proof.
  intros HA HB. unfold map_find. rewrite filter_none; [done|]. apply Forall_app. split; [forall_by HA|forall_by HB].
Qed.

Lemma map_find_mid A B k e : Forall (fun x => x.1 < k) A -> map_find (A ++ (k, e) :: B) k = Some e.
Proof. intros HA. unfold map_find. by rewrite list.filter_app, filter_none, filter_cons_True by (done || forall_by HA). Qed.

Lemma map_prev_mid A B k e : Forall (fun x => x.1 < k) A -> Forall (fun x => k < x.1) B -> map_prev (A ++ (k, e) :: B) k = list.last A.
Proof.
  intros HA HB. unfold map_prev. rewrite list.filter_app, filter_all, filter_cons_False by (done || simpl; lia).
  by rewrite filter_none, app_nil_r by forall_by HB.
Qed.

Lemma map_next_mid A B k e : Forall (fun x => x.1 < k) A -> Forall (fun x => k < x.1) B -> map_next (A ++ (k, e) :: B) k = head B.
Proof.
  intros HA HB. unfold map_next. rewrite list.filter_app, filter_none, filter_cons_False by (forall_by HA || simpl; lia).
  by rewrite filter_all.
Qed.

Lemma acl_wf_app_l lo A B : acl_wf lo (A ++ B) -> acl_wf lo A.
Proof. revert lo. induction A as [|[k e] A IH]; intros lo; simpl; [done|]. intros [? ?]. split; [done|]. by apply IH. Qed.

Lemma acl_wf_app_r lo A B : acl_wf lo (A ++ B) -> acl_wf lo B.
Proof.
  revert lo. induction A as [|[k e] A IH]; intros lo; simpl; [done|]. intros [? W]. eapply acl_wf_mono; [|by apply IH]. lia.
Qed.

Lemma acl_wf_raise lo b m : acl_wf lo m -> Forall (fun x => b <= x.1) m -> acl_wf b m.
Proof. destruct m as [|[k e] m]; [done|]. intros [? ?] [? _]%list.Forall_cons. simpl in *. split; [lia|done]. Qed.

Lemma acl_wf_below lo A k : acl_wf lo A -> Forall (fun x => acl_end x.2 <= k) A -> Forall (fun x => x.1 < k) A.
Proof.
  intros W He. revert lo W. induction He as [|[j d] A Hd _ IH]; intros lo; simpl in *; [done|]. intros [? ?]. constructor; [simpl; lia|].
  by apply (IH (acl_end d)).
Qed.

Lemma acl_wf_snd lo A p pe k e B : acl_wf lo ((A ++ [(p, pe)]) ++ (k, e) :: B) -> acl_wf lo (A ++ (p, Acl (acl_end e) (acl_flags pe)) :: B).
Proof.
  rewrite <- app_assoc. intros (Wa & Ha & Hp & Hk & W)%acl_wf_app. apply acl_wf_app. simpl. split_and!; try done; lia.
Qed.

(** Merging with the entry before. *)
Lemma merge_prev_spec lo A k e B : acl_wf lo (A ++ (k, e) :: B) ->
  exists A' k' e', acl_merge_prev (A ++ (k, e) :: B) k (acl_flags e) e = (A' ++ (k', e') :: B, k', e') /\
    acl_wf lo (A' ++ (k', e') :: B) /\ forall x, flags_at (A' ++ (k', e') :: B) x = flags_at (A ++ (k, e) :: B) x.
Proof.
  intros W. pose proof W as (Wa & Ha & Hk & Wb)%acl_wf_app. pose proof (acl_wf_below _ _ _ Wa Ha) as Hlt.
  assert (Forall (fun x => k < x.1) B) as Hgt by forall_by (acl_wf_keys _ _ Wb).
  unfold acl_merge_prev. rewrite map_prev_mid by done.
  destruct A as [|[p pe] A _] using rev_ind; [by exists [], k, e|]. rewrite last_snoc.
  destruct (Z.eqb_spec (acl_end pe) k) as [Ek|]; [|by exists (A ++ [(p, pe)]), k, e].
  destruct (Z.eqb_spec (acl_flags pe) (acl_flags e)) as [Ef|]; [|by exists (A ++ [(p, pe)]), k, e]. cbn [andb].
  exists A, p, (Acl (acl_end e) (acl_flags pe)). apply Forall_app in Hlt as [Hlt [Hp _]%list.Forall_cons]. simpl in Hp.
  split_and!; [|by apply acl_wf_snd in W|].
  - do 2 f_equal. apply acl_wf_app in Wa as (WA & HA & Hpp & _). rewrite <- app_assoc, map_put_app by by eapply acl_wf_below.
    cbn [app]. rewrite map_put_eq. rewrite cons_middle, app_assoc, map_erase_mid, <- app_assoc by (done || (apply Forall_app; split; [done|repeat constructor; done])). done.
  - intros x. rewrite <- app_assoc, !flags_at_app. destruct (flags_at A x); [done|]. simpl. rewrite Ef.
    apply acl_wf_app in Wa as (_ & _ & Hpp & _). repeat case_decide; try done; lia.
Qed.

(** Merging with the entry after. *)
Lemma merge_next_spec lo A k e B : acl_wf lo (A ++ (k, e) :: B) ->
  let m := acl_merge_next (A ++ (k, e) :: B) k e in acl_wf lo m /\ forall x, flags_at m x = flags_at (A ++ (k, e) :: B) x.
Proof.
  intros W. pose proof W as (Wa & Ha & Hk & Wb)%acl_wf_app. pose proof (acl_wf_below _ _ _ Wa Ha) as Hlt.
  assert (Forall (fun x => k < x.1) B) as Hgt by forall_by (acl_wf_keys _ _ Wb).
  unfold acl_merge_next. rewrite map_next_mid by done. destruct B as [|[n ne] B]; [done|]. cbn [head].
  destruct (Z.eqb_spec (acl_end e) n) as [En|]; [|done]. destruct (Z.eqb_spec (acl_flags e) (acl_flags ne)) as [Ef|]; [|done]. cbn [andb].
  destruct Wb as [Hn Wb]. apply list.Forall_cons in Hgt as [Hkn _]. simpl in Hkn.
  rewrite map_put_app, map_put_eq, cons_middle, app_assoc, map_erase_mid, <- app_assoc; cbn [app].
  - split; [apply acl_wf_app; simpl; split_and!; try done; lia|]. intros x. rewrite !flags_at_app. destruct (flags_at A x); [done|]. simpl.
    rewrite Ef. repeat case_decide; try done; lia.
  - apply Forall_app. split; [forall_by Hlt|repeat constructor; done].
  - forall_by (acl_wf_keys _ _ Wb).
  - done.
Qed.

Lemma cut_pre addr end_ pre it lo : addr < end_ -> acl_wf lo (pre ++ it) -> Forall (fun x => acl_end x.2 < addr) pre ->
  cut addr end_ (pre ++ it) = pre ++ cut addr end_ it.
Proof.
  intros Hae W Hp. revert lo W. induction Hp as [|[k e] pre He _ IH]; intros lo; simpl in *; [done|]. intros [Hk W].
  rewrite (proj2 (Z.ltb_lt _ _)), (proj2 (Z.leb_le _ _)) by lia. f_equal. by apply (IH (acl_end e)).
Qed.

Lemma acl_cut_all m addr end_ lo : addr < end_ -> acl_wf lo m -> acl_cut addr end_ (acl_start addr None m) m = cut addr end_ m.
Proof.
  intros Hae W. destruct (acl_start_spec addr m lo W) as (pre & Em & Hpre). remember (acl_start addr None m) as it eqn:E. clear E. subst m.
  by rewrite (acl_cut_eq addr end_ Hae it pre lo W), (cut_pre addr end_ pre it lo Hae W Hpre).
Qed.

(** [set] gives the flags to the addresses of its range, clears them when they
    are zero, leaves every other address alone and keeps the map in order. *)
Lemma acl_set_spec m addr size flags : acl_wf 0 m -> 0 <= addr -> 0 <= size -> addr + size < 2 ^ 64 ->
  acl_wf 0 (acl_set m addr size flags) /\
  forall x, flags_at (acl_set m addr size flags) x =
    if decide (addr <= x < addr + size) then if decide (flags = 0) then None else Some flags else flags_at m x.
Proof.
  intros W Ha Hs Hb. unfold acl_set. destruct (Z.eqb_spec size 0) as [->|Hz]; [split; [done|]; intros x; by rewrite decide_False by lia|].
  rewrite u64_small by lia. set (end_ := addr + size). assert (addr < end_) as Hae by lia. rewrite (acl_cut_all m addr end_ 0 Hae W).
  pose proof (cut_wf addr end_ Hae m 0 W) as Wc. pose proof (fun x => cut_flags addr end_ Hae m 0 x W) as Fc.
  destruct (Z.eqb_spec flags 0) as [->|Hf]; [split; [done|]; intros x; by rewrite Fc|].
  destruct (gap_split addr end_ Hae (cut addr end_ m) 0 Wc) as (A & B & E & HA & HA' & HB); [intros x Hx; by rewrite Fc, decide_True|].
  rewrite E in *. assert (Forall (fun x => addr < x.1) B) as HB' by forall_by HB.
  unfold map_emplace. rewrite map_find_gap, map_put_app, map_put_head, map_find_mid by done.
  assert (acl_wf 0 (A ++ (addr, Acl end_ flags) :: B)) as W1.
  { apply acl_wf_app. split_and!; try done; [by apply acl_wf_app_l in Wc|].
    apply (acl_wf_raise 0); [by apply (acl_wf_app_r 0 A)|done]. }
  destruct (merge_prev_spec 0 A addr (Acl end_ flags) B W1) as (A' & k & e & E2 & W2 & F2). cbn [acl_flags] in E2.
  change (default _ (Some ?d)) with d. rewrite E2. destruct (merge_next_spec 0 A' k e B W2) as [W3 F3]. split; [done|]. intros x. rewrite F3, F2, flags_at_app. simpl.
  specialize (Fc x). rewrite flags_at_app in Fc. rewrite (decide_False (P := flags = 0)) by done.
  destruct (decide (addr <= x < end_)); [|done]. by destruct (flags_at A x).
Qed.

(** [check] passes exactly when every address of the range that has flags has
    the ones asked for; an address without flags never fails. *)
Lemma check_loop_spec it lo addr end_ flags : acl_wf lo it -> addr < end_ \/ addr <= lo ->
  acl_check_loop addr end_ flags it = true <->
  forall x f, addr <= x < end_ -> flags_at it x = Some f -> Z.land f flags = flags.
Proof.
  revert lo addr. induction it as [|[k e] it IH]; intros lo addr W Ho; [done|]. destruct W as [Hk W]. cbn [acl_check_loop].
  destruct (Z.ltb_spec k end_) as [Hke|].
  - destruct (Z.ltb_spec addr (acl_end e)).
    + destruct (Z.eqb_spec (Z.land (acl_flags e) flags) flags) as [Ef|Ef].
      * rewrite (IH _ _ W) by lia. simpl. split; intros P x f Hx.
        -- case_decide; [by intros [= <-]|]. intros E. destruct (decide (x < k)); [rewrite (flags_at_lo _ _ _ W) in E by lia; done|].
           apply (P x); [lia|done].
        -- intros E. apply (P x); [lia|]. by rewrite decide_False by lia.
      * split; [done|]. intros P. exfalso. apply Ef, (P (Z.max k addr)); [lia|]. simpl. by rewrite decide_True by lia.
    + rewrite (IH _ _ W) by lia. simpl. split; intros P x f Hx E; apply (P x f Hx); [|by rewrite decide_False by lia].
      by rewrite decide_False in E by lia.
  - split; [|done]. intros _ x f Hx. simpl. rewrite decide_False by lia. rewrite (flags_at_lo _ _ _ W) by lia. done.
Qed.

Lemma acl_check_spec m addr size flags : acl_wf 0 m -> 0 <= addr -> 0 < size -> addr + size < 2 ^ 64 ->
  acl_check m addr size flags = true <-> forall x f, addr <= x < addr + size -> flags_at m x = Some f -> Z.land f flags = flags.
Proof.
  intros W Ha Hs Hb. unfold acl_check. rewrite u64_small by lia. destruct (acl_start_spec addr m 0 W) as (pre & Em & Hpre).
  remember (acl_start addr None m) as it eqn:E. clear E. subst m. rewrite (check_loop_spec it 0) by (apply (acl_wf_app_r 0 pre it W) || lia).
  assert (forall x, addr <= x -> flags_at (pre ++ it) x = flags_at it x) as Hf.
  { intros x Hx. by rewrite flags_at_app, flags_at_above by forall_by Hpre. }
  split; intros P x f Hx E; apply (P x f Hx); [rewrite <- Hf by lia|rewrite Hf by lia]; done.
Qed.

(** ** The memory as its users see it *)

Inductive ram_op :=
  | ORead (addr size : Z)
  | OWrite (addr : Z) (data : list Z)
  | OCopy (dest src size : Z)
  | OClear
  | OSetAcl (addr size flags : Z)
  | OEnable (enable : bool).

Definition done_ (x : option ram_exn * RAM) : (list Z + ram_exn) * RAM :=
  (match x.1 with Some e => inr e | None => inl [] end, x.2).
Definition ram_step (r : RAM) (o : ram_op) : (list Z + ram_exn) * RAM :=
  match o with
  | ORead addr size => RAM_read r addr size
  | OWrite addr data => done_ (RAM_write r data addr)
  | OCopy dest src size => done_ (RAM_copy r dest src size)
  | OClear => (inl [], RAM_clear r)
  | OSetAcl addr size flags => done_ (RAM_set_acl r addr size flags)
  | OEnable enable => (inl [], enable_acl r enable)
  end.

(** The specification: an array of bytes, the flags of each address, and
    whether they are enforced. *)
Record flat_ram := Flat { bytes : Z -> Z; prot : Z -> option Z; enforced : bool }.

Definition permits (m : flat_ram) (addr size access : Z) : bool :=
  negb (enforced m) ||
  forallb (fun x => match prot m x with Some f => Z.land f access =? access | None => true end) (span addr (Z.to_nat size)).

Definition flat_step (page_size : Z) (m : flat_ram) (o : ram_op) : (list Z + ram_exn) * flat_ram :=
  match o with
  | ORead addr size => (if permits m addr size 1 then inl (flat_read (bytes m) addr (Z.to_nat size)) else inr BadAddress, m)
  | OWrite addr data =>
      if permits m addr (Z.of_nat (length data)) 2 then (inl [], Flat (flat_write (bytes m) addr data) (prot m) (enforced m))
      else (inr BadAddress, m)
  | OCopy dest src size =>
      if permits m src size 1 && permits m dest size 2 then (inl [], Flat (flat_copy (bytes m) dest src size) (prot m) (enforced m))
      else (inr BadAddress, m)
  | OClear => (inl [], Flat (fun x => fill_byte (x mod page_size)) (prot m) (enforced m))
  | OSetAcl addr size flags =>
      (inl [], Flat (bytes m) (fun x => if decide (addr <= x < addr + size) then if decide (flags = 0) then None else Some flags else prot m x)
                    (enforced m))
  | OEnable enable => (inl [], Flat (bytes m) (prot m) enable)
  end.

Definition flat_init (page_size : Z) : flat_ram := Flat (fun x => fill_byte (x mod page_size)) (fun _ => None) false.

(** Nonempty ranges below the capacity and below the last byte of the address
    space. *)
Definition range_ok (lim addr size : Z) : Prop := 0 <= addr /\ 0 < size /\ addr + size <= lim /\ addr + size < 2 ^ 64.
Definition op_ok (lim : Z) (o : ram_op) : Prop :=
  match o with
  | ORead addr size => range_ok lim addr size
  | OWrite addr data => range_ok lim addr (Z.of_nat (length data))
  | OCopy dest src size => range_ok lim dest size /\ range_ok lim src size
  | OSetAcl addr size flags => range_ok lim addr size
  | OClear | OEnable _ => True
  end.

Fixpoint answers {S} (step : S -> ram_op -> (list Z + ram_exn) * S) (s : S) (os : list ram_op) : list (list Z + ram_exn) :=
  match os with
  | [] => []
  | o :: os => let '(x, s) := step s o in x :: answers step s os
  end.

Record models (r : RAM) (m : flat_ram) : Prop := {
  mo_inv : ram_inv r;
  mo_wf : acl_wf 0 (acl_mngr_ r);
  mo_mem x : mem r x = bytes m x;
  mo_prot x : flags_at (acl_mngr_ r) x = prot m x;
  mo_on : check_acl_ r = enforced m
}.

Lemma permits_spec r m addr size access lim : models r m -> range_ok lim addr size ->
  (check_acl_ r && negb (acl_check (acl_mngr_ r) addr size access)) = negb (permits m addr size access).
Proof.
  intros [_ W _ P E] (Ha & Hs & _ & Hb). unfold permits. rewrite E. destruct (enforced m); [|done]. cbn [andb negb orb]. f_equal.
  apply eq_bool_prop_intro. rewrite !Is_true_true, (acl_check_spec _ _ _ _ W Ha Hs Hb), forallb_forall. split.
  - intros Hx x Hin. rewrite <- list_elem_of_In in Hin. apply elem_of_span in Hin. rewrite <- P.
    destruct (flags_at _ x) as [f|] eqn:Ef; [|done]. apply Z.eqb_eq, (Hx x); [lia|done].
  - intros Hx x f Hin Ef. specialize (Hx x). rewrite <- list_elem_of_In, elem_of_span, <- P, Ef in Hx. apply Z.eqb_eq, Hx. lia.
Qed.

Lemma models_frame r r' m b : models r m -> ram_inv r' -> ram_frame r r' -> (forall x, mem r' x = b x) -> models r' (Flat b (prot m) (enforced m)).
Proof. intros [_ W _ P E] I [_ _ F1 F2] M. constructor; simpl; try done; by rewrite ?F1, ?F2. Qed.

Lemma models_read r r' m : models r m -> ram_inv r' -> ram_frame r r' -> (forall x, mem r' x = mem r x) -> models r' m.
Proof. intros O I F M. destruct m as [b p e]. apply (models_frame r r' (Flat b p e) b O I F). intros x. rewrite M. apply (mo_mem _ _ O). Qed.

Lemma flat_copy_self (m : Z -> Z) a n x : flat_copy m a a n x = m x.
Proof. unfold flat_copy. case_decide; [|done]. f_equal. lia. Qed.

(** One operation on both. *)
Record agrees (r : RAM) (x : (list Z + ram_exn) * RAM) (y : (list Z + ram_exn) * flat_ram) : Prop := {
  ag_answer : x.1 = y.1;
  ag_models : models x.2 y.2;
  ag_cap : capacity_ x.2 = capacity_ r;
  ag_bits : page_bits_ x.2 = page_bits_ r
}.

Lemma agrees_refused r m (e : ram_exn) : models r m -> agrees r (inr e, r) (inr e, m).
Proof. by split. Qed.

Lemma read_agrees r m addr size : models r m -> range_ok (limit r) addr size ->
  agrees r (ram_step r (ORead addr size)) (flat_step (2 ^ page_bits_ r) m (ORead addr size)).
Proof.
  intros O R. simpl. unfold RAM_read. rewrite (permits_spec r m addr size 1 _ O R). destruct R as (Ha & Hs & Hl & Hb).
  destruct (permits m addr size 1); [cbn [negb]|by apply agrees_refused].
  destruct (read_loop_spec (Z.to_nat size) r addr 0 (mo_inv _ _ O)) as (r' & -> & I' & F & _ & M); [lia|lia|]. rewrite Z.add_0_r.
  split; simpl; try apply F; [|by apply (models_read r)]. f_equal. apply list_fmap_ext. intros. apply (mo_mem _ _ O).
Qed.

Lemma write_agrees r m addr data : models r m -> range_ok (limit r) addr (Z.of_nat (length data)) ->
  agrees r (ram_step r (OWrite addr data)) (flat_step (2 ^ page_bits_ r) m (OWrite addr data)).
Proof.
  intros O R. simpl. unfold RAM_write. rewrite (permits_spec r m addr _ 2 _ O R). destruct R as (Ha & Hs & Hl & Hb).
  destruct (permits m addr _ 2); [cbn [negb]|by apply agrees_refused].
  destruct (write_loop_spec data r addr 0 (mo_inv _ _ O)) as (r' & -> & I' & F & M); [lia|lia|].
  split; simpl; try apply F; [done|]. apply (models_frame r); try done. intros x. rewrite M, Z.add_0_r. unfold flat_write.
  case_decide; [done|apply (mo_mem _ _ O)].
Qed.

Lemma copy_agrees r m dest src size : models r m -> range_ok (limit r) dest size -> range_ok (limit r) src size ->
  agrees r (ram_step r (OCopy dest src size)) (flat_step (2 ^ page_bits_ r) m (OCopy dest src size)).
Proof.
  intros O Rd Rs. simpl. unfold RAM_copy. rewrite andb_orb_distrib_r, (permits_spec r m src _ 1 _ O Rs), (permits_spec r m dest _ 2 _ O Rd), <- negb_andb.
  destruct Rd as (Hd & Hs & Hl & Hb), Rs as (Hd' & _ & Hl' & Hb'). pose proof (mo_inv _ _ O) as I.
  destruct (permits m src size 1 && permits m dest size 2); [cbn [negb]|by apply agrees_refused].
  assert (forall x, flat_copy (mem r) dest src size x = flat_copy (bytes m) dest src size x) as E.
  { intros x. unfold flat_copy. case_decide; apply (mo_mem _ _ O). }
  destruct (Z.ltb_spec src dest); [|destruct (Z.ltb_spec dest src)].
  - destruct (copy_down_spec (Z.to_nat size) r dest src I) as (r' & -> & I' & F & M); [lia|lia|].
    split; simpl; try apply F; [done|]. apply (models_frame r); try done. intros x. rewrite M, Z2Nat.id by lia. apply E.
  - destruct (copy_up_spec (Z.to_nat size) r dest src 0 I) as (r' & -> & I' & F & M); [lia|lia|lia|].
    split; simpl; try apply F; [done|]. apply (models_frame r); try done. intros x. rewrite M, Z2Nat.id, !Z.add_0_r by lia. apply E.
  - replace dest with src in * by lia. split; simpl; try done. apply (models_frame r); try done. intros x. by rewrite <- E, flat_copy_self.
Qed.

Lemma clear_mem r x : ram_inv r -> mem (RAM_clear r) x = fill_byte (x mod 2 ^ page_bits_ r).
Proof. intros I. unfold mem, peek, chunk_of. simpl. by rewrite lookup_empty. Qed.

Lemma step_agrees r m o : models r m -> op_ok (limit r) o -> agrees r (ram_step r o) (flat_step (2 ^ page_bits_ r) m o).
Proof.
  intros O Ho. destruct o as [addr size|addr data|dest src size| |addr size flags|en]; simpl in Ho.
  - by apply read_agrees.
  - by apply write_agrees.
  - destruct Ho. by apply copy_agrees.
  - destruct O as [I ? ? ? ?]. split; simpl; try done. constructor; try done; try (intros x; by apply clear_mem). destruct I as [? ? ? ? ?].
    by constructor.
  - destruct O as [I W M P E]. destruct Ho as (Ha & Hs & Hl & Hb). simpl. unfold RAM_set_acl. rewrite u64_small by lia.
    replace (negb (capacity_ r =? 0) && (capacity_ r <? addr + size)) with false
      by (unfold limit in Hl; destruct (Z.eqb_spec (capacity_ r) 0); simpl; lia).
    destruct (acl_set_spec (acl_mngr_ r) addr size flags W Ha ltac:(lia) Hb) as [W' F].
    split; simpl; try done. constructor; try done; [by destruct I|]. intros x. simpl. rewrite F. by rewrite P.
  - destruct O as [[] ? ? ? ?]. split; simpl; try done.
Qed.

Lemma answers_agree os r m : models r m -> Forall (op_ok (limit r)) os ->
  answers ram_step r os = answers (flat_step (2 ^ page_bits_ r)) m os.
Proof.
  revert r m. induction os as [|o os IH]; intros r m O Hos; [done|]. apply list.Forall_cons in Hos as [Ho Hos]. cbn [answers].
  pose proof (step_agrees r m o O Ho) as [A B C D]. destruct (ram_step r o) as [x r'], (flat_step _ m o) as [y m']. simpl in *. subst y.
  f_equal. rewrite <- D. apply IH; [done|]. unfold limit in *. by rewrite C.
Qed.

Lemma RAM_new_models capacity page_size r : 0 <= capacity < 2 ^ 64 -> 0 <= page_size < 2 ^ 32 -> RAM_new capacity page_size = Some r ->
  models r (flat_init page_size) /\ 2 ^ page_bits_ r = page_size /\ capacity_ r = capacity.
Proof.
  intros Hc Hp. unfold RAM_new. destruct (ispow2 32 page_size) eqn:E2; [cbn [negb]|done]. case_match; [done|]. intros [= <-]. simpl.
  assert (page_size <> 0) by (intros ->; done).
  destruct (log2_helpers_exact 32 page_size ltac:(unfold std_width; lia) ltac:(lia)) as (_ & El & Eq).
  apply Eq in E2 as (n & Hn & ->). rewrite El, Z.log2_up_pow2 by lia. split_and!; try done.
  assert (n < 32) by (apply (Z.pow_lt_mono_r_iff 2); lia).
  by constructor.
Qed.

(** C20. The sparse, paged memory is a flat array of bytes.  Whatever sequence
    of reads, writes, overlapping copies, clears, protection changes and
    switches of the protection is made on a fresh [RAM], each operation answers
    as the flat memory does: reads return the last bytes written or copied,
    never-written bytes the [0xbaadf00d] pattern, a copy moves the bytes its
    source held before it, and an access is refused exactly when protection is
    on and some address of the range has flags that lack the one asked for. *)
Theorem ram_refines_flat capacity page_size r os :
  0 <= capacity < 2 ^ 64 -> 0 <= page_size < 2 ^ 32 -> RAM_new capacity page_size = Some r -> Forall (op_ok (limit r)) os ->
  answers ram_step r os = answers (flat_step page_size) (flat_init page_size) os.
Proof.
  intros Hc Hp E Hos. destruct (RAM_new_models capacity page_size r Hc Hp E) as (O & <- & _). by apply answers_agree.
Qed.

Lemma ram_refines_flat_witness : exists r, RAM_new 1024 16 = Some r /\
  answers ram_step r [OWrite 14 [1; 2; 3]; OCopy 15 14 3; OSetAcl 17 1 1; OEnable true; OWrite 16 [9; 9]; ORead 13 6]
  = [inl []; inl []; inl []; inl []; inr BadAddress; inl [0xf0; 1; 1; 2; 3; 0xad]].
Proof.
  eexists. split; [reflexivity|].
  rewrite (ram_refines_flat 1024 16); [reflexivity|lia|lia|reflexivity|].
  unfold op_ok, range_ok, limit. simpl. repeat constructor; simpl; lia.
Defined.

(** ** The end of the memory *)

Lemma write_loop_app d1 d2 r addr i : write_loop (d1 ++ d2) r addr i =
  match write_loop d1 r addr i with (None, r) => write_loop d2 r addr (i + Z.of_nat (length d1)) | x => x end.
Proof.
  revert r i. induction d1 as [|b d1 IH]; intros r i; cbn [app write_loop length]; [by rewrite Z.add_0_r|].
  destruct (RAM_get r _ true) as [[p|e] r1]; [|done]. rewrite IH. replace (i + 1 + Z.of_nat (length d1)) with (i + Z.of_nat (S (length d1))) by lia. done.
Qed.

Lemma read_loop_end n r addr i : ram_inv r -> 0 <= addr + i <= limit r -> limit r < addr + i + Z.of_nat n < 2 ^ 64 ->
  exists r', read_loop n r addr i = (inr OutOfRange, r') /\ chunks_ r' = chunks_ r /\ page_bits_ r' = page_bits_ r.
Proof.
  revert r i. induction n as [|n IH]; intros r i I H0 Hl; [lia|]. cbn [read_loop]. rewrite u64_small by lia.
  destruct (decide (addr + i = limit r)); [rewrite get_out_of_range by (done || lia); by exists r|].
  destruct (get_spec r (addr + i) false I) as (p & r1 & -> & [I1 F _ _ C _]); [lia|].
  destruct (IH r1 (i + 1) I1) as (r2 & -> & C2 & B2); [rewrite (limit_frame _ _ F); lia..|]. exists r2.
  by rewrite C2, B2, C, (rf_bits _ _ F).
Qed.

(** Accesses that run past the capacity.  A write stores the bytes that fit
    and then throws [OutOfRange]; a read throws it too, and no read, within the
    capacity or past it, ever makes a page: [size] stays what it was. *)
Theorem ram_capacity_bounds r addr data n :
  ram_inv r -> check_acl_ r = false -> 0 <= addr <= limit r ->
  limit r < addr + Z.of_nat (length data) < 2 ^ 64 -> 0 <= n -> addr + n < 2 ^ 64 ->
  (exists r', RAM_write r data addr = (Some OutOfRange, r') /\
     forall x, mem r' x = flat_write (mem r) addr (take (Z.to_nat (limit r - addr)) data) x) /\
  (exists x r', RAM_read r addr n = (x, r') /\ (x = inr OutOfRange <-> limit r < addr + n) /\ RAM_size r' = RAM_size r).
Proof.
  intros I Hc Ha Hd Hn Hb. unfold RAM_write, RAM_read. rewrite Hc. cbn [andb]. split.
  - set (k := Z.to_nat (limit r - addr)). pose proof (write_loop_app (take k data) (drop k data) r addr 0) as Ew. rewrite take_drop in Ew.
    assert (length (take k data) = k) as Ek by (rewrite length_take; lia).
    destruct (write_loop_spec (take k data) r addr 0 I) as (r' & Et & I' & F & M); [lia|rewrite Ek; lia|]. exists r'.
    rewrite Ew, Et, Ek. split; [|intros x; by rewrite M, Z.add_0_r].
    destruct (drop k data) as [|b rest] eqn:Er; [apply (f_equal length) in Er; rewrite length_drop in Er; simpl in Er; lia|].
    cbn [write_loop]. rewrite u64_small, get_out_of_range by (done || rewrite ?(limit_frame _ _ F); lia). done.
  - assert (forall r', chunks_ r' = chunks_ r -> page_bits_ r' = page_bits_ r -> RAM_size r' = RAM_size r) as S
      by (intros r' E1 E2; unfold RAM_size; by rewrite E1, E2).
    destruct (decide (limit r < addr + n)) as [Hl|Hl].
    + destruct (read_loop_end (Z.to_nat n) r addr 0 I) as (r' & -> & C & B); [lia|lia|]. eexists _, r'. split_and!; [done|done|].
      by apply S.
    + destruct (read_loop_spec (Z.to_nat n) r addr 0 I) as (r' & -> & _ & F & C & _); [lia|lia|]. eexists _, r'.
      split_and!; [done|split; [done|lia]|]. apply S; [done|apply F].
Qed.

Lemma ram_capacity_bounds_witness : exists r, RAM_new 16 16 = Some r /\
  (exists r', RAM_write r [1; 2; 3] 14 = (Some OutOfRange, r') /\ mem r' 15 = 2) /\
  (exists r', RAM_read r 14 3 = (inr OutOfRange, r') /\ RAM_size r' = 0).
Proof.
  destruct (RAM_new_models 16 16 (Ram 16 4 ∅ None 0 (fill_page 16) [] false)) as (O & _); [lia|lia|reflexivity|].
  eexists. split; [reflexivity|].
  destruct (ram_capacity_bounds (Ram 16 4 ∅ None 0 (fill_page 16) [] false) 14 [1; 2; 3] 3 (mo_inv _ _ O) eq_refl) as ((r' & E & M) & (x & r'' & E' & Ex & Es)).
  - unfold limit. simpl. lia.
  - unfold limit. simpl. lia.
  - lia.
  - lia.
  - split; [exists r'; split; [exact E|rewrite M; reflexivity]|]. exists r''. split; [|exact Es]. refine (eq_trans E' _). f_equal. apply Ex. unfold limit. simpl. lia.
Defined.
