(* ===== verification/Fabric.v ===== *)
(** * The shared-memory fabric of the SoC — [src/main/scala/aegis/types.scala]

    The bundles that connect the blocks of the SoC, the Chisel operators they
    use, and the contract of a memory port.  A Chisel module is modelled by the
    record of its registers, the wires it drives as functions of the registers
    and of the inputs of the cycle, and the function from both to the registers
    of the next cycle.  A [UInt] of width [w] is a [Z] in [[0, 2^w)]. *)

From S2P Require Import Prelude Isa.

(** ** Chisel operators *)

(** [x(hi, lo)] *)
Definition bits (x hi lo : Z) : Z := slice x lo (hi - lo + 1).

(** [Cat(a, b)] for a [b] of width [w]. *)
Definition cat (w a b : Z) : Z := a * 2 ^ w + b.

(** The bits of [Cat(b, a)]. *)
Lemma testbit_radix a b w j : 0 <= w -> 0 <= a < 2 ^ w -> 0 <= j ->
  Z.testbit (a + 2 ^ w * b) j = if j <? w then Z.testbit a j else Z.testbit b (j - w).
Proof.
  intros Hw Ha Hj. rewrite Z.add_comm, Z.mul_comm, <- lor_disjoint, Z.lor_spec, Z.shiftl_spec by lia.
  destruct (Z.ltb_spec j w); [by rewrite Z.testbit_neg_r by lia|]. rewrite (testbit_high w a j) by lia. apply orb_false_r.
Qed.

(** [PriorityEncoder]: the first set bit, the last index when none is set. *)
Fixpoint PriorityEncoder (l : list bool) : Z :=
  match l with
  | [] => 0
  | b :: r => if b then 0 else match r with [] => 0 | _ => 1 + PriorityEncoder r end
  end.

(** [Mux1H]: the values whose select line is high, or-ed together. *)
Definition Mux1H (sel : list bool) (vals : list Z) : Z :=
  foldr Z.lor 0 (zip_with (fun (b : bool) v => if b then v else 0) sel vals).

(** [MuxCase] *)
Fixpoint MuxCase {A} (default : A) (cases : list (bool * A)) : A :=
  match cases with
  | [] => default
  | (c, v) :: r => if c then v else MuxCase default r
  end.

(** Decides the equations between states that are both known. *)
Ltac decide_closed :=
  repeat match goal with
  | |- context [bool_decide (?a = ?b)] => first [change (bool_decide (a = b)) with true | change (bool_decide (a = b)) with false]
  | H : context [bool_decide (?a = ?b)] |- _ => first [change (bool_decide (a = b)) with true in H | change (bool_decide (a = b)) with false in H]
  end.

(** ** Bundles *)

Record MemReq := MkMemReq { q_addr : Z; q_data : Z; q_isWrite : bool; q_size : Z }.

Record WordMemReq := MkWordMemReq { w_addr : Z; w_data : Z; w_isWrite : bool; w_size : Z }.

(** The two halves of a [Decoupled] request and response pair: what the
    requester drives and what the responder drives. *)
Record Ask (Q : Type) := MkAsk { a_valid : bool; a_bits : Q; a_ready : bool }.
Record Reply := MkReply { r_ready : bool; r_valid : bool; r_bits : Z }.
Arguments MkAsk {Q}. Arguments a_valid {Q}. Arguments a_bits {Q}. Arguments a_ready {Q}.

(** [req.fire] and [resp.fire] *)
Definition req_fire {Q} (a : Ask Q) (r : Reply) : bool := a_valid a && r_ready r.
Definition resp_fire {Q} (a : Ask Q) (r : Reply) : bool := r_valid r && a_ready a.

(** [AXIBundle]: the outputs of the master and those of the slave. *)
Record AxiMaster := MkAxiM {
  AWID : Z; AWADDR : Z; AWLEN : Z; AWSIZE : Z; AWBURST : Z; AWVALID : bool;
  WDATA : Z; WSTRB : Z; WLAST : bool; WVALID : bool; BREADY : bool;
  ARID : Z; ARADDR : Z; ARLEN : Z; ARSIZE : Z; ARBURST : Z; ARVALID : bool; RREADY : bool }.
Record AxiSlave := MkAxiS {
  AWREADY : bool; WREADY : bool; BID : Z; BRESP : Z; BVALID : bool;
  ARREADY : bool; RID : Z; RDATA : Z; RRESP : Z; RLAST : bool; RVALID : bool }.

(** ** The contract of a line port

    The memory is a map from line numbers to 512-bit lines: the stack decodes
    14 address bits, so an address selects one of 256 lines.  A request is
    accepted, performed at one moment, and answered; a read is answered with the
    line at that moment.  What the data of a write's answer is, the contract
    leaves open.  Between its requests, other agents change the memory as [I]
    allows. *)

Definition lines := Z -> Z.
Definition line_of (a : Z) : Z := slice a 6 8.

Lemma line_of_range a : 0 <= line_of a < 256.
Proof. apply (slice_range a 6 8). lia. Qed.

Definition perform (m : lines) (q : MemReq) : lines :=
  if q_isWrite q then fun l => if l =? line_of (q_addr q) then q_data q else m l else m.

Definition answers (m : lines) (q : MemReq) (d : Z) : Prop :=
  q_isWrite q = false -> d = m (line_of (q_addr q)).

Variant outstanding := Idle | Accepted (q : MemReq) | Answered (d : Z).

(** The handshakes of one cycle; [None] is a violation by the responder. *)
Definition handshake (a : Ask MemReq) (r : Reply) (o : outstanding) : option outstanding :=
  match o with
  | Idle => if r_valid r then None else Some (if req_fire a r then Accepted (a_bits a) else Idle)
  | Accepted q => if r_ready r || r_valid r then None else Some o
  | Answered d =>
      if r_ready r then None
      else if r_valid r then if r_bits r =? d then Some (if a_ready a then Idle else o) else None
      else Some o
  end.

Variant commits (I : lines -> lines -> Prop) : lines * outstanding -> lines * outstanding -> Prop :=
  | commits_none m o : commits I (m, o) (m, o)
  | commits_other m m' o : I m m' -> commits I (m, o) (m', o)
  | commits_own m q d : answers m q d -> commits I (m, Accepted q) (perform m q, Answered d).

Definition port_cycle (I : lines -> lines -> Prop) (a : Ask MemReq) (r : Reply) (x y : lines * outstanding) : Prop :=
  exists o, handshake a r (snd x) = Some o /\ commits I (fst x, o) y.

(** ** What a cycle of a port can be *)

Section Port.
Context (I : lines -> lines -> Prop) (a : Ask MemReq) (r : Reply).

Definition left_alone (m m' : lines) : Prop := m' = m \/ I m m'.

(** The request is performed in this cycle or not yet. *)
Definition perhaps (q : MemReq) (m m' : lines) (o' : outstanding) : Prop :=
  (o' = Accepted q /\ left_alone m m') \/ (exists d, o' = Answered d /\ m' = perform m q /\ answers m q d).

Lemma commits_inv m o y :
  commits I (m, o) y ->
  match o with
  | Accepted q => perhaps q m (fst y) (snd y)
  | _ => snd y = o /\ left_alone m (fst y)
  end.
Proof.
  intros H. inversion H; subst; cbn.
  - destruct o; [by split; [|left] | left; by split; [|left] | by split; [|left]].
  - destruct o; [by split; [|right] | left; by split; [|right] | by split; [|right]].
  - right. by exists d.
Qed.

Lemma port_idle m m' o' :
  port_cycle I a r (m, Idle) (m', o') ->
  r_valid r = false /\ if req_fire a r then perhaps (a_bits a) m m' o' else o' = Idle /\ left_alone m m'.
Proof.
  intros (o & Hh & Hc). cbn in Hh, Hc. destruct (r_valid r); [done|]. injection Hh as <-. split; [done|].
  apply commits_inv in Hc. by destruct (req_fire a r).
Qed.

Lemma port_accepted q m m' o' :
  port_cycle I a r (m, Accepted q) (m', o') -> r_ready r = false /\ r_valid r = false /\ perhaps q m m' o'.
Proof.
  intros (o & Hh & Hc). cbn in Hh, Hc. destruct (r_ready r), (r_valid r); try discriminate Hh. injection Hh as <-.
  do 2 (split; [done|]). by apply commits_inv in Hc.
Qed.

Lemma port_answered d m m' o' :
  port_cycle I a r (m, Answered d) (m', o') ->
  r_ready r = false /\ (r_valid r = true -> r_bits r = d) /\ left_alone m m' /\ o' = if resp_fire a r then Idle else Answered d.
Proof.
  intros (o & Hh & Hc). cbn in Hh, Hc. unfold resp_fire. destruct (r_ready r); [done|]. split; [done|].
  destruct (r_valid r); cbn [andb].
  - destruct (Z.eqb_spec (r_bits r) d); [|done]. injection Hh as <-. split; [done|]. destruct (a_ready a); by apply commits_inv in Hc as [? ?].
  - injection Hh as <-. split; [done|]. by apply commits_inv in Hc as [? ?].
Qed.
End Port.

(** ** Agents that share the memory *)

(** The lines of [P] are left alone. *)
Definition keeps (P : Z -> Prop) (m m' : lines) : Prop := forall l, 0 <= l < 256 -> P l -> m' l = m l.

Lemma keeps_refl P m : keeps P m m.
Proof. by intros l _ _. Qed.

Lemma keeps_trans P m1 m2 m3 : keeps P m1 m2 -> keeps P m2 m3 -> keeps P m1 m3.
Proof. intros H1 H2 l Hl HP. rewrite (H2 l Hl HP). by apply H1. Qed.

Lemma alone_keeps P m m' : left_alone (keeps P) m m' -> keeps P m m'.
Proof. intros [-> | H]; [by apply keeps_refl | done]. Qed.

(** The same request in memories that agree on [P]. *)
Lemma perform_keeps P m m' q : keeps P m m' -> keeps P (perform m q) (perform m' q).
Proof. intros K l Hl HP. unfold perform. destruct (q_isWrite q); [|by apply K]. by destruct (l =? _); [|apply K]. Qed.

(** A requester that waits for its port: neither its request is taken nor an
    answer given to it. *)
Definition stalled (a : Ask MemReq) (r : Reply) : bool := (a_valid a || a_ready a) && negb (req_fire a r || resp_fire a r).

(** A port that never stalls its requester for [D] cycles in a row. *)
Definition prompt (D : nat) (a : nat -> Ask MemReq) (r : nat -> Reply) : Prop :=
  forall t, exists t', (t <= t' < t + D)%nat /\ stalled (a t') (r t') = false.

(** A port seen over time: from every memory and outstanding request it can have
    in a cycle, the cycle is one of a line port to some it can have in the next. *)
Definition serves (P : Z -> Prop) (a : nat -> Ask MemReq) (r : nat -> Reply) (can : nat -> lines -> outstanding -> Prop) : Prop :=
  forall t m o, can t m o -> exists m' o', can (S t) m' o' /\ port_cycle (keeps P) (a t) (r t) (m, o) (m', o').

Lemma prompt_later D a r t0 : prompt D a r -> prompt D (fun t => a (t0 + t)%nat) (fun t => r (t0 + t)%nat).
Proof. intros H t. destruct (H (t0 + t)%nat) as (t' & Ht & Hs). exists (t' - t0)%nat. replace (t0 + (t' - t0))%nat with t' by lia. split; [lia | done]. Qed.

(** What has [k] steps to go, and takes one in every cycle that is not stalled,
    reaches its end. *)
Section Finishes.
Context (D : nat) (a : nat -> Ask MemReq) (r : nat -> Reply) (R : nat -> nat -> Prop) (fin : nat -> Prop) `{forall t, Decision (fin t)}.
Context (answers_soon : prompt D a r).
Context (goes : forall t k, R t k -> ~ fin t ->
  (0 < k)%nat /\ exists k', R (S t) k' /\ (k' <= k)%nat /\ (stalled (a t) (r t) = false -> (k' < k)%nat)).

(** The end within the next [n] cycles, or [k] steps at most still to go. *)
Lemma walk t k n : R t k ->
  (exists T k', (t <= T < t + n)%nat /\ fin T /\ R T k' /\ forall t', (t <= t' < T)%nat -> ~ fin t' /\ exists k'', R t' k'') \/
  (exists k', R (t + n)%nat k' /\ (k' <= k)%nat /\ forall t', (t <= t' < t + n)%nat -> ~ fin t' /\ exists k'', R t' k'').
Proof.
  intros HR. induction n as [|n IH]; [right; exists k; rewrite Nat.add_0_r; split_and!; [done | done | lia]|].
  destruct IH as [(T & k' & HT & IH) | (k' & HR' & Hk & Hno)]; [left; exists T, k'; split; [lia | done]|].
  destruct (decide (fin (t + n)%nat)) as [Hf|Hf]; [left; exists (t + n)%nat, k'; split_and!; [lia | lia | done | done | done]|].
  right. destruct (goes _ _ HR' Hf) as (_ & k2 & HR2 & Hk2 & _). exists k2. rewrite Nat.add_succ_r. split_and!; [done | lia|].
  intros t' Ht'. destruct (decide (t' = t + n)%nat) as [->|]; [split; [done | by exists k'] | apply Hno; lia].
Qed.

Lemma prompt_finishes t k : R t k ->
  exists T k', (t <= T <= t + D * k)%nat /\ fin T /\ R T k' /\ forall t', (t <= t' < T)%nat -> ~ fin t' /\ exists k'', R t' k''.
Proof.
  revert t. induction k as [k IH] using lt_wf_ind. intros t HR.
  destruct (decide (fin t)) as [Hf|Hf]; [exists t, k; split_and!; [lia | lia | done | done | lia]|].
  destruct (goes t k HR Hf) as [Hpos _]. assert (D * k = D * pred k + D)%nat as Ek by (destruct k; [lia | cbn [pred]; lia]).
  destruct (answers_soon t) as (t1 & Ht1 & Hs).
  destruct (walk t k (t1 - t) HR) as [(T & k' & HT & Hw) | (k1 & HR1 & Hk1 & Hno1)]; [exists T, k'; split; [lia | done]|].
  replace (t + (t1 - t))%nat with t1 in * by lia. destruct (decide (fin t1)) as [Hf1|Hf1]; [exists t1, k1; split_and!; [lia | lia | done | done | done]|].
  destruct (goes t1 k1 HR1 Hf1) as (_ & k2 & HR2 & _ & Hk2). specialize (Hk2 Hs).
  destruct (IH k2 ltac:(lia) (S t1) HR2) as (T & k' & HT & Hfin & HRT & Hno2). exists T, k'.
  assert (D * k2 <= D * pred k)%nat by (apply Nat.mul_le_mono_l; lia).
  split; [lia|]. split; [done|]. split; [done|]. intros t' Ht'. destruct (decide (t' < t1)%nat); [apply Hno1; lia|].
  destruct (decide (t' = t1)) as [->|]; [split; [done | by exists k1] | apply Hno2; lia].
Qed.
End Finishes.

(** ** One access of an agent that owns its lines *)

Definition store (m : lines) (l v : Z) : lines := fun l' => if l' =? l then v else m l'.

Lemma perform_store m q : q_isWrite q = true -> perform m q = store m (line_of (q_addr q)) (q_data q).
Proof. unfold perform. by intros ->. Qed.

Section Access.
Context (P : Z -> Prop) (a : Ask MemReq) (r : Reply) (M : lines) (l : Z) (Pl : P l).

(** A read of line [l] is under way, and the agent's lines are those of [M]. *)
Definition reading (m : lines) (o : outstanding) : Prop :=
  keeps P M m /\
  match o with Idle => False | Accepted q => q_isWrite q = false /\ line_of (q_addr q) = l | Answered d => d = M l end.

(** A write of [v] to line [l] is under way. *)
Definition writing (v : Z) (m : lines) (o : outstanding) : Prop :=
  match o with
  | Idle => False
  | Accepted q => q_isWrite q = true /\ line_of (q_addr q) = l /\ q_data q = v /\ keeps P M m
  | Answered _ => keeps P (store M l v) m
  end.

Lemma perhaps_reads q m m' o' :
  q_isWrite q = false -> line_of (q_addr q) = l -> keeps P M m -> perhaps (keeps P) q m m' o' -> reading m' o'.
Proof.
  intros Hw Hl K [[-> Ha] | (d & -> & -> & Hd)]; (split; [|try done]).
  - eapply keeps_trans; [done | by apply alone_keeps].
  - unfold perform. by rewrite Hw.
  - rewrite (Hd Hw), Hl. rewrite <- Hl. apply K; [apply line_of_range | by rewrite Hl].
Qed.

Lemma perhaps_writes v q m m' o' :
  q_isWrite q = true -> line_of (q_addr q) = l -> q_data q = v -> keeps P M m -> perhaps (keeps P) q m m' o' -> writing v m' o'.
Proof.
  intros Hw Hl Hv K [[-> Ha] | (d & -> & -> & Hd)]; cbn.
  - split_and!; try done. eapply keeps_trans; [done | by apply alone_keeps].
  - rewrite (perform_store m q Hw), Hl, Hv. intros l' Hl' HP. unfold store. destruct (l' =? l); [done | by apply K].
Qed.

Lemma rest_goes m m' o' :
  a_valid a = false -> keeps P M m -> port_cycle (keeps P) a r (m, Idle) (m', o') -> o' = Idle /\ keeps P M m'.
Proof.
  intros Hv K Hp. apply port_idle in Hp as [_ Hp]. unfold req_fire in Hp. rewrite Hv in Hp. destruct Hp as [-> Ha].
  split; [done|]. eapply keeps_trans; [done | by apply alone_keeps].
Qed.

Lemma read_starts m m' o' :
  q_isWrite (a_bits a) = false -> line_of (q_addr (a_bits a)) = l -> keeps P M m -> port_cycle (keeps P) a r (m, Idle) (m', o') ->
  r_valid r = false /\ if req_fire a r then reading m' o' else o' = Idle /\ keeps P M m'.
Proof.
  intros Hw Hl K Hp. apply port_idle in Hp as [Hv Hp]. split; [done|]. destruct (req_fire a r); [by eapply perhaps_reads|].
  destruct Hp as [-> Ha]. split; [done|]. eapply keeps_trans; [done | by apply alone_keeps].
Qed.

Lemma read_goes m o m' o' :
  reading m o -> port_cycle (keeps P) a r (m, o) (m', o') ->
  r_ready r = false /\ if resp_fire a r then r_bits r = M l /\ o' = Idle /\ keeps P M m' else reading m' o'.
Proof.
  intros [K Ho] Hp. destruct o as [|q|d]; [done | |].
  - destruct Ho as [Hw Hl]. apply port_accepted in Hp as (Hr & Hv & Hp). split; [done|]. unfold resp_fire. rewrite Hv. by eapply perhaps_reads.
  - apply port_answered in Hp as (Hr & Hb & Ha & ->). split; [done|]. assert (keeps P M m') as K' by (eapply keeps_trans; [done | by apply alone_keeps]).
    unfold resp_fire in *. destruct (r_valid r); cbn [andb]; [|done]. rewrite (Hb eq_refl). by destruct (a_ready a).
Qed.

Lemma write_starts v m m' o' :
  q_isWrite (a_bits a) = true -> line_of (q_addr (a_bits a)) = l -> q_data (a_bits a) = v -> keeps P M m ->
  port_cycle (keeps P) a r (m, Idle) (m', o') ->
  r_valid r = false /\ if req_fire a r then writing v m' o' else o' = Idle /\ keeps P M m'.
Proof.
  intros Hw Hl Hd K Hp. apply port_idle in Hp as [Hv Hp]. split; [done|]. destruct (req_fire a r); [by eapply perhaps_writes|].
  destruct Hp as [-> Ha]. split; [done|]. eapply keeps_trans; [done | by apply alone_keeps].
Qed.

Lemma write_goes v m o m' o' :
  writing v m o -> port_cycle (keeps P) a r (m, o) (m', o') ->
  r_ready r = false /\ if resp_fire a r then o' = Idle /\ keeps P (store M l v) m' else writing v m' o'.
Proof.
  intros Ho Hp. destruct o as [|q|d]; [done | |].
  - destruct Ho as (Hw & Hl & Hd & K). apply port_accepted in Hp as (Hr & Hv & Hp). split; [done|]. unfold resp_fire. rewrite Hv.
    by eapply perhaps_writes.
  - apply port_answered in Hp as (Hr & Hb & Ha & ->). split; [done|].
    assert (keeps P (store M l v) m') as K' by (eapply keeps_trans; [exact Ho | by apply alone_keeps]). by destruct (resp_fire a r).
Qed.
End Access.

(** ** Arrays of lines *)

(** The line that is [i] lines after the one of address [b]. *)
Definition at_line (b i : Z) : Z := line_of (u64 (b + Z.shiftl i 6)).

Lemma at_line_range b i : 0 <= at_line b i < 256.
Proof. apply line_of_range. Qed.

Lemma u64_split x : exists q, u64 x = x - 2 ^ 64 * q.
Proof. exists (x / 2 ^ 64). unfold u64. rewrite Z.mod_eq by lia. lia. Qed.

Lemma line_of_u64 x : line_of (u64 x) = x / 64 mod 256.
Proof.
  destruct (u64_split x) as [q ->]. unfold line_of, slice. change (2 ^ 6) with 64. change (2 ^ 8) with 256.
  replace (x - 2 ^ 64 * q) with (x + (- (2 ^ 58 * q)) * 64) by lia. rewrite Z.div_add by lia.
  replace (x / 64 + - (2 ^ 58 * q)) with (x / 64 + (- (2 ^ 50 * q)) * 256) by lia. by rewrite Z.mod_add by lia.
Qed.

Lemma at_line_mod b i : at_line b i = (b / 64 + i) mod 256.
Proof.
  unfold at_line. rewrite line_of_u64, Z.shiftl_mul_pow2 by lia. change (2 ^ 6) with 64. by rewrite Z.div_add by lia.
Qed.

Lemma at_line_after b i j : line_of (u64 (u64 (b + Z.shiftl i 6) + Z.shiftl j 6)) = at_line b (i + j).
Proof.
  unfold at_line. f_equal. unfold u64. rewrite Zplus_mod_idemp_l. f_equal. rewrite !Z.shiftl_mul_pow2 by lia. lia.
Qed.

Lemma at_line_inj b i j : at_line b i = at_line b j -> i - j < 256 -> j - i < 256 -> i = j.
Proof.
  rewrite !at_line_mod. intros E. pose proof (Z.div_mod (b / 64 + i) 256 ltac:(lia)). pose proof (Z.div_mod (b / 64 + j) 256 ltac:(lia)).
  rewrite E in *. lia.
Qed.
