(* ===== verification/Hbm.v ===== *)
(** * The HBM3 stack — [src/main/scala/aegis/memory/HBM3Stack.scala]

    A banked array of 256 lines of 512 bits with a page table of open rows,
    activate and precharge delays and a periodic refresh, at the geometry the
    SoC instantiates (4 banks, 8 rows, 8 columns). *)

From S2P Require Import Prelude Isa Fabric.

Variant hbm_state := s_idle | s_prech | s_act | s_cmd | s_ref.

#[global] Instance hbm_state_eq_dec : EqDecision hbm_state.
Proof. solve_decision. Defined.

Definition bankBits : Z := 2.
Definition colBits : Z := 3.
Definition rowBits : Z := 3.
Definition offBits : Z := 6.
Definition nBanks : Z := 4.
Definition tACT : Z := 2.
Definition tPRE : Z := 2.
Definition tREF : Z := 16.

Record HBM3Stack := MkHbm {
  cells : list Z;
  pageOpen : list bool;
  pageRow : list Z;
  rAddr : Z; rData : Z; rW : bool;
  state : hbm_state;
  cnt : Z;
  refCnt : Z }.

(** The registers without a reset value hold anything. *)
Definition hbm_reset (a d : Z) (w : bool) : HBM3Stack :=
  MkHbm (replicate 256 0) (replicate 4 false) (replicate 4 0) a d w s_idle 0 tREF.

Definition col_of (a : Z) : Z := bits (Z.shiftr a offBits) 2 0.
Definition bank_of (a : Z) : Z := bits (Z.shiftr a offBits) 4 3.
Definition row_of (a : Z) : Z := bits (Z.shiftr a offBits) 7 5.
Definition idx_of (a : Z) : Z := cat 6 (bank_of a) (cat 3 (row_of a) (col_of a)).

(** The wires of the module. *)
Definition hbm_reply (s : HBM3Stack) : Reply :=
  MkReply (bool_decide (state s = s_idle) && negb (refCnt s =? 0)) (bool_decide (state s = s_cmd))
    (if rW s then 0 else vget (cells s) (idx_of (rAddr s))).

Definition pg_active (s : HBM3Stack) : bool := existsb (fun b => b) (pageOpen s).

(** The mirror of the transaction on the physical interface. *)
Definition hbm_mem (s : HBM3Stack) : AxiMaster :=
  let cmd := bool_decide (state s = s_cmd) in
  MkAxiM 0 (rAddr s) 0 6 0 (cmd && rW s) (rData s) (2 ^ 64 - 1) true (cmd && rW s) true
         0 (rAddr s) 0 6 0 (cmd && negb (rW s)) true.

Definition hbm_accept (s : HBM3Stack) (q : MemReq) : HBM3Stack :=
  let b := bank_of (q_addr q) in
  let open := vget (pageOpen s) b in
  let hit := open && (vget (pageRow s) b =? row_of (q_addr q)) in
  MkHbm (cells s) (pageOpen s) (pageRow s) (q_addr q) (q_data q) (q_isWrite q)
    (if hit then s_cmd else if open then s_prech else s_act)
    (if hit then cnt s else 0) (refCnt s).

Definition u5 (x : Z) : Z := x mod 2 ^ 5.

(** The registers of the next cycle. *)
Definition hbm_next (s : HBM3Stack) (a : Ask MemReq) (open_page : bool) : HBM3Stack :=
  let bank := bank_of (rAddr s) in
  match state s with
  | s_idle =>
      if refCnt s =? 0 then
        MkHbm (cells s) (pageOpen s) (pageRow s) (rAddr s) (rData s) (rW s) s_ref 0 (refCnt s)
      else
        let s1 := MkHbm (cells s) (pageOpen s) (pageRow s) (rAddr s) (rData s) (rW s) s_idle (cnt s) (refCnt s - 1) in
        if req_fire a (hbm_reply s) then hbm_accept s1 (a_bits a) else s1
  | s_prech =>
      if cnt s =? tPRE - 1 then
        MkHbm (cells s) (vset (pageOpen s) bank false) (pageRow s) (rAddr s) (rData s) (rW s) s_act 0 (refCnt s)
      else MkHbm (cells s) (pageOpen s) (pageRow s) (rAddr s) (rData s) (rW s) s_prech (u5 (cnt s + 1)) (refCnt s)
  | s_act =>
      if cnt s =? tACT - 1 then
        MkHbm (cells s) (vset (pageOpen s) bank true) (vset (pageRow s) bank (row_of (rAddr s)))
          (rAddr s) (rData s) (rW s) s_cmd 0 (refCnt s)
      else MkHbm (cells s) (pageOpen s) (pageRow s) (rAddr s) (rData s) (rW s) s_act (u5 (cnt s + 1)) (refCnt s)
  | s_cmd =>
      MkHbm (if rW s then vset (cells s) (idx_of (rAddr s)) (rData s) else cells s)
        (if open_page then pageOpen s else vset (pageOpen s) bank false) (pageRow s)
        (rAddr s) (rData s) (rW s) (if a_ready a then s_idle else s_cmd) (cnt s) (refCnt s)
  | s_ref =>
      if cnt s =? tREF then
        MkHbm (cells s) (pageOpen s) (pageRow s) (rAddr s) (rData s) (rW s) s_idle 0 tREF
      else MkHbm (cells s) (pageOpen s) (pageRow s) (rAddr s) (rData s) (rW s) s_ref (u5 (cnt s + 1)) (refCnt s)
  end.

(** ** The stack is an array of lines *)

(** The cell of a line. *)
Definition idx_line (l : Z) : Z := cat 6 (slice l 3 2) (cat 3 (slice l 5 3) (slice l 0 3)).

Lemma idx_of_line a : idx_of a = idx_line (line_of a).
Proof.
  unfold idx_of, idx_line, bank_of, row_of, col_of, bits, line_of. unfold offBits. rewrite !slice_shiftr by lia.
  change (4 - 3 + 1) with 2. change (7 - 5 + 1) with 3. change (2 - 0 + 1) with 3.
  by rewrite !(slice_slice a 6 8) by lia.
Qed.

Definition idx_check (l : Z) : bool :=
  let i := idx_line l in (0 <=? i) && (i <? 256) && (slice i 0 3 + 8 * slice i 6 2 + 32 * slice i 3 3 =? l).

Lemma idx_checked l : 0 <= l < 256 -> idx_check l = true.
Proof.
  intros Hl. assert (forallb idx_check (range 256) = true) as E by (vm_compute; reflexivity).
  rewrite forallb_forall in E. apply E. apply list_elem_of_In, elem_of_range. lia.
Qed.

Lemma idx_line_range l : 0 <= l < 256 -> 0 <= idx_line l < 256.
Proof. intros Hl. pose proof (idx_checked l Hl) as E. unfold idx_check in E. rewrite !andb_true_iff in E. lia. Qed.

Lemma idx_line_inj l l' : 0 <= l < 256 -> 0 <= l' < 256 -> idx_line l = idx_line l' -> l = l'.
Proof.
  intros Hl Hl' E. pose proof (idx_checked l Hl) as C. pose proof (idx_checked l' Hl') as C'.
  unfold idx_check in *. rewrite !andb_true_iff in C, C'. rewrite E in C. lia.
Qed.

(** A request accepted and not answered yet. *)
Definition busy (s : HBM3Stack) : bool := match state s with s_idle | s_ref => false | _ => true end.

(** The array once the request at hand has been carried out. *)
Definition image (s : HBM3Stack) : list Z :=
  if busy s && rW s then vset (cells s) (idx_of (rAddr s)) (rData s) else cells s.

Record hbm_ok (s : HBM3Stack) : Prop := {
  ok_cells : length (cells s) = 256%nat;
  ok_open : length (pageOpen s) = 4%nat;
  ok_row : length (pageRow s) = 4%nat;
  ok_ref : 0 <= refCnt s <= tREF;
  ok_cnt : match state s with s_prech | s_act => 0 <= cnt s < 2 | s_ref => 0 <= cnt s <= tREF | _ => True end
}.

Definition holds (s : HBM3Stack) (m : lines) : Prop :=
  forall l, 0 <= l < 256 -> vget (image s) (idx_line l) = m l.

(** The stack holds [m]; [o] is the answer it owes. *)
Record hbm_rep (s : HBM3Stack) (m : lines) (o : option Z) : Prop := {
  hr_ok : hbm_ok s;
  hr_mem : holds s m;
  hr_owed : match o with
            | None => busy s = false
            | Some d => busy s = true /\ d = if rW s then 0 else m (line_of (rAddr s))
            end
}.

Lemma hbm_reset_rep a d w : hbm_rep (hbm_reset a d w) (fun _ => 0) None.
Proof.
  split; [|intros l Hl | done].
  - split; simpl; try done; unfold tREF; lia.
  - unfold image, hbm_reset. cbn [busy state andb cells]. apply vget_replicate. apply idx_line_range. done.
Qed.

Lemma hbm_next_ok s a op : hbm_ok s -> hbm_ok (hbm_next s a op).
Proof.
  intros [Hc Ho Hr Hf Hn]. unfold hbm_next, tPRE, tACT, tREF in *. cbv zeta.
  destruct (state s) eqn:E; unfold hbm_accept, tREF, u5 in *; cbv zeta; repeat case_match; bool_cases; split;
    cbn [cells pageOpen pageRow refCnt state cnt] in *; rewrite ?length_vset; try done; try lia;
    rewrite ?Z.mod_small by lia; unfold tREF; try lia.
Qed.

Lemma holds_ext s s' m : image s' = image s -> holds s m -> holds s' m.
Proof. intros E H l Hl. rewrite E. by apply H. Qed.

(** A stack that owes an answer takes no request, and gives the answer or goes
    on working. *)
Lemma hbm_busy_cycle s m d a op :
  hbm_rep s m (Some d) ->
  r_ready (hbm_reply s) = false /\ (r_valid (hbm_reply s) = true -> r_bits (hbm_reply s) = d) /\
  hbm_rep (hbm_next s a op) m (if resp_fire a (hbm_reply s) then None else Some d).
Proof.
  intros [K Hm [Hb ->]]. unfold hbm_reply, resp_fire. cbn [r_ready r_valid r_bits].
  unfold busy in Hb. destruct (state s) eqn:Es; try done.
  1,2: split; [done|]; split; [done|];
    match goal with |- context [bool_decide ?P && _] => change (bool_decide P) with false end; cbn [andb];
    split; [by apply hbm_next_ok | | ]; unfold hbm_next; rewrite Es; destruct (_ =? _); try done;
    eapply (holds_ext s); try done; unfold image, busy; rewrite Es; done.
  split; [done|]. split.
  { intros _. destruct (rW s) eqn:Ew; [done|]. rewrite <- Hm by apply line_of_range. rewrite <- idx_of_line.
    unfold image. by rewrite Ew, andb_false_r. }
  change (bool_decide (s_cmd = s_cmd)) with true. cbn [andb]. split; [by apply hbm_next_ok| |].
  - unfold hbm_next. rewrite Es. eapply (holds_ext s); [|done]. unfold image, busy. rewrite Es. cbn [state rW cells rAddr rData].
    destruct (a_ready a), (rW s); cbn [andb]; try done. unfold vset. by rewrite list_insert_insert_eq.
  - unfold hbm_next. rewrite Es. unfold busy. cbn [state rW rAddr]. by destruct (a_ready a).
Qed.

Lemma image_vset s l v m :
  hbm_ok s -> (forall l, 0 <= l < 256 -> vget (cells s) (idx_line l) = m l) -> 0 <= l < 256 ->
  forall l', 0 <= l' < 256 -> vget (vset (cells s) (idx_line l) v) (idx_line l') = if l' =? l then v else m l'.
Proof.
  intros K Hm Hl l' Hl'. pose proof (idx_line_range l Hl). pose proof (idx_line_range l' Hl').
  rewrite vget_vset; [|rewrite (ok_cells _ K); lia|lia]. destruct (Z.eqb_spec (idx_line l) (idx_line l')) as [E|E].
  - apply idx_line_inj in E; [|done..]. subst. by rewrite Z.eqb_refl.
  - rewrite (proj2 (Z.eqb_neq l' l)) by (intros ->; done). by apply Hm.
Qed.

(** A stack that owes nothing gives no answer, and takes a request, which has
    its effect at that moment, or goes on waiting. *)
Lemma hbm_free_cycle s m a op :
  hbm_rep s m None ->
  r_valid (hbm_reply s) = false /\
  if req_fire a (hbm_reply s)
  then exists d, (d = if q_isWrite (a_bits a) then 0 else m (line_of (q_addr (a_bits a)))) /\
         hbm_rep (hbm_next s a op) (perform m (a_bits a)) (Some d)
  else hbm_rep (hbm_next s a op) m None.
Proof.
  intros [K Hm Hb]. pose proof (hbm_next_ok s a op K) as K'.
  assert (forall l, 0 <= l < 256 -> vget (cells s) (idx_line l) = m l) as Hc.
  { intros l Hl. rewrite <- Hm by done. unfold image. by rewrite Hb. }
  unfold busy in Hb. unfold hbm_reply, req_fire at 1. cbn [r_ready r_valid].
  destruct (state s) eqn:Es; try done; (split; [done|]).
  2: { cbn. rewrite andb_false_r. unfold hbm_next in *. rewrite Es in *. split; [done| |by case_match].
       intros l Hl. rewrite <- Hc by done. unfold image. by case_match. }
  change (bool_decide (s_idle = s_idle)) with true. cbn [andb].
  unfold hbm_next in *. rewrite Es in *. unfold req_fire, hbm_reply in *. cbn [r_ready] in *. rewrite Es in *.
  change (bool_decide (s_idle = s_idle)) with true in *. cbn [andb] in *.
  destruct (refCnt s =? 0); cbn [negb] in *; rewrite ?andb_false_r, ?andb_true_r in *.
  { split; [done| |done]. intros l Hl. rewrite <- Hc by done. done. }
  destruct (a_valid a); [|split; [done| |done]; intros l Hl; by rewrite <- Hc].
  eexists. split; [reflexivity|]. unfold hbm_accept in *. cbn [pageOpen pageRow cells] in *.
  set (hit := _ && _) in *. set (op' := vget (pageOpen s) _) in *. clearbody op' hit.
  assert (forall st, (if hit then s_cmd else if op' then s_prech else s_act) = st -> busy (MkHbm [] [] [] 0 0 false st 0 0) = true) as Hbz.
  { intros st <-. by destruct hit, op'. }
  specialize (Hbz _ eq_refl). set (st := if hit then _ else _) in *. clearbody st. split; [done| |].
  - intros l Hl. unfold image, busy in *. cbn [state rW rAddr rData cells] in *. unfold perform.
    destruct (q_isWrite (a_bits a)); rewrite ?andb_false_r, ?andb_true_r; [|by apply Hc].
    rewrite Hbz, idx_of_line. apply image_vset; try done; apply line_of_range.
  - unfold busy in *. cbn [state rW rAddr] in *. split; [done|]. unfold perform. by destruct (q_isWrite (a_bits a)).
Qed.

(** ** Timing *)

(** The cycles until the stack is ready again, when every answer is taken at
    once. *)
Definition until_ready (s : HBM3Stack) : Z :=
  let refresh := if refCnt s =? 0 then 18 else 0 in
  match state s with
  | s_idle => refresh
  | s_ref => 17 - cnt s
  | s_cmd => 1 + refresh
  | s_act => (2 - cnt s) + 1 + refresh
  | s_prech => (2 - cnt s) + 3 + refresh
  end.

Lemma until_ready_range s : hbm_ok s -> 0 <= until_ready s <= 23.
Proof.
  intros [_ _ _ Hr Hn]. unfold until_ready, tREF in *. destruct (state s); bool_cases; lia.
Qed.

Lemma until_ready_zero s : hbm_ok s -> (until_ready s = 0 <-> r_ready (hbm_reply s) = true).
Proof.
  intros [_ _ _ Hr Hn]. unfold until_ready, hbm_reply, tREF in *. cbn [r_ready].
  destruct (state s); cbn; bool_cases; cbn; split; try done; try lia.
Qed.

(** Every cycle brings the stack closer to its next request. *)
Lemma until_ready_step s a op :
  hbm_ok s -> r_ready (hbm_reply s) = false -> (busy s = true -> a_ready a = true) ->
  until_ready (hbm_next s a op) = until_ready s - 1.
Proof.
  intros K Hr Ha. destruct K as [_ _ _ Hf Hn]. unfold hbm_reply in Hr. cbn [r_ready] in Hr.
  unfold hbm_next, until_ready, tPRE, tACT, tREF, u5, busy in *. destruct (state s) eqn:E.
  - destruct (refCnt s =? 0) eqn:Er; [|done]. cbn. lia.
  - destruct (Z.eqb_spec (cnt s) (2 - 1)); cbn [refCnt state cnt]; rewrite ?Z.mod_small by lia; lia.
  - destruct (Z.eqb_spec (cnt s) (2 - 1)); cbn [refCnt state cnt]; rewrite ?Z.mod_small by lia; lia.
  - rewrite (Ha eq_refl). cbn [refCnt state cnt]. lia.
  - destruct (Z.eqb_spec (cnt s) 16); cbn [refCnt state cnt]; rewrite ?Z.mod_small by lia; cbn; lia.
Qed.

(** The cycles until the answer at hand is given. *)
Definition until_answer (s : HBM3Stack) : Z :=
  match state s with s_prech => 4 - cnt s | s_act => 2 - cnt s | _ => 0 end.

Lemma until_answer_range s : hbm_ok s -> 0 <= until_answer s <= 4.
Proof. intros [_ _ _ _ Hn]. unfold until_answer. destruct (state s); lia. Qed.

Lemma until_answer_zero s : hbm_ok s -> busy s = true -> until_answer s = 0 -> r_valid (hbm_reply s) = true.
Proof. intros [_ _ _ _ Hn] Hb H0. unfold until_answer, busy, hbm_reply in *. destruct (state s); try done; lia. Qed.

Lemma until_answer_step s a op :
  hbm_ok s -> busy s = true -> r_valid (hbm_reply s) = false ->
  until_answer (hbm_next s a op) = until_answer s - 1 /\ busy (hbm_next s a op) = true.
Proof.
  intros [_ _ _ _ Hn] Hb Hv. unfold hbm_next, until_answer, busy, hbm_reply, tPRE, tACT, u5 in *. cbn [r_valid] in Hv.
  destruct (state s) eqn:E; try done;
    (destruct (Z.eqb_spec (cnt s) (2 - 1)); cbn [state cnt]; rewrite ?Z.mod_small by lia; (split; [lia | done])).
Qed.
