(* ===== verification/Split.v ===== *)
(** * The split-prioritizer — [src/main/scala/aegis/memory/SplitPrioritizer.scala]

    Three requesters, the CPU, the GPU and the accelerator lane, share the one
    stack.  The file models the arbiter around the stack and shows that it
    presents to each lane the contract of a line port over one memory, in which
    requests take effect one at a time in the order they are granted. *)

From S2P Require Import Prelude Isa Fabric Hbm.

Variant port := Cpu | Gpu | Acc.

#[global] Instance port_eq_dec : EqDecision port.
Proof. solve_decision. Defined.

(** What the three lanes drive. *)
Record MemPort := MkPort { cpu_port : Ask MemReq; gpu_port : Ask MemReq; acc_port : Ask MemReq }.

Definition ask_of (i : MemPort) (p : port) : Ask MemReq :=
  match p with Cpu => cpu_port i | Gpu => gpu_port i | Acc => acc_port i end.

Record SplitPrioritizer := MkSplit { hbm : HBM3Stack; rr : Z; src_cpu : bool; src_gpu : bool }.

Definition split_reset (a d : Z) (w : bool) : SplitPrioritizer := MkSplit (hbm_reset a d w) 0 true false.

(** [SplitMode] *)
Definition mode_fair : Z := 0.
Definition mode_gaming : Z := 1.
Definition mode_ai : Z := 2.

Definition cpu_priority (mode : Z) : bool := (mode =? mode_gaming) || (mode =? mode_ai).

Definition reqs (i : MemPort) : list bool := [a_valid (cpu_port i); a_valid (gpu_port i); a_valid (acc_port i)].
Definition any (i : MemPort) : bool := a_valid (cpu_port i) || a_valid (gpu_port i) || a_valid (acc_port i).

Definition fairSel (rr : Z) (i : MemPort) : Z :=
  let higher := zip_with (fun b k => b && (rr <? k)) (reqs i) [0; 1; 2] in
  let lower := zip_with (fun b k => b && (k <=? rr)) (reqs i) [0; 1; 2] in
  if existsb (fun b => b) higher then PriorityEncoder higher else PriorityEncoder lower.

Definition sel (s : SplitPrioritizer) (i : MemPort) (mode : Z) : Z :=
  if cpu_priority mode && a_valid (cpu_port i) then 0 else fairSel (rr s) i.

Definition port_id (p : port) : Z := match p with Cpu => 0 | Gpu => 1 | Acc => 2 end.

(** [serve_cpu], [serve_gpu] and [serve_acc] *)
Definition serve (s : SplitPrioritizer) (i : MemPort) (mode : Z) (p : port) : bool :=
  any i && (sel s i mode =? port_id p).

(** The request and the ready line the stack sees. *)
Definition hbm_ask (s : SplitPrioritizer) (i : MemPort) (mode : Z) : Ask MemReq :=
  let pick {A} (d : A) (f : MemReq -> A) :=
    MuxCase d [(serve s i mode Cpu, f (a_bits (cpu_port i))); (serve s i mode Gpu, f (a_bits (gpu_port i)));
               (serve s i mode Acc, f (a_bits (acc_port i)))] in
  MkAsk (any i) (MkMemReq (pick 0 q_addr) (pick 0 q_data) (pick false q_isWrite) 0)
    (if src_cpu s then a_ready (cpu_port i) else if src_gpu s then a_ready (gpu_port i) else a_ready (acc_port i)).

Definition src_of (s : SplitPrioritizer) (p : port) : bool :=
  match p with Cpu => src_cpu s | Gpu => src_gpu s | Acc => negb (src_cpu s) && negb (src_gpu s) end.

(** What the arbiter drives on each lane. *)
Definition split_reply (s : SplitPrioritizer) (i : MemPort) (mode : Z) (p : port) : Reply :=
  let r := hbm_reply (hbm s) in
  MkReply (r_ready r && serve s i mode p) (r_valid r && src_of s p) (r_bits r).

Definition split_next (s : SplitPrioritizer) (i : MemPort) (mode : Z) : SplitPrioritizer :=
  let a := hbm_ask s i mode in
  let h := hbm_next (hbm s) a (mode =? mode_ai) in
  if req_fire a (hbm_reply (hbm s)) then MkSplit h (sel s i mode) (serve s i mode Cpu) (serve s i mode Gpu)
  else MkSplit h (rr s) (src_cpu s) (src_gpu s).

(** ** Arbitration *)

(** The lane that is served when the stack is ready. *)
Definition winner (s : SplitPrioritizer) (i : MemPort) (mode : Z) : option port :=
  if any i then Some (if sel s i mode =? 0 then Cpu else if sel s i mode =? 1 then Gpu else Acc) else None.

Lemma sel_cases s i mode :
  any i = true -> exists p, sel s i mode = port_id p /\ a_valid (ask_of i p) = true.
Proof.
  unfold any, sel, fairSel, reqs. destruct (cpu_priority mode && a_valid (cpu_port i)) eqn:Ec.
  { intros _. exists Cpu. apply andb_true_iff in Ec as [_ Ev]. by split. }
  clear Ec. cbn [zip_with existsb].
  destruct (a_valid (cpu_port i)) eqn:E0, (a_valid (gpu_port i)) eqn:E1, (a_valid (acc_port i)) eqn:E2; intros Ha; try discriminate Ha;
    destruct (rr s <? 0) eqn:F0, (rr s <? 1) eqn:F1, (rr s <? 2) eqn:F2, (0 <=? rr s) eqn:G0, (1 <=? rr s) eqn:G1, (2 <=? rr s) eqn:G2;
    cbn; first [by (exists Cpu) | by (exists Gpu) | by (exists Acc) | lia].
Qed.

Lemma winner_spec s i mode p :
  winner s i mode = Some p ->
  sel s i mode = port_id p /\ a_valid (ask_of i p) = true /\ (forall p', serve s i mode p' = bool_decide (p' = p)) /\
  (forall m, perform m (a_bits (hbm_ask s i mode)) = perform m (a_bits (ask_of i p))) /\
  q_isWrite (a_bits (hbm_ask s i mode)) = q_isWrite (a_bits (ask_of i p)) /\
  q_addr (a_bits (hbm_ask s i mode)) = q_addr (a_bits (ask_of i p)).
Proof.
  unfold winner. destruct (any i) eqn:Ea; [|done]. destruct (sel_cases s i mode Ea) as (p' & Es & Hv). intros [= <-].
  assert ((if sel s i mode =? 0 then Cpu else if sel s i mode =? 1 then Gpu else Acc) = p') as -> by (rewrite Es; by destruct p').
  split; [done|]. split; [done|]. unfold hbm_ask, serve. cbn [a_bits MuxCase]. rewrite Ea, Es.
  split; [intros p; by destruct p, p'|]. by destruct p'.
Qed.

Lemma winner_none s i mode p : winner s i mode = None -> serve s i mode p = false /\ a_valid (hbm_ask s i mode) = false /\ a_valid (ask_of i p) = false.
Proof.
  unfold winner, serve, hbm_ask. cbn [a_valid]. unfold any. destruct p, (a_valid (cpu_port i)) eqn:?, (a_valid (gpu_port i)) eqn:?, (a_valid (acc_port i)) eqn:?;
    try done; cbn; auto.
Qed.

Lemma winner_valid s i mode p : winner s i mode = Some p -> a_valid (hbm_ask s i mode) = true.
Proof. unfold winner, hbm_ask. cbn. by destruct (any i). Qed.

(** ** The arbiter and the stack are one atomic memory *)

Record split_rep (s : SplitPrioritizer) (m : lines) (o : option (port * Z)) : Prop := {
  sr_hbm : hbm_rep (hbm s) m (snd <$> o);
  sr_src : match o with Some (p, _) => forall p', src_of s p' = bool_decide (p' = p) | None => True end;
  sr_rr : 0 <= rr s < 3
}.

Lemma split_reset_rep a d w : split_rep (split_reset a d w) (fun _ => 0) None.
Proof. split; [apply hbm_reset_rep | done | cbn; lia]. Qed.

(** The atomic memory: a request is granted when no answer is owed, and has its
    effect then. *)
Definition atomic_cycle (s : SplitPrioritizer) (i : MemPort) (mode : Z) (m : lines) (o : option (port * Z)) : lines * option (port * Z) :=
  match o with
  | Some (p, d) => (m, if resp_fire (ask_of i p) (split_reply s i mode p) then None else o)
  | None =>
      match winner s i mode with
      | Some p =>
          if r_ready (hbm_reply (hbm s)) then
            let q := a_bits (ask_of i p) in
            (perform m q, Some (p, if q_isWrite q then 0 else m (line_of (q_addr q))))
          else (m, None)
      | None => (m, None)
      end
  end.

Lemma hbm_takes s i mode p : (forall p', src_of s p' = bool_decide (p' = p)) -> a_ready (hbm_ask s i mode) = a_ready (ask_of i p).
Proof.
  intros H. unfold hbm_ask. cbn [a_ready]. pose proof (H Cpu) as H1. pose proof (H Gpu) as H2. cbn in H1, H2.
  rewrite H1, H2. by destruct p.
Qed.

Lemma split_cycle s i mode m o :
  split_rep s m o -> split_rep (split_next s i mode) (fst (atomic_cycle s i mode m o)) (snd (atomic_cycle s i mode m o)).
Proof.
  intros [Hh Hs Hr]. unfold split_next. destruct o as [[p d]|]; cbn [fmap option_fmap option_map snd] in Hh.
  - destruct (hbm_busy_cycle (hbm s) m d (hbm_ask s i mode) (mode =? mode_ai) Hh) as (E1 & E2 & E3).
    unfold req_fire. rewrite E1, andb_false_r. cbn [atomic_cycle fst snd].
    unfold resp_fire in *. rewrite (hbm_takes s i mode p Hs) in E3. unfold split_reply. cbn [r_valid].
    rewrite (Hs p), bool_decide_true, andb_true_r by done.
    destruct (r_valid (hbm_reply (hbm s)) && a_ready (ask_of i p)); split; cbn [rr hbm]; try done.
  - destruct (hbm_free_cycle (hbm s) m (hbm_ask s i mode) (mode =? mode_ai) Hh) as (E1 & E2).
    cbn [atomic_cycle]. unfold req_fire in *. destruct (winner s i mode) as [p|] eqn:Ew.
    + destruct (winner_spec s i mode p Ew) as (Esel & Hv & Hserve & Hp & Hw & Ha). rewrite (winner_valid _ _ _ _ Ew) in *. cbn [andb] in *.
      destruct (r_ready (hbm_reply (hbm s))); [|split; done]. destruct E2 as (d & -> & E2). rewrite Hp, Hw, Ha in E2.
      cbn [fst snd]. split; cbn [hbm rr fmap option_fmap option_map snd]; [done| |rewrite Esel; destruct p; cbn; lia].
      intros p'. rewrite !Hserve. by destruct p', p.
    + destruct (winner_none s i mode Cpu Ew) as (_ & -> & _). rewrite ?(proj1 (proj2 (winner_none s i mode Cpu Ew))) in E2. cbn [andb] in *.
      split; done.
Qed.

(** ** Each lane has a line port *)

Definition view (p : port) (o : option (port * Z)) : outstanding :=
  match o with Some (p', d) => if decide (p' = p) then Answered d else Idle | None => Idle end.

(** What the other lanes may do to the memory in a cycle. *)
Definition others (i : MemPort) (p : port) (m m' : lines) : Prop :=
  exists p', p' <> p /\ a_valid (ask_of i p') = true /\ m' = perform m (a_bits (ask_of i p')).

Lemma split_reply_free s i mode m p :
  split_rep s m None -> split_reply s i mode p =
    MkReply (r_ready (hbm_reply (hbm s)) && bool_decide (winner s i mode = Some p)) false (r_bits (hbm_reply (hbm s))).
Proof.
  intros [Hh _ _]. unfold split_reply. destruct (hbm_free_cycle (hbm s) m (hbm_ask s i mode) (mode =? mode_ai) Hh) as (-> & _).
  f_equal. f_equal. destruct (winner s i mode) as [p'|] eqn:Ew.
  - rewrite (proj1 (proj2 (proj2 (winner_spec s i mode p' Ew)))). apply bool_decide_ext. split; [by intros ->|]. by intros [= ->].
  - by rewrite (proj1 (winner_none s i mode p Ew)).
Qed.

Lemma split_port_cycle s i mode m o p :
  split_rep s m o ->
  port_cycle (others i p) (ask_of i p) (split_reply s i mode p) (m, view p o)
    (fst (atomic_cycle s i mode m o), view p (snd (atomic_cycle s i mode m o))).
Proof.
  intros R. unfold port_cycle. cbn [fst snd]. destruct o as [[p' d]|].
  - destruct R as [Hh Hs _]. destruct (hbm_busy_cycle (hbm s) m d (hbm_ask s i mode) (mode =? mode_ai) Hh) as (E1 & E2 & _).
    cbn [atomic_cycle fst snd view]. destruct (decide (p' = p)) as [->|Hne].
    + exists (if resp_fire (ask_of i p) (split_reply s i mode p) then Idle else Answered d). split.
      * unfold handshake, resp_fire, split_reply. cbn [r_ready r_valid r_bits]. rewrite E1, (Hs p), bool_decide_true, andb_true_r by done.
        cbn [andb]. destruct (r_valid (hbm_reply (hbm s))); [|done]. rewrite E2, Z.eqb_refl by done. cbn. by destruct (a_ready _).
      * destruct (resp_fire _ _); cbn [view]; rewrite ?decide_True by done; apply commits_none.
    + exists Idle. split.
      * unfold handshake, req_fire, split_reply. cbn [r_ready r_valid]. rewrite E1, (Hs p), bool_decide_false, andb_false_r by congruence.
        cbn. by rewrite andb_false_r.
      * destruct (resp_fire _ _); cbn [view]; rewrite ?decide_False by done; apply commits_none.
  - rewrite (split_reply_free s i mode m p R). cbn [atomic_cycle view]. unfold handshake, req_fire. cbn [r_ready r_valid].
    destruct (winner s i mode) as [p'|] eqn:Ew; cycle 1.
    { rewrite (proj2 (proj2 (winner_none s i mode p Ew))). eexists. split; [done|]. apply commits_none. }
    destruct (winner_spec s i mode p' Ew) as (_ & Hv & _). eexists. split; [done|].
    destruct (r_ready (hbm_reply (hbm s))); cbn [andb]; [|rewrite andb_false_r; apply commits_none].
    cbn [fst snd view]. destruct (decide (p' = p)) as [->|Hne].
    + rewrite bool_decide_true, Hv by done. cbn [andb]. apply commits_own. unfold answers. by intros ->.
    + rewrite bool_decide_false, andb_false_r by congruence. apply commits_other. exists p'. done.
Qed.

(** ** Histories *)

Variant event := Grant (p : port) (q : MemReq) | Answer (p : port) (d : Z).

Definition port_events (s : SplitPrioritizer) (i : MemPort) (mode : Z) (p : port) : list event :=
  let a := ask_of i p in let r := split_reply s i mode p in
  (if req_fire a r then [Grant p (a_bits a)] else []) ++ (if resp_fire a r then [Answer p (r_bits r)] else []).

Definition split_events (s : SplitPrioritizer) (i : MemPort) (mode : Z) : list event :=
  port_events s i mode Cpu ++ port_events s i mode Gpu ++ port_events s i mode Acc.

Fixpoint split_run (s : SplitPrioritizer) (ins : list (MemPort * Z)) : list event * SplitPrioritizer :=
  match ins with
  | [] => ([], s)
  | (i, mode) :: ins => let '(es, s') := split_run (split_next s i mode) ins in (split_events s i mode ++ es, s')
  end.

(** The specification: one request at a time, performed when it is granted. *)
Fixpoint replay (m : lines) (o : option (port * Z)) (es : list event) : option (lines * option (port * Z)) :=
  match es with
  | [] => Some (m, o)
  | Grant p q :: es =>
      match o with
      | None => replay (perform m q) (Some (p, if q_isWrite q then 0 else m (line_of (q_addr q)))) es
      | Some _ => None
      end
  | Answer p d :: es =>
      match o with
      | Some (p', d') => if bool_decide (p = p') && (d =? d') then replay m None es else None
      | None => None
      end
  end.

Lemma replay_app m o es es' : replay m o (es ++ es') = '(m', o') ← replay m o es; replay m' o' es'.
Proof.
  revert m o. induction es as [|[p q|p d] es IH]; intros m o; [done|..]; cbn [app replay].
  - destruct o; [done|]. apply IH.
  - destruct o as [[p' d']|]; [|done]. destruct (_ && _); [|done]. apply IH.
Qed.

Lemma split_events_replay s i mode m o :
  split_rep s m o -> replay m o (split_events s i mode) = Some (atomic_cycle s i mode m o).
Proof.
  intros R. unfold split_events. destruct o as [[p d]|].
  - destruct R as [Hh Hs _]. destruct (hbm_busy_cycle (hbm s) m d (hbm_ask s i mode) (mode =? mode_ai) Hh) as (E1 & E2 & _).
    assert (forall p', port_events s i mode p' =
      if bool_decide (p' = p) && resp_fire (ask_of i p) (split_reply s i mode p) then [Answer p d] else []) as E.
    { intros p'. unfold port_events, req_fire, resp_fire, split_reply. cbn [r_ready r_valid r_bits]. rewrite E1, andb_false_r, !Hs. cbn [app].
      destruct (decide (p' = p)) as [->|]; [rewrite bool_decide_true by done | by rewrite bool_decide_false, andb_false_r by done].
      rewrite andb_true_r. cbn [andb]. destruct (r_valid _); [|done]. rewrite E2 by done. done. }
    rewrite !E. cbn [atomic_cycle]. destruct (resp_fire _ _); rewrite ?andb_false_r; [|done]. rewrite ?andb_true_r.
    destruct p; decide_closed; cbn [app replay]; decide_closed; by rewrite Z.eqb_refl.
  - assert (forall p', port_events s i mode p' =
      if bool_decide (winner s i mode = Some p') && r_ready (hbm_reply (hbm s)) then [Grant p' (a_bits (ask_of i p'))] else []) as E.
    { intros p'. unfold port_events. rewrite (split_reply_free s i mode m p' R). unfold req_fire, resp_fire. cbn [r_ready r_valid andb].
      rewrite app_nil_r. destruct (winner s i mode) as [p|] eqn:Ew; [|by rewrite !andb_false_r]. destruct (decide (p = p')) as [->|].
      - rewrite bool_decide_true by done. rewrite (proj1 (proj2 (winner_spec s i mode p' Ew))). by rewrite andb_true_r.
      - by rewrite bool_decide_false, !andb_false_r by congruence. }
    rewrite !E. cbn [atomic_cycle]. destruct (winner s i mode) as [p|]; [|done].
    destruct (r_ready _); rewrite ?andb_false_r, ?andb_true_r; [|done]. by destruct p; decide_closed.
Qed.

Lemma split_run_replay s ins m o :
  split_rep s m o -> exists m' o', replay m o (fst (split_run s ins)) = Some (m', o') /\ split_rep (snd (split_run s ins)) m' o'.
Proof.
  revert s m o. induction ins as [|[i mode] ins IH]; intros s m o R; [by exists m, o|]. cbn [split_run].
  destruct (IH _ _ _ (split_cycle s i mode m o R)) as (m' & o' & E & R'). destruct (split_run (split_next s i mode) ins) as [es s'].
  exists m', o'. cbn [fst snd] in *. split; [|done]. rewrite replay_app, (split_events_replay s i mode m o R). cbn.
  by destruct (atomic_cycle s i mode m o).
Qed.

(** ** Waiting times *)

(** The lanes that can still be served before [p] in the rotation. *)
Definition before (rr : Z) (p : port) : Z := (port_id p - rr - 1) mod 3.

Lemma fair_winner s i p p' :
  0 <= rr s < 3 -> a_valid (ask_of i p) = true -> winner s i mode_fair = Some p' -> p' <> p ->
  before (port_id p') p < before (rr s) p.
Proof.
  intros Hr Hv Hw Hne. destruct (winner_spec s i mode_fair p' Hw) as (Es & _). unfold winner in Hw. clear Hw.
  unfold sel, cpu_priority in Es. cbn [mode_fair mode_gaming mode_ai Z.eqb orb andb] in Es. unfold fairSel, reqs in Es.
  assert (rr s = 0 \/ rr s = 1 \/ rr s = 2) as Hc by lia.
  unfold ask_of in Hv. unfold before, port_id in *.
  destruct (a_valid (cpu_port i)) eqn:E0, (a_valid (gpu_port i)) eqn:E1, (a_valid (acc_port i)) eqn:E2;
    destruct p, p'; try done; try congruence; destruct Hc as [Hc | [Hc | Hc]]; rewrite Hc in *; cbn in Es;
    try discriminate Es; vm_compute; reflexivity.
Qed.

(** Cycles that [p] can still wait for its grant, when the answers are taken. *)
Definition patience (s : SplitPrioritizer) (p : port) : Z := 24 * before (rr s) p + until_ready (hbm s).

Lemma patience_range s m o p : split_rep s m o -> 0 <= patience s p < 72.
Proof.
  intros R. pose proof (until_ready_range _ (hr_ok _ _ _ (sr_hbm _ _ _ R))). unfold patience, before.
  pose proof (Z.mod_pos_bound (port_id p - rr s - 1) 3 ltac:(lia)). lia.
Qed.

(** The lane that is owed an answer takes it. *)
Definition takes (i : MemPort) (o : option (port * Z)) : Prop :=
  match o with Some (p, _) => a_ready (ask_of i p) = true | None => True end.

Lemma split_waits s i mode m o :
  split_rep s m o -> takes i o -> r_ready (hbm_reply (hbm s)) = false ->
  until_ready (hbm (split_next s i mode)) = until_ready (hbm s) - 1 /\ rr (split_next s i mode) = rr s.
Proof.
  intros R Ht Er. unfold split_next, req_fire. rewrite Er, andb_false_r. cbn [hbm rr]. split; [|done].
  apply until_ready_step; [apply R | done|]. intros Hb. destruct o as [[p d]|]; cbn in Ht.
  - by rewrite (hbm_takes s i mode p (sr_src _ _ _ R)).
  - pose proof (hr_owed _ _ _ (sr_hbm _ _ _ R)) as H. cbn in H. congruence.
Qed.

Lemma patience_step s i m o p :
  split_rep s m o -> takes i o -> a_valid (ask_of i p) = true -> req_fire (ask_of i p) (split_reply s i mode_fair p) = false ->
  patience (split_next s i mode_fair) p < patience s p.
Proof.
  intros R Ht Hv Hf. unfold patience. destruct (r_ready (hbm_reply (hbm s))) eqn:Er; cycle 1.
  { destruct (split_waits s i mode_fair m o R Ht Er) as [-> ->]. lia. }
  assert (o = None) as ->.
  { destruct o as [[p' d]|]; [|done]. by rewrite (proj1 (hbm_busy_cycle _ _ _ (hbm_ask s i mode_fair) (mode_fair =? mode_ai) (sr_hbm _ _ _ R))) in Er. }
  unfold req_fire in Hf. rewrite Hv, (split_reply_free s i mode_fair m p R), Er in Hf. cbn [r_ready andb] in Hf.
  pose proof (until_ready_range _ (hr_ok _ _ _ (sr_hbm _ _ _ (split_cycle s i mode_fair m None R)))).
  pose proof (until_ready_range _ (hr_ok _ _ _ (sr_hbm _ _ _ R))).
  destruct (winner s i mode_fair) as [p'|] eqn:Ew; [|by rewrite (proj2 (proj2 (winner_none s i mode_fair p Ew))) in Hv].
  apply bool_decide_eq_false in Hf. pose proof (fair_winner s i p p' (sr_rr _ _ _ R) Hv Ew ltac:(congruence)) as Hlt.
  assert (rr (split_next s i mode_fair) = port_id p') as ->; [|lia].
  unfold split_next, req_fire. rewrite (winner_valid _ _ _ _ Ew), Er. apply (winner_spec _ _ _ _ Ew).
Qed.

Lemma granted_in_time s m o p ins :
  split_rep s m o -> patience s p < Z.of_nat (length ins) ->
  Forall (fun x => x.2 = mode_fair /\ a_valid (ask_of x.1 p) = true /\ forall p', a_ready (ask_of x.1 p') = true) ins ->
  exists q, Grant p q ∈ fst (split_run s ins).
Proof.
  revert s m o. induction ins as [|[i mode] ins IH]; intros s m o R Hp Hf.
  { pose proof (patience_range s m o p R). simpl in Hp. lia. }
  apply list.Forall_cons in Hf as [(Em & Hv & Hr) Hf]. cbn [fst snd] in *. subst mode. cbn [split_run].
  destruct (split_run (split_next s i mode_fair) ins) as [es s'] eqn:Er. cbn [fst].
  destruct (req_fire (ask_of i p) (split_reply s i mode_fair p)) eqn:Ef.
  - exists (a_bits (ask_of i p)). apply elem_of_app. left. unfold split_events.
    assert (Grant p (a_bits (ask_of i p)) ∈ port_events s i mode_fair p) by (unfold port_events; rewrite Ef; by left).
    rewrite !elem_of_app. destruct p; auto.
  - assert (takes i o) as Ht by (destruct o as [[p' d]|]; cbn; auto).
    pose proof (patience_step s i m o p R Ht Hv Ef). specialize (IH _ _ _ (split_cycle s i mode_fair m o R)).
    rewrite Er in IH. destruct IH as [q Hq]; [simpl in Hp; lia | done|]. exists q. apply elem_of_app. by right.
Qed.

(** ** Lanes under CPU priority *)

(** The GPU and the accelerator always request, the CPU after every request of
    the GPU that was served; every lane takes its answers. *)
Definition busy_lanes (q : MemReq) (s : SplitPrioritizer) : MemPort :=
  MkPort (MkAsk (rr s =? 1) q true) (MkAsk true q true) (MkAsk true q true).

Fixpoint lanes_run (n : nat) (q : MemReq) (s : SplitPrioritizer) : list event * SplitPrioritizer :=
  match n with
  | O => ([], s)
  | S n => let i := busy_lanes q s in
           let '(es, s') := lanes_run n q (split_next s i mode_gaming) in (split_events s i mode_gaming ++ es, s')
  end.

Lemma busy_lanes_winner q s :
  rr s = 0 \/ rr s = 1 -> winner s (busy_lanes q s) mode_gaming = Some (if rr s =? 1 then Cpu else Gpu).
Proof. intros [E | E]; unfold winner, any, busy_lanes, sel, fairSel, reqs; cbn; by rewrite E. Qed.

Definition event_port (e : event) : port := match e with Grant p _ | Answer p _ => p end.

Lemma port_events_of e s i mode p : e ∈ port_events s i mode p -> event_port e = p.
Proof.
  unfold port_events. intros [He|He]%elem_of_app; case_match; try (by apply elem_of_nil in He);
    apply list_elem_of_singleton in He; by subst.
Qed.

Lemma busy_lanes_events q s m o e :
  split_rep s m o -> rr s = 0 \/ rr s = 1 -> (forall d, o <> Some (Acc, d)) ->
  e ∈ split_events s (busy_lanes q s) mode_gaming -> event_port e <> Acc.
Proof.
  intros R Hr Ho. assert (port_events s (busy_lanes q s) mode_gaming Acc = []) as E.
  { unfold port_events. destruct o as [[p d]|].
    - destruct R as [Hh Hs _].
      destruct (hbm_busy_cycle (hbm s) m d (hbm_ask s (busy_lanes q s) mode_gaming) (mode_gaming =? mode_ai) Hh) as (E1 & _ & _).
      unfold req_fire, resp_fire, split_reply. cbn [r_ready r_valid]. rewrite E1, Hs, andb_false_r. cbn [app].
      destruct p; [| |by destruct (Ho d)]; decide_closed; by rewrite andb_false_r.
    - rewrite (split_reply_free s (busy_lanes q s) mode_gaming m _ R). unfold req_fire, resp_fire. cbn [r_ready r_valid andb].
      rewrite (busy_lanes_winner q s Hr). destruct (rr s =? 1); decide_closed; by rewrite !andb_false_r. }
  unfold split_events. rewrite E, app_nil_r. intros [H|H]%elem_of_app; by rewrite (port_events_of _ _ _ _ _ H).
Qed.

Lemma busy_lanes_step q s m o :
  split_rep s m o -> rr s = 0 \/ rr s = 1 -> (forall d, o <> Some (Acc, d)) ->
  let s' := split_next s (busy_lanes q s) mode_gaming in
  (rr s' = 0 \/ rr s' = 1) /\ forall d, snd (atomic_cycle s (busy_lanes q s) mode_gaming m o) <> Some (Acc, d).
Proof.
  intros R Hr Ho s'. pose proof (busy_lanes_winner q s Hr) as Ew. destruct (winner_spec _ _ _ _ Ew) as (Es & _). split.
  - unfold s', split_next. destruct (req_fire _ _); [|done]. cbn [rr]. rewrite Es. destruct (rr s =? 1); cbn; auto.
  - intros d. destruct o as [[p d']|]; cbn [atomic_cycle snd].
    + destruct (resp_fire _ _); [done | apply Ho].
    + rewrite Ew. destruct (r_ready _), (rr s =? 1); cbn; congruence.
Qed.

Lemma accelerator_waits n q s m o :
  split_rep s m o -> rr s = 0 \/ rr s = 1 -> (forall d, o <> Some (Acc, d)) ->
  forall e, e ∈ fst (lanes_run n q s) -> event_port e <> Acc.
Proof.
  revert s m o. induction n as [|n IH]; intros s m o R Hr Ho e; cbn [lanes_run].
  { cbn. intros He. by apply elem_of_nil in He. }
  destruct (busy_lanes_step q s m o R Hr Ho) as [Hr' Ho']. pose proof (split_cycle s (busy_lanes q s) mode_gaming m o R) as R'.
  specialize (IH _ _ _ R' Hr' Ho' e). destruct (lanes_run n q _) as [es s']. cbn [fst] in *.
  intros [He|He]%elem_of_app; [|by apply IH]. by apply (busy_lanes_events q s m o e).
Qed.

Lemma lanes_run_add n k q s :
  lanes_run (n + k) q s = (fst (lanes_run n q s) ++ fst (lanes_run k q (snd (lanes_run n q s))), snd (lanes_run k q (snd (lanes_run n q s)))).
Proof.
  revert s. induction n as [|n IH]; intros s; cbn [Nat.add lanes_run fst snd app]; [by destruct (lanes_run k q s)|].
  rewrite IH. destruct (lanes_run n q _) as [es s']. cbn [fst snd]. by rewrite app_assoc.
Qed.

Lemma next_grant q s m o :
  split_rep s m o -> rr s = 0 \/ rr s = 1 -> (forall d, o <> Some (Acc, d)) ->
  exists k m' o', let s' := snd (lanes_run k q s) in
    split_rep s' m' o' /\ rr s' = 1 - rr s /\ (forall d, o' <> Some (Acc, d)) /\
    Grant (if rr s =? 1 then Cpu else Gpu) q ∈ fst (lanes_run k q s).
Proof.
  remember (Z.to_nat (until_ready (hbm s))) as f eqn:Ef. revert s m o Ef.
  induction f as [f IH] using lt_wf_ind. intros s m o Ef R Hr Ho. set (i := busy_lanes q s).
  pose proof (busy_lanes_winner q s Hr) as Ew. fold i in Ew. destruct (busy_lanes_step q s m o R Hr Ho) as [Hr' Ho']. fold i in Hr', Ho'.
  pose proof (split_cycle s i mode_gaming m o R) as R'. pose proof (hr_ok _ _ _ (sr_hbm _ _ _ R)) as K.
  destruct (r_ready (hbm_reply (hbm s))) eqn:Er.
  - assert (o = None) as ->.
    { destruct o as [[p d]|]; [|done].
      by rewrite (proj1 (hbm_busy_cycle _ _ _ (hbm_ask s i mode_gaming) (mode_gaming =? mode_ai) (sr_hbm _ _ _ R))) in Er. }
    exists 1%nat, (fst (atomic_cycle s i mode_gaming m None)), (snd (atomic_cycle s i mode_gaming m None)). cbn [lanes_run fst snd]. fold i.
    split; [done|]. split; [|split; [done|]].
    + unfold split_next, req_fire. rewrite (winner_valid _ _ _ _ Ew), Er. cbn [andb rr]. rewrite (proj1 (winner_spec _ _ _ _ Ew)).
      destruct Hr as [-> | ->]; done.
    + rewrite app_nil_r. unfold split_events, port_events. rewrite !(split_reply_free s i mode_gaming m _ R), Ew, Er.
      unfold req_fire, resp_fire, i, busy_lanes. cbn [r_ready r_valid andb ask_of cpu_port gpu_port acc_port a_valid a_bits].
      destruct (rr s =? 1); decide_closed; cbn; set_solver.
  - assert (takes i o) as Ht by (destruct o as [[[] d]|]; done).
    destruct (split_waits s i mode_gaming m o R Ht Er) as [Eu Err].
    pose proof (until_ready_range _ K). pose proof (until_ready_range _ (hr_ok _ _ _ (sr_hbm _ _ _ R'))).
    destruct (IH (Z.to_nat (until_ready (hbm (split_next s i mode_gaming)))) ltac:(lia) _ _ _ eq_refl R' Hr' Ho')
      as (k & m' & o' & R2 & E2 & O2 & G2). exists (S k), m', o'. cbn [lanes_run]. fold i. rewrite Err in *.
    destruct (lanes_run k q (split_next s i mode_gaming)) as [es s']. cbn [fst snd] in *. split_and!; try done. set_solver.
Qed.

Definition gpu_grants (es : list event) : nat :=
  length (List.filter (fun e => match e with Grant Gpu _ => true | _ => false end) es).

Lemma gpu_grants_app es es' : gpu_grants (es ++ es') = (gpu_grants es + gpu_grants es')%nat.
Proof. unfold gpu_grants. by rewrite List.filter_app, length_app. Qed.

Lemma gpu_grants_pos es q : Grant Gpu q ∈ es -> (1 <= gpu_grants es)%nat.
Proof.
  intros (l1 & l2 & ->)%list_elem_of_split. rewrite gpu_grants_app. unfold gpu_grants at 2. cbn. lia.
Qed.

Lemma gpu_served_again q n s m o :
  split_rep s m o -> rr s = 0 \/ rr s = 1 -> (forall d, o <> Some (Acc, d)) ->
  exists k, (n <= gpu_grants (fst (lanes_run k q s)))%nat.
Proof.
  revert s m o. induction n as [|n IH]; intros s m o R Hr Ho; [exists 0%nat; lia|].
  destruct (next_grant q s m o R Hr Ho) as (k1 & m1 & o1 & R1 & E1 & O1 & G1).
  destruct (next_grant q _ m1 o1 R1 ltac:(lia) O1) as (k2 & m2 & o2 & R2 & E2 & O2 & G2).
  destruct (IH _ m2 o2 R2 ltac:(lia) O2) as [k3 G3].
  exists (k1 + (k2 + k3))%nat. rewrite !lanes_run_add. cbn [fst snd]. rewrite !gpu_grants_app.
  assert (1 <= gpu_grants (fst (lanes_run k1 q s)) + gpu_grants (fst (lanes_run k2 q (snd (lanes_run k1 q s)))))%nat; [|lia].
  rewrite E1 in G2. destruct Hr as [E|E]; rewrite E in *; cbn in G1, G2; [apply gpu_grants_pos in G1 | apply gpu_grants_pos in G2]; lia.
Qed.

(** ** Properties *)

(** C3. The fabric is one atomic memory.  Whatever the three lanes drive, cycle
    by cycle and in any mode, the grants and answers on the lanes form a history
    of one array of 256 lines that starts zeroed: one request is granted at a
    time, it takes effect when it is granted, and its answer goes, before the
    next grant, to the lane that made it, with the line a read found; when no
    answer is owed the banks hold exactly the array. *)
Theorem fabric_atomic a d w ins :
  exists m o, replay (fun _ => 0) None (fst (split_run (split_reset a d w) ins)) = Some (m, o) /\
    (o = None -> forall x, vget (cells (hbm (snd (split_run (split_reset a d w) ins)))) (idx_of x) = m (line_of x)).
Proof.
  destruct (split_run_replay _ ins _ _ (split_reset_rep a d w)) as (m & o & E & R). exists m, o. split; [done|].
  intros -> x. rewrite idx_of_line. destruct R as [[K Hm Hb] _ _]. rewrite <- Hm by apply line_of_range. unfold image. cbn in Hb. by rewrite Hb.
Qed.

(** C15. The round-robin mode is fair.  In any state the fabric reaches, a lane
    that keeps its request up is granted within 72 cycles, however the other two
    compete and whenever the stack refreshes, provided that over these cycles
    the mode is the round-robin one and all three lanes are ready for an answer
    in every cycle. *)
Theorem fabric_fair a d w ins0 ins p :
  (72 <= length ins)%nat ->
  Forall (fun x => x.2 = mode_fair /\ a_valid (ask_of x.1 p) = true /\ forall p', a_ready (ask_of x.1 p') = true) ins ->
  exists q, Grant p q ∈ fst (split_run (snd (split_run (split_reset a d w) ins0)) ins).
Proof.
  intros Hn Hf. destruct (split_run_replay _ ins0 _ _ (split_reset_rep a d w)) as (m & o & _ & R).
  apply (granted_in_time _ m o); [done| |done]. pose proof (patience_range _ m o p R). lia.
Qed.

Lemma fabric_fair_witness :
  exists q, Grant Acc q ∈ fst (split_run (snd (split_run (split_reset 0 0 false) []))
    (replicate 72 (let a := MkAsk true (MkMemReq 0x40 7 true 0) true in MkPort a a a, mode_fair))).
Proof.
  apply (fabric_fair 0 0 false [] _ Acc); [reflexivity|]. apply Forall_replicate. split; [done|]. split; [done|]. by intros [].
Defined.

(** Under CPU priority the accelerator can wait for ever while the GPU is served
    again and again: every grant of the CPU restarts the rotation at the GPU. *)
Theorem accelerator_starves a d w q :
  (forall n e, e ∈ fst (lanes_run n q (split_reset a d w)) -> event_port e <> Acc) /\
  (forall n, exists k, (n <= gpu_grants (fst (lanes_run k q (split_reset a d w))))%nat).
Proof.
  pose proof (split_reset_rep a d w) as R. split.
  - intros n. apply (accelerator_waits n q _ _ _ R); [by left | done].
  - intros n. apply (gpu_served_again q n _ _ _ R); [by left | done].
Qed.
