(* ===== verification/CoreMem.v ===== *)
(** * The CPU's memory adapter — [src/main/scala/aegis/cpu/CoreMemToHBM.scala]

    Widens the 32-bit word port of the core to the 512-bit lines of the stack:
    a load extracts its field from the line, a store reads the line, merges its
    field and writes the line back.  The file shows what the two do to the bytes
    of the line, and that a store narrower than a word also changes its
    neighbours when the register holds more than the stored field. *)

From S2P Require Import Prelude Isa Fabric.

Variant cm_state := cm_idle | cm_rdreq | cm_rdresp | cm_wrreq | cm_wrresp | cm_rsp.

#[global] Instance cm_state_eq_dec : EqDecision cm_state.
Proof. solve_decision. Defined.

Record CoreMemToHBM := MkCoreMem {
  cm_st : cm_state;
  addrReg : Z; dataReg : Z; isWrReg : bool; sizeReg : Z;
  lineReg : Z; offReg : Z }.

Definition coremem_reset : CoreMemToHBM := MkCoreMem cm_idle 0 0 false 0 0 0.

Definition pos (s : CoreMemToHBM) : Z := Z.shiftl (offReg s) 3.

Definition field (s : CoreMemToHBM) : Z :=
  let shiftedLine := Z.shiftr (lineReg s) (pos s) in
  if sizeReg s =? 0 then bits shiftedLine 31 0 else if sizeReg s =? 1 then bits shiftedLine 15 0 else bits shiftedLine 7 0.

Definition fMask32 (s : CoreMemToHBM) : Z :=
  if sizeReg s =? 0 then 0xffffffff else if sizeReg s =? 1 then 0xffff else 0xff.

(** The shifted values are 1023 bits wide; the request takes the low 512. *)
Definition merged (s : CoreMemToHBM) : Z :=
  let maskAt := Z.shiftl (fMask32 s) (pos s) in
  let dataAt := Z.shiftl (dataReg s) (pos s) in
  Z.lor (Z.land (lineReg s) (lnot_w 1023 maskAt)) dataAt mod 2 ^ 512.

Definition coremem_word (s : CoreMemToHBM) : Reply :=
  MkReply (bool_decide (cm_st s = cm_idle)) (bool_decide (cm_st s = cm_rsp)) (if isWrReg s then 0 else field s).

Definition coremem_ask (s : CoreMemToHBM) : Ask MemReq :=
  let wr := bool_decide (cm_st s = cm_wrreq) in
  MkAsk (bool_decide (cm_st s = cm_rdreq) || wr)
    (MkMemReq (cat 6 (bits (addrReg s) 63 6) 0) (if wr then merged s else 0) wr 0)
    (bool_decide (cm_st s = cm_rdresp) || bool_decide (cm_st s = cm_wrresp)).

Definition set_cm (s : CoreMemToHBM) (st : cm_state) : CoreMemToHBM :=
  MkCoreMem st (addrReg s) (dataReg s) (isWrReg s) (sizeReg s) (lineReg s) (offReg s).

Definition coremem_next (s : CoreMemToHBM) (w : Ask WordMemReq) (r : Reply) : CoreMemToHBM :=
  let a := coremem_ask s in
  match cm_st s with
  | cm_idle =>
      if req_fire w (coremem_word s) then
        let q := a_bits w in
        MkCoreMem cm_rdreq (w_addr q) (w_data q) (w_isWrite q) (w_size q) (lineReg s) (bits (w_addr q) 5 0)
      else s
  | cm_rdreq => if req_fire a r then set_cm s cm_rdresp else s
  | cm_rdresp =>
      if resp_fire a r then
        MkCoreMem (if isWrReg s then cm_wrreq else cm_rsp) (addrReg s) (dataReg s) (isWrReg s) (sizeReg s) (r_bits r) (offReg s)
      else s
  | cm_wrreq => if req_fire a r then set_cm s cm_wrresp else s
  | cm_wrresp => if resp_fire a r then set_cm s cm_rsp else s
  | cm_rsp => if resp_fire w (coremem_word s) then set_cm s cm_idle else s
  end.

(** ** Bytes of a line *)

(** The bytes of an access. *)
Definition width (size : Z) : Z := if size =? 0 then 4 else if size =? 1 then 2 else 1.

(** The line with the [n] bytes at [off] replaced by the low bytes of [v]. *)
Definition patch (line off n v : Z) : Z :=
  slice line 0 (8 * off) + 2 ^ (8 * off) * (slice v 0 (8 * n) + 2 ^ (8 * n) * slice line (8 * (off + n)) (512 - 8 * (off + n))).

Lemma width_cases size : width size = 1 \/ width size = 2 \/ width size = 4.
Proof. unfold width. repeat case_match; auto. Qed.

Lemma field_slice s : 0 <= offReg s -> field s = slice (lineReg s) (8 * offReg s) (8 * width (sizeReg s)).
Proof.
  intros Ho. unfold field, width, bits, pos, slice. rewrite Z.shiftr_div_pow2, Z.shiftl_mul_pow2, Z.div_1_r by (rewrite ?Z.shiftl_mul_pow2; lia).
  replace (offReg s * 2 ^ 3) with (8 * offReg s) by lia. by repeat case_match.
Qed.

Lemma fMask_ones s : fMask32 s = Z.ones (8 * width (sizeReg s)).
Proof. unfold fMask32, width. by repeat case_match. Qed.

Lemma patch_testbit line off n v i :
  0 <= off -> 0 < n -> off + n <= 64 -> 0 <= i ->
  Z.testbit (patch line off n v) i =
    if i <? 8 * off then Z.testbit line i
    else if i <? 8 * (off + n) then Z.testbit v (i - 8 * off)
    else (i <? 512) && Z.testbit line i.
Proof.
  intros Ho Hn Hl Hi.
  unfold patch. rewrite testbit_radix by (try apply slice_range; lia). destruct (Z.ltb_spec i (8 * off)).
  { rewrite slice_testbit by lia. by rewrite (proj2 (Z.ltb_lt _ _)) by lia. }
  rewrite testbit_radix by (try apply slice_range; lia). destruct (Z.ltb_spec (i - 8 * off) (8 * n)).
  - rewrite (proj2 (Z.ltb_lt i _)) by lia. rewrite slice_testbit by lia. by rewrite (proj2 (Z.ltb_lt _ _)) by lia.
  - rewrite (proj2 (Z.ltb_ge i (8 * (off + n)))) by lia. rewrite slice_testbit by lia. f_equal.
    + destruct (Z.ltb_spec i 512); [apply Z.ltb_lt | apply Z.ltb_ge]; lia.
    + f_equal. lia.
Qed.

Lemma patch_range line off n v :
  0 <= off -> 0 < n -> off + n <= 64 -> 0 <= patch line off n v < 2 ^ 512.
Proof.
  intros Ho Hn Hl. unfold patch. pose proof (slice_range line 0 (8 * off) ltac:(lia)).
  pose proof (slice_range v 0 (8 * n) ltac:(lia)). pose proof (slice_range line (8 * (off + n)) (512 - 8 * (off + n)) ltac:(lia)) as H1.
  replace (2 ^ 512) with (2 ^ (8 * off) * (2 ^ (8 * n) * 2 ^ (512 - 8 * (off + n)))) by (rewrite <- !Z.pow_add_r by lia; f_equal; lia).
  apply radix_bound; [done|]. by apply radix_bound.
Qed.

(** A store writes its field, and ors the rest of the register over the bytes
    above it. *)
Lemma merged_testbit s i :
  0 <= offReg s -> offReg s + width (sizeReg s) <= 64 -> 0 <= lineReg s < 2 ^ 512 -> 0 <= i < 512 ->
  Z.testbit (merged s) i =
    if i <? 8 * offReg s then Z.testbit (lineReg s) i
    else if i <? 8 * (offReg s + width (sizeReg s)) then Z.testbit (dataReg s) (i - 8 * offReg s)
    else Z.testbit (lineReg s) i || Z.testbit (dataReg s) (i - 8 * offReg s).
Proof.
  intros Ho Hw Hl Hi. unfold merged. rewrite Z.mod_pow2_bits_low by lia. rewrite fMask_ones.
  assert (pos s = 8 * offReg s) as -> by (unfold pos; rewrite Z.shiftl_mul_pow2; lia).
  pose proof (width_cases (sizeReg s)) as Hn. set (n := width (sizeReg s)) in *. set (o := offReg s) in *.
  unfold lnot_w. rewrite Z.lor_spec, Z.land_spec, Z.lxor_spec, !Z.shiftl_spec by lia.
  rewrite (Z.ones_spec_low 1023) by lia. destruct (Z.ltb_spec i (8 * o)).
  { rewrite !(Z.testbit_neg_r _ (i - 8 * o)) by lia. cbn. by rewrite andb_true_r, orb_false_r. }
  destruct (Z.ltb_spec i (8 * (o + n))).
  - rewrite Z.ones_spec_low by lia. cbn. by rewrite andb_false_r.
  - rewrite Z.ones_spec_high by lia. cbn. by rewrite andb_true_r.
Qed.

(** The field fits its width: nothing else changes. *)
Lemma merged_patch s :
  0 <= offReg s -> offReg s + width (sizeReg s) <= 64 -> 0 <= lineReg s < 2 ^ 512 ->
  0 <= dataReg s < 2 ^ (8 * width (sizeReg s)) ->
  merged s = patch (lineReg s) (offReg s) (width (sizeReg s)) (dataReg s).
Proof.
  intros Ho Hw Hl Hd. pose proof (width_cases (sizeReg s)) as Hn. apply Z.bits_inj'. intros i Hi.
  destruct (Z.lt_ge_cases i 512).
  - rewrite merged_testbit, patch_testbit by lia. repeat case_match; try done.
    rewrite (testbit_high (8 * width (sizeReg s)) (dataReg s)) by lia. rewrite (proj2 (Z.ltb_lt i 512)) by lia. apply orb_false_r.
  - rewrite (testbit_high 512 (merged s)), (testbit_high 512 (patch _ _ _ _)); [done|..]; try lia; [by apply patch_range; lia|].
    unfold merged. apply Z.mod_pos_bound. lia.
Qed.

(** C40. A store narrower than a word must not touch the bytes beside its field,
    but the data that is or-ed into the line is not masked: every bit of the
    register above the field that is set sets the bit of the line at its place,
    while a load and a store of a whole word, and a narrower store of a register
    that fits, change exactly the addressed bytes. *)
Theorem store_merges s :
  0 <= offReg s -> offReg s + width (sizeReg s) <= 64 -> 0 <= lineReg s < 2 ^ 512 ->
  field s = slice (lineReg s) (8 * offReg s) (8 * width (sizeReg s)) /\
  (0 <= dataReg s < 2 ^ (8 * width (sizeReg s)) -> merged s = patch (lineReg s) (offReg s) (width (sizeReg s)) (dataReg s)) /\
  (forall i, 8 * (offReg s + width (sizeReg s)) <= i < 512 ->
     Z.testbit (merged s) i = Z.testbit (lineReg s) i || Z.testbit (dataReg s) (i - 8 * offReg s)).
Proof.
  intros Ho Hw Hl. split; [by apply field_slice|]. split; [by apply merged_patch|].
  intros i Hi. pose proof (width_cases (sizeReg s)). rewrite merged_testbit by lia.
  rewrite (proj2 (Z.ltb_ge i (8 * offReg s))), (proj2 (Z.ltb_ge i (8 * (offReg s + _)))) by lia. done.
Qed.

(** A byte store of [0x1234] over a zero line leaves [0x12] in the next byte. *)
Lemma store_merges_witness :
  let s := MkCoreMem cm_wrreq 0x100 0x1234 true 2 0 0 in
  Z.testbit (merged s) 9 = true /\ merged s = 0x1234 /\ patch 0 0 1 0x1234 = 0x34.
Proof.
  cbv zeta. split; [|by split].
  rewrite (proj2 (proj2 (store_merges (MkCoreMem cm_wrreq 0x100 0x1234 true 2 0 0) ltac:(done) ltac:(done) ltac:(done)))); [reflexivity|].
  cbn. lia.
Defined.
