(* ===== verification/Rv32.v ===== *)
(** * The boot core — [src/main/scala/aegis/cpu/RiscVCore.scala]

    A multi-cycle RV32I core: one instruction per cycle from its instruction
    memory, a wait state for loads from the data memory of its own, and a word
    port to shared memory when it is built with [useExtMem].  The file models
    the whole module at the sizes the SoC uses (256 words each). *)

From S2P Require Import Prelude Isa IsaSem Fabric.

(** The registers of a load in its wait state. *)
Record load_regs := MkLoad { ldAddr : Z; ldRd : Z; ldByte : bool; ldHalf : bool; ldSigned : bool }.

Record RiscVICore := MkCore {
  imem : list Z; dmem : list Z; rf : list Z; pc : Z;
  running : bool; halted : bool;
  loadWait : bool; ld : load_regs;
  memWait : bool; memRd : Z; memWr : bool }.

Definition core_reset : RiscVICore :=
  MkCore (replicate 256 0) (replicate 256 0) (replicate 32 0) 0 false false false (MkLoad 0 0 false false false) false 0 false.

(** The boot interface. *)
Record core_in := MkCoreIn { prog_we : bool; prog_addr : Z; prog_data : Z; start : bool }.

(** ** Fields of an instruction word *)

Definition opcode (i : Z) : Z := bits i 6 0.
Definition rd (i : Z) : Z := bits i 11 7.
Definition f3 (i : Z) : Z := bits i 14 12.
Definition rs1 (i : Z) : Z := bits i 19 15.
Definition rs2 (i : Z) : Z := bits i 24 20.
Definition bit30 (i : Z) : bool := bits i 30 30 =? 1.

(** [Fill(n, inst(31))] *)
Definition fill (n i : Z) : Z := bits i 31 31 * (2 ^ n - 1).

Definition immI (i : Z) : Z := cat 12 (fill 20 i) (bits i 31 20).
Definition immS (i : Z) : Z := cat 12 (fill 20 i) (cat 5 (bits i 31 25) (bits i 11 7)).
Definition immB (i : Z) : Z :=
  cat 13 (fill 19 i) (cat 12 (bits i 31 31) (cat 11 (bits i 7 7) (cat 5 (bits i 30 25) (cat 1 (bits i 11 8) 0)))).
Definition immU (i : Z) : Z := Z.shiftl (bits i 31 12) 12.
Definition immJ (i : Z) : Z :=
  cat 20 (fill 11 i) (cat 12 (bits i 19 12) (cat 11 (bits i 20 20) (cat 1 (bits i 30 21) 0))).

Definition isLoad (i : Z) : bool := opcode i =? 0x03.
Definition isStore (i : Z) : bool := opcode i =? 0x23.
Definition isBranch (i : Z) : bool := opcode i =? 0x63.
Definition isJal (i : Z) : bool := opcode i =? 0x6f.
Definition isJalr (i : Z) : bool := opcode i =? 0x67.
Definition isOpImm (i : Z) : bool := opcode i =? 0x13.
Definition isOp (i : Z) : bool := opcode i =? 0x33.
Definition isLui (i : Z) : bool := opcode i =? 0x37.
Definition isAuipc (i : Z) : bool := opcode i =? 0x17.
Definition isHalt (i : Z) : bool := i =? 0xffffffff.

(** ** Datapath

    [a] and [b] are the values of the two source registers. *)

Definition operand2 (i b : Z) : Z := if isOp i then b else if isStore i then immS i else immI i.
Definition addr (i a b : Z) : Z := u32 (a + operand2 i b).
Definition shiftAmt (i b : Z) : Z := if isOpImm i then bits (immI i) 4 0 else bits b 4 0.

Definition alu (i a b : Z) : Z :=
  let u2 := operand2 i b in
  let sh := shiftAmt i b in
  if f3 i =? 0 then if isOp i && bit30 i then u32 (a - b) else u32 (a + u2)
  else if f3 i =? 1 then u32 (Z.shiftl a sh)
  else if f3 i =? 2 then if sint 32 a <? sint 32 u2 then 1 else 0
  else if f3 i =? 3 then if a <? u2 then 1 else 0
  else if f3 i =? 4 then Z.lxor a u2
  else if f3 i =? 5 then if bit30 i then u32 (Z.shiftr (sint 32 a) sh) else Z.shiftr a sh
  else if f3 i =? 6 then Z.lor a u2
  else if f3 i =? 7 then Z.land a u2
  else 0.

Definition wbVal (i pc a b : Z) : Z :=
  if isJal i || isJalr i then u32 (pc + 4)
  else if isAuipc i then u32 (pc + immU i)
  else if isLui i then immU i
  else alu i a b.
Definition wbEn (i : Z) : bool :=
  (isOp i || isOpImm i || isLui i || isAuipc i || isJal i || isJalr i) && negb (rd i =? 0).

Definition brTaken (i a b : Z) : bool :=
  isBranch i &&
  (if f3 i =? 0 then a =? b else if f3 i =? 1 then negb (a =? b)
   else if f3 i =? 4 then sint 32 a <? sint 32 b else if f3 i =? 5 then negb (sint 32 a <? sint 32 b)
   else if f3 i =? 6 then a <? b else if f3 i =? 7 then negb (a <? b) else false).

Definition nextPc (i pc a b : Z) : Z :=
  if isJalr i then cat 1 (bits (addr i a b) 31 1) 0
  else if isJal i then u32 (pc + immJ i)
  else if isBranch i && brTaken i a b then u32 (pc + immB i)
  else u32 (pc + 4).

(** The size of a memory access: 0 a word, 1 a half, 2 a byte. *)
Definition byte_op (i : Z) : bool := (f3 i =? 0) || (f3 i =? 4).
Definition half_op (i : Z) : bool := (f3 i =? 1) || (f3 i =? 5).
Definition mem_size (i : Z) : Z := if byte_op i then 2 else if half_op i then 1 else 0.

Definition load_of (i a b : Z) : load_regs :=
  MkLoad (addr i a b) (rd i) (byte_op i) (half_op i) ((f3 i =? 0) || (f3 i =? 1) || (f3 i =? 2)).

(** The result of a load: from the data memory, and from the word port. *)
Definition extend (l : load_regs) (v : Z) : Z :=
  if ldByte l then Z.lor (if ldSigned l && (bits v 7 7 =? 1) then 0xffffff00 else 0) (bits v 7 0)
  else if ldHalf l then Z.lor (if ldSigned l && (bits v 15 15 =? 1) then 0xffff0000 else 0) (bits v 15 0)
  else v.
Definition loadRes (s : RiscVICore) : Z :=
  extend (ld s) (Z.shiftr (vget (dmem s) (bits (ldAddr (ld s)) 9 2)) (bits (ldAddr (ld s)) 1 0 * 8)).

(** ** The module *)

Section Core.
Variable useExtMem : bool.

Definition inst (s : RiscVICore) : Z := vget (imem s) (bits (Z.shiftr (pc s) 2) 7 0).
Definition rs1v (s : RiscVICore) : Z := vget (rf s) (rs1 (inst s)).
Definition rs2v (s : RiscVICore) : Z := vget (rf s) (rs2 (inst s)).
Definition memOp (s : RiscVICore) : bool := (isLoad (inst s) || isStore (inst s)) && useExtMem.

Definition core_ask (s : RiscVICore) : Ask WordMemReq :=
  let i := inst s in
  MkAsk (running s && negb (halted s) && negb (loadWait s) && negb (memWait s) && memOp s)
    (MkWordMemReq (addr i (rs1v s) (rs2v s)) (rs2v s) (isStore i) (mem_size i))
    (memWait s).

Definition set_rf (s : RiscVICore) (r : list Z) : RiscVICore :=
  MkCore (imem s) (dmem s) r (pc s) (running s) (halted s) (loadWait s) (ld s) (memWait s) (memRd s) (memWr s).
Definition set_pc (s : RiscVICore) (p : Z) : RiscVICore :=
  MkCore (imem s) (dmem s) (rf s) p (running s) (halted s) (loadWait s) (ld s) (memWait s) (memRd s) (memWr s).
Definition set_wait (s : RiscVICore) (lw : bool) (l : load_regs) : RiscVICore :=
  MkCore (imem s) (dmem s) (rf s) (pc s) (running s) (halted s) lw l (memWait s) (memRd s) (memWr s).
Definition set_mem (s : RiscVICore) (w : bool) (r : Z) (wr : bool) : RiscVICore :=
  MkCore (imem s) (dmem s) (rf s) (pc s) (running s) (halted s) (loadWait s) (ld s) w r wr.
Definition set_dmem (s : RiscVICore) (d : list Z) : RiscVICore :=
  MkCore (imem s) d (rf s) (pc s) (running s) (halted s) (loadWait s) (ld s) (memWait s) (memRd s) (memWr s).
Definition set_halted (s : RiscVICore) : RiscVICore :=
  MkCore (imem s) (dmem s) (rf s) (pc s) (running s) true (loadWait s) (ld s) (memWait s) (memRd s) (memWr s).

(** [start] and the program port *)
Definition core_boot (s : RiscVICore) (i : core_in) : RiscVICore :=
  MkCore (if prog_we i then vset (imem s) (prog_addr i) (prog_data i) else imem s) (dmem s) (rf s) (pc s)
    (if start i then true else running s) (halted s) (loadWait s) (ld s) (memWait s) (memRd s) (memWr s).

(** The registers of the next cycle; every wire is read before the cycle. *)
Definition core_next (s : RiscVICore) (io : core_in) (r : Reply) : RiscVICore :=
  let i := inst s in let a := rs1v s in let b := rs2v s in
  let npc := nextPc i (pc s) a b in
  let s0 := core_boot s io in
  if running s && negb (halted s) then
    let s1 :=
      if negb (loadWait s) && negb (memWait s) && (isLoad i || isStore i) && useExtMem && req_fire (core_ask s) r
      then set_pc (set_mem (set_wait s0 (loadWait s) (load_of i a b)) true (rd i) (isStore i)) npc
      else s0 in
    if loadWait s then
      set_wait (if negb (ldRd (ld s) =? 0) then set_rf s1 (vset (rf s) (ldRd (ld s)) (loadRes s)) else s1) false (ld s1)
    else if memWait s then
      if resp_fire (core_ask s) r then
        set_mem (if negb (memWr s) && negb (memRd s =? 0) then set_rf s1 (vset (rf s) (memRd s) (extend (ld s) (r_bits r))) else s1)
          false (memRd s) (memWr s)
      else s1
    else if isHalt i then set_halted s1
    else
      let s2 := if wbEn i then set_rf s1 (vset (rf s) (rd i) (wbVal i (pc s) a b)) else s1 in
      if isLoad i || isStore i then
        if useExtMem then s2
        else
          set_pc (if isLoad i then set_wait s2 true (load_of i a b)
                  else if isStore i then set_dmem s2 (vset (dmem s) (bits (addr i a b) 9 2) b) else s2) npc
      else set_pc s2 npc
  else s0.
End Core.

(** ** Immediates *)

#[local] Existing Instances default_config default_config_ok.

Lemma core_bits_slice x hi lo n : n = hi - lo + 1 -> bits x hi lo = slice x lo n.
Proof. by intros ->. Qed.

(** A sign bit repeated up to bit 31. *)
Lemma sign_fill imm w : 1 <= w <= 32 -> - 2 ^ (w - 1) <= imm < 2 ^ (w - 1) ->
  slice imm (w - 1) 1 * (2 ^ (32 - w) - 1) * 2 ^ w + slice imm 0 w = u32 imm.
Proof.
  intros Hw Hi. unfold slice, u32. rewrite Z.pow_0_r, Z.div_1_r.
  assert (2 ^ w = 2 * 2 ^ (w - 1)) as E by (rewrite <- Z.pow_succ_r by lia; f_equal; lia).
  assert (2 ^ 32 = 2 ^ (32 - w) * 2 ^ w) as E2 by (rewrite <- Z.pow_add_r by lia; f_equal; lia).
  assert (0 < 2 ^ (w - 1)) by (apply Z.pow_pos_nonneg; lia). assert (0 < 2 ^ (32 - w)) by (apply Z.pow_pos_nonneg; lia).
  destruct (Z.lt_ge_cases imm 0).
  - assert (imm / 2 ^ (w - 1) = -1) as -> by (symmetry; apply (Z.div_unique _ _ _ (imm + 2 ^ (w - 1))); lia).
    change (-1 mod 2 ^ 1) with 1.
    rewrite <- (Z.mod_add imm 1 (2 ^ w)), <- (Z.mod_add imm 1 (2 ^ 32)) by lia. rewrite !Z.mod_small by nia. nia.
  - rewrite (Z.div_small imm) by lia. rewrite !Z.mod_small by nia. lia.
Qed.

Lemma immI_enc imm rs1 f3 rd op : - 2 ^ 11 <= imm < 2 ^ 11 -> immI (enc_I imm rs1 f3 rd op) = u32 imm.
Proof.
  intros Hi. unfold immI, fill, cat, bits, enc_I. rewrite <- (sign_fill imm 12) by (simpl; lia). change (12 - 1) with 11. change (32 - 12) with 20.
  change (31 - 31 + 1) with 1. change (31 - 20 + 1) with 12. slice_vals. done.
Qed.

Lemma immS_enc imm rs2 rs1 f3 op : - 2 ^ 11 <= imm < 2 ^ 11 -> immS (enc_S imm rs2 rs1 f3 op) = u32 imm.
Proof.
  intros Hi. unfold immS, fill, cat, bits, enc_S. rewrite <- (sign_fill imm 12) by (simpl; lia). change (12 - 1) with 11. change (32 - 12) with 20.
  change (31 - 31 + 1) with 1. change (31 - 25 + 1) with 7. change (11 - 7 + 1) with 5. slice_vals.
  assert (slice imm 0 12 = slice imm 0 5 + 2 ^ 5 * slice imm 5 7) as E by (apply (slice_split imm 0 5 7); lia). lia.
Qed.

Lemma immB_enc imm rs2 rs1 f3 op : - 2 ^ 12 <= imm < 2 ^ 12 -> imm mod 2 = 0 -> immB (enc_B imm rs2 rs1 f3 op) = u32 imm.
Proof.
  intros Hi He. unfold immB, fill, cat, bits, enc_B. rewrite <- (sign_fill imm 13) by (simpl; lia). change (13 - 1) with 12. change (32 - 13) with 19.
  change (31 - 31 + 1) with 1. change (7 - 7 + 1) with 1. change (30 - 25 + 1) with 6. change (11 - 8 + 1) with 4. slice_vals.
  assert (slice imm 0 13 = slice imm 0 1 + 2 ^ 1 * slice imm 1 12) as E1 by (apply (slice_split imm 0 1 12); lia). assert (slice imm 1 12 = slice imm 1 4 + 2 ^ 4 * slice imm 5 8) as E2 by (apply (slice_split imm 1 4 8); lia).
  assert (slice imm 5 8 = slice imm 5 6 + 2 ^ 6 * slice imm 11 2) as E3 by (apply (slice_split imm 5 6 2); lia). assert (slice imm 11 2 = slice imm 11 1 + 2 ^ 1 * slice imm 12 1) as E4 by (apply (slice_split imm 11 1 1); lia).
  assert (slice imm 0 1 = 0) as E0 by (unfold slice; by rewrite Z.pow_0_r, Z.div_1_r). lia.
Qed.

(** The sign bit is repeated one time too few: a backward jump adds [2^31]. *)
Lemma immJ_enc imm rd op : - 2 ^ 20 <= imm < 2 ^ 20 -> imm mod 2 = 0 ->
  immJ (enc_J imm rd op) = if imm <? 0 then imm + 2 ^ 31 else imm.
Proof.
  intros Hi He. unfold immJ, fill, cat, bits, enc_J.
  change (31 - 31 + 1) with 1. change (19 - 12 + 1) with 8. change (20 - 20 + 1) with 1. change (30 - 21 + 1) with 10. slice_vals.
  transitivity (slice imm 20 1 * (2 ^ 11 - 1) * 2 ^ 20 + slice imm 0 20).
  { assert (slice imm 0 20 = slice imm 0 1 + 2 ^ 1 * slice imm 1 19) as E1 by (apply (slice_split imm 0 1 19); lia). assert (slice imm 1 19 = slice imm 1 10 + 2 ^ 10 * slice imm 11 9) as E2 by (apply (slice_split imm 1 10 9); lia).
    assert (slice imm 11 9 = slice imm 11 1 + 2 ^ 1 * slice imm 12 8) as E3 by (apply (slice_split imm 11 1 8); lia).
    assert (slice imm 0 1 = 0) as E0 by (unfold slice; by rewrite Z.pow_0_r, Z.div_1_r). lia. }
  unfold slice. rewrite Z.pow_0_r, Z.div_1_r. destruct (Z.ltb_spec imm 0).
  - assert (imm / 2 ^ 20 = -1) as -> by (symmetry; apply (Z.div_unique _ _ _ (imm + 2 ^ 20)); lia).
    change (-1 mod 2 ^ 1) with 1. rewrite <- (Z.mod_add imm 1 (2 ^ 20)), Z.mod_small by lia. lia.
  - rewrite (Z.div_small imm), Z.mod_small by lia. rewrite Z.mod_small by lia. lia.
Qed.

Lemma immU_enc imm rd op : 0 <= imm < 2 ^ 20 -> immU (enc_U imm rd op) = 2 ^ 12 * imm.
Proof.
  intros Hi. unfold immU, bits, enc_U. change (31 - 12 + 1) with 20. slice_vals. rewrite Z.shiftl_mul_pow2, slice0_small by lia. lia.
Qed.

(** ** The instruction set

    [rv_value] and [rv_target] of [IsaSem] at 32 bits, with loads and stores on
    a memory of bytes of which the low 14 address bits are decoded. *)

Record hart := MkHart { h_x : list Z; h_pc : Z; h_mem : Z -> Z }.

Definition set_x (x : list Z) (rd v : Z) : list Z := if rd =? 0 then x else vset x rd v.

Definition ld_bytes (o : ldop) : Z := match o with l_lb | l_lbu => 1 | l_lh | l_lhu => 2 | _ => 4 end.
Definition st_bytes (o : stop) : Z := match o with st_sb => 1 | st_sh => 2 | _ => 4 end.

Definition read_mem (m : Z -> Z) (a n : Z) : Z := le_val ((fun k => m (slice a 0 14 + k)) <$> range n).
Definition write_mem (m : Z -> Z) (a n v : Z) : Z -> Z :=
  fun x => let k := x - slice a 0 14 in if (0 <=? k) && (k <? n) then slice v (8 * k) 8 else m x.

Definition load_ext (o : ldop) (v : Z) : Z := match o with l_lb => u32 (sint 8 v) | l_lh => u32 (sint 16 v) | _ => v end.

Definition links (i : rv_instr) : bool := match i with rv_jal _ _ | rv_jalr _ _ _ => true | _ => false end.

Definition rv32_exec (i : rv_instr) (h : hart) : hart :=
  let next := u32 (h_pc h + 4) in
  match i with
  | rv_load o rd r off =>
      let a := u32 (vget (h_x h) r + off) in
      MkHart (set_x (h_x h) rd (load_ext o (read_mem (h_mem h) a (ld_bytes o)))) next (h_mem h)
  | rv_store o r2 r off =>
      let a := u32 (vget (h_x h) r + off) in
      MkHart (h_x h) next (write_mem (h_mem h) a (st_bytes o) (vget (h_x h) r2))
  | _ =>
      let a := vget (h_x h) (rv_rs1 i) in let b := vget (h_x h) (rv_rs2 i) in
      MkHart (match rv_value i (h_pc h) a b with
              | Some v => set_x (h_x h) (rv_rd i) v
              | None => if links i then set_x (h_x h) (rv_rd i) next else h_x h
              end)
        (default next (rv_target i (h_pc h) a b)) (h_mem h)
  end.

(** The instructions the core implements as specified: all of RV32I but the
    environment calls and the backward [jal]. *)
Definition rv32_ok (i : rv_instr) : bool :=
  rv_valid i &&
  match i with
  | rv_lui _ _ | rv_auipc _ _ | rv_opi _ _ _ _ | rv_shi _ _ _ _ | rv_branch _ _ _ _ | rv_jalr _ _ _ | rv_fence _ _ _ => true
  | rv_jal _ off => 0 <=? off
  | rv_op o _ _ _ =>
      match o with r_add | r_sub | r_sll | r_slt | r_sltu | r_xor | r_srl | r_sra | r_or | r_and => true | _ => false end
  | rv_load o _ _ _ => match o with l_ld | l_lwu => false | _ => true end
  | rv_store o _ _ _ => match o with st_sd => false | _ => true end
  | _ => false
  end.

Definition is_mem (i : rv_instr) : bool := match i with rv_load _ _ _ _ | rv_store _ _ _ _ => true | _ => false end.

(** ** Fields of the encodings *)

Lemma fields_R f7 r2 r1 k d op :
  0 <= op < 2 ^ 7 -> 0 <= d < 32 -> 0 <= k < 8 -> 0 <= r1 < 32 -> 0 <= r2 < 32 ->
  let w := enc_R f7 r2 r1 k d op in
  opcode w = op /\ rd w = d /\ f3 w = k /\ rs1 w = r1 /\ rs2 w = r2 /\ bit30 w = (slice f7 5 1 =? 1).
Proof.
  intros. unfold opcode, rd, f3, rs1, rs2, bit30, bits, w, enc_R. cbn [Z.sub Z.add Z.opp Pos.add Pos.sub].
  change (6 - 0 + 1) with 7. change (11 - 7 + 1) with 5. change (14 - 12 + 1) with 3. change (19 - 15 + 1) with 5.
  change (24 - 20 + 1) with 5. change (30 - 30 + 1) with 1. slice_vals. rewrite !slice0_small by lia. done.
Qed.

Lemma fields_I imm r1 k d op :
  0 <= op < 2 ^ 7 -> 0 <= d < 32 -> 0 <= k < 8 -> 0 <= r1 < 32 ->
  let w := enc_I imm r1 k d op in
  opcode w = op /\ rd w = d /\ f3 w = k /\ rs1 w = r1 /\ bit30 w = (slice imm 10 1 =? 1).
Proof.
  intros. unfold opcode, rd, f3, rs1, bit30, bits, w, enc_I.
  change (6 - 0 + 1) with 7. change (11 - 7 + 1) with 5. change (14 - 12 + 1) with 3. change (19 - 15 + 1) with 5.
  change (30 - 30 + 1) with 1. slice_vals. rewrite !slice0_small by lia. done.
Qed.

Lemma fields_S imm r2 r1 k op :
  0 <= op < 2 ^ 7 -> 0 <= k < 8 -> 0 <= r1 < 32 -> 0 <= r2 < 32 ->
  let w := enc_S imm r2 r1 k op in opcode w = op /\ f3 w = k /\ rs1 w = r1 /\ rs2 w = r2.
Proof.
  intros. unfold opcode, f3, rs1, rs2, bits, w, enc_S.
  change (6 - 0 + 1) with 7. change (14 - 12 + 1) with 3. change (19 - 15 + 1) with 5. change (24 - 20 + 1) with 5.
  slice_vals. rewrite !slice0_small by lia. done.
Qed.

Lemma fields_B imm r2 r1 k op :
  0 <= op < 2 ^ 7 -> 0 <= k < 8 -> 0 <= r1 < 32 -> 0 <= r2 < 32 ->
  let w := enc_B imm r2 r1 k op in opcode w = op /\ f3 w = k /\ rs1 w = r1 /\ rs2 w = r2.
Proof.
  intros. unfold opcode, f3, rs1, rs2, bits, w, enc_B.
  change (6 - 0 + 1) with 7. change (14 - 12 + 1) with 3. change (19 - 15 + 1) with 5. change (24 - 20 + 1) with 5.
  slice_vals. rewrite !slice0_small by lia. done.
Qed.

Lemma core_fields_U imm d op : 0 <= op < 2 ^ 7 -> 0 <= d < 32 -> let w := enc_U imm d op in opcode w = op /\ rd w = d.
Proof.
  intros. unfold opcode, rd, bits, w, enc_U. change (6 - 0 + 1) with 7. change (11 - 7 + 1) with 5.
  slice_vals. rewrite !slice0_small by lia. done.
Qed.

Lemma fields_J imm d op : 0 <= op < 2 ^ 7 -> 0 <= d < 32 -> let w := enc_J imm d op in opcode w = op /\ rd w = d.
Proof.
  intros. unfold opcode, rd, bits, w, enc_J. change (6 - 0 + 1) with 7. change (11 - 7 + 1) with 5.
  slice_vals. rewrite !slice0_small by lia. done.
Qed.

(** ** The datapath computes the instruction set *)

Definition regs_ok (x : list Z) : Prop := length x = 32%nat /\ Forall (fun v => 0 <= v < 2 ^ 32) x.

Lemma regs_get x r : regs_ok x -> 0 <= r < 32 -> 0 <= vget x r < 2 ^ 32.
Proof.
  intros [Hl Hf] Hr. rewrite list.Forall_lookup in Hf. apply (Hf (Z.to_nat r)). apply vget_lookup. lia.
Qed.

Lemma set_x_ok x d v : regs_ok x -> 0 <= v < 2 ^ 32 -> regs_ok (set_x x d v).
Proof.
  intros [Hl Hf] Hv. unfold set_x. destruct (_ =? _); [done|]. split; [by rewrite length_vset|]. by apply Forall_insert.
Qed.

Definition agree (i : rv_instr) (x : list Z) (pc : Z) : Prop :=
  let w := encode i in let a := vget x (rs1 w) in let b := vget x (rs2 w) in
  let h := rv32_exec i (MkHart x pc (fun _ => 0)) in
  isLoad w = false /\ isStore w = false /\ isHalt w = false /\
  (if wbEn w then vset x (rd w) (wbVal w pc a b) else x) = h_x h /\ nextPc w pc a b = h_pc h.

Lemma not_halt w : opcode w <> 127 -> isHalt w = false.
Proof. intros H. apply Z.eqb_neq. intros ->. by apply H. Qed.

(** Decide the opcode tests of a word whose opcode is known. *)
Ltac opcode_tests E :=
  unfold wbEn, wbVal, nextPc, brTaken, addr, operand2, shiftAmt, isLoad, isStore, isBranch, isJal, isJalr, isOpImm, isOp, isLui, isAuipc in *;
  rewrite ?E in *; cbn [Z.eqb Pos.eqb orb andb] in *.

Lemma write_agree (x : list Z) d v v' : v = v' -> (if negb (d =? 0) then vset x d v else x) = set_x x d v'.
Proof. intros ->. unfold set_x. by destruct (d =? 0). Qed.

Lemma core_shamt_mod b : bits b 4 0 = b mod 32.
Proof. unfold bits, slice. by rewrite Z.pow_0_r, Z.div_1_r. Qed.

Lemma exec_op o d r1 r2 x pc : rv32_ok (rv_op o d r1 r2) = true -> regs_ok x -> agree (rv_op o d r1 r2) x pc.
Proof.
  intros Hv Hx. unfold rv32_ok in Hv. apply andb_prop in Hv as [Hv Ho]. split_rv Hv. unfold agree. cbn [encode].
  destruct (fields_R (rop_f7 o) r2 r1 (rop_f3 o) d 0x33 ltac:(lia) ltac:(lia) ltac:(destruct o; cbn; lia) ltac:(lia) ltac:(lia))
    as (E1 & E2 & E3 & E4 & E5 & E6). set (w := enc_R _ _ _ _ _ _) in *. clearbody w.
  rewrite (not_halt w) by (rewrite E1; lia). opcode_tests E1. split; [done|]. split; [done|]. split; [done|].
  cbn [rv32_exec rv_value rv_target rv_rd rv_rs1 rv_rs2 h_x h_pc default links]. split; [|done]. rewrite E2, E4, E5.
  apply write_agree. unfold alu. opcode_tests E1. rewrite E3, E6, core_shamt_mod.
  destruct o; try discriminate Ho; cbn; rewrite ?Z.shiftl_mul_pow2, ?Z.shiftr_div_pow2 by (apply Z.mod_pos_bound; lia); done.
Qed.

Lemma exec_opi o d r1 imm x pc : rv32_ok (rv_opi o d r1 imm) = true -> regs_ok x -> agree (rv_opi o d r1 imm) x pc.
Proof.
  intros Hv Hx. unfold rv32_ok in Hv. apply andb_prop in Hv as [Hv _]. split_rv Hv. unfold agree. cbn [encode].
  pose proof (immI_enc imm r1 (iop_f3 o) d 0x13 ltac:(lia)) as Ei.
  destruct (fields_I imm r1 (iop_f3 o) d 0x13 ltac:(lia) ltac:(lia) ltac:(destruct o; cbn; lia) ltac:(lia))
    as (E1 & E2 & E3 & E4 & E6). set (w := enc_I _ _ _ _ _) in *. clearbody w.
  rewrite (not_halt w) by (rewrite E1; lia). opcode_tests E1. split; [done|]. split; [done|]. split; [done|].
  cbn [rv32_exec rv_value rv_target rv_rd rv_rs1 rv_rs2 h_x h_pc default links]. split; [|done]. rewrite E2, E4.
  apply write_agree. unfold alu. opcode_tests E1. rewrite E3, Ei. destruct o; done.
Qed.

Lemma exec_shi o d r1 sh x pc : rv32_ok (rv_shi o d r1 sh) = true -> regs_ok x -> agree (rv_shi o d r1 sh) x pc.
Proof.
  intros Hv Hx. unfold rv32_ok in Hv. apply andb_prop in Hv as [Hv _]. split_rv Hv. unfold agree. cbn [encode].
  assert (0 <= sh < 32) as Hs by done.
  pose proof (immI_enc (shop_hi o + sh) r1 (shop_f3 o) d 0x13 ltac:(destruct o; cbn; lia)) as Ei.
  destruct (fields_I (shop_hi o + sh) r1 (shop_f3 o) d 0x13 ltac:(lia) ltac:(lia) ltac:(destruct o; cbn; lia) ltac:(lia))
    as (E1 & E2 & E3 & E4 & E6). set (w := enc_I _ _ _ _ _) in *. clearbody w.
  rewrite (not_halt w) by (rewrite E1; lia). opcode_tests E1. split; [done|]. split; [done|]. split; [done|].
  cbn [rv32_exec rv_value rv_target rv_rd rv_rs1 rv_rs2 h_x h_pc default links]. split; [|done]. rewrite E2, E4.
  apply write_agree. unfold alu. opcode_tests E1. rewrite E3, Ei, E6, core_shamt_mod.
  assert (u32 (shop_hi o + sh) mod 32 = sh /\ (slice (shop_hi o + sh) 10 1 =? 1) = match o with s_srai => true | _ => false end) as [-> ->].
  { rewrite u32_small by (destruct o; cbn; lia). unfold slice. destruct o; cbn [shop_hi].
    1,2: rewrite Z.add_0_l, Z.mod_small, (Z.div_small sh) by lia; done.
    replace (2 ^ 10 + sh) with (sh + 32 * 32) by lia. rewrite Z.mod_add, Z.mod_small by lia. split; [done|].
    rewrite <- (Z.div_unique (sh + 32 * 32) (2 ^ 10) 1 sh) by lia. done. }
  destruct o; cbn; rewrite ?Z.shiftl_mul_pow2, ?Z.shiftr_div_pow2, ?(Z.mod_small sh) by lia; done.
Qed.

Lemma exec_upper (au : bool) d imm x pc :
  let i := if au then rv_auipc d imm else rv_lui d imm in rv32_ok i = true -> regs_ok x -> agree i x pc.
Proof.
  intros i Hv Hx. unfold rv32_ok in Hv. apply andb_prop in Hv as [Hv _].
  assert (0 <= d < 32 /\ 0 <= imm < 2 ^ 20) as [Hd Hi] by (unfold i in Hv; destruct au; split_rv Hv; done).
  assert (sext32 (2 ^ 12 * imm) = 2 ^ 12 * imm) as Es.
  { unfold sext32, word, sint. change XLEN with 32. rewrite Z.mod_small with (a := 2 ^ 12 * imm) by lia.
    destruct (_ <? _); [by apply Z.mod_small; lia|]. replace (2 ^ 12 * imm - 2 ^ 32) with (2 ^ 12 * imm + (-1) * 2 ^ 32) by lia.
    rewrite Z.mod_add by lia. apply Z.mod_small. lia. }
  unfold agree, i. destruct au; cbn [encode].
  - pose proof (immU_enc imm d 0x17 Hi) as Ei. destruct (core_fields_U imm d 0x17 ltac:(lia) ltac:(lia)) as (E1 & E2).
    set (w := enc_U _ _ _) in *. clearbody w. rewrite (not_halt w) by (rewrite E1; lia). opcode_tests E1.
    split; [done|]. split; [done|]. split; [done|]. cbn [rv32_exec rv_value rv_target rv_rd rv_rs1 rv_rs2 h_x h_pc default links].
    split; [|done]. rewrite E2. apply write_agree. rewrite Ei, Es. done.
  - pose proof (immU_enc imm d 0x37 Hi) as Ei. destruct (core_fields_U imm d 0x37 ltac:(lia) ltac:(lia)) as (E1 & E2).
    set (w := enc_U _ _ _) in *. clearbody w. rewrite (not_halt w) by (rewrite E1; lia). opcode_tests E1.
    split; [done|]. split; [done|]. split; [done|]. cbn [rv32_exec rv_value rv_target rv_rd rv_rs1 rv_rs2 h_x h_pc default links].
    split; [|done]. rewrite E2. apply write_agree. rewrite Ei, Es. done.
Qed.

Lemma u32_add_u32 a b : u32 (a + u32 b) = u32 (a + b).
Proof. unfold u32. by rewrite Z.add_mod_idemp_r by lia. Qed.

Lemma exec_branch o r1 r2 off x pc : rv32_ok (rv_branch o r1 r2 off) = true -> regs_ok x -> agree (rv_branch o r1 r2 off) x pc.
Proof.
  intros Hv Hx. unfold rv32_ok in Hv. apply andb_prop in Hv as [Hv _]. split_rv Hv. unfold agree. cbn [encode].
  pose proof (immB_enc off r2 r1 (brop_f3 o) 0x63 ltac:(lia) ltac:(done)) as Ei.
  destruct (fields_B off r2 r1 (brop_f3 o) 0x63 ltac:(lia) ltac:(destruct o; cbn; lia) ltac:(lia) ltac:(lia)) as (E1 & E3 & E4 & E5).
  set (w := enc_B _ _ _ _ _) in *. clearbody w. rewrite (not_halt w) by (rewrite E1; lia). opcode_tests E1.
  split; [done|]. split; [done|]. split; [done|]. cbn [rv32_exec rv_value rv_target rv_rd rv_rs1 rv_rs2 h_x h_pc links]. split; [done|].
  rewrite E3, E4, E5, Ei, u32_add_u32. change (word (pc + off)) with (u32 (pc + off)).
  set (a := vget x r1). set (b := vget x r2). unfold brop_sem, sgn. change XLEN with 32.
  destruct o; cbn; try (by case_match); rewrite <- ?Z.ltb_antisym, ?Z.leb_antisym; by case_match.
Qed.

Lemma exec_jal d off x pc : rv32_ok (rv_jal d off) = true -> regs_ok x -> agree (rv_jal d off) x pc.
Proof.
  intros Hv Hx. unfold rv32_ok in Hv. apply andb_prop in Hv as [Hv Ho%Z.leb_le]. split_rv Hv. unfold agree. cbn [encode].
  pose proof (immJ_enc off d 0x6F ltac:(lia) ltac:(done)) as Ei. rewrite (proj2 (Z.ltb_ge off 0)) in Ei by lia.
  destruct (fields_J off d 0x6F ltac:(lia) ltac:(lia)) as (E1 & E2). set (w := enc_J _ _ _) in *. clearbody w.
  rewrite (not_halt w) by (rewrite E1; lia). opcode_tests E1. split; [done|]. split; [done|]. split; [done|].
  cbn [rv32_exec rv_value rv_target rv_rd rv_rs1 rv_rs2 h_x h_pc default links]. rewrite E2, Ei. split; [by apply write_agree | done].
Qed.

Lemma exec_jalr d r1 off x pc : rv32_ok (rv_jalr d r1 off) = true -> regs_ok x -> agree (rv_jalr d r1 off) x pc.
Proof.
  intros Hv Hx. unfold rv32_ok in Hv. apply andb_prop in Hv as [Hv _]. split_rv Hv. unfold agree. cbn [encode].
  pose proof (immI_enc off r1 0 d 0x67 ltac:(lia)) as Ei.
  destruct (fields_I off r1 0 d 0x67 ltac:(lia) ltac:(lia) ltac:(lia) ltac:(lia)) as (E1 & E2 & E3 & E4 & _).
  set (w := enc_I _ _ _ _ _) in *. clearbody w. rewrite (not_halt w) by (rewrite E1; lia). opcode_tests E1.
  split; [done|]. split; [done|]. split; [done|]. cbn [rv32_exec rv_value rv_target rv_rd rv_rs1 rv_rs2 h_x h_pc default links].
  rewrite E2, E4, Ei, u32_add_u32. split; [by apply write_agree|].
  change (word (vget x r1 + off)) with (u32 (vget x r1 + off)). set (v := u32 _). pose proof (u32_range (vget x r1 + off)) as Hr. fold v in Hr.
  change (lnot_w XLEN 1) with (lnot_w 32 (2 ^ 1 - 1)). rewrite land_lnot_low by lia.
  unfold cat, bits, slice. change (31 - 1 + 1) with 31. rewrite (Z.mod_small (v / 2 ^ 1)).
  - unfold id. pose proof (Z.div_mod v (2 ^ 1) ltac:(lia)). lia.
  - split; [apply Z.div_pos; lia | apply Z.div_lt_upper_bound; lia].
Qed.

Lemma exec_fence imm r1 d x pc : rv32_ok (rv_fence imm r1 d) = true -> regs_ok x -> agree (rv_fence imm r1 d) x pc.
Proof.
  intros Hv Hx. unfold rv32_ok in Hv. apply andb_prop in Hv as [Hv _]. split_rv Hv. unfold agree. cbn [encode].
  destruct (fields_I imm r1 0 d 0x0F ltac:(lia) ltac:(lia) ltac:(lia) ltac:(lia)) as (E1 & _).
  set (w := enc_I _ _ _ _ _) in *. clearbody w. rewrite (not_halt w) by (rewrite E1; lia). opcode_tests E1.
  split; [done|]. split; [done|]. split; [done|]. done.
Qed.

Lemma exec_agree i x pc : rv32_ok i = true -> is_mem i = false -> regs_ok x -> agree i x pc.
Proof.
  intros Hv Hm Hx. destruct i; try discriminate Hm; try (unfold rv32_ok in Hv; by rewrite andb_false_r in Hv).
  - by apply (exec_upper false).
  - by apply (exec_upper true).
  - by apply exec_op.
  - by apply exec_opi.
  - by apply exec_shi.
  - by apply exec_branch.
  - by apply exec_jal.
  - by apply exec_jalr.
  - by apply exec_fence.
Qed.

(** ** Loads and stores *)

(** What the core drives for a memory instruction. *)
Definition mem_agree (i : rv_instr) (x : list Z) (pc : Z) : Prop :=
  let w := encode i in let a := vget x (rs1 w) in let b := vget x (rs2 w) in
  isHalt w = false /\ wbEn w = false /\ nextPc w pc a b = u32 (pc + 4) /\
  match i with
  | rv_load o d r off =>
      isLoad w = true /\ isStore w = false /\ addr w a b = u32 (vget x r + off) /\ rd w = d /\
      mem_size w = (match ld_bytes o with 1 => 2 | 2 => 1 | _ => 0 end) /\
      forall v, 0 <= v < 2 ^ (8 * ld_bytes o) -> extend (load_of w a b) v = load_ext o v
  | rv_store o r2 r off =>
      isLoad w = false /\ isStore w = true /\ addr w a b = u32 (vget x r + off) /\ b = vget x r2 /\
      mem_size w = (match st_bytes o with 1 => 2 | 2 => 1 | _ => 0 end)
  | _ => True
  end.

Lemma sign_or n hi v : 1 <= n <= 31 -> 0 <= v < 2 ^ n -> hi = 2 ^ 32 - 2 ^ n ->
  Z.lor (if slice v (n - 1) 1 =? 1 then hi else 0) v = u32 (sint n v).
Proof.
  intros Hn Hv ->. unfold sint. rewrite (Z.mod_small v) by lia.
  assert (2 ^ n = 2 * 2 ^ (n - 1)) as E by (rewrite <- Z.pow_succ_r by lia; f_equal; lia).
  assert (2 ^ 32 = 2 ^ (32 - n) * 2 ^ n) as E2 by (rewrite <- Z.pow_add_r by lia; f_equal; lia).
  assert (0 < 2 ^ (n - 1)) by (apply Z.pow_pos_nonneg; lia). assert (2 <= 2 ^ (32 - n)) by (apply (Z.pow_le_mono_r 2 1); lia).
  destruct (Z.ltb_spec v (2 ^ (n - 1))).
  - unfold slice. rewrite (Z.div_small v) by lia. change (0 mod 2 ^ 1 =? 1) with false. cbn [Z.lor]. unfold u32. by rewrite Z.mod_small by nia.
  - assert (slice v (n - 1) 1 = 1) as ->.
    { unfold slice. rewrite <- (Z.div_unique v (2 ^ (n - 1)) 1 (v - 2 ^ (n - 1))) by lia. done. }
    cbn [Z.eqb Pos.eqb]. replace (2 ^ 32 - 2 ^ n) with (Z.shiftl (2 ^ (32 - n) - 1) n) by (rewrite Z.shiftl_mul_pow2; lia).
    rewrite lor_disjoint by lia. unfold u32. rewrite <- (Z.mod_add (v - 2 ^ n) 1 (2 ^ 32)), Z.mod_small by nia. nia.
Qed.

Lemma extend_load o l v : (match o with l_ld | l_lwu => false | _ => true end) = true ->
  ldByte l = bool_decide (ld_bytes o = 1) -> ldHalf l = bool_decide (ld_bytes o = 2) ->
  ldSigned l = (match o with l_lb | l_lh | l_lw => true | _ => false end) ->
  0 <= v < 2 ^ (8 * ld_bytes o) -> extend l v = load_ext o v.
Proof.
  intros Ho Hb Hh Hs Hv. unfold extend. rewrite Hb, Hh, Hs.
  unfold bits. change (7 - 7 + 1) with 1. change (15 - 15 + 1) with 1. change (7 - 0 + 1) with 8. change (15 - 0 + 1) with 16.
  destruct o; try discriminate Ho; cbn [ld_bytes load_ext] in *; cbn [andb];
    repeat match goal with |- context [bool_decide ?P] => first [change (bool_decide P) with true | change (bool_decide P) with false] end;
    cbv iota; rewrite ?slice0_small by (cbn; lia); try done.
  - apply (sign_or 8); cbn; lia.
  - apply (sign_or 16); cbn; lia.
Qed.

Lemma exec_load o d r off x pc : rv32_ok (rv_load o d r off) = true -> regs_ok x -> mem_agree (rv_load o d r off) x pc.
Proof.
  intros Hv Hx. unfold rv32_ok in Hv. apply andb_prop in Hv as [Hv Ho]. split_rv Hv. unfold mem_agree. cbn [encode].
  pose proof (immI_enc off r (ldop_f3 o) d 3 ltac:(lia)) as Ei.
  destruct (fields_I off r (ldop_f3 o) d 3 ltac:(lia) ltac:(lia) ltac:(destruct o; cbn; lia) ltac:(lia)) as (E1 & E2 & E3 & E4 & _).
  set (w := enc_I _ _ _ _ _) in *. clearbody w. rewrite (not_halt w) by (rewrite E1; lia).
  assert (forall b, addr w (vget x (rs1 w)) b = u32 (vget x r + off)) as Ea.
  { intros b. opcode_tests E1. by rewrite E4, Ei, u32_add_u32. }
  rewrite Ea. opcode_tests E1. do 2 (split; [done|]). split; [done|]. do 4 (split; [done|]).
  unfold mem_size, byte_op, half_op. rewrite E3. split; [by destruct o|].
  intros v Hv. apply extend_load; unfold load_of, byte_op, half_op; cbn [ldByte ldHalf ldSigned]; rewrite ?E3; try done; by destruct o.
Qed.

Lemma exec_store o r2 r off x pc : rv32_ok (rv_store o r2 r off) = true -> regs_ok x -> mem_agree (rv_store o r2 r off) x pc.
Proof.
  intros Hv Hx. unfold rv32_ok in Hv. apply andb_prop in Hv as [Hv Ho]. split_rv Hv. unfold mem_agree. cbn [encode].
  pose proof (immS_enc off r2 r (stop_f3 o) 0x23 ltac:(lia)) as Ei.
  destruct (fields_S off r2 r (stop_f3 o) 0x23 ltac:(lia) ltac:(destruct o; cbn; lia) ltac:(lia) ltac:(lia)) as (E1 & E3 & E4 & E5).
  set (w := enc_S _ _ _ _ _) in *. clearbody w. rewrite (not_halt w) by (rewrite E1; lia).
  assert (forall b, addr w (vget x (rs1 w)) b = u32 (vget x r + off)) as Ea.
  { intros b. opcode_tests E1. by rewrite E4, Ei, u32_add_u32. }
  rewrite Ea. opcode_tests E1. do 6 (split; [done|]). rewrite E5. split; [done|].
  unfold mem_size, byte_op, half_op. rewrite E3. by destruct o.
Qed.

(** A backward jump also flips bit 31 of the program counter: the immediate of
    [jal] is one bit short.  The instruction memory decodes the low bits only,
    so the fetch is right, but a later [auipc] or link is not. *)
Theorem backward_jal d off pc a b :
  rv_valid (rv_jal d off) = true -> off < 0 -> nextPc (encode (rv_jal d off)) pc a b = u32 (pc + off + 2 ^ 31).
Proof.
  intros Hv Ho. split_rv Hv. cbn [encode]. pose proof (immJ_enc off d 0x6F ltac:(lia) ltac:(done)) as Ei.
  rewrite (proj2 (Z.ltb_lt off 0)) in Ei by lia. destruct (fields_J off d 0x6F ltac:(lia) ltac:(lia)) as (E1 & E2).
  set (w := enc_J _ _ _) in *. clearbody w. opcode_tests E1. rewrite Ei. f_equal. lia.
Qed.
