(* ===== verification/CpuLane.v ===== *)
(** * The CPU lane: the core and its memory adapter

    [Top] connects the word port of the core to [CoreMemToHBM] and that to the
    fabric.  The file shows that the two, on any line port, execute the
    instruction set: the registers and the program counter of the core and the
    bytes of the lines the program uses are those of the instruction set after
    some number of instructions, whatever the latency of the port and whatever
    other agents do to other lines. *)

From S2P Require Import Prelude Isa IsaSem Fabric CoreMem Rv32.

Record cpu_lane := MkCpu { core : RiscVICore; adapter : CoreMemToHBM }.

Definition cpu_reset : cpu_lane := MkCpu core_reset coremem_reset.

Definition cpu_ask (s : cpu_lane) : Ask MemReq := coremem_ask (adapter s).

Definition cpu_next (s : cpu_lane) (io : core_in) (r : Reply) : cpu_lane :=
  MkCpu (core_next true (core s) io (coremem_word (adapter s)))
        (coremem_next (adapter s) (core_ask true (core s)) r).

(** ** Bytes and lines *)

(** The byte memory of the instruction set and the lines it lives in. *)
Definition mem_rel (P : Z -> Prop) (m : lines) (b : Z -> Z) : Prop :=
  forall y, 0 <= y < 2 ^ 14 -> P (slice y 6 8) -> b y = slice (m (slice y 6 8)) (8 * slice y 0 6) 8.

Definition lines_ok (P : Z -> Prop) (m : lines) : Prop := forall l, 0 <= l < 256 -> P l -> 0 <= m l < 2 ^ 512.

Lemma keeps_rel {P} m m' b : keeps P m m' -> mem_rel P m b -> mem_rel P m' b.
Proof. intros K H y Hy HP. rewrite (H y Hy HP). f_equal. symmetry. apply K; [apply (slice_range y 6 8); lia | done]. Qed.

Lemma keeps_lines {P} m m' : keeps P m m' -> lines_ok P m -> lines_ok P m'.
Proof. intros K H l Hl HP. rewrite (K l Hl HP). by apply H. Qed.

Lemma addr_split a : slice a 0 14 = slice a 0 6 + 64 * line_of a.
Proof. apply (slice_split a 0 6 8); lia. Qed.

Lemma addr_byte a k : 0 <= k -> slice a 0 6 + k < 64 ->
  0 <= slice a 0 14 + k < 2 ^ 14 /\ slice (slice a 0 14 + k) 6 8 = line_of a /\ slice (slice a 0 14 + k) 0 6 = slice a 0 6 + k.
Proof.
  intros Hk Ho. rewrite addr_split. pose proof (slice_range a 0 6 ltac:(lia)). pose proof (slice_range a 6 8 ltac:(lia)) as Hl.
  fold (line_of a) in Hl. replace (slice a 0 6 + 64 * line_of a + k) with ((slice a 0 6 + k) + 2 ^ 6 * line_of a) by lia.
  split; [lia|]. split.
  - rewrite slice_high by lia. rewrite Z.sub_diag. by apply slice0_small.
  - rewrite slice_low by lia. apply slice0_small; lia.
Qed.

Lemma bytes_slice L off n : 0 <= off -> 0 <= n ->
  le_val ((fun k => slice L (8 * (off + k)) 8) <$> range n) = slice L (8 * off) (8 * n).
Proof.
  intros Ho Hn. rewrite range_span. rewrite <- (Z2Nat.id n) at 2 by lia. generalize (Z.to_nat n). clear n Hn. intros n.
  revert off Ho. induction n as [|n IH]; intros off Ho.
  - cbn. unfold slice. by rewrite Z.mod_1_r.
  - replace (span 0 (S n)) with ([0] ++ span (0 + 1) n) by (symmetry; apply (span_app 0 1 n)).
    rewrite fmap_app. cbn [fmap list_fmap app le_val foldr]. change (foldr _ 0 ?l) with (le_val l).
    replace (8 * Z.of_nat (S n)) with (8 + 8 * Z.of_nat n) by lia. rewrite slice_split by lia.
    rewrite Z.add_0_r. f_equal. change (2 ^ 8) with 256. f_equal. change (0 + 1) with (1 + 0). rewrite <- (span_shift 1 0 n), <- list_fmap_compose.
    replace (8 * off + 8) with (8 * (off + 1)) by lia. rewrite <- IH by lia. f_equal. apply list_fmap_ext. intros k y _. cbn. f_equal. lia.
Qed.

Lemma read_lines P m b a n :
  mem_rel P m b -> P (line_of a) -> 0 <= n -> slice a 0 6 + n <= 64 ->
  read_mem b a n = slice (m (line_of a)) (8 * slice a 0 6) (8 * n).
Proof.
  intros Hm HP Hn Ho. pose proof (slice_range a 0 6 ltac:(lia)) as Hr. unfold read_mem. rewrite <- bytes_slice by lia. f_equal.
  apply list_fmap_ext. intros j k Hk. assert (0 <= k < n) as Hk' by (apply elem_of_range; by eapply list_elem_of_lookup_2).
  destruct (addr_byte a k ltac:(lia) ltac:(lia)) as (H1 & H2 & H3). rewrite Hm by (rewrite ?H2; done). by rewrite H2, H3.
Qed.

Lemma patch_byte L off n v j : 0 <= off -> 0 < n -> off + n <= 64 -> 0 <= j < 64 ->
  slice (patch L off n v) (8 * j) 8 = if (off <=? j) && (j <? off + n) then slice v (8 * (j - off)) 8 else slice L (8 * j) 8.
Proof.
  intros Ho Hn Hl Hj. apply Z.bits_inj'. intros i Hi.
  destruct (Z.leb_spec off j), (Z.ltb_spec j (off + n)); cbn [andb]; rewrite !slice_testbit by lia;
    (destruct (Z.ltb_spec i 8); [|done]); cbn [andb]; rewrite patch_testbit by lia; bool_cases; try lia; cbn [andb]; f_equal; lia.
Qed.

Lemma write_lines P m b a n v q :
  mem_rel P m b -> P (line_of a) -> 0 < n -> slice a 0 6 + n <= 64 ->
  q_isWrite q = true -> line_of (q_addr q) = line_of a -> q_data q = patch (m (line_of a)) (slice a 0 6) n v ->
  mem_rel P (perform m q) (write_mem b a n v).
Proof.
  intros Hm HP Hn Ho Hw Hl Hd y Hy HPy. pose proof (slice_range a 0 6 ltac:(lia)) as Hr. pose proof (slice_range y 0 6 ltac:(lia)) as Hj.
  unfold perform, write_mem. rewrite Hw, Hl, Hd. cbv zeta.
  replace (y - slice a 0 14) with (slice y 0 14 - slice a 0 14) by (by rewrite (slice0_small y 14) by lia).
  pose proof (addr_split a) as Ea. pose proof (addr_split y) as Ey. pose proof (line_of_range a). pose proof (line_of_range y).
  fold (line_of y) in *. destruct (Z.eqb_spec (line_of y) (line_of a)) as [E|E].
  - rewrite patch_byte by lia. rewrite Ea, Ey, E.
    replace (slice y 0 6 + 64 * line_of a - (slice a 0 6 + 64 * line_of a)) with (slice y 0 6 - slice a 0 6) by lia.
    replace (0 <=? slice y 0 6 - slice a 0 6) with (slice a 0 6 <=? slice y 0 6) by (destruct (Z.leb_spec (slice a 0 6) (slice y 0 6)); symmetry; [apply Z.leb_le | apply Z.leb_gt]; lia).
    replace (slice y 0 6 - slice a 0 6 <? n) with (slice y 0 6 <? slice a 0 6 + n) by (destruct (Z.ltb_spec (slice y 0 6) (slice a 0 6 + n)); symmetry; [apply Z.ltb_lt | apply Z.ltb_ge]; lia).
    destruct (_ && _); [done|]. rewrite Hm by done. fold (line_of y). by rewrite E.
  - assert ((0 <=? slice y 0 14 - slice a 0 14) && (slice y 0 14 - slice a 0 14 <? n) = false) as ->.
    { apply andb_false_iff. rewrite Ea, Ey. destruct (Z.lt_ge_cases (line_of y) (line_of a)); [left; apply Z.leb_gt | right; apply Z.ltb_ge]; lia. }
    by apply Hm.
Qed.

(** ** The program *)

(** The word of an instruction, or the one that halts the core. *)
Definition word_of (i : option rv_instr) : Z := match i with Some i => encode i | None => 0xffffffff end.

Section Lane.
Context (prog : list (option rv_instr)) (prog_256 : length prog = 256%nat) (P : Z -> Prop).

#[local] Existing Instances default_config default_config_ok.

Definition fetch (h : hart) : option rv_instr := vget prog (bits (Z.shiftr (h_pc h) 2) 7 0).

(** The lines of [P] hold what the program accesses, an access stays within its
    line, and a register stored in part fits the part. *)
Definition access_ok (i : rv_instr) (h : hart) : Prop :=
  match i with
  | rv_load o _ r off => let a := u32 (vget (h_x h) r + off) in P (line_of a) /\ slice a 0 6 + ld_bytes o <= 64
  | rv_store o r2 r off =>
      let a := u32 (vget (h_x h) r + off) in
      P (line_of a) /\ slice a 0 6 + st_bytes o <= 64 /\ vget (h_x h) r2 < 2 ^ (8 * st_bytes o)
  | _ => True
  end.

Variant isa_step (h h' : hart) : Prop :=
  isa_instr i : fetch h = Some i -> rv32_ok i = true -> access_ok i h -> h' = rv32_exec i h -> isa_step h h'.

Definition isa_halted (h : hart) : Prop := fetch h = None.

(** The program runs on supported instructions until it halts, if ever. *)
Definition isa_safe (h : hart) : Prop := forall h', rtc isa_step h h' -> isa_halted h' \/ exists h'', isa_step h' h''.

Lemma exec_regs i h m :
  rv32_ok i = true -> regs_ok (h_x h) -> access_ok i h -> mem_rel P m (h_mem h) -> regs_ok (h_x (rv32_exec i h)).
Proof.
  intros Hv Hx Ha Hm. pose proof Hv as Hv'. unfold rv32_ok in Hv'. apply andb_prop in Hv' as [Hr Ho].
  assert (forall r, reg5 r = true -> 0 <= vget (h_x h) r < 2 ^ 32) as Hg.
  { intros r E. unfold reg5 in E. apply regs_get; [done | lia]. }
  destruct (is_mem i) eqn:Em.
  - destruct i; try discriminate Em; cbn [rv32_exec h_x]; [|done]. apply set_x_ok; [done|]. destruct Ha as [HP Hc].
    rewrite (read_lines P m) by (try done; destruct o; cbn; lia).
    pose proof (slice_range (m (line_of (u32 (vget (h_x h) rs1 + off)))) (8 * slice (u32 (vget (h_x h) rs1 + off)) 0 6) (8 * ld_bytes o)
      ltac:(destruct o; cbn; lia)). destruct o; try discriminate Ho; cbn [load_ext ld_bytes] in *; try apply u32_range; try lia.
  - assert (regs_ok (match rv_value i (h_pc h) (vget (h_x h) (rv_rs1 i)) (vget (h_x h) (rv_rs2 i)) with
              | Some v => set_x (h_x h) (rv_rd i) v
              | None => if links i then set_x (h_x h) (rv_rd i) (u32 (h_pc h + 4)) else h_x h end)) as H.
    { destruct (rv_value i _ _ _) as [v|] eqn:E; [|by destruct (links i); [apply set_x_ok; [done | apply u32_range]|]].
      apply set_x_ok; [done|]. apply (value_bounds _ _ _ _ _ Hr E); apply Hg; by destruct i; cbn in Hr |- *; rewrite ?andb_true_iff in Hr; destruct_and? Hr. }
    destruct i; try discriminate Em; exact H.
Qed.

(** ** The states of the lane between and within instructions *)

Definition is_store (i : rv_instr) : bool := match i with rv_store _ _ _ _ => true | _ => false end.

(** The address and the number of bytes of an access. *)
Definition acc_addr (i : rv_instr) (h : hart) : Z :=
  match i with rv_load _ _ r off | rv_store _ _ r off => u32 (vget (h_x h) r + off) | _ => 0 end.
Definition acc_bytes (i : rv_instr) : Z :=
  match i with rv_load o _ _ _ => ld_bytes o | rv_store o _ _ _ => st_bytes o | _ => 1 end.

Record core_at (c : RiscVICore) (h : hart) (pc' : Z) (wait : bool) : Prop := {
  ca_imem : imem c = word_of <$> prog;
  ca_rf : rf c = h_x h;
  ca_pc : pc c = pc';
  ca_run : running c = true;
  ca_load : loadWait c = false;
  ca_wait : memWait c = wait
}.

(** The memory instruction [i] is under way. *)
Record in_flight (s : cpu_lane) (h : hart) (i : rv_instr) : Prop := {
  if_mem : is_mem i = true;
  if_fetch : fetch h = Some i;
  if_ok : rv32_ok i = true;
  if_acc : access_ok i h;
  if_core : core_at (core s) h (u32 (h_pc h + 4)) true;
  if_halted : halted (core s) = false;
  if_wr : memWr (core s) = is_store i;
  if_rd : match i with
          | rv_load o d _ _ => memRd (core s) = d /\ forall v, 0 <= v < 2 ^ (8 * ld_bytes o) -> extend (ld (core s)) v = load_ext o v
          | rv_store _ r2 _ _ => dataReg (adapter s) = vget (h_x h) r2
          | _ => True
          end;
  if_isWr : isWrReg (adapter s) = is_store i;
  if_addr : addrReg (adapter s) = acc_addr i h;
  if_off : offReg (adapter s) = slice (acc_addr i h) 0 6;
  if_size : width (sizeReg (adapter s)) = acc_bytes i
}.

Definition progress (s : cpu_lane) (m : lines) (o : outstanding) (h : hart) (i : rv_instr) : Prop :=
  let a := adapter s in let l := line_of (acc_addr i h) in
  match cm_st a with
  | cm_idle => False
  | cm_rdreq => o = Idle /\ mem_rel P m (h_mem h)
  | cm_rdresp =>
      mem_rel P m (h_mem h) /\
      match o with Idle => False | Accepted q => q_isWrite q = false /\ line_of (q_addr q) = l | Answered d => d = m l end
  | cm_wrreq => is_store i = true /\ o = Idle /\ lineReg a = m l /\ mem_rel P m (h_mem h)
  | cm_wrresp =>
      is_store i = true /\
      match o with
      | Idle => False
      | Accepted q =>
          q_isWrite q = true /\ line_of (q_addr q) = l /\
          q_data q = patch (m l) (slice (acc_addr i h) 0 6) (acc_bytes i) (dataReg a) /\ mem_rel P m (h_mem h)
      | Answered _ => mem_rel P m (h_mem (rv32_exec i h))
      end
  | cm_rsp => o = Idle /\ mem_rel P m (h_mem (rv32_exec i h)) /\ (is_store i = false -> field a = slice (m l) (8 * slice (acc_addr i h) 0 6) (8 * acc_bytes i))
  end.

Variant lane_at (s : cpu_lane) (m : lines) (o : outstanding) (h : hart) : Prop :=
  | at_instr :
      core_at (core s) h (h_pc h) false -> cm_st (adapter s) = cm_idle -> o = Idle -> mem_rel P m (h_mem h) ->
      (halted (core s) = true -> isa_halted h) -> lane_at s m o h
  | at_access i : in_flight s h i -> progress s m o h i -> lane_at s m o h.

Record lane_inv (s : cpu_lane) (m : lines) (o : outstanding) (h : hart) : Prop := {
  li_at : lane_at s m o h;
  li_lines : lines_ok P m;
  li_regs : regs_ok (h_x h)
}.

(** ** Cycles of the core *)

Lemma boot_id c io : running c = true -> prog_we io = false -> core_boot c io = c.
Proof. intros Hr Hp. unfold core_boot. rewrite Hp, Hr. destruct c, (start io); cbn in *; by subst. Qed.

(** A core that waits for its adapter. *)
Lemma core_waits c h pc' io r :
  core_at c h pc' true -> halted c = false -> prog_we io = false -> r_valid r = false -> core_next true c io r = c.
Proof.
  intros [E1 E2 E3 E4 E5 E6] Hh Hp Hv. unfold core_next. rewrite E4, Hh, E5, E6, (boot_id c io E4 Hp). cbn [negb andb].
  unfold resp_fire. by rewrite Hv.
Qed.

(** A core that is given the answer of its load or store. *)
Lemma core_answered c h pc' io r i :
  core_at c h pc' true -> halted c = false -> prog_we io = false -> r_valid r = true -> is_mem i = true -> memWr c = is_store i ->
  match i with rv_load o d _ _ => memRd c = d /\ extend (ld c) (r_bits r) = load_ext o (r_bits r) | _ => True end ->
  core_at (core_next true c io r)
    (MkHart (match i with rv_load o d _ _ => set_x (h_x h) d (load_ext o (r_bits r)) | _ => h_x h end) 0 (h_mem h)) pc' false /\
  halted (core_next true c io r) = false.
Proof.
  intros [E1 E2 E3 E4 E5 E6] Hh Hp Hv Hm Hw Hi. unfold core_next. rewrite E4, Hh, E5, E6, (boot_id c io E4 Hp). cbn [negb andb].
  unfold resp_fire, core_ask. cbn [a_ready]. rewrite Hv, E6, Hw. cbn [andb].
  destruct i; try discriminate Hm; cbn [is_store negb andb].
  - destruct Hi as [-> ->]. unfold set_x. rewrite E2. by destruct (rd =? 0).
  - split; done.
Qed.

(** The instruction at the program counter of an idle core. *)
Lemma core_inst c h : core_at c h (h_pc h) false -> inst c = word_of (fetch h).
Proof.
  intros [E1 _ E3 _ _ _]. unfold inst, fetch. rewrite E1, E3. apply vget_fmap. rewrite prog_256.
  apply (slice_range _ 0 8). lia.
Qed.

Lemma ask_idle c h : core_at c h (h_pc h) false -> halted c = true \/ isa_halted h \/ (exists i, fetch h = Some i /\ rv32_ok i = true /\ is_mem i = false /\ regs_ok (h_x h)) ->
  a_valid (core_ask true c) = false.
Proof.
  intros Hc H. unfold core_ask. cbn [a_valid]. destruct H as [-> | [H | (i & Ef & Hv & Hm & Hx)]]; [by rewrite andb_false_r|..];
    unfold memOp; rewrite (core_inst c h Hc).
  - rewrite H. cbn. by rewrite andb_false_r.
  - rewrite Ef. cbn [word_of]. destruct (exec_agree i (h_x h) (h_pc h) Hv Hm Hx) as (-> & -> & _). cbn. by rewrite andb_false_r.
Qed.

Lemma core_computes c h i io r :
  core_at c h (h_pc h) false -> halted c = false -> prog_we io = false -> fetch h = Some i -> rv32_ok i = true -> is_mem i = false ->
  regs_ok (h_x h) ->
  core_at (core_next true c io r) (rv32_exec i h) (h_pc (rv32_exec i h)) false /\ halted (core_next true c io r) = false /\
  h_mem (rv32_exec i h) = h_mem h.
Proof.
  intros Hc Hh Hp Ef Hv Hm Hx. pose proof (core_inst c h Hc) as Ei. rewrite Ef in Ei; cbn [word_of] in Ei.
  destruct (exec_agree i (h_x h) (h_pc h) Hv Hm Hx) as (H1 & H2 & H3 & H4 & H5).
  assert (h_x (rv32_exec i h) = h_x (rv32_exec i (MkHart (h_x h) (h_pc h) (fun _ => 0))) /\
          h_pc (rv32_exec i h) = h_pc (rv32_exec i (MkHart (h_x h) (h_pc h) (fun _ => 0))) /\ h_mem (rv32_exec i h) = h_mem h) as (X & Y & Z0)
    by (by destruct i).
  destruct Hc as [E1 E2 E3 E4 E5 E6]. unfold core_next, rs1v, rs2v. rewrite E4, Hh, E5, E6, (boot_id c io E4 Hp), Ei, H1, H2, H3. cbn [negb andb orb].
  rewrite E2, E3. split; [|split; [by destruct (wbEn _)|done]].
  split; try (by destruct (wbEn (encode i))); rewrite ?X, ?Y, <- ?H4, <- ?H5; try done; destruct (wbEn (encode i)); cbn; done.
Qed.

Lemma core_halts c h io r :
  core_at c h (h_pc h) false -> halted c = false -> prog_we io = false -> isa_halted h ->
  core_at (core_next true c io r) h (h_pc h) false /\ halted (core_next true c io r) = true.
Proof.
  intros Hc Hh Hp Hi. pose proof (core_inst c h Hc) as Ei. unfold isa_halted in Hi. rewrite Hi in Ei; cbn [word_of] in Ei.
  destruct Hc as [E1 E2 E3 E4 E5 E6]. unfold core_next. rewrite E4, Hh, E5, E6, (boot_id c io E4 Hp), Ei. split; [|done]. split; done.
Qed.

Lemma mem_agree_of i x pc : rv32_ok i = true -> is_mem i = true -> regs_ok x -> mem_agree i x pc.
Proof. intros Hv Hm Hx. destruct i; try discriminate Hm; [by apply exec_load | by apply exec_store]. Qed.

Lemma size_width n : n = 1 \/ n = 2 \/ n = 4 -> width (match n with 1 => 2 | 2 => 1 | _ => 0 end) = n.
Proof. intros [-> | [-> | ->]]; done. Qed.

(** A core that starts a memory access hands it to an idle adapter. *)
Lemma core_requests s h i io r :
  core_at (core s) h (h_pc h) false -> halted (core s) = false -> prog_we io = false -> cm_st (adapter s) = cm_idle ->
  fetch h = Some i -> rv32_ok i = true -> is_mem i = true -> access_ok i h -> regs_ok (h_x h) ->
  in_flight (cpu_next s io r) h i /\ cm_st (adapter (cpu_next s io r)) = cm_rdreq.
Proof.
  intros Hc Hh Hp Ha Ef Hv Hm Hacc Hx. pose proof (core_inst (core s) h Hc) as Ei. rewrite Ef in Ei; cbn [word_of] in Ei.
  pose proof Hv as Hv'. unfold rv32_ok in Hv'. apply andb_prop in Hv' as [_ Ho].
  pose proof (mem_agree_of i (h_x h) (h_pc h) Hv Hm Hx) as (H1 & H2 & H3 & H4). pose proof Hc as Hc'. destruct Hc' as [E1 E2 E3 E4 E5 E6].
  assert (isLoad (encode i) || isStore (encode i) = true) as Els.
  { destruct i; try discriminate Hm; destruct H4 as (-> & -> & _); done. }
  assert (req_fire (core_ask true (core s)) (coremem_word (adapter s)) = true) as Efire.
  { unfold req_fire, core_ask, coremem_word, memOp. cbn [a_valid r_ready]. rewrite E4, Hh, E5, E6, Ei, Els, Ha. done. }
  unfold cpu_next. cbn [core adapter]. unfold coremem_next, core_next. rewrite Ha, Efire, E4, Hh, E5, E6, (boot_id _ io E4 Hp), Ei, H1, H2, Els.
  cbn [negb andb orb]. unfold core_ask, rs1v, rs2v. cbn [a_bits w_addr w_data w_isWrite w_size]. rewrite Ei, E2, E3, H3.
  split; [|done]. destruct i; try discriminate Hm; destruct H4 as (F1 & F2 & F3 & F4 & F5).
  - destruct F5 as [F5 F6]. split; cbn [core adapter set_pc set_mem set_wait is_mem is_store acc_addr acc_bytes memWr memRd ld isWrReg addrReg offReg sizeReg halted]; try done.
    + by rewrite F3.
    + rewrite F5. apply size_width. destruct o; cbn; auto.
  - split; cbn [core adapter set_pc set_mem set_wait is_mem is_store acc_addr acc_bytes memWr memRd ld isWrReg addrReg offReg sizeReg dataReg halted]; try done.
    + by rewrite F3.
    + rewrite F5. apply size_width. destruct o; cbn; auto.
Qed.

(** ** Cycles of the lane *)

Lemma ask_line s h i : in_flight s h i -> line_of (q_addr (a_bits (cpu_ask s))) = line_of (acc_addr i h).
Proof.
  intros K. unfold cpu_ask, coremem_ask. cbn [a_bits q_addr]. rewrite (if_addr _ _ _ K). set (a := acc_addr i h).
  assert (0 <= a < 2 ^ 32) as Ha by (unfold a, acc_addr; destruct i; try apply u32_range; lia).
  unfold cat, bits, line_of. change (63 - 6 + 1) with 58. rewrite Z.add_0_r, Z.mul_comm, <- (Z.add_0_l (2 ^ 6 * _)).
  rewrite slice_high by lia. rewrite slice_slice by lia. done.
Qed.

Lemma acc_facts i h : is_mem i = true -> access_ok i h ->
  P (line_of (acc_addr i h)) /\ 0 < acc_bytes i /\ 0 <= slice (acc_addr i h) 0 6 /\ slice (acc_addr i h) 0 6 + acc_bytes i <= 64.
Proof.
  intros Hm Ha. pose proof (slice_range (acc_addr i h) 0 6 ltac:(lia)).
  destruct i; try discriminate Hm; cbn [acc_addr acc_bytes] in *; [destruct Ha as [? ?] | destruct Ha as (? & ? & ?)]; split_and!; try done;
    try lia; by destruct o.
Qed.

Lemma exec_keeps_regs i h m : rv32_ok i = true -> is_mem i = true -> access_ok i h -> mem_rel P m (h_mem h) -> regs_ok (h_x h) ->
  h_pc (rv32_exec i h) = u32 (h_pc h + 4) /\
  (is_store i = false -> exists o d r off, i = rv_load o d r off /\ h_mem (rv32_exec i h) = h_mem h /\
     h_x (rv32_exec i h) = set_x (h_x h) d (load_ext o (slice (m (line_of (acc_addr i h))) (8 * slice (acc_addr i h) 0 6) (8 * acc_bytes i)))).
Proof.
  intros Hv Hm Ha Hr Hx. destruct (acc_facts i h Hm Ha) as (HP & Hn & Ho & Hc). destruct i; try discriminate Hm; split; try done.
  intros _. exists o, rd, rs1, off. split; [done|]. split; [done|]. cbn [rv32_exec h_x acc_addr acc_bytes] in *.
  by rewrite (read_lines P m) by (try done; lia).
Qed.

Lemma in_flight_move s h i a' :
  in_flight s h i -> dataReg a' = dataReg (adapter s) -> isWrReg a' = isWrReg (adapter s) -> addrReg a' = addrReg (adapter s) ->
  offReg a' = offReg (adapter s) -> sizeReg a' = sizeReg (adapter s) -> in_flight (MkCpu (core s) a') h i.
Proof.
  intros [K1 K2 K3 K4 K5 K6 K7 K8 K9 K10 K11 K12] A1 A2 A3 A4 A5. split; cbn [core adapter]; rewrite ?A2, ?A3, ?A4, ?A5; try done.
  destruct i; try done. by rewrite A1.
Qed.

(** While the adapter is at work the core waits. *)
Lemma busy_next s h i io r :
  in_flight s h i -> prog_we io = false -> cm_st (adapter s) <> cm_rsp ->
  cpu_next s io r = MkCpu (core s) (coremem_next (adapter s) (core_ask true (core s)) r).
Proof.
  intros K Hp Hs. unfold cpu_next. f_equal. apply (core_waits _ h (u32 (h_pc h + 4))); [apply K | apply K | done|].
  unfold coremem_word. cbn [r_valid]. by apply bool_decide_eq_false.
Qed.

Lemma merged_line s h i m :
  in_flight s h i -> is_store i = true -> lineReg (adapter s) = m (line_of (acc_addr i h)) -> lines_ok P m -> regs_ok (h_x h) ->
  merged (adapter s) = patch (m (line_of (acc_addr i h))) (slice (acc_addr i h) 0 6) (acc_bytes i) (dataReg (adapter s)).
Proof.
  intros K Hst El Hl Hx. destruct (acc_facts i h (if_mem _ _ _ K) (if_acc _ _ _ K)) as (HP & Hn & Ho & Hc).
  rewrite merged_patch; rewrite ?(if_off _ _ _ K), ?(if_size _ _ _ K), ?El; try done.
  - apply Hl; [apply line_of_range | done].
  - pose proof (if_rd _ _ _ K) as Hd. pose proof (if_acc _ _ _ K) as Ha. pose proof (if_ok _ _ _ K) as Hv.
    unfold rv32_ok in Hv. apply andb_prop in Hv as [Hv _]. destruct i; try discriminate Hst. rewrite Hd. destruct Ha as (_ & _ & ?).
    cbn in Hv. rewrite !andb_true_iff in Hv. destruct Hv as [_ [[Hr _] _]]. unfold reg5 in Hr.
    pose proof (regs_get (h_x h) rs2 Hx ltac:(lia)). cbn [acc_bytes]. lia.
Qed.

(** The write of a store has its effect. *)
Lemma store_performed m h i q :
  is_mem i = true -> is_store i = true -> access_ok i h -> lines_ok P m -> mem_rel P m (h_mem h) ->
  q_isWrite q = true -> line_of (q_addr q) = line_of (acc_addr i h) ->
  (exists v, q_data q = patch (m (line_of (acc_addr i h))) (slice (acc_addr i h) 0 6) (acc_bytes i) v /\
     match i with rv_store _ r2 _ _ => v = vget (h_x h) r2 | _ => True end) ->
  mem_rel P (perform m q) (h_mem (rv32_exec i h)) /\ lines_ok P (perform m q).
Proof.
  intros Hm Hst Ha Hl Hr Hw Hq (v & Hd & Hv). destruct (acc_facts i h Hm Ha) as (HP & Hn & Ho & Hc). split.
  - destruct i; try discriminate Hst. subst v. cbn [rv32_exec h_mem acc_addr acc_bytes] in *. by apply write_lines.
  - intros l Hl0 HPl. unfold perform. rewrite Hw. destruct (l =? _); [|by apply Hl]. rewrite Hd. by apply patch_range.
Qed.


Lemma step_rdreq s m o h i io r m' o' :
  in_flight s h i -> progress s m o h i -> cm_st (adapter s) = cm_rdreq -> lines_ok P m -> prog_we io = false ->
  port_cycle (keeps P) (cpu_ask s) r (m, o) (m', o') -> lines_ok P m' /\ lane_at (cpu_next s io r) m' o' h.
Proof.
  intros K Hp Es Hl Hio Hc. unfold progress in Hp. rewrite Es in Hp. destruct Hp as [-> Hr].
  apply port_idle in Hc as [_ Hc]. rewrite (busy_next s h i) by (try done; by rewrite Es).
  unfold coremem_next. rewrite Es. change (coremem_ask (adapter s)) with (cpu_ask s).
  assert (q_isWrite (a_bits (cpu_ask s)) = false) as Ew by (unfold cpu_ask, coremem_ask; rewrite Es; done).
  destruct (req_fire (cpu_ask s) r).
  - assert (in_flight (MkCpu (core s) (set_cm (adapter s) cm_rdresp)) h i) as K' by (by apply in_flight_move).
    destruct Hc as [[-> Ha%alone_keeps] | (d & -> & -> & Hd)].
    + split; [by apply (keeps_lines m)|]. apply (at_access _ _ _ _ i); [done|]. unfold progress. cbn [adapter cm_st set_cm].
      split; [by apply (keeps_rel m)|]. split; [done | by apply ask_line].
    + unfold perform. rewrite Ew. split; [done|]. apply (at_access _ _ _ _ i); [done|]. unfold progress. cbn [adapter cm_st set_cm].
      split; [done|]. rewrite (Hd Ew). f_equal. by apply ask_line.
  - destruct Hc as [-> Ha%alone_keeps]. split; [by apply (keeps_lines m)|]. apply (at_access _ _ _ _ i); [by apply in_flight_move|].
    unfold progress. cbn [adapter]. rewrite Es. split; [done | by apply (keeps_rel m)].
Qed.

Lemma keep_line m m' i h : keeps P m m' -> is_mem i = true -> access_ok i h -> m' (line_of (acc_addr i h)) = m (line_of (acc_addr i h)).
Proof. intros Hk Hm Ha. apply Hk; [apply line_of_range | by apply acc_facts]. Qed.

Lemma step_rdresp s m o h i io r m' o' :
  in_flight s h i -> progress s m o h i -> cm_st (adapter s) = cm_rdresp -> lines_ok P m -> prog_we io = false -> regs_ok (h_x h) ->
  port_cycle (keeps P) (cpu_ask s) r (m, o) (m', o') -> lines_ok P m' /\ lane_at (cpu_next s io r) m' o' h.
Proof.
  intros K Hp Es Hl Hio Hx Hc. unfold progress in Hp. rewrite Es in Hp. destruct Hp as [Hr Hp].
  rewrite (busy_next s h i) by (try done; by rewrite Es). unfold coremem_next. rewrite Es. change (coremem_ask (adapter s)) with (cpu_ask s).
  assert (in_flight (MkCpu (core s) (adapter s)) h i) as K' by (by apply in_flight_move).
  destruct o as [|q|d]; [done|..].
  - apply port_accepted in Hc as (_ & Hv & Hc). unfold resp_fire. rewrite Hv. cbn [andb]. destruct Hp as [Ew Eq].
    destruct Hc as [[-> Ha%alone_keeps] | (d & -> & -> & Hd)].
    + split; [by apply (keeps_lines m)|]. apply (at_access _ _ _ _ i); [done|]. unfold progress. cbn [adapter]. rewrite Es.
      split; [by apply (keeps_rel m) | done].
    + unfold perform. rewrite Ew. split; [done|]. apply (at_access _ _ _ _ i); [done|]. unfold progress. cbn [adapter]. rewrite Es.
      split; [done|]. by rewrite (Hd Ew), Eq.
  - apply port_answered in Hc as (_ & Hv & Ha%alone_keeps & ->). subst d.
    pose proof (keep_line m m' i h Ha (if_mem _ _ _ K) (if_acc _ _ _ K)) as Ek.
    split; [by apply (keeps_lines m)|]. destruct (resp_fire (cpu_ask s) r) eqn:Ef.
    + apply (at_access _ _ _ _ i); [by apply in_flight_move|]. unfold progress. cbn [adapter cm_st lineReg].
      unfold resp_fire in Ef. apply andb_prop in Ef as [Ev _]. rewrite (if_isWr _ _ _ K), (Hv Ev). destruct (is_store i) eqn:Est.
      * split_and!; try done. by apply (keeps_rel m).
      * split; [done|]. destruct (exec_keeps_regs i h m (if_ok _ _ _ K) (if_mem _ _ _ K) (if_acc _ _ _ K) Hr Hx) as [_ Hld].
        destruct (Hld Est) as (o & d & rr & off & _ & Em & _). rewrite Em. split; [by apply (keeps_rel m)|]. intros _.
        rewrite field_slice; cbn [offReg lineReg sizeReg].
        -- by rewrite (if_off _ _ _ K), (if_size _ _ _ K), Ek.
        -- rewrite (if_off _ _ _ K). apply (acc_facts i h (if_mem _ _ _ K) (if_acc _ _ _ K)).
    + apply (at_access _ _ _ _ i); [done|]. unfold progress. cbn [adapter]. rewrite Es. split; [by apply (keeps_rel m) | by symmetry].
Qed.

Lemma step_wrreq s m o h i io r m' o' :
  in_flight s h i -> progress s m o h i -> cm_st (adapter s) = cm_wrreq -> lines_ok P m -> prog_we io = false -> regs_ok (h_x h) ->
  port_cycle (keeps P) (cpu_ask s) r (m, o) (m', o') -> lines_ok P m' /\ lane_at (cpu_next s io r) m' o' h.
Proof.
  intros K Hp Es Hl Hio Hx Hc. unfold progress in Hp. rewrite Es in Hp. destruct Hp as (Hst & -> & El & Hr).
  rewrite (busy_next s h i) by (try done; by rewrite Es). unfold coremem_next. rewrite Es. change (coremem_ask (adapter s)) with (cpu_ask s).
  apply port_idle in Hc as [_ Hc].
  assert (q_isWrite (a_bits (cpu_ask s)) = true /\ q_data (a_bits (cpu_ask s)) = merged (adapter s)) as [Ew Ed]
    by (unfold cpu_ask, coremem_ask; rewrite Es; done).
  rewrite (merged_line s h i m K Hst El Hl Hx) in Ed. pose proof (ask_line s h i K) as Eq.
  destruct (req_fire (cpu_ask s) r).
  - assert (in_flight (MkCpu (core s) (set_cm (adapter s) cm_wrresp)) h i) as K' by (by apply in_flight_move).
    destruct Hc as [[-> Ha%alone_keeps] | (d & -> & -> & Hd)].
    + split; [by apply (keeps_lines m)|]. apply (at_access _ _ _ _ i); [done|]. unfold progress. cbn [adapter cm_st set_cm dataReg].
      rewrite (keep_line m m' i h Ha (if_mem _ _ _ K) (if_acc _ _ _ K)). split_and!; try done. by apply (keeps_rel m).
    + destruct (store_performed m h i (a_bits (cpu_ask s))) as [H1 H2]; try done; try apply K.
      { eexists. split; [exact Ed|]. pose proof (if_rd _ _ _ K). destruct i; done. }
      split; [done|]. apply (at_access _ _ _ _ i); [done|]. unfold progress. cbn [adapter cm_st set_cm]. done.
  - destruct Hc as [-> Ha%alone_keeps]. split; [by apply (keeps_lines m)|]. apply (at_access _ _ _ _ i); [by apply in_flight_move|].
    unfold progress. cbn [adapter]. rewrite Es, (keep_line m m' i h Ha (if_mem _ _ _ K) (if_acc _ _ _ K)).
    split_and!; try done. by apply (keeps_rel m).
Qed.

Lemma step_wrresp s m o h i io r m' o' :
  in_flight s h i -> progress s m o h i -> cm_st (adapter s) = cm_wrresp -> lines_ok P m -> prog_we io = false ->
  port_cycle (keeps P) (cpu_ask s) r (m, o) (m', o') -> lines_ok P m' /\ lane_at (cpu_next s io r) m' o' h.
Proof.
  intros K Hp Es Hl Hio Hc. unfold progress in Hp. rewrite Es in Hp. destruct Hp as [Hst Hp].
  rewrite (busy_next s h i) by (try done; by rewrite Es). unfold coremem_next. rewrite Es. change (coremem_ask (adapter s)) with (cpu_ask s).
  assert (in_flight (MkCpu (core s) (adapter s)) h i) as K' by (by apply in_flight_move).
  destruct o as [|q|d]; [done|..].
  - apply port_accepted in Hc as (_ & Hv & Hc). unfold resp_fire. rewrite Hv. cbn [andb]. destruct Hp as (Ew & Eq & Ed & Hr).
    destruct Hc as [[-> Ha%alone_keeps] | (d & -> & -> & Hd)].
    + split; [by apply (keeps_lines m)|]. apply (at_access _ _ _ _ i); [done|]. unfold progress. cbn [adapter].
      rewrite Es, (keep_line m m' i h Ha (if_mem _ _ _ K) (if_acc _ _ _ K)). split_and!; try done. by apply (keeps_rel m).
    + destruct (store_performed m h i q) as [H1 H2]; try done; try apply K.
      { eexists. split; [exact Ed|]. pose proof (if_rd _ _ _ K). destruct i; done. }
      split; [done|]. apply (at_access _ _ _ _ i); [done|]. unfold progress. cbn [adapter]. by rewrite Es.
  - apply port_answered in Hc as (_ & _ & Ha%alone_keeps & ->). split; [by apply (keeps_lines m)|].
    destruct (resp_fire (cpu_ask s) r).
    + apply (at_access _ _ _ _ i); [by apply in_flight_move|]. unfold progress. cbn [adapter cm_st set_cm].
      split; [done|]. split; [by apply (keeps_rel m)|]. by rewrite Hst.
    + apply (at_access _ _ _ _ i); [done|]. unfold progress. cbn [adapter]. rewrite Es. split; [done | by apply (keeps_rel m)].
Qed.

Lemma step_rsp s m o h i io r m' o' :
  in_flight s h i -> progress s m o h i -> cm_st (adapter s) = cm_rsp -> lines_ok P m -> prog_we io = false -> regs_ok (h_x h) ->
  port_cycle (keeps P) (cpu_ask s) r (m, o) (m', o') ->
  lines_ok P m' /\ lane_at (cpu_next s io r) m' o' (rv32_exec i h).
Proof.
  intros K Hp Es Hl Hio Hx Hc. unfold progress in Hp. rewrite Es in Hp. destruct Hp as (-> & Hr & Hf).
  apply port_idle in Hc as [_ Hc].
  assert (req_fire (cpu_ask s) r = false) as Ef by (unfold req_fire, cpu_ask, coremem_ask; cbn [a_valid]; rewrite Es; done).
  rewrite Ef in Hc. destruct Hc as [-> Ha%alone_keeps]. split; [by apply (keeps_lines m)|].
  assert (mem_rel P m' (h_mem (rv32_exec i h))) as Hr' by (by apply (keeps_rel m)).
  pose proof (if_core _ _ _ K) as Hc. pose proof (if_mem _ _ _ K) as Hm.
  assert (r_valid (coremem_word (adapter s)) = true) as Ev by (unfold coremem_word; cbn [r_valid]; rewrite Es; done).
  assert (h_pc (rv32_exec i h) = u32 (h_pc h + 4)) as Epc by (by destruct i; try discriminate Hm).
  destruct (core_answered (core s) h _ io (coremem_word (adapter s)) i Hc (if_halted _ _ _ K) Hio Ev Hm (if_wr _ _ _ K)) as [Hc' Hh'].
  { pose proof (if_rd _ _ _ K) as Hrd. destruct i; try discriminate Hm; [|done]. destruct Hrd as [? Hx2]. split; [done|]. apply Hx2.
    unfold coremem_word. cbn [r_bits]. rewrite (if_isWr _ _ _ K). cbn [is_store]. rewrite (Hf eq_refl). apply slice_range. destruct o; cbn; lia. }
  apply at_instr; try done.
  - rewrite Epc. unfold cpu_next. cbn [core]. destruct Hc' as [C1 C2 C3 C4 C5 C6]. split; try done. rewrite C2. cbn [h_x].
    destruct i; try discriminate Hm; [|done]. cbn [rv32_exec h_x h_mem] in *. f_equal. unfold coremem_word. cbn [r_bits].
    rewrite (if_isWr _ _ _ K). cbn [is_store]. rewrite (Hf eq_refl). f_equal. symmetry. 
    destruct (acc_facts _ h Hm (if_acc _ _ _ K)) as (HP & Hn & Ho & Hcr). cbn [acc_addr acc_bytes] in *. apply (read_lines P m); try done; lia.
  - unfold cpu_next. cbn [adapter]. unfold coremem_next. rewrite Es. unfold resp_fire. rewrite Ev. unfold core_ask. cbn [a_ready].
    by rewrite (ca_wait _ _ _ _ Hc).
  - cbn [cpu_next core]. rewrite Hh'. done.
Qed.

(** Between instructions the port is quiet. *)
Lemma quiet_cycle s m r m' o' :
  cm_st (adapter s) = cm_idle -> port_cycle (keeps P) (cpu_ask s) r (m, Idle) (m', o') -> o' = Idle /\ keeps P m m'.
Proof.
  intros Es Hc. apply port_idle in Hc as [_ Hc].
  assert (req_fire (cpu_ask s) r = false) as Ef by (unfold req_fire, cpu_ask, coremem_ask; cbn [a_valid]; rewrite Es; done).
  rewrite Ef in Hc. destruct Hc as [-> Ha%alone_keeps]. done.
Qed.

Lemma adapter_stays s r : cm_st (adapter s) = cm_idle -> a_valid (core_ask true (core s)) = false ->
  coremem_next (adapter s) (core_ask true (core s)) r = adapter s.
Proof. intros Es Ev. unfold coremem_next, req_fire. by rewrite Es, Ev. Qed.

(** The position of the adapter in an access. *)
Definition phase (s : cpu_lane) : nat :=
  match cm_st (adapter s) with cm_idle => 0 | cm_rdreq => 1 | cm_rdresp => 2 | cm_wrreq => 3 | cm_wrresp => 4 | cm_rsp => 5 end.

(** A cycle in which the lane stays on its instruction: it halts there, or the
    access moves on unless it stalls. *)
Definition stays_on (s s' : cpu_lane) (r : Reply) : Prop :=
  halted (core s') = true \/ (phase s <= phase s')%nat /\ (stalled (cpu_ask s) r = false -> (phase s < phase s')%nat).

Lemma access_moves s io r :
  cm_st (adapter s) <> cm_idle -> cm_st (adapter s) <> cm_rsp -> stays_on s (cpu_next s io r) r.
Proof.
  intros H1 H2. right. unfold phase, stalled, cpu_next, coremem_next. cbn [adapter]. change (coremem_ask (adapter s)) with (cpu_ask s).
  destruct (cm_st (adapter s)) eqn:Es; try done;
    unfold req_fire, resp_fire, cpu_ask, coremem_ask; rewrite Es; cbn [a_valid a_ready]; decide_closed;
    destruct (r_ready r), (r_valid r), (isWrReg (adapter s)); cbn; rewrite ?Es; (split; [lia | intros; first [done | lia]]).
Qed.

Lemma step_instr s m h io r m' o' :
  core_at (core s) h (h_pc h) false -> cm_st (adapter s) = cm_idle -> mem_rel P m (h_mem h) -> (halted (core s) = true -> isa_halted h) ->
  lines_ok P m -> regs_ok (h_x h) -> isa_halted h \/ (exists h', isa_step h h') -> prog_we io = false ->
  port_cycle (keeps P) (cpu_ask s) r (m, Idle) (m', o') ->
  lines_ok P m' /\ exists h', (isa_step h h' \/ (h' = h /\ stays_on s (cpu_next s io r) r)) /\ lane_at (cpu_next s io r) m' o' h'.
Proof.
  intros Hc Es Hr Hh Hl Hx Hsafe Hio Hp. apply quiet_cycle in Hp as [-> Hk]; [|done].
  split; [by apply (keeps_lines m)|]. pose proof (keeps_rel m m' _ Hk Hr) as Hr'. destruct (halted (core s)) eqn:Eh.
  { exists h. pose proof (ask_idle (core s) h Hc (or_introl Eh)) as Ev.
    assert (core_next true (core s) io (coremem_word (adapter s)) = core s) as E.
    { unfold core_next. rewrite Eh, andb_false_r. apply boot_id; [apply Hc | done]. }
    unfold cpu_next. rewrite E, adapter_stays by done. split; [right; split; [done | by left]|]. apply at_instr; try done. cbn [core]. by rewrite Eh. }
  destruct Hsafe as [Hhalt | [h' [i Ef Hv Ha ->]]].
  - exists h. pose proof (ask_idle (core s) h Hc (or_intror (or_introl Hhalt))) as Ev.
    destruct (core_halts (core s) h io (coremem_word (adapter s)) Hc Eh Hio Hhalt) as [Hc' Hh'].
    unfold cpu_next. rewrite adapter_stays by done. split; [right; split; [done | by left] | by apply at_instr].
  - destruct (is_mem i) eqn:Em.
    + exists h. destruct (core_requests s h i io r Hc Eh Hio Es Ef Hv Em Ha Hx) as [K Est].
      split; [right; split; [done|]; right; unfold phase; rewrite Es, Est; lia|].
      apply (at_access _ _ _ _ i); [done|]. unfold progress. rewrite Est. done.
    + exists (rv32_exec i h). split; [left; by apply (isa_instr _ _ i)|].
      pose proof (ask_idle (core s) h Hc (or_intror (or_intror (ex_intro _ i (conj Ef (conj Hv (conj Em Hx))))))) as Ev.
      destruct (core_computes (core s) h i io (coremem_word (adapter s)) Hc Eh Hio Ef Hv Em Hx) as (Hc' & Hh' & Hmem).
      unfold cpu_next. rewrite adapter_stays by done. apply at_instr; try done; cbn [core]; [by rewrite Hmem | by rewrite Hh'].
Qed.

(** Every cycle of the lane executes one instruction or stays on it. *)
Lemma lane_step s m o h io r m' o' :
  lane_inv s m o h -> isa_halted h \/ (exists h', isa_step h h') -> prog_we io = false ->
  port_cycle (keeps P) (cpu_ask s) r (m, o) (m', o') ->
  exists h', (isa_step h h' \/ (h' = h /\ stays_on s (cpu_next s io r) r)) /\ lane_inv (cpu_next s io r) m' o' h'.
Proof.
  intros [Hat Hl Hx] Hsafe Hio Hp. destruct Hat as [Hc Es -> Hr Hh | i K Hpr].
  - destruct (step_instr s m h io r m' o' Hc Es Hr Hh Hl Hx Hsafe Hio Hp) as (Hl' & h' & Hh' & Hat'). exists h'. split; [done|]. split; try done.
    destruct Hh' as [[i Ef Hv Ha ->] | [-> _]]; [by apply (exec_regs i h m) | done].
  - destruct (decide (cm_st (adapter s) = cm_rsp)) as [Es|Es].
    + destruct (step_rsp s m o h i io r m' o' K Hpr Es Hl Hio Hx Hp) as [Hl' Hat']. exists (rv32_exec i h).
      split; [left; apply (isa_instr _ _ i); [apply K..|done]|]. split; try done.
      destruct (is_store i) eqn:Est; [by destruct i|]. apply (exec_regs i h m); try apply K; [done|].
      unfold progress in Hpr. rewrite Es in Hpr. destruct Hpr as (_ & Hr & _). pose proof (if_mem _ _ _ K). by destruct i.
    + exists h. assert (cm_st (adapter s) <> cm_idle) as Hni by (intros E; unfold progress in Hpr; by rewrite E in Hpr).
      split; [right; split; [done | by apply access_moves]|].
      assert (lines_ok P m' /\ lane_at (cpu_next s io r) m' o' h) as [Hl' Hat']; [|by split].
      destruct (cm_st (adapter s)) eqn:Est; try done.
      * by eapply step_rdreq.
      * by eapply step_rdresp.
      * by eapply step_wrreq.
      * by eapply step_wrresp.
Qed.

(** ** Runs of the lane *)

(** A cycle on any line port whose other users keep off the lines of [P]. *)
Definition lane_cycle (x y : cpu_lane * lines * outstanding) : Prop :=
  exists io r, prog_we io = false /\ port_cycle (keeps P) (cpu_ask (fst (fst x))) r (snd (fst x), snd x) (snd (fst y), snd y) /\
    fst (fst y) = cpu_next (fst (fst x)) io r.

Lemma lane_runs x y h0 :
  lane_inv (fst (fst x)) (snd (fst x)) (snd x) h0 -> isa_safe h0 -> rtc lane_cycle x y ->
  exists h, rtc isa_step h0 h /\ lane_inv (fst (fst y)) (snd (fst y)) (snd y) h.
Proof.
  intros Hi Hs R. revert h0 Hi Hs. induction R as [x | x y z (io & r & Hio & Hp & Ey) R IH]; intros h0 Hi Hs; [by exists h0|].
  destruct (lane_step _ _ _ h0 io r _ _ Hi (Hs h0 (rtc_refl _ _)) Hio Hp) as (h1 & Hh & Hi'). rewrite <- Ey in Hi'.
  assert (rtc isa_step h0 h1) as Hr by (destruct Hh as [Hst | [-> _]]; [by apply rtc_once | done]).
  destruct (IH h1 Hi') as (h & Hr' & Hl); [intros h' Hr'; apply Hs; by etrans|]. exists h. split; [by etrans | done].
Qed.

(** ** Progress of the lane *)

Lemma isa_step_det h h1 h2 : isa_step h h1 -> isa_step h h2 -> h1 = h2.
Proof. intros [i E _ _ ->] [j E' _ _ ->]. rewrite E in E'. by injection E' as ->. Qed.

Lemma halted_stops h h' : isa_halted h -> ~ isa_step h h'.
Proof. intros Hh [i E _ _ _]. unfold isa_halted in Hh. congruence. Qed.

(** The handshakes and the cycles that remain of [n] instructions and the halt. *)
Definition lane_left (s : cpu_lane) (n : nat) : nat := if halted (core s) then 0 else 1 + 6 * n - phase s.

Lemma phase_le s : (phase s <= 5)%nat.
Proof. unfold phase. destruct (cm_st (adapter s)); lia. Qed.

Lemma lane_left_pos s m o h n hf :
  lane_inv s m o h -> nsteps isa_step n h hf -> isa_halted hf -> halted (core s) = false -> (0 < lane_left s n)%nat.
Proof.
  intros [[Hc Es _ _ _ | i K _] _ _] Hn Hf Hh; unfold lane_left; rewrite Hh.
  - unfold phase. rewrite Es. lia.
  - pose proof (phase_le s). destruct n as [|n]; [|lia]. inversion Hn; subst. pose proof (if_fetch _ _ _ K). unfold isa_halted in Hf. congruence.
Qed.

Lemma lane_moves s m o h n hf io r m' o' :
  lane_inv s m o h -> nsteps isa_step n h hf -> isa_halted hf -> halted (core s) = false -> prog_we io = false ->
  port_cycle (keeps P) (cpu_ask s) r (m, o) (m', o') ->
  exists h' n', lane_inv (cpu_next s io r) m' o' h' /\ nsteps isa_step n' h' hf /\
    (lane_left (cpu_next s io r) n' <= lane_left s n)%nat /\
    (stalled (cpu_ask s) r = false -> (lane_left (cpu_next s io r) n' < lane_left s n)%nat).
Proof.
  intros Hi Hn Hf Hh Hio Hp. pose proof (lane_left_pos s m o h n hf Hi Hn Hf Hh) as Hpos.
  assert (isa_halted h \/ exists h', isa_step h h') as Hs by (inversion Hn; subst; [by left | right; by eexists]).
  destruct (lane_step s m o h io r m' o' Hi Hs Hio Hp) as (h' & Hh' & Hi'). exists h'.
  pose proof (phase_le s). pose proof (phase_le (cpu_next s io r)). destruct Hh' as [Hst | [-> Hst]].
  - destruct n as [|n]; [inversion Hn; subst; by destruct (halted_stops hf h')|]. inversion Hn as [|? ? h1 ? Hst' Hn']; subst.
    rewrite (isa_step_det _ _ _ Hst Hst') in *. exists n. split; [done|]. split; [done|].
    unfold lane_left in *. rewrite Hh in *. destruct (halted (core (cpu_next s io r))); lia.
  - exists n. split; [done|]. split; [done|]. unfold lane_left in *. rewrite Hh in *.
    destruct Hst as [-> | [H1 H2]]; [lia|]. destruct (halted (core (cpu_next s io r))); [lia|]. split; [lia|]. intros E. specialize (H2 E). lia.
Qed.
End Lane.

(** Safety of a program that halts, by running it. *)
Fixpoint safe_for (prog : list (option rv_instr)) (pb : Z -> bool) (n : nat) (h : hart) : bool :=
  match fetch prog h with
  | None => true
  | Some i =>
      match n with
      | O => false
      | S n =>
          @rv32_ok i &&
          match i with
          | rv_load o _ r off => let a := u32 (vget (h_x h) r + off) in pb (line_of a) && (slice a 0 6 + ld_bytes o <=? 64)
          | rv_store o r2 r off =>
              let a := u32 (vget (h_x h) r + off) in
              pb (line_of a) && (slice a 0 6 + st_bytes o <=? 64) && (vget (h_x h) r2 <? 2 ^ (8 * st_bytes o))
          | _ => true
          end && safe_for prog pb n (rv32_exec i h)
      end
  end.

Lemma safe_for_safe prog pb n h : safe_for prog pb n h = true -> isa_safe prog (fun l => pb l = true) h.
Proof.
  revert h. induction n as [|n IH]; intros h Hs h' R; cbn [safe_for] in Hs.
  - destruct (fetch prog h) eqn:Ef; [done|]. inversion R as [|? ? ? [i Ei]]; subst; [by left | congruence].
  - destruct (fetch prog h) as [i|] eqn:Ef; cycle 1.
    { inversion R as [|? ? ? [i Ei]]; subst; [by left | congruence]. }
    apply andb_prop in Hs as [[Hv Ha]%andb_prop Hs].
    inversion R as [|? h1 ? [j Ej Hv' Ha' ->] R']; subst.
    + right. exists (rv32_exec i h'). apply (isa_instr _ _ _ _ i); try done. unfold access_ok.
      destruct i; try done; rewrite ?andb_true_iff in Ha; destruct_and? Ha; split_and!; try done; lia.
    + rewrite Ef in Ej. injection Ej as <-. by apply (IH (rv32_exec i h)).
Qed.

(** ** Properties *)

(** C11. The CPU lane executes RV32I.  A program run by the core through its
    adapter on any line port, with any latency and whatever other agents do
    outside the lines it uses: after any number of cycles the registers are those
    the instruction set gives after some number of instructions; between memory
    accesses so are the program counter and the bytes of the lines; and the core
    halts only where the program does.  The program keeps to what [isa_safe]
    allows: the instructions of RV32I other than [ecall], [ebreak] and a [jal]
    with a negative offset ([rv32_ok]), loads and stores that stay inside one
    line, a line of [P], and byte or halfword stores of registers whose value
    fits ([access_ok]).  The program memory is not written meanwhile and the
    other agents stay off the lines of [P]; both are part of [lane_cycle]. *)
Theorem cpu_runs_isa prog P s0 m0 h0 s m o :
  length prog = 256%nat -> core_at prog (core s0) h0 (h_pc h0) false -> halted (core s0) = false -> cm_st (adapter s0) = cm_idle ->
  mem_rel P m0 (h_mem h0) -> lines_ok P m0 -> regs_ok (h_x h0) -> isa_safe prog P h0 ->
  rtc (lane_cycle P) (s0, m0, Idle) (s, m, o) ->
  exists h, rtc (isa_step prog P) h0 h /\ rf (core s) = h_x h /\
    (memWait (core s) = false -> pc (core s) = h_pc h /\ mem_rel P m (h_mem h)) /\
    (halted (core s) = true -> isa_halted prog h).
Proof.
  intros Hlen Hc Hh Es Hr Hl Hx Hs R.
  destruct (lane_runs prog Hlen P (s0, m0, Idle) (s, m, o) h0) as (h & Hrun & [Hat _ _]); try done.
  { split; try done. apply at_instr; try done. cbn. by rewrite Hh. }
  exists h. split; [done|]. cbn [fst snd] in Hat. destruct Hat as [Hc' _ _ Hr' Hh' | i K _].
  - split; [apply Hc'|]. split; [|done]. intros _. split; [apply Hc' | done].
  - pose proof (if_core _ _ _ _ _ K) as Hc'. split; [apply Hc'|]. rewrite (ca_wait _ _ _ _ _ Hc'), (if_halted _ _ _ _ _ K). done.
Qed.

(** ** Programs that halt *)

(** A lane about to execute the first instruction of a program. *)
Record cpu_starts (prog : list (option rv_instr)) (P : Z -> Prop) (s : cpu_lane) (m : lines) (h : hart) : Prop := {
  cs_prog : length prog = 256%nat;
  cs_core : core_at prog (core s) h (h_pc h) false;
  cs_halted : halted (core s) = false;
  cs_idle : cm_st (adapter s) = cm_idle;
  cs_mem : mem_rel P m (h_mem h);
  cs_lines : lines_ok P m;
  cs_regs : regs_ok (h_x h)
}.

Lemma starts_inv prog P s m h : cpu_starts prog P s m h -> lane_inv prog P s m Idle h.
Proof. intros [H1 H2 H3 H4 H5 H6 H7]. split; try done. apply at_instr; try done. by rewrite H3. Qed.

(** When the instruction set runs [n] supported instructions and halts, the
    lane, on a port that never stalls it for [D] cycles in a row, halts within
    [(6 n + 1) D] cycles, with the registers, the program counter and the bytes
    of its lines the instruction set ends with. *)
Lemma cpu_finishes D prog P (s : nat -> cpu_lane) (ins : nat -> core_in) r can m0 h0 n hf :
  (forall t, s (S t) = cpu_next (s t) (ins t) (r t)) -> (forall t, prog_we (ins t) = false) -> serves P (fun t => cpu_ask (s t)) r can ->
  can 0%nat m0 Idle -> cpu_starts prog P (s 0%nat) m0 h0 -> nsteps (isa_step prog P) n h0 hf -> isa_halted prog hf ->
  prompt D (fun t => cpu_ask (s t)) r ->
  exists T m, (T <= D * (6 * n + 1))%nat /\ can T m Idle /\
    halted (core (s T)) = true /\ (forall t, (t < T)%nat -> halted (core (s t)) = false) /\
    rf (core (s T)) = h_x hf /\ pc (core (s T)) = h_pc hf /\ mem_rel P m (h_mem hf).
Proof.
  intros Hnext Hio Hserv Hcan Hst Hn Hf Hpr. pose proof (cs_prog _ _ _ _ _ Hst) as Hlen. pose proof (starts_inv _ _ _ _ _ Hst) as Hi0.
  destruct (prompt_finishes D (fun t => cpu_ask (s t)) r
    (fun t k => exists m o h j, can t m o /\ lane_inv prog P (s t) m o h /\ nsteps (isa_step prog P) j h hf /\ k = lane_left (s t) j)
    (fun t => halted (core (s t)) = true) Hpr) with (t := 0%nat) (k := (6 * n + 1)%nat) as (T & k & HT & Hfin & (m & o & h & j & Hc & Hi & Hj & _) & Hno).
  - intros t k (m & o & h & j & Hc & Hi & Hj & ->) Hb. apply not_true_iff_false in Hb. split; [by eapply lane_left_pos|].
    destruct (Hserv _ _ _ Hc) as (m' & o' & Hc' & H).
    destruct (lane_moves prog Hlen P _ _ _ h j hf _ _ _ _ Hi Hj Hf Hb (Hio t) H) as (h' & j' & Hi' & Hj' & H2 & H3).
    rewrite <- Hnext in Hi', H2, H3. eexists. split; [by exists m', o', h', j' | done].
  - exists m0, Idle, h0, n. split_and!; try done. unfold lane_left, phase. rewrite (cs_halted _ _ _ _ _ Hst), (cs_idle _ _ _ _ _ Hst). lia.
  - destruct Hi as [[Hco _ -> Hm Hh | i K _] _ _]; [|by rewrite (if_halted _ _ _ _ _ K) in Hfin]. exists T, m. split; [lia|]. split; [done|].
    split; [done|]. split; [intros t Ht; apply not_true_iff_false, Hno; lia|].
    assert (h = hf) as <- by (inversion Hj; subst; [done | by edestruct halted_stops; [apply Hh|]]). split_and!; try done; apply Hco.
Qed.

Definition demo_prog : list (option rv_instr) :=
  [Some (rv_opi i_addi 1 0 5); Some (rv_store st_sw 1 0 8); Some (rv_load l_lw 2 0 8)] ++ replicate 253 None.
Definition demo_cpu : cpu_lane :=
  MkCpu (MkCore (word_of <$> demo_prog) (replicate 256 0) (replicate 32 0) 0 true false false (MkLoad 0 0 false false false) false 0 false) coremem_reset.

(** The first cycle of a program that stores and loads a word. *)
Lemma cpu_runs_isa_witness :
  let s := cpu_next demo_cpu (MkCoreIn false 0 0 false) (MkReply false false 0) in
  exists h, rtc (isa_step demo_prog (fun l => (l =? 0) = true)) (MkHart (replicate 32 0) 0 (fun _ => 0)) h /\ rf (core s) = h_x h /\
    (memWait (core s) = false -> pc (core s) = h_pc h /\ mem_rel (fun l => (l =? 0) = true) (fun _ => 0) (h_mem h)) /\
    (halted (core s) = true -> isa_halted demo_prog h).
Proof.
  apply (cpu_runs_isa demo_prog (fun l => (l =? 0) = true) demo_cpu (fun _ => 0) (MkHart (replicate 32 0) 0 (fun _ => 0)) _ (fun _ => 0) Idle).
  - reflexivity.
  - split; reflexivity.
  - reflexivity.
  - reflexivity.
  - intros y _ _. cbn. unfold slice. by rewrite Zdiv_0_l, Zmod_0_l.
  - intros l _ _. lia.
  - split; [reflexivity|]. apply Forall_replicate. lia.
  - apply (safe_for_safe _ _ 3). vm_compute. reflexivity.
  - apply rtc_once. exists (MkCoreIn false 0 0 false), (MkReply false false 0). split; [done|]. split; [|done].
    exists Idle. split; [done|]. apply commits_none.
Defined.
