(* ===== verification/GpuLane.v ===== *)
(** * The GPU lane — [src/main/scala/aegis/gpu/GPUL2Cache.scala],
      [src/main/scala/aegis/bridge/AXIToMemReq.scala]

    The L2 front end serves its clusters one at a time with single-beat AXI
    transactions, and the adapter turns each into requests on a line port; a
    write that does not cover the line is a read, a merge and a write.  The file
    models both modules and shows that together, as [Top] connects them, they
    give every cluster a line port onto the same memory. *)

From S2P Require Import Prelude Isa Fabric.

(** ** [GPUL2Cache] *)

Variant l2_state := l2_idle | l2_aw | l2_wd | l2_bwait | l2_wack | l2_ar | l2_rc | l2_resp.

#[global] Instance l2_state_eq_dec : EqDecision l2_state.
Proof. solve_decision. Defined.

Record GPUL2Cache := MkL2 {
  last : Z; l2_st : l2_state; sel_r : Z; addr_r : Z; wdata_r : Z; rdata_r : Z; isW_r : bool }.

Definition l2_reset : GPUL2Cache := MkL2 0 l2_idle 0 0 0 0 false.

(** The requesters after the one served last, then the others. *)
Definition l2_lower (s : GPUL2Cache) (v : list bool) : list bool := imap (fun i b => (last s <? Z.of_nat i) && b) v.
Definition l2_upper (s : GPUL2Cache) (v : list bool) : list bool := imap (fun i b => (Z.of_nat i <=? last s) && b) v.
Definition some_bit (l : list bool) : bool := existsb (fun b => b) l.
Definition l2_any (s : GPUL2Cache) (v : list bool) : bool := some_bit (l2_lower s v) || some_bit (l2_upper s v).
Definition l2_sel (s : GPUL2Cache) (v : list bool) : Z :=
  if some_bit (l2_lower s v) then PriorityEncoder (l2_lower s v) else PriorityEncoder (l2_upper s v).

Definition valids (cl : list (Ask MemReq)) : list bool := a_valid <$> cl.

(** What the cache drives on cluster [i]. *)
Definition l2_reply (s : GPUL2Cache) (cl : list (Ask MemReq)) (i : nat) : Reply :=
  MkReply (bool_decide (l2_st s = l2_idle) && (Z.of_nat i =? l2_sel s (valids cl)))
    ((bool_decide (l2_st s = l2_wack) || bool_decide (l2_st s = l2_resp)) && (Z.of_nat i =? sel_r s))
    (if isW_r s then 0 else rdata_r s).

Definition l2_axi (s : GPUL2Cache) : AxiMaster :=
  MkAxiM 0 (addr_r s) 0 6 0 (bool_decide (l2_st s = l2_aw)) (wdata_r s) (2 ^ 64 - 1) true (bool_decide (l2_st s = l2_wd))
    (bool_decide (l2_st s = l2_bwait)) 0 (addr_r s) 0 6 0 (bool_decide (l2_st s = l2_ar)) (bool_decide (l2_st s = l2_rc)).

Definition set_l2 (s : GPUL2Cache) (st : l2_state) : GPUL2Cache :=
  MkL2 (last s) st (sel_r s) (addr_r s) (wdata_r s) (rdata_r s) (isW_r s).

Definition l2_next (s : GPUL2Cache) (cl : list (Ask MemReq)) (x : AxiSlave) : GPUL2Cache :=
  let v := valids cl in
  let sel := l2_sel s v in
  let onehot := imap (fun i _ => Z.of_nat i =? sel) cl in
  let resp_taken := resp_fire (nth (Z.to_nat (sel_r s)) cl (MkAsk false (MkMemReq 0 0 false 0) false)) (l2_reply s cl (Z.to_nat (sel_r s))) in
  match l2_st s with
  | l2_idle =>
      if l2_any s v then
        MkL2 sel
          (if some_bit (zip_with andb onehot ((fun a => q_isWrite (a_bits a)) <$> cl)) then l2_aw else l2_ar)
          sel (Mux1H onehot ((fun a => q_addr (a_bits a)) <$> cl)) (Mux1H onehot ((fun a => q_data (a_bits a)) <$> cl))
          (rdata_r s) (isW_r s)
      else s
  | l2_aw => if AWREADY x then set_l2 s l2_wd else s
  | l2_wd => if WREADY x then set_l2 s l2_bwait else s
  | l2_bwait => if BVALID x then set_l2 s l2_wack else s
  | l2_wack => if resp_taken then set_l2 s l2_idle else s
  | l2_ar => if ARREADY x then set_l2 s l2_rc else s
  | l2_rc => if RVALID x then MkL2 (last s) l2_resp (sel_r s) (addr_r s) (wdata_r s) (RDATA x) (isW_r s) else s
  | l2_resp => if resp_taken then set_l2 s l2_idle else s
  end.

(** ** [AXIToMemReq] *)

Variant axi_state :=
  | x_idle | x_wwait | x_wreq | x_wwrsp | x_wrespo | x_areq | x_aresp | x_rvalid | x_wrmw | x_wldrsp.

#[global] Instance axi_state_eq_dec : EqDecision axi_state.
Proof. solve_decision. Defined.

Record AXIToMemReq := MkAxi {
  x_st : axi_state; x_addr : Z; x_wdata : Z; x_wmask : Z; x_rdata : Z; x_awid : Z; x_arid : Z }.

(** The registers without a reset value hold anything. *)
Definition axi_reset (a w k r i j : Z) : AXIToMemReq := MkAxi x_idle a w k r i j.

Definition nbyte : Z := 64.
Definition allOnes : Z := 2 ^ nbyte - 1.

(** [FillInterleaved(8, mask)] *)
Fixpoint fill_bytes (n : nat) (mask : Z) : Z :=
  match n with O => 0 | S n => slice mask 0 1 * 255 + 2 ^ 8 * fill_bytes n (mask / 2) end.
Definition maskUp (mask : Z) : Z := fill_bytes (Z.to_nat nbyte) mask.

Definition mergedW (s : AXIToMemReq) : Z :=
  Z.lor (Z.land (x_rdata s) (lnot_w 512 (maskUp (x_wmask s)))) (Z.land (x_wdata s) (maskUp (x_wmask s))).

Definition axi_reply (s : AXIToMemReq) (x : AxiMaster) : AxiSlave :=
  let idle := bool_decide (x_st s = x_idle) in
  let rv := bool_decide (x_st s = x_rvalid) in
  MkAxiS (idle && AWVALID x) (bool_decide (x_st s = x_wwait)) (x_awid s) 0 (bool_decide (x_st s = x_wrespo))
    (idle && negb (AWVALID x) && ARVALID x) (x_arid s) (if rv then x_rdata s else 0) 0 rv rv.

Definition axi_ask (s : AXIToMemReq) : Ask MemReq :=
  let req d w := MkMemReq (x_addr s) d w 6 in
  match x_st s with
  | x_wreq => MkAsk true (req (if x_wmask s =? allOnes then x_wdata s else mergedW s) true) false
  | x_areq | x_wrmw => MkAsk true (req 0 false) false
  | x_wwrsp | x_aresp | x_wldrsp => MkAsk false (req (x_wdata s) false) true
  | _ => MkAsk false (req (x_wdata s) false) false
  end.

Definition set_axi (s : AXIToMemReq) (st : axi_state) : AXIToMemReq :=
  MkAxi st (x_addr s) (x_wdata s) (x_wmask s) (x_rdata s) (x_awid s) (x_arid s).
Definition axi_data (s : AXIToMemReq) (st : axi_state) (d : Z) : AXIToMemReq :=
  MkAxi st (x_addr s) (x_wdata s) (x_wmask s) d (x_awid s) (x_arid s).

Definition axi_next (s : AXIToMemReq) (x : AxiMaster) (r : Reply) : AXIToMemReq :=
  match x_st s with
  | x_idle =>
      if AWVALID x then MkAxi x_wwait (AWADDR x) (x_wdata s) (x_wmask s) (x_rdata s) (AWID x) (x_arid s)
      else if ARVALID x then MkAxi x_areq (ARADDR x) (x_wdata s) (x_wmask s) (x_rdata s) (x_awid s) (ARID x)
      else s
  | x_wwait =>
      if WVALID x then
        MkAxi (if WSTRB x =? allOnes then x_wreq else x_wrmw) (x_addr s) (WDATA x) (WSTRB x) (x_rdata s) (x_awid s) (x_arid s)
      else s
  | x_wreq => if req_fire (axi_ask s) r then set_axi s x_wwrsp else s
  | x_wwrsp => if r_valid r then set_axi s x_wrespo else s
  | x_wrespo => if BREADY x then set_axi s x_idle else s
  | x_areq => if req_fire (axi_ask s) r then set_axi s x_aresp else s
  | x_aresp => if r_valid r then axi_data s x_rvalid (r_bits r) else s
  | x_rvalid => if RREADY x then set_axi s x_idle else s
  | x_wrmw => if req_fire (axi_ask s) r then set_axi s x_wldrsp else s
  | x_wldrsp => if r_valid r then axi_data s x_wreq (r_bits r) else s
  end.

(** ** Partial writes *)

Lemma fill_bytes_testbit n mask i : 0 <= i ->
  Z.testbit (fill_bytes n mask) i = (i <? 8 * Z.of_nat n) && Z.testbit mask (i / 8).
Proof.
  revert mask i. induction n as [|n IH]; intros mask i Hi; cbn [fill_bytes].
  { rewrite Z.bits_0, (proj2 (Z.ltb_ge i _)) by lia. done. }
  pose proof (slice_range mask 0 1 ltac:(lia)) as Hb. rewrite testbit_radix by lia.
  assert (Z.testbit mask 0 = (slice mask 0 1 =? 1)) as E0.
  { unfold slice. rewrite Z.pow_0_r, Z.div_1_r. change (2 ^ 1) with 2. rewrite <- Z.bit0_mod. by destruct (Z.testbit mask 0). }
  destruct (Z.ltb_spec i 8).
  - rewrite (Z.div_small i 8), E0, (proj2 (Z.ltb_lt i _)) by lia. cbn [andb].
    assert (slice mask 0 1 = 0 \/ slice mask 0 1 = 1) as [-> | ->] by lia; cbn [Z.mul Z.eqb]; [apply Z.bits_0|].
    change (1 * 255) with (Z.ones 8). by rewrite Z.ones_spec_low by lia.
  - rewrite IH by lia. f_equal.
    + destruct (Z.ltb_spec (i - 8) (8 * Z.of_nat n)); symmetry; [apply Z.ltb_lt | apply Z.ltb_ge]; lia.
    + change (mask / 2) with (mask / 2 ^ 1). rewrite <- (Z.shiftr_div_pow2 mask 1), Z.shiftr_spec by (try apply Z.div_pos; lia). f_equal.
      replace i with (i - 8 + 1 * 8) at 2 by lia. rewrite Z.div_add by lia. lia.
Qed.

(** Byte [j] of the merged line. *)
Lemma mergedW_byte s j : 0 <= j < 64 -> 0 <= x_rdata s < 2 ^ 512 -> 0 <= x_wdata s < 2 ^ 512 ->
  slice (mergedW s) (8 * j) 8 = slice (if Z.testbit (x_wmask s) j then x_wdata s else x_rdata s) (8 * j) 8.
Proof.
  intros Hj Hr Hw. apply Z.bits_inj'. intros i Hi. rewrite !slice_testbit by lia. destruct (Z.ltb_spec i 8); [|done]. cbn [andb].
  unfold mergedW, maskUp, lnot_w. rewrite Z.lor_spec, !Z.land_spec, Z.lxor_spec, Z.ones_spec_low by lia.
  rewrite fill_bytes_testbit by lia. change (8 * Z.of_nat (Z.to_nat nbyte)) with 512.
  rewrite (proj2 (Z.ltb_lt _ _)) by lia. replace ((8 * j + i) / 8) with j by (apply (Z.div_unique _ _ _ i); lia).
  destruct (Z.testbit (x_wmask s) j); cbn; by rewrite ?andb_true_r, ?andb_false_r, ?orb_false_r.
Qed.

Section Write.
Context (A D K L0 : Z).
Context (D_range : 0 <= D < 2 ^ 512) (K_range : 0 <= K < 2 ^ 64) (L0_range : 0 <= L0 < 2 ^ 512).

#[local] Abbreviation l := (line_of A).

(** Other agents leave the line of the write alone. *)
Definition keeps_line (m m' : lines) : Prop := m' l = m l.

Definition merged_line (v : Z) : Prop :=
  forall j, 0 <= j < 64 -> slice v (8 * j) 8 = slice (if Z.testbit K j then D else L0) (8 * j) 8.

Record write_regs (s : AXIToMemReq) : Prop := { wr_addr : x_addr s = A; wr_data : x_wdata s = D; wr_mask : x_wmask s = K }.

(** The states of a write transaction after its data beat. *)
Definition write_at (s : AXIToMemReq) (m : lines) (o : outstanding) : Prop :=
  write_regs s /\
  match x_st s with
  | x_wrmw => o = Idle /\ m l = L0
  | x_wldrsp => m l = L0 /\ match o with Idle => False | Accepted q => q_isWrite q = false /\ q_addr q = A | Answered d => d = L0 end
  | x_wreq => o = Idle /\ m l = L0 /\ (K = allOnes \/ x_rdata s = L0)
  | x_wwrsp =>
      match o with
      | Idle => False
      | Accepted q => q_isWrite q = true /\ q_addr q = A /\ merged_line (q_data q)
      | Answered _ => merged_line (m l)
      end
  | x_wrespo => o = Idle /\ merged_line (m l)
  | _ => False
  end.

Definition axi_cycle (y z : AXIToMemReq * lines * outstanding) : Prop :=
  exists x r, x_st (fst (fst y)) <> x_wrespo /\
    port_cycle keeps_line (axi_ask (fst (fst y))) r (snd (fst y), snd y) (snd (fst z), snd z) /\
    fst (fst z) = axi_next (fst (fst y)) x r.

Lemma alone_line m m' : left_alone keeps_line m m' -> m' l = m l.
Proof. by intros [-> | H]. Qed.

Lemma full_mask_merges : K = allOnes -> merged_line D.
Proof. intros E j Hj. rewrite E. change allOnes with (Z.ones 64). by rewrite Z.ones_spec_low by lia. Qed.

Lemma write_request s : write_regs s -> x_st s = x_wreq -> K = allOnes \/ x_rdata s = L0 ->
  q_isWrite (a_bits (axi_ask s)) = true /\ q_addr (a_bits (axi_ask s)) = A /\ merged_line (q_data (a_bits (axi_ask s))).
Proof.
  intros [Ha Hd Hk] Es Hr. unfold axi_ask. rewrite Es. cbn [a_bits q_isWrite q_addr q_data]. split; [done|]. split; [done|].
  rewrite Hk, Hd. destruct (Z.eqb_spec K allOnes); [by apply full_mask_merges|]. destruct Hr as [? | Hr]; [done|].
  intros j Hj. rewrite mergedW_byte by (rewrite ?Hr, ?Hd; done). by rewrite Hk, Hd, Hr.
Qed.

(** A state of the transaction is followed by one. *)
Lemma write_step y z : axi_cycle y z -> write_at (fst (fst y)) (snd (fst y)) (snd y) -> write_at (fst (fst z)) (snd (fst z)) (snd z).
Proof.
  destruct y as [[s m] o], z as [[s' m'] o']. intros (x & r & Hne & Hp & ->) [Hw Hat]. cbn [fst snd] in *.
  unfold write_at, axi_next. destruct (x_st s) eqn:Es; try done.
  - destruct Hat as (-> & Hm & Hr). apply port_idle in Hp as [_ Hp]. destruct (write_request s Hw Es Hr) as (W1 & W2 & W3).
    destruct (req_fire (axi_ask s) r).
    + split; [by destruct Hw|]. cbn [x_st set_axi]. destruct Hp as [[-> Ha%alone_line] | (d & -> & -> & Hd)]; [done|].
      unfold perform. rewrite W1, W2, Z.eqb_refl. done.
    + destruct Hp as [-> Ha%alone_line]. split; [done|]. rewrite Es, Ha. done.
  - destruct o as [|q|d]; [done|..].
    + apply port_accepted in Hp as (_ & -> & Hp). split; [done|]. rewrite Es. destruct Hat as (Q1 & Q2 & Q3).
      destruct Hp as [[-> Ha%alone_line] | (d & -> & -> & Hd)]; [done|]. unfold perform. rewrite Q1, Q2, Z.eqb_refl. done.
    + apply port_answered in Hp as (_ & _ & Ha%alone_line & ->). rewrite <- Ha in Hat. unfold resp_fire. unfold axi_ask. rewrite Es. cbn [a_ready].
      rewrite andb_true_r. destruct (r_valid r); (split; [by destruct Hw|]); cbn [x_st set_axi]; rewrite ?Es; done.
  - destruct Hat as [-> Hm]. apply port_idle in Hp as [_ Hp].
    assert (q_isWrite (a_bits (axi_ask s)) = false /\ q_addr (a_bits (axi_ask s)) = A) as [W1 W2] by (unfold axi_ask; rewrite Es; split; [done | apply Hw]).
    destruct (req_fire (axi_ask s) r).
    + split; [by destruct Hw|]. cbn [x_st set_axi]. destruct Hp as [[-> Ha%alone_line] | (d & -> & -> & Hd)]; [by rewrite Ha|].
      unfold perform. rewrite W1. split; [done|]. rewrite (Hd W1), W2. done.
    + destruct Hp as [-> Ha%alone_line]. split; [done|]. rewrite Es, Ha. done.
  - destruct Hat as [Hm Hat]. destruct o as [|q|d]; [done|..].
    + apply port_accepted in Hp as (_ & -> & Hp). split; [done|]. rewrite Es. destruct Hat as (Q1 & Q2).
      destruct Hp as [[-> Ha%alone_line] | (d & -> & -> & Hd)]; [by rewrite Ha|]. unfold perform. rewrite Q1. split; [done|]. rewrite (Hd Q1), Q2. done.
    + apply port_answered in Hp as (_ & Hv & Ha%alone_line & ->). subst d. rewrite Ha. unfold resp_fire. unfold axi_ask. rewrite Es. cbn [a_ready].
      rewrite andb_true_r. destruct (r_valid r); (split; [by destruct Hw|]); cbn [x_st axi_data x_rdata]; rewrite ?Es; [|done].
      split; [done|]. split; [done|]. right. by apply Hv.
Qed.
End Write.

(** C21. A partial write changes exactly the bytes its strobe names.  On any line
    port, from the data beat of an AXI write to its response, with any latency
    and while nobody else writes the line: when the response is raised, every
    byte of the line is that of the beat where the strobe is set and the old one
    elsewhere.  The lane merges a partial beat by reading the line and writing
    it back, and does not lock it: the condition that no other port writes the
    line in between is part of [axi_cycle], and without it that port's write
    could be lost. *)
Theorem axi_write_merges s0 x0 r0 m0 s m o :
  let A := x_addr s0 in
  x_st s0 = x_wwait -> WVALID x0 = true -> 0 <= WDATA x0 < 2 ^ 512 -> 0 <= WSTRB x0 < 2 ^ 64 -> 0 <= m0 (line_of A) < 2 ^ 512 ->
  rtc (axi_cycle A) (axi_next s0 x0 r0, m0, Idle) (s, m, o) -> x_st s = x_wrespo ->
  forall j, 0 <= j < 64 ->
    slice (m (line_of A)) (8 * j) 8 = slice (if Z.testbit (WSTRB x0) j then WDATA x0 else m0 (line_of A)) (8 * j) 8.
Proof.
  intros A Es Hv Hd Hk Hm R Ho.
  assert (write_at A (WDATA x0) (WSTRB x0) (m0 (line_of A)) (axi_next s0 x0 r0) m0 Idle) as H0.
  { unfold write_at, axi_next. rewrite Es, Hv. split; [done|]. cbn [x_st]. destruct (Z.eqb_spec (WSTRB x0) allOnes); auto. }
  assert (write_at A (WDATA x0) (WSTRB x0) (m0 (line_of A)) s m o) as [_ H].
  { clear Ho. remember (axi_next s0 x0 r0, m0, Idle) as y eqn:Ey. remember (s, m, o) as z eqn:Ez.
    assert (write_at A (WDATA x0) (WSTRB x0) (m0 (line_of A)) (fst (fst y)) (snd (fst y)) (snd y)) as H1 by (by rewrite Ey).
    assert (write_at A (WDATA x0) (WSTRB x0) (m0 (line_of A)) (fst (fst z)) (snd (fst z)) (snd z)) as H2; [|by rewrite Ez in H2].
    clear Ey Ez H0. induction R as [|y y' z Hc R IH]; [done|]. apply IH. by eapply write_step. }
  rewrite Ho in H. apply H.
Qed.

(** A one-byte write over a line of ones. *)
Lemma axi_write_merges_witness :
  let x := MkAxiM 0 0 0 0 0 false 0xAB00 2 true true true 0 0 0 0 0 false true in
  exists s m o, rtc (axi_cycle 0x40) (axi_next (MkAxi x_wwait 0x40 0 0 0 0 0) x (MkReply false false 0), (fun _ : Z => 2 ^ 512 - 1), Idle) (s, m, o) /\
    x_st s = x_wrespo /\ slice (m 1) 8 8 = 0xAB /\ slice (m 1) 0 8 = 0xFF.
Proof.
  set (x := MkAxiM 0 0 0 0 0 false 0xAB00 2 true true true 0 0 0 0 0 false true). cbv zeta.
  set (s0 := MkAxi x_wwait 0x40 0 0 0 0 0). set (m0 := fun _ : Z => 2 ^ 512 - 1). set (r0 := MkReply false false 0).
  set (s1 := axi_next s0 x r0). set (rdy := MkReply true false 0).
  set (s2 := axi_next s1 x rdy). set (rsp := MkReply false true (2 ^ 512 - 1)).
  set (s3 := axi_next s2 x rsp). set (q := a_bits (axi_ask s3)).
  set (s4 := axi_next s3 x rdy). set (s5 := axi_next s4 x (MkReply false true 0)).
  exists s5, (perform m0 q), Idle.
  assert (rtc (axi_cycle 0x40) (s1, m0, Idle) (s5, perform m0 q, Idle)) as R.
  { apply (rtc_l _ _ (s2, m0, Answered (2 ^ 512 - 1))).
    { exists x, rdy. split; [discriminate|]. split; [|reflexivity]. exists (Accepted (a_bits (axi_ask s1))). split; [reflexivity|].
      apply (commits_own _ m0 (a_bits (axi_ask s1))). intros _. reflexivity. }
    apply (rtc_l _ _ (s3, m0, Idle)).
    { exists x, rsp. split; [discriminate|]. split; [|reflexivity]. exists Idle. split; [reflexivity|]. apply commits_none. }
    apply (rtc_l _ _ (s4, perform m0 q, Answered 0)).
    { exists x, rdy. split; [discriminate|]. split; [|reflexivity]. exists (Accepted q). split; [reflexivity|]. apply commits_own. discriminate. }
    apply rtc_once. exists x, (MkReply false true 0). split; [discriminate|]. split; [|reflexivity]. exists Idle. split; [reflexivity|]. apply commits_none. }
  pose proof (axi_write_merges s0 x r0 m0 s5 (perform m0 q) Idle eq_refl eq_refl ltac:(by vm_compute) ltac:(by vm_compute) ltac:(by vm_compute) R eq_refl) as H.
  split; [exact R|]. split; [reflexivity|]. split; [exact (H 1 ltac:(lia)) | exact (H 0 ltac:(lia))].
Defined.

(** ** Arbitration among the clusters *)

Lemma PriorityEncoder_first l : existsb (fun b => b) l = true -> exists k, PriorityEncoder l = Z.of_nat k /\ l !! k = Some true.
Proof.
  induction l as [|b l IH]; [done|]. cbn [existsb PriorityEncoder]. destruct b; [by exists 0%nat|]. cbn [orb]. intros H.
  destruct (IH H) as (k & E & Hk). exists (S k). destruct l; [done|]. rewrite E. split; [lia | done].
Qed.

Lemma l2_sel_valid s v : l2_any s v = true -> exists k, l2_sel s v = Z.of_nat k /\ v !! k = Some true.
Proof.
  unfold l2_any, l2_sel. intros H. destruct (some_bit (l2_lower s v)) eqn:E.
  - destruct (PriorityEncoder_first _ E) as (k & Ek & Hk). exists k. split; [done|]. unfold l2_lower in Hk.
    rewrite list_lookup_imap in Hk. destruct (v !! k) as [b|]; [|done]. injection Hk as Hk. apply andb_prop in Hk as [_ ->]. done.
  - destruct (PriorityEncoder_first _ H) as (k & Ek & Hk). exists k. split; [done|]. unfold l2_upper in Hk.
    rewrite list_lookup_imap in Hk. destruct (v !! k) as [b|]; [|done]. injection Hk as Hk. apply andb_prop in Hk as [_ ->]. done.
Qed.

Lemma l2_none_valid s v k : l2_any s v = false -> v !! k <> Some true.
Proof.
  unfold l2_any, some_bit. intros H Hk. apply orb_false_elim in H as [H1 H2].
  assert (forall f : nat -> bool -> bool, existsb (fun b => b) (imap f v) = false -> f k true = false) as G.
  { intros f Hf. apply not_true_is_false. intros Ht. apply not_true_iff_false in Hf. apply Hf. apply existsb_exists. exists true.
    split; [|done]. apply list_elem_of_In, list_elem_of_lookup. exists k. rewrite list_lookup_imap, Hk. cbn. by rewrite Ht. }
  pose proof (G _ H1) as G1. pose proof (G _ H2) as G2. cbn in G1, G2. rewrite andb_true_r in G1, G2. lia.
Qed.

Lemma Mux1H_none sl vals : Forall (fun b => b = false) sl -> Mux1H sl vals = 0.
Proof.
  unfold Mux1H. revert vals. induction sl as [|b sl IH]; intros vals Hs; [done|]. destruct vals as [|v vals]; [done|].
  apply list.Forall_cons in Hs as [-> Hs]. cbn [zip_with foldr]. by rewrite IH.
Qed.

(** One select line is high. *)
Definition one_hot (sl : list bool) (k : nat) : Prop := forall i b, sl !! i = Some b -> b = bool_decide (i = k).

Lemma one_hot_tail b sl k : one_hot (b :: sl) (S k) -> one_hot sl k.
Proof. intros H i c Hc. rewrite (H (S i) c Hc). apply bool_decide_ext. lia. Qed.

Lemma one_hot_zero b sl : one_hot (b :: sl) 0 -> Forall (fun c => c = false) sl.
Proof.
  intros H. apply list.Forall_lookup. intros i c Hc. rewrite (H (S i) c Hc). by apply bool_decide_eq_false.
Qed.

Lemma Mux1H_pick sl vals k v : one_hot sl k -> length sl = length vals -> vals !! k = Some v -> Mux1H sl vals = v.
Proof.
  revert vals k. induction sl as [|b sl IH]; intros [|w vals] [|k] Hs Hl Hv; try done.
  - injection Hv as ->. pose proof (Hs 0%nat b eq_refl) as Hb. rewrite bool_decide_true in Hb by done. subst b.
    unfold Mux1H. cbn [zip_with foldr]. change (foldr Z.lor 0 _) with (Mux1H sl vals).
    rewrite Mux1H_none by (by eapply one_hot_zero). apply Z.lor_0_r.
  - pose proof (Hs 0%nat b eq_refl) as Hb. rewrite bool_decide_false in Hb by done. subst b.
    unfold Mux1H. cbn [zip_with foldr]. rewrite Z.lor_0_l. apply (IH vals k); [by eapply one_hot_tail | by injection Hl | done].
Qed.

Lemma some_bit_pick sl vals k v : one_hot sl k -> length sl = length vals -> vals !! k = Some v -> some_bit (zip_with andb sl vals) = v.
Proof.
  assert (forall sl vals, Forall (fun b => b = false) sl -> some_bit (zip_with andb sl vals) = false) as H0.
  { clear. induction sl as [|b sl IH]; intros [|w vals] Hs; try done. apply list.Forall_cons in Hs as [-> Hs]. by apply IH. }
  revert vals k. induction sl as [|b sl IH]; intros [|w vals] [|k] Hs Hl Hv; try done; pose proof (Hs 0%nat b eq_refl) as Hb.
  - injection Hv as ->. rewrite bool_decide_true in Hb by done. subst b.
    unfold some_bit in *. cbn [zip_with existsb andb]. rewrite H0 by (by eapply one_hot_zero). apply orb_false_r.
  - rewrite bool_decide_false in Hb by done. subst b.
    unfold some_bit in *. cbn [zip_with existsb andb orb]. apply (IH vals k); [by eapply one_hot_tail | by injection Hl | done].
Qed.

Lemma select_one_hot {A} (cl : list A) (k : nat) : one_hot (imap (fun i _ => Z.of_nat i =? Z.of_nat k) cl) k.
Proof.
  intros i b. rewrite list_lookup_imap. destruct (cl !! i); [|done]. intros [= <-]. destruct (decide (i = k)) as [->|].
  - by rewrite Z.eqb_refl, bool_decide_true.
  - rewrite bool_decide_false by done. apply Z.eqb_neq. lia.
Qed.

(** The request the cache captures. *)
Lemma l2_capture s cl k a x :
  l2_st s = l2_idle -> l2_any s (valids cl) = true -> l2_sel s (valids cl) = Z.of_nat k -> cl !! k = Some a ->
  l2_next s cl x = MkL2 (Z.of_nat k) (if q_isWrite (a_bits a) then l2_aw else l2_ar) (Z.of_nat k) (q_addr (a_bits a)) (q_data (a_bits a))
                     (rdata_r s) (isW_r s).
Proof.
  intros Es Ha Ek Hk. unfold l2_next. rewrite Es, Ha, Ek. pose proof (select_one_hot cl k) as Ho.
  assert (length (imap (fun i (_ : Ask MemReq) => Z.of_nat i =? Z.of_nat k) cl) = length cl) as Hl by apply length_imap.
  rewrite (some_bit_pick _ _ k (q_isWrite (a_bits a))), (Mux1H_pick _ _ k (q_addr (a_bits a))), (Mux1H_pick _ _ k (q_data (a_bits a)));
    rewrite ?length_fmap, ?list_lookup_fmap, ?Hk; done.
Qed.

(** ** The lane *)

Record gpu_lane := MkGpu { l2 : GPUL2Cache; axi : AXIToMemReq }.

Definition gpu_ask (s : gpu_lane) : Ask MemReq := axi_ask (axi s).
Definition gpu_reply (s : gpu_lane) (cl : list (Ask MemReq)) (k : nat) : Reply := l2_reply (l2 s) cl k.

Definition gpu_next (s : gpu_lane) (cl : list (Ask MemReq)) (r : Reply) : gpu_lane :=
  let x := l2_axi (l2 s) in
  MkGpu (l2_next (l2 s) cl (axi_reply (axi s) x)) (axi_next (axi s) x r).

(** The cluster being served, of [n], and how far its request is. *)
Definition owner := option (nat * outstanding).

Definition cluster_view (w : owner) (k : nat) : outstanding :=
  match w with Some (k', o) => if decide (k' = k) then o else Idle | None => Idle end.

(** [q'] is the request [q] as the adapter sends it. *)
Definition same_req (q' q : MemReq) : Prop :=
  q_isWrite q' = q_isWrite q /\ q_addr q' = q_addr q /\ (q_isWrite q = true -> q_data q' = q_data q).

Lemma same_perform m q' q : same_req q' q -> perform m q' = perform m q.
Proof. intros (E1 & E2 & E3). unfold perform. rewrite E1, E2. destruct (q_isWrite q) eqn:E; [by rewrite E3|done]. Qed.

Definition gpu_rep (n : nat) (s : gpu_lane) (o : outstanding) (w : owner) : Prop :=
  let c := l2 s in let x := axi s in
  isW_r c = false /\
  match w with
  | None => l2_st c = l2_idle /\ x_st x = x_idle /\ o = Idle
  | Some (k, oc) =>
      (k < n)%nat /\ sel_r c = Z.of_nat k /\
      match l2_st c, x_st x with
      | l2_aw, x_idle =>
          o = Idle /\ exists q, oc = Accepted q /\ q_isWrite q = true /\ addr_r c = q_addr q /\ wdata_r c = q_data q
      | l2_wd, x_wwait =>
          o = Idle /\ exists q, oc = Accepted q /\ q_isWrite q = true /\ x_addr x = q_addr q /\ wdata_r c = q_data q
      | l2_bwait, x_wreq =>
          o = Idle /\ exists q, oc = Accepted q /\ q_isWrite q = true /\ x_addr x = q_addr q /\ x_wdata x = q_data q /\ x_wmask x = allOnes
      | l2_bwait, x_wwrsp =>
          match o with
          | Idle => False
          | Accepted q' => exists q, oc = Accepted q /\ q_isWrite q = true /\ same_req q' q
          | Answered _ => oc = Answered (rdata_r c)
          end
      | l2_bwait, x_wrespo | l2_wack, x_idle | l2_resp, x_idle => o = Idle /\ oc = Answered (rdata_r c)
      | l2_ar, x_idle => o = Idle /\ exists q, oc = Accepted q /\ q_isWrite q = false /\ addr_r c = q_addr q
      | l2_rc, x_areq => o = Idle /\ exists q, oc = Accepted q /\ q_isWrite q = false /\ x_addr x = q_addr q
      | l2_rc, x_aresp =>
          match o with
          | Idle => False
          | Accepted q' => exists q, oc = Accepted q /\ q_isWrite q = false /\ same_req q' q
          | Answered d => oc = Answered d
          end
      | l2_rc, x_rvalid => o = Idle /\ oc = Answered (x_rdata x)
      | _, _ => False
      end
  end.

Lemma gpu_reset_rep n a b c d e f : gpu_rep n (MkGpu l2_reset (axi_reset a b c d e f)) Idle None.
Proof. done. Qed.

(** What a cycle of the lane is to its clusters. *)
Variant lane_move (I : lines -> lines -> Prop) (s : gpu_lane) (cl : list (Ask MemReq)) (m m' : lines) : owner -> owner -> Prop :=
  | mv_rest :
      (forall k a, cl !! k = Some a -> req_fire a (gpu_reply s cl k) = false) -> (forall k, r_valid (gpu_reply s cl k) = false) ->
      left_alone I m m' -> lane_move I s cl m m' None None
  | mv_take k a :
      cl !! k = Some a -> a_valid a = true -> (forall k', r_ready (gpu_reply s cl k') = bool_decide (k' = k)) ->
      (forall k', r_valid (gpu_reply s cl k') = false) -> left_alone I m m' ->
      lane_move I s cl m m' None (Some (k, Accepted (a_bits a)))
  | mv_wait k o :
      (forall k', r_ready (gpu_reply s cl k') = false) -> (forall k', r_valid (gpu_reply s cl k') = false) ->
      left_alone I m m' -> lane_move I s cl m m' (Some (k, o)) (Some (k, o))
  | mv_perform k q d :
      (forall k', r_ready (gpu_reply s cl k') = false) -> (forall k', r_valid (gpu_reply s cl k') = false) ->
      m' = perform m q -> answers m q d -> lane_move I s cl m m' (Some (k, Accepted q)) (Some (k, Answered d))
  | mv_deliver k d a :
      (forall k', r_ready (gpu_reply s cl k') = false) -> (forall k', r_valid (gpu_reply s cl k') = bool_decide (k' = k)) ->
      r_bits (gpu_reply s cl k) = d -> cl !! k = Some a -> left_alone I m m' ->
      lane_move I s cl m m' (Some (k, Answered d)) (if a_ready a then None else Some (k, Answered d)).

(** The other clusters of a lane may write too. *)
Definition cluster_others (I : lines -> lines -> Prop) (w : owner) (k : nat) (m m' : lines) : Prop :=
  I m m' \/ exists k' q, k' <> k /\ w = Some (k', Accepted q) /\ m' = perform m q.

Lemma move_port I s cl m m' w w' k a :
  lane_move I s cl m m' w w' -> cl !! k = Some a ->
  port_cycle (cluster_others I w k) a (gpu_reply s cl k) (m, cluster_view w k) (m', cluster_view w' k).
Proof.
  assert (forall w o, left_alone I m m' -> commits (cluster_others I w k) (m, o) (m', o)) as Hal.
  { intros w0 o [-> | H]; [apply commits_none | apply commits_other; by left]. }
  intros Hm Hk. destruct Hm as [Hf Hv Ha | j b Hj Hb Hr Hv Ha | j o Hr Hv Ha | j q d Hr Hv -> Hd | j d b Hr Hv Hd Hj Ha].
  - exists Idle. cbn [cluster_view snd fst]. split; [|by apply Hal]. unfold handshake. by rewrite Hv, (Hf k a Hk).
  - cbn [cluster_view]. unfold port_cycle. cbn [fst snd handshake]. rewrite Hv. unfold req_fire. rewrite Hr. destruct (decide (j = k)) as [->|Hne].
    + assert (a = b) as -> by congruence. rewrite Hb, bool_decide_true by done. eexists. split; [reflexivity|]. by apply Hal.
    + rewrite bool_decide_false, andb_false_r by congruence. eexists. split; [reflexivity|]. by apply Hal.
  - cbn [cluster_view]. exists (if decide (j = k) then o else Idle). cbn [fst snd]. split; [|by apply Hal].
    destruct (decide (j = k)); unfold handshake, req_fire; [|by rewrite Hv, Hr, andb_false_r]. destruct o; by rewrite ?Hv, ?Hr, ?andb_false_r.
  - cbn [cluster_view]. exists (if decide (j = k) then Accepted q else Idle). cbn [fst snd]. destruct (decide (j = k)) as [->|Hne].
    + split; [|by apply commits_own]. unfold handshake. by rewrite Hv, Hr.
    + split; [unfold handshake, req_fire; by rewrite Hv, Hr, andb_false_r|]. apply commits_other. right. exists j, q. done.
  - cbn [cluster_view]. destruct (decide (j = k)) as [->|Hne].
    + assert (a = b) as -> by congruence. exists (if a_ready b then Idle else Answered d). cbn [fst snd]. split.
      * unfold handshake. rewrite Hr, Hv, bool_decide_true, Hd, Z.eqb_refl by done. done.
      * destruct (a_ready b); cbn [cluster_view]; rewrite ?decide_True by done; by apply Hal.
    + exists Idle. cbn [fst snd]. split.
      * unfold handshake, req_fire. by rewrite Hr, Hv, bool_decide_false, andb_false_r by congruence.
      * destruct (a_ready b); cbn [cluster_view]; rewrite ?decide_False by done; by apply Hal.
Qed.

Lemma l2_ready_idle s cl k : l2_st (l2 s) <> l2_idle -> r_ready (gpu_reply s cl k) = false.
Proof. intros H. unfold gpu_reply, l2_reply. cbn [r_ready]. by rewrite bool_decide_false. Qed.

Lemma l2_valid_not s cl k : l2_st (l2 s) <> l2_wack -> l2_st (l2 s) <> l2_resp -> r_valid (gpu_reply s cl k) = false.
Proof. intros H1 H2. unfold gpu_reply, l2_reply. cbn [r_valid]. by rewrite !bool_decide_false. Qed.

(** An idle lane takes a request or rests. *)
Lemma gpu_idle_cycle I n s cl r m m' o' :
  length cl = n -> gpu_rep n s Idle None -> port_cycle I (gpu_ask s) r (m, Idle) (m', o') ->
  exists w', gpu_rep n (gpu_next s cl r) o' w' /\ lane_move I s cl m m' None w'.
Proof.
  intros Hn (HW & El & Ex & _) Hp. apply port_idle in Hp as [_ Hp].
  assert (req_fire (gpu_ask s) r = false) as Ef by (unfold req_fire, gpu_ask, axi_ask; by rewrite Ex).
  rewrite Ef in Hp. destruct Hp as [-> Ha].
  assert (axi (gpu_next s cl r) = axi s) as Exn.
  { unfold gpu_next, axi_next. cbn [axi]. rewrite Ex. unfold l2_axi. rewrite El. done. }
  destruct (l2_any (l2 s) (valids cl)) eqn:Ey.
  - destruct (l2_sel_valid _ _ Ey) as (k & Ek & Hk). unfold valids in Hk. rewrite list_lookup_fmap in Hk.
    destruct (cl !! k) as [a|] eqn:Ea; [|done]. injection Hk as Hv. exists (Some (k, Accepted (a_bits a))). split.
    + unfold gpu_rep. rewrite Exn. unfold gpu_next. cbn [l2]. rewrite (l2_capture (l2 s) cl k a _ El Ey Ek Ea). cbn [isW_r l2_st sel_r addr_r wdata_r].
      rewrite Ex. split; [done|]. split; [apply lookup_lt_Some in Ea; lia|]. split; [done|].
      destruct (q_isWrite (a_bits a)) eqn:Ew; (split; [done|]); eexists; split_and!; try done.
    + apply mv_take; try done.
      * intros k'. unfold gpu_reply, l2_reply. cbn [r_ready]. rewrite El, Ek. cbn [andb]. destruct (decide (k' = k)) as [->|].
        -- rewrite (bool_decide_true (l2_idle = l2_idle)), (bool_decide_true (k = k)) by done. apply Z.eqb_refl.
        -- rewrite (bool_decide_true (l2_idle = l2_idle)), (bool_decide_false (k' = k)) by done. apply Z.eqb_neq. lia.
      * intros k'. apply l2_valid_not; by rewrite El.
  - exists None. split.
    + unfold gpu_rep. rewrite Exn. unfold gpu_next, l2_next. cbn [l2]. rewrite El, Ey. done.
    + apply mv_rest; [|intros k'; apply l2_valid_not; by rewrite El|done]. intros k a Hk. unfold req_fire.
      destruct (a_valid a) eqn:Ev; [|done]. destruct (l2_none_valid _ _ k Ey). unfold valids. by rewrite list_lookup_fmap, Hk, <- Ev.
Qed.

(** The AXI wires of a cache and an adapter whose states are known. *)
Ltac axi_wires El Ex :=
  unfold gpu_rep, gpu_next; cbn [l2 axi]; unfold l2_next, axi_next, axi_reply, l2_axi; rewrite El, Ex;
  decide_closed;
  cbn [andb negb AWVALID WVALID ARVALID AWREADY WREADY BVALID ARREADY RVALID RDATA BREADY RREADY AWADDR AWID WDATA WSTRB ARADDR ARID
       set_l2 set_axi axi_data l2_st x_st isW_r sel_r addr_r wdata_r rdata_r x_addr x_wdata x_wmask x_rdata];
  try change (2 ^ 64 - 1 =? allOnes) with true; cbv iota; rewrite ?El.

(** The request of the adapter, and the cycles in which it sends none. *)
Lemma gpu_quiet I s r m m' o' :
  a_valid (gpu_ask s) = false -> port_cycle I (gpu_ask s) r (m, Idle) (m', o') -> o' = Idle /\ left_alone I m m'.
Proof. intros Hv Hp. apply port_idle in Hp as [_ Hp]. unfold req_fire in Hp. by rewrite Hv in Hp. Qed.

Lemma gpu_write_cycle I n s o k q cl r m m' o' :
  gpu_rep n s o (Some (k, Accepted q)) -> q_isWrite q = true -> port_cycle I (gpu_ask s) r (m, o) (m', o') ->
  exists w', gpu_rep n (gpu_next s cl r) o' w' /\ lane_move I s cl m m' (Some (k, Accepted q)) w'.
Proof.
  intros (HW & Hk & Hsel & Hst) Hw Hp.
  assert (l2_st (l2 s) <> l2_idle /\ l2_st (l2 s) <> l2_wack /\ l2_st (l2 s) <> l2_resp) as (N1 & N2 & N3)
    by (clear - Hst; destruct (l2_st (l2 s)), (x_st (axi s)); naive_solver).
  pose proof (fun k' => l2_ready_idle s cl k' N1) as Hr. pose proof (fun k' => l2_valid_not s cl k' N2 N3) as Hv.
  destruct (l2_st (l2 s)) eqn:El, (x_st (axi s)) eqn:Ex; try done; try (exfalso; clear - Hst; destruct o; naive_solver).
  - destruct Hst as (-> & q0 & [= <-] & _ & E1 & E2). apply gpu_quiet in Hp as [-> Ha]; [|unfold gpu_ask, axi_ask; by rewrite Ex].
    exists (Some (k, Accepted q)). split; [|by apply mv_wait]. axi_wires El Ex. split_and!; try done. exists q. split_and!; done.
  - destruct Hst as (-> & q0 & [= <-] & _ & E1 & E2). apply gpu_quiet in Hp as [-> Ha]; [|unfold gpu_ask, axi_ask; by rewrite Ex].
    exists (Some (k, Accepted q)). split; [|by apply mv_wait]. axi_wires El Ex. split_and!; try done. exists q. split_and!; done.
  - destruct Hst as (-> & q0 & [= <-] & _ & E1 & E2 & E3). apply port_idle in Hp as [_ Hp].
    assert (same_req (a_bits (gpu_ask s)) q) as Hq.
    { unfold gpu_ask, axi_ask. rewrite Ex. cbn [a_bits]. rewrite E3, Z.eqb_refl, E1, E2. by split; cbn. }
    destruct (req_fire (gpu_ask s) r) eqn:Ef; unfold gpu_ask in Ef.
    + destruct Hp as [[-> Ha] | (d & -> & -> & Hd)].
      * exists (Some (k, Accepted q)). split; [|by apply mv_wait]. axi_wires El Ex. rewrite Ef. cbn. split_and!; try done. exists q. done.
      * exists (Some (k, Answered (rdata_r (l2 s)))). split.
        -- axi_wires El Ex. rewrite Ef. cbn. done.
        -- apply mv_perform; try done; [by apply same_perform | by intros E; congruence].
    + destruct Hp as [-> Ha]. exists (Some (k, Accepted q)). split; [|by apply mv_wait]. axi_wires El Ex. rewrite Ef. rewrite Ex.
      split_and!; try done. exists q. done.
  - destruct o as [|q'|d]; [done | | done]. destruct Hst as (q0 & [= <-] & _ & Hq). apply port_accepted in Hp as (_ & Hrv & Hp).
    destruct Hp as [[-> Ha] | (d & -> & -> & Hd)].
    + exists (Some (k, Accepted q)). split; [|by apply mv_wait]. axi_wires El Ex. rewrite Hrv, Ex. split_and!; try done. exists q. done.
    + exists (Some (k, Answered (rdata_r (l2 s)))). split; [axi_wires El Ex; rewrite Hrv, Ex; done|].
      apply mv_perform; try done; [by apply same_perform | by intros E; congruence].
  - destruct Hst as (_ & q0 & [= <-] & E & _). congruence.
  - destruct Hst as (_ & q0 & [= <-] & E & _). congruence.
  - destruct o as [|q'|d]; [done | | done]. destruct Hst as (q0 & [= <-] & E & _). congruence.
Qed.

Lemma gpu_read_cycle I n s o k q cl r m m' o' :
  gpu_rep n s o (Some (k, Accepted q)) -> q_isWrite q = false -> port_cycle I (gpu_ask s) r (m, o) (m', o') ->
  exists w', gpu_rep n (gpu_next s cl r) o' w' /\ lane_move I s cl m m' (Some (k, Accepted q)) w'.
Proof.
  intros (HW & Hk & Hsel & Hst) Hw Hp.
  assert (l2_st (l2 s) <> l2_idle /\ l2_st (l2 s) <> l2_wack /\ l2_st (l2 s) <> l2_resp) as (N1 & N2 & N3)
    by (clear - Hst; destruct (l2_st (l2 s)), (x_st (axi s)); naive_solver).
  pose proof (fun k' => l2_ready_idle s cl k' N1) as Hr. pose proof (fun k' => l2_valid_not s cl k' N2 N3) as Hv.
  destruct (l2_st (l2 s)) eqn:El, (x_st (axi s)) eqn:Ex; try done; try (exfalso; clear - Hst; destruct o; naive_solver).
  - destruct Hst as (_ & q0 & [= <-] & E & _). congruence.
  - destruct Hst as (_ & q0 & [= <-] & E & _). congruence.
  - destruct Hst as (_ & q0 & [= <-] & E & _). congruence.
  - destruct o as [|q'|d]; [done | | done]. destruct Hst as (q0 & [= <-] & E & _). congruence.
  - destruct Hst as (-> & q0 & [= <-] & _ & E1). apply gpu_quiet in Hp as [-> Ha]; [|unfold gpu_ask, axi_ask; by rewrite Ex].
    exists (Some (k, Accepted q)). split; [|by apply mv_wait]. axi_wires El Ex. split_and!; try done. exists q. split_and!; done.
  - destruct Hst as (-> & q0 & [= <-] & _ & E1). apply port_idle in Hp as [_ Hp].
    assert (same_req (a_bits (gpu_ask s)) q) as Hq.
    { unfold gpu_ask, axi_ask. rewrite Ex. cbn [a_bits]. rewrite E1. split; [done|]. split; [done|]. cbn. congruence. }
    destruct (req_fire (gpu_ask s) r) eqn:Ef; unfold gpu_ask in Ef.
    + destruct Hp as [[-> Ha] | (d & -> & -> & Hd)].
      * exists (Some (k, Accepted q)). split; [|by apply mv_wait]. axi_wires El Ex. rewrite Ef. cbn. split_and!; try done. exists q. done.
      * exists (Some (k, Answered d)). split; [axi_wires El Ex; rewrite Ef; cbn; done|].
        apply mv_perform; try done; [by apply same_perform|]. intros E. destruct Hq as (Q1 & Q2 & _). rewrite <- Q2. apply Hd. congruence.
    + destruct Hp as [-> Ha]. exists (Some (k, Accepted q)). split; [|by apply mv_wait]. axi_wires El Ex. rewrite Ef, Ex.
      split_and!; try done. exists q. done.
  - destruct o as [|q'|d]; [done | | done]. destruct Hst as (q0 & [= <-] & _ & Hq). apply port_accepted in Hp as (_ & Hrv & Hp).
    destruct Hp as [[-> Ha] | (d & -> & -> & Hd)].
    + exists (Some (k, Accepted q)). split; [|by apply mv_wait]. axi_wires El Ex. rewrite Hrv, Ex. split_and!; try done. exists q. done.
    + exists (Some (k, Answered d)). split; [axi_wires El Ex; rewrite Hrv, Ex; done|].
      apply mv_perform; try done; [by apply same_perform|]. intros E. destruct Hq as (Q1 & Q2 & _). rewrite <- Q2. apply Hd. congruence.
Qed.

(** The cache gives its answer to the cluster it serves. *)
Lemma gpu_deliver I n s k d cl r m m' o' :
  length cl = n -> gpu_rep n s Idle (Some (k, Answered d)) -> x_st (axi s) = x_idle ->
  port_cycle I (gpu_ask s) r (m, Idle) (m', o') ->
  exists w', gpu_rep n (gpu_next s cl r) o' w' /\ lane_move I s cl m m' (Some (k, Answered d)) w'.
Proof.
  intros Hn (HW & Hk & Hsel & Hst) Ex Hp. apply gpu_quiet in Hp as [-> Ha]; [|unfold gpu_ask, axi_ask; by rewrite Ex].
  rewrite Ex in Hst. assert ((l2_st (l2 s) = l2_wack \/ l2_st (l2 s) = l2_resp) /\ d = rdata_r (l2 s)) as [El ->]
    by (clear - Hst; destruct (l2_st (l2 s)); naive_solver).
  destruct (lookup_lt_is_Some_2 cl k ltac:(lia)) as [a Hka].
  assert (axi_next (axi s) (l2_axi (l2 s)) r = axi s) as Exn by (unfold axi_next, l2_axi; rewrite Ex; destruct El as [-> | ->]; done).
  assert (forall k', r_valid (gpu_reply s cl k') = bool_decide (k' = k)) as Hv.
  { intros k'. unfold gpu_reply, l2_reply. cbn [r_valid]. rewrite Hsel.
    assert (bool_decide (l2_st (l2 s) = l2_wack) || bool_decide (l2_st (l2 s) = l2_resp) = true) as -> by (destruct El as [-> | ->]; done).
    cbn [andb]. destruct (decide (k' = k)) as [->|]; [by rewrite Z.eqb_refl, bool_decide_true|]. rewrite bool_decide_false by done. apply Z.eqb_neq. lia. }
  assert (l2_next (l2 s) cl (axi_reply (axi s) (l2_axi (l2 s))) = if a_ready a then set_l2 (l2 s) l2_idle else l2 s) as E2.
  { unfold l2_next. rewrite Hsel, Nat2Z.id. rewrite (nth_lookup_Some cl k _ a Hka). unfold resp_fire.
    pose proof (Hv k) as Hvk. unfold gpu_reply in Hvk. rewrite Hvk, bool_decide_true by done. cbn [andb]. by destruct El as [-> | ->]. }
  exists (if a_ready a then None else Some (k, Answered (rdata_r (l2 s)))). split.
  - unfold gpu_rep, gpu_next. cbn [l2 axi]. rewrite Exn, E2. destruct (a_ready a); cbn [isW_r set_l2 l2_st rdata_r]; [done|].
    split_and!; try done. rewrite Ex. destruct El as [-> | ->]; done.
  - apply mv_deliver; try done.
    + intros k'. apply l2_ready_idle. by destruct El as [-> | ->].
    + unfold gpu_reply, l2_reply. cbn [r_bits]. by rewrite HW.
Qed.

Lemma gpu_answered_cycle I n s o k d cl r m m' o' :
  length cl = n -> gpu_rep n s o (Some (k, Answered d)) -> port_cycle I (gpu_ask s) r (m, o) (m', o') ->
  exists w', gpu_rep n (gpu_next s cl r) o' w' /\ lane_move I s cl m m' (Some (k, Answered d)) w'.
Proof.
  intros Hn Hrep Hp. destruct (decide (x_st (axi s) = x_idle)) as [Exi|Exi].
  { assert (o = Idle) as -> by (destruct Hrep as (_ & _ & _ & Hst); rewrite Exi in Hst; clear - Hst; destruct (l2_st (l2 s)); naive_solver).
    by apply gpu_deliver. }
  destruct Hrep as (HW & Hk & Hsel & Hst).
  assert (l2_st (l2 s) <> l2_idle /\ l2_st (l2 s) <> l2_wack /\ l2_st (l2 s) <> l2_resp) as (N1 & N2 & N3)
    by (clear - Hst Exi; destruct (l2_st (l2 s)), (x_st (axi s)); naive_solver).
  pose proof (fun k' => l2_ready_idle s cl k' N1) as Hr. pose proof (fun k' => l2_valid_not s cl k' N2 N3) as Hv.
  exists (Some (k, Answered d)).
  assert (gpu_rep n (gpu_next s cl r) o' (Some (k, Answered d)) /\ left_alone I m m') as [H1 H2]; [|split; [done | by apply mv_wait]].
  destruct (l2_st (l2 s)) eqn:El, (x_st (axi s)) eqn:Ex; try done; try (exfalso; clear - Hst; destruct o; naive_solver).
  - destruct o as [|q'|d']; [done | naive_solver |]. injection Hst as ->. apply port_answered in Hp as (_ & _ & Ha & ->). split; [|done].
    unfold resp_fire, gpu_ask, axi_ask. rewrite Ex. cbn [a_ready]. rewrite andb_true_r. axi_wires El Ex. destruct (r_valid r); cbn; rewrite ?Ex; done.
  - destruct Hst as [-> [= ->]]. apply gpu_quiet in Hp as [-> Ha]; [|unfold gpu_ask, axi_ask; by rewrite Ex]. split; [|done]. axi_wires El Ex. done.
  - destruct o as [|q'|d']; [done | naive_solver |]. injection Hst as ->. apply port_answered in Hp as (_ & Hb & Ha & ->). split; [|done].
    unfold resp_fire, gpu_ask, axi_ask. rewrite Ex. cbn [a_ready]. rewrite andb_true_r. axi_wires El Ex.
    destruct (r_valid r); cbn; rewrite ?Ex; [|done]. by rewrite (Hb eq_refl).
  - destruct Hst as [-> [= ->]]. apply gpu_quiet in Hp as [-> Ha]; [|unfold gpu_ask, axi_ask; by rewrite Ex]. split; [|done]. axi_wires El Ex. done.
Qed.

(** Every cycle of the lane is one of its moves. *)
Lemma gpu_cycle I n s o w cl r m m' o' :
  length cl = n -> gpu_rep n s o w -> port_cycle I (gpu_ask s) r (m, o) (m', o') ->
  exists w', gpu_rep n (gpu_next s cl r) o' w' /\ lane_move I s cl m m' w w'.
Proof.
  intros Hn Hrep Hp. destruct w as [[k [|q|d]]|].
  - exfalso. destruct Hrep as (_ & _ & _ & Hst). clear - Hst. destruct (l2_st (l2 s)), (x_st (axi s)); destruct o; naive_solver.
  - destruct (q_isWrite q) eqn:Ew; [by eapply gpu_write_cycle | by eapply gpu_read_cycle].
  - by eapply gpu_answered_cycle.
  - assert (o = Idle) as -> by (by destruct Hrep as (_ & _ & _ & ?)). by apply gpu_idle_cycle.
Qed.

(** C14. The GPU lane gives each cluster a line port.  From reset, and whatever
    the clusters drive, every cycle of the cache and its AXI adapter on a line
    port is, for each cluster, a cycle of a line port onto the same memory: its
    request is taken, performed once, answered once, with the line a read
    found, and no other cluster gets the answer. *)
Theorem gpu_lane_ports I n :
  (forall a b c d e f, gpu_rep n (MkGpu l2_reset (axi_reset a b c d e f)) Idle None) /\
  (forall s o w cl r m m' o', length cl = n -> gpu_rep n s o w -> port_cycle I (gpu_ask s) r (m, o) (m', o') ->
    exists w', gpu_rep n (gpu_next s cl r) o' w' /\
      forall k a, cl !! k = Some a ->
        port_cycle (cluster_others I w k) a (gpu_reply s cl k) (m, cluster_view w k) (m', cluster_view w' k)).
Proof.
  split; [by intros; apply gpu_reset_rep|]. intros s o w cl r m m' o' Hn Hrep Hp.
  destruct (gpu_cycle I n s o w cl r m m' o' Hn Hrep Hp) as (w' & Hr' & Hm). exists w'. split; [done|].
  intros k a Hk. by apply move_port.
Qed.
