(* ===== verification/Simt.v ===== *)
(** * The SIMT core — [src/main/scala/aegis/gpu/SimtCore.scala]

    The core runs one kernel, an element-wise addition of arrays of 512-bit
    lines of 32 16-bit lanes, out of the shared memory.  The file models the core
    and shows that on any line port it computes the kernel. *)

From S2P Require Import Prelude Isa Fabric.

Variant simt_state := st_idle | st_rdX | st_rdXr | st_rdZ | st_rdZr | st_calc | st_wrY | st_wrYr.

#[global] Instance simt_state_eq_dec : EqDecision simt_state.
Proof. solve_decision. Defined.

Record SimtCore := MkSimt {
  si_st : simt_state; xBase : Z; zBase : Z; yBase : Z; nReg : Z; si_line : Z; xLine : Z; zLine : Z; doneReg : bool }.

Definition simt_reset : SimtCore := MkSimt st_idle 0 0 0 0 0 0 0 false.

(** The launch inputs. *)
Record simt_in := MkSimtIn { simt_start : bool; baseX : Z; baseZ : Z; baseY : Z; nLines : Z }.

Definition nLanes : Z := 32.
Definition elemBits : Z := 16.

(** The sum of one lane, in its place in the line. *)
Definition lane_sum (x z l : Z) : Z :=
  Z.shiftl (u16 (bits x (l * elemBits + elemBits - 1) (l * elemBits) + bits z (l * elemBits + elemBits - 1) (l * elemBits))) (l * elemBits).

Definition yLine (s : SimtCore) : Z := foldr Z.lor 0 (lane_sum (xLine s) (zLine s) <$> range nLanes).

Definition simt_addr (s : SimtCore) : Z :=
  match si_st s with
  | st_rdX => u64 (xBase s + Z.shiftl (si_line s) 6)
  | st_rdZ => u64 (zBase s + Z.shiftl (si_line s) 6)
  | st_wrY => u64 (yBase s + Z.shiftl (si_line s) 6)
  | _ => 0
  end.

Definition simt_ask (s : SimtCore) : Ask MemReq :=
  MkAsk (bool_decide (si_st s = st_rdX) || bool_decide (si_st s = st_rdZ) || bool_decide (si_st s = st_wrY))
    (MkMemReq (simt_addr s) (yLine s) (bool_decide (si_st s = st_wrY)) 0)
    (bool_decide (si_st s = st_rdXr) || bool_decide (si_st s = st_rdZr) || bool_decide (si_st s = st_wrYr)).

Definition simt_done (s : SimtCore) : bool := doneReg s.

Definition set_simt (s : SimtCore) (st : simt_state) : SimtCore :=
  MkSimt st (xBase s) (zBase s) (yBase s) (nReg s) (si_line s) (xLine s) (zLine s) (doneReg s).

Definition simt_next (s0 : SimtCore) (i : simt_in) (r : Reply) : SimtCore :=
  let d := if simt_start i then false else doneReg s0 in
  let s := MkSimt (si_st s0) (xBase s0) (zBase s0) (yBase s0) (nReg s0) (si_line s0) (xLine s0) (zLine s0) d in
  let req := req_fire (simt_ask s0) r in
  let resp := resp_fire (simt_ask s0) r in
  match si_st s with
  | st_idle =>
      if simt_start i then MkSimt st_rdX (baseX i) (baseZ i) (baseY i) (nLines i) 0 (xLine s) (zLine s) d else s
  | st_rdX => if req then set_simt s st_rdXr else s
  | st_rdXr => if resp then MkSimt st_rdZ (xBase s) (zBase s) (yBase s) (nReg s) (si_line s) (r_bits r) (zLine s) d else s
  | st_rdZ => if req then set_simt s st_rdZr else s
  | st_rdZr => if resp then MkSimt st_calc (xBase s) (zBase s) (yBase s) (nReg s) (si_line s) (xLine s) (r_bits r) d else s
  | st_calc => set_simt s st_wrY
  | st_wrY => if req then set_simt s st_wrYr else s
  | st_wrYr =>
      if resp then
        if si_line s =? u16 (nReg s - 1) then
          MkSimt st_idle (xBase s) (zBase s) (yBase s) 0 (u16 (si_line s + 1)) (xLine s) (zLine s) true
        else MkSimt st_rdX (xBase s) (zBase s) (yBase s) (nReg s) (u16 (si_line s + 1)) (xLine s) (zLine s) d
      else s
  end.

(** ** The lanes of a line *)

Lemma lane_sum_testbit x z l i : 0 <= l -> 0 <= i ->
  Z.testbit (lane_sum x z l) i = (16 * l <=? i) && (i <? 16 * l + 16) && Z.testbit (slice x (16 * l) 16 + slice z (16 * l) 16) (i - 16 * l).
Proof.
  intros Hl Hi. unfold lane_sum, elemBits, bits. rewrite Z.shiftl_spec by lia.
  replace (l * 16 + 16 - 1 - l * 16 + 1) with 16 by lia. replace (l * 16) with (16 * l) by lia.
  destruct (Z.leb_spec (16 * l) i); cbn [andb]; [|by rewrite Z.testbit_neg_r by lia]. unfold u16.
  destruct (Z.ltb_spec i (16 * l + 16)); cbn [andb].
  - rewrite Z.mod_pow2_bits_low by lia. done.
  - by rewrite Z.mod_pow2_bits_high by lia.
Qed.

(** The specification of the kernel on one line: 32 additions modulo 2^16. *)
Definition adds (x z y : Z) : Prop :=
  forall l, 0 <= l < 32 -> slice y (16 * l) 16 = (slice x (16 * l) 16 + slice z (16 * l) 16) mod 2 ^ 16.

Lemma foldr_lor_testbit vs i : Z.testbit (foldr Z.lor 0 vs) i = existsb (fun v => Z.testbit v i) vs.
Proof. induction vs as [|v vs IH]; cbn [foldr existsb]; [apply Z.bits_0 | by rewrite Z.lor_spec, IH]. Qed.

Lemma yLine_adds s : adds (xLine s) (zLine s) (yLine s).
Proof.
  intros l Hl. apply Z.bits_inj'. intros i Hi. rewrite slice_testbit by lia.
  destruct (Z.ltb_spec i 16); cbn [andb]; [rewrite Z.mod_pow2_bits_low by lia | by rewrite Z.mod_pow2_bits_high by lia].
  unfold yLine. rewrite foldr_lor_testbit. apply eq_true_iff_eq. rewrite existsb_exists. split.
  - intros (v & Hv & Ht). apply list_elem_of_In, list_elem_of_fmap in Hv as (l' & -> & Hl'). apply elem_of_range in Hl'.
    rewrite lane_sum_testbit in Ht by lia. apply andb_prop in Ht as [Hc Ht]. assert (l' = l) as -> by lia. by replace (16 * l + i - 16 * l) with i in Ht by lia.
  - intros Ht. exists (lane_sum (xLine s) (zLine s) l). split.
    + apply list_elem_of_In, list_elem_of_fmap. exists l. split; [done|]. apply elem_of_range. unfold nLanes. lia.
    + rewrite lane_sum_testbit by lia. replace (16 * l + i - 16 * l) with i by lia. rewrite Ht. lia.
Qed.

(** ** The kernel *)

(** The line the kernel stores for operand lines [x] and [z]. *)
Definition vadd (x z : Z) : Z := foldr Z.lor 0 (lane_sum x z <$> range nLanes).

(** The wires of a core whose state is known. *)
Ltac simt_wires Es := unfold simt_next in *; unfold stalled, req_fire, resp_fire in *; unfold simt_ask in *; unfold simt_addr in *; rewrite ?Es in *;
  decide_closed;
  cbn [orb andb negb a_valid a_ready a_bits q_isWrite q_addr q_data si_st] in *.

Section Kernel.
Context (X Z_ Y n : Z) (n_range : 0 < n <= 2 ^ 16).

(** The memory after the first [i] lines, one after the other. *)
Fixpoint kernel (m : lines) (i : nat) : lines :=
  match i with
  | O => m
  | S i => let k := kernel m i in
           store k (at_line Y (Z.of_nat i)) (vadd (k (at_line X (Z.of_nat i))) (k (at_line Z_ (Z.of_nat i))))
  end.

Context (P : Z -> Prop)
  (P_X : forall i, 0 <= i < n -> P (at_line X i)) (P_Z : forall i, 0 <= i < n -> P (at_line Z_ i))
  (m0 : lines).

Record launched (s : SimtCore) (i : nat) : Prop := {
  la_x : xBase s = X; la_z : zBase s = Z_; la_y : yBase s = Y; la_n : nReg s = u16 n; la_i : si_line s = Z.of_nat i; la_lt : Z.of_nat i < n;
  la_busy : doneReg s = false
}.

Definition simt_at (s : SimtCore) (m : lines) (o : outstanding) (i : nat) : Prop :=
  let k := kernel m0 i in let x := at_line X (Z.of_nat i) in let z := at_line Z_ (Z.of_nat i) in let y := at_line Y (Z.of_nat i) in
  match si_st s with
  | st_idle => Z.of_nat i = n /\ doneReg s = true /\ o = Idle /\ keeps P k m
  | st_rdX => launched s i /\ o = Idle /\ keeps P k m
  | st_rdXr => launched s i /\ reading P k x m o
  | st_rdZ => launched s i /\ xLine s = k x /\ o = Idle /\ keeps P k m
  | st_rdZr => launched s i /\ xLine s = k x /\ reading P k z m o
  | st_calc | st_wrY => launched s i /\ xLine s = k x /\ zLine s = k z /\ o = Idle /\ keeps P k m
  | st_wrYr => launched s i /\ writing P k y (vadd (k x) (k z)) m o
  end.

(** The steps that remain: six for a line that is read, computed and written. *)
Definition simt_left (s : SimtCore) : nat :=
  match si_st s with
  | st_idle => 0
  | st => 7 * (Z.to_nat n - Z.to_nat (si_line s)) - match st with st_rdX => 0 | st_rdXr => 1 | st_rdZ => 2 | st_rdZr => 3 | st_calc => 4 | st_wrY => 5 | _ => 6 end
  end.

(** What a cycle owes to a core on the kernel. *)
Definition moves_on (s : SimtCore) (r : Reply) (s' : SimtCore) (m' : lines) (o' : outstanding) : Prop :=
  (exists i', simt_at s' m' o' i') /\ (simt_left s' <= simt_left s)%nat /\
    (stalled (simt_ask s) r = false -> (simt_left s' < simt_left s)%nat).

(** Splits a move into the state it reaches and the steps that remain. *)
Ltac simt_move i Es L :=
  cbn; rewrite ?Es; (split;
    [exists i; split_and?; first [done | by (destruct L as [? ? ? ? ? ? Ld]; split; cbn; rewrite ?Ld; repeat case_match) | idtac] |
     destruct L; (split; [lia | intros; first [done | lia]])]).

Lemma simt_reads s m o i ins r m' o' :
  simt_at s m o i -> si_st s = st_rdX \/ si_st s = st_rdZ -> port_cycle (keeps P) (simt_ask s) r (m, o) (m', o') ->
  moves_on s r (simt_next s ins r) m' o'.
Proof.
  intros Hat Hs Hp. unfold simt_at in Hat. destruct Hs as [Es | Es]; rewrite Es in Hat.
  - destruct Hat as (L & -> & K).
    destruct (read_starts P (simt_ask s) r (kernel m0 i) (at_line X (Z.of_nat i)) ltac:(apply P_X; destruct L; lia) m m' o'
      ltac:(by simt_wires Es) ltac:(simt_wires Es; by destruct L as [-> _ _ _ -> _ _]) K Hp) as [_ H].
    unfold moves_on, simt_at, simt_left. simt_wires Es. destruct (r_ready r); simt_move i Es L; apply H.
  - destruct Hat as (L & Ex & -> & K).
    destruct (read_starts P (simt_ask s) r (kernel m0 i) (at_line Z_ (Z.of_nat i)) ltac:(apply P_Z; destruct L; lia) m m' o'
      ltac:(by simt_wires Es) ltac:(simt_wires Es; by destruct L as [_ -> _ _ -> _ _]) K Hp) as [_ H].
    unfold moves_on, simt_at, simt_left. simt_wires Es. destruct (r_ready r); simt_move i Es L; apply H.
Qed.

Lemma simt_answers s m o i ins r m' o' :
  simt_at s m o i -> si_st s = st_rdXr \/ si_st s = st_rdZr -> port_cycle (keeps P) (simt_ask s) r (m, o) (m', o') ->
  moves_on s r (simt_next s ins r) m' o'.
Proof.
  intros Hat Hs Hp. unfold simt_at in Hat. destruct Hs as [Es | Es]; rewrite Es in Hat.
  - destruct Hat as (L & H).
    destruct (read_goes P (simt_ask s) r (kernel m0 i) (at_line X (Z.of_nat i)) ltac:(apply P_X; destruct L; lia) m o m' o' H Hp) as [_ H'].
    unfold moves_on, simt_at, simt_left. simt_wires Es. rewrite andb_true_r in *. destruct (r_valid r); simt_move i Es L; apply H'.
  - destruct Hat as (L & Ex & H).
    destruct (read_goes P (simt_ask s) r (kernel m0 i) (at_line Z_ (Z.of_nat i)) ltac:(apply P_Z; destruct L; lia) m o m' o' H Hp) as [_ H'].
    unfold moves_on, simt_at, simt_left. simt_wires Es. rewrite andb_true_r in *. destruct (r_valid r); simt_move i Es L; apply H'.
Qed.

Lemma simt_writes s m o i ins r m' o' :
  simt_at s m o i -> si_st s = st_calc \/ si_st s = st_wrY -> port_cycle (keeps P) (simt_ask s) r (m, o) (m', o') ->
  moves_on s r (simt_next s ins r) m' o'.
Proof.
  intros Hat Hs Hp. unfold simt_at in Hat. destruct Hs as [Es | Es]; rewrite Es in Hat; destruct Hat as (L & Ex & Ez & -> & K).
  - destruct (rest_goes P (simt_ask s) r (kernel m0 i) m m' o' ltac:(by simt_wires Es) K Hp) as [-> K'].
    unfold moves_on, simt_at, simt_left. simt_wires Es. simt_move i Es L.
  - destruct (write_starts P (simt_ask s) r (kernel m0 i) (at_line Y (Z.of_nat i))
      (vadd (kernel m0 i (at_line X (Z.of_nat i))) (kernel m0 i (at_line Z_ (Z.of_nat i)))) m m' o'
      ltac:(by simt_wires Es) ltac:(simt_wires Es; by destruct L as [_ _ -> _ -> _ _]) ltac:(rewrite <- Ex, <- Ez; done) K Hp) as [_ H].
    unfold moves_on, simt_at, simt_left. simt_wires Es. destruct (r_ready r); simt_move i Es L; apply H.
Qed.

(** The line is stored: the next one, or the end. *)
Lemma simt_stores s m o i ins r m' o' :
  simt_at s m o i -> si_st s = st_wrYr -> port_cycle (keeps P) (simt_ask s) r (m, o) (m', o') ->
  moves_on s r (simt_next s ins r) m' o'.
Proof.
  intros Hat Es Hp. unfold simt_at in Hat. rewrite Es in Hat. destruct Hat as (L & H).
  destruct (write_goes P (simt_ask s) r (kernel m0 i) (at_line Y (Z.of_nat i)) _ m o m' o' H Hp) as [_ H'].
  unfold moves_on, simt_at, simt_left. simt_wires Es. rewrite andb_true_r in *. destruct (r_valid r); [|simt_move i Es L; apply H'].
  destruct H' as [-> K]. destruct L as [L1 L2 L3 L4 L5 L6 L7]. cbn [si_line nReg]. rewrite L4, L5.
  assert (u16 (u16 n - 1) = n - 1) as -> by (unfold u16; rewrite Zminus_mod_idemp_l; apply Z.mod_small; lia).
  destruct (Z.eqb_spec (Z.of_nat i) (n - 1)); cbn.
  - split; [exists (S i); split_and!; [lia | done..]|]. split; [lia|]. intros _. lia.
  - assert (u16 (Z.of_nat i + 1) = Z.of_nat i + 1) as -> by (unfold u16; apply Z.mod_small; lia).
    split; [exists (S i); split_and!; [split; cbn; try done; [lia | lia | rewrite L7; by case_match] | done..]|]. split; [lia|]. intros _. lia.
Qed.

(** A cycle keeps the core on the kernel, and moves it on unless it stalls. *)
Lemma simt_cycle s m o i ins r m' o' :
  simt_at s m o i -> si_st s <> st_idle -> port_cycle (keeps P) (simt_ask s) r (m, o) (m', o') ->
  moves_on s r (simt_next s ins r) m' o'.
Proof.
  intros Hat Hni Hp. destruct (si_st s) eqn:Es; [done|..];
    eauto using simt_reads, simt_answers, simt_writes, simt_stores.
Qed.

Lemma simt_left_pos s m o i : simt_at s m o i -> si_st s <> st_idle -> (0 < simt_left s)%nat.
Proof. unfold simt_at, simt_left. destruct (si_st s); [done|..]; intros ([? ? ? ? ? ? ?] & _) _; lia. Qed.

Lemma simt_busy s m o i : simt_at s m o i -> si_st s <> st_idle -> simt_done s = false.
Proof. unfold simt_at, simt_done. destruct (si_st s); [done|..]; intros ([? ? ? ? ? ? ?] & _) _; done. Qed.
End Kernel.

(** Arrays that do not overlap: a result never lands on an operand still to be
    read or on another result. *)
Definition no_overlap (X Z_ Y n : Z) : Prop :=
  forall i j, 0 <= i < j -> j < n -> at_line Y i <> at_line X j /\ at_line Y i <> at_line Z_ j /\ at_line Y i <> at_line Y j.

Lemma vadd_adds x z : adds x z (vadd x z).
Proof. apply (yLine_adds (MkSimt st_idle 0 0 0 0 0 x z false)). Qed.

Lemma store_other m l v l' : l' <> l -> store m l v l' = m l'.
Proof. intros H. unfold store. by destruct (Z.eqb_spec l' l). Qed.

Lemma kernel_frame X Z_ Y m i l : (forall k, 0 <= k < Z.of_nat i -> at_line Y k <> l) -> kernel X Z_ Y m i l = m l.
Proof.
  induction i as [|i IH]; intros H; [done|]. cbn [kernel]. rewrite store_other by (apply not_eq_sym, H; lia). apply IH. intros k Hk. apply H. lia.
Qed.

(** The kernel adds the arrays. *)
Lemma kernel_adds X Z_ Y n m k i :
  no_overlap X Z_ Y n -> (k <= Z.to_nat n)%nat -> 0 <= i < Z.of_nat k ->
  adds (m (at_line X i)) (m (at_line Z_ i)) (kernel X Z_ Y m k (at_line Y i)).
Proof.
  intros Hd. induction k as [|k IH]; intros Hk Hi; [lia|]. cbn [kernel]. destruct (decide (i = Z.of_nat k)) as [->|].
  - unfold store. rewrite Z.eqb_refl. rewrite !kernel_frame; [apply vadd_adds|..]; intros j Hj; apply (Hd j); lia.
  - rewrite store_other by (apply (Hd i); lia). apply IH; lia.
Qed.

(** ** Launches *)

(** The lines a launch processes: a count of zero runs the 16-bit line counter
    all the way round. *)
Definition n_lines (ins : simt_in) : Z := if nLines ins =? 0 then 2 ^ 16 else nLines ins.

Lemma n_lines_spec ins : 0 <= nLines ins < 2 ^ 16 -> 0 < n_lines ins <= 2 ^ 16 /\ u16 (n_lines ins) = nLines ins.
Proof.
  intros H. unfold n_lines. destruct (Z.eqb_spec (nLines ins) 0) as [->|]; [done|]. split; [lia|]. unfold u16. apply Z.mod_small. lia.
Qed.

Lemma simt_launch P ins s r m m' o' :
  si_st s = st_idle -> simt_start ins = true -> 0 <= nLines ins < 2 ^ 16 -> port_cycle (keeps P) (simt_ask s) r (m, Idle) (m', o') ->
  simt_at (baseX ins) (baseZ ins) (baseY ins) (n_lines ins) P m (simt_next s ins r) m' o' 0 /\
  simt_left (n_lines ins) (simt_next s ins r) = (7 * Z.to_nat (n_lines ins))%nat.
Proof.
  intros Es Hst Hn Hp. destruct (n_lines_spec ins Hn) as [Hn' En]. destruct (rest_goes P (simt_ask s) r m m m' o' ltac:(by simt_wires Es) (keeps_refl P m) Hp) as [-> K].
  unfold simt_at, simt_left. simt_wires Es. rewrite Hst. cbn. split; [|lia]. split; [|by split]. split; cbn; try done. lia.
Qed.

(** Started on a port that never stalls it for [D] cycles in a row, and with
    other agents away from the lines of [P], the operand arrays among them, the
    core raises [done] for the first time within [7 n D + 1] cycles, [n] being
    the lines of the launch; the lines of [P] then are those of the kernel. *)
Lemma simt_finishes D P (s : nat -> SimtCore) (ins : nat -> simt_in) r can m0 :
  (forall t, s (S t) = simt_next (s t) (ins t) (r t)) -> serves P (fun t => simt_ask (s t)) r can ->
  can 0%nat m0 Idle -> si_st (s 0%nat) = st_idle ->
  let i0 := ins 0%nat in
  simt_start i0 = true -> 0 <= nLines i0 < 2 ^ 16 ->
  (forall i, 0 <= i < n_lines i0 -> P (at_line (baseX i0) i) /\ P (at_line (baseZ i0) i)) ->
  prompt D (fun t => simt_ask (s t)) r ->
  exists T m, (0 < T <= D * (7 * Z.to_nat (n_lines i0)) + 1)%nat /\ can T m Idle /\
    simt_done (s T) = true /\ (forall t, (0 < t < T)%nat -> simt_done (s t) = false) /\
    keeps P (kernel (baseX i0) (baseZ i0) (baseY i0) m0 (Z.to_nat (n_lines i0))) m.
Proof.
  intros Hnext Hserv Hcan Hs0 i0 Hst Hn HP Hpr. destruct (Hserv _ _ _ Hcan) as (m1 & o1 & Hcan1 & H1).
  destruct (simt_launch P i0 _ _ _ _ _ Hs0 Hst Hn H1) as [A1 B1]. pose proof (proj1 (n_lines_spec i0 Hn)) as Hn'.
  change i0 with (ins 0%nat) in A1, B1 at 2. rewrite <- Hnext in A1, B1.
  set (at_ := simt_at (baseX i0) (baseZ i0) (baseY i0) (n_lines i0) P m0) in *.
  destruct (prompt_finishes D (fun t => simt_ask (s t)) r
    (fun t k => (exists m o i, can t m o /\ at_ (s t) m o i) /\ k = simt_left (n_lines i0) (s t))
    (fun t => si_st (s t) = st_idle) Hpr) with (t := 1%nat) (k := (7 * Z.to_nat (n_lines i0))%nat) as (T & k & HT & Hfin & [(m & o & i & Hc & Hi) _] & Hno).
  - intros t k [(m & o & i & Hc & Hi) ->] Hb. destruct (Hserv _ _ _ Hc) as (m' & o' & Hc' & H). split; [eapply simt_left_pos; [done | exact Hi | done]|].
    destruct (simt_cycle (baseX i0) (baseZ i0) (baseY i0) (n_lines i0) Hn' P ltac:(by intros; apply HP) ltac:(by intros; apply HP)
      m0 _ _ _ i (ins t) _ _ _ Hi Hb H) as ([i' Hi'] & H2 & H3). rewrite <- Hnext in Hi', H2, H3. eexists. split; [split; [by exists m', o', i' | done] | done].
  - split; [by exists m1, o1, 0%nat | done].
  - pose proof Hi as Hi'. unfold at_, simt_at in Hi'. rewrite Hfin in Hi'. destruct Hi' as (Ei & Hd & -> & K). exists T, m.
    split; [lia|]. split_and!; try done; [|by replace (Z.to_nat (n_lines i0)) with i by lia].
    intros t Ht. destruct (Hno t ltac:(lia)) as (Hb & k' & (m' & o' & j & _ & Hj) & _). by eapply simt_busy; [exact Hj|].
Qed.
