(* ===== verification/Gemm.v ===== *)
(** * The matrix engine — [src/main/scala/aegis/fixedfunc/GemmToMem.scala]

    The engine multiplies two 8 by 8 matrices of 16-bit elements that it fetches
    from the shared memory and stores the 32-bit results back.  The file models
    the engine and shows that on any line port it computes the product, added to
    what its accumulators held. *)

From S2P Require Import Prelude Isa Fabric.

Variant gemm_state := g_idle | g_fetchA | g_fetchB | g_calc | g_store.

#[global] Instance gemm_state_eq_dec : EqDecision gemm_state.
Proof. solve_decision. Defined.

Definition tile : Z := 8.
Definition n2 : Z := tile * tile.
Definition elemsPerLine : Z := 512 / 16.
Definition linesOperand : Z := n2 / elemsPerLine.
Definition elemsCPerLine : Z := 512 / 32.
Definition linesC : Z := n2 / elemsCPerLine.

Record GemmToMem := MkGemm {
  g_st : gemm_state; baseAddr : Z; aTile : list Z; bTile : list Z; cTile : list Z; lineCnt : Z; g_i : Z; g_k : Z; g_j : Z }.

Definition gemm_reset : GemmToMem :=
  let zeros := replicate (Z.to_nat n2) 0 in MkGemm g_idle 0 zeros zeros zeros 0 0 0 0.

(** An index into a [Vec] of 64 elements keeps six bits. *)
Definition vidx (i : Z) : Z := i mod n2.

Definition gemm_busy (s : GemmToMem) : bool := negb (bool_decide (g_st s = g_idle)).

Definition aAddr (s : GemmToMem) : Z := u64 (baseAddr s + Z.shiftl (lineCnt s) 6).
Definition bAddr (s : GemmToMem) : Z := u64 (u64 (baseAddr s + Z.shiftl linesOperand 6) + Z.shiftl (lineCnt s) 6).
Definition cAddr (s : GemmToMem) : Z := u64 (u64 (baseAddr s + Z.shiftl (2 * linesOperand) 6) + Z.shiftl (lineCnt s) 6).

(** The elements of a fetched line go to their places in the tile. *)
Definition fetch_slice (t : list Z) (cnt d : Z) : list Z :=
  foldl (fun t e => vset t (vidx (cnt * elemsPerLine + e)) (bits d (e * 16 + 15) (e * 16))) t (range elemsPerLine).

Definition storeRow (s : GemmToMem) : list Z := (fun e => vget (cTile s) (vidx (lineCnt s * elemsCPerLine + e))) <$> range elemsCPerLine.

(** [Cat(storeRow.reverse)]: the first element lowest. *)
Definition storeData (s : GemmToMem) : Z := foldr (fun v acc => cat 32 acc v) 0 (storeRow s).

Definition engaged (s : GemmToMem) : bool :=
  bool_decide (g_st s = g_fetchA) || bool_decide (g_st s = g_fetchB) || bool_decide (g_st s = g_store).

Definition gemm_ask (s : GemmToMem) : Ask MemReq :=
  MkAsk (engaged s)
    (MkMemReq (match g_st s with g_fetchA => aAddr s | g_fetchB => bAddr s | g_store => cAddr s | _ => 0 end)
       (storeData s) (bool_decide (g_st s = g_store)) 0)
    (engaged s).

Definition elemIdx (s : GemmToMem) : Z := g_i s * tile + g_j s.
Definition acc (s : GemmToMem) : Z :=
  u32 (vget (cTile s) (vidx (elemIdx s)) + vget (aTile s) (vidx (g_i s * tile + g_k s)) * vget (bTile s) (vidx (g_k s * tile + g_j s))).

(** The command port: [cmd.valid] and [cmd.bits.data]. *)
Definition gemm_next (s : GemmToMem) (cmd_valid : bool) (cmd_data : Z) (r : Reply) : GemmToMem :=
  let resp := resp_fire (gemm_ask s) r in
  let cnt := lineCnt s in
  match g_st s with
  | g_idle =>
      if cmd_valid then MkGemm g_fetchA cmd_data (aTile s) (bTile s) (cTile s) 0 (g_i s) (g_k s) (g_j s) else s
  | g_fetchA =>
      let a := fetch_slice (aTile s) cnt (r_bits r) in
      if resp then
        if cnt =? linesOperand - 1 then MkGemm g_fetchB (baseAddr s) a (bTile s) (cTile s) 0 (g_i s) (g_k s) (g_j s)
        else MkGemm g_fetchA (baseAddr s) a (bTile s) (cTile s) (u8 (cnt + 1)) (g_i s) (g_k s) (g_j s)
      else MkGemm g_fetchA (baseAddr s) a (bTile s) (cTile s) cnt (g_i s) (g_k s) (g_j s)
  | g_fetchB =>
      let b := fetch_slice (bTile s) cnt (r_bits r) in
      if resp then
        if cnt =? linesOperand - 1 then MkGemm g_calc (baseAddr s) (aTile s) b (cTile s) 0 0 0 0
        else MkGemm g_fetchB (baseAddr s) (aTile s) b (cTile s) (u8 (cnt + 1)) (g_i s) (g_k s) (g_j s)
      else MkGemm g_fetchB (baseAddr s) (aTile s) b (cTile s) cnt (g_i s) (g_k s) (g_j s)
  | g_calc =>
      let c := vset (cTile s) (vidx (elemIdx s)) (acc s) in
      if g_j s =? tile - 1 then
        if g_k s =? tile - 1 then
          if g_i s =? tile - 1 then MkGemm g_store (baseAddr s) (aTile s) (bTile s) c 0 (g_i s) 0 0
          else MkGemm g_calc (baseAddr s) (aTile s) (bTile s) c cnt (u8 (g_i s + 1)) 0 0
        else MkGemm g_calc (baseAddr s) (aTile s) (bTile s) c cnt (g_i s) (u8 (g_k s + 1)) 0
      else MkGemm g_calc (baseAddr s) (aTile s) (bTile s) c cnt (g_i s) (g_k s) (u8 (g_j s + 1))
  | g_store =>
      if resp then
        MkGemm (if cnt =? linesC - 1 then g_idle else g_store) (baseAddr s) (aTile s) (bTile s) (cTile s) (u8 (cnt + 1)) (g_i s) (g_k s) (g_j s)
      else s
  end.

(** ** Lines and tiles *)

Lemma length_fetch_loop t cnt d l :
  length (foldl (fun t e => vset t (vidx (cnt * elemsPerLine + e)) (bits d (e * 16 + 15) (e * 16))) t l) = length t.
Proof. revert t. induction l as [|e l IH]; intros t; cbn [foldl]; [done | by rewrite IH, length_vset]. Qed.

Lemma length_fetch_slice t cnt d : length (fetch_slice t cnt d) = length t.
Proof. apply length_fetch_loop. Qed.

Lemma fetch_loop t cnt d l x :
  length t = 64%nat -> 0 <= cnt < 2 -> 0 <= x < 64 -> Forall (fun e => 0 <= e < 32) l ->
  vget (foldl (fun t e => vset t (vidx (cnt * elemsPerLine + e)) (bits d (e * 16 + 15) (e * 16))) t l) x =
    if bool_decide (x - 32 * cnt ∈ l) then slice d (16 * (x - 32 * cnt)) 16 else vget t x.
Proof.
  intros Ht Hc Hx Hl. revert t Ht. induction l as [|e l IH] using rev_ind; intros t Ht; [done|].
  apply list.Forall_app in Hl as [Hl He]. apply (list.Forall_cons_1 _ e []) in He as [He _]. rewrite foldl_app. cbn [foldl].
  assert (vidx (cnt * elemsPerLine + e) = 32 * cnt + e) as E
    by (unfold vidx; change n2 with 64; change elemsPerLine with 32; rewrite Z.mod_small; lia).
  rewrite E, vget_vset by (rewrite ?length_fetch_loop; lia).
  rewrite IH by done. destruct (Z.eqb_spec (32 * cnt + e) x) as [Ex|Ex].
  - rewrite bool_decide_true by (apply elem_of_app; right; apply list_elem_of_singleton; lia). unfold bits. f_equal; lia.
  - destruct (decide (x - 32 * cnt ∈ l)) as [Hi|Hi].
    + rewrite !bool_decide_true by (rewrite ?elem_of_app; auto). done.
    + rewrite !bool_decide_false; [done | | done]. rewrite elem_of_app, list_elem_of_singleton. intros [?|?]; [done | lia].
Qed.

Lemma fetch_slice_get t cnt d x :
  length t = 64%nat -> 0 <= cnt < 2 -> 0 <= x < 64 ->
  vget (fetch_slice t cnt d) x = if x / 32 =? cnt then slice d (16 * (x mod 32)) 16 else vget t x.
Proof.
  intros Ht Hc Hx. unfold fetch_slice. rewrite fetch_loop; [|done..|].
  2: { apply list.Forall_forall. intros e He. by apply elem_of_range in He. }
  pose proof (Z.div_mod x 32 ltac:(lia)). pose proof (Z.mod_pos_bound x 32 ltac:(lia)). destruct (Z.eqb_spec (x / 32) cnt).
  - rewrite bool_decide_true by (apply elem_of_range; change elemsPerLine with 32; lia). f_equal. lia.
  - rewrite bool_decide_false; [done|]. rewrite elem_of_range. change elemsPerLine with 32. nia.
Qed.

Lemma cat_row row e :
  Forall (fun v => 0 <= v < 2 ^ 32) row -> 0 <= e < Z.of_nat (length row) ->
  slice (foldr (fun v acc => cat 32 acc v) 0 row) (32 * e) 32 = vget row e.
Proof.
  intros H. revert e. induction H as [|v row Hv Hrow IH]; intros e He; cbn [length] in He; [lia|]. cbn [foldr]. unfold cat.
  replace (foldr _ 0 row * 2 ^ 32 + v) with (v + 2 ^ 32 * foldr (fun v acc => cat 32 acc v) 0 row) by (unfold cat; lia).
  destruct (decide (e = 0)) as [->|].
  - rewrite slice_low by lia. by apply slice0_small.
  - rewrite slice_high by lia. replace (32 * e - 32) with (32 * (e - 1)) by lia. rewrite IH by lia.
    unfold vget. replace (Z.to_nat e) with (S (Z.to_nat (e - 1))) by lia. done.
Qed.

(** The registers of the engine, in any state. *)
Record gemm_ok (s : GemmToMem) : Prop := {
  go_a : length (aTile s) = 64%nat; go_b : length (bTile s) = 64%nat; go_c : length (cTile s) = 64%nat;
  go_range : Forall (fun v => 0 <= v < 2 ^ 32) (cTile s)
}.

Lemma gemm_reset_ok : gemm_ok gemm_reset.
Proof. split; [done..|]. apply Forall_replicate. lia. Qed.

Lemma gemm_next_ok s v d r : gemm_ok s -> gemm_ok (gemm_next s v d r).
Proof.
  intros [Ha Hb Hc Hr]. assert (Forall (fun v => 0 <= v < 2 ^ 32) (vset (cTile s) (vidx (elemIdx s)) (acc s))) as Hv.
  { unfold vset. apply list.Forall_insert; [done | apply u32_range]. }
  unfold gemm_next. repeat case_match; split; cbn [aTile bTile cTile]; rewrite ?length_fetch_slice, ?length_vset; done.
Qed.

(** A stored line holds sixteen results. *)
Lemma storeData_get s e :
  gemm_ok s -> 0 <= lineCnt s < 4 -> 0 <= e < 16 -> slice (storeData s) (32 * e) 32 = vget (cTile s) (16 * lineCnt s + e).
Proof.
  intros [_ _ Hc Hr] Hl He. unfold storeData. rewrite cat_row.
  - unfold storeRow. rewrite vget_fmap by (rewrite length_range; change elemsCPerLine with 16; lia).
    rewrite vget_range by done. f_equal. unfold vidx. change n2 with 64. change elemsCPerLine with 16. rewrite Z.mod_small; lia.
  - unfold storeRow. apply list.Forall_fmap, list.Forall_forall. intros x _.
    pose proof (Z.mod_pos_bound (lineCnt s * elemsCPerLine + x) n2 ltac:(done)) as Hv. fold (vidx (lineCnt s * elemsCPerLine + x)) in Hv. change n2 with 64 in Hv.
    exact (list.Forall_lookup_total_1 _ _ (Z.to_nat (vidx (lineCnt s * elemsCPerLine + x))) Hr ltac:(lia)).
  - unfold storeRow. rewrite length_fmap, length_range. change elemsCPerLine with 16. lia.
Qed.

(** ** Accesses with the request and the ready line held up together *)

Definition waits (o : outstanding) : nat := match o with Idle => 0 | _ => 1 end.

Lemma waits_le o : (waits o <= 1)%nat.
Proof. destruct o; cbn; lia. Qed.

Definition fetching (P : Z -> Prop) (M : lines) (l : Z) (m : lines) (o : outstanding) : Prop := (o = Idle /\ keeps P M m) \/ reading P M l m o.
Definition putting (P : Z -> Prop) (M : lines) (l v : Z) (m : lines) (o : outstanding) : Prop := (o = Idle /\ keeps P M m) \/ writing P M l v m o.

Section Held.
Context (P : Z -> Prop) (a : Ask MemReq) (r : Reply) (M : lines) (l : Z) (Pl : P l).
Context (held : a_valid a = true /\ a_ready a = true) (at_l : line_of (q_addr (a_bits a)) = l).

(** Without an answer the access goes on, and moves on unless it stalls. *)
Definition goes_on (acc : lines -> outstanding -> Prop) (o : outstanding) (m' : lines) (o' : outstanding) : Prop :=
  acc m' o' /\ (waits o <= waits o')%nat /\ (stalled a r = false -> (waits o < waits o')%nat).

Lemma fetch_goes m o m' o' :
  q_isWrite (a_bits a) = false -> fetching P M l m o -> port_cycle (keeps P) a r (m, o) (m', o') ->
  if resp_fire a r then r_bits r = M l /\ o' = Idle /\ keeps P M m' /\ waits o = 1%nat else goes_on (fetching P M l) o m' o'.
Proof.
  destruct held as [Hv Hr]. unfold goes_on, stalled. rewrite Hv, Hr. cbn [orb andb]. intros Hw [[-> K] | H] Hp.
  - destruct (read_starts P a r M l Pl m m' o' Hw at_l K Hp) as [Ev H]. unfold resp_fire. rewrite Ev. cbn [andb]. rewrite orb_false_r.
    destruct (req_fire a r); cbn [negb].
    + split; [by right|]. assert (waits o' = 1%nat) as -> by (destruct H as [_ H]; by destruct o'). cbn. lia.
    + destruct H as [-> K']. split; [by left|]. split; [done|]. done.
  - destruct (read_goes P a r M l Pl m o m' o' H Hp) as [Er H']. assert (waits o = 1%nat) as -> by (destruct H as [_ H]; by destruct o).
    unfold req_fire. rewrite Er, andb_false_r. cbn [orb]. destruct (resp_fire a r); cbn [negb]; [naive_solver|].
    split; [by right|]. assert (waits o' = 1%nat) as -> by (destruct H' as [_ H']; by destruct o'). done.
Qed.

Lemma put_goes v m o m' o' :
  q_isWrite (a_bits a) = true -> q_data (a_bits a) = v -> putting P M l v m o -> port_cycle (keeps P) a r (m, o) (m', o') ->
  if resp_fire a r then o' = Idle /\ keeps P (store M l v) m' /\ waits o = 1%nat else goes_on (putting P M l v) o m' o'.
Proof.
  destruct held as [Hv Hr]. unfold goes_on, stalled. rewrite Hv, Hr. cbn [orb andb]. intros Hw Hd [[-> K] | H] Hp.
  - destruct (write_starts P a r M l v m m' o' Hw at_l Hd K Hp) as [Ev H]. unfold resp_fire. rewrite Ev. cbn [andb]. rewrite orb_false_r.
    destruct (req_fire a r); cbn [negb].
    + split; [by right|]. assert (waits o' = 1%nat) as -> by (by destruct o'). cbn. lia.
    + destruct H as [-> K']. split; [by left|]. split; [done|]. done.
  - destruct (write_goes P a r M l v m o m' o' H Hp) as [Er H']. assert (waits o = 1%nat) as -> by (by destruct o).
    unfold req_fire. rewrite Er, andb_false_r. cbn [orb]. destruct (resp_fire a r); cbn [negb]; [naive_solver|].
    split; [by right|]. assert (waits o' = 1%nat) as -> by (by destruct o'). done.
Qed.
End Held.

(** ** The product *)

Section Product.
Context (b : Z) (P : Z -> Prop) (P_lines : forall i, 0 <= i < 8 -> P (at_line b i)) (m0 : lines) (c0 : list Z).

(** The operands in the memory: element [x] of a matrix in row-major order. *)
Definition elemA (x : Z) : Z := slice (m0 (at_line b (x / 32))) (16 * (x mod 32)) 16.
Definition elemB (x : Z) : Z := slice (m0 (at_line b (2 + x / 32))) (16 * (x mod 32)) 16.

(** The first [n] terms of an element of the product. *)
Fixpoint psum (i j : Z) (n : nat) : Z :=
  match n with O => 0 | S n => psum i j n + elemA (8 * i + Z.of_nat n) * elemB (8 * Z.of_nat n + j) end.

Definition partial (x : Z) (n : Z) : Z := u32 (vget c0 x + psum (x / 8) (x mod 8) (Z.to_nat n)).

(** The terms of row [i] and column [j] that are added when the loop is at
    [(g_i, g_k, g_j)]. *)
Definition terms (s : GemmToMem) (i j : Z) : Z :=
  if i <? g_i s then 8 else if i =? g_i s then g_k s + (if j <? g_j s then 1 else 0) else 0.

Definition out_line (ct : list Z) (c : nat) : Z := storeData (MkGemm g_store 0 [] [] ct (Z.of_nat c) 0 0 0).

Fixpoint stored (ct : list Z) (c : nat) : lines :=
  match c with O => m0 | S c => store (stored ct c) (at_line b (4 + Z.of_nat c)) (out_line ct c) end.

Definition all_of (f : Z -> Z) (t : list Z) (n : Z) : Prop := forall x, 0 <= x < n -> vget t x = f x.

Definition gemm_at (s : GemmToMem) (m : lines) (o : outstanding) : Prop :=
  let c := lineCnt s in
  gemm_ok s /\
  match g_st s with
  | g_fetchA => baseAddr s = b /\ 0 <= c < 2 /\ cTile s = c0 /\ all_of elemA (aTile s) (32 * c) /\ fetching P m0 (at_line b c) m o
  | g_fetchB =>
      baseAddr s = b /\ 0 <= c < 2 /\ cTile s = c0 /\ all_of elemA (aTile s) 64 /\ all_of elemB (bTile s) (32 * c) /\
      fetching P m0 (at_line b (2 + c)) m o
  | g_calc =>
      baseAddr s = b /\ 0 <= g_i s < 8 /\ 0 <= g_k s < 8 /\ 0 <= g_j s < 8 /\ all_of elemA (aTile s) 64 /\ all_of elemB (bTile s) 64 /\
      all_of (fun x => partial x (terms s (x / 8) (x mod 8))) (cTile s) 64 /\ o = Idle /\ keeps P m0 m
  | g_store =>
      baseAddr s = b /\ 0 <= c < 4 /\ all_of (fun x => partial x 8) (cTile s) 64 /\
      putting P (stored (cTile s) (Z.to_nat c)) (at_line b (4 + c)) (out_line (cTile s) (Z.to_nat c)) m o
  | g_idle => all_of (fun x => partial x 8) (cTile s) 64 /\ o = Idle /\ keeps P (stored (cTile s) 4) m
  end.

(** The handshakes and the additions that remain. *)
Definition gemm_left (s : GemmToMem) (o : outstanding) : nat :=
  let c := Z.to_nat (lineCnt s) in
  match g_st s with
  | g_idle => 0
  | g_fetchA => 528 - 2 * c - waits o
  | g_fetchB => 524 - 2 * c - waits o
  | g_calc => 520 - Z.to_nat (64 * g_i s + 8 * g_k s + g_j s)
  | g_store => 8 - 2 * c - waits o
  end.

Definition advances (s : GemmToMem) (o : outstanding) (r : Reply) (s' : GemmToMem) (m' : lines) (o' : outstanding) : Prop :=
  gemm_at s' m' o' /\ (gemm_left s' o' <= gemm_left s o)%nat /\ (stalled (gemm_ask s) r = false -> (gemm_left s' o' < gemm_left s o)%nat).

Lemma engaged_held s : engaged s = true -> a_valid (gemm_ask s) = true /\ a_ready (gemm_ask s) = true.
Proof. by intros H. Qed.

Lemma all_fetched f t cnt d n :
  length t = 64%nat -> 0 <= cnt < 2 -> n <= 32 * cnt -> all_of f t n -> all_of f (fetch_slice t cnt d) n.
Proof.
  intros Ht Hc Hn H x Hx. rewrite fetch_slice_get by lia. destruct (Z.eqb_spec (x / 32) cnt); [|by apply H].
  pose proof (Z.div_mod x 32 ltac:(lia)). pose proof (Z.mod_pos_bound x 32 ltac:(lia)). lia.
Qed.

Lemma all_fetched_next f t cnt d :
  length t = 64%nat -> 0 <= cnt < 2 -> all_of f t (32 * cnt) -> (forall x, 0 <= x < 64 -> x / 32 = cnt -> slice d (16 * (x mod 32)) 16 = f x) ->
  all_of f (fetch_slice t cnt d) (32 * (cnt + 1)).
Proof.
  intros Ht Hc H Hd x Hx. rewrite fetch_slice_get by lia. destruct (Z.eqb_spec (x / 32) cnt) as [E|E]; [apply Hd; lia|].
  apply H. pose proof (Z.div_mod x 32 ltac:(lia)). pose proof (Z.mod_pos_bound x 32 ltac:(lia)). lia.
Qed.

Lemma gemm_fetchesA s m o v d r m' o' :
  gemm_at s m o -> g_st s = g_fetchA -> port_cycle (keeps P) (gemm_ask s) r (m, o) (m', o') ->
  advances s o r (gemm_next s v d r) m' o'.
Proof.
  intros [Hok H] Es Hp. rewrite Es in H. destruct H as (Hb & Hc & Hct & Ha & Hf). pose proof (gemm_next_ok s v d r Hok) as Hok'.
  assert (engaged s = true) as He by (unfold engaged; by rewrite Es).
  pose proof (fetch_goes P (gemm_ask s) r m0 (at_line b (lineCnt s)) ltac:(apply P_lines; lia) (engaged_held s He)
    ltac:(unfold gemm_ask; rewrite Es; cbn; unfold aAddr, at_line; by rewrite Hb) m o m' o' ltac:(unfold gemm_ask; cbn; by rewrite Es) Hf Hp) as H.
  unfold advances, gemm_at, gemm_left. unfold gemm_next in *. rewrite Es in *. destruct (resp_fire (gemm_ask s) r).
  - destruct H as (Hr & -> & K & Hw). rewrite Hw.
    assert (all_of elemA (fetch_slice (aTile s) (lineCnt s) (r_bits r)) (32 * (lineCnt s + 1))) as Ha'.
    { apply all_fetched_next; [apply Hok | done..|]. intros x Hx Ex. rewrite Hr. unfold elemA. by rewrite Ex. }
    change (linesOperand - 1) with 1 in *. destruct (Z.eqb_spec (lineCnt s) 1) as [E|E]; cbn in Hok' |- *.
    + replace (32 * (lineCnt s + 1)) with 64 in Ha' by lia. split; [|lia]. split_and!; try done; try lia; [intros x Hx; lia | by left].
    + assert (lineCnt s = 0) as E0 by lia. rewrite E0 in *. change (u8 (0 + 1)) with 1 in *. split; [|lia]. split_and!; try done; try lia. by left.
  - destruct H as (H1 & H2 & H3). pose proof (waits_le o'). cbn [g_st baseAddr aTile bTile cTile lineCnt]. split; [|split; [lia | intros Hs; specialize (H3 Hs); lia]]. split_and!; try done; try lia. apply all_fetched; [apply Hok | done | lia | done].
Qed.

Lemma gemm_fetchesB s m o v d r m' o' :
  gemm_at s m o -> g_st s = g_fetchB -> port_cycle (keeps P) (gemm_ask s) r (m, o) (m', o') ->
  advances s o r (gemm_next s v d r) m' o'.
Proof.
  intros [Hok H] Es Hp. rewrite Es in H. destruct H as (Hb & Hc & Hct & Ha & Hbt & Hf). pose proof (gemm_next_ok s v d r Hok) as Hok'.
  assert (engaged s = true) as He by (unfold engaged; by rewrite Es).
  pose proof (fetch_goes P (gemm_ask s) r m0 (at_line b (2 + lineCnt s)) ltac:(apply P_lines; lia) (engaged_held s He)
    ltac:(unfold gemm_ask; rewrite Es; cbn; unfold bAddr; rewrite Hb; apply at_line_after) m o m' o' ltac:(unfold gemm_ask; cbn; by rewrite Es) Hf Hp) as H.
  unfold advances, gemm_at, gemm_left. unfold gemm_next in *. rewrite Es in *. destruct (resp_fire (gemm_ask s) r).
  - destruct H as (Hr & -> & K & Hw). rewrite Hw.
    assert (all_of elemB (fetch_slice (bTile s) (lineCnt s) (r_bits r)) (32 * (lineCnt s + 1))) as Ha'.
    { apply all_fetched_next; [apply Hok | done..|]. intros x Hx Ex. rewrite Hr. unfold elemB. by rewrite Ex. }
    change (linesOperand - 1) with 1 in *. destruct (Z.eqb_spec (lineCnt s) 1) as [E|E]; cbn in Hok' |- *.
    + replace (32 * (lineCnt s + 1)) with 64 in Ha' by lia. split; [|lia]. split_and!; try done; try lia. intros x Hx. unfold terms, partial. cbn.
      pose proof (Z.div_pos x 8 ltac:(lia) ltac:(lia)). rewrite (proj2 (Z.ltb_ge _ _)) by lia.
      pose proof (Z.mod_pos_bound x 8 ltac:(lia)). rewrite (proj2 (Z.ltb_ge (x mod 8) 0)) by lia.
      assert (psum (x / 8) (x mod 8) (Z.to_nat (if x / 8 =? 0 then 0 + 0 else 0)) = 0) as -> by (by destruct (x / 8 =? 0)).
      rewrite Z.add_0_r, Hct. symmetry. apply Z.mod_small. rewrite <- Hct.
      exact (list.Forall_lookup_total_1 _ _ (Z.to_nat x) (go_range s Hok) ltac:(rewrite (go_c s Hok); lia)).
    + assert (lineCnt s = 0) as E0 by lia. rewrite E0 in *. change (u8 (0 + 1)) with 1 in *. split; [|lia]. split_and!; try done; try lia. by left.
  - destruct H as (H1 & H2 & H3). pose proof (waits_le o'). cbn [g_st baseAddr aTile bTile cTile lineCnt]. split; [|split; [lia | intros Hs; specialize (H3 Hs); lia]]. split_and!; try done; try lia. apply all_fetched; [apply Hok | done | lia | done].
Qed.

Lemma partial_next x n : 0 <= n -> u32 (partial x n + elemA (8 * (x / 8) + n) * elemB (8 * n + x mod 8)) = partial x (n + 1).
Proof.
  intros Hn. unfold partial, u32. rewrite Zplus_mod_idemp_l. replace (Z.to_nat (n + 1)) with (S (Z.to_nat n)) by lia. cbn [psum].
  rewrite Z2Nat.id by lia. f_equal. lia.
Qed.

(** One addition of the loop. *)
Lemma calc_adds s :
  gemm_ok s -> 0 <= g_i s < 8 -> 0 <= g_k s < 8 -> 0 <= g_j s < 8 -> all_of elemA (aTile s) 64 -> all_of elemB (bTile s) 64 ->
  all_of (fun x => partial x (terms s (x / 8) (x mod 8))) (cTile s) 64 ->
  forall x, 0 <= x < 64 ->
    vget (vset (cTile s) (vidx (elemIdx s)) (acc s)) x =
      partial x (if (x / 8 =? g_i s) && (x mod 8 =? g_j s) then g_k s + 1 else terms s (x / 8) (x mod 8)).
Proof.
  intros Hok Hi Hk Hj Ha Hb Hc x Hx. unfold acc, elemIdx, vidx. change tile with 8. change n2 with 64. rewrite !(Z.mod_small _ 64) by lia.
  rewrite vget_vset by (rewrite ?(go_c s Hok); lia). pose proof (Z.div_mod x 8 ltac:(lia)) as Ex. pose proof (Z.mod_pos_bound x 8 ltac:(lia)) as Hm.
  destruct (Z.eqb_spec (g_i s * 8 + g_j s) x) as [E|E].
  - assert (x / 8 = g_i s) as Ei by lia. assert (x mod 8 = g_j s) as Ej by lia. rewrite E, Ha, Hb, Hc, Ei, Ej, !Z.eqb_refl by lia. cbn [andb].
    rewrite <- partial_next by lia. rewrite Ei, Ej. unfold terms. rewrite Z.ltb_irrefl, Z.eqb_refl, Z.ltb_irrefl, Z.add_0_r.
    do 4 f_equal; lia.
  - rewrite Hc by lia. destruct (Z.eqb_spec (x / 8) (g_i s)), (Z.eqb_spec (x mod 8) (g_j s)); cbn [andb]; try done. lia.
Qed.

Lemma u8_next x : 0 <= x < 8 -> u8 (x + 1) = x + 1.
Proof. intros H. apply Z.mod_small. lia. Qed.

Lemma gemm_calcs s m o v d r m' o' :
  gemm_at s m o -> g_st s = g_calc -> port_cycle (keeps P) (gemm_ask s) r (m, o) (m', o') ->
  advances s o r (gemm_next s v d r) m' o'.
Proof.
  intros [Hok H] Es Hp. rewrite Es in H. destruct H as (Hb & Hi & Hk & Hj & Ha & Hbt & Hc & -> & K).
  pose proof (gemm_next_ok s v d r Hok) as Hok'. pose proof (calc_adds s Hok Hi Hk Hj Ha Hbt Hc) as Hadd.
  destruct (rest_goes P (gemm_ask s) r m0 m m' o' ltac:(unfold gemm_ask, engaged; cbn; by rewrite Es) K Hp) as [-> K'].
  unfold advances, gemm_at, gemm_left. unfold gemm_next in *. rewrite Es in *. change (tile - 1) with 7 in *.
  rewrite !u8_next in * by lia.
  destruct (Z.eqb_spec (g_j s) 7) as [Ej|Ej]; [destruct (Z.eqb_spec (g_k s) 7) as [Ek|Ek]; [destruct (Z.eqb_spec (g_i s) 7) as [Ei|Ei]|]|];
    cbn [g_st baseAddr aTile bTile cTile lineCnt g_i g_k g_j] in *.
  - split; [|cbn; lia]. split_and!; try done; try lia; [|by left]. intros x Hx. rewrite Hadd by done. f_equal. unfold terms.
    pose proof (Z.div_mod x 8 ltac:(lia)). pose proof (Z.mod_pos_bound x 8 ltac:(lia)). bool_cases; cbn [andb]; lia.
  - split; [|lia]. split_and!; try done; try lia. intros x Hx. rewrite Hadd by done. f_equal. unfold terms. cbn [g_i g_k g_j].
    pose proof (Z.div_mod x 8 ltac:(lia)). pose proof (Z.mod_pos_bound x 8 ltac:(lia)). bool_cases; cbn [andb]; lia.
  - split; [|lia]. split_and!; try done; try lia. intros x Hx. rewrite Hadd by done. f_equal. unfold terms. cbn [g_i g_k g_j].
    pose proof (Z.div_mod x 8 ltac:(lia)). pose proof (Z.mod_pos_bound x 8 ltac:(lia)). bool_cases; cbn [andb]; lia.
  - split; [|lia]. split_and!; try done; try lia. intros x Hx. rewrite Hadd by done. f_equal. unfold terms. cbn [g_i g_k g_j].
    pose proof (Z.div_mod x 8 ltac:(lia)). pose proof (Z.mod_pos_bound x 8 ltac:(lia)). bool_cases; cbn [andb]; lia.
Qed.

Lemma gemm_stores s m o v d r m' o' :
  gemm_at s m o -> g_st s = g_store -> port_cycle (keeps P) (gemm_ask s) r (m, o) (m', o') ->
  advances s o r (gemm_next s v d r) m' o'.
Proof.
  intros [Hok H] Es Hp. rewrite Es in H. destruct H as (Hb & Hc & Hct & Hf). pose proof (gemm_next_ok s v d r Hok) as Hok'.
  assert (engaged s = true) as He by (unfold engaged; by rewrite Es).
  pose proof (put_goes P (gemm_ask s) r (stored (cTile s) (Z.to_nat (lineCnt s))) (at_line b (4 + lineCnt s)) ltac:(apply P_lines; lia) (engaged_held s He)
    ltac:(unfold gemm_ask; rewrite Es; cbn; unfold cAddr; rewrite Hb; apply (at_line_after b 4)) (out_line (cTile s) (Z.to_nat (lineCnt s))) m o m' o'
    ltac:(unfold gemm_ask; cbn; by rewrite Es) ltac:(unfold gemm_ask, out_line, storeData, storeRow; cbn [a_bits q_data cTile lineCnt]; by rewrite Z2Nat.id by lia) Hf Hp) as H.
  unfold advances, gemm_at, gemm_left. unfold gemm_next in *. rewrite Es in *. destruct (resp_fire (gemm_ask s) r).
  - destruct H as (-> & K & Hw). rewrite Hw. change (linesC - 1) with 3 in *.
    cbn [g_st baseAddr aTile bTile cTile lineCnt g_i g_k g_j] in *. rewrite u8_next in * by lia.
    assert (keeps P (stored (cTile s) (Z.to_nat (lineCnt s + 1))) m') as K'.
    { replace (Z.to_nat (lineCnt s + 1)) with (S (Z.to_nat (lineCnt s))) by lia. cbn [stored]. by rewrite Z2Nat.id by lia. }
    destruct (Z.eqb_spec (lineCnt s) 3) as [E|E]; (split; [|cbn [waits]; lia]).
    + split_and!; try done. by rewrite E in K'.
    + split_and!; try done; try lia. by left.
  - destruct H as (H1 & H2 & H3). pose proof (waits_le o'). rewrite Es. split; [|split; [lia | intros Hs; specialize (H3 Hs); lia]]. split_and!; try done; try lia.
Qed.

(** A cycle keeps the engine on the product, and moves it on unless it stalls. *)
Lemma gemm_cycle s m o v d r m' o' :
  gemm_at s m o -> g_st s <> g_idle -> port_cycle (keeps P) (gemm_ask s) r (m, o) (m', o') -> advances s o r (gemm_next s v d r) m' o'.
Proof. intros H Hs Hp. destruct (g_st s) eqn:Es; [done|..]; eauto using gemm_fetchesA, gemm_fetchesB, gemm_calcs, gemm_stores. Qed.

Lemma gemm_left_pos s m o : gemm_at s m o -> g_st s <> g_idle -> (0 < gemm_left s o)%nat.
Proof. unfold gemm_at, gemm_left. pose proof (waits_le o). destruct (g_st s); [done|..]; intros (_ & ?) _; lia. Qed.

Lemma stored_frame ct c l : (forall k, 0 <= k < Z.of_nat c -> at_line b (4 + k) <> l) -> stored ct c l = m0 l.
Proof.
  induction c as [|c IH]; intros H; [done|]. cbn [stored]. unfold store. destruct (Z.eqb_spec l (at_line b (4 + Z.of_nat c))) as [->|].
  - by destruct (H (Z.of_nat c) ltac:(lia)).
  - apply IH. intros k Hk. apply H. lia.
Qed.

Lemma stored_get ct n c : (c < n <= 4)%nat -> stored ct n (at_line b (4 + Z.of_nat c)) = out_line ct c.
Proof.
  induction n as [|n IH]; intros H; [lia|]. cbn [stored]. unfold store. destruct (Z.eqb_spec (at_line b (4 + Z.of_nat c)) (at_line b (4 + Z.of_nat n))) as [E|E].
  - apply at_line_inj in E; [|lia..]. by replace c with n by lia.
  - apply IH. destruct (decide (c = n)) as [->|]; [done | lia].
Qed.

Lemma storeData_same s s' : cTile s = cTile s' -> lineCnt s = lineCnt s' -> storeData s = storeData s'.
Proof. unfold storeData, storeRow. by intros -> ->. Qed.

Lemma out_line_get s x :
  gemm_ok s -> 0 <= x < 64 -> slice (out_line (cTile s) (Z.to_nat (x / 16))) (32 * (x mod 16)) 32 = vget (cTile s) x.
Proof.
  intros Hok Hx. pose proof (Z.div_mod x 16 ltac:(lia)). pose proof (Z.mod_pos_bound x 16 ltac:(lia)). unfold out_line.
  set (s' := MkGemm g_store 0 (aTile s) (bTile s) (cTile s) (x / 16) 0 0 0). assert (gemm_ok s') as H' by (by destruct Hok).
  rewrite (storeData_same _ s') by (cbn [lineCnt cTile s']; lia || done). rewrite storeData_get by (cbn [lineCnt s']; lia || done).
  cbn [lineCnt cTile s']. f_equal. lia.
Qed.
End Product.

(** ** Commands *)

Lemma gemm_launch P s d r m m' o' :
  g_st s = g_idle -> gemm_ok s -> port_cycle (keeps P) (gemm_ask s) r (m, Idle) (m', o') ->
  gemm_at d P m (cTile s) (gemm_next s true d r) m' o' /\ gemm_left (gemm_next s true d r) o' = 528%nat.
Proof.
  intros Es Hok Hp. destruct (rest_goes P (gemm_ask s) r m m m' o' ltac:(unfold gemm_ask, engaged; cbn; by rewrite Es) (keeps_refl P m) Hp) as [-> K].
  pose proof (gemm_next_ok s true d r Hok) as Hok'. unfold gemm_at, gemm_left. unfold gemm_next in *. rewrite Es in *.
  cbn [g_st baseAddr aTile bTile cTile lineCnt] in *. split; [|done]. split_and!; try done; try lia; [intros x Hx; lia | by left].
Qed.

(** What a finished engine has stored. *)
Lemma gemm_result d P m0 c0 s m o i j :
  (forall i, 0 <= i < 8 -> P (at_line d i)) -> gemm_at d P m0 c0 s m o -> g_st s = g_idle -> 0 <= i < 8 -> 0 <= j < 8 ->
  let v := u32 (vget c0 (8 * i + j) + psum d m0 i j 8) in
  slice (m (at_line d (4 + (8 * i + j) / 16))) (32 * ((8 * i + j) mod 16)) 32 = v /\ vget (cTile s) (8 * i + j) = v.
Proof.
  intros HP [Hok H] Es Hi Hj v. rewrite Es in H. destruct H as (Hc & -> & K).
  assert (vget (cTile s) (8 * i + j) = v) as Ev.
  { rewrite Hc by lia. unfold partial, v. replace ((8 * i + j) / 8) with i by (rewrite Z.mul_comm, Z.div_add_l by lia; rewrite Z.div_small; lia).
    by replace ((8 * i + j) mod 8) with j by (rewrite Z.add_comm, Z.mul_comm, Z.mod_add by lia; rewrite Z.mod_small; lia). }
  split; [|done]. rewrite <- Ev, <- (out_line_get s (8 * i + j) Hok ltac:(lia)).
  pose proof (Z.div_mod (8 * i + j) 16 ltac:(lia)). pose proof (Z.mod_pos_bound (8 * i + j) 16 ltac:(lia)).
  rewrite (K (at_line d (4 + (8 * i + j) / 16))) by first [apply line_of_range | apply HP; lia].
  rewrite <- (stored_get d m0 (cTile s) 4 (Z.to_nat ((8 * i + j) / 16))) by lia. by rewrite Z2Nat.id by lia.
Qed.

(** The lines of the engine at base [d] hold the operands of [m0] and, element by
    element, their product added to [c0]; so do the accumulators [ct]. *)
Definition multiplied (d : Z) (m0 : lines) (c0 : list Z) (m : lines) (ct : list Z) : Prop :=
  (forall i, 0 <= i < 4 -> m (at_line d i) = m0 (at_line d i)) /\
  (forall i j, 0 <= i < 8 -> 0 <= j < 8 ->
    let v := u32 (vget c0 (8 * i + j) + psum d m0 i j 8) in
    slice (m (at_line d (4 + (8 * i + j) / 16))) (32 * ((8 * i + j) mod 16)) 32 = v /\ vget ct (8 * i + j) = v).

(** Started on a port that never stalls it for [D] cycles in a row, with other
    agents away from its eight lines, the engine is idle again for the first
    time within [528 D + 1] cycles, and has multiplied. *)
Lemma gemm_finishes D P (s : nat -> GemmToMem) (cmd : nat -> bool * Z) r can m0 :
  (forall t, s (S t) = gemm_next (s t) (fst (cmd t)) (snd (cmd t)) (r t)) -> serves P (fun t => gemm_ask (s t)) r can ->
  can 0%nat m0 Idle -> gemm_ok (s 0%nat) -> g_st (s 0%nat) = g_idle -> fst (cmd 0%nat) = true ->
  let d := snd (cmd 0%nat) in
  (forall i, 0 <= i < 8 -> P (at_line d i)) -> prompt D (fun t => gemm_ask (s t)) r ->
  exists T m, (0 < T <= D * 528 + 1)%nat /\ can T m Idle /\
    gemm_busy (s T) = false /\ (forall t, (0 < t < T)%nat -> gemm_busy (s t) = true) /\ multiplied d m0 (cTile (s 0%nat)) m (cTile (s T)).
Proof.
  intros Hnext Hserv Hcan Hok Hs0 Hcmd d HP Hpr. destruct (Hserv _ _ _ Hcan) as (m1 & o1 & Hcan1 & H1).
  destruct (gemm_launch P _ d _ _ _ _ Hs0 Hok H1) as [A1 B1]. rewrite <- Hcmd in A1, B1. unfold d in A1, B1 at 1. rewrite <- Hnext in A1, B1. fold d in A1.
  set (at_ := gemm_at d P m0 (cTile (s 0%nat))) in *.
  destruct (prompt_finishes D (fun t => gemm_ask (s t)) r
    (fun t k => exists m o, can t m o /\ at_ (s t) m o /\ k = gemm_left (s t) o)
    (fun t => g_st (s t) = g_idle) Hpr) with (t := 1%nat) (k := 528%nat) as (T & k & HT & Hfin & (m & o & Hc & Hi & _) & Hno).
  - intros t k (m & o & Hc & Hi & ->) Hb. destruct (Hserv _ _ _ Hc) as (m' & o' & Hc' & H). split; [by eapply gemm_left_pos|].
    destruct (gemm_cycle d P HP m0 (cTile (s 0%nat)) _ _ _ (fst (cmd t)) (snd (cmd t)) _ _ _ Hi Hb H) as (Hi' & H2 & H3).
    rewrite <- Hnext in Hi', H2, H3. eexists. split; [by exists m', o' | done].
  - by exists m1, o1.
  - pose proof Hi as [_ Hi']. rewrite Hfin in Hi'. destruct Hi' as (_ & -> & K). exists T, m. split; [lia|]. unfold gemm_busy. rewrite bool_decide_true by done.
    split_and!; try done; [intros t Ht; rewrite bool_decide_false; [done | apply Hno; lia]|]. split.
    + intros i Hi4. rewrite (K (at_line d i)) by first [apply line_of_range | apply HP; lia]. apply stored_frame.
      intros k' Hk E. apply at_line_inj in E; lia.
    + intros i j Hi8 Hj8. by eapply gemm_result.
Qed.
