(* ===== verification/Soc.v ===== *)
(** * The SoC — [src/main/scala/aegis/Top.scala], [gpu/VortexBlackBox.scala]

    [Top] connects the CPU lane, the GPU lane with the SIMT core and the external
    cluster, and the accelerator to the fabric.  The file composes the models and
    the contracts of the parts: in the whole chip, and whatever the rest of it
    does outside the lines in question, the programs of the CPU, the kernels of
    the SIMT core and the products of the matrix engine are computed, in bounded
    time in the round-robin mode. *)

From S2P Require Import Prelude Isa IsaSem Fabric Hbm Split CoreMem Rv32 CpuLane GpuLane Simt Gemm.

(** The accelerator lane: the matrix engine or, with [vortexRtl], the adapter of
    the Vortex GPGPU, whose AXI outputs are inputs of the model. *)
Variant acc_unit := AccGemm (g : GemmToMem) | AccVortex (x : AXIToMemReq).

Record Top := MkTop { t_split : SplitPrioritizer; t_cpu : cpu_lane; t_gpu : gpu_lane; t_simt : SimtCore; t_acc : acc_unit }.

(** The inputs of a cycle: the boot interface, the external cluster, the launch
    inputs of the SIMT core, the command of the matrix engine, and what the
    GPGPU drives on its AXI port. *)
Record top_in := MkTopIn { i_core : core_in; i_gpu : Ask MemReq; i_simt : simt_in; i_gemm : bool * Z; i_vx : AxiMaster }.

(** The values of the registers without a reset value. *)
Record power_on := MkPower { p_addr : Z; p_data : Z; p_write : bool; p_axi : list Z }.

Definition axi_power (l : list Z) : AXIToMemReq := axi_reset (vget l 0) (vget l 1) (vget l 2) (vget l 3) (vget l 4) (vget l 5).

Definition top_reset (vortexRtl : bool) (p : power_on) : Top :=
  MkTop (split_reset (p_addr p) (p_data p) (p_write p)) cpu_reset (MkGpu l2_reset (axi_power (p_axi p))) simt_reset
    (if vortexRtl then AccVortex (axi_power (drop 6 (p_axi p))) else AccGemm gemm_reset).

Definition acc_ask (a : acc_unit) : Ask MemReq := match a with AccGemm g => gemm_ask g | AccVortex x => axi_ask x end.

Definition acc_next (a : acc_unit) (i : top_in) (r : Reply) : acc_unit :=
  match a with
  | AccGemm g => AccGemm (gemm_next g (fst (i_gemm i)) (snd (i_gemm i)) r)
  | AccVortex x => AccVortex (axi_next x (i_vx i) r)
  end.

(** The requests on the three lanes and on the two ports of the cache. *)
Definition top_ports (s : Top) : MemPort := MkPort (cpu_ask (t_cpu s)) (gpu_ask (t_gpu s)) (acc_ask (t_acc s)).
Definition top_clusters (s : Top) (i : top_in) : list (Ask MemReq) := [i_gpu i; simt_ask (t_simt s)].

Definition top_reply (mode : Z) (s : Top) (p : port) : Reply := split_reply (t_split s) (top_ports s) mode p.
Definition simt_reply (s : Top) (i : top_in) : Reply := gpu_reply (t_gpu s) (top_clusters s i) 1.

Definition top_next (mode : Z) (s : Top) (i : top_in) : Top :=
  MkTop (split_next (t_split s) (top_ports s) mode)
    (cpu_next (t_cpu s) (i_core i) (top_reply mode s Cpu))
    (gpu_next (t_gpu s) (top_clusters s i) (top_reply mode s Gpu))
    (simt_next (t_simt s) (i_simt i) (simt_reply s i))
    (acc_next (t_acc s) i (top_reply mode s Acc)).

(** The outputs. *)
Definition top_halt (s : Top) : bool := halted (core (t_cpu s)).
Definition top_regs (s : Top) : list Z := rf (core (t_cpu s)).
Definition top_simt_done (s : Top) : bool := simt_done (t_simt s).
Definition top_gemm_busy (s : Top) : bool := match t_acc s with AccGemm g => gemm_busy g | AccVortex _ => false end.
Definition top_gpu (s : Top) (i : top_in) : Reply := gpu_reply (t_gpu s) (top_clusters s i) 0.

(** ** The lanes wait exactly for the answers they are owed *)

Definition waiting (a : Ask MemReq) (o : outstanding) : Prop := a_ready a = true <-> o <> Idle.

(** The ready line of the next cycle, after a request, an answer and neither. *)
Definition waits_next (a : Ask MemReq) (r : Reply) (a' : Ask MemReq) : Prop :=
  (req_fire a r = true -> a_ready a = false -> a_ready a' = true) /\ (resp_fire a r = true -> a_ready a' = false) /\
  (req_fire a r = false -> resp_fire a r = false -> a_ready a' = a_ready a).

Lemma waiting_next I a r a' m o m' o' :
  waits_next a r a' -> port_cycle I a r (m, o) (m', o') -> waiting a o -> waiting a' o'.
Proof.
  unfold waiting. intros (H1 & H2 & H3) Hp Hw. destruct o as [|q|d].
  - assert (a_ready a = false) as Er by (destruct (a_ready a); [by destruct (proj1 Hw eq_refl)|done]).
    apply port_idle in Hp as [Ev Hp]. unfold resp_fire in H3. rewrite Ev in H3. destruct (req_fire a r).
    + rewrite H1 by done. destruct Hp as [[-> _] | (d & -> & _)]; done.
    + destruct Hp as [-> _]. by rewrite H3.
  - apply port_accepted in Hp as (Er & Ev & Hp). unfold req_fire, resp_fire in H3. rewrite Er, Ev, andb_false_r in H3. rewrite H3 by done.
    rewrite (proj2 Hw) by done. destruct Hp as [[-> _] | (d & -> & _)]; done.
  - apply port_answered in Hp as (Er & _ & _ & ->). unfold req_fire in H3. rewrite Er, andb_false_r in H3.
    destruct (resp_fire a r); [by rewrite H2 | by rewrite H3, (proj2 Hw)].
Qed.

Lemma coremem_waits s w r : waits_next (coremem_ask s) r (coremem_ask (coremem_next s w r)).
Proof.
  unfold waits_next, coremem_next. change (req_fire (coremem_ask s) r) with (a_valid (coremem_ask s) && r_ready r).
  change (resp_fire (coremem_ask s) r) with (r_valid r && a_ready (coremem_ask s)).
  unfold coremem_ask. cbn [a_valid a_ready]. destruct (cm_st s) eqn:Es; decide_closed; cbn [orb andb]; rewrite ?andb_false_r, ?andb_true_r;
    repeat case_match; cbn [cm_st set_cm]; rewrite ?Es; decide_closed; done.
Qed.

Lemma axi_waits s x r : waits_next (axi_ask s) r (axi_ask (axi_next s x r)).
Proof.
  unfold waits_next, axi_next. change (req_fire (axi_ask s) r) with (a_valid (axi_ask s) && r_ready r).
  change (resp_fire (axi_ask s) r) with (r_valid r && a_ready (axi_ask s)).
  unfold axi_ask. destruct (x_st s) eqn:Es; cbn [a_valid a_ready andb]; rewrite ?andb_false_r, ?andb_true_r;
    destruct (r_ready r), (r_valid r); repeat case_match; cbn in *; try done; congruence.
Qed.

Lemma simt_waits s i r : waits_next (simt_ask s) r (simt_ask (simt_next s i r)).
Proof.
  unfold waits_next, simt_next. change (req_fire (simt_ask s) r) with (a_valid (simt_ask s) && r_ready r).
  change (resp_fire (simt_ask s) r) with (r_valid r && a_ready (simt_ask s)).
  unfold simt_ask. cbn [a_valid a_ready si_st]. destruct (si_st s) eqn:Es; decide_closed; cbn [orb andb]; rewrite ?andb_false_r, ?andb_true_r;
    repeat case_match; cbn [si_st set_simt]; rewrite ?Es; decide_closed; done.
Qed.

Lemma gemm_waits I g v d r m o m' o' :
  (o <> Idle -> engaged g = true) -> port_cycle I (gemm_ask g) r (m, o) (m', o') -> o' <> Idle -> engaged (gemm_next g v d r) = true.
Proof.
  intros Hw Hp Ho. destruct (engaged g) eqn:He.
  - destruct (resp_fire (gemm_ask g) r) eqn:Ef.
    + exfalso. unfold resp_fire in Ef. destruct o as [|q|d'].
      * apply port_idle in Hp as [Ev _]. by rewrite Ev in Ef.
      * apply port_accepted in Hp as (_ & Ev & _). by rewrite Ev in Ef.
      * apply port_answered in Hp as (_ & _ & _ & E). unfold resp_fire in E. by rewrite Ef in E.
    + unfold engaged in He |- *. unfold gemm_next. rewrite Ef. destruct (g_st g) eqn:Es; decide_closed; try done; cbn [g_st]; rewrite ?Es; by decide_closed.
  - destruct o; try (by specialize (Hw ltac:(done))). apply port_idle in Hp as [_ Hp]. unfold req_fire, gemm_ask in Hp. cbn [a_valid] in Hp.
    rewrite He in Hp. by destruct Hp.
Qed.

Definition acc_waits (a : acc_unit) (o : outstanding) : Prop :=
  match a with AccGemm g => o <> Idle -> engaged g = true | AccVortex x => waiting (axi_ask x) o end.

Lemma acc_waits_next I a i r m o m' o' :
  acc_waits a o -> port_cycle I (acc_ask a) r (m, o) (m', o') -> acc_waits (acc_next a i r) o'.
Proof.
  destruct a as [g|x]; cbn [acc_waits acc_ask acc_next]; intros Hw Hp; [by eapply gemm_waits|]. eapply waiting_next; [apply axi_waits | done | done].
Qed.

(** ** The invariant of the chip *)

(** The chip holds the lines [m]; [o] is the answer the fabric owes and [w] the
    cluster the cache serves. *)
Record top_rep (s : Top) (m : lines) (o : option (port * Z)) (w : owner) : Prop := {
  tr_split : split_rep (t_split s) m o;
  tr_gpu : gpu_rep 2 (t_gpu s) (view Gpu o) w;
  tr_last : last (l2 (t_gpu s)) = sel_r (l2 (t_gpu s));
  tr_cpu : waiting (cpu_ask (t_cpu s)) (view Cpu o);
  tr_simt : waiting (simt_ask (t_simt s)) (cluster_view w 1);
  tr_acc : acc_waits (t_acc s) (view Acc o)
}.

Lemma waiting_quiet a : a_ready a = false -> waiting a Idle.
Proof. unfold waiting. by intros ->. Qed.

Lemma top_reset_rep v p : top_rep (top_reset v p) (fun _ => 0) None None.
Proof.
  split; [apply split_reset_rep | apply gpu_reset_rep | done | by apply waiting_quiet | by apply waiting_quiet|].
  cbn. destruct v; [by apply waiting_quiet | by intros []].
Qed.

Lemma l2_last s cl x : last s = sel_r s -> last (l2_next s cl x) = sel_r (l2_next s cl x).
Proof. intros E. unfold l2_next. destruct (l2_st s); repeat case_match; cbn; done. Qed.

(** What the rest of the chip may do to the memory of the SIMT core. *)
Definition simt_others (s : Top) (w : owner) : lines -> lines -> Prop := cluster_others (others (top_ports s) Gpu) w 1.

(** A cycle of the chip is a cycle of a line port onto one memory for each of
    its agents. *)
Lemma top_cycle mode s i m o w :
  top_rep s m o w ->
  let '(m', o') := atomic_cycle (t_split s) (top_ports s) mode m o in
  exists w', top_rep (top_next mode s i) m' o' w' /\
    (forall p, port_cycle (others (top_ports s) p) (ask_of (top_ports s) p) (top_reply mode s p) (m, view p o) (m', view p o')) /\
    port_cycle (simt_others s w) (simt_ask (t_simt s)) (simt_reply s i) (m, cluster_view w 1) (m', cluster_view w' 1) /\
    lane_move (others (top_ports s) Gpu) (t_gpu s) (top_clusters s i) m m' w w'.
Proof.
  intros [Hs Hg Hl Hc Hi Ha]. destruct (atomic_cycle (t_split s) (top_ports s) mode m o) as [m' o'] eqn:Ea.
  assert (forall p, port_cycle (others (top_ports s) p) (ask_of (top_ports s) p) (top_reply mode s p) (m, view p o) (m', view p o')) as Hp.
  { intros p. pose proof (split_port_cycle (t_split s) (top_ports s) mode m o p Hs) as H. by rewrite Ea in H. }
  destruct (gpu_cycle _ 2 (t_gpu s) _ w (top_clusters s i) _ _ _ _ eq_refl Hg (Hp Gpu)) as (w' & Hg' & Hm). exists w'.
  assert (port_cycle (simt_others s w) (simt_ask (t_simt s)) (simt_reply s i) (m, cluster_view w 1) (m', cluster_view w' 1)) as Hsp
    by (by eapply move_port).
  split; [|split; [done | by split]]. split; cbn [top_next t_split t_gpu t_cpu t_simt t_acc].
  - pose proof (split_cycle (t_split s) (top_ports s) mode m o Hs) as H. by rewrite Ea in H.
  - exact Hg'.
  - by apply l2_last.
  - eapply waiting_next; [apply coremem_waits | exact (Hp Cpu) | exact Hc].
  - eapply waiting_next; [apply simt_waits | exact Hsp | exact Hi].
  - eapply acc_waits_next; [exact Ha | exact (Hp Acc)].
Qed.

(** The lanes take their answers. *)
Lemma gpu_ready n s d w : gpu_rep n s (Answered d) w -> a_ready (gpu_ask s) = true.
Proof.
  unfold gpu_rep, gpu_ask, axi_ask. intros [_ H]. destruct w as [[k oc]|]; [|by destruct H as (_ & _ & ?)].
  destruct H as (_ & _ & H). destruct (l2_st (l2 s)), (x_st (axi s)); try done; by destruct H as [? _].
Qed.

Lemma view_owed p d : view p (Some (p, d)) = Answered d.
Proof. cbn. by rewrite decide_True. Qed.

Lemma top_takes s m o w : top_rep s m o w -> takes (top_ports s) o.
Proof.
  intros [Hs Hg _ Hc _ Ha]. destruct o as [[p d]|]; [|done]. cbn [takes].
  destruct p; cbn [ask_of top_ports cpu_port gpu_port acc_port]; rewrite view_owed in *.
  - by apply Hc.
  - by eapply gpu_ready.
  - destruct (t_acc s) as [g|x]; by apply Ha.
Qed.

(** ** Waiting times in the round-robin mode *)

(** What goes down in every stalled cycle bounds the stalls. *)
Lemma descends_prompt (Q : nat -> Z -> Prop) (D : nat) a r :
  (forall t, exists d, Q t d) -> (forall t d, Q t d -> 0 <= d < Z.of_nat D) ->
  (forall t d, Q t d -> stalled (a t) (r t) = true -> exists d', Q (S t) d' /\ d' < d) -> prompt D a r.
Proof.
  intros Hex Hrange Hdown.
  assert (forall n t d, Q t d -> d < Z.of_nat n -> exists t', (t <= t' < t + n)%nat /\ stalled (a t') (r t') = false) as Hn.
  { induction n as [|n IH]; intros t d HQ Hd; [destruct (Hrange t d HQ); lia|]. destruct (stalled (a t) (r t)) eqn:Es; [|exists t; split; [lia | done]].
    destruct (Hdown t d HQ Es) as (d' & HQ' & Hlt). destruct (IH (S t) d' HQ' ltac:(lia)) as (t' & Ht' & E). exists t'. split; [lia | done]. }
  intros t. destruct (Hex t) as [d HQ]. apply (Hn D t d HQ). by apply (Hrange t d).
Qed.

(** The cycles a lane can still wait for its grant or for its answer. *)
Definition lane_wait (p : port) (s : SplitPrioritizer) (o : option (port * Z)) : Z :=
  match view p o with Idle => patience s p | _ => until_answer (hbm s) end.

Lemma lane_wait_range p s m o : split_rep s m o -> 0 <= lane_wait p s o < 72.
Proof.
  intros R. pose proof (patience_range s m o p R). pose proof (until_answer_range (hbm s) (hr_ok _ _ _ (sr_hbm _ _ _ R))).
  unfold lane_wait. destruct (view p o); lia.
Qed.

(** An answer that is owed and not given yet comes closer. *)
Lemma answer_nears s i mode m p d :
  split_rep s m (Some (p, d)) -> r_valid (split_reply s i mode p) = false ->
  until_answer (hbm (split_next s i mode)) = until_answer (hbm s) - 1.
Proof.
  intros [Hh Hs _] Hv. cbn in Hh. destruct (hbm_busy_cycle (hbm s) m d (hbm_ask s i mode) (mode =? mode_ai) Hh) as (E1 & _ & _).
  unfold split_reply in Hv. cbn [r_valid] in Hv. rewrite Hs, bool_decide_true, andb_true_r in Hv by done.
  unfold split_next, req_fire. rewrite E1, andb_false_r. cbn [hbm].
  apply until_answer_step; [apply Hh | apply (hr_owed _ _ _ Hh) | done].
Qed.

Lemma view_cases p o : view p o = Idle \/ exists d, o = Some (p, d).
Proof. destruct o as [[p' d]|]; cbn; [|by left]. destruct (decide (p' = p)) as [->|]; [right; by exists d | by left]. Qed.

Lemma lane_descends p s i m o :
  split_rep s m o -> takes i o -> (view p o = Idle -> a_valid (ask_of i p) = true) ->
  stalled (ask_of i p) (split_reply s i mode_fair p) = true ->
  lane_wait p (split_next s i mode_fair) (snd (atomic_cycle s i mode_fair m o)) < lane_wait p s o.
Proof.
  intros R Ht Hv Hs. unfold stalled in Hs. apply andb_prop in Hs as [_ Hs]. apply negb_true_iff, orb_false_iff in Hs as [Hq Hr].
  pose proof (split_port_cycle s i mode_fair m o p R) as Hp. unfold lane_wait. destruct (view_cases p o) as [E | [d ->]].
  - rewrite E in *. apply port_idle in Hp as [_ Hp]. rewrite Hq in Hp. destruct Hp as [-> _]. exact (patience_step s i m o p R Ht (Hv eq_refl) Hq).
  - rewrite view_owed in *. apply port_answered in Hp as (_ & _ & _ & ->). rewrite Hr.
    cbn [takes] in Ht. unfold resp_fire in Hr. rewrite Ht, andb_true_r in Hr. pose proof (answer_nears s i mode_fair m p d R Hr). lia.
Qed.

(** ** Runs of the chip *)

Record soc_run := MkRun { run_s : nat -> Top; run_in : nat -> top_in }.

Definition soc_runs (mode : Z) (v : bool) (p : power_on) (x : soc_run) : Prop :=
  run_s x 0 = top_reset v p /\ forall t, run_s x (S t) = top_next mode (run_s x t) (run_in x t).

Lemma run_rep mode v p x t : soc_runs mode v p x -> exists m o w, top_rep (run_s x t) m o w.
Proof.
  intros [H0 Hn]. induction t as [|t (m & o & w & IH)].
  - rewrite H0. exists (fun _ => 0), None, None. apply top_reset_rep.
  - rewrite Hn. pose proof (top_cycle mode _ (run_in x t) m o w IH) as H. destruct (atomic_cycle _ _ _ _ _) as [m' o']. destruct H as (w' & H & _). by exists m', o', w'.
Qed.

Lemma fair_lane p v pw x :
  soc_runs mode_fair v pw x -> p <> Gpu ->
  prompt 72 (fun t => ask_of (top_ports (run_s x t)) p) (fun t => top_reply mode_fair (run_s x t) p).
Proof.
  intros Hx Hp. apply (descends_prompt (fun t d => exists m o w, top_rep (run_s x t) m o w /\ d = lane_wait p (t_split (run_s x t)) o)).
  - intros t. destruct (run_rep _ _ _ _ t Hx) as (m & o & w & R). by eexists _, m, o, w.
  - intros t d (m & o & w & R & ->). apply (lane_wait_range p _ m), R.
  - intros t d (m & o & w & R & ->) Hs. destruct Hx as [_ Hn].
    assert (view p o = Idle -> a_valid (ask_of (top_ports (run_s x t)) p) = true) as Hv.
    { intros E. unfold stalled in Hs. apply andb_prop in Hs as [Hs _]. apply orb_prop in Hs as [Hs|Hs]; [done|].
      destruct p; [|done|]; cbn [ask_of top_ports cpu_port acc_port] in *.
      - by destruct (proj1 (tr_cpu _ _ _ _ R) Hs).
      - pose proof (tr_acc _ _ _ _ R) as Ha. destruct (t_acc (run_s x t)) as [g|y]; [done|]. by destruct (proj1 Ha Hs). }
    pose proof (lane_descends p (t_split (run_s x t)) (top_ports (run_s x t)) m o (tr_split _ _ _ _ R) (top_takes _ _ _ _ R) Hv Hs) as Hlt.
    pose proof (top_cycle mode_fair _ (run_in x t) m o w R) as H. destruct (atomic_cycle _ _ _ _ _) as [m' o']. destruct H as (w' & R' & _).
    rewrite <- Hn in R'. eexists. split; [exists m', o', w'; by split|]. rewrite Hn. exact Hlt.
Qed.

(** ** The GPU lane *)

(** The cycles until the cache is idle again, when the served cluster takes its
    answer. *)
Definition gpu_time (g : gpu_lane) (s : SplitPrioritizer) : Z :=
  match l2_st (l2 g), x_st (axi g) with
  | l2_idle, _ => 0
  | l2_aw, _ => 81
  | l2_wd, _ | l2_ar, _ => 80
  | l2_bwait, x_wreq | l2_rc, x_areq => 8 + patience s Gpu
  | l2_bwait, x_wwrsp | l2_rc, x_aresp => 3 + until_answer (hbm s)
  | l2_bwait, _ | l2_rc, _ => 2
  | l2_wack, _ | l2_resp, _ => 1
  end.

Lemma gpu_time_range g s m o : split_rep s m o -> 0 <= gpu_time g s <= 81.
Proof.
  intros R. pose proof (patience_range s m o Gpu R). pose proof (until_answer_range (hbm s) (hr_ok _ _ _ (sr_hbm _ _ _ R))).
  unfold gpu_time. destruct (l2_st (l2 g)), (x_st (axi g)); lia.
Qed.

(** The states of the cache and its adapter in the next cycle. *)
Lemma gpu_states g cl r :
  let g' := gpu_next g cl r in let go a b := l2_st (l2 g') = a /\ x_st (axi g') = b in
  match l2_st (l2 g), x_st (axi g) with
  | l2_aw, x_idle => go l2_wd x_wwait
  | l2_wd, x_wwait => go l2_bwait x_wreq
  | l2_ar, x_idle => go l2_rc x_areq
  | l2_bwait, x_wreq => go l2_bwait (if req_fire (gpu_ask g) r then x_wwrsp else x_wreq)
  | l2_rc, x_areq => go l2_rc (if req_fire (gpu_ask g) r then x_aresp else x_areq)
  | l2_bwait, x_wwrsp => go l2_bwait (if r_valid r then x_wrespo else x_wwrsp)
  | l2_rc, x_aresp => go l2_rc (if r_valid r then x_rvalid else x_aresp)
  | l2_bwait, x_wrespo => go l2_wack x_idle
  | l2_rc, x_rvalid => go l2_resp x_idle
  | _, _ => True
  end.
Proof.
  cbv zeta. destruct (l2_st (l2 g)) eqn:El, (x_st (axi g)) eqn:Ex; try done; axi_wires El Ex; try done;
    unfold gpu_ask; destruct (req_fire _ _) || destruct (r_valid r); cbn; rewrite ?Ex; done.
Qed.

(** The answer goes to the cluster that takes it. *)
Lemma gpu_delivers n g d k cl a r :
  gpu_rep n g Idle (Some (k, Answered d)) -> l2_st (l2 g) = l2_wack \/ l2_st (l2 g) = l2_resp -> cl !! k = Some a -> a_ready a = true ->
  l2_st (l2 (gpu_next g cl r)) = l2_idle.
Proof.
  intros (_ & _ & Hsel & _) El Hk Ha. unfold gpu_next. cbn [l2]. unfold l2_next. rewrite Hsel, Nat2Z.id, (nth_lookup_Some cl k _ a Hk).
  unfold resp_fire, l2_reply. cbn [r_valid]. rewrite Hsel, Z.eqb_refl, Ha. by destruct El as [-> | ->].
Qed.

Lemma gpu_time_nears s i m o k oc a :
  top_rep s m o (Some (k, oc)) -> top_clusters s i !! k = Some a ->
  (l2_st (l2 (t_gpu s)) = l2_wack \/ l2_st (l2 (t_gpu s)) = l2_resp -> a_ready a = true) ->
  gpu_time (t_gpu (top_next mode_fair s i)) (t_split (top_next mode_fair s i)) < gpu_time (t_gpu s) (t_split s).
Proof.
  intros R Hk Ha. pose proof (top_cycle mode_fair s i m o _ R) as Hc. destruct (atomic_cycle _ _ _ _ _) as [m' o'].
  destruct Hc as (w' & R' & _).
  pose proof (patience_range _ _ _ Gpu (tr_split _ _ _ _ R')) as Hpr.
  pose proof (until_answer_range _ (hr_ok _ _ _ (sr_hbm _ _ _ (tr_split _ _ _ _ R')))) as Hua.
  pose proof (patience_step (t_split s) (top_ports s) m o Gpu (tr_split _ _ _ _ R) (top_takes _ _ _ _ R)) as Hps.
  pose proof (patience_range _ _ _ Gpu (tr_split _ _ _ _ R)) as Hp0.
  cbn [top_next t_split t_gpu ask_of top_ports gpu_port] in *. fold (top_reply mode_fair s Gpu) in Hps.
  pose proof (gpu_states (t_gpu s) (top_clusters s i) (top_reply mode_fair s Gpu)) as Hg.
  pose proof (tr_gpu _ _ _ _ R) as Hrep. pose proof Hrep as (_ & _ & _ & Hst). unfold gpu_time at 2.
  assert (view Gpu o <> Idle -> r_valid (top_reply mode_fair s Gpu) = false ->
    until_answer (hbm (split_next (t_split s) (top_ports s) mode_fair)) = until_answer (hbm (t_split s)) - 1) as Hans.
  { intros Ho Hv. destruct (view_cases Gpu o) as [|[d ->]]; [done|]. by apply (answer_nears _ _ _ m Gpu d (tr_split _ _ _ _ R)). }
  pose proof (until_answer_range _ (hr_ok _ _ _ (sr_hbm _ _ _ (tr_split _ _ _ _ R)))) as Hu0.
  assert (x_st (axi (t_gpu s)) = x_wreq \/ x_st (axi (t_gpu s)) = x_areq -> a_valid (gpu_ask (t_gpu s)) = true) as Hav
    by (intros [E|E]; unfold gpu_ask, axi_ask; by rewrite E).
  destruct (l2_st (l2 (t_gpu s))) eqn:El, (x_st (axi (t_gpu s))) eqn:Ex; try done; cbv zeta in Hg;
    try (match type of Hg with True => fail 1 | _ => destruct Hg as [E1 E2] end; unfold gpu_time; rewrite E1, ?E2; clear E1 E2; lia).
  - destruct Hg as [E1 E2]. unfold gpu_time. rewrite E1, E2. destruct (req_fire _ _); [lia|]. apply Z.add_lt_mono_l, Hps; [by apply Hav; left | done].
  - destruct Hg as [E1 E2]. unfold gpu_time. rewrite E1, E2. destruct (r_valid _); [lia|]. rewrite Hans; [lia | by destruct (view Gpu o) | done].
  - destruct Hst as [Ho ->]. rewrite Ho in Hrep. unfold gpu_time. rewrite (gpu_delivers 2 _ _ k _ a _ Hrep (or_introl El) Hk); [lia | by apply Ha; left].
  - destruct Hg as [E1 E2]. unfold gpu_time. rewrite E1, E2. destruct (req_fire _ _); [lia|]. apply Z.add_lt_mono_l, Hps; [by apply Hav; right | done].
  - destruct Hg as [E1 E2]. unfold gpu_time. rewrite E1, E2. destruct (r_valid _); [lia|]. rewrite Hans; [lia | by destruct (view Gpu o) | done].
  - destruct Hst as [Ho ->]. rewrite Ho in Hrep. unfold gpu_time. rewrite (gpu_delivers 2 _ _ k _ a _ Hrep (or_intror El) Hk); [lia | by apply Ha; right].
Qed.

(** The cycles the SIMT core can still wait. *)
Definition simt_wait (s : Top) (w : owner) : Z :=
  match w with Some _ => 1 + gpu_time (t_gpu s) (t_split s) | None => if last (l2 (t_gpu s)) =? 0 then 0 else 84 end.

Lemma simt_wait_range s m o w : top_rep s m o w -> 0 <= simt_wait s w < Z.of_nat 85.
Proof.
  intros R. pose proof (gpu_time_range (t_gpu s) (t_split s) m o (tr_split _ _ _ _ R)). unfold simt_wait. destruct w; [lia|]. case_match; lia.
Qed.

Lemma l2_last_keeps c cl x : l2_st c <> l2_idle -> last (l2_next c cl x) = last c.
Proof. unfold l2_next. destruct (l2_st c); [done|..]; intros _; repeat case_match; done. Qed.

(** An idle cache takes the request of one of its clusters. *)
Lemma idle_takes g cl :
  l2_st (l2 g) = l2_idle -> l2_any (l2 g) (valids cl) = true -> exists k a, cl !! k = Some a /\ req_fire a (gpu_reply g cl k) = true.
Proof.
  intros El Ha. destruct (l2_sel_valid (l2 g) (valids cl) Ha) as (k & Es & Hv). unfold valids in Hv. rewrite list_lookup_fmap in Hv.
  destruct (cl !! k) as [a|] eqn:Ek; [|done]. exists k, a. split; [done|]. injection Hv as Hv. unfold req_fire, gpu_reply, l2_reply. cbn [r_ready].
  rewrite Hv, El, Es, Z.eqb_refl. done.
Qed.

(** After the external cluster it is the turn of the SIMT core. *)
Lemma simt_turn g a b : l2_st (l2 g) = l2_idle -> last (l2 g) = 0 -> a_valid b = true -> r_ready (gpu_reply g [a; b] 1) = true.
Proof.
  intros El E0 Hb. unfold gpu_reply, l2_reply, valids. cbn [r_ready fmap list_fmap]. unfold l2_sel, l2_lower. rewrite El, E0, Hb. cbn. done.
Qed.

Lemma simt_any g a b : a_valid b = true -> l2_any g (valids [a; b]) = true.
Proof.
  intros Hb. unfold l2_any, l2_lower, l2_upper, valids. cbn. rewrite Hb, !andb_true_r, !orb_false_r.
  destruct (Z.ltb_spec (last g) 1), (Z.leb_spec 1 (last g)); try lia; by rewrite ?orb_true_r.
Qed.

Lemma owner_not_idle n g o k : ~ gpu_rep n g o (Some (k, Idle)).
Proof. intros (_ & _ & _ & Hst). clear - Hst. destruct (l2_st (l2 g)), (x_st (axi g)), o; naive_solver. Qed.

Lemma simt_descends s i m o w m' o' w' :
  top_rep s m o w -> top_rep (top_next mode_fair s i) m' o' w' -> a_ready (i_gpu i) = true ->
  lane_move (others (top_ports s) Gpu) (t_gpu s) (top_clusters s i) m m' w w' ->
  stalled (simt_ask (t_simt s)) (simt_reply s i) = true -> simt_wait (top_next mode_fair s i) w' < simt_wait s w.
Proof.
  intros R R' Hx Hm Hs. unfold stalled in Hs. apply andb_prop in Hs as [He Hs]. apply negb_true_iff, orb_false_iff in Hs as [Hq Hr].
  pose proof (gpu_time_range (t_gpu s) (t_split s) m o (tr_split _ _ _ _ R)) as Hg.
  pose proof (gpu_time_range (t_gpu (top_next mode_fair s i)) (t_split (top_next mode_fair s i)) m' o' (tr_split _ _ _ _ R')) as Hg'.
  assert (forall k oc a, w = Some (k, oc) -> top_clusters s i !! k = Some a -> a_ready a = true) as Hready.
  { intros k oc a -> Hk. destruct k as [|[|k]]; [by injection Hk as <- | |done]. injection Hk as <-. apply (tr_simt _ _ _ _ R).
    cbn. rewrite decide_True by done. intros ->. by eapply owner_not_idle, R. }
  assert (w = None -> a_valid (simt_ask (t_simt s)) = true /\ l2_st (l2 (t_gpu s)) = l2_idle) as Hidle.
  { intros ->. split; [|by destruct (tr_gpu _ _ _ _ R) as (_ & ? & _)]. apply orb_prop in He as [He|He]; [done|]. by destruct (proj1 (tr_simt _ _ _ _ R) He). }
  destruct Hm as [Hno Hv Ha | k a Hk Hb Hrd Hv Ha | k oc Hrd Hv Ha | k q d Hrd Hv Hpf Han | k d a Hrd Hv Hd Hk Ha].
  - destruct (Hidle eq_refl) as [Hvalid El]. destruct (idle_takes (t_gpu s) (top_clusters s i) El (simt_any _ _ _ Hvalid)) as (k & a & Hk & Hf).
    by rewrite (Hno k a Hk) in Hf.
  - destruct (Hidle eq_refl) as [Hvalid El]. unfold simt_wait. unfold req_fire in Hq. rewrite Hvalid in Hq. cbn [andb] in Hq. destruct (Z.eqb_spec (last (l2 (t_gpu s))) 0) as [E0|]; [|lia].
    pose proof (simt_turn (t_gpu s) (i_gpu i) _ El E0 Hvalid) as Ht. unfold simt_reply, top_clusters in Hq. congruence.
  - assert (k < 2)%nat as Hk by (by destruct (tr_gpu _ _ _ _ R) as (_ & ? & _)). destruct (lookup_lt_is_Some_2 (top_clusters s i) k Hk) as [a Ha'].
    pose proof (gpu_time_nears s i m o k oc a R Ha' ltac:(by intros _; eapply Hready)). unfold simt_wait. lia.
  - assert (k < 2)%nat as Hk by (by destruct (tr_gpu _ _ _ _ R) as (_ & ? & _)). destruct (lookup_lt_is_Some_2 (top_clusters s i) k Hk) as [a Ha'].
    pose proof (gpu_time_nears s i m o k _ a R Ha' ltac:(by intros _; eapply Hready)). unfold simt_wait. lia.
  - rewrite (Hready k _ a eq_refl Hk) in *. unfold simt_wait. pose proof (tr_gpu _ _ _ _ R) as (_ & Hk2 & Hsel & Hst).
    assert (l2_st (l2 (t_gpu s)) <> l2_idle) as Hni by (intros E; by rewrite E in Hst).
    cbn [top_next t_gpu gpu_next l2]. rewrite l2_last_keeps by done. rewrite (tr_last _ _ _ _ R), Hsel. destruct k as [|[|k]]; [change (Z.of_nat 0 =? 0) with true; cbv iota; lia | | lia].
    exfalso. injection Hk as <-. unfold resp_fire, simt_reply in Hr. rewrite Hv, (Hready 1%nat _ _ eq_refl eq_refl) in Hr. done.
Qed.

(** The SIMT core never waits for 85 cycles in a row while the external cluster
    takes its answers. *)
Lemma fair_simt v pw x t0 :
  soc_runs mode_fair v pw x -> (forall t, (t0 <= t)%nat -> a_ready (i_gpu (run_in x t)) = true) ->
  prompt 85 (fun t => simt_ask (t_simt (run_s x (t0 + t)))) (fun t => simt_reply (run_s x (t0 + t)) (run_in x (t0 + t))).
Proof.
  intros Hx Hrd. apply (descends_prompt (fun t d => exists m o w, top_rep (run_s x (t0 + t)) m o w /\ d = simt_wait (run_s x (t0 + t)) w)).
  - intros t. destruct (run_rep _ _ _ _ (t0 + t) Hx) as (m & o & w & R). by eexists _, m, o, w.
  - intros t d (m & o & w & R & ->). by eapply simt_wait_range.
  - intros t d (m & o & w & R & ->) Hs. destruct Hx as [_ Hn]. pose proof (top_cycle mode_fair _ (run_in x (t0 + t)) m o w R) as H.
    destruct (atomic_cycle _ _ _ _ _) as [m' o']. destruct H as (w' & R' & _ & _ & Hm).
    pose proof (simt_descends _ _ m o w m' o' w' R R' (Hrd (t0 + t)%nat ltac:(lia)) Hm Hs) as Hlt. rewrite <- Hn in R', Hlt.
    rewrite Nat.add_succ_r. eexists. split; [by exists m', o', w' | done].
Qed.

(** ** Agents that keep off lines *)

(** The lines of the stack, the request at hand carried out. *)
Definition soc_mem (s : Top) : lines := fun l => vget (image (hbm (t_split s))) (idx_line l).

Lemma rep_mem P s m o w : top_rep s m o w -> keeps P m (soc_mem s) /\ keeps P (soc_mem s) m.
Proof. intros R. pose proof (hr_mem _ _ _ (sr_hbm _ _ _ (tr_split _ _ _ _ R))) as H. split; intros l Hl _; [|symmetry]; by apply H. Qed.

(** A request that does not write the lines of [P]. *)
Definition off (P : Z -> Prop) (a : Ask MemReq) : Prop :=
  a_valid a = true -> q_isWrite (a_bits a) = true -> ~ P (line_of (q_addr (a_bits a))).

Lemma perform_off (P : Z -> Prop) m q : (q_isWrite q = true -> ~ P (line_of (q_addr q))) -> keeps P m (perform m q).
Proof.
  intros H l Hl HP. unfold perform. destruct (q_isWrite q); [|done]. destruct (Z.eqb_spec l (line_of (q_addr q))) as [->|]; [|done].
  by destruct (H eq_refl).
Qed.

Lemma others_keep P i p m m' : (forall p', p' <> p -> off P (ask_of i p')) -> others i p m m' -> keeps P m m'.
Proof. intros H (p' & Hne & Hv & ->). apply perform_off. intros Hw. by apply (H p' Hne). Qed.

Lemma port_weaken (I J : lines -> lines -> Prop) a r x y : (forall m m', I m m' -> J m m') -> port_cycle I a r x y -> port_cycle J a r x y.
Proof. intros H (o & Hh & Hc). exists o. split; [done|]. destruct Hc; [apply commits_none | apply commits_other; auto | by apply commits_own]. Qed.

Section After.
Context (P : Z -> Prop) (v : bool) (pw : power_on) (x : soc_run) (t0 : nat) (runs : soc_runs mode_fair v pw x).

(** The memory and the request a lane can have [t] cycles after [t0]. *)
Definition lane_can (p : port) (t : nat) (m : lines) (o : outstanding) : Prop :=
  exists oo w, top_rep (run_s x (t0 + t)) m oo w /\ o = view p oo.

Lemma lane_serves p :
  (forall t p', (t0 <= t)%nat -> p' <> p -> off P (ask_of (top_ports (run_s x t)) p')) ->
  serves P (fun t => ask_of (top_ports (run_s x (t0 + t))) p) (fun t => top_reply mode_fair (run_s x (t0 + t)) p) (lane_can p).
Proof.
  intros Hoff t m o (oo & w & R & ->). pose proof (top_cycle mode_fair _ (run_in x (t0 + t)) m oo w R) as H.
  destruct (atomic_cycle _ _ _ _ _) as [m' o']. destruct H as (w' & R' & Hp & _). exists m', (view p o'). split.
  - exists o', w'. split; [|done]. rewrite Nat.add_succ_r. by rewrite (proj2 runs).
  - eapply port_weaken, Hp. intros m1 m2. apply others_keep. intros p' Hne. apply Hoff; [lia | done].
Qed.

Lemma lane_can_start p : a_ready (ask_of (top_ports (run_s x t0)) p) = false -> exists m, lane_can p 0 m Idle.
Proof.
  intros Hr. destruct (run_rep _ _ _ _ t0 runs) as (m & o & w & R). exists m, o, w. rewrite Nat.add_0_r. split; [done|].
  pose proof (top_takes _ _ _ _ R) as Ht. destruct (view_cases p o) as [-> | [d ->]]; [done|]. cbn [takes] in Ht. congruence.
Qed.

Lemma lane_can_mem p t m o : lane_can p t m o -> keeps P m (soc_mem (run_s x (t0 + t))) /\ keeps P (soc_mem (run_s x (t0 + t))) m.
Proof. intros (oo & w & R & _). by eapply rep_mem. Qed.

(** The SIMT core behind the cache: the cluster the cache serves keeps off too. *)
Definition simt_can (t : nat) (m : lines) (o : outstanding) : Prop :=
  exists oo w, top_rep (run_s x (t0 + t)) m oo w /\ o = cluster_view w 1 /\
    match w with Some (O, Accepted q) => q_isWrite q = true -> ~ P (line_of (q_addr q)) | _ => True end.

Lemma simt_serves :
  (forall t, (t0 <= t)%nat -> off P (cpu_ask (t_cpu (run_s x t))) /\ off P (acc_ask (t_acc (run_s x t))) /\ off P (i_gpu (run_in x t))) ->
  serves P (fun t => simt_ask (t_simt (run_s x (t0 + t)))) (fun t => simt_reply (run_s x (t0 + t)) (run_in x (t0 + t))) simt_can.
Proof.
  intros Hoff t m o (oo & w & R & -> & Hw). pose proof (top_cycle mode_fair _ (run_in x (t0 + t)) m oo w R) as H.
  destruct (atomic_cycle _ _ _ _ _) as [m' o']. destruct H as (w' & R' & _ & Hp & Hm). destruct (Hoff (t0 + t)%nat ltac:(lia)) as (H1 & H2 & H3).
  exists m', (cluster_view w' 1). split.
  - exists o', w'. rewrite Nat.add_succ_r, (proj2 runs). split_and!; try done.
    destruct Hm as [| k a Hk Hv | k oc | k | k]; [done | | done | by destruct k | by destruct (a_ready _), k].
    destruct k as [|k]; [|done]. injection Hk as <-. by apply H3.
  - eapply port_weaken, Hp. intros m1 m2 [Hoth | (k & q & Hk & -> & ->)].
    + eapply others_keep; [|exact Hoth]. intros [] Hne; done.
    + apply perform_off. pose proof (tr_gpu _ _ _ _ R) as (_ & Hk2 & _). destruct k as [|[|k]]; [done | done | lia].
Qed.

Lemma simt_can_start :
  si_st (t_simt (run_s x t0)) = st_idle -> l2_st (l2 (t_gpu (run_s x t0))) = l2_idle -> exists m, simt_can 0 m Idle.
Proof.
  intros Hs Hl. destruct (run_rep _ _ _ _ t0 runs) as (m & o & w & R). exists m, o, w. rewrite Nat.add_0_r. split; [done|].
  assert (w = None) as -> by (destruct w as [[k oc]|]; [|done]; pose proof (tr_gpu _ _ _ _ R) as (_ & _ & _ & Hst); by rewrite Hl in Hst). done.
Qed.

Lemma simt_can_mem t m o : simt_can t m o -> keeps P m (soc_mem (run_s x (t0 + t))) /\ keeps P (soc_mem (run_s x (t0 + t))) m.
Proof. intros (oo & w & R & _). by eapply rep_mem. Qed.
End After.

(** ** Properties *)

(** C1. The CPU of the chip runs programs to their end.  A program that, by the
    instruction set, halts after [n] instructions halts on the chip within
    [432 n + 72] cycles, however the lanes compete and whenever the stack
    refreshes: with the registers, the program counter and the bytes of the
    lines of the instruction set.  This is under the following conditions.  The
    fabric is in the round-robin mode; from the start on the program memory is
    not written and the lanes of the GPU and the accelerator stay off the lines
    of [P].  Every instruction the program executes is one of RV32I other than
    [ecall], [ebreak] and a [jal] with a negative offset ([rv32_ok]); every load
    and store stays inside one line, a line of [P], and a byte or halfword
    store stores a register whose value fits ([access_ok]). *)
Theorem soc_cpu_runs P v pw x t0 prog h0 n hf :
  soc_runs mode_fair v pw x ->
  (forall t, (t0 <= t)%nat ->
    prog_we (i_core (run_in x t)) = false /\ off P (gpu_ask (t_gpu (run_s x t))) /\ off P (acc_ask (t_acc (run_s x t)))) ->
  cpu_starts prog P (t_cpu (run_s x t0)) (soc_mem (run_s x t0)) h0 -> nsteps (isa_step prog P) n h0 hf -> isa_halted prog hf ->
  exists T, (t0 <= T <= t0 + 432 * n + 72)%nat /\
    top_halt (run_s x T) = true /\ (forall t, (t0 <= t < T)%nat -> top_halt (run_s x t) = false) /\
    top_regs (run_s x T) = h_x hf /\ pc (core (t_cpu (run_s x T))) = h_pc hf /\ mem_rel P (soc_mem (run_s x T)) (h_mem hf).
Proof.
  intros Hx Hoff Hst Hn Hf.
  destruct (lane_can_start v pw x t0 Hx Cpu) as [m0 Hc].
  { cbn [ask_of top_ports cpu_port]. unfold cpu_ask, coremem_ask. cbn [a_ready]. by rewrite (cs_idle _ _ _ _ _ Hst). }
  destruct (lane_can_mem P x t0 Cpu 0 m0 Idle Hc) as [_ K0]. rewrite Nat.add_0_r in K0.
  destruct (cpu_finishes 72 prog P (fun t => t_cpu (run_s x (t0 + t))) (fun t => i_core (run_in x (t0 + t)))
    (fun t => top_reply mode_fair (run_s x (t0 + t)) Cpu) (lane_can x t0 Cpu) m0 h0 n hf) as (T & m & HT & Hc' & H1 & H2 & H3 & H4 & H5); try done.
  - intros t. rewrite Nat.add_succ_r. by rewrite (proj2 Hx).
  - intros t. apply Hoff. lia.
  - apply (lane_serves P v pw x t0 Hx Cpu). intros t [] Ht Hne; [done | by apply Hoff | by apply Hoff].
  - rewrite Nat.add_0_r. destruct Hst as [S1 S2 S3 S4 S5 S6 S7]. split; try done; [by eapply keeps_rel | by eapply keeps_lines].
  - apply (prompt_later 72 _ _ t0 (fair_lane Cpu v pw x Hx ltac:(done))).
  - exists (t0 + T)%nat. split; [lia|]. split; [done|]. split; [intros t Ht; specialize (H2 (t - t0)%nat ltac:(lia)); by replace (t0 + (t - t0))%nat with t in H2 by lia|].
    split_and!; try done. apply (keeps_rel m); [|done]. apply (lane_can_mem P x t0 Cpu T m Idle Hc').
Qed.

Lemma kernel_keeps P X Z_ Y m m' n i :
  keeps P m m' -> (forall k, 0 <= k < n -> P (at_line X k) /\ P (at_line Z_ k)) -> (i <= Z.to_nat n)%nat ->
  keeps P (kernel X Z_ Y m i) (kernel X Z_ Y m' i).
Proof.
  intros K HP. induction i as [|i IH]; intros Hi; [done|]. specialize (IH ltac:(lia)). destruct (HP (Z.of_nat i) ltac:(lia)) as [Hx Hz].
  intros l Hl HPl. cbn [kernel]. unfold store. destruct (l =? _); [|by apply IH].
  by rewrite (IH (at_line X (Z.of_nat i))), (IH (at_line Z_ (Z.of_nat i))) by first [apply at_line_range | done].
Qed.

(** C5. The SIMT core of the chip runs kernels to their end.  A kernel of [n]
    lines ([nLines], where 0 means 65536) raises [done] for the first time within
    [595 n + 1] cycles, and the lines of [P] are then those of the kernel; where
    no result lands on an operand still to be read, every result line in [P] holds
    the 32 sums modulo 2^16 of the operand lines at the launch.  This is under
    the following conditions.  The fabric is in the round-robin mode; the kernel
    is launched while the core and the L2 arbiter are idle; from then on the
    CPU, the accelerator and the external cluster stay off the lines of [P],
    which hold the operands, and the external cluster always takes its
    answers. *)
Theorem soc_simt_runs P v pw x t0 :
  soc_runs mode_fair v pw x ->
  (forall t, (t0 <= t)%nat -> off P (cpu_ask (t_cpu (run_s x t))) /\ off P (acc_ask (t_acc (run_s x t))) /\ off P (i_gpu (run_in x t)) /\
    a_ready (i_gpu (run_in x t)) = true) ->
  si_st (t_simt (run_s x t0)) = st_idle -> l2_st (l2 (t_gpu (run_s x t0))) = l2_idle ->
  let i0 := i_simt (run_in x t0) in
  simt_start i0 = true -> 0 <= nLines i0 < 2 ^ 16 ->
  (forall i, 0 <= i < n_lines i0 -> P (at_line (baseX i0) i) /\ P (at_line (baseZ i0) i)) ->
  exists T, (t0 < T <= t0 + 595 * Z.to_nat (n_lines i0) + 1)%nat /\
    top_simt_done (run_s x T) = true /\ (forall t, (t0 < t < T)%nat -> top_simt_done (run_s x t) = false) /\
    keeps P (kernel (baseX i0) (baseZ i0) (baseY i0) (soc_mem (run_s x t0)) (Z.to_nat (n_lines i0))) (soc_mem (run_s x T)) /\
    (no_overlap (baseX i0) (baseZ i0) (baseY i0) (n_lines i0) -> forall i, 0 <= i < n_lines i0 -> P (at_line (baseY i0) i) ->
      adds (soc_mem (run_s x t0) (at_line (baseX i0) i)) (soc_mem (run_s x t0) (at_line (baseZ i0) i)) (soc_mem (run_s x T) (at_line (baseY i0) i))).
Proof.
  intros Hx Hoff Hs Hl i0 Hst Hn HP. destruct (simt_can_start P v pw x t0 Hx Hs Hl) as [m0 Hc].
  destruct (simt_can_mem P x t0 0 m0 Idle Hc) as [_ K0]. rewrite Nat.add_0_r in K0.
  destruct (simt_finishes 85 P (fun t => t_simt (run_s x (t0 + t))) (fun t => i_simt (run_in x (t0 + t)))
    (fun t => simt_reply (run_s x (t0 + t)) (run_in x (t0 + t))) (simt_can P x t0) m0) as (T & m & HT & Hc' & H1 & H2 & H3); rewrite ?Nat.add_0_r in *; try done.
  - intros t. rewrite Nat.add_succ_r. by rewrite (proj2 Hx).
  - apply (simt_serves P v pw x t0 Hx). intros t Ht. destruct (Hoff t Ht) as (? & ? & ? & _). done.
  - apply (fair_simt v pw x t0 Hx). intros t Ht. by apply Hoff.
  - destruct (simt_can_mem P x t0 T m Idle Hc') as [KT _]. fold i0 in HT, H3. exists (t0 + T)%nat. split; [lia|]. split; [done|].
    split; [intros t Ht; specialize (H2 (t - t0)%nat ltac:(lia)); by replace (t0 + (t - t0))%nat with t in H2 by lia|].
    assert (keeps P (kernel (baseX i0) (baseZ i0) (baseY i0) (soc_mem (run_s x t0)) (Z.to_nat (n_lines i0))) (soc_mem (run_s x (t0 + T)))) as Hk.
    { eapply keeps_trans, KT. eapply keeps_trans, H3. by apply (kernel_keeps P _ _ _ _ _ (n_lines i0)). }
    split; [done|]. intros Hno i Hi HY. rewrite (Hk _ (at_line_range _ _) HY). apply (kernel_adds _ _ _ (n_lines i0)); [done | lia | lia].
Qed.

(** The matrix engine, where there is one. *)
Definition top_gemm (s : Top) : GemmToMem := match t_acc s with AccGemm g => g | AccVortex _ => gemm_reset end.

Lemma run_gemm mode pw x t : soc_runs mode false pw x -> t_acc (run_s x t) = AccGemm (top_gemm (run_s x t)) /\ gemm_ok (top_gemm (run_s x t)).
Proof.
  intros [H0 Hn]. induction t as [|t [IH1 IH2]].
  - rewrite H0. split; [done | apply gemm_reset_ok].
  - rewrite Hn. unfold top_gemm in *. cbn [top_next t_acc]. rewrite IH1. cbn [acc_next]. split; [done | by apply gemm_next_ok].
Qed.

Lemma psum_keeps P d m m' i j n :
  keeps P m m' -> (forall i, 0 <= i < 8 -> P (at_line d i)) -> 0 <= i < 8 -> 0 <= j < 8 -> (n <= 8)%nat -> psum d m' i j n = psum d m i j n.
Proof.
  intros K HP Hi Hj. assert (forall y, 0 <= y < 64 -> 0 <= y / 32 < 2) as Hy by (intros y ?; split; [apply Z.div_pos; lia | apply Z.div_lt_upper_bound; lia]).
  induction n as [|n IH]; intros Hn; [done|]. cbn [psum]. rewrite IH by lia. unfold elemA, elemB.
  pose proof (Hy (8 * i + Z.of_nat n) ltac:(lia)). pose proof (Hy (8 * Z.of_nat n + j) ltac:(lia)).
  by rewrite !K by first [apply at_line_range | apply HP; lia].
Qed.

Lemma multiplied_keeps P d m0 m0' c0 m m' ct :
  keeps P m0 m0' -> keeps P m m' -> (forall i, 0 <= i < 8 -> P (at_line d i)) -> multiplied d m0 c0 m ct -> multiplied d m0' c0 m' ct.
Proof.
  intros K0 K HP [H1 H2]. split.
  - intros i Hi. rewrite (K _ (at_line_range _ _)), (K0 _ (at_line_range _ _)) by (apply HP; lia). by apply H1.
  - intros i j Hi Hj. cbv zeta. rewrite (psum_keeps P d m0 m0') by done.
    assert (0 <= (8 * i + j) / 16 < 4) by (split; [apply Z.div_pos; lia | apply Z.div_lt_upper_bound; lia]).
    rewrite (K _ (at_line_range _ _)) by (apply HP; lia). by apply H2.
Qed.

(** C10. The matrix engine of the chip multiplies.  A command to the idle engine
    makes it busy and it is idle again within 38017 cycles; the operands are then
    unchanged and each of the 64 results is, modulo 2^32, the element of the
    product plus what its accumulator held when the command was given.  The
    accumulators keep the results, so only the first command after reset stores
    the product alone.  This is for the chip built with the matrix engine
    ([vortexRtl] off), in the round-robin mode, while the lanes of the CPU and
    the GPU stay off the eight lines of the command. *)
Theorem soc_gemm_runs P pw x t0 :
  soc_runs mode_fair false pw x ->
  (forall t, (t0 <= t)%nat -> off P (cpu_ask (t_cpu (run_s x t))) /\ off P (gpu_ask (t_gpu (run_s x t)))) ->
  top_gemm_busy (run_s x t0) = false -> fst (i_gemm (run_in x t0)) = true ->
  let d := snd (i_gemm (run_in x t0)) in
  (forall i, 0 <= i < 8 -> P (at_line d i)) ->
  exists T, (t0 < T <= t0 + 72 * 528 + 1)%nat /\
    top_gemm_busy (run_s x T) = false /\ (forall t, (t0 < t < T)%nat -> top_gemm_busy (run_s x t) = true) /\
    multiplied d (soc_mem (run_s x t0)) (cTile (top_gemm (run_s x t0))) (soc_mem (run_s x T)) (cTile (top_gemm (run_s x T))).
Proof.
  intros Hx Hoff Hidle Hcmd d HP. assert (forall t, t_acc (run_s x t) = AccGemm (top_gemm (run_s x t))) as Eg by (intros t; eapply run_gemm, Hx).
  unfold top_gemm_busy in Hidle. rewrite Eg in Hidle. assert (g_st (top_gemm (run_s x t0)) = g_idle) as Hs.
  { unfold gemm_busy in Hidle. by apply negb_false_iff, bool_decide_eq_true in Hidle. }
  destruct (lane_can_start false pw x t0 Hx Acc) as [m0 Hc].
  { cbn [ask_of top_ports acc_port]. rewrite Eg. cbn [acc_ask]. unfold gemm_ask, engaged. cbn [a_ready]. by rewrite Hs. }
  destruct (lane_can_mem P x t0 Acc 0 m0 Idle Hc) as [K0 _]. rewrite Nat.add_0_r in K0.
  destruct (gemm_finishes 72 P (fun t => top_gemm (run_s x (t0 + t))) (fun t => i_gemm (run_in x (t0 + t)))
    (fun t => top_reply mode_fair (run_s x (t0 + t)) Acc) (lane_can x t0 Acc) m0) as (T & m & HT & Hc' & H1 & H2 & H3); rewrite ?Nat.add_0_r in *; try done.
  - intros t. rewrite Nat.add_succ_r, (proj2 Hx). unfold top_gemm at 1. cbn [top_next t_acc]. by rewrite Eg.
  - intros t m o Hc1. destruct (lane_serves P false pw x t0 Hx Acc) with (t := t) (m := m) (o := o) as (m' & o' & Hc2 & Hp); [|done|].
    + intros t' [] Ht Hne; [by apply Hoff | by apply Hoff | done].
    + exists m', o'. split; [done|]. cbn [ask_of top_ports acc_port] in Hp. by rewrite Eg in Hp.
  - by eapply run_gemm.
  - intros t. destruct (prompt_later 72 _ _ t0 (fair_lane Acc false pw x Hx ltac:(done)) t) as (t' & Ht & Hst). exists t'. split; [done|].
    cbn [ask_of top_ports acc_port] in Hst. by rewrite Eg in Hst.
  - fold d in H3. destruct (lane_can_mem P x t0 Acc T m Idle Hc') as [KT _]. exists (t0 + T)%nat. split; [lia|]. unfold top_gemm_busy. rewrite Eg. split; [done|].
    split; [|by eapply multiplied_keeps]. intros t Ht. rewrite Eg. specialize (H2 (t - t0)%nat ltac:(lia)).
    by replace (t0 + (t - t0))%nat with t in H2 by lia.
Qed.

(** ** Parts that are not used *)

Section Unused.
Context (mode : Z) (pw : power_on) (x : soc_run) (runs : soc_runs mode false pw x).

(** Until it is started the core does nothing but take its program. *)
Lemma cpu_unused t : (forall t', (t' < t)%nat -> start (i_core (run_in x t')) = false) ->
  cm_st (adapter (t_cpu (run_s x t))) = cm_idle /\ running (core (t_cpu (run_s x t))) = false /\ halted (core (t_cpu (run_s x t))) = false /\
  memWait (core (t_cpu (run_s x t))) = false /\ loadWait (core (t_cpu (run_s x t))) = false /\
  rf (core (t_cpu (run_s x t))) = replicate 32 0 /\ pc (core (t_cpu (run_s x t))) = 0.
Proof.
  destruct runs as [H0 Hn]. induction t as [|t IH]; intros Hs; [by rewrite H0|]. destruct IH as (E1 & E2 & E3 & E4 & E5 & E6 & E7); [intros; apply Hs; lia|].
  rewrite Hn. cbn [top_next t_cpu cpu_next adapter core]. unfold coremem_next, core_next, req_fire, core_ask. cbn [a_valid]. rewrite E1, E2. cbn [andb].
  unfold core_boot. cbn. rewrite (Hs t) by lia. done.
Qed.

Lemma cpu_unused_asks t : (forall t', (t' < t)%nat -> start (i_core (run_in x t')) = false) -> a_valid (cpu_ask (t_cpu (run_s x t))) = false.
Proof. intros Hs. destruct (cpu_unused t Hs) as (E & _). unfold cpu_ask, coremem_ask. cbn [a_valid]. by rewrite E. Qed.

Lemma gemm_unused t : (forall t', (t' < t)%nat -> fst (i_gemm (run_in x t')) = false) -> g_st (top_gemm (run_s x t)) = g_idle.
Proof.
  intros Hs. induction t as [|t IH]; [by rewrite (proj1 runs)|]. destruct (run_gemm mode pw x t runs) as [E _].
  rewrite (proj2 runs). unfold top_gemm at 1. cbn [top_next t_acc]. rewrite E. cbn [acc_next]. unfold gemm_next.
  rewrite IH by (intros; apply Hs; lia). rewrite (Hs t) by lia. apply IH. intros; apply Hs; lia.
Qed.

Lemma gemm_unused_asks t : (forall t', (t' < t)%nat -> fst (i_gemm (run_in x t')) = false) -> a_valid (acc_ask (t_acc (run_s x t))) = false.
Proof.
  intros Hs. rewrite (proj1 (run_gemm mode pw x t runs)). unfold acc_ask, gemm_ask, engaged. cbn [a_valid]. by rewrite (gemm_unused t Hs).
Qed.

Lemma gpu_unused t : (forall t', (t' < t)%nat -> simt_start (i_simt (run_in x t')) = false /\ a_valid (i_gpu (run_in x t')) = false) ->
  si_st (t_simt (run_s x t)) = st_idle /\ l2_st (l2 (t_gpu (run_s x t))) = l2_idle /\ x_st (axi (t_gpu (run_s x t))) = x_idle.
Proof.
  destruct runs as [H0 Hn]. induction t as [|t IH]; intros Hs; [by rewrite H0|]. destruct IH as (E1 & E2 & E3); [intros; apply Hs; lia|].
  destruct (Hs t ltac:(lia)) as [S1 S2]. rewrite Hn. cbn [top_next t_simt t_gpu gpu_next l2 axi]. split; [|split].
  - unfold simt_next. by rewrite E1, S1.
  - unfold l2_next. rewrite E2. assert (l2_any (l2 (t_gpu (run_s x t))) (valids (top_clusters (run_s x t) (run_in x t))) = false) as ->; [|done].
    unfold l2_any, l2_lower, l2_upper, valids, top_clusters. cbn. rewrite S2. unfold simt_ask. cbn [a_valid]. rewrite E1. decide_closed. cbn.
    by rewrite !andb_false_r.
  - unfold axi_next, l2_axi. cbn. rewrite E3, E2. by decide_closed.
Qed.

Lemma gpu_unused_asks t : (forall t', (t' < t)%nat -> simt_start (i_simt (run_in x t')) = false /\ a_valid (i_gpu (run_in x t')) = false) ->
  a_valid (gpu_ask (t_gpu (run_s x t))) = false.
Proof. intros Hs. destruct (gpu_unused t Hs) as (_ & _ & E). unfold gpu_ask, axi_ask. by rewrite E. Qed.

(** The memory is zero until someone asks. *)
Lemma mem_unused t :
  (forall t', (S t' < t)%nat -> start (i_core (run_in x t')) = false) -> (forall t', (t' < t)%nat -> fst (i_gemm (run_in x t')) = false) ->
  (forall t', (t' < t)%nat -> simt_start (i_simt (run_in x t')) = false /\ a_valid (i_gpu (run_in x t')) = false) ->
  exists w, top_rep (run_s x t) (fun _ => 0) None w.
Proof.
  induction t as [|t IH]; intros Hc Hg Hi; [rewrite (proj1 runs); eexists; apply top_reset_rep|].
  destruct IH as [w R]; [intros; first [apply Hc | apply Hg | apply Hi]; lia..|].
  pose proof (top_cycle mode _ (run_in x t) _ _ w R) as H. rewrite (proj2 runs).
  assert (winner (t_split (run_s x t)) (top_ports (run_s x t)) mode = None) as E.
  { unfold winner, any, top_ports. cbn [cpu_port gpu_port acc_port].
    rewrite cpu_unused_asks, gpu_unused_asks, gemm_unused_asks by (intros; first [apply Hc | apply Hg | apply Hi]; lia). done. }
  cbn [atomic_cycle] in H. rewrite E in H. destruct H as (w' & R' & _). by exists w'.
Qed.

(** The program port fills the instruction memory, and [start] starts it. *)
Lemma boot_imem prog t : (t <= 256)%nat -> length prog = 256%nat ->
  (forall t', (t' < t)%nat -> i_core (run_in x t') = MkCoreIn true (Z.of_nat t') (word_of (vget prog (Z.of_nat t'))) false) ->
  take t (imem (core (t_cpu (run_s x t)))) = take t (word_of <$> prog) /\ length (imem (core (t_cpu (run_s x t)))) = 256%nat.
Proof.
  intros Ht Hl. induction t as [|t IH]; intros Hs; [rewrite (proj1 runs); done|]. destruct IH as [E1 E2]; [lia | intros; apply Hs; lia|].
  destruct (cpu_unused t) as (_ & Er & _); [intros t' ?; by rewrite Hs by lia|].
  rewrite (proj2 runs). cbn [top_next t_cpu cpu_next core]. unfold core_next. rewrite Er. cbn [andb]. unfold core_boot. cbn [imem]. rewrite Hs by lia. cbn [prog_we prog_addr prog_data].
  rewrite length_vset. split; [|done]. unfold vset. rewrite Nat2Z.id.
  rewrite (take_S_r _ t (word_of (vget prog (Z.of_nat t)))) by (apply list_lookup_insert_eq; lia).
  rewrite (take_S_r (word_of <$> prog) t (word_of (vget prog (Z.of_nat t)))).
  - f_equal. rewrite take_insert_ge by lia. done.
  - rewrite list_lookup_fmap. pose proof (vget_lookup prog (Z.of_nat t) ltac:(lia)) as Hv. rewrite Nat2Z.id in Hv. by rewrite Hv.
Qed.
End Unused.

(** Booted with a program, the core is about to execute its first instruction. *)
Lemma boot_starts mode pw x prog P b :
  soc_runs mode false pw x -> length prog = 256%nat ->
  (forall t, (t < 256)%nat -> i_core (run_in x t) = MkCoreIn true (Z.of_nat t) (word_of (vget prog (Z.of_nat t))) false) ->
  i_core (run_in x 256) = MkCoreIn false 0 0 true ->
  mem_rel P (soc_mem (run_s x 257)) b -> lines_ok P (soc_mem (run_s x 257)) ->
  cpu_starts prog P (t_cpu (run_s x 257)) (soc_mem (run_s x 257)) (MkHart (replicate 32 0) 0 b).
Proof.
  intros Hx Hl Hw Hs Hm Hok. destruct (boot_imem mode pw x Hx prog 256 ltac:(lia) Hl Hw) as [E1 E2].
  rewrite !take_ge in E1 by (rewrite ?length_fmap; lia).
  destruct (cpu_unused mode pw x Hx 256) as (C1 & C2 & C3 & C4 & C5 & C6 & C7); [intros t' ?; by rewrite Hw|].
  pose proof (proj2 Hx 256%nat) as En. rewrite En at 1. cbn [top_next t_cpu].
  assert (core_next true (core (t_cpu (run_s x 256))) (i_core (run_in x 256)) (coremem_word (adapter (t_cpu (run_s x 256)))) =
    core_boot (core (t_cpu (run_s x 256))) (i_core (run_in x 256))) as Eb by (unfold core_next; by rewrite C2).
  split; try done; cbn [cpu_next core adapter h_pc h_mem h_x].
  - rewrite Eb, Hs. unfold core_boot. by split.
  - rewrite Eb, Hs. done.
  - unfold coremem_next, req_fire, core_ask. cbn [a_valid]. by rewrite C1, C2.
  - split; [done|]. apply Forall_replicate. lia.
Qed.

(** ** Demonstration runs *)

Definition idle_axi : AxiMaster := MkAxiM 0 0 0 0 0 false 0 0 false false false 0 0 0 0 0 false false.
Definition idle_ask : Ask MemReq := MkAsk false (MkMemReq 0 0 false 0) true.

Fixpoint run_of (pw : power_on) (ins : nat -> top_in) (t : nat) : Top :=
  match t with O => top_reset false pw | S t => top_next mode_fair (run_of pw ins t) (ins t) end.

Lemma run_of_runs pw ins : soc_runs mode_fair false pw (MkRun (run_of pw ins) ins).
Proof. by split. Qed.

Definition zero_power : power_on := MkPower 0 0 false (replicate 12 0).

(** The host boots the demonstration program; the SIMT core and the matrix
    engine stay idle. *)
Definition boot_in (t : nat) : top_in :=
  MkTopIn (if (t <? 256)%nat then MkCoreIn true (Z.of_nat t) (word_of (vget demo_prog (Z.of_nat t))) false else MkCoreIn false 0 0 (t =? 256)%nat)
    idle_ask (MkSimtIn false 0 0 0 0) (false, 0) idle_axi.

Lemma boot_mem l : 0 <= l < 256 -> soc_mem (run_of zero_power boot_in 257) l = 0.
Proof.
  intros Hl. destruct (mem_unused mode_fair zero_power _ (run_of_runs zero_power boot_in) 257) as [w R]; [|done..|].
  - intros t Ht. cbn [run_in]. unfold boot_in. cbn [i_core]. by rewrite (proj2 (Nat.ltb_lt t 256)) by lia.
  - exact (proj1 (rep_mem (fun _ => True) _ _ _ _ R) l Hl I).
Qed.

Lemma soc_cpu_runs_witness :
  exists T, (257 <= T <= 257 + 432 * 3 + 72)%nat /\
    top_halt (run_of zero_power boot_in T) = true /\ vget (top_regs (run_of zero_power boot_in T)) 2 = 5.
Proof.
  set (P := fun l => (l =? 0) = true). set (h0 := MkHart (replicate 32 0) 0 (fun _ => 0)).
  destruct (soc_cpu_runs P false zero_power (MkRun (run_of zero_power boot_in) boot_in) 257 demo_prog h0 3
    (rv32_exec (rv_load l_lw 2 0 8) (rv32_exec (rv_store st_sw 1 0 8) (rv32_exec (rv_opi i_addi 1 0 5) h0)))) as (T & HT & Hh & _ & Hx & _).
  - apply run_of_runs.
  - intros t Ht. split; [|split].
    + unfold boot_in. cbn [run_in i_core]. by rewrite (proj2 (Nat.ltb_ge t 256)) by lia.
    + intros Hv. by rewrite (gpu_unused_asks mode_fair zero_power _ (run_of_runs _ _) t) in Hv.
    + intros Hv. by rewrite (gemm_unused_asks mode_fair zero_power _ (run_of_runs _ _) t) in Hv.
  - apply (boot_starts mode_fair zero_power _ demo_prog P _ (run_of_runs _ _)).
    + reflexivity.
    + intros t Ht. cbn [run_in]. unfold boot_in. cbn [i_core]. by rewrite (proj2 (Nat.ltb_lt t 256)) by lia.
    + reflexivity.
    + intros y Hy HP. cbn [run_s]. rewrite boot_mem by (apply (slice_range y 6 8); lia). unfold slice. by rewrite Zdiv_0_l, Zmod_0_l.
    + intros l Hl HP. cbn [run_s]. rewrite boot_mem by done. lia.
  - eapply nsteps_l; [by apply (isa_instr _ _ _ _ (rv_opi i_addi 1 0 5))|].
    eapply nsteps_l; [apply (isa_instr _ _ _ _ (rv_store st_sw 1 0 8)); [reflexivity | reflexivity | by vm_compute | reflexivity]|].
    apply nsteps_once. apply (isa_instr _ _ _ _ (rv_load l_lw 2 0 8)); [reflexivity | reflexivity | by vm_compute | reflexivity].
  - reflexivity.
  - exists T. split; [exact HT|]. split; [exact Hh|]. cbn [run_s] in Hx. rewrite Hx. reflexivity.
Defined.

(** The host starts a kernel of two lines; the CPU and the matrix engine stay
    idle. *)
Definition simt_demo (t : nat) : top_in := MkTopIn (MkCoreIn false 0 0 false) idle_ask (MkSimtIn true 0 0x80 0x100 2) (false, 0) idle_axi.

Lemma soc_simt_runs_witness :
  exists T, (0 < T <= 0 + 595 * 2 + 1)%nat /\ top_simt_done (run_of zero_power simt_demo T) = true /\
    adds (soc_mem (run_of zero_power simt_demo 0) 1) (soc_mem (run_of zero_power simt_demo 0) 3) (soc_mem (run_of zero_power simt_demo T) 5).
Proof.
  destruct (soc_simt_runs (fun _ => True) false zero_power (MkRun (run_of zero_power simt_demo) simt_demo) 0) as (T & HT & Hd & _ & _ & Ha); try done.
  - intros t _. split; [|split; [|split; [done | done]]]; intros Hv.
    + by rewrite (cpu_unused_asks mode_fair zero_power _ (run_of_runs _ _) t) in Hv.
    + by rewrite (gemm_unused_asks mode_fair zero_power _ (run_of_runs _ _) t) in Hv.
  - exists T. split; [exact HT|]. split; [exact Hd|]. apply (Ha ltac:(intros i j Hi Hj; cbn in Hj; assert (i = 0) as -> by lia; assert (j = 1) as -> by lia; done) 1); [|done].
    cbn. lia.
Defined.

(** The host starts the matrix engine; the CPU and the GPU stay idle. *)
Definition gemm_demo (t : nat) : top_in := MkTopIn (MkCoreIn false 0 0 false) idle_ask (MkSimtIn false 0 0 0 0) (true, 0x400) idle_axi.

Lemma soc_gemm_runs_witness :
  exists T, (0 < T <= 0 + 72 * 528 + 1)%nat /\ top_gemm_busy (run_of zero_power gemm_demo T) = false /\
    multiplied 0x400 (soc_mem (run_of zero_power gemm_demo 0)) (replicate 64 0) (soc_mem (run_of zero_power gemm_demo T)) (cTile (top_gemm (run_of zero_power gemm_demo T))).
Proof.
  destruct (soc_gemm_runs (fun _ => True) zero_power (MkRun (run_of zero_power gemm_demo) gemm_demo) 0) as (T & HT & Hb & _ & Hm); try done.
  - intros t _. split; intros Hv.
    + by rewrite (cpu_unused_asks mode_fair zero_power _ (run_of_runs _ _) t) in Hv.
    + by rewrite (gpu_unused_asks mode_fair zero_power _ (run_of_runs _ _) t) in Hv.
  - exists T. split; [exact HT|]. split; [exact Hb|]. exact Hm.
Defined.
